(* ===== verification/_CoqProject ===== *)
-Q . S2P
Prelude.v
GoSlices.v
StatIO.v
StatIOSeries.v
StatIOPlan.v
GoFloat.v
GoFloatOrder.v
GoFloatInt.v
GoFmt.v
Sanitize.v
HotObjects.v
AutoConfig.v
SpikeMachine.v
AutoEffects.v
AutoLocks.v
AutoTriggers.v
AutoDaemon.v
Discovery.v
PatroniLayout.v
Patroni.v
Sqlparse.v
Auth.v
Activity.v
Sampler.v
ExplainPlan.v
ExplainRules.v
Health.v
HealthRules.v
IndexAdvice.v
AdvisorCatalog.v
GoStrings.v
AdvisorDDL.v
AdvisorPredicate.v
IndexAdvisor.v
AdvisorFold.v
AdvisorSound.v
GoNumber.v
GoRegexp.v
ExplainText.v
ExplainOutline.v
LogPattern.v
LogInsights.v
LogPlans.v
LogPlansSound.v
LogCompare.v
LogSource.v
LogSearch.v
LogOpenSearch.v
LogOpenSearchSound.v
LogService.v
LogServiceSound.v
LogSnapshots.v
GoGlob.v
SchemaLint.v
SchemaLintRepo.v
SchemaLintSound.v
MetricSignals.v
HealthScorer.v
HealthFleet.v
FleetFlights.v
MetricBatch.v
MetricCatalog.v
GoNet.v
MetricMatcher.v
