(* ===== verification/Prelude.v ===== *)
(** * Dasha: a verification library of the backend's core logic

    Dasha watches a fleet of PostgreSQL clusters. Its backend (Go, under
    [src/backend]) discovers the clusters, polls their hosts, takes snapshots when
    something happens, turns cumulative counters into deltas and series, scores and
    explains what it sees, reads logs and metrics from where they are kept, and serves the
    result behind an authenticating HTTP API. This library models the packages that carry
    that logic. Package paths below are relative to [src/backend/internal].

    ** The parts of the program, and the files that model them

    - [StatIO], [StatIOSeries], [StatIOPlan]: [statio/statio.go]. A capture of
      pg_stat_io is a [Snapshot]; [Delta] subtracts two adjacent ones; a history
      request reads only the captures [At] lists, as [PlanBuckets] planned from the
      headers, and [Assemble]s the buckets.
    - [HotObjects]: [hotobjects/*.go]. Per-host anchors become one snapshot with an
      exact top-N ([BuildSnapshot]) and the tables without traffic ([AdvanceQuiet],
      [BuildCold]).
    - [AutoConfig], [SpikeMachine], [AutoEffects], [AutoLocks], [AutoTriggers],
      [AutoDaemon]: [autosnapshot/*.go]. The configuration and its per-cluster
      override; the state a host has between probes; the daemon's monad; the lock
      graph; the triggers of one sweep; the loop with deferred snapshots, scheduled
      captures, retention and leader election. A handler is a computation of
      [AutoEffects.M]: it reads and writes the daemon's state, calls the surroundings,
      and may panic.
    - [Discovery], [PatroniLayout], [Patroni]: [discovery/*.go],
      [discovery/filter], [discovery/pgdb], [discovery/patroni],
      [pkg/mapstruct] and the registry of [config/config.go]. The engine asks
      providers for clusters and publishes them in the registry the rest of the backend
      reads; the Patroni provider parses the keys of a DCS.
    - [Sanitize]: [pkg/sanitize]. Masking of credentials in SQL text, used by the
      logs and by the snapshots.
    - [Sqlparse]: [sqlparse/lru.go], [sqlparse/parser.go]. The parser cache.
    - [Auth]: [auth/*.go] and the middleware chain of [http/strictserver.go].
    - [Activity], [Sampler]: [activity/*.go]. The profile of sampled sessions,
      and the sampler shared by concurrent callers.
    - [ExplainPlan], [ExplainRules], [ExplainText], [ExplainOutline]: [explain/*.go]. A
      plan, in JSON or as text, becomes a tree with a fingerprint, and a catalog of rules
      reads the tree; [ExplainOutline] is what the indentation of a text alone says.
    - [Health], [HealthRules]: [health/*.go] and the sequence thresholds of
      [schemalint/config.go]. The score of an instance from its raw metrics, and the
      rules that recommend.
    - [MetricSignals], [MetricBatch], [MetricCatalog], [MetricMatcher]: [metrics/*.go].
      Readings of a datasource as raw metrics and trends; the batches they are fetched in;
      the queries of each provider; the configuration, and the labels a target is known by.
    - [HealthScorer], [HealthFleet], [FleetFlights]: [healthscore/*.go] and
      [config.FleetConfig]. What a score is computed from; the worst instances of a fleet
      within a budget; the computations concurrent callers share. [HealthScorer] joins
      [MetricSignals] and the SQL snapshot into the raw metrics of [Health]; [HealthFleet]
      ranks with [MetricSignals] and scores with [HealthScorer]; [FleetFlights] serves the results
      of [HealthFleet].
    - [IndexAdvice]: [indexadvice/indexadvice.go]. Verdicts on existing indexes.
    - [AdvisorCatalog], [AdvisorDDL], [AdvisorPredicate], [IndexAdvisor], [AdvisorFold],
      [AdvisorSound]: [indexadvisor/*.go] but [evidence.go]. From a workload and a catalog
      to ranked index candidates with their DDL; the last two files hold theorems only.
    - [LogPattern], [LogInsights], [LogPlans], [LogPlansSound], [LogCompare]:
      [logs/pattern], [logs/insights]. Templates of messages, categories, the plans of a window
      by statement and shape, and the comparison of two windows.
    - [LogSource], [LogOpenSearch], [LogOpenSearchSound]: [logs/source] and its OpenSearch
      client. The contract of a source, the field maps, and a read with its cursors.
    - [LogSearch], [LogService], [LogServiceSound], [LogSnapshots]: [logs/*.go]. Searches,
      insights, plans, evidence and comparisons over a source, and the snapshots written in
      the background.
    - [SchemaLint], [SchemaLintRepo], [SchemaLintSound]: [schemalint/*.go] and
      [repository/schemalint.go]. The plan of the schema checks, their queries, the report.
    - [Prelude] (this file): machine integers, Go's maps, stable and unstable sorting,
      and the lemmas all files share. [GoSlices], [GoStrings], [GoFloat], [GoFloatOrder],
      [GoFloatInt], [GoFmt], [GoNumber], [GoRegexp], [GoGlob], [GoNet]: what the code uses of
      Go's standard library, [float64] on the kernel's binary64.

    Names are the source's. A Go struct is a [Record] with the fields the modelled code
    reads or writes, a method is a definition over the receiver, an [error] result is a
    sum or an [option], a pointer that may be nil is an [option].

    ** How Go is rendered

    - [int64] and [int] are [Z] with the wrap-around written out ([wrap64]); a quantity
      is left as [Z] without it only where it is a length or a time of day, which the
      file says. A [time] is an instant and a [duration] a difference, in nanoseconds.
    - A [map] is a [gmap]; ranging over one is an arbitrary enumeration of its entries,
      the class [MapRange]: a theorem under it holds for every order Go may choose.
    - [sort.Slice] is [sort_slice], of which only what an unstable sort guarantees is
      used unless the order is strict on the elements present; [sort.SliceStable] and
      [slices.SortStableFunc] are [sort_stable].
    - A panic is [None] of the computation's result; what was changed before it stays.
    - Concurrency: where goroutines share state ([Sampler], [LogSnapshots], [FleetFlights]) each
      critical section is a step of a relation, and between two steps anything else may
      happen. The daemon's own loop is one goroutine, and is sequential. Goroutines that
      share nothing but their results ([MetricBatch], the queue of [HealthFleet]) are run in
      order, against surroundings that answer anything.
    - A call that streams to a callback ([LogSource.run]) is the sequence it would hand out, and
      how it ends; whoever reads decides after each element whether to go on.
    - Log output and metrics counters are left out everywhere.

    ** What the theorems show

    - Numbers that reach the screen: [StatIO.Delta_correct],
      [StatIOSeries.Assemble_sums_adjacent], [HotObjects.aggregate_correct],
      [Activity.Aggregate_exact], [IndexAdvice.Report_exact], with
      [StatIO.map_order_irrelevant] for determinism and
      [StatIOPlan.PlanBuckets_lossless] for the planned reads.
    - The daemon: what a sweep, a trigger and a capture do on every outcome of every call
      ([AutoTriggers], [AutoDaemon]); the host invariant, kept by every step and so true
      of every reachable state; the spike counters against the list of probes they
      summarise ([SpikeMachine.advanceSpike_refines]); retention, leadership.
    - Discovery never loses or doubles a cluster ([Discovery.UpdateSource_unique],
      [Patroni.Discover_keeps_lists]), and links a standby only when sure
      ([PatroniLayout.standbyOf_unique]).
    - Access: [Auth.server_guards], [Auth.refresh_roundtrip], [Auth.login_sound].
    - Caches and sharing are invisible: [Sqlparse.lru_refines],
      [Sqlparse.cache_transparent], [Sampler.sampler_shares], [Sampler.sampler_rate],
      [FleetFlights.computations_bounded], [FleetFlights.answers_current],
      [LogSnapshots.snapshot_reads_follow_writes]; and who waits is served
      ([Sampler.waiter_served], [LogSnapshots.snapshot_wait_ends]).
    - Plans: addressing, fingerprint and parsing ([ExplainPlan], [ExplainOutline]), the catalog
      ([ExplainRules.Evaluate_sound]).
    - Health: the score and the recommendations ([Health.score_bounded],
      [HealthRules.floor_explained]); where a recommendation comes from
      ([HealthScorer.gap_attribution]); who is looked at first
      ([HealthFleet.prefilter_exact], [HealthFleet.sticky_kept]) and that a computation ends
      ([HealthFleet.compute_exact]).
    - Metrics: no query is lost, and a value comes from its own query
      ([MetricBatch.instant_exact], [MetricBatch.rejection_isolated]); a valid configuration has
      a selector for each role ([MetricMatcher.target_selectable]); a scrape is taken for a
      target's only when nothing else can be meant ([MetricMatcher.scrape_found]); the trend
      ([MetricSignals.History_exact]).
    - Index candidates: [AdvisorSound.Build_sound], [AdvisorSound.Build_not_redundant],
      [AdvisorSound.Build_accounts], and their scripts ([AdvisorDDL.partitionDDL_script]).
    - Logs: nothing is read twice or lost ([LogOpenSearchSound.search_index_exact],
      [LogSearch.search_pages_exact]); what is counted is what was read
      ([LogInsights.Summary_exact], [LogPlansSound.PlansSummary_exact],
      [LogSearch.searchDedup_exact], [LogServiceSound.scanPlans_exact]); what is compared
      ([LogCompare.Compare_exact]); what may be read ([LogServiceSound.PlansForQueryIDs_confined]);
      what is masked ([LogSource.FieldMapFromConfig_exact]).
    - Schema checks: one query for each that needs it ([SchemaLintSound.Plan_exact]), none
      missing without a word ([SchemaLintSound.checks_accounted]), the report
      ([SchemaLintSound.BuildReport_exact]).

    Examples beside the theorems evaluate the definitions on concrete inputs, and record
    the places where the code departs from its comments.

    ** Fuel and bounds

    Recursion is structural wherever the code's loops range over a slice or a tree.
    The lists of captures, hosts, probes, sessions, records and statements are unbounded.
    Where the code loops otherwise the definition has fuel, enough of it in every case:

    - a search in a string (regular expressions, globs, replacement, numbers, addresses): the
      length of what is left and one more; each turn takes a character;
    - the tree of partitions and the script of one: the tables and one more, which bounds every path;
    - a free name ([AdvisorDDL.reserve]): a hundred names for each that is taken and one more, by counting;
    - a read of an OpenSearch index: the documents of the index and one more, and the cursors of
      a search: the records and one more; each request hands out a new one;
    - the queue of a fleet ([HealthFleet.dispatch]): the targets and two more; every turn starts a
      target but the one that waits for the metrics;
    - the halving of a rejected request ([MetricBatch.split]): its items and one more.

    All but the first are proved to be enough, and so is that of [GoGlob]; the other searches in a
    string stop at its end. The step relations have no fuel;
    [Sampler.waiter_served], [LogSnapshots.snapshot_wait_ends] and [FleetFlights.answers_current]
    bound the number of steps a wait takes. Where a count can overflow in the code, the theorem has the bound
    as a hypothesis or the result is stated modulo wrap-around; [Prelude.int64] is that
    hypothesis.

    ** What is a parameter

    Code outside the repository is an argument: the struct-tag validator and the cron
    library ([AutoConfig.Validator], [AutoDaemon.Cron], with the laws used), the JSON and
    URL parsers and the Unicode tables ([PatroniLayout.GoText]), the decoding of plan
    JSON ([ExplainPlan.PlanJSON]), the digest of [sha256], of which at most is used that the
    texts at hand do not collide, the WASM SQL parser, the
    cookie codec, the identity provider, the token store and the policy engine
    ([Auth.Surroundings], [Auth.PolicyEngine]), [time.Parse], text templates and [%q] outside
    ASCII, the text of a cursor, the quoting of identifiers by the driver, and the databases, stores,
    log and metrics sources and DCS a component talks to, which answer anything. A law assumed of a
    parameter is a class of its own or a hypothesis with a witness, and there is an instance that satisfies it.

    ** Not modelled

    - The HTTP handlers, generated code, wiring, SQL text, data transfer objects and the
      main programs: glue or data, no logic of their own. The frontend is TypeScript.
    - [repository] (but [schemalint.go]), [storage] and the clients of etcd, Consul, Yandex Cloud,
      VictoriaLogs and the metrics datasource: input and output; their logic is in SQL or in the service.
    - [metrics/collector.go] and [metrics/service.go]: the caches of baselines and the fan-out
      around the batches; the sharing of inputs in [healthscore/inputs.go]; the diagnostics of a target.
    - [QueryKey] and the cutting of texts in [activity], the limiter store of
      [auth/ratelimit.go], [indexadvisor/evidence.go], [query].
    - [mcpserver]: tool definitions over the API.

    ** Plan

    In this order: the caches of baselines, the sharing of the inputs of a score, the VictoriaLogs
    source against the contract of [LogSource], the Postgres provider, the limiter
    store and the token budget of [mcpserver]. *)

From Stdlib Require Export ZArith Lia.
From Stdlib Require Ascii.
From stdpp Require Export base gmap strings list sorting fin_maps.
From stdpp Require Import options.

#[global] Open Scope Z_scope.
Declare Scope go_scope.
Delimit Scope go_scope with go.

(** ** Machine integers

    Go's [int64] (and [int], and [time.Duration], which is an [int64] of
    nanoseconds) is a [Z] with its wrap-around written out. *)

Definition min64 : Z := - 2 ^ 63.
Definition max64 : Z := 2 ^ 63 - 1.

Definition wrap64 (z : Z) : Z := (z + 2 ^ 63) mod 2 ^ 64 - 2 ^ 63.

Definition add64 (a b : Z) : Z := wrap64 (a + b).
Definition sub64 (a b : Z) : Z := wrap64 (a - b).
Definition mul64 (a b : Z) : Z := wrap64 (a * b).
(** Integer division truncates towards zero; a zero divisor panics in Go, so
    every use of [div64] stands under a guard or returns an [option]. *)
Definition div64 (a b : Z) : Z := wrap64 (Z.quot a b).

Infix "⊞" := add64 (at level 50, left associativity) : go_scope.
Infix "⊟" := sub64 (at level 50, left associativity) : go_scope.
Infix "⊠" := mul64 (at level 40, left associativity) : go_scope.
#[global] Open Scope go_scope.

(** A value that fits the width. *)
Definition int64 (z : Z) : Prop := min64 ≤ z ≤ max64.

#[global] Instance int64_dec z : Decision (int64 z).
Proof. unfold int64. apply _. Defined.

(** ** Time

    A [time.Time] is the number of nanoseconds since the Unix epoch; location
    and monotonic reading are dropped (the code compares, adds and subtracts
    instants only). [Sub] saturates at the [Duration] range; [UnixNano] wraps. *)

Abbreviation time := Z (only parsing).
Abbreviation duration := Z (only parsing).

Definition time_sub (t u : time) : duration :=
  Z.max min64 (Z.min max64 (t - u)).
Definition time_add (t : time) (d : duration) : time := t + d.
Definition time_before (t u : time) : bool := t <? u.
Definition time_after (t u : time) : bool := u <? t.
Definition unix_nano (t : time) : Z := wrap64 t.

(** The zero [time.Time], 1 January of year 1 UTC. *)
Definition zero_time : time := -62135596800 * 10 ^ 9.
Definition is_zero (t : time) : bool := t =? zero_time.

Definition Second : duration := 10 ^ 9.
Definition Minute : duration := 60 * Second.
Definition Hour : duration := 60 * Minute.

(** ** Map iteration

    [range] over a Go map visits the entries in an unspecified order, which may
    differ between two loops over the same map. A [MapRange] is one such
    choice of orders; [site] names the loop. Theorems hold for every instance. *)

Class MapRange := {
  map_range : ∀ {K : Type} `{Countable K} {V : Type},
    string → gmap K V → list (K * V);
  map_range_perm : ∀ {K : Type} `{Countable K} {V : Type} (site : string) (m : gmap K V),
    map_range site m ≡ₚ map_to_list m
}.

(** The order used by the witnesses. *)
Definition canonical_range : MapRange := {|
  map_range := λ K _ _ V _ m, map_to_list m;
  map_range_perm := λ K _ _ V _ m, Permutation_refl _
|}.

(** Another legal order. *)
Definition reversed_range : MapRange := {|
  map_range := λ K _ _ V _ m, reverse (map_to_list m);
  map_range_perm := λ K _ _ V _ m, reverse_Permutation (map_to_list m)
|}.

(** ** Sorting

    [sort.Slice] with a [less] function. The order of elements that [less] does
    not separate is unspecified in Go; here it is the merge sort's, and every
    use either has no such elements or sorts a slice that already is in an
    arbitrary order (a [MapRange]). *)

Definition not_less {A} (less : A → A → bool) : relation A := λ x y, less y x = false.

#[global] Instance not_less_dec {A} (less : A → A → bool) : RelDecision (not_less less).
Proof. intros x y. unfold not_less. apply _. Defined.

Definition sort_slice {A} (less : A → A → bool) (l : list A) : list A :=
  merge_sort (not_less less) l.

(** [slices.SortStableFunc]: elements that [less] does not separate keep their order. *)
Fixpoint insert_stable {A} (less : A → A → bool) (x : A) (l : list A) : list A :=
  match l with
  | [] => [x]
  | y :: l' => if less y x then y :: insert_stable less x l' else x :: l
  end.

Definition sort_stable {A} (less : A → A → bool) (l : list A) : list A := foldr (insert_stable less) [] l.

(** What [sort.Slice] asks of [less]: a strict weak order. *)
Class StrictWeak {A} (less : A → A → bool) : Prop := {
  less_asym : ∀ x y, less x y = true → less y x = false;
  less_neg_trans : ∀ x y z, less x y = false → less y z = false → less x z = false
}.

(** [cmp.Or] of two comparisons: the second decides what the first leaves open. *)
Definition lex_less {A} (less1 less2 : A → A → bool) (x y : A) : bool :=
  less1 x y || (negb (less1 y x) && less2 x y).

(** Comparison of a projection, upwards or downwards. *)
Definition less_on {A B} (f : A → B) (less : B → B → bool) (x y : A) : bool := less (f x) (f y).
Definition more_on {A B} (f : A → B) (less : B → B → bool) (x y : A) : bool := less (f y) (f x).

(** Elements that [less] does not separate agree on [key]. *)
Class Separates {A K} (less : A → A → bool) (key : A → K) : Prop :=
  separates : ∀ x y, less x y = false → less y x = false → key x = key y.

(** A list in strictly increasing order. *)
Definition strictly {A} (less : A → A → bool) (l : list A) : Prop := StronglySorted (λ x y, less x y = true) l.

(** Go compares strings bytewise. *)
Definition str_ltb (s t : string) : bool := String.ltb s t.

(** ** Lemmas on machine integers *)

Section int64_lemmas.
Implicit Types a b z : Z.

Lemma wrap64_id z : int64 z → wrap64 z = z.
Proof. unfold int64, min64, max64, wrap64. intros. rewrite Z.mod_small; lia. Qed.

Lemma wrap64_range z : int64 (wrap64 z).
Proof.
  unfold int64, min64, max64, wrap64.
  pose proof (Z.mod_pos_bound (z + 2 ^ 63) (2 ^ 64)). lia.
Qed.

Lemma wrap64_congr a b : (a - b) mod 2 ^ 64 = 0 → wrap64 a = wrap64 b.
Proof.
  intros H. unfold wrap64. f_equal.
  apply Z.mod_divide in H as [q Hq]; [|lia].
  replace (a + 2 ^ 63) with (b + 2 ^ 63 + q * 2 ^ 64) by lia.
  by rewrite Z.mod_add by lia.
Qed.

Lemma wrap64_diff z : ∃ q, wrap64 z = z + q * 2 ^ 64.
Proof.
  unfold wrap64. exists (- ((z + 2 ^ 63) / 2 ^ 64)).
  pose proof (Z.div_mod (z + 2 ^ 63) (2 ^ 64)). lia.
Qed.

Lemma wrap64_add_l a b : wrap64 (wrap64 a + b) = wrap64 (a + b).
Proof.
  destruct (wrap64_diff a) as [q ->]. apply wrap64_congr.
  replace (a + q * 2 ^ 64 + b - (a + b)) with (q * 2 ^ 64) by lia.
  by rewrite Z.mod_mul by lia.
Qed.

Lemma wrap64_add_r a b : wrap64 (a + wrap64 b) = wrap64 (a + b).
Proof. by rewrite Z.add_comm, wrap64_add_l, Z.add_comm. Qed.

Lemma add64_comm a b : a ⊞ b = b ⊞ a.
Proof. unfold add64. by rewrite Z.add_comm. Qed.

Lemma add64_assoc a b c : a ⊞ (b ⊞ c) = a ⊞ b ⊞ c.
Proof. unfold add64. by rewrite wrap64_add_l, wrap64_add_r, Z.add_assoc. Qed.

Lemma add64_0_l a : int64 a → 0 ⊞ a = a.
Proof. intros. unfold add64. by rewrite Z.add_0_l, wrap64_id. Qed.

Lemma add64_small a b : int64 (a + b) → a ⊞ b = a + b.
Proof. apply wrap64_id. Qed.

Lemma sub64_small a b : int64 (a - b) → a ⊟ b = a - b.
Proof. apply wrap64_id. Qed.

Lemma time_sub_small a b : int64 (a - b) → time_sub a b = a - b.
Proof. unfold time_sub, int64. lia. Qed.

Lemma time_sub_range a b : int64 (time_sub a b).
Proof. unfold time_sub, int64, min64, max64. lia. Qed.

Lemma unix_nano_small a : int64 a → unix_nano a = a.
Proof. apply wrap64_id. Qed.
End int64_lemmas.

(** ** Lemmas on strings *)

Lemma list_ascii_app a b :
  String.list_ascii_of_string (a +:+ b) = String.list_ascii_of_string a ++ String.list_ascii_of_string b.
Proof.
  induction a as [|c a IH]; [done|]. change (String c a +:+ b)%string with (String c (a +:+ b)).
  cbn. by rewrite IH.
Qed.

(** ** Lemmas on sorting *)

Section sort_lemmas.
Context {A : Type} (less : A → A → bool).

#[global] Instance not_less_total `{!StrictWeak less} : Total (not_less less).
Proof.
  intros x y. unfold not_less. destruct (less y x) eqn:E; [|by left].
  right. by apply less_asym.
Qed.

#[global] Instance not_less_trans `{!StrictWeak less} : Transitive (not_less less).
Proof. intros x y z ??. unfold not_less in *. by eapply less_neg_trans. Qed.

Lemma sort_slice_perm l : sort_slice less l ≡ₚ l.
Proof. apply merge_sort_Permutation. Qed.

Lemma sort_slice_sorted `{!StrictWeak less} l :
  StronglySorted (not_less less) (sort_slice less l).
Proof. apply (StronglySorted_merge_sort _ _). Qed.

Lemma sort_slice_length l : length (sort_slice less l) = length l.
Proof. by rewrite sort_slice_perm. Qed.

Lemma elem_of_sort_slice x l : x ∈ sort_slice less l ↔ x ∈ l.
Proof. by rewrite sort_slice_perm. Qed.

(** When [less] separates the elements present, the input order is irrelevant. *)
Lemma sort_slice_unique `{!StrictWeak less} l1 l2 :
  l1 ≡ₚ l2 →
  (∀ x y, x ∈ l1 → y ∈ l1 → less x y = false → less y x = false → x = y) →
  sort_slice less l1 = sort_slice less l2.
Proof.
  intros Hp Hsep. apply (StronglySorted_unique_strong (not_less less)).
  - intros x y Hx Hy Hxy Hyx. rewrite elem_of_sort_slice in Hx.
    rewrite elem_of_sort_slice, <-Hp in Hy. by apply Hsep.
  - apply sort_slice_sorted.
  - apply sort_slice_sorted.
  - by rewrite !sort_slice_perm.
Qed.

Lemma insert_stable_perm x l : insert_stable less x l ≡ₚ x :: l.
Proof.
  induction l as [|y l IH]; cbn; [done|]. destruct (less y x); [|done]. rewrite IH. apply Permutation_swap.
Qed.

Lemma sort_stable_perm l : sort_stable less l ≡ₚ l.
Proof. induction l as [|x l IH]; cbn; [done|]. by rewrite insert_stable_perm, IH. Qed.

(** The order of a stable sort: [less], then the order the elements came in. *)
Definition stably (R : relation A) : relation A := λ x y, less x y = true ∨ (less y x = false ∧ R x y).

Lemma stably_not_less `{!StrictWeak less} R x y : stably R x y → less y x = false.
Proof. intros [?%less_asym|[? _]]; done. Qed.

Lemma sort_stable_sorted `{!StrictWeak less} R l : StronglySorted R l → StronglySorted (stably R) (sort_stable less l).
Proof.
  induction 1 as [|x l Hs IH Hall]; [constructor|].
  change (sort_stable less (x :: l)) with (insert_stable less x (sort_stable less l)).
  assert (Hx : Forall (R x) (sort_stable less l)) by by rewrite sort_stable_perm.
  revert IH Hx. clear Hs Hall. generalize (sort_stable less l). clear l. intros k Hs.
  induction Hs as [|y k Hs IH Hall]; intros Hx; cbn; [constructor; constructor|].
  apply Forall_cons in Hx as [Hxy Hx]. destruct (less y x) eqn:Hyx.
  - constructor; [by apply IH|]. rewrite insert_stable_perm. constructor; [by left|done].
  - constructor; [by constructor|]. constructor; [by right|].
    rewrite list.Forall_forall in Hall, Hx |- *. intros z Hz. right. split; [|by apply Hx].
    eapply less_neg_trans; [|exact Hyx]. by eapply stably_not_less, Hall.
Qed.
End sort_lemmas.

(** ** Lemmas on strings *)

Lemma str_ltb_le s t : str_ltb s t = false ↔ String.le t s.
Proof.
  unfold str_ltb, String.ltb, String.le, String.leb.
  rewrite (String.compare_antisym s t). by destruct (String.compare t s).
Qed.

Lemma str_ltb_asym s t : str_ltb s t = true → str_ltb t s = false.
Proof.
  intros H. apply str_ltb_le. destruct (total String.le s t) as [|Hts]; [done|].
  by rewrite (proj2 (str_ltb_le s t) Hts) in H.
Qed.

Lemma str_ltb_neg_trans s t u :
  str_ltb s t = false → str_ltb t u = false → str_ltb s u = false.
Proof. rewrite !str_ltb_le. intros. by etrans. Qed.

Lemma str_ltb_antisym s t : str_ltb s t = false → str_ltb t s = false → s = t.
Proof. rewrite !str_ltb_le. intros. by apply (anti_symm String.le). Qed.

(** A separator that the first parts do not hold is found again. *)
Lemma string_sep_inj (c : Ascii.ascii) (x y u v : string) :
  c ∉ String.list_ascii_of_string x → c ∉ String.list_ascii_of_string y →
  x +:+ String c u = y +:+ String c v → x = y ∧ u = v.
Proof.
  revert y. induction x as [|a x IH]; intros [|b y] Hx Hy; cbn in *.
  - by intros [= ->].
  - intros [= <- _]. exfalso. apply Hy. by left.
  - intros [= -> _]. exfalso. apply Hx. by left.
  - intros [= -> Heq]. rewrite not_elem_of_cons in Hx, Hy. by destruct (IH y (proj2 Hx) (proj2 Hy) Heq) as [-> ->].
Qed.

(** So are two parts whose first ones have the same length. *)
Lemma string_app_length_inj (x y u v : string) :
  String.length x = String.length y → x +:+ u = y +:+ v → x = y ∧ u = v.
Proof.
  revert y. induction x as [|a x IH]; intros [|b y] Hl; cbn in *; try done.
  intros [= -> Heq]. by destruct (IH y ltac:(lia) Heq) as [-> ->].
Qed.

Lemma string_app_assoc (s t u : string) : (s +:+ t) +:+ u = s +:+ (t +:+ u).
Proof. induction s as [|c s IH]; [done|]. apply (f_equal (String c) IH). Qed.

Lemma str_ltb_irrefl s : str_ltb s s = false.
Proof. by apply str_ltb_le. Qed.

#[global] Instance str_ltb_strict : StrictWeak str_ltb.
Proof. split; [apply str_ltb_asym|apply str_ltb_neg_trans]. Qed.

#[global] Instance less_on_strict {A B} (f : A → B) less `{!StrictWeak less} : StrictWeak (less_on f less).
Proof. split; unfold less_on; [intros ??; apply less_asym|intros ???; apply less_neg_trans]. Qed.

#[global] Instance more_on_strict {A B} (f : A → B) less `{!StrictWeak less} : StrictWeak (more_on f less).
Proof. split; unfold more_on; [intros ??; apply less_asym|intros ?????; by eapply less_neg_trans]. Qed.

#[global] Instance lex_less_strict {A} (less1 less2 : A → A → bool) `{!StrictWeak less1, !StrictWeak less2} :
  StrictWeak (lex_less less1 less2).
Proof.
  unfold lex_less. split.
  - intros x y. destruct (less1 x y) eqn:H12; cbn; [by rewrite (less_asym _ _ H12)|].
    destruct (less1 y x) eqn:H21; cbn; [done|]. intros ?. by apply less_asym.
  - intros x y z. rewrite !orb_false_iff. intros [Hxy Hxy2] [Hyz Hyz2].
    split; [by eapply less_neg_trans|]. destruct (less1 z x) eqn:Hzx; cbn; [done|].
    assert (Hzy : less1 z y = false) by by eapply less_neg_trans.
    assert (Hyx : less1 y x = false) by by eapply less_neg_trans. rewrite Hzy in Hyz2. rewrite Hyx in Hxy2. cbn in *.
    by eapply less_neg_trans.
Qed.

#[global] Instance less_on_separates {A} (f : A → string) : Separates (less_on f str_ltb) f.
Proof. intros x y. apply str_ltb_antisym. Qed.

#[global] Instance lex_less_separates {A K} (less1 less2 : A → A → bool) (key : A → K) :
  Separates less2 key → Separates (lex_less less1 less2) key.
Proof.
  intros Hsep x y. unfold lex_less. rewrite !orb_false_iff. intros [H1 H2] [H3 H4].
  rewrite H3 in H2. rewrite H1 in H4. by apply Hsep.
Qed.

(** Elements with pairwise different keys come out of either sort in strictly increasing
    order. *)
Lemma separated_strictly {A K} (less : A → A → bool) (key : A → K) `{!Separates less key} l :
  StronglySorted (not_less less) l → NoDup (key <$> l) → strictly less l.
Proof.
  unfold strictly. induction 1 as [|x l' Hs IH Hall]; [constructor|]. rewrite fmap_cons, NoDup_cons. intros [Hx Hnd'].
  constructor; [by apply IH|]. rewrite list.Forall_forall in Hall |- *. intros y Hy.
  specialize (Hall y Hy). unfold not_less in Hall. destruct (less x y) eqn:Hlt; [done|].
  exfalso. apply Hx. rewrite (Separates0 x y Hlt Hall). by apply list_elem_of_fmap_2.
Qed.

Lemma sort_slice_strictly {A K} (less : A → A → bool) (key : A → K) `{!StrictWeak less, !Separates less key} l :
  NoDup (key <$> l) → strictly less (sort_slice less l).
Proof.
  intros Hnd. apply (separated_strictly _ key); [apply (sort_slice_sorted _)|by rewrite sort_slice_perm].
Qed.

Lemma sort_stable_strictly {A K} (less : A → A → bool) (key : A → K) `{!StrictWeak less, !Separates less key} l :
  NoDup (key <$> l) → strictly less (sort_stable less l).
Proof.
  intros Hnd. apply (separated_strictly _ key); [|by rewrite sort_stable_perm].
  assert (StronglySorted (stably less (λ _ _, True)) (sort_stable less l)) as Hs.
  { apply (sort_stable_sorted _). clear Hnd. induction l; constructor; [done|]. by apply Forall_true. }
  induction Hs as [|x k Hs IH Hall]; constructor; [done|].
  eapply Forall_impl; [exact Hall|]. intros y. apply (stably_not_less _).
Qed.

#[global] Instance Zltb_strict : StrictWeak Z.ltb.
Proof. split; intros *; rewrite ?Z.ltb_ge, ?Z.ltb_lt; lia. Qed.

(** ** Lemmas on map iteration *)

Section range_lemmas.
Context `{!MapRange} {K : Type} `{Countable K} {V : Type}.
Implicit Types (m : gmap K V) (site : string).

Lemma map_range_nodup site m : NoDup (map_range site m).*1.
Proof. rewrite (map_range_perm site m). apply NoDup_fst_map_to_list. Qed.

Lemma elem_of_map_range site m k v : (k, v) ∈ map_range site m ↔ m !! k = Some v.
Proof. by rewrite (map_range_perm site m), elem_of_map_to_list. Qed.

Lemma map_range_to_map site m : list_to_map (map_range site m) = m.
Proof.
  rewrite <-(list_to_map_to_list m) at 2.
  apply list_to_map_proper; [apply map_range_nodup | apply map_range_perm].
Qed.

Lemma map_range_empty site : map_range site (∅ : gmap K V) = [].
Proof. apply Permutation_nil_r. by rewrite map_range_perm, map_to_list_empty. Qed.
End range_lemmas.

(** ** Sums

    Exact sums of a list, and the 64-bit sum a loop of [+=] computes. *)

Definition sumZ (l : list Z) : Z := foldr Z.add 0 l.
Definition sum64 (l : list Z) : Z := foldl add64 0 l.

Lemma sumZ_cons x l : sumZ (x :: l) = x + sumZ l.
Proof. done. Qed.

Lemma sumZ_app l1 l2 : sumZ (l1 ++ l2) = sumZ l1 + sumZ l2.
Proof. induction l1 as [|x l1 IH]; simpl; lia. Qed.

Lemma sumZ_perm l1 l2 : l1 ≡ₚ l2 → sumZ l1 = sumZ l2.
Proof. induction 1; simpl in *; lia. Qed.

#[global] Instance sumZ_proper : Proper ((≡ₚ) ==> (=)) sumZ.
Proof. intros l1 l2. apply sumZ_perm. Qed.

Lemma sumZ_nonneg l : Forall (λ x, 0 ≤ x) l → 0 ≤ sumZ l.
Proof. induction 1; simpl; lia. Qed.

Lemma foldl_add64 l a : wrap64 a = a → foldl add64 a l = wrap64 (a + sumZ l).
Proof.
  revert a. induction l as [|x l IH]; intros a Ha; simpl; [by rewrite Z.add_0_r|].
  rewrite IH by (apply wrap64_id, wrap64_range). unfold add64.
  by rewrite wrap64_add_l, Z.add_assoc.
Qed.

Lemma sum64_wrap l : sum64 l = wrap64 (sumZ l).
Proof. unfold sum64. by rewrite foldl_add64. Qed.

(** The loop [for name, v := range m { dst[name] += v }]. *)
Lemma accumulate_lookup `{Countable K} (l : list (K * Z)) (dst : gmap K Z) n :
  NoDup l.*1 →
  foldl (λ d '(name, v), <[name := default 0 (d !! name) ⊞ v]> d) dst l !! n =
    match (list_to_map l : gmap K Z) !! n with
    | Some v => Some (default 0 (dst !! n) ⊞ v)
    | None => dst !! n
    end.
Proof.
  revert dst. induction l as [|[n0 v0] l IH]; intros dst Hnd; simpl; [done|].
  apply NoDup_cons in Hnd as [Hn0 Hnd]. rewrite IH by done.
  destruct (decide (n = n0)) as [->|Hne].
  - by rewrite not_elem_of_list_to_map_1, !lookup_insert_eq.
  - by rewrite !lookup_insert_ne by done.
Qed.

(** ** Lemmas on lists *)

Lemma foldl_ext_fun {A B} (f g : A → B → A) a l : (∀ a b, f a b = g a b) → foldl f a l = foldl g a l.
Proof. intros Hfg. revert a. induction l as [|b l IH]; intros a; simpl; [done|]. by rewrite Hfg, IH. Qed.

Lemma filter_all {A} (P : A → Prop) `{∀ x, Decision (P x)} l : Forall P l → filter P l = l.
Proof. induction 1; [done|]. rewrite filter_cons_True by done. by f_equal. Qed.

Lemma filter_none {A} (P : A → Prop) `{∀ x, Decision (P x)} l :
  Forall (λ x, ¬ P x) l → filter P l = [].
Proof. induction 1; [done|]. by rewrite filter_cons_False. Qed.

Lemma StronglySorted_impl_in {A} (R S : relation A) (l : list A) :
  (∀ x y, x ∈ l → y ∈ l → R x y → S x y) → StronglySorted R l → StronglySorted S l.
Proof.
  induction l as [|x l IH]; intros HRS Hs; [constructor|].
  apply StronglySorted_cons in Hs as [Hall Hs]. constructor.
  - apply IH; [|done]. intros y z ??. apply HRS; by right.
  - rewrite list.Forall_forall in Hall |- *. intros y Hy. apply HRS; [by left|by right|by apply Hall].
Qed.

Lemma StronglySorted_lookup {A} (R : relation A) (l : list A) i j x y :
  StronglySorted R l → l !! i = Some x → l !! j = Some y → (i < j)%nat → R x y.
Proof.
  intros Hs. revert i j. induction Hs as [|a l Hs IH Hall]; intros i j Hi Hj Hij; [done|].
  destruct i as [|i], j as [|j]; simplify_eq/=; [lia| |lia|].
  - rewrite list.Forall_forall in Hall. apply Hall. by apply list_elem_of_lookup_2 in Hj.
  - eapply IH; [exact Hi|exact Hj|lia].
Qed.

Create HintDb go.
Create Rewrite HintDb go.
#[export] Hint Resolve wrap64_range time_sub_range : go.
#[export] Hint Rewrite wrap64_add_l wrap64_add_r : go.

(** Case analysis on the innermost test of the goal or of a hypothesis. *)
Ltac case_test :=
  match goal with
  | |- context [if ?b then _ else _] => destruct b eqn:?
  | H : context [if ?b then _ else _] |- _ => destruct b eqn:?
  | |- context [match ?x with Some _ => _ | None => _ end] => destruct x eqn:?
  | H : context [match ?x with Some _ => _ | None => _ end] |- _ => destruct x eqn:?
  end.
