(* ===== verification/GoSlices.v ===== *)
(** * Grouping and joining

    What the index components share: lists without repetitions in the order of first
    appearance, maps from a key to an aggregate with the keys in the order they came,
    and [strings.Join]. *)

From S2P Require Import Prelude.
From stdpp Require Import options.

(** [appendUnique] of [indexadvisor/build.go]; also the guard around an [append] that
    [slices.Contains] makes. *)
Definition appendUnique {A} `{EqDecision A} (names : list A) (name : A) : list A :=
  if decide (name ∈ names) then names else names ++ [name].

(** The elements of a list, each once, in the order they first appear. *)
Definition firsts {A} `{EqDecision A} (l : list A) : list A := foldl appendUnique [] l.

Section firsts.
Context {A : Type} `{EqDecision A}.
Implicit Types (l : list A) (x : A).

Lemma elem_of_appendUnique l x y : y ∈ appendUnique l x ↔ y ∈ l ∨ y = x.
Proof.
  unfold appendUnique. case_decide; [|by rewrite elem_of_app, list_elem_of_singleton].
  split; [by left|]. by intros [?| ->].
Qed.

Lemma appendUnique_nodup l x : NoDup l → NoDup (appendUnique l x).
Proof.
  unfold appendUnique. case_decide as Hx; intros Hl; [done|]. apply NoDup_app. split; [done|]. split; [|apply NoDup_singleton].
  intros y Hy ->%list_elem_of_singleton. done.
Qed.

Lemma appendUnique_present l x : x ∈ l → appendUnique l x = l.
Proof. unfold appendUnique. by case_decide. Qed.

Lemma foldl_appendUnique_elem k l x : x ∈ foldl appendUnique k l ↔ x ∈ k ∨ x ∈ l.
Proof.
  revert k. induction l as [|y l IH]; intros k; cbn; [rewrite elem_of_nil; tauto|].
  rewrite IH, elem_of_appendUnique, elem_of_cons. tauto.
Qed.

Lemma foldl_appendUnique_nodup k l : NoDup k → NoDup (foldl appendUnique k l).
Proof. revert k. induction l as [|y l IH]; intros k Hk; cbn; [done|]. by apply IH, appendUnique_nodup. Qed.

Lemma foldl_appendUnique_prefix k l : k `prefix_of` foldl appendUnique k l.
Proof.
  revert k. induction l as [|y l IH]; intros k; cbn; [done|]. etrans; [|apply IH].
  unfold appendUnique. case_decide; [done|]. by apply prefix_app_r.
Qed.

(** Appending what is new to a list of distinct elements leaves the others behind it. *)
Lemma foldl_appendUnique_new k l : NoDup l → (∀ x, x ∈ l → x ∉ k) → foldl appendUnique k l = k ++ l.
Proof.
  revert k. induction l as [|y l IH]; intros k; [by rewrite app_nil_r|].
  intros [Hy Hl]%NoDup_cons Hk. cbn. unfold appendUnique at 2. rewrite decide_False by (apply Hk; left).
  rewrite IH; [by rewrite <- app_assoc|done|]. intros x Hx. rewrite elem_of_app, list_elem_of_singleton.
  intros [Hin| ->]; [|done]. by apply (Hk x); [right|].
Qed.

Lemma elem_of_firsts l x : x ∈ firsts l ↔ x ∈ l.
Proof. unfold firsts. rewrite foldl_appendUnique_elem, elem_of_nil. tauto. Qed.

Lemma firsts_nodup l : NoDup (firsts l).
Proof. apply foldl_appendUnique_nodup, NoDup_nil_2. Qed.

Lemma firsts_snoc l x : firsts (l ++ [x]) = appendUnique (firsts l) x.
Proof. unfold firsts. by rewrite foldl_app. Qed.

Lemma firsts_id l : NoDup l → firsts l = l.
Proof. intros Hl. unfold firsts. rewrite foldl_appendUnique_new; [done..|]. intros x _. apply not_elem_of_nil. Qed.
End firsts.

Lemma Forall2_perm_r {A B} (P : A → B → Prop) l1 l2 l2' : l2 ≡ₚ l2' → Forall2 P l1 l2 → ∃ l1', l1 ≡ₚ l1' ∧ Forall2 P l1' l2'.
Proof. intros Hp Hall%Forall2_flip. destruct (Permutation_Forall2 Hp Hall) as (l & ? & ?%Forall2_flip). by exists l. Qed.

(** ** Aggregation by key

    The loop that looks a key up in a map of aggregates, makes the aggregate and notes the
    key when there is none yet, and adds the element to it. *)

Section group.
Context {A K B : Type} `{Countable K}.
Variables (key : A → K) (init : A → B) (upd : B → A → B).

Definition group_step (st : list K * gmap K B) (a : A) : list K * gmap K B :=
  let '(order, m) := st in
  match m !! key a with
  | Some b => (order, <[key a := upd b a]> m)
  | None => (order ++ [key a], <[key a := upd (init a) a]> m)
  end.

Definition group (l : list A) : list K * gmap K B := foldl group_step ([], ∅) l.

(** The elements of one key, and what the loop makes of them. *)
Definition members (k : K) (l : list A) : list A := filter (λ a, key a = k) l.

Definition aggregate_of (l : list A) : option B :=
  match l with [] => None | a :: _ => Some (foldl upd (init a) l) end.

Lemma members_app k l l' : members k (l ++ l') = members k l ++ members k l'.
Proof. apply filter_app. Qed.

Lemma members_nil k l : members k l = [] ↔ k ∉ key <$> l.
Proof.
  unfold members. split.
  - intros Hl (a & -> & Ha)%list_elem_of_fmap. apply (not_elem_of_nil a). rewrite <- Hl. by apply list_elem_of_filter.
  - intros Hk. destruct (filter _ l) as [|a k'] eqn:Hf; [done|].
    assert (a ∈ filter (λ a, key a = k) l) as [Ha Hl]%list_elem_of_filter by (rewrite Hf; left).
    destruct Hk. rewrite <- Ha. by apply list_elem_of_fmap_2.
Qed.

(** The elements regrouped by key are the same elements. *)
Lemma members_cons k a l : members k (a :: l) = if decide (key a = k) then a :: members k l else members k l.
Proof. unfold members. by rewrite filter_cons. Qed.

Lemma elem_of_members k a l : a ∈ members k l ↔ key a = k ∧ a ∈ l.
Proof. unfold members. by rewrite list_elem_of_filter. Qed.

Lemma members_skip ks a l : key a ∉ ks → mjoin ((λ k, members k (a :: l)) <$> ks) = mjoin ((λ k, members k l) <$> ks).
Proof.
  intros Hk. f_equal. apply list_fmap_ext. intros i k Hi. rewrite members_cons. case_decide as Ha; [|done].
  destruct Hk. rewrite Ha. by eapply list_elem_of_lookup_2.
Qed.

Lemma regroup ks l : NoDup ks → (∀ a, a ∈ l → key a ∈ ks) → mjoin ((λ k, members k l) <$> ks) ≡ₚ l.
Proof.
  intros Hks. induction l as [|a l IH]; intros Hall.
  - clear. induction ks as [|k ks IH]; [done|]. done.
  - destruct (list_elem_of_split ks (key a)) as (k1 & k2 & ->); [by apply Hall; left|].
    rewrite fmap_app, fmap_cons in *. rewrite join_app in *. cbn [mjoin list_join] in *.
    apply NoDup_app in Hks as (_ & Hk1 & [Hk2 _]%NoDup_cons).
    rewrite !members_skip; [|done|by intros Hin; apply (Hk1 _ Hin); left].
    rewrite members_cons, decide_True by done. cbn [app]. rewrite <- Permutation_middle. apply perm_skip.
    apply IH. intros b Hb. apply Hall. by right.
Qed.

Lemma aggregate_of_snoc l a :
  aggregate_of (l ++ [a]) = Some (upd (default (init a) (aggregate_of l)) a).
Proof. destruct l as [|b l]; [done|]. cbn. by rewrite foldl_app. Qed.

(** The loop without the list of keys. *)
Lemma group_snoc l a :
  (group (l ++ [a])).2 = <[key a := upd (default (init a) ((group l).2 !! key a)) a]> (group l).2.
Proof.
  unfold group. rewrite foldl_snoc. destruct (foldl group_step ([], ∅) l) as [order m]. cbn [group_step snd].
  by destruct (m !! key a).
Qed.

Theorem group_spec l : (group l).1 = firsts (key <$> l) ∧ ∀ k, (group l).2 !! k = aggregate_of (members k l).
Proof.
  induction l as [|a l [IHo IHm]] using rev_ind; [split; [done|]; intros k; apply lookup_empty|].
  unfold group in *. rewrite foldl_app, fmap_app. cbn [foldl fmap list_fmap]. rewrite firsts_snoc.
  destruct (foldl group_step ([], ∅) l) as [order m]. cbn [fst snd] in *. subst order.
  assert (Hold : is_Some (m !! key a) ↔ key a ∈ firsts (key <$> l)).
  { rewrite IHm, elem_of_firsts. destruct (members (key a) l) as [|b k] eqn:Hm; cbn.
    - split; [by intros [? ?]|]. intros Hin. by apply members_nil in Hm.
    - split; [intros _|by eauto]. destruct (decide (key a ∈ key <$> l)) as [|Hn%members_nil]; [done|]. by rewrite Hn in Hm. }
  unfold group_step. destruct (m !! key a) as [b|] eqn:Hb; cbn [fst snd].
  - split; [by rewrite appendUnique_present by (apply Hold; eauto)|]. intros k. rewrite members_app.
    unfold members at 2. rewrite filter_cons, filter_nil. case_decide as Hk; [subst k|].
    + rewrite lookup_insert_eq, aggregate_of_snoc, <- IHm, Hb. done.
    + rewrite lookup_insert_ne by done. by rewrite app_nil_r.
  - unfold appendUnique. rewrite decide_False by (rewrite <- Hold; by intros [? ?]). split; [done|]. intros k.
    rewrite members_app. unfold members at 2. rewrite filter_cons, filter_nil. case_decide as Hk; [subst k|].
    + rewrite lookup_insert_eq, aggregate_of_snoc, <- IHm, Hb. done.
    + rewrite lookup_insert_ne by done. by rewrite app_nil_r.
Qed.
End group.

(** A sum by key, summed over the keys, is the sum. *)
Lemma sumZ_regroup {A K} `{Countable K} (key : A → K) (f : A → Z) ks l : NoDup ks → (∀ a, a ∈ l → key a ∈ ks) →
  sumZ ((λ k, sumZ (f <$> members key k l)) <$> ks) = sumZ (f <$> l).
Proof.
  intros Hks Hall. trans (sumZ (f <$> mjoin ((λ k, members key k l) <$> ks))); [|by rewrite regroup].
  generalize ks. clear. induction ks as [|k ks IH]; [done|].
  rewrite !fmap_cons. change (mjoin ?x) with (members key k l ++ mjoin ((λ k, members key k l) <$> ks)).
  by rewrite fmap_app, sumZ_app, sumZ_cons, IH.
Qed.

(** Two aggregations that agree on the elements of a list agree on it. *)
Lemma group_fmap {A A' K B} `{Countable K} (f : A → A') (key : A' → K) (init : A' → B) (upd : B → A' → B) (l : list A) :
  group key init upd (f <$> l) = group (key ∘ f) (init ∘ f) (λ b a, upd b (f a)) l.
Proof.
  unfold group. generalize (@nil K, ∅ : gmap K B). induction l as [|a l IH]; intros st; [done|]. cbn. rewrite IH. done.
Qed.

(** ** Tallies *)

(** [m[code] += n]. *)
Definition tally_add (m : gmap string Z) (code : string) (n : Z) : gmap string Z := <[code := default 0 (m !! code) ⊞ n]> m.

(** What a tally counts in all. *)
Definition tally_total (m : gmap string Z) : Z := sumZ (map_to_list m).*2.

Lemma tally_total_empty : tally_total ∅ = 0.
Proof. unfold tally_total. by rewrite map_to_list_empty. Qed.

Lemma tally_total_insert m code v : tally_total (<[code := v]> m) = tally_total m - default 0 (m !! code) + v.
Proof.
  unfold tally_total. rewrite <- insert_delete_eq, map_to_list_insert by apply lookup_delete_eq.
  rewrite fmap_cons, sumZ_cons. destruct (m !! code) as [u|] eqn:Hu; cbn [default from_option snd id].
  - rewrite <- (map_to_list_delete m code u Hu), fmap_cons, sumZ_cons. cbn [snd]. lia.
  - rewrite delete_id by done. lia.
Qed.

(** Counting adds one to the total as long as no count overflows. *)
Lemma tally_add_total m code n : int64 (default 0 (m !! code) + n) → tally_total (tally_add m code n) = tally_total m + n.
Proof. intros Hb. unfold tally_add. rewrite tally_total_insert, add64_small by done. lia. Qed.

Definition nonneg_counts (m : gmap string Z) : Prop := map_Forall (λ _ n, 0 ≤ n) m.

Lemma tally_count_le m code : nonneg_counts m → 0 ≤ default 0 (m !! code) ≤ tally_total m.
Proof.
  intros Hm. assert (Hall : Forall (λ n, 0 ≤ n) (map_to_list m).*2).
  { apply Forall_fmap, list.Forall_forall. intros [k v] Hin. apply elem_of_map_to_list in Hin. by apply (Hm k v). }
  pose proof (sumZ_nonneg _ Hall) as Hs. fold (tally_total m) in Hs. destruct (m !! code) as [n|] eqn:Hn; cbn; [|lia].
  split; [by apply (Hm code n)|]. unfold tally_total. rewrite <- (map_to_list_delete m code n Hn), fmap_cons, sumZ_cons. cbn [snd].
  pose proof (tally_total_insert m code 0) as Hi. assert (0 ≤ sumZ (map_to_list (delete code m)).*2); [|lia].
  apply sumZ_nonneg, Forall_fmap, list.Forall_forall. intros [k v] Hin.
  apply elem_of_map_to_list, lookup_delete_Some in Hin as [_ Hin]. by apply (Hm k v).
Qed.

Lemma tally_add_nonneg m code : nonneg_counts m → tally_total m + 1 < 2 ^ 63 →
  nonneg_counts (tally_add m code 1) ∧ tally_total (tally_add m code 1) = tally_total m + 1.
Proof.
  intros Hm Hb. pose proof (tally_count_le m code Hm) as Hc.
  assert (Hi : int64 (default 0 (m !! code) + 1)) by (unfold int64, min64, max64; lia). split; [|by apply tally_add_total].
  unfold tally_add. rewrite add64_small by done. apply map_Forall_insert_2; [lia|done].
Qed.

Lemma filter_none_elem (l : list string) c : c ∉ l → filter (λ c', c' = c) l = [].
Proof.
  induction l as [|x l IH]; [done|]. intros [Hx Hl]%not_elem_of_cons. rewrite filter_cons_False by congruence. by apply IH.
Qed.

(** The tally of a list of codes. *)
Definition tally (l : list string) : gmap string Z := foldl (λ m c, tally_add m c 1) ∅ l.

Lemma tally_lookup l c :
  tally l !! c = if decide (c ∈ l) then Some (wrap64 (Z.of_nat (length (filter (λ c', c' = c) l)))) else None.
Proof.
  unfold tally. induction l as [|x l IH] using rev_ind; [done|]. rewrite foldl_snoc, filter_app, length_app. unfold tally_add at 1.
  destruct (decide (x = c)) as [->|Hx].
  - rewrite lookup_insert_eq, IH, (decide_True (P := c ∈ l ++ [c])) by (apply elem_of_app; right; by left).
    rewrite filter_cons_True by done. cbn [length]. unfold add64. rewrite Nat2Z.inj_add. f_equal. case_decide as Hl.
    + cbn. by rewrite wrap64_add_l.
    + rewrite (filter_none_elem l c Hl). done.
  - rewrite lookup_insert_ne, IH by done. rewrite filter_cons_False by done. cbn [length]. rewrite Nat.add_0_r.
    destruct (decide (c ∈ l)) as [Hl|Hl]; [rewrite decide_True by (apply elem_of_app; by left)|rewrite decide_False]; try done.
    rewrite elem_of_app, list_elem_of_singleton. naive_solver.
Qed.

Lemma tally_total_list l : Z.of_nat (length l) < 2 ^ 63 → nonneg_counts (tally l) ∧ tally_total (tally l) = Z.of_nat (length l).
Proof.
  unfold tally. induction l as [|x l IH] using rev_ind; intros Hb; [split; [done|apply tally_total_empty]|].
  rewrite foldl_snoc, length_app, Nat2Z.inj_add in *. cbn [length] in *. destruct IH as [Hn Ht]; [lia|].
  destruct (tally_add_nonneg _ x Hn) as [Hn' Ht']; [lia|]. split; [done|]. lia.
Qed.

(** ** [strings.Join] *)

Fixpoint strings_Join (l : list string) (sep : string) : string :=
  match l with
  | [] => ""
  | [s] => s
  | s :: l' => s +:+ sep +:+ strings_Join l' sep
  end%string.
