(* ===== verification/StatIO.v ===== *)
(** * [internal/statio]: deltas and bounded series over pg_stat_io captures

    Raw cumulative slices of one host ([Snapshot]), the delta of two adjacent
    slices ([Delta]), the bounded series planned from capture headers alone
    ([PlanBuckets], [At], [Assemble]) and the grouping of a matrix ([Reduce]). *)

From S2P Require Import Prelude.
From stdpp Require Import options.

(** ** Data *)

(** [Key]: one cell of the pg_stat_io matrix. *)
Record Key := mkKey { BackendType : string; Object : string; KContext : string }.

#[global] Instance Key_eq_dec : EqDecision Key.
Proof. solve_decision. Defined.

#[global] Instance Key_countable : Countable Key.
Proof.
  apply (inj_countable' (λ k, (BackendType k, Object k, KContext k))
           (λ '(b, o, c), mkKey b o c)). by intros [].
Defined.

Record Row := mkRow { row_Key : Key; Values : gmap string Z }.

Record Snapshot := mkSnapshot {
  snap_CapturedAt : time;
  snap_VersionNum : Z;
  OpBytes : option Z;
  snap_TrackIOTiming : bool;
  snap_TrackWALIOTiming : bool;
  snap_StatsReset : option time;
  snap_Rows : list Row
}.

Record Meta := mkMeta {
  CapturedAt : time;
  VersionNum : Z;
  TrackIOTiming : bool;
  TrackWALIOTiming : option bool;
  StatsReset : option time
}.

(** [Snapshot.Meta] *)
Definition meta_of (s : Snapshot) : Meta := {|
  CapturedAt := snap_CapturedAt s;
  VersionNum := snap_VersionNum s;
  TrackIOTiming := snap_TrackIOTiming s;
  TrackWALIOTiming := Some (snap_TrackWALIOTiming s);
  StatsReset := snap_StatsReset s
|}.

Record Interval := mkInterval {
  iv_From : time;
  iv_To : time;
  iv_Duration : duration;
  Complete : bool;
  iv_Rows : list Row
}.

Record Bucket := mkBucket {
  b_From : time;
  b_To : time;
  b_Duration : duration;
  b_Partial : bool;
  b_Rows : list Row
}.

Record Span := mkSpan { span_From : time; span_To : time }.

Record BucketPlan := mkBucketPlan {
  bp_From : time;
  bp_To : time;
  bp_Duration : duration;
  bp_Partial : bool;
  Spans : list Span
}.

Record Plan := mkPlan { Buckets : list BucketPlan }.

(** [byteCounters] *)
Definition byteCounters : gmap string string :=
  list_to_map [("reads", "read_bytes"); ("writes", "write_bytes"); ("extends", "extend_bytes")].

(** ** Normalisation *)

Section operations.
Context `{!MapRange}.

(** One step of the loop over [byteCounters] in [Snapshot.Normalized]. *)
Definition norm_step (op : Z) (vals : gmap string Z) (sd : string * string) : gmap string Z :=
  let '(src, dst) := sd in
  match vals !! dst with
  | Some _ => vals
  | None =>
      match vals !! src with
      | Some v => <[dst := v ⊠ op]> vals
      | None => vals
      end
  end.

Definition norm_values (op : Z) (vals : gmap string Z) : gmap string Z :=
  foldl (norm_step op) vals (map_range "Normalized" byteCounters).

Definition Normalized (s : Snapshot) : Snapshot :=
  match OpBytes s with
  | None => s
  | Some op =>
      if op <=? 0 then s else {|
        snap_CapturedAt := snap_CapturedAt s;
        snap_VersionNum := snap_VersionNum s;
        OpBytes := OpBytes s;
        snap_TrackIOTiming := snap_TrackIOTiming s;
        snap_TrackWALIOTiming := snap_TrackWALIOTiming s;
        snap_StatsReset := snap_StatsReset s;
        snap_Rows := (λ r, mkRow (row_Key r) (norm_values op (Values r))) <$> snap_Rows s
      |}
  end.

(** ** Deltas *)

Definition sameEpoch (prev cur : Meta) : bool :=
  if negb (Z.quot (VersionNum prev) 10000 =? Z.quot (VersionNum cur) 10000) then false
  else
    match StatsReset prev, StatsReset cur with
    | None, None => true
    | None, Some _ | Some _, None => false
    | Some p, Some c => p =? c
    end.

(** The counters of one row against its baseline; [None] is a counter that
    went backwards. *)
Fixpoint delta_values (b : gmap string Z) (l : list (string * Z)) (d : gmap string Z)
    : option (gmap string Z) :=
  match l with
  | [] => Some d
  | (name, v) :: l =>
      match b !! name with
      | None => delta_values b l d
      | Some prevVal =>
          if v <? prevVal then None
          else delta_values b l (<[name := v ⊟ prevVal]> d)
      end
  end.

Fixpoint delta_rows (base : gmap Key (gmap string Z)) (cur : list Row) (rows : list Row)
    : option (list Row) :=
  match cur with
  | [] => Some rows
  | c :: cur =>
      match base !! row_Key c with
      | None => delta_rows base cur rows
      | Some b =>
          match delta_values b (map_range "Delta" (Values c)) ∅ with
          | None => None
          | Some d => delta_rows base cur (rows ++ [mkRow (row_Key c) d])
          end
      end
  end.

(** [base[r.Key] = r.Values] for every row in order: the last row of a key wins. *)
Definition base_of (rows : list Row) : gmap Key (gmap string Z) :=
  foldl (λ m r, <[row_Key r := Values r]> m) ∅ rows.

Definition Delta (prev cur : Snapshot) : Interval * bool :=
  let dur := time_sub (snap_CapturedAt cur) (snap_CapturedAt prev) in
  let iv := mkInterval (snap_CapturedAt prev) (snap_CapturedAt cur) dur false [] in
  if (dur <=? 0) || negb (sameEpoch (meta_of prev) (meta_of cur)) then (iv, false)
  else
    match delta_rows (base_of (snap_Rows (Normalized prev))) (snap_Rows (Normalized cur)) [] with
    | None => (iv, false)
    | Some rows =>
        (mkInterval (snap_CapturedAt prev) (snap_CapturedAt cur) dur true rows, true)
    end.

(** ** Planning a series from headers *)

Definition meta_interval (prev cur : Meta) : Interval :=
  let dur := time_sub (CapturedAt cur) (CapturedAt prev) in
  mkInterval (CapturedAt prev) (CapturedAt cur) dur ((0 <? dur) && sameEpoch prev cur) [].

Fixpoint metaIntervals (metas : list Meta) : list Interval :=
  match metas with
  | prev :: (cur :: _) as rest => meta_interval prev cur :: metaIntervals rest
  | _ => []
  end.

(** The index an interval's midpoint selects, clamped to the groups. *)
Definition group_index (start : time) (width points : Z) (iv : Interval) : Z :=
  let mid := time_add (iv_From iv) (div64 (time_sub (iv_To iv) (iv_From iv)) 2) in
  let idx := div64 (time_sub mid start) width in
  let idx := if points <=? idx then points - 1 else idx in
  if idx <? 0 then 0 else idx.

Definition group_step (start : time) (width points : Z)
    (groups : list (list Interval)) (iv : Interval) : list (list Interval) :=
  alter (λ g, g ++ [iv]) (Z.to_nat (group_index start width points iv)) groups.

Definition is_nonempty {A} (l : list A) : bool :=
  match l with [] => false | _ => true end.

(** [None] is the panic of the division by a zero [width]. *)
Definition groupIntervals (intervals : list Interval) (points : Z)
    : option (list (list Interval)) :=
  match head intervals, last intervals with
  | Some first, Some final =>
      let points := if points <? 1 then 1 else points in
      if Z.of_nat (length intervals) <=? points then Some ((λ iv, [iv]) <$> intervals)
      else
        let start := iv_From first in
        let span := time_sub (iv_To final) start in
        if span <=? 0 then Some [intervals]
        else
          let width := div64 span points in
          if width =? 0 then None
          else
            Some (filter (λ g, is_nonempty g = true)
                    (foldl (group_step start width points)
                       (replicate (Z.to_nat points) []) intervals))
  | _, _ => Some []
  end.

(** The loop state of [planOf]: the plan so far and the open span's index
    ([-1]: none). *)
Definition plan_step (st : BucketPlan * Z) (iv : Interval) : BucketPlan * Z :=
  let '(p, openSpan) := st in
  if negb (Complete iv) then
    (mkBucketPlan (bp_From p) (bp_To p) (bp_Duration p) true (Spans p), -1)
  else
    let dur := bp_Duration p ⊞ iv_Duration iv in
    if 0 <=? openSpan then
      (mkBucketPlan (bp_From p) (bp_To p) dur (bp_Partial p)
         (alter (λ s, mkSpan (span_From s) (iv_To iv)) (Z.to_nat openSpan) (Spans p)),
       openSpan)
    else
      let spans := Spans p ++ [mkSpan (iv_From iv) (iv_To iv)] in
      (mkBucketPlan (bp_From p) (bp_To p) dur (bp_Partial p) spans,
       Z.of_nat (length spans) - 1).

(** [None] is the panic of [group\[0\]] on an empty group. *)
Definition planOf (group : list Interval) : option BucketPlan :=
  match head group, last group with
  | Some first, Some final =>
      Some (foldl plan_step
              (mkBucketPlan (iv_From first) (iv_To final) 0 false [], -1) group).1
  | _, _ => None
  end.

Definition PlanBuckets (metas : list Meta) (points : Z) : option Plan :=
  groups ← groupIntervals (metaIntervals metas) points;
  buckets ← mapM planOf groups;
  Some (mkPlan buckets).

(** ** Reading a plan *)

(** The loops of [Plan.At]: the captures listed so far and the set of those seen. *)
Definition at_step (st : list time * gset Z) (t : time) : list time * gset Z :=
  let '(out, seen) := st in
  if decide (unix_nano t ∈ seen) then st
  else (out ++ [t], {[unix_nano t]} ∪ seen).

Definition span_ends (s : Span) : list time := [span_From s; span_To s].

Definition At (p : Plan) : list time :=
  (foldl (λ st b, foldl (λ st s, foldl at_step st (span_ends s)) st (Spans b))
     ([], ∅) (Buckets p)).1.

Definition by_time (snaps : list Snapshot) : gmap Z Snapshot :=
  foldl (λ m s, <[unix_nano (snap_CapturedAt s) := s]> m) ∅ snaps.

Definition spanDelta (byTime : gmap Z Snapshot) (s : Span) : Interval * bool :=
  match byTime !! unix_nano (span_From s) with
  | None => (mkInterval zero_time zero_time 0 false [], false)
  | Some from =>
      match byTime !! unix_nano (span_To s) with
      | None => (mkInterval zero_time zero_time 0 false [], false)
      | Some to => Delta from to
      end
  end.

(** ** Grouping a matrix *)

(** [add]: the counters of one row summed into its cell. *)
Definition add_values (values dst : gmap string Z) : gmap string Z :=
  foldl (λ d '(name, v), <[name := default 0 (d !! name) ⊞ v]> d) dst
    (map_range "add" values).

Definition add (acc : gmap Key (gmap string Z)) (k : Key) (values : gmap string Z)
    : gmap Key (gmap string Z) :=
  <[k := add_values values (default ∅ (acc !! k))]> acc.

Definition key_less (a b : Key) : bool :=
  if negb (bool_decide (BackendType a = BackendType b)) then str_ltb (BackendType a) (BackendType b)
  else if negb (bool_decide (Object a = Object b)) then str_ltb (Object a) (Object b)
  else str_ltb (KContext a) (KContext b).

Definition sortedRows (acc : gmap Key (gmap string Z)) : list Row :=
  sort_slice (λ x y, key_less (row_Key x) (row_Key y))
    ((λ '(k, v), mkRow k v) <$> map_range "sortedRows" acc).

Record Filter := mkFilter { f_BackendType : string; f_Object : string; f_Context : string }.

Definition match_filter (f : Filter) (k : Key) : bool :=
  if negb (bool_decide (f_BackendType f = "")) && negb (bool_decide (f_BackendType f = BackendType k))
  then false
  else if negb (bool_decide (f_Object f = "")) && negb (bool_decide (f_Object f = Object k))
  then false
  else bool_decide (f_Context f = "") || bool_decide (f_Context f = KContext k).

(** [GroupBy] is a string type; an unknown value groups by context. *)
Definition GroupByContext : string := "context".
Definition GroupByBackendType : string := "backend_type".
Definition GroupByFull : string := "full".

Definition project (g : string) (k : Key) : Key :=
  if decide (g = GroupByBackendType) then mkKey (BackendType k) "" ""
  else if decide (g = GroupByFull) then k
  else mkKey "" "" (KContext k).

Definition reduce_step (f : Filter) (by_ : string) (acc : gmap Key (gmap string Z)) (r : Row)
    : gmap Key (gmap string Z) :=
  if match_filter f (row_Key r) then add acc (project by_ (row_Key r)) (Values r) else acc.

Definition Reduce (rows : list Row) (f : Filter) (by_ : string) : list Row :=
  sortedRows (foldl (reduce_step f by_) ∅ rows).

(** The loop of [Plan.Assemble] over one bucket's spans. *)
Definition assemble_step (byTime : gmap Z Snapshot)
    (st : bool * duration * gmap Key (gmap string Z)) (s : Span)
    : bool * duration * gmap Key (gmap string Z) :=
  let '(partial, dur, acc) := st in
  let '(iv, ok) := spanDelta byTime s in
  if negb ok then (true, dur ⊟ time_sub (span_To s) (span_From s), acc)
  else (partial, dur, foldl (λ acc r, add acc (row_Key r) (Values r)) acc (iv_Rows iv)).

Definition assemble_bucket (byTime : gmap Z Snapshot) (bp : BucketPlan) : Bucket :=
  let '(partial, dur, acc) :=
    foldl (assemble_step byTime) (bp_Partial bp, bp_Duration bp, ∅) (Spans bp) in
  mkBucket (bp_From bp) (bp_To bp) dur partial (sortedRows acc).

Definition Assemble (p : Plan) (snaps : list Snapshot) : list Bucket :=
  assemble_bucket (by_time snaps) <$> Buckets p.
End operations.

(** ** Reading a list of rows as a matrix *)

(** The value of one counter of one cell; [None] when the matrix has none. *)
Definition cell (rows : list Row) (k : Key) (n : string) : option Z :=
  base_of rows !! k ≫= λ vs, vs !! n.

Definition acc_val (acc : gmap Key (gmap string Z)) (k : Key) (n : string) : Z :=
  default 0 (acc !! k ≫= λ vs, vs !! n).

Definition row_keys (rows : list Row) : list Key := row_Key <$> rows.

(** What one row contributes to the counter [n] of the cell [k]. *)
Definition row_val (k : Key) (n : string) (r : Row) : Z :=
  if decide (k = row_Key r) then default 0 (Values r !! n) else 0.

(** The counter a byte counter is derived from. *)
Definition byte_source (n : string) : option string :=
  if decide (n = "read_bytes") then Some "reads"
  else if decide (n = "write_bytes") then Some "writes"
  else if decide (n = "extend_bytes") then Some "extends"
  else None.

Definition regressed (b c : gmap string Z) : Prop :=
  ∃ n v p, c !! n = Some v ∧ b !! n = Some p ∧ v < p.

Definition diff_values (b c : gmap string Z) : gmap string Z :=
  intersection_with (λ v p, Some (v ⊟ p)) c b.

Section lemmas.
Context `{!MapRange}.
Implicit Types (k : Key) (n : string) (rows : list Row).

(** *** Matrices *)

Lemma base_of_snoc rows r : base_of (rows ++ [r]) = <[row_Key r := Values r]> (base_of rows).
Proof. unfold base_of. by rewrite foldl_app. Qed.

Lemma base_of_None rows k : base_of rows !! k = None ↔ k ∉ row_keys rows.
Proof.
  induction rows as [|r rows IH] using rev_ind; [by split; [intros _ ?%elem_of_nil|]|].
  rewrite base_of_snoc, lookup_insert_None, IH. unfold row_keys.
  rewrite fmap_app, list_fmap_singleton, elem_of_app, list_elem_of_singleton. naive_solver.
Qed.

Lemma base_of_Some rows k v :
  NoDup (row_keys rows) → base_of rows !! k = Some v ↔ mkRow k v ∈ rows.
Proof.
  induction rows as [|r rows IH] using rev_ind; [set_solver|].
  unfold row_keys. rewrite fmap_app, NoDup_app. intros (Hnd & Hdis & _).
  rewrite base_of_snoc, lookup_insert_Some, IH, elem_of_app, list_elem_of_singleton by done.
  destruct r as [rk rv]; simpl in *. split.
  - intros [[-> ->]|[??]]; auto.
  - intros [Hin|[= -> ->]]; [right|by left]. split; [|done]. intros ->.
    apply (Hdis k); [|set_solver]. by apply (list_elem_of_fmap_2 row_Key _ (mkRow k v)).
Qed.

Lemma cell_perm rows1 rows2 k n :
  NoDup (row_keys rows1) → rows1 ≡ₚ rows2 → cell rows1 k n = cell rows2 k n.
Proof.
  intros Hnd Hp. unfold cell. f_equal. apply option_eq. intros v.
  rewrite !base_of_Some; [by rewrite Hp| |done].
  unfold row_keys in *. by rewrite <-Hp.
Qed.

(** *** Normalisation *)

Lemma norm_step_ne op vals s d n : n ≠ d → norm_step op vals (s, d) !! n = vals !! n.
Proof.
  intros. simpl. destruct (vals !! d); [done|]. destruct (vals !! s); [|done].
  by rewrite lookup_insert_ne.
Qed.

Lemma norm_step_eq op vals s d :
  norm_step op vals (s, d) !! d =
    match vals !! d with Some v => Some v | None => (λ v, v ⊠ op) <$> vals !! s end.
Proof.
  simpl. destruct (vals !! d) eqn:E; [done|].
  destruct (vals !! s); simpl; [by rewrite lookup_insert_eq | done].
Qed.

Lemma norm_fold_ne op l vals n : n ∉ l.*2 → foldl (norm_step op) vals l !! n = vals !! n.
Proof.
  revert vals. induction l as [|[s d] l IH]; intros vals Hn; [done|].
  apply not_elem_of_cons in Hn as [Hnd Hn]. cbn [foldl].
  by rewrite IH, norm_step_ne.
Qed.

Lemma norm_fold_eq op l vals s d :
  (s, d) ∈ l → NoDup l.*2 → (∀ d', d' ∈ l.*2 → d' ∉ l.*1) →
  foldl (norm_step op) vals l !! d =
    match vals !! d with Some v => Some v | None => (λ v, v ⊠ op) <$> vals !! s end.
Proof.
  revert vals. induction l as [|[s0 d0] l IH]; intros vals Hin Hnd Hdis.
  { by apply not_elem_of_nil in Hin. }
  apply NoDup_cons in Hnd as [Hd Hnd]. cbn [foldl].
  apply elem_of_cons in Hin as [[= <- <-]|Hin].
  { by rewrite norm_fold_ne, norm_step_eq. }
  pose proof (list_elem_of_fmap_2 snd _ _ Hin) as Hin2.
  pose proof (list_elem_of_fmap_2 fst _ _ Hin) as Hin1.
  cbn [fst snd] in *. rewrite IH; [|done|done|].
  - rewrite !norm_step_ne; [done| |intros ->; done].
    intros ->. apply (Hdis d0); [by left|by right].
  - intros d' Hd' ?. apply (Hdis d'); by right.
Qed.

Lemma byteCounters_entries s d :
  (s, d) ∈ map_range "Normalized" byteCounters ↔ byte_source d = Some s.
Proof.
  rewrite elem_of_map_range. unfold byteCounters, byte_source. simpl.
  rewrite !lookup_insert_Some, lookup_empty. split.
  - intros [[<- <-]|[? [[<- <-]|[? [[<- <-]|[? ?]]]]]]; done.
  - repeat case_decide; naive_solver.
Qed.

Lemma norm_values_lookup op vals n :
  norm_values op vals !! n =
    match vals !! n with
    | Some v => Some v
    | None => src ← byte_source n; (λ v, v ⊠ op) <$> vals !! src
    end.
Proof.
  assert (Hnd : NoDup (map_range "Normalized" byteCounters).*2).
  { rewrite (map_range_perm "Normalized" byteCounters).
    apply (bool_decide_unpack _). by vm_compute. }
  assert (Hdis : ∀ d', d' ∈ (map_range "Normalized" byteCounters).*2 →
                   d' ∉ (map_range "Normalized" byteCounters).*1).
  { intros d'. rewrite (map_range_perm "Normalized" byteCounters). revert d'.
    apply list.Forall_forall, (bool_decide_unpack _). by vm_compute. }
  unfold norm_values. destruct (byte_source n) as [s|] eqn:Es.
  - apply byteCounters_entries in Es. by rewrite (norm_fold_eq _ _ _ s).
  - rewrite norm_fold_ne; [by destruct (vals !! n)|].
    intros ([s d] & -> & Hin)%list_elem_of_fmap.
    apply byteCounters_entries in Hin. simpl in *. congruence.
Qed.

Lemma norm_values_idem op vals : norm_values op (norm_values op vals) = norm_values op vals.
Proof.
  assert (Hsrc : ∀ d s, byte_source d = Some s → byte_source s = None).
  { unfold byte_source. intros d s. repeat case_decide; intros [= <-]; by vm_compute. }
  apply map_eq. intros n. rewrite (norm_values_lookup op (norm_values op vals)).
  destruct (norm_values op vals !! n) eqn:E; [done|].
  rewrite norm_values_lookup in E. destruct (vals !! n); [done|].
  destruct (byte_source n) as [s|] eqn:Es; simpl in *; [|done].
  rewrite norm_values_lookup, (Hsrc _ _ Es). by destruct (vals !! s).
Qed.

Lemma Normalized_pos s op :
  OpBytes s = Some op → 0 < op →
  Normalized s =
    mkSnapshot (snap_CapturedAt s) (snap_VersionNum s) (Some op) (snap_TrackIOTiming s)
      (snap_TrackWALIOTiming s) (snap_StatsReset s)
      ((λ r, mkRow (row_Key r) (norm_values op (Values r))) <$> snap_Rows s).
Proof. intros Hop ?. unfold Normalized. rewrite Hop. by destruct (Z.leb_spec op 0); [lia|]. Qed.

Lemma row_keys_Normalized s : row_keys (snap_Rows (Normalized s)) = row_keys (snap_Rows s).
Proof.
  unfold Normalized. destruct (OpBytes s) as [op|]; [|done]. case_match; [done|]. simpl.
  unfold row_keys. rewrite <-list_fmap_compose. by apply list_fmap_ext.
Qed.

(** *** Deltas *)

Lemma delta_values_spec b l d :
  NoDup l.*1 → (∀ n, n ∈ l.*1 → d !! n = None) →
  match delta_values b l d with
  | None => ∃ n v p, (n, v) ∈ l ∧ b !! n = Some p ∧ v < p
  | Some d' =>
      (∀ n v p, (n, v) ∈ l → b !! n = Some p → p ≤ v) ∧
      ∀ n, d' !! n = match (list_to_map l : gmap string Z) !! n, b !! n with
                     | Some v, Some p => Some (v ⊟ p)
                     | _, _ => d !! n
                     end
  end.
Proof.
  revert d. induction l as [|[n0 v0] l IH]; intros d Hnd Hd; simpl.
  { split; [by intros ??? ?%elem_of_nil|done]. }
  apply NoDup_cons in Hnd as [Hn0 Hnd]. destruct (b !! n0) as [p0|] eqn:Eb.
  - destruct (Z.ltb_spec v0 p0) as [Hlt|Hge].
    { exists n0, v0, p0. by split; [left|]. }
    specialize (IH (<[n0:=v0 ⊟ p0]> d) Hnd).
    assert (Hd' : ∀ n, n ∈ l.*1 → <[n0:=v0 ⊟ p0]> d !! n = None).
    { intros n Hn. rewrite lookup_insert_ne by (by intros ->). apply Hd. by right. }
    specialize (IH Hd'). destruct (delta_values b l _) as [d'|].
    + destruct IH as [Hge' Hl]. split.
      * intros n v p [[= -> ->]|Hin]%elem_of_cons; [|by apply Hge'].
        rewrite Eb. by intros [= ->].
      * intros n. rewrite Hl. destruct (decide (n = n0)) as [->|Hne].
        -- rewrite lookup_insert_eq, Eb, not_elem_of_list_to_map_1 by done.
           by rewrite lookup_insert_eq.
        -- by rewrite !lookup_insert_ne by done.
    + destruct IH as (n & v & p & ? & ? & ?). exists n, v, p. by split; [right|].
  - specialize (IH d Hnd). assert (Hd' : ∀ n, n ∈ l.*1 → d !! n = None).
    { intros n ?. apply Hd. by right. }
    specialize (IH Hd'). destruct (delta_values b l d) as [d'|].
    + destruct IH as [Hge' Hl]. split.
      * intros n v p [[= -> ->]|Hin]%elem_of_cons; [congruence|by apply Hge'].
      * intros n. rewrite Hl. destruct (decide (n = n0)) as [->|Hne].
        -- rewrite lookup_insert_eq, Eb, not_elem_of_list_to_map_1 by done. done.
        -- by rewrite !lookup_insert_ne by done.
    + destruct IH as (n & v & p & ? & ? & ?). exists n, v, p. by split; [right|].
Qed.

Lemma delta_values_diff b c :
  match delta_values b (map_range "Delta" c) ∅ with
  | None => regressed b c
  | Some d => ¬ regressed b c ∧ d = diff_values b c
  end.
Proof.
  pose proof (delta_values_spec b (map_range "Delta" c) ∅ (map_range_nodup _ _)
                (λ n _, lookup_empty n)) as Hs.
  destruct (delta_values _ _ _) as [d|].
  - destruct Hs as [Hge Hl]. split.
    + intros (n & v & p & Hc & Hb & Hlt). apply (elem_of_map_range "Delta") in Hc.
      specialize (Hge _ _ _ Hc Hb). lia.
    + apply map_eq. intros n. rewrite Hl, map_range_to_map. unfold diff_values.
      rewrite lookup_intersection_with. by destruct (c !! n), (b !! n).
  - destruct Hs as (n & v & p & Hc%elem_of_map_range & Hb & Hlt). by exists n, v, p.
Qed.

(** The rows of a delta: one per current row that has a baseline. *)
Definition diff_row (base : gmap Key (gmap string Z)) (c : Row) : option Row :=
  (λ b, mkRow (row_Key c) (diff_values b (Values c))) <$> base !! row_Key c.

Definition row_regressed (base : gmap Key (gmap string Z)) (c : Row) : Prop :=
  ∃ b, base !! row_Key c = Some b ∧ regressed b (Values c).

Lemma delta_rows_spec base cur rows :
  match delta_rows base cur rows with
  | None => Exists (row_regressed base) cur
  | Some rows' => Forall (λ c, ¬ row_regressed base c) cur ∧
                  rows' = rows ++ omap (diff_row base) cur
  end.
Proof.
  revert rows. induction cur as [|c cur IH]; intros rows; simpl.
  { by rewrite app_nil_r. }
  unfold diff_row at 1. destruct (base !! row_Key c) as [b|] eqn:Eb; simpl.
  - pose proof (delta_values_diff b (Values c)) as Hv.
    destruct (delta_values b _ ∅) as [d|].
    + destruct Hv as [Hnr ->].
      specialize (IH (rows ++ [mkRow (row_Key c) (diff_values b (Values c))])).
      destruct (delta_rows _ _ _) as [rows'|]; [|by right].
      destruct IH as [Hall ->]. rewrite <-app_assoc. split; [|done].
      constructor; [|done]. intros (b' & Hb' & ?). by simplify_eq.
    + left. by exists b.
  - specialize (IH rows). destruct (delta_rows _ _ _) as [rows'|]; [|by right].
    destruct IH as [Hall ->]. split; [|done]. constructor; [|done].
    intros (b' & Hb' & ?). congruence.
Qed.

Lemma row_keys_omap base cur k :
  k ∈ row_keys (omap (diff_row base) cur) → k ∈ row_keys cur.
Proof.
  unfold row_keys. intros (r & -> & Hr)%list_elem_of_fmap.
  apply list_elem_of_omap in Hr as (c & Hc & Hd).
  unfold diff_row in Hd. destruct (base !! row_Key c); [|done]. simplify_eq/=.
  by apply list_elem_of_fmap_2.
Qed.

Lemma row_keys_omap_nodup base cur :
  NoDup (row_keys cur) → NoDup (row_keys (omap (diff_row base) cur)).
Proof.
  induction cur as [|c cur IH]; [done|]. unfold row_keys at 1. rewrite fmap_cons.
  intros [Hc Hnd]%NoDup_cons. simpl. destruct (diff_row base c) as [r|] eqn:E; [|by apply IH].
  unfold row_keys. rewrite fmap_cons. constructor; [|by apply IH].
  unfold diff_row in E. destruct (base !! row_Key c); [|done]. simplify_eq/=.
  intros ?%row_keys_omap. done.
Qed.

Lemma cell_diff_rows base cur k n :
  NoDup (row_keys cur) →
  cell (omap (diff_row base) cur) k n =
    match cell cur k n, base !! k ≫= (.!! n) with
    | Some v, Some p => Some (v ⊟ p)
    | _, _ => None
    end.
Proof.
  intros Hnd. pose proof (row_keys_omap_nodup base _ Hnd) as Hnd'. unfold cell.
  destruct (base_of cur !! k) as [vs|] eqn:Ec; simpl.
  - apply base_of_Some in Ec; [|done]. destruct (base !! k) as [b|] eqn:Eb; simpl.
    + assert (Hr : mkRow k (diff_values b vs) ∈ omap (diff_row base) cur).
      { apply list_elem_of_omap. exists (mkRow k vs). split; [done|].
        unfold diff_row. simpl. by rewrite Eb. }
      apply base_of_Some in Hr; [|done]. rewrite Hr. simpl.
      unfold diff_values. rewrite lookup_intersection_with. by destruct (vs !! n), (b !! n).
    + destruct (base_of (omap _ _) !! k) as [d|] eqn:Ed; simpl; [|by destruct (vs !! n)].
      apply base_of_Some, list_elem_of_omap in Ed as (c & Hc & Hd); [|done].
      unfold diff_row in Hd. destruct (base !! row_Key c) eqn:E; simplify_eq/=.
  - apply base_of_None in Ec. destruct (base_of (omap _ _) !! k) eqn:Ed; [|done].
    exfalso. apply Ec, (row_keys_omap base). destruct (decide (k ∈ row_keys (omap (diff_row base) cur))); [done|].
    by rewrite (proj2 (base_of_None _ _)) in Ed.
Qed.

(** One counter of a capture, as the delta sees it: normalised. *)
Definition ncell (s : Snapshot) (k : Key) (n : string) : option Z :=
  cell (snap_Rows (Normalized s)) k n.

(** pg_stat_io reports one row per (backend_type, object, context). *)
Definition distinct_rows (s : Snapshot) : Prop := NoDup (row_keys (snap_Rows s)).

Definition not_regressed (prev cur : Snapshot) : Prop :=
  ∀ k n v p, ncell cur k n = Some v → ncell prev k n = Some p → p ≤ v.

Lemma not_regressed_rows prev cur :
  distinct_rows cur →
  not_regressed prev cur ↔
    Forall (λ c, ¬ row_regressed (base_of (snap_Rows (Normalized prev))) c)
      (snap_Rows (Normalized cur)).
Proof.
  intros Hnd. assert (Hnd' : NoDup (row_keys (snap_Rows (Normalized cur)))).
  { by rewrite row_keys_Normalized. }
  unfold not_regressed, ncell, cell. rewrite list.Forall_forall. split.
  - intros Hle [k vs] Hin (b & Hb & n & v & p & Hv & Hp & Hlt). simpl in *.
    apply base_of_Some in Hin; [|done]. specialize (Hle k n v p).
    rewrite Hin, Hb in Hle. simpl in Hle. specialize (Hle Hv Hp). lia.
  - intros Hall k n v p Hc Hp. destruct (base_of (snap_Rows (Normalized cur)) !! k) eqn:Ec; [|done].
    destruct (base_of (snap_Rows (Normalized prev)) !! k) eqn:Ep; [|done]. simpl in *.
    apply base_of_Some in Ec; [|done]. destruct (Z.le_gt_cases p v); [done|].
    exfalso. apply (Hall _ Ec). eexists. split; [exact Ep|]. simpl. exists n, v, p. by split.
Qed.

Lemma time_sub_pos a b : 0 < time_sub a b ↔ b < a.
Proof. unfold time_sub, min64, max64. lia. Qed.

(** Everything [Delta] returns, on every branch. *)
Lemma Delta_eq prev cur :
  distinct_rows cur →
  (snap_CapturedAt prev < snap_CapturedAt cur ∧
   sameEpoch (meta_of prev) (meta_of cur) = true ∧
   not_regressed prev cur ∧
   Delta prev cur =
     (mkInterval (snap_CapturedAt prev) (snap_CapturedAt cur)
        (time_sub (snap_CapturedAt cur) (snap_CapturedAt prev)) true
        (omap (diff_row (base_of (snap_Rows (Normalized prev)))) (snap_Rows (Normalized cur))), true))
  ∨ ((snap_CapturedAt cur ≤ snap_CapturedAt prev ∨
      sameEpoch (meta_of prev) (meta_of cur) = false ∨
      ¬ not_regressed prev cur) ∧
     Delta prev cur =
       (mkInterval (snap_CapturedAt prev) (snap_CapturedAt cur)
          (time_sub (snap_CapturedAt cur) (snap_CapturedAt prev)) false [], false)).
Proof.
  intros Hnd. unfold Delta.
  pose proof (time_sub_pos (snap_CapturedAt cur) (snap_CapturedAt prev)) as Hpos.
  destruct (Z.leb_spec (time_sub (snap_CapturedAt cur) (snap_CapturedAt prev)) 0); simpl.
  { right. split; [left; lia|done]. }
  destruct (sameEpoch _ _); simpl; [|right; auto].
  pose proof (delta_rows_spec (base_of (snap_Rows (Normalized prev)))
                (snap_Rows (Normalized cur)) []) as Hs.
  rewrite not_regressed_rows by done. destruct (delta_rows _ _ _) as [rows|].
  - destruct Hs as [Hall ->]. left. split; [lia|]. by split_and!.
  - right. split; [|done]. right; right. rewrite list.Forall_forall. intros Hall.
    apply Exists_exists in Hs as (c & Hc & Hr). by apply (Hall c).
Qed.

(** *** Grouping *)

Lemma add_values_lookup values dst n :
  add_values values dst !! n =
    match values !! n with
    | Some v => Some (default 0 (dst !! n) ⊞ v)
    | None => dst !! n
    end.
Proof.
  unfold add_values. rewrite accumulate_lookup by apply map_range_nodup.
  by rewrite map_range_to_map.
Qed.

(** [acc] holds the 64-bit sums of the exact values [S]. *)
Definition acc_sums (acc : gmap Key (gmap string Z)) (S : Key → string → Z) : Prop :=
  ∀ k n, acc_val acc k n = wrap64 (S k n).

Lemma acc_sums_empty : acc_sums ∅ (λ _ _, 0).
Proof. done. Qed.

Lemma acc_sums_add acc S k0 vs :
  acc_sums acc S →
  acc_sums (add acc k0 vs) (λ k n, S k n + row_val k n (mkRow k0 vs)).
Proof.
  intros HS k n. specialize (HS k n). unfold acc_val, add, row_val in *. simpl.
  destruct (decide (k = k0)) as [->|Hne].
  - rewrite lookup_insert_eq. simpl. rewrite add_values_lookup.
    assert (Hd : default 0 (default ∅ (acc !! k0) !! n) = wrap64 (S k0 n)).
    { destruct (acc !! k0); [done|]. simpl in *. by rewrite lookup_empty. }
    destruct (vs !! n); simpl.
    + rewrite Hd. unfold add64. by rewrite wrap64_add_l.
    + by rewrite Hd, Z.add_0_r.
  - by rewrite lookup_insert_ne, Z.add_0_r.
Qed.

Lemma acc_sums_rows acc S rows :
  acc_sums acc S →
  acc_sums (foldl (λ acc r, add acc (row_Key r) (Values r)) acc rows)
    (λ k n, S k n + sumZ (row_val k n <$> rows)).
Proof.
  revert acc S. induction rows as [|[k0 vs] rows IH]; intros acc S HS.
  - intros k n. simpl. by rewrite Z.add_0_r.
  - intros k n. rewrite fmap_cons, sumZ_cons. cbn [foldl row_Key Values].
    rewrite (IH _ _ (acc_sums_add acc S k0 vs HS) k n). f_equal. lia.
Qed.

Lemma sumZ_row_val rows k n :
  NoDup (row_keys rows) → sumZ (row_val k n <$> rows) = default 0 (cell rows k n).
Proof.
  induction rows as [|r rows IH] using rev_ind; [done|].
  unfold row_keys. rewrite fmap_app, list_fmap_singleton, NoDup_app. intros (Hnd & Hdis & _).
  rewrite fmap_app, sumZ_app, IH by done. simpl. unfold cell, row_val.
  rewrite base_of_snoc. destruct (decide (k = row_Key r)) as [->|Hne].
  - rewrite lookup_insert_eq. simpl.
    rewrite (proj2 (base_of_None rows (row_Key r))); [simpl; lia|].
    intros Hin. apply (Hdis _ Hin), list_elem_of_singleton. done.
  - rewrite lookup_insert_ne by done. lia.
Qed.

Lemma key_less_strict : StrictWeak (λ x y : Row, key_less (row_Key x) (row_Key y)).
Proof.
  split.
  - intros [[b1 o1 c1] ?] [[b2 o2 c2] ?]. unfold key_less. simpl.
    repeat case_bool_decide; simplify_eq/=; eauto using str_ltb_asym.
  - intros [[b1 o1 c1] ?] [[b2 o2 c2] ?] [[b3 o3 c3] ?]. unfold key_less. simpl.
    repeat case_bool_decide; simplify_eq/=; intros;
      try (by eapply str_ltb_neg_trans); try done;
      exfalso; eauto using str_ltb_antisym.
Qed.

Lemma key_less_antisym k1 k2 : key_less k1 k2 = false → key_less k2 k1 = false → k1 = k2.
Proof.
  destruct k1 as [b1 o1 c1], k2 as [b2 o2 c2]. unfold key_less. simpl.
  repeat case_bool_decide; simplify_eq/=; intros; f_equal;
    first [done | by apply str_ltb_antisym | exfalso; by eauto using str_ltb_antisym].
Qed.

Definition acc_rows (l : list (Key * gmap string Z)) : list Row := (λ '(k, v), mkRow k v) <$> l.

Lemma row_keys_acc_rows l : row_keys (acc_rows l) = l.*1.
Proof.
  unfold row_keys, acc_rows. rewrite <-list_fmap_compose.
  apply list_fmap_ext. by intros ? [].
Qed.

Lemma row_keys_sortedRows acc :
  row_keys (sortedRows acc) ≡ₚ (map_to_list acc).*1.
Proof.
  unfold sortedRows. unfold row_keys at 1. rewrite sort_slice_perm.
  change (row_keys (acc_rows (map_range "sortedRows" acc)) ≡ₚ (map_to_list acc).*1).
  rewrite row_keys_acc_rows. by rewrite map_range_perm.
Qed.

Lemma sortedRows_nodup acc : NoDup (row_keys (sortedRows acc)).
Proof. rewrite row_keys_sortedRows. apply NoDup_fst_map_to_list. Qed.

Lemma elem_of_sortedRows acc k v : mkRow k v ∈ sortedRows acc ↔ acc !! k = Some v.
Proof.
  unfold sortedRows. rewrite elem_of_sort_slice, <-(elem_of_map_range "sortedRows").
  rewrite list_elem_of_fmap. split.
  - intros ([k' v'] & [= -> ->] & ?). done.
  - intros. by exists (k, v).
Qed.

Lemma cell_sortedRows acc k n : cell (sortedRows acc) k n = acc !! k ≫= (.!! n).
Proof.
  unfold cell. f_equal. apply option_eq. intros v.
  by rewrite base_of_Some, elem_of_sortedRows by apply sortedRows_nodup.
Qed.

(** The sort's order is strict: distinct keys are never left in map order. *)
Lemma sortedRows_strict acc :
  StronglySorted (λ x y, key_less (row_Key x) (row_Key y) = true) (sortedRows acc).
Proof.
  pose proof (sortedRows_nodup acc) as Hnd.
  pose proof (@sort_slice_sorted _ _ key_less_strict (acc_rows (map_range "sortedRows" acc))) as Hs.
  change (sort_slice _ _) with (sortedRows acc) in Hs. revert Hnd.
  induction Hs as [|r l Hs IH Hall]; intros Hnd; [constructor|].
  apply NoDup_cons in Hnd as [Hr Hnd]. constructor; [by apply IH|].
  rewrite list.Forall_forall in Hall |- *. intros r' Hr'. specialize (Hall r' Hr').
  unfold not_less in Hall. destruct (key_less (row_Key r) (row_Key r')) eqn:E; [done|].
  exfalso. apply Hr. rewrite (key_less_antisym _ _ E Hall).
  by apply list_elem_of_fmap_2.
Qed.
Lemma elem_of_row_keys_sortedRows acc k :
  k ∈ row_keys (sortedRows acc) ↔ is_Some (acc !! k).
Proof.
  unfold row_keys. rewrite list_elem_of_fmap. split.
  - intros ([k' v] & -> & Hv%elem_of_sortedRows). by exists v.
  - intros [v Hv]. exists (mkRow k v). by rewrite elem_of_sortedRows.
Qed.

Lemma reduce_fold_keys f by_ rows acc k :
  is_Some (foldl (reduce_step f by_) acc rows !! k) ↔
    is_Some (acc !! k) ∨
    ∃ r, r ∈ rows ∧ match_filter f (row_Key r) = true ∧ project by_ (row_Key r) = k.
Proof.
  revert acc. induction rows as [|r rows IH]; intros acc; cbn [foldl].
  { split; [by left|]. intros [?|(r & Hr & _)]; [done|]. by apply elem_of_nil in Hr. }
  rewrite IH. unfold reduce_step at 1.
  destruct (match_filter f (row_Key r)) eqn:E.
  - unfold add. rewrite lookup_insert_is_Some'. split.
    + intros [[<-|?]|(x & ? & ?)]; [right; exists r| |right; exists x];
        rewrite ?elem_of_cons; auto.
    + intros [?|(x & [->|?]%elem_of_cons & ? & ?)]; [auto..|].
      right. by exists x.
  - split.
    + intros [?|(x & ? & ?)]; [by left|right; exists x]. by rewrite elem_of_cons; auto.
    + intros [?|(x & [->|?]%elem_of_cons & ? & ?)]; [auto|congruence|].
      right. by exists x.
Qed.

Lemma reduce_fold_sums f by_ acc S rows :
  acc_sums acc S →
  acc_sums (foldl (reduce_step f by_) acc rows)
    (λ k n, S k n +
       sumZ ((λ r, if match_filter f (row_Key r) && bool_decide (k = project by_ (row_Key r))
                   then default 0 (Values r !! n) else 0) <$> rows)).
Proof.
  revert acc S. induction rows as [|r rows IH]; intros acc S HS k n.
  - simpl. by rewrite Z.add_0_r.
  - rewrite fmap_cons, sumZ_cons. cbn [foldl]. unfold reduce_step at 2.
    destruct (match_filter f (row_Key r)) eqn:E; cbn [andb].
    + rewrite (IH _ _ (acc_sums_add acc S _ _ HS) k n). f_equal. unfold row_val. simpl.
      destruct (decide (k = project by_ (row_Key r))).
      * rewrite bool_decide_true by done. lia.
      * rewrite bool_decide_false by done. lia.
    + rewrite (IH _ _ HS k n). f_equal. 
Qed.
End lemmas.

(** The result of a loop that sums rows is the same for every iteration order. *)
Lemma add_values_range_indep (R1 R2 : MapRange) values dst :
  @add_values R1 values dst = @add_values R2 values dst.
Proof. apply map_eq. intros n. by rewrite !(@add_values_lookup _). Qed.

Lemma sortedRows_range_indep (R1 R2 : MapRange) acc : @sortedRows R1 acc = @sortedRows R2 acc.
Proof.
  unfold sortedRows. apply (@sort_slice_unique _ _ key_less_strict).
  - by rewrite (@map_range_perm R1), (@map_range_perm R2).
  - intros x y ([k v] & -> & Hx)%list_elem_of_fmap ([k' v'] & -> & Hy)%list_elem_of_fmap H1 H2.
    simpl in *. assert (k = k') as -> by (by apply key_less_antisym).
    apply (@elem_of_map_range R1) in Hx, Hy. by simplify_eq.
Qed.

Lemma norm_values_range_indep (R1 R2 : MapRange) op vals :
  @norm_values R1 op vals = @norm_values R2 op vals.
Proof. apply map_eq. intros n. by rewrite !(@norm_values_lookup _). Qed.

Lemma Normalized_range_indep (R1 R2 : MapRange) s : @Normalized R1 s = @Normalized R2 s.
Proof.
  unfold Normalized. destruct (OpBytes s) as [op|]; [|done]. case_match; [done|]. f_equal.
  apply list_fmap_ext. intros _ r _. f_equal. apply norm_values_range_indep.
Qed.

Lemma delta_rows_range_indep (R1 R2 : MapRange) base cur rows :
  @delta_rows R1 base cur rows = @delta_rows R2 base cur rows.
Proof.
  revert rows. induction cur as [|c cur IH]; intros rows; simpl; [done|].
  destruct (base !! row_Key c) as [b|]; [|done].
  pose proof (@delta_values_diff R1 b (Values c)) as H1.
  pose proof (@delta_values_diff R2 b (Values c)) as H2.
  destruct (delta_values b (@map_range R1 _ _ _ _ _ _) ∅), (delta_values b (@map_range R2 _ _ _ _ _ _) ∅).
  - destruct H1 as [_ ->], H2 as [_ ->]. apply IH.
  - by destruct H1.
  - by destruct H2.
  - done.
Qed.

Lemma Delta_range_indep (R1 R2 : MapRange) prev cur : @Delta R1 prev cur = @Delta R2 prev cur.
Proof.
  unfold Delta. case_match; [done|].
  by rewrite !(Normalized_range_indep R1 R2), (delta_rows_range_indep R1 R2).
Qed.

Lemma add_range_indep (R1 R2 : MapRange) acc k vs : @add R1 acc k vs = @add R2 acc k vs.
Proof. unfold add. by rewrite (add_values_range_indep R1 R2). Qed.

Lemma assemble_step_range_indep (R1 R2 : MapRange) byTime st s :
  @assemble_step R1 byTime st s = @assemble_step R2 byTime st s.
Proof.
  destruct st as [[partial dur] acc]. unfold assemble_step.
  assert (@spanDelta R1 byTime s = @spanDelta R2 byTime s) as ->.
  { unfold spanDelta. repeat case_match; try done. apply Delta_range_indep. }
  destruct (spanDelta byTime s) as [iv []]; simpl; [|done]. f_equal.
  apply foldl_ext_fun. intros. apply add_range_indep.
Qed.

Lemma sameEpoch_iff prev cur :
  sameEpoch prev cur = true ↔
    Z.quot (VersionNum prev) 10000 = Z.quot (VersionNum cur) 10000 ∧
    StatsReset prev = StatsReset cur.
Proof.
  unfold sameEpoch. destruct (Z.eqb_spec (Z.quot (VersionNum prev) 10000) (Z.quot (VersionNum cur) 10000));
    simpl; [|naive_solver].
  destruct (StatsReset prev), (StatsReset cur); try rewrite Z.eqb_eq; naive_solver.
Qed.

(** A small capture used by the witnesses: one heap row of the checkpointer. *)
Definition sample_key : Key := mkKey "checkpointer" "relation" "normal".

Definition sample_snapshot (at_ reads : Z) : Snapshot := {|
  snap_CapturedAt := at_; snap_VersionNum := 160004; OpBytes := Some 8192;
  snap_TrackIOTiming := true; snap_TrackWALIOTiming := false; snap_StatsReset := Some 7;
  snap_Rows := [mkRow sample_key {["reads" := reads]}]
|}.

Section properties.
Context `{!MapRange}.

(** C1: [Delta] is complete exactly when the two captures are in order, belong to
    one epoch (same major version, same stats_reset) and no counter they share went
    backwards; a complete delta carries, for every counter measured on both ends, the
    difference of the normalised values (exact and non-negative on non-negative
    counters), and an incomplete one carries its bounds and no rows. *)
Theorem Delta_correct prev cur :
  distinct_rows cur →
  let '(iv, ok) := Delta prev cur in
  iv_From iv = snap_CapturedAt prev ∧ iv_To iv = snap_CapturedAt cur ∧
  Complete iv = ok ∧
  (ok = true ↔
     snap_CapturedAt prev < snap_CapturedAt cur ∧
     (Z.quot (snap_VersionNum prev) 10000 = Z.quot (snap_VersionNum cur) 10000 ∧
      snap_StatsReset prev = snap_StatsReset cur) ∧
     not_regressed prev cur) ∧
  (ok = false → iv_Rows iv = []) ∧
  (ok = true → ∀ k n,
     cell (iv_Rows iv) k n =
       match ncell cur k n, ncell prev k n with
       | Some v, Some p => Some (v ⊟ p)
       | _, _ => None
       end ∧
     ∀ v p, ncell cur k n = Some v → ncell prev k n = Some p → 0 ≤ p → v ≤ max64 →
       cell (iv_Rows iv) k n = Some (v - p) ∧ 0 ≤ v - p).
Proof.
  intros Hnd. pose proof (sameEpoch_iff (meta_of prev) (meta_of cur)) as Hep.
  assert (Hnd' : NoDup (row_keys (snap_Rows (Normalized cur)))) by (by rewrite row_keys_Normalized).
  destruct (Delta_eq prev cur Hnd) as [(Hlt & He & Hnr & ->)|[Hno ->]]; simpl.
  - assert (Hcell : ∀ k n,
      cell (omap (diff_row (base_of (snap_Rows (Normalized prev)))) (snap_Rows (Normalized cur))) k n =
        match ncell cur k n, ncell prev k n with Some v, Some p => Some (v ⊟ p) | _, _ => None end).
    { intros k n. by apply cell_diff_rows. }
    split_and!; [done..|by rewrite <-Hep|done|]. intros _ k n. rewrite Hcell.
    split; [done|]. intros v p Hv Hp ??. rewrite Hv, Hp.
    specialize (Hnr k n v p Hv Hp). split; [|lia].
    rewrite sub64_small; [done|]. unfold int64, min64, max64 in *. lia.
  - split_and!; try done. split; [done|]. intros (? & Hsame & ?). apply Hep in Hsame.
    destruct Hno as [?|[?|?]]; [lia|congruence|done].
Qed.

(** [Normalized] derives exactly the byte counters a PG 16/17 row lacks — reads,
    writes and extends times the operation size — keeps native byte counters and every
    other counter, and normalising a normalised capture changes nothing. *)
Theorem Normalized_correct s op :
  OpBytes s = Some op → 0 < op →
  Normalized (Normalized s) = Normalized s ∧
  row_keys (snap_Rows (Normalized s)) = row_keys (snap_Rows s) ∧
  ∀ i r, snap_Rows s !! i = Some r →
    ∃ vs, snap_Rows (Normalized s) !! i = Some (mkRow (row_Key r) vs) ∧
      ∀ n, vs !! n =
        match Values r !! n with
        | Some v => Some v
        | None => src ← byte_source n; (λ v, v ⊠ op) <$> Values r !! src
        end.
Proof.
  intros Hop Hpos. split_and!.
  - rewrite (Normalized_pos _ op) by (done || by rewrite (Normalized_pos _ op)).
    rewrite (Normalized_pos s op) by done. simpl. f_equal. rewrite <-list_fmap_compose.
    apply list_fmap_ext. intros _ r _. simpl. by rewrite norm_values_idem.
  - apply row_keys_Normalized.
  - intros i r Hr. rewrite (Normalized_pos _ op) by done. simpl.
    exists (norm_values op (Values r)). rewrite list_lookup_fmap, Hr. split; [done|].
    intros n. apply norm_values_lookup.
Qed.

(** [Reduce] returns one row per projected key of a matching row, strictly ordered
    by key, and every counter of a returned row is the 64-bit sum of that counter over
    the matching rows projected onto the key: nothing is lost and nothing double
    counted. *)
Theorem Reduce_correct rows f by_ :
  StronglySorted (λ x y, key_less (row_Key x) (row_Key y) = true) (Reduce rows f by_) ∧
  (∀ k, k ∈ row_keys (Reduce rows f by_) ↔
     ∃ r, r ∈ rows ∧ match_filter f (row_Key r) = true ∧ project by_ (row_Key r) = k) ∧
  ∀ k n, default 0 (cell (Reduce rows f by_) k n) =
    wrap64 (sumZ ((λ r, if match_filter f (row_Key r) && bool_decide (k = project by_ (row_Key r))
                        then default 0 (Values r !! n) else 0) <$> rows)).
Proof.
  unfold Reduce. split_and!.
  - apply sortedRows_strict.
  - intros k. rewrite elem_of_row_keys_sortedRows, reduce_fold_keys, lookup_empty.
    split; [by intros [[]%is_Some_None|?] | by right].
  - intros k n. rewrite cell_sortedRows.
    apply (reduce_fold_sums f by_ ∅ (λ _ _, 0)), acc_sums_empty.
Qed.
End properties.

(** None of the package's results depends on the order Go ranges over its maps. *)
Theorem map_order_irrelevant (R1 R2 : MapRange) :
  (∀ prev cur, @Delta R1 prev cur = @Delta R2 prev cur) ∧
  (∀ rows f by_, @Reduce R1 rows f by_ = @Reduce R2 rows f by_) ∧
  (∀ p snaps, @Assemble R1 p snaps = @Assemble R2 p snaps).
Proof.
  split_and!.
  - apply Delta_range_indep.
  - intros. unfold Reduce. rewrite (sortedRows_range_indep R1 R2). f_equal.
    apply foldl_ext_fun. intros acc r. unfold reduce_step. case_match; [|done].
    apply add_range_indep.
  - intros. unfold Assemble. apply list_fmap_ext. intros _ bp _. unfold assemble_bucket.
    rewrite (foldl_ext_fun _ _ _ _ (assemble_step_range_indep R1 R2 (by_time snaps))).
    destruct (foldl _ _ _) as [[partial dur] acc]. f_equal. apply sortedRows_range_indep.
Qed.

(** ** Witnesses *)

Lemma Delta_correct_witness :
  distinct_rows (sample_snapshot 20 5) ∧
  (@Delta canonical_range (sample_snapshot 10 3) (sample_snapshot 20 5)).2 = true ∧
  Complete (@Delta canonical_range (sample_snapshot 10 3) (sample_snapshot 20 5)).1 =
    (@Delta canonical_range (sample_snapshot 10 3) (sample_snapshot 20 5)).2.
Proof.
  assert (H : distinct_rows (sample_snapshot 20 5)).
  { apply (bool_decide_unpack _). by vm_compute. }
  split; [exact H|]. split; [by vm_compute|].
  pose proof (@Delta_correct canonical_range (sample_snapshot 10 3) (sample_snapshot 20 5) H) as Hd.
  destruct (@Delta canonical_range (sample_snapshot 10 3) (sample_snapshot 20 5)) as [iv ok].
  exact (proj1 (proj2 (proj2 Hd))).
Defined.

Lemma Normalized_correct_witness :
  @Normalized canonical_range (@Normalized canonical_range (sample_snapshot 10 3)) =
    @Normalized canonical_range (sample_snapshot 10 3).
Proof.
  exact (proj1 (@Normalized_correct canonical_range (sample_snapshot 10 3) 8192 eq_refl eq_refl)).
Defined.
