(* ===== verification/StatIOSeries.v ===== *)
(** * [internal/statio]: the planned series equals the interval-by-interval one

    A history request reads only the captures at the ends of each run of measurable
    intervals ([PlanBuckets], [At]). This file proves that the grouping loses no
    interval, that the plan cannot panic, and that what [Assemble] returns for a bucket
    is the sum of the deltas of every adjacent pair of captures inside the bucket. *)

From S2P Require Import Prelude StatIO.
From stdpp Require Import options.

(** ** Specification *)

Fixpoint adjacent {A} (l : list A) : list (A * A) :=
  match l with
  | a :: (b :: _) as rest => (a, b) :: adjacent rest
  | _ => []
  end.

Lemma adjacent_cons2 {A} (a b : A) l : adjacent (a :: b :: l) = (a, b) :: adjacent (b :: l).
Proof. done. Qed.

Definition at_ (s : Snapshot) : time := snap_CapturedAt s.

(** The pair is measurable as far as the headers show. *)
Definition measurable (p : Snapshot * Snapshot) : bool :=
  Complete (meta_interval (meta_of p.1) (meta_of p.2)).

(** Instants between 1970 and 2262, where [UnixNano] and [Sub] are exact. *)
Definition in_era (t : time) : Prop := 0 ≤ t ≤ max64.

Definition chronological (ts : list time) : Prop :=
  Forall in_era ts ∧ StronglySorted Z.lt ts.

Section spec.
Context `{!MapRange}.

(** The reference: what measuring one adjacent pair on its own gives. *)
Definition dval (k : Key) (n : string) (p : Snapshot * Snapshot) : Z :=
  default 0 (cell (iv_Rows (Delta p.1 p.2).1) k n).

Definition same_cells (s s' : Snapshot) : Prop :=
  ∀ k n, is_Some (ncell s k n) ↔ is_Some (ncell s' k n).

(** A regular series: distinct rows, and along every interval the headers call
    measurable the matrix keeps its shape and no counter falls. *)
Record regular (snaps : list Snapshot) : Prop := {
  regular_times : chronological (at_ <$> snaps);
  regular_rows : Forall distinct_rows snaps;
  regular_pairs : Forall (λ p, measurable p = true →
    same_cells p.1 p.2 ∧ not_regressed p.1 p.2) (adjacent snaps)
}.
End spec.

Definition inside (b : Bucket) (p : Snapshot * Snapshot) : bool :=
  (b_From b <=? at_ p.1) && (at_ p.2 <=? b_To b).

Definition pair_length (p : Snapshot * Snapshot) : Z := at_ p.2 - at_ p.1.

(** ** Grouping *)

Definition iv_ok (iv : Interval) : Prop := 0 ≤ iv_From iv ∧ iv_From iv < iv_To iv ∧ iv_To iv ≤ max64.

Definition ordered (ivs : list Interval) : Prop :=
  Forall iv_ok ivs ∧ StronglySorted (λ a b, iv_To a ≤ iv_From b) ivs.

Lemma div64_bounds a b : 0 ≤ a ≤ max64 → 1 ≤ b → div64 a b = Z.quot a b ∧ 0 ≤ Z.quot a b ≤ a.
Proof.
  intros Ha Hb. assert (0 ≤ Z.quot a b ≤ a).
  { split; [apply Z.quot_pos; lia|]. rewrite Z.quot_div_nonneg by lia.
    apply Z.div_le_upper_bound; nia. }
  split; [|done]. unfold div64. apply wrap64_id. unfold int64, min64 in *. lia.
Qed.

Definition midpoint (iv : Interval) : Z := iv_From iv + Z.quot (iv_To iv - iv_From iv) 2.

Lemma group_index_eq start width points iv :
  iv_ok iv → 0 ≤ start ≤ iv_From iv → 1 ≤ width → 1 ≤ points →
  group_index start width points iv = Z.min (Z.quot (midpoint iv - start) width) (points - 1).
Proof.
  intros (H0 & Hlt & Hmax) Hs Hw Hp. unfold group_index, midpoint, time_add.
  rewrite (time_sub_small (iv_To iv)) by (unfold int64, min64, max64 in *; lia).
  destruct (div64_bounds (iv_To iv - iv_From iv) 2) as [-> Hq]; [unfold max64 in *; lia|lia|].
  rewrite time_sub_small by (unfold int64, min64, max64 in *; lia).
  destruct (div64_bounds (iv_From iv + Z.quot (iv_To iv - iv_From iv) 2 - start) width) as [-> Hi];
    [unfold max64 in *; lia|lia|].
  destruct (Z.leb_spec points (Z.quot (iv_From iv + Z.quot (iv_To iv - iv_From iv) 2 - start) width));
    destruct (Z.ltb_spec (points - 1) 0);
    try destruct (Z.ltb_spec (Z.quot (iv_From iv + Z.quot (iv_To iv - iv_From iv) 2 - start) width) 0); lia.
Qed.

Lemma midpoint_mono a b : iv_ok a → iv_ok b → iv_To a ≤ iv_From b → midpoint a ≤ midpoint b.
Proof.
  unfold iv_ok, midpoint. intros Ha Hb ?.
  pose proof (Z.quot_pos (iv_To b - iv_From b) 2).
  assert (Z.quot (iv_To a - iv_From a) 2 ≤ iv_To a - iv_From a).
  { rewrite Z.quot_div_nonneg by lia. apply Z.div_le_upper_bound; lia. }
  lia.
Qed.

Section concat_groups.
Context {A : Type} (f : A → nat).
Let step (groups : list (list A)) (x : A) : list (list A) := alter (λ g, g ++ [x]) (f x) groups.

Lemma concat_alter (groups : list (list A)) i x :
  (i < length groups)%nat → (∀ j, (i < j < length groups)%nat → groups !! j = Some []) →
  concat (alter (λ g, g ++ [x]) i groups) = concat groups ++ [x].
Proof.
  revert i. induction groups as [|g groups IH]; intros i Hi Hrest; simpl in *; [lia|].
  destruct i as [|i]; simpl.
  - assert (Hnil : concat groups = []).
    { assert (H : ∀ j g', groups !! j = Some g' → g' = []).
      { intros j g' Hg'. pose proof (lookup_lt_Some _ _ _ Hg') as Hlt.
        specialize (Hrest (S j) ltac:(lia)). simpl in Hrest. rewrite Hg' in Hrest. by simplify_eq. }
      clear -H. induction groups as [|g groups IH]; [done|]. simpl.
      rewrite (H 0%nat g eq_refl), IH; [done|]. intros j. apply (H (S j)). }
    by rewrite Hnil, !app_nil_r.
  - unfold alter in IH. rewrite IH; [by rewrite app_assoc|lia|].
    intros j Hj. apply (Hrest (S j)). lia.
Qed.

Lemma foldl_groups l groups cur :
  StronglySorted (λ a b, f a ≤ f b)%nat l →
  Forall (λ x, cur ≤ f x < length groups)%nat l →
  (∀ j, (cur < j < length groups)%nat → groups !! j = Some []) →
  concat (foldl step groups l) = concat groups ++ l ∧
  length (foldl step groups l) = length groups.
Proof.
  revert groups cur. induction l as [|x l IH]; intros groups cur Hs Hall Hempty; simpl.
  { by rewrite app_nil_r. }
  apply StronglySorted_cons in Hs as [Hx Hs]. apply Forall_cons in Hall as [Hfx Hall].
  destruct (IH (step groups x) (f x)) as [Hc Hl]; [done| | |].
  - unfold step. rewrite length_alter. rewrite list.Forall_forall in Hx, Hall |- *.
    intros y Hy. specialize (Hx y Hy). specialize (Hall y Hy). lia.
  - unfold step. rewrite length_alter. intros j Hj.
    rewrite list_lookup_alter_ne by lia. apply Hempty. lia.
  - rewrite Hc, Hl. unfold step. rewrite length_alter, concat_alter; [|lia|].
    + by rewrite <-app_assoc.
    + intros j Hj. apply Hempty. lia.
Qed.
End concat_groups.

Lemma concat_filter_nonempty {A} (gs : list (list A)) :
  concat (filter (λ g, is_nonempty g = true) gs) = concat gs.
Proof.
  induction gs as [|g gs IH]; [done|]. rewrite filter_cons.
  destruct g; simpl; [done|]. by rewrite IH.
Qed.

Lemma concat_singletons {A} (l : list A) : concat ((λ x, [x]) <$> l) = l.
Proof. induction l as [|x l IH]; [done|]. rewrite fmap_cons. cbn. by rewrite IH. Qed.

Lemma concat_replicate_nil {A} m : concat (replicate m ([] : list A)) = [].
Proof. by induction m. Qed.

Lemma ordered_head_le ivs first iv :
  ordered ivs → head ivs = Some first → iv ∈ ivs → iv_From first ≤ iv_From iv.
Proof.
  destruct ivs as [|i ivs]; [done|]. intros [Hok Hs] [= ->] [->|Hin]%elem_of_cons; [done|].
  apply StronglySorted_cons in Hs as [Hall _]. apply Forall_cons in Hok as [Hok _].
  rewrite list.Forall_forall in Hall. specialize (Hall iv Hin). unfold iv_ok in Hok. lia.
Qed.

(** [n] ordered intervals span at least [n] nanoseconds. *)
Lemma ordered_span ivs first final :
  ordered ivs → head ivs = Some first → last ivs = Some final →
  Z.of_nat (length ivs) ≤ iv_To final - iv_From first.
Proof.
  revert first. induction ivs as [|i ivs IH]; intros first [Hok Hs] Hh Hl; [done|].
  simplify_eq/=. apply Forall_cons in Hok as [Hi Hok]. apply StronglySorted_cons in Hs as [Hall Hs].
  destruct ivs as [|i' ivs]; simplify_eq/=; [unfold iv_ok in Hi; lia|].
  specialize (IH i' (conj Hok Hs) eq_refl Hl). apply Forall_cons in Hall as [? _].
  unfold iv_ok in Hi. lia.
Qed.

(** Grouping ordered intervals cannot panic, keeps every interval in order, and makes
    at most [points] non-empty groups. *)
Lemma groupIntervals_correct ivs points :
  ordered ivs →
  ∃ gs, groupIntervals ivs points = Some gs ∧ concat gs = ivs ∧
    Forall (λ g, g ≠ []) gs ∧ Z.of_nat (length gs) ≤ Z.max 1 points.
Proof.
  intros Hord. unfold groupIntervals.
  destruct (head ivs) as [first|] eqn:Hh; [|destruct ivs; [|done]; exists []; split_and!; simpl; lia || done].
  destruct (last ivs) as [final|] eqn:Hl; [|destruct ivs; [done|by apply last_None in Hl]].
  set (pts := if points <? 1 then 1 else points).
  assert (Hpts : 1 ≤ pts ∧ pts = Z.max 1 points).
  { unfold pts. destruct (Z.ltb_spec points 1); lia. }
  destruct (Z.leb_spec (Z.of_nat (length ivs)) pts) as [Hle|Hgt].
  { exists ((λ iv, [iv]) <$> ivs). rewrite concat_singletons, length_fmap.
    split_and!; [done..| |lia]. apply list.Forall_forall. by intros g (iv & -> & _)%list_elem_of_fmap. }
  pose proof (ordered_span _ _ _ Hord Hh Hl) as Hspan.
  pose proof (proj1 Hord) as Hok. rewrite list.Forall_forall in Hok.
  assert (Hfirst : iv_ok first) by (apply Hok; destruct ivs; simplify_eq/=; by left).
  assert (Hfinal : iv_ok final) by (apply Hok; by apply last_Some_elem_of).
  unfold iv_ok in Hfirst, Hfinal.
  rewrite time_sub_small by (unfold int64, min64, max64 in *; lia).
  destruct (Z.leb_spec (iv_To final - iv_From first) 0); [lia|].
  destruct (div64_bounds (iv_To final - iv_From first) pts) as [-> Hw]; [unfold max64 in *; lia|lia|].
  assert (Hw1 : 1 ≤ Z.quot (iv_To final - iv_From first) pts).
  { rewrite Z.quot_div_nonneg by lia. apply Z.div_le_lower_bound; lia. }
  destruct (Z.eqb_spec (Z.quot (iv_To final - iv_From first) pts) 0); [lia|].
  set (width := Z.quot _ _) in *. eexists. split; [reflexivity|].
  set (idx := λ iv, Z.to_nat (group_index (iv_From first) width pts iv)).
  assert (Hidx : ∀ iv, iv ∈ ivs →
    group_index (iv_From first) width pts iv = Z.min (Z.quot (midpoint iv - iv_From first) width) (pts - 1)
    ∧ iv_From first ≤ midpoint iv).
  { intros iv Hin. pose proof (ordered_head_le _ _ _ Hord Hh Hin). specialize (Hok iv Hin).
    split; [by apply group_index_eq; unfold iv_ok in *; lia|].
    unfold midpoint. pose proof (Z.quot_pos (iv_To iv - iv_From iv) 2). unfold iv_ok in Hok. lia. }
  destruct (foldl_groups idx ivs (replicate (Z.to_nat pts) []) 0%nat) as [Hc Hlen].
  - apply (StronglySorted_impl_in (λ a b, iv_To a ≤ iv_From b)); [|apply Hord].
    intros a b Ha Hb Hab. unfold idx. apply Z2Nat.inj_le; rewrite ?(proj1 (Hidx _ Ha)), ?(proj1 (Hidx _ Hb)).
    + pose proof (proj2 (Hidx _ Ha)). pose proof (Z.quot_pos (midpoint a - iv_From first) width). lia.
    + pose proof (proj2 (Hidx _ Hb)). pose proof (Z.quot_pos (midpoint b - iv_From first) width). lia.
    + pose proof (midpoint_mono a b (Hok _ Ha) (Hok _ Hb) Hab).
      pose proof (Z.quot_le_mono (midpoint a - iv_From first) (midpoint b - iv_From first) width). lia.
  - apply list.Forall_forall. intros iv Hin. rewrite length_replicate. unfold idx.
    rewrite (proj1 (Hidx _ Hin)). lia.
  - intros j Hj. rewrite length_replicate in Hj. apply lookup_replicate_2. lia.
  - rewrite concat_replicate_nil in Hc. rewrite length_replicate in Hlen.
    set (gs := foldl (group_step (iv_From first) width pts) (replicate (Z.to_nat pts) []) ivs).
    change (concat gs = ivs) in Hc. change (length gs = Z.to_nat pts) in Hlen. split_and!.
    + by rewrite concat_filter_nonempty.
    + apply list.Forall_forall. intros g [Hg _]%list_elem_of_filter. by intros ->.
    + pose proof (length_filter (λ g : list Interval, is_nonempty g = true) gs). lia.
Qed.

(** ** Headers and pairs of captures *)

Definition pair_interval (p : Snapshot * Snapshot) : Interval :=
  meta_interval (meta_of p.1) (meta_of p.2).

Lemma metaIntervals_pairs snaps :
  metaIntervals (meta_of <$> snaps) = pair_interval <$> adjacent snaps.
Proof.
  induction snaps as [|a [|b snaps] IH]; [done..|].
  change (pair_interval (a, b) :: metaIntervals (meta_of <$> (b :: snaps)) =
          pair_interval (a, b) :: (pair_interval <$> adjacent (b :: snaps))).
  by rewrite IH.
Qed.

Lemma chronological_cons t ts :
  chronological (t :: ts) ↔ in_era t ∧ Forall (Z.lt t) ts ∧ chronological ts.
Proof. unfold chronological. rewrite Forall_cons, StronglySorted_cons. naive_solver. Qed.

Lemma elem_of_adjacent {A} (l : list A) p : p ∈ adjacent l → p.1 ∈ l ∧ p.2 ∈ l.
Proof.
  induction l as [|a [|b l] IH]; [by intros ?%elem_of_nil..|]. rewrite adjacent_cons2.
  intros [->|Hin]%elem_of_cons; simpl.
  - split; [left|right; left].
  - destruct (IH Hin). split; by right.
Qed.

Definition pair_ok (p : Snapshot * Snapshot) : Prop :=
  in_era (at_ p.1) ∧ in_era (at_ p.2) ∧ at_ p.1 < at_ p.2.

(** The captures of consecutive pairs are shared: [(a,b), (b,c), ...]. *)
Fixpoint linked (ps : list (Snapshot * Snapshot)) : Prop :=
  match ps with
  | p :: (q :: _) as rest => p.2 = q.1 ∧ linked rest
  | _ => True
  end.

Lemma adjacent_linked snaps : linked (adjacent snaps).
Proof. induction snaps as [|a [|b [|c snaps]] IH]; [done..|]. split; [done|apply IH]. Qed.

Lemma adjacent_ok snaps : chronological (at_ <$> snaps) → Forall pair_ok (adjacent snaps).
Proof.
  induction snaps as [|a [|b snaps] IH]; [constructor..|].
  rewrite fmap_cons, chronological_cons, adjacent_cons2. intros (Ha & Hall & Hc).
  constructor; [|by apply IH].
  rewrite fmap_cons in Hall, Hc. apply Forall_cons in Hall as [Hab _].
  apply chronological_cons in Hc as [Hb _]. by split_and!.
Qed.

Lemma adjacent_sorted snaps :
  chronological (at_ <$> snaps) → StronglySorted (λ p q, at_ p.2 ≤ at_ q.1) (adjacent snaps).
Proof.
  induction snaps as [|a [|b snaps] IH]; [constructor..|].
  rewrite fmap_cons, chronological_cons, adjacent_cons2. intros (Ha & Hall & Hc).
  constructor; [by apply IH|]. apply list.Forall_forall. intros q [Hq _]%elem_of_adjacent. simpl.
  rewrite fmap_cons in Hc. apply chronological_cons in Hc as (_ & Hb & _).
  apply elem_of_cons in Hq as [->|Hq]; [lia|]. rewrite list.Forall_forall in Hb.
  specialize (Hb (at_ q.1)). apply Z.lt_le_incl, Hb. by apply list_elem_of_fmap_2.
Qed.

Lemma pair_interval_ok p : pair_ok p → iv_ok (pair_interval p).
Proof. intros (H1 & H2 & H3). unfold iv_ok, in_era, at_ in *. simpl. lia. Qed.

Lemma pair_interval_duration p : pair_ok p → iv_Duration (pair_interval p) = pair_length p.
Proof.
  intros (H1 & H2 & H3). unfold in_era, pair_length, at_ in *. simpl. rewrite time_sub_small; [done|].
  unfold int64, min64, max64 in *. lia.
Qed.

Lemma pairs_ordered snaps :
  chronological (at_ <$> snaps) → ordered (pair_interval <$> adjacent snaps).
Proof.
  intros Hc. split.
  - apply Forall_fmap. eapply Forall_impl; [by apply adjacent_ok|]. apply pair_interval_ok.
  - eapply StronglySorted_fmap; [|by apply adjacent_sorted]. done.
Qed.

Lemma linked_app ps qs : linked (ps ++ qs) → linked ps ∧ linked qs.
Proof.
  induction ps as [|p ps IH]; [done|]. destruct ps as [|p' ps]; simpl in *.
  - destruct qs; naive_solver.
  - intros [? ?]. naive_solver.
Qed.

Lemma linked_snoc_last ps p q : linked ((ps ++ [p]) ++ [q]) → p.2 = q.1.
Proof.
  induction ps as [|p0 ps IH]; simpl; [naive_solver|].
  destruct ps; simpl in *; naive_solver.
Qed.

(** The lengths of linked pairs add up to the distance of the ends. *)
Lemma linked_length ps p0 pn :
  linked ps → head ps = Some p0 → last ps = Some pn →
  sumZ (pair_length <$> ps) = at_ pn.2 - at_ p0.1.
Proof.
  revert p0. induction ps as [|p ps IH]; intros p0 Hl Hh Hn; simplify_eq/=.
  destruct ps as [|q ps]; simplify_eq/=.
  - unfold pair_length. lia.
  - destruct Hl as [Hpq Hl]. specialize (IH q Hl eq_refl Hn). simpl in IH.
    rewrite IH. unfold pair_length. rewrite Hpq. lia.
Qed.

Lemma sumZ_filter_le {A} (P : A → bool) (f : A → Z) l :
  Forall (λ x, 0 ≤ f x) l →
  0 ≤ sumZ (f <$> filter (λ x, P x = true) l) ≤ sumZ (f <$> l).
Proof.
  induction 1 as [|x l Hx Hl IH]; [done|]. rewrite filter_cons.
  destruct (decide (P x = true)); rewrite ?fmap_cons, ?sumZ_cons; lia.
Qed.

(** ** Telescoping *)

Section series.
Context `{!MapRange}.

(** The interval from [e.1] to [e.2] can be measured from its ends. *)
Definition telescoped (e : Snapshot * Snapshot) : Prop :=
  at_ e.1 < at_ e.2 ∧ distinct_rows e.2 ∧
  sameEpoch (meta_of e.1) (meta_of e.2) = true ∧
  same_cells e.1 e.2 ∧ not_regressed e.1 e.2.

Lemma telescoped_delta e :
  telescoped e →
  ∃ iv, Delta e.1 e.2 = (iv, true) ∧ NoDup (row_keys (iv_Rows iv)) ∧
    ∀ k n, default 0 (cell (iv_Rows iv) k n) = dval k n e ∧
      dval k n e = default 0 (ncell e.2 k n) ⊟ default 0 (ncell e.1 k n).
Proof.
  intros (Hlt & Hnd & Hep & Hsame & Hnr).
  assert (Hnd' : NoDup (row_keys (snap_Rows (Normalized e.2)))) by (by rewrite row_keys_Normalized).
  destruct (Delta_eq e.1 e.2 Hnd) as [(_ & _ & _ & Hd)|[Hno _]].
  - eexists. split; [exact Hd|]. split; [by apply row_keys_omap_nodup|].
    intros k n. unfold dval. rewrite Hd. split; [done|]. cbn [iv_Rows fst].
    rewrite cell_diff_rows by done. specialize (Hsame k n).
    unfold ncell in *. fold (cell (snap_Rows (Normalized e.1)) k n).
    change (base_of (snap_Rows (Normalized e.1)) !! k ≫= (.!! n))
      with (cell (snap_Rows (Normalized e.1)) k n).
    destruct (cell (snap_Rows (Normalized e.2)) k n), (cell (snap_Rows (Normalized e.1)) k n);
      try done; exfalso; destruct Hsame as [H1 H2];
      [destruct H2 as [? ?]|destruct H1 as [? ?]]; done.
  - unfold at_ in Hlt. destruct Hno as [?|[?|?]]; [lia|congruence|done].
Qed.

Lemma telescoped_trans a b c :
  telescoped (a, b) → telescoped (b, c) →
  telescoped (a, c) ∧ ∀ k n, dval k n (a, c) = dval k n (a, b) ⊞ dval k n (b, c).
Proof.
  intros Hab Hbc. pose proof Hab as (H1 & H2 & H3 & H4 & H5).
  pose proof Hbc as (G1 & G2 & G3 & G4 & G5). simpl in *.
  assert (Hac : telescoped (a, c)).
  { split_and!; simpl; [lia|done| | |].
    - apply sameEpoch_iff in H3 as [], G3 as []. apply sameEpoch_iff. simpl in *. by split; etrans.
    - intros k n. by rewrite (H4 k n).
    - intros k n v p Hv Hp. destruct (ncell b k n) as [w|] eqn:Hb.
      + specialize (H5 k n w p Hb Hp). specialize (G5 k n v w Hv Hb). lia.
      + exfalso. apply (is_Some_None (A := Z)). rewrite <-Hb. by apply H4. }
  split; [done|]. intros k n.
  destruct (telescoped_delta _ Hac) as (? & _ & _ & Hv1).
  destruct (telescoped_delta _ Hab) as (? & _ & _ & Hv2).
  destruct (telescoped_delta _ Hbc) as (? & _ & _ & Hv3).
  rewrite (proj2 (Hv1 k n)), (proj2 (Hv2 k n)), (proj2 (Hv3 k n)). simpl.
  unfold sub64, add64. rewrite wrap64_add_l, wrap64_add_r. f_equal. lia.
Qed.

(** ** The plan of one group *)

Definition span_matches (sp : Span) (e : Snapshot * Snapshot) : Prop :=
  span_From sp = at_ e.1 ∧ span_To sp = at_ e.2.

Definition measured (ps : list (Snapshot * Snapshot)) : list (Snapshot * Snapshot) :=
  filter (λ p, measurable p = true) ps.

(** The state of [planOf] after the pairs [done]: its spans are the ends [es] of runs
    of measurable pairs, and carry the same totals. *)
Record plan_inv (snaps : list Snapshot) (done : list (Snapshot * Snapshot))
    (st : BucketPlan * Z) (es : list (Snapshot * Snapshot)) : Prop := {
  inv_spans : Forall2 span_matches (Spans st.1) es;
  inv_tel : Forall telescoped es;
  inv_in : Forall (λ e, e.1 ∈ snaps ∧ e.2 ∈ snaps) es;
  inv_sum : ∀ k n, wrap64 (sumZ (dval k n <$> es)) = wrap64 (sumZ (dval k n <$> measured done));
  inv_dur : bp_Duration st.1 = wrap64 (sumZ (pair_length <$> measured done));
  inv_partial : bp_Partial st.1 = existsb (negb ∘ measurable) done;
  inv_open : st.2 = -1 ∨
    ∃ es0 e p, es = es0 ++ [e] ∧ st.2 = Z.of_nat (length es0) ∧ last done = Some p ∧ e.2 = p.2
}.

Lemma measured_snoc ps p :
  measured (ps ++ [p]) = measured ps ++ (if measurable p then [p] else []).
Proof.
  unfold measured. rewrite filter_app, filter_cons, filter_nil.
  destruct (measurable p) eqn:E; [by rewrite decide_True|by rewrite decide_False by congruence].
Qed.

Lemma alter_snoc_last {A} (f : A → A) l x : alter f (length l) (l ++ [x]) = l ++ [f x].
Proof. induction l as [|y l IH]; [done|]. unfold alter in *. simpl. by rewrite IH. Qed.

Lemma plan_inv_step snaps ps p st es :
  plan_inv snaps ps st es →
  linked (ps ++ [p]) → pair_ok p → p.1 ∈ snaps → p.2 ∈ snaps →
  (measurable p = true → telescoped p) →
  ∃ es', plan_inv snaps (ps ++ [p]) (plan_step st (pair_interval p)) es'.
Proof.
  intros [Hsp Htel Hin Hsum Hdur Hpart Hopen] Hlink Hok Hp1 Hp2 Hmeas.
  destruct st as [bp open]. cbn [fst snd] in *. unfold plan_step.
  change (Complete (pair_interval p)) with (measurable p).
  assert (Hpart' : existsb (negb ∘ measurable) (ps ++ [p]) = bp_Partial bp || negb (measurable p)).
  { rewrite existsb_app, Hpart. simpl. by rewrite orb_false_r. }
  destruct (measurable p) eqn:Em; cbn [negb] in *; rewrite ?orb_false_r, ?orb_true_r in Hpart'.
  2: { exists es. split; cbn [fst snd bp_Partial Spans bp_Duration]; try done.
       - intros k n. by rewrite measured_snoc, Em, app_nil_r.
       - by rewrite measured_snoc, Em, app_nil_r.
       - by left. }
  specialize (Hmeas eq_refl). rewrite pair_interval_duration by done.
  assert (Hdur' : bp_Duration bp ⊞ pair_length p = wrap64 (sumZ (pair_length <$> measured (ps ++ [p])))).
  { rewrite measured_snoc, Em, fmap_app, sumZ_app, Hdur. unfold add64. rewrite wrap64_add_l.
    f_equal. cbn. lia. }
  destruct Hopen as [->|(es0 & e & q & -> & -> & Hlast & He)].
  - (* a new span opens *)
    exists (es ++ [p]). split; cbn [fst snd bp_Partial Spans bp_Duration].
    + apply Forall2_app; [done|]. by repeat constructor.
    + apply Forall_app; split; [done|]. by constructor.
    + apply Forall_app; split; [done|]. by constructor.
    + intros k n. rewrite measured_snoc, Em, !fmap_app, !sumZ_app.
      rewrite <-wrap64_add_l, Hsum, wrap64_add_l. done.
    + done.
    + done.
    + right. exists es, p, p. split_and!; [done| |by rewrite last_snoc|done].
      rewrite length_app, (Forall2_length _ _ _ Hsp). simpl. lia.
  - (* the open span is extended *)
    destruct (Z.leb_spec 0 (Z.of_nat (length es0))); [|lia].
    apply last_Some in Hlast as [ps' ->].
    pose proof (linked_snoc_last _ _ _ Hlink) as Hqp.
    apply Forall_app in Htel as [Htel0 Htel]. apply Forall_cons in Htel as [Htel _].
    apply Forall_app in Hin as [Hin0 Hin]. apply Forall_cons in Hin as [[Hin1 Hin2] _].
    destruct (telescoped_trans e.1 e.2 p.2) as [Htel' Hval].
    { by destruct e. }
    { rewrite He, Hqp. by destruct p. }
    exists (es0 ++ [(e.1, p.2)]). rewrite Nat2Z.id.
    apply Forall2_app_inv_r in Hsp as (sps0 & sps1 & Hsp0 & Hsp1 & Hsps).
    apply Forall2_cons_inv_r in Hsp1 as (sp & sps2 & [Hf Ht] & Hnil & ->).
    apply Forall2_nil_inv_r in Hnil as ->.
    split; cbn [fst snd bp_Partial Spans bp_Duration].
    + rewrite Hsps, <-(Forall2_length _ _ _ Hsp0), alter_snoc_last.
      apply Forall2_app; [done|]. by repeat constructor.
    + apply Forall_app; split; [done|]. by constructor.
    + apply Forall_app; split; [done|]. by constructor.
    + intros k n. rewrite measured_snoc, Em, !fmap_app, !sumZ_app.
      specialize (Hsum k n). rewrite fmap_app, sumZ_app in Hsum.
      rewrite <-(wrap64_add_l (sumZ (dval k n <$> measured _))), <-Hsum, wrap64_add_l.
      cbn. rewrite Hval. unfold add64. rewrite He, Hqp. destruct e, p. cbn in *.
      rewrite !Z.add_0_r, wrap64_add_r. f_equal. subst. lia.
    + done.
    + done.
    + right. exists es0, (e.1, p.2), p. by rewrite last_snoc.
Qed.

(** A group of pairs: what every bucket is planned from. *)
Definition group_ok (snaps : list Snapshot) (ps : list (Snapshot * Snapshot)) : Prop :=
  linked ps ∧ Forall pair_ok ps ∧
  Forall (λ p, p.1 ∈ snaps ∧ p.2 ∈ snaps ∧ (measurable p = true → telescoped p)) ps.

Lemma plan_fold snaps ps b0 :
  group_ok snaps ps → bp_Duration b0 = 0 → bp_Partial b0 = false → Spans b0 = [] →
  ∃ es, plan_inv snaps ps (foldl plan_step (b0, -1) (pair_interval <$> ps)) es.
Proof.
  intros (Hlink & Hok & Hall) Hd Hp Hs. induction ps as [|p ps IH] using rev_ind.
  { exists []. split; cbn; rewrite ?Hs, ?Hd, ?Hp; try done; by constructor. }
  pose proof (linked_app _ _ Hlink) as [Hlink' _].
  apply Forall_app in Hok as [Hok Hokp], Hall as [Hall Hallp].
  apply Forall_cons in Hokp as [Hokp _], Hallp as [(H1 & H2 & H3) _].
  destruct (IH Hlink' Hok Hall) as [es Hes].
  rewrite fmap_app, foldl_app. by eapply plan_inv_step.
Qed.

Lemma plan_step_ends st iv :
  bp_From (plan_step st iv).1 = bp_From st.1 ∧ bp_To (plan_step st iv).1 = bp_To st.1.
Proof. destruct st as [p o]. unfold plan_step. by repeat case_match. Qed.

Lemma plan_fold_ends ivs st :
  bp_From (foldl plan_step st ivs).1 = bp_From st.1 ∧ bp_To (foldl plan_step st ivs).1 = bp_To st.1.
Proof.
  revert st. induction ivs as [|iv ivs IH]; intros st; [done|]. cbn [foldl].
  destruct (IH (plan_step st iv)) as [-> ->]. apply plan_step_ends.
Qed.

Lemma planOf_group snaps ps :
  group_ok snaps ps → ps ≠ [] →
  ∃ bp es p0 pn open, planOf (pair_interval <$> ps) = Some bp ∧
    head ps = Some p0 ∧ last ps = Some pn ∧
    bp_From bp = at_ p0.1 ∧ bp_To bp = at_ pn.2 ∧
    plan_inv snaps ps (bp, open) es.
Proof.
  intros Hg Hne. unfold planOf. destruct ps as [|p0 ps]; [done|].
  destruct (last (p0 :: ps)) as [pn|] eqn:Hl; [|by apply last_None in Hl].
  assert (last (pair_interval <$> (p0 :: ps)) = Some (pair_interval pn)) as ->.
  { by rewrite fmap_last, Hl. }
  cbn [head fmap list_fmap].
  set (b0 := mkBucketPlan _ _ 0 false []).
  destruct (plan_fold snaps (p0 :: ps) b0 Hg eq_refl eq_refl eq_refl) as [es Hes].
  destruct (plan_fold_ends (pair_interval <$> (p0 :: ps)) (b0, -1)) as [Hf Ht].
  destruct (foldl plan_step (b0, -1) (pair_interval <$> (p0 :: ps))) as [bp o] eqn:E.
  exists bp, es, p0, pn, o. split_and!; try done. f_equal. exact (f_equal fst E).
Qed.

(** ** Reading the plan *)

Lemma by_time_lookup snaps s :
  chronological (at_ <$> snaps) → s ∈ snaps → by_time snaps !! unix_nano (at_ s) = Some s.
Proof.
  unfold by_time. induction snaps as [|s' snaps IH] using rev_ind; [by intros _ ?%elem_of_nil|].
  rewrite fmap_app. intros [Hera Hs] Hin. apply Forall_app in Hera as [Hera Hera'].
  rewrite foldl_app. cbn [foldl]. apply StronglySorted_app in Hs as (Hcross & Hs & _).
  apply elem_of_app in Hin as [Hin'| ->%list_elem_of_singleton].
  - rewrite lookup_insert_ne; [by apply IH|].
    apply Forall_cons in Hera' as [Ht _]. rewrite list.Forall_forall in Hera.
    pose proof (Hera (at_ s) (list_elem_of_fmap_2 _ _ _ Hin')) as Hs'.
    unfold in_era in *.
    assert (at_ s < at_ s').
    { apply Hcross; [by apply list_elem_of_fmap_2|by left]. }
    unfold at_ in *. rewrite !unix_nano_small; unfold int64, min64, max64 in *; lia.
  - apply lookup_insert_eq.
Qed.

Lemma assemble_fold (snaps : list Snapshot) byTime spans es partial dur acc S :
  (∀ s, s ∈ snaps → byTime !! unix_nano (at_ s) = Some s) →
  Forall2 span_matches spans es → Forall telescoped es → Forall (λ e, e.1 ∈ snaps ∧ e.2 ∈ snaps) es →
  acc_sums acc S →
  ∃ acc', foldl (assemble_step byTime) (partial, dur, acc) spans = (partial, dur, acc') ∧
    acc_sums acc' (λ k n, S k n + sumZ (dval k n <$> es)).
Proof.
  intros Hbt Hsp. revert partial dur acc S.
  induction Hsp as [|sp e spans es [Hf Ht] Hsp IH]; intros partial dur acc S Htel Hin HS.
  { exists acc. split; [done|]. intros k n. cbn. by rewrite Z.add_0_r. }
  apply Forall_cons in Htel as [Htel Htels], Hin as [[Hin1 Hin2] Hins].
  destruct (telescoped_delta e Htel) as (iv & Hd & Hnd & Hval).
  cbn [foldl]. unfold assemble_step at 2, spanDelta.
  rewrite Hf, Ht, !Hbt, Hd by done. cbn [negb].
  destruct (IH partial dur _ _ Htels Hins (acc_sums_rows _ _ (iv_Rows iv) HS)) as (acc' & Heq & Hs').
  exists acc'. split; [done|]. intros k n. rewrite (Hs' k n), fmap_cons, sumZ_cons.
  f_equal. rewrite sumZ_row_val by done. rewrite (proj1 (Hval k n)). lia.
Qed.

(** What [Assemble] makes of a planned group. *)
Lemma assemble_group snaps ps bp es open :
  chronological (at_ <$> snaps) → plan_inv snaps ps (bp, open) es →
  let b := assemble_bucket (by_time snaps) bp in
  b_From b = bp_From bp ∧ b_To b = bp_To bp ∧
  b_Partial b = existsb (negb ∘ measurable) ps ∧
  b_Duration b = wrap64 (sumZ (pair_length <$> measured ps)) ∧
  ∀ k n, default 0 (cell (b_Rows b) k n) = wrap64 (sumZ (dval k n <$> measured ps)).
Proof.
  intros Hc [Hsp Htel Hin Hsum Hdur Hpart _]. cbn [fst snd] in *. unfold assemble_bucket.
  destruct (assemble_fold snaps (by_time snaps) (Spans bp) es (bp_Partial bp) (bp_Duration bp) ∅ _
              (λ s Hs, by_time_lookup snaps s Hc Hs) Hsp Htel Hin acc_sums_empty) as (acc & -> & Hacc).
  split_and!; [done..|]. intros k n. cbn [b_Rows]. rewrite cell_sortedRows.
  etrans; [exact (Hacc k n)|]. cbn beta. by rewrite Z.add_0_l, Hsum.
Qed.

(** ** From groups back to captures *)

Lemma concat_fmap_inv {A B} (f : A → B) (gs : list (list B)) (l : list A) :
  concat gs = fmap (M:=list) f l →
  ∃ ls : list (list A), concat ls = l ∧ gs = fmap (M:=list) f <$> ls.
Proof.
  revert l. induction gs as [|g gs IH]; intros l; cbn [concat].
  - destruct l; [|done]. by exists [].
  - intros Heq. symmetry in Heq. apply fmap_app_inv in Heq as (l1 & l2 & -> & Hgs & ->).
    destruct (IH l2 Hgs) as (ls & <- & ->). by exists (l1 :: ls).
Qed.

Lemma concat_split {A} (ls : list (list A)) l : l ∈ ls → ∃ pre post, concat ls = pre ++ l ++ post.
Proof.
  intros (ls1 & ls2 & ->)%list_elem_of_split. exists (concat ls1), (concat ls2).
  by rewrite concat_app.
Qed.

Definition inside_pairs (snaps : list Snapshot) (b : Bucket) : list (Snapshot * Snapshot) :=
  filter (λ p, inside b p = true) (adjacent snaps).

(** The pairs a bucket was planned from are those between its bounds. *)
Lemma inside_group snaps pre ps post b p0 pn :
  chronological (at_ <$> snaps) → adjacent snaps = pre ++ ps ++ post →
  head ps = Some p0 → last ps = Some pn →
  b_From b = at_ p0.1 → b_To b = at_ pn.2 →
  inside_pairs snaps b = ps.
Proof.
  intros Hc Hsplit Hh Hl Hf Ht. unfold inside_pairs. rewrite Hsplit.
  pose proof (adjacent_sorted _ Hc) as Hs. pose proof (adjacent_ok _ Hc) as Hok.
  rewrite Hsplit in Hs, Hok. apply StronglySorted_app in Hs as (Hs1 & _ & Hs).
  apply StronglySorted_app in Hs as (Hs2 & Hs & _).
  rewrite list.Forall_forall in Hok.
  assert (Hin0 : p0 ∈ ps) by (destruct ps; simplify_eq/=; by left).
  assert (Hinn : pn ∈ ps) by (by apply last_Some_elem_of).
  assert (Hpos : ∀ p, p ∈ pre ++ ps ++ post → at_ p.1 < at_ p.2) by (intros p Hp; apply (Hok p Hp)).
  rewrite !filter_app, (filter_none _ pre), (filter_all _ ps), (filter_none _ post).
  - by rewrite app_nil_r.
  - apply list.Forall_forall. intros p Hp Hin. unfold inside in Hin.
    apply andb_true_iff in Hin as [_ Hin%Z.leb_le].
    specialize (Hs2 pn p Hinn Hp). specialize (Hpos p ltac:(set_solver)). lia.
  - apply list.Forall_forall. intros p Hp. unfold inside. rewrite andb_true_iff, !Z.leb_le, Hf, Ht.
    split.
    + destruct ps as [|q ps]; simplify_eq/=. apply elem_of_cons in Hp as [->|Hp]; [lia|].
      apply StronglySorted_cons in Hs as [Hall _]. rewrite list.Forall_forall in Hall.
      specialize (Hall p Hp). simpl in Hall. specialize (Hpos p0 ltac:(set_solver)). lia.
    + apply last_Some in Hl as [ps' ->]. apply elem_of_app in Hp as [Hp| ->%list_elem_of_singleton]; [|lia].
      apply StronglySorted_app in Hs as (Hcr & _ & _). specialize (Hcr p pn Hp ltac:(by left)).
      simpl in Hcr. specialize (Hpos pn ltac:(set_solver)). lia.
  - apply list.Forall_forall. intros p Hp Hin. unfold inside in Hin.
    apply andb_true_iff in Hin as [Hin%Z.leb_le _].
    specialize (Hs1 p p0 Hp ltac:(set_solver)). specialize (Hpos p ltac:(set_solver)). lia.
Qed.

Lemma linked_infix pre ps post : linked (pre ++ ps ++ post) → linked ps.
Proof. intros [_ Hl]%linked_app. by apply linked_app in Hl as [? _]. Qed.

Lemma regular_group snaps pre ps post :
  regular snaps → adjacent snaps = pre ++ ps ++ post → group_ok snaps ps.
Proof.
  intros [Ht Hr Hp] Hsplit.
  pose proof (adjacent_linked snaps) as Hlink. rewrite Hsplit in Hlink.
  assert (Hsub : ∀ p, p ∈ ps → p ∈ adjacent snaps).
  { intros p Hin. rewrite Hsplit. set_solver. }
  pose proof (adjacent_ok _ Ht) as Hok. rewrite list.Forall_forall in Hok, Hp. rewrite list.Forall_forall in Hr.
  split_and!; [by eapply linked_infix| |]; apply list.Forall_forall; intros p Hin%Hsub.
  - by apply Hok.
  - destruct (elem_of_adjacent _ _ Hin) as [H1 H2]. split_and!; [done..|].
    intros Hm. destruct (Hp p Hin Hm) as [Hsame Hnr].
    unfold measurable in Hm. cbn [Complete meta_interval] in Hm.
    apply andb_true_iff in Hm as [_ Hep]. destruct (Hok p Hin) as (_ & _ & Hlt).
    split_and!; auto.
Qed.

Lemma measured_length snaps ps :
  group_ok snaps ps →
  wrap64 (sumZ (pair_length <$> measured ps)) = sumZ (pair_length <$> measured ps).
Proof.
  intros (Hlink & Hok & _). destruct ps as [|p0 ps]; [done|].
  destruct (last (p0 :: ps)) as [pn|] eqn:Hl; [|by apply last_None in Hl].
  assert (Hpos : Forall (λ p, 0 ≤ pair_length p) (p0 :: ps)).
  { eapply Forall_impl; [exact Hok|]. intros p (_ & _ & ?). unfold pair_length. lia. }
  pose proof (sumZ_filter_le measurable pair_length _ Hpos) as Hle.
  rewrite (linked_length (p0 :: ps) p0 pn Hlink eq_refl Hl) in Hle.
  rewrite list.Forall_forall in Hok. pose proof (Hok pn (last_Some_elem_of _ _ Hl)) as (_ & Hn & _).
  pose proof (Hok p0 ltac:(by left)) as (H0 & _ & _).
  apply wrap64_id. fold (measured (p0 :: ps)) in Hle. unfold in_era, int64, min64, max64 in *. lia.
Qed.
End series.

Section properties.
Context `{!MapRange}.

(** C2: for a regular series, every bucket [Assemble] fills from the plan — reading
    only the captures at the ends of each measurable run — equals the bucket measured
    interval by interval: each counter is the 64-bit sum of [Delta] over every
    measurable adjacent pair of captures inside the bucket, the duration is the exact
    time of those pairs, and the bucket is partial iff a pair inside is unmeasurable. *)
Theorem Assemble_sums_adjacent snaps points p :
  regular snaps →
  PlanBuckets (meta_of <$> snaps) points = Some p →
  Forall (λ b,
    b_Partial b = existsb (negb ∘ measurable) (inside_pairs snaps b) ∧
    b_Duration b = sumZ (pair_length <$> measured (inside_pairs snaps b)) ∧
    ∀ k n, default 0 (cell (b_Rows b) k n) =
      wrap64 (sumZ (dval k n <$> measured (inside_pairs snaps b))))
    (Assemble p snaps).
Proof.
  intros Hreg Hplan. pose proof (regular_times _ Hreg) as Hc.
  unfold PlanBuckets in Hplan. rewrite metaIntervals_pairs in Hplan.
  destruct (groupIntervals_correct _ points (pairs_ordered _ Hc)) as (gs & Hgs & Hcat & Hne & _).
  rewrite Hgs in Hplan. cbn in Hplan.
  destruct (mapM planOf gs) as [bps|] eqn:Hm; [|done]. injection Hplan as <-.
  apply mapM_Some in Hm. apply concat_fmap_inv in Hcat as (pgs & Hcat & ->).
  apply list.Forall_forall. intros b (bp & -> & Hbp)%list_elem_of_fmap. cbn [Buckets] in Hbp.
  apply list_elem_of_lookup in Hbp as [i Hi].
  destruct (Forall2_lookup_r _ _ _ _ _ Hm Hi) as (g & Hg & Hof).
  apply list_elem_of_lookup_2 in Hg. rewrite list.Forall_forall in Hne. specialize (Hne g Hg).
  apply list_elem_of_fmap in Hg as (ps & -> & Hps).
  destruct (concat_split _ _ Hps) as (pre & post & Hsplit). rewrite Hcat in Hsplit.
  pose proof (regular_group _ _ _ _ Hreg Hsplit) as Hgroup.
  destruct (planOf_group snaps ps Hgroup) as (bp' & es & p0 & pn & o & Hof' & Hh & Hl & Hf & Ht & Hinv).
  { by intros ->. }
  rewrite Hof' in Hof. injection Hof as ->.
  destruct (assemble_group snaps ps bp es o Hc Hinv) as (Hbf & Hbt & Hpart & Hdur & Hval).
  rewrite (inside_group snaps pre ps post _ p0 pn Hc Hsplit Hh Hl) by congruence.
  split_and!; [done|by rewrite Hdur, (measured_length snaps)|done].
Qed.
End properties.
