(* ===== verification/StatIOPlan.v ===== *)
(** * [internal/statio]: the plan of a history request

    What [PlanBuckets] and [At] promise from the headers alone, for any chronological
    header list: no panic, a bounded number of ordered buckets, no measurable time lost,
    and a strictly chronological list of captures to load. *)

From S2P Require Import Prelude StatIO StatIOSeries.
From stdpp Require Import options.

Definition all_spans (bps : list BucketPlan) : list Span := concat (Spans <$> bps).

Definition iv_exact (iv : Interval) : Prop := iv_Duration iv = iv_To iv - iv_From iv.

Definition complete_time (ivs : list Interval) : Z :=
  sumZ (iv_Duration <$> filter (λ iv, Complete iv = true) ivs).

(** ** Intervals of chronological headers *)

Lemma metaIntervals_cons2 a b metas :
  metaIntervals (a :: b :: metas) = meta_interval a b :: metaIntervals (b :: metas).
Proof. done. Qed.

Lemma metaIntervals_from metas iv t :
  Forall (Z.le t) (CapturedAt <$> metas) → iv ∈ metaIntervals metas → t ≤ iv_From iv.
Proof.
  induction metas as [|a [|b metas] IH]; [by intros _ ?%elem_of_nil..|].
  rewrite metaIntervals_cons2. intros [Ha Hall]%Forall_cons [->|Hin]%elem_of_cons; [done|].
  by apply IH.
Qed.

Lemma metaIntervals_ends metas iv :
  iv ∈ metaIntervals metas →
  iv_From iv ∈ CapturedAt <$> metas ∧ iv_To iv ∈ CapturedAt <$> metas.
Proof.
  induction metas as [|a [|b metas] IH]; [by intros ?%elem_of_nil..|].
  rewrite metaIntervals_cons2, !fmap_cons. intros [->|Hin]%elem_of_cons; [cbn; set_solver|].
  rewrite fmap_cons in IH. set_solver.
Qed.

Lemma metaIntervals_ordered metas :
  chronological (CapturedAt <$> metas) →
  ordered (metaIntervals metas) ∧ Forall iv_exact (metaIntervals metas).
Proof.
  induction metas as [|a [|b metas] IH]; [split; [split|]; constructor..|].
  rewrite metaIntervals_cons2, fmap_cons, chronological_cons. intros (Ha & Hlt & Hc).
  destruct (IH Hc) as [[Hok Hs] Hex].
  rewrite fmap_cons in Hlt, Hc. apply Forall_cons in Hlt as [Hab _].
  apply chronological_cons in Hc as (Hb & Hb' & _). unfold in_era in Ha, Hb.
  split; [split|]; constructor; try done.
  - unfold iv_ok. cbn. lia.
  - apply list.Forall_forall. intros iv Hiv. eapply metaIntervals_from; [|exact Hiv].
    rewrite fmap_cons. constructor; [done|]. eapply Forall_impl; [exact Hb'|]. cbn. lia.
  - unfold iv_exact. cbn. apply time_sub_small. unfold int64, min64, max64 in *. lia.
Qed.

(** ** Spans of one group *)

Definition span_within (ivs : list Interval) (s : Span) : Prop :=
  span_From s < span_To s ∧
  (∃ iv, iv ∈ ivs ∧ iv_From iv = span_From s) ∧ (∃ iv, iv ∈ ivs ∧ iv_To iv = span_To s).

Record spans_inv (done : list Interval) (st : BucketPlan * Z) : Prop := {
  si_within : Forall (span_within done) (Spans st.1);
  si_sorted : StronglySorted (λ a b, span_To a ≤ span_From b) (Spans st.1);
  si_open : st.2 = -1 ∨ ∃ ss s, Spans st.1 = ss ++ [s] ∧ st.2 = Z.of_nat (length ss)
}.

Lemma span_within_app done iv s : span_within done s → span_within (done ++ [iv]) s.
Proof.
  intros (? & (x & ? & ?) & (y & ? & ?)).
  split_and!; [done|exists x|exists y]; (split; [|done]); apply elem_of_app; by left.
Qed.

Lemma spans_inv_step done st iv :
  spans_inv done st → ordered (done ++ [iv]) → spans_inv (done ++ [iv]) (plan_step st iv).
Proof.
  intros [Hw Hs Ho] [Hok Hord]. apply Forall_app in Hok as [_ Hok]. apply Forall_cons in Hok as [Hiv _].
  apply StronglySorted_app in Hord as (Hcross & _ & _).
  assert (Hw' : Forall (span_within (done ++ [iv])) (Spans st.1)).
  { eapply Forall_impl; [exact Hw|]. intros s. apply span_within_app. }
  assert (Hle : ∀ s, s ∈ Spans st.1 → span_To s ≤ iv_From iv).
  { intros s Hin. rewrite list.Forall_forall in Hw. destruct (Hw s Hin) as (_ & _ & x & Hx & <-).
    apply Hcross; [done|by left]. }
  destruct st as [p open]. unfold plan_step. cbn [fst snd] in *.
  destruct (Complete iv); cbn [negb].
  2: { split; cbn; [done..|by left]. }
  unfold iv_ok in Hiv. destruct Ho as [->|(ss & s & Hss & ->)].
  - split; cbn.
    + apply Forall_app. split; [done|]. constructor; [|done]. split_and!; cbn; [lia| |].
      all: exists iv; split; [apply elem_of_app; right; by left|done].
    + apply StronglySorted_app. split_and!; [|done|by repeat constructor].
      intros x y Hx [->|[]%elem_of_nil]%elem_of_cons. cbn. by apply Hle.
    + right. exists (Spans p), (mkSpan (iv_From iv) (iv_To iv)). split; [done|].
      rewrite length_app. cbn. lia.
  - destruct (Z.leb_spec 0 (Z.of_nat (length ss))); [|lia]. rewrite Nat2Z.id, Hss, alter_snoc_last.
    rewrite Hss in Hw', Hs, Hle. apply Forall_app in Hw' as [Hw1 Hw2].
    apply Forall_cons in Hw2 as [(Hlt & Hfrom & _) _]. specialize (Hle s ltac:(set_solver)).
    apply StronglySorted_app in Hs as (Hc & Hs & _). split; cbn.
    + apply Forall_app. split; [done|]. constructor; [|done]. split_and!; cbn; [lia|done|].
      exists iv. split; [apply elem_of_app; right; by left|done].
    + apply StronglySorted_app. split_and!; [|done|by repeat constructor].
      intros x y Hx [->|[]%elem_of_nil]%elem_of_cons. cbn. apply (Hc x s); [done|by left].
    + right. by exists ss, (mkSpan (span_From s) (iv_To iv)).
Qed.

Lemma spans_inv_fold ivs p :
  Spans p = [] → ordered ivs → spans_inv ivs (foldl plan_step (p, -1) ivs).
Proof.
  intros Hp. induction ivs as [|iv ivs IH] using rev_ind; intros Hord.
  { split; cbn; rewrite ?Hp; [constructor..|by left]. }
  rewrite foldl_app. apply spans_inv_step; [|done]. apply IH.
  destruct Hord as [Hok Hs]. apply Forall_app in Hok as [Hok _].
  apply StronglySorted_app in Hs as (_ & Hs & _). by split.
Qed.

Lemma plan_step_duration st iv :
  bp_Duration (plan_step st iv).1 =
    if Complete iv then bp_Duration st.1 ⊞ iv_Duration iv else bp_Duration st.1.
Proof. destruct st as [p o]. unfold plan_step. destruct (Complete iv); cbn; [by destruct (0 <=? o)|done]. Qed.

Lemma plan_fold_duration ivs st :
  wrap64 (bp_Duration st.1) = bp_Duration st.1 →
  bp_Duration (foldl plan_step st ivs).1 = wrap64 (bp_Duration st.1 + complete_time ivs).
Proof.
  unfold complete_time. revert st. induction ivs as [|iv ivs IH]; intros st Hw.
  { cbn in *. by rewrite Z.add_0_r. }
  cbn [foldl]. rewrite filter_cons. rewrite IH; rewrite plan_step_duration.
  - destruct (Complete iv); [|by rewrite decide_False].
    rewrite decide_True, fmap_cons, sumZ_cons by done.
    unfold add64. rewrite wrap64_add_l. f_equal. lia.
  - destruct (Complete iv); [|done]. apply wrap64_id, wrap64_range.
Qed.

Lemma complete_time_bounds ivs first final :
  ordered ivs → Forall iv_exact ivs → head ivs = Some first → last ivs = Some final →
  0 ≤ complete_time ivs ≤ iv_To final - iv_From first.
Proof.
  revert first. induction ivs as [|iv ivs IH]; intros first [Hok Hs] Hex Hh Hl; simplify_eq/=.
  apply Forall_cons in Hok as [Hiv Hok], Hex as [He Hex]. apply StronglySorted_cons in Hs as [Hall Hs].
  unfold complete_time. rewrite filter_cons. unfold iv_ok, iv_exact in Hiv, He.
  assert (Hrest : 0 ≤ complete_time ivs ≤ iv_To final - iv_To first ∧ iv_To first ≤ iv_To final).
  { destruct ivs as [|iv' ivs]; simplify_eq/=; [cbn; lia|].
    specialize (IH iv' (conj Hok Hs) Hex eq_refl Hl). apply Forall_cons in Hall as [? _]. lia. }
  unfold complete_time in Hrest. case_decide; rewrite ?fmap_cons, ?sumZ_cons; lia.
Qed.

(** ** The plan of one ordered group *)

Lemma planOf_ordered g :
  g ≠ [] → ordered g → Forall iv_exact g →
  ∃ bp first final, planOf g = Some bp ∧ head g = Some first ∧ last g = Some final ∧
    bp_From bp = iv_From first ∧ bp_To bp = iv_To final ∧
    bp_Duration bp = complete_time g ∧
    Forall (span_within g) (Spans bp) ∧
    StronglySorted (λ a b, span_To a ≤ span_From b) (Spans bp).
Proof.
  intros Hne Hord Hex. unfold planOf. destruct (head g) as [first|] eqn:Hh; [|by destruct g].
  destruct (last g) as [final|] eqn:Hl; [|by apply last_None in Hl].
  set (b0 := mkBucketPlan _ _ 0 false []).
  destruct (spans_inv_fold g b0 eq_refl Hord) as [Hw Hs _].
  destruct (plan_fold_ends g (b0, -1)) as [Hf Ht].
  pose proof (plan_fold_duration g (b0, -1) eq_refl) as Hd.
  pose proof (complete_time_bounds g first final Hord Hex Hh Hl) as Hb.
  eexists _, first, final. split; [reflexivity|]. split_and!; try done.
  rewrite Hd. cbn [fst bp_Duration b0]. rewrite Z.add_0_l. apply wrap64_id.
  destruct Hord as [Hok _]. rewrite list.Forall_forall in Hok.
  pose proof (Hok final (last_Some_elem_of _ _ Hl)). pose proof (Hok first ltac:(destruct g; simplify_eq/=; by left)).
  unfold iv_ok, int64, min64, max64 in *. lia.
Qed.

(** ** The captures to load *)

Definition ends_of (ss : list Span) : list time := concat (span_ends <$> ss).

Lemma At_flat p : At p = (foldl at_step ([], ∅) (ends_of (all_spans (Buckets p)))).1.
Proof.
  unfold At. f_equal. generalize (([] : list time), (∅ : gset Z)) as st.
  assert (Hin : ∀ ss st, foldl (λ st s, foldl at_step st (span_ends s)) st ss =
                         foldl at_step st (ends_of ss)).
  { induction ss as [|s ss IH]; intros st; [done|]. unfold ends_of. rewrite fmap_cons.
    cbn [concat foldl]. rewrite foldl_app. apply IH. }
  induction (Buckets p) as [|b bs IH]; intros st; [done|]. unfold all_spans, ends_of in *.
  rewrite fmap_cons. cbn [concat foldl]. rewrite fmap_app, concat_app, foldl_app, Hin. apply IH.
Qed.

Lemma at_fold l out seen :
  Forall in_era (out ++ l) → StronglySorted Z.le l → StronglySorted Z.lt out →
  (∀ x y, x ∈ out → y ∈ l → x ≤ y) → (∀ n, n ∈ seen ↔ n ∈ out) →
  let res := (foldl at_step (out, seen) l).1 in
  StronglySorted Z.lt res ∧ ∀ t, t ∈ res ↔ t ∈ out ∨ t ∈ l.
Proof.
  revert out seen. induction l as [|x l IH]; intros out seen Hera Hs Hout Hle Hseen.
  { split; [done|]. intros t. cbn. split; [by left|intros [?|?%elem_of_nil]; done]. }
  apply StronglySorted_cons in Hs as [Hx Hs]. cbn [foldl].
  change (at_step (out, seen) x) with
    (if decide (unix_nano x ∈ seen) then (out, seen) else (out ++ [x], {[unix_nano x]} ∪ seen)).
  pose proof Hera as Hera0. rewrite list.Forall_forall in Hera0, Hx.
  assert (Hxe : in_era x) by (apply Hera0; set_solver).
  rewrite (unix_nano_small x) by (unfold in_era, int64, min64, max64 in *; lia).
  destruct (decide (x ∈ seen)) as [Hin|Hnin].
  - assert (Hxo : x ∈ out) by (by apply Hseen).
    destruct (IH out seen) as [Hr He]; try done.
    { apply list.Forall_forall. intros y Hy. apply Hera0. set_solver. }
    { intros y z ??. apply Hle; [done|by right]. }
    split; [done|]. intros t. etrans; [apply He|]. rewrite elem_of_cons. naive_solver.
  - destruct (IH (out ++ [x]) ({[x]} ∪ seen)) as [Hr He].
    + rewrite <-app_assoc. done.
    + done.
    + apply StronglySorted_app. split_and!; [|done|by repeat constructor].
      intros y z Hy [->|[]%elem_of_nil]%elem_of_cons. specialize (Hle y x Hy ltac:(by left)).
      destruct (decide (y = x)) as [->|]; [|lia]. exfalso. by apply Hnin, Hseen.
    + intros y z [Hy| ->%list_elem_of_singleton]%elem_of_app Hz; [apply Hle; [done|by right]|by apply Hx].
    + intros n. rewrite elem_of_union, elem_of_singleton, Hseen, elem_of_app, list_elem_of_singleton. tauto.
    + split; [done|]. intros t. etrans; [apply He|].
      rewrite elem_of_app, list_elem_of_singleton, elem_of_cons. tauto.
Qed.

Lemma ends_sorted ss :
  Forall (λ s, span_From s < span_To s) ss → StronglySorted (λ a b, span_To a ≤ span_From b) ss →
  StronglySorted Z.le (ends_of ss).
Proof.
  induction ss as [|s ss IH]; intros Hlt Hs; [constructor|].
  apply Forall_cons in Hlt as [Hs0 Hlt]. apply StronglySorted_cons in Hs as [Hall Hs].
  unfold ends_of. rewrite fmap_cons. cbn [concat span_ends app].
  assert (Hge : Forall (Z.le (span_To s)) (ends_of ss)).
  { apply list.Forall_forall. intros t Ht. unfold ends_of in Ht.
    apply list_elem_of_In, in_concat in Ht as (l & Hl%list_elem_of_In & Ht%list_elem_of_In).
    apply list_elem_of_fmap in Hl as (s' & -> & Hs'). rewrite list.Forall_forall in Hall, Hlt.
    specialize (Hall s' Hs'). specialize (Hlt s' Hs'). unfold span_ends in Ht. set_solver by lia. }
  constructor; [constructor; [by apply IH|done]|]. constructor; [lia|].
  eapply Forall_impl; [exact Hge|]. cbn. lia.
Qed.

(** ** The whole plan *)

Lemma ordered_app ivs1 ivs2 :
  ordered (ivs1 ++ ivs2) →
  ordered ivs1 ∧ ordered ivs2 ∧ ∀ a b, a ∈ ivs1 → b ∈ ivs2 → iv_To a ≤ iv_From b.
Proof.
  intros [Hok Hs]. apply Forall_app in Hok as [? ?].
  apply StronglySorted_app in Hs as (? & ? & ?). by split_and!.
Qed.

Lemma complete_time_app ivs1 ivs2 :
  complete_time (ivs1 ++ ivs2) = complete_time ivs1 + complete_time ivs2.
Proof. unfold complete_time. by rewrite filter_app, fmap_app, sumZ_app. Qed.

(** Planning the groups of ordered intervals: total, ordered, lossless. *)
Lemma plan_groups gs :
  Forall (λ g, g ≠ []) gs → ordered (concat gs) → Forall iv_exact (concat gs) →
  ∃ bps, mapM planOf gs = Some bps ∧ length bps = length gs ∧
    Forall (λ bp, bp_From bp < bp_To bp ∧
      (∃ iv, iv ∈ concat gs ∧ iv_From iv = bp_From bp)) bps ∧
    StronglySorted (λ a b, bp_To a ≤ bp_From b) bps ∧
    sumZ (bp_Duration <$> bps) = complete_time (concat gs) ∧
    Forall (span_within (concat gs)) (all_spans bps) ∧
    StronglySorted (λ a b, span_To a ≤ span_From b) (all_spans bps).
Proof.
  induction gs as [|g gs IH]; intros Hne Hord Hex.
  { exists []. unfold all_spans. cbn. split_and!; constructor || done. }
  apply Forall_cons in Hne as [Hg Hne]. cbn [concat] in Hord, Hex.
  apply Forall_app in Hex as [Hexg Hex]. apply ordered_app in Hord as (Hog & Ho & Hcross).
  destruct (planOf_ordered g Hg Hog Hexg) as
    (bp & first & final & Hp & Hh & Hl & Hf & Ht & Hd & Hw & Hs).
  destruct (IH Hne Ho Hex) as (bps & Hm & Hlen & Hall & Hsort & Hsum & Hws & Hss).
  assert (Hfirst : first ∈ g) by (destruct g; simplify_eq/=; by left).
  pose proof (last_Some_elem_of _ _ Hl) as Hfinal.
  assert (Hm' : mapM planOf (g :: gs) = Some (bp :: bps)).
  { cbn. rewrite Hp. cbn. by rewrite Hm. }
  exists (bp :: bps). change (concat (g :: gs)) with (g ++ concat gs).
  rewrite list.Forall_forall in Hw, Hws.
  split_and!; [done|cbn; by rewrite Hlen|..].
  - constructor.
    + split; [|exists first; set_solver].
      pose proof (complete_time_bounds g first final Hog Hexg Hh Hl) as Hb.
      pose proof (ordered_span g first final Hog Hh Hl). destruct g; [done|]. cbn [length] in *. lia.
    + eapply Forall_impl; [exact Hall|]. intros b [? (iv & ? & ?)]. split; [done|].
      exists iv. set_solver.
  - constructor; [done|]. eapply Forall_impl; [exact Hall|]. intros b [_ (iv & Hiv & Hfrom)].
    cbn beta. rewrite Ht, <-Hfrom. by apply Hcross.
  - rewrite complete_time_app. unfold sumZ in *. cbn. lia.
  - unfold all_spans in *. rewrite fmap_cons. cbn [concat]. apply list.Forall_forall.
    intros s [Hin|Hin]%elem_of_app;
      [destruct (Hw s Hin) as (? & (x & ? & ?) & (y & ? & ?))|
       destruct (Hws s Hin) as (? & (x & ? & ?) & (y & ? & ?))];
      (split_and!; [done|exists x; set_solver|exists y; set_solver]).
  - unfold all_spans in *. rewrite fmap_cons. cbn [concat]. apply StronglySorted_app.
    split_and!; [|done..]. intros s1 s2 H1 H2.
    destruct (Hw s1 H1) as (_ & _ & y & Hy & <-). destruct (Hws s2 H2) as (_ & (x & Hx & <-) & _).
    by apply Hcross.
Qed.

Lemma PlanBuckets_groups metas points :
  chronological (CapturedAt <$> metas) →
  ∃ gs bps, PlanBuckets metas points = Some (mkPlan bps) ∧
    mapM planOf gs = Some bps ∧ concat gs = metaIntervals metas ∧ Forall (λ g, g ≠ []) gs ∧
    Z.of_nat (length gs) ≤ Z.max 1 points ∧ ordered (concat gs) ∧ Forall iv_exact (concat gs).
Proof.
  intros Hc. destruct (metaIntervals_ordered _ Hc) as [Hord Hex].
  destruct (groupIntervals_correct _ points Hord) as (gs & Hg & Hcat & Hne & Hlen).
  rewrite <-Hcat in Hord, Hex.
  destruct (plan_groups gs Hne Hord Hex) as (bps & Hm & _).
  exists gs, bps. unfold PlanBuckets. rewrite Hg. cbn. rewrite Hm. by split_and!.
Qed.

(** From any chronological header list [PlanBuckets] cannot panic (no division by a
    zero group width, no empty group), returns at most [max 1 points] buckets in order
    and without overlap, and the durations of its buckets add up to exactly the
    measurable time of the headers. *)
Theorem PlanBuckets_lossless metas points :
  chronological (CapturedAt <$> metas) →
  ∃ p, PlanBuckets metas points = Some p ∧
    Z.of_nat (length (Buckets p)) ≤ Z.max 1 points ∧
    Forall (λ bp, bp_From bp < bp_To bp) (Buckets p) ∧
    StronglySorted (λ a b, bp_To a ≤ bp_From b) (Buckets p) ∧
    sumZ (bp_Duration <$> Buckets p) = complete_time (metaIntervals metas).
Proof.
  intros Hc. destruct (PlanBuckets_groups metas points Hc) as
    (gs & bps & -> & Hm & Hcat & Hne & Hlen & Hord & Hex).
  destruct (plan_groups gs Hne Hord Hex) as (bps' & Hm' & Hl & Hall & Hs & Hsum & _).
  simplify_eq. exists (mkPlan bps). cbn [Buckets]. split_and!; [done|lia| |done|congruence].
  eapply Forall_impl; [exact Hall|]. by intros ? [? _].
Qed.

Lemma all_spans_elem bps s : s ∈ all_spans bps ↔ ∃ b, b ∈ bps ∧ s ∈ Spans b.
Proof.
  unfold all_spans. rewrite list_elem_of_In, in_concat. split.
  - intros (l & Hl%list_elem_of_In & Hin%list_elem_of_In).
    apply list_elem_of_fmap in Hl as (b & -> & Hb). by exists b.
  - intros (b & Hb & Hin). exists (Spans b).
    by split; apply list_elem_of_In; [apply list_elem_of_fmap_2|].
Qed.

Lemma ends_of_elem ss t : t ∈ ends_of ss ↔ ∃ s, s ∈ ss ∧ (t = span_From s ∨ t = span_To s).
Proof.
  unfold ends_of. rewrite list_elem_of_In, in_concat. split.
  - intros (l & Hl%list_elem_of_In & Ht%list_elem_of_In).
    apply list_elem_of_fmap in Hl as (s & -> & Hin). exists s. unfold span_ends in Ht. set_solver.
  - intros (s & Hin & Ht). exists (span_ends s). split; apply list_elem_of_In.
    + by apply list_elem_of_fmap_2.
    + unfold span_ends. set_solver.
Qed.

Lemma span_ends_captured metas s t :
  span_within (metaIntervals metas) s → t = span_From s ∨ t = span_To s → t ∈ CapturedAt <$> metas.
Proof.
  intros (_ & (x & Hx & Hxf) & (y & Hy & Hyt)) [->| ->]; [rewrite <-Hxf|rewrite <-Hyt];
    by apply metaIntervals_ends.
Qed.

(** [At] lists the captures a plan needs strictly chronologically, so without
    repeats, and exactly the ends of the plan's spans: all of them captures of the
    headers. The spans themselves are in order and never overlap, over the whole plan. *)
Theorem At_chronological metas points p :
  chronological (CapturedAt <$> metas) → PlanBuckets metas points = Some p →
  StronglySorted Z.lt (At p) ∧
  (∀ t, t ∈ At p ↔ ∃ s, s ∈ all_spans (Buckets p) ∧ (t = span_From s ∨ t = span_To s)) ∧
  Forall (λ t, t ∈ CapturedAt <$> metas) (At p) ∧
  StronglySorted (λ a b, span_To a ≤ span_From b) (all_spans (Buckets p)).
Proof.
  intros Hc Hplan. destruct (PlanBuckets_groups metas points Hc) as
    (gs & bps & Hplan' & Hm & Hcat & Hne & Hlen & Hord & Hex). simplify_eq.
  destruct (plan_groups gs Hne Hord Hex) as (bps' & Hm' & _ & _ & _ & _ & Hw & Hs). simplify_eq.
  rewrite Hcat, list.Forall_forall in Hw.
  assert (Hcap : ∀ t, t ∈ ends_of (all_spans bps) → t ∈ CapturedAt <$> metas).
  { intros t (s & Hin & Ht)%ends_of_elem. by apply (span_ends_captured metas s); [apply Hw|]. }
  destruct Hc as [Hera _]. rewrite list.Forall_forall in Hera.
  rewrite At_flat. cbn [Buckets].
  destruct (at_fold (ends_of (all_spans bps)) [] ∅) as [Hr He].
  - apply list.Forall_forall. intros t Ht. by apply Hera, Hcap.
  - apply ends_sorted; [|done]. apply list.Forall_forall. intros s Hin. by destruct (Hw s Hin).
  - constructor.
  - by intros x y ?%elem_of_nil.
  - set_solver.
  - split_and!; [done| | |done].
    + intros t. rewrite <-ends_of_elem. etrans; [apply He|]. set_solver.
    + apply list.Forall_forall. intros t Ht. apply Hcap. apply He in Ht. set_solver.
Qed.

(** ** Witnesses *)

Definition sample_series : list Snapshot :=
  [sample_snapshot 10 3; sample_snapshot 20 5; sample_snapshot 30 9; sample_snapshot 40 9].

Lemma sample_times : chronological (CapturedAt <$> (meta_of <$> sample_series)).
Proof.
  split; [by repeat (constructor; [split; vm_compute; congruence|])|].
  repeat (constructor; [|repeat constructor]). constructor.
Qed.

Lemma sample_ncell `{!MapRange} t r k n :
  ncell (sample_snapshot t r) k n =
    if decide (k = sample_key) then norm_values 8192 {["reads" := r]} !! n else None.
Proof.
  unfold ncell, cell, Normalized. cbn. unfold base_of. cbn.
  case_decide as Hk.
  - rewrite Hk. by rewrite lookup_insert_eq.
  - rewrite lookup_insert_ne by congruence. by rewrite lookup_empty.
Qed.

Lemma sample_pair `{!MapRange} t r t' r' :
  0 ≤ r ≤ r' → r' ≤ 1000 →
  same_cells (sample_snapshot t r) (sample_snapshot t' r') ∧
  not_regressed (sample_snapshot t r) (sample_snapshot t' r').
Proof.
  intros Hr Hmax. split.
  - intros k n. rewrite !sample_ncell. case_decide; [|done]. rewrite !norm_values_lookup.
    destruct (decide (n = "reads")) as [->|]; [by rewrite !lookup_singleton_eq|].
    rewrite !lookup_singleton_ne by done. destruct (byte_source n) as [src|]; [|done]. cbn.
    destruct (decide (src = "reads")) as [->|]; [by rewrite !lookup_singleton_eq|].
    by rewrite !lookup_singleton_ne by done.
  - intros k n v p. rewrite !sample_ncell. case_decide; [|done]. rewrite !norm_values_lookup.
    destruct (decide (n = "reads")) as [->|]; [rewrite !lookup_singleton_eq; naive_solver lia|].
    rewrite !lookup_singleton_ne by done. destruct (byte_source n) as [src|]; [|done]. cbn.
    destruct (decide (src = "reads")) as [->|]; [|by rewrite !lookup_singleton_ne by done].
    rewrite !lookup_singleton_eq. cbn. intros [= <-] [= <-]. unfold mul64.
    rewrite !wrap64_id by (unfold int64, min64, max64; lia). lia.
Qed.

Lemma sample_regular `{!MapRange} : regular sample_series.
Proof.
  split.
  - pose proof sample_times as H'. by rewrite <-list_fmap_compose in H'.
  - by repeat (constructor; [by apply (bool_decide_unpack _); vm_compute|]).
  - repeat (constructor; [intros _; apply sample_pair; lia|]). constructor.
Qed.

Lemma Assemble_sums_adjacent_witness :
  ∃ p, PlanBuckets (meta_of <$> sample_series) 2 = Some p ∧
    length (@Assemble canonical_range p sample_series) = 2%nat ∧
    Forall (λ b, b_Partial b = existsb (negb ∘ measurable) (inside_pairs sample_series b))
      (@Assemble canonical_range p sample_series).
Proof.
  eexists. split; [vm_compute; reflexivity|]. split; [by vm_compute|].
  eapply Forall_impl.
  - apply (@Assemble_sums_adjacent canonical_range sample_series 2); [apply sample_regular|].
    vm_compute. reflexivity.
  - intros b Hb. exact (proj1 Hb).
Defined.

Lemma PlanBuckets_lossless_witness :
  ∃ p, PlanBuckets (meta_of <$> sample_series) 2 = Some p ∧
    sumZ (bp_Duration <$> Buckets p) = 30.
Proof.
  destruct (PlanBuckets_lossless (meta_of <$> sample_series) 2 sample_times)
    as (p & Hp & _ & _ & _ & Hsum).
  exists p. split; [exact Hp|]. rewrite Hsum. by vm_compute.
Defined.

Lemma At_chronological_witness :
  ∃ p, PlanBuckets (meta_of <$> sample_series) 2 = Some p ∧ StronglySorted Z.lt (At p).
Proof.
  eexists. split; [vm_compute; reflexivity|].
  eapply (At_chronological (meta_of <$> sample_series) 2); [apply sample_times|].
  vm_compute. reflexivity.
Defined.
