(* ===== verification/GoFloat.v ===== *)
(** * Go's [float64]

    The kernel's binary64 ([PrimFloat]) with the conversions and the few functions of
    package [math] the code uses. Rounding is to nearest, ties to even, as in Go. *)

From S2P Require Import Prelude.
From Stdlib Require Export Floats.
From Stdlib Require Import Uint63.
From stdpp Require Import options.

#[global] Open Scope Z_scope.

(** [float64(z)] for an [int64] [z]. The magnitude of an [int64] fits 63 bits except for
    [min64], which is a power of two. *)
Definition to_float (z : Z) : float :=
  if z =? min64 then (-9223372036854775808)%float
  else if z <? 0 then PrimFloat.opp (PrimFloat.of_uint63 (Uint63.of_Z (- z)))
  else PrimFloat.of_uint63 (Uint63.of_Z z).

(** The integer part of a finite float, towards zero, and whether a part is cut off. *)
Definition trunc_parts (m : positive) (e : Z) : Z * bool :=
  if 0 <=? e then (Z.pos m * 2 ^ e, false)
  else (Z.pos m / 2 ^ (- e), negb (Z.pos m mod 2 ^ (- e) =? 0)).

(** [int(f)]: truncation. Out of range and NaN are implementation-defined in Go; here
    they give [min64], as on amd64. *)
Definition to_int (f : float) : Z :=
  match Prim2SF f with
  | S754_zero _ => 0
  | S754_finite s m e =>
      let z := (trunc_parts m e).1 in
      let z := if s then - z else z in
      if decide (int64 z) then z else min64
  | _ => min64
  end.

(** [math.Ceil]. *)
Definition math_ceil (f : float) : float :=
  match Prim2SF f with
  | S754_finite s m e =>
      if 0 <=? e then f
      else
        let '(z, cut) := trunc_parts m e in
        if s then (if z =? 0 then neg_zero else to_float (- z))
        else to_float (if cut then z + 1 else z)
  | _ => f
  end.

(** [math.Round]: half away from zero. *)
Definition math_round (f : float) : float :=
  match Prim2SF f with
  | S754_finite s m e =>
      if 0 <=? e then f
      else
        let z := (2 * Z.pos m + 2 ^ (- e)) / (2 * 2 ^ (- e)) in
        if s then (if z =? 0 then neg_zero else to_float (- z)) else to_float z
  | _ => f
  end.

(** The order of [sort.Float64s]: NaN first. *)
Definition float_less (x y : float) : bool :=
  (x <? y)%float || (negb (x =? x)%float && (y =? y)%float).

Example to_float_neg : to_float (-3) = (-3)%float.
Proof. reflexivity. Qed.

Example ceil_frac : map (λ f, to_int (math_ceil f)) [2.1%float; 3%float; (-1.5)%float] = [3; 3; -1].
Proof. by vm_compute. Qed.

Example round_half : map (λ f, to_int (math_round f)) [2.5%float; 72.4%float; (-2.5)%float] = [3; 72; -3].
Proof. by vm_compute. Qed.

(** ** The order of floats *)

Lemma pos_compare_trans p q r : Pos.compare p q = Lt → Pos.compare q r = Lt → Pos.compare p r = Lt.
Proof. rewrite !Pos.compare_lt_iff. lia. Qed.

Lemma SFltb_trans x y z : SFltb x y = true → SFltb y z = true → SFltb x z = true.
Proof.
  unfold SFltb. destruct x as [sx|sx| |sx mx ex], y as [sy|sy| |sy my ey], z as [sz|sz| |sz mz ez];
    repeat match goal with s : bool |- _ => destruct s end; cbn; try done.
  all: destruct (Z.compare_spec ex ey), (Z.compare_spec ey ez); try done;
    destruct (Z.compare_spec ex ez); try lia; try done; subst.
  all: change (Pos.compare_cont Eq) with Pos.compare;
    destruct (Pos.compare_spec mx my), (Pos.compare_spec my mz); try done;
    destruct (Pos.compare_spec mx mz); done || lia.
Qed.

Lemma flt_trans x y z : (x <? y)%float = true → (y <? z)%float = true → (x <? z)%float = true.
Proof. rewrite !FloatAxioms.ltb_spec. apply SFltb_trans. Qed.

(** [cmp.Less] on [spec_float]. *)
Definition SF_less (x y : spec_float) : bool := SFltb x y || (negb (SFeqb x x) && SFeqb y y).

Lemma float_less_spec x y : float_less x y = SF_less (Prim2SF x) (Prim2SF y).
Proof. unfold float_less, SF_less. by rewrite FloatAxioms.ltb_spec, !FloatAxioms.eqb_spec. Qed.

Lemma SF_less_asym x y : SF_less x y = true → SF_less y x = false.
Proof.
  unfold SF_less, SFltb, SFeqb. destruct x as [sx|sx| |sx mx ex], y as [sy|sy| |sy my ey];
    repeat match goal with s : bool |- _ => destruct s end; cbn; try done.
  all: change (Pos.compare_cont Eq) with Pos.compare; rewrite ?Z.compare_refl, ?Pos.compare_refl; cbn; try done.
  all: destruct (Z.compare_spec ex ey), (Z.compare_spec ey ex); try done; try lia;
    destruct (Pos.compare_spec mx my), (Pos.compare_spec my mx); done || lia.
Qed.

Lemma SF_less_neg_trans x y z : SF_less x y = false → SF_less y z = false → SF_less x z = false.
Proof.
  unfold SF_less, SFltb, SFeqb.
  destruct x as [sx|sx| |sx mx ex], y as [sy|sy| |sy my ey], z as [sz|sz| |sz mz ez];
    repeat match goal with s : bool |- _ => destruct s end; cbn; try done.
  all: change (Pos.compare_cont Eq) with Pos.compare; rewrite ?Z.compare_refl, ?Pos.compare_refl; cbn; try done.
  all: destruct (Z.compare_spec ex ey), (Z.compare_spec ey ez); try done;
    destruct (Z.compare_spec ex ez); try lia; try done; subst.
  all: destruct (Pos.compare_spec mx my), (Pos.compare_spec my mz); try done;
    destruct (Pos.compare_spec mx mz); done || lia.
Qed.

#[global] Instance float_less_strict : StrictWeak float_less.
Proof.
  split; intros *; rewrite !float_less_spec; [apply SF_less_asym|apply SF_less_neg_trans].
Qed.

Lemma flt_irrefl x : (x <? x)%float = false.
Proof.
  destruct (x <? x)%float eqn:H; [|done]. exfalso. assert (float_less x x = true) by (unfold float_less; by rewrite H).
  pose proof (less_asym x x H0). congruence.
Qed.

(** The loop that keeps the first of the elements none of which measures more. *)
Definition longer {A} (f : A → float) (a x : A) : A := if (f a <? f x)%float then x else a.

Lemma longer_max {A} (f : A → float) a l :
  let d := foldl (longer f) a l in d ∈ a :: l ∧ Forall (λ x, (f d <? f x)%float = false) (a :: l).
Proof.
  cbn zeta. induction l as [|x l IH] using rev_ind; cbn [foldl].
  - split; [by left|]. constructor; [apply flt_irrefl|constructor].
  - rewrite foldl_app. cbn [foldl]. destruct IH as [Hin Hall]. unfold longer at 1 3. rewrite app_comm_cons.
    destruct (_ <? f x)%float eqn:Hlt; (split; [apply elem_of_app|apply Forall_app; split]).
    + right. by left.
    + eapply Forall_impl; [exact Hall|]. cbn. intros z Hz. destruct (f x <? f z)%float eqn:Hxz; [|done].
      by rewrite (flt_trans _ _ _ Hlt Hxz) in Hz.
    + constructor; [apply flt_irrefl|constructor].
    + by left.
    + done.
    + by repeat constructor.
Qed.

(** [math.Max]. *)
Definition math_max (x y : float) : float :=
  if (x =? infinity)%float || (y =? infinity)%float then infinity
  else if negb (x =? x)%float || negb (y =? y)%float then nan
  else if (x =? 0)%float && (x =? y)%float then (if get_sign x then y else x)
  else if (y <? x)%float then x else y.

(** [math.Min]. *)
Definition math_min (x y : float) : float :=
  if (x =? neg_infinity)%float || (y =? neg_infinity)%float then neg_infinity
  else if negb (x =? x)%float || negb (y =? y)%float then nan
  else if (x =? 0)%float && (x =? y)%float then (if get_sign x then x else y)
  else if (x <? y)%float then x else y.
