(* ===== verification/GoFloatOrder.v ===== *)
(** * The order of [float64] arithmetic

    Rounding to nearest is monotone, so the usual inequalities between non-negative
    numbers survive in [float64] arithmetic, overflow to infinity included. A finite
    double is an integer multiple of 2^-1074, so non-negative floats are ordered as the
    integers [fv] gives them, and an operation is the exact result [rnd] rounds. *)

From S2P Require Import Prelude GoFloat.
From stdpp Require Import options.

#[local] Open Scope Z_scope.

#[local] Abbreviation round_aux := (binary_round_aux FloatOps.prec FloatOps.emax).
#[local] Abbreviation exponent := (fexp FloatOps.prec FloatOps.emax).

(** ** Rounding of a quotient to an integer

    [sticky n d] is the quotient in halves, with a last bit that says whether anything is
    left over. Taken of [2 * n] it tells everything rounding to nearest needs: the
    integer part, the bit after it and whether there is more. *)
Definition sticky (n d : Z) : Z := 2 * (n / d) + (if decide (n mod d = 0) then 0 else 1).

(** To the nearest integer, ties to even, of the quotient [k] describes in quarters. *)
Definition rne (k : Z) : Z :=
  k / 4 + (if decide (k mod 4 = 3 ∨ (k mod 4 = 2 ∧ Z.odd (k / 4))) then 1 else 0).

(** The largest number of a unit, for infinity: 2^1024 in units of 2^-1074. *)
Definition INF : Z := 2 ^ 2098.

(** The exponent at which [n / d] (in units of 2^-1074) is rounded to 53 bits. *)
Definition rexp (n d : Z) : Z := Z.max 0 (Z.log2 (n / d) + 1 - 53).

Definition rnd (n d : Z) : Z :=
  let q := rexp n d in Z.min INF (rne (sticky (2 * n) (d * 2 ^ q)) * 2 ^ q).

(** The place of a non-negative float in the order, in units of 2^-1074. *)
Definition sc (x : spec_float) : Z :=
  match x with
  | S754_finite false m e => Z.pos m * 2 ^ (e + 1074)
  | S754_infinity false => INF
  | _ => 0
  end.

Definition fv (f : float) : Z := sc (Prim2SF f).

Definition nonneg (x : spec_float) : Prop :=
  match x with S754_finite s _ _ => s = false | S754_infinity s => s = false | S754_zero _ => True | S754_nan => False end.

(** ** Monotonicity of [rnd] *)

Lemma sticky_mono a b c d : 0 < b → 0 < d → a * d ≤ c * b → sticky a b ≤ sticky c d.
Proof.
  intros Hb Hd H. unfold sticky.
  pose proof (Z.div_mod a b ltac:(lia)). pose proof (Z.div_mod c d ltac:(lia)).
  pose proof (Z.mod_pos_bound a b Hb). pose proof (Z.mod_pos_bound c d Hd).
  assert (a / b ≤ c / d) by (apply Z.div_le_lower_bound; nia).
  destruct (decide (a / b < c / d)); [repeat case_decide; lia|].
  assert (a / b = c / d) as Heq by lia. rewrite Heq in *.
  repeat case_decide; lia.
Qed.

Lemma sticky_scale a b k : 0 < b → 0 < k → sticky (k * a) (k * b) = sticky a b.
Proof. intros. apply Z.le_antisymm; apply sticky_mono; nia. Qed.

Lemma sticky_quarters a b : 0 ≤ b < 4 → sticky (4 * a + b) 4 = 2 * a + (if decide (b = 0) then 0 else 1).
Proof.
  intros. unfold sticky. replace (4 * a + b) with (b + a * 4) by lia.
  rewrite Z.div_add, Z.mod_add, Z.div_small, Z.mod_small by lia. by rewrite Z.add_0_l.
Qed.

Lemma sticky_halve n d : 0 < d → sticky (sticky (2 * n) d) 4 = sticky n d.
Proof.
  intros Hd. unfold sticky at 2 3.
  pose proof (Z.div_mod (2 * n) d ltac:(lia)) as Ht. pose proof (Z.mod_pos_bound (2 * n) d Hd).
  pose proof (Z.div_mod n d ltac:(lia)) as Hu. pose proof (Z.mod_pos_bound n d Hd).
  set (t := 2 * n / d) in *. set (u := n / d) in *. set (r := (2 * n) mod d) in *. set (r' := n mod d) in *.
  assert ((t = 2 * u ∧ r = 2 * r') ∨ (t = 2 * u + 1 ∧ 2 * r' = d + r)) as [[-> ->]|[-> Hr]].
  { assert (2 * u ≤ t ≤ 2 * u + 1) by (split; nia).
    destruct (decide (t = 2 * u)) as [->|]; [left|right; assert (t = 2 * u + 1) as -> by lia]; lia. }
  - replace (2 * (2 * u) + _) with (4 * u + (if decide (2 * r' = 0) then 0 else 1)) by lia.
    rewrite sticky_quarters by (case_decide; lia). repeat case_decide; lia.
  - replace (2 * (2 * u + 1) + _) with (4 * u + (2 + if decide (r = 0) then 0 else 1)) by lia.
    rewrite sticky_quarters by (case_decide; lia). repeat case_decide; lia.
Qed.

Lemma rne_mono a b : a ≤ b → rne a ≤ rne b.
Proof.
  intros H. unfold rne.
  pose proof (Z.div_mod a 4 ltac:(lia)). pose proof (Z.div_mod b 4 ltac:(lia)).
  pose proof (Z.mod_pos_bound a 4 ltac:(lia)). pose proof (Z.mod_pos_bound b 4 ltac:(lia)).
  destruct (decide (a / 4 < b / 4)); [repeat case_decide; lia|].
  assert (a / 4 = b / 4) as Heq by lia. rewrite Heq in *. repeat case_decide; try lia.
  exfalso. assert (b mod 4 = 2 ∨ b mod 4 = 3) as [?|?] by lia; [|tauto].
  intuition lia.
Qed.

Lemma rne_exact z : rne (4 * z) = z.
Proof.
  unfold rne. rewrite (Z.mul_comm 4 z), Z.div_mul, Z.mod_mul by lia.
  case_decide; [intuition lia|lia].
Qed.

Lemma sticky_exact z d : 0 < d → sticky (2 * (z * d)) d = 4 * z.
Proof.
  intros. unfold sticky. replace (2 * (z * d)) with (2 * z * d) by lia.
  rewrite Z.div_mul, Z.mod_mul by lia. case_decide; lia.
Qed.

(** Rounding at exponent [q], and its bounds by multiples of [2 ^ q]. *)
Definition rat (n d q : Z) : Z := rne (sticky (2 * n) (d * 2 ^ q)).

Lemma rat_mono n d n' d' q : 0 ≤ q → 0 < d → 0 < d' → n * d' ≤ n' * d → rat n d q ≤ rat n' d' q.
Proof.
  intros. unfold rat. pose proof (Z.pow_pos_nonneg 2 q ltac:(lia) ltac:(lia)).
  apply rne_mono, sticky_mono; nia.
Qed.

Lemma rat_exact z d q : 0 ≤ q → 0 < d → rat (z * (d * 2 ^ q)) d q = z.
Proof.
  intros. unfold rat. pose proof (Z.pow_pos_nonneg 2 q ltac:(lia) ltac:(lia)).
  rewrite sticky_exact by nia. apply rne_exact.
Qed.

Lemma rat_lower n d q z : 0 ≤ q → 0 < d → z * 2 ^ q * d ≤ n → z ≤ rat n d q.
Proof.
  intros. rewrite <-(rat_exact z d q) by done. apply rat_mono; nia.
Qed.

Lemma rat_upper n d q z : 0 ≤ q → 0 < d → n ≤ z * 2 ^ q * d → rat n d q ≤ z.
Proof.
  intros. rewrite <-(rat_exact z d q) by done. apply rat_mono; nia.
Qed.

Lemma log2_quot n d : 0 < d → d ≤ n → 2 ^ Z.log2 (n / d) * d ≤ n < 2 ^ (Z.log2 (n / d) + 1) * d.
Proof.
  intros Hd Hn. assert (1 ≤ n / d) by (apply Z.div_le_lower_bound; lia).
  pose proof (Z.log2_spec (n / d) ltac:(lia)) as [Hl Hu]. rewrite <-Z.add_1_r in Hu.
  pose proof (Z.div_mod n d ltac:(lia)). pose proof (Z.mod_pos_bound n d Hd). nia.
Qed.

Lemma rexp_nonneg n d : 0 ≤ rexp n d.
Proof. unfold rexp. lia. Qed.

Lemma rexp_mono n d n' d' : 0 ≤ n → 0 < d → 0 < d' → n * d' ≤ n' * d → rexp n d ≤ rexp n' d'.
Proof.
  intros. unfold rexp. assert (n / d ≤ n' / d').
  { apply Z.div_le_lower_bound; [lia|]. pose proof (Z.mul_div_le n d ltac:(lia)). nia. }
  pose proof (Z.log2_le_mono (n / d) (n' / d') ltac:(lia)). lia.
Qed.

(** What is rounded at [rexp] fits 53 bits, or is the next power of two. *)
Lemma rat_fits n d : 0 ≤ n → 0 < d → 0 ≤ rat n d (rexp n d) ≤ 2 ^ 53.
Proof.
  intros Hn Hd. pose proof (rexp_nonneg n d). split; [apply rat_lower; lia|].
  apply rat_upper; [done..|]. destruct (decide (n < d)) as [Hlt|Hge].
  - pose proof (Z.pow_pos_nonneg 2 (rexp n d) ltac:(lia) ltac:(lia)). nia.
  - pose proof (log2_quot n d Hd ltac:(lia)) as [_ Hu]. unfold rexp in *.
    rewrite <-Z.pow_add_r by lia.
    assert (2 ^ (Z.log2 (n / d) + 1) ≤ 2 ^ (53 + Z.max 0 (Z.log2 (n / d) + 1 - 53))) by (apply Z.pow_le_mono_r; lia).
    nia.
Qed.

Lemma rat_normal n d : 0 ≤ n → 0 < d → 0 < rexp n d → 2 ^ 52 ≤ rat n d (rexp n d).
Proof.
  intros Hn Hd Hq. apply rat_lower; [lia..|]. destruct (decide (n < d)) as [Hlt|Hge].
  - unfold rexp in Hq. rewrite (Z.div_small n d) in Hq by lia. cbn in Hq. lia.
  - pose proof (log2_quot n d Hd ltac:(lia)) as [Hl _]. unfold rexp in *.
    rewrite <-Z.pow_add_r by lia.
    replace (52 + Z.max 0 (Z.log2 (n / d) + 1 - 53)) with (Z.log2 (n / d)) by lia. lia.
Qed.

Lemma rnd_mono n d n' d' : 0 ≤ n → 0 < d → 0 < d' → n * d' ≤ n' * d → rnd n d ≤ rnd n' d'.
Proof.
  intros Hn Hd Hd' H. assert (0 ≤ n') by nia. unfold rnd.
  change (rne (sticky (2 * n) (d * 2 ^ rexp n d))) with (rat n d (rexp n d)).
  change (rne (sticky (2 * n') (d' * 2 ^ rexp n' d'))) with (rat n' d' (rexp n' d')).
  apply Z.min_le_compat_l. pose proof (rexp_nonneg n d). pose proof (rexp_mono n d n' d' Hn Hd Hd' H).
  destruct (decide (rexp n d = rexp n' d')) as [<-|Hne].
  { apply Z.mul_le_mono_nonneg_r; [apply Z.pow_nonneg; lia|]. by apply rat_mono. }
  pose proof (rat_fits n d Hn Hd). pose proof (rat_normal n' d' ltac:(lia) Hd' ltac:(lia)).
  trans (2 ^ (53 + rexp n d)).
  - rewrite Z.pow_add_r by lia. apply Z.mul_le_mono_nonneg_r; [apply Z.pow_nonneg; lia|lia].
  - trans (2 ^ (52 + rexp n' d')); [apply Z.pow_le_mono_r; lia|].
    rewrite Z.pow_add_r by lia. apply Z.mul_le_mono_nonneg_r; [apply Z.pow_nonneg; lia|lia].
Qed.

Lemma rnd_ratio n d n' d' : 0 ≤ n → 0 < d → 0 < d' → n * d' = n' * d → rnd n d = rnd n' d'.
Proof. intros. apply Z.le_antisymm; apply rnd_mono; nia. Qed.

Lemma sticky_ratio a b c d : 0 < b → 0 < d → a * d = c * b → sticky a b = sticky c d.
Proof. intros. apply Z.le_antisymm; apply sticky_mono; lia. Qed.

Lemma rnd_nonneg n d : 0 ≤ n → 0 < d → 0 ≤ rnd n d ≤ INF.
Proof.
  intros. unfold rnd. pose proof (rat_fits n d). unfold rat in *.
  pose proof (Z.pow_nonneg 2 (rexp n d)). unfold INF at 2. split; [|apply Z.le_min_l].
  apply Z.min_glb; [apply Z.pow_nonneg; lia|nia].
Qed.

(** ** [binary_round_aux] rounds as [rnd] does *)

Lemma digits2_log2 p : Z.pos (digits2_pos p) = Z.log2 (Z.pos p) + 1.
Proof.
  induction p as [p IH|p IH|]; [| |done]; cbn [digits2_pos]; rewrite Pos2Z.inj_succ, IH.
  - rewrite (Pos2Z.inj_xI p), Z.log2_succ_double by done. lia.
  - rewrite (Pos2Z.inj_xO p), Z.log2_double by done. lia.
Qed.

Definition rkey (r : shr_record) : Z := 4 * shr_m r + 2 * Z.b2z (shr_r r) + Z.b2z (shr_s r).

Lemma shr_1_key r : 0 ≤ shr_m r → rkey (shr_1 r) = sticky (rkey r) 4 ∧ 0 ≤ shr_m (shr_1 r).
Proof.
  intros Hm. destruct r as [m r s]. unfold rkey. cbn [shr_m shr_r shr_s] in *.
  rewrite <-(Z.add_assoc (4 * m)), sticky_quarters by (destruct r, s; cbn; lia).
  destruct m as [|[p|p|]|]; cbn [shr_1 shr_m shr_r shr_s]; [..|lia]; split; try lia;
    destruct r, s; cbn [orb Z.b2z]; case_decide; lia.
Qed.

Lemma iter_shr_key p r n d : 0 ≤ shr_m r → 0 < d → rkey r = sticky (2 * n) d →
  rkey (iter_pos shr_1 p r) = sticky (2 * n) (d * 2 ^ Z.pos p) ∧ 0 ≤ shr_m (iter_pos shr_1 p r).
Proof.
  assert (∀ r d, 0 ≤ shr_m r → 0 < d → rkey r = sticky (2 * n) d →
    rkey (shr_1 r) = sticky (2 * n) (d * 2) ∧ 0 ≤ shr_m (shr_1 r)) as Hstep.
  { intros r0 d0 Hm Hd Hk. destruct (shr_1_key r0 Hm) as [-> ?]. split; [|done].
    rewrite Hk, sticky_halve by done. symmetry. apply sticky_ratio; lia. }
  assert (∀ p, 0 < 2 ^ Z.pos p) as Hpow by (intros; apply Z.pow_pos_nonneg; lia).
  assert (∀ p, 2 ^ Z.pos p * 2 ^ Z.pos p = 2 ^ (2 * Z.pos p)) as Hsq
    by (intros; rewrite <-Z.pow_add_r by lia; f_equal; lia).
  revert r d. induction p as [p IH|p IH|]; intros r d Hm Hd Hk; cbn [iter_pos].
  - pose proof (Hpow p). destruct (Hstep r d Hm Hd Hk) as [Hk1 Hm1].
    destruct (IH _ (d * 2) Hm1 ltac:(lia) Hk1) as [Hk2 Hm2].
    destruct (IH _ (d * 2 * 2 ^ Z.pos p) Hm2 ltac:(nia) Hk2) as [-> Hm3]. split; [|done]. apply f_equal.
    rewrite (Pos2Z.inj_xI p), Z.pow_add_r, <-Hsq by lia. lia.
  - pose proof (Hpow p). destruct (IH _ d Hm Hd Hk) as [Hk2 Hm2].
    destruct (IH _ (d * 2 ^ Z.pos p) Hm2 ltac:(nia) Hk2) as [-> Hm3]. split; [|done]. apply f_equal.
    rewrite (Pos2Z.inj_xO p), <-Hsq. lia.
  - destruct (Hstep r d Hm Hd Hk) as [? ?]. by rewrite Z.pow_1_r.
Qed.

Lemma shr_key r e k n d : 0 ≤ shr_m r → 0 < d → 0 ≤ k → rkey r = sticky (2 * n) d →
  ∃ r', shr r e k = (r', e + k) ∧ 0 ≤ shr_m r' ∧ rkey r' = sticky (2 * n) (d * 2 ^ k).
Proof.
  intros Hm Hd Hk Hr. destruct k as [|p|p]; [|cbn [shr]|lia].
  - exists r. by rewrite Z.add_0_r, Z.pow_0_r, Z.mul_1_r.
  - destruct (iter_shr_key p r n d Hm Hd Hr). eauto.
Qed.

Lemma nearest_even_rne r : 0 ≤ shr_m r → round_nearest_even (shr_m r) (loc_of_shr_record r) = rne (rkey r).
Proof.
  intros Hm. destruct r as [m r s]. unfold rkey, rne. cbn [shr_m shr_r shr_s] in *.
  replace (4 * m + 2 * Z.b2z r + Z.b2z s) with ((2 * Z.b2z r + Z.b2z s) + m * 4) by lia.
  rewrite Z.div_add, Z.mod_add by lia.
  assert (0 ≤ 2 * Z.b2z r + Z.b2z s < 4) by (destruct r, s; cbn; lia).
  rewrite Z.div_small, Z.mod_small, Z.add_0_l by lia.
  destruct r, s; cbn [loc_of_shr_record round_nearest_even Z.b2z]; rewrite <-?Z.negb_odd;
    destruct (Z.odd m); cbn [negb]; case_decide; naive_solver lia.
Qed.

Lemma Zdigits2_log2 m : 0 < m → Zdigits2 m = Z.log2 m + 1.
Proof. destruct m as [|p|p]; [lia| |lia]. intros _. apply digits2_log2. Qed.

Lemma rkey_quot r n d : rkey r = sticky (2 * n) d → 0 < d → shr_m r = n / d.
Proof.
  intros Hk Hd. assert (rkey r / 4 = shr_m r) as <-.
  { unfold rkey. symmetry. apply (Z.div_unique_pos _ _ _ (2 * Z.b2z (shr_r r) + Z.b2z (shr_s r))); [|lia].
    destruct (shr_r r), (shr_s r); cbn; lia. }
  rewrite Hk. unfold sticky. assert (2 * n / d / 2 = n / d) as <-.
  { rewrite Z.div_div, (Z.mul_comm d), Z.div_mul_cancel_l by lia. done. }
  symmetry. apply (Z.div_unique_pos _ _ _ (2 * ((2 * n / d) mod 2) + (if decide ((2 * n) mod d = 0) then 0 else 1))).
  - pose proof (Z.mod_pos_bound (2 * n / d) 2). case_decide; lia.
  - pose proof (Z.div_mod (2 * n / d) 2). case_decide; lia.
Qed.

(** The exponent the first shift goes to is the one [rnd] chooses. *)
Lemma exponent_rexp m e n d : 0 ≤ n → 0 < d → m = n / d → e ≤ exponent (Zdigits2 m + e) →
  exponent (Zdigits2 m + e) + 1074 = rexp (n * 2 ^ Z.max 0 (e + 1074)) (d * 2 ^ Z.max 0 (- (e + 1074))).
Proof.
  intros Hn Hd Hm He. assert (0 ≤ m) by (subst; apply Z.div_pos; lia). unfold rexp, fexp, emin in *.
  change FloatOps.prec with 53 in *. change FloatOps.emax with 1024 in *.
  destruct (decide (m = 0)) as [->|].
  { cbn [Zdigits2] in *. rewrite (Z.max_l 0 (e + 1074)), Z.mul_1_r by lia. rewrite <-Z.div_div by (try apply Z.pow_nonzero; lia).
    rewrite <-Hm, Z.div_0_l by (apply Z.pow_nonzero; lia). cbn. lia. }
  rewrite Zdigits2_log2 in * by lia. destruct (decide (0 ≤ e + 1074)).
  - rewrite (Z.max_r 0 (e + 1074)), (Z.max_l 0 (- (e + 1074))), Z.mul_1_r by lia.
    assert (Z.log2 (n * 2 ^ (e + 1074) / d) = Z.log2 m + (e + 1074)); [|lia].
    pose proof (Z.log2_spec m ltac:(lia)) as [Hl Hu]. rewrite <-Z.add_1_r in Hu. pose proof (Z.log2_nonneg m).
    pose proof (Z.pow_pos_nonneg 2 (e + 1074) ltac:(lia) ltac:(lia)).
    pose proof (Z.div_mod n d ltac:(lia)). pose proof (Z.mod_pos_bound n d Hd). rewrite <-Hm in *.
    apply Z.log2_unique; [lia|]. rewrite <-Z.add_1_r. split.
    + apply Z.div_le_lower_bound; [lia|]. rewrite Z.pow_add_r by lia. assert (2 ^ Z.log2 m * d ≤ n) by nia. rewrite Z.mul_assoc, (Z.mul_comm d). apply Z.mul_le_mono_nonneg_r; lia.
    + apply Z.div_lt_upper_bound; [lia|].
      replace (Z.log2 m + (e + 1074) + 1) with (Z.log2 m + 1 + (e + 1074)) by lia. rewrite (Z.pow_add_r 2 (Z.log2 m + 1)) by lia.
      assert (n < d * 2 ^ (Z.log2 m + 1)) by nia. rewrite Z.mul_assoc. apply Z.mul_lt_mono_pos_r; lia.
  - rewrite (Z.max_l 0 (e + 1074)), (Z.max_r 0 (- (e + 1074))), Z.mul_1_r by lia.
    rewrite <-Z.div_div, <-Hm, <-Z.shiftr_div_pow2 by (try apply Z.pow_nonzero; lia).
    destruct (decide (- (e + 1074) ≤ Z.log2 m)).
    + rewrite Z.log2_shiftr by lia. lia.
    + assert (m < 2 ^ (- (e + 1074))) by (apply Z.log2_lt_pow2; lia).
      rewrite Z.shiftr_div_pow2, Z.div_small by lia. cbn. lia.
Qed.

(** Renormalising what was rounded: it is representable, or has overflowed. *)
Definition renormalised (z q : Z) : spec_float :=
  let '(r, e) := shr_fexp FloatOps.prec FloatOps.emax z q loc_Exact in
  match shr_m r with
  | 0 => S754_zero false
  | Z.pos m => if e <=? FloatOps.emax - FloatOps.prec then S754_finite false m e else S754_infinity false
  | _ => S754_nan
  end.

Lemma renormalise z q : 0 ≤ z ≤ 2 ^ 53 → -1074 ≤ q → (-1074 < q → 2 ^ 52 ≤ z) →
  nonneg (renormalised z q) ∧ sc (renormalised z q) = Z.min INF (z * 2 ^ (q + 1074)).
Proof.
  intros Hz Hq Hnorm. unfold renormalised, shr_fexp, shr_record_of_loc, fexp, emin.
  change FloatOps.prec with 53. change FloatOps.emax with 1024.
  assert (0 < 2 ^ (q + 1074)) as Hpow by (apply Z.pow_pos_nonneg; lia).
  assert (INF = 2 ^ 53 * 2 ^ 2045) as HINF by done.
  destruct (decide (z = 0)) as [->|].
  { cbn [Zdigits2]. replace (shr _ q _) with (Build_shr_record 0 false false, q).
    - cbn. split; [done|]. unfold INF. lia.
    - destruct (Z.max _ _ - q) eqn:E; [done|lia|done]. }
  rewrite Zdigits2_log2 by lia. destruct (decide (z = 2 ^ 53)) as [->|].
  - change (Z.log2 (2 ^ 53)) with 53. replace (Z.max (53 + 1 + q - 53) (3 - 1024 - 53) - q) with 1 by lia.
    change (shr _ q 1) with (Build_shr_record (Z.pos 4503599627370496) false false, q + 1). cbn [shr_m].
    assert (2 ^ 53 = 2 * Z.pos 4503599627370496) as -> by done.
    destruct (Z.leb_spec (q + 1) (1024 - 53)); cbn [nonneg sc]; (split; [done|]).
    + replace (q + 1 + 1074) with (1 + (q + 1074)) by lia. rewrite (Z.pow_add_r 2 1) by lia.
      assert (2 ^ (q + 1074) ≤ 2 ^ 2044) by (apply Z.pow_le_mono_r; lia).
      assert (2 ^ 2045 = 2 * 2 ^ 2044) by done. lia.
    + assert (2 ^ 2045 ≤ 2 ^ (q + 1074)) by (apply Z.pow_le_mono_r; lia). lia.
  - assert (Z.log2 z < 53) by (apply Z.log2_lt_pow2; lia).
    replace (shr _ q _) with (Build_shr_record z false false, q)
      by (destruct (Z.max _ _ - q) eqn:E; [done|lia|done]).
    cbn [shr_m]. destruct z as [|p|p]; [lia| |lia].
    destruct (Z.leb_spec q (1024 - 53)); cbn [nonneg sc]; (split; [done|]).
    + assert (2 ^ (q + 1074) ≤ 2 ^ 2045) by (apply Z.pow_le_mono_r; lia). nia.
    + assert (2 ^ 2046 ≤ 2 ^ (q + 1074)) by (apply Z.pow_le_mono_r; lia).
      assert (2 ^ 2046 = 2 * 2 ^ 2045) by done. specialize (Hnorm ltac:(lia)).
      assert (2 ^ 53 = 2 * 2 ^ 52) by done. nia.
Qed.

Lemma round_aux_rnd m e l n d : 0 ≤ n → 0 < d →
  rkey (shr_record_of_loc m l) = sticky (2 * n) d → e ≤ exponent (Zdigits2 m + e) →
  nonneg (round_aux false m e l) ∧
  sc (round_aux false m e l) = rnd (n * 2 ^ Z.max 0 (e + 1074)) (d * 2 ^ Z.max 0 (- (e + 1074))).
Proof.
  intros Hn Hd Hk He.
  assert (m = n / d) as Hm by (rewrite <-(rkey_quot _ _ _ Hk Hd); by destruct l as [|[]]).
  assert (0 ≤ m) by (subst; apply Z.div_pos; lia).
  pose proof (exponent_rexp m e n d Hn Hd Hm He) as Hrexp.
  destruct (shr_key (shr_record_of_loc m l) e (exponent (Zdigits2 m + e) - e) n d) as (r & Hr & Hr0 & Hrk);
    [by destruct l as [|[]]|done|lia|done|].
  set (q := exponent (Zdigits2 m + e)) in *.
  assert (round_aux false m e l = renormalised (rne (rkey r)) q) as ->.
  { unfold binary_round_aux, shr_fexp at 1. fold q. rewrite Hr.
    replace (e + (q - e)) with q by lia. by rewrite nearest_even_rne. }
  rewrite Hrk.
  set (N := n * _) in *. set (D := d * _) in *.
  assert (0 ≤ N) by (apply Z.mul_nonneg_nonneg; [done|]; apply Z.pow_nonneg; lia).
  assert (0 < D) by (apply Z.mul_pos_pos; [done|]; apply Z.pow_pos_nonneg; lia).
  pose proof (rexp_nonneg N D). rewrite <-Hrexp in *.
  assert (rne (sticky (2 * n) (d * 2 ^ (q - e))) = rat N D (q + 1074)) as ->.
  { unfold rat. apply f_equal, sticky_ratio; [by apply Z.mul_pos_pos; [|apply Z.pow_pos_nonneg; lia]..|].
    unfold N, D. assert (2 ^ Z.max 0 (- (e + 1074)) * 2 ^ (q + 1074) = 2 ^ Z.max 0 (e + 1074) * 2 ^ (q - e)) as Hp;
      [rewrite <-!Z.pow_add_r by lia; f_equal; lia|].
    transitivity (2 * n * d * (2 ^ Z.max 0 (- (e + 1074)) * 2 ^ (q + 1074))); [lia|]. rewrite Hp. lia. }
  unfold rnd. rewrite <-Hrexp. apply (renormalise (rat N D (q + 1074)) q); [|lia|].
  - rewrite Hrexp. by apply rat_fits.
  - intros. rewrite Hrexp. apply rat_normal; [done..|lia].
Qed.

(** ** The order *)

Lemma bounded_spec m e : bounded FloatOps.prec FloatOps.emax m e = true →
  exponent (Z.log2 (Z.pos m) + 1 + e) = e ∧ -1074 ≤ e ≤ 971.
Proof.
  unfold bounded, canonical_mantissa. rewrite andb_true_iff, digits2_log2, Z.eqb_eq, Z.leb_le. intros [He ?].
  split; [done|]. revert He H. unfold fexp, emin. change FloatOps.prec with 53. change FloatOps.emax with 1024. lia.
Qed.

Lemma sc_finite m e : bounded FloatOps.prec FloatOps.emax m e = true → 0 < Z.pos m * 2 ^ (e + 1074) < INF.
Proof.
  intros H. destruct (bounded_spec m e H) as [Hc ?]. pose proof (Z.pow_pos_nonneg 2 (e + 1074) ltac:(lia) ltac:(lia)).
  pose proof (Z.log2_spec (Z.pos m) ltac:(lia)) as [_ Hu]. rewrite <-Z.add_1_r in Hu.
  unfold fexp in Hc. change FloatOps.prec with 53 in Hc.
  assert (2 ^ (Z.log2 (Z.pos m) + 1) ≤ 2 ^ 53) by (apply Z.pow_le_mono_r; lia).
  assert (2 ^ (e + 1074) ≤ 2 ^ 2045) by (apply Z.pow_le_mono_r; lia).
  assert (INF = 2 ^ 53 * 2 ^ 2045) by done. nia.
Qed.

Lemma sc_bounds x : valid_binary x = true → 0 ≤ sc x ≤ INF.
Proof.
  destruct x as [s|s| |s m e]; cbn; [|destruct s| |destruct s]; intros Hv; try (unfold INF; lia).
  pose proof (sc_finite m e Hv). lia.
Qed.

Lemma sc_lt m1 e1 m2 e2 : bounded FloatOps.prec FloatOps.emax m1 e1 = true →
  bounded FloatOps.prec FloatOps.emax m2 e2 = true → e1 < e2 →
  Z.pos m1 * 2 ^ (e1 + 1074) < Z.pos m2 * 2 ^ (e2 + 1074).
Proof.
  intros H1 H2 He. destruct (bounded_spec m1 e1 H1) as [Hc1 ?], (bounded_spec m2 e2 H2) as [Hc2 ?].
  unfold fexp, emin in *. change FloatOps.prec with 53 in *. change FloatOps.emax with 1024 in *.
  pose proof (Z.log2_spec (Z.pos m1) ltac:(lia)) as [_ Hu]. rewrite <-Z.add_1_r in Hu.
  pose proof (Z.log2_spec (Z.pos m2) ltac:(lia)) as [Hl _].
  assert (2 ^ (Z.log2 (Z.pos m1) + 1) ≤ 2 ^ 53) by (apply Z.pow_le_mono_r; lia).
  assert (Z.log2 (Z.pos m2) = 52) as Hl2 by lia. rewrite Hl2 in Hl.
  replace (e2 + 1074) with ((e2 - e1 - 1) + (1 + (e1 + 1074))) by lia. rewrite (Z.pow_add_r 2 (e2 - e1 - 1)), (Z.pow_add_r 2 1) by lia.
  pose proof (Z.pow_pos_nonneg 2 (e1 + 1074) ltac:(lia) ltac:(lia)).
  pose proof (Z.pow_pos_nonneg 2 (e2 - e1 - 1) ltac:(lia) ltac:(lia)).
  assert (Z.pos m1 < 2 * 2 ^ 52) by (change (2 * 2 ^ 52) with (2 ^ 53); lia).
  apply Z.lt_le_trans with (2 * 2 ^ 52 * 2 ^ (e1 + 1074)); [by apply Z.mul_lt_mono_pos_r|].
  rewrite Z.pow_1_r, Z.mul_assoc, (Z.mul_comm 2), <-(Z.mul_assoc (2 ^ 52)).
  apply Z.mul_le_mono_nonneg_r; [lia|]. nia.
Qed.

Lemma sc_compare x y : valid_binary x = true → valid_binary y = true → nonneg x → nonneg y →
  SFcompare x y = Some (sc x ?= sc y).
Proof.
  destruct x as [sx|sx| |sx mx ex], y as [sy|sy| |sy my ey]; cbn [SpecFloat.valid_binary nonneg sc]; intros Hx Hy Nx Ny;
    try done; subst; cbn [SFcompare]; f_equal.
  all: repeat match goal with H : bounded _ _ ?m ?e = true |- _ => pose proof (sc_finite m e H); revert H end.
  all: try (symmetry; apply Z.compare_lt_iff; unfold INF in *; lia).
  all: try (symmetry; apply Z.compare_gt_iff; unfold INF in *; lia).
  intros Hx Hy. destruct (Z.compare_spec ex ey) as [->|Hlt|Hlt].
  - change (Pos.compare_cont Eq) with Pos.compare. change (Pos.compare mx my) with (Z.pos mx ?= Z.pos my).
    apply Zmult_compare_compat_r. destruct (bounded_spec my ey Hy).
    apply Z.lt_gt, Z.pow_pos_nonneg; lia.
  - symmetry. apply Z.compare_lt_iff. by apply sc_lt.
  - symmetry. apply Z.compare_gt_iff. by apply sc_lt.
Qed.

(** A representable number is its own rounding, and so is infinity. *)
Lemma rnd_sc x : valid_binary x = true → rnd (sc x) 1 = sc x.
Proof.
  destruct x as [s|[]| |[] m e]; cbn [SpecFloat.valid_binary sc]; intros Hv; try done.
  destruct (bounded_spec m e Hv) as [Hc ?]. pose proof (sc_finite m e Hv).
  assert (rexp (Z.pos m * 2 ^ (e + 1074)) 1 = e + 1074) as Hq.
  { unfold rexp. rewrite Z.div_1_r, Z.log2_mul_pow2 by lia.
    unfold fexp, emin in Hc. change FloatOps.prec with 53 in Hc. change FloatOps.emax with 1024 in Hc. lia. }
  unfold rnd. rewrite Hq. pose proof (rat_exact (Z.pos m) 1 (e + 1074) ltac:(lia) ltac:(lia)) as Hr.
  unfold rat in Hr. rewrite Z.mul_1_l in *. rewrite Hr. lia.
Qed.

Lemma rnd_infinity n : INF ≤ n → rnd n 1 = INF.
Proof.
  intros. apply Z.le_antisymm; [apply rnd_nonneg; unfold INF in *; lia|].
  rewrite <-(rnd_sc (S754_infinity false) eq_refl) at 1. cbn [sc]. apply rnd_mono; unfold INF in *; lia.
Qed.

Lemma rnd_sum_l x n : valid_binary x = true → 0 ≤ n → sc x ≤ rnd (sc x + n) 1.
Proof. intros. rewrite <-(rnd_sc x) at 1 by done. pose proof (sc_bounds x ltac:(done)). apply rnd_mono; lia. Qed.

(** ** The operations *)

Lemma exact_key m : rkey (shr_record_of_loc m loc_Exact) = sticky (2 * m) 1.
Proof. unfold rkey, sticky. cbn [shr_record_of_loc shr_m shr_r shr_s Z.b2z]. rewrite Z.div_1_r, Z.mod_1_r.
  rewrite decide_True by done. lia. Qed.

Lemma iter_xO p k : Z.pos (Pos.iter xO p k) = Z.pos p * 2 ^ Z.pos k.
Proof.
  induction k as [|k IH] using Pos.peano_ind; [cbn; lia|].
  rewrite Pos.iter_succ, Pos2Z.inj_xO, IH, Pos2Z.inj_succ, Z.pow_succ_r by lia. lia.
Qed.

Lemma shl_align_low p e e' : e' ≤ e → Z.pos (shl_align p e e').1 = Z.pos p * 2 ^ (e - e').
Proof.
  intros. unfold shl_align. destruct (e' - e) as [|k|k] eqn:E; [|lia|]; cbn [fst].
  - replace (e - e') with 0 by lia. lia.
  - rewrite iter_xO. do 2 f_equal. lia.
Qed.

Lemma align_value m e e' : -1074 ≤ e' ≤ e → m * 2 ^ (e - e') * 2 ^ (e' + 1074) = m * 2 ^ (e + 1074).
Proof. intros. rewrite <-Z.mul_assoc, <-Z.pow_add_r by lia. do 2 f_equal. lia. Qed.

(** A positive integer [p] at exponent [e], as sums and differences produce it. *)
Lemma round_rnd p e : -1074 ≤ e → let x := binary_round FloatOps.prec FloatOps.emax false p e in
  nonneg x ∧ sc x = rnd (Z.pos p * 2 ^ (e + 1074)) 1.
Proof.
  intros He. cbv zeta. unfold binary_round. rewrite digits2_log2.
  set (q := exponent (Z.log2 (Z.pos p) + 1 + e)).
  assert (∀ m k, 0 < m → k ≤ exponent (Zdigits2 m + k) → -1074 ≤ k →
    nonneg (round_aux false m k loc_Exact) ∧ sc (round_aux false m k loc_Exact) = rnd (m * 2 ^ (k + 1074)) 1) as H.
  { intros m k ? ? ?. destruct (round_aux_rnd m k loc_Exact m 1 ltac:(lia) ltac:(lia) (exact_key m) ltac:(done)) as [? ->].
    split; [done|]. by rewrite Z.max_r, (Z.max_l 0 (- _)) by lia. }
  destruct (decide (q < e)) as [Hq|Hq].
  - pose proof (shl_align_low p e q ltac:(lia)) as Hs. unfold shl_align in *.
    destruct (q - e) as [|k|k] eqn:E; [lia|lia|]. cbn [fst] in Hs.
    assert (-1074 ≤ q) by (unfold q, fexp, emin; change FloatOps.prec with 53; change FloatOps.emax with 1024; lia).
    destruct (H (Z.pos (Pos.iter xO p k)) q) as [? ->]; [lia| |done|].
    + rewrite Zdigits2_log2, Hs, Z.log2_mul_pow2 by lia. apply Z.eq_le_incl. unfold q at 1. f_equal. lia.
    + split; [done|]. rewrite Hs, <-Z.mul_assoc, <-Z.pow_add_r by lia. do 3 f_equal. lia.
  - unfold shl_align. destruct (q - e) as [|k|k] eqn:E; [| |lia].
    all: apply H; [lia| |done]; rewrite Zdigits2_log2 by lia; fold q; lia.
Qed.

Lemma SFadd_rnd x y : valid_binary x = true → valid_binary y = true → nonneg x → nonneg y →
  nonneg (SF64add x y) ∧ sc (SF64add x y) = rnd (sc x + sc y) 1.
Proof.
  intros Hx Hy Nx Ny. pose proof (sc_bounds x Hx). pose proof (sc_bounds y Hy).
  pose proof (rnd_sc x Hx) as Rx. pose proof (rnd_sc y Hy) as Ry.
  destruct x as [sx|sx| |sx mx ex], y as [sy|sy| |sy my ey]; cbn [nonneg] in *; try done; subst; cbn [sc] in *;
    unfold SF64add; cbn [SFadd].
  all: rewrite ?Z.add_0_l, ?Z.add_0_r, ?Rx, ?Ry.
  all: try (split; [done|]); try (symmetry; apply rnd_infinity); try (cbn [sc]; lia); try done.
  - destruct sx, sy; done.
  - cbn [SpecFloat.valid_binary] in *. destruct (bounded_spec mx ex Hx), (bounded_spec my ey Hy).
    pose proof (shl_align_low mx ex (Z.min ex ey) ltac:(lia)) as Hmx.
    pose proof (shl_align_low my ey (Z.min ex ey) ltac:(lia)) as Hmy.
    cbn [cond_Zopp]. destruct (Z.pos (shl_align mx ex (Z.min ex ey)).1 + Z.pos (shl_align my ey (Z.min ex ey)).1) as [|p|p] eqn:E; [lia| |lia].
    cbn [binary_normalize]. destruct (round_rnd p (Z.min ex ey)) as [? ->]; [lia|]. split; [done|].
    by rewrite <-E, Hmx, Hmy, Z.mul_add_distr_r, !align_value by lia.
Qed.

(** A finite difference that is not negative. *)
Lemma SFsub_rnd x y : valid_binary x = true → valid_binary y = true → nonneg x → nonneg y →
  sc y ≤ sc x → sc x < INF →
  nonneg (SF64sub x y) ∧ sc (SF64sub x y) = rnd (sc x - sc y) 1.
Proof.
  intros Hx Hy Nx Ny Hle Hlt. pose proof (rnd_sc x Hx) as Rx.
  destruct x as [sx|sx| |sx mx ex], y as [sy|sy| |sy my ey]; cbn [nonneg] in *; try done; subst;
    unfold SF64sub; cbn [SFsub].
  all: repeat match goal with H : SpecFloat.valid_binary _ _ (S754_finite _ ?m ?e) = true |- _ =>
    cbn [SpecFloat.valid_binary] in H; pose proof (sc_finite m e H); pose proof (bounded_spec m e H); revert H end;
    intros; cbn [sc] in *; try lia.
  all: try (split; [done|]; rewrite Z.sub_0_r; cbn [sc]; by rewrite Rx).
  - rewrite Z.sub_0_r, Rx. by destruct sx, sy.
  - pose proof (shl_align_low mx ex (Z.min ex ey) ltac:(lia)) as Hmx.
    pose proof (shl_align_low my ey (Z.min ex ey) ltac:(lia)) as Hmy. cbn [cond_Zopp].
    assert ((Z.pos mx * 2 ^ (ex - Z.min ex ey) - Z.pos my * 2 ^ (ey - Z.min ex ey)) * 2 ^ (Z.min ex ey + 1074) =
      Z.pos mx * 2 ^ (ex + 1074) - Z.pos my * 2 ^ (ey + 1074)) as Hv.
    { by rewrite Z.mul_sub_distr_r, !align_value by lia. }
    rewrite <-Hmx, <-Hmy in Hv. rewrite <-Hv in *.
    destruct (Z.pos (shl_align mx ex (Z.min ex ey)).1 - Z.pos (shl_align my ey (Z.min ex ey)).1) as [|p|p] eqn:E.
    + done.
    + cbn [binary_normalize]. apply round_rnd. lia.
    + pose proof (Z.pow_pos_nonneg 2 (Z.min ex ey + 1074) ltac:(lia) ltac:(lia)). exfalso. nia.
Qed.

Lemma SFmul_rnd x y : valid_binary x = true → valid_binary y = true → nonneg x → nonneg y →
  sc x < INF → sc y < INF →
  nonneg (SF64mul x y) ∧ sc (SF64mul x y) = rnd (sc x * sc y) (2 ^ 1074).
Proof.
  intros Hx Hy Nx Ny Fx Fy.
  assert (rnd 0 (2 ^ 1074) = 0) as H0 by (by rewrite (rnd_ratio 0 (2 ^ 1074) 0 1) by done).
  destruct x as [sx|sx| |sx mx ex], y as [sy|sy| |sy my ey]; cbn [nonneg] in *; try done; subst;
    unfold SF64mul; cbn [SFmul xorb].
  all: try (split; [done|]; cbn [sc]; rewrite ?Z.mul_0_l, ?Z.mul_0_r, H0; by destruct sx || by destruct sy).
  1-3: cbn [sc] in *; lia.
  cbn [SpecFloat.valid_binary] in *. destruct (bounded_spec mx ex Hx) as [Cx ?], (bounded_spec my ey Hy) as [Cy ?].
  destruct (round_aux_rnd (Z.pos (mx * my)) (ex + ey) loc_Exact (Z.pos (mx * my)) 1) as [? ->]; [lia|lia|apply exact_key| |].
  - rewrite Zdigits2_log2 by lia. rewrite Pos2Z.inj_mul. unfold fexp, emin in *.
    change FloatOps.prec with 53 in *. change FloatOps.emax with 1024 in *.
    pose proof (Z.log2_mul_below (Z.pos mx) (Z.pos my) ltac:(lia) ltac:(lia)).
    pose proof (Z.log2_nonneg (Z.pos mx)). pose proof (Z.log2_nonneg (Z.pos my)). lia.
  - split; [done|]. cbn [sc]. rewrite Z.mul_1_l. apply rnd_ratio.
    1-3: repeat (apply Z.mul_nonneg_nonneg || apply Z.pow_pos_nonneg || apply Z.pow_nonneg); lia.
    transitivity (Z.pos mx * Z.pos my * (2 ^ (ex + 1074) * 2 ^ (ey + 1074) * 2 ^ Z.max 0 (- (ex + ey + 1074)))); [|lia].
    rewrite Pos2Z.inj_mul, <-Z.mul_assoc. f_equal. rewrite <-!Z.pow_add_r by lia. f_equal. lia.
Qed.

(** The quotient of positive integers, with what is left over. *)
Lemma new_location_key n d : 0 ≤ n → 0 < d →
  rkey (shr_record_of_loc (n / d) (new_location d (n mod d))) = sticky (2 * n) d.
Proof.
  intros Hn Hd. pose proof (Z.div_mod n d ltac:(lia)) as Hdm. pose proof (Z.mod_pos_bound n d Hd).
  generalize dependent (n mod d). generalize dependent (n / d). intros u r Hdm Hr.
  assert (sticky (2 * n) d = 4 * u + sticky (2 * r) d) as ->.
  { unfold sticky. replace (2 * n) with (2 * r + 2 * u * d) by lia.
    rewrite Z.div_add, Z.mod_add by lia. lia. }
  assert (sticky (2 * r) d = (if decide (r = 0) then 0 else match 2 * r ?= d with Lt => 1 | Eq => 2 | Gt => 3 end)) as ->.
  { unfold sticky. destruct (decide (r = 0)) as [->|]; [done|]. destruct (Z.compare_spec (2 * r) d) as [->|?|?].
    - by rewrite Z.div_same, Z.mod_same by lia.
    - rewrite Z.div_small, Z.mod_small by lia. case_decide; lia.
    - replace (2 * r) with ((2 * r - d) + 1 * d) by lia.
      rewrite Z.div_add, Z.mod_add, Z.div_small, Z.mod_small by lia. case_decide; lia. }
  unfold rkey, new_location, new_location_even, new_location_odd.
  destruct (Z.even d) eqn:Hev, (Z.eqb_spec r 0) as [->|]; try (rewrite decide_True by done; cbn; lia);
    rewrite decide_False by done.
  - destruct (2 * r ?= d); cbn [shr_record_of_loc shr_m shr_r shr_s Z.b2z]; lia.
  - assert (2 * r ≠ d) as Hne by (intros <-; by rewrite Z.even_mul in Hev).
    assert (2 * r + 1 = d ∨ (2 * r + 1 < d) ∨ d < 2 * r) as [?|[?|?]] by lia.
    + rewrite (proj2 (Z.compare_eq_iff (2 * r + 1) d)), (proj2 (Z.compare_lt_iff (2 * r) d)) by lia. cbn. lia.
    + rewrite (proj2 (Z.compare_lt_iff (2 * r + 1) d)), (proj2 (Z.compare_lt_iff (2 * r) d)) by lia. cbn. lia.
    + rewrite (proj2 (Z.compare_gt_iff (2 * r + 1) d)), (proj2 (Z.compare_gt_iff (2 * r) d)) by lia. cbn. lia.
Qed.

Lemma Zdigits2_div_lower n d : 0 < n → 0 < d → Z.log2 n - Z.log2 d ≤ Zdigits2 (n / d).
Proof.
  intros Hn Hd. pose proof (Z.log2_spec n Hn) as [Hl _]. pose proof (Z.log2_spec d Hd) as [_ Hu].
  assert (0 ≤ n / d) by (apply Z.div_pos; lia).
  destruct (decide (Z.log2 n ≤ Z.log2 d)); [|assert (2 ^ (Z.log2 n - Z.log2 d - 1) ≤ n / d) as Hq].
  - destruct (n / d) as [|p|p]; [cbn; lia| |lia]. pose proof (Z.log2_nonneg (Z.pos p)).
    rewrite Zdigits2_log2 by lia. lia.
  - apply Z.div_le_lower_bound; [lia|].
    replace (2 ^ Z.log2 n) with (2 ^ Z.succ (Z.log2 d) * 2 ^ (Z.log2 n - Z.log2 d - 1)) in Hl
      by (pose proof (Z.log2_nonneg d); rewrite <-Z.pow_add_r by lia; f_equal; lia).
    pose proof (Z.pow_nonneg 2 (Z.log2 n - Z.log2 d - 1) ltac:(lia)).
    trans (2 ^ Z.succ (Z.log2 d) * 2 ^ (Z.log2 n - Z.log2 d - 1)); [apply Z.mul_le_mono_nonneg_r; lia|lia].
  - pose proof (Z.pow_pos_nonneg 2 (Z.log2 n - Z.log2 d - 1) ltac:(lia) ltac:(lia)).
    rewrite Zdigits2_log2 by lia. pose proof (Z.log2_le_mono _ _ Hq) as Hm.
    rewrite Z.log2_pow2 in Hm by lia. lia.
Qed.

Lemma SFdiv_rnd x y : valid_binary x = true → valid_binary y = true → nonneg x → nonneg y →
  sc x < INF → 0 < sc y < INF →
  nonneg (SF64div x y) ∧ sc (SF64div x y) = rnd (sc x * 2 ^ 1074) (sc y).
Proof.
  intros Hx Hy Nx Ny Fx Fy.
  destruct y as [sy|sy| |sy my ey]; cbn [nonneg sc] in *; try done; subst; try lia.
  cbn [SpecFloat.valid_binary] in *. destruct (bounded_spec my ey Hy) as [Cy ?].
  destruct x as [sx|sx| |sx mx ex]; cbn [nonneg sc] in *; try done; subst; unfold SF64div; cbn [SFdiv xorb].
  { lia. }
  cbn [SpecFloat.valid_binary] in *. destruct (bounded_spec mx ex Hx) as [Cx ?].
  unfold SFdiv_core_binary. rewrite !Zdigits2_log2 by lia.
  set (e' := Z.min _ (ex - ey)). assert (e' ≤ ex - ey) by lia.
  assert (e' ≤ exponent (Z.log2 (Z.pos mx) + 1 + ex - (Z.log2 (Z.pos my) + 1 + ey))) as He' by lia.
  clearbody e'. set (n := Z.pos mx * 2 ^ (ex - ey - e')).
  assert (match ex - ey - e' with Z.pos _ => Z.shiftl (Z.pos mx) (ex - ey - e') | 0 => Z.pos mx | Z.neg _ => 0 end = n) as ->.
  { unfold n. rewrite <-Z.shiftl_mul_pow2 by lia. destruct (ex - ey - e') eqn:E; [done|done|lia]. }
  assert (0 < n) by (apply Z.mul_pos_pos; [lia|]; apply Z.pow_pos_nonneg; lia).
  destruct (Z.div_eucl n (Z.pos my)) as [q r] eqn:Hqr.
  assert (q = n / Z.pos my) as -> by (unfold Z.div; by rewrite Hqr).
  assert (r = n mod Z.pos my) as -> by (unfold Z.modulo; by rewrite Hqr).
  destruct (round_aux_rnd (n / Z.pos my) e' (new_location (Z.pos my) (n mod Z.pos my)) n (Z.pos my)) as [? ->];
    [lia|lia|apply new_location_key; lia| |].
  - pose proof (Zdigits2_div_lower n (Z.pos my) ltac:(lia) ltac:(lia)) as Hd.
    assert (Z.log2 n = Z.log2 (Z.pos mx) + (ex - ey - e')) as Hn by (unfold n; rewrite Z.log2_mul_pow2 by lia; lia).
    unfold fexp in *. lia.
  - split; [done|]. apply rnd_ratio.
    1-3: repeat (apply Z.mul_nonneg_nonneg || apply Z.mul_pos_pos || apply Z.pow_pos_nonneg || apply Z.pow_nonneg); lia.
    unfold n. transitivity (Z.pos mx * Z.pos my *
      (2 ^ (ex - ey - e') * 2 ^ Z.max 0 (e' + 1074) * 2 ^ (ey + 1074))); [lia|].
    transitivity (Z.pos mx * Z.pos my * (2 ^ (ex + 1074) * 2 ^ 1074 * 2 ^ Z.max 0 (- (e' + 1074)))); [|lia].
    f_equal. rewrite <-!Z.pow_add_r by lia. f_equal. lia.
Qed.

(** ** Floats between zero and a bound

    [0 <= x <= b] is a decidable property of [x] that excludes NaN; a finite bound makes
    [x] finite. The rules below are those a bound is computed with. *)
Definition within (x b : float) : Prop := (0 <=? x)%float = true ∧ (x <=? b)%float = true.
Definition finite (b : float) : Prop := (b <? infinity)%float = true.

#[global] Instance within_dec x b : Decision (within x b).
Proof. unfold within. apply _. Defined.
#[global] Instance finite_dec b : Decision (finite b).
Proof. unfold finite. apply _. Defined.

Lemma nonneg_spec x : (0 <=? x)%float = true ↔ nonneg (Prim2SF x).
Proof.
  rewrite FloatAxioms.leb_spec. replace (Prim2SF 0) with (S754_zero false) by reflexivity.
  destruct (Prim2SF x) as [s|[]| |[] m e]; cbn; naive_solver.
Qed.

Lemma fv_le x y : (0 <=? x)%float = true → (0 <=? y)%float = true → (x <=? y)%float = true ↔ fv x ≤ fv y.
Proof.
  rewrite !nonneg_spec, FloatAxioms.leb_spec. intros Hx Hy. unfold SFleb, fv.
  rewrite sc_compare by (done || apply FloatAxioms.Prim2SF_valid).
  destruct (Z.compare_spec (sc (Prim2SF x)) (sc (Prim2SF y))); split; (done || lia).
Qed.

Lemma fv_lt x y : (0 <=? x)%float = true → (0 <=? y)%float = true → (x <? y)%float = true ↔ fv x < fv y.
Proof.
  rewrite !nonneg_spec, FloatAxioms.ltb_spec. intros Hx Hy. unfold SFltb, fv.
  rewrite sc_compare by (done || apply FloatAxioms.Prim2SF_valid).
  destruct (Z.compare_spec (sc (Prim2SF x)) (sc (Prim2SF y))); split; (done || lia).
Qed.

Lemma leb_nonneg x b : (0 <=? x)%float = true → (x <=? b)%float = true → (0 <=? b)%float = true.
Proof.
  rewrite !nonneg_spec, FloatAxioms.leb_spec.
  destruct (Prim2SF x) as [s|[]| |[] m e], (Prim2SF b) as [s'|[]| |[] m' e']; cbn; try done.
Qed.

Lemma within_spec x b : (0 <=? b)%float = true → within x b ↔ nonneg (Prim2SF x) ∧ fv x ≤ fv b.
Proof.
  intros Hb. unfold within. rewrite <-nonneg_spec. split; intros [H0 H]; (split; [done|]); by apply (fv_le x b).
Qed.

Lemma within_nonneg x b : within x b → (0 <=? b)%float = true.
Proof. intros [H0 H]. by apply (leb_nonneg x). Qed.

Lemma fv_finite b : (0 <=? b)%float = true → finite b ↔ fv b < INF.
Proof. intros Hb. unfold finite. by rewrite fv_lt. Qed.

Lemma within_trans x b c : within x b → (b <=? c)%float = true → within x c.
Proof.
  intros Hx Hbc. pose proof (within_nonneg x b Hx) as Hb. pose proof (leb_nonneg b c Hb Hbc) as Hc.
  rewrite within_spec in * by done. apply fv_le in Hbc; [|done..]. intuition lia.
Qed.

Lemma within_finite x b : within x b → finite b → finite x.
Proof.
  intros Hx Hb. pose proof (within_nonneg x b Hx) as Hb0.
  assert ((0 <=? x)%float = true) as H0 by apply Hx.
  apply fv_finite; [done|]. apply fv_finite in Hb; [|done]. apply within_spec in Hx; [lia|done].
Qed.

Lemma fv_bounds x : 0 ≤ fv x ≤ INF.
Proof. apply sc_bounds, FloatAxioms.Prim2SF_valid. Qed.

Lemma fv_add x y : (0 <=? x)%float = true → (0 <=? y)%float = true →
  nonneg (Prim2SF (x + y)%float) ∧ fv (x + y)%float = rnd (fv x + fv y) 1.
Proof.
  rewrite !nonneg_spec. intros. unfold fv. rewrite FloatAxioms.add_spec.
  apply SFadd_rnd; (done || apply FloatAxioms.Prim2SF_valid).
Qed.

Lemma add_within x y a b : within x a → within y b → within (x + y)%float (a + b)%float.
Proof.
  intros Hx Hy. pose proof (within_nonneg x a Hx). pose proof (within_nonneg y b Hy).
  destruct (fv_add x y) as [Hn Hv]; [apply Hx|apply Hy|]. destruct (fv_add a b) as [Hn' Hv']; [done..|].
  rewrite within_spec in * by (done || by rewrite nonneg_spec). split; [done|]. rewrite Hv, Hv'.
  pose proof (fv_bounds x). pose proof (fv_bounds y). apply rnd_mono; lia.
Qed.

Lemma add_above x y a b : within x a → within y b → (x <=? x + y)%float = true.
Proof.
  intros Hx Hy. destruct (fv_add x y) as [Hn Hv]; [apply Hx|apply Hy|].
  apply fv_le; [apply Hx|by rewrite nonneg_spec|]. rewrite Hv. apply rnd_sum_l; [apply FloatAxioms.Prim2SF_valid|].
  apply fv_bounds.
Qed.

Lemma add_above_r x y a b : within x a → within y b → (y <=? x + y)%float = true.
Proof.
  intros Hx Hy. destruct (fv_add x y) as [Hn Hv]; [apply Hx|apply Hy|].
  apply fv_le; [apply Hy|by rewrite nonneg_spec|]. rewrite Hv, Z.add_comm.
  apply rnd_sum_l; [apply FloatAxioms.Prim2SF_valid|]. apply fv_bounds.
Qed.

Lemma mul_within x y a b : within x a → within y b → finite a → finite b →
  within (x * y)%float (a * b)%float.
Proof.
  intros Hx Hy Fa Fb. pose proof (within_nonneg x a Hx) as Ha. pose proof (within_nonneg y b Hy) as Hb.
  assert (∀ u v, (0 <=? u)%float = true → (0 <=? v)%float = true → fv u < INF → fv v < INF →
    nonneg (Prim2SF (u * v)%float) ∧ fv (u * v)%float = rnd (fv u * fv v) (2 ^ 1074)) as H.
  { intros u v. rewrite !nonneg_spec. intros. unfold fv. rewrite FloatAxioms.mul_spec.
    apply SFmul_rnd; (done || apply FloatAxioms.Prim2SF_valid). }
  apply fv_finite in Fa, Fb; [|done..].
  pose proof (proj1 (within_spec x a Ha) Hx) as [_ ?]. pose proof (proj1 (within_spec y b Hb) Hy) as [_ ?].
  destruct (H x y) as [Hn Hv]; [apply Hx|apply Hy|lia|lia|]. destruct (H a b) as [Hn' Hv']; [done..|].
  rewrite within_spec by (by rewrite nonneg_spec). split; [done|]. rewrite Hv, Hv'.
  pose proof (fv_bounds x). pose proof (fv_bounds y). apply rnd_mono; nia.
Qed.

Lemma pos_nonneg v : (0 <? v)%float = true → (0 <=? v)%float = true.
Proof. rewrite FloatAxioms.ltb_spec, FloatAxioms.leb_spec. unfold SFltb, SFleb. by destruct SFcompare as [[]|]. Qed.

Lemma fv_div u v : (0 <=? u)%float = true → finite u → (0 <? v)%float = true → finite v →
  nonneg (Prim2SF (u / v)%float) ∧ fv (u / v)%float = rnd (fv u * 2 ^ 1074) (fv v).
Proof.
  intros Hu Fu Hv Fv. pose proof (pos_nonneg v Hv) as Hv'.
  apply fv_finite in Fu, Fv; [|done..]. rewrite fv_lt in Hv by done. change (fv 0) with 0 in Hv.
  rewrite nonneg_spec in *. unfold fv. rewrite FloatAxioms.div_spec.
  apply SFdiv_rnd; (done || apply FloatAxioms.Prim2SF_valid).
Qed.

Lemma div_within x a c : within x a → finite a → (0 <? c)%float = true → finite c →
  within (x / c)%float (a / c)%float.
Proof.
  intros Hx Fa Hc Fc. pose proof (within_nonneg x a Hx) as Ha. pose proof (within_finite x a Hx Fa).
  destruct (fv_div x c) as [Hn Hv]; [apply Hx|done..|]. destruct (fv_div a c) as [Hn' Hv']; [done..|].
  rewrite within_spec by (by rewrite nonneg_spec). split; [done|]. rewrite Hv, Hv'.
  apply within_spec in Hx; [|done]. pose proof (fv_bounds x).
  pose proof (pos_nonneg c Hc). rewrite fv_lt in Hc by done. change (fv 0) with 0 in Hc.
  assert (0 ≤ 2 ^ 1074) by done. apply rnd_mono; [apply Z.mul_nonneg_nonneg; lia|lia|lia|].
  do 2 (apply Z.mul_le_mono_nonneg_r; [lia|]). lia.
Qed.

(** A part of a whole is at most one. *)
Lemma ratio_within x y : within x y → (0 <? y)%float = true → finite y → within (x / y)%float 1.
Proof.
  intros Hx Hy Fy. pose proof (within_nonneg x y Hx) as Hy0. pose proof (within_finite x y Hx Fy).
  destruct (fv_div x y) as [Hn Hv]; [apply Hx|done..|].
  rewrite within_spec by done. split; [done|]. rewrite Hv. apply within_spec in Hx; [|done].
  pose proof (fv_bounds x). rewrite fv_lt in Hy by done. change (fv 0) with 0 in Hy.
  assert (fv 1 = rnd (2 ^ 1074) 1) as -> by (by vm_compute). assert (0 ≤ 2 ^ 1074) by done.
  apply rnd_mono; [apply Z.mul_nonneg_nonneg; lia|lia|lia|]. rewrite Z.mul_1_r, Z.mul_comm.
  apply Z.mul_le_mono_nonneg_l; lia.
Qed.

Lemma fv_sub x y : within y x → finite x →
  nonneg (Prim2SF (x - y)%float) ∧ fv (x - y)%float = rnd (fv x - fv y) 1.
Proof.
  intros Hy Fx. pose proof (within_nonneg y x Hy) as Hx. apply fv_finite in Fx; [|done].
  apply within_spec in Hy; [|done]. rewrite nonneg_spec in Hx. unfold fv in *. rewrite FloatAxioms.sub_spec.
  apply SFsub_rnd; try apply FloatAxioms.Prim2SF_valid; try apply Hy; done.
Qed.

Lemma sub_within x y b : within y x → within x b → finite b → within (x - y)%float b.
Proof.
  intros Hy Hx Fb. pose proof (within_nonneg x b Hx) as Hb. pose proof (within_nonneg y x Hy) as Hx0.
  pose proof (fv_bounds y). destruct (fv_sub x y Hy (within_finite x b Hx Fb)) as [Hn Hv].
  rewrite within_spec in Hx, Hy by done.
  rewrite within_spec by done. split; [done|]. rewrite Hv. unfold fv at 3.
  rewrite <-rnd_sc by apply FloatAxioms.Prim2SF_valid. fold (fv b). apply rnd_mono; lia.
Qed.

(** ** Non-negative floats, infinity included *)

Definition nn (x : float) : Prop := (0 <=? x)%float = true.

#[global] Instance nn_dec x : Decision (nn x).
Proof. unfold nn. apply _. Defined.

Lemma within_nn x b : within x b → nn x.
Proof. intros H. apply H. Qed.

Lemma nn_add x y : nn x → nn y → nn (x + y)%float.
Proof. intros Hx Hy. unfold nn. rewrite nonneg_spec. by apply fv_add. Qed.

Lemma nn_infinity x : nn x → ¬ finite x → Prim2SF x = S754_infinity false.
Proof.
  unfold nn, finite. rewrite FloatAxioms.leb_spec, FloatAxioms.ltb_spec.
  change (Prim2SF 0) with (S754_zero false). change (Prim2SF infinity) with (S754_infinity false).
  by destruct (Prim2SF x) as [s|[]| |[] m e].
Qed.

Lemma positive_spec c : (0 <? c)%float = true → finite c → ∃ m e, Prim2SF c = S754_finite false m e.
Proof.
  unfold finite. rewrite !FloatAxioms.ltb_spec.
  change (Prim2SF 0) with (S754_zero false). change (Prim2SF infinity) with (S754_infinity false).
  destruct (Prim2SF c) as [s|[]| |[] m e]; cbn; eauto; done.
Qed.

Lemma finite_spec x : nn x → finite x ↔ (x <=? x)%float = true ∧ Prim2SF x ≠ S754_infinity false.
Proof.
  unfold nn, finite. rewrite FloatAxioms.ltb_spec, !FloatAxioms.leb_spec.
  change (Prim2SF 0) with (S754_zero false). change (Prim2SF infinity) with (S754_infinity false).
  destruct (Prim2SF x) as [s|[]| |[] m e] eqn:E; cbn; try done; intros _; split; try naive_solver.
  intros _. split; [|done]. by rewrite Z.compare_refl, Pos.compare_cont_refl.
Qed.

Lemma leb_refl_nn x : nn x → (x <=? x)%float = true.
Proof. intros H. by apply fv_le. Qed.

Lemma within_self x : nn x → within x x.
Proof. intros H. split; [done|by apply leb_refl_nn]. Qed.

Lemma nn_mul x c : nn x → (0 <? c)%float = true → finite c → nn (x * c)%float.
Proof.
  intros Hx Hc Fc. destruct (decide (finite x)) as [Fx|Fx].
  - apply (within_nn _ (x * c)%float). apply mul_within; [by apply within_self|by apply within_self, pos_nonneg|done..].
  - apply nn_infinity in Fx; [|done]. destruct (positive_spec c Hc Fc) as (m & e & Hce).
    unfold nn. by rewrite nonneg_spec, FloatAxioms.mul_spec, Fx, Hce.
Qed.

Lemma nn_div x c : nn x → (0 <? c)%float = true → finite c → nn (x / c)%float.
Proof.
  intros Hx Hc Fc. destruct (decide (finite x)) as [Fx|Fx].
  - unfold nn. rewrite nonneg_spec. by apply fv_div.
  - apply nn_infinity in Fx; [|done]. destruct (positive_spec c Hc Fc) as (m & e & Hce).
    unfold nn. by rewrite nonneg_spec, FloatAxioms.div_spec, Fx, Hce.
Qed.

(** A difference guarded by a comparison. *)
Lemma nn_sub x c : (c <=? x)%float = true → nn c → finite c → nn (x - c)%float.
Proof.
  intros Hle Hc Fc. pose proof (leb_nonneg c x Hc Hle) as Hx. destruct (decide (finite x)) as [Fx|Fx].
  - apply (within_nn _ x). by apply sub_within; [|apply within_self|].
  - apply nn_infinity in Fx; [|done]. unfold nn. rewrite nonneg_spec, FloatAxioms.sub_spec, Fx.
    unfold nn, finite in Hc, Fc. revert Hc Fc. rewrite FloatAxioms.leb_spec, FloatAxioms.ltb_spec.
    change (Prim2SF 0) with (S754_zero false). change (Prim2SF infinity) with (S754_infinity false).
    by destruct (Prim2SF c) as [s|[]| |[] m e].
Qed.

Lemma ltb_leb x y : (x <? y)%float = true → (x <=? y)%float = true.
Proof. rewrite FloatAxioms.ltb_spec, FloatAxioms.leb_spec. unfold SFltb, SFleb. by destruct SFcompare as [[]|]. Qed.

Lemma ltb_not_leb x y : (x <? y)%float = true → (y <=? x)%float = false.
Proof.
  rewrite FloatAxioms.ltb_spec, FloatAxioms.leb_spec. unfold SFltb, SFleb.
  destruct (Prim2SF x) as [sx|[]| |[] mx ex], (Prim2SF y) as [sy|[]| |[] my ey]; cbn; try done.
  all: change (Pos.compare_cont Eq) with Pos.compare.
  all: rewrite (Z.compare_antisym ex ey), (Pos.compare_antisym mx my).
  all: by destruct (ex ?= ey), (Pos.compare mx my).
Qed.

Lemma nn_to_float z : 0 ≤ z → nn (to_float z).
Proof.
  intros Hz. unfold nn, to_float. rewrite nonneg_spec.
  destruct (Z.eqb_spec z min64) as [->|]; [done|]. destruct (Z.ltb_spec z 0); [lia|].
  rewrite FloatAxioms.of_uint63_spec. destruct (Uint63.to_Z _) as [|p|p] eqn:E; [done| |].
  - cbn [binary_normalize]. by apply round_rnd.
  - pose proof (Uint63.to_Z_bounded (Uint63.of_Z z)). lia.
Qed.

(** ** NaN *)

Definition is_number (x : float) : Prop := (x =? x)%float = true.

Lemma is_number_spec x : is_number x ↔ Prim2SF x ≠ S754_nan.
Proof.
  unfold is_number. rewrite FloatAxioms.eqb_spec. unfold SFeqb.
  destruct (Prim2SF x) as [s|[]| |[] m e]; cbn; try naive_solver; by rewrite Z.compare_refl, Pos.compare_cont_refl.
Qed.

Lemma nn_number x : nn x → is_number x.
Proof. unfold nn. rewrite nonneg_spec, is_number_spec. by destruct (Prim2SF x). Qed.

Lemma SF_leb_ltb x y : x ≠ S754_nan → y ≠ S754_nan → SFltb x y = false → SFleb y x = true.
Proof.
  unfold SFltb, SFleb. destruct x as [sx|[]| |[] mx ex], y as [sy|[]| |[] my ey]; cbn; try done; intros _ _.
  all: change (Pos.compare_cont Eq) with Pos.compare.
  all: rewrite (Z.compare_antisym ex ey), (Pos.compare_antisym mx my).
  all: by destruct (ex ?= ey), (Pos.compare mx my).
Qed.

Lemma leb_of_not_ltb x y : is_number x → is_number y → (x <? y)%float = false → (y <=? x)%float = true.
Proof.
  rewrite !is_number_spec, FloatAxioms.ltb_spec, FloatAxioms.leb_spec. apply SF_leb_ltb.
Qed.

Lemma leb_of_not_leb x y : nn x → nn y → (y <=? x)%float = false → (x <=? y)%float = true.
Proof.
  intros Hx Hy H. apply fv_le; [done..|]. assert (¬ fv y ≤ fv x); [|lia].
  rewrite <-fv_le by done. by rewrite H.
Qed.

Lemma round_aux_sign s m e l :
  round_aux s m e l = (if s then SFopp else id) (round_aux false m e l).
Proof.
  unfold binary_round_aux. destruct (shr_fexp _ _ m e l) as [r e']. destruct (shr_fexp _ _ _ e' _) as [r' e''].
  destruct (shr_m r'), s; try done; by destruct (_ <=? _).
Qed.

(** A finite difference of either sign is a number. *)
Lemma sub_number x y : nn x → nn y → finite x → finite y → is_number (x - y)%float.
Proof.
  unfold nn, finite. rewrite !FloatAxioms.ltb_spec, !FloatAxioms.leb_spec, is_number_spec, FloatAxioms.sub_spec.
  change (Prim2SF 0) with (S754_zero false). change (Prim2SF infinity) with (S754_infinity false).
  pose proof (FloatAxioms.Prim2SF_valid x) as Vx. pose proof (FloatAxioms.Prim2SF_valid y) as Vy.
  destruct (Prim2SF x) as [sx|[]| |[] mx ex], (Prim2SF y) as [sy|[]| |[] my ey]; cbn; try done; intros _ _ _ _.
  { by destruct sx, sy. }
  cbn [SpecFloat.valid_binary] in *. destruct (bounded_spec mx ex Vx), (bounded_spec my ey Vy).
  destruct (_ - _) as [|p|p]; cbn [binary_normalize]; [done|..].
  - pose proof (round_rnd p (Z.min ex ey) ltac:(lia)) as [Hn _]. by destruct (binary_round _ _ _ _ _).
  - pose proof (round_rnd p (Z.min ex ey) ltac:(lia)) as [Hn _].
    unfold binary_round in *. destruct (shl_align _ _ _) as [mz ez]. rewrite round_aux_sign.
    by destruct (round_aux false (Z.pos mz) ez loc_Exact).
Qed.

(** ** Minimum, maximum, rounding *)

Lemma eqb_within x y b : (x =? y)%float = true → within y b → within x b.
Proof.
  unfold within. rewrite FloatAxioms.eqb_spec, !FloatAxioms.leb_spec. change (Prim2SF 0) with (S754_zero false).
  unfold SFeqb. destruct (Prim2SF x) as [sx|[]| |[] mx ex], (Prim2SF y) as [sy|[]| |[] my ey]; cbn; try done.
  all: change (Pos.compare_cont Eq) with Pos.compare.
  all: destruct (Z.compare_spec ex ey), (Pos.compare_spec mx my); subst; done.
Qed.

Lemma zero_eqb x : (x =? 0)%float = true → within x 0.
Proof. intros H. apply (eqb_within _ _ _ H). by vm_compute. Qed.

Lemma nn_not_neg_infinity x : nn x → (x =? neg_infinity)%float = false.
Proof.
  unfold nn. rewrite nonneg_spec, FloatAxioms.eqb_spec. change (Prim2SF neg_infinity) with (S754_infinity true).
  destruct (Prim2SF x) as [s|[]| |[] m e]; cbn; done.
Qed.

Lemma min_within x c : nn x → nn c → within (math_min x c) c.
Proof.
  intros Hx Hc. unfold math_min. rewrite !nn_not_neg_infinity by done. cbn [orb].
  rewrite (nn_number x Hx), (nn_number c Hc). cbn [negb orb].
  destruct ((x =? 0)%float && (x =? c)%float) eqn:H0.
  - apply andb_true_iff in H0 as [H0 _]. destruct (get_sign x); [|by apply within_self].
    apply (within_trans _ 0); [by apply zero_eqb|done].
  - destruct (x <? c)%float eqn:Hlt; [|by apply within_self]. split; [done|by apply ltb_leb].
Qed.

(** The clamp between 0 and 100, of any number. *)
Lemma clamp_within x : is_number x → within (math_max 0 (math_min 100 x)) 100.
Proof.
  intros Hx. assert (∀ r, is_number r → (r <=? 100)%float = true → within (math_max 0 r) 100) as Hmax.
  { intros r Hr Hle. unfold math_max. destruct (r =? infinity)%float eqn:Hi.
    { exfalso. revert Hi Hle. rewrite FloatAxioms.eqb_spec, FloatAxioms.leb_spec.
      change (Prim2SF infinity) with (S754_infinity false).
      by destruct (Prim2SF r) as [s|[]| |[] m e]. }
    rewrite Hr. cbn -[PrimFloat.eqb PrimFloat.ltb]. destruct ((0 =? 0)%float && (0 =? r)%float) eqn:H0.
    - apply andb_true_iff in H0 as [_ H0]. change (get_sign 0) with false. cbv iota. by vm_compute.
    - destruct (r <? 0)%float eqn:Hlt; [by vm_compute|]. split; [|done].
      by apply leb_of_not_ltb. }
  unfold math_min. change (100 =? neg_infinity)%float with false. cbn [orb].
  destruct (x =? neg_infinity)%float; [by apply Hmax|]. rewrite Hx. change (100 =? 100)%float with true. cbn [negb orb].
  change (100 =? 0)%float with false. cbn [andb]. destruct (100 <? x)%float eqn:Hlt; [by apply Hmax|].
  apply Hmax; [done|]. by apply leb_of_not_ltb.
Qed.

Lemma math_round_spec y n : nn y → fv y ≤ n * 2 ^ 1074 → n < 2 ^ 52 →
  ∃ k, 0 ≤ k ≤ n ∧ (math_round y = to_float k ∨ (k = 0 ∧ math_round y = y ∧ (y =? 0)%float = true)).
Proof.
  unfold nn. rewrite nonneg_spec. intros Hy Hn Hn'. unfold math_round, fv in *.
  pose proof (FloatAxioms.Prim2SF_valid y) as Hv. pose proof (FloatAxioms.eqb_spec y 0) as Heq.
  change (Prim2SF 0) with (S754_zero false) in Heq.
  destruct (Prim2SF y) as [s|s| |s m e]; cbn [nonneg sc] in *; subst; try done.
  - exists 0. split; [lia|]. by right.
  - exfalso. revert Hn Hn'. unfold INF. change (2 ^ 2098) with (2 ^ 1024 * 2 ^ 1074).
    assert (2 ^ 52 < 2 ^ 1024) by done. assert (0 < 2 ^ 1074) by done. nia.
  - cbn [SpecFloat.valid_binary] in Hv. destruct (bounded_spec m e Hv) as [Hc ?].
    unfold fexp, emin in Hc. change FloatOps.prec with 53 in Hc. change FloatOps.emax with 1024 in Hc.
    pose proof (Z.log2_spec (Z.pos m) ltac:(lia)) as [Hl _]. destruct (Z.leb_spec 0 e).
    + exfalso. replace (Z.log2 (Z.pos m)) with 52 in Hl by lia. rewrite Z.pow_add_r in Hn by lia.
      pose proof (Z.pow_pos_nonneg 2 e ltac:(lia) ltac:(lia)). assert (0 < 2 ^ 1074) by done.
      assert (Z.pos m * 2 ^ e ≤ n) by (apply (Z.mul_le_mono_pos_r _ _ (2 ^ 1074)); lia). nia.
    + assert (0 < 2 ^ (- e)) by (apply Z.pow_pos_nonneg; lia).
      assert (Z.pos m ≤ n * 2 ^ (- e)).
      { apply (Z.mul_le_mono_pos_r _ _ (2 ^ (e + 1074))); [apply Z.pow_pos_nonneg; lia|].
        rewrite <-Z.mul_assoc, <-Z.pow_add_r by lia. by replace (- e + (e + 1074)) with 1074 by lia. }
      exists ((2 * Z.pos m + 2 ^ (- e)) / (2 * 2 ^ (- e))). split; [|by left]. split; [apply Z.div_pos; lia|].
      apply Z.lt_succ_r, Z.div_lt_upper_bound; lia.
Qed.

Lemma within_zero x : within x 0 → (x =? 0)%float = true.
Proof.
  unfold within. rewrite FloatAxioms.eqb_spec, !FloatAxioms.leb_spec. change (Prim2SF 0) with (S754_zero false).
  intros [H0 H]. by destruct (Prim2SF x) as [s|[]| |[] m e].
Qed.

Lemma pos_of_nonzero x : nn x → (x =? 0)%float = false → (0 <? x)%float = true.
Proof.
  unfold nn. rewrite FloatAxioms.eqb_spec, FloatAxioms.leb_spec, FloatAxioms.ltb_spec. change (Prim2SF 0) with (S754_zero false).
  intros H0 H. by destruct (Prim2SF x) as [s|[]| |[] m e].
Qed.
