(* ===== verification/GoFloatInt.v ===== *)
(** * Integers as floats

    Integers below 2^53 are floats, exactly; what [math.Ceil] makes of a fraction of one
    stays below it. *)

From S2P Require Import Prelude GoFloat GoFloatOrder.
From stdpp Require Import options.

#[local] Open Scope Z_scope.

(** A number of less than 53 bits, in units of a power of two, is not rounded. *)
Lemma rnd_exact n k : 0 < n < 2 ^ 53 → 0 ≤ k ≤ 1074 → rnd (n * 2 ^ k) 1 = n * 2 ^ k.
Proof.
  intros Hn Hk. unfold rnd, rexp. rewrite Z.div_1_r.
  assert (0 ≤ Z.log2 n ≤ 52) by (split; [apply Z.log2_nonneg|]; assert (Z.log2 n < 53); [|lia]; apply Z.log2_lt_pow2; lia).
  rewrite Z.log2_mul_pow2 by lia. set (q := Z.max 0 (k + Z.log2 n + 1 - 53)). assert (0 ≤ q ≤ k) by lia.
  pose proof (rat_exact (n * 2 ^ (k - q)) 1 q ltac:(lia) ltac:(lia)) as Hr. unfold rat in Hr.
  assert (Hs : n * 2 ^ (k - q) * (1 * 2 ^ q) = n * 2 ^ k).
  { rewrite Z.mul_1_l, <- Z.mul_assoc, <- Z.pow_add_r by lia. do 2 f_equal. lia. }
  rewrite Hs in Hr. rewrite Hr, <- Hs, Z.mul_1_l. apply Z.min_r. rewrite Z.mul_1_l in Hs. rewrite Hs.
  unfold INF. change (2 ^ 2098) with (2 ^ 1024 * 2 ^ 1074). assert (2 ^ 53 < 2 ^ 1024) by done.
  assert (0 < 2 ^ k) by (apply Z.pow_pos_nonneg; lia). assert (2 ^ k ≤ 2 ^ 1074) by (apply Z.pow_le_mono_r; lia). nia.
Qed.

Lemma rnd_exact_int n : 0 < n < 2 ^ 53 → rnd (n * 2 ^ 1074) 1 = n * 2 ^ 1074.
Proof. intros Hn. by apply rnd_exact. Qed.

(** An integer of less than 53 bits as a float. *)
Lemma fv_to_float n : 0 ≤ n < 2 ^ 53 → fv (to_float n) = n * 2 ^ 1074.
Proof.
  intros Hn. unfold fv, to_float. destruct (Z.eqb_spec n min64) as [->|]; [unfold min64 in Hn; lia|].
  destruct (Z.ltb_spec n 0); [lia|]. rewrite FloatAxioms.of_uint63_spec, Uint63.of_Z_spec.
  rewrite Z.mod_small by (change Uint63.wB with (2 ^ 63); lia). destruct n as [|p|p]; [done| |lia].
  cbn [binary_normalize]. destruct (round_rnd p 0 ltac:(lia)) as [_ ->]. apply rnd_exact_int. lia.
Qed.

Lemma to_int_to_float n : 0 ≤ n < 2 ^ 53 → to_int (to_float n) = n.
Proof.
  intros Hn. pose proof (fv_to_float n Hn) as Hv. pose proof (nn_to_float n ltac:(lia)) as Hnn. unfold nn in Hnn.
  rewrite nonneg_spec in Hnn. unfold fv in Hv. pose proof (FloatAxioms.Prim2SF_valid (to_float n)) as Hval.
  assert (Hp : 0 < 2 ^ 1074) by done. unfold to_int. destruct (Prim2SF (to_float n)) as [s|s| |s m e]; cbn [nonneg sc] in *; subst.
  - nia.
  - exfalso. unfold INF in Hv. change (2 ^ 2098) with (2 ^ 1024 * 2 ^ 1074) in Hv. assert (2 ^ 53 < 2 ^ 1024) by done. nia.
  - done.
  - cbn [SpecFloat.valid_binary] in Hval. destruct (bounded_spec m e Hval) as [_ He]. unfold trunc_parts.
    assert (Hm : (trunc_parts m e).1 = n).
    { unfold trunc_parts. destruct (Z.leb_spec 0 e); cbn [fst].
      - rewrite Z.pow_add_r in Hv by lia. nia.
      - assert (Hq : Z.pos m = n * 2 ^ (- e)).
        { apply (Z.mul_reg_r _ _ (2 ^ (e + 1074))); [assert (0 < 2 ^ (e + 1074)) by (apply Z.pow_pos_nonneg; lia); lia|].
          rewrite <- Z.mul_assoc, <- Z.pow_add_r by lia. replace (- e + (e + 1074)) with 1074 by lia. lia. }
        rewrite Hq. apply Z.div_mul. assert (0 < 2 ^ (- e)) by (apply Z.pow_pos_nonneg; lia). lia. }
    unfold trunc_parts in Hm. rewrite Hm. rewrite decide_True; [done|]. unfold int64, min64, max64. lia.
Qed.

(** The ceiling of a number is at most an integer it does not exceed. *)
Lemma ceil_le y n : nn y → fv y ≤ n * 2 ^ 1074 → n < 2 ^ 52 → to_int (math_ceil y) ≤ n.
Proof.
  unfold nn. rewrite nonneg_spec. intros Hy Hn Hn'. assert (Hp : 0 < 2 ^ 1074) by done.
  pose proof (FloatAxioms.Prim2SF_valid y) as Hv. assert (H0 : 0 ≤ n).
  { pose proof (fv_bounds y). nia. }
  unfold math_ceil, fv in *. destruct (Prim2SF y) as [s|s| |s m e] eqn:Hsf; cbn [nonneg sc] in *; subst.
  - unfold to_int. by rewrite Hsf.
  - exfalso. revert Hn. unfold INF. change (2 ^ 2098) with (2 ^ 1024 * 2 ^ 1074). assert (2 ^ 52 < 2 ^ 1024) by done. nia.
  - done.
  - cbn [SpecFloat.valid_binary] in Hv. destruct (bounded_spec m e Hv) as [Hc He]. unfold trunc_parts.
    destruct (Z.leb_spec 0 e).
    + unfold to_int. rewrite Hsf. unfold trunc_parts. rewrite (proj2 (Z.leb_le 0 e)) by done. cbn [fst].
      rewrite Z.pow_add_r in Hn by lia. case_decide; [nia|unfold min64; lia].
    + assert (0 < 2 ^ (- e)) by (apply Z.pow_pos_nonneg; lia).
      assert (Hm : Z.pos m ≤ n * 2 ^ (- e)).
      { apply (Z.mul_le_mono_pos_r _ _ (2 ^ (e + 1074))); [apply Z.pow_pos_nonneg; lia|].
        rewrite <- Z.mul_assoc, <- Z.pow_add_r by lia. by replace (- e + (e + 1074)) with 1074 by lia. }
      pose proof (Z.div_mod (Z.pos m) (2 ^ (- e)) ltac:(lia)) as Hdm. pose proof (Z.mod_pos_bound (Z.pos m) (2 ^ (- e)) ltac:(lia)) as Hb.
      assert (0 ≤ Z.pos m / 2 ^ (- e)) by (apply Z.div_pos; lia).
      destruct (Z.eqb_spec (Z.pos m mod 2 ^ (- e)) 0) as [Hz|Hz]; cbn [negb].
      * rewrite to_int_to_float by nia. nia.
      * rewrite to_int_to_float by nia. nia.
Qed.

(** A fraction of an integer does not exceed it. *)
Lemma fraction_le q n : within q 1 → 0 < n < 2 ^ 52 → nn (q * to_float n)%float ∧ fv (q * to_float n)%float ≤ n * 2 ^ 1074.
Proof.
  intros Hq Hn. pose proof (fv_to_float n ltac:(lia)) as Hv. pose proof (nn_to_float n ltac:(lia)) as Hnn.
  pose proof (proj1 (within_spec q 1 eq_refl) Hq) as [Hq0 Hq1]. change (fv 1) with (2 ^ 1074) in Hq1.
  pose proof (fv_bounds q) as Hb. unfold nn in Hnn |- *. rewrite nonneg_spec in Hnn |- *.
  assert (Hinf : n * 2 ^ 1074 < INF).
  { unfold INF. change (2 ^ 2098) with (2 ^ 1024 * 2 ^ 1074). assert (2 ^ 52 < 2 ^ 1024) by done. assert (0 < 2 ^ 1074) by done. nia. }
  destruct (SFmul_rnd (Prim2SF q) (Prim2SF (to_float n))) as [H1 H2];
    [apply FloatAxioms.Prim2SF_valid|apply FloatAxioms.Prim2SF_valid|done|done| | |].
  - unfold fv in *. assert (2 ^ 1074 < INF) by done. lia.
  - unfold fv in *. lia.
  - rewrite <- FloatAxioms.mul_spec in H1, H2. split; [done|]. unfold fv in *. rewrite H2, <- Hv.
    rewrite <- (rnd_sc (Prim2SF (to_float n))) at 2 by apply FloatAxioms.Prim2SF_valid.
    assert (0 < 2 ^ 1074) by done. rewrite Hv. apply rnd_mono; nia.
Qed.

(** The ceiling of a number is at least an integer whose predecessor it exceeds. *)
Lemma ceil_ge y n m : nn y → fv y ≤ n * 2 ^ 1074 → n < 2 ^ 52 → (m - 1) * 2 ^ 1074 < fv y → 0 < m → m ≤ to_int (math_ceil y).
Proof.
  unfold nn. rewrite nonneg_spec. intros Hy Hn Hn' Hm Hm0. assert (Hp : 0 < 2 ^ 1074) by done.
  pose proof (FloatAxioms.Prim2SF_valid y) as Hv. pose proof (fv_bounds y) as Hb0.
  unfold math_ceil, fv in *. destruct (Prim2SF y) as [s|s| |s k e] eqn:Hsf; cbn [nonneg sc] in *; subst; [nia| |done|].
  - exfalso. revert Hn. unfold INF. change (2 ^ 2098) with (2 ^ 1024 * 2 ^ 1074). assert (2 ^ 52 < 2 ^ 1024) by done. nia.
  - cbn [SpecFloat.valid_binary] in Hv. destruct (bounded_spec k e Hv) as [Hc He]. unfold trunc_parts.
    destruct (Z.leb_spec 0 e).
    + unfold to_int. rewrite Hsf. unfold trunc_parts. rewrite (proj2 (Z.leb_le 0 e)) by done. cbn [fst].
      rewrite Z.pow_add_r in Hn, Hm by lia. assert (0 < 2 ^ e) by (apply Z.pow_pos_nonneg; lia).
      rewrite decide_True by (unfold int64, min64, max64; nia). nia.
    + assert (0 < 2 ^ (- e)) by (apply Z.pow_pos_nonneg; lia).
      assert (Hscale : 2 ^ (- e) * 2 ^ (e + 1074) = 2 ^ 1074) by (rewrite <- Z.pow_add_r by lia; f_equal; lia).
      assert (0 < 2 ^ (e + 1074)) by (apply Z.pow_pos_nonneg; lia).
      assert (Hk : (m - 1) * 2 ^ (- e) < Z.pos k ≤ n * 2 ^ (- e)) by nia.
      pose proof (Z.div_mod (Z.pos k) (2 ^ (- e)) ltac:(lia)) as Hdm. pose proof (Z.mod_pos_bound (Z.pos k) (2 ^ (- e)) ltac:(lia)) as Hb.
      assert (0 ≤ Z.pos k / 2 ^ (- e)) by (apply Z.div_pos; lia).
      destruct (Z.eqb_spec (Z.pos k mod 2 ^ (- e)) 0) as [Hz|Hz]; cbn [negb]; rewrite to_int_to_float by nia; nia.
Qed.

(** The ceiling of a fraction of a count, when the fraction leaves a 32nd of room. *)
Lemma ceil_fraction q n m : within q 1 → 0 < n < 2 ^ 47 → 0 < m ≤ n →
  (32 * (m - 1) + 1) * 2 ^ 1069 ≤ fv q * n ≤ m * 2 ^ 1074 → to_int (math_ceil (q * to_float n)) = m.
Proof.
  intros Hq Hn Hm [Hlo Hhi]. destruct (fraction_le q n Hq ltac:(lia)) as [Hnn Hle].
  assert (Hv : fv (q * to_float n)%float = rnd (fv q * n) 1).
  { pose proof (fv_to_float n ltac:(lia)) as Hv. pose proof (nn_to_float n ltac:(lia)) as Hn0. unfold nn in Hn0. rewrite nonneg_spec in Hn0.
    pose proof (proj1 (within_spec q 1 eq_refl) Hq) as [Hq0 Hq1]. change (fv 1) with (2 ^ 1074) in Hq1.
    assert (Hinf : 2 ^ 52 * 2 ^ 1074 < INF) by done. assert (0 < 2 ^ 1074) by done.
    destruct (SFmul_rnd (Prim2SF q) (Prim2SF (to_float n))) as [_ H2];
      [apply FloatAxioms.Prim2SF_valid|apply FloatAxioms.Prim2SF_valid|done|done|unfold fv in *; nia|unfold fv in *; nia|].
    unfold fv at 1. rewrite FloatAxioms.mul_spec, H2. fold (fv q) (fv (to_float n)). rewrite Hv. pose proof (fv_bounds q). apply rnd_ratio; nia. }
  assert (H1 : (32 * (m - 1) + 1) * 2 ^ 1069 ≤ fv (q * to_float n)%float).
  { rewrite Hv, <- (rnd_exact (32 * (m - 1) + 1) 1069) by lia. assert (0 < 2 ^ 1069) by done. apply rnd_mono; nia. }
  assert (H2 : fv (q * to_float n)%float ≤ m * 2 ^ 1074).
  { rewrite Hv, <- (rnd_exact_int m) by lia. pose proof (fv_bounds q). apply rnd_mono; nia. }
  assert (Hstep : 32 * 2 ^ 1069 = 2 ^ 1074) by done. assert (0 < 2 ^ 1069) by done.
  apply Z.le_antisymm; [apply ceil_le; [done|done|lia]|]. apply (ceil_ge _ m); [done|done|lia| |lia].
  clear - H1 Hstep H. nia.
Qed.

(** The nearest ranks of the median and of the 95th percentile. *)
Lemma ceil_half n : 0 < n < 2 ^ 47 → to_int (math_ceil (0.5 * to_float n)) = (n + 1) / 2.
Proof.
  intros Hn. pose proof (Z.div_mod (n + 1) 2 ltac:(done)). pose proof (Z.mod_pos_bound (n + 1) 2 ltac:(done)).
  apply ceil_fraction; [by vm_compute|done|lia|]. change (fv 0.5) with (16 * 2 ^ 1069). change (2 ^ 1074) with (32 * 2 ^ 1069).
  assert (0 < 2 ^ 1069) by done. generalize dependent (2 ^ 1069). intros u Hu. split; nia.
Qed.

Lemma ceil_95 n : 0 < n < 2 ^ 47 → to_int (math_ceil (0.95 * to_float n)) = (19 * n + 19) / 20.
Proof.
  intros Hn. assert (Hv : fv 0.95 * 2 ^ 47 = 4278419646001971 * 2 ^ 1069) by done. assert (32 * 2 ^ 1069 = 2 ^ 1074) by done. assert (0 < 2 ^ 1069) by done.
  pose proof (Z.div_mod (19 * n + 19) 20 ltac:(done)). pose proof (Z.mod_pos_bound (19 * n + 19) 20 ltac:(done)).
  set (m := (19 * n + 19) / 20) in *.
  apply ceil_fraction; [by vm_compute|done|lia|]. revert Hv. generalize (fv 0.95). intros v Hv.
  assert (Hlo : (32 * (m - 1) + 1) * 2 ^ 47 ≤ 4278419646001971 * n) by lia.
  assert (Hhi : 4278419646001971 * n ≤ 32 * m * 2 ^ 47) by lia. split.
  - apply (Z.mul_le_mono_pos_r _ _ (2 ^ 47)); [done|]. nia.
  - apply (Z.mul_le_mono_pos_r _ _ (2 ^ 47)); [done|]. nia.
Qed.
