(* ===== verification/GoFmt.v ===== *)
(** * Built-in [min] and [max] of floats, and the verbs of [fmt.Sprintf]

    [%d] is the decimal rendering of an integer; [%.nf] rounds the exact value of the
    float to [n] decimals, ties to even, as [strconv.FormatFloat] does. *)

From S2P Require Import Prelude GoFloat GoFloatOrder.
From stdpp Require Import pretty.
From stdpp Require Import options.

#[local] Open Scope string_scope.
#[local] Open Scope Z_scope.
#[local] Open Scope list_scope.

(** Built-in [min] and [max]: a NaN wins, and [-0] is below [0]. *)
Definition go_min (x y : float) : float :=
  if negb (x =? x)%float || negb (y =? y)%float then nan
  else if (x =? 0)%float && (x =? y)%float then (if get_sign x then x else y)
  else if (x <? y)%float then x else y.

Definition go_max (x y : float) : float :=
  if negb (x =? x)%float || negb (y =? y)%float then nan
  else if (x =? 0)%float && (x =? y)%float then (if get_sign x then y else x)
  else if (y <? x)%float then x else y.

(** [n / d] to the nearest integer, ties to even. *)
Definition half_even (n d : Z) : Z :=
  let q := n / d in
  match Z.compare (2 * (n mod d)) d with
  | Lt => q
  | Gt => q + 1
  | Eq => if Z.even q then q else q + 1
  end.

Fixpoint zeros (n : nat) : string := match n with O => "" | S n => "0" +:+ zeros n end.

(** The last [prec] digits of [n] behind a point. *)
Definition decimals (prec : nat) (n : Z) : string :=
  let p := 10 ^ Z.of_nat prec in
  let whole := pretty (n / p) in
  match prec with
  | O => whole
  | S _ => let frac := pretty (n mod p) in whole +:+ "." +:+ zeros (prec - String.length frac) +:+ frac
  end.

(** [fmt.Sprintf("%.<prec>f", f)]. *)
Definition fmt_fixed (prec : nat) (f : float) : string :=
  let signed (s : bool) (t : string) := if s then "-" +:+ t else t in
  match Prim2SF f with
  | S754_nan => "NaN"
  | S754_infinity s => if s then "-Inf" else "+Inf"
  | S754_zero s => signed s (decimals prec 0)
  | S754_finite s m e =>
      let p := 10 ^ Z.of_nat prec in
      signed s (decimals prec (if 0 <=? e then Z.pos m * 2 ^ e * p else half_even (Z.pos m * p) (2 ^ (- e))))
  end.

Example fmt_fixed_values :
  map (fmt_fixed 1) [0.05; 0.25; 0.35; 12.04; (-0.01); 1e3; infinity]%float
  = ["0.1"; "0.2"; "0.3"; "12.0"; "-0.0"; "1000.0"; "+Inf"].
Proof. by vm_compute. Qed.

Example fmt_fixed_whole : map (fmt_fixed 0) [0.5; 1.5; 7; 6.99]%float = ["0"; "2"; "7"; "7"].
Proof. by vm_compute. Qed.

(** [min] is below a bound exactly when one of the two is. *)
Lemma go_min_nonneg x y : (0 <=? x)%float = true → (0 <=? y)%float = true → (0 <=? go_min x y)%float = true.
Proof.
  intros Hx Hy. assert (Hn : ∀ z, (0 <=? z)%float = true → (z =? z)%float = true).
  { intros z. rewrite FloatAxioms.leb_spec, FloatAxioms.eqb_spec. unfold SFleb, SFeqb.
    destruct (Prim2SF z) as [s|s| |s m e]; cbn; try done; destruct s; try done.
    by rewrite Z.compare_refl, Pos.compare_cont_refl. }
  unfold go_min. rewrite !Hn by done. cbn. by repeat case_match.
Qed.

Lemma go_min_lt x y b : (0 <=? x)%float = true → (0 <=? y)%float = true → (0 <=? b)%float = true →
  (go_min x y <? b)%float = (x <? b)%float || (y <? b)%float.
Proof.
  intros Hx Hy Hb. assert (Hlt : ∀ u v, (0 <=? u)%float = true → (0 <=? v)%float = true → (u <? v)%float = (fv u <? fv v)).
  { intros u v Hu Hv. apply eq_true_iff_eq. by rewrite fv_lt, Z.ltb_lt by done. }
  pose proof (go_min_nonneg x y Hx Hy) as Hm. revert Hm. unfold go_min.
  destruct (negb (x =? x)%float || negb (y =? y)%float) eqn:Hnan; [by intros|].
  destruct ((x =? 0)%float && (x =? y)%float) eqn:Hz.
  - intros Hm. apply andb_true_iff in Hz as [_ Heq].
    assert (fv x = fv y) as Hfv.
    { revert Heq. rewrite FloatAxioms.eqb_spec. unfold SFeqb, fv. rewrite FloatAxioms.leb_spec in Hx, Hy. revert Hx Hy.
      destruct (Prim2SF x) as [s|s| |s m e], (Prim2SF y) as [s'|s'| |s' m' e']; cbn; try done;
        try destruct s; try destruct s'; try done; intros _ _.
      destruct (Z.compare_spec e e'); try done. change (Pos.compare_cont Eq) with Pos.compare.
      destruct (Pos.compare_spec m m'); try done. by subst. }
    case_match; rewrite !Hlt by done; rewrite Hfv; by rewrite orb_diag.
  - intros _. destruct (x <? y)%float eqn:Hxy; rewrite Hlt in Hxy by done; rewrite !Hlt by done;
      [apply Z.ltb_lt in Hxy|apply Z.ltb_ge in Hxy];
      destruct (Z.ltb_spec (fv x) (fv b)), (Z.ltb_spec (fv y) (fv b)); cbn; try done; lia.
Qed.
