(* ===== verification/Sanitize.v ===== *)
(** * [internal/pkg/sanitize]: masking credentials in SQL text

    The three regular expressions are matched the way package [regexp] does: leftmost,
    each part greedy. The parts of a pattern accept disjoint characters, so there is
    nothing to backtrack. A text is its bytes. *)

From S2P Require Import Prelude.
From stdpp Require Import options.

Abbreviation text := (list Ascii.ascii).

Definition byte (c : Ascii.ascii) : Z := Z.of_nat (Ascii.nat_of_ascii c).
Definition chars : string → text := String.list_ascii_of_string.

(** [\s], [\w] and the word boundary are ASCII classes. *)
Definition is_space (c : Ascii.ascii) : bool := bool_decide (byte c ∈ [9; 10; 12; 13; 32]).
Definition is_word (c : Ascii.ascii) : bool :=
  let b := byte c in
  ((48 <=? b) && (b <=? 57)) || ((65 <=? b) && (b <=? 90)) || ((97 <=? b) && (b <=? 122)) || (b =? 95).

Definition lower (c : Ascii.ascii) : Ascii.ascii :=
  let b := Ascii.nat_of_ascii c in
  if Nat.leb 65 b && Nat.leb b 90 then Ascii.ascii_of_nat (b + 32) else c.

(** A literal under [(?i)]: the rest after it. Beside its two ASCII cases an [s] also
    matches U+017F, the long s. *)
Fixpoint literal_ci (lit s : text) : option text :=
  match lit with
  | [] => Some s
  | l :: lit' =>
      match s with
      | c :: s' =>
          if bool_decide (lower c = l) then literal_ci lit' s'
          else
            match s' with
            | c2 :: s'' =>
                if (byte l =? 115) && (byte c =? 197) && (byte c2 =? 191) then literal_ci lit' s'' else None
            | [] => None
            end
      | [] => None
      end
  end.

Fixpoint skip (p : Ascii.ascii → bool) (s : text) : text :=
  match s with c :: s' => if p c then skip p s' else s | [] => [] end.

(** One character of the class, then as many as there are. *)
Definition some_of (p : Ascii.ascii → bool) (s : text) : option text :=
  match s with c :: s' => if p c then Some (skip p s') else None | [] => None end.

Definition one (b : Z) (s : text) : option text :=
  match s with c :: s' => if byte c =? b then Some s' else None | [] => None end.

Definition quote : Z := 39.
Definition dquote : Z := 34.

(** [\bpassword\s*=\s*([^\s']+)], after the boundary. *)
Definition match_assignment (s : text) : option text :=
  s ← literal_ci (chars "password") s;
  s ← one 61 (skip is_space s);
  some_of (λ c, negb (is_space c || (byte c =? quote))) (skip is_space s).

(** [\bpassword\s+'[^']*'] and the same with double quotes. *)
Definition match_quoted (q : Z) (s : text) : option text :=
  s ← literal_ci (chars "password") s;
  s ← some_of is_space s;
  s ← one q s;
  one q (skip (λ c, negb (byte c =? q)) s).

(** [ReplaceAllString]: [boundary] says that the character before is not a word
    character. Each step takes at least one character, so the length is enough fuel. *)
Fixpoint replace_all (m : text → option text) (repl : text) (fuel : nat) (boundary : bool) (s : text) : text :=
  match fuel, s with
  | O, _ | _, [] => s
  | S fuel, c :: s' =>
      match (if boundary then m s else None) with
      | Some rest =>
          let consumed := take (length s - length rest) s in
          repl ++ replace_all m repl fuel (from_option (λ c, negb (is_word c)) true (last consumed)) rest
      | None => c :: replace_all m repl fuel (negb (is_word c)) s'
      end
  end.

Definition ReplaceAllString (m : text → option text) (repl : string) (s : text) : text :=
  replace_all m (chars repl) (length s) true s.

Definition SQL (s : string) : string :=
  String.string_of_list_ascii
    (ReplaceAllString (match_quoted dquote) "PASSWORD '***'"
      (ReplaceAllString (match_quoted quote) "PASSWORD '***'"
        (ReplaceAllString match_assignment "password=***" (chars s)))).

Definition wrap_quotes (q : Z) (s : string) : string :=
  String (Ascii.ascii_of_nat (Z.to_nat q)) (s +:+ String (Ascii.ascii_of_nat (Z.to_nat q)) "").

Example masks_assignment :
  SQL "CONNECTION 'port=5432 dbname=demo password=demo' PUBLICATION p" =
  "CONNECTION 'port=5432 dbname=demo password=***' PUBLICATION p"%string.
Proof. by vm_compute. Qed.

Example masks_role :
  SQL ("ALTER USER admin PASSWORD " +:+ wrap_quotes dquote "s3cret" +:+ ";") = "ALTER USER admin PASSWORD '***';"%string.
Proof. by vm_compute. Qed.

Example keeps_others : SQL "SELECT mypassword = 1, xpassword 'a'" = "SELECT mypassword = 1, xpassword 'a'"%string.
Proof. by vm_compute. Qed.

(** ** Masking is complete *)

(** A text in which the pattern matches somewhere after a word boundary. *)
Fixpoint occurs (m : text → option text) (boundary : bool) (s : text) : Prop :=
  match s with
  | [] => False
  | c :: s' => (boundary = true ∧ is_Some (m s)) ∨ occurs m (negb (is_word c)) s'
  end.

(** Nothing to mask: the text is kept as it is. *)
Lemma replace_all_absent m repl fuel boundary s :
  ¬ occurs m boundary s → replace_all m repl fuel boundary s = s.
Proof.
  revert boundary s. induction fuel as [|fuel IH]; intros boundary s Hn; [done|].
  destruct s as [|c s]; [done|]. cbn [replace_all occurs] in *.
  destruct boundary; [destruct (m (c :: s)) eqn:Hm; [exfalso; apply Hn; left; by split; [|eexists]|]|];
    f_equal; apply IH; tauto.
Qed.
