(* ===== verification/HotObjects.v ===== *)
(** * [internal/hotobjects]: delta snapshots of hot tables and indexes

    Per-host samples and their stored anchors become a snapshot with an exact top-N per
    activity class and a histogram of the tail ([BuildSnapshot]); [AdvanceQuiet] carries,
    per table, since when no write has been seen. *)

From S2P Require Import Prelude GoFloat.
From stdpp Require Import options.

#[local] Set Warnings "-inexact-float".

(** ** Data *)

(** [Kind] and [Class] are string types. *)
Definition KindTable : string := "t".
Definition KindIndex : string := "i".
Definition ClassReads : string := "reads".
Definition ClassWrites : string := "writes".
Definition ClassIO : string := "io".

Definition TableClasses : list string := [ClassReads; ClassWrites; ClassIO].
Definition IndexClasses : list string := [ClassReads; ClassIO].

Abbreviation Counters := (gmap string Z).

Record AnchorRow := mkAnchorRow {
  ar_Instance : string;
  ar_Kind : string;
  ar_Schema : string;
  ar_Object : string;
  ar_TableName : string;
  ar_CapturedAt : time;
  ar_StatsReset : option time;
  ar_SizeBytes : Z;
  ar_PartSig : string;
  ar_Counters : Counters;
  ar_QuietSince : option time
}.

Record HostWindow := mkHostWindow {
  hw_From : time;
  hw_To : time;
  hw_Complete : bool;
  hw_StatsReset : option time;
  hw_ObservedSince : option time
}.

Record Histogram := mkHistogram {
  Deciles : list float;
  Upper : list float;
  Count : Z;
  Sum : Z;
  Max : Z
}.

Record KindHistogram := mkKindHistogram { kh_Tables : option Histogram; kh_Indexes : option Histogram }.
Record KindRatio := mkKindRatio { kr_Tables : float; kr_Indexes : float }.

Record HostDelta := mkHostDelta { hd_Complete : bool; hd_InRecovery : bool; hd_Delta : Counters }.

Record TopEntry := mkTopEntry {
  te_Rank : Z;
  te_Kind : string;
  te_Class : string;
  te_Schema : string;
  te_Object : string;
  te_TableName : string;
  te_SizeBytes : Z;
  te_Delta : Counters;
  te_PerHost : gmap string HostDelta
}.

Record Snapshot := mkSnapshot {
  ClusterName : string;
  Database : string;
  CapturedAt : time;
  Windows : gmap string HostWindow;
  HostsMissing : list string;
  Coverage : gmap string KindRatio;
  Histograms : gmap string KindHistogram;
  Top : list TopEntry
}.

Record HostSample := mkHostSample {
  hs_Instance : string;
  hs_CapturedAt : time;
  hs_StatsReset : option time;
  hs_InRecovery : bool;
  hs_Rows : list AnchorRow
}.

Record BuildInput := mkBuildInput {
  Sample : HostSample;
  Anchors : gmap string AnchorRow;
  PrevWindow : option HostWindow
}.

Record aggObject := mkAgg {
  ag_kind : string;
  ag_schema : string;
  ag_object : string;
  ag_tableName : string;
  ag_sizeBytes : Z;
  ag_delta : Counters;
  ag_perHost : gmap string HostDelta
}.

(** ** Operations *)

Definition Key (kind schema object : string) : string :=
  kind +:+ ":" +:+ schema +:+ "." +:+ object.

Definition row_key (r : AnchorRow) : string := Key (ar_Kind r) (ar_Schema r) (ar_Object r).

(** [c\[name\]]: a missing counter reads as zero. *)
Definition counter (c : Counters) (name : string) : Z := default 0 (c !! name).

Definition RankKey (kind class : string) (c : Counters) : Z :=
  if decide (kind = KindTable) then
    if decide (class = ClassReads) then counter c "seq_tup_read" ⊞ counter c "idx_tup_fetch"
    else if decide (class = ClassWrites) then
      counter c "n_tup_ins" ⊞ counter c "n_tup_upd" ⊞ counter c "n_tup_del"
    else if decide (class = ClassIO) then
      counter c "heap_blks_read" ⊞ counter c "idx_blks_read" ⊞ counter c "toast_blks_read"
    else 0
  else if decide (kind = KindIndex) then
    if decide (class = ClassReads) then counter c "idx_tup_read"
    else if decide (class = ClassIO) then counter c "idx_blks_read"
    else 0
  else 0.

Definition ClassesFor (kind : string) : list string :=
  if decide (kind = KindIndex) then IndexClasses else TableClasses.

(** The loop of [Delta] over the current counters. *)
Fixpoint delta_loop (prev : Counters) (l : list (string * Z)) (out : Counters) : option Counters :=
  match l with
  | [] => Some out
  | (k, cv) :: l =>
      if cv <? counter prev k then None
      else delta_loop prev l (<[k := cv ⊟ counter prev k]> out)
  end.

Section operations.
Context `{!MapRange}.

(** [None] is the [ok = false] result. *)
Definition Delta (prev cur : Counters) : option Counters :=
  delta_loop prev (map_range "Delta" cur) ∅.

(** The first anchor a [range] meets. *)
Definition any_anchor (site : string) (anchors : gmap string AnchorRow) : option AnchorRow :=
  snd <$> head (map_range site anchors).

Definition epochIntact (site : string) (i : BuildInput) : bool :=
  match any_anchor site (Anchors i) with
  | None => false
  | Some a =>
      match ar_StatsReset a, hs_StatsReset (Sample i) with
      | None, None => true
      | None, Some _ | Some _, None => false
      | Some p, Some c => p =? c
      end
  end.

Definition observedSince (i : BuildInput) (complete : bool) (capturedAt : time) : option time :=
  if hs_InRecovery (Sample i) then None
  else
    match complete, PrevWindow i with
    | true, Some w =>
        match hw_ObservedSince w with Some t => Some t | None => Some capturedAt end
    | _, _ => Some capturedAt
    end.

(** [complete] of one input, as [BuildSnapshot] computes it. *)
Definition input_complete (i : BuildInput) : bool :=
  if decide (Anchors i = ∅) then false else epochIntact "BuildSnapshot.epoch" i.

Definition input_window (capturedAt : time) (i : BuildInput) : HostWindow :=
  let complete := input_complete i in
  mkHostWindow
    (match any_anchor "BuildSnapshot.from" (Anchors i) with
     | Some a => ar_CapturedAt a
     | None => capturedAt
     end)
    (hs_CapturedAt (Sample i)) complete (hs_StatsReset (Sample i))
    (observedSince i complete capturedAt).

Definition new_agg (row : AnchorRow) : aggObject :=
  mkAgg (ar_Kind row) (ar_Schema row) (ar_Object row) (ar_TableName row) 0 ∅ ∅.

Definition add_counters (d delta : Counters) : Counters :=
  foldl (λ acc '(ck, cv), <[ck := counter acc ck ⊞ cv]> acc) delta (map_range "BuildSnapshot.add" d).

(** The delta one sample row contributes: its host's epoch is intact, the object has
    an anchor with the same partition signature, and no counter fell. *)
Definition row_delta (i : BuildInput) (row : AnchorRow) : option Counters :=
  if negb (input_complete i) then None
  else
    match Anchors i !! row_key row with
    | None => None
    | Some anchor =>
        if negb (bool_decide (ar_PartSig anchor = ar_PartSig row)) then None
        else Delta (ar_Counters anchor) (ar_Counters row)
    end.

(** The loop body over one host's rows. *)
Definition agg_row (i : BuildInput) (agg : gmap string aggObject) (row : AnchorRow)
    : gmap string aggObject :=
  let k := row_key row in
  let o := default (new_agg row) (agg !! k) in
  let o := mkAgg (ag_kind o) (ag_schema o) (ag_object o) (ag_tableName o)
             (Z.max (ag_sizeBytes o) (ar_SizeBytes row)) (ag_delta o) (ag_perHost o) in
  match row_delta i row with
  | None => <[k := o]> agg
  | Some d =>
      <[k := mkAgg (ag_kind o) (ag_schema o) (ag_object o) (ag_tableName o) (ag_sizeBytes o)
               (add_counters d (ag_delta o))
               (<[hs_Instance (Sample i) := mkHostDelta true (hs_InRecovery (Sample i)) d]>
                  (ag_perHost o))]> agg
  end.

Definition aggregate (inputs : list BuildInput) : gmap string aggObject :=
  foldl (λ agg i, foldl (agg_row i) agg (hs_Rows (Sample i))) ∅ inputs.

(** *** Ranking *)

Definition ranked_less (a b : aggObject * Z) : bool :=
  if negb (a.2 =? b.2) then b.2 <? a.2
  else str_ltb (ag_schema a.1 +:+ ag_object a.1) (ag_schema b.1 +:+ ag_object b.1).

Definition ranked (site : string) (kind class : string) (agg : gmap string aggObject)
    : list (aggObject * Z) :=
  (λ o, (o, RankKey kind class (ag_delta o))) <$>
    filter (λ o, ag_kind o = kind ∧ ag_perHost o ≠ ∅) ((map_range site agg).*2).

(** [for n > 0 && all\[n-1\].key <= 0 { n-- }] *)
Fixpoint trim_idle (all : list (aggObject * Z)) (n : nat) : nat :=
  match n with
  | O => O
  | S m =>
      match all !! m with
      | Some (_, key) => if key <=? 0 then trim_idle all m else S m
      | None => S m
      end
  end.

Definition top_entry (kind class : string) (i : nat) (r : aggObject * Z) : TopEntry :=
  mkTopEntry (Z.of_nat i + 1) kind class (ag_schema r.1) (ag_object r.1) (ag_tableName r.1)
    (ag_sizeBytes r.1) (ag_delta r.1) (ag_perHost r.1).

Definition hotDecileProbs : list float :=
  [0.1; 0.2; 0.3; 0.4; 0.5; 0.6; 0.7; 0.8; 0.9]%float.
Definition hotUpperProbs : list float := [0.95; 0.99]%float.

Definition quantile_index (n : nat) (p : float) : Z :=
  let idx := Z.max (to_int (math_ceil (p * to_float (Z.of_nat n) - 1e-9)%float)) 1 in
  if Z.of_nat n <? idx then Z.of_nat n else idx.

Definition quantiles (vals probs : list float) : list float :=
  match vals with
  | [] => []
  | _ =>
      let sorted := sort_slice float_less vals in
      (λ p, default 0%float (sorted !! Z.to_nat (quantile_index (length sorted) p - 1))) <$> probs
  end.

Definition deciles (vals : list float) : list float := quantiles vals hotDecileProbs.

Definition is_table (kind : string) : bool := bool_decide (kind = KindTable).

Definition rankClass (kind class : string) (agg : gmap string aggObject) (topN : Z)
    (s : Snapshot) : Snapshot :=
  let all := sort_slice ranked_less (ranked (kind +:+ class) kind class agg) in
  let n := trim_idle all (Z.to_nat (Z.min topN (Z.of_nat (length all)))) in
  let tail := (drop n all).*2 in
  let sumTop := sum64 (take n all).*2 in
  let sumTail := sum64 tail in
  let maxTail := foldl Z.max 0 tail in
  let tailKeys := to_float <$> tail in
  let hist := mkHistogram (deciles tailKeys) (quantiles tailKeys hotUpperProbs)
                (Z.of_nat (length tailKeys)) sumTail maxTail in
  let cov := if 0 <? sumTop ⊞ sumTail then (to_float sumTop / to_float (sumTop ⊞ sumTail))%float
             else 1%float in
  let kh := default (mkKindHistogram None None) (Histograms s !! class) in
  let kr := default (mkKindRatio 0 0) (Coverage s !! class) in
  let kh := if is_table kind then mkKindHistogram (Some hist) (kh_Indexes kh)
            else mkKindHistogram (kh_Tables kh) (Some hist) in
  let kr := if is_table kind then mkKindRatio cov (kr_Indexes kr)
            else mkKindRatio (kr_Tables kr) cov in
  mkSnapshot (ClusterName s) (Database s) (CapturedAt s) (Windows s) (HostsMissing s)
    (<[class := kr]> (Coverage s)) (<[class := kh]> (Histograms s))
    (Top s ++ imap (top_entry kind class) (take n all)).

Definition top_less (a b : TopEntry) : bool :=
  if negb (bool_decide (te_Kind a = te_Kind b)) then str_ltb (te_Kind a) (te_Kind b)
  else if negb (bool_decide (te_Class a = te_Class b)) then str_ltb (te_Class a) (te_Class b)
  else te_Rank a <? te_Rank b.

Definition sortTop (top : list TopEntry) : list TopEntry := sort_slice top_less top.

Definition rank_all (agg : gmap string aggObject) (topN : Z) (s : Snapshot) : Snapshot :=
  foldl (λ s kind, foldl (λ s class, rankClass kind class agg topN s) s (ClassesFor kind))
    s [KindTable; KindIndex].

Definition BuildSnapshot (clusterName database : string) (capturedAt : time)
    (inputs : list BuildInput) (hostsMissing : list string) (topN : Z) : Snapshot :=
  let windows := foldl (λ m i, <[hs_Instance (Sample i) := input_window capturedAt i]> m) ∅ inputs in
  let s0 := mkSnapshot clusterName database capturedAt windows hostsMissing ∅ ∅ [] in
  let s := rank_all (aggregate inputs) topN s0 in
  mkSnapshot (ClusterName s) (Database s) (CapturedAt s) (Windows s) (HostsMissing s)
    (Coverage s) (Histograms s) (sortTop (Top s)).

(** *** Quiet tables *)

Definition quietSince (i : BuildInput) (intact : bool) (row : AnchorRow) (capturedAt : time)
    : option time :=
  match Anchors i !! row_key row with
  | None => Some capturedAt
  | Some anchor =>
      match ar_QuietSince anchor with
      | None => Some capturedAt
      | Some q =>
          if negb intact || negb (bool_decide (ar_PartSig anchor = ar_PartSig row))
          then Some capturedAt
          else
            match Delta (ar_Counters anchor) (ar_Counters row) with
            | None => Some capturedAt
            | Some d => if negb (RankKey KindTable ClassWrites d =? 0) then Some capturedAt else Some q
            end
      end
  end.

Definition set_quiet (row : AnchorRow) (q : option time) : AnchorRow :=
  mkAnchorRow (ar_Instance row) (ar_Kind row) (ar_Schema row) (ar_Object row) (ar_TableName row)
    (ar_CapturedAt row) (ar_StatsReset row) (ar_SizeBytes row) (ar_PartSig row) (ar_Counters row) q.

Definition advance_row (i : BuildInput) (capturedAt : time) (row : AnchorRow) : AnchorRow :=
  set_quiet row
    (if bool_decide (ar_Kind row = KindTable) && negb (hs_InRecovery (Sample i))
     then quietSince i (epochIntact "AdvanceQuiet" i) row capturedAt else None).

Definition AdvanceQuiet (i : BuildInput) (capturedAt : time) : list AnchorRow :=
  advance_row i capturedAt <$> hs_Rows (Sample i).
End operations.

(** *** Percentile of a live value against a stored tail *)

(** The walk over the ladder: the first value strictly above [v]. *)
Fixpoint ladder (v p0 v0 : float) (probs vals : list float) : float :=
  match probs, vals with
  | p :: probs, x :: vals =>
      if (x <=? v)%float then ladder v p x probs vals
      else (p0 + (p - p0) * (v - v0) / (x - v0))%float
  | _, _ => p0
  end.

Definition Percentile (h : option Histogram) (v : float) : float :=
  match h with
  | None => 0%float
  | Some h =>
      if negb (length (Deciles h) =? length hotDecileProbs)%nat || (v <=? 0)%float then 0%float
      else
        let probs := hotDecileProbs in
        let vals := Deciles h in
        let '(probs, vals) :=
          if (length (Upper h) =? length hotUpperProbs)%nat
          then (probs ++ hotUpperProbs, vals ++ Upper h) else (probs, vals) in
        let m := to_float (Max h) in
        let '(probs, vals) :=
          if (default 0%float (last vals) <? m)%float then (probs ++ [1%float], vals ++ [m])
          else (probs, vals) in
        ladder v 0 0 probs vals
  end.

(** ** Cold tables ([cold.go]) *)

Definition ColdAvailable : string := "available".
Definition ColdNoStorage : string := "no_storage".
Definition ColdDisabled : string := "disabled".
Definition ColdStale : string := "stale".
Definition ColdWarmingUp : string := "warming_up".
Definition ColdStandby : string := "standby".
Definition ColdError : string := "error".

Definition ColdMaxAge : duration := 48 * Hour.

Record ColdTable := mkColdTable { ct_Schema : string; ct_Table : string; ct_QuietSince : time; ct_Writes : Z }.

Record ColdSet := mkColdSet {
  cs_Database : string;
  cs_Status : string;
  cs_CapturedAt : time;
  cs_ObservedSince : option time;
  cs_Tables : list ColdTable
}.

Record ColdSets := mkColdSets {
  css_Status : string;
  css_WindowDays : Z;
  css_ByDatabase : gmap string ColdSet
}.

Definition For (c : ColdSets) (database : string) : ColdSet :=
  if negb (bool_decide (css_Status c = "")) then mkColdSet database (css_Status c) zero_time None []
  else
    match css_ByDatabase c !! database with
    | Some set => set
    | None => mkColdSet database ColdStale zero_time None []
    end.

Definition ColdStatusOf (capturedAt : time) (observedSince : option time) (window : duration) : string :=
  match observedSince with
  | None => ColdStandby
  | Some o =>
      if time_after o (time_add capturedAt (- window)) then ColdWarmingUp else ColdAvailable
  end.

(** ** Specification *)

(** Every (host, row) of a capture, in the order [BuildSnapshot] visits them. *)
Definition samples (inputs : list BuildInput) : list (BuildInput * AnchorRow) :=
  concat ((λ i, pair i <$> hs_Rows (Sample i)) <$> inputs).

Section spec.
Context `{!MapRange}.

(** What one row adds to the counter [c] of the object [k]. *)
Definition contribution (k c : string) (s : BuildInput * AnchorRow) : Z :=
  if decide (row_key s.2 = k) then
    match row_delta s.1 s.2 with Some d => counter d c | None => 0 end
  else 0.

(** The breakdown entry one row writes for the host [h] of the object [k]. *)
Definition host_entry (k h : string) (s : BuildInput * AnchorRow) : option HostDelta :=
  if decide (row_key s.2 = k ∧ hs_Instance (Sample s.1) = h)
  then mkHostDelta true (hs_InRecovery (Sample s.1)) <$> row_delta s.1 s.2
  else None.

Definition row_size (k : string) (s : BuildInput * AnchorRow) : Z :=
  if decide (row_key s.2 = k) then ar_SizeBytes s.2 else 0.

(** [agg] is what the samples [ss] say about every object. *)
Definition aggregates (ss : list (BuildInput * AnchorRow)) (agg : gmap string aggObject) : Prop :=
  ∀ k,
    match agg !! k with
    | None => Forall (λ s, row_key s.2 ≠ k) ss
    | Some o =>
        (∃ s, head (filter (λ s, row_key s.2 = k) ss) = Some s ∧
           ag_kind o = ar_Kind s.2 ∧ ag_schema o = ar_Schema s.2 ∧
           ag_object o = ar_Object s.2 ∧ ag_tableName o = ar_TableName s.2) ∧
        ag_sizeBytes o = foldl Z.max 0 (row_size k <$> ss) ∧
        (∀ c, counter (ag_delta o) c = wrap64 (sumZ (contribution k c <$> ss))) ∧
        (∀ h, ag_perHost o !! h = last (omap (host_entry k h) ss))
    end.
End spec.

(** The objects one class ranks, each with its key. *)
Definition measured (kind class : string) (agg : gmap string aggObject) : list (aggObject * Z) :=
  (λ o, (o, RankKey kind class (ag_delta o))) <$>
    filter (λ o, ag_kind o = kind ∧ ag_perHost o ≠ ∅) (map_to_list agg).*2.

Definition write_counters : list string := ["n_tup_ins"; "n_tup_upd"; "n_tup_del"].

(** A sampled row carries the write counters, far from overflow. *)
Definition sane_writes (r : AnchorRow) : Prop :=
  Forall (λ n, ∃ v, ar_Counters r !! n = Some v ∧ 0 ≤ v ≤ 2 ^ 61) write_counters.

Definition same_writes (r r' : AnchorRow) : Prop :=
  Forall (λ n, counter (ar_Counters r) n = counter (ar_Counters r') n) write_counters.

(** The captures of one object on one host: each capture's advanced row is the anchor
    the next one is judged against. *)
Inductive quiet_run `{!MapRange} (k : string) : list (time * AnchorRow) → AnchorRow → Prop :=
| quiet_first i t r :
    r ∈ hs_Rows (Sample i) → row_key r = k → Anchors i !! k = None →
    quiet_run k [(t, r)] (advance_row i t r)
| quiet_next hist a i t r :
    quiet_run k hist a → r ∈ hs_Rows (Sample i) → row_key r = k → Anchors i !! k = Some a →
    quiet_run k (hist ++ [(t, r)]) (advance_row i t r).

Definition dot : Ascii.ascii := Ascii.ascii_of_nat 46.

(** No dot in a name. *)
Fixpoint dot_free (s : string) : bool :=
  match s with
  | "" => true
  | String a s => negb (Ascii.eqb a dot) && dot_free s
  end%string.

(** ** Lemmas: deltas *)

Lemma delta_loop_spec prev l out :
  NoDup l.*1 →
  match delta_loop prev l out with
  | None => ∃ n cv, (n, cv) ∈ l ∧ cv < counter prev n
  | Some d =>
      (∀ n cv, (n, cv) ∈ l → counter prev n ≤ cv) ∧
      ∀ n, d !! n = match (list_to_map l : Counters) !! n with
                    | Some cv => Some (cv ⊟ counter prev n)
                    | None => out !! n
                    end
  end.
Proof.
  revert out. induction l as [|[n0 v0] l IH]; intros out Hnd; simpl.
  { split; [by intros ?? ?%elem_of_nil|done]. }
  apply NoDup_cons in Hnd as [Hn0 Hnd]. destruct (Z.ltb_spec v0 (counter prev n0)).
  { exists n0, v0. by split; [left|]. }
  specialize (IH (<[n0:=v0 ⊟ counter prev n0]> out) Hnd). destruct (delta_loop _ _ _) as [d|].
  - destruct IH as [Hge Hl]. split.
    + intros n cv [[= -> ->]|Hin]%elem_of_cons; [done|by apply Hge].
    + intros n. rewrite Hl. destruct (decide (n = n0)) as [->|Hne].
      * by rewrite not_elem_of_list_to_map_1, !lookup_insert_eq.
      * by rewrite !lookup_insert_ne by done.
  - destruct IH as (n & cv & ? & ?). exists n, cv. by split; [right|].
Qed.

Section delta_lemmas.
Context `{!MapRange}.

Lemma Delta_spec prev cur :
  match Delta prev cur with
  | None => ∃ n cv, cur !! n = Some cv ∧ cv < counter prev n
  | Some d =>
      (∀ n cv, cur !! n = Some cv → counter prev n ≤ cv) ∧
      ∀ n, d !! n = (λ cv, cv ⊟ counter prev n) <$> cur !! n
  end.
Proof.
  unfold Delta.
  pose proof (delta_loop_spec prev (map_range "Delta" cur) ∅ (map_range_nodup _ _)) as Hs.
  destruct (delta_loop _ _ _) as [d|].
  - destruct Hs as [Hge Hl]. split.
    + intros n cv Hn. by apply Hge, elem_of_map_range.
    + intros n. rewrite Hl, map_range_to_map. by destruct (cur !! n).
  - destruct Hs as (n & cv & Hin%elem_of_map_range & ?). by exists n, cv.
Qed.

Lemma add_counters_counter d delta n :
  counter (add_counters d delta) n = match d !! n with
                                     | Some v => counter delta n ⊞ v
                                     | None => counter delta n
                                     end.
Proof.
  unfold counter, add_counters. unfold counter.
  rewrite accumulate_lookup by apply map_range_nodup. rewrite map_range_to_map.
  by destruct (d !! n).
Qed.

(** *** Aggregation *)

Lemma aggregate_flat inputs :
  aggregate inputs = foldl (λ agg s, agg_row s.1 agg s.2) ∅ (samples inputs).
Proof.
  unfold aggregate. generalize (∅ : gmap string aggObject) as agg.
  assert (Hin : ∀ i rows agg, foldl (agg_row i) agg rows =
            foldl (λ agg s, agg_row s.1 agg s.2) agg (pair i <$> rows)).
  { intros i rows. induction rows as [|r rows IH]; intros agg; [done|]. apply IH. }
  induction inputs as [|i inputs IH]; intros agg; [done|].
  unfold samples. rewrite fmap_cons. cbn [concat foldl]. rewrite foldl_app, Hin. apply IH.
Qed.

Lemma agg_row_ne i agg r k : row_key r ≠ k → agg_row i agg r !! k = agg !! k.
Proof. intros. unfold agg_row. destruct (row_delta i r); by rewrite lookup_insert_ne. Qed.

(** The claim of [aggregates] about one object. *)
Definition agg_ok (k : string) (ss : list (BuildInput * AnchorRow)) (o : aggObject) : Prop :=
  ag_sizeBytes o = foldl Z.max 0 (row_size k <$> ss) ∧
  (∀ c, counter (ag_delta o) c = wrap64 (sumZ (contribution k c <$> ss))) ∧
  (∀ h, ag_perHost o !! h = last (omap (host_entry k h) ss)).

Lemma row_size_ne k i r : row_key r ≠ k → row_size k (i, r) = 0.
Proof. intros. unfold row_size. by rewrite decide_False. Qed.

Lemma contribution_ne k c i r : row_key r ≠ k → contribution k c (i, r) = 0.
Proof. intros. unfold contribution. by rewrite decide_False. Qed.

Lemma host_entry_ne k h i r : row_key r ≠ k → host_entry k h (i, r) = None.
Proof. intros. unfold host_entry. by rewrite decide_False by naive_solver. Qed.

Lemma row_size_own i r : row_size (row_key r) (i, r) = ar_SizeBytes r.
Proof. unfold row_size. by rewrite decide_True. Qed.

Lemma contribution_own c i r :
  contribution (row_key r) c (i, r) =
    match row_delta i r with Some d => counter d c | None => 0 end.
Proof. unfold contribution. by rewrite decide_True. Qed.

Lemma host_entry_own h i r :
  host_entry (row_key r) h (i, r) =
    if decide (hs_Instance (Sample i) = h)
    then mkHostDelta true (hs_InRecovery (Sample i)) <$> row_delta i r else None.
Proof. unfold host_entry. by repeat case_decide; naive_solver. Qed.

Lemma agg_ok_new k ss r : Forall (λ s, row_key s.2 ≠ k) ss → agg_ok k ss (new_agg r).
Proof.
  intros Hss. split_and!.
  - induction ss as [|s ss IH] using rev_ind; [done|].
    apply Forall_app in Hss as [Hss Hs]. apply Forall_cons in Hs as [Hs _].
    rewrite fmap_app, foldl_app, <-(IH Hss). destruct s. cbn. by rewrite row_size_ne.
  - intros c. induction Hss as [|[i r'] ss Hs Hss IH]; [done|]. rewrite fmap_cons, sumZ_cons.
    by rewrite contribution_ne.
  - intros h. cbn. rewrite lookup_empty. induction Hss as [|[i r'] ss Hs Hss IH]; [done|].
    cbn. by rewrite host_entry_ne.
Qed.

Lemma foldl_max_nonneg l a : 0 ≤ a → 0 ≤ foldl Z.max a l.
Proof. revert a. induction l as [|x l IH]; intros a Ha; [done|]. cbn. apply IH. lia. Qed.

Lemma agg_ok_other k ss o i r : row_key r ≠ k → agg_ok k ss o → agg_ok k (ss ++ [(i, r)]) o.
Proof.
  intros Hne (Hsz & Hdl & Hph). split_and!.
  - rewrite Hsz, fmap_app, foldl_app. cbn. rewrite row_size_ne by done.
    pose proof (foldl_max_nonneg (row_size k <$> ss) 0). lia.
  - intros c. rewrite Hdl, fmap_app, sumZ_app. cbn. rewrite contribution_ne by done. f_equal. lia.
  - intros h. rewrite Hph, omap_app, last_app. cbn. by rewrite host_entry_ne.
Qed.

(** The object after one more of its rows. *)
Definition agg_object (i : BuildInput) (r : AnchorRow) (o : aggObject) : aggObject :=
  let size := ag_sizeBytes o `max` ar_SizeBytes r in
  match row_delta i r with
  | None => mkAgg (ag_kind o) (ag_schema o) (ag_object o) (ag_tableName o) size
              (ag_delta o) (ag_perHost o)
  | Some d => mkAgg (ag_kind o) (ag_schema o) (ag_object o) (ag_tableName o) size
                (add_counters d (ag_delta o))
                (<[hs_Instance (Sample i) := mkHostDelta true (hs_InRecovery (Sample i)) d]>
                   (ag_perHost o))
  end.

Lemma agg_row_eq i agg r :
  agg_row i agg r = <[row_key r := agg_object i r (default (new_agg r) (agg !! row_key r))]> agg.
Proof. unfold agg_row, agg_object. by destruct (row_delta i r). Qed.

Lemma agg_ok_own ss o i r :
  agg_ok (row_key r) ss o → agg_ok (row_key r) (ss ++ [(i, r)]) (agg_object i r o).
Proof.
  intros (Hsz & Hdl & Hph). unfold agg_object. split_and!.
  - rewrite fmap_app, foldl_app, <-Hsz. cbn. rewrite row_size_own. by destruct (row_delta i r).
  - intros c. rewrite fmap_app, sumZ_app. cbn. rewrite contribution_own, Z.add_0_r.
    destruct (row_delta i r) as [d|]; cbn.
    + rewrite add_counters_counter, Hdl. unfold counter at 1.
      destruct (d !! c); cbn; rewrite ?Z.add_0_r; [|done].
      unfold add64. by rewrite wrap64_add_l.
    + by rewrite Hdl, Z.add_0_r.
  - intros h. rewrite omap_app, last_app. cbn. rewrite host_entry_own.
    destruct (decide (hs_Instance (Sample i) = h)) as [<-|Hh];
      destruct (row_delta i r) as [d|]; cbn; rewrite <-?Hph; try done.
    + by rewrite lookup_insert_eq.
    + by rewrite lookup_insert_ne.
Qed.

Lemma agg_object_ids i r o :
  ag_kind (agg_object i r o) = ag_kind o ∧ ag_schema (agg_object i r o) = ag_schema o ∧
  ag_object (agg_object i r o) = ag_object o ∧ ag_tableName (agg_object i r o) = ag_tableName o.
Proof. unfold agg_object. by destruct (row_delta i r). Qed.

Lemma head_app_Some {A} (l1 l2 : list A) x : head l1 = Some x → head (l1 ++ l2) = Some x.
Proof. by destruct l1. Qed.

Lemma aggregates_step ss agg i r :
  aggregates ss agg → aggregates (ss ++ [(i, r)]) (agg_row i agg r).
Proof.
  intros Hagg k. specialize (Hagg k). rewrite agg_row_eq.
  destruct (decide (row_key r = k)) as [<-|Hne].
  - rewrite lookup_insert_eq.
    destruct (agg_object_ids i r (default (new_agg r) (agg !! row_key r))) as (-> & -> & -> & ->).
    rewrite filter_app, filter_cons_True, filter_nil by done.
    destruct (agg !! row_key r) as [o|]; cbn [default].
    + destruct Hagg as ((s & Hh & Hid) & Hok). split; [|by apply agg_ok_own].
      exists s. split; [by apply head_app_Some|done].
    + split; [|by apply agg_ok_own, agg_ok_new]. exists (i, r). split; [|done].
      by rewrite filter_none.
  - rewrite lookup_insert_ne by done. destruct (agg !! k) as [o|].
    + destruct Hagg as ((s & Hh & Hid) & Hok). split; [|by apply agg_ok_other].
      exists s. split; [|done]. rewrite filter_app. by apply head_app_Some.
    + apply Forall_app. split; [done|]. by constructor.
Qed.
End delta_lemmas.

(** ** Lemmas: ranking *)

#[global] Instance ranked_less_strict : StrictWeak ranked_less.
Proof.
  unfold ranked_less. split.
  - intros [o1 k1] [o2 k2]. cbn. intros.
    destruct (Z.eqb_spec k1 k2), (Z.eqb_spec k2 k1); cbn in *; try lia; eauto using str_ltb_asym.
  - intros [o1 k1] [o2 k2] [o3 k3]. cbn. intros.
    destruct (Z.eqb_spec k1 k2), (Z.eqb_spec k2 k3), (Z.eqb_spec k1 k3); cbn in *; try lia;
      eauto using str_ltb_neg_trans.
Qed.

Lemma not_ranked_less_key a b : not_less ranked_less a b → b.2 ≤ a.2.
Proof.
  unfold not_less, ranked_less. destruct (Z.eqb_spec b.2 a.2); cbn; lia.
Qed.

Lemma trim_idle_spec all n :
  StronglySorted (λ a b, b.2 ≤ a.2) all → (n ≤ length all)%nat →
  (trim_idle all n ≤ n)%nat ∧
  Forall (λ r, 0 < r.2) (take (trim_idle all n) all) ∧
  (trim_idle all n = n ∨ Forall (λ r, r.2 ≤ 0) (drop (trim_idle all n) all)).
Proof.
  intros Hs. induction n as [|n IH]; intros Hn; cbn [trim_idle].
  { split_and!; [done|constructor|by left]. }
  destruct (lookup_lt_is_Some_2 all n ltac:(lia)) as [[o key] Hn']. rewrite Hn'.
  destruct (Z.leb_spec key 0).
  - destruct (IH ltac:(lia)) as (Hle & Htop & Hrest). split_and!; [lia|done|]. right.
    destruct Hrest as [->|?]; [|done]. apply list.Forall_forall. intros r Hr.
    apply list_elem_of_lookup in Hr as [j Hj]. rewrite lookup_drop in Hj.
    destruct (decide (j = 0%nat)) as [->|].
    + rewrite Nat.add_0_r, Hn' in Hj. by simplify_eq/=.
    + pose proof (StronglySorted_lookup _ _ n (n + j) _ _ Hs Hn' Hj ltac:(lia)) as Hle'. cbn in Hle'. lia.
  - split_and!; [done| |by left]. apply list.Forall_forall. intros r Hr.
    apply list_elem_of_lookup in Hr as [j Hj]. apply lookup_take_Some in Hj as [Hj Hlt].
    destruct (decide (j = n)) as [->|]; [rewrite Hn' in Hj; by simplify_eq/=|].
    pose proof (StronglySorted_lookup _ _ j n _ _ Hs Hj Hn' ltac:(lia)) as Hle'. cbn in Hle'. lia.
Qed.

Section ranking.
Context `{!MapRange}.

Lemma ranked_measured site kind class agg :
  ranked site kind class agg ≡ₚ measured kind class agg.
Proof. unfold ranked, measured. by rewrite (map_range_perm site agg). Qed.

Lemma quantile_index_bounds n p : (0 < n)%nat → 1 ≤ quantile_index n p ≤ Z.of_nat n.
Proof. intros. unfold quantile_index. case_match; lia. Qed.
End ranking.

(** ** Lemmas: quiet tables *)

Section quiet_lemmas.
Context `{!MapRange}.

Lemma quiet_run_last k hist a :
  quiet_run k hist a →
  ∃ t r, last hist = Some (t, r) ∧ ar_Counters a = ar_Counters r.
Proof.
  destruct 1 as [i t r|hist a i t r]; exists t, r; [done|]. by rewrite last_snoc.
Qed.

(** No write between two rows whose write delta is zero. *)
Lemma zero_writes_same prev cur d :
  sane_writes prev → sane_writes cur →
  Delta (ar_Counters prev) (ar_Counters cur) = Some d →
  RankKey KindTable ClassWrites d = 0 → same_writes prev cur.
Proof.
  intros Hp Hc Hd Hzero. pose proof (Delta_spec (ar_Counters prev) (ar_Counters cur)) as Hs.
  rewrite Hd in Hs. destruct Hs as [Hge Hl].
  assert (Hone : ∀ n, n ∈ write_counters →
    counter d n = counter (ar_Counters cur) n - counter (ar_Counters prev) n ∧
    0 ≤ counter d n ≤ 2 ^ 61).
  { intros n Hn. unfold sane_writes in Hp, Hc. rewrite list.Forall_forall in Hp, Hc.
    destruct (Hp n Hn) as (v & Hv & ?), (Hc n Hn) as (w & Hw & ?).
    specialize (Hge n w Hw). specialize (Hl n). rewrite Hw in Hl.
    unfold counter in *. rewrite Hv in *. rewrite Hw, Hl. cbn in *.
    rewrite sub64_small by (unfold int64, min64, max64; lia). lia. }
  destruct (Hone "n_tup_ins" ltac:(set_solver)) as [W1 ?].
  destruct (Hone "n_tup_upd" ltac:(set_solver)) as [W2 ?].
  destruct (Hone "n_tup_del" ltac:(set_solver)) as [W3 ?].
  change (counter d "n_tup_ins" ⊞ counter d "n_tup_upd" ⊞ counter d "n_tup_del" = 0) in Hzero.
  rewrite (add64_small (counter d "n_tup_ins")) in Hzero by (unfold int64, min64, max64; lia).
  rewrite add64_small in Hzero by (unfold int64, min64, max64; lia).
  unfold same_writes, write_counters. repeat constructor; lia.
Qed.

Lemma quietSince_carried i intact r t q :
  quietSince i intact r t = Some q →
  q = t ∨ ∃ a d, Anchors i !! row_key r = Some a ∧ ar_QuietSince a = Some q ∧
    intact = true ∧ ar_PartSig a = ar_PartSig r ∧
    Delta (ar_Counters a) (ar_Counters r) = Some d ∧ RankKey KindTable ClassWrites d = 0.
Proof.
  unfold quietSince. destruct (Anchors i !! row_key r) as [a|]; [|intros [= ->]; by left].
  destruct (ar_QuietSince a) as [q'|] eqn:Eq; [|intros [= ->]; by left].
  destruct intact; cbn; [|intros [= ->]; by left].
  case_bool_decide; cbn; [|intros [= ->]; by left].
  destruct (Delta _ _) as [d|] eqn:Ed; [|intros [= ->]; by left].
  destruct (Z.eqb_spec (RankKey KindTable ClassWrites d) 0); cbn; intros [= ->]; [|by left].
  right. by exists a, d.
Qed.

Lemma same_writes_trans a b c : same_writes a b → same_writes b c → same_writes a c.
Proof.
  unfold same_writes. rewrite !list.Forall_forall. intros Hab Hbc n Hn. by rewrite Hab, Hbc.
Qed.

Lemma advance_row_quiet i t r q :
  ar_QuietSince (advance_row i t r) = Some q →
  quietSince i (epochIntact "AdvanceQuiet" i) r t = Some q.
Proof. unfold advance_row. cbn. by case_match. Qed.
End quiet_lemmas.

(** ** Lemmas: keys *)

Lemma dot_free_append s t o u :
  dot_free s = true → dot_free t = true →
  s +:+ String dot o = t +:+ String dot u → s = t ∧ o = u.
Proof.
  revert t. induction s as [|a s IH]; intros t Hs Ht Heq.
  - destruct t as [|b t]; [by injection Heq|]. exfalso. cbn in *. injection Heq as <- _.
    apply andb_true_iff in Ht as [Ht _]. done.
  - destruct t as [|b t].
    + exfalso. cbn in *. injection Heq as -> _. apply andb_true_iff in Hs as [Hs _]. done.
    + cbn in *. injection Heq as -> Heq. apply andb_true_iff in Hs as [_ Hs], Ht as [_ Ht].
      destruct (IH t Hs Ht Heq) as [-> ->]. done.
Qed.

(** ** Independence of the map order *)

(** Anchors of one host and database are written together: they share their capture
    time and statistics epoch. *)
Definition uniform_anchors (i : BuildInput) : Prop :=
  ∀ k1 k2 a1 a2, Anchors i !! k1 = Some a1 → Anchors i !! k2 = Some a2 →
    ar_CapturedAt a1 = ar_CapturedAt a2 ∧ ar_StatsReset a1 = ar_StatsReset a2.

(** No two ranked objects of a kind concatenate to the same name. *)
Definition separated (agg : gmap string aggObject) : Prop :=
  ∀ k1 k2 o1 o2, agg !! k1 = Some o1 → agg !! k2 = Some o2 → ag_kind o1 = ag_kind o2 →
    ag_schema o1 +:+ ag_object o1 = ag_schema o2 +:+ ag_object o2 → o1 = o2.

Section order.
Context (R1 R2 : MapRange).

Lemma Delta_order prev cur : @Delta R1 prev cur = @Delta R2 prev cur.
Proof.
  pose proof (@Delta_spec R1 prev cur) as H1. pose proof (@Delta_spec R2 prev cur) as H2.
  destruct (@Delta R1 prev cur) as [d1|], (@Delta R2 prev cur) as [d2|]; [| | |done].
  - destruct H1 as [_ H1], H2 as [_ H2]. f_equal. apply map_eq. intros n. by rewrite H1, H2.
  - destruct H1 as [H1 _], H2 as (n & cv & Hn & ?). specialize (H1 n cv Hn). lia.
  - destruct H2 as [H2 _], H1 as (n & cv & Hn & ?). specialize (H2 n cv Hn). lia.
Qed.

Lemma any_anchor_order s1 s2 i :
  uniform_anchors i →
  match @any_anchor R1 s1 (Anchors i), @any_anchor R2 s2 (Anchors i) with
  | Some a1, Some a2 => ar_CapturedAt a1 = ar_CapturedAt a2 ∧ ar_StatsReset a1 = ar_StatsReset a2
  | None, None => True
  | _, _ => False
  end.
Proof.
  intros Hu. unfold any_anchor.
  pose proof (@map_range_perm R1 _ _ _ _ s1 (Anchors i)) as P1.
  pose proof (@map_range_perm R2 _ _ _ _ s2 (Anchors i)) as P2.
  destruct (@map_range R1 _ _ _ _ s1 (Anchors i)) as [|[k1 a1] l1] eqn:E1,
    (@map_range R2 _ _ _ _ s2 (Anchors i)) as [|[k2 a2] l2] eqn:E2; cbn; [done| | |].
  - rewrite <-P2 in P1. by apply Permutation_nil_cons in P1.
  - rewrite <-P1 in P2. by apply Permutation_nil_cons in P2.
  - apply (Hu k1 k2).
    + apply (@elem_of_map_range R1 _ _ _ _ s1). rewrite E1. by left.
    + apply (@elem_of_map_range R2 _ _ _ _ s2). rewrite E2. by left.
Qed.

Lemma epochIntact_order s1 s2 i :
  uniform_anchors i → @epochIntact R1 s1 i = @epochIntact R2 s2 i.
Proof.
  intros Hu. pose proof (any_anchor_order s1 s2 i Hu) as Ha. unfold epochIntact.
  destruct (@any_anchor R1 s1 _), (@any_anchor R2 s2 _); try done. by destruct Ha as [_ ->].
Qed.

Lemma input_complete_order i : uniform_anchors i → @input_complete R1 i = @input_complete R2 i.
Proof. intros Hu. unfold input_complete. case_decide; [done|]. by apply epochIntact_order. Qed.

Lemma input_window_order t i : uniform_anchors i → @input_window R1 t i = @input_window R2 t i.
Proof.
  intros Hu. unfold input_window. rewrite (input_complete_order i Hu).
  pose proof (any_anchor_order "BuildSnapshot.from" "BuildSnapshot.from" i Hu) as Ha.
  destruct (@any_anchor R1 _ _), (@any_anchor R2 _ _); try done. by destruct Ha as [-> _].
Qed.

Lemma add_counters_order d delta : @add_counters R1 d delta = @add_counters R2 d delta.
Proof.
  unfold add_counters, counter. apply map_eq. intros n.
  by rewrite !accumulate_lookup, !map_range_to_map by apply map_range_nodup.
Qed.

Lemma agg_row_order i agg r : uniform_anchors i → @agg_row R1 i agg r = @agg_row R2 i agg r.
Proof.
  intros Hu. assert (Hd : @row_delta R1 i r = @row_delta R2 i r).
  { unfold row_delta. rewrite (input_complete_order i Hu). case_match; [done|].
    destruct (Anchors i !! row_key r); [|done]. case_match; [done|]. apply Delta_order. }
  unfold agg_row. rewrite Hd. destruct (@row_delta R2 i r); [|done]. by rewrite add_counters_order.
Qed.

Lemma aggregate_order inputs :
  Forall uniform_anchors inputs → @aggregate R1 inputs = @aggregate R2 inputs.
Proof.
  unfold aggregate. generalize (∅ : gmap string aggObject) as agg. intros agg Hu. revert agg.
  induction Hu as [|i inputs Hi Hu IH]; intros agg; [done|]. cbn.
  rewrite (foldl_ext_fun _ (@agg_row R2 i)); [apply IH|]. intros. by apply agg_row_order.
Qed.

Lemma rankClass_order kind class agg topN s :
  separated agg → @rankClass R1 kind class agg topN s = @rankClass R2 kind class agg topN s.
Proof.
  intros Hsep. unfold rankClass.
  assert (Heq : sort_slice ranked_less (@ranked R1 (kind +:+ class) kind class agg) =
                sort_slice ranked_less (@ranked R2 (kind +:+ class) kind class agg)).
  { apply (@sort_slice_unique _ ranked_less ranked_less_strict); [by rewrite (@ranked_measured R1), (@ranked_measured R2)|].
    intros x y. rewrite !(@ranked_measured R1). unfold measured.
    intros (o1 & -> & H1)%list_elem_of_fmap (o2 & -> & H2)%list_elem_of_fmap Hxy Hyx.
    apply list_elem_of_filter in H1 as [[Hk1 _] H1], H2 as [[Hk2 _] H2].
    apply list_elem_of_fmap in H1 as ([k1 o1'] & -> & H1%elem_of_map_to_list).
    apply list_elem_of_fmap in H2 as ([k2 o2'] & -> & H2%elem_of_map_to_list). cbn in *.
    unfold ranked_less in Hxy, Hyx. cbn in *.
    destruct (Z.eqb_spec (RankKey kind class (ag_delta o1')) (RankKey kind class (ag_delta o2')));
      destruct (Z.eqb_spec (RankKey kind class (ag_delta o2')) (RankKey kind class (ag_delta o1')));
      cbn in *; try lia.
    assert (o1' = o2') as ->; [|done].
    apply (Hsep k1 k2); [done..|congruence|by apply str_ltb_antisym]. }
  by rewrite Heq.
Qed.
End order.

(** *** What a row has counted since its anchor *)

(** Whether the row has a delta, and which, read off the sample and the anchors. *)
Definition comparable (i : BuildInput) (row a : AnchorRow) : Prop :=
  Anchors i !! Key (ar_Kind row) (ar_Schema row) (ar_Object row) = Some a ∧ ar_StatsReset a = hs_StatsReset (Sample i) ∧
  ar_PartSig a = ar_PartSig row ∧ ∀ n v, ar_Counters row !! n = Some v → counter (ar_Counters a) n ≤ v.

Definition row_measured (i : BuildInput) (row : AnchorRow) (d : option Counters) : Prop :=
  match d with
  | None => ∀ a, ¬ comparable i row a
  | Some d => ∃ a, comparable i row a ∧ ∀ n, d !! n = (λ v, v ⊟ counter (ar_Counters a) n) <$> ar_Counters row !! n
  end.

Lemma row_delta_measured `{!MapRange} i row : uniform_anchors i → row_measured i row (row_delta i row).
Proof.
  intros Hu. unfold row_delta, row_key. set (k := Key _ _ _).
  assert (Hepoch : ∀ a, Anchors i !! k = Some a → input_complete i = bool_decide (ar_StatsReset a = hs_StatsReset (Sample i))).
  { intros a Ha. unfold input_complete. rewrite decide_False by (intros He; by rewrite He in Ha). unfold epochIntact, any_anchor.
    destruct (map_range _ (Anchors i)) as [|[k' a'] l] eqn:Hr.
    - exfalso. assert (Hin : (k, a) ∈ map_range "BuildSnapshot.epoch" (Anchors i)) by by apply elem_of_map_range.
      rewrite Hr in Hin. by apply not_elem_of_nil in Hin.
    - assert (Hin : (k', a') ∈ map_range "BuildSnapshot.epoch" (Anchors i)) by (rewrite Hr; by left).
      apply elem_of_map_range in Hin. cbn [head fmap option_fmap option_map snd]. destruct (Hu k' k a' a Hin Ha) as [_ ->].
      destruct (ar_StatsReset a) as [p|], (hs_StatsReset (Sample i)) as [c|]; cbn; try done.
      destruct (Z.eqb_spec p c) as [->|Hne]; symmetry; [by apply bool_decide_eq_true_2|apply bool_decide_eq_false_2; congruence]. }
  destruct (Anchors i !! k) as [a|] eqn:Ha.
  2:{ assert (Hnone : row_measured i row None) by (intros a [Ha' _]; unfold k in Ha; congruence).
      by destruct (negb (input_complete i)). }
  rewrite (Hepoch a eq_refl). assert (Hone : ∀ a', comparable i row a' → a' = a) by (intros a' [Ha' _]; unfold k in Ha; congruence).
  destruct (bool_decide (ar_StatsReset a = _)) eqn:Hr; cbn [negb].
  2:{ apply bool_decide_eq_false in Hr. intros a' Hc. rewrite (Hone a' Hc) in Hc. by destruct Hc as (_ & ? & _). }
  apply bool_decide_eq_true in Hr. destruct (bool_decide (ar_PartSig a = _)) eqn:Hs; cbn [negb].
  2:{ apply bool_decide_eq_false in Hs. intros a' Hc. rewrite (Hone a' Hc) in Hc. by destruct Hc as (_ & _ & ? & _). }
  apply bool_decide_eq_true in Hs. pose proof (Delta_spec (ar_Counters a) (ar_Counters row)) as Hd.
  destruct (Delta _ _) as [d|]; cbn [row_measured].
  - destruct Hd as [Hge Hl]. exists a. split; [|done]. by split_and!.
  - destruct Hd as (n & v & Hn & Hlt). intros a' Hc. rewrite (Hone a' Hc) in Hc. destruct Hc as (_ & _ & _ & Hc). specialize (Hc n v Hn). lia.
Qed.

Lemma samples_input inputs i r : (i, r) ∈ samples inputs → i ∈ inputs.
Proof.
  unfold samples. rewrite list_elem_of_In, in_concat. intros (l & Hl & Hin). apply list_elem_of_In, list_elem_of_fmap in Hl as (i' & -> & Hi).
  apply list_elem_of_In, list_elem_of_fmap in Hin as (r' & [= -> ->] & _). done.
Qed.

Lemma filter_zip_fmap {A B} (P : A → Prop) `{!∀ x, Decision (P x)} (f : A → B) l :
  filter (λ p, P p.1) (zip l (f <$> l)) = (λ x, (x, f x)) <$> filter P l.
Proof. induction l as [|x l IH]; [done|]. cbn [fmap list_fmap zip zip_with]. rewrite !filter_cons. cbn [fst]. case_decide; cbn; by rewrite <- IH. Qed.

Section rows_of_key.
Context `{!MapRange} (k : string).
Local Notation rows ss := ((λ s, (s, row_delta s.1 s.2)) <$> filter (λ s, row_key s.2 = k) ss).

Lemma sizes_of_key ss : foldl Z.max 0 (row_size k <$> ss) = foldl Z.max 0 ((λ p, ar_SizeBytes p.1.2) <$> rows ss).
Proof.
  assert (H0 : 0 ≤ 0) by done. revert H0. generalize 0 at 2 3 4. induction ss as [|[i r] ss IH]; intros z Hz; [done|].
  rewrite fmap_cons, filter_cons. cbn [foldl]. destruct (decide (row_key r = k)) as [Hk|Hk].
  - assert (Hs : row_size k (i, r) = ar_SizeBytes r) by (rewrite <- Hk; apply row_size_own). rewrite Hs, decide_True by done.
    rewrite fmap_cons. cbn [foldl fst snd fmap list_fmap]. apply IH. lia.
  - rewrite row_size_ne, Z.max_l, decide_False by done. by apply IH.
Qed.

Lemma contributions_of_key c ss : sumZ (contribution k c <$> ss) = sumZ ((λ d, counter d c) <$> omap snd (rows ss)).
Proof.
  induction ss as [|[i r] ss IH]; [done|]. rewrite fmap_cons, sumZ_cons, IH, filter_cons. unfold contribution at 1. cbn [fst snd]. case_decide; [|done].
  rewrite fmap_cons. cbn [omap list_omap snd fst]. destruct (row_delta i r) as [d|]; [|done]. by rewrite fmap_cons, sumZ_cons.
Qed.

Lemma entries_of_key h ss : last (omap (host_entry k h) ss) =
  last (omap (λ p : BuildInput * AnchorRow * option Counters, mkHostDelta true (hs_InRecovery (Sample p.1.1)) <$> p.2)
    (filter (λ p, hs_Instance (Sample p.1.1) = h) (rows ss))).
Proof.
  apply (f_equal last). induction ss as [|[i r] ss IH]; [done|]. rewrite filter_cons. cbn [omap list_omap]. rewrite IH. unfold host_entry at 1. cbn [fst snd].
  destruct (decide (row_key r = k)) as [Hk|Hk].
  - rewrite fmap_cons, filter_cons. cbn [fst snd]. destruct (decide (hs_Instance (Sample i) = h)) as [Hh|Hh].
    + rewrite decide_True by done. cbn [omap list_omap fst snd]. by destruct (row_delta i r).
    + by rewrite decide_False by naive_solver.
  - by rewrite decide_False by naive_solver.
Qed.
End rows_of_key.

Lemma aggregates_all `{!MapRange} inputs : aggregates (samples inputs) (aggregate inputs).
Proof.
  rewrite aggregate_flat. induction (samples inputs) as [|[i r] ss IH] using rev_ind.
  - intros k. cbn. rewrite lookup_empty. constructor.
  - rewrite foldl_app. cbn [foldl]. by apply aggregates_step.
Qed.

(** ** Properties *)

Section properties.
Context `{!MapRange}.

(** [Delta] measures an interval iff no current counter is below its previous value
    (a counter the anchor lacks counts as zero); the result has exactly the current
    counters, each the exact difference. *)
Theorem counter_Delta_correct prev cur :
  (is_Some (Delta prev cur) ↔ ∀ n v, cur !! n = Some v → counter prev n ≤ v) ∧
  ∀ d, Delta prev cur = Some d →
    (∀ n, d !! n = (λ v, v ⊟ counter prev n) <$> cur !! n) ∧
    (∀ n v, cur !! n = Some v → 0 ≤ counter prev n → v ≤ max64 →
       counter d n = v - counter prev n ∧ 0 ≤ counter d n).
Proof.
  pose proof (Delta_spec prev cur) as Hs. split.
  - destruct (Delta prev cur) as [d|].
    + destruct Hs as [Hge _]. split; [done|]. by eexists.
    + destruct Hs as (n & v & Hn & Hlt). split; [by intros [? ?]|].
      intros Hge. specialize (Hge n v Hn). lia.
  - intros d Hd. rewrite Hd in Hs. destruct Hs as [Hge Hl]. split; [done|].
    intros n v Hn ??. specialize (Hge n v Hn). unfold counter at 1 3. rewrite Hl, Hn. cbn.
    rewrite sub64_small; [lia|]. unfold int64, min64, max64 in *. lia.
Qed.

(** C3: the loop of [BuildSnapshot] over every host's rows, when the anchors of a host share the
    epoch they were taken in. A row has a delta exactly when its object has an anchor on that host of the
    epoch of the sample, with the same set of partitions, above which no counter of the row lies;
    and the delta is then the exact difference of every counter of the row. Each object has the identity
    of its first row, the size of its largest copy, the 64-bit sum of the deltas of its rows, and
    the breakdown by host of the rows that have one. *)
Theorem aggregate_correct inputs : Forall uniform_anchors inputs →
  ∃ deltas, Forall2 (λ s d, row_measured s.1 s.2 d) (samples inputs) deltas ∧
  ∀ k,
    let rows := filter (λ p, row_key p.1.2 = k) (zip (samples inputs) deltas) in
    match aggregate inputs !! k with
    | None => rows = []
    | Some o =>
        (∃ s d, head rows = Some (s, d) ∧ ag_kind o = ar_Kind s.2 ∧ ag_schema o = ar_Schema s.2 ∧
           ag_object o = ar_Object s.2 ∧ ag_tableName o = ar_TableName s.2) ∧
        ag_sizeBytes o = foldl Z.max 0 ((λ p, ar_SizeBytes p.1.2) <$> rows) ∧
        (∀ c, counter (ag_delta o) c = wrap64 (sumZ ((λ d, counter d c) <$> omap snd rows))) ∧
        (∀ h, ag_perHost o !! h = last (omap (λ p, mkHostDelta true (hs_InRecovery (Sample p.1.1)) <$> p.2)
           (filter (λ p, hs_Instance (Sample p.1.1) = h) rows)))
    end.
Proof.
  intros Hu. exists ((λ s, row_delta s.1 s.2) <$> samples inputs). split.
  - apply Forall2_fmap_r, Forall_Forall2_diag, list.Forall_forall. intros [i r] Hs. cbn [fst snd].
    apply row_delta_measured. rewrite list.Forall_forall in Hu. apply Hu. by eapply samples_input.
  - intros k rows. pose proof (aggregates_all inputs k) as Ha.
    assert (Hrows : rows = (λ s, (s, row_delta s.1 s.2)) <$> filter (λ s, row_key s.2 = k) (samples inputs)).
    { exact (filter_zip_fmap (λ s : BuildInput * AnchorRow, row_key s.2 = k) (λ s, row_delta s.1 s.2) (samples inputs)). }
    clearbody rows. subst rows. destruct (aggregate inputs !! k) as [o|].
    + destruct Ha as ((s & Hh & Hid) & Hsz & Hd & Hp). split_and!.
      * exists s, (row_delta s.1 s.2). split; [|done]. destruct (filter _ (samples inputs)); [done|]. by injection Hh as ->.
      * rewrite Hsz. apply sizes_of_key.
      * intros c. rewrite Hd. apply (f_equal wrap64), contributions_of_key.
      * intros h. rewrite Hp. apply entries_of_key.
    + rewrite filter_none; [done|]. by rewrite list.Forall_forall in Ha |- *.
Qed.

(** [rankClass] ranks exactly the measured objects of the kind: the entries it
    appends are the [n] hottest in descending order, numbered from 1, all with a
    positive key and at most [topN]; whatever is left out is idle or the top is full,
    and is no hotter than any entry; the histogram counts and sums exactly the rest. *)
Theorem rankClass_correct kind class agg topN s :
  ∃ all n hist,
    let s' := rankClass kind class agg topN s in
    all ≡ₚ measured kind class agg ∧
    StronglySorted (λ a b, b.2 ≤ a.2) all ∧
    Top s' = Top s ++ imap (top_entry kind class) (take n all) ∧
    Z.of_nat n ≤ Z.max 0 topN ∧ Forall (λ r, 0 < r.2) (take n all) ∧
    (Z.of_nat n = Z.max 0 topN ∨ Forall (λ r, r.2 ≤ 0) (drop n all)) ∧
    (if is_table kind then kh_Tables <$> Histograms s' !! class
     else kh_Indexes <$> Histograms s' !! class) = Some (Some hist) ∧
    Count hist = Z.of_nat (length (drop n all)) ∧
    Sum hist = wrap64 (sumZ (drop n all).*2) ∧
    (∀ c, c ≠ class → Histograms s' !! c = Histograms s !! c ∧ Coverage s' !! c = Coverage s !! c).
Proof.
  set (all := sort_slice ranked_less (ranked (kind +:+ class) kind class agg)).
  set (n0 := Z.to_nat (Z.min topN (Z.of_nat (length all)))).
  assert (Hs : StronglySorted (λ a b : aggObject * Z, b.2 ≤ a.2) all).
  { eapply StronglySorted_impl_in; [|apply sort_slice_sorted, _].
    intros x y _ _. apply not_ranked_less_key. }
  destruct (trim_idle_spec all n0 Hs ltac:(lia)) as (Hle & Htop & Hrest).
  exists all, (trim_idle all n0). eexists. cbn zeta. split_and!.
  - unfold all. by rewrite sort_slice_perm, ranked_measured.
  - done.
  - done.
  - lia.
  - done.
  - destruct Hrest as [->|?]; [|by right]. destruct (Z.le_gt_cases topN (Z.of_nat (length all))).
    + left. lia.
    + right. rewrite drop_ge by lia. constructor.
  - unfold rankClass. cbn. rewrite !lookup_insert_eq. destruct (is_table kind); reflexivity.
  - cbn. by rewrite !length_fmap.
  - cbn. by rewrite sum64_wrap.
  - intros c Hc. cbn. by rewrite !lookup_insert_ne.
Qed.

(** [QuietSince] is sound. Along the captures of one object on one host, if the
    advanced row says quiet since [q], then some capture was taken at [q] and no
    capture after it saw a single insert, update or delete on top of that one. *)
Theorem QuietSince_sound k hist a q :
  quiet_run k hist a → Forall (λ tr, sane_writes tr.2) hist →
  ar_QuietSince a = Some q →
  ∃ h1 r0 h2, hist = h1 ++ (q, r0) :: h2 ∧ Forall (λ tr, same_writes r0 tr.2) h2.
Proof.
  intros Hrun. revert q. induction Hrun as [i t r Hin Hk Hno|hist a i t r Hrun IH Hin Hk Ha];
    intros q Hsane Hq; apply advance_row_quiet, quietSince_carried in Hq.
  - destruct Hq as [->|(a & d & Ha & _)]; [|congruence]. by exists [], r, [].
  - apply Forall_app in Hsane as [Hsane Hr]. apply Forall_cons in Hr as [Hr _].
    destruct Hq as [->|(a' & d & Ha' & Hq & _ & _ & Hd & Hz)]; [by exists hist, r, []|].
    rewrite Hk, Ha in Ha'. injection Ha' as <-.
    destruct (IH q Hsane Hq) as (h1 & r0 & h2 & -> & Hsame).
    exists h1, r0, (h2 ++ [(t, r)]). rewrite <-app_assoc. split; [done|].
    apply Forall_app. split; [done|]. constructor; [|done]. cbn.
    destruct (quiet_run_last _ _ _ Hrun) as (t' & r' & Hlast & Hc). rewrite Hc in Hd.
    rewrite last_app_cons, last_cons in Hlast. destruct (last h2) as [[t2 r2]|] eqn:Hl2.
    + injection Hlast as -> ->. apply last_Some_elem_of in Hl2.
      rewrite list.Forall_forall in Hsame, Hsane.
      apply (same_writes_trans _ r'); [apply (Hsame _ Hl2)|].
      eapply zero_writes_same; [apply (Hsane (t', r')); set_solver|done..].
    + injection Hlast as -> ->. rewrite list.Forall_forall in Hsane.
      eapply zero_writes_same; [apply (Hsane (t', r')); set_solver|done..].
Qed.

(** [quantiles] of a non-empty tail gives one value per probability, each a value
    of the tail itself: the computed rank never leaves the slice. *)
Theorem quantiles_in_range vals probs :
  (vals = [] → quantiles vals probs = []) ∧
  (vals ≠ [] → length (quantiles vals probs) = length probs ∧
     Forall (λ q, q ∈ vals) (quantiles vals probs)).
Proof.
  split; [by intros ->|]. intros Hne. unfold quantiles. destruct vals as [|v vals]; [done|].
  split; [by rewrite length_fmap|]. apply list.Forall_forall. intros q (p & -> & _)%list_elem_of_fmap.
  assert (Hlen : (0 < length (sort_slice float_less (v :: vals)))%nat).
  { rewrite sort_slice_length. cbn. lia. }
  pose proof (quantile_index_bounds _ p Hlen) as Hb.
  destruct (lookup_lt_is_Some_2 (sort_slice float_less (v :: vals))
              (Z.to_nat (quantile_index (length (sort_slice float_less (v :: vals))) p - 1))
              ltac:(lia)) as [x Hx].
  rewrite Hx. cbn. rewrite <-(elem_of_sort_slice float_less). by eapply list_elem_of_lookup_2.
Qed.
End properties.

(** Within a kind, [Key] identifies an object as long as schema names hold no dot;
    with a dotted (quoted) schema name it does not. *)
Theorem Key_injective kind s1 o1 s2 o2 :
  (dot_free s1 = true → dot_free s2 = true →
   Key kind s1 o1 = Key kind s2 o2 → s1 = s2 ∧ o1 = o2) ∧
  Key kind "a.b" "c" = Key kind "a" "b.c".
Proof.
  split; [|done]. intros Hs1 Hs2 Heq. unfold Key in Heq.
  apply (inj (String.app kind)) in Heq. injection Heq as Heq. by apply dot_free_append.
Qed.

(** A snapshot does not depend on the order Go ranges over its maps, provided each
    host's anchors share one epoch and capture time and no two aggregated objects of a
    kind have names that concatenate alike. *)
Theorem BuildSnapshot_deterministic (R1 R2 : MapRange) cl db t inputs missing topN :
  Forall uniform_anchors inputs → separated (@aggregate R1 inputs) →
  @BuildSnapshot R1 cl db t inputs missing topN = @BuildSnapshot R2 cl db t inputs missing topN.
Proof.
  intros Hu Hsep. unfold BuildSnapshot.
  rewrite <-(aggregate_order R1 R2 inputs Hu).
  assert (Hw : ∀ m : gmap string HostWindow,
    foldl (λ m i, <[hs_Instance (Sample i) := @input_window R1 t i]> m) m inputs =
    foldl (λ m i, <[hs_Instance (Sample i) := @input_window R2 t i]> m) m inputs).
  { clear Hsep. induction Hu as [|i inputs Hi Hu IH]; intros m; [done|]. cbn.
    by rewrite (input_window_order R1 R2 t i Hi), IH. }
  rewrite Hw.
  assert (Hr : ∀ s, @rank_all R1 (@aggregate R1 inputs) topN s = @rank_all R2 (@aggregate R1 inputs) topN s).
  { intros s. unfold rank_all. apply foldl_ext_fun. intros a k. apply foldl_ext_fun. intros b c.
    by apply rankClass_order. }
  by rewrite Hr.
Qed.

(** ** Witnesses *)

Definition sample_row (name : string) (ins captured : Z) (quiet : option time) : AnchorRow :=
  mkAnchorRow "pg-1" KindTable "public" name "" captured (Some 1) 8192 "sig"
    (list_to_map [("n_tup_ins", ins); ("n_tup_upd", 4); ("n_tup_del", 1)]) quiet.

Definition sample_input (captured : Z) (ins : Z) (anchors : gmap string AnchorRow) : BuildInput :=
  mkBuildInput
    (mkHostSample "pg-1" captured (Some 1) false
       [sample_row "orders" ins captured None; sample_row "users" 2 captured None])
    anchors None.

Definition sample_anchors : gmap string AnchorRow :=
  {["t:public.orders" := sample_row "orders" 7 100 (Some 100);
    "t:public.users" := sample_row "users" 2 100 (Some 100)]}.

Lemma separated_keys (agg : gmap string aggObject) :
  Forall (λ p, Forall (λ q, ag_kind p.2 = ag_kind q.2 →
    ag_schema p.2 +:+ ag_object p.2 = ag_schema q.2 +:+ ag_object q.2 → p.1 = q.1)
    (map_to_list agg)) (map_to_list agg) → separated agg.
Proof.
  intros Hall k1 k2 o1 o2 H1 H2 Hk Hn. rewrite list.Forall_forall in Hall.
  apply elem_of_map_to_list in H1 as M1, H2 as M2.
  specialize (Hall _ M1). rewrite list.Forall_forall in Hall.
  pose proof (Hall _ M2 Hk Hn) as Heq. cbn in Heq. subst k2. congruence.
Qed.

Lemma sample_quiet_run :
  @quiet_run canonical_range "t:public.orders"
    [(100, sample_row "orders" 7 100 None); (200, sample_row "orders" 7 200 None)]
    (@advance_row canonical_range (sample_input 200 7 sample_anchors) 200 (sample_row "orders" 7 200 None)).
Proof.
  assert (H1 : @quiet_run canonical_range "t:public.orders" [(100, sample_row "orders" 7 100 None)]
                 (sample_row "orders" 7 100 (Some 100))).
  { assert (E : @advance_row canonical_range (sample_input 100 7 ∅) 100 (sample_row "orders" 7 100 None) =
                sample_row "orders" 7 100 (Some 100)) by (by vm_compute).
    rewrite <-E. apply quiet_first; [by left|done..]. }
  apply (@quiet_next canonical_range _ [_] (sample_row "orders" 7 100 (Some 100))
           (sample_input 200 7 sample_anchors)); [done|by left|done|by vm_compute].
Qed.

Lemma QuietSince_sound_witness :
  ar_QuietSince (@advance_row canonical_range (sample_input 200 7 sample_anchors) 200
                   (sample_row "orders" 7 200 None)) = Some 100 ∧
  ∃ h1 r0 h2, [(100, sample_row "orders" 7 100 None); (200, sample_row "orders" 7 200 None)] =
    h1 ++ (100, r0) :: h2 ∧ Forall (λ tr, same_writes r0 tr.2) h2.
Proof.
  split; [by vm_compute|].
  apply (@QuietSince_sound canonical_range _ _ _ 100 sample_quiet_run); [|by vm_compute].
  repeat constructor; (eexists; split; [vm_compute; reflexivity|split; vm_compute; congruence]).
Defined.

Lemma BuildSnapshot_deterministic_witness :
  length (Top (@BuildSnapshot canonical_range "main" "app" 200 [sample_input 200 9 sample_anchors] [] 10)) = 1%nat ∧
  @BuildSnapshot canonical_range "main" "app" 200 [sample_input 200 9 sample_anchors] [] 10 =
  @BuildSnapshot reversed_range "main" "app" 200 [sample_input 200 9 sample_anchors] [] 10.
Proof.
  split; [by vm_compute|]. apply BuildSnapshot_deterministic.
  - constructor; [|done]. intros k1 k2 a1 a2 H1 H2. cbn in H1, H2. unfold sample_anchors in *.
    apply lookup_insert_Some in H1 as [[_ <-]|[_ [_ <-]%lookup_singleton_Some]];
      apply lookup_insert_Some in H2 as [[_ <-]|[_ [_ <-]%lookup_singleton_Some]]; done.
  - apply separated_keys, (bool_decide_unpack _). by vm_compute.
Defined.

(** Two captures of one host: [orders] grew since its anchor, [users] did not change. *)
Lemma aggregate_correct_witness :
  ∃ o, @aggregate canonical_range [sample_input 200 9 sample_anchors] !! "t:public.orders"%string = Some o ∧
  counter (ag_delta o) "n_tup_ins" = 2 ∧ ∃ deltas, Forall2 (λ s d, row_measured s.1 s.2 d) (samples [sample_input 200 9 sample_anchors]) deltas.
Proof.
  assert (Hrun : match @aggregate canonical_range [sample_input 200 9 sample_anchors] !! "t:public.orders"%string with
    | Some o => counter (ag_delta o) "n_tup_ins" = 2 | None => False end) by (vm_compute; reflexivity).
  destruct (@aggregate canonical_range [sample_input 200 9 sample_anchors] !! "t:public.orders"%string) as [o|]; [|destruct Hrun].
  exists o. split; [reflexivity|]. split; [exact Hrun|].
  destruct (@aggregate_correct canonical_range [sample_input 200 9 sample_anchors]) as (deltas & Hd & _); [|by exists deltas].
  constructor; [|done]. intros k1 k2 a1 a2 H1 H2. cbn in H1, H2. unfold sample_anchors in *.
  apply lookup_insert_Some in H1 as [[_ <-]|[_ [_ <-]%lookup_singleton_Some]];
    apply lookup_insert_Some in H2 as [[_ <-]|[_ [_ <-]%lookup_singleton_Some]]; done.
Defined.
