(* ===== verification/AutoConfig.v ===== *)
(** * [internal/autosnapshot], configuration: [config.go] and [validation.go]

    The global configuration, the per-cluster override (a JSON object), its lenient
    reading ([EffectiveFor]), its strict parsing and validation ([ValidateOverride]).
    [encoding/json] and [time.ParseDuration] are modelled as far as the code uses them;
    the validator of the struct tags is a third-party package and a parameter. *)

From S2P Require Import Prelude GoFloat.
From stdpp Require Import options.

#[local] Set Warnings "-inexact-float,-register-all".

(** ** Data *)

(** [Direction], [TriggerType] and [Outcome] are string types. *)
Definition DirectionMasterToReplica : string := "master_to_replica".
Definition DirectionReplicaToMaster : string := "replica_to_master".
Definition DirectionBoth : string := "both".

Record ActivitySpikeTrigger := mkActivitySpikeTrigger {
  as_Enabled : bool;
  WindowSize : duration;
  ActiveThresholdPct : Z;
  SpikeDuration : duration;
  RecoveryDuration : duration;
  DeferredInterval : duration
}.

Record RoleChangeTrigger := mkRoleChangeTrigger {
  rc_Enabled : bool;
  rc_Direction : string
}.

Record TriggerDefaults := mkTriggerDefaults {
  ActivitySpike : ActivitySpikeTrigger;
  RoleChange : RoleChangeTrigger
}.

(** [UpdatedAt] and [UpdatedBy] are read by the HTTP layer only. *)
Record Config := mkConfig {
  cfg_Enabled : bool;
  PollInterval : duration;
  MaxSnapshotFrequency : duration;
  RetentionBytes : Z;
  RetentionMinDays : Z;
  MinBaselineActive : Z;
  cfg_CaptureLocks : bool;
  LockProbeCount : Z;
  LockProbeInterval : duration;
  cfg_ResetQueryStats : bool;
  HotEnabled : bool;
  HotSchedule : string;
  HotTopN : Z;
  HotRetentionDays : Z;
  HotColdWindowDays : Z;
  IOEnabled : bool;
  IOSchedule : string;
  IORetentionDays : Z;
  Defaults : TriggerDefaults
}.

Record ActivitySpikeOverride := mkActivitySpikeOverride {
  o_Enabled : option bool;
  o_WindowSize : option duration;
  o_ActiveThresholdPct : option Z;
  o_SpikeDuration : option duration;
  o_RecoveryDuration : option duration;
  o_DeferredInterval : option duration
}.

Record RoleChangeOverride := mkRoleChangeOverride {
  or_Enabled : option bool;
  or_Direction : option string
}.

Record OverrideInput := mkOverrideInput {
  in_ActivitySpike : option ActivitySpikeOverride;
  in_RoleChange : option RoleChangeOverride
}.

Definition empty_spike_override : ActivitySpikeOverride :=
  mkActivitySpikeOverride None None None None None None.
Definition empty_role_override : RoleChangeOverride := mkRoleChangeOverride None None.
Definition empty_override : OverrideInput := mkOverrideInput None None.

#[export] Instance ActivitySpikeTrigger_eq_dec : EqDecision ActivitySpikeTrigger.
Proof. solve_decision. Defined.
#[export] Instance RoleChangeTrigger_eq_dec : EqDecision RoleChangeTrigger.
Proof. solve_decision. Defined.
#[export] Instance TriggerDefaults_eq_dec : EqDecision TriggerDefaults.
Proof. solve_decision. Defined.

(** ** Merging *)

Definition applySpike (s : ActivitySpikeOverride) (d : ActivitySpikeTrigger) : ActivitySpikeTrigger :=
  mkActivitySpikeTrigger
    (default (as_Enabled d) (o_Enabled s))
    (default (WindowSize d) (o_WindowSize s))
    (default (ActiveThresholdPct d) (o_ActiveThresholdPct s))
    (default (SpikeDuration d) (o_SpikeDuration s))
    (default (RecoveryDuration d) (o_RecoveryDuration s))
    (default (DeferredInterval d) (o_DeferredInterval s)).

Definition applyRole (r : RoleChangeOverride) (d : RoleChangeTrigger) : RoleChangeTrigger :=
  mkRoleChangeTrigger (default (rc_Enabled d) (or_Enabled r)) (default (rc_Direction d) (or_Direction r)).

Definition applyTo (i : OverrideInput) (d : TriggerDefaults) : TriggerDefaults :=
  mkTriggerDefaults
    (from_option (λ s, applySpike s (ActivitySpike d)) (ActivitySpike d) (in_ActivitySpike i))
    (from_option (λ r, applyRole r (RoleChange d)) (RoleChange d) (in_RoleChange i)).

(** ** Durations in text: [time.ParseDuration] *)

Definition is_digit (c : Ascii.ascii) : bool :=
  let n := Z.of_nat (Ascii.nat_of_ascii c) in (48 <=? n) && (n <=? 57).
Definition digit_val (c : Ascii.ascii) : Z := Z.of_nat (Ascii.nat_of_ascii c) - 48.
Definition is_char (z : Z) (c : Ascii.ascii) : bool := Z.of_nat (Ascii.nat_of_ascii c) =? z.
Definition is_dot : Ascii.ascii → bool := is_char 46.

(** [leadingInt]: the value of the leading digits, [None] above [2^63]. *)
Fixpoint leadingInt (x : Z) (s : list Ascii.ascii) : option (Z * list Ascii.ascii) :=
  match s with
  | c :: s' =>
      if is_digit c then
        if 2 ^ 63 / 10 <? x then None
        else
          let x := x * 10 + digit_val c in
          if 2 ^ 63 <? x then None else leadingInt x s'
      else Some (x, s)
  | [] => Some (x, [])
  end.

(** [leadingFraction]: digits past the precision of the accumulator are dropped. *)
Fixpoint leadingFraction (x : Z) (scale : float) (overflow : bool) (s : list Ascii.ascii) :
    Z * float * list Ascii.ascii :=
  match s with
  | c :: s' =>
      if is_digit c then
        if overflow then leadingFraction x scale true s'
        else if (2 ^ 63 - 1) / 10 <? x then leadingFraction x scale true s'
        else
          let y := x * 10 + digit_val c in
          if 2 ^ 63 <? y then leadingFraction x scale true s'
          else leadingFraction y (scale * 10)%float false s'
      else (x, scale, s)
  | [] => (x, scale, [])
  end.

(** The unit is everything up to the next digit or dot. *)
Fixpoint span_unit (s : list Ascii.ascii) : list Ascii.ascii * list Ascii.ascii :=
  match s with
  | c :: s' =>
      if is_dot c || is_digit c then ([], s)
      else let '(u, r) := span_unit s' in (c :: u, r)
  | [] => ([], [])
  end.

Definition Microsecond : duration := 1000.
Definition Millisecond : duration := 1000000.

(** The two spellings of the micro sign are U+00B5 and U+03BC, in UTF-8. *)
Definition micro_sign (lead trail : nat) : string :=
  String (Ascii.ascii_of_nat lead) (String (Ascii.ascii_of_nat trail) "s").

Definition unitMap (u : string) : option Z :=
  if decide (u = "ns"%string) then Some 1
  else if decide (u = "us"%string ∨ u = micro_sign 194 181 ∨ u = micro_sign 206 188) then Some Microsecond
  else if decide (u = "ms"%string) then Some Millisecond
  else if decide (u = "s"%string) then Some Second
  else if decide (u = "m"%string) then Some Minute
  else if decide (u = "h"%string) then Some Hour
  else None.

(** [float64(u)] for a [uint64] up to [2^63]. *)
Definition ufloat (z : Z) : float := if z =? 2 ^ 63 then 9223372036854775808%float else to_float z.

(** One [number unit] group: its value in nanoseconds and the rest. *)
Definition parse_group (s : list Ascii.ascii) : option (Z * list Ascii.ascii) :=
  match s with
  | [] => None
  | c :: _ =>
      if negb (is_dot c || is_digit c) then None
      else
        '(v, s1) ← leadingInt 0 s;
        let pre := negb (Nat.eqb (length s) (length s1)) in
        let '(f, scale, s2, post) :=
          match s1 with
          | d :: s1' =>
              if is_dot d then
                let '(f, scale, s2) := leadingFraction 0 1%float false s1' in
                (f, scale, s2, negb (Nat.eqb (length s1') (length s2)))
              else (0, 1%float, s1, false)
          | [] => (0, 1%float, s1, false)
          end in
        if negb pre && negb post then None
        else
          let '(u, rest) := span_unit s2 in
          if Nat.eqb (length u) 0 then None
          else
            unit ← unitMap (String.string_of_list_ascii u);
            if 2 ^ 63 / unit <? v then None
            else
              let v := v * unit in
              let v := if 0 <? f then v + to_int (ufloat f * (to_float unit / scale))%float else v in
              if (0 <? f) && (2 ^ 63 <? v) then None else Some (v, rest)
  end.

(** Every group takes at least two characters off, so the length is enough fuel. *)
Fixpoint parse_groups (fuel : nat) (d : Z) (s : list Ascii.ascii) : option Z :=
  match fuel, s with
  | _, [] => Some d
  | O, _ => None
  | S fuel, _ =>
      '(v, rest) ← parse_group s;
      let d := d + v in
      if 2 ^ 63 <? d then None else parse_groups fuel d rest
  end.

Definition ParseDuration (str : string) : option duration :=
  let s := String.list_ascii_of_string str in
  let '(neg, s) :=
    match s with
    | c :: s' => if is_char 45 c then (true, s') else if is_char 43 c then (false, s') else (false, s)
    | [] => (false, [])
    end in
  if decide (String.string_of_list_ascii s = "0"%string) then Some 0
  else if Nat.eqb (length s) 0 then None
  else
    d ← parse_groups (length s) 0 s;
    if neg : bool then Some (- d)
    else if 2 ^ 63 - 1 <? d then None else Some d.

(** [Duration.String]: the value with its largest unit, no trailing zeros in the fraction.
    [fmtFrac] writes the last [prec] digits of a number as a fraction, or nothing. *)
Fixpoint fmt_digits (fuel : nat) (v : Z) (acc : string) : string :=
  match fuel with
  | O => acc
  | S fuel =>
      let acc := String (Ascii.ascii_of_nat (48 + Z.to_nat (v mod 10))) acc in
      if v <? 10 then acc else fmt_digits fuel (v / 10) acc
  end.

(** A [uint64] has at most 20 digits. *)
Definition fmtInt (v : Z) : string := fmt_digits 20 v "".

Fixpoint fmtFrac (prec : nat) (v : Z) (acc : string) (print : bool) : string * Z :=
  match prec with
  | O => (if print then ("." +:+ acc)%string else acc, v)
  | S prec =>
      let digit := v mod 10 in
      let print := print || negb (digit =? 0) in
      fmtFrac prec (v / 10)
        (if print then String (Ascii.ascii_of_nat (48 + Z.to_nat digit)) acc else acc) print
  end.

Definition duration_String (d : duration) : string :=
  let u := Z.abs d in
  let body :=
    if u <? Second then
      if u =? 0 then "0s"%string
      else
        let '(prec, unit) :=
          if u <? Microsecond then (0%nat, "ns"%string)
          else if u <? Millisecond then (3%nat, micro_sign 194 181)
          else (6%nat, "ms"%string) in
        let '(frac, v) := fmtFrac prec u "" false in
        (fmtInt v +:+ frac +:+ unit)%string
    else
      let '(frac, v) := fmtFrac 9 u "" false in
      let secs := (fmtInt (v mod 60) +:+ frac +:+ "s")%string in
      let v := v / 60 in
      if 0 <? v then
        let mins := (fmtInt (v mod 60) +:+ "m" +:+ secs)%string in
        let v := v / 60 in
        if 0 <? v then (fmtInt v +:+ "h" +:+ mins)%string else mins
      else secs in
  if d <? 0 then ("-" +:+ body)%string else body.

(** ** JSON

    A decoded JSON value. An object lists its entries in the order a [range] over the
    Go map visits them; a number is its literal. *)

Inductive json :=
  | JNull
  | JBool (b : bool)
  | JNumber (lit : string)
  | JString (s : string)
  | JArray (l : list json)
  | JObject (entries : list (string * json)).

(** [encoding/json] matches a key to a struct field by its folded name: ASCII letters
    in upper case, and the two other runes that fold to an ASCII letter, U+017F (long s)
    and U+212A (Kelvin sign). *)
Definition upper (c : Ascii.ascii) : Ascii.ascii :=
  let n := Ascii.nat_of_ascii c in
  if Nat.leb 97 n && Nat.leb n 122 then Ascii.ascii_of_nat (n - 32) else c.

Fixpoint foldName (s : list Ascii.ascii) : list Ascii.ascii :=
  match s with
  | [] => []
  | c1 :: s1 =>
      match s1 with
      | c2 :: s2 =>
          if is_char 197 c1 && is_char 191 c2 then Ascii.ascii_of_nat 83 :: foldName s2
          else
            match s2 with
            | c3 :: s3 =>
                if is_char 226 c1 && is_char 132 c2 && is_char 170 c3
                then Ascii.ascii_of_nat 75 :: foldName s3
                else upper c1 :: foldName s1
            | [] => upper c1 :: foldName s1
            end
      | [] => [upper c1]
      end
  end.

Definition key_matches (name key : string) : bool :=
  bool_decide (foldName (String.list_ascii_of_string name) = foldName (String.list_ascii_of_string key)).

(** [json.Marshal] writes the keys of a map in order. *)
Definition marshal_entries (es : list (string * json)) : list (string * json) :=
  sort_slice (λ a b, str_ltb a.1 b.1) es.

Definition decodeBool (j : json) : option bool := match j with JBool b => Some b | _ => None end.
Definition decodeString (j : json) : option string := match j with JString s => Some s | _ => None end.

(** [strconv.ParseInt] with base 10 on a JSON number literal: digits with an optional
    minus; a fraction, an exponent or a value outside the width is a type error. *)
Fixpoint digits_val (x : Z) (s : list Ascii.ascii) : option Z :=
  match s with
  | [] => Some x
  | c :: s' => if is_digit c then digits_val (x * 10 + digit_val c) s' else None
  end.

Definition parse_int (lit : string) : option Z :=
  let in_range z := if decide (int64 z) then Some z else None in
  match String.list_ascii_of_string lit with
  | [] => None
  | c :: s' =>
      if is_char 45 c then
        if Nat.eqb (length s') 0 then None else (z ← digits_val 0 s'; in_range (- z))
      else (z ← digits_val 0 (c :: s'); in_range z)
  end.

Definition decodeInt (j : json) : option Z := match j with JNumber lit => parse_int lit | _ => None end.

(** [Duration.UnmarshalJSON]. *)
Definition UnmarshalJSON (j : json) : option duration :=
  match j with JString s => ParseDuration s | _ => None end.

(** A pointer field: [null] clears it. [None] is a decoding error. *)
Definition decodePtr {A} (dec : json → option A) (j : json) : option (option A) :=
  match j with JNull => Some None | _ => Some <$> dec j end.

(** The fields of a struct: a name and what a value under it does to the struct. *)
Definition fields (S : Type) : Type := list (string * (json → S → option S)).

Definition spike_fields : fields ActivitySpikeOverride :=
  let upd {A} (dec : json → option A) (set : option A → ActivitySpikeOverride → ActivitySpikeOverride) :=
    λ j o, (λ p, set p o) <$> decodePtr dec j in
  [("enabled"%string, upd decodeBool (λ p o, mkActivitySpikeOverride p (o_WindowSize o) (o_ActiveThresholdPct o)
      (o_SpikeDuration o) (o_RecoveryDuration o) (o_DeferredInterval o)));
   ("window_size"%string, upd UnmarshalJSON (λ p o, mkActivitySpikeOverride (o_Enabled o) p (o_ActiveThresholdPct o)
      (o_SpikeDuration o) (o_RecoveryDuration o) (o_DeferredInterval o)));
   ("active_threshold_pct"%string, upd decodeInt (λ p o, mkActivitySpikeOverride (o_Enabled o) (o_WindowSize o) p
      (o_SpikeDuration o) (o_RecoveryDuration o) (o_DeferredInterval o)));
   ("spike_duration"%string, upd UnmarshalJSON (λ p o, mkActivitySpikeOverride (o_Enabled o) (o_WindowSize o)
      (o_ActiveThresholdPct o) p (o_RecoveryDuration o) (o_DeferredInterval o)));
   ("recovery_duration"%string, upd UnmarshalJSON (λ p o, mkActivitySpikeOverride (o_Enabled o) (o_WindowSize o)
      (o_ActiveThresholdPct o) (o_SpikeDuration o) p (o_DeferredInterval o)));
   ("deferred_interval"%string, upd UnmarshalJSON (λ p o, mkActivitySpikeOverride (o_Enabled o) (o_WindowSize o)
      (o_ActiveThresholdPct o) (o_SpikeDuration o) (o_RecoveryDuration o) p))].

Definition role_fields : fields RoleChangeOverride :=
  [("enabled"%string, λ j o, (λ p, mkRoleChangeOverride p (or_Direction o)) <$> decodePtr decodeBool j);
   ("direction"%string, λ j o, (λ p, mkRoleChangeOverride (or_Enabled o) p) <$> decodePtr decodeString j)].

(** Decoding an object into a struct: the keys in the order they were written, a later
    key that folds to the same name over an earlier one; an unknown key is skipped, or
    an error under [DisallowUnknownFields]. *)
Definition decode_entry {S} (strict : bool) (fs : fields S) (s : option S) (e : string * json) : option S :=
  s ← s;
  match list_find (λ f, key_matches f.1 e.1) fs with
  | Some (_, f) => f.2 e.2 s
  | None => if strict then None else Some s
  end.

Definition decode_struct {S} (strict : bool) (fs : fields S) (s : S) (j : json) : option S :=
  match j with
  | JObject es => foldl (decode_entry strict fs) (Some s) (marshal_entries es)
  | _ => None
  end.

Definition override_fields (strict : bool) : fields OverrideInput :=
  [("activity_spike"%string, λ j o,
      (λ p, mkOverrideInput p (in_RoleChange o)) <$>
        decodePtr (decode_struct strict spike_fields (default empty_spike_override (in_ActivitySpike o))) j);
   ("role_change"%string, λ j o,
      (λ p, mkOverrideInput (in_ActivitySpike o) p) <$>
        decodePtr (decode_struct strict role_fields (default empty_role_override (in_RoleChange o))) j)].

Definition decode_override (strict : bool) (override : list (string * json)) : option OverrideInput :=
  decode_struct strict (override_fields strict) empty_override (JObject override).

(** ** Reading and validating an override *)

Definition EffectiveFor (c : Config) (override : list (string * json)) : TriggerDefaults :=
  let res := Defaults c in
  if Nat.eqb (length override) 0 then res
  else match decode_override false override with Some i => applyTo i res | None => res end.

(** The name of the first field found to be an explicit [null]. Arrays are not entered. *)
Fixpoint rejectNullFields (v : json) (path : string) : option string :=
  match v with
  | JNull => Some (if decide (path = ""%string) then "override"%string else path)
  | JObject es =>
      (fix go (es : list (string * json)) : option string :=
         match es with
         | [] => None
         | (k, child) :: es' =>
             let name := if decide (path = ""%string) then k else (path +:+ "." +:+ k)%string in
             match rejectNullFields child name with Some p => Some p | None => go es' end
         end) es
  | _ => None
  end.

Definition parseOverrideStrict (raw : list (string * json)) : option OverrideInput :=
  match rejectNullFields (JObject raw) "" with
  | Some _ => None
  | None => decode_override true raw
  end.

(** [2*s.SpikeDuration] is a product of 64-bit integers. *)
Definition validateSpikeCross (s : ActivitySpikeTrigger) : bool :=
  negb (WindowSize s <? 2 ⊠ SpikeDuration s).

(** *** Struct tags

    The tags of the structs, as data: the value of each field with the rules of its
    [validate] tag. The validator that interprets them is a parameter. *)

Inductive rule :=
  | gt (bound : Z)
  | gte (bound : Z)
  | lte (bound : Z)
  | oneof (values : list string).

Inductive field_value := VInt (z : Z) | VStr (s : string).

Definition spike_tags (s : ActivitySpikeTrigger) : list (field_value * list rule) :=
  [(VInt (WindowSize s), [gt 0]);
   (VInt (ActiveThresholdPct s), [gt 0; lte 10000]);
   (VInt (SpikeDuration s), [gt 0]);
   (VInt (RecoveryDuration s), [gte 0]);
   (VInt (DeferredInterval s), [gte 0])].

Definition role_tags (r : RoleChangeTrigger) : list (field_value * list rule) :=
  [(VStr (rc_Direction r), [oneof [DirectionMasterToReplica; DirectionReplicaToMaster; DirectionBoth]])].

Definition defaults_tags (td : TriggerDefaults) : list (field_value * list rule) :=
  spike_tags (ActivitySpike td) ++ role_tags (RoleChange td).

(** [gtefield=PollInterval] is a bound given by another field. *)
Definition config_tags (c : Config) : list (field_value * list rule) :=
  [(VInt (PollInterval c), [gte (5 * Second)]);
   (VInt (MaxSnapshotFrequency c), [gte (PollInterval c)]);
   (VInt (RetentionBytes c), [gte 0]);
   (VInt (RetentionMinDays c), [gte 0]);
   (VInt (MinBaselineActive c), [gte 0]);
   (VInt (LockProbeCount c), [gte 1; lte 20]);
   (VInt (LockProbeInterval c), [gte (100 * Millisecond); lte (5 * Second)]);
   (VInt (HotTopN c), [gte 1; lte 1000]);
   (VInt (HotRetentionDays c), [gte 1]);
   (VInt (HotColdWindowDays c), [gte 1; lte 90]);
   (VInt (IORetentionDays c), [gte 1])] ++ defaults_tags (Defaults c).

(** The package [go-playground/validator]: [validate.Struct] on the tagged fields. *)
Class Validator := validate_Struct : list (field_value * list rule) → bool.

Section validation.
Context {V : Validator}.

Definition Validate (c : Config) : bool :=
  validate_Struct (config_tags c) && validateSpikeCross (ActivitySpike (Defaults c)).

Definition validateMergedDefaults (td : TriggerDefaults) : bool :=
  validate_Struct (defaults_tags td) && validateSpikeCross (ActivitySpike td).

Definition ValidateOverride (c : Config) (raw : list (string * json)) : bool :=
  if Nat.eqb (length raw) 0 then true
  else
    match parseOverrideStrict raw with
    | None => false
    | Some i => validateMergedDefaults (applyTo i (Defaults c))
    end.

Definition ValidateEffective (c : Config) (raw : list (string * json)) : bool :=
  validateMergedDefaults (EffectiveFor c raw).

End validation.

(** ** Specification *)

(** What the validator documents: a struct passes when every field satisfies every rule
    of its tag. *)
Definition rule_holds (v : field_value) (r : rule) : Prop :=
  match v, r with
  | VInt z, gt b => b < z
  | VInt z, gte b => b ≤ z
  | VInt z, lte b => z ≤ b
  | VStr s, oneof l => s ∈ l
  | _, _ => False
  end.

#[export] Instance rule_holds_dec v r : Decision (rule_holds v r).
Proof. destruct v, r; cbn; apply _. Defined.

Definition tags_hold (l : list (field_value * list rule)) : Prop :=
  Forall (λ p, Forall (rule_holds p.1) p.2) l.

Class LawfulValidator (V : Validator) : Prop :=
  validate_Struct_spec : ∀ l, validate_Struct l = true ↔ tags_hold l.

Definition tag_validator : Validator := λ l, bool_decide (tags_hold l).

#[export] Instance tag_validator_lawful : LawfulValidator tag_validator.
Proof. intros l. apply bool_decide_eq_true. Qed.

(** What a valid effective trigger configuration satisfies. *)
Definition triggers_valid (td : TriggerDefaults) : Prop :=
  let s := ActivitySpike td in
  0 < WindowSize s ∧ 0 < SpikeDuration s ∧ 0 < ActiveThresholdPct s ≤ 10000 ∧
  0 ≤ RecoveryDuration s ∧ 0 ≤ DeferredInterval s ∧
  rc_Direction (RoleChange td) ∈ [DirectionMasterToReplica; DirectionReplicaToMaster; DirectionBoth] ∧
  validateSpikeCross s = true.

(** Each of the two override structs has the field a key names set. *)
Definition spike_field_set (key : string) (s : ActivitySpikeOverride) : Prop :=
  (key_matches "enabled" key = true ∧ is_Some (o_Enabled s)) ∨
  (key_matches "window_size" key = true ∧ is_Some (o_WindowSize s)) ∨
  (key_matches "active_threshold_pct" key = true ∧ is_Some (o_ActiveThresholdPct s)) ∨
  (key_matches "spike_duration" key = true ∧ is_Some (o_SpikeDuration s)) ∨
  (key_matches "recovery_duration" key = true ∧ is_Some (o_RecoveryDuration s)) ∨
  (key_matches "deferred_interval" key = true ∧ is_Some (o_DeferredInterval s)).

Definition role_field_set (key : string) (r : RoleChangeOverride) : Prop :=
  (key_matches "enabled" key = true ∧ is_Some (or_Enabled r)) ∨
  (key_matches "direction" key = true ∧ is_Some (or_Direction r)).

(** An entry of an accepted override takes effect: it is an object under one of the two
    trigger names and every key in it sets a field. *)
Definition entry_effective (i : OverrideInput) (e : string * json) : Prop :=
  (key_matches "activity_spike" e.1 = true ∧
     ∃ es s, e.2 = JObject es ∧ in_ActivitySpike i = Some s ∧ Forall (λ e', spike_field_set e'.1 s) es) ∨
  (key_matches "role_change" e.1 = true ∧
     ∃ es r, e.2 = JObject es ∧ in_RoleChange i = Some r ∧ Forall (λ e', role_field_set e'.1 r) es).

(** ** Lemmas *)

Section decoding.
Context {S : Type}.
Implicit Types (fs : fields S) (es : list (string * json)).

Lemma decode_none strict fs es : foldl (decode_entry strict fs) None es = None.
Proof. by induction es. Qed.

Lemma decode_cons strict fs s e es s' :
  foldl (decode_entry strict fs) (Some s) (e :: es) = Some s' ↔
  ∃ s1, decode_entry strict fs (Some s) e = Some s1 ∧ foldl (decode_entry strict fs) (Some s1) es = Some s'.
Proof.
  cbn [foldl]. destruct (decode_entry strict fs (Some s) e) as [s1|].
  - naive_solver.
  - rewrite decode_none. naive_solver.
Qed.

(** A strict step finds a field. *)
Lemma decode_entry_strict fs s e s' :
  decode_entry true fs (Some s) e = Some s' →
  ∃ f, f ∈ fs ∧ key_matches f.1 e.1 = true ∧ f.2 e.2 s = Some s'.
Proof.
  unfold decode_entry. cbn. destruct (list_find _ fs) as [[i f]|] eqn:Hf; [|done].
  apply list_find_Some in Hf as (Hi & Hm & _). intros Hs. exists f. split_and!; [|by apply Is_true_true|done].
  by apply list_elem_of_lookup_2 in Hi.
Qed.

(** What an entry establishes and every later one keeps holds in the end. *)
Lemma decode_keeps fs (ok : json → Prop) (P : S → Prop) es s s' :
  (∀ f j s s', f ∈ fs → ok j → f.2 j s = Some s' → P s → P s') →
  Forall (λ e, ok e.2) es → foldl (decode_entry true fs) (Some s) es = Some s' → P s → P s'.
Proof.
  intros Hk Hok. revert s. induction Hok as [|e es He Hok IH]; intros s; [by intros [= ->]|].
  rewrite decode_cons. intros (s1 & (f & Hin & _ & Hf)%decode_entry_strict & Hes) Hs. by eauto.
Qed.

Lemma decode_establishes fs (ok : json → Prop) (P : S → Prop) es e s s' :
  (∀ f j s s', f ∈ fs → ok j → f.2 j s = Some s' → P s → P s') →
  (∀ f s s', f ∈ fs → key_matches f.1 e.1 = true → f.2 e.2 s = Some s' → P s') →
  Forall (λ e, ok e.2) es → e ∈ es →
  foldl (decode_entry true fs) (Some s) es = Some s' → P s'.
Proof.
  intros Hk He Hok Hin. revert s. induction Hok as [|e' es He' Hok IH]; intros s; [by apply elem_of_nil in Hin|].
  rewrite decode_cons. intros (s1 & (f & Hf & Hm & Hs1)%decode_entry_strict & Hes).
  apply elem_of_cons in Hin as [->|Hin]; [|by eauto].
  eapply decode_keeps; eauto.
Qed.

(** Lenient decoding extends strict decoding, when its fields do. *)
Lemma decode_lenient fs fs' es s s' :
  Forall2 (λ f f', f.1 = f'.1 ∧ ∀ j s s', f.2 j s = Some s' → f'.2 j s = Some s') fs fs' →
  foldl (decode_entry true fs) (Some s) es = Some s' →
  foldl (decode_entry false fs') (Some s) es = Some s'.
Proof.
  intros Hfs. revert s. induction es as [|e es IH]; intros s; [done|].
  rewrite !decode_cons. intros (s1 & Hs1 & Hes). exists s1. split; [|by apply IH].
  clear -Hfs Hs1. unfold decode_entry in *. cbn in *.
  induction Hfs as [|f f' fs fs' [Hn Hd] Hfs IHf]; [done|]. cbn in *.
  rewrite <-Hn. destruct (decide _); [by apply Hd|].
  destruct (list_find _ fs) as [[i g]|] eqn:E1; destruct (list_find _ fs') as [[i' g']|] eqn:E2; cbn in *;
    by apply IHf in Hs1.
Qed.

End decoding.

Lemma marshal_perm es : marshal_entries es ≡ₚ es.
Proof. apply merge_sort_Permutation. Qed.

Lemma decode_struct_lenient {S} (fs fs' : fields S) s j s' :
  Forall2 (λ f f', f.1 = f'.1 ∧ ∀ j s s', f.2 j s = Some s' → f'.2 j s = Some s') fs fs' →
  decode_struct true fs s j = Some s' → decode_struct false fs' s j = Some s'.
Proof. destruct j; cbn [decode_struct]; try done. apply decode_lenient. Qed.

Lemma decodePtr_mono {A} (dec dec' : json → option A) j p :
  (∀ a, dec j = Some a → dec' j = Some a) → decodePtr dec j = Some p → decodePtr dec' j = Some p.
Proof.
  intros Hd. destruct j; cbn; try done; rewrite !fmap_Some; naive_solver.
Qed.

Lemma decode_override_lenient raw i : decode_override true raw = Some i → decode_override false raw = Some i.
Proof.
  apply decode_struct_lenient. repeat constructor; cbn; intros j s s'; rewrite !fmap_Some;
    intros (p & Hp & ->); exists p; split; try done; revert Hp; apply decodePtr_mono; intros a;
    apply decode_struct_lenient; repeat constructor; auto.
Qed.

(** *** Nulls *)

Lemma reject_entries es path :
  rejectNullFields (JObject es) path = None →
  Forall (λ e, e.2 ≠ JNull ∧ ∃ name, rejectNullFields e.2 name = None) es.
Proof.
  cbn. induction es as [|[k v] es IH]; [constructor|].
  set (name := if decide (path = ""%string) then k else _). cbv zeta.
  destruct (rejectNullFields v name) eqn:Hv; [done|]. intros Hes. constructor; [|by apply IH].
  cbn. split; [by intros ->|by exists name].
Qed.

(** An object that passed the null check, at any depth. *)
Definition null_free (j : json) : Prop := j ≠ JNull ∧ ∃ name, rejectNullFields j name = None.

Lemma null_free_entries es : null_free (JObject es) → Forall (λ e, null_free e.2) es.
Proof. intros [_ [name Hn]]. by apply reject_entries in Hn. Qed.

Lemma decodePtr_set {A} (dec : json → option A) j p :
  null_free j → decodePtr dec j = Some p → ∃ a, p = Some a ∧ dec j = Some a.
Proof. intros [Hn _]. destruct j; cbn; rewrite ?fmap_Some; naive_solver. Qed.

(** *** Keys that set a field *)

Ltac field_cases :=
  match goal with
  | H : _ ∈ _ |- _ =>
      unfold spike_fields, role_fields, override_fields in H; cbv zeta in H;
      repeat (apply elem_of_cons in H as [->|H]); [..|by apply elem_of_nil in H]
  end; cbn [fst snd] in *.

Ltac field_step :=
  match goal with
  | H : _ <$> decodePtr _ _ = Some _ |- _ =>
      apply fmap_Some in H as (? & H & ->); apply decodePtr_set in H as (a & -> & H); [|done];
      pose proof (mk_is_Some (Some a) a eq_refl)
  end.

(** [key_matches] is kept abstract: comparing two of its instances evaluates it. *)
Ltac abstract_names := let km := fresh in set (km := key_matches) in *; clearbody km.
Ltac split_alternatives H := repeat (destruct H as [[? ?]|H]); [..|destruct H].
Ltac pick_alternative := first [left; split; assumption | split; assumption | right; pick_alternative].

Lemma spike_field_keeps key f j s s' :
  f ∈ spike_fields → null_free j → f.2 j s = Some s' → spike_field_set key s → spike_field_set key s'.
Proof. intros Hf Hj Hs Hset. field_cases; field_step; unfold spike_field_set in *; abstract_names; split_alternatives Hset; cbn; pick_alternative. Qed.

Lemma role_field_keeps key f j s s' :
  f ∈ role_fields → null_free j → f.2 j s = Some s' → role_field_set key s → role_field_set key s'.
Proof. intros Hf Hj Hs Hset. field_cases; field_step; unfold role_field_set in *; abstract_names; split_alternatives Hset; cbn; pick_alternative. Qed.

Lemma spike_field_sets key f j s s' :
  f ∈ spike_fields → key_matches f.1 key = true → null_free j → f.2 j s = Some s' → spike_field_set key s'.
Proof. intros Hf Hm Hj Hs. field_cases; field_step; unfold spike_field_set; abstract_names; cbn; pick_alternative. Qed.

Lemma role_field_sets key f j s s' :
  f ∈ role_fields → key_matches f.1 key = true → null_free j → f.2 j s = Some s' → role_field_set key s'.
Proof. intros Hf Hm Hj Hs. field_cases; field_step; unfold role_field_set; abstract_names; cbn; pick_alternative. Qed.

Lemma null_free_marshal es : Forall (λ e, null_free e.2) es → Forall (λ e, null_free e.2) (marshal_entries es).
Proof. by rewrite marshal_perm. Qed.

(** A struct decoded from an object sets the field of every key, and keeps those set. *)
Lemma decode_struct_sets {S} (fs : fields S) (set : string → S → Prop) s es s' :
  (∀ key f j s s', f ∈ fs → null_free j → f.2 j s = Some s' → set key s → set key s') →
  (∀ key f j s s', f ∈ fs → key_matches f.1 key = true → null_free j → f.2 j s = Some s' → set key s') →
  Forall (λ e, null_free e.2) es → decode_struct true fs s (JObject es) = Some s' →
  Forall (λ e, set e.1 s') es ∧ ∀ key, set key s → set key s'.
Proof.
  intros Hkeep Hset Hnf%null_free_marshal Hd. cbn [decode_struct] in Hd. split.
  - apply list.Forall_forall. intros e He. rewrite <-marshal_perm in He.
    eapply (decode_establishes fs null_free); [by eauto| |exact Hnf|exact He|exact Hd].
    rewrite list.Forall_forall in Hnf. eauto.
  - intros key Hs. by eapply (decode_keeps fs null_free); eauto.
Qed.

Lemma entry_effective_keeps e f j i i' :
  f ∈ override_fields true → null_free j → f.2 j i = Some i' → entry_effective i e → entry_effective i' e.
Proof.
  intros Hf Hj Hi. unfold entry_effective. field_cases; field_step;
    intros [(Hk & es & s & He & Hs & Hset)|(Hk & es & s & He & Hs & Hset)]; [left|right|left|right];
    split; try done; exists es; cbn [in_ActivitySpike in_RoleChange] in *; eauto.
  - destruct j; try done. rewrite Hs in Hi.
    destruct (decode_struct_sets _ _ _ _ _ spike_field_keeps spike_field_sets
      (null_free_entries _ Hj) Hi) as [_ Hkeep]. eexists. split_and!; [done..|].
    eapply Forall_impl; [exact Hset|]. cbn. eauto.
  - destruct j; try done. rewrite Hs in Hi.
    destruct (decode_struct_sets _ _ _ _ _ role_field_keeps role_field_sets
      (null_free_entries _ Hj) Hi) as [_ Hkeep]. eexists. split_and!; [done..|].
    eapply Forall_impl; [exact Hset|]. cbn. eauto.
Qed.

Lemma entry_effective_sets e f i i' :
  f ∈ override_fields true → key_matches f.1 e.1 = true → null_free e.2 → f.2 e.2 i = Some i' →
  entry_effective i' e.
Proof.
  destruct e as [k j]. cbn [fst snd]. intros Hf Hm Hj Hi. unfold entry_effective.
  field_cases; field_step; [left|right]; (split; [done|]); destruct j as [| | | | |es]; try done;
    exists es; eexists; (split_and!; [done..|]).
  - by eapply (decode_struct_sets _ _ _ _ _ spike_field_keeps spike_field_sets (null_free_entries _ Hj) Hi).
  - by eapply (decode_struct_sets _ _ _ _ _ role_field_keeps role_field_sets (null_free_entries _ Hj) Hi).
Qed.

Lemma defaults_tags_valid td :
  tags_hold (defaults_tags td) ∧ validateSpikeCross (ActivitySpike td) = true ↔ triggers_valid td.
Proof.
  unfold tags_hold, triggers_valid, defaults_tags, spike_tags, role_tags. cbn [app].
  rewrite !Forall_cons, !Forall_nil. cbn [fst snd]. rewrite !Forall_cons, !Forall_nil. unfold rule_holds.
  tauto.
Qed.

Lemma wrap64_double d : 0 < d → int64 d → wrap64 (2 * d) = if d <? 2 ^ 62 then 2 * d else 2 * d - 2 ^ 64.
Proof.
  unfold int64, min64, max64, wrap64. intros Hd [_ Hmax]. case_test.
  - rewrite Z.mod_small; lia.
  - replace (2 * d + 2 ^ 63) with (2 * d - 2 ^ 63 + 1 * 2 ^ 64) by lia.
    rewrite Z.mod_add, Z.mod_small; lia.
Qed.

(** ** Properties *)

#[local] Set Default Proof Using "Type*".

Lemma parseOverrideStrict_some raw i :
  parseOverrideStrict raw = Some i → null_free (JObject raw) ∧ decode_override true raw = Some i.
Proof.
  unfold parseOverrideStrict. destruct (rejectNullFields (JObject raw) "") eqn:Hn; [done|].
  intros Hd. split; [|done]. split; [done|]. by exists ""%string.
Qed.

Section properties.
Context {V : Validator} {HV : LawfulValidator V}.

Lemma validateMergedDefaults_spec td : validateMergedDefaults td = true ↔ triggers_valid td.
Proof.
  unfold validateMergedDefaults. by rewrite andb_true_iff, validate_Struct_spec, defaults_tags_valid.
Qed.

(** C4: what the strict write path accepts is what the lenient read path later gives:
    an accepted override parses, reading it back merges exactly the parsed fields over
    the defaults, and the merged triggers satisfy every bound of the struct tags and the
    cross-field rule. So nothing that was stored is ignored on a read, and re-validation
    against the same defaults passes. *)
Theorem ValidateOverride_effective c raw :
  raw ≠ [] → ValidateOverride c raw = true →
  (∃ i, parseOverrideStrict raw = Some i ∧ EffectiveFor c raw = applyTo i (Defaults c)) ∧
  triggers_valid (EffectiveFor c raw) ∧ ValidateEffective c raw = true.
Proof.
  intros Hne. unfold ValidateOverride, ValidateEffective. destruct (Nat.eqb_spec (length raw) 0) as [Hl|Hl];
    [by apply nil_length_inv in Hl|].
  destruct (parseOverrideStrict raw) as [i|] eqn:Hp; [|done].
  assert (Heff : EffectiveFor c raw = applyTo i (Defaults c)).
  { apply parseOverrideStrict_some in Hp as [_ Hd%decode_override_lenient].
    unfold EffectiveFor. by rewrite Hd, (proj2 (Nat.eqb_neq _ _) Hl). }
  rewrite <-Heff. intros Hv. split_and!; [by exists i|by apply validateMergedDefaults_spec|done].
Qed.

End properties.

(** An accepted override has no silent no-op. Every entry of it is an object under
    one of the two trigger names, and every key inside names a field that the parsed
    override sets: no unknown key, no [null], no key lost to a later one. *)
Theorem parseOverrideStrict_no_noop raw i :
  parseOverrideStrict raw = Some i → Forall (entry_effective i) raw.
Proof.
  intros [Hnf Hd]%parseOverrideStrict_some.
  apply (decode_struct_sets (override_fields true) (λ _ _, True) _ _ _) in Hd as Hd'; [|done..|by apply null_free_entries].
  apply list.Forall_forall. intros e He. unfold decode_override in Hd. cbn [decode_struct] in Hd.
  pose proof (null_free_marshal _ (null_free_entries _ Hnf)) as Hm.
  eapply (decode_establishes (override_fields true) null_free (λ i, entry_effective i e));
    [| |exact Hm|by rewrite marshal_perm|exact Hd].
  - intros f j s s'. apply entry_effective_keeps.
  - intros f s s' Hf Hk. apply entry_effective_sets; [done..|].
    rewrite list.Forall_forall in Hm. apply Hm. by rewrite marshal_perm.
Qed.

(** The cross-field rule in 64-bit arithmetic. With a positive spike duration and
    window, [validateSpikeCross] accepts exactly the windows of at least twice the
    duration, and, since the product wraps, every duration of [2^62] ns or more. *)
Theorem validateSpikeCross_overflow s :
  int64 (WindowSize s) → int64 (SpikeDuration s) → 0 < WindowSize s → 0 < SpikeDuration s →
  validateSpikeCross s = true ↔ 2 * SpikeDuration s ≤ WindowSize s ∨ 2 ^ 62 ≤ SpikeDuration s.
Proof.
  intros HW HD HpW HpD. unfold validateSpikeCross, mul64. rewrite wrap64_double by done.
  unfold int64, min64, max64 in *. repeat case_test; rewrite negb_true_iff, Z.ltb_ge; lia.
Qed.

(** ** Witnesses *)

Definition sample_spike : ActivitySpikeTrigger :=
  mkActivitySpikeTrigger true (10 * Minute) 50 (2 * Minute) (5 * Minute) 0.

Definition sample_config : Config :=
  mkConfig true (30 * Second) (10 * Minute) (10 ^ 10) 3 5 true 3 (500 * Millisecond) false
    true "0 3 * * *" 50 30 14 true "*/30 * * * *" 30
    (mkTriggerDefaults sample_spike (mkRoleChangeTrigger true DirectionBoth)).

Definition sample_override : list (string * json) :=
  [("role_change"%string, JObject [("direction"%string, JString "replica_to_master")]);
   ("activity_spike"%string, JObject [("window_size"%string, JString "1h30m"); ("spike_duration"%string, JString "2.5m");
     ("active_threshold_pct"%string, JNumber "120")])].

Example parse_durations :
  ParseDuration <$> ["1h30m"; "2.5m"; "-1.5s"; "300ms"; "0"; "1"; "2562047h47m16.854775808s"]%string =
  [Some (90 * Minute); Some (150 * Second); Some (-1500 * Millisecond); Some (300 * Millisecond); Some 0; None; None].
Proof. by vm_compute. Qed.

Example duration_strings :
  duration_String <$> [0; 5; 1500; 2 * Millisecond; 1500 * Millisecond; 90 * Minute; - 61 * Second; min64] =
  ["0s"; "5ns"; "1.5" +:+ micro_sign 194 181; "2ms"; "1.5s"; "1h30m0s"; "-1m1s"; "-2562047h47m16.854775808s"]%string.
Proof. by vm_compute. Qed.

Example duration_round_trips :
  (λ d, ParseDuration (duration_String d)) <$> [0; 1; 999999; 1234567; 90 * Minute; -1500 * Millisecond; max64; min64] =
  Some <$> [0; 1; 999999; 1234567; 90 * Minute; -1500 * Millisecond; max64; min64].
Proof. by vm_compute. Qed.

Example effective_sample :
  EffectiveFor sample_config sample_override =
    mkTriggerDefaults (mkActivitySpikeTrigger true (90 * Minute) 120 (150 * Second) (5 * Minute) 0)
      (mkRoleChangeTrigger true DirectionReplicaToMaster).
Proof. by vm_compute. Qed.

(** A key that folds to the name of a field sets it; a [null] is refused by the strict
    parser and ignored by the lenient one. *)
Example folded_key :
  (decode_override true [("Role_Change"%string, JObject [("ENABLED"%string, JBool false)])],
   parseOverrideStrict [("role_change"%string, JNull)],
   decode_override false [("role_change"%string, JNull); ("other"%string, JBool true)]) =
  (Some (mkOverrideInput None (Some (mkRoleChangeOverride (Some false) None))), None, Some empty_override).
Proof. by vm_compute. Qed.

Lemma ValidateOverride_effective_witness :
  triggers_valid (EffectiveFor sample_config sample_override).
Proof.
  eapply (@ValidateOverride_effective tag_validator _ sample_config sample_override); [done|].
  vm_compute. reflexivity.
Defined.

Lemma parseOverrideStrict_no_noop_witness :
  ∃ i, parseOverrideStrict sample_override = Some i ∧ Forall (entry_effective i) sample_override.
Proof.
  eexists. split; [vm_compute; reflexivity|]. apply parseOverrideStrict_no_noop. vm_compute. reflexivity.
Defined.

(** The overflow: a spike of about 146 years against a window of one hour. *)
Lemma validateSpikeCross_overflow_witness :
  validateSpikeCross (mkActivitySpikeTrigger true Hour 50 (2 ^ 62) 0 0) = true.
Proof.
  apply validateSpikeCross_overflow; cbn; [by apply (bool_decide_unpack _)..| | |right]; done.
Defined.
