(* ===== verification/SpikeMachine.v ===== *)
(** * [internal/autosnapshot], the per-host state machine

    The state the daemon keeps per host, the folding of one activity probe into a forming
    spike ([advanceSpike], [spikeCoverage], [resetSpike] in [daemon.go]) and the pure
    helpers of [triggers.go]. A forming spike is specified as the list of its probes
    ([candidate]); the counters of the code are the summary of that list. *)

From S2P Require Import Prelude GoFloat AutoConfig.
From stdpp Require Import options.

#[local] Set Warnings "-inexact-float".
#[local] Set Default Proof Using "Type*".

(** ** Data *)

Record activitySample := mkActivitySample { as_at : time; as_count : Z }.

Record BackgroundPeak := mkBackgroundPeak { bp_BlockedCount : Z; bp_At : time }.

(** A pointer field is an [option]; no code changes a value behind one of these
    pointers after it is set. *)
Record hostState := mkHostState {
  windowSamples : list activitySample;
  lastInRecovery : option bool;
  aboveThresholdSince : option time;
  lastAboveAt : option time;
  spikeAbove : Z;
  spikeTotal : Z;
  spikePeak : Z;
  lastBelowBaselineAt : option time;
  lockPeak : option BackgroundPeak;
  inSpike : bool;
  recoveryBelowSince : option time;
  spikeThreshold : float
}.

(** [&hostState{}]. *)
Definition new_hostState : hostState :=
  mkHostState [] None None None 0 0 0 None None false None 0%float.

(** The fields the code assigns on their own. *)
Definition set_windowSamples v s := mkHostState v (lastInRecovery s) (aboveThresholdSince s) (lastAboveAt s)
  (spikeAbove s) (spikeTotal s) (spikePeak s) (lastBelowBaselineAt s) (lockPeak s) (inSpike s)
  (recoveryBelowSince s) (spikeThreshold s).
Definition set_lastInRecovery v s := mkHostState (windowSamples s) v (aboveThresholdSince s) (lastAboveAt s)
  (spikeAbove s) (spikeTotal s) (spikePeak s) (lastBelowBaselineAt s) (lockPeak s) (inSpike s)
  (recoveryBelowSince s) (spikeThreshold s).
Definition set_lastBelowBaselineAt v s := mkHostState (windowSamples s) (lastInRecovery s) (aboveThresholdSince s)
  (lastAboveAt s) (spikeAbove s) (spikeTotal s) (spikePeak s) v (lockPeak s) (inSpike s)
  (recoveryBelowSince s) (spikeThreshold s).
Definition set_lockPeak v s := mkHostState (windowSamples s) (lastInRecovery s) (aboveThresholdSince s)
  (lastAboveAt s) (spikeAbove s) (spikeTotal s) (spikePeak s) (lastBelowBaselineAt s) v (inSpike s)
  (recoveryBelowSince s) (spikeThreshold s).
Definition set_inSpike v s := mkHostState (windowSamples s) (lastInRecovery s) (aboveThresholdSince s)
  (lastAboveAt s) (spikeAbove s) (spikeTotal s) (spikePeak s) (lastBelowBaselineAt s) (lockPeak s) v
  (recoveryBelowSince s) (spikeThreshold s).
Definition set_recoveryBelowSince v s := mkHostState (windowSamples s) (lastInRecovery s) (aboveThresholdSince s)
  (lastAboveAt s) (spikeAbove s) (spikeTotal s) (spikePeak s) (lastBelowBaselineAt s) (lockPeak s) (inSpike s)
  v (spikeThreshold s).
Definition set_spikeThreshold v s := mkHostState (windowSamples s) (lastInRecovery s) (aboveThresholdSince s)
  (lastAboveAt s) (spikeAbove s) (spikeTotal s) (spikePeak s) (lastBelowBaselineAt s) (lockPeak s) (inSpike s)
  (recoveryBelowSince s) v.
(** The five fields that describe the running candidate, apart from the lock peak. *)
Definition set_candidate since last above total peak s := mkHostState (windowSamples s) (lastInRecovery s)
  since last above total peak (lastBelowBaselineAt s) (lockPeak s) (inSpike s) (recoveryBelowSince s)
  (spikeThreshold s).

Inductive spikeStep := spikeAborted | spikeStarted | spikeForming.

Definition minSpikeCoverage : float := 0.7%float.
Definition dipGraceDivisor : Z := 2.
Definition staleCandidateFactor : Z := 4.

(** ** Operations *)

Definition resetSpike (s : hostState) : hostState :=
  set_lockPeak None (set_candidate None None 0 0 0 s).

(** [now.Sub(t) > bound], for a time that may be unset. *)
Definition older_than (now : time) (t : option time) (bound : duration) : bool :=
  match t with Some t => bound <? time_sub now t | None => false end.

Definition is_unset {A} (o : option A) : bool := match o with None => true | Some _ => false end.

Definition advanceSpike (s : hostState) (now : time) (count : Z) (threshold : float)
    (spikeDuration : duration) : spikeStep * hostState :=
  let s := if older_than now (aboveThresholdSince s) (staleCandidateFactor ⊠ spikeDuration)
           then resetSpike s else s in
  if (to_float count <? threshold)%float then
    if is_unset (aboveThresholdSince s) || is_unset (lastAboveAt s) ||
       older_than now (lastAboveAt s) (div64 spikeDuration dipGraceDivisor)
    then (spikeAborted, resetSpike s)
    else (spikeForming, set_candidate (aboveThresholdSince s) (lastAboveAt s) (spikeAbove s)
                          (spikeTotal s ⊞ 1) (spikePeak s) s)
  else
    let peak := if spikePeak s <? count then count else spikePeak s in
    let s' since := set_candidate since (Some now) (spikeAbove s ⊞ 1) (spikeTotal s ⊞ 1) peak s in
    match aboveThresholdSince s with
    | None => (spikeStarted, s' (Some now))
    | Some t => (spikeForming, s' (Some t))
    end.

Definition spikeCoverage (s : hostState) : float :=
  if spikeTotal s =? 0 then 0%float else (to_float (spikeAbove s) / to_float (spikeTotal s))%float.

(** [belowBaselineDue]. *)
Definition belowBaselineDue (s : hostState) (now : time) (every : duration) : bool :=
  match lastBelowBaselineAt s with None => true | Some t => every <=? time_sub now t end.

Fixpoint trimSamples (samples : list activitySample) (cutoff : time) : list activitySample :=
  match samples with
  | [] => []
  | x :: rest => if negb (time_before (as_at x) cutoff) then samples else trimSamples rest cutoff
  end.

(** [samples[:len(samples)-1]] is [removelast]. *)
Definition averageExcludingLast (samples : list activitySample) : float :=
  if Nat.leb (length samples) 1 then 0%float
  else
    let sum := foldl (λ sum s, sum ⊞ as_count s) 0 (removelast samples) in
    (to_float sum / to_float (Z.of_nat (length samples) - 1))%float.

Definition roleLabel (inRecovery : bool) : string := if inRecovery then "replica" else "master".

Definition roleLabels (prevInRecovery curInRecovery : bool) : string * string :=
  (roleLabel prevInRecovery, roleLabel curInRecovery).

Definition directionOf (prevInRecovery curInRecovery : bool) : string :=
  if negb prevInRecovery && curInRecovery then DirectionMasterToReplica else DirectionReplicaToMaster.

Definition directionAllowed (allowed actual : string) : bool :=
  if decide (allowed = DirectionBoth) then true else bool_decide (allowed = actual).

(** ** Specification: a forming spike as the list of its probes *)

(** A probe of the candidate, with the count of one at or above the threshold. *)
Record probe := mkProbe { p_at : time; p_above : option Z }.

(** Newest first; [] when no spike is forming. *)
Abbreviation candidate := (list probe).

Definition above_probes (c : candidate) : list (time * Z) :=
  omap (λ p, (p_at p,.) <$> p_above p) c.

(** When the candidate was opened, and when the load was last seen above. *)
Definition opened_at (c : candidate) : option time := p_at <$> last c.
Definition last_above (c : candidate) : option time := fst <$> head (above_probes c).
Definition peak_of (c : candidate) : Z := foldr (λ x m, Z.max x.2 m) 0 (above_probes c).

(** The state's candidate fields are the summary of the probes. *)
Definition summarises (s : hostState) (c : candidate) : Prop :=
  aboveThresholdSince s = opened_at c ∧ lastAboveAt s = last_above c ∧
  spikeAbove s = wrap64 (Z.of_nat (length (above_probes c))) ∧
  spikeTotal s = wrap64 (Z.of_nat (length c)) ∧ spikePeak s = peak_of c ∧
  (c = [] → lockPeak s = None).

(** A candidate is opened by a probe above the threshold, and its probes are in order. *)
Definition candidate_ok (c : candidate) : Prop :=
  (∀ p, last c = Some p → is_Some (p_above p)).

(** What one probe does to the candidate. *)
Definition advance (c : candidate) (now : time) (count : Z) (above : bool) (D : duration) : spikeStep * candidate :=
  let c := if older_than now (opened_at c) (staleCandidateFactor ⊠ D) then [] else c in
  if above then (if decide (c = []) then spikeStarted else spikeForming, mkProbe now (Some count) :: c)
  else if decide (c = []) then (spikeAborted, [])
  else if older_than now (last_above c) (div64 D dipGraceDivisor) then (spikeAborted, [])
  else (spikeForming, mkProbe now None :: c).

(** The probe a count and a threshold make. *)
Definition is_above (count : Z) (threshold : float) : bool := negb (to_float count <? threshold)%float.

Definition probe_of (x : time * Z * float) : probe :=
  let '(t, n, threshold) := x in mkProbe t (if is_above n threshold then Some n else None).

(** A host's state after a series of probes, under one spike duration. *)
Definition run_probes (D : duration) (probes : list (time * Z * float)) : hostState :=
  foldl (λ s '(t, n, threshold), (advanceSpike s t n threshold D).2) new_hostState probes.

(** At its newest probe the candidate is at most four spike durations old, and each of
    its dips was seen within half a spike duration of the last probe above. *)
Fixpoint dips_tolerated (D : duration) (c : candidate) : Prop :=
  match c with
  | [] => True
  | p :: c' =>
      (p_above p = None → ∃ t, last_above c' = Some t ∧ time_sub (p_at p) t ≤ D / 2) ∧ dips_tolerated D c'
  end.

Definition fresh (D : duration) (c : candidate) : Prop :=
  (∀ p t, head c = Some p → opened_at c = Some t → time_sub (p_at p) t ≤ 4 * D) ∧ dips_tolerated D c.

(** ** Lemmas *)

Lemma resetSpike_summarises s : summarises (resetSpike s) [].
Proof. by split_and!. Qed.

Lemma summarises_nil s : summarises s [] → resetSpike s = s.
Proof.
  intros (H1 & H2 & H3 & H4 & H5 & H6). specialize (H6 eq_refl). destruct s. cbn in *. by subst.
Qed.

Lemma opened_at_cons p c : opened_at (p :: c) = if decide (c = []) then Some (p_at p) else opened_at c.
Proof. unfold opened_at. destruct c; [done|]. cbn. by case_decide. Qed.

Lemma opened_at_none c : opened_at c = None ↔ c = [].
Proof. unfold opened_at. rewrite fmap_None, last_None. done. Qed.

Lemma last_above_some c : candidate_ok c → c ≠ [] → is_Some (last_above c).
Proof.
  intros Hok Hne. destruct (last c) as [p|] eqn:Hl; [|by apply last_None in Hl].
  destruct (Hok p Hl) as [n Hn]. unfold last_above. apply last_Some in Hl as [c' ->].
  unfold above_probes. rewrite omap_app. cbn. rewrite Hn. cbn.
  destruct (omap _ c') as [|x xs]; cbn; by eexists.
Qed.

Lemma wrap64_succ n : wrap64 (Z.of_nat n) ⊞ 1 = wrap64 (Z.of_nat (S n)).
Proof. unfold add64. rewrite wrap64_add_l. f_equal. lia. Qed.

Lemma time_sub_self t : time_sub t t = 0.
Proof. unfold time_sub, min64, max64. lia. Qed.

(** The fields of a host that a probe does not concern. *)
Definition same_rest (s s' : hostState) : Prop :=
  windowSamples s' = windowSamples s ∧ lastInRecovery s' = lastInRecovery s ∧
  lastBelowBaselineAt s' = lastBelowBaselineAt s ∧ inSpike s' = inSpike s ∧
  recoveryBelowSince s' = recoveryBelowSince s ∧ spikeThreshold s' = spikeThreshold s.

(** The lock peak lives as long as its candidate. *)
Definition lock_peak_kept (c c' : candidate) (s s' : hostState) : Prop :=
  (∃ p, c' = p :: c ∧ lockPeak s' = lockPeak s) ∨ (length c' ≤ 1)%nat ∧ lockPeak s' = None.

Definition step_refined (s : hostState) (c : candidate) (r : spikeStep * hostState) (r' : spikeStep * candidate) : Prop :=
  r.1 = r'.1 ∧ summarises r.2 r'.2 ∧ candidate_ok r'.2 ∧ same_rest s r.2 ∧ lock_peak_kept c r'.2 s r.2.

Lemma candidate_ok_nil : candidate_ok [].
Proof. by intros p [=]. Qed.

Lemma candidate_ok_cons p c : candidate_ok c → (c = [] → is_Some (p_above p)) → candidate_ok (p :: c).
Proof.
  intros Hok Hp q. destruct c as [|x c]; cbn [last]; [intros [= <-]; by apply Hp|apply Hok].
Qed.

(** One probe after the staleness check. *)
Lemma advance_fresh s c now count threshold D :
  summarises s c → candidate_ok c →
  older_than now (opened_at c) (staleCandidateFactor ⊠ D) = false →
  step_refined s c (advanceSpike s now count threshold D) (advance c now count (is_above count threshold) D).
Proof.
  intros Hs Hok Hfresh. destruct Hs as (Hsince & Hlast & Habove & Htotal & Hpeak & Hlock) eqn:E. clear E.
  unfold advanceSpike, advance. rewrite Hsince, Hfresh, Hsince, Hlast. unfold is_above.
  destruct (to_float count <? threshold)%float; cbn [negb].
  - destruct (decide (c = [])) as [->|Hne].
    { unfold step_refined, lock_peak_kept. cbn.
      split; [done|]. split; [by apply resetSpike_summarises|]. split; [done|]. split; [by split_and!|].
      right. split; [lia|done]. }
    destruct (last_above_some c Hok Hne) as [t Ht]. rewrite Ht.
    destruct (opened_at c) as [o|] eqn:Ho; [|by apply opened_at_none in Ho]. cbn [is_unset orb].
    destruct (older_than now (Some t) _).
    { split; [done|]. split; [apply resetSpike_summarises|]. split; [by apply candidate_ok_nil|].
      split; [done|]. right. split; [cbn; lia|done]. }
    split; [done|]. split; [|split; [by apply candidate_ok_cons|split; [done|left; by eexists]]].
    cbn. split_and!; [by rewrite opened_at_cons, decide_False|done..| |done|done].
    by rewrite Htotal, wrap64_succ.
  - assert (Hnew : ∀ since, since = default now (opened_at c) →
      let s' := set_candidate (Some since) (Some now) (spikeAbove s ⊞ 1) (spikeTotal s ⊞ 1)
        (if spikePeak s <? count then count else spikePeak s) s in
      summarises s' (mkProbe now (Some count) :: c) ∧ same_rest s s' ∧ lockPeak s' = lockPeak s).
    { intros since ->. split; [|done]. cbn. split_and!.
      - rewrite opened_at_cons. case_decide; [by subst|].
        destruct (opened_at c) eqn:Ho; [done|]. by apply opened_at_none in Ho.
      - done.
      - by rewrite Habove, wrap64_succ.
      - by rewrite Htotal, wrap64_succ.
      - rewrite Hpeak. unfold peak_of, above_probes. cbn. case_test; lia.
      - done. }
    assert (Hok' : candidate_ok (mkProbe now (Some count) :: c)) by (apply candidate_ok_cons; [done|by eexists]).
    destruct (opened_at c) as [o|] eqn:Ho.
    + rewrite decide_False by (intros ->; done). specialize (Hnew o eq_refl) as (H1 & H2 & H3).
      split_and!; try done. left. by eexists.
    + apply opened_at_none in Ho as ->. cbn. specialize (Hnew now eq_refl) as (H1 & H2 & H3).
      split; [done|]. split; [done|]. split; [done|]. split; [done|]. left. by eexists.
Qed.

Lemma mul64_small a b : int64 (a * b) → a ⊠ b = a * b.
Proof. apply wrap64_id. Qed.

Lemma dip_grace D : 0 ≤ D < 2 ^ 61 → div64 D dipGraceDivisor = D / 2.
Proof.
  intros HD. unfold div64, dipGraceDivisor. rewrite Z.quot_div_nonneg by lia.
  pose proof (Z.div_lt_upper_bound D 2 (2 ^ 61)). pose proof (Z.div_pos D 2).
  apply wrap64_id. unfold int64, min64, max64. lia.
Qed.

Lemma advance_cases c now n ab D :
  0 ≤ D < 2 ^ 61 → candidate_ok c → fresh D c →
  let p := mkProbe now (if ab : bool then Some n else None) in
  let c' := (advance c now n ab D).2 in
  fresh D c' ∧ (c' = [] ∨ c' = [p] ∨ c' = p :: c).
Proof.
  intros HD Hok [Hage Hdips]. unfold advance. rewrite dip_grace by done.
  rewrite mul64_small by (unfold int64, min64, max64, staleCandidateFactor; lia).
  assert (Hnil : fresh D []) by (by split; [intros ?? [=]|]).
  assert (Hone : fresh D [mkProbe now (Some n)]).
  { split; [|by split]. intros p t [= <-] [= <-]. cbn. rewrite time_sub_self. lia. }
  unfold older_than, staleCandidateFactor. destruct (opened_at c) as [o|] eqn:Ho.
  - assert (Hne : c ≠ []) by (intros ->; done).
    destruct (Z.ltb_spec (4 * D) (time_sub now o)); [destruct ab; cbn; tauto|]. rewrite !decide_False by done.
    assert (Hage' : ∀ x p t, head (mkProbe now x :: c) = Some p → opened_at (mkProbe now x :: c) = Some t →
      time_sub (p_at p) t ≤ 4 * D).
    { intros x p t [= <-]. rewrite opened_at_cons, decide_False, Ho by done. intros [= <-]. cbn. lia. }
    destruct ab; cbn [snd]; [split; [|by right; right]; split; [by apply Hage'|by split]|].
    destruct (last_above c) as [t|] eqn:Hl.
    + destruct (Z.ltb_spec (D / 2) (time_sub now t)); [by split; [|left]|]. cbn [snd].
      split; [|by right; right]. split; [by apply Hage'|]. split; [|done]. intros _. by exists t.
    + destruct (last_above_some c Hok Hne) as [t Ht]. by rewrite Ht in Hl.
  - apply opened_at_none in Ho as ->. rewrite !decide_True by done. destruct ab; cbn; tauto.
Qed.

Lemma run_probes_snoc D probes t n threshold :
  run_probes D (probes ++ [(t, n, threshold)]) = (advanceSpike (run_probes D probes) t n threshold D).2.
Proof. unfold run_probes. by rewrite foldl_app. Qed.

Lemma advanceSpike_cases s c now count threshold D :
  summarises s c → candidate_ok c →
  step_refined s c (advanceSpike s now count threshold D) (advance c now count (is_above count threshold) D).
Proof.
  intros Hs Hok. destruct (older_than now (opened_at c) (staleCandidateFactor ⊠ D)) eqn:Hstale; [|by apply advance_fresh].
  destruct (advance_fresh (resetSpike s) [] now count threshold D) as (H1 & H2 & H3 & H4 & H5);
    [apply resetSpike_summarises|apply candidate_ok_nil|done|].
  replace (advanceSpike s now count threshold D) with (advanceSpike (resetSpike s) now count threshold D).
  - replace (advance c now count (is_above count threshold) D) with (advance [] now count (is_above count threshold) D).
    + split; [done|]. split; [done|]. split; [done|]. split; [done|].
      destruct H5 as [(p & Hc & Hl)|H5]; right; [|done]. rewrite Hc, Hl. cbn. split; [lia|done].
    + unfold advance. by rewrite Hstale.
  - unfold advanceSpike. destruct Hs as (Hsince & _). by rewrite Hsince, Hstale.
Qed.

(** ** Properties *)

(** C5: [advanceSpike] implements the candidate: whatever a probe does to the state of a
    host that summarises a list of probes, it does to the list. Above and total are the
    numbers of probes (modulo [2^64]), the peak is the highest count, the two times are
    those of the first and of the last probe above; a lock peak never outlives its
    candidate, and no other field of the host changes. *)
Theorem advanceSpike_refines s c now count threshold D :
  summarises s c → candidate_ok c →
  step_refined s c (advanceSpike s now count threshold D) (advance c now count (is_above count threshold) D).
Proof. apply advanceSpike_cases. Qed.

(** What any series of probes leaves behind. The candidate is a run of the newest
    probes of the series, none of them skipped; it was opened by a probe above the
    threshold at most four spike durations before its newest probe; and every dip in it
    was seen within half a spike duration of the last probe above. The host's counters
    summarise it. *)
Theorem run_probes_candidate D probes :
  0 ≤ D < 2 ^ 61 →
  ∃ k, let c := take k (reverse (probe_of <$> probes)) in
    summarises (run_probes D probes) c ∧ candidate_ok c ∧ fresh D c.
Proof.
  intros HD. induction probes as [|[[t n] threshold] probes (k & Hs & Hok & Hf)] using rev_ind.
  - exists 0%nat. split_and!; [done|apply candidate_ok_nil|]. by split; [intros ?? [=]|].
  - rewrite run_probes_snoc, fmap_app, reverse_app. cbn [probe_of fmap list_fmap reverse rev_append app].
    destruct (advanceSpike_cases _ _ t n threshold D Hs Hok) as (_ & Hs' & Hok' & _).
    destruct (advance_cases _ t n (is_above n threshold) D HD Hok Hf) as (Hf' & Hc').
    revert Hs' Hok' Hf' Hc'. generalize (advance (take k (reverse (probe_of <$> probes))) t n (is_above n threshold) D).2.
    intros c' Hs' Hok' Hf' [->|[->| ->]]; [by exists 0%nat|by exists 1%nat|by exists (S k)].
Qed.

(** A sustained load is not lost. If every probe since the candidate opened was at
    or above the threshold, and the newest is within four spike durations of the first,
    then the candidate holds all of them: its age is the whole time of the load, and its
    coverage counts every probe, [above = total]. So once the load has lasted a spike
    duration the candidate satisfies the age test of the daemon. *)
Theorem sustained_load D t0 probes :
  0 ≤ D < 2 ^ 61 → probes ≠ [] → Z.of_nat (length probes) ≤ max64 →
  head (fst ∘ fst <$> probes) = Some t0 →
  Forall (λ x, is_above x.1.2 x.2 = true ∧ 0 ≤ x.1.1 - t0 ≤ 4 * D) probes →
  let s := run_probes D probes in
  aboveThresholdSince s = Some t0 ∧ spikeAbove s = spikeTotal s ∧
  spikeTotal s = Z.of_nat (length probes).
Proof.
  intros HD Hne Hlen Hhd Hall.
  assert (H : ∃ c, summarises (run_probes D probes) c ∧ candidate_ok c ∧ opened_at c = Some t0 ∧
    length c = length probes ∧ Forall (λ p, is_Some (p_above p)) c).
  { clear Hlen. induction probes as [|[[t n] threshold] probes IH] using rev_ind; [done|].
    apply Forall_app in Hall as [Hall [[Hab Ht] _]%Forall_cons]. cbn [fst snd] in *.
    rewrite run_probes_snoc.
    assert (Hpre : ∃ c, summarises (run_probes D probes) c ∧ candidate_ok c ∧
      older_than t (opened_at c) (4 * D) = false ∧ default t (opened_at c) = t0 ∧
      length c = length probes ∧ Forall (λ p, is_Some (p_above p)) c).
    { destruct (decide (probes = [])) as [->|Hne'].
      - exists []. cbn in Hhd. simplify_eq. split_and!; [done|apply candidate_ok_nil|done..|constructor].
      - destruct IH as (c & Hs & Hok & Ho & Hl & Hf); [done|by destruct probes|done|].
        exists c. rewrite Ho. split_and!; try done. unfold older_than, time_sub, min64, max64.
        apply Z.ltb_ge. lia. }
    destruct Hpre as (c & Hs & Hok & Hage & Ho & Hl & Hf).
    destruct (advanceSpike_cases _ _ t n threshold D Hs Hok) as (_ & Hs' & Hok' & _). rewrite Hab in *.
    exists (mkProbe t (Some n) :: c).
    assert (Hadv : (advance c t n true D).2 = mkProbe t (Some n) :: c).
    { unfold advance. rewrite mul64_small by (unfold int64, min64, max64, staleCandidateFactor; lia).
      change (staleCandidateFactor * D) with (4 * D). by rewrite Hage. }
    rewrite Hadv in *. split_and!; [done..| | |by constructor; [eexists|]].
    + rewrite opened_at_cons. case_decide as Hc; [by rewrite Hc in Ho; cbn in Ho; rewrite Ho|].
      destruct (opened_at c) eqn:E; [by cbn in Ho; rewrite Ho|by apply opened_at_none in E].
    + rewrite length_app. cbn. lia. }
  destruct H as (c & (Hsince & _ & Habove & Htotal & _) & _ & Ho & Hl & Hf). cbn.
  rewrite Hsince, Habove, Htotal, Ho.
  replace (length (above_probes c)) with (length c).
  - split_and!; try done. rewrite Hl. apply wrap64_id. unfold int64, min64 in *. lia.
  - clear -Hf. induction Hf as [|p c [n Hn] Hf IH]; [done|]. unfold above_probes in *. cbn. rewrite Hn. cbn. by rewrite IH.
Qed.

(** ** Witnesses *)

(** Probes every 30 s against a threshold of 10: a ramp that dips once. *)
Definition sample_probes : list (time * Z * float) :=
  (λ x, (x.1 * Second, x.2, 10%float)) <$> [(0, 12); (30, 14); (60, 9); (90, 20); (120, 15)].

Example sample_run :
  let s := run_probes (2 * Minute) sample_probes in
  (aboveThresholdSince s, spikeAbove s, spikeTotal s, spikePeak s) = (Some 0, 4, 5, 20).
Proof. by vm_compute. Qed.

(** A dip of more than half the spike duration ends the candidate. *)
Example sample_abort :
  aboveThresholdSince (run_probes Minute ((λ x, (x.1 * Second, x.2, 10%float)) <$> [(0, 12); (40, 3)])) = None.
Proof. by vm_compute. Qed.

Lemma run_probes_candidate_witness :
  ∃ k, summarises (run_probes (2 * Minute) sample_probes) (take k (reverse (probe_of <$> sample_probes))).
Proof.
  destruct (run_probes_candidate (2 * Minute) sample_probes) as (k & Hs & _); [done|by exists k].
Defined.

Lemma advanceSpike_refines_witness :
  step_refined new_hostState [] (advanceSpike new_hostState 5 12 10%float Minute)
    (spikeStarted, [mkProbe 5 (Some 12)]).
Proof.
  apply (advanceSpike_refines new_hostState [] 5 12 10%float Minute); [by split_and!|by intros p [=]].
Defined.

Lemma sustained_load_witness :
  spikeTotal (run_probes Minute ((λ t, (t * Second, 12, 10%float)) <$> [0; 30; 60; 90])) = 4.
Proof.
  apply (sustained_load Minute 0); [done|done|done|done|].
  repeat constructor; try (by vm_compute); by apply (bool_decide_unpack _).
Defined.
