(* ===== verification/AutoEffects.v ===== *)
(** * [internal/autosnapshot], the daemon's state and its surroundings

    The daemon talks to a repository (the monitored hosts), a store (its own database),
    the cluster list and the clock: the interfaces [Repo], [Store] and [config.Clusters]
    of [daemon.go]. A call of one of their methods is a [call]; an environment [Env]
    answers it, with any value of its result type or with a panic, and may keep a state
    of its own. [M] is the monad of the daemon's code: the daemon's mutable state, the
    environment's state and the trace of the calls made so far. A panic ends the
    computation and keeps the state it reached. Log output is left out. *)

From S2P Require Import Prelude GoFloat StatIO HotObjects AutoConfig SpikeMachine.
From stdpp Require Import options.

#[local] Set Warnings "-inexact-float".
#[local] Set Default Proof Using "Type*".

(** ** Data *)

(** An [error], by its text. The code tells errors apart in one place only, to choose the
    level of a log line. *)
Record error := new_error { err_Error : string }.

(** [(T, error)]. *)
Abbreviation result A := (error + A)%type.

(** The fields of [config.Cluster] the daemon reads. *)
Record Cluster := mkCluster { cl_Name : string; cl_Databases : list string; cl_Hosts : list string }.

(** [hostKey]: cluster and instance. *)
Abbreviation hostKey := (string * string)%type.

Definition TriggerActivitySpike : string := "activity_spike".
Definition TriggerRoleChange : string := "role_change".
Definition TriggerActivityDrop : string := "activity_drop".
Definition TriggerDeferred : string := "deferred".

Definition OutcomeSnapshotCreated : string := "snapshot_created".
Definition OutcomeError : string := "error".

(** A value of a [map[string]any] trigger context. *)
Inductive any := AString (s : string) | AInt (z : Z) | AFloat (f : float).
Abbreviation context := (list (string * any)).

(** [uuid.UUID], by its text. *)
Abbreviation uuid := string.

(** [ID] and [CreatedAt] are left to the store. *)
Record TriggerEvent := mkTriggerEvent {
  ev_ClusterName : string;
  ev_Instance : string;
  ev_Database : option string;
  ev_TriggerType : string;
  ev_Outcome : string;
  ev_SnapshotID : option uuid;
  ev_TriggerContext : context;
  ev_ErrorMessage : option string
}.

Record PendingSnapshot := mkPendingSnapshot {
  ps_ClusterName : string;
  ps_Instance : string;
  ps_Database : string;
  ps_Reason : string
}.

Record PartitionSize := mkPartitionSize { Day : time; TotalSize : Z }.

(** The fields of [dto.QueryBlocked] that the code reads or rewrites; the others are
    carried along in [qb_rest]. *)
Record QueryBlocked := mkQueryBlocked {
  BlockedPid : Z;
  BlockedDurationMs : option float;
  BlockedQuery : string;
  BlockingQuery : string;
  qb_rest : list string
}.

Record LockCapture := mkLockCapture {
  Captured : bool;
  Probes : Z;
  ProbeInterval : string;
  HarshestAt : option time;
  BlockedCount : Z;
  MaxWaitMs : float;
  lc_BackgroundPeak : option BackgroundPeak;
  lc_Rows : list QueryBlocked;
  lc_Error : string
}.

(** A row of the query report ([dto.QueryReport]); the daemon only counts and stores them. *)
Record QueryReport := mkQueryReport { QueryID : Z; Query : string }.

Record SnapshotOpts := mkSnapshotOpts {
  PgssStatsReset : option time;
  StatsSource : string;
  Reason : string;
  so_TriggerContext : context;
  LocksData : option LockCapture
}.

(** The mutable part of [Daemon]. [clock_set] says whether a clock was injected. The
    maps are guarded by [d.mu] where the code shares them; the daemon loop is the only
    writer. *)
Record Daemon := mkDaemon {
  leaderElection : bool;
  clock_set : bool;
  hosts : gmap hostKey hostState;
  lastAuto : gmap hostKey time;
  lastHotAttempt : gmap string time;
  lastIOAttempt : gmap string time;
  lastRetry : time;
  lastHotRetention : time;
  lastIORetention : time;
  lastInsightsRetention : time
}.

(** [NewDaemon]. *)
Definition NewDaemon (leaderElection : bool) : Daemon :=
  mkDaemon leaderElection false ∅ ∅ ∅ ∅ zero_time zero_time zero_time zero_time.

Definition set_hosts v d := mkDaemon (leaderElection d) (clock_set d) v (lastAuto d) (lastHotAttempt d)
  (lastIOAttempt d) (lastRetry d) (lastHotRetention d) (lastIORetention d) (lastInsightsRetention d).
Definition set_lastAuto v d := mkDaemon (leaderElection d) (clock_set d) (hosts d) v (lastHotAttempt d)
  (lastIOAttempt d) (lastRetry d) (lastHotRetention d) (lastIORetention d) (lastInsightsRetention d).
Definition set_lastHotAttempt v d := mkDaemon (leaderElection d) (clock_set d) (hosts d) (lastAuto d) v
  (lastIOAttempt d) (lastRetry d) (lastHotRetention d) (lastIORetention d) (lastInsightsRetention d).
Definition set_lastIOAttempt v d := mkDaemon (leaderElection d) (clock_set d) (hosts d) (lastAuto d)
  (lastHotAttempt d) v (lastRetry d) (lastHotRetention d) (lastIORetention d) (lastInsightsRetention d).
Definition set_lastRetry v d := mkDaemon (leaderElection d) (clock_set d) (hosts d) (lastAuto d)
  (lastHotAttempt d) (lastIOAttempt d) v (lastHotRetention d) (lastIORetention d) (lastInsightsRetention d).
Definition set_lastHotRetention v d := mkDaemon (leaderElection d) (clock_set d) (hosts d) (lastAuto d)
  (lastHotAttempt d) (lastIOAttempt d) (lastRetry d) v (lastIORetention d) (lastInsightsRetention d).
Definition set_lastIORetention v d := mkDaemon (leaderElection d) (clock_set d) (hosts d) (lastAuto d)
  (lastHotAttempt d) (lastIOAttempt d) (lastRetry d) (lastHotRetention d) v (lastInsightsRetention d).
Definition set_lastInsightsRetention v d := mkDaemon (leaderElection d) (clock_set d) (hosts d) (lastAuto d)
  (lastHotAttempt d) (lastIOAttempt d) (lastRetry d) (lastHotRetention d) (lastIORetention d) v.

(** ** Calls *)

Abbreviation sample_rows := (list AnchorRow * option time * bool)%type.

Inductive call :=
  (* time.Now, the injected clock, and what a context does *)
  | Now
  | Clock
  | WithTimeout (d : duration)
  | CtxErr
  | Sleep (d : duration)
  (* config.Clusters *)
  | GetClusters
  (* Repo *)
  | GetActiveConnectionCount (cluster instance : string)
  | GetBlockedSessionCount (cluster instance database : string)
  | GetInstanceInfo (cluster instance : string)
  | GetQueriesReport (cluster instance database : string)
  | GetQueriesBlocked (cluster instance database scope : string)
  | PgssDatabase (cluster instance database : string)
  | PgssSource (cluster instance database : string)
  | GetPgssStatsResetTime (cluster instance database : string)
  | ResetQueryStats (cluster instance database : string)
  | GetHotSampleTables (cluster instance database : string)
  | GetHotSampleIndexes (cluster instance database : string)
  | GetIOSample (cluster instance : string)
  (* Store *)
  | TryAcquireLeaderLock
  | CloseLeaderConn
  | UpdateLeaderHeartbeat (instanceID : string)
  | GetAutosnapshotConfig
  | ListClusterOverrides
  | LastAutoSnapshotAt
  | InsertTriggerEvent (e : TriggerEvent)
  | CreateSnapshot (cluster instance database : string) (reports : list QueryReport) (opts : SnapshotOpts)
  | EnqueuePendingSnapshot (p : PendingSnapshot) (dueAt : time)
  | ClaimDuePendingSnapshots
  | DeletePendingSnapshot (cluster instance : string)
  | ComputePartitionSizes
  | DropDayPartitions (day : time)
  | LastHotSnapshotAt
  | GetHotAnchors (cluster instance database : string)
  | GetLatestHotWindows (cluster database : string) (instances : list string) (since : time)
  | InsertHotSnapshotWithAnchors (snap : HotObjects.Snapshot) (anchors : gmap string (list AnchorRow))
  | DropHotPartitionsBefore (cutoff : time)
  | LastIOSnapshotAt
  | InsertIOSnapshot (cluster instance : string) (snap : StatIO.Snapshot)
  | DropIOPartitionsBefore (cutoff : time)
  | TruncateInsightsScans.

(** The result type of a call; [GetInstanceInfo] is read for [InRecovery] only. *)
Definition answer (c : call) : Type :=
  match c with
  | Now | Clock => time
  | WithTimeout _ => unit
  | CtxErr | Sleep _ => bool
  | GetClusters => result (list Cluster)
  | GetActiveConnectionCount _ _ | GetBlockedSessionCount _ _ _ => result Z
  | GetInstanceInfo _ _ => result bool
  | GetQueriesReport _ _ _ => result (list QueryReport)
  | GetQueriesBlocked _ _ _ _ => result (list QueryBlocked)
  | PgssDatabase _ _ _ | PgssSource _ _ _ => result string
  | GetPgssStatsResetTime _ _ _ => result (option time)
  | ResetQueryStats _ _ _ => option error
  | GetHotSampleTables _ _ _ | GetHotSampleIndexes _ _ _ => result sample_rows
  | GetIOSample _ _ => result (option StatIO.Snapshot)
  | TryAcquireLeaderLock => result bool
  | CloseLeaderConn | UpdateLeaderHeartbeat _ => option error
  | GetAutosnapshotConfig => result Config
  | ListClusterOverrides => result (gmap string (list (string * json)))
  | LastAutoSnapshotAt | LastHotSnapshotAt | LastIOSnapshotAt => result (gmap string time)
  | InsertTriggerEvent _ => option error
  | CreateSnapshot _ _ _ _ _ => result (uuid * time)
  | EnqueuePendingSnapshot _ _ => option error
  | ClaimDuePendingSnapshots => result (list PendingSnapshot)
  | DeletePendingSnapshot _ _ => option error
  | ComputePartitionSizes => result (list PartitionSize)
  | DropDayPartitions _ => option error
  | GetHotAnchors _ _ _ => result (gmap string AnchorRow)
  | GetLatestHotWindows _ _ _ _ => result (gmap string HostWindow)
  | InsertHotSnapshotWithAnchors _ _ => option error
  | DropHotPartitionsBefore _ => option error
  | InsertIOSnapshot _ _ _ => option error
  | DropIOPartitionsBefore _ => option error
  | TruncateInsightsScans => option error
  end.

(** ** Environments and the monad *)

(** The surroundings: the answer to a call ([None] is a panic) and their next state. *)
Class Env (W : Type) := env : ∀ c : call, W → option (answer c) * W.

(** A call that was made, with its answer. *)
Inductive event := Ev (c : call) (r : option (answer c)).

(** The trace is newest first. *)
Record sys (W : Type) := mkSys { daemon : Daemon; world : W; trace : list event }.
Arguments mkSys {_} _ _ _.
Arguments daemon {_} _.
Arguments world {_} _.
Arguments trace {_} _.

Section monad.
Context {W : Type}.

(** [None] is a panic on its way up the stack. *)
Definition M (A : Type) : Type := sys W → option A * sys W.

Definition ret {A} (a : A) : M A := λ s, (Some a, s).
Definition panic {A} : M A := λ s, (None, s).
Definition bind {A B} (m : M A) (f : A → M B) : M B :=
  λ s, match m s with (Some a, s') => f a s' | (None, s') => (None, s') end.

Definition gets {A} (f : Daemon → A) : M A := λ s, (Some (f (daemon s)), s).
Definition modify (f : Daemon → Daemon) : M unit :=
  λ s, (Some tt, mkSys (f (daemon s)) (world s) (trace s)).

Definition do {E : Env W} (c : call) : M (answer c) :=
  λ s, let '(r, w) := env c (world s) in (r, mkSys (daemon s) w (Ev c r :: trace s)).

(** [defer func() { if r := recover(); r != nil {...} }()]. *)
Definition recovering (m : M unit) : M unit :=
  λ s, match m s with (_, s') => (Some tt, s') end.

(** A [for] loop over a slice. *)
Fixpoint each {A} (l : list A) (f : A → M unit) : M unit :=
  match l with [] => ret tt | x :: l' => bind (f x) (λ _, each l' f) end.

End monad.

Arguments M : clear implicits.

Declare Scope daemon_scope.
Delimit Scope daemon_scope with daemon.
Notation "x ⟵ m ; k" := (bind m (λ x, k))
  (at level 100, m at next level, k at level 200, right associativity) : daemon_scope.
Notation "m ;; k" := (bind m (λ _, k))
  (at level 100, k at level 200, right associativity) : daemon_scope.

(** ** Weakest preconditions *)

Section wp.
Context {W : Type}.

(** [Q] holds of the outcome and the state that [m] reaches from [s]. *)
Definition wp {A} (m : M W A) (Q : option A → sys W → Prop) (s : sys W) : Prop := Q (m s).1 (m s).2.

(** A postcondition of the normal outcome; a panic needs its own. *)
Definition outcome {A} (Q : A → sys W → Prop) (P : sys W → Prop) : option A → sys W → Prop :=
  λ r s, match r with Some a => Q a s | None => P s end.

Lemma wp_ret {A} (a : A) Q s : Q (Some a) s → wp (ret a) Q s.
Proof. done. Qed.

Lemma wp_panic {A} (Q : option A → sys W → Prop) s : Q None s → wp panic Q s.
Proof. done. Qed.

Lemma wp_bind {A B} (m : M W A) (f : A → M W B) Q s :
  wp m (λ r s', match r with Some a => wp (f a) Q s' | None => Q None s' end) s → wp (bind m f) Q s.
Proof. unfold wp, bind. by destruct (m s) as [[a|] s']. Qed.

Lemma wp_gets {A} (f : Daemon → A) Q s : Q (Some (f (daemon s))) s → wp (gets f) Q s.
Proof. done. Qed.

Lemma wp_modify f Q (s : sys W) : Q (Some tt) (mkSys (f (daemon s)) (world s) (trace s)) → wp (modify f) Q s.
Proof. done. Qed.

Lemma wp_do {E : Env W} c Q (s : sys W) :
  (∀ r w, env c (world s) = (r, w) → Q r (mkSys (daemon s) w (Ev c r :: trace s))) → wp (do c) Q s.
Proof. intros H. unfold wp, do. destruct (env c (world s)) as [r w] eqn:He. by apply H. Qed.

Lemma wp_recovering (m : M W unit) Q s : wp m (λ _ s', Q (Some tt) s') s → wp (recovering m) Q s.
Proof. unfold wp, recovering. by destruct (m s) as [r s']. Qed.

Lemma wp_mono {A} (m : M W A) (P Q : option A → sys W → Prop) s :
  wp m P s → (∀ r s', P r s' → Q r s') → wp m Q s.
Proof. unfold wp. eauto. Qed.

Lemma wp_run {A} (m : M W A) Q s r s' : wp m Q s → m s = (r, s') → Q r s'.
Proof. unfold wp. intros Hq Hm. by rewrite Hm in Hq. Qed.

Lemma wp_ok {A} (m : M W A) Q P s a s' : wp m (outcome Q P) s → m s = (Some a, s') → Q a s'.
Proof. intros Hq Hm. by apply (wp_run _ _ _ _ _ Hq Hm). Qed.

Lemma wp_and {A} (m : M W A) (P Q : option A → sys W → Prop) s :
  wp m P s → wp m Q s → wp m (λ r s', P r s' ∧ Q r s') s.
Proof. done. Qed.

(** An invariant of every iteration, also of one that panics, is one of the loop. *)
Lemma wp_each {A} (I : sys W → Prop) (l : list A) (f : A → M W unit) s :
  (∀ x s, x ∈ l → I s → wp (f x) (λ _ s', I s') s) → I s → wp (each l f) (λ _ s', I s') s.
Proof.
  intros Hf. revert s. induction l as [|x l IH]; intros s Hs; [done|]. cbn [each].
  apply wp_bind. eapply wp_mono; [apply Hf; [by left|done]|]. intros [?|] s' Hs'; [|done].
  apply IH; [|done]. intros y s1 Hy. apply Hf. by right.
Qed.

End wp.

(** Symbolic execution of the code between two calls. *)
Ltac wp_step :=
  cbv beta iota;
  lazymatch goal with
  | |- wp (bind _ _) _ _ => apply wp_bind
  | |- wp (ret _) _ _ => apply wp_ret
  | |- wp panic _ _ => apply wp_panic
  | |- wp (gets _) _ _ => apply wp_gets
  | |- wp (modify _) _ _ => apply wp_modify
  | |- wp (recovering _) _ _ => apply wp_recovering
  end; cbv beta iota.

(** From a run that returns to a weakest precondition of the code. *)
Ltac wp_of_run H :=
  lazymatch type of H with
  | ?m ?s = (Some ?a, ?s') => pattern a, s'; refine (wp_ok m _ (λ _, True) s a s' _ H); clear H a s'
  | ?m ?s = (?r, ?s') => pattern r, s'; refine (wp_run m _ s r s' _ H); clear H r s'
  end.

(** ** Relations that code respects

    [respects R m]: whatever the surroundings answer, [m] leads from a state to one that
    [R] relates it to, also when it panics. For a preorder this follows the structure of
    the code. *)

Section respects.
Context {W : Type} (R : relation (sys W)) {HR : PreOrder R}.
#[local] Set Default Proof Using "Type".

Definition respects {A} (m : M W A) : Prop := ∀ s, R s (m s).2.

Lemma respects_ret {A} (a : A) : respects (ret a).
Proof using HR. by intros s. Qed.

Lemma respects_panic {A} : respects (A:=A) panic.
Proof using HR. by intros s. Qed.

Lemma respects_gets {A} (f : Daemon → A) : respects (gets f).
Proof using HR. by intros s. Qed.

Lemma respects_bind {A B} (m : M W A) (f : A → M W B) :
  respects m → (∀ a, respects (f a)) → respects (bind m f).
Proof using HR.
  intros Hm Hf s. specialize (Hm s). unfold bind. destruct (m s) as [[a|] s']; [|done].
  etrans; [exact Hm|apply Hf].
Qed.

Lemma respects_recovering (m : M W unit) : respects m → respects (recovering m).
Proof. intros Hm s. specialize (Hm s). unfold recovering. by destruct (m s). Qed.

Lemma respects_each {A} (l : list A) (f : A → M W unit) :
  (∀ x, x ∈ l → respects (f x)) → respects (each l f).
Proof using HR.
  induction l as [|x l IH]; intros Hf; cbn [each]; [apply respects_ret|].
  apply respects_bind; [apply Hf; by left|]. intros _. apply IH. intros y Hy. apply Hf. by right.
Qed.

Lemma respects_wp {A} (m : M W A) s : respects m → wp m (λ _ s', R s s') s.
Proof. intros Hm. apply Hm. Qed.

Lemma respects_do {E : Env W} c :
  (∀ s r w, R s (mkSys (daemon s) w (Ev c r :: trace s))) → respects (do c).
Proof. intros Hc s. unfold do. destruct (env c (world s)) as [r w]. apply Hc. Qed.

Lemma respects_modify f : (∀ s, R s (mkSys (f (daemon s)) (world s) (trace s))) → respects (modify f).
Proof. intros Hf s. apply Hf. Qed.

End respects.

(** Follows the code; what is left are its calls and assignments. *)
Ltac respects_step :=
  lazymatch goal with
  | |- respects _ (bind _ _) => apply respects_bind; [typeclasses eauto| |intros ?]
  | |- respects _ (ret _) => apply respects_ret; typeclasses eauto
  | |- respects _ panic => apply respects_panic; typeclasses eauto
  | |- respects _ (gets _) => apply respects_gets; typeclasses eauto
  | |- respects _ (recovering _) => apply respects_recovering
  | |- respects _ (each _ _) => apply respects_each; [typeclasses eauto|intros ? ?]
  | |- respects _ (match ?x with _ => _ end) => destruct x
  | |- respects _ (if ?x then _ else _) => destruct x
  end.
Ltac respects_code := repeat respects_step.

(** The trace grows by events that satisfy [ok]. *)
Definition emits {W} (ok : event → Prop) (s s' : sys W) : Prop :=
  ∃ new, trace s' = new ++ trace s ∧ Forall ok new.

#[export] Instance emits_preorder {W} ok : PreOrder (emits (W:=W) ok).
Proof.
  split; [by intros s; exists []|]. intros s1 s2 s3 (n1 & H1 & F1) (n2 & H2 & F2).
  exists (n2 ++ n1). rewrite H2, H1, app_assoc. split; [done|]. by apply Forall_app.
Qed.

Lemma emits_call {W} ok (s : sys W) c r w : ok (Ev c r) → emits ok s (mkSys (daemon s) w (Ev c r :: trace s)).
Proof. intros Hok. exists [Ev c r]. split; [done|]. by constructor. Qed.

Lemma emits_same {W} ok (s s' : sys W) : trace s' = trace s → emits ok s s'.
Proof. intros Ht. by exists []. Qed.

Lemma emits_weaken {W} (ok ok' : event → Prop) (s s' : sys W) :
  (∀ e, ok e → ok' e) → emits ok s s' → emits ok' s s'.
Proof. intros Hw (new & Htr & Hf). exists new. split; [done|]. by eapply Forall_impl. Qed.

(** Only the trace and the surroundings change. *)
Definition reads {W} (ok : event → Prop) (s s' : sys W) : Prop := daemon s' = daemon s ∧ emits ok s s'.

#[export] Instance reads_preorder {W} ok : PreOrder (reads (W:=W) ok).
Proof.
  split; [by intros s; split|]. intros s1 s2 s3 [D1 E1] [D2 E2]. split; [congruence|by etrans].
Qed.

Lemma respects_weaken {W A} (R R' : relation (sys W)) (m : M W A) :
  (∀ s s', R s s' → R' s s') → respects R m → respects R' m.
Proof. intros Hw Hm s. apply Hw, Hm. Qed.

(** ** Panics

    Code that does not panic by itself panics only in a call. *)

Definition panicked {W} (s : sys W) : Prop := ∃ c tr, trace s = Ev c None :: tr.

Section safe.
Context {W : Type} {E : Env W}.

Definition safe {A} (m : M W A) : Prop := ∀ s, (m s).1 = None → panicked (m s).2.

Lemma safe_ret {A} (a : A) : safe (ret a).
Proof. by intros s [=]. Qed.

Lemma safe_gets {A} (f : Daemon → A) : safe (gets f).
Proof. by intros s [=]. Qed.

Lemma safe_modify f : safe (modify f).
Proof. by intros s [=]. Qed.

Lemma safe_do c : safe (do c).
Proof.
  intros s. unfold do. destruct (env c (world s)) as [r w]. cbn. intros ->. by exists c, (trace s).
Qed.

Lemma safe_bind {A B} (m : M W A) (f : A → M W B) : safe m → (∀ a, safe (f a)) → safe (bind m f).
Proof.
  intros Hm Hf s. specialize (Hm s). unfold bind. destruct (m s) as [[a|] s']; [apply Hf|intros _; by apply Hm].
Qed.

Lemma safe_recovering (m : M W unit) : safe (recovering m).
Proof. intros s. unfold recovering. by destruct (m s). Qed.

Lemma safe_each {A} (l : list A) (f : A → M W unit) : (∀ x, safe (f x)) → safe (each l f).
Proof.
  intros Hf. induction l as [|x l IH]; cbn [each]; [apply safe_ret|]. apply safe_bind; [apply Hf|intros _; exact IH].
Qed.

Lemma safe_wp {A} (m : M W A) s : safe m → wp m (λ r s', r = None → panicked s') s.
Proof. intros Hm. exact (Hm s). Qed.

End safe.

Ltac safe_step :=
  lazymatch goal with
  | |- safe (bind _ _) => apply safe_bind; [|intros ?]
  | |- safe (ret _) => apply safe_ret
  | |- safe (gets _) => apply safe_gets
  | |- safe (modify _) => apply safe_modify
  | |- safe (do _) => apply safe_do
  | |- safe (recovering _) => apply safe_recovering
  | |- safe (each _ _) => apply safe_each; intros ?
  | |- safe (match ?x with _ => _ end) => destruct x
  | |- safe (if ?x then _ else _) => destruct x
  end.
Ltac safe_code := repeat safe_step.

(** ** A replay environment

    For the examples and witnesses: one cluster of one host whose activity is a function
    of the time, every other call succeeding. Its state is the time, which only sleeping
    moves. *)

Definition sample_cluster : Cluster := mkCluster "prod" ["app"%string] ["db1"%string].

Definition replay_answer (cfg : Config) (activity : time → Z) (now : time) (c : call) : option (answer c) :=
  match c with
  | Now | Clock => Some now
  | WithTimeout _ => Some tt
  | CtxErr | Sleep _ => Some true
  | GetClusters => Some (inr [sample_cluster])
  | GetActiveConnectionCount _ _ => Some (inr (activity now))
  | GetBlockedSessionCount _ _ _ => Some (inr 0)
  | GetInstanceInfo _ _ => Some (inr false)
  | GetQueriesReport _ _ _ => Some (inr [mkQueryReport 1 "select 1"])
  | GetQueriesBlocked _ _ _ _ =>
      Some (inr [mkQueryBlocked 7 (Some (to_float now)) "alter role x password 'y'" "select 1" []])
  | PgssDatabase _ _ database => Some (inr database)
  | PgssSource _ _ _ => Some (inr "pg_stat_statements"%string)
  | GetPgssStatsResetTime _ _ _ => Some (inr None)
  | ResetQueryStats _ _ _ => Some None
  | GetHotSampleTables _ _ _ | GetHotSampleIndexes _ _ _ => Some (inr ([], None, false))
  | GetIOSample _ _ => Some (inr None)
  | TryAcquireLeaderLock => Some (inr true)
  | CloseLeaderConn | UpdateLeaderHeartbeat _ => Some None
  | GetAutosnapshotConfig => Some (inr cfg)
  | ListClusterOverrides => Some (inr ∅)
  | LastAutoSnapshotAt | LastHotSnapshotAt | LastIOSnapshotAt => Some (inr ∅)
  | InsertTriggerEvent _ => Some None
  | CreateSnapshot _ _ _ _ _ => Some (inr ("00000000-0000-0000-0000-000000000001"%string, now))
  | EnqueuePendingSnapshot _ _ => Some None
  | ClaimDuePendingSnapshots => Some (inr [])
  | DeletePendingSnapshot _ _ => Some None
  | ComputePartitionSizes => Some (inr [])
  | DropDayPartitions _ => Some None
  | GetHotAnchors _ _ _ => Some (inr ∅)
  | GetLatestHotWindows _ _ _ _ => Some (inr ∅)
  | InsertHotSnapshotWithAnchors _ _ => Some None
  | DropHotPartitionsBefore _ => Some None
  | InsertIOSnapshot _ _ _ => Some None
  | DropIOPartitionsBefore _ => Some None
  | TruncateInsightsScans => Some None
  end.

Definition replay (cfg : Config) (activity : time → Z) : Env time :=
  λ c now, (replay_answer cfg activity now c, match c with Sleep d => now + d | _ => now end).

Definition replay_start (now : time) : sys time := mkSys (NewDaemon false) now [].
