(* ===== verification/AutoLocks.v ===== *)
(** * [internal/autosnapshot/locks.go]: the lock graph stored with a snapshot

    [CaptureLocks] probes the blocked sessions several times and keeps the harshest
    probe: the most blocked sessions, then the longest wait. *)

From S2P Require Import Prelude GoFloat Sanitize AutoConfig SpikeMachine AutoEffects.
From stdpp Require Import options.

#[local] Set Warnings "-inexact-float".
#[local] Set Default Proof Using "Type*".
#[local] Open Scope daemon_scope.

(** ** Operations *)

Definition maxLockRows : nat := 100.
Definition maxCaptureDuration : duration := 15 * Second.
(** [dto.ScopeInstance]. *)
Definition ScopeInstance : string := "instance".

Definition scoreBlocked (rows : list QueryBlocked) : Z * float :=
  let seen := foldl (λ seen r, {[BlockedPid r]} ∪ seen) (∅ : gset Z) rows in
  let maxWait := foldl (λ maxWait r,
    match BlockedDurationMs r with
    | Some d => if (maxWait <? d)%float then d else maxWait
    | None => maxWait
    end) 0%float rows in
  (Z.of_nat (size seen), maxWait).

Definition harsher (count : Z) (wait : float) (bCount : Z) (bWait : float) : bool :=
  if negb (count =? bCount) then bCount <? count else (bWait <? wait)%float.

Definition derefF (p : option float) : float := default 0%float p.

(** The order of the stored rows: the longest wait first ([cmp.Compare] of floats). *)
Definition blocked_less (a b : QueryBlocked) : bool :=
  float_less (derefF (BlockedDurationMs b)) (derefF (BlockedDurationMs a)).

Definition redact (r : QueryBlocked) : QueryBlocked :=
  mkQueryBlocked (BlockedPid r) (BlockedDurationMs r) (SQL (BlockedQuery r)) (SQL (BlockingQuery r)) (qb_rest r).

(** The best probe so far: its rows, its count and its longest wait. *)
Abbreviation best_probe := (option (list QueryBlocked * Z * float)).

Definition better (rows : list QueryBlocked) (best : best_probe) : best_probe :=
  let '(count, wait) := scoreBlocked rows in
  match best with
  | None => Some (rows, count, wait)
  | Some (_, bCount, bWait) => if harsher count wait bCount bWait then Some (rows, count, wait) else best
  end.

Section capture.
Context {W : Type} {E : Env W}.

Definition sleep (d : duration) : M W bool :=
  if d <=? 0 then do CtxErr else do (Sleep d).

(** The probe loop from probe [i] on, with the best probe and the last error so far. *)
Fixpoint probe_loop (cluster inst database scope : string) (interval : duration) (first : bool)
    (n : nat) (best : best_probe) (lastErr : option error) : M W (best_probe * option error) :=
  match n with
  | O => ret (best, lastErr)
  | S n =>
      awake ⟵ (if first then ret true else sleep interval);
      if negb awake then ret (best, Some (new_error "context done"))
      else
        r ⟵ do (GetQueriesBlocked cluster inst database scope);
        match r with
        | inl err => probe_loop cluster inst database scope interval false n best (Some err)
        | inr rows => probe_loop cluster inst database scope interval false n (better rows best) lastErr
        end
  end.

(** [CaptureLocks]. A blocking query is [CurrentOrRecentQueryInBlockingProcess]. *)
Definition CaptureLocks (cluster inst database scope : string) (probeCount : Z) (interval : duration)
    : M W LockCapture :=
  let probeCount := if probeCount <? 1 then 1 else probeCount in
  let budget := Z.min ((probeCount ⊠ interval) ⊞ (5 * Second)) maxCaptureDuration in
  do (WithTimeout budget);;
  r ⟵ probe_loop cluster inst database scope interval true (Z.to_nat probeCount) None None;
  match r with
  | (None, lastErr) =>
      ret (mkLockCapture false probeCount (duration_String interval) None 0 0%float None []
             (from_option err_Error ""%string lastErr))
  | (Some (rows, count, wait), _) =>
      now ⟵ do Now;
      ret (mkLockCapture true probeCount (duration_String interval) (Some now) count wait None
             (redact <$> take maxLockRows (sort_slice blocked_less rows)) "")
  end.

End capture.

(** ** Specification *)

(** The answers to the probes a trace records, newest first. *)
Definition probe_answer (e : event) : option (result (list QueryBlocked)) :=
  match e with
  | Ev c r => match c as c return option (answer c) → option (result (list QueryBlocked)) with
              | GetQueriesBlocked _ _ _ _ => λ r, r
              | _ => λ _, None
              end r
  end.

Definition probe_rows (e : event) : option (list QueryBlocked) :=
  match probe_answer e with Some (inr rows) => Some rows | _ => None end.

Definition successful_probes (tr : list event) : list (list QueryBlocked) := omap probe_rows tr.

(** No probe is harsher than the kept one, which is one of them. *)
Definition harshest (probes : list (list QueryBlocked)) (best : best_probe) : Prop :=
  match best with
  | None => probes = []
  | Some (rows, count, wait) =>
      rows ∈ probes ∧ (count, wait) = scoreBlocked rows ∧
      ∀ rows', rows' ∈ probes → harsher (scoreBlocked rows').1 (scoreBlocked rows').2 count wait = false
  end.

(** How many probes a trace records, failed ones and panics included. *)
Definition is_probe (e : event) : bool :=
  match e with Ev (GetQueriesBlocked _ _ _ _) _ => true | _ => false end.

Definition probe_count (tr : list event) : nat := length (filter (λ e, is_probe e = true) tr).

(** ** Lemmas *)

Lemma harsher_trans_best count wait bCount bWait count' wait' :
  harsher count wait bCount bWait = true → harsher count' wait' bCount bWait = false →
  harsher count' wait' count wait = false.
Proof.
  unfold harsher. intros H1 H2.
  destruct (Z.eqb_spec count bCount), (Z.eqb_spec count' bCount), (Z.eqb_spec count' count);
    cbn in *; subst; try lia; try done; try (apply Z.ltb_lt in H1); try (apply Z.ltb_ge in H2);
    try (apply Z.ltb_ge; lia).
  apply not_true_iff_false. intros H3. apply not_true_iff_false in H2. apply H2.
  by eapply flt_trans.
Qed.

Lemma harsher_irrefl count wait : harsher count wait count wait = false.
Proof.
  unfold harsher. rewrite Z.eqb_refl. cbn. rewrite FloatAxioms.ltb_spec. unfold SFltb, SFcompare.
  destruct (Prim2SF wait) as [[]|[]| |[] m e]; try done;
    rewrite Z.compare_refl; change (Pos.compare_cont Eq) with Pos.compare; by rewrite Pos.compare_refl.
Qed.

Lemma better_harshest probes best rows :
  harshest probes best → harshest (rows :: probes) (better rows best).
Proof.
  unfold better. destruct (scoreBlocked rows) as [c w] eqn:Hs. destruct best as [[[brows bc] bw]|]; cbn [harshest].
  - intros (Hin & Hb & Hmax). destruct (harsher c w bc bw) eqn:Hh; cbn [harshest].
    + split_and!; [by left|by rewrite Hs|]. intros rows' [->|Hr]%elem_of_cons.
      * rewrite Hs; cbn [fst snd]. apply harsher_irrefl.
      * eapply harsher_trans_best; [done|by apply Hmax].
    + split_and!; [by right|done|]. intros rows' [->|Hr]%elem_of_cons; [by rewrite Hs; cbn [fst snd]|by apply Hmax].
  - intros ->. split_and!; [by left|by rewrite Hs|]. intros rows' ->%list_elem_of_singleton.
    rewrite Hs; cbn [fst snd]. apply harsher_irrefl.
Qed.

Section loop.
Context {W : Type} {E : Env W}.

(** What the loop has added to the trace [tr0] so far. *)
Definition probing (tr0 : list event) (d : Daemon) (s : sys W) (probes : nat) (best : best_probe) : Prop :=
  daemon s = d ∧ ∃ new, trace s = new ++ tr0 ∧ harshest (successful_probes new) best ∧
    (probe_count new ≤ probes)%nat.

Lemma probing_call tr0 d s k best c w (r : option (answer c)) :
  is_probe (Ev c r) = false → probe_rows (Ev c r) = None →
  probing tr0 d s k best → probing tr0 d (mkSys (daemon s) w (Ev c r :: trace s)) k best.
Proof.
  intros Hp Hr (Hd & new & Htr & Hb & Hk). split; [done|]. exists (Ev c r :: new). cbn [trace].
  unfold successful_probes, probe_count in *. cbn [omap list_omap]. rewrite Htr, Hr.
  split_and!; [done..|]. rewrite filter_cons_False; [done|]. by rewrite Hp.
Qed.

Lemma wp_sleep (d : duration) tr0 dm s k best :
  probing tr0 dm s k best → wp (sleep d) (λ _ s', probing tr0 dm s' k best) s.
Proof. intros Hp. unfold sleep.
  destruct (d <=? 0); [apply (wp_do CtxErr)|apply (wp_do (Sleep d))]; intros r w _; by apply probing_call. Qed.

Lemma wp_probe_loop cluster inst database scope interval tr0 d n first best lastErr s k :
  probing tr0 d s k best →
  wp (probe_loop cluster inst database scope interval first n best lastErr)
    (outcome (λ r s', probing tr0 d s' (k + n) r.1) (λ _, True)) s.
Proof.
  revert first best lastErr s k. induction n as [|n IH]; intros first best lastErr s k Hs; cbn [probe_loop].
  { wp_step. cbn. by rewrite Nat.add_0_r. }
  wp_step. eapply wp_mono with (P := λ _ s', probing tr0 d s' k best).
  { destruct first; [by wp_step|by apply wp_sleep]. }
  intros [[]|] s1 (Hd & new & Htr & Hb & Hk); cbn [negb]; [|wp_step; split; [done|]|done].
  - wp_step. apply wp_do. intros r w _.
    assert (Hk' : (probe_count (Ev (GetQueriesBlocked cluster inst database scope) r :: new) ≤ S k)%nat)
      by (unfold probe_count in *; rewrite filter_cons_True by done; cbn [length]; lia).
    destruct r as [[err|rows]|]; [| |done]; eapply wp_mono.
    + apply IH with (k := S k). split; [done|]. exists (Ev (GetQueriesBlocked cluster inst database scope) (Some (inl err)) :: new).
      cbn [trace]. by rewrite Htr.
    + intros [r|] s2; [|done]. by replace (k + S n)%nat with (S k + n)%nat by lia.
    + apply IH with (k := S k). split; [done|]. exists (Ev (GetQueriesBlocked cluster inst database scope) (Some (inr rows)) :: new).
      cbn [trace]. rewrite Htr. split_and!; [done| |done]. by apply better_harshest.
    + intros [r|] s2; [|done]. by replace (k + S n)%nat with (S k + n)%nat by lia.
  - exists new. split_and!; [done..|]. lia.
Qed.

End loop.

(** ** Properties *)

Section properties.
Context {W : Type} {E : Env W}.

(** What a lock capture reports of the probes it made. *)
Definition capture_of (probes : list (list QueryBlocked)) (lc : LockCapture) : Prop :=
  if Captured lc then
    ∃ rows, harshest probes (Some (rows, BlockedCount lc, MaxWaitMs lc)) ∧
      lc_Rows lc = redact <$> take maxLockRows (sort_slice blocked_less rows) ∧ is_Some (HarshestAt lc)
  else probes = [] ∧ lc_Rows lc = [] ∧ BlockedCount lc = 0.

(** [CaptureLocks] in any surroundings. It makes at least one and at most
    [max 1 probeCount] probes, unless it panics, and changes nothing else. It reports a
    capture exactly when some probe succeeded, and then the rows, the session count and
    the longest wait are those of one probe that no other successful probe beats: the
    rows with the longest waits, at most a hundred, credentials masked. *)
Theorem CaptureLocks_harshest cluster inst database scope probeCount interval s lc s' :
  CaptureLocks cluster inst database scope probeCount interval s = (Some lc, s') →
  daemon s' = daemon s ∧
  ∃ new, trace s' = new ++ trace s ∧
    (probe_count new ≤ Z.to_nat (Z.max 1 probeCount))%nat ∧
    capture_of (successful_probes new) lc ∧ (length (lc_Rows lc) ≤ 100)%nat.
Proof.
  intros Hrun. wp_of_run Hrun.
  unfold CaptureLocks. set (n := if probeCount <? 1 then 1 else probeCount).
  replace (Z.max 1 probeCount) with n by (unfold n; case_test; lia).
  wp_step. apply wp_do. intros [[]|] w _; [|done]. wp_step.
  assert (Hstart : probing (trace s) (daemon s) (mkSys (daemon s) w (Ev (WithTimeout (Z.min ((n ⊠ interval) ⊞ (5 * Second))
    maxCaptureDuration)) (Some tt) :: trace s)) 0 None).
  { apply probing_call; [done|done|]. split; [done|]. by exists []. }
  eapply wp_mono; [by apply wp_probe_loop|]. intros [[best err]|] s1; [|done].
  intros (Hd & new & Htr & Hb & Hk). cbn [fst] in Hb. destruct best as [[[rows c] wait]|].
  - wp_step. apply wp_do. intros [now|] w' _; [|done]. wp_step. cbn [outcome daemon trace].
    split; [done|]. exists (Ev Now (Some now) :: new). rewrite Htr. split_and!; [done|done| |].
    + exists rows. split_and!; [exact Hb|done|by eexists].
    + cbn [lc_Rows]. rewrite length_fmap, length_take. unfold maxLockRows. lia.
  - wp_step. split; [done|]. exists new. cbn. split_and!; done || lia.
Qed.

End properties.

(** ** Witness *)

Definition sample_capture : option LockCapture * sys time :=
  @CaptureLocks _ (replay sample_config (λ _, 0)) "prod" "db1" "app" ScopeInstance 3 Second (replay_start 5).

Example capture_sample :
  from_option (λ lc, (Captured lc, BlockedCount lc, MaxWaitMs lc, BlockedQuery <$> lc_Rows lc)) (false, 0, 0%float, [])
    sample_capture.1 = (true, 1, 2000000005%float, ["alter role x PASSWORD '***'"%string]).
Proof. by vm_compute. Qed.

Lemma CaptureLocks_harshest_witness :
  ∃ lc new, trace sample_capture.2 = new ++ [] ∧ capture_of (successful_probes new) lc.
Proof.
  assert (H : is_Some sample_capture.1) by (apply (bool_decide_unpack _); vm_compute; exact I).
  destruct sample_capture as [[lc|] s'] eqn:Hrun; [|by destruct H].
  exists lc. unfold sample_capture in Hrun.
  apply (@CaptureLocks_harshest _ (replay sample_config (λ _, 0))) in Hrun as (_ & new & Htr & _ & Hc & _).
  by exists new.
Defined.
