(* ===== verification/AutoTriggers.v ===== *)
(** * [internal/autosnapshot/triggers.go]: from probes to snapshots

    One sweep over a cluster ([processCluster]): per host the activity-spike trigger with
    its recovery follow-up, and the role-change trigger; and the taking of a snapshot
    with its events. The code is in the monad of [AutoEffects]; a [*hostState] is the
    entry of [hosts] under its key, so what a handler changed before a panic stays
    changed. *)

From S2P Require Import Prelude GoFloat AutoConfig SpikeMachine AutoEffects AutoLocks.
From stdpp Require Import options.

#[local] Set Warnings "-inexact-float".
#[local] Set Default Proof Using "Type*".
#[local] Open Scope daemon_scope.

(** ** Operations *)

(** [firstDatabase]. *)
Definition firstDatabase (cl : Cluster) : string :=
  match cl_Databases cl with [] => "postgres" | d :: _ => d end.

(** [errEmptyReport]. *)
Definition errEmptyReport : error := new_error "autosnapshot: empty report".

Definition host_state (key : hostKey) (d : Daemon) : hostState := default new_hostState (hosts d !! key).

Definition update_host (key : hostKey) (f : hostState → hostState) (d : Daemon) : Daemon :=
  set_hosts (<[key := f (host_state key d)]> (hosts d)) d.

Section triggers.
Context {W : Type} {E : Env W}.

Definition nowUTC : M W time :=
  injected ⟵ gets clock_set;
  if injected : bool then do Clock else do Now.

Definition get_state (key : hostKey) : M W hostState := gets (host_state key).
Definition update (key : hostKey) (f : hostState → hostState) : M W unit := modify (update_host key f).

Definition insertEvent (e : TriggerEvent) : M W unit :=
  do (InsertTriggerEvent e);; ret tt.

Definition debounced (key : hostKey) (maxFreq : duration) : M W bool :=
  last ⟵ gets (λ d, lastAuto d !! key);
  match last with
  | None => ret false
  | Some last => now ⟵ nowUTC; ret (time_sub now last <? maxFreq)
  end.

(** The error event of a snapshot that was not taken. *)
Definition error_event (cl : Cluster) (inst database trigType : string) (trigCtx : context) (msg : string) :
    TriggerEvent :=
  mkTriggerEvent (cl_Name cl) inst (Some database) trigType OutcomeError None trigCtx (Some msg).

(** From the stored snapshot on: the debounce time, the statistics reset, the event. *)
Definition finish_snapshot (cfg : Config) (cl : Cluster) (inst provenance trigType : string)
    (trigCtx : context) (id : uuid) (createdAt : time) : M W (option error) :=
  modify (λ d, set_lastAuto (<[(cl_Name cl, inst) := createdAt]> (lastAuto d)) d);;
  (if cfg_ResetQueryStats cfg then do (ResetQueryStats (cl_Name cl) inst provenance) else ret None);;
  insertEvent (mkTriggerEvent (cl_Name cl) inst (Some provenance) trigType OutcomeSnapshotCreated (Some id) trigCtx None);;
  ret None.

(** From the known provenance on: the labels, the locks, the snapshot. *)
Definition store_snapshot (cfg : Config) (cl : Cluster) (inst database trigType reason : string)
    (trigCtx : context) (bgPeak : option BackgroundPeak) (reports : list QueryReport) (provenance : string)
    : M W (option error) :=
  let cluster := cl_Name cl in
  reset ⟵ do (GetPgssStatsResetTime cluster inst database);
  let pgssReset := match reset with inr t => t | inl _ => None end in
  source ⟵ do (PgssSource cluster inst database);
  let statsSource := match source with inr s => s | inl _ => ""%string end in
  locks ⟵
    (if cfg_CaptureLocks cfg && bool_decide (trigType = TriggerActivitySpike) then
       lc ⟵ CaptureLocks cluster inst provenance ScopeInstance (LockProbeCount cfg) (LockProbeInterval cfg);
       ret (Some (mkLockCapture (Captured lc) (Probes lc) (ProbeInterval lc) (HarshestAt lc) (BlockedCount lc)
                    (MaxWaitMs lc) bgPeak (lc_Rows lc) (lc_Error lc)))
     else ret None);
  created ⟵ do (CreateSnapshot cluster inst provenance reports
                  (mkSnapshotOpts pgssReset statsSource reason trigCtx locks));
  match created with
  | inl err =>
      insertEvent (error_event cl inst provenance trigType trigCtx ("create snapshot: " +:+ err_Error err));;
      ret (Some err)
  | inr (id, createdAt) => finish_snapshot cfg cl inst provenance trigType trigCtx id createdAt
  end.

Definition takeSnapshot (cfg : Config) (cl : Cluster) (inst database trigType reason : string)
    (trigCtx : context) (bgPeak : option BackgroundPeak) : M W (option error) :=
  let cluster := cl_Name cl in
  r ⟵ do (GetQueriesReport cluster inst database);
  match r with
  | inl err =>
      insertEvent (error_event cl inst database trigType trigCtx ("get report: " +:+ err_Error err));;
      ret (Some err)
  | inr [] =>
      insertEvent (error_event cl inst database trigType trigCtx
        "empty report: no query-statistics extension is readable in any database of the host");;
      ret (Some errEmptyReport)
  | inr reports =>
      p ⟵ do (PgssDatabase cluster inst database);
      match p with
      | inl err =>
          insertEvent (error_event cl inst database trigType trigCtx ("pgss database: " +:+ err_Error err));;
          ret (Some err)
      | inr provenance => store_snapshot cfg cl inst database trigType reason trigCtx bgPeak reports provenance
      end
  end.

(** [handleRecovery]. *)
Definition handleRecovery (cfg : Config) (t : ActivitySpikeTrigger) (cl : Cluster)
    (inst database : string) (now : time) (count : Z) : M W unit :=
  let key := (cl_Name cl, inst) in
  if RecoveryDuration t <=? 0 then update key (λ s, set_recoveryBelowSince None (set_inSpike false s))
  else
    s ⟵ get_state key;
    if negb (inSpike s) then update key (set_recoveryBelowSince None)
    else if (spikeThreshold s <=? to_float count)%float then update key (set_recoveryBelowSince None)
    else
      match recoveryBelowSince s with
      | None => update key (set_recoveryBelowSince (Some now))
      | Some since =>
          if time_sub now since <? RecoveryDuration t then ret tt
          else
            err ⟵ takeSnapshot cfg cl inst database TriggerActivityDrop "auto:activity_drop"
                    [("trigger"%string, AString "activity_drop"); ("host"%string, AString inst)] None;
            match err with
            | Some _ => update key (set_recoveryBelowSince None)
            | None =>
                update key (λ s, set_recoveryBelowSince None (set_inSpike false s));;
                do (DeletePendingSnapshot (cl_Name cl) inst);; ret tt
            end
      end.

(** The threshold a count is compared with. *)
Definition spike_threshold (t : ActivitySpikeTrigger) (baseline : float) : float :=
  (baseline * to_float (100 ⊞ ActiveThresholdPct t) / 100)%float.

Definition below_baseline (cfg : Config) (t : ActivitySpikeTrigger) (cl : Cluster)
    (inst database : string) (now : time) (count : Z) : M W unit :=
  let key := (cl_Name cl, inst) in
  update key resetSpike;;
  handleRecovery cfg t cl inst database now count;;
  s ⟵ get_state key;
  if (MinBaselineActive cfg <=? count) && belowBaselineDue s now (MaxSnapshotFrequency cfg)
  then update key (set_lastBelowBaselineAt (Some now)) else ret tt.

(** The worst number of blocked sessions seen while the spike forms. *)
Definition sample_locks (cfg : Config) (cl : Cluster) (inst database : string) (now : time) : M W unit :=
  let key := (cl_Name cl, inst) in
  if cfg_CaptureLocks cfg then
    r ⟵ do (GetBlockedSessionCount (cl_Name cl) inst database);
    match r with
    | inr n =>
        if 0 <? n then
          s ⟵ get_state key;
          let worse := match lockPeak s with None => true | Some p => bp_BlockedCount p <? n end in
          if worse then update key (set_lockPeak (Some (mkBackgroundPeak n now))) else ret tt
        else ret tt
    | inl _ => ret tt
    end
  else ret tt.

Definition spike_context (t : ActivitySpikeTrigger) (inst : string) (baseline : float) (now since : time)
    (s : hostState) : context :=
  [("trigger"%string, AString "activity_spike"); ("baseline"%string, AFloat baseline);
   ("peak_value"%string, AInt (spikePeak s)); ("threshold_pct"%string, AInt (ActiveThresholdPct t));
   ("window_size"%string, AString (duration_String (WindowSize t)));
   ("duration"%string, AString (duration_String (time_sub now since)));
   ("coverage"%string, AFloat (math_round (spikeCoverage s * 100) / 100)%float);
   ("host"%string, AString inst)].

(** A formed spike that is due: the snapshot, the incident, the follow-up. *)
Definition fire_spike (cfg : Config) (t : ActivitySpikeTrigger) (cl : Cluster) (inst database : string)
    (now : time) (baseline : float) (since : time) : M W unit :=
  let key := (cl_Name cl, inst) in
  s ⟵ get_state key;
  err ⟵ takeSnapshot cfg cl inst database TriggerActivitySpike "auto:activity_spike"
          (spike_context t inst baseline now since s) (lockPeak s);
  update key resetSpike;;
  match err with
  | Some _ => ret tt
  | None =>
      update key (λ s, set_recoveryBelowSince None (set_inSpike true s));;
      if 0 <? DeferredInterval t then
        do (EnqueuePendingSnapshot (mkPendingSnapshot (cl_Name cl) inst database "auto:deferred")
              (time_add now (DeferredInterval t)));; ret tt
      else ret tt
  end.

(** A forming spike, after the step: the lock sample and the three conditions to fire.
    [aboveThresholdSince] is dereferenced; it is set while a spike forms. *)
Definition forming_spike (cfg : Config) (t : ActivitySpikeTrigger) (cl : Cluster) (inst database : string)
    (now : time) (baseline : float) : M W unit :=
  let key := (cl_Name cl, inst) in
  sample_locks cfg cl inst database now;;
  s ⟵ get_state key;
  match aboveThresholdSince s with
  | None => panic
  | Some since =>
      if time_sub now since <? SpikeDuration t then ret tt
      else if (spikeCoverage s <? minSpikeCoverage)%float then ret tt
      else
        skip ⟵ debounced key (MaxSnapshotFrequency cfg);
        if skip : bool then ret tt else fire_spike cfg t cl inst database now baseline since
  end.

(** The probe of [tickActivitySpike], once its count and its time are known. *)
Definition fold_probe (cfg : Config) (t : ActivitySpikeTrigger) (cl : Cluster)
    (inst database : string) (count : Z) (now : time) : M W unit :=
  let key := (cl_Name cl, inst) in
  update key (λ s, set_windowSamples
    (trimSamples (windowSamples s ++ [mkActivitySample now count]) (time_add now (0 ⊟ WindowSize t))) s);;
  s ⟵ get_state key;
  if Nat.ltb (length (windowSamples s)) 2 then ret tt
  else
    let baseline := averageExcludingLast (windowSamples s) in
    let threshold := spike_threshold t baseline in
    if (baseline <? to_float (MinBaselineActive cfg))%float
    then below_baseline cfg t cl inst database now count
    else
      let '(step, s') := advanceSpike s now count threshold (SpikeDuration t) in
      update key (λ _, s');;
      match step with
      | spikeAborted => handleRecovery cfg t cl inst database now count
      | spikeStarted =>
          update key (λ s, let s := set_recoveryBelowSince None s in
                           if negb (inSpike s) then set_spikeThreshold threshold s else s)
      | spikeForming =>
          update key (set_recoveryBelowSince None);;
          forming_spike cfg t cl inst database now baseline
      end.

Definition tickActivitySpike (cfg : Config) (t : ActivitySpikeTrigger) (cl : Cluster)
    (inst database : string) : M W unit :=
  if negb (as_Enabled t) then ret tt
  else
    r ⟵ do (GetActiveConnectionCount (cl_Name cl) inst);
    match r with
    | inl _ => ret tt
    | inr count => now ⟵ nowUTC; fold_probe cfg t cl inst database count now
    end.

Definition tickRoleChange (cfg : Config) (t : RoleChangeTrigger) (cl : Cluster)
    (inst database : string) : M W unit :=
  let key := (cl_Name cl, inst) in
  if negb (rc_Enabled t) then ret tt
  else
    info ⟵ do (GetInstanceInfo (cl_Name cl) inst);
    match info with
    | inl _ => ret tt
    | inr current =>
        s ⟵ get_state key;
        match lastInRecovery s with
        | None => update key (set_lastInRecovery (Some current))
        | Some previous =>
            if Bool.eqb previous current then ret tt
            else
              let '(from, to) := roleLabels previous current in
              let direction := directionOf previous current in
              update key (set_lastInRecovery (Some current));;
              if negb (directionAllowed (rc_Direction t) direction) then ret tt
              else
                skip ⟵ debounced key (MaxSnapshotFrequency cfg);
                if skip : bool then ret tt
                else
                  takeSnapshot cfg cl inst database TriggerRoleChange "auto:role_change"
                    [("trigger"%string, AString "role_change"); ("host"%string, AString inst);
                     ("from_role"%string, AString from); ("to_role"%string, AString to)] None;;
                  ret tt
        end
    end.

(** One host of [processCluster]: its state is created on the first sweep. *)
Definition process_host (cfg : Config) (effective : TriggerDefaults) (cl : Cluster) (inst : string) : M W unit :=
  let key := (cl_Name cl, inst) in
  update key (λ s, s);;
  tickActivitySpike cfg (ActivitySpike effective) cl inst (firstDatabase cl);;
  tickRoleChange cfg (RoleChange effective) cl inst (firstDatabase cl).

Definition processCluster (cfg : Config) (effective : TriggerDefaults) (cl : Cluster) : M W unit :=
  each (cl_Hosts cl) (process_host cfg effective cl).

End triggers.

(** ** What a trace says *)

(** A snapshot that was stored: the call and the answer. *)
Definition creation (e : event) : option (call * (uuid * time)) :=
  match e with
  | Ev c r =>
      match c as c return option (answer c) → option (call * (uuid * time)) with
      | CreateSnapshot cluster inst database reports opts => λ r,
          match r with
          | Some (inr x) => Some (CreateSnapshot cluster inst database reports opts, x)
          | _ => None
          end
      | _ => λ _, None
      end r
  end.

(** A trigger event that was sent to the store. *)
Definition logged (e : event) : option TriggerEvent :=
  match e with Ev (InsertTriggerEvent ev) _ => Some ev | _ => None end.

Definition creations (tr : list event) : list (call * (uuid * time)) := omap creation tr.
Definition logs (tr : list event) : list TriggerEvent := omap logged tr.

(** An attempt to store a snapshot, by its reason. *)
Definition attempt (e : event) : option (string * string * string) :=
  match e with
  | Ev (CreateSnapshot cluster inst _ _ opts) _ => Some (cluster, inst, Reason opts)
  | _ => None
  end.

(** An event that is neither. *)
Definition plain (e : event) : Prop := attempt e = None ∧ logged e = None.

Lemma plain_creation e : plain e → creation e = None.
Proof. destruct e as [[] r]; try done. by intros [[=] _]. Qed.

Lemma plain_creations tr : Forall plain tr → creations tr = [].
Proof. induction 1 as [|e tr He _ IH]; [done|]. unfold creations in *. cbn. by rewrite plain_creation, IH. Qed.

Lemma plain_logs tr : Forall plain tr → logs tr = [].
Proof. induction 1 as [|e tr [_ He] _ IH]; [done|]. unfold logs in *. cbn. by rewrite He, IH. Qed.

Lemma creations_app l1 l2 : creations (l1 ++ l2) = creations l1 ++ creations l2.
Proof. apply omap_app. Qed.

Lemma logs_app l1 l2 : logs (l1 ++ l2) = logs l1 ++ logs l2.
Proof. apply omap_app. Qed.

(** ** Taking a snapshot *)

Section snapshot.
Context {W : Type} {E : Env W}.

Lemma respects_reads_do ok c : (∀ r, ok (Ev c r)) → respects (W:=W) (reads ok) (do c).
Proof. intros Hok. apply respects_do. intros s r w. split; [done|]. by apply emits_call. Qed.

(** The calls a lock capture makes. *)
Definition lock_call (c : call) : bool :=
  match c with Now | WithTimeout _ | CtxErr | Sleep _ | GetQueriesBlocked _ _ _ _ => true | _ => false end.

Lemma probe_loop_reads ok cluster inst database scope interval first n best err :
  (∀ c r, lock_call c = true → ok (Ev c r)) →
  respects (W:=W) (reads ok) (probe_loop cluster inst database scope interval first n best err).
Proof.
  intros Hok. assert (Hdo : ∀ c, lock_call c = true → respects (W:=W) (reads ok) (do c)).
  { intros c Hc. apply respects_reads_do. intros r. by apply Hok. }
  revert first best err. induction n as [|n IH]; intros first best err; cbn [probe_loop]; [respects_step|].
  apply respects_bind; [apply _| |intros [|]; cbn [negb]; [|respects_step]].
  - destruct first; [respects_step|]. unfold sleep.
    destruct (interval <=? 0); [by apply (Hdo CtxErr)|by apply (Hdo (Sleep interval))].
  - respects_step; [by apply Hdo|]. respects_step; apply IH.
Qed.

Lemma CaptureLocks_reads ok cluster inst database scope n interval :
  (∀ c r, lock_call c = true → ok (Ev c r)) →
  respects (W:=W) (reads ok) (CaptureLocks cluster inst database scope n interval).
Proof.
  intros Hok. unfold CaptureLocks. respects_step; [apply respects_reads_do; intros r; by apply Hok|].
  respects_step; [by apply probe_loop_reads|]. respects_code. apply respects_reads_do. intros r. by apply Hok.
Qed.

Lemma lock_call_plain c r : lock_call c = true → plain (Ev c r).
Proof. by destruct c. Qed.

Lemma sleep_safe d : safe (W:=W) (sleep d).
Proof. unfold sleep. destruct (d <=? 0); [apply (safe_do CtxErr)|apply (safe_do (Sleep d))]. Qed.

Lemma CaptureLocks_safe cluster inst database scope n interval :
  safe (W:=W) (CaptureLocks cluster inst database scope n interval).
Proof.
  unfold CaptureLocks. apply safe_bind; [apply safe_do|intros _]. apply safe_bind; [|intros ?; safe_code].
  generalize (@None error), (@None (list QueryBlocked * Z * float)), true.
  induction (Z.to_nat _) as [|k IH]; intros err best first; cbn [probe_loop]; [apply safe_ret|].
  apply safe_bind; [destruct first; [apply safe_ret|apply sleep_safe]|]. intros [|]; cbn [negb]; [|apply safe_ret].
  apply safe_bind; [apply safe_do|]. intros []; apply IH.
Qed.

(** The snapshot that one run stored, with its provenance, its event and the debounce
    time. *)
Definition snapshot_taken (cl : Cluster) (inst database trigType reason : string) (trigCtx : context)
    (d d' : Daemon) (new : list event) : Prop :=
  ∃ provenance reports opts id createdAt,
    creations new = [(CreateSnapshot (cl_Name cl) inst provenance reports opts, (id, createdAt))] ∧
    reports ≠ [] ∧ Reason opts = reason ∧ so_TriggerContext opts = trigCtx ∧
    Ev (PgssDatabase (cl_Name cl) inst database) (Some (inr provenance)) ∈ new ∧
    logs new = [mkTriggerEvent (cl_Name cl) inst (Some provenance) trigType OutcomeSnapshotCreated (Some id) trigCtx None] ∧
    d' = set_lastAuto (<[(cl_Name cl, inst) := createdAt]> (lastAuto d)) d.

(** No snapshot, one error event, nothing changed. *)
Definition snapshot_failed (cl : Cluster) (inst trigType : string) (trigCtx : context)
    (d d' : Daemon) (new : list event) : Prop :=
  creations new = [] ∧ d' = d ∧
  ∃ database msg, logs new = [error_event cl inst database trigType trigCtx msg].

(** Snapshots are attempted under this reason only. *)
Definition attempts_only (cl : Cluster) (inst reason : string) (e : event) : Prop :=
  ∀ x, attempt e = Some x → x = (cl_Name cl, inst, reason).

Definition snapshot_outcome (cl : Cluster) (inst database trigType reason : string) (trigCtx : context)
    (s : sys W) (r : option (option error)) (s' : sys W) : Prop :=
  hosts (daemon s') = hosts (daemon s) ∧
  ∃ new, trace s' = new ++ trace s ∧ Forall (attempts_only cl inst reason) new ∧
    match r with
    | Some None => snapshot_taken cl inst database trigType reason trigCtx (daemon s) (daemon s') new
    | Some (Some _) => snapshot_failed cl inst trigType trigCtx (daemon s) (daemon s') new
    | None => panicked s'
    end.

(** What has been done before the snapshot is stored. *)
Definition prepared (s s1 : sys W) (new : list event) : Prop :=
  daemon s1 = daemon s ∧ trace s1 = new ++ trace s ∧ Forall plain new.

Lemma plain_attempts cl inst reason e : plain e → attempts_only cl inst reason e.
Proof. intros [Ha _] x Hx. congruence. Qed.

Lemma prepared_call s s1 new c w r :
  plain (Ev c r) → prepared s s1 new → prepared s (mkSys (daemon s1) w (Ev c r :: trace s1)) (Ev c r :: new).
Proof. intros Hp (Hd & Htr & Hn). split; [done|]. cbn. rewrite Htr. split; [done|]. by constructor. Qed.

Lemma prepared_panic cl inst database trigType reason trigCtx s s1 new :
  prepared s s1 new → panicked s1 → snapshot_outcome cl inst database trigType reason trigCtx s None s1.
Proof.
  intros (Hd & Htr & Hn) Hp. split; [by rewrite Hd|]. exists new. split_and!; [done| |done].
  eapply Forall_impl; [exact Hn|]. apply plain_attempts.
Qed.

(** The error event on the way out. *)
Lemma wp_fail cl inst database database' trigType reason trigCtx msg err s s1 new :
  Forall (attempts_only cl inst reason) new → creations new = [] → logs new = [] →
  daemon s1 = daemon s → trace s1 = new ++ trace s →
  wp (bind (insertEvent (error_event cl inst database' trigType trigCtx msg)) (λ _, ret (Some err)))
    (snapshot_outcome cl inst database trigType reason trigCtx s) s1.
Proof.
  intros Hat Hcr Hlog Hd Htr. wp_step. unfold insertEvent. wp_step. apply wp_do. intros r w _.
  set (ev := error_event _ _ _ _ _ _).
  assert (Hat' : Forall (attempts_only cl inst reason) (Ev (InsertTriggerEvent ev) r :: new)) by (constructor; [by intros x [=]|done]).
  destruct r as [r|].
  - do 2 wp_step. split; [cbn; by rewrite Hd|]. exists (Ev (InsertTriggerEvent ev) (Some r) :: new).
    cbn [trace daemon]. rewrite Htr. split_and!; [done..|]. split; [by apply Hcr|]. split; [done|].
    exists database', msg. unfold logs in *. cbn. by rewrite Hlog.
  - split; [cbn; by rewrite Hd|]. exists (Ev (InsertTriggerEvent ev) None :: new). cbn [trace daemon]. rewrite Htr.
    split_and!; [done..|]. by eexists _, _.
Qed.

Lemma finish_snapshot_safe cfg cl inst provenance trigType trigCtx id createdAt :
  safe (W:=W) (finish_snapshot cfg cl inst provenance trigType trigCtx id createdAt).
Proof.
  unfold finish_snapshot, insertEvent. safe_step; [apply safe_modify|]. safe_step; [|safe_code].
  destruct (cfg_ResetQueryStats cfg); [apply (safe_do (ResetQueryStats _ _ _))|apply safe_ret].
Qed.

(** The reset is not recorded in the outcome. *)
Lemma finish_snapshot_emits cfg cl inst provenance trigType trigCtx id createdAt s1 :
  let ev := mkTriggerEvent (cl_Name cl) inst (Some provenance) trigType OutcomeSnapshotCreated (Some id) trigCtx None in
  wp (finish_snapshot cfg cl inst provenance trigType trigCtx id createdAt)
    (λ r s', daemon s' = set_lastAuto (<[(cl_Name cl, inst) := createdAt]> (lastAuto (daemon s1))) (daemon s1) ∧
      ∃ new, trace s' = new ++ trace s1 ∧ creations new = [] ∧ Forall (λ e, attempt e = None) new ∧
        match r with Some r => r = None ∧ logs new = [ev] | None => panicked s' end) s1.
Proof.
  intros ev. unfold finish_snapshot, insertEvent. do 2 wp_step. wp_step.
  set (d := set_lastAuto _ _). clearbody d.
  assert (Hlast : ∀ s2 new0, daemon s2 = d → trace s2 = new0 ++ trace s1 → Forall plain new0 →
    wp (bind (bind (do (InsertTriggerEvent ev)) (λ _, ret tt)) (λ _, ret None))
      (λ r s', daemon s' = d ∧ ∃ new, trace s' = new ++ trace s1 ∧ creations new = [] ∧
        Forall (λ e, attempt e = None) new ∧
        match r with Some r => r = @None error ∧ logs new = [ev] | None => panicked s' end) s2).
  { intros s2 new0 Hd Htr Hp. do 2 wp_step. apply wp_do. intros r w _.
    assert (Ha : Forall (λ e, attempt e = None) (Ev (InsertTriggerEvent ev) r :: new0))
      by (constructor; [done|]; eapply Forall_impl; [exact Hp|by intros e [? _]]).
    assert (Hc : creations (Ev (InsertTriggerEvent ev) r :: new0) = []) by (by apply (plain_creations new0)).
    destruct r as [r|]; [do 2 wp_step|]; cbn [daemon trace]; rewrite Htr; (split; [done|]);
      match goal with |- context [?e :: new0 ++ _] => exists (e :: new0) end; (split_and!; [done..|]).
    - unfold logs. cbn. f_equal. by apply plain_logs.
    - by eexists _, _. }
  destruct (cfg_ResetQueryStats cfg).
  - apply (wp_do (ResetQueryStats (cl_Name cl) inst provenance)). intros r w _. cbn [daemon trace].
    destruct r as [r|]; [|split; [done|]; eexists [_]; split_and!; [done..|by constructor|by eexists _, _]].
    eapply Hlast with (new0 := [_]); [done..|]. by repeat constructor.
  - wp_step. by eapply Hlast with (new0 := []).
Qed.

Lemma attempts_plain cl inst reason new : Forall plain new → Forall (attempts_only cl inst reason) new.
Proof. intros Hn. eapply Forall_impl; [exact Hn|]. apply plain_attempts. Qed.

Lemma wp_store_snapshot cfg cl inst database trigType reason trigCtx bgPeak reports provenance s s1 new :
  reports ≠ [] → prepared s s1 new → Ev (PgssDatabase (cl_Name cl) inst database) (Some (inr provenance)) ∈ new →
  wp (store_snapshot cfg cl inst database trigType reason trigCtx bgPeak reports provenance)
    (snapshot_outcome cl inst database trigType reason trigCtx s) s1.
Proof.
  intros Hne Hprep Hprov. unfold store_snapshot.
  wp_step. apply wp_do. intros r w _. eapply prepared_call with (c := GetPgssStatsResetTime _ _ _) (r := r) in Hprep; [|done].
  destruct r as [reset|]; [|eapply prepared_panic; [exact Hprep|by eexists _, _]].
  wp_step. apply wp_do. intros r w' _. eapply prepared_call with (c := PgssSource _ _ _) (r := r) in Hprep; [|done].
  destruct r as [source|]; [|eapply prepared_panic; [exact Hprep|by eexists _, _]].
  wp_step. cbn [world daemon trace] in Hprep |- *.
  assert (Hlocks : ∀ m : M W (option LockCapture), respects (reads plain) m → safe m →
    wp m (λ r s2, (r = None → panicked s2) ∧ ∃ new', prepared s s2 new' ∧
      Ev (PgssDatabase (cl_Name cl) inst database) (Some (inr provenance)) ∈ new')
      (mkSys (daemon s1) w' (Ev (PgssSource (cl_Name cl) inst database) (Some source) ::
        Ev (GetPgssStatsResetTime (cl_Name cl) inst database) (Some reset) :: trace s1))).
  { intros m Hm Hs. apply wp_and; [by apply safe_wp|]. destruct Hprep as (Hd & Htr & Hp). cbn [daemon trace] in *.
    eapply wp_mono; [by apply respects_wp|]. intros r s2 (Hd' & n & Htr' & Hn).
    cbn [daemon trace] in *. eexists (n ++ _ :: _ :: new).
    split; [split; [by rewrite Hd'|]; split; [rewrite Htr', Htr; by rewrite <-app_assoc|by apply Forall_app]|].
    apply elem_of_app. right. by do 2 right. }
  eapply wp_mono; [apply Hlocks|].
  - destruct (_ && _); respects_code. apply CaptureLocks_reads, lock_call_plain.
  - destruct (_ && _); safe_code. apply CaptureLocks_safe.
  - clear Hlocks Hprep Hprov new. intros r s2 (Hpan & new & Hprep & Hprov).
    destruct r as [locks|]; [|eapply prepared_panic; [exact Hprep|by apply Hpan]].
    clear Hpan. destruct Hprep as (Hd & Htr & Hp). wp_step. apply wp_do. intros r w2 _.
    set (opts := mkSnapshotOpts _ _ _ _ _). set (c := CreateSnapshot _ _ _ _ _).
    assert (Hat : Forall (attempts_only cl inst reason) (Ev c r :: new)).
    { constructor; [by intros x [= <-]|]. by apply attempts_plain. }
    destruct r as [[err|[id createdAt]]|].
    + eapply wp_fail; cbn [daemon trace]; [exact Hat|by apply (plain_creations new)|by apply (plain_logs new)|done|by rewrite Htr].
    + eapply wp_mono; [apply finish_snapshot_emits|]. cbn [daemon trace world].
      intros r s3 (Hd3 & n & Htr3 & Hc3 & Ha3 & Hr). split; [by rewrite Hd3, Hd|].
      exists (n ++ Ev c (Some (inr (id, createdAt))) :: new).
      split; [rewrite Htr3, Htr; by rewrite <-app_assoc|]. split.
      { apply Forall_app. split; [|done]. eapply Forall_impl; [exact Ha3|]. intros e He x. by rewrite He. }
      destruct r as [r|]; [|done]. destruct Hr as [-> Hl].
      exists provenance, reports, opts, id, createdAt.
      rewrite creations_app, logs_app, Hc3, Hl. unfold creations, logs. cbn [omap list_omap creation logged c].
      fold (creations new). fold (logs new). rewrite plain_creations, plain_logs by done. rewrite Hd3, Hd.
      split_and!; try done. apply elem_of_app. right. by right.
    + split; [cbn; by rewrite Hd|]. exists (Ev c None :: new). cbn [daemon trace]. rewrite Htr.
      split_and!; [done|done|by eexists _, _].
Qed.

Lemma wp_takeSnapshot cfg cl inst database trigType reason trigCtx bgPeak s :
  wp (takeSnapshot cfg cl inst database trigType reason trigCtx bgPeak)
    (snapshot_outcome cl inst database trigType reason trigCtx s) s.
Proof.
  unfold takeSnapshot. assert (Hprep : prepared s s []) by done.
  wp_step. apply wp_do. intros r w _. eapply prepared_call with (c := GetQueriesReport _ _ _) (r := r) in Hprep; [|done].
  destruct r as [report|]; [|eapply prepared_panic; [exact Hprep|by eexists _, _]].
  assert (Hfail : ∀ s1 new database' msg err, prepared s s1 new →
    wp (bind (insertEvent (error_event cl inst database' trigType trigCtx msg)) (λ _, ret (Some err)))
      (snapshot_outcome cl inst database trigType reason trigCtx s) s1).
  { intros s1 new database' msg err (Hd & Htr & Hp). eapply wp_fail; [by apply attempts_plain|by apply plain_creations|
      by apply plain_logs|exact Hd|exact Htr]. }
  destruct report as [err|[|report reports]]; [by eapply Hfail|by eapply Hfail|].
  wp_step. apply wp_do. intros r w' _. eapply prepared_call with (c := PgssDatabase _ _ _) (r := r) in Hprep; [|done].
  destruct r as [[err|provenance]|]; [by eapply Hfail| |eapply prepared_panic; [exact Hprep|by eexists _, _]].
  eapply wp_store_snapshot; [done|exact Hprep|by left].
Qed.

(** Taking a snapshot, in any surroundings. A success stores exactly one snapshot,
    of a non-empty report, under the requested reason and context and labelled with the
    database the report was really read through; it advances the debounce time of the
    host and logs one [snapshot_created] event with the new id. An error stores nothing
    and changes nothing, and is logged as exactly one [error] event. No attempt is ever
    made for another host or reason, the hosts' states stay as they are, and a panic is
    one of the surroundings. *)
Theorem takeSnapshot_outcome cfg cl inst database trigType reason trigCtx bgPeak s r s' :
  takeSnapshot cfg cl inst database trigType reason trigCtx bgPeak s = (r, s') →
  snapshot_outcome cl inst database trigType reason trigCtx s r s'.
Proof. intros Hrun. wp_of_run Hrun. apply wp_takeSnapshot. Qed.

(** The other calls of [takeSnapshot]. *)
Definition snapshot_call (c : call) : bool :=
  lock_call c || match c with
    | GetQueriesReport _ _ _ | PgssDatabase _ _ _ | PgssSource _ _ _ | GetPgssStatsResetTime _ _ _
    | ResetQueryStats _ _ _ | CreateSnapshot _ _ _ _ _ | InsertTriggerEvent _ => true
    | _ => false
    end.

Lemma takeSnapshot_calls ok cfg cl inst database trigType reason trigCtx bgPeak (s : sys W) :
  (∀ c r, snapshot_call c = true → ok (Ev c r)) →
  wp (takeSnapshot cfg cl inst database trigType reason trigCtx bgPeak)
    (λ _ s', ∃ new, trace s' = new ++ trace s ∧ Forall ok new ∧
       ∃ r, Ev (GetQueriesReport (cl_Name cl) inst database) r ∈ new) s.
Proof.
  intros Hok. unfold takeSnapshot. wp_step. apply wp_do. intros r w _.
  set (e := Ev _ r). set (s1 := mkSys _ _ _).
  assert (Hdo : ∀ c, snapshot_call c = true → respects (W:=W) (emits ok) (do c)).
  { intros c Hc. apply respects_do. intros s2 r2 w2. apply emits_call. by apply Hok. }
  assert (Hev : ∀ ev, respects (W:=W) (emits ok) (insertEvent ev)) by (intros ev; unfold insertEvent; respects_step; [by apply Hdo|respects_step]).
  assert (Hin : ∀ s', emits ok s1 s' → ∃ new, trace s' = new ++ trace s ∧ Forall ok new ∧
    ∃ r, Ev (GetQueriesReport (cl_Name cl) inst database) r ∈ new).
  { intros s' (new & Htr & Hn). exists (new ++ [e]). split; [by rewrite Htr, <-app_assoc|]. split.
    - apply Forall_app. split; [done|]. constructor; [by apply Hok|done].
    - exists r. apply elem_of_app. right. by left. }
  destruct r as [report|]; [|apply Hin; by apply emits_same].
  refine (wp_mono _ (λ _ s', emits ok s1 s') _ _ (respects_wp (emits ok) _ s1 _) (λ _ s', Hin s')).
  unfold store_snapshot, finish_snapshot. respects_code; try apply Hev; try by apply Hdo.
  - eapply respects_weaken; [|apply (CaptureLocks_reads ok)]; [by intros ? ? [_ ?]|].
    intros c r Hc. apply Hok. unfold snapshot_call. by rewrite Hc.
  - apply respects_modify. intros ?. by apply emits_same.
Qed.

End snapshot.

(** ** The state of a host over a sweep *)

(** The invariant of a host: its counters summarise a candidate, and a recovery is only
    awaited during an incident. *)
Definition hostState_ok (h : hostState) : Prop :=
  (∃ c, summarises h c ∧ candidate_ok c) ∧ (is_Some (recoveryBelowSince h) → inSpike h = true).

Definition daemon_ok (d : Daemon) : Prop := ∀ key h, hosts d !! key = Some h → hostState_ok h.

Lemma hostState_ok_new : hostState_ok new_hostState.
Proof. split; [|by intros [? [=]]]. exists []. split; [by split_and!|apply candidate_ok_nil]. Qed.

Lemma daemon_ok_host d key : daemon_ok d → hostState_ok (host_state key d).
Proof.
  intros Hd. unfold host_state. destruct (hosts d !! key) as [h|] eqn:Hh; cbn; [by eapply Hd|apply hostState_ok_new].
Qed.

Lemma host_state_update key f d : host_state key (update_host key f d) = f (host_state key d).
Proof. unfold host_state, update_host. cbn. by rewrite lookup_insert_eq. Qed.

Lemma host_state_lastAuto key v d : host_state key (set_lastAuto v d) = host_state key d.
Proof. done. Qed.

Lemma host_state_hosts key d d' : hosts d' = hosts d → host_state key d' = host_state key d.
Proof. unfold host_state. by intros ->. Qed.

(** Assignments that keep the invariant. *)
Lemma ok_reset h : hostState_ok h → hostState_ok (resetSpike h).
Proof. intros [_ Hr]. split; [|done]. exists []. split; [apply resetSpike_summarises|apply candidate_ok_nil]. Qed.

Lemma ok_calm h : hostState_ok h → hostState_ok (set_recoveryBelowSince None h).
Proof. intros [Hc _]. split; [done|by intros [? [=]]]. Qed.

Lemma ok_incident b h : hostState_ok h → hostState_ok (set_recoveryBelowSince None (set_inSpike b h)).
Proof. intros [Hc _]. split; [done|by intros [? [=]]]. Qed.

Lemma ok_samples v h : hostState_ok h → hostState_ok (set_windowSamples v h).
Proof. done. Qed.
Lemma ok_role v h : hostState_ok h → hostState_ok (set_lastInRecovery v h).
Proof. done. Qed.
Lemma ok_below v h : hostState_ok h → hostState_ok (set_lastBelowBaselineAt v h).
Proof. done. Qed.
Lemma ok_threshold v h : hostState_ok h → hostState_ok (set_spikeThreshold v h).
Proof. done. Qed.

Lemma ok_awaiting t h : inSpike h = true → hostState_ok h → hostState_ok (set_recoveryBelowSince (Some t) h).
Proof. intros Hi [Hc _]. by split. Qed.

Lemma ok_lockPeak p h : is_Some (aboveThresholdSince h) → hostState_ok h → hostState_ok (set_lockPeak p h).
Proof.
  intros Hs [(c & Hc & Hok) Hr]. split; [|done]. exists c. split; [|done].
  destruct Hc as (H1 & H2 & H3 & H4 & H5 & H6). split_and!; try done. intros ->. rewrite H1 in Hs. by destruct Hs.
Qed.

Lemma advanceSpike_rest h now count threshold D step h' :
  advanceSpike h now count threshold D = (step, h') →
  same_rest h h' ∧ (step = spikeForming → is_Some (aboveThresholdSince h')).
Proof.
  unfold advanceSpike. intros H. repeat case_match; simplify_eq; split; try done; intros _; cbn in *.
  all: match goal with H : (_ || _ || _) = false |- _ => apply orb_false_iff in H as [[Hu _]%orb_false_iff _] end;
    by destruct (aboveThresholdSince h).
Qed.

Lemma advanceSpike_step h now count threshold D step h' :
  hostState_ok h → advanceSpike h now count threshold D = (step, h') →
  hostState_ok h' ∧ same_rest h h' ∧ (step = spikeForming → is_Some (aboveThresholdSince h')).
Proof.
  intros [(c & Hc & Hok) Hr] Hadv.
  destruct (advanceSpike_cases h c now count threshold D Hc Hok) as (H1 & H2 & H3 & H4 & _).
  rewrite Hadv in *. cbn [fst snd] in *.
  set (r := advance c now count (is_above count threshold) D) in *.
  split; [|split; [done|]].
  - split; [by exists r.2|]. destruct H4 as (_ & _ & _ & -> & -> & _). done.
  - intros ->. destruct H2 as (-> & _). unfold opened_at. apply fmap_is_Some.
    destruct (last r.2) eqn:Hl; [by eexists|]. apply last_None in Hl. exfalso.
    symmetry in H1. revert H1 Hl. unfold r, advance. repeat case_match; naive_solver.
Qed.

#[export] Hint Resolve ok_reset ok_calm ok_incident ok_samples ok_role ok_below ok_threshold hostState_ok_new : go.

(** ** Recovery *)

Section recovery.
Context {W : Type} {E : Env W}.

(** The host has stayed below the frozen threshold for the recovery duration. *)
Definition recovery_due (t : ActivitySpikeTrigger) (h : hostState) (now : time) (count : Z) : Prop :=
  0 < RecoveryDuration t ∧ inSpike h = true ∧ (spikeThreshold h <=? to_float count)%float = false ∧
  ∃ since, recoveryBelowSince h = Some since ∧ RecoveryDuration t ≤ time_sub now since.

(** What [handleRecovery] does to a host's state, by the trace it adds. A recovery that
    is due either ends the incident, with one snapshot and the follow-up cancelled, or,
    when the snapshot fails, keeps it and waits anew. One that is not due touches the
    incident only when recovery is disabled, and makes no call. *)
Definition recovery_outcome (t : ActivitySpikeTrigger) (cl : Cluster) (inst : string) (h h' : hostState)
    (now : time) (count : Z) (new : list event) : Prop :=
  (recovery_due t h now count ∧
     ((length (creations new) = 1%nat ∧ h' = set_recoveryBelowSince None (set_inSpike false h) ∧
        ∃ r, Ev (DeletePendingSnapshot (cl_Name cl) inst) r ∈ new) ∨
      (creations new = [] ∧ h' = set_recoveryBelowSince None h))) ∨
  (¬ recovery_due t h now count ∧ new = [] ∧
     (RecoveryDuration t ≤ 0 → h' = set_recoveryBelowSince None (set_inSpike false h)) ∧
     (0 < RecoveryDuration t → ∃ since, h' = set_recoveryBelowSince since h ∧
        (is_Some since → inSpike h = true ∧ (spikeThreshold h <=? to_float count)%float = false))).

(** Attempts under the reason of a recovery, and only when it is due. *)
Definition drop_justified (t : ActivitySpikeTrigger) (cl : Cluster) (inst : string) (h : hostState)
    (now : time) (count : Z) (e : event) : Prop :=
  ∀ x, attempt e = Some x → x = (cl_Name cl, inst, "auto:activity_drop"%string) ∧ recovery_due t h now count.

Definition recovery_post (t : ActivitySpikeTrigger) (cl : Cluster) (inst : string) (now : time) (count : Z)
    (s : sys W) (r : option unit) (s' : sys W) : Prop :=
  let key := (cl_Name cl, inst) in
  ∃ new, trace s' = new ++ trace s ∧
    Forall (drop_justified t cl inst (host_state key (daemon s)) now count) new ∧
    match r with
    | Some _ => recovery_outcome t cl inst (host_state key (daemon s)) (host_state key (daemon s')) now count new
    | None => panicked s' ∧
        (host_state key (daemon s') = host_state key (daemon s) ∨
         host_state key (daemon s') = set_recoveryBelowSince None (set_inSpike false (host_state key (daemon s))))
    end.

Lemma update_run key f (s : sys W) :
  update key f s = (Some tt, mkSys (update_host key f (daemon s)) (world s) (trace s)).
Proof. done. Qed.

(** The branches that only assign. *)
Lemma recovery_not_due t cl inst now count (s : sys W) f :
  let h := host_state (cl_Name cl, inst) (daemon s) in
  ¬ recovery_due t h now count →
  (RecoveryDuration t ≤ 0 → f h = set_recoveryBelowSince None (set_inSpike false h)) →
  (0 < RecoveryDuration t → ∃ since, f h = set_recoveryBelowSince since h ∧
     (is_Some since → inSpike h = true ∧ (spikeThreshold h <=? to_float count)%float = false)) →
  wp (update (cl_Name cl, inst) f) (recovery_post t cl inst now count s) s.
Proof.
  intros h Hdue H0 H1. unfold wp. rewrite update_run. cbn [fst snd]. exists []. cbn [trace daemon].
  split_and!; [done|constructor|]. rewrite host_state_update. right. by split_and!.
Qed.

Lemma set_recovery_same h since : recoveryBelowSince h = since → set_recoveryBelowSince since h = h.
Proof. destruct h. by intros <-. Qed.

Lemma wp_handleRecovery cfg t cl inst database now count s :
  wp (handleRecovery cfg t cl inst database now count) (recovery_post t cl inst now count s) s.
Proof.
  unfold handleRecovery. set (key := (cl_Name cl, inst)). set (h := host_state key (daemon s)).
  destruct (Z.leb_spec (RecoveryDuration t) 0) as [Hoff|Hon].
  { apply recovery_not_due; [|done|lia]. intros (? & _). lia. }
  wp_step. unfold get_state. wp_step. fold h.
  destruct (inSpike h) eqn:Hin; cbn [negb]; [|apply recovery_not_due; [intros (_ & Hx & _); change (inSpike h = true) in Hx; congruence|lia|]].
  2: { intros _. exists None. split; [done|by intros [? [=]]]. }
  destruct (spikeThreshold h <=? to_float count)%float eqn:Hth.
  { apply recovery_not_due; [intros (_ & _ & Hx & _); change ((spikeThreshold h <=? to_float count)%float = false) in Hx; congruence|lia|].
    intros _. exists None. split; [done|by intros [? [=]]]. }
  destruct (recoveryBelowSince h) as [since|] eqn:Hsince.
  2: { apply recovery_not_due; [intros (_ & _ & _ & x & Hs & _); change (recoveryBelowSince h = Some x) in Hs; congruence|lia|].
       intros _. by exists (Some now). }
  destruct (Z.ltb_spec (time_sub now since) (RecoveryDuration t)) as [Hyoung|Hold].
  { wp_step. exists []. split_and!; [done|constructor|]. right. split_and!; [|done|lia|].
    - intros (_ & _ & _ & since' & Hs & Hle). change (recoveryBelowSince h = Some since') in Hs. rewrite Hsince in Hs. simplify_eq. lia.
    - intros _. exists (Some since). fold h. by rewrite (set_recovery_same h). }
  assert (Hdue : recovery_due t h now count) by (split_and!; [done..|by exists since]).
  assert (Hjust : ∀ new, Forall (attempts_only cl inst "auto:activity_drop") new →
    Forall (drop_justified t cl inst h now count) new).
  { intros new Hn. eapply Forall_impl; [exact Hn|]. intros e He x Hx. split; [by apply He|done]. }
  wp_step. eapply wp_mono; [apply wp_takeSnapshot|]. intros r s1 (Hh & new & Htr & Hat & Hr).
  apply (host_state_hosts key) in Hh. fold h in Hh.
  destruct r as [[err|]|].
  - unfold wp. rewrite update_run. exists new. cbn [fst snd trace daemon].
    split_and!; [done|by apply Hjust|]. rewrite host_state_update, Hh. left. split; [done|]. right. by destruct Hr as [? _].
  - wp_step. unfold wp at 1. rewrite update_run. cbn [fst snd]. wp_step. apply wp_do. intros r w _. cbn [daemon trace].
    set (e := Ev _ r). assert (He : Forall (drop_justified t cl inst h now count) (e :: new))
      by (constructor; [by intros x [=]|by apply Hjust]).
    destruct r as [r|]; [wp_step|]; cbn [daemon trace]; exists (e :: new); cbn [trace daemon];
      rewrite Htr; (split; [done|split; [exact He|]]); fold key; rewrite host_state_update, Hh.
    + left. split; [done|]. left. destruct Hr as (p & rs & o & id & at_ & Hc & _).
      unfold creations in *. cbn. rewrite Hc. split_and!; [done|done|]. exists (Some r). by left.
    + split; [by eexists _, _|by right].
  - exists new. split_and!; [done|by apply Hjust|done|]. by left.
Qed.

(** The recovery snapshot. Whatever the surroundings answer, [handleRecovery]
    attempts a snapshot only for the incident of this host that has stayed below the
    threshold frozen at its onset for the recovery duration. A success closes the
    incident and cancels the pending follow-up; a failure keeps the incident and
    restarts the wait; nothing else about the host changes, and before it is due no call
    is made at all. *)
Theorem handleRecovery_outcome cfg t cl inst database now count s r s' :
  handleRecovery cfg t cl inst database now count s = (r, s') →
  recovery_post t cl inst now count s r s'.
Proof. intros Hrun. wp_of_run Hrun. apply wp_handleRecovery. Qed.

End recovery.

(** ** The activity spike *)

Section spike.
Context {W : Type} {E : Env W}.

(** The clock said [now] at one of these events, latest first. *)
Definition read_at (now : time) (tr : list event) : Prop :=
  Ev Now (Some now) ∈ tr ∨ Ev Clock (Some now) ∈ tr.

Lemma read_at_incl now tr tr' : tr ⊆ tr' → read_at now tr → read_at now tr'.
Proof. unfold read_at. set_solver. Qed.

(** Every event is allowed by what came before it. *)
Fixpoint caused (ok : list event → event → Prop) (tr : list event) : Prop :=
  match tr with [] => True | e :: tr => ok tr e ∧ caused ok tr end.

Definition causes (ok : list event → event → Prop) (s s' : sys W) : Prop :=
  ∃ new, trace s' = new ++ trace s ∧ caused ok new.

Lemma caused_weaken (ok ok' : list event → event → Prop) tr : (∀ before e, ok before e → ok' before e) → caused ok tr → caused ok' tr.
Proof. intros Hok. induction tr as [|e tr IH]; [done|]. cbn [caused]. intros [He Ht]. split; [by apply Hok|by apply IH]. Qed.

Lemma caused_app (ok : list event → event → Prop) (Q : event → Prop) later tr :
  (∀ before e, tr ⊆ before → Q e → ok before e) → Forall Q later → caused ok tr → caused ok (later ++ tr).
Proof.
  intros Hok Hl Htr. induction Hl as [|e later He Hl IH]; [done|]. cbn [app caused]. split; [|exact IH].
  apply Hok; [set_solver|done].
Qed.

Lemma caused_split (ok : list event → event → Prop) after e before : caused ok (after ++ e :: before) → ok before e.
Proof. induction after as [|x after IH]; cbn [app caused]; [by intros [? _]|]. by intros [_ ?%IH]. Qed.

Lemma causes_emits (ok : list event → event → Prop) (Q : event → Prop) (s s' : sys W) :
  (∀ before e, Q e → ok before e) → emits Q s s' → causes ok s s'.
Proof.
  intros Hok (new & Htr & Hn). exists new. split; [done|]. rewrite <- (app_nil_r new). apply (caused_app _ Q); [|done..].
  intros before e _. apply Hok.
Qed.

Lemma causes_weaken (ok ok' : list event → event → Prop) (s s' : sys W) :
  (∀ before e, ok before e → ok' before e) → causes ok s s' → causes ok' s s'.
Proof. intros Hok (new & Htr & Hn). exists new. split; [done|]. by eapply caused_weaken. Qed.

(** The window of samples of a host after a probe. *)
Definition probed (t : ActivitySpikeTrigger) (h : hostState) (count : Z) (now : time) : hostState :=
  set_windowSamples (trimSamples (windowSamples h ++ [mkActivitySample now count])
    (time_add now (0 ⊟ WindowSize t))) h.

(** The conditions under which a probe takes a spike snapshot: a baseline at or above
    the floor; a candidate that formed, has lasted the spike duration and spent enough
    of its probes above the threshold; and, by a reading of the clock [before] the attempt, no
    automatic snapshot of the host within the debounce period. *)
Definition spike_due (cfg : Config) (t : ActivitySpikeTrigger) (key : hostKey) (d : Daemon) (count : Z) (now : time)
    (before : list event) : Prop :=
  let h := probed t (host_state key d) count now in
  let baseline := averageExcludingLast (windowSamples h) in
  (2 ≤ length (windowSamples h))%nat ∧ (baseline <? to_float (MinBaselineActive cfg))%float = false ∧
  (∃ h' since, advanceSpike h now count (spike_threshold t baseline) (SpikeDuration t) = (spikeForming, h') ∧
     aboveThresholdSince h' = Some since ∧ SpikeDuration t ≤ time_sub now since ∧
     (spikeCoverage h' <? minSpikeCoverage)%float = false) ∧
  (∀ last, lastAuto d !! key = Some last → ∃ now', read_at now' before ∧ MaxSnapshotFrequency cfg ≤ time_sub now' last).

Definition probe_justified (cfg : Config) (t : ActivitySpikeTrigger) (cl : Cluster) (inst : string) (d : Daemon)
    (count : Z) (now : time) (before : list event) (e : event) : Prop :=
  let key := (cl_Name cl, inst) in
  ∀ x, attempt e = Some x →
    (x = (key, "auto:activity_spike"%string) ∧ spike_due cfg t key d count now before) ∨
    (x = (key, "auto:activity_drop"%string) ∧ recovery_due t (host_state key d) now count).

(** What one probe leaves of a host. *)
Definition host_kept (key : hostKey) (s : sys W) (r : option unit) (s' : sys W) : Prop :=
  let h := host_state key (daemon s) in let h' := host_state key (daemon s') in
  (hostState_ok h → hostState_ok h' ∧ (r = None → panicked s')) ∧
  (inSpike h = true → spikeThreshold h' = spikeThreshold h).

Lemma host_kept_by key (s s' : sys W) r h' :
  host_state key (daemon s') = h' →
  (hostState_ok (host_state key (daemon s)) → hostState_ok h') →
  spikeThreshold h' = spikeThreshold (host_state key (daemon s)) →
  (r = None → panicked s') → host_kept key s r s'.
Proof. intros Hh Hok Hth Hp. unfold host_kept. rewrite Hh. split; [by split; [apply Hok|]|done]. Qed.

Lemma recovery_post_ok t cl inst now count (s s' : sys W) r :
  recovery_post t cl inst now count s r s' → host_kept (cl_Name cl, inst) s r s'.
Proof.
  set (key := (cl_Name cl, inst)). intros (new & _ & _ & Hr). fold key in Hr.
  destruct r as [u|].
  - destruct Hr as [(_ & [(_ & Hh & _)|(_ & Hh)])|(_ & _ & Hoff & Hon)].
    + eapply host_kept_by; [exact (Hh)|apply ok_incident|done|done].
    + eapply host_kept_by; [exact (Hh)|apply ok_calm|done|done].
    + destruct (Z.leb_spec (RecoveryDuration t) 0) as [H|H].
      * eapply host_kept_by; [exact (Hoff H)|apply ok_incident|done|done].
      * destruct (Hon H) as (since & Hh & Hs). eapply host_kept_by; [exact Hh| |done|done].
        destruct since; [by apply ok_awaiting, Hs; eexists|apply ok_calm].
  - destruct Hr as (Hp & [Hh|Hh]); (eapply host_kept_by; [exact Hh| |done..]); [done|apply ok_incident].
Qed.

Lemma nowUTC_reads : respects (W:=W) (reads plain) nowUTC.
Proof.
  unfold nowUTC. respects_step; [respects_step|]. destruct a;
    [by apply (respects_reads_do plain Clock)|by apply (respects_reads_do plain Now)].
Qed.

Lemma nowUTC_safe : safe (W:=W) nowUTC.
Proof. unfold nowUTC. safe_step; [safe_step|]. destruct a; [apply (safe_do Clock)|apply (safe_do Now)]. Qed.

Lemma nowUTC_read (s : sys W) : wp nowUTC (λ r s', ∀ now, r = Some now → ∃ new, trace s' = new ++ trace s ∧ read_at now new) s.
Proof.
  intros now. unfold nowUTC, bind, gets, do, read_at. cbn [fst snd]. destruct (clock_set (daemon s)).
  - destruct (env Clock (world s)) as [r w]. cbn. intros ->. exists [Ev Clock (Some now)]. split; [done|]. right. by left.
  - destruct (env Now (world s)) as [r w]. cbn. intros ->. exists [Ev Now (Some now)]. split; [done|]. left. by left.
Qed.

Lemma debounced_reads key freq : respects (W:=W) (reads plain) (debounced key freq).
Proof. unfold debounced. respects_code. apply nowUTC_reads. Qed.

Lemma debounced_safe key freq : safe (W:=W) (debounced key freq).
Proof. unfold debounced. safe_code. apply nowUTC_safe. Qed.

(** A host that is not debounced had its last automatic snapshot long enough ago. *)
Lemma wp_debounced key freq (s : sys W) :
  wp (debounced key freq) (λ r s', reads plain s s' ∧ (r = None → panicked s') ∧
    (r = Some false → ∀ last, lastAuto (daemon s) !! key = Some last →
       ∃ now' new, trace s' = new ++ trace s ∧ read_at now' new ∧ freq ≤ time_sub now' last)) s.
Proof.
  apply wp_and; [by apply respects_wp, debounced_reads|].
  apply wp_and; [by apply safe_wp, debounced_safe|].
  unfold debounced. wp_step. wp_step. destruct (lastAuto (daemon s) !! key) as [last|] eqn:Hl.
  - wp_step. unfold wp. pose proof (nowUTC_read s) as Hr. unfold wp in Hr. destruct (nowUTC s) as [[now|] s1]; cbn; [|done].
    intros [= Hf] last' [= <-]. destruct (Hr now eq_refl) as (new & Htr & Hat). exists now, new. split_and!; [done..|by apply Z.ltb_ge in Hf].
  - wp_step. intros _ last [=].
Qed.

Lemma sample_locks_safe cfg cl inst database now : safe (W:=W) (sample_locks cfg cl inst database now).
Proof. unfold sample_locks, get_state, update. safe_code. Qed.

Lemma wp_sample_locks cfg cl inst database now (s : sys W) :
  let key := (cl_Name cl, inst) in
  wp (sample_locks cfg cl inst database now) (λ r s', (r = None → panicked s') ∧ emits plain s s' ∧
    lastAuto (daemon s') = lastAuto (daemon s) ∧
    ∃ p, host_state key (daemon s') = set_lockPeak p (host_state key (daemon s))) s.
Proof.
  intros key. apply wp_and; [by apply safe_wp, sample_locks_safe|].
  assert (Hsame : ∀ h, h = set_lockPeak (lockPeak h) h) by (by intros []).
  unfold sample_locks. fold key. destruct (cfg_CaptureLocks cfg); [|wp_step; by split; [|split; [|eexists]]].
  wp_step. apply wp_do. intros r w _.
  assert (Hem : emits plain s (mkSys (daemon s) w (Ev (GetBlockedSessionCount (cl_Name cl) inst database) r :: trace s)))
    by (by apply emits_call).
  destruct r as [[err|n]|]; [wp_step; split; [done|]; split; [done|by eexists]| |split; [done|]; split; [done|by eexists]].
  destruct (0 <? n); [|wp_step; split; [done|]; split; [done|by eexists]].
  wp_step. unfold get_state. wp_step. cbn [daemon].
  cbv zeta. match goal with |- wp (if ?b then _ else _) _ _ => destruct b end; [|wp_step; split; [done|]; split; [done|by eexists]].
  unfold wp. rewrite update_run. cbn [fst snd daemon world trace]. split; [done|]. split; [done|].
  eexists. by rewrite host_state_update.
Qed.

Lemma wp_update key f Q (s : sys W) :
  Q (Some tt) (mkSys (update_host key f (daemon s)) (world s) (trace s)) → wp (update key f) Q s.
Proof. done. Qed.

(** A step that keeps the incident, then another. *)
Lemma host_kept_trans key (s s1 s' : sys W) r :
  (hostState_ok (host_state key (daemon s)) → hostState_ok (host_state key (daemon s1))) →
  inSpike (host_state key (daemon s1)) = inSpike (host_state key (daemon s)) →
  spikeThreshold (host_state key (daemon s1)) = spikeThreshold (host_state key (daemon s)) →
  host_kept key s1 r s' → host_kept key s r s'.
Proof. unfold host_kept. intros Hok Hi Ht [H1 H2]. split; [by intros ?%Hok%H1|]. by rewrite <-Hi, <-Ht. Qed.

Lemma snapshot_outcome_parts cl inst database trigType reason trigCtx (s s' : sys W) r :
  snapshot_outcome cl inst database trigType reason trigCtx s r s' →
  (∀ key, host_state key (daemon s') = host_state key (daemon s)) ∧
  emits (attempts_only cl inst reason) s s' ∧ (r = None → panicked s').
Proof.
  intros (Hh & new & Htr & Hat & Hr). split; [intros key; by apply host_state_hosts|].
  split; [by exists new|]. by intros ->.
Qed.

Lemma wp_fire_spike cfg t cl inst database now baseline since (s : sys W) :
  wp (fire_spike cfg t cl inst database now baseline since)
    (λ r s', host_kept (cl_Name cl, inst) s r s' ∧ emits (attempts_only cl inst "auto:activity_spike") s s') s.
Proof.
  unfold fire_spike. set (key := (cl_Name cl, inst)). wp_step. unfold get_state. wp_step. wp_step.
  eapply wp_mono; [apply wp_takeSnapshot|]. intros r s1 (Hh & Hem & Hp)%snapshot_outcome_parts.
  specialize (Hh key). destruct r as [err|]; [|split; [|done]; eapply host_kept_by; [exact Hh|done..|by intros _; apply Hp]].
  clear Hp. wp_step. apply wp_update. destruct err as [err|].
  { wp_step. split; [|done]. eapply host_kept_by; cbn [daemon]; [by rewrite host_state_update, Hh|apply ok_reset|done..]. }
  wp_step. apply wp_update. cbn [daemon world trace].
  set (h' := set_recoveryBelowSince None (set_inSpike true (resetSpike (host_state key (daemon s))))).
  assert (Hfin : ∀ r w tr, emits (attempts_only cl inst "auto:activity_spike") s (mkSys (daemon s1) w tr) →
    (r = None → panicked (mkSys (daemon s1) w tr)) →
    let s' := mkSys (update_host key (λ s, set_recoveryBelowSince None (set_inSpike true s))
      (update_host key resetSpike (daemon s1))) w tr in
    host_kept key s r s' ∧ emits (attempts_only cl inst "auto:activity_spike") s s').
  { intros r w tr Ht Hp. split; [|done]. apply host_kept_by with h'; cbn [daemon]; [|intros Hok; by apply ok_incident, ok_reset|done..].
    by rewrite !host_state_update, Hh. }
  destruct (0 <? DeferredInterval t); [|by wp_step; apply Hfin].
  wp_step. apply wp_do. intros r w _. cbn [daemon trace].
  assert (Hem' : emits (attempts_only cl inst "auto:activity_spike") s
    (mkSys (daemon s1) w (Ev (EnqueuePendingSnapshot (mkPendingSnapshot (cl_Name cl) inst database "auto:deferred")
      (time_add now (DeferredInterval t))) r :: trace s1))).
  { etrans; [exact Hem|]. by apply emits_call. }
  destruct r as [r|]; [wp_step|]; (apply Hfin; [exact Hem'|]); [done|by eexists _, _].
Qed.

Lemma plain_attempts_spike cl inst reason (s s' : sys W) :
  emits plain s s' → emits (attempts_only cl inst reason) s s'.
Proof. apply emits_weaken. apply plain_attempts. Qed.

(** The state of a forming candidate, and whether it is due. *)
Definition formed (cfg : Config) (t : ActivitySpikeTrigger) (key : hostKey) (d : Daemon) (now : time) (before : list event) : Prop :=
  (∃ since, aboveThresholdSince (host_state key d) = Some since ∧ SpikeDuration t ≤ time_sub now since ∧
     (spikeCoverage (host_state key d) <? minSpikeCoverage)%float = false) ∧
  (∀ last, lastAuto d !! key = Some last → ∃ now', read_at now' before ∧ MaxSnapshotFrequency cfg ≤ time_sub now' last).

Lemma wp_forming_spike cfg t cl inst database now baseline (s : sys W) :
  let key := (cl_Name cl, inst) in
  is_Some (aboveThresholdSince (host_state key (daemon s))) →
  wp (forming_spike cfg t cl inst database now baseline)
    (λ r s', host_kept key s r s' ∧
       causes (λ before e, ∀ x, attempt e = Some x → x = (key, "auto:activity_spike"%string) ∧ formed cfg t key (daemon s) now before) s s') s.
Proof.
  intros key Hforming. unfold forming_spike. fold key. wp_step.
  assert (Hplain : ∀ s1 s2 : sys W, emits plain s1 s2 →
    causes (λ before e, ∀ x, attempt e = Some x → x = (key, "auto:activity_spike"%string) ∧ formed cfg t key (daemon s) now before) s1 s2).
  { intros s1 s2. apply causes_emits. intros before e [He _] x. by rewrite He. }
  eapply wp_mono; [apply wp_sample_locks|]. intros r s1 (Hp & Hem & Hla & p & Hh). fold key in Hh. pose proof Hem as Hem1.
  assert (Hk : ∀ r s2, host_state key (daemon s2) = host_state key (daemon s1) → (r = None → panicked s2) → host_kept key s r s2).
  { intros r' s2 Hs2 Hp'. eapply host_kept_by; [rewrite Hs2; exact Hh|by apply ok_lockPeak|done..]. }
  destruct r as [u|]; [|split; [by apply Hk|by apply Hplain]]. clear Hp u.
  wp_step. unfold get_state. wp_step.
  assert (Hsince : aboveThresholdSince (host_state key (daemon s1)) = aboveThresholdSince (host_state key (daemon s))) by (by rewrite Hh).
  assert (Hcov : spikeCoverage (host_state key (daemon s1)) = spikeCoverage (host_state key (daemon s))) by (by rewrite Hh).
  rewrite Hsince, Hcov. destruct Hforming as [since Hs]. rewrite Hs.
  destruct (Z.ltb_spec (time_sub now since) (SpikeDuration t)); [wp_step; split; [by apply Hk|by apply Hplain]|].
  destruct (spikeCoverage _ <? _)%float eqn:Hc; [wp_step; split; [by apply Hk|by apply Hplain]|].
  wp_step. eapply wp_mono; [apply wp_debounced|]. intros r s2 ([Hd2 Hem2] & Hp2 & Hdeb).
  assert (Hem12 : emits plain s s2) by (by etrans).
  assert (Hh2 : host_state key (daemon s2) = host_state key (daemon s1)) by (by rewrite Hd2).
  destruct r as [[]|]; [wp_step|clear Hp2|]; [split; [by apply Hk|by apply Hplain]| |split; [by apply Hk; [|intros _; apply Hp2]|by apply Hplain]].
  eapply wp_mono; [apply wp_fire_spike|]. intros r s3 [Hk3 Hem3]. split.
  - eapply host_kept_trans; [|by rewrite Hh2, Hh..|exact Hk3]. rewrite Hh2, Hh. apply ok_lockPeak. by eexists.
  - destruct Hem1 as (n1 & Ht1 & Hn1), Hem2 as (n2 & Ht2 & Hn2), Hem3 as (n3 & Ht3 & Hn3).
    exists (n3 ++ n2 ++ n1). split; [by rewrite Ht3, Ht2, Ht1, <- !app_assoc|]. eapply caused_app; [|exact Hn3|].
    + intros before e Hb He x Hx. split; [by apply He|]. split; [by exists since|]. intros last Hlast.
      destruct (Hdeb eq_refl last) as (now' & n2' & Ht2' & Hat & Hf); [by rewrite Hla|]. exists now'. split; [|done].
      rewrite Ht2 in Ht2'. apply app_inv_tail in Ht2' as <-. eapply read_at_incl; [|exact Hat]. set_solver.
    + destruct (Hplain s s2) as (new & Hnew & Hcd); [by exists (n2 ++ n1); split; [rewrite Ht2, Ht1, <- app_assoc|apply Forall_app]|].
      rewrite Ht2, Ht1, app_assoc in Hnew. apply app_inv_tail in Hnew as <-. exact Hcd.
Qed.

Lemma recovery_post_emits cfg t cl inst d count now (s s' : sys W) r h :
  recovery_post t cl inst now count s r s' →
  h = host_state (cl_Name cl, inst) d → inSpike (host_state (cl_Name cl, inst) (daemon s)) = inSpike h →
  spikeThreshold (host_state (cl_Name cl, inst) (daemon s)) = spikeThreshold h →
  recoveryBelowSince (host_state (cl_Name cl, inst) (daemon s)) = recoveryBelowSince h →
  causes (probe_justified cfg t cl inst d count now) s s'.
Proof.
  intros (new & Htr & Hj & _) -> Hi Ht Hs. eapply causes_emits; [|by exists new]. cbn beta.
  intros before e He x Hx. right. destruct (He x Hx) as [-> Hdue]. split; [done|].
  unfold recovery_due in *. by rewrite Hi, Ht, Hs in Hdue.
Qed.

Lemma wp_below_baseline cfg t cl inst database now count d (s : sys W) :
  let key := (cl_Name cl, inst) in
  same_rest (probed t (host_state key d) count now) (host_state key (daemon s)) →
  wp (below_baseline cfg t cl inst database now count)
    (λ r s', host_kept key s r s' ∧ causes (probe_justified cfg t cl inst d count now) s s') s.
Proof.
  intros key (_ & _ & _ & Hi & Hr & Ht). unfold below_baseline. fold key. wp_step. apply wp_update. wp_step.
  set (s1 := mkSys _ _ _). assert (Hh1 : host_state key (daemon s1) = resetSpike (host_state key (daemon s))) by apply host_state_update.
  eapply wp_mono; [apply wp_handleRecovery|]. intros r s2 Hpost.
  assert (Hem : causes (probe_justified cfg t cl inst d count now) s s2).
  { change (causes (probe_justified cfg t cl inst d count now) s1 s2).
    eapply recovery_post_emits; [exact Hpost|reflexivity|..]; fold key; rewrite Hh1; assumption. }
  apply recovery_post_ok in Hpost. fold key in Hpost.
  assert (Hk : host_kept key s r s2) by (eapply host_kept_trans; [rewrite Hh1; apply ok_reset|by rewrite Hh1..|done]).
  destruct r as [[]|]; [|done]. wp_step. unfold get_state. wp_step.
  destruct (_ && _); [|by wp_step]. apply wp_update. split; [|exact Hem].
  destruct Hk as [Hok Hth]. split; cbn [daemon]; rewrite host_state_update; [|exact Hth].
  intros H. split; [apply ok_below, Hok, H|done].
Qed.

Lemma wp_fold_probe cfg t cl inst database count now (s : sys W) :
  let key := (cl_Name cl, inst) in
  wp (fold_probe cfg t cl inst database count now)
    (λ r s', host_kept key s r s' ∧ causes (probe_justified cfg t cl inst (daemon s) count now) s s') s.
Proof.
  intros key. unfold fold_probe. fold key. wp_step. apply wp_update. wp_step. unfold get_state. wp_step.
  set (s1 := mkSys _ _ _). assert (Hh1 : host_state key (daemon s1) = probed t (host_state key (daemon s)) count now)
    by apply host_state_update.
  assert (Hfrom : ∀ r s', host_kept key s1 r s' ∧ causes (probe_justified cfg t cl inst (daemon s) count now) s1 s' →
    host_kept key s r s' ∧ causes (probe_justified cfg t cl inst (daemon s) count now) s s').
  { intros r s' [Hk Hem]. split; [|exact Hem]. eapply host_kept_trans; [rewrite Hh1; apply ok_samples|by rewrite Hh1..|exact Hk]. }
  rewrite Hh1. destruct (Nat.ltb_spec (length (windowSamples (probed t (host_state key (daemon s)) count now))) 2) as [Hl|Hl].
  { wp_step. apply Hfrom. split; [|by exists []]. by apply host_kept_by with (host_state key (daemon s1)). }
  cbv zeta. destruct (_ <? to_float (MinBaselineActive cfg))%float eqn:Hbase.
  { eapply wp_mono; [apply wp_below_baseline with (d := daemon s); fold key; by rewrite Hh1|exact Hfrom]. }
  set (h := probed t (host_state key (daemon s)) count now) in *.
  set (threshold := spike_threshold t (averageExcludingLast (windowSamples h))).
  destruct (advanceSpike h now count threshold (SpikeDuration t)) as [step h'] eqn:Hadv.
  wp_step. apply wp_update. set (s2 := mkSys _ _ _).
  assert (Hh2 : host_state key (daemon s2) = h') by apply host_state_update.
  assert (Hok2 : hostState_ok h → hostState_ok h') by (intros Hok; by destruct (advanceSpike_step _ _ _ _ _ _ _ Hok Hadv)).
  assert (Hrest : same_rest h h' ∧ (step = spikeForming → is_Some (aboveThresholdSince h'))) by by apply advanceSpike_rest in Hadv.
  destruct Hrest as [(_ & _ & _ & Hi & Hr & Ht) Hforming].
  assert (Hfrom2 : ∀ r s', host_kept key s2 r s' ∧ causes (probe_justified cfg t cl inst (daemon s) count now) s2 s' →
    host_kept key s1 r s' ∧ causes (probe_justified cfg t cl inst (daemon s) count now) s1 s').
  { intros r s' [Hk Hem]. split; [|exact Hem]. eapply host_kept_trans; [rewrite Hh2, Hh1; done|by rewrite Hh2, Hh1..|exact Hk]. }
  destruct step.
  - eapply wp_mono; [apply wp_handleRecovery|]. intros r s3 Hpost. apply Hfrom, Hfrom2. split; [by apply recovery_post_ok in Hpost|].
    eapply recovery_post_emits; [exact Hpost|done|fold key; by rewrite Hh2..].
  - apply wp_update. apply Hfrom, Hfrom2. split; [|by exists []].
    split; cbn [daemon]; rewrite host_state_update, Hh2.
    + intros Hok. split; [|done]. destruct (inSpike _); [by apply ok_calm|by apply ok_threshold, ok_calm].
    + intros Hin. cbn [inSpike set_recoveryBelowSince]. by rewrite Hin.
  - wp_step. apply wp_update. set (s3 := mkSys _ _ _).
    assert (Hh3 : host_state key (daemon s3) = set_recoveryBelowSince None h') by (unfold s3; cbn [daemon]; by rewrite host_state_update, Hh2).
    eapply wp_mono; [apply wp_forming_spike; fold key; rewrite Hh3; by apply Hforming|]. intros r s4 [Hk Hem].
    apply Hfrom, Hfrom2. split.
    + eapply host_kept_trans; [rewrite Hh3, Hh2; apply ok_calm|by rewrite Hh3, Hh2..|exact Hk].
    + apply (causes_weaken _ (probe_justified cfg t cl inst (daemon s) count now)) in Hem; [exact Hem|].
      intros before e He x Hx. left. destruct (He x Hx) as [-> [(since & Hs & Hage & Hcov) Hdeb]]. split; [done|].
      fold key in Hs, Hcov, Hdeb. rewrite Hh3 in Hs, Hcov. split_and!; [done|exact Hbase| |exact Hdeb]. exists h', since. split_and!; done.
Qed.

Lemma wp_tickActivitySpike cfg t cl inst database (s : sys W) :
  let key := (cl_Name cl, inst) in
  wp (tickActivitySpike cfg t cl inst database) (λ r s',
  host_kept key s r s' ∧
  ∃ new, trace s' = new ++ trace s ∧
    ∀ after e before x, new = after ++ e :: before → attempt e = Some x →
      as_Enabled t = true ∧
      ∃ count now, Ev (GetActiveConnectionCount (cl_Name cl) inst) (Some (inr count)) ∈ before ∧ read_at now before ∧
        ((x = (key, "auto:activity_spike"%string) ∧ spike_due cfg t key (daemon s) count now before) ∨
         (x = (key, "auto:activity_drop"%string) ∧ recovery_due t (host_state key (daemon s)) now count))) s.
Proof.
  intros key. unfold tickActivitySpike.
  set (ok := λ (before : list event) (e : event), ∀ x, attempt e = Some x → as_Enabled t = true ∧
    ∃ count now, Ev (GetActiveConnectionCount (cl_Name cl) inst) (Some (inr count)) ∈ before ∧ read_at now before ∧
      ((x = (key, "auto:activity_spike"%string) ∧ spike_due cfg t key (daemon s) count now before) ∨
       (x = (key, "auto:activity_drop"%string) ∧ recovery_due t (host_state key (daemon s)) now count))).
  eapply (wp_mono _ (λ r s', host_kept key s r s' ∧ causes ok s s')).
  2:{ intros r s' [Hk (new & Htr & Hn)]. split; [exact Hk|]. exists new. split; [done|]. intros after e before x ->.
      by apply (caused_split ok after). }
  assert (Hquiet : ∀ (s' : sys W) new r, daemon s' = daemon s → (r = None → panicked s') →
    trace s' = new ++ trace s → Forall plain new → host_kept key s r s' ∧ causes ok s s').
  { intros s' new r Hd Hp Htr Hn. split; [by apply host_kept_by with (host_state key (daemon s)); rewrite ?Hd|].
    eapply causes_emits; [|by exists new]. intros before e [He _] x. by rewrite He. }
  destruct (as_Enabled t) eqn:Hen; cbn [negb]; [|wp_step; by apply (Hquiet _ [])].
  wp_step. apply wp_do. intros r w _.
  destruct r as [[err|count]|]; [wp_step; eapply (Hquiet _ [_]); by repeat constructor| |].
  2: { eapply (Hquiet _ [_]); [done|intros _; by eexists _, _|done|by repeat constructor]. }
  wp_step. eapply wp_mono; [apply wp_and; [apply respects_wp, nowUTC_reads|apply wp_and; [apply safe_wp, nowUTC_safe|apply nowUTC_read]]|].
  intros r s1 [[Hd1 (n1 & Htr1 & Hn1)] [Hp1 Hread]]. cbn [daemon trace] in *.
  set (e0 := Ev _ _) in Htr1, Hread.
  assert (Hall : Forall plain (n1 ++ [e0])) by (by apply Forall_app; repeat constructor).
  destruct r as [now|]; [clear Hp1|apply (Hquiet _ (n1 ++ [e0])); [done|intros _; by apply Hp1|by rewrite Htr1, <-app_assoc|done]].
  destruct (Hread now eq_refl) as (n1' & Htr1' & Hat). rewrite Htr1 in Htr1'. apply app_inv_tail in Htr1' as <-.
  eapply wp_mono; [apply wp_fold_probe|]. fold key. intros r s2 [Hk (n2 & Htr2 & Hn2)].
  unfold host_kept in *. rewrite Hd1 in Hk, Hn2. split; [exact Hk|].
  exists (n2 ++ n1 ++ [e0]). split; [rewrite Htr2, Htr1, <-!app_assoc; done|]. clear Htr2.
  induction n2 as [|e n2 IH]; cbn [app caused].
  - destruct (causes_emits ok plain s s1) as (new & Hnew & Hc); [intros before e [He _] x; by rewrite He| |].
    { exists (n1 ++ [e0]). by rewrite Htr1, <- app_assoc. }
    rewrite Htr1 in Hnew. change (n1 ++ [e0] ++ trace s = new ++ trace s) in Hnew. rewrite app_assoc in Hnew.
    by apply app_inv_tail in Hnew as <-.
  - destruct Hn2 as [He Hn2]. split; [|by apply IH]. intros x Hx. split; [done|].
    exists count, now. split; [set_solver|]. split; [eapply read_at_incl; [|exact Hat]; set_solver|].
    destruct (He x Hx) as [[-> (H1 & H2 & H3 & H4)]|?]; [left|by right]. split; [done|]. split_and!; try done.
    intros last Hlast. destruct (H4 last Hlast) as (now' & Hr & Hf). exists now'. split; [|done].
    eapply read_at_incl; [|exact Hr]. set_solver.
Qed.

(** C6: no spurious spike snapshot. In any surroundings, a sweep of the spike trigger
    attempts a snapshot only when the trigger is enabled and, before the attempt, the probe of this
    host was answered and the clock read; and then either as a spike, with every condition of
    [spike_due], the debounce judged by a reading of the clock before the attempt, or as the
    recovery that is due. A sweep that does panic does so in a call, the host's
    invariant survives it, and the recovery threshold of a running incident is never
    moved. *)
Theorem tickActivitySpike_justified cfg t cl inst database s r s' :
  let key := (cl_Name cl, inst) in
  tickActivitySpike cfg t cl inst database s = (r, s') →
  host_kept key s r s' ∧
  ∃ new, trace s' = new ++ trace s ∧
    ∀ after e before x, new = after ++ e :: before → attempt e = Some x →
      as_Enabled t = true ∧
      ∃ count now, Ev (GetActiveConnectionCount (cl_Name cl) inst) (Some (inr count)) ∈ before ∧ read_at now before ∧
        ((x = (key, "auto:activity_spike"%string) ∧ spike_due cfg t key (daemon s) count now before) ∨
         (x = (key, "auto:activity_drop"%string) ∧ recovery_due t (host_state key (daemon s)) now count)).
Proof. intros key Hrun. wp_of_run Hrun. apply wp_tickActivitySpike. Qed.

End spike.

(** ** The role change *)

Section role.
Context {W : Type} {E : Env W}.

(** The role of the host flipped in a direction the configuration watches, and no
    automatic snapshot of it was taken within the debounce period. *)
Definition role_due (cfg : Config) (t : RoleChangeTrigger) (key : hostKey) (d : Daemon) (current : bool)
    (tr : list event) : Prop :=
  lastInRecovery (host_state key d) = Some (negb current) ∧
  (rc_Direction t = DirectionBoth ∨
   (rc_Direction t = DirectionMasterToReplica ∧ current = true) ∨
   (rc_Direction t = DirectionReplicaToMaster ∧ current = false)) ∧
  (∀ last, lastAuto d !! key = Some last → ∃ now', read_at now' tr ∧ MaxSnapshotFrequency cfg ≤ time_sub now' last).

Lemma role_due_incl cfg t key d current tr tr' : tr ⊆ tr' → role_due cfg t key d current tr → role_due cfg t key d current tr'.
Proof.
  intros Hi (H1 & H2 & H3). split_and!; [done..|]. intros last (now' & Hr & Hf)%H3. exists now'. split; [|done]. by eapply read_at_incl.
Qed.

Lemma direction_watched allowed current :
  directionAllowed allowed (directionOf (negb current) current) = true →
  allowed = DirectionBoth ∨ (allowed = DirectionMasterToReplica ∧ current = true) ∨
  (allowed = DirectionReplicaToMaster ∧ current = false).
Proof.
  unfold directionAllowed, directionOf. destruct (decide (allowed = DirectionBoth)) as [->|_]; [by left|].
  destruct current; cbn; rewrite bool_decide_eq_true; naive_solver.
Qed.

Definition role_post (cfg : Config) (t : RoleChangeTrigger) (cl : Cluster) (inst : string) (s : sys W)
    (r : option unit) (s' : sys W) : Prop :=
  let key := (cl_Name cl, inst) in
  (r = None → panicked s') ∧
  ∃ new, trace s' = new ++ trace s ∧
    ((host_state key (daemon s') = host_state key (daemon s) ∧ Forall (λ e, attempt e = None) new ∧
        ∀ current, rc_Enabled t = true → Ev (GetInstanceInfo (cl_Name cl) inst) (Some (inr current)) ∈ new →
          lastInRecovery (host_state key (daemon s)) = Some current) ∨
     ∃ current, Ev (GetInstanceInfo (cl_Name cl) inst) (Some (inr current)) ∈ new ∧ rc_Enabled t = true ∧
       host_state key (daemon s') = set_lastInRecovery (Some current) (host_state key (daemon s)) ∧
       ∀ e x, e ∈ new → attempt e = Some x →
         x = (key, "auto:role_change"%string) ∧ role_due cfg t key (daemon s) current new).

(** The answer to the role probe, read off an event. *)
Definition role_answer (e : event) : option (result bool) :=
  match e with
  | Ev c r => match c as c return option (answer c) → option (result bool) with
              | GetInstanceInfo _ _ => λ r, r
              | _ => λ _, None
              end r
  end.

Lemma wp_tickRoleChange cfg t cl inst database (s : sys W) :
  wp (tickRoleChange cfg t cl inst database) (role_post cfg t cl inst s) s.
Proof.
  unfold tickRoleChange. set (key := (cl_Name cl, inst)).
  destruct (rc_Enabled t) eqn:Hen; cbn [negb].
  2: { wp_step. split; [done|]. exists []. split; [done|]. left. split_and!; [done|by apply Forall_nil|intros; congruence]. }
  wp_step. apply wp_do. intros r w _. set (e0 := Ev (GetInstanceInfo (cl_Name cl) inst) r).
  destruct r as [[err|current]|].
  { wp_step. split; [done|]. exists [e0]. split; [done|]. left. split_and!; [done|by repeat constructor|].
    intros c _ Hc%list_elem_of_singleton%(f_equal role_answer). done. }
  2: { split; [intros _; by eexists _, _|]. exists [e0]. split; [done|]. left. split_and!; [done|by repeat constructor|].
       intros c _ Hc%list_elem_of_singleton%(f_equal role_answer). done. }
  assert (He0 : ∀ c, Ev (GetInstanceInfo (cl_Name cl) inst) (Some (inr c)) ∈ [e0] → c = current).
  { intros c Hc%list_elem_of_singleton%(f_equal role_answer). by injection Hc. }
  wp_step. unfold get_state. wp_step. cbn [daemon].
  destruct (lastInRecovery (host_state key (daemon s))) as [previous|] eqn:Hlast.
  2: { apply wp_update. split; [done|]. exists [e0]. split; [done|]. right. exists current. cbn [daemon].
       rewrite host_state_update. split_and!; [by left|done|done|]. intros e x ->%list_elem_of_singleton [=]. }
  destruct (Bool.eqb_spec previous current) as [->|Hne].
  { wp_step. split; [done|]. exists [e0]. split; [done|]. left. split_and!; [done|by repeat constructor|].
    intros c _ Hc%He0. by subst. }
  assert (Hprev : previous = negb current) by (destruct previous, current; done). subst previous. cbn [roleLabels].
  wp_step. apply wp_update. set (s1 := mkSys _ _ _).
  assert (Hh1 : host_state key (daemon s1) = set_lastInRecovery (Some current) (host_state key (daemon s))) by apply host_state_update.
  assert (Hpost : ∀ s' r new, host_state key (daemon s') = host_state key (daemon s1) → (r = None → panicked s') →
    trace s' = new ++ trace s1 →
    (∀ e x, e ∈ new → attempt e = Some x → x = (key, "auto:role_change"%string) ∧ role_due cfg t key (daemon s) current new) →
    role_post cfg t cl inst s r s').
  { intros s' r new Hh Hp Htr Hat. split; [done|]. exists (new ++ [e0]). split; [by rewrite Htr, <-app_assoc|].
    right. exists current. unfold key in *. rewrite <-Hh1, Hh. split_and!; [apply elem_of_app; right; by left|done|done|].
    intros e x [He| ->%list_elem_of_singleton]%elem_of_app Hx; [|done].
    destruct (Hat e x He Hx) as [-> Hd]. split; [done|]. eapply role_due_incl; [|exact Hd]. set_solver. }
  destruct (directionAllowed _ _) eqn:Hdir; cbn [negb];
    [|wp_step; apply (Hpost _ _ []); [done|done|done|by intros e x ?%elem_of_nil]].
  apply direction_watched in Hdir.
  wp_step. eapply wp_mono; [apply wp_debounced|]. intros r s2 ([Hd2 (n2 & Htr2 & Hn2)] & Hp2 & Hdeb).
  assert (Hplain : ∀ e x, e ∈ n2 → attempt e = Some x → False).
  { intros e x He. rewrite list.Forall_forall in Hn2. destruct (Hn2 e He) as [-> _]. done. }
  destruct r as [[]|].
  - wp_step. apply (Hpost _ _ n2); [by rewrite Hd2|done|done|]. intros e x He Hx. by destruct (Hplain e x).
  - wp_step. eapply wp_mono; [apply wp_takeSnapshot|]. intros r s3 (Hh3 & (n3 & Htr3 & Hat3) & Hp3)%snapshot_outcome_parts.
    assert (Hfin : ∀ r : option unit, (r = None → panicked s3) → role_post cfg t cl inst s r s3).
    { intros r' Hr'. apply (Hpost _ _ (n3 ++ n2)); [by rewrite Hh3, Hd2|done|by rewrite Htr3, Htr2, app_assoc|].
      intros e x [He|He]%elem_of_app Hx; [|by destruct (Hplain e x)]. rewrite list.Forall_forall in Hat3.
      split; [by apply (Hat3 e He)|]. split_and!; [exact Hlast|exact Hdir|]. intros last Hl.
      destruct (Hdeb eq_refl last) as (now' & new & Htr & Hr & Hf); [done|]. exists now'. split; [|done].
      rewrite Htr2 in Htr. apply app_inv_tail in Htr as <-. eapply read_at_incl; [|exact Hr]. set_solver. }
    destruct r as [r|]; [wp_step; by apply Hfin|apply Hfin; intros _; by apply Hp3].
  - apply (Hpost _ _ n2); [by rewrite Hd2|intros _; by apply Hp2|done|]. intros e x He Hx. by destruct (Hplain e x).
Qed.

(** The role change is one-shot. A sweep of the trigger records the role it was
    told, whatever it does next, so a transition is judged once; it attempts a snapshot
    only for a transition in a watched direction that is not debounced, and a sweep
    without a transition leaves the host as it was. *)
Theorem tickRoleChange_one_shot cfg t cl inst database s r s' :
  tickRoleChange cfg t cl inst database s = (r, s') → role_post cfg t cl inst s r s'.
Proof. intros Hrun. wp_of_run Hrun. apply wp_tickRoleChange. Qed.

End role.

(** ** A sweep over a cluster *)

Section cluster.
Context {W : Type} {E : Env W}.

(** Only this host's entries change, and no host is forgotten. *)
Definition confined (key : hostKey) (s s' : sys W) : Prop :=
  (∀ k, k ≠ key → hosts (daemon s') !! k = hosts (daemon s) !! k ∧ lastAuto (daemon s') !! k = lastAuto (daemon s) !! k) ∧
  (is_Some (hosts (daemon s) !! key) → is_Some (hosts (daemon s') !! key)).

#[local] Instance confined_preorder key : PreOrder (confined key).
Proof.
  split; [by intros s; split|]. intros s1 s2 s3 [H1 K1] [H2 K2]. split; [|by eauto].
  intros k Hk. destruct (H1 k Hk), (H2 k Hk). split; congruence.
Qed.

Lemma confined_do key c : respects (confined key) (do c).
Proof. by apply respects_do. Qed.

Lemma confined_update key f : respects (confined key) (update key f).
Proof.
  apply respects_modify. intros s. split; [intros k Hk|intros _]; cbn; [by rewrite lookup_insert_ne|].
  rewrite lookup_insert_eq. by eexists.
Qed.

Lemma confined_reads {A} ok key (m : M W A) : respects (reads ok) m → respects (confined key) m.
Proof. apply respects_weaken. intros s s' [Hd _]. unfold confined. by rewrite Hd. Qed.

Ltac confine := repeat (respects_step || apply confined_update).

Lemma confined_insertEvent key ev : respects (confined key) (insertEvent ev).
Proof. unfold insertEvent. confine. apply confined_do. Qed.

Lemma confined_nowUTC key : respects (confined key) nowUTC.
Proof. eapply confined_reads, nowUTC_reads. Qed.

Lemma confined_takeSnapshot cfg cl inst database trigType reason trigCtx bgPeak :
  respects (confined (cl_Name cl, inst)) (takeSnapshot cfg cl inst database trigType reason trigCtx bgPeak).
Proof.
  set (key := (cl_Name cl, inst)). unfold takeSnapshot, store_snapshot, finish_snapshot. fold key.
  confine; try apply confined_do; try apply confined_insertEvent; try (eapply confined_reads, CaptureLocks_reads, lock_call_plain).
  apply respects_modify. intros ?. split; [|done]. intros k Hk. cbn. by rewrite lookup_insert_ne.
Qed.

Lemma confined_handleRecovery cfg t cl inst database now count :
  respects (confined (cl_Name cl, inst)) (handleRecovery cfg t cl inst database now count).
Proof.
  unfold handleRecovery, get_state. confine; try apply confined_takeSnapshot; apply confined_do.
Qed.

Lemma confined_debounced key key' freq : respects (confined key) (debounced key' freq).
Proof. eapply confined_reads, debounced_reads. Qed.

Lemma confined_tickActivitySpike cfg t cl inst database :
  respects (confined (cl_Name cl, inst)) (tickActivitySpike cfg t cl inst database).
Proof.
  unfold tickActivitySpike, fold_probe, below_baseline, forming_spike, sample_locks, fire_spike, get_state.
  confine; try apply confined_do; try apply confined_nowUTC; try apply confined_handleRecovery;
    try apply confined_debounced; try apply confined_takeSnapshot.
Qed.

Lemma confined_tickRoleChange cfg t cl inst database :
  respects (confined (cl_Name cl, inst)) (tickRoleChange cfg t cl inst database).
Proof.
  unfold tickRoleChange, get_state.
  confine; try apply confined_do; try apply confined_debounced; try apply confined_takeSnapshot.
Qed.

Lemma confined_process_host cfg effective cl inst :
  respects (confined (cl_Name cl, inst)) (process_host cfg effective cl inst).
Proof. unfold process_host. confine; [apply confined_tickActivitySpike|apply confined_tickRoleChange]. Qed.

Lemma daemon_ok_states d : daemon_ok d ↔ ∀ key, hostState_ok (host_state key d).
Proof.
  split; [intros Hd key; by apply daemon_ok_host|]. intros Hd key h Hh.
  specialize (Hd key). unfold host_state in Hd. by rewrite Hh in Hd.
Qed.

(** What one sweep of a host, or of a cluster, keeps of the daemon. *)
Definition swept (P : hostKey → Prop) (s : sys W) (r : option unit) (s' : sys W) : Prop :=
  (daemon_ok (daemon s) → daemon_ok (daemon s') ∧ (r = None → panicked s')) ∧
  (∀ k, ¬ P k → hosts (daemon s') !! k = hosts (daemon s) !! k ∧ lastAuto (daemon s') !! k = lastAuto (daemon s) !! k) ∧
  (∀ k, is_Some (hosts (daemon s) !! k) → is_Some (hosts (daemon s') !! k)).

Lemma confined_swept key (s s' : sys W) r :
  confined key s s' → host_kept key s r s' → swept (λ k, k = key) s r s'.
Proof.
  intros [Hc Hk] [Hok _]. split_and!.
  - rewrite !daemon_ok_states. intros Hd. destruct (Hok (Hd key)) as [Hok' Hp]. split; [|done].
    intros k. destruct (decide (k = key)) as [->|Hne]; [done|].
    unfold host_state. destruct (Hc k Hne) as [-> _]. apply Hd.
  - done.
  - intros k. destruct (decide (k = key)) as [->|Hne]; [done|]. by destruct (Hc k Hne) as [-> _].
Qed.

Lemma swept_trans P s r1 s1 r s' : swept P s (Some r1) s1 → swept P s1 r s' → swept P s r s'.
Proof.
  intros (A1 & B1 & C1) (A2 & B2 & C2). split_and!; [|intros k Hk|by eauto].
  - intros Hd. destruct (A1 Hd) as [Hd1 _]. by apply A2.
  - destruct (B1 k Hk), (B2 k Hk). split; congruence.
Qed.

Lemma swept_weaken (P P' : hostKey → Prop) s r s' : (∀ k, P k → P' k) → swept P s r s' → swept P' s r s'.
Proof. intros HP (A & B & C). split_and!; [done| |done]. intros k Hk. apply B. by intros ?%HP. Qed.

Lemma wp_process_host cfg effective cl inst (s : sys W) :
  let key := (cl_Name cl, inst) in
  wp (process_host cfg effective cl inst)
    (λ r s', swept (λ k, k = key) s r s' ∧ is_Some (hosts (daemon s') !! key)) s.
Proof.
  intros key. unfold process_host. fold key. wp_step. apply wp_update. set (s1 := mkSys _ _ _).
  assert (H1 : swept (λ k, k = key) s (Some tt) s1 ∧ is_Some (hosts (daemon s1) !! key)).
  { pose proof (confined_update key id s) as Hc. split; [|by cbn; rewrite lookup_insert_eq; eexists].
    apply confined_swept; [exact Hc|]. eapply host_kept_by; [apply host_state_update|done..]. }
  destruct H1 as [H1 Hk1].
  wp_step. eapply wp_mono; [apply wp_and; [apply respects_wp, confined_tickActivitySpike|apply wp_tickActivitySpike]|].
  intros r s2 [Hc2 [Hk2 _]]. fold key in Hc2, Hk2.
  assert (Hs2 : swept (λ k, k = key) s r s2 ∧ is_Some (hosts (daemon s2) !! key)).
  { split; [|by apply Hc2]. eapply swept_trans; [exact H1|by apply confined_swept]. }
  destruct r as [u|]; [|exact Hs2]. destruct Hs2 as [Hs2 Hkn2].
  eapply wp_mono; [apply wp_and; [apply respects_wp, confined_tickRoleChange|apply wp_tickRoleChange]|].
  intros r s3 [Hc3 Hpost]. fold key in Hc3.
  split; [|by apply Hc3]. eapply swept_trans; [exact Hs2|]. apply confined_swept; [exact Hc3|].
  destruct Hpost as (Hp & new & _ & [(Hh & _)|(current & _ & _ & Hh & _)]); (eapply host_kept_by; [exact Hh|done..]).
Qed.

Lemma wp_each_host cfg effective cl l (s : sys W) :
  wp (each l (process_host cfg effective cl))
    (λ r s', swept (λ k, k.1 = cl_Name cl) s r s' ∧
       (r = Some tt → ∀ inst, inst ∈ l → is_Some (hosts (daemon s') !! (cl_Name cl, inst)))) s.
Proof.
  revert s. induction l as [|inst l IH]; intros s; cbn [each].
  { wp_step. split; [by split_and!|]. intros _ inst ?%elem_of_nil. done. }
  wp_step. eapply wp_mono; [apply wp_process_host|]. intros r s1 [Hs Hk].
  apply (swept_weaken _ (λ k, k.1 = cl_Name cl)) in Hs; [|by intros k ->].
  destruct r as [u|]; [|by split]. eapply wp_mono; [apply IH|]. intros r s2 [Hs2 Hk2].
  split; [by eapply swept_trans|]. intros Hr inst' [->|Hin]%elem_of_cons; [by apply Hs2|by apply Hk2].
Qed.

(** A sweep over a cluster, in any surroundings. The invariant of every host of the
    daemon survives it, also when it is cut short by a panic, and a panic is always one
    of the surroundings: the code itself dereferences no unset time. It touches the
    state and the debounce time of no other cluster's hosts, forgets no host, and a sweep
    that returns has visited every host of the cluster. *)
Theorem processCluster_sound cfg effective cl s r s' :
  processCluster cfg effective cl s = (r, s') →
  swept (λ k, k.1 = cl_Name cl) s r s' ∧
  (r = Some tt → ∀ inst, inst ∈ cl_Hosts cl → is_Some (hosts (daemon s') !! (cl_Name cl, inst))).
Proof. intros Hrun. wp_of_run Hrun. apply wp_each_host. Qed.

End cluster.

(** ** Witnesses *)

(** An activity of 10 connections that jumps to 40 after two minutes and falls back
    after twelve. *)
Definition sample_activity (now : time) : Z :=
  if now <? 2 * Minute then 10 else if now <? 12 * Minute then 40 else 8.

Definition sample_env : Env time := replay sample_config sample_activity.

(** A sweep of the spike trigger at a given time. *)
Definition sweep_at (s : sys time) (now : time) : sys time :=
  (@tickActivitySpike _ sample_env sample_config sample_spike sample_cluster "db1" "app"
     (mkSys (daemon s) now (trace s))).2.

(** Every 30 seconds, [n] times. *)
Definition sweeps (n : nat) : sys time :=
  foldl (λ s i, sweep_at s (Z.of_nat i * (30 * Second))) (replay_start 0) (seq 0 n).

Definition attempts (s : sys time) : list (string * string * string) := reverse (omap attempt (trace s)).

(** The spike fires once, two minutes after its onset; the recovery five minutes after
    the load fell under the threshold of the onset. *)
Example spike_fires : (attempts (sweeps 8), attempts (sweeps 9)) =
  ([], [("prod", "db1", "auto:activity_spike")])%string.
Proof. by vm_compute. Qed.

Example recovery_fires : (attempts (sweeps 34), attempts (sweeps 35)) =
  ([("prod", "db1", "auto:activity_spike")],
   [("prod", "db1", "auto:activity_spike"); ("prod", "db1", "auto:activity_drop")])%string.
Proof. by vm_compute. Qed.

Definition sample_take : option (option error) * sys time :=
  @takeSnapshot _ sample_env sample_config sample_cluster "db1" "app" TriggerDeferred "auto:deferred" [] None
    (replay_start 7).

Lemma takeSnapshot_outcome_witness :
  sample_take.1 = Some None ∧
  snapshot_outcome sample_cluster "db1" "app" TriggerDeferred "auto:deferred" [] (replay_start 7)
    sample_take.1 sample_take.2.
Proof.
  split; [vm_compute; reflexivity|]. unfold sample_take.
  eapply (@takeSnapshot_outcome _ sample_env). apply surjective_pairing.
Defined.

Definition sample_recovery (s : sys time) : option unit * sys time :=
  @handleRecovery _ sample_env sample_config sample_spike sample_cluster "db1" "app" (18 * Minute) 8 s.

Lemma handleRecovery_outcome_witness :
  recovery_post sample_spike sample_cluster "db1" (18 * Minute) 8 (sweeps 34)
    (sample_recovery (sweeps 34)).1 (sample_recovery (sweeps 34)).2.
Proof.
  unfold sample_recovery. generalize (sweeps 34). intros s.
  apply (@handleRecovery_outcome _ sample_env sample_config sample_spike sample_cluster "db1" "app" (18 * Minute) 8 s).
  apply surjective_pairing.
Defined.

(** The sweep of [spike_fires] that takes the snapshot. *)
Lemma tickActivitySpike_justified_witness :
  let s := mkSys (daemon (sweeps 8)) (4 * Minute) (trace (sweeps 8)) in
  let p := @tickActivitySpike _ sample_env sample_config sample_spike sample_cluster "db1" "app" s in
  host_kept ("prod"%string, "db1"%string) s p.1 p.2.
Proof.
  generalize (sweeps 8). intros s0 s p.
  apply (@tickActivitySpike_justified _ sample_env sample_config sample_spike sample_cluster "db1" "app" s p.1 p.2).
  apply surjective_pairing.
Defined.

Lemma tickRoleChange_one_shot_witness :
  let p := @tickRoleChange _ sample_env sample_config (mkRoleChangeTrigger true DirectionBoth) sample_cluster "db1" "app"
    (replay_start 3) in
  role_post sample_config (mkRoleChangeTrigger true DirectionBoth) sample_cluster "db1" (replay_start 3) p.1 p.2.
Proof. eapply (@tickRoleChange_one_shot _ sample_env). apply surjective_pairing. Defined.

Lemma processCluster_sound_witness :
  let p := @processCluster _ sample_env sample_config (Defaults sample_config) sample_cluster (replay_start 3) in
  p.1 = Some tt ∧ is_Some (hosts (daemon p.2) !! ("prod"%string, "db1"%string)).
Proof.
  intros p. assert (Hp : p.1 = Some tt) by (vm_compute; reflexivity). split; [exact Hp|].
  apply (@processCluster_sound _ sample_env sample_config (Defaults sample_config) sample_cluster (replay_start 3) p.1 p.2);
    [apply surjective_pairing|exact Hp|by left].
Defined.
