(* ===== verification/AutoDaemon.v ===== *)
(** * [internal/autosnapshot]: the daemon loop

    [daemon.go] (the loop, the sweep over the clusters, the deferred snapshots),
    [schedule.go] (when a scheduled capture is due), [hot.go] and [io.go] (the captures)
    and [retention.go]. The cron library is a parameter. *)

From S2P Require Import Prelude GoFloat StatIO HotObjects AutoConfig SpikeMachine AutoEffects AutoLocks AutoTriggers.
From stdpp Require Import options.

#[local] Set Warnings "-inexact-float".
#[local] Set Default Proof Using "Type*".
#[local] Open Scope daemon_scope.

(** ** Schedules *)

(** [robfig/cron]: a parsed schedule and its next activation. *)
Class Cron := {
  Schedule : Type;
  ParseStandard : string → option Schedule;
  Next : Schedule → time → time
}.

(** [cron.Schedule.Next] is documented to return a later activation time, or the zero
    time when it finds none. *)
Class LawfulCron (C : Cron) : Prop :=
  Next_later : ∀ s t, t < Next s t ∨ Next s t = zero_time.

Definition has_prefix (p s : string) : bool := String.prefix p s.

(** [AddDate(0, 0, -days)] of a UTC time: UTC days have 24 hours. *)
Definition days_before (t : time) (days : Z) : time := t - days * (24 * Hour).

Section schedule.
Context {C : Cron}.

Definition ParseCronSchedule (spec : string) : option Schedule :=
  let spec := if negb (has_prefix "TZ=" spec) && negb (has_prefix "CRON_TZ=" spec)
              then ("CRON_TZ=UTC " +:+ spec)%string else spec in
  ParseStandard spec.

(** A [nil] schedule is the daily fallback. *)
Definition cronDue (sched : option Schedule) (last now : time) : bool :=
  match sched with
  | None => 24 * Hour <=? time_sub now last
  | Some sched => negb (time_before now (Next sched last))
  end.

(** [dueForCapture] on the map of attempts, which it returns. *)
Definition due (attempts : gmap string time) (sched : option Schedule) (last : gmap string time)
    (key : string) (now : time) : bool * gmap string time :=
  let t := match last !! key with Some t => Some t | None => attempts !! key end in
  match t with
  | Some t => if negb (cronDue sched t now) then (false, attempts) else (true, <[key := now]> attempts)
  | None => (true, <[key := now]> attempts)
  end.

End schedule.

(** ** Retention *)

Definition retentionInterval : duration := 24 * Hour.
Definition insightsRetentionRetry : duration := Hour.

Section retention.
Context {W : Type} {E : Env W}.

(** Whether the retention guarded by a time ran within the interval; if not, the time is
    advanced. [time.Since] reads the clock only if the time is set. *)
Definition retention_guard (get : Daemon → time) (set : time → Daemon → Daemon) : M W bool :=
  last ⟵ gets get;
  recent ⟵ (if Prelude.is_zero last then ret false
            else (now ⟵ do Now; ret (time_sub now last <? retentionInterval)));
  if recent : bool then ret false
  else (now ⟵ do Now; modify (set now);; ret true).

(** The drop loop; [total] is what is left of the size. *)
Fixpoint drop_days (limit total : Z) (cutoff : time) (sizes : list PartitionSize) : M W unit :=
  match sizes with
  | [] => ret tt
  | s :: rest =>
      if total <=? limit then ret tt
      else if negb (time_before (Day s) cutoff) then ret tt
      else
        err ⟵ do (DropDayPartitions (Day s));
        match err with
        | Some _ => drop_days limit total cutoff rest
        | None => drop_days limit (total ⊟ TotalSize s) cutoff rest
        end
  end.

Definition total_size (sizes : list PartitionSize) : Z := foldl (λ t s, t ⊞ TotalSize s) 0 sizes.

Definition maybeRunRetention (cfg : Config) : M W unit :=
  if RetentionBytes cfg <=? 0 then ret tt
  else
    go ⟵ retention_guard lastRetry set_lastRetry;
    if negb go then ret tt
    else
      r ⟵ do ComputePartitionSizes;
      match r with
      | inl _ => ret tt
      | inr sizes =>
          let total := total_size sizes in
          if total <=? RetentionBytes cfg then ret tt
          else
            now ⟵ do Now;
            drop_days (RetentionBytes cfg) total (days_before now (RetentionMinDays cfg)) sizes
      end.

Definition maybeRunHotRetention (cfg : Config) : M W unit :=
  if HotRetentionDays cfg <=? 0 then ret tt
  else
    go ⟵ retention_guard lastHotRetention set_lastHotRetention;
    if negb go then ret tt
    else
      now ⟵ do Now;
      do (DropHotPartitionsBefore (days_before now (HotRetentionDays cfg)));; ret tt.

Definition maybeRunIORetention (cfg : Config) : M W unit :=
  if IORetentionDays cfg <=? 0 then ret tt
  else
    go ⟵ retention_guard lastIORetention set_lastIORetention;
    if negb go then ret tt
    else
      now ⟵ do Now;
      do (DropIOPartitionsBefore (days_before now (IORetentionDays cfg)));; ret tt.

Definition maybeRunInsightsRetention : M W unit :=
  go ⟵ retention_guard lastInsightsRetention set_lastInsightsRetention;
  if negb go then ret tt
  else
    err ⟵ do TruncateInsightsScans;
    match err with
    | Some _ =>
        now ⟵ do Now;
        modify (set_lastInsightsRetention (time_add now (insightsRetentionRetry ⊟ retentionInterval)))
    | None => ret tt
    end.

End retention.

(** ** Scheduled captures *)

(** The budget of a cluster's sweep. *)
Definition clusterTickBudgetPerHost : duration := 30 * Second.

Definition clusterTickTimeout (cfg : Config) (hosts : Z) : duration :=
  let hosts := if hosts <? 1 then 1 else hosts in
  let per := if cfg_CaptureLocks cfg
             then clusterTickBudgetPerHost ⊞ (LockProbeCount cfg ⊠ LockProbeInterval cfg)
             else clusterTickBudgetPerHost in
  hosts ⊠ per.

(** The inputs and the missing hosts gathered so far, in the order of the hosts. *)
Abbreviation gathered := (list BuildInput * list string)%type.

Section captures.
Context {W : Type} {E : Env W} {C : Cron} {R : MapRange}.

(** One target of a sweep: the attempt is recorded when it is due. *)
Definition dueForCapture (get : Daemon → gmap string time) (set : gmap string time → Daemon → Daemon)
    (sched : option Schedule) (last : gmap string time) (key : string) (now : time) : M W bool :=
  attempts ⟵ gets get;
  let '(is_due, attempts') := due attempts sched last key now in
  modify (set attempts');;
  ret is_due.

(** *** [io.go] *)

(** [*snap] of a sample without error is a dereference: a [nil] snapshot panics. *)
Definition takeIOSnapshot (clusterName host : string) : M W unit :=
  r ⟵ do (GetIOSample clusterName host);
  match r with
  | inl _ => ret tt
  | inr None => panic
  | inr (Some snap) => do (InsertIOSnapshot clusterName host snap);; ret tt
  end.

Definition takeIOSnapshotSafe (cl : Cluster) (host : string) : M W unit :=
  recovering (do (WithTimeout clusterTickBudgetPerHost);; takeIOSnapshot (cl_Name cl) host).

(** The part of a sweep that [processIOSnapshots] and [processHotSnapshots] share: the
    last capture times, the clusters and the time. *)
Definition capture_sweep (read_last : M W (result (gmap string time)))
    (sweep : gmap string time → time → Cluster → M W unit) : M W unit :=
  r ⟵ read_last;
  match r with
  | inl _ => ret tt
  | inr last =>
      r ⟵ do GetClusters;
      match r with
      | inl _ => ret tt
      | inr cls => now ⟵ do Now; each cls (sweep last now)
      end
  end.

Definition processIOSnapshots (cfg : Config) : M W unit :=
  if negb (IOEnabled cfg) then ret tt
  else
    let sched := ParseCronSchedule (IOSchedule cfg) in
    capture_sweep (do LastIOSnapshotAt) (λ last now cl,
      each (cl_Hosts cl) (λ host,
        is_due ⟵ dueForCapture lastIOAttempt set_lastIOAttempt sched last (cl_Name cl +:+ "/" +:+ host) now;
        if negb is_due then ret tt else takeIOSnapshotSafe cl host)).

(** *** [hot.go] *)

Definition gather_host (clusterName database : string) (capturedAt : time) (host : string) : M W (option BuildInput) :=
  r ⟵ do (GetHotSampleTables clusterName host database);
  match r with
  | inl _ => ret None
  | inr (tables, reset, inRecovery) =>
      r ⟵ do (GetHotSampleIndexes clusterName host database);
      match r with
      | inl _ => ret None
      | inr (indexes, _, _) =>
          r ⟵ do (GetHotAnchors clusterName host database);
          match r with
          | inl _ => ret None
          | inr anchors =>
              ret (Some (mkBuildInput (mkHostSample host capturedAt reset inRecovery (tables ++ indexes)) anchors None))
          end
      end
  end.

Fixpoint gather (clusterName database : string) (capturedAt : time) (hosts : list string) (acc : gathered) : M W gathered :=
  match hosts with
  | [] => ret acc
  | host :: hosts =>
      i ⟵ gather_host clusterName database capturedAt host;
      gather clusterName database capturedAt hosts
        (match i with Some i => (acc.1 ++ [i], acc.2) | None => (acc.1, acc.2 ++ [host]) end)
  end.

(** [attachPrevWindows]: [None] skips the capture. *)
Definition attachPrevWindows (cfg : Config) (clusterName database : string) (capturedAt : time)
    (inputs : list BuildInput) : M W (option (list BuildInput)) :=
  r ⟵ do (GetLatestHotWindows clusterName database ((λ i, hs_Instance (Sample i)) <$> inputs)
            (days_before capturedAt (HotRetentionDays cfg)));
  match r with
  | inl _ => ret None
  | inr prev =>
      ret (Some ((λ i, match prev !! hs_Instance (Sample i) with
                       | Some w => mkBuildInput (Sample i) (Anchors i) (Some w)
                       | None => i
                       end) <$> inputs))
  end.

Definition anchors_of (inputs : list BuildInput) (capturedAt : time) : gmap string (list AnchorRow) :=
  foldl (λ m i, <[hs_Instance (Sample i) := AdvanceQuiet i capturedAt]> m) ∅ inputs.

Definition takeHotSnapshot (cfg : Config) (cl : Cluster) (database : string) : M W unit :=
  let clusterName := cl_Name cl in
  capturedAt ⟵ do Now;
  g ⟵ gather clusterName database capturedAt (cl_Hosts cl) ([], []);
  let '(inputs, missing) := g in
  if Nat.eqb (length inputs) 0 then ret tt
  else
    r ⟵ attachPrevWindows cfg clusterName database capturedAt inputs;
    match r with
    | None => ret tt
    | Some inputs =>
        let snap := BuildSnapshot clusterName database capturedAt inputs missing (HotTopN cfg) in
        do (InsertHotSnapshotWithAnchors snap (anchors_of inputs capturedAt));; ret tt
    end.

Definition takeHotSnapshotSafe (cfg : Config) (cl : Cluster) (database : string) : M W unit :=
  recovering (
    do (WithTimeout (Z.max (Z.of_nat (length (cl_Hosts cl))) 1 ⊠ clusterTickBudgetPerHost));;
    takeHotSnapshot cfg cl database).

Definition processHotSnapshots (cfg : Config) : M W unit :=
  if negb (HotEnabled cfg) then ret tt
  else
    let sched := ParseCronSchedule (HotSchedule cfg) in
    capture_sweep (do LastHotSnapshotAt) (λ last now cl,
      each (cl_Databases cl) (λ db,
        is_due ⟵ dueForCapture lastHotAttempt set_lastHotAttempt sched last (cl_Name cl +:+ "/" +:+ db) now;
        if negb is_due then ret tt else takeHotSnapshotSafe cfg cl db)).

(** ** The loop *)

Definition defaultPollInterval : duration := 30 * Second.

Definition effectivePollInterval (cfg : duration) : duration :=
  if cfg <? 5 * Second then 5 * Second else cfg.

Definition processClusterSafe (cfg : Config) (effective : TriggerDefaults) (cl : Cluster) : M W unit :=
  recovering (
    do (WithTimeout (clusterTickTimeout cfg (Z.of_nat (length (cl_Hosts cl)))));;
    processCluster cfg effective cl).

Definition tick (cfg : Config) : M W unit :=
  r ⟵ do ListClusterOverrides;
  let overrides := match r with inr o => o | inl _ => ∅ end in
  r ⟵ do GetClusters;
  match r with
  | inl _ => ret tt
  | inr cls => each cls (λ cl,
      processClusterSafe cfg (EffectiveFor cfg (default [] (overrides !! cl_Name cl))) cl)
  end.

Definition takePendingSafe (cfg : Config) (cl : Cluster) (p : PendingSnapshot) : M W unit :=
  recovering (
    do (WithTimeout clusterTickBudgetPerHost);;
    takeSnapshot cfg cl (ps_Instance p) (ps_Database p) TriggerDeferred (ps_Reason p)
      [("trigger"%string, AString "deferred"); ("host"%string, AString (ps_Instance p))] None;;
    ret tt).

Definition clusters_by_name (cls : list Cluster) : gmap string Cluster :=
  foldl (λ m cl, <[cl_Name cl := cl]> m) ∅ cls.

Definition processPending (cfg : Config) : M W unit :=
  r ⟵ do GetClusters;
  match r with
  | inl _ => ret tt
  | inr cls =>
      r ⟵ do ClaimDuePendingSnapshots;
      match r with
      | inl _ => ret tt
      | inr pending => each pending (λ p,
          match clusters_by_name cls !! ps_ClusterName p with
          | None => ret tt
          | Some cl => takePendingSafe cfg cl p
          end)
      end
  end.

(** What one firing of the timer does; the result is the next interval. *)
Definition loop_body (interval : duration) : M W duration :=
  r ⟵ do GetAutosnapshotConfig;
  match r with
  | inl _ => ret interval
  | inr cfg =>
      (if cfg_Enabled cfg then (tick cfg;; processPending cfg) else ret tt);;
      processHotSnapshots cfg;;
      processIOSnapshots cfg;;
      maybeRunRetention cfg;;
      maybeRunHotRetention cfg;;
      maybeRunIORetention cfg;;
      maybeRunInsightsRetention;;
      ret (effectivePollInterval (PollInterval cfg))
  end.

(** [loop], for at most [n] firings of the timer; [None] when they are used up. A wait
    that ends because the context is done is a [Sleep] answered [false]. *)
Fixpoint loop (n : nat) (interval : duration) : M W (option unit) :=
  match n with
  | O => ret None
  | S n =>
      fired ⟵ do (Sleep interval);
      if negb fired then ret (Some tt) else (interval ⟵ loop_body interval; loop n interval)
  end.

Definition seed_cluster (perCluster : gmap string time) (out : gmap hostKey time) (cl : Cluster) : gmap hostKey time :=
  match perCluster !! cl_Name cl with
  | None => out
  | Some t => foldl (λ out h, <[(cl_Name cl, h) := t]> out) out (cl_Hosts cl)
  end.

Definition seedDebounce (perCluster : gmap string time) : M W (gmap hostKey time) :=
  r ⟵ do GetClusters;
  match r with
  | inl _ => ret ∅
  | inr cls => ret (foldl (seed_cluster perCluster) ∅ cls)
  end.

(** *** [leader.go] *)

Definition leaderRetryInterval : duration := 30 * Second.
Definition heartbeatInterval : duration := 10 * Second.

(** [Acquire], for at most [n] attempts: [Some true] once the lock is held, [Some false]
    when the context ends first, [None] when the attempts are used up. *)
Fixpoint Acquire (n : nat) : M W (option bool) :=
  match n with
  | O => ret None
  | S n =>
      r ⟵ do TryAcquireLeaderLock;
      match r with
      | inr true => ret (Some true)
      | _ =>
          awake ⟵ do (Sleep leaderRetryInterval);
          if negb awake then ret (Some false) else Acquire n
      end
  end.

(** [RunHeartbeat], for at most [n] ticks. *)
Fixpoint heartbeats (instanceID : string) (n : nat) : M W unit :=
  match n with
  | O => ret tt
  | S n =>
      tick ⟵ do (Sleep heartbeatInterval);
      if negb tick then ret tt else (do (UpdateLeaderHeartbeat instanceID);; heartbeats instanceID n)
  end.

Definition RunHeartbeat (instanceID : string) (n : nat) : M W unit :=
  do (UpdateLeaderHeartbeat instanceID);; heartbeats instanceID n.

(** [defer leader.Release()]: the connection is closed on the way out, by a panic too. *)
Definition releasing {A} (m : M W A) : M W A :=
  λ s, match m s with (r, s1) => match do CloseLeaderConn s1 with (_, s2) => (r, s2) end end.

(** [Run] past the election: the debounce times are seeded, then the loop runs. The
    heartbeat is a goroutine of its own that shares no state. *)
Definition run_elected (n : nat) : M W (option unit) :=
  r ⟵ do LastAutoSnapshotAt;
  seed ⟵ seedDebounce (match r with inr last => last | inl _ => ∅ end);
  modify (set_lastAuto seed);;
  loop n defaultPollInterval.

(** [Run], with a bound on the attempts and on the firings: [None] stands for a bound
    that is used up, [Some false] for the error of a context that ended while waiting
    for the lock. *)
Definition Run (attempts n : nat) : M W (option bool) :=
  elect ⟵ gets leaderElection;
  if elect : bool then
    got ⟵ Acquire attempts;
    match got with
    | Some true => releasing (r ⟵ run_elected n; ret ((λ _, true) <$> r))
    | r => ret r
    end
  else (r ⟵ run_elected n; ret ((λ _, true) <$> r)).

End captures.

(** ** The invariant of the running daemon *)

(** A preorder that calls, assignments outside the hosts, sweeps of a cluster and
    snapshots respect is respected by the whole run. *)
Section run.
Context {W : Type} {E : Env W} {C : Cron} {R : MapRange}.
Context (Q : relation (sys W)) {HQ : PreOrder Q}.
Hypothesis Hdo : ∀ c, respects Q (do c).
Hypothesis Hmodify : ∀ f, (∀ d, hosts (f d) = hosts d) → respects Q (modify f).
Hypothesis Hcluster : ∀ cfg effective cl, respects Q (processCluster cfg effective cl).
Hypothesis Hsnapshot : ∀ cfg cl inst database trigType reason trigCtx bgPeak,
  respects Q (takeSnapshot cfg cl inst database trigType reason trigCtx bgPeak).

Ltac keep := repeat (respects_step || apply Hdo || (apply Hmodify; done)).

Lemma guard_respects get set : (∀ t d, hosts (set t d) = hosts d) → respects Q (retention_guard get set).
Proof. intros Hs. unfold retention_guard. keep. Qed.

Lemma drop_days_respects limit total cutoff sizes : respects Q (drop_days limit total cutoff sizes).
Proof. revert total. induction sizes as [|s sizes IH]; intros total; cbn [drop_days]; keep; apply IH. Qed.

Lemma retention_respects cfg :
  respects Q (maybeRunRetention cfg) ∧ respects Q (maybeRunHotRetention cfg) ∧ respects Q (maybeRunIORetention cfg).
Proof.
  unfold maybeRunRetention, maybeRunHotRetention, maybeRunIORetention.
  split_and!; keep; try (by apply guard_respects); apply drop_days_respects.
Qed.

Lemma insights_respects : respects Q maybeRunInsightsRetention.
Proof. unfold maybeRunInsightsRetention. keep. by apply guard_respects. Qed.

Lemma gather_respects clusterName database capturedAt hs acc :
  respects Q (gather clusterName database capturedAt hs acc).
Proof.
  revert acc. induction hs as [|h hs IH]; intros acc; cbn [gather]; [keep|].
  apply respects_bind; [apply _| |intros a; apply IH]. unfold gather_host. keep.
Qed.

Lemma captures_respects cfg : respects Q (processHotSnapshots cfg) ∧ respects Q (processIOSnapshots cfg).
Proof.
  unfold processHotSnapshots, processIOSnapshots, capture_sweep, dueForCapture, takeHotSnapshotSafe, takeIOSnapshotSafe,
    takeHotSnapshot, takeIOSnapshot, attachPrevWindows.
  split; keep; try apply (Hdo LastHotSnapshotAt); try apply (Hdo LastIOSnapshotAt); apply gather_respects.
Qed.

Lemma loop_body_respects interval : respects Q (loop_body interval).
Proof.
  unfold loop_body, tick, processPending, processClusterSafe, takePendingSafe.
  keep; try apply Hcluster; try apply Hsnapshot; try apply captures_respects; try apply retention_respects.
  apply insights_respects.
Qed.

Lemma loop_respects n interval : respects Q (loop n interval).
Proof. revert interval. induction n as [|n IH]; intros interval; cbn [loop]; keep; [apply loop_body_respects|apply IH]. Qed.

Lemma run_elected_respects n : respects Q (run_elected n).
Proof. unfold run_elected, seedDebounce. keep. apply loop_respects. Qed.

Lemma releasing_respects {A} (m : M W A) : respects Q m → respects Q (releasing m).
Proof.
  intros Hm s. specialize (Hm s). unfold releasing. destruct (m s) as [r s1]. cbn in Hm.
  pose proof (Hdo CloseLeaderConn s1) as Hc. destruct (do CloseLeaderConn s1) as [r2 s2]. cbn in *. by etrans.
Qed.

Lemma Acquire_respects n : respects Q (Acquire n).
Proof. induction n as [|n IH]; cbn [Acquire]; keep; apply IH. Qed.

Lemma Run_respects attempts n : respects Q (Run attempts n).
Proof.
  unfold Run. keep; try apply Acquire_respects; try apply run_elected_respects. apply releasing_respects. keep.
  apply run_elected_respects.
Qed.

End run.

Section invariant.
Context {W : Type} {E : Env W} {C : Cron} {R : MapRange}.

Definition keeps_ok (s s' : sys W) : Prop := daemon_ok (daemon s) → daemon_ok (daemon s').

#[local] Instance keeps_ok_preorder : PreOrder keeps_ok.
Proof. split; [by intros s ?|]. intros s1 s2 s3 H1 H2 Hs. by apply H2, H1. Qed.

Lemma keeps_Run attempts n : respects keeps_ok (Run attempts n).
Proof.
  apply Run_respects; [apply _| | | |].
  - intros c. apply respects_do. by intros s r w Hs.
  - intros f Hf. apply respects_modify. intros s Hs key h. cbn. rewrite Hf. apply Hs.
  - intros cfg effective cl s. destruct (wp_each_host cfg effective cl (cl_Hosts cl) s) as [[H _] _]. intros Hs. by apply H.
  - intros cfg cl inst database trigType reason trigCtx bgPeak s.
    destruct (wp_takeSnapshot cfg cl inst database trigType reason trigCtx bgPeak s) as [Hh _].
    intros Hs key h. rewrite Hh. apply Hs.
Qed.

(** C7: every state the daemon reaches is sound. From a fresh daemon, after any number
    of firings of the loop, in any surroundings and whether or not the run is cut short
    by a panic, every host's counters summarise its candidate and a recovery is awaited
    only during an incident. *)
Theorem Run_reaches_sound elect attempts n w r s' :
  Run attempts n (mkSys (NewDaemon elect) w []) = (r, s') → daemon_ok (daemon s').
Proof.
  intros Hrun. pose proof (keeps_Run attempts n (mkSys (NewDaemon elect) w [])) as Hk. rewrite Hrun in Hk.
  apply Hk. intros key h. cbn. by rewrite lookup_empty.
Qed.

End invariant.

(** ** The sweeps of the loop *)

Section sweeps.
Context {W : Type} {E : Env W}.

(** A loop whose body recovers from panics runs to its end. *)
Lemma each_recovering {A} (l : list A) (f : A → M W unit) s :
  each l (λ x, recovering (f x)) s = (Some tt, foldl (λ s x, (recovering (f x) s).2) s l).
Proof.
  revert s. induction l as [|x l IH]; intros s; [done|]. cbn [each foldl].
  unfold bind at 1. rewrite (surjective_pairing (recovering (f x) s)) at 1.
  assert (H : (recovering (f x) s).1 = Some tt) by (unfold recovering; by destruct (f x s)).
  rewrite H. apply IH.
Qed.

(** The effective triggers of a cluster under the overrides a call answered. *)
Definition effective_of (cfg : Config) (overrides : result (gmap string (list (string * json)))) (cl : Cluster) : TriggerDefaults :=
  EffectiveFor cfg (default [] ((match overrides with inr o => o | inl _ => ∅ end) !! cl_Name cl)).

(** One bad cluster does not stop the sweep. Once the overrides and the clusters
    have been answered, with whatever result, [tick] returns; every cluster is processed
    in order, under its own effective triggers and from the state the one before left,
    even if that one panicked. Without a cluster list nothing is swept. *)
Theorem tick_isolates cfg s overrides w1 clusters w2 :
  env ListClusterOverrides (world s) = (Some overrides, w1) → env GetClusters w1 = (Some clusters, w2) →
  let s0 := mkSys (daemon s) w2 (Ev GetClusters (Some clusters) :: Ev ListClusterOverrides (Some overrides) :: trace s) in
  tick cfg s = (Some tt,
    match clusters with
    | inl _ => s0
    | inr cls => foldl (λ s cl, (processClusterSafe cfg (effective_of cfg overrides cl) cl s).2) s0 cls
    end).
Proof.
  intros Hov Hcl s0. unfold tick, bind, do. rewrite Hov. cbn [world daemon trace]. rewrite Hcl. cbn [world daemon trace].
  destruct clusters as [err|cls]; [done|]. unfold effective_of, processClusterSafe. apply each_recovering.
Qed.

(** *** Deferred snapshots *)

Definition claims (e : event) : option (list PendingSnapshot) :=
  match e with
  | Ev c r => match c as c return option (answer c) → option (list PendingSnapshot) with
              | ClaimDuePendingSnapshots => λ r, match r with Some (inr l) => Some l | _ => None end
              | _ => λ _, None
              end r
  end.

Definition is_claim (e : event) : bool := match e with Ev ClaimDuePendingSnapshots _ => true | _ => false end.

(** A claimed job was attempted, unless the set-up of its deadline panicked. *)
Definition attempted (cl : Cluster) (p : PendingSnapshot) (new : list event) : Prop :=
  (∃ r, Ev (GetQueriesReport (cl_Name cl) (ps_Instance p) (ps_Database p)) r ∈ new) ∨
  Ev (WithTimeout clusterTickBudgetPerHost) None ∈ new.

Lemma wp_takePendingSafe cfg cl p (s : sys W) :
  wp (takePendingSafe cfg cl p) (λ r s', r = Some tt ∧ hosts (daemon s') = hosts (daemon s) ∧
    ∃ new, trace s' = new ++ trace s ∧ attempted cl p new ∧ Forall (λ e, is_claim e = false) new) s.
Proof.
  unfold takePendingSafe. wp_step. wp_step. apply wp_do. intros r w _.
  destruct r as [u|].
  2: { split; [done|]. split; [done|]. exists [Ev (WithTimeout clusterTickBudgetPerHost) None].
       split_and!; [done|right; by left|by repeat constructor]. }
  wp_step. set (s1 := mkSys _ _ _).
  eapply wp_mono; [apply wp_and; [apply wp_takeSnapshot|apply (takeSnapshot_calls (λ e, is_claim e = false)); by intros []]|].
  intros r s2 [(Hh & _) (new & Htr & Hn & r' & Hin)].
  assert (Hpost : hosts (daemon s2) = hosts (daemon s) ∧ ∃ new, trace s2 = new ++ trace s ∧ attempted cl p new ∧
    Forall (λ e, is_claim e = false) new).
  { split; [done|]. exists (new ++ [Ev (WithTimeout clusterTickBudgetPerHost) (Some u)]).
    split; [by rewrite Htr, <-app_assoc|]. split; [left; exists r'; apply elem_of_app; by left|].
    apply Forall_app. by repeat constructor. }
  destruct r as [r|]; [wp_step|]; by split.
Qed.

(** What a run over the claimed jobs has added so far. *)
Lemma wp_each_pending cfg (byName : gmap string Cluster) l (s : sys W) :
  wp (each l (λ p, match byName !! ps_ClusterName p with None => ret tt | Some cl => takePendingSafe cfg cl p end))
    (λ r s', r = Some tt ∧ hosts (daemon s') = hosts (daemon s) ∧
      ∃ new, trace s' = new ++ trace s ∧ Forall (λ e, is_claim e = false) new ∧
        ∀ p cl, p ∈ l → byName !! ps_ClusterName p = Some cl → attempted cl p new) s.
Proof.
  revert s. induction l as [|p l IH]; intros s; cbn [each].
  { wp_step. split_and!; [done|done|]. exists []. split_and!; [done|constructor|]. by intros p cl ?%elem_of_nil. }
  wp_step. eapply wp_mono with (P := λ r s', r = Some tt ∧ hosts (daemon s') = hosts (daemon s) ∧
    ∃ new, trace s' = new ++ trace s ∧ Forall (λ e, is_claim e = false) new ∧
      ∀ cl, byName !! ps_ClusterName p = Some cl → attempted cl p new).
  { destruct (byName !! ps_ClusterName p) as [cl|].
    - eapply wp_mono; [apply wp_takePendingSafe|]. intros r s' (Hr & Hh & new & Htr & Ha & Hn).
      split_and!; [done|done|]. exists new. split_and!; [done|done|]. by intros cl' [= <-].
    - wp_step. split_and!; [done|done|]. exists []. by split_and!. }
  intros r s1 (-> & Hh & n1 & Htr1 & Hn1 & Ha1). eapply wp_mono; [apply IH|].
  intros r s2 (-> & Hh2 & n2 & Htr2 & Hn2 & Ha2). split_and!; [done|congruence|].
  exists (n2 ++ n1). split; [by rewrite Htr2, Htr1, app_assoc|]. split; [by apply Forall_app|].
  assert (Hmono : ∀ p cl n, attempted cl p n → (n = n1 ∨ n = n2) → attempted cl p (n2 ++ n1)).
  { intros q cl n [[r Hin]|Hin] Hn; [left; exists r|right]; apply elem_of_app; destruct Hn; subst; tauto. }
  intros q cl [->|Hq]%elem_of_cons Hcl; [eapply Hmono; [by apply Ha1|by left]|eapply Hmono; [by eapply Ha2|by right]].
Qed.

(** Deferred snapshots are claimed, a destructive step of the store, only once the
    clusters are known: a failed cluster list leaves the queue alone. Every claimed job of
    a known cluster is then attempted, whatever happened to the jobs before it; the
    states of the hosts are not touched. *)
Theorem processPending_claims_safely cfg s r s' :
  processPending cfg s = (r, s') →
  hosts (daemon s') = hosts (daemon s) ∧
  ∃ new, trace s' = new ++ trace s ∧
    (Exists (λ e, is_claim e = true) new → ∃ cls, Ev GetClusters (Some (inr cls)) ∈ new ∧
       ∀ pending, Ev ClaimDuePendingSnapshots (Some (inr pending)) ∈ new → r = Some tt ∧
         ∀ p cl, p ∈ pending → clusters_by_name cls !! ps_ClusterName p = Some cl → attempted cl p new).
Proof.
  intros Hrun. wp_of_run Hrun. unfold processPending. wp_step. apply wp_do. intros r w _.
  assert (Hno : ∀ new, Forall (λ e, is_claim e = false) new → ¬ Exists (λ e, is_claim e = true) new).
  { intros new Hn He. rewrite Exists_exists in He. destruct He as (e & Hin & He).
    rewrite list.Forall_forall in Hn. rewrite (Hn e Hin) in He. done. }
  destruct r as [[err|cls]|].
  - wp_step. split; [done|]. exists [Ev GetClusters (Some (inl err))]. split; [done|].
    intros He. by apply Hno in He; [|repeat constructor].
  - wp_step. apply wp_do. intros r w' _. cbn [daemon trace world].
    set (e1 := Ev GetClusters _). set (e2 := Ev ClaimDuePendingSnapshots r).
    assert (Hclaim : ∀ pending, r ≠ Some (inr pending) → Ev ClaimDuePendingSnapshots (Some (inr pending)) ∉ [e2; e1]).
    { intros pending Hr Hin. apply elem_of_cons in Hin as [Hin|Hin%list_elem_of_singleton]; apply (f_equal claims) in Hin; [|done].
      cbn in Hin. destruct r as [[]|]; simplify_eq; done. }
    destruct r as [[err|pending]|].
    + wp_step. split; [done|]. exists [e2; e1]. split; [done|]. intros _. exists cls. split; [right; by left|].
      intros pending Hin. by apply Hclaim in Hin.
    + eapply wp_mono; [apply wp_each_pending|]. intros r s2 (-> & Hh & new & Htr & Hn & Ha). split; [done|].
      exists (new ++ [e2; e1]). split; [by rewrite Htr, <-app_assoc|]. intros _. exists cls.
      split; [apply elem_of_app; right; right; by left|]. intros pending' [Hin|Hin]%elem_of_app.
      { rewrite list.Forall_forall in Hn. by specialize (Hn _ Hin). }
      apply elem_of_cons in Hin as [Hin|Hin%list_elem_of_singleton]; apply (f_equal claims) in Hin; [|done].
      cbn in Hin. simplify_eq. split; [done|]. intros p cl Hp Hcl.
      destruct (Ha p cl Hp Hcl) as [[r Hr]|Hr]; [left; exists r|right]; apply elem_of_app; by left.
    + split; [done|]. exists [e2; e1]. split; [done|]. intros _. exists cls. split; [right; by left|].
      intros pending Hin. by apply Hclaim in Hin.
  - split; [done|]. exists [Ev GetClusters None]. split; [done|]. intros He. by apply Hno in He; [|repeat constructor].
Qed.

End sweeps.

(** ** Retention *)

Section retention_props.
Context {W : Type} {E : Env W}.

(** The days whose partitions were dropped, and whether the store did it, oldest call
    first. *)
Definition drop_event (e : event) : option (time * bool) :=
  match e with
  | Ev c r => match c as c return option (answer c) → option (time * bool) with
              | DropDayPartitions day => λ r, Some (day, match r with Some None => true | _ => false end)
              | _ => λ _, None
              end r
  end.

Definition drops (new : list event) : list (time * bool) := omap drop_event (reverse new).

Lemma drops_snoc new e : drops (new ++ [e]) = option_list (drop_event e) ++ drops new.
Proof. unfold drops. rewrite reverse_app, omap_app. cbn. by destruct (drop_event e). Qed.

(** What is left of a total after some attempts. *)
Definition remaining (total : Z) (done : list (PartitionSize * bool)) : Z :=
  foldl (λ t x, if x.2 : bool then t ⊟ TotalSize x.1 else t) total done.

(** The attempts are on a prefix of the sizes; each was on an old day and at a time when
    the total was over the limit; they end when it is not, or at a young day. *)
Definition dropped (limit total : Z) (cutoff : time) (sizes : list PartitionSize) (finished : bool)
    (done : list (PartitionSize * bool)) : Prop :=
  fst <$> done = take (length done) sizes ∧
  (∀ j x, done !! j = Some x → Day x.1 < cutoff ∧ limit < remaining total (take j done)) ∧
  (finished = true → remaining total done ≤ limit ∨ ∀ x, sizes !! length done = Some x → cutoff ≤ Day x).

Lemma dropped_nil limit total cutoff sizes finished :
  (finished = true → total ≤ limit ∨ ∀ x, sizes !! 0%nat = Some x → cutoff ≤ Day x) →
  dropped limit total cutoff sizes finished [].
Proof. intros Hf. split_and!; [done|by intros j x|exact Hf]. Qed.

Lemma dropped_cons limit total cutoff s ok sizes finished l :
  limit < total → Day s < cutoff → dropped limit (if ok : bool then total ⊟ TotalSize s else total) cutoff sizes finished l →
  dropped limit total cutoff (s :: sizes) finished ((s, ok) :: l).
Proof.
  intros Hl Hd (H1 & H2 & H3). split_and!; [by rewrite fmap_cons, H1| |exact H3].
  intros [|j] x; [by intros [= <-]|]. cbn. apply H2.
Qed.

Lemma wp_drop_days limit total cutoff sizes (s : sys W) :
  wp (drop_days limit total cutoff sizes)
    (λ r s', daemon s' = daemon s ∧ ∃ new l, trace s' = new ++ trace s ∧
       drops new = (λ x, (Day x.1, x.2)) <$> l ∧
       dropped limit total cutoff sizes (bool_decide (r = Some tt)) l) s.
Proof.
  revert total s. induction sizes as [|p sizes IH]; intros total s; cbn [drop_days].
  { wp_step. split; [done|]. exists [], []. split_and!; [done|done|]. apply dropped_nil. by right. }
  destruct (Z.leb_spec total limit) as [Hle|Hgt].
  { wp_step. split; [done|]. exists [], []. split_and!; [done|done|]. apply dropped_nil. by left. }
  unfold time_before. destruct (Z.ltb_spec (Day p) cutoff) as [Hold|Hyoung]; cbn [negb].
  2: { wp_step. split; [done|]. exists [], []. split_and!; [done|done|]. apply dropped_nil. right. by intros x [= <-]. }
  wp_step. apply wp_do. intros r w _. set (e := Ev (DropDayPartitions (Day p)) r).
  assert (Hrest : ∀ ok new l r' (s' : sys W), drop_event e = Some (Day p, ok) →
    trace s' = new ++ e :: trace s → drops new = (λ x, (Day x.1, x.2)) <$> l →
    dropped limit (if ok : bool then total ⊟ TotalSize p else total) cutoff sizes (bool_decide (r' = Some tt)) l →
    ∃ new l, trace s' = new ++ trace s ∧ drops new = (λ x, (Day x.1, x.2)) <$> l ∧
      dropped limit total cutoff (p :: sizes) (bool_decide (r' = Some tt)) l).
  { intros ok new l r' s' He Htr Hn Hl. exists (new ++ [e]), ((p, ok) :: l).
    split; [by rewrite Htr, <-app_assoc|]. split; [by rewrite drops_snoc, He, Hn|]. by apply dropped_cons. }
  destruct r as [[err|]|].
  - eapply wp_mono; [apply IH|]. intros r s' (Hd & new & l & Htr & Hn & Hl). split; [done|]. by apply (Hrest false new l).
  - eapply wp_mono; [apply IH|]. intros r s' (Hd & new & l & Htr & Hn & Hl). split; [done|]. by apply (Hrest true new l).
  - split; [done|]. apply (Hrest false [] [] (None : option unit)); [done..|]. by apply dropped_nil.
Qed.

(** The calls of the guard. *)
Lemma wp_retention_guard get set (s : sys W) :
  (∀ t d, get (set t d) = t) →
  wp (retention_guard get set)
    (λ r s', (∃ new, trace s' = new ++ trace s ∧ drops new = []) ∧
       (r = Some true → get (daemon s) = zero_time ∨
          ∃ now, retentionInterval ≤ time_sub now (get (daemon s))) ∧
       (r = Some true → ∃ now, daemon s' = set now (daemon s))) s.
Proof.
  intros Hgs. unfold retention_guard. wp_step. wp_step. wp_step.
  assert (Hgo : ∀ s1 new, daemon s1 = daemon s → trace s1 = new ++ trace s → drops new = [] →
    (get (daemon s) = zero_time ∨ ∃ now, retentionInterval ≤ time_sub now (get (daemon s))) →
    wp (bind (do Now) (λ now, bind (modify (set now)) (λ _, ret true)))
      (λ r s', (∃ new, trace s' = new ++ trace s ∧ drops new = []) ∧
         (r = Some true → get (daemon s) = zero_time ∨ ∃ now, retentionInterval ≤ time_sub now (get (daemon s))) ∧
         (r = Some true → ∃ now, daemon s' = set now (daemon s))) s1).
  { intros s1 new Hd Htr Hn Hg. wp_step. apply wp_do. intros r w _.
    assert (Hnew : ∃ n, Ev Now r :: trace s1 = n ++ trace s ∧ drops n = []).
    { exists (Ev Now r :: new). rewrite Htr. split; [done|]. unfold drops. rewrite reverse_cons, omap_app.
      change (omap drop_event (reverse new)) with (drops new). by rewrite Hn. }
    destruct r as [now|]; [do 3 wp_step|]; cbn [daemon trace]; (split; [exact Hnew|]); [|by split].
    split; [done|]. intros _. exists now. by rewrite Hd. }
  unfold Prelude.is_zero. destruct (Z.eqb_spec (get (daemon s)) zero_time) as [Hz|Hz].
  - wp_step. apply (Hgo _ []); [done..|by left].
  - wp_step. apply wp_do. intros r w _. destruct r as [now|]; [wp_step|].
    + destruct (Z.ltb_spec (time_sub now (get (daemon s))) retentionInterval) as [Hlt|Hge].
      * wp_step. split; [by exists [Ev Now (Some now)]|]. by split.
      * eapply (Hgo _ [Ev Now (Some now)]); [done..|]. right. by exists now.
    + split; [by exists [Ev Now None]|]. by split.
Qed.

(** The size-based retention. Partitions are dropped only with a budget configured,
    at most once per retention interval, oldest first in the order of the store's list,
    never a day younger than the minimum age, and never while the partitions fit the
    budget; a drop the store refuses frees nothing and is skipped. A run that returns has
    met the budget or has tried every day that is old enough. *)
Theorem maybeRunRetention_safe cfg s r s' :
  maybeRunRetention cfg s = (r, s') →
  ∃ new, trace s' = new ++ trace s ∧
    (drops new = [] ∨
     0 < RetentionBytes cfg ∧
     (lastRetry (daemon s) = zero_time ∨ ∃ now, retentionInterval ≤ time_sub now (lastRetry (daemon s))) ∧
     ∃ sizes now l, Ev ComputePartitionSizes (Some (inr sizes)) ∈ new ∧ Ev Now (Some now) ∈ new ∧
       drops new = (λ x, (Day x.1, x.2)) <$> l ∧
       dropped (RetentionBytes cfg) (total_size sizes) (days_before now (RetentionMinDays cfg)) sizes
         (bool_decide (r = Some tt)) l).
Proof.
  intros Hrun. wp_of_run Hrun. unfold maybeRunRetention.
  destruct (Z.leb_spec (RetentionBytes cfg) 0) as [Hoff|Hon]; [wp_step; exists []; by split; [|left]|].
  wp_step. eapply wp_mono; [by apply wp_retention_guard|]. intros r s1 ((n1 & Htr1 & Hn1) & Hg & Hd).
  destruct r as [[]|]; cbn [negb]; [|wp_step; exists n1; by split; [|left]|exists n1; by split; [|left]].
  specialize (Hg eq_refl). clear Hd. wp_step. apply wp_do. intros r w _.
  set (e := Ev ComputePartitionSizes r).
  assert (Hn2 : drops (e :: n1) = []) by (unfold drops; rewrite reverse_cons, omap_app; fold (drops n1); by rewrite Hn1).
  assert (Hquiet : ∃ new, e :: trace s1 = new ++ trace s ∧ drops new = []) by (exists (e :: n1); by rewrite Htr1).
  destruct r as [[err|sizes]|]; [wp_step| |]; try (destruct Hquiet as (n & Ht & Hn); exists n; split; [exact Ht|by left]).
  cbv zeta. destruct (Z.leb_spec (total_size sizes) (RetentionBytes cfg)) as [Hfit|Hover].
  { wp_step. destruct Hquiet as (n & Ht & Hn). exists n. split; [exact Ht|by left]. }
  wp_step. apply wp_do. intros r w' _. cbn [daemon trace world].
  assert (Hn3 : ∀ r, drops (Ev Now r :: e :: n1) = []).
  { intros r'. unfold drops in *. rewrite (reverse_cons (e :: n1)), omap_app, Hn2. done. }
  destruct r as [now|].
  2: { exists (Ev Now None :: e :: n1). cbn [trace]. rewrite Htr1. split; [done|by left]. }
  eapply wp_mono; [apply wp_drop_days|]. intros r s2 (_ & new & l & Htr & Hdr & Hl). cbn [trace] in Htr.
  exists (new ++ Ev Now (Some now) :: e :: n1). split; [by rewrite Htr, Htr1, <-app_assoc|]. right.
  split; [done|]. split; [done|]. exists sizes, now, l. split_and!; [| | |exact Hl].
  - apply elem_of_app. right. right. by left.
  - apply elem_of_app. right. by left.
  - unfold drops in *. rewrite reverse_app, omap_app, Hn3. done.
Qed.

End retention_props.

(** ** Schedules *)

Section schedule_props.
Context {C : Cron} {HC : LawfulCron C}.

(** An activation of the schedule after one time, up to another. *)
Definition activation_between (sched : option Schedule) (t now : time) : Prop :=
  match sched with
  | Some sc => t < Next sc t ≤ now ∨ Next sc t = zero_time
  | None => 24 * Hour ≤ time_sub now t
  end.

Lemma cronDue_activation sched t now :
  cronDue sched t now = true ↔ match sched with Some sc => Next sc t ≤ now | None => 24 * Hour ≤ time_sub now t end.
Proof.
  destruct sched as [sc|]; cbn; [|by rewrite Z.leb_le]. unfold time_before.
  by rewrite negb_true_iff, Z.ltb_ge.
Qed.

(** A target without a stored snapshot is tried once per activation of its schedule.
    A due target is recorded with the time of the attempt and no other record changes;
    whatever time it is next found due, with still no snapshot stored, the schedule has
    had an activation since (or, for the daily fallback, a day has passed), unless the
    schedule has no activation at all. For such a schedule the cron library returns the
    zero time, and the target is due on every sweep. *)
Theorem due_once_per_activation attempts sched last key now :
  (due attempts sched last key now).1 = true →
  let attempts' := (due attempts sched last key now).2 in
  attempts' = <[key := now]> attempts ∧
  (∀ last' now', last' !! key = None →
     (due attempts' sched last' key now').1 = true → activation_between sched now now') ∧
  (∀ sc last' now', sched = Some sc → Next sc now = zero_time → zero_time ≤ now' → last' !! key = None →
     (due attempts' sched last' key now').1 = true).
Proof.
  intros Hdue. assert (Ha : (due attempts sched last key now).2 = <[key := now]> attempts).
  { revert Hdue. unfold due. repeat case_match; done. }
  cbv zeta. rewrite Ha. split; [done|]. split.
  - intros last' now' Hl. unfold due. rewrite Hl, lookup_insert_eq.
    destruct (cronDue sched now now') eqn:Hc; [|done]. intros _. apply cronDue_activation in Hc.
    destruct sched as [sc|]; [|done]. cbn. destruct (Next_later sc now); [by left|by right].
  - intros sc last' now' -> Hz Hnow Hl. unfold due. rewrite Hl, lookup_insert_eq.
    assert (Hc : cronDue (Some sc) now now' = true) by (apply cronDue_activation; by rewrite Hz). by rewrite Hc.
Qed.

End schedule_props.

(** ** Budgets *)

(** The wall time a lock capture takes at most: its deadline. *)
Definition capture_budget (cfg : Config) : duration :=
  Z.min ((LockProbeCount cfg ⊠ LockProbeInterval cfg) ⊞ (5 * Second)) maxCaptureDuration.

(** The deadline of a cluster's sweep only trips on a hang. With the bounds that the
    validator keeps on the probe settings and up to a million hosts, the product does not
    overflow and the deadline leaves every host its whole lock capture and at least
    fifteen seconds for the rest, twenty five when the capture is within its own cap. *)
Theorem clusterTickTimeout_generous cfg n :
  tags_hold (config_tags cfg) → 0 ≤ n ≤ 10 ^ 6 →
  clusterTickTimeout cfg n =
    Z.max 1 n * (30 * Second + if cfg_CaptureLocks cfg then LockProbeCount cfg * LockProbeInterval cfg else 0) ∧
  n * ((if cfg_CaptureLocks cfg then capture_budget cfg else 0) + 15 * Second) ≤ clusterTickTimeout cfg n.
Proof.
  intros Htags Hn.
  assert (Hb : 1 ≤ LockProbeCount cfg ≤ 20 ∧ 100 * Millisecond ≤ LockProbeInterval cfg ≤ 5 * Second).
  { unfold tags_hold, config_tags in Htags. rewrite Forall_app in Htags. destruct Htags as [Htags _].
    repeat (apply Forall_cons in Htags as [?Ht Htags]). cbn [fst snd] in *.
    rewrite !Forall_cons in *. unfold rule_holds in *. tauto. }
  destruct Hb as [[Hc1 Hc2] [Hi1 Hi2]].
  assert (Hprod : 0 ≤ LockProbeCount cfg * LockProbeInterval cfg ≤ 100 * Second).
  { unfold Millisecond, Second in *. nia. }
  assert (H1 : LockProbeCount cfg ⊠ LockProbeInterval cfg = LockProbeCount cfg * LockProbeInterval cfg).
  { apply wrap64_id. unfold int64, min64, max64, Second in *. lia. }
  unfold clusterTickTimeout, capture_budget, clusterTickBudgetPerHost, maxCaptureDuration.
  replace (if n <? 1 then 1 else n) with (Z.max 1 n) by (case_test; lia).
  set (p := LockProbeCount cfg * LockProbeInterval cfg) in *. unfold Second in *.
  destruct (cfg_CaptureLocks cfg); rewrite ?H1; unfold add64, mul64; rewrite ?(wrap64_id (_ + _)), wrap64_id;
    unfold int64, min64, max64; try nia; split; nia.
Qed.

(** ** Hot-objects captures *)

Section hot_props.
Context {W : Type} {E : Env W} {R : MapRange}.

(** An input is what the repository and the store answered for its host. *)
Definition gathered_from (cl : Cluster) (database : string) (capturedAt : time) (new : list event) (i : BuildInput) : Prop :=
  let host := hs_Instance (Sample i) in
  ∃ tables indexes reset inRecovery anchors x,
    Ev (GetHotSampleTables (cl_Name cl) host database) (Some (inr (tables, reset, inRecovery))) ∈ new ∧
    Ev (GetHotSampleIndexes (cl_Name cl) host database) (Some (inr (indexes, x.1, x.2))) ∈ new ∧
    Ev (GetHotAnchors (cl_Name cl) host database) (Some (inr anchors)) ∈ new ∧
    Sample i = mkHostSample host capturedAt reset inRecovery (tables ++ indexes) ∧ Anchors i = anchors.

(** The snapshots a trace stores, with their anchors. *)
Definition hot_insert (e : event) : option (HotObjects.Snapshot * gmap string (list AnchorRow)) :=
  match e with Ev (InsertHotSnapshotWithAnchors snap anchors) _ => Some (snap, anchors) | _ => None end.

Definition hot_inserts (new : list event) : list (HotObjects.Snapshot * gmap string (list AnchorRow)) := omap hot_insert new.

Definition gather_post (cl : Cluster) (database : string) (capturedAt : time) (hs : list string) (acc : gathered)
    (s : sys W) (r : option gathered) (s' : sys W) : Prop :=
  daemon s' = daemon s ∧ ∃ new, trace s' = new ++ trace s ∧ hot_inserts new = [] ∧
    (∀ g, r = Some g → ∃ inputs missing, g = (acc.1 ++ inputs, acc.2 ++ missing) ∧
       hs ≡ₚ ((λ i, hs_Instance (Sample i)) <$> inputs) ++ missing ∧
       Forall (λ i, gathered_from cl database capturedAt new i ∧ PrevWindow i = None) inputs).

Lemma gathered_from_mono cl database capturedAt new new' i :
  (∀ e, e ∈ new → e ∈ new') → gathered_from cl database capturedAt new i → gathered_from cl database capturedAt new' i.
Proof.
  intros Hm (t & ix & re & rec & an & x & H1 & H2 & H3 & H4 & H5). exists t, ix, re, rec, an, x.
  split_and!; auto.
Qed.

Lemma wp_gather_host cl database capturedAt host (s : sys W) :
  wp (gather_host (cl_Name cl) database capturedAt host)
    (λ r s', daemon s' = daemon s ∧ ∃ new, trace s' = new ++ trace s ∧ hot_inserts new = [] ∧
       ∀ i, r = Some (Some i) → hs_Instance (Sample i) = host ∧ gathered_from cl database capturedAt new i ∧ PrevWindow i = None) s.
Proof.
  unfold gather_host. wp_step. apply wp_do. intros r w _.
  destruct r as [[err|[[tables reset] inRecovery]]|];
    [wp_step; split; [done|]; by exists [Ev (GetHotSampleTables (cl_Name cl) host database) (Some (inl err))]| |
     split; [done|]; by exists [Ev (GetHotSampleTables (cl_Name cl) host database) None]].
  set (e1 := Ev _ _). wp_step. apply wp_do. intros r w' _. cbn [daemon trace world].
  destruct r as [[err|[[indexes x1] x2]]|];
    [wp_step; split; [done|]; by exists [Ev (GetHotSampleIndexes (cl_Name cl) host database) (Some (inl err)); e1]| |
     split; [done|]; by exists [Ev (GetHotSampleIndexes (cl_Name cl) host database) None; e1]].
  set (e2 := Ev (GetHotSampleIndexes _ _ _) _). wp_step. apply wp_do. intros r w'' _. cbn [daemon trace world].
  destruct r as [[err|anchors]|];
    [wp_step; split; [done|]; by exists [Ev (GetHotAnchors (cl_Name cl) host database) (Some (inl err)); e2; e1]| |
     split; [done|]; by exists [Ev (GetHotAnchors (cl_Name cl) host database) None; e2; e1]].
  set (e3 := Ev (GetHotAnchors _ _ _) _). wp_step. split; [done|]. exists [e3; e2; e1]. split; [done|]. split; [done|].
  intros i [= <-]. split; [done|]. split; [|done]. exists tables, indexes, reset, inRecovery, anchors, (x1, x2).
  split_and!; [right; right; by left|right; by left|by left|done|done].
Qed.

Lemma wp_gather cl database capturedAt hs acc (s : sys W) :
  wp (gather (cl_Name cl) database capturedAt hs acc) (gather_post cl database capturedAt hs acc s) s.
Proof.
  revert acc s. induction hs as [|h hs IH]; intros acc s; cbn [gather].
  { wp_step. split; [done|]. exists []. split_and!; [done|done|]. intros g [= <-]. exists [], [].
    rewrite !app_nil_r. by destruct acc. }
  wp_step. eapply wp_mono; [apply wp_gather_host|]. intros r s1 (Hd1 & n1 & Htr1 & Hi1 & Hr1).
  destruct r as [i|]; [|split; [done|]; exists n1; by split_and!].
  eapply wp_mono; [apply IH|]. intros r s2 (Hd2 & n2 & Htr2 & Hi2 & Hr2).
  split; [congruence|]. exists (n2 ++ n1). split; [by rewrite Htr2, Htr1, app_assoc|].
  split; [unfold hot_inserts in *; by rewrite omap_app, Hi2, Hi1|].
  intros g Hg. destruct (Hr2 g Hg) as (inputs & missing & -> & Hp & Hf).
  assert (Hf' : Forall (λ i, gathered_from cl database capturedAt (n2 ++ n1) i ∧ PrevWindow i = None) inputs).
  { eapply Forall_impl; [exact Hf|]. intros j [Hj ?]. split; [|done]. eapply gathered_from_mono; [|exact Hj].
    intros e He. apply elem_of_app. by left. }
  destruct i as [i|]; cbn [fst snd].
  - destruct (Hr1 i eq_refl) as (Hh & Hfrom & Hpw). exists (i :: inputs), missing. rewrite <-app_assoc. split_and!; [done| |].
    + cbn. rewrite Hh. by f_equiv.
    + constructor; [|done]. split; [|done]. eapply gathered_from_mono; [|exact Hfrom]. intros e He. apply elem_of_app. by right.
  - exists inputs, (h :: missing). rewrite <-app_assoc. split_and!; [done| |done]. rewrite Hp. apply Permutation_middle.
Qed.

(** A hot-objects capture is all or nothing. It stores at most one snapshot, and
    never without an answered sample. The stored snapshot is built from inputs that are
    exactly the answers of their hosts, with the other hosts listed as missing, and the
    anchors that go with it, in the same call, are those of the same inputs: a missing
    host's baseline is left alone, so no interval is lost or counted twice. Nothing of
    the daemon's state changes. *)
Theorem takeHotSnapshot_atomic cfg cl database s r s' :
  takeHotSnapshot cfg cl database s = (r, s') →
  daemon s' = daemon s ∧
  ∃ new, trace s' = new ++ trace s ∧
    (hot_inserts new = [] ∨
     ∃ capturedAt inputs missing,
       hot_inserts new = [(BuildSnapshot (cl_Name cl) database capturedAt inputs missing (HotTopN cfg),
                           anchors_of inputs capturedAt)] ∧
       inputs ≠ [] ∧ cl_Hosts cl ≡ₚ ((λ i, hs_Instance (Sample i)) <$> inputs) ++ missing ∧
       Forall (gathered_from cl database capturedAt new) inputs).
Proof.
  intros Hrun. wp_of_run Hrun. unfold takeHotSnapshot. wp_step. apply wp_do. intros r w _.
  destruct r as [capturedAt|]; [|split; [done|]; exists [Ev Now None]; by split; [|left]].
  set (e0 := Ev Now _). wp_step. eapply wp_mono; [apply wp_gather|]. intros r s1 (Hd & n1 & Htr & Hi & Hg).
  cbn [daemon trace] in Hd, Htr.
  assert (Hstop : ∀ (s2 : sys W) new, daemon s2 = daemon s1 → trace s2 = new ++ trace s1 → hot_inserts new = [] →
    daemon s2 = daemon s ∧ ∃ new, trace s2 = new ++ trace s ∧ hot_inserts new = []).
  { intros s2 new Hd2 Htr2 Hn. split; [congruence|]. exists (new ++ n1 ++ [e0]).
    split; [by rewrite Htr2, Htr, <-!app_assoc|]. unfold hot_inserts in *. by rewrite !omap_app, Hn, Hi. }
  assert (Hstop' : ∀ (P : list event → Prop) (s2 : sys W) new, daemon s2 = daemon s1 → trace s2 = new ++ trace s1 → hot_inserts new = [] →
    daemon s2 = daemon s ∧ ∃ new, trace s2 = new ++ trace s ∧ (hot_inserts new = [] ∨ P new)).
  { intros P s2 new H1 H2 H3. destruct (Hstop s2 new H1 H2 H3) as (? & n & ? & ?). split; [done|]. exists n. by split; [|left]. }
  destruct r as [g|]; [|by apply (Hstop' _ s1 [])].
  destruct (Hg g eq_refl) as (inputs & missing & -> & Hp & Hf). cbn [app fst snd].
  destruct (Nat.eqb_spec (length inputs) 0) as [Hl|Hl]; [wp_step; by apply (Hstop' _ s1 [])|].
  unfold attachPrevWindows. wp_step. wp_step. apply wp_do. intros r w' _. cbn [daemon trace world].
  set (c := GetLatestHotWindows _ _ _ _) in *.
  destruct r as [[err|prev]|]; [do 2 wp_step; by apply (Hstop' _ _ [Ev c (Some (inl err))])| |
    by apply (Hstop' _ (mkSys (daemon s1) w' (Ev c None :: trace s1)) [Ev c None])].
  do 2 wp_step.
  set (attach := λ i, match prev !! hs_Instance (Sample i) with
                      | Some w => mkBuildInput (Sample i) (Anchors i) (Some w) | None => i end).
  set (inputs' := attach <$> inputs). apply wp_do. intros r w'' _. cbn [daemon trace world].
  set (ci := InsertHotSnapshotWithAnchors _ _) in *.
  assert (Hsame : ∀ i, Sample (attach i) = Sample i ∧ Anchors (attach i) = Anchors i)
    by (intros i; unfold attach; by destruct (prev !! _)).
  assert (Hfin : daemon s1 = daemon s ∧ ∃ new, Ev ci r :: Ev c (Some (inr prev)) :: trace s1 = new ++ trace s ∧
    (hot_inserts new = [] ∨ ∃ capturedAt inputs missing,
       hot_inserts new = [(BuildSnapshot (cl_Name cl) database capturedAt inputs missing (HotTopN cfg),
                           anchors_of inputs capturedAt)] ∧
       inputs ≠ [] ∧ cl_Hosts cl ≡ₚ ((λ i, hs_Instance (Sample i)) <$> inputs) ++ missing ∧
       Forall (gathered_from cl database capturedAt new) inputs)).
  { split; [done|]. exists (Ev ci r :: Ev c (Some (inr prev)) :: n1 ++ [e0]). split; [rewrite Htr; cbn [app]; by rewrite <-app_assoc|].
    right. exists capturedAt, inputs', missing. split_and!.
    - unfold hot_inserts in *. cbn. by rewrite omap_app, Hi.
    - intros Hn. apply (f_equal length) in Hn. unfold inputs' in Hn. rewrite length_fmap in Hn. done.
    - rewrite Hp. unfold inputs'. rewrite <-list_fmap_compose. apply reflexive_eq. f_equal.
      apply list_fmap_ext. intros _ i _. cbn. by destruct (Hsame i) as [-> _].
    - unfold inputs'. apply Forall_fmap. eapply Forall_impl; [exact Hf|]. intros i [Hi' _]. cbn.
      destruct (Hsame i) as [HS HA]. unfold gathered_from in *. rewrite HS, HA.
      destruct Hi' as (t & ix & re & rec & an & x & H1 & H2 & H3 & H4 & H5). exists t, ix, re, rec, an, x.
      split_and!; [..|done|done]; apply elem_of_cons; right; apply elem_of_cons; right; apply elem_of_app; by left. }
  destruct r as [r|]; [wp_step|]; exact Hfin.
Qed.

End hot_props.

(** ** Leadership *)

Section leader.
Context {W : Type} {E : Env W} {C : Cron} {R : MapRange}.

(** The trace only grows. *)
Definition grows (s s' : sys W) : Prop := emits (λ _, True) s s'.

#[local] Instance grows_preorder : PreOrder grows.
Proof. apply emits_preorder. Qed.

Lemma grows_do c : respects grows (do c).
Proof. apply respects_do. intros s r w. by apply emits_call. Qed.

Lemma grows_modify f : respects grows (modify f).
Proof. apply respects_modify. intros s. by apply emits_same. Qed.

Lemma grows_takeSnapshot cfg cl inst database trigType reason trigCtx bgPeak :
  respects grows (takeSnapshot cfg cl inst database trigType reason trigCtx bgPeak).
Proof.
  intros s. destruct (takeSnapshot_calls (λ _, True) cfg cl inst database trigType reason trigCtx bgPeak s) as (new & Htr & Hn & _);
    [done|]. by exists new.
Qed.

Lemma grows_debounced key freq : respects grows (debounced key freq).
Proof. eapply respects_weaken; [|apply debounced_reads]. intros s s' [_ Hem]. by eapply emits_weaken. Qed.

Lemma grows_nowUTC : respects grows nowUTC.
Proof. eapply respects_weaken; [|apply nowUTC_reads]. intros s s' [_ Hem]. by eapply emits_weaken. Qed.

Ltac grow := repeat (respects_step || apply grows_do || apply grows_modify || apply grows_takeSnapshot ||
  apply grows_debounced || apply grows_nowUTC).

Lemma grows_handleRecovery cfg t cl inst database now count :
  respects grows (handleRecovery cfg t cl inst database now count).
Proof. unfold handleRecovery, get_state, update. grow. Qed.

Lemma grows_processCluster cfg effective cl : respects grows (processCluster cfg effective cl).
Proof.
  unfold processCluster, process_host, tickActivitySpike, tickRoleChange, fold_probe, below_baseline, forming_spike,
    sample_locks, fire_spike, get_state, update.
  grow; apply grows_handleRecovery.
Qed.

Lemma grows_run_elected n : respects grows (run_elected n).
Proof.
  apply run_elected_respects; [apply _|apply grows_do|intros f _; apply grows_modify|apply grows_processCluster|apply grows_takeSnapshot].
Qed.

(** The calls of the election. *)
Definition election (e : event) : Prop :=
  match e with Ev TryAcquireLeaderLock _ | Ev (Sleep _) _ => True | _ => False end.

Lemma wp_Acquire n (s : sys W) :
  wp (Acquire n) (λ r s', ∃ before, Forall election before ∧
    trace s' = (if bool_decide (r = Some (Some true)) then [Ev TryAcquireLeaderLock (Some (inr true))] else []) ++ before ++ trace s) s.
Proof.
  revert s. induction n as [|n IH]; intros s; cbn [Acquire]; [wp_step; by exists []|].
  wp_step. apply wp_do. intros r w _.
  assert (Hmore : ∀ r, wp (bind (do (Sleep leaderRetryInterval)) (λ awake, if negb awake then ret (Some false) else Acquire n))
    (λ r s', ∃ before, Forall election before ∧
      trace s' = (if bool_decide (r = Some (Some true)) then [Ev TryAcquireLeaderLock (Some (inr true))] else []) ++ before ++ trace s)
    (mkSys (daemon s) w (Ev TryAcquireLeaderLock r :: trace s))).
  { intros r'. wp_step. apply wp_do. intros r2 w2 _. cbn [daemon trace world]. set (e := Ev _ r'). set (e2 := Ev _ r2).
    assert (He : Forall election [e2; e]) by (by repeat constructor).
    destruct r2 as [[]|]; cbn [negb]; [|wp_step; by exists [e2; e]|by exists [e2; e]].
    eapply wp_mono; [apply IH|]. intros r3 s3 (before & Hb & Htr). cbn [trace] in Htr.
    exists (before ++ [e2; e]). split; [by apply Forall_app|]. by rewrite Htr, <-app_assoc. }
  destruct r as [[err|[]]|]; [apply Hmore| |apply Hmore|].
  - wp_step. by exists [].
  - exists [Ev TryAcquireLeaderLock None]. by repeat constructor.
Qed.

(** C8: with leader election the daemon works only as the leader. Before the advisory
    lock is granted no call is made but asking for it and waiting; if it is never granted
    nothing else happens at all; and once it has been granted, the connection that holds
    it is closed as the very last call of the run, also when the loop panics. *)
Theorem Run_only_as_leader attempts n s r s' :
  leaderElection (daemon s) = true → Run attempts n s = (r, s') →
  ∃ before, Forall election before ∧
    ((trace s' = before ++ trace s ∧ r ≠ Some (Some true)) ∨
     ∃ close work, trace s' = Ev CloseLeaderConn close :: work ++
       Ev TryAcquireLeaderLock (Some (inr true)) :: before ++ trace s).
Proof.
  intros Hel Hrun. wp_of_run Hrun. unfold Run. wp_step. wp_step. rewrite Hel.
  wp_step. eapply wp_mono; [apply wp_Acquire|]. intros r s1 (before & Hb & Htr).
  destruct r as [[[]|]|]; cbn in Htr; [|wp_step; exists before; split; [done|]; by left..|exists before; split; [done|]; by left].
  exists before. split; [done|]. right.
  assert (Hg : respects grows (bind (run_elected n) (λ r, ret ((λ _, true) <$> r)))).
  { apply respects_bind; [apply _|apply grows_run_elected|]. intros a. apply respects_ret, _. }
  specialize (Hg s1). unfold wp, releasing. destruct (bind (run_elected n) _ s1) as [r s2]. cbn [snd] in Hg.
  destruct Hg as (work & Hw & _). unfold do. destruct (env CloseLeaderConn (world s2)) as [close w]. cbn [snd trace].
  exists close, work. by rewrite Hw, Htr.
Qed.

End leader.

(** ** Witnesses *)

(** Schedules that are a period, or have no activation (period 0). *)
Definition period_cron : Cron := {|
  Schedule := N;
  ParseStandard := λ spec, Some (if bool_decide (spec = "CRON_TZ=UTC 0 0 30 2 *"%string) then 0%N else 3600000000000%N);
  Next := λ p t, if (p =? 0)%N then zero_time else t + Z.of_N p
|}.

#[export] Instance period_cron_lawful : LawfulCron period_cron.
Proof. intros p t. cbn. destruct (N.eqb_spec p 0); [by right|left; lia]. Qed.

(** Two firings of the loop. *)
Definition sample_run (elect : bool) : option (option bool) * sys time :=
  @Run _ sample_env period_cron canonical_range 1 2 (mkSys (NewDaemon elect) (2 * Minute) []).

Lemma Run_reaches_sound_witness : daemon_ok (daemon (sample_run false).2).
Proof.
  apply (@Run_reaches_sound _ sample_env period_cron canonical_range false 1 2 (2 * Minute) (sample_run false).1 (sample_run false).2).
  apply surjective_pairing.
Defined.

Lemma tick_isolates_witness :
  (@tick _ sample_env sample_config (replay_start 5)).1 = Some tt.
Proof.
  rewrite (@tick_isolates _ sample_env sample_config (replay_start 5) (inr ∅) 5 (inr [sample_cluster]) 5); [reflexivity..].
Defined.

(** One job of a known cluster, one of a cluster that is gone. *)
Definition pending_env : Env time := λ c now,
  match c with
  | ClaimDuePendingSnapshots =>
      (Some (inr [mkPendingSnapshot "gone" "db9" "app" "auto:deferred"; mkPendingSnapshot "prod" "db1" "app" "auto:deferred"]), now)
  | c => sample_env c now
  end.

Lemma processPending_claims_safely_witness :
  let p := @processPending _ pending_env sample_config (replay_start 5) in
  attempts p.2 = [("prod", "db1", "auto:deferred")]%string ∧ hosts (daemon p.2) = ∅.
Proof.
  intros p. split; [vm_compute; reflexivity|].
  apply (@processPending_claims_safely _ pending_env sample_config (replay_start 5) p.1 p.2). apply surjective_pairing.
Defined.

(** Three days of partitions, the newest too young to drop. *)
Definition retention_env : Env time := λ c now,
  match c with
  | ComputePartitionSizes =>
      (Some (inr [mkPartitionSize 0 (6 * 10 ^ 9); mkPartitionSize (24 * Hour) (6 * 10 ^ 9); mkPartitionSize (240 * Hour) (9 * 10 ^ 9)]), now)
  | c => sample_env c now
  end.

Lemma maybeRunRetention_safe_witness :
  let p := @maybeRunRetention _ retention_env sample_config (replay_start (250 * Hour)) in
  drops (trace p.2) = [(0, true); (24 * Hour, true)] ∧ ∃ new, trace p.2 = new ++ [].
Proof.
  intros p. split; [vm_compute; reflexivity|].
  destruct (@maybeRunRetention_safe _ retention_env sample_config (replay_start (250 * Hour)) p.1 p.2) as (new & Htr & _);
    [apply surjective_pairing|by exists new].
Defined.

Lemma due_once_per_activation_witness :
  (@due period_cron ∅ (@ParseCronSchedule period_cron "0 * * * *") ∅ "prod/app" 0).1 = true ∧
  ∀ now', (@due period_cron (<["prod/app"%string := 0]> ∅) (@ParseCronSchedule period_cron "0 * * * *") ∅ "prod/app" now').1 = true →
    0 < Hour ≤ now' ∨ Hour = zero_time.
Proof.
  split; [vm_compute; reflexivity|]. intros now'.
  destruct (@due_once_per_activation period_cron _ ∅ (@ParseCronSchedule period_cron "0 * * * *") ∅ "prod/app" 0) as (_ & H & _);
    [vm_compute; reflexivity|].
  exact (H ∅ now' (lookup_empty _)).
Defined.

(** The thirtieth of February: a capture on every sweep. *)
Example never_is_always :
  (@due period_cron {["prod/app"%string := 10 * Hour]} (@ParseCronSchedule period_cron "0 0 30 2 *") ∅ "prod/app"
    (10 * Hour + 5 * Second)).1 = true.
Proof. by vm_compute. Qed.

Lemma clusterTickTimeout_generous_witness :
  clusterTickTimeout sample_config 3 = 3 * (30 * Second + 3 * (500 * Millisecond)).
Proof.
  apply (clusterTickTimeout_generous sample_config 3); [|done]. by apply (bool_decide_unpack _).
Defined.

Lemma takeHotSnapshot_atomic_witness :
  let p := @takeHotSnapshot _ sample_env canonical_range sample_config sample_cluster "app" (replay_start 5) in
  length (hot_inserts (trace p.2)) = 1%nat ∧ daemon p.2 = NewDaemon false.
Proof.
  intros p. split; [vm_compute; reflexivity|].
  apply (@takeHotSnapshot_atomic _ sample_env canonical_range sample_config sample_cluster "app" (replay_start 5) p.1 p.2).
  apply surjective_pairing.
Defined.

Lemma Run_only_as_leader_witness :
  ∃ before, Forall election before ∧
    ((trace (sample_run true).2 = before ++ [] ∧ (sample_run true).1 ≠ Some (Some true)) ∨
     ∃ close work, trace (sample_run true).2 =
       Ev CloseLeaderConn close :: work ++ Ev TryAcquireLeaderLock (Some (inr true)) :: before ++ []).
Proof.
  apply (@Run_only_as_leader _ sample_env period_cron canonical_range 1 2 (mkSys (NewDaemon true) (2 * Minute) [])
    (sample_run true).1 (sample_run true).2); [reflexivity|apply surjective_pairing].
Defined.
