(* ===== verification/Discovery.v ===== *)
(** * [internal/discovery] and the cluster registry of [internal/config]

    The registry [ClustersFromConfig] that static and discovered clusters share, the
    engine's cycle, the name filters, [pgdb.ListFirst] and the slice helpers of
    [pkg/mapstruct] they use. Patroni's own part is in [Patroni]. *)

From S2P Require Import Prelude.
From stdpp Require Import options.

#[local] Set Default Proof Using "Type*".

(** ** Slice helpers ([pkg/mapstruct]) *)

Section slices.
Context {T U : Type} `{Countable U}.

Definition SliceMap {T U} (slice : list T) (fn : T → U) : list U := fn <$> slice.

(** [None] is the first error. *)
Definition SliceMapWithErr {T U} (slice : list T) (fn : T → option U) : option (list U) := mapM fn slice.

Fixpoint unique_from (seen : gset U) (slice : list T) (fn : T → U) : list U :=
  match slice with
  | [] => []
  | item :: rest =>
      let v := fn item in
      if decide (v ∈ seen) then unique_from seen rest fn else v :: unique_from ({[v]} ∪ seen) rest fn
  end.

Definition SliceUniqueMember (slice : list T) (fn : T → U) : list U := unique_from ∅ slice fn.

Definition SliceMissing (from other : list U) : list U :=
  let present : gset U := list_to_set other in
  filter (λ v, v ∉ present) from.

End slices.

(** A full outer join: both maps keep the last element of a key, the result ranges over
    the left map and then over what is left of the right one. *)
Section full_join.
Context {R : MapRange} {T1 T2 K : Type} `{Countable K}.

Definition index_by {T} (key : T → K) (l : list T) : gmap K T := foldl (λ m x, <[key x := x]> m) ∅ l.

Definition join_step (st : list (option T1 * option T2) * gmap K T2) (x : K * T1) :
    list (option T1 * option T2) * gmap K T2 :=
  match st.2 !! x.1 with
  | Some rp => (st.1 ++ [(Some x.2, Some rp)], delete x.1 st.2)
  | None => (st.1 ++ [(Some x.2, None)], st.2)
  end.

Definition SliceFullJoin (left : list T1) (right : list T2) (leftKey : T1 → K) (rightKey : T2 → K) :
    list (option T1 * option T2) :=
  let '(result, rest) :=
    foldl join_step ([], index_by rightKey right) (map_range "SliceFullJoin.left" (index_by leftKey left)) in
  result ++ map (λ x, (None, Some x.2)) (map_range "SliceFullJoin.right" rest).

End full_join.

(** ** Data *)

Record HostMeta := mkHostMeta { Address : string; hm_Port : string; Alias : string }.

Record Cluster := mkCluster {
  Name : string;
  UserName : string;
  Password : string;
  PasswordFromEnv : string;
  Port : string;
  Databases : list string;
  Hosts : list string;
  HostMetas : gmap string HostMeta;
  Source : string;
  ProviderID : string;
  Labels : gmap string string;
  LogSource : string
}.

Record ClustersFromConfig := mkClusters { static : list Cluster; discovered : gmap string (list Cluster) }.

(** ** The registry *)

Definition tag_static (cl : Cluster) : Cluster :=
  mkCluster (Name cl) (UserName cl) (Password cl) (PasswordFromEnv cl) (Port cl) (Databases cl) (Hosts cl)
    (HostMetas cl) (if decide (Source cl = ""%string) then "static"%string else Source cl) (ProviderID cl)
    (Labels cl) (LogSource cl).

Definition NewClustersFromConfig (clusters : list Cluster) : ClustersFromConfig :=
  mkClusters (tag_static <$> clusters) ∅.

Section registry.
Context {R : MapRange}.

Definition sorted_sources (c : ClustersFromConfig) : list string :=
  sort_slice str_ltb (fst <$> map_range "Get" (discovered c)).

Definition Get (c : ClustersFromConfig) : list Cluster :=
  static c ++ concat ((λ source, default [] (discovered c !! source)) <$> sorted_sources c).

Definition taken_by (names : gset string) (cls : list Cluster) : gset string :=
  foldl (λ t cl, {[Name cl]} ∪ t) names cls.

(** The names of the static clusters and of the other sources. *)
Definition taken_names (c : ClustersFromConfig) (source : string) : gset string :=
  foldl (λ t '(key, cls), if decide (key = source) then t else taken_by t cls)
    (taken_by ∅ (static c)) (map_range "UpdateSource" (discovered c)).

(** The accepted clusters and the rejected names. *)
Fixpoint accept (taken : gset string) (cls : list Cluster) : list Cluster * list string :=
  match cls with
  | [] => ([], [])
  | cl :: rest =>
      if decide (Name cl ∈ taken) then
        let '(accepted, rejected) := accept taken rest in (accepted, Name cl :: rejected)
      else
        let '(accepted, rejected) := accept ({[Name cl]} ∪ taken) rest in (cl :: accepted, rejected)
  end.

Definition UpdateSource (c : ClustersFromConfig) (source : string) (cls : list Cluster) : list string * ClustersFromConfig :=
  let '(accepted, rejected) := accept (taken_names c source) cls in
  (rejected, mkClusters (static c) (<[source := accepted]> (discovered c))).

(** [Engine.discover]: one cycle of a provider; [None] is a failed one. *)
Definition discover (c : ClustersFromConfig) (name : string) (answer : option (list Cluster)) : ClustersFromConfig :=
  match answer with None => c | Some cls => (UpdateSource c name cls).2 end.

(** What [runLoop]s of several entries do to the registry: their cycles in the order in
    which they finish. *)
Definition cycles (c : ClustersFromConfig) (l : list (string * option (list Cluster))) : ClustersFromConfig :=
  foldl (λ c x, discover c x.1 x.2) c l.

End registry.

(** *** [Engine]: the providers it starts *)

Section engine.
Context {R : MapRange} {raw provider : Type}.

Record DiscoveryEntry := mkEntry { Type_ : string; Config : raw }.

Definition countEntries (cfg : gmap string DiscoveryEntry) (entryType : string) : Z :=
  foldl (λ count x, if decide (Type_ x.2 = entryType) then count + 1 else count) 0 (map_range "countEntries" cfg).

Definition prefixByType (cfg : gmap string DiscoveryEntry) : gmap string bool :=
  <["yandex-mdb" := 1 <? countEntries cfg "yandex-mdb"]> (<["patroni" := 1 <? countEntries cfg "patroni"]> ∅).

(** The constructors of the three providers; [None] is an error. *)
Context (yandex_NewProvider : string → raw → bool → option provider)
  (postgres_NewProvider : string → raw → option provider)
  (patroni_NewProvider : string → raw → bool → option provider).

Definition newProvider (name : string) (entry : DiscoveryEntry) (prefixName : bool) : option provider :=
  if decide (Type_ entry = "yandex-mdb") then yandex_NewProvider name (Config entry) prefixName
  else if decide (Type_ entry = "postgres") then postgres_NewProvider name (Config entry)
  else if decide (Type_ entry = "patroni") then patroni_NewProvider name (Config entry) prefixName
  else None.

(** [Engine.Start]: the loops it starts; the others are only warned about. *)
Definition Start (cfg : gmap string DiscoveryEntry) : list (string * provider) :=
  let prefixNames := prefixByType cfg in
  omap (λ x, pair x.1 <$> newProvider x.1 x.2 (default false (prefixNames !! Type_ x.2))) (map_range "Start" cfg).

End engine.

(** *** [filter]: the compiled regular expressions are predicates *)

Record Filter := mkFilter {
  nameRegexp : string → bool;
  dbRegexp : option (string → bool);
  excludeNameRegexp : option (string → bool);
  excludeDbRegexp : option (string → bool)
}.

Definition excluded (re : option (string → bool)) (name : string) : bool :=
  match re with Some m => m name | None => false end.

Definition MatchName (f : Filter) (name : string) : bool :=
  if excluded (excludeNameRegexp f) name then false else nameRegexp f name.

Definition MatchDb (f : Filter) (name : string) : bool :=
  if excluded (excludeDbRegexp f) name then false
  else match dbRegexp f with None => true | Some m => m name end.

(** *** [pgdb.ListFirst] *)

Record Target := mkTarget { t_Host : string; t_Port : string; t_User : string; t_Password : string; t_Database : string }.

(** An error, with the host it is prefixed with. *)
Inductive list_error := errNoTargets | failed (host : string).

Section list_first.
(** The lister, at the number of the attempt, and whether the context is done after a
    failure. *)
Context (list_databases : nat → Target → option (list string)) (ctx_done : nat → bool).

Definition rotate (start i n : nat) : nat := ((start + i) mod n)%nat.

(** The loop from attempt [i], with [fuel] attempts left: the names or the last error, and
    the index. *)
Fixpoint try_from (targets : list Target) (start i fuel : nat) (lastErr : list_error) : (list_error + list string) * nat :=
  match fuel with
  | O => (inl lastErr, start)
  | S fuel =>
      let idx := rotate start i (length targets) in
      match targets !! idx with
      | None => (inl lastErr, start) (* not reached: [idx] is in range *)
      | Some t =>
          match list_databases i t with
          | Some names => (inr names, idx)
          | None =>
              if ctx_done i then (inl (failed (t_Host t)), start)
              else try_from targets start (S i) fuel (failed (t_Host t))
          end
      end
  end.

Definition clamp_start (targets : list Target) (start : Z) : nat :=
  if (start <? 0) || (Z.of_nat (length targets) <=? start) then 0%nat else Z.to_nat start.

Definition ListFirst (targets : list Target) (start : Z) : (list_error + list string) * nat :=
  match targets with
  | [] => (inl errNoTargets, 0%nat)
  | _ => try_from targets (clamp_start targets start) 0 (length targets) errNoTargets
  end.

End list_first.

(** ** Specification and lemmas *)

Definition names (cls : list Cluster) : list string := Name <$> cls.

(** No two clusters of the registry share a name. *)
Definition registry_ok (c : ClustersFromConfig) : Prop :=
  NoDup (names (static c)) ∧
  (∀ s cls, discovered c !! s = Some cls → NoDup (names cls) ∧ (names cls) ## (names (static c))) ∧
  (∀ s1 s2 l1 l2, s1 ≠ s2 → discovered c !! s1 = Some l1 → discovered c !! s2 = Some l2 → names l1 ## names l2).

Lemma taken_by_elem ns cls n : n ∈ taken_by ns cls ↔ n ∈ ns ∨ n ∈ names cls.
Proof.
  unfold taken_by, names. revert ns. induction cls as [|cl cls IH]; intros ns; cbn [foldl]; [cbn; set_solver|].
  rewrite IH, fmap_cons. set_solver.
Qed.

Lemma accept_spec taken cls accepted rejected :
  accept taken cls = (accepted, rejected) →
  accepted `sublist_of` cls ∧ names cls ≡ₚ names accepted ++ rejected ∧
  NoDup (names accepted) ∧ (∀ n, n ∈ names accepted → n ∉ taken) ∧
  (∀ n, n ∈ rejected → n ∈ taken ∨ n ∈ names accepted).
Proof.
  revert taken accepted rejected. unfold names. induction cls as [|cl cls IH]; intros taken acc rej; cbn [accept].
  { intros [= <- <-]. cbn. split_and!; [done|done|constructor|set_solver..]. }
  case_decide as Hin; destruct (accept _ cls) as [acc' rej'] eqn:Ha; intros [= <- <-];
    destruct (IH _ _ _ Ha) as (Hsub & Hperm & Hnd & Hout & Hrej).
  - split_and!; [by constructor| |done|done|set_solver]. rewrite fmap_cons, Hperm. by rewrite Permutation_middle.
  - rewrite !fmap_cons. split_and!; [by constructor|by rewrite Hperm| | |].
    + constructor; [|done]. intros Hn%Hout. set_solver.
    + intros n [->|Hn]%elem_of_cons; [done|]. apply Hout in Hn. set_solver.
    + intros n Hn. destruct (Hrej n Hn); set_solver.
Qed.

Section registry_lemmas.
Context {R : MapRange}.

Lemma map_range_lookup {K V} `{Countable K} site (m : gmap K V) k v : (k, v) ∈ map_range site m ↔ m !! k = Some v.
Proof. rewrite map_range_perm. apply elem_of_map_to_list. Qed.

Lemma taken_fold_elem (l : list (string * list Cluster)) source ns n :
  n ∈ foldl (λ t '(key, cls), if decide (key = source) then t else taken_by t cls) ns l ↔
  n ∈ ns ∨ ∃ s cls, (s, cls) ∈ l ∧ s ≠ source ∧ n ∈ names cls.
Proof.
  revert ns. induction l as [|[s cls] l IH]; intros ns; cbn [foldl]; [set_solver|]. rewrite IH.
  case_decide as Hs; [subst; set_solver|]. rewrite taken_by_elem. set_solver.
Qed.

Lemma taken_names_elem c source n :
  n ∈ taken_names c source ↔
  n ∈ names (static c) ∨ ∃ s cls, s ≠ source ∧ discovered c !! s = Some cls ∧ n ∈ names cls.
Proof.
  unfold taken_names. rewrite taken_fold_elem, taken_by_elem. setoid_rewrite map_range_lookup. set_solver.
Qed.

Lemma sorted_sources_perm c : sorted_sources c ≡ₚ (map_to_list (discovered c)).*1.
Proof. unfold sorted_sources. rewrite sort_slice_perm. by rewrite map_range_perm. Qed.

Lemma names_concat (ls : list (list Cluster)) n : n ∈ names (concat ls) ↔ ∃ l, l ∈ ls ∧ n ∈ names l.
Proof.
  unfold names. induction ls as [|l ls IH]; cbn [concat]; [set_solver|]. rewrite fmap_app, elem_of_app, IH. set_solver.
Qed.

Lemma Get_unique c : registry_ok c → NoDup (names (Get c)).
Proof.
  intros (Hst & Hsrc & Hdis). unfold Get, names. rewrite fmap_app. apply NoDup_app. split; [done|].
  assert (Hkeys : ∀ s, s ∈ sorted_sources c → is_Some (discovered c !! s)).
  { intros s. rewrite sorted_sources_perm. intros ([s' cls] & -> & Hin)%list_elem_of_fmap.
    apply elem_of_map_to_list in Hin. by eexists. }
  assert (Hnd : NoDup (sorted_sources c)) by (rewrite sorted_sources_perm; apply NoDup_fst_map_to_list).
  split.
  - intros n Hn Hn'. apply names_concat in Hn' as (l & (s & -> & Hs)%list_elem_of_fmap & Hnl).
    destruct (Hkeys s Hs) as [cls Hc]. rewrite Hc in Hnl. cbn in Hnl. destruct (Hsrc s cls Hc) as [_ Hd]. by apply (Hd n).
  - induction Hnd as [|s ss Hs Hss IH]; [constructor|]. rewrite fmap_cons. cbn [concat]. rewrite fmap_app. apply NoDup_app.
    destruct (Hkeys s) as [cls Hc]; [by left|]. rewrite Hc. cbn [default]. split; [by apply (Hsrc s cls Hc)|].
    split; [|apply IH; intros s' Hs'; apply Hkeys; by right].
    intros n Hn Hn'. apply names_concat in Hn' as (l & (s' & -> & Hs')%list_elem_of_fmap & Hnl).
    destruct (Hkeys s') as [cls' Hc']; [by right|]. rewrite Hc' in Hnl. cbn in Hnl.
    assert (Hne : s ≠ s') by (intros ->; done). by apply (Hdis s s' cls cls' Hne Hc Hc' n).
Qed.

Lemma Get_static c n : n ∈ names (static c) → n ∈ names (Get c).
Proof. intros Hn. unfold Get, names. rewrite fmap_app. apply elem_of_app. by left. Qed.

Lemma Get_source c s cls n : discovered c !! s = Some cls → n ∈ names cls → n ∈ names (Get c).
Proof.
  intros Hs Hn. unfold Get, names. rewrite fmap_app. apply elem_of_app. right. apply names_concat.
  exists cls. split; [|done]. apply list_elem_of_fmap. exists s. rewrite Hs. split; [done|].
  rewrite sorted_sources_perm. apply list_elem_of_fmap. exists (s, cls). split; [done|]. by apply elem_of_map_to_list.
Qed.

Lemma UpdateSource_spec c source cls rejected c' :
  registry_ok c → UpdateSource c source cls = (rejected, c') →
  registry_ok c' ∧ static c' = static c ∧
  (∀ s, s ≠ source → discovered c' !! s = discovered c !! s) ∧
  ∃ accepted, discovered c' !! source = Some accepted ∧ accepted `sublist_of` cls ∧
    names cls ≡ₚ names accepted ++ rejected ∧ ∀ n, n ∈ rejected → n ∈ names (Get c').
Proof.
  intros (Hst & Hsrc & Hdis). unfold UpdateSource. destruct (accept _ cls) as [acc rej] eqn:Ha. intros [= <- <-].
  apply accept_spec in Ha as (Hsub & Hperm & Hnd & Hout & Hrej).
  assert (Hfree : ∀ n, n ∈ names acc → (n ∉ names (static c)) ∧ (∀ s l, s ≠ source → discovered c !! s = Some l → n ∉ names l)).
  { intros n Hn%Hout. rewrite taken_names_elem in Hn. split; [tauto|]. intros s l Hs Hl Hnl. apply Hn. right. by exists s, l. }
  set (c' := mkClusters _ _).
  assert (Hok : registry_ok c').
  { split_and!; [done| |].
    - intros s l. cbn. destruct (decide (s = source)) as [->|Hs].
      + rewrite lookup_insert_eq. intros [= <-]. split; [done|]. intros n Hn Hn'. by apply Hfree in Hn as [? _].
      + rewrite lookup_insert_ne by done. apply Hsrc.
    - intros s1 s2 l1 l2 Hne. cbn. destruct (decide (s1 = source)) as [->|H1], (decide (s2 = source)) as [->|H2]; [done|..].
      + rewrite lookup_insert_eq, lookup_insert_ne by done. intros [= <-] Hl2 n Hn1 Hn2.
        apply Hfree in Hn1 as [_ Hf]. by apply (Hf s2 l2).
      + rewrite lookup_insert_eq, lookup_insert_ne by done. intros Hl1 [= <-] n Hn1 Hn2.
        apply Hfree in Hn2 as [_ Hf]. by apply (Hf s1 l1).
      + rewrite !lookup_insert_ne by done. by apply Hdis. }
  split; [done|]. split; [done|]. split; [intros s Hs; cbn; by rewrite lookup_insert_ne|].
  exists acc. split; [cbn; by rewrite lookup_insert_eq|]. split_and!; [done|done|].
  intros n [Hn|Hn]%Hrej.
  - apply taken_names_elem in Hn as [Hn|(s & l & Hs & Hl & Hn)]; [by apply Get_static|].
    eapply Get_source; [|exact Hn]. cbn. by rewrite lookup_insert_ne.
  - eapply Get_source; [|exact Hn]. cbn. apply lookup_insert_eq.
Qed.

End registry_lemmas.

Section list_first_lemmas.
Context (lister : nat → Target → option (list string)) (done_at : nat → bool).

(** The target of the [i]-th attempt, and that it failed. *)
Definition attempt (targets : list Target) (start i : nat) (t : Target) : Prop :=
  targets !! rotate start i (length targets) = Some t.

Definition fails_at (targets : list Target) (start i : nat) : Prop :=
  ∃ t, attempt targets start i t ∧ lister i t = None.

Lemma attempt_ex targets start i : targets ≠ [] → ∃ t, attempt targets start i t.
Proof.
  intros Hne. unfold attempt, rotate. apply lookup_lt_is_Some.
  apply Nat.mod_upper_bound. by destruct targets.
Qed.

Lemma rotate_perm n start : map (λ i, rotate start i n) (seq 0 n) ≡ₚ seq 0 n.
Proof.
  apply NoDup_Permutation_bis.
  - apply NoDup_ListNoDup. apply NoDup_fmap_2_strong; [|apply NoDup_seq]. intros i j Hi Hj.
    apply list_elem_of_In, in_seq in Hi. apply list_elem_of_In, in_seq in Hj. unfold rotate. intros He.
    pose proof (Nat.div_mod_eq (start + i) n). pose proof (Nat.div_mod_eq (start + j) n).
    assert ((start + i) / n = (start + j) / n)%nat as Hd; [|rewrite Hd in *; lia].
    nia.
  - rewrite length_map. lia.
  - intros x Hx. apply list_elem_of_In in Hx. apply list_elem_of_fmap in Hx as (i & -> & Hi). apply list_elem_of_In, in_seq in Hi.
    apply in_seq. unfold rotate. pose proof (Nat.mod_upper_bound (start + i) n). lia.
Qed.

(** What the loop returns after [k] attempts failed with the context alive. *)
Lemma try_from_spec targets start k fuel err r idx :
  targets ≠ [] → (0 < fuel)%nat → try_from lister done_at targets start k fuel err = (r, idx) →
  ∃ i t, (k ≤ i < k + fuel)%nat ∧ attempt targets start i t ∧
    (∀ j, (k ≤ j < i)%nat → fails_at targets start j ∧ done_at j = false) ∧
    match r with
    | inr names => lister i t = Some names ∧ idx = rotate start i (length targets)
    | inl e => lister i t = None ∧ (done_at i = true ∨ S i = (k + fuel)%nat) ∧ e = failed (t_Host t) ∧ idx = start
    end.
Proof.
  intros Hne. revert k err. induction fuel as [|fuel IH]; intros k err Hf; [lia|]. cbn [try_from].
  destruct (attempt_ex targets start k Hne) as [t Ht]. unfold attempt in Ht. rewrite Ht.
  destruct (lister k t) as [names|] eqn:Hl; [intros [= <- <-]; exists k, t; split_and!; [lia|lia|done|lia|done|done]|].
  destruct (done_at k) eqn:Hd; [intros [= <- <-]; exists k, t; split_and!; [lia|lia|done|lia|done|by left|done|done]|].
  destruct fuel as [|fuel].
  - intros [= <- <-]. exists k, t. split_and!; [lia|lia|done|lia|done|right; lia|done|done].
  - intros Hrun. destruct (IH (S k) (failed (t_Host t))) as (i & t' & Hi & Ht' & Hbefore & Hres); [lia|done|].
    exists i, t'. split; [lia|]. split; [done|]. split.
    + intros j Hj. destruct (decide (j = k)) as [->|]; [split; [by exists t|done]|]. apply Hbefore. lia.
    + destruct r; [|done]. destruct Hres as (? & [?|?] & ? & ?); split_and!; try done; [by left|right; lia].
Qed.

Lemma clamp_start_lt targets start : targets ≠ [] → (clamp_start targets start < length targets)%nat.
Proof.
  intros Hne. assert (0 < length targets)%nat by (destruct targets; [done|cbn; lia]).
  unfold clamp_start. destruct (Z.ltb_spec start 0), (Z.leb_spec (Z.of_nat (length targets)) start); cbn; lia.
Qed.

End list_first_lemmas.

(** ** Properties *)

Section properties.
Context {R : MapRange}.

(** The registry never holds two clusters of one name. In a registry without
    duplicates, one source's update replaces what that source had published by the
    clusters it was given, in their order, less those whose name another owner or an
    earlier one of them holds; these and only these are reported as rejected, and each of
    their names is held by some cluster of the result. Static clusters and the other
    sources are untouched, and the list [Get] returns has no duplicate. *)
Theorem UpdateSource_unique c source cls rejected c' :
  registry_ok c → UpdateSource c source cls = (rejected, c') →
  registry_ok c' ∧ NoDup (names (Get c')) ∧ static c' = static c ∧
  (∀ s, s ≠ source → discovered c' !! s = discovered c !! s) ∧
  ∃ accepted, discovered c' !! source = Some accepted ∧ accepted `sublist_of` cls ∧
    names cls ≡ₚ names accepted ++ rejected ∧ ∀ n, n ∈ rejected → n ∈ names (Get c').
Proof.
  intros Hok Hup. destruct (UpdateSource_spec _ _ _ _ _ Hok Hup) as (Hok' & Hrest).
  split; [done|]. split; [by apply Get_unique|done].
Qed.

(** [ListFirst] asks each target at most once, in rotation from the given start (from
    the first target when the start is out of range), and returns the names and the index
    of the first that answers. It gives up after the last target, or earlier only when the
    context is done, with the error of the last host asked and the start unchanged. The
    indices it would try are each of the targets exactly once. *)
Theorem ListFirst_rotates lister done_at targets start r idx :
  targets ≠ [] → ListFirst lister done_at targets start = (r, idx) →
  let n := length targets in let s := clamp_start targets start in
  (s < n)%nat ∧ (0 <= start < Z.of_nat n → Z.of_nat s = start) ∧ map (λ i, rotate s i n) (seq 0 n) ≡ₚ seq 0 n ∧
  ∃ i t, (i < n)%nat ∧ attempt targets s i t ∧
    (∀ j, (j < i)%nat → fails_at lister targets s j ∧ done_at j = false) ∧
    match r with
    | inr names => lister i t = Some names ∧ idx = rotate s i n
    | inl e => lister i t = None ∧ (done_at i = true ∨ S i = n) ∧ e = failed (t_Host t) ∧ idx = s
    end.
Proof.
  intros Hne Hrun n s.
  assert (Hpos : (0 < n)%nat) by (subst n; destruct targets; [done|cbn; lia]).
  assert (Htry : try_from lister done_at targets s 0 n errNoTargets = (r, idx)) by (subst n s; destruct targets; done).
  destruct (try_from_spec _ _ _ _ _ _ _ _ _ Hne Hpos Htry) as (i & t & Hi & Ht & Hbefore & Hres).
  split; [by apply clamp_start_lt|]. split.
  { intros [H1 H2]. subst n s. unfold clamp_start. rewrite (proj2 (Z.ltb_ge _ _)), (proj2 (Z.leb_gt _ _)) by lia. cbn. lia. }
  split; [apply rotate_perm|]. exists i, t. split; [lia|]. split; [done|]. split; [intros j Hj; apply Hbefore; lia|done].
Qed.

End properties.

(** ** Witnesses *)

Definition sample_cluster (name source : string) : Cluster :=
  mkCluster name "dasha" "" "" "5432" ["app"] ["h1"] ∅ source "" ∅ "".

Definition sample_registry : ClustersFromConfig :=
  mkClusters [sample_cluster "main" "static"] {["folder" := [sample_cluster "a" "yandex-mdb"]]}.

Lemma sample_registry_ok : registry_ok sample_registry.
Proof.
  split_and!; [apply (bool_decide_unpack _); by vm_compute| |].
  - intros s cls. cbn. rewrite lookup_singleton_Some. intros [<- <-].
    split; [apply (bool_decide_unpack _); by vm_compute|cbn; set_solver].
  - intros s1 s2 l1 l2 Hne. cbn. rewrite !lookup_singleton_Some. intros [<- <-] [<- <-]. done.
Qed.

Lemma UpdateSource_unique_witness :
  let p := UpdateSource (R := canonical_range) sample_registry "dcs"
    [sample_cluster "b" "patroni"; sample_cluster "a" "patroni"; sample_cluster "b" "patroni"] in
  p.1 = ["a"; "b"]%string ∧ NoDup (names (Get (R := canonical_range) p.2)).
Proof.
  cbv zeta. split; [by vm_compute|].
  apply (UpdateSource_unique (R := canonical_range) _ _ _ _ _ sample_registry_ok (surjective_pairing _)).
Defined.

Definition sample_target (h : string) : Target := mkTarget h "5432" "dasha" "" "postgres".

(** Only the host "a" answers; the search starts at the second of three. *)
Lemma ListFirst_rotates_witness :
  let lister (_ : nat) (t : Target) := if decide (t_Host t = "a"%string) then Some ["app"%string] else None in
  ListFirst lister (λ _, false) (sample_target <$> ["a"; "b"; "c"]%string) 1 = (inr ["app"%string], 0%nat) ∧
  fails_at lister (sample_target <$> ["a"; "b"; "c"]%string) 1 0.
Proof.
  cbv zeta. split; [by vm_compute|].
  edestruct (ListFirst_rotates (λ _ t, if decide (t_Host t = "a"%string) then Some ["app"%string] else None)
    (λ _, false) (sample_target <$> ["a"; "b"; "c"]%string) 1) as (_ & _ & _ & i & t & Hi & Ht & Hb & Hr); [done|by vm_compute|].
  destruct i as [|i]; [|by apply (Hb 0%nat); lia]. exfalso. vm_compute in Ht. injection Ht as <-. by destruct Hr.
Defined.
