(* ===== verification/PatroniLayout.v ===== *)
(** * [internal/discovery/patroni]: the keys of the DCS ([layout.go], [standby.go])

    [parseLayout] groups the keys Patroni keeps under a namespace into scopes, and
    [standbyOf] finds the cluster a standby scope replicates from. Byte strings are
    [string]s. The JSON parser, the URL parser and the Unicode tables of the standard
    library are fields of the class [GoText]. *)

From Stdlib Require Import Ascii.
From S2P Require Import Prelude GoFloat AutoConfig.
From stdpp Require Import options.

#[local] Set Default Proof Using "Type*".

(** ** Text *)

Record url := mkUrl { Scheme : string; Hostname : string; url_Port : string; query : string → string }.

(** [json.Unmarshal] into a tree, [url.Parse] (with [Query().Get]), [strings.ToLower] and
    [strings.EqualFold]; [None] is an error. *)
Class GoText := {
  parse_json : string → option json;
  url_Parse : string → option url;
  ToLower : string → string;
  EqualFold : string → string → bool
}.

(** [strings.Split] at one character. *)
Fixpoint Split (sep : Ascii.ascii) (s : string) : list string :=
  match s with
  | EmptyString => [""%string]
  | String c s' =>
      if decide (c = sep) then ""%string :: Split sep s'
      else match Split sep s' with p :: ps => String c p :: ps | [] => [] end
  end.

Fixpoint CutPrefix (s prefix : string) {struct prefix} : option string :=
  match prefix with
  | EmptyString => Some s
  | String p prefix' =>
      match s with
      | String c s' => if decide (c = p) then CutPrefix s' prefix' else None
      | EmptyString => None
      end
  end.

Definition HasPrefix (s prefix : string) : bool := bool_decide (is_Some (CutPrefix s prefix)).

(** Unicode's white space, in UTF-8. *)
Definition spaces : list (list Z) :=
  [[9]; [10]; [11]; [12]; [13]; [32]; [194; 133]; [194; 160]; [225; 154; 128]; [226; 128; 168]; [226; 128; 169];
   [226; 128; 175]; [226; 129; 159]; [227; 128; 128]] ++ ((λ i, [226; 128; 128 + Z.of_nat i]) <$> seq 0 11).

Definition bytes (s : string) : list Z := (λ c, Z.of_nat (Ascii.nat_of_ascii c)) <$> String.list_ascii_of_string s.
Definition of_bytes (l : list Z) : string :=
  String.string_of_list_ascii ((λ b, Ascii.ascii_of_nat (Z.to_nat b)) <$> l).

Fixpoint strip (pat l : list Z) : option (list Z) :=
  match pat with
  | [] => Some l
  | p :: pat' => match l with b :: l' => if b =? p then strip pat' l' else None | [] => None end
  end.

Fixpoint trim_left (pats : list (list Z)) (fuel : nat) (l : list Z) : list Z :=
  match fuel with
  | O => l
  | S fuel => match head (omap (λ pat, strip pat l) pats) with Some l' => trim_left pats fuel l' | None => l end
  end.

(** Every step of [trim_left] takes a byte away, so the length is enough fuel. *)
Definition TrimSpace (s : string) : string :=
  let l := trim_left spaces (String.length s) (bytes s) in
  of_bytes (reverse (trim_left (reverse <$> spaces) (length l) (reverse l))).

(** [strconv.Atoi]. *)
Definition Atoi (s : string) : option Z :=
  let in_range z := if decide (int64 z) then Some z else None in
  let unsigned (l : list Ascii.ascii) := if Nat.eqb (length l) 0 then None else digits_val 0 l in
  match String.list_ascii_of_string s with
  | [] => None
  | c :: l =>
      if is_char 45 c then (z ← unsigned l; in_range (- z))
      else if is_char 43 c then (z ← unsigned l; in_range z)
      else (z ← unsigned (c :: l); in_range z)
  end.

(** [cmp.Or] on strings. *)
Definition cmp_Or (a b : string) : string := if decide (a = ""%string) then b else a.

(** ** Data *)

Definition defaultPGPort : string := "5432".

Inductive addr_error := errNoAddress | errUnixSocket | errBadConnURL | errBadPort | errMemberValue.

Record member := mkMember { m_Name : string; m_Host : string; m_Port : string }.
Record hostPort := mkHostPort { hp_Host : string; hp_Port : string }.
Record scopeData := mkScope {
  s_Name : string;
  Members : list member;
  SysID : string;
  Standby : list hostPort;
  IsStandby : bool
}.
Record skippedMember := mkSkipped { sk_Scope : string; sk_Member : string; Reason : addr_error }.
Record kv := mkKv { kv_Key : string; kv_Value : string }.

#[global] Instance member_eq_dec : EqDecision member.
Proof. solve_decision. Defined.
#[global] Instance hostPort_eq_dec : EqDecision hostPort.
Proof. solve_decision. Defined.
#[global] Instance hostPort_countable : Countable hostPort.
Proof. refine (inj_countable' (λ a, (hp_Host a, hp_Port a)) (λ p, mkHostPort p.1 p.2) _). by intros []. Defined.

(** ** Addresses *)

Section layout.
Context {T : GoText} {R : MapRange}.

Definition splitList (s : string) : list string :=
  filter (λ part, part ≠ ""%string) (TrimSpace <$> Split ","%char s).

Definition firstOf (list : string) : string := default ""%string (head (splitList list)).

Definition validPort (p : string) : bool :=
  match Atoi p with Some n => (0 <? n) && (n <=? 65535) | None => false end.

(** A [json.RawMessage] is the value it holds, [None] when the key is absent. *)
Definition rawScalar (raw : option json) : string :=
  match raw with
  | Some (JString s) => TrimSpace s
  | Some (JNumber lit) => lit
  | _ => ""%string
  end.

(** Decoding an object into a struct, in the order of the text; [null] changes nothing. *)
Definition unmarshal_struct {S} (fs : fields S) (s : S) (j : json) : option S :=
  match j with
  | JNull => Some s
  | JObject es => foldl (decode_entry false fs) (Some s) es
  | _ => None
  end.

Definition unmarshal_string (j : json) (old : string) : option string :=
  match j with JNull => Some old | _ => decodeString j end.

Record conn_kwargs := mkKwargs { k_Host : string; k_Port : option json }.
Record member_value := mkMemberValue { ConnURL : string; ConnKwargs : conn_kwargs }.

(** A host and a port that is kept raw: [conn_kwargs] and [standby_cluster]. *)
Definition host_port_fields : fields conn_kwargs :=
  [("host"%string, λ j k, (λ h, mkKwargs h (k_Port k)) <$> unmarshal_string j (k_Host k));
   ("port"%string, λ j k, Some (mkKwargs (k_Host k) (Some j)))].

Definition member_fields : fields member_value :=
  [("conn_url"%string, λ j m, (λ u, mkMemberValue u (ConnKwargs m)) <$> unmarshal_string j (ConnURL m));
   ("conn_kwargs"%string, λ j m, mkMemberValue (ConnURL m) <$> unmarshal_struct host_port_fields (ConnKwargs m) j)].

Definition conn_address (m : member_value) : addr_error + (string * string) :=
  if decide (ConnURL m = ""%string) then inr (k_Host (ConnKwargs m), rawScalar (k_Port (ConnKwargs m)))
  else
    match url_Parse (ConnURL m) with
    | None => inl errBadConnURL
    | Some u =>
        if decide (Scheme u ∈ ["postgres"; "postgresql"]%string) then
          inr (cmp_Or (Hostname u) (query u "host"), cmp_Or (url_Port u) (query u "port"))
        else inl errBadConnURL
    end.

Definition memberAddr (value : string) : addr_error + (string * string) :=
  match parse_json value ≫= unmarshal_struct member_fields (mkMemberValue "" (mkKwargs "" None)) with
  | None => inl errMemberValue
  | Some m =>
      match conn_address m with
      | inl e => inl e
      | inr (host, port) =>
          let host := firstOf host in
          let port := firstOf port in
          if decide (host = ""%string) then inl errNoAddress
          else if HasPrefix host "/" then inl errUnixSocket
          else
            let port := if decide (port = ""%string) then defaultPGPort else port in
            if validPort port then inr (host, port) else inl errBadPort
      end
  end.

(** The port of the [i]-th of [n] hosts. *)
Definition standby_port (ports : list string) (n i : nat) : string :=
  if Nat.eqb (length ports) n then default defaultPGPort (ports !! i)
  else default defaultPGPort (head ports).

Definition standbyCluster (value : string) : bool * list hostPort :=
  let dyn := [("standby_cluster"%string, λ j (_ : option json), Some (Some j))] in
  match parse_json value ≫= unmarshal_struct dyn None with
  | None | Some None | Some (Some JNull) => (false, [])
  | Some (Some raw) =>
      match unmarshal_struct host_port_fields (mkKwargs "" None) raw with
      | None => (true, [])
      | Some sc =>
          let hosts := splitList (k_Host sc) in
          let ports := splitList (rawScalar (k_Port sc)) in
          (true, imap (λ i h, mkHostPort h (standby_port ports (length hosts) i)) hosts)
      end
  end.

(** ** Grouping keys into scopes *)

Inductive key_kind := KMember (name : string) | KConfig | KInitialize.

(** The switch of [parseLayout]: the scope and the kind of a key of the layout. *)
Definition parse_key (prefix key : string) : option (string * key_kind) :=
  rest ← CutPrefix key prefix;
  match Split "/"%char rest with
  | [] => None
  | sc :: parts =>
      if decide (sc = ""%string) then None
      else
        match parts with
        | [kind; name] =>
            if decide (kind = "members"%string ∧ name ≠ ""%string) then Some (sc, KMember name) else None
        | [kind] =>
            if decide (kind = "config"%string) then Some (sc, KConfig)
            else if decide (kind = "initialize"%string) then Some (sc, KInitialize) else None
        | _ => None
        end
  end.

Definition empty_scope (name : string) : scopeData := mkScope name [] "" [] false.

Definition get_scope (byName : gmap string scopeData) (name : string) : scopeData :=
  default (empty_scope name) (byName !! name).

Definition layout_step (prefix : string) (st : gmap string scopeData * list skippedMember) (item : kv) :
    gmap string scopeData * list skippedMember :=
  let '(byName, skipped) := st in
  match parse_key prefix (kv_Key item) with
  | None => st
  | Some (sc, KMember name) =>
      match memberAddr (kv_Value item) with
      | inl err => (byName, skipped ++ [mkSkipped sc name err])
      | inr (host, port) =>
          let s := get_scope byName sc in
          (<[sc := mkScope (s_Name s) (Members s ++ [mkMember name host port]) (SysID s) (Standby s) (IsStandby s)]> byName,
           skipped)
      end
  | Some (sc, KConfig) =>
      let s := get_scope byName sc in
      let '(isStandby, standby) := standbyCluster (kv_Value item) in
      (<[sc := mkScope (s_Name s) (Members s) (SysID s) standby isStandby]> byName, skipped)
  | Some (sc, KInitialize) =>
      let s := get_scope byName sc in
      (<[sc := mkScope (s_Name s) (Members s) (TrimSpace (kv_Value item)) (Standby s) (IsStandby s)]> byName, skipped)
  end.

Definition member_less (a b : member) : bool := str_ltb (m_Name a) (m_Name b).
Definition scope_less (a b : scopeData) : bool := str_ltb (s_Name a) (s_Name b).
Definition skipped_key (a : skippedMember) : string := (sk_Scope a +:+ "/" +:+ sk_Member a)%string.
Definition skipped_less (a b : skippedMember) : bool := str_ltb (skipped_key a) (skipped_key b).

Definition sort_members (s : scopeData) : scopeData :=
  mkScope (s_Name s) (sort_slice member_less (Members s)) (SysID s) (Standby s) (IsStandby s).

Definition parseLayout (kvs : list kv) (prefix : string) : list scopeData * list skippedMember :=
  let '(byName, skipped) := foldl (layout_step prefix) (∅, []) kvs in
  let scopes := filter (λ s, Members s ≠ []) (snd <$> map_range "parseLayout" byName) in
  (sort_slice scope_less (sort_members <$> scopes), sort_slice skipped_less skipped).

(** ** Standby clusters *)

Fixpoint sysid_loop (s : scopeData) (found : string) (scopes : list scopeData) : option string :=
  match scopes with
  | [] => Some found
  | c :: scopes' =>
      if decide (s_Name c = s_Name s) then sysid_loop s found scopes'
      else if IsStandby c then sysid_loop s found scopes'
      else if decide (SysID c ≠ SysID s) then sysid_loop s found scopes'
      else if decide (found ≠ ""%string) then None
      else sysid_loop s (s_Name c) scopes'
  end.

Definition nonempty (found : option string) : option string :=
  n ← found; if decide (n = ""%string) then None else Some n.

Definition bySysID (s : scopeData) (scopes : list scopeData) : option string :=
  if decide (SysID s = ""%string) then None else nonempty (sysid_loop s "" scopes).

Definition hasMemberAt (s : scopeData) (target : hostPort) : bool :=
  existsb (λ m, EqualFold (m_Host m) (hp_Host target) && bool_decide (m_Port m = hp_Port target)) (Members s).

Fixpoint addr_inner (s : scopeData) (target : hostPort) (found : string) (scopes : list scopeData) : option string :=
  match scopes with
  | [] => Some found
  | c :: scopes' =>
      if decide (s_Name c = s_Name s) then addr_inner s target found scopes'
      else if decide (s_Name c = found) then addr_inner s target found scopes'
      else if negb (hasMemberAt c target) then addr_inner s target found scopes'
      else if decide (found ≠ ""%string) then None
      else addr_inner s target (s_Name c) scopes'
  end.

Fixpoint addr_loop (s : scopeData) (targets : list hostPort) (found : string) (scopes : list scopeData) : option string :=
  match targets with
  | [] => Some found
  | target :: targets' => f ← addr_inner s target found scopes; addr_loop s targets' f scopes
  end.

Definition byAddress (s : scopeData) (scopes : list scopeData) : option string :=
  nonempty (addr_loop s (Standby s) "" scopes).

Definition primary_of (s : scopeData) (scopes : list scopeData) : option string :=
  match bySysID s scopes with Some p => Some p | None => byAddress s scopes end.

Definition standby_step (scopes : list scopeData) (names : gmap string string) (out : gmap string string)
    (s : scopeData) : gmap string string :=
  if IsStandby s then
    match primary_of s scopes with
    | Some primary => <[s_Name s := default ""%string (names !! primary)]> out
    | None => out
    end
  else out.

Definition standbyOf (scopes : list scopeData) (names : gmap string string) : gmap string string :=
  foldl (standby_step scopes names) ∅ scopes.

End layout.

Example TrimSpace_example : TrimSpace (of_bytes [32; 194; 160; 97; 32; 98; 226; 128; 137; 10]) = "a b"%string.
Proof. by vm_compute. Qed.

Example parse_key_example :
  parse_key "/service/" "/service/main/members/pg-1" = Some ("main"%string, KMember "pg-1") ∧
  parse_key "/service/" "/service/main/0/members/pg-1" = None ∧ parse_key "/service/" "/service2/main/config" = None.
Proof. by vm_compute. Qed.

(** ** Lemmas on text *)

(** No slash in the string. *)
Definition plain (s : string) : Prop := "/"%char ∉ String.list_ascii_of_string s.

Lemma CutPrefix_Some s p r : CutPrefix s p = Some r ↔ s = (p +:+ r)%string.
Proof.
  revert s. induction p as [|c p IH]; intros s; cbn [CutPrefix].
  - split; [by intros [= ->]|by intros ->].
  - destruct s as [|c' s]; [done|]. case_decide as Hc; [subst; rewrite IH; split; [by intros ->|by intros [= ->]]|].
    split; [done|]. cbn. intros Heq. by injection Heq as -> ->.
Qed.

Lemma CutPrefix_app p r : CutPrefix (p +:+ r) p = Some r.
Proof. by apply CutPrefix_Some. Qed.

Lemma Split_plain s : plain s → Split "/"%char s = [s].
Proof.
  unfold plain. induction s as [|c s IH]; [done|]. cbn. rewrite not_elem_of_cons. intros [Hc Hs].
  rewrite decide_False by done. by rewrite IH.
Qed.

Lemma Split_cons a s : plain a → Split "/"%char (a +:+ String "/"%char s) = a :: Split "/"%char s.
Proof.
  unfold plain. induction a as [|c a IH]; [done|]. change (String c a +:+ String "/"%char s)%string with (String c (a +:+ String "/"%char s)).
  cbn. rewrite not_elem_of_cons. intros [Hc Ha]. rewrite decide_False by done. by rewrite IH.
Qed.

(** Splitting loses nothing: the parts are plain, joining them gives the string back. *)
Fixpoint join_slash (l : list string) : string :=
  match l with
  | [] => ""
  | [a] => a
  | a :: l => (a +:+ String "/"%char (join_slash l))%string
  end.

Lemma Split_join s : join_slash (Split "/"%char s) = s ∧ Forall plain (Split "/"%char s) ∧ Split "/"%char s ≠ [].
Proof.
  induction s as [|c s (Hj & Hp & Hne)]; cbn [Split].
  { split_and!; [done| |done]. repeat constructor. unfold plain. cbn. set_solver. }
  destruct (Split "/"%char s) as [|p ps]; [done|]. inversion Hp as [|? ? Hp1 Hps]; subst.
  case_decide as Hc.
  - split_and!; [|constructor; [unfold plain; cbn; set_solver|done]|done]. rewrite Hc. by destruct ps.
  - split_and!; [by destruct ps| |done].
    constructor; [|done]. unfold plain in *. cbn. set_solver.
Qed.

(** The key of an entry of the layout under a prefix. *)
Definition key_of (prefix sc : string) (k : key_kind) : string :=
  prefix +:+ sc +:+
  match k with
  | KMember name => "/members/" +:+ name
  | KConfig => "/config"
  | KInitialize => "/initialize"
  end.

Definition kind_ok (k : key_kind) : Prop :=
  match k with KMember name => name ≠ ""%string ∧ plain name | _ => True end.

Lemma parse_key_spec prefix key sc k :
  parse_key prefix key = Some (sc, k) ↔ key = key_of prefix sc k ∧ sc ≠ ""%string ∧ plain sc ∧ kind_ok k.
Proof.
  unfold parse_key, key_of. split.
  - destruct (CutPrefix key prefix) as [rest|] eqn:Hcut; [|done]. cbn [mbind option_bind].
    apply CutPrefix_Some in Hcut as ->. destruct (Split_join rest) as (Hj & Hp & Hne).
    destruct (Split _ rest) as [|sc' parts]; [done|]. inversion Hp as [|? ? Hp1 Hp2]; subst.
    case_decide as Hsc; [done|]. destruct parts as [|kind [|name [|]]]; cbn; [done| | |done].
    + case_decide; [intros [= <- <-]; by subst|]. case_decide; [intros [= <- <-]; by subst|done].
    + case_decide as Hn; [|done]. intros [= <- <-]. destruct Hn as [-> Hn].
      inversion Hp2 as [|? ? ? Hp3]; subst. inversion Hp3; subst. by split_and!.
  - intros (-> & Hsc & Hpl & Hk). rewrite CutPrefix_app. cbn [mbind option_bind].
    destruct k as [name| |].
    + destruct Hk as [Hn Hpn].
      replace (sc +:+ "/members/" +:+ name)%string
        with (sc +:+ String "/"%char ("members" +:+ String "/"%char name))%string by done.
      rewrite (Split_cons sc), (Split_cons "members"), (Split_plain name) by (done || apply (bool_decide_unpack _); by vm_compute).
      rewrite decide_False by done. by rewrite decide_True.
    + change "/config"%string with (String "/"%char "config").
      rewrite (Split_cons sc), (Split_plain "config") by (done || apply (bool_decide_unpack _); by vm_compute).
      by rewrite decide_False.
    + change "/initialize"%string with (String "/"%char "initialize").
      rewrite (Split_cons sc), (Split_plain "initialize") by (done || apply (bool_decide_unpack _); by vm_compute).
      by rewrite decide_False.
Qed.

Lemma key_of_inj prefix sc1 k1 sc2 k2 :
  sc1 ≠ ""%string → plain sc1 → kind_ok k1 → sc2 ≠ ""%string → plain sc2 → kind_ok k2 →
  key_of prefix sc1 k1 = key_of prefix sc2 k2 → sc1 = sc2 ∧ k1 = k2.
Proof.
  intros H1 H2 H3 H4 H5 H6 Heq.
  assert (Hp : parse_key prefix (key_of prefix sc1 k1) = Some (sc1, k1)) by by apply parse_key_spec.
  rewrite Heq in Hp. assert (Hq : parse_key prefix (key_of prefix sc2 k2) = Some (sc2, k2)) by by apply parse_key_spec.
  rewrite Hp in Hq. by injection Hq.
Qed.

(** ** What a list of keys says about a scope *)

Section layout_spec.
Context {T : GoText} {R : MapRange} (prefix : string).

Definition member_in (sc : string) (item : kv) : option member :=
  match parse_key prefix (kv_Key item) with
  | Some (sc', KMember name) =>
      if decide (sc' = sc) then
        match memberAddr (kv_Value item) with inr a => Some (mkMember name a.1 a.2) | inl _ => None end
      else None
  | _ => None
  end.

Definition value_in (sc : string) (k : key_kind) (item : kv) : option string :=
  match parse_key prefix (kv_Key item), k with
  | Some (sc', KConfig), KConfig => if decide (sc' = sc) then Some (kv_Value item) else None
  | Some (sc', KInitialize), KInitialize => if decide (sc' = sc) then Some (kv_Value item) else None
  | _, _ => None
  end.

Definition skipped_in (item : kv) : option skippedMember :=
  match parse_key prefix (kv_Key item) with
  | Some (sc, KMember name) =>
      match memberAddr (kv_Value item) with inl e => Some (mkSkipped sc name e) | inr _ => None end
  | _ => None
  end.

Definition scope_of (l : list kv) (sc : string) : scopeData :=
  let config := from_option standbyCluster (false, []) (last (omap (value_in sc KConfig) l)) in
  mkScope sc (omap (member_in sc) l) (from_option TrimSpace ""%string (last (omap (value_in sc KInitialize) l)))
    config.2 config.1.

Lemma layout_step_spec l item byName skipped :
  (∀ sc, get_scope byName sc = scope_of l sc) → skipped = omap skipped_in l →
  let st := layout_step prefix (byName, skipped) item in
  (∀ sc, get_scope st.1 sc = scope_of (l ++ [item]) sc) ∧ st.2 = omap skipped_in (l ++ [item]).
Proof.
  intros Hget ->. cbv zeta. unfold layout_step, scope_of, get_scope in *.
  split; [intros sc; specialize (Hget sc) as Hsc|]; rewrite ?omap_app; cbn [omap list_omap];
    unfold skipped_in, member_in, value_in; destruct (parse_key prefix (kv_Key item)) as [[sc' [name| |]]|] eqn:Hk;
    rewrite ?Hk; rewrite ?app_nil_r; try done.
  - destruct (memberAddr (kv_Value item)) as [e|[h p]]; cbn; [case_decide; by rewrite app_nil_r|].
    specialize (Hget sc') as Hsc'. case_decide as Hs; [subst; by rewrite lookup_insert_eq; cbn; rewrite Hsc'|].
    rewrite lookup_insert_ne by done. by rewrite app_nil_r.
  - specialize (Hget sc') as Hsc'. destruct (standbyCluster (kv_Value item)) as [st hp] eqn:Hst. cbn.
    case_decide as Hs; [subst; rewrite lookup_insert_eq, last_snoc; cbn; rewrite Hsc', Hst; cbn; done|].
    rewrite lookup_insert_ne by done. by rewrite app_nil_r.
  - specialize (Hget sc') as Hsc'. cbn.
    case_decide as Hs; [subst; rewrite lookup_insert_eq, last_snoc; cbn; by rewrite Hsc'|].
    rewrite lookup_insert_ne by done. by rewrite app_nil_r.
  - by destruct (memberAddr (kv_Value item)) as [e|[h p]]; cbn; rewrite ?app_nil_r.
  - by destruct (standbyCluster (kv_Value item)).
Qed.

Lemma layout_fold_spec l byName skipped :
  foldl (layout_step prefix) (∅, []) l = (byName, skipped) →
  (∀ sc, get_scope byName sc = scope_of l sc) ∧ skipped = omap skipped_in l.
Proof.
  revert byName skipped. induction l as [|item l IH] using rev_ind; intros byName skipped.
  { cbn. intros [= <- <-]. split; [|done]. intros sc. unfold get_scope. by rewrite lookup_empty. }
  rewrite foldl_snoc. destruct (foldl _ _ l) as [byName' skipped'] eqn:Hl. destruct (IH _ _ eq_refl) as [Hget Hsk].
  intros Hstep. pose proof (layout_step_spec l item byName' skipped' Hget Hsk) as Hs. by rewrite Hstep in Hs.
Qed.

Lemma member_in_spec sc item m :
  member_in sc item = Some m ↔
  kv_Key item = key_of prefix sc (KMember (m_Name m)) ∧ sc ≠ ""%string ∧ plain sc ∧ kind_ok (KMember (m_Name m)) ∧
  memberAddr (kv_Value item) = inr (m_Host m, m_Port m).
Proof.
  unfold member_in. split.
  - destruct (parse_key _ _) as [[sc' [name| |]]|] eqn:Hk; try done. case_decide; [|done]. subst sc'.
    destruct (memberAddr _) as [|[h p]] eqn:Ha; [done|]. intros [= <-]. cbn [m_Name m_Host m_Port].
    apply parse_key_spec in Hk. by destruct Hk as (? & ? & ? & ?).
  - intros (Hkey & Hsc & Hpl & Hok & Ha).
    assert (Hk : parse_key prefix (kv_Key item) = Some (sc, KMember (m_Name m))) by by apply parse_key_spec.
    rewrite Hk, decide_True, Ha by done. by destruct m.
Qed.

Lemma value_in_spec sc k item v :
  k = KConfig ∨ k = KInitialize →
  value_in sc k item = Some v ↔ item = mkKv (key_of prefix sc k) v ∧ sc ≠ ""%string ∧ plain sc.
Proof.
  intros Hkk. unfold value_in. destruct item as [key value]. cbn [kv_Key kv_Value]. split.
  - destruct (parse_key _ _) as [[sc' kind]|] eqn:Hk; [|done]. apply parse_key_spec in Hk as (-> & Hsc & Hpl & _).
    destruct Hkk as [-> | ->], kind; try done; case_decide; try done; intros [= <-]; by subst.
  - intros ([= -> ->] & Hsc & Hpl).
    assert (Hk : parse_key prefix (key_of prefix sc k) = Some (sc, k)).
    { apply parse_key_spec. split_and!; [done..|]. by destruct Hkk as [-> | ->]. }
    rewrite Hk. by destruct Hkk as [-> | ->]; rewrite decide_True.
Qed.

Lemma sort_members_nonempty s : Members s ≠ [] ↔ Members (sort_members s) ≠ [].
Proof. cbn [Members sort_members]. rewrite <- !length_zero_iff_nil. by rewrite sort_slice_length. Qed.

(** With distinct keys there is one value, whatever the order. *)
Lemma last_value {A} (f : string → A) (d : A) sc k l :
  k = KConfig ∨ k = KInitialize → NoDup (kv_Key <$> l) →
  (∀ v, mkKv (key_of prefix sc k) v ∈ l → sc ≠ ""%string → plain sc →
    from_option f d (last (omap (value_in sc k) l)) = f v) ∧
  ((∀ v, mkKv (key_of prefix sc k) v ∉ l) → from_option f d (last (omap (value_in sc k) l)) = d).
Proof.
  intros Hk Hnd. split.
  - intros v Hv Hsc Hpl. destruct (last _) as [v'|] eqn:Hl.
    + cbn. f_equal. apply last_Some_elem_of in Hl. apply list_elem_of_omap in Hl as (item & Hit & Hval).
      apply value_in_spec in Hval as (-> & _ & _); [|done].
      apply list_elem_of_lookup in Hit as [i Hi]. apply list_elem_of_lookup in Hv as [j Hj].
      assert (i = j) as ->; [|by rewrite Hi in Hj; injection Hj].
      apply (NoDup_lookup _ _ _ (key_of prefix sc k) Hnd); by rewrite list_lookup_fmap, ?Hi, ?Hj.
    + apply last_None in Hl. exfalso.
      assert (v ∈ omap (value_in sc k) l) as Hin; [|rewrite Hl in Hin; by apply elem_of_nil in Hin].
      apply list_elem_of_omap. eexists. split; [exact Hv|]. by apply value_in_spec.
  - intros Hno. destruct (last _) as [v'|] eqn:Hl; [|done]. exfalso.
    apply last_Some_elem_of in Hl. apply list_elem_of_omap in Hl as (item & Hit & Hval).
    apply value_in_spec in Hval as (-> & _ & _); [|done]. by apply (Hno v').
Qed.

Lemma member_names_nodup sc l : NoDup (kv_Key <$> l) → NoDup (m_Name <$> omap (member_in sc) l).
Proof.
  induction l as [|item l IH]; [constructor|]. rewrite fmap_cons, NoDup_cons. intros [Hk Hnd].
  cbn [omap list_omap]. destruct (member_in sc item) as [m|] eqn:Hm; [|by apply IH].
  rewrite fmap_cons. constructor; [|by apply IH]. intros (m' & Hn & Hin)%list_elem_of_fmap.
  apply list_elem_of_omap in Hin as (item' & Hit & Hm'). apply member_in_spec in Hm as [Hkey _].
  apply member_in_spec in Hm' as [Hkey' _]. apply Hk. rewrite Hkey, Hn, <- Hkey'. by apply list_elem_of_fmap_2.
Qed.

End layout_spec.

(** ** Lemmas on sorting by a string *)

Section by_name.
Context {A : Type} (f : A → string).

Definition by_name (a b : A) : bool := str_ltb (f a) (f b).

#[global] Instance by_name_weak : StrictWeak by_name.
Proof. split; unfold by_name; [intros ??; apply str_ltb_asym|intros ???; apply str_ltb_neg_trans]. Qed.

(** Strictly increasing names. *)
Definition ordered (l : list A) : Prop := StronglySorted (λ a b, str_ltb (f a) (f b) = true) l.

Lemma sort_ordered l : NoDup (f <$> l) → ordered (sort_slice by_name l).
Proof.
  intros Hnd. assert (Hnd' : NoDup (f <$> sort_slice by_name l)) by by rewrite sort_slice_perm.
  pose proof (sort_slice_sorted by_name l) as Hs. revert Hs Hnd'. unfold ordered.
  induction 1 as [|x l' Hs IH Hall]; [constructor|]. rewrite fmap_cons, NoDup_cons. intros [Hx Hnd'].
  constructor; [by apply IH|]. rewrite list.Forall_forall in Hall |- *. intros y Hy.
  specialize (Hall y Hy). unfold not_less, by_name in Hall. destruct (str_ltb (f x) (f y)) eqn:Hlt; [done|].
  exfalso. apply Hx. rewrite (str_ltb_antisym _ _ Hlt Hall). by apply list_elem_of_fmap_2.
Qed.

Lemma ordered_nodup l : ordered l → NoDup (f <$> l).
Proof.
  induction 1 as [|x l Hs IH Hall]; [constructor|]. rewrite fmap_cons. constructor; [|done].
  intros (y & Heq & Hy)%list_elem_of_fmap. rewrite list.Forall_forall in Hall. specialize (Hall y Hy). cbn in Hall.
  by rewrite <- Heq, str_ltb_irrefl in Hall.
Qed.

End by_name.

Section layout_result.
Context {T : GoText} {R : MapRange}.

(** The scopes of a layout, before they are sorted. *)
Lemma layout_scopes prefix kvs scopes skipped :
  NoDup (kv_Key <$> kvs) → parseLayout kvs prefix = (scopes, skipped) →
  ordered s_Name scopes ∧ skipped ≡ₚ omap (skipped_in prefix) kvs ∧
  (∀ s, s ∈ scopes ↔ ∃ sc, s = sort_members (scope_of prefix kvs sc) ∧ Members (scope_of prefix kvs sc) ≠ []).
Proof.
  intros Hnd. unfold parseLayout. destruct (foldl _ _ kvs) as [byName sk] eqn:Hf.
  destruct (layout_fold_spec _ _ _ _ Hf) as [Hget ->]. intros [= <- <-].
  assert (Hlook : ∀ sc s, byName !! sc = Some s → s = scope_of prefix kvs sc).
  { intros sc s Hs. rewrite <- Hget. unfold get_scope. by rewrite Hs. }
  set (found := filter (λ s, Members s ≠ []) (snd <$> map_range "parseLayout" byName)).
  assert (Hfound : ∀ s, s ∈ found ↔ ∃ sc, s = scope_of prefix kvs sc ∧ Members s ≠ []).
  { intros s. subst found. rewrite list_elem_of_filter. split.
    - intros [Hm Hs]. apply list_elem_of_fmap in Hs as ([sc s'] & -> & Hin). apply elem_of_map_range in Hin.
      exists sc. split; [by apply Hlook|done].
    - intros (sc & Hs & Hm). split; [done|]. apply list_elem_of_fmap. exists (sc, s). split; [done|].
      apply elem_of_map_range. specialize (Hget sc). unfold get_scope in Hget.
      destruct (byName !! sc) as [s'|] eqn:Hb; [by rewrite Hs, <- Hget|]. exfalso. apply Hm. by rewrite Hs, <- Hget. }
  split; [|split; [apply sort_slice_perm|]].
  - apply (sort_ordered s_Name). rewrite <- list_fmap_compose. change (s_Name ∘ sort_members) with s_Name.
    assert (Hsub : sublist (s_Name <$> found) (s_Name <$> (snd <$> map_range "parseLayout" byName)))
      by apply fmap_sublist, sublist_filter.
    eapply sublist_NoDup; [|exact Hsub]. rewrite <- list_fmap_compose.
    replace ((s_Name ∘ snd) <$> map_range "parseLayout" byName) with (map_range "parseLayout" byName).*1;
      [apply map_range_nodup|].
    apply list_fmap_ext. intros i [sc s] Hi. apply list_elem_of_lookup_2, elem_of_map_range in Hi. cbn.
    by rewrite (Hlook sc s Hi).
  - intros s. rewrite elem_of_sort_slice. rewrite list_elem_of_fmap. split.
    + intros (s' & -> & (sc & -> & Hm)%Hfound). by exists sc.
    + intros (sc & -> & Hm). exists (scope_of prefix kvs sc). split; [done|]. apply Hfound. by exists sc.
Qed.

Lemma sort_members_ordered prefix kvs sc :
  NoDup (kv_Key <$> kvs) → ordered m_Name (Members (sort_members (scope_of prefix kvs sc))).
Proof. intros Hnd. by apply (sort_ordered m_Name), member_names_nodup. Qed.

Lemma last_value_perm {A} (f : string → A) (d : A) prefix sc k l1 l2 :
  k = KConfig ∨ k = KInitialize → NoDup (kv_Key <$> l1) → l1 ≡ₚ l2 →
  from_option f d (last (omap (value_in prefix sc k) l1)) = from_option f d (last (omap (value_in prefix sc k) l2)).
Proof.
  intros Hk Hnd Hp. assert (Hnd2 : NoDup (kv_Key <$> l2)) by by rewrite <- Hp.
  destruct (omap (value_in prefix sc k) l1) as [|v vs] eqn:Ho.
  - assert (Ho2 : omap (value_in prefix sc k) l2 = []) by (apply Permutation_nil_r; by rewrite <- Ho, Hp).
    by rewrite Ho2.
  - rewrite <- Ho. assert (Hv : v ∈ omap (value_in prefix sc k) l1) by (rewrite Ho; by left).
    apply list_elem_of_omap in Hv as (item & Hit & Hval). apply value_in_spec in Hval as (-> & Hsc & Hpl); [|done].
    rewrite (proj1 (last_value _ _ _ _ _ _ Hk Hnd) v) by done.
    rewrite (proj1 (last_value _ _ _ _ _ _ Hk Hnd2) v); [done|by rewrite <- Hp|done|done].
Qed.

Lemma scope_of_perm prefix l1 l2 sc :
  NoDup (kv_Key <$> l1) → l1 ≡ₚ l2 → sort_members (scope_of prefix l1 sc) = sort_members (scope_of prefix l2 sc).
Proof.
  intros Hnd Hp. unfold sort_members, scope_of. cbn [s_Name Members SysID Standby IsStandby].
  rewrite !(last_value_perm _ _ _ _ _ _ _ (or_introl eq_refl) Hnd Hp),
    (last_value_perm _ _ _ _ _ _ _ (or_intror eq_refl) Hnd Hp).
  f_equal. apply (sort_slice_unique (by_name m_Name)); [by rewrite Hp|].
  intros x y Hx Hy Hxy Hyx. assert (Hn : m_Name x = m_Name y) by by apply str_ltb_antisym.
  pose proof (member_names_nodup prefix sc l1 Hnd) as Hnodup.
  apply list_elem_of_lookup in Hx as [i Hi]. apply list_elem_of_lookup in Hy as [j Hj].
  assert (i = j) as ->; [|by rewrite Hi in Hj; injection Hj].
  apply (NoDup_lookup _ _ _ (m_Name x) Hnodup); rewrite list_lookup_fmap; [by rewrite Hi|by rewrite Hj, Hn].
Qed.

Lemma ordered_unique {A} (f : A → string) (l1 l2 : list A) :
  ordered f l1 → ordered f l2 → (∀ x, x ∈ l1 ↔ x ∈ l2) → l1 = l2.
Proof.
  intros H1 H2 Hel. apply (StronglySorted_unique_strong (λ a b, str_ltb (f a) (f b) = true)); [|done|done|].
  - intros x y _ _ Hxy Hyx. apply str_ltb_asym in Hxy. by rewrite Hxy in Hyx.
  - apply NoDup_Permutation; [by eapply NoDup_fmap_1, ordered_nodup..|done].
Qed.

End layout_result.

(** A layout does not depend on the order of the keys. *)
Lemma layout_order `{GoText} (R1 R2 : MapRange) kvs1 kvs2 prefix :
  NoDup (kv_Key <$> kvs1) → kvs1 ≡ₚ kvs2 →
  (parseLayout (R := R1) kvs1 prefix).1 = (parseLayout (R := R2) kvs2 prefix).1.
Proof.
  intros Hnd Hp. assert (Hnd2 : NoDup (kv_Key <$> kvs2)) by by rewrite <- Hp.
  destruct (@layout_scopes _ R1 prefix kvs1 _ _ Hnd (surjective_pairing _)) as (Ho1 & _ & He1).
  destruct (@layout_scopes _ R2 prefix kvs2 _ _ Hnd2 (surjective_pairing _)) as (Ho2 & _ & He2).
  apply (ordered_unique s_Name); [done|done|]. intros s. rewrite He1, He2.
  setoid_rewrite sort_members_nonempty. by setoid_rewrite (scope_of_perm prefix kvs1 kvs2 _ Hnd Hp).
Qed.

(** ** The source of a standby scope *)

(** The one scope with a property, by its name. *)
Definition only (P : scopeData → Prop) (scopes : list scopeData) (p : string) : Prop :=
  (∃ c, c ∈ scopes ∧ P c ∧ s_Name c = p) ∧ ∀ c, c ∈ scopes → P c → s_Name c = p.

Lemma elem_of_concat {A} (x : A) ls : x ∈ concat ls ↔ ∃ l, x ∈ l ∧ l ∈ ls.
Proof. induction ls as [|l ls IH]; cbn [concat]; [set_solver|]. rewrite elem_of_app, IH. set_solver. Qed.

(** The first name that is not the one found already ends the search. *)
Fixpoint search (found : string) (l : list string) : option string :=
  match l with
  | [] => Some found
  | n :: l =>
      if decide (n = found) then search found l
      else if decide (found ≠ ""%string) then None else search n l
  end.

Lemma search_app f l1 l2 : search f (l1 ++ l2) = f' ← search f l1; search f' l2.
Proof. revert f. induction l1 as [|n l1 IH]; intros f; [done|]. cbn. repeat case_decide; by rewrite ?IH. Qed.

Lemma search_found f l p : f ≠ ""%string → search f l = Some p ↔ p = f ∧ ∀ n, n ∈ l → n = f.
Proof.
  intros Hf. induction l as [|n l IH]; cbn; [split; [intros [= <-]; set_solver|by intros [-> _]]|].
  case_decide as Hn; [subst; rewrite IH; set_solver|]. rewrite decide_True by done. set_solver.
Qed.

Lemma search_only l p :
  Forall (λ n, n ≠ ""%string) l → nonempty (search "" l) = Some p ↔ p ∈ l ∧ ∀ n, n ∈ l → n = p.
Proof.
  intros Hne. destruct l as [|n l]; [cbn; set_solver|]. inversion Hne as [|? ? Hn Hl]; subst. cbn [search].
  rewrite decide_False, decide_False by (done || by intros []).
  split.
  - unfold nonempty. destruct (search n l) as [q|] eqn:Hs; [|done]. apply search_found in Hs as [-> Hall]; [|done].
    cbn. rewrite decide_False by done. intros [= <-]. set_solver.
  - intros [Hp Hall]. assert (n = p) as -> by (apply Hall; by left).
    rewrite (proj2 (search_found p l p Hn)) by set_solver. cbn. by rewrite decide_False.
Qed.

Section standby_lemmas.
Context {T : GoText}.

Definition same_system (s c : scopeData) : Prop :=
  s_Name c ≠ s_Name s ∧ IsStandby c = false ∧ SysID c = SysID s.
Definition at_address (s c : scopeData) : Prop :=
  s_Name c ≠ s_Name s ∧ ∃ t, t ∈ Standby s ∧ hasMemberAt c t = true.

#[global] Instance same_system_dec s c : Decision (same_system s c).
Proof. unfold same_system. apply _. Defined.

Definition at_target (s : scopeData) (t : hostPort) (c : scopeData) : Prop :=
  s_Name c ≠ s_Name s ∧ hasMemberAt c t = true.
#[global] Instance at_target_dec s t c : Decision (at_target s t c).
Proof. unfold at_target. apply _. Defined.

Lemma sysid_search s f scopes :
  NoDup (s_Name <$> scopes) → f ∉ (s_Name <$> scopes) →
  sysid_loop s f scopes = search f (s_Name <$> filter (same_system s) scopes).
Proof.
  revert f. induction scopes as [|c scopes IH]; intros f Hnd Hf; [done|]. rewrite fmap_cons in *.
  apply NoDup_cons in Hnd as [Hc Hnd]. apply not_elem_of_cons in Hf as [Hfc Hf]. cbn [sysid_loop].
  destruct (decide (same_system s c)) as [Hs|Hs].
  - rewrite filter_cons_True by done. destruct Hs as (H1 & H2 & H3). rewrite fmap_cons. cbn [search].
    rewrite decide_False, H2, decide_False by (done || by intros []). rewrite (decide_False (P := s_Name c = f)) by done.
    case_decide; [done|]. by apply IH.
  - rewrite filter_cons_False by done. unfold same_system in Hs. destruct (decide (s_Name c = s_Name s)); [by apply IH|].
    destruct (IsStandby c); [by apply IH|]. case_decide as Hsys; [by apply IH|]. exfalso. apply Hs. split_and!; [done|done|].
    destruct (decide (SysID c = SysID s)); [done|]. by destruct Hsys.
Qed.

Lemma addr_inner_search s t f scopes :
  addr_inner s t f scopes = search f (s_Name <$> filter (at_target s t) scopes).
Proof.
  revert f. induction scopes as [|c scopes IH]; intros f; [done|]. cbn [addr_inner].
  destruct (decide (at_target s t c)) as [Hs|Hs].
  - rewrite filter_cons_True by done. destruct Hs as [H1 H2]. rewrite fmap_cons. cbn [search].
    rewrite decide_False by done. rewrite H2. cbn [negb]. case_decide; [by rewrite IH|]. case_decide; [done|]. apply IH.
  - rewrite filter_cons_False by done. unfold at_target in Hs. case_decide; [apply IH|]. case_decide; [apply IH|].
    destruct (hasMemberAt c t); [by destruct Hs|]. apply IH.
Qed.

Lemma addr_loop_search s ts f scopes :
  addr_loop s ts f scopes = search f (concat ((λ t, s_Name <$> filter (at_target s t) scopes) <$> ts)).
Proof.
  revert f. induction ts as [|t ts IH]; intros f; [done|]. rewrite fmap_cons. cbn [addr_loop concat].
  rewrite search_app, addr_inner_search. destruct (search f _); [|done]. cbn. apply IH.
Qed.

Lemma names_only (P : scopeData → Prop) scopes (l : list string) p :
  (∀ n, n ∈ l ↔ ∃ c, c ∈ scopes ∧ P c ∧ s_Name c = n) →
  (p ∈ l ∧ ∀ n, n ∈ l → n = p) ↔ only P scopes p.
Proof.
  intros Hl. unfold only. rewrite Hl. split; intros [Hex Hall]; (split; [done|]).
  - intros c Hc HP. apply Hall, Hl. by exists c.
  - intros n (c & Hc & HP & <-)%Hl. by apply Hall.
Qed.

Context (scopes : list scopeData) (Hnames : NoDup (s_Name <$> scopes)) (Hne : ∀ c, c ∈ scopes → s_Name c ≠ ""%string).

Lemma names_nonempty (l : list string) : (∀ n, n ∈ l → ∃ c, c ∈ scopes ∧ s_Name c = n) → Forall (λ n, n ≠ ""%string) l.
Proof. intros Hl. apply list.Forall_forall. intros n (c & Hc & <-)%Hl. by apply Hne. Qed.

Lemma bySysID_only s p : bySysID s scopes = Some p ↔ SysID s ≠ ""%string ∧ only (same_system s) scopes p.
Proof.
  unfold bySysID. case_decide as Hs; [split; [done|by intros []]|].
  rewrite sysid_search; [|done|intros (c & He & Hc)%list_elem_of_fmap; by apply (Hne c)].
  assert (Hl : ∀ n, n ∈ s_Name <$> filter (same_system s) scopes ↔ ∃ c, c ∈ scopes ∧ same_system s c ∧ s_Name c = n).
  { intros n. rewrite list_elem_of_fmap. setoid_rewrite list_elem_of_filter. naive_solver. }
  rewrite search_only, (names_only _ _ _ _ Hl); [tauto|]. apply names_nonempty. intros n. rewrite Hl. naive_solver.
Qed.

Lemma byAddress_only s p : byAddress s scopes = Some p ↔ only (at_address s) scopes p.
Proof.
  unfold byAddress. rewrite addr_loop_search.
  match goal with |- context [search _ ?L] => set (l := L) end.
  assert (Hl : ∀ n, n ∈ l ↔ ∃ c, c ∈ scopes ∧ at_address s c ∧ s_Name c = n).
  { intros n. subst l. rewrite elem_of_concat. setoid_rewrite list_elem_of_fmap. split.
    - intros (l & Hn & t & -> & Ht). apply list_elem_of_fmap in Hn as (c & -> & [[H1 H2] Hc]%list_elem_of_filter).
      exists c. split; [done|]. split; [|done]. split; [done|]. by exists t.
    - intros (c & Hc & (H1 & t & Ht & H2) & <-). exists (s_Name <$> filter (at_target s t) scopes). split; [|by exists t].
      apply list_elem_of_fmap_2, list_elem_of_filter. done. }
  rewrite search_only, (names_only _ _ _ _ Hl); [done|]. apply names_nonempty. intros n. rewrite Hl. naive_solver.
Qed.

(** What a scope adds to the result. *)
Definition entry_of (s : scopeData) : option string := if IsStandby s then primary_of s scopes else None.

Lemma standby_step_entry names out s :
  standby_step scopes names out s =
  match entry_of s with Some p => <[s_Name s := default ""%string (names !! p)]> out | None => out end.
Proof. unfold standby_step, entry_of. by destruct (IsStandby s). Qed.

Lemma standby_fold names l out sc cn :
  NoDup (s_Name <$> l) →
  foldl (standby_step scopes names) out l !! sc = Some cn ↔
  (∃ s p, s ∈ l ∧ s_Name s = sc ∧ entry_of s = Some p ∧ cn = default ""%string (names !! p)) ∨
  (out !! sc = Some cn ∧ ∀ s, s ∈ l → s_Name s = sc → entry_of s = None).
Proof.
  revert out. induction l as [|s l IH]; intros out Hnd.
  { cbn. split; [intros Ho; right; split; [done|by intros s ?%elem_of_nil]|by intros [(? & ? & ?%elem_of_nil & _)|[]]]. }
  rewrite fmap_cons in Hnd. apply NoDup_cons in Hnd as [Hs Hnd]. cbn [foldl].
  rewrite IH, standby_step_entry by done. clear IH.
  assert (Hfresh : ∀ s', s' ∈ l → s_Name s' ≠ s_Name s).
  { intros s' Hs' He. apply Hs. rewrite <- He. by apply list_elem_of_fmap_2. }
  destruct (entry_of s) as [p|] eqn:Hp.
  - rewrite lookup_insert_Some. split.
    + intros [(s' & p' & Hin & Hr)|[[[He Hcn]|[He Hout]] Hall]]; [left; exists s', p'; split; [by right|done]|..].
      * left. exists s, p. split_and!; [by left|done..].
      * right. split; [done|]. intros s' [->|Hin]%elem_of_cons; [done|by apply Hall].
    + intros [(s' & p' & [->|Hin]%elem_of_cons & He & Hp' & Hcn)|[Hout Hall]]; [|left; by exists s', p'|].
      * rewrite Hp in Hp'. injection Hp' as <-. right. split; [by left|]. intros s' Hin He'. exfalso.
        apply (Hfresh s' Hin). congruence.
      * right. split; [right; split; [|done]|intros s' Hin; apply Hall; by right].
        intros He. specialize (Hall s ltac:(by left) He). congruence.
  - split.
    + intros [(s' & p' & Hin & Hr)|[Hout Hall]]; [left; exists s', p'; split; [by right|done]|right; split; [done|]].
      intros s' [->|Hin]%elem_of_cons; [done|by apply Hall].
    + intros [(s' & p' & [->|Hin]%elem_of_cons & He & Hp' & Hcn)|[Hout Hall]]; [congruence|left; by exists s', p'|].
      right. split; [done|]. intros s' Hin. apply Hall. by right.
Qed.

Lemma entry_of_spec s p :
  entry_of s = Some p ↔
  IsStandby s = true ∧
  ((SysID s ≠ ""%string ∧ only (same_system s) scopes p) ∨
   ((SysID s = ""%string ∨ ∀ q, ¬ only (same_system s) scopes q) ∧ only (at_address s) scopes p)).
Proof.
  unfold entry_of, primary_of. destruct (IsStandby s); [|split; [done|by intros []]].
  destruct (bySysID s scopes) as [q|] eqn:Hb.
  - apply bySysID_only in Hb as [Hs Hq]. split.
    + intros [= <-]. split; [done|]. by left.
    + intros [_ [[_ Hp]|[[Hs'|Hno] _]]]; [|done|by destruct (Hno q)].
      f_equal. destruct Hp as [(c & Hc & HP & <-) _]. symmetry. by apply Hq.
  - assert (Hno : ∀ q, ¬ (SysID s ≠ ""%string ∧ only (same_system s) scopes q)).
    { intros q Hq. apply bySysID_only in Hq. congruence. }
    rewrite byAddress_only. split.
    + intros Hp. split; [done|]. right. split; [|done].
      destruct (decide (SysID s = ""%string)); [by left|]. right. intros q Hq. by apply (Hno q).
    + intros [_ [Hp|[_ Hp]]]; [by destruct (Hno p)|done].
Qed.

End standby_lemmas.

(** ** Properties *)

Section properties.
Context {T : GoText}.

(** C9: from distinct keys [parseLayout] builds exactly the layout they describe. The
    scopes come in strict order of their names, each with at least one member, the members
    in strict order; a member is listed under a scope if and only if there is its key,
    [<prefix><scope>/members/<member>] with both names non-empty and without a slash, with
    a value that gives an address, and that address is the member's; a key of that form
    whose value gives none is reported as skipped with the reason, and nothing else is.
    The [config] and [initialize] keys of a scope set its standby data and its system
    identifier. The scopes depend neither on the order in which the store lists the keys
    nor on the order of map iteration. *)
Theorem parseLayout_exact (R : MapRange) kvs prefix scopes skipped :
  NoDup (kv_Key <$> kvs) → parseLayout kvs prefix = (scopes, skipped) →
  ordered s_Name scopes ∧
  (∀ s, s ∈ scopes → Members s ≠ [] ∧ ordered m_Name (Members s) ∧
    (∀ v, mkKv (key_of prefix (s_Name s) KConfig) v ∈ kvs → (IsStandby s, Standby s) = standbyCluster v) ∧
    ((∀ v, mkKv (key_of prefix (s_Name s) KConfig) v ∉ kvs) → (IsStandby s, Standby s) = (false, [])) ∧
    (∀ v, mkKv (key_of prefix (s_Name s) KInitialize) v ∈ kvs → SysID s = TrimSpace v) ∧
    ((∀ v, mkKv (key_of prefix (s_Name s) KInitialize) v ∉ kvs) → SysID s = ""%string)) ∧
  (∀ sc m, (∃ s, s ∈ scopes ∧ s_Name s = sc ∧ m ∈ Members s) ↔
    sc ≠ ""%string ∧ plain sc ∧ kind_ok (KMember (m_Name m)) ∧
    ∃ v, mkKv (key_of prefix sc (KMember (m_Name m))) v ∈ kvs ∧ memberAddr v = inr (m_Host m, m_Port m)) ∧
  (∀ sc n e, mkSkipped sc n e ∈ skipped ↔
    sc ≠ ""%string ∧ plain sc ∧ kind_ok (KMember n) ∧
    ∃ v, mkKv (key_of prefix sc (KMember n)) v ∈ kvs ∧ memberAddr v = inl e) ∧
  (∀ (R' : MapRange) kvs', kvs ≡ₚ kvs' → (parseLayout (R := R') kvs' prefix).1 = scopes).
Proof.
  intros Hnd Hrun. destruct (layout_scopes _ _ _ _ Hnd Hrun) as (Hord & Hsk & Hel).
  split; [done|]. split; [|split; [|split]].
  - intros s (sc & -> & Hm)%Hel. cbn [s_Name Members SysID Standby IsStandby sort_members scope_of].
    assert (Hsc : sc ≠ ""%string ∧ plain sc).
    { destruct (omap (member_in prefix sc) kvs) as [|m ms] eqn:Ho; [by destruct Hm|].
      assert (Hin : m ∈ omap (member_in prefix sc) kvs) by (rewrite Ho; by left).
      apply list_elem_of_omap in Hin as (item & _ & Hi). apply member_in_spec in Hi. tauto. }
    destruct Hsc as [Hsc Hpl]. split; [by apply (sort_members_nonempty (scope_of prefix kvs sc))|].
    split; [by apply (sort_members_ordered prefix kvs sc)|].
    destruct (last_value prefix standbyCluster (false, []) sc KConfig kvs (or_introl eq_refl) Hnd) as [Hc1 Hc2].
    destruct (last_value prefix TrimSpace ""%string sc KInitialize kvs (or_intror eq_refl) Hnd) as [Hi1 Hi2].
    split_and!; [intros v Hv; rewrite <- (Hc1 v) by done; by destruct (from_option _ _ _)
      |intros Hno; specialize (Hc2 Hno); by rewrite Hc2|intros v Hv; by apply Hi1|done].
  - intros sc m. split.
    + intros (s & (sc' & -> & _)%Hel & <- & Hm). cbn [Members sort_members] in Hm. apply elem_of_sort_slice in Hm.
      apply list_elem_of_omap in Hm as ([key v] & Hit & Hi). apply member_in_spec in Hi as (Hk & Hsc & Hpl & Hok & Ha).
      cbn in Hk, Ha. subst key. split_and!; [done..|]. by exists v.
    + intros (Hsc & Hpl & Hok & v & Hv & Ha).
      assert (Hm : m ∈ Members (scope_of prefix kvs sc)).
      { apply list_elem_of_omap. eexists. split; [exact Hv|]. by apply member_in_spec. }
      exists (sort_members (scope_of prefix kvs sc)). split; [|split; [done|by apply elem_of_sort_slice]].
      apply Hel. exists sc. split; [done|]. intros Hn. rewrite Hn in Hm. by apply elem_of_nil in Hm.
  - intros sc n e. rewrite Hsk, list_elem_of_omap. unfold skipped_in. split.
    + intros ([key v] & Hit & Hi). cbn in Hi. destruct (parse_key _ _) as [[sc' [n'| |]]|] eqn:Hk; try done.
      destruct (memberAddr v) as [e'|] eqn:Ha; [|done]. injection Hi as -> -> ->.
      apply parse_key_spec in Hk as (-> & Hsc & Hpl & Hok). split_and!; [done..|]. by exists v.
    + intros (Hsc & Hpl & Hok & v & Hv & Ha). eexists. split; [exact Hv|]. cbn.
      assert (Hk : parse_key prefix (key_of prefix sc (KMember n)) = Some (sc, KMember n)) by by apply parse_key_spec.
      by rewrite Hk, Ha.
  - intros R' kvs' Hp. change scopes with (scopes, skipped).1. rewrite <- Hrun. symmetry. by apply layout_order.
Qed.

(** [standbyOf] links a standby scope to the cluster of its source, and never
    guesses. Among scopes with distinct non-empty names a scope has an entry if and only
    if it is a standby and either exactly one other, non-standby scope shares its
    (non-empty) system identifier, or no such scope is unique and exactly one other scope
    has a member at one of its [standby_cluster] addresses; the entry is that scope's
    cluster name. *)
Theorem standbyOf_unique scopes names sc cn :
  NoDup (s_Name <$> scopes) → (∀ c, c ∈ scopes → s_Name c ≠ ""%string) →
  standbyOf scopes names !! sc = Some cn ↔
  ∃ s p, s ∈ scopes ∧ s_Name s = sc ∧ IsStandby s = true ∧ cn = default ""%string (names !! p) ∧
    ((SysID s ≠ ""%string ∧ only (same_system s) scopes p) ∨
     ((SysID s = ""%string ∨ ∀ q, ¬ only (same_system s) scopes q) ∧ only (at_address s) scopes p)).
Proof.
  intros Hnd Hne. unfold standbyOf. rewrite standby_fold by done. rewrite lookup_empty. split.
  - intros [(s & p & Hs & Hn & He & Hcn)|[]]; [|done]. apply entry_of_spec in He as [Hst He]; [|done..].
    exists s, p. by split_and!.
  - intros (s & p & Hs & Hn & Hst & Hcn & He). left. exists s, p. split_and!; [done|done| |done].
    by apply entry_of_spec.
Qed.

End properties.

(** ** Witnesses *)

Definition ascii_lower (s : string) : string :=
  of_bytes ((λ b, if (65 <=? b) && (b <=? 90) then b + 32 else b) <$> bytes s).

(** Values are named by short strings; every URL is on host "pg-2". *)
Definition sample_text : GoText := {|
  parse_json := λ s,
    if decide (s = "kwargs"%string) then
      Some (JObject [("conn_kwargs", JObject [("host", JString "pg-1, pg-9"); ("port", JNumber "5433")])])%string
    else if decide (s = "url"%string) then Some (JObject [("conn_url", JString "postgres://pg-2:6432/postgres")])%string
    else if decide (s = "standby"%string) then
      Some (JObject [("standby_cluster", JObject [("host", JString "PG-1"); ("port", JNumber "5433")])])%string
    else None;
  url_Parse := λ _, Some (mkUrl "postgres" "pg-2" "6432" (λ _, ""%string));
  ToLower := ascii_lower;
  EqualFold := λ a b, bool_decide (ascii_lower a = ascii_lower b)
|}.

Definition sample_keys : list kv :=
  [mkKv "/service/main/members/b" "url"; mkKv "/service/main/members/a" "kwargs"; mkKv "/service/dr/members/c" "url";
   mkKv "/service/dr/config" "standby"; mkKv "/service/main/members/d" "?"; mkKv "/service/main/initialize" " 71 ";
   mkKv "/service/main/0/members/x" "url"].

Definition sample_scopes : list scopeData :=
  [mkScope "dr" [mkMember "c" "pg-2" "6432"] "" [mkHostPort "PG-1" "5433"] true;
   mkScope "main" [mkMember "a" "pg-1" "5433"; mkMember "b" "pg-2" "6432"] "71" [] false].

Lemma parseLayout_exact_witness :
  let p := parseLayout (T := sample_text) (R := canonical_range) sample_keys "/service/" in
  p = (sample_scopes, [mkSkipped "main" "d" errMemberValue]) ∧ ordered s_Name p.1 ∧
  (parseLayout (T := sample_text) (R := reversed_range) (reverse sample_keys) "/service/").1 = p.1.
Proof.
  cbv zeta. split; [by vm_compute|].
  destruct (parseLayout_exact (T := sample_text) canonical_range sample_keys "/service/" _ _
    ltac:(apply (bool_decide_unpack _); by vm_compute) (surjective_pairing _)) as (Hord & _ & _ & _ & Hperm).
  split; [exact Hord|]. apply Hperm. symmetry. apply reverse_Permutation.
Defined.

Lemma standbyOf_unique_witness :
  standbyOf (T := sample_text) sample_scopes {["main" := "prod_main"; "dr" := "prod_dr"]}%string !! "dr"%string =
    Some "prod_main"%string ∧
  ∃ s p, s ∈ sample_scopes ∧ only (at_address (T := sample_text) s) sample_scopes p.
Proof.
  split; [by vm_compute|].
  destruct (proj1 (standbyOf_unique (T := sample_text) sample_scopes {["main" := "prod_main"; "dr" := "prod_dr"]}%string
    "dr" "prod_main" ltac:(apply (bool_decide_unpack _); by vm_compute)
    ltac:(intros c [->|[->|[]%elem_of_nil]%elem_of_cons]%elem_of_cons; done)) ltac:(by vm_compute))
    as (s & p & Hs & Hn & _ & _ & [[Hsys _]|[_ Hp]]).
  - exfalso. apply Hsys. apply elem_of_cons in Hs as [->|[->|[]%elem_of_nil]%elem_of_cons]; [done|]. by vm_compute in Hn.
  - by exists s, p.
Defined.
