(* ===== verification/Patroni.v ===== *)
(** * [internal/discovery/patroni]: settings and provider ([config.go], [dcs.go], [provider.go])

    The settings of an entry and their resolution, and the discovery cycle as a function
    from the provider's state and the surroundings of the cycle (what the DCS, the members
    and the clock answer) to the published clusters and the next state. Log lines are left
    out; the sets the provider keeps to log a thing once are kept. *)

From Stdlib Require Import Ascii.
From S2P Require Import Prelude GoFloat AutoConfig Discovery PatroniLayout.
From stdpp Require Import options.

#[local] Set Default Proof Using "Type*".

(** ** Data *)

Record TLSConfig := mkTLS { CAFile : string; CertFile : string; KeyFile : string; InsecureSkipVerify : bool }.
Record EtcdConfig := mkEtcd { Endpoints : list string; etcd_Username : string; etcd_Password : string;
  etcd_PasswordFromEnv : string; etcd_TLS : TLSConfig }.
Record ConsulConfig := mkConsul { consul_Address : string; Datacenter : string; Token : string; TokenFromEnv : string;
  consul_TLS : TLSConfig }.

Record PGSettings := mkPG {
  User : string; pg_Password : string; pg_PasswordFromEnv : string; pg_Port : string; BootstrapDB : string;
  Db : option string; ExcludeDb : option string
}.

Record PGOverride := mkOverride {
  ov_User : option string; ov_Password : option string; ov_PasswordFromEnv : option string; ov_Port : option string;
  ov_BootstrapDB : option string; ov_Db : option string; ov_ExcludeDb : option string
}.

Record Config := mkPatroniConfig {
  DCS : string; Namespace : string; Scope : string; ExcludeScope : option string; RefreshInterval : duration;
  Etcd3 : EtcdConfig; Consul : ConsulConfig; c_PG : PGSettings; Overrides : gmap string PGOverride
}.

Record scopePG := mkScopePG {
  sp_User : string; sp_Password : string; sp_Port : string; sp_BootstrapDB : string; sp_filter : Filter
}.

Inductive config_error :=
  | errDCSRequired | errDCSUnknown | errEndpointsRequired | errEmptyEndpoint | errAddressRequired | errUserRequired
  | errPort (port : string) | errFilter | errOverride (scope : string) (e : config_error) | errScopeFilter.

Record scopeState := mkState { st_Databases : list string; Listed : bool; Sticky : string; st_Hosts : list string;
  Published : list string }.
Record target := mkTgt { ID : string; tg_Name : string; tg_Host : string; tg_Port : string }.
Record scopePlan := mkPlan { data : scopeData; pg : scopePG; members : list target }.

(** A listing of a scope: the names and the member that answered, or the error. *)
Definition listResult : Type := (list_error + list string * string)%type.

Record Provider := mkProvider {
  entry : string; cfg : Config; namespace : string; prefix : string; scopes_filter : Filter; base : scopePG;
  overrides : gmap string scopePG; prefixName : bool; interval : duration;
  state : option (gmap string scopeState); warned : gset string; noOverride : gset string
}.

(** ** Settings *)

Definition defaultNS : string := "/service".
Definition defaultPGDB : string := "postgres".
Definition matchAll : string := ".*".

Section settings.
Context {T : GoText} {R : MapRange}.
(** [os.Getenv], and [regexp.Compile] to the predicate [MatchString]. *)
Context (getenv : string → string) (compile : string → option (string → bool)).

Definition ResolveSecret (plain env : string) : string * bool :=
  if decide (env = ""%string) then (plain, false)
  else (getenv env, bool_decide (getenv env = ""%string)).

Definition compile_opt (re : option string) : option (option (string → bool)) :=
  match re with None => Some None | Some re => Some <$> compile re end.

(** [filter.New]; [None] is a pattern that does not compile. *)
Definition New (name : string) (db excludeName excludeDb : option string) : option Filter :=
  n ← compile name; d ← compile_opt db; en ← compile_opt excludeName; ed ← compile_opt excludeDb;
  Some (mkFilter n d en ed).

Definition withDefaults (c : Config) : Config :=
  mkPatroniConfig (ToLower (TrimSpace (DCS c)))
    (if decide (Namespace c = ""%string) then defaultNS else Namespace c)
    (if decide (Scope c = ""%string) then matchAll else Scope c)
    (ExcludeScope c) (RefreshInterval c) (Etcd3 c) (Consul c) (c_PG c) (Overrides c).

(** [None] is a valid configuration. *)
Definition validate (c : Config) : option config_error :=
  let user := if decide (User (c_PG c) = ""%string) then Some errUserRequired else None in
  if decide (DCS c = ""%string) then Some errDCSRequired
  else if decide (DCS c = "etcd3"%string) then
    if Nat.eqb (length (Endpoints (Etcd3 c))) 0 then Some errEndpointsRequired
    else if existsb (λ e, bool_decide (TrimSpace e = ""%string)) (Endpoints (Etcd3 c)) then Some errEmptyEndpoint
    else user
  else if decide (DCS c = "consul"%string) then
    if decide (consul_Address (Consul c) = ""%string) then Some errAddressRequired else user
  else Some errDCSUnknown.

Definition merge (s : PGSettings) (o : PGOverride) : PGSettings :=
  let secret := negb (bool_decide (ov_Password o = None)) || negb (bool_decide (ov_PasswordFromEnv o = None)) in
  mkPG (default (User s) (ov_User o))
    (if secret then default ""%string (ov_Password o) else pg_Password s)
    (if secret then default ""%string (ov_PasswordFromEnv o) else pg_PasswordFromEnv s)
    (default (pg_Port s) (ov_Port o))
    (default (BootstrapDB s) (ov_BootstrapDB o))
    (match ov_Db o with Some d => Some d | None => Db s end)
    (match ov_ExcludeDb o with Some d => Some d | None => ExcludeDb s end).

Definition resolve (s : PGSettings) : config_error + scopePG :=
  if decide (User s = ""%string) then inl errUserRequired
  else if negb (bool_decide (pg_Port s = ""%string)) && negb (validPort (pg_Port s)) then inl (errPort (pg_Port s))
  else
    match New matchAll (Db s) None (ExcludeDb s) with
    | None => inl errFilter
    | Some f =>
        inr (mkScopePG (User s) (ResolveSecret (pg_Password s) (pg_PasswordFromEnv s)).1 (pg_Port s)
               (if decide (BootstrapDB s = ""%string) then defaultPGDB else BootstrapDB s) f)
    end.

Definition resolve_override (s : PGSettings) (st : config_error + gmap string scopePG) (x : string * PGOverride) :
    config_error + gmap string scopePG :=
  match st with
  | inl e => inl e
  | inr m =>
      match resolve (merge s x.2) with
      | inl e => inl (errOverride x.1 e)
      | inr p => inr (<[ToLower x.1 := p]> m)
      end
  end.

Definition resolvePG (c : Config) : config_error + (scopePG * gmap string scopePG) :=
  match resolve (c_PG c) with
  | inl e => inl e
  | inr b =>
      match foldl (resolve_override (c_PG c)) (inr ∅) (map_range "resolvePG" (Overrides c)) with
      | inl e => inl e
      | inr m => inr (b, m)
      end
  end.

(** [strings.FieldsFunc] at slashes, joined by one slash. *)
Definition normalizeNamespace (ns : string) : string :=
  ("/" +:+ join_slash (filter (λ part, part ≠ ""%string) (Split "/"%char ns)))%string.

Definition namespacePrefix (ns dcs : string) : string :=
  let p := normalizeNamespace ns in
  let p := if decide (p ≠ "/"%string) then (p +:+ "/")%string else p in
  if decide (dcs = "consul"%string) then default p (CutPrefix p "/") else p.

Definition DefaultDiscoveryInterval : duration := 5 * Minute.
Definition MinDiscoveryInterval : duration := Minute.

Definition DiscoveryInterval (d : duration) : duration * bool :=
  if d <=? 0 then (DefaultDiscoveryInterval, false)
  else if d <? MinDiscoveryInterval then (MinDiscoveryInterval, true)
  else (d, false).

(** [newProvider], from the decoded block. *)
Definition newProvider (name : string) (c : Config) (prefix_name : bool) : config_error + Provider :=
  let c := withDefaults c in
  match validate c with
  | Some e => inl e
  | None =>
      match New (Scope c) None (ExcludeScope c) None with
      | None => inl errScopeFilter
      | Some f =>
          match resolvePG c with
          | inl e => inl e
          | inr (b, ovs) =>
              inr (mkProvider name c (normalizeNamespace (Namespace c)) (namespacePrefix (Namespace c) (DCS c)) f b ovs
                     prefix_name (DiscoveryInterval (RefreshInterval c)).1 None ∅ ∅)
          end
      end
  end.

End settings.

(** ** The discovery cycle *)

(** [net.JoinHostPort]. *)
Definition JoinHostPort (host port : string) : string :=
  if decide (":"%char ∈ String.list_ascii_of_string host) then ("[" +:+ host +:+ "]:" +:+ port)%string
  else (host +:+ ":" +:+ port)%string.

Section provider.
Context {T : GoText} {R : MapRange}.

Definition pgFor (p : Provider) (scope : string) : scopePG :=
  default (base p) (overrides p !! ToLower scope).

(** The members of a scope, one per address, before they are named; the members dropped. *)
Fixpoint targets_of (pg : scopePG) (seen : gset hostPort) (ms : list member) : list target * list member :=
  match ms with
  | [] => ([], [])
  | m :: ms =>
      let addr := mkHostPort (m_Host m) (cmp_Or (sp_Port pg) (m_Port m)) in
      if decide (addr ∈ seen) then
        let '(ts, dropped) := targets_of pg seen ms in (ts, m :: dropped)
      else
        let '(ts, dropped) := targets_of pg ({[addr]} ∪ seen) ms in
        (mkTgt "" (m_Name m) (hp_Host addr) (hp_Port addr) :: ts, dropped)
  end.

Definition per_host (ts : list target) (host : string) : nat := length (filter (λ t, tg_Host t = host) ts).

Definition set_id (ts : list target) (t : target) : target :=
  mkTgt (if decide (1 < per_host ts (tg_Host t))%nat then JoinHostPort (tg_Host t) (tg_Port t) else tg_Host t)
    (tg_Name t) (tg_Host t) (tg_Port t).

Definition plan_scope (p : Provider) (s : scopeData) : scopePlan :=
  let pg := pgFor p (s_Name s) in
  let ts := (targets_of pg ∅ (Members s)).1 in
  mkPlan s pg (set_id ts <$> ts).

(** The keys [plan] warns about. *)
Definition plan_warned (p : Provider) (s : scopeData) : list string :=
  (λ m, ("addr/" +:+ s_Name s +:+ "/" +:+ m_Name m)%string) <$> (targets_of (pgFor p (s_Name s)) ∅ (Members s)).2.

Definition plan (p : Provider) (scopes : list scopeData) : list scopePlan := plan_scope p <$> scopes.

(** The surroundings of one cycle: the keys of the DCS or its failure; for a scope, what
    its members answer at each attempt and whether the scope's budget is spent after it;
    whether the cycle's own context has ended after the listings. *)
Record cycle := mkCycle {
  store_list : option (list kv);
  list_databases : string → nat → Target → option (list string);
  scope_done : string → nat → bool;
  ctx_err : bool
}.

Definition state_of (p : Provider) : gmap string scopeState := default ∅ (state p).

(** The zero value a missing entry of the state map reads as. *)
Definition zero_state : scopeState := mkState [] false "" [] [].
Definition prev_state (p : Provider) (scope : string) : scopeState := default zero_state (state_of p !! scope).

(** The index of the last member with the name, or the first index. *)
Definition sticky_index (ts : list target) (sticky : string) : nat :=
  foldl (λ start x, if decide (tg_Name x.2 = sticky) then x.1 else start) 0%nat (imap pair ts).

Definition listScope (env : cycle) (p : Provider) (pl : scopePlan) : listResult :=
  let scope := s_Name (data pl) in
  let start := sticky_index (members pl) (Sticky (prev_state p scope)) in
  let targets := (λ m, mkTarget (tg_Host m) (tg_Port m) (sp_User (pg pl)) (sp_Password (pg pl)) (sp_BootstrapDB (pg pl)))
    <$> members pl in
  match ListFirst (list_databases env scope) (scope_done env scope) targets (Z.of_nat start) with
  | (inl err, _) => inl err
  | (inr names, idx) => inr (names, default ""%string (tg_Name <$> members pl !! idx))
  end.

(** [listAll] fills one slot per plan from a goroutine of its own, so the order in which
    they finish does not show. *)
Definition listAll (env : cycle) (p : Provider) (plans : list scopePlan) : list listResult := listScope env p <$> plans.

Definition clusterName (p : Provider) (scope : string) : string :=
  if prefixName p then (entry p +:+ "_" +:+ scope)%string else scope.

Definition databasesState (p : Provider) (scope : string) (r : listResult) : scopeState :=
  let prev := prev_state p scope in
  match r with
  | inr (names, sticky) => mkState names true sticky [] []
  | inl _ =>
      if Listed prev then mkState (st_Databases prev) true (Sticky prev) [] []
      else mkState [] false (Sticky prev) [] []
  end.

(** The state of a scope after [build]: the hosts and the databases it publishes. *)
Definition next_state (p : Provider) (pl : scopePlan) (r : listResult) : scopeState :=
  let st := databasesState p (s_Name (data pl)) r in
  mkState (st_Databases st) (Listed st) (Sticky st) (ID <$> members pl)
    (filter (λ db, MatchDb (sp_filter (pg pl)) db) (st_Databases st)).

Definition host_meta (ts : list target) : gmap string HostMeta :=
  foldl (λ m t, <[ID t := mkHostMeta (tg_Host t) (tg_Port t) (tg_Name t)]> m) ∅ ts.

Definition labels_of (p : Provider) (pl : scopePlan) (standby : gmap string string) : gmap string string :=
  let labels : gmap string string :=
    <["patroni.dcs" := DCS (cfg p)]> (<["patroni.namespace" := namespace p]>
      (<["patroni.scope" := s_Name (data pl)]> (<["bootstrap_db" := sp_BootstrapDB (pg pl)]> ∅))) in
  match standby !! s_Name (data pl) with
  | Some primary => <["patroni.standby_of" := primary]> labels
  | None => labels
  end.

Definition cluster_of (p : Provider) (standby : gmap string string) (pl : scopePlan) (r : listResult) : Cluster :=
  let st := next_state p pl r in
  mkCluster (clusterName p (s_Name (data pl))) (sp_User (pg pl)) (sp_Password (pg pl)) "" (sp_Port (pg pl))
    (Published st) (ID <$> members pl) (host_meta (members pl)) "patroni" (entry p) (labels_of p pl standby) "".

Definition names_of (p : Provider) (plans : list scopePlan) : gmap string string :=
  foldl (λ m pl, <[s_Name (data pl) := clusterName p (s_Name (data pl))]> m) ∅ plans.

Definition cluster_less (a b : Cluster) : bool := str_ltb (Name a) (Name b).

Definition build (p : Provider) (plans : list scopePlan) (results : list listResult) :
    list Cluster * gmap string scopeState :=
  let standby := standbyOf (data <$> plans) (names_of p plans) in
  (sort_slice cluster_less (zip_with (cluster_of p standby) plans results),
   foldl (λ m x, <[s_Name (data x.1) := next_state p x.1 x.2]> m) ∅ (zip plans results)).

(** [reportUnmatchedOverrides]: the overrides reported so far. *)
Definition reported (p : Provider) (scopes : list scopeData) : gset string :=
  let present : gset string := list_to_set ((λ s, ToLower (s_Name s)) <$> scopes) in
  noOverride p ∪ (dom (overrides p) ∖ present).

(** [Discover]: the clusters, or [None] for a failed cycle, and the provider after it. *)
Definition Discover (env : cycle) (p : Provider) : option (list Cluster) * Provider :=
  match store_list env with
  | None => (None, p)
  | Some kvs =>
      let '(all, skipped) := parseLayout kvs (prefix p) in
      let scopes := filter (λ s, MatchName (scopes_filter p) (s_Name s)) all in
      let skip_keys := (λ sk, ("member/" +:+ skipped_key sk)%string) <$>
        filter (λ sk, MatchName (scopes_filter p) (sk_Scope sk)) skipped in
      let plans := plan p scopes in
      let results := listAll env p plans in
      if ctx_err env then (None, p)
      else
        let '(clusters, next) := build p plans results in
        (Some clusters,
         mkProvider (entry p) (cfg p) (namespace p) (prefix p) (scopes_filter p) (base p) (overrides p) (prefixName p)
           (interval p) (Some next) (list_to_set (skip_keys ++ concat (plan_warned p <$> scopes))) (reported p scopes))
  end.

End provider.

Example namespaces :
  normalizeNamespace "//service/" = "/service"%string ∧ normalizeNamespace "/" = "/"%string ∧
  namespacePrefix "service" "etcd3" = "/service/"%string ∧ namespacePrefix "/a//b" "consul" = "a/b/"%string ∧
  namespacePrefix "/" "consul" = ""%string.
Proof. by vm_compute. Qed.

(** ** Lemmas: addresses *)

Lemma list_ascii_inj a b : String.list_ascii_of_string a = String.list_ascii_of_string b → a = b.
Proof.
  intros Heq. rewrite <- (String.string_of_list_ascii_of_string a), <- (String.string_of_list_ascii_of_string b).
  by rewrite Heq.
Qed.

Lemma string_app_inj_l (a b c : string) : (a +:+ b)%string = (a +:+ c)%string → b = c.
Proof. intros Heq. by apply (inj (String.app a)) in Heq. Qed.

(** The part after the last separator determines the part before it. *)
Lemma split_last {A} (x : A) l1 r1 l2 r2 : x ∉ r1 → x ∉ r2 → l1 ++ x :: r1 = l2 ++ x :: r2 → l1 = l2 ∧ r1 = r2.
Proof.
  intros H1 H2. revert l2. induction l1 as [|a l1 IH]; intros [|b l2]; cbn; intros Heq; inversion Heq; subst.
  - done.
  - destruct H1. apply elem_of_app. right. by left.
  - destruct H2. apply elem_of_app. right. by left.
  - match goal with H : l1 ++ _ = _ |- _ => apply IH in H as [-> ->] end. done.
Qed.

(** No colon in the string. *)
Definition no_colon (s : string) : Prop := ":"%char ∉ String.list_ascii_of_string s.

Definition wrap_host (h : string) : string :=
  if decide (":"%char ∈ String.list_ascii_of_string h) then ("[" +:+ h +:+ "]")%string else h.

Lemma JoinHostPort_chars h p :
  String.list_ascii_of_string (JoinHostPort h p) =
  String.list_ascii_of_string (wrap_host h) ++ ":"%char :: String.list_ascii_of_string p.
Proof.
  unfold JoinHostPort, wrap_host. case_decide; rewrite !list_ascii_app; [|done].
  cbn. by rewrite <- app_assoc.
Qed.

Lemma wrap_host_inj h1 h2 : wrap_host h1 = wrap_host h2 → h1 = h2.
Proof.
  assert (Hw : ∀ h, ":"%char ∈ String.list_ascii_of_string h → wrap_host h = ("[" +:+ h +:+ "]")%string ∧
    ":"%char ∈ String.list_ascii_of_string (wrap_host h)).
  { intros h Hh. unfold wrap_host. rewrite decide_True by done. split; [done|]. rewrite !list_ascii_app. set_solver. }
  assert (Hu : ∀ h, ":"%char ∉ String.list_ascii_of_string h → wrap_host h = h).
  { intros h Hh. unfold wrap_host. by rewrite decide_False. }
  destruct (decide (":"%char ∈ String.list_ascii_of_string h1)) as [H1|H1],
    (decide (":"%char ∈ String.list_ascii_of_string h2)) as [H2|H2].
  - destruct (Hw h1 H1) as [-> _], (Hw h2 H2) as [-> _]. intros Heq%string_app_inj_l.
    apply (f_equal String.list_ascii_of_string) in Heq. rewrite !list_ascii_app in Heq. apply list_ascii_inj.
    by apply app_inv_tail in Heq.
  - destruct (Hw h1 H1) as [_ Hin]. rewrite (Hu h2 H2). intros Heq. by rewrite Heq in Hin.
  - destruct (Hw h2 H2) as [_ Hin]. rewrite (Hu h1 H1). intros Heq. by rewrite <- Heq in Hin.
  - by rewrite (Hu h1 H1), (Hu h2 H2).
Qed.

Lemma JoinHostPort_inj h1 p1 h2 p2 :
  no_colon p1 → no_colon p2 → JoinHostPort h1 p1 = JoinHostPort h2 p2 → h1 = h2 ∧ p1 = p2.
Proof.
  intros H1 H2 Heq. apply (f_equal String.list_ascii_of_string) in Heq. rewrite !JoinHostPort_chars in Heq.
  apply split_last in Heq as [Hw Hp]; [|done..]. split; [|by apply list_ascii_inj].
  by apply wrap_host_inj, list_ascii_inj.
Qed.

Lemma two_in_filter {A} (P : A → Prop) `{∀ x, Decision (P x)} (l : list A) i j x y :
  l !! i = Some x → l !! j = Some y → i ≠ j → P x → P y → (1 < length (filter P l))%nat.
Proof.
  assert (Hlt : ∀ i j x y, l !! i = Some x → l !! j = Some y → (i < j)%nat → P x → P y → (1 < length (filter P l))%nat).
  { clear i j x y. intros i j x y Hi Hj Hij Hx Hy.
    assert (Hsplit : l = take i l ++ x :: drop (S i) l) by by rewrite take_drop_middle.
    assert (Hy' : y ∈ filter P (drop (S i) l)).
    { apply list_elem_of_filter. split; [done|]. apply (list_elem_of_lookup_2 _ (j - S i)). rewrite lookup_drop.
      by replace (S i + (j - S i))%nat with j by lia. }
    rewrite Hsplit, filter_app, filter_cons_True, length_app by done. cbn.
    destruct (filter P (drop (S i) l)); [by apply elem_of_nil in Hy'|]. cbn. lia. }
  intros Hi Hj Hij Hx Hy. destruct (decide (i < j)%nat); [by eapply (Hlt i j)|].
  eapply (Hlt j i); [exact Hj|exact Hi|lia|done|done].
Qed.

(** A map filled by a loop over elements with distinct keys. *)
Lemma fold_insert_lookup {A V} (k : A → string) (v : A → V) l (m : gmap string V) i y :
  NoDup (k <$> l) →
  foldl (λ m x, <[k x := v x]> m) m l !! i = Some y ↔
  (∃ x, x ∈ l ∧ k x = i ∧ v x = y) ∨ (m !! i = Some y ∧ ∀ x, x ∈ l → k x ≠ i).
Proof.
  revert m. induction l as [|a l IH]; intros m Hnd.
  { cbn. split; [intros Hm; right; split; [done|by intros x ?%elem_of_nil]|by intros [(? & ?%elem_of_nil & _)|[]]]. }
  rewrite fmap_cons in Hnd. apply NoDup_cons in Hnd as [Ha Hnd]. cbn [foldl]. rewrite IH, lookup_insert_Some by done.
  assert (Hfresh : ∀ x, x ∈ l → k x ≠ k a). { intros x Hx He. apply Ha. rewrite <- He. by apply list_elem_of_fmap_2. }
  split.
  - intros [(x & Hx & Hr)|[[[Hk Hv]|[Hk Hm]] Hall]]; [left; exists x; split; [by right|done]|left; exists a; split; [by left|done]|].
    right. split; [done|]. by intros x [->|Hx]%elem_of_cons; [|apply Hall].
  - intros [(x & [->|Hx]%elem_of_cons & Hk & Hv)|[Hm Hall]]; [|left; by exists x|].
    + right. split; [by left|]. intros x Hx He. apply (Hfresh x Hx). congruence.
    + right. split; [right; split; [apply Hall; by left|done]|]. intros x Hx. apply Hall. by right.
Qed.

(** ** Lemmas: the plan of a scope *)

Section plan_lemmas.
Context {T : GoText}.

Definition member_addr (pg : scopePG) (m : member) : hostPort := mkHostPort (m_Host m) (cmp_Or (sp_Port pg) (m_Port m)).
Definition target_addr (t : target) : hostPort := mkHostPort (tg_Host t) (tg_Port t).

Lemma targets_of_spec pg seen ms :
  let ts := (targets_of pg seen ms).1 in
  NoDup (target_addr <$> ts) ∧ (∀ t, t ∈ ts → target_addr t ∉ seen) ∧
  (∀ m, m ∈ ms → member_addr pg m ∈ seen ∨ ∃ t, t ∈ ts ∧ target_addr t = member_addr pg m) ∧
  (∀ t, t ∈ ts → ∃ m, m ∈ ms ∧ m_Name m = tg_Name t ∧ member_addr pg m = target_addr t) ∧
  sublist (tg_Name <$> ts) (m_Name <$> ms).
Proof.
  cbv zeta. revert seen. induction ms as [|m ms IH]; intros seen; cbn [targets_of].
  { cbn. split_and!; [constructor|intros ? ?%elem_of_nil; done..|done]. }
  fold (member_addr pg m). case_decide as Hin.
  - specialize (IH seen). destruct (targets_of pg seen ms) as [ts dropped]. cbn [fst] in *.
    destruct IH as (Hnd & Hout & Hcov & Hfrom & Hsub). split_and!; [done|done| | |by constructor].
    + intros m' [->|Hm]%elem_of_cons; [by left|by apply Hcov].
    + intros t Ht. destruct (Hfrom t Ht) as (m' & Hm' & ?). exists m'. split; [by right|done].
  - specialize (IH ({[member_addr pg m]} ∪ seen)). destruct (targets_of pg _ ms) as [ts dropped]. cbn [fst] in *.
    destruct IH as (Hnd & Hout & Hcov & Hfrom & Hsub). split_and!.
    + rewrite fmap_cons. constructor; [|done]. intros (t & He & Ht)%list_elem_of_fmap. apply (Hout t Ht).
      rewrite <- He. cbn. set_solver.
    + intros t [->|Ht]%elem_of_cons; [done|]. specialize (Hout t Ht). set_solver.
    + intros m' [->|Hm]%elem_of_cons; [right; eexists; split; [by left|done]|].
      destruct (Hcov m' Hm) as [[He%elem_of_singleton|Hs]%elem_of_union|(t & Ht & He)]; [|by left|].
      * right. eexists. split; [by left|]. by rewrite He.
      * right. exists t. split; [by right|done].
    + intros t [->|Ht]%elem_of_cons; [exists m; split; [by left|done]|].
      destruct (Hfrom t Ht) as (m' & Hm' & ?). exists m'. split; [by right|done].
    + rewrite !fmap_cons. by constructor.
Qed.

Lemma set_id_addr ts t : target_addr (set_id ts t) = target_addr t.
Proof. done. Qed.

Definition plain_hosts (ts : list target) : Prop :=
  (∀ t, t ∈ ts → no_colon (tg_Port t)) ∧ ∀ t1 t2, t1 ∈ ts → t2 ∈ ts → tg_Host t1 ≠ JoinHostPort (tg_Host t2) (tg_Port t2).

Lemma set_id_nodup ts : NoDup (target_addr <$> ts) → plain_hosts ts → NoDup (ID <$> (set_id ts <$> ts)).
Proof.
  intros Hnd [Hport Hplain]. rewrite <- list_fmap_compose. apply NoDup_alt. intros i j n.
  rewrite !list_lookup_fmap. destruct (ts !! i) as [t1|] eqn:Hi; [|done]. destruct (ts !! j) as [t2|] eqn:Hj; [|done].
  cbn. intros [= <-] [= He]. destruct (decide (i = j)) as [|Hij]; [done|]. exfalso.
  pose proof (list_elem_of_lookup_2 _ _ _ Hi) as H1. pose proof (list_elem_of_lookup_2 _ _ _ Hj) as H2.
  assert (Hjoined : ∀ a b, ts !! i = Some a → ts !! j = Some b → tg_Host a = tg_Host b → (1 < per_host ts (tg_Host a))%nat).
  { intros a b Ha Hb Hab. by eapply (two_in_filter _ ts i j a b). }
  symmetry in He. destruct (decide (1 < per_host ts (tg_Host t1))%nat) as [Hp1|Hp1],
    (decide (1 < per_host ts (tg_Host t2))%nat) as [Hp2|Hp2].
  - apply JoinHostPort_inj in He as [Hh Hp]; [|by apply Hport..].
    apply Hij, (NoDup_lookup _ _ _ (target_addr t1) Hnd); rewrite list_lookup_fmap; [by rewrite Hi|rewrite Hj].
    cbn. f_equal. unfold target_addr. by rewrite Hh, Hp.
  - symmetry in He. by apply (Hplain t2 t1 H2 H1).
  - by apply (Hplain t1 t2 H1 H2).
  - specialize (Hjoined t1 t2 Hi Hj He). lia.
Qed.

Lemma host_meta_lookup ts t :
  NoDup (ID <$> ts) → t ∈ ts → host_meta ts !! ID t = Some (mkHostMeta (tg_Host t) (tg_Port t) (tg_Name t)).
Proof.
  intros Hnd Ht. unfold host_meta.
  apply (fold_insert_lookup ID (λ t, mkHostMeta (tg_Host t) (tg_Port t) (tg_Name t))); [done|]. left. by exists t.
Qed.

End plan_lemmas.

(** ** Lemmas: the discovery cycle *)

Section cycle_lemmas.
Context {T : GoText} {R : MapRange}.

Definition matching (p : Provider) (kvs : list kv) : list scopeData :=
  filter (λ s, MatchName (scopes_filter p) (s_Name s)) (parseLayout kvs (prefix p)).1.

(** The listing of a scope in a cycle. *)
Definition listing (env : cycle) (p : Provider) (s : scopeData) : listResult := listScope env p (plan_scope p s).

Lemma clusterName_inj p a b : clusterName p a = clusterName p b → a = b.
Proof. unfold clusterName. destruct (prefixName p); [|done]. by intros ?%string_app_inj_l%string_app_inj_l. Qed.

Lemma zip_with_fmap {A B C} (f : A → B → C) (g : A → B) l : zip_with f l (g <$> l) = (λ x, f x (g x)) <$> l.
Proof. induction l as [|x l IH]; [done|]. rewrite !fmap_cons. cbn. by rewrite IH. Qed.

Lemma matching_nodup p kvs : NoDup (kv_Key <$> kvs) → NoDup (s_Name <$> matching p kvs).
Proof.
  intros Hnd. destruct (layout_scopes _ _ _ _ Hnd (surjective_pairing (parseLayout kvs (prefix p)))) as (Hord & _ & _).
  eapply sublist_NoDup; [by apply (ordered_nodup s_Name)|]. apply fmap_sublist, sublist_filter.
Qed.

(** What [build] makes of the plans of some scopes. *)
Lemma build_spec env p scopes clusters next :
  NoDup (s_Name <$> scopes) → build p (plan p scopes) (listAll env p (plan p scopes)) = (clusters, next) →
  ordered Name clusters ∧
  (∀ cl, cl ∈ clusters ↔ ∃ s, s ∈ scopes ∧
    cl = cluster_of p (standbyOf scopes (names_of p (plan p scopes))) (plan_scope p s) (listing env p s)) ∧
  (∀ sc st, next !! sc = Some st ↔
    ∃ s, s ∈ scopes ∧ s_Name s = sc ∧ next_state p (plan_scope p s) (listing env p s) = st).
Proof.
  intros Hnd. unfold build, listAll. unfold plan at 3 4 5 6. rewrite !zip_with_fmap, <- !list_fmap_compose.
  assert (Hdata : data <$> plan p scopes = scopes) by (unfold plan; rewrite <- list_fmap_compose; apply list_fmap_id).
  rewrite Hdata. set (standby := standbyOf _ _). intros [= <- <-]. split; [|split].
  - apply (sort_ordered Name). rewrite <- list_fmap_compose.
    change (NoDup ((λ s, clusterName p (s_Name s)) <$> scopes)). rewrite (list_fmap_compose s_Name (clusterName p)).
    apply NoDup_fmap_2; [intros a b; apply clusterName_inj|done].
  - intros cl. rewrite elem_of_sort_slice, list_elem_of_fmap. cbn. naive_solver.
  - intros sc st.
    rewrite (fold_insert_lookup (λ x, s_Name (data x.1)) (λ x : scopePlan * listResult, next_state p x.1 x.2)).
    + rewrite lookup_empty. setoid_rewrite list_elem_of_fmap. cbn. split.
      * intros [(x & (s & -> & Hs) & Hsc & Hst)|[]]; [|done]. by exists s.
      * intros (s & Hs & Hsc & Hst). left. eexists. split; [by exists s|done].
    + rewrite <- list_fmap_compose. by change (NoDup (s_Name <$> scopes)).
Qed.

(** The databases a scope is known to have after a cycle. *)
Definition known (p : Provider) (sc : string) : list string := st_Databases (prev_state p sc).

(** A scope that never answered has no databases. *)
Definition unlisted_empty (p : Provider) : Prop := ∀ sc, Listed (prev_state p sc) = false → known p sc = [].

Lemma databasesState_known p sc r :
  unlisted_empty p →
  st_Databases (databasesState p sc r) = match r with inr (names, _) => names | inl _ => known p sc end ∧
  (Listed (databasesState p sc r) = false → st_Databases (databasesState p sc r) = []).
Proof.
  intros Hinv. unfold databasesState, known. destruct r as [e|[names sticky]]; [|done].
  destruct (Listed (prev_state p sc)) eqn:Hl; [done|]. split; [|done]. symmetry. by apply Hinv.
Qed.

End cycle_lemmas.

(** ** Properties *)

Section properties.
Context {T : GoText} {R : MapRange}.

(** A plan connects to every address of a scope once. The targets are members of the
    scope in their order, at the port of the settings or else their own; no two have the
    same address, and the address of every member has its target. When no host name is
    another member's host with its port, no two targets get the same instance name, and
    the published meta data of a name is that of its target. *)
Theorem plan_unique (p : Provider) s :
  let pl := plan_scope p s in
  let addr m := mkHostPort (m_Host m) (cmp_Or (sp_Port (pgFor p (s_Name s))) (m_Port m)) in
  data pl = s ∧ pg pl = pgFor p (s_Name s) ∧ NoDup (target_addr <$> members pl) ∧
  (∀ t, t ∈ members pl → ∃ m, m ∈ Members s ∧ m_Name m = tg_Name t ∧ addr m = target_addr t) ∧
  (∀ m, m ∈ Members s → ∃ t, t ∈ members pl ∧ target_addr t = addr m) ∧
  sublist (tg_Name <$> members pl) (m_Name <$> Members s) ∧
  (plain_hosts (members pl) →
    NoDup (ID <$> members pl) ∧
    ∀ t, t ∈ members pl → host_meta (members pl) !! ID t = Some (mkHostMeta (tg_Host t) (tg_Port t) (tg_Name t))).
Proof.
  cbv zeta. unfold plan_scope. cbn [data pg members].
  destruct (targets_of_spec (pgFor p (s_Name s)) ∅ (Members s)) as (Hnd & _ & Hcov & Hfrom & Hsub).
  destruct (targets_of _ ∅ (Members s)) as [ts dropped]. cbn [fst] in *.
  assert (Haddr : target_addr <$> (set_id ts <$> ts) = target_addr <$> ts) by by rewrite <- list_fmap_compose.
  assert (Hnames : tg_Name <$> (set_id ts <$> ts) = tg_Name <$> ts) by by rewrite <- list_fmap_compose.
  split_and!; [done|done|by rewrite Haddr| | |by rewrite Hnames|].
  - intros t (t' & -> & Ht)%list_elem_of_fmap. exact (Hfrom t' Ht).
  - intros m Hm. destruct (Hcov m Hm) as [?%elem_of_empty|(t & Ht & He)]; [done|].
    exists (set_id ts t). split; [by apply list_elem_of_fmap_2|done].
  - intros [Hport Hplain]. assert (Hids : NoDup (ID <$> (set_id ts <$> ts))).
    { apply set_id_nodup; [done|]. split.
      - intros t Ht. by apply (Hport (set_id ts t)), list_elem_of_fmap_2.
      - intros t1 t2 H1 H2. by apply (Hplain (set_id ts t1) (set_id ts t2)); apply list_elem_of_fmap_2. }
    split; [done|]. intros t Ht. by apply host_meta_lookup.
Qed.

(** A discovery cycle never loses what is known. A cycle whose store or context fails
    returns no clusters and leaves the provider as it was. Otherwise there is exactly one
    cluster for each scope of the layout that passes the filter, under distinct names in
    order, connecting to the targets of its plan with the settings of its scope; the
    databases known of the scope become those its members just listed, or, when none
    answered, stay those of the last cycle that listed them, and the cluster publishes the
    known ones that pass the scope's database filter. A scope that is not in the layout
    any more is forgotten. *)
Theorem Discover_keeps_lists env p r p' :
  unlisted_empty p → (∀ kvs, store_list env = Some kvs → NoDup (kv_Key <$> kvs)) → Discover env p = (r, p') →
  unlisted_empty p' ∧
  match r with
  | None => p' = p ∧ (store_list env = None ∨ ctx_err env = true)
  | Some clusters => ∃ kvs, store_list env = Some kvs ∧ ctx_err env = false ∧ ordered Name clusters ∧
      (Name <$> clusters) ≡ₚ ((λ s, clusterName p (s_Name s)) <$> matching p kvs) ∧
      (∀ s, s ∈ matching p kvs →
        known p' (s_Name s) = match listing env p s with inr (names, _) => names | inl _ => known p (s_Name s) end ∧
        ∃ cl, cl ∈ clusters ∧ Name cl = clusterName p (s_Name s) ∧
          Databases cl = filter (λ db, MatchDb (sp_filter (pgFor p (s_Name s))) db) (known p' (s_Name s)) ∧
          Hosts cl = ID <$> members (plan_scope p s) ∧ UserName cl = sp_User (pgFor p (s_Name s))) ∧
      (∀ sc, sc ∉ (s_Name <$> matching p kvs) → known p' sc = [])
  end.
Proof.
  intros Hinv Hkeys. unfold Discover. destruct (store_list env) as [kvs|] eqn:Hst; [|intros [= <- <-]; by split_and!; [..|left]].
  specialize (Hkeys kvs eq_refl). pose proof (matching_nodup p kvs Hkeys) as Hnd.
  destruct (parseLayout kvs (prefix p)) as [all skipped] eqn:Hp.
  set (scopes := filter (λ s, MatchName (scopes_filter p) (s_Name s)) all).
  assert (Hmatch : matching p kvs = scopes) by (unfold matching; by rewrite Hp). rewrite Hmatch in Hnd.
  destruct (ctx_err env) eqn:Hctx; [intros [= <- <-]; by split_and!; [..|right]|].
  destruct (build _ _ _) as [clusters next] eqn:Hb. intros [= <- <-].
  destruct (build_spec env p scopes clusters next Hnd Hb) as (Hord & Hcl & Hnext).
  set (p' := mkProvider _ _ _ _ _ _ _ _ _ _ _ _).
  assert (Hprev : ∀ sc st, next !! sc = Some st → prev_state p' sc = st).
  { intros sc st Hn. unfold prev_state, state_of. cbn. by rewrite Hn. }
  assert (Hgone : ∀ sc, next !! sc = None → prev_state p' sc = zero_state).
  { intros sc Hn. unfold prev_state, state_of. cbn. by rewrite Hn. }
  assert (Hscope : ∀ s, s ∈ scopes → prev_state p' (s_Name s) = next_state p (plan_scope p s) (listing env p s)).
  { intros s Hs. apply Hprev, Hnext. by exists s. }
  split.
  { intros sc. unfold known. destruct (next !! sc) as [st|] eqn:Hn; [|by rewrite Hgone].
    apply Hnext in Hn as (s & Hs & <- & _). rewrite Hscope by done. unfold next_state. cbn [Listed st_Databases].
    by apply databasesState_known. }
  exists kvs. rewrite Hmatch. split_and!; [done|done|done| | |].
  - apply NoDup_Permutation; [by apply (ordered_nodup Name)| |].
    + rewrite (list_fmap_compose s_Name (clusterName p)). apply NoDup_fmap_2; [intros a b; apply clusterName_inj|exact Hnd].
    + intros n. rewrite !list_elem_of_fmap. setoid_rewrite Hcl. naive_solver.
  - intros s Hs. unfold known. rewrite Hscope by done. split; [by apply databasesState_known|].
    eexists. split; [apply Hcl; exists s; split; [exact Hs|reflexivity]|]. by split_and!.
  - intros sc Hno. unfold known. rewrite Hgone; [done|]. destruct (next !! sc) as [st|] eqn:Hn; [|done].
    apply Hnext in Hn as (s & Hs & <- & _). destruct Hno. by apply list_elem_of_fmap_2.
Qed.

End properties.

(** ** Witnesses *)

Definition sample_config : Config :=
  mkPatroniConfig " etcd3 " "service" "" None 0 (mkEtcd ["http://etcd:2379"] "" "" "" (mkTLS "" "" "" false))
    (mkConsul "" "" "" "" (mkTLS "" "" "" false)) (mkPG "dasha" "" "DASHA_PW" "" "" None (Some "^postgres$"))
    {["Main" := mkOverride (Some "boss") None None None None None None]}.

(** One pattern is distinguished, every other one matches all. *)
Definition sample_compile (re : string) : option (string → bool) :=
  if decide (re = "^postgres$"%string) then Some (λ s, bool_decide (s = "postgres"%string)) else Some (λ _, true).

Definition with_provider {A} (d : A) (f : Provider → A) : A :=
  match newProvider (T := sample_text) (R := canonical_range) (λ _, "secret"%string) sample_compile "dcs" sample_config true with
  | inr p => f p
  | inl _ => d
  end.

Definition empty_filter : Filter := mkFilter (λ _, true) None None None.
Definition empty_pg : scopePG := mkScopePG "" "" "" "" empty_filter.
Definition sample_provider : Provider :=
  with_provider (mkProvider "" sample_config "" "" empty_filter empty_pg ∅ false 0 None ∅ ∅) (λ p, p).

Example sample_provider_resolved :
  prefix sample_provider = "/service/"%string ∧ interval sample_provider = 5 * Minute ∧
  sp_User (pgFor (T := sample_text) sample_provider "MAIN") = "boss"%string ∧
  sp_Password (pgFor (T := sample_text) sample_provider "dr") = "secret"%string ∧
  sp_BootstrapDB (base sample_provider) = "postgres"%string.
Proof. by vm_compute. Qed.

(** Only the host "pg-1" answers, or nobody does. *)
Definition up : cycle :=
  mkCycle (Some sample_keys)
    (λ _ _ t, if decide (t_Host t = "pg-1"%string) then Some ["app"; "postgres"]%string else None) (λ _ _, false) false.
Definition down : cycle := mkCycle (Some sample_keys) (λ _ _ _, None) (λ _ _, false) false.

Definition first_cycle : option (list Cluster) * Provider :=
  Discover (T := sample_text) (R := canonical_range) up sample_provider.
Definition second_cycle : option (list Cluster) * Provider :=
  Discover (T := sample_text) (R := canonical_range) down first_cycle.2.

Lemma plan_unique_witness :
  let s := mkScope "main" [mkMember "a" "pg-1" "5433"; mkMember "b" "pg-1" "5432"; mkMember "c" "pg-1" "5433"] "" [] false in
  let pl := plan_scope (T := sample_text) sample_provider s in
  ID <$> members pl = ["pg-1:5433"; "pg-1:5432"]%string ∧ NoDup (ID <$> members pl).
Proof.
  cbv zeta. split; [by vm_compute|].
  apply (plan_unique (T := sample_text) sample_provider
    (mkScope "main" [mkMember "a" "pg-1" "5433"; mkMember "b" "pg-1" "5432"; mkMember "c" "pg-1" "5433"] "" [] false)).
  split.
  - intros t Ht. apply list_elem_of_In in Ht. vm_compute in Ht. destruct Ht as [<-|[<-|[]]]; apply (bool_decide_unpack _); by vm_compute.
  - intros t1 t2 H1 H2. apply list_elem_of_In in H1. apply list_elem_of_In in H2. vm_compute in H1. vm_compute in H2.
    destruct H1 as [<-|[<-|[]]], H2 as [<-|[<-|[]]]; by vm_compute.
Defined.

Lemma sample_unlisted : unlisted_empty sample_provider.
Proof.
  intros sc _. unfold known, prev_state, state_of. change (state sample_provider) with (@None (gmap string scopeState)).
  cbn. by rewrite lookup_empty.
Qed.

Lemma sample_keys_nodup env : env = up ∨ env = down → ∀ kvs, store_list env = Some kvs → NoDup (kv_Key <$> kvs).
Proof. intros [-> | ->] kvs [= <-]; apply (bool_decide_unpack _); by vm_compute. Qed.

Lemma Discover_keeps_lists_witness :
  option_map (map (λ cl, (Name cl, Databases cl))) second_cycle.1 = Some [("dcs_dr", []); ("dcs_main", ["app"])]%string ∧
  unlisted_empty first_cycle.2 ∧ unlisted_empty second_cycle.2.
Proof.
  split; [by vm_compute|].
  assert (H1 : Discover (T := sample_text) (R := canonical_range) up sample_provider = (first_cycle.1, first_cycle.2)).
  { unfold first_cycle. apply surjective_pairing. }
  assert (H2 : Discover (T := sample_text) (R := canonical_range) down first_cycle.2 = (second_cycle.1, second_cycle.2)).
  { unfold second_cycle. apply surjective_pairing. }
  revert H1 H2. generalize first_cycle.1, first_cycle.2, second_cycle.1, second_cycle.2. intros r1 p1 r2 p2 H1 H2.
  assert (Hup : unlisted_empty p1).
  { apply (Discover_keeps_lists _ _ _ _ sample_unlisted (sample_keys_nodup up (or_introl eq_refl)) H1). }
  split; [exact Hup|].
  apply (Discover_keeps_lists _ _ _ _ Hup (sample_keys_nodup down (or_intror eq_refl)) H2).
Defined.
