(* ===== verification/Sqlparse.v ===== *)
(** * [internal/sqlparse]: the cached parser ([lru.go], [parser.go])

    The least-recently-used cache over [container/list], with its elements as pointers,
    and the parser that keeps one for statements and one for fingerprints. The WASM
    parser, the description of its tree and the rewriting of parameter casts are
    parameters; a text is hashed by [sha256]. *)

From Stdlib Require Import Ascii.
From S2P Require Import Prelude GoFloat AutoConfig PatroniLayout.
From stdpp Require Import options.

#[local] Set Default Proof Using "Type*".

(** ** The cache *)

Section lru.
Context {K : Type} `{Countable K} {V : Type}.

(** [cacheEntry], with the outcome as one value. *)
Record cacheEntry := mkEntry { e_key : K; e_val : V }.

(** The list holds the addresses of its elements, front first; [elems] is the memory. *)
Record lru := mkLru {
  max : Z;
  order : list nat;
  items : gmap K nat;
  elems : gmap nat cacheEntry
}.

Definition newLRU (size : Z) : lru := mkLru size [] ∅ ∅.

(** [MoveToFront] and [Remove] of [container/list]. *)
Definition remove_el (el : nat) (l : list nat) : list nat := filter (λ x, x ≠ el) l.
Definition move_to_front (el : nat) (l : list nat) : list nat := el :: remove_el el l.

Definition get (c : lru) (key : K) : option cacheEntry * lru :=
  match items c !! key with
  | None => (None, c)
  | Some el => (elems c !! el, mkLru (max c) (move_to_front el (order c)) (items c) (elems c))
  end.

(** The eviction loop; every round takes an element out, so the length is enough fuel. *)
Fixpoint evict (fuel : nat) (c : lru) : lru :=
  match fuel with
  | O => c
  | S fuel =>
      if Z.of_nat (length (order c)) <=? max c then c
      else
        match last (order c) with
        | None => c
        | Some oldest =>
            evict fuel (mkLru (max c) (remove_el oldest (order c))
              (match elems c !! oldest with Some e => delete (e_key e) (items c) | None => items c end) (elems c))
        end
  end.

(** A fresh address. *)
Definition new_el (c : lru) : nat := fresh (dom (elems c) : gset nat).

Definition put (c : lru) (key : K) (val : V) : lru :=
  match items c !! key with
  | Some el =>
      mkLru (max c) (move_to_front el (order c)) (items c) (<[el := mkEntry key val]> (elems c))
  | None =>
      let el := new_el c in
      let c := mkLru (max c) (el :: order c) (<[key := el]> (items c)) (<[el := mkEntry key val]> (elems c)) in
      evict (length (order c)) c
  end.

(** ** Abstract specification: a list of entries, the most recent first *)

Definition spec_find (key : K) (l : list (K * V)) : option V := snd <$> head (filter (λ x, x.1 = key) l).
Definition spec_without (key : K) (l : list (K * V)) : list (K * V) := filter (λ x, x.1 ≠ key) l.

Definition spec_get (l : list (K * V)) (key : K) : option V * list (K * V) :=
  match spec_find key l with
  | Some v => (Some v, (key, v) :: spec_without key l)
  | None => (None, l)
  end.

Definition spec_put (size : Z) (l : list (K * V)) (key : K) (val : V) : list (K * V) :=
  match spec_find key l with
  | Some _ => (key, val) :: spec_without key l
  | None => take (Z.to_nat size) ((key, val) :: l)
  end.

(** ** Refinement *)

Definition entry_at (c : lru) (el : nat) : option (K * V) := (λ e, (e_key e, e_val e)) <$> elems c !! el.

(** The cache holds the list: its elements are the entries in order, each indexed by its
    key, and nothing else is indexed. *)
Record holds (c : lru) (l : list (K * V)) : Prop := {
  h_nodup : NoDup (order c);
  h_keys : NoDup l.*1;
  h_entries : Forall2 (λ el x, entry_at c el = Some x) (order c) l;
  h_items : ∀ key el, items c !! key = Some el ↔ el ∈ order c ∧ ∃ v, entry_at c el = Some (key, v)
}.

Lemma holds_new size : holds (newLRU size) [].
Proof.
  split; cbn; [constructor|constructor|constructor|]. intros key el. rewrite lookup_empty.
  split; [done|by intros [?%elem_of_nil _]].
Qed.

Lemma holds_elem c l el x : holds c l → el ∈ order c → entry_at c el = Some x → x ∈ l.
Proof.
  intros [Hnd Hk He Hi] Hel Hx. apply list_elem_of_lookup in Hel as [i Hil].
  destruct (Forall2_lookup_l _ _ _ _ _ He Hil) as (y & Hy & Hey). rewrite Hx in Hey. injection Hey as <-.
  by eapply list_elem_of_lookup_2.
Qed.

Lemma filter_first_unique key (l : list (K * V)) v :
  NoDup l.*1 → (key, v) ∈ l → spec_find key l = Some v.
Proof.
  unfold spec_find. induction l as [|[k w] l IH]; [by intros _ ?%elem_of_nil|]. rewrite fmap_cons, NoDup_cons.
  intros [Hk Hnd] [Heq|Hin]%elem_of_cons.
  - injection Heq as -> ->. by rewrite filter_cons_True.
  - rewrite filter_cons_False; [by apply IH|]. intros Heq. cbn in Heq. subst. apply Hk.
    apply list_elem_of_fmap. by exists (key, v).
Qed.

Lemma spec_find_none key (l : list (K * V)) : spec_find key l = None ↔ key ∉ l.*1.
Proof.
  unfold spec_find. induction l as [|[k w] l IH]; [cbn; split; [intros _ ?%elem_of_nil; done|done]|].
  rewrite fmap_cons, not_elem_of_cons. cbn [fst]. destruct (decide (k = key)) as [->|Hk].
  - rewrite filter_cons_True by done. cbn. split; [done|by intros [? _]].
  - rewrite filter_cons_False by done. rewrite IH. naive_solver.
Qed.

Lemma holds_find c l key :
  holds c l → (items c !! key = None ∧ spec_find key l = None) ∨
  ∃ el v, items c !! key = Some el ∧ el ∈ order c ∧ entry_at c el = Some (key, v) ∧ spec_find key l = Some v.
Proof.
  intros Hh. destruct (items c !! key) as [el|] eqn:Hi.
  - right. apply (h_items c l Hh) in Hi as (Hel & v & Hv). exists el, v. split_and!; [done|done|done|].
    apply filter_first_unique; [apply Hh|]. by eapply holds_elem.
  - left. split; [done|]. apply spec_find_none. intros ([k v] & -> & Hin)%list_elem_of_fmap. cbn in Hi.
    apply list_elem_of_lookup in Hin as [i Hil]. destruct (Forall2_lookup_r _ _ _ _ _ (h_entries c l Hh) Hil) as (el & Hel & He).
    assert (Hs : items c !! k = Some el); [|congruence].
    apply (h_items c l Hh). split; [by eapply list_elem_of_lookup_2|by exists v].
Qed.

Lemma entry_key_iff c l el key v :
  holds c l → el ∈ order c → entry_at c el = Some (key, v) →
  ∀ el' x, el' ∈ order c → entry_at c el' = Some x → (el' = el ↔ x.1 = key).
Proof.
  intros Hh Hel Hv el' [k' v'] Hel' Hv'. cbn. split; [intros ->; congruence|]. intros ->.
  assert (H1 : items c !! key = Some el) by (apply (h_items c l Hh); split; [done|by exists v]).
  assert (H2 : items c !! key = Some el') by (apply (h_items c l Hh); split; [done|by exists v']). congruence.
Qed.

Lemma Forall2_without (R : nat → K * V → Prop) o l el key :
  Forall2 R o l → (∀ el' x, el' ∈ o → R el' x → (el' = el ↔ x.1 = key)) → Forall2 R (remove_el el o) (spec_without key l).
Proof.
  unfold remove_el, spec_without. induction 1 as [|el' x o l Hx Hf IH]; intros Hiff; [constructor|].
  assert (Hrest : ∀ el' x, el' ∈ o → R el' x → (el' = el ↔ x.1 = key)) by (intros ????; apply Hiff; [by right|done]).
  specialize (Hiff el' x ltac:(by left) Hx). destruct (decide (el' = el)) as [He|He].
  - rewrite filter_cons_False, filter_cons_False by tauto. by apply IH.
  - rewrite filter_cons_True, filter_cons_True by tauto. constructor; [done|by apply IH].
Qed.

Lemma without_keys key (l : list (K * V)) : NoDup l.*1 → NoDup (spec_without key l).*1 ∧ key ∉ (spec_without key l).*1.
Proof.
  intros Hnd. split.
  - eapply sublist_NoDup; [exact Hnd|]. apply fmap_sublist, sublist_filter.
  - intros (x & -> & [Hx _]%list_elem_of_filter)%list_elem_of_fmap. by apply Hx.
Qed.

Lemma elem_of_move el o x : el ∈ o → x ∈ move_to_front el o ↔ x ∈ o.
Proof.
  intros Hel. unfold move_to_front, remove_el. rewrite elem_of_cons, list_elem_of_filter.
  destruct (decide (x = el)) as [->|]; tauto.
Qed.

Lemma Forall2_impl_in {A B} (R S : A → B → Prop) l k :
  Forall2 R l k → (∀ x y, x ∈ l → R x y → S x y) → Forall2 S l k.
Proof.
  induction 1 as [|x y l k Hxy Hf IH]; intros HRS; constructor; [apply HRS; [by left|done]|].
  apply IH. intros ????. apply HRS; [by right|done].
Qed.

(** Touching an element: it moves to the front, with its old value or a new one. *)
Lemma holds_touch c l key el v w m :
  holds c l → el ∈ order c → entry_at c el = Some (key, v) →
  (∀ el', el' ≠ el → m !! el' = elems c !! el') → m !! el = Some (mkEntry key w) →
  holds (mkLru (max c) (move_to_front el (order c)) (items c) m) ((key, w) :: spec_without key l).
Proof.
  intros Hh Hel Hv Hother Hself. destruct (without_keys key l (h_keys c l Hh)) as [Hnd Hnk].
  assert (Hout : el ∉ remove_el el (order c)) by (intros [Hx _]%list_elem_of_filter; by apply Hx).
  split; cbn [order items elems max].
  - constructor; [done|]. apply NoDup_filter, Hh.
  - by constructor.
  - constructor; [unfold entry_at; cbn; by rewrite Hself|].
    pose proof (Forall2_without _ _ _ el key (h_entries c l Hh) (entry_key_iff c l el key v Hh Hel Hv)) as Hf.
    apply (Forall2_impl_in _ _ _ _ Hf). intros el' x Hx. unfold entry_at. cbn. by rewrite Hother; [|intros ->].
  - intros k el'. rewrite elem_of_move by done. rewrite (h_items c l Hh). unfold entry_at. cbn [elems].
    destruct (decide (el' = el)) as [->|Hne]; [|by rewrite Hother].
    rewrite Hself. unfold entry_at in Hv. cbn. split; intros [Hin (w' & Hw)]; (split; [done|]).
    + exists w. congruence.
    + exists v. rewrite Hv. congruence.
Qed.

Lemma holds_get c l key :
  holds c l →
  (snd <$> ((λ e, (e_key e, e_val e)) <$> (get c key).1)) = (spec_get l key).1 ∧ holds (get c key).2 (spec_get l key).2.
Proof.
  intros Hh. unfold get, spec_get.
  destruct (holds_find c l key Hh) as [[-> ->]|(el & v & -> & Hel & Hv & ->)]; [done|]. cbn [fst snd]. split.
  - unfold entry_at in Hv. destruct (elems c !! el); [|done]. cbn in *. congruence.
  - unfold entry_at in Hv. destruct (elems c !! el) as [e|] eqn:He; [|done].
    assert (e = mkEntry key v) as -> by (destruct e; cbn in Hv; congruence).
    eapply (holds_touch c l key el v v (elems c)); try done. unfold entry_at. by rewrite He.
Qed.

Lemma last_split {A} (o : list A) : o ≠ [] → ∃ o' x, o = o' ++ [x].
Proof. intros Ho. destruct (exists_last Ho) as (o' & x & ->). by exists o', x. Qed.

(** Taking the last element out. *)
Lemma holds_drop_last c o oldest l k v :
  order c = o ++ [oldest] → holds c (l ++ [(k, v)]) →
  holds (mkLru (max c) (remove_el oldest (order c)) (delete k (items c)) (elems c)) l ∧
  entry_at c oldest = Some (k, v) ∧ remove_el oldest (order c) = o.
Proof.
  intros Ho Hh. pose proof (h_entries c _ Hh) as Hf. rewrite Ho in Hf.
  apply Forall2_app_inv in Hf as [Hf Hlast]; [|apply Forall2_length in Hf; rewrite !length_app in Hf; cbn in Hf; lia].
  apply Forall2_cons_1 in Hlast as [Hlast _].
  pose proof (h_nodup c _ Hh) as Hnd. rewrite Ho in Hnd. apply NoDup_app in Hnd as (Hndo & Hout & _).
  assert (Hold : oldest ∉ o) by (intros Hin; apply (Hout oldest Hin); by left).
  assert (Hrem : remove_el oldest (order c) = o).
  { rewrite Ho. unfold remove_el. rewrite filter_app, filter_cons_False by (intros Hx; by apply Hx). cbn. rewrite app_nil_r.
    apply filter_all, list.Forall_forall. by intros x Hx ->. }
  split; [|done]. rewrite Hrem. pose proof (h_keys c _ Hh) as Hk. rewrite fmap_app in Hk.
  apply NoDup_app in Hk as (Hk & Hkout & _). split; cbn [order items elems max]; [done|done|exact Hf|].
  intros key el. rewrite lookup_delete_Some, (h_items c _ Hh), Ho. split.
  - intros (Hne & [Hin| ->%list_elem_of_singleton]%elem_of_app & w & Hw); [split; [done|by exists w]|].
    rewrite Hlast in Hw. congruence.
  - intros (Hin & w & Hw). change (entry_at c el = Some (key, w)) in Hw. split.
    + intros <-. assert (el = oldest) as ->; [|done].
      apply (entry_key_iff c (l ++ [(k, v)]) oldest k v Hh) with (x := (k, w)); [rewrite Ho; apply elem_of_app; right; by left|done| |done|done].
      rewrite Ho. apply elem_of_app. by left.
    + split; [apply elem_of_app; by left|by exists w].
Qed.

Lemma holds_evict fuel c l :
  holds c l → (length (order c) ≤ fuel)%nat →
  holds (evict fuel c) (take (Z.to_nat (max c)) l) ∧ max (evict fuel c) = max c.
Proof.
  revert c l. induction fuel as [|fuel IH]; intros c l Hh Hlen; pose proof (Forall2_length _ _ _ (h_entries c l Hh)) as Hl;
    cbn [evict].
  { by rewrite take_ge by lia. }
  destruct (Z.leb_spec (Z.of_nat (length (order c))) (max c)) as [Hle|Hgt]; [by rewrite take_ge by lia|].
  destruct (decide (order c = [])) as [Ho|Ho]; [rewrite Ho; cbn; rewrite Ho in Hl; cbn in Hl; by rewrite take_ge by lia|].
  destruct (last_split _ Ho) as (o & oldest & Hsplit).
  assert (Hl0 : l ≠ []) by (intros ->; rewrite Hsplit, length_app in Hl; cbn in Hl; lia).
  destruct (last_split _ Hl0) as (l' & [k v] & ->).
  destruct (holds_drop_last c o oldest l' k v Hsplit Hh) as (Hh' & Hent & Hrem).
  assert (Hlast : last (order c) = Some oldest) by (rewrite Hsplit; apply last_snoc). rewrite Hlast.
  unfold entry_at in Hent. destruct (elems c !! oldest) as [e|] eqn:He; [|done]. cbn in Hent.
  assert (e_key e = k) as -> by congruence.
  rewrite length_app in Hl. cbn in Hl. rewrite take_app_le by lia.
  apply (IH _ l' Hh'). cbn [order]. rewrite Hrem. rewrite Hsplit, length_app in Hlen. cbn in Hlen. lia.
Qed.

Lemma holds_put c l key val :
  holds c l → holds (put c key val) (spec_put (max c) l key val) ∧ max (put c key val) = max c.
Proof.
  intros Hh. unfold put, spec_put.
  destruct (holds_find c l key Hh) as [[-> Hf]|(el & v & -> & Hel & Hv & ->)].
  - rewrite Hf. cbv zeta. set (el := new_el c). set (c' := mkLru _ _ _ _).
    assert (Hfresh : elems c !! el = None) by exact (proj1 (not_elem_of_dom (D := gset nat) (elems c) el) (is_fresh _)).
    assert (Hout : el ∉ order c).
    { intros Hin. apply list_elem_of_lookup in Hin as [i Hi].
      destruct (Forall2_lookup_l _ _ _ _ _ (h_entries c l Hh) Hi) as (x & _ & Hx). unfold entry_at in Hx. by rewrite Hfresh in Hx. }
    assert (Hh' : holds c' ((key, val) :: l)).
    { subst c'. split; cbn [order items elems max].
      - constructor; [done|apply Hh].
      - rewrite fmap_cons. constructor; [by apply spec_find_none|apply Hh].
      - constructor; [unfold entry_at; cbn; by rewrite lookup_insert_eq|].
        apply (Forall2_impl_in _ _ _ _ (h_entries c l Hh)). intros el' x Hx. unfold entry_at. cbn.
        rewrite lookup_insert_ne; [done|by intros <-].
      - intros k el'. rewrite lookup_insert_Some, (h_items c l Hh), elem_of_cons. unfold entry_at. cbn [elems].
        destruct (decide (el' = el)) as [->|Hne].
        + rewrite lookup_insert_eq. cbn. split.
          * intros [[<- _]|(_ & Hin & _)]; [|by destruct Hout]. split; [by left|by exists val].
          * intros [_ (v & Hv)]. left. split; [congruence|done].
        + rewrite lookup_insert_ne by done. split.
          * intros [[_ ->]|(Hk & Hin & Hv)]; [done|]. split; [by right|done].
          * intros [[->|Hin] (v & Hv)]; [done|]. right. split; [|split; [done|by exists v]].
            intros ->. apply spec_find_none in Hf. apply Hf. apply list_elem_of_fmap. exists (k, v). split; [done|].
            by eapply holds_elem. }
    apply (holds_evict _ c' _ Hh'). done.
  - split; [|done]. eapply (holds_touch c l key el v val); try done; [|by rewrite lookup_insert_eq].
    intros el' Hne. by rewrite lookup_insert_ne.
Qed.

(** *** Runs of operations *)

Inductive op := Get (key : K) | Put (key : K) (val : V).

Definition run_op (st : lru * list (option V)) (o : op) : lru * list (option V) :=
  match o with
  | Get key => let '(r, c) := get st.1 key in (c, st.2 ++ [e_val <$> r])
  | Put key val => (put st.1 key val, st.2)
  end.

Definition spec_op (size : Z) (st : list (K * V) * list (option V)) (o : op) : list (K * V) * list (option V) :=
  match o with
  | Get key => let '(r, l) := spec_get st.1 key in (l, st.2 ++ [r])
  | Put key val => (spec_put size st.1 key val, st.2)
  end.

Lemma spec_op_length size st o :
  (length st.1 ≤ Z.to_nat size)%nat → (length (spec_op size st o).1 ≤ Z.to_nat size)%nat.
Proof.
  assert (Hw : ∀ key (l : list (K * V)) v, spec_find key l = Some v → (S (length (spec_without key l)) ≤ length l)%nat).
  { intros key l v Hf. unfold spec_find, spec_without in *. induction l as [|[k w] l IH]; [done|].
    destruct (decide (k = key)) as [->|Hk].
    - rewrite filter_cons_False by (intros Hx; by apply Hx). cbn. pose proof (length_filter (λ x : K * V, x.1 ≠ key) l). lia.
    - rewrite filter_cons_True by done. rewrite filter_cons_False in Hf by done. cbn. specialize (IH Hf). lia. }
  intros Hl. destruct o as [key|key val]; cbn.
  - unfold spec_get. destruct (spec_find key st.1) as [v|] eqn:Hf; [|done]. cbn. specialize (Hw _ _ _ Hf). lia.
  - unfold spec_put. destruct (spec_find key st.1) as [v|] eqn:Hf; [cbn; specialize (Hw _ _ _ Hf); lia|].
    rewrite length_take. lia.
Qed.

Lemma run_refines size os c l outs :
  holds c l → max c = size → (length l ≤ Z.to_nat size)%nat →
  let st := foldl run_op (c, outs) os in let sp := foldl (spec_op size) (l, outs) os in
  st.2 = sp.2 ∧ holds st.1 sp.1 ∧ max st.1 = size ∧ (length sp.1 ≤ Z.to_nat size)%nat.
Proof.
  cbv zeta. revert c l outs. induction os as [|o os IH]; intros c l outs Hh Hm Hl; [done|]. cbn [foldl].
  pose proof (spec_op_length size (l, outs) o Hl) as Hlen. destruct o as [key|key val]; cbn [run_op spec_op fst snd] in *.
  - destruct (holds_get c l key Hh) as [Hr Hh']. destruct (get c key) as [r c'] eqn:Hg.
    destruct (spec_get l key) as [r' l'] eqn:Hs. cbn [fst snd] in *.
    assert (e_val <$> r = r') as -> by (rewrite <- Hr; by destruct r).
    apply IH; [done| |done]. unfold get in Hg. destruct (items c !! key); injection Hg as _ <-; done.
  - destruct (holds_put c l key val Hh) as [Hh' Hm']. rewrite Hm in Hh', Hm'. by apply IH.
Qed.

(** C10: the cache implements the recency list. Whatever the sequence of operations on a
    new cache, every [get] answers what the list of entries answers, in which a hit and a
    [put] move their key to the front and a new key beyond the size pushes the last one
    out; the order list, the index and the memory of the cache always hold exactly that
    list, of at most [size] entries and with distinct keys. *)
Theorem lru_refines size os :
  let st := foldl run_op (newLRU size, []) os in let sp := foldl (spec_op size) ([], []) os in
  st.2 = sp.2 ∧ holds st.1 sp.1 ∧ (length (order st.1) ≤ Z.to_nat size)%nat.
Proof.
  cbv zeta. destruct (run_refines size os (newLRU size) [] [] (holds_new size) eq_refl) as (H1 & H2 & H3 & H4); [cbn; lia|].
  split; [done|]. split; [done|]. by rewrite (Forall2_length _ _ _ (h_entries _ _ H2)).
Qed.

End lru.

Arguments lru K {_ _} V.
Arguments holds {_ _ _ _}.

(** ** The parser *)

(** [strings.Contains], and [strings.HasSuffix] and [strings.TrimRight] on ASCII sets. *)
Fixpoint Contains (s sub : string) : bool :=
  HasPrefix s sub || match s with EmptyString => false | String _ s' => Contains s' sub end.

Definition rev_string (s : string) : string := String.string_of_list_ascii (reverse (String.list_ascii_of_string s)).
Definition HasSuffix (s suffix : string) : bool := HasPrefix (rev_string s) (rev_string suffix).

Fixpoint drop_while (p : Ascii.ascii → bool) (l : list Ascii.ascii) : list Ascii.ascii :=
  match l with c :: l' => if p c then drop_while p l' else l | [] => [] end.

Definition TrimRight (s : string) (cutset : list Ascii.ascii) : string :=
  String.string_of_list_ascii (reverse (drop_while (λ c, bool_decide (c ∈ cutset)) (reverse (String.list_ascii_of_string s)))).

Record Ref := mkRef { r_Schema : string; r_Name : string; r_Alias : string }.
Record Usage := mkUsage { u_Ref : Ref; u_Column : string; u_Role : string; u_Desc : bool; u_Seq : Z }.
Record Statement := mkStatement {
  Kind : string; Fingerprint : string; Tables : list Ref; Usages : list Usage; Written : list Ref; Unsupported : list string
}.
Definition empty_statement : Statement := mkStatement "" "" [] [] [] [].
Definition with_fingerprint (st : Statement) (fp : string) : Statement :=
  mkStatement (Kind st) fp (Tables st) (Usages st) (Written st) (Unsupported st).

Record Config := mkConfig { MaxQueryBytes : Z; CacheSize : Z; MaxParallel : Z }.

Definition withDefaults (c : Config) : Config :=
  mkConfig (if MaxQueryBytes c <=? 0 then 100 * 1024 else MaxQueryBytes c)
    (if CacheSize c <=? 0 then 1000 else CacheSize c)
    (if MaxParallel c <=? 0 then 1 else MaxParallel c).

Definition insufficientPrivilege : string := "<insufficient privilege>".
Definition truncationMark : string := "...".

Section parser.
(** [sha256.Sum256]; the tree of the WASM parser with its two entry points (a recovered
    panic is an error); [describe] of [walk.go] and [RestoreParamCasts] of
    [paramcast.go]. *)
Context {digest : Type} `{Countable digest} {tree perr : Type}.
Context (sha256 : string → digest) (pgq_Parse : string → perr + tree) (pgq_Fingerprint : string → perr + string)
  (describe : tree → Statement) (RestoreParamCasts : string → string).

(** [Error]: the reason code and the error it wraps. *)
Record Error := mkError { Code : string; wrapped : option perr }.

Record parser := mkParser {
  cfg : Config;
  cache : lru digest (Statement * option Error);
  fpCache : lru digest (Statement * option Error)
}.

Definition New (c : Config) : parser :=
  let c := withDefaults c in mkParser c (newLRU (CacheSize c)) (newLRU (CacheSize c)).

Definition looksTruncated (sql : string) : bool :=
  HasSuffix (TrimRight sql [";"; " "; "009"; "013"; "010"]%char) truncationMark.

Definition precheck (c : Config) (sql : string) : option Error :=
  let trimmed := TrimSpace sql in
  if decide (trimmed = ""%string) then Some (mkError "empty" None)
  else if Contains trimmed insufficientPrivilege then Some (mkError "insufficient_privilege" None)
  else if MaxQueryBytes c <? Z.of_nat (String.length sql) then Some (mkError "too_long" None)
  else if looksTruncated trimmed then Some (mkError "truncated" None)
  else None.

Definition parseUncached (c : Config) (sql : string) : Statement * option Error :=
  match precheck c sql with
  | Some e => (empty_statement, Some e)
  | None =>
      let fixed := RestoreParamCasts sql in
      let '(text, parsed) :=
        match pgq_Parse sql with
        | inl err => if decide (fixed = sql) then (sql, inl err) else (fixed, pgq_Parse fixed)
        | inr t => (sql, inr t)
        end in
      match parsed with
      | inl err => (empty_statement, Some (mkError "parse_error" (Some err)))
      | inr t =>
          match pgq_Fingerprint text with
          | inl err => (empty_statement, Some (mkError "parse_error" (Some err)))
          | inr fp => (with_fingerprint (describe t) fp, None)
          end
      end
  end.

Definition fingerprintUncached (c : Config) (sql : string) : string * option Error :=
  match precheck c sql with
  | Some e => (""%string, Some e)
  | None =>
      let fixed := RestoreParamCasts sql in
      match (match pgq_Fingerprint sql with
             | inl err => if decide (fixed = sql) then inl err else pgq_Fingerprint fixed
             | inr fp => inr fp
             end) with
      | inl err => (""%string, Some (mkError "parse_error" (Some err)))
      | inr fp => (fp, None)
      end
  end.

Definition Parse (p : parser) (sql : string) : (Statement * option Error) * parser :=
  let key := sha256 sql in
  match get (cache p) key with
  | (Some e, c) => (e_val e, mkParser (cfg p) c (fpCache p))
  | (None, c) =>
      let r := parseUncached (cfg p) sql in
      (r, mkParser (cfg p) (put c key r) (fpCache p))
  end.

Definition Fingerprint_of (p : parser) (sql : string) : (string * option Error) * parser :=
  let key := sha256 sql in
  match get (fpCache p) key with
  | (Some e, c) => ((Fingerprint (e_val e).1, (e_val e).2), mkParser (cfg p) (cache p) c)
  | (None, c) =>
      let '(fp, err) := fingerprintUncached (cfg p) sql in
      ((fp, err), mkParser (cfg p) (cache p) (put c key (with_fingerprint empty_statement fp, err)))
  end.

(** *** Caching is invisible *)

(** No two of these texts have the same hash. *)
Definition collision_free (texts : list string) : Prop := ∀ x y, x ∈ texts → y ∈ texts → sha256 x = sha256 y → x = y.

(** A cache that remembers outcomes of [f] on some of these texts, under their hashes. *)
Definition remembers {A} (texts : list string) (f : string → A) (size : Z) (c : lru digest A) : Prop :=
  ∃ l, holds c l ∧ max c = size ∧ (length l ≤ Z.to_nat size)%nat ∧
    ∀ k v, (k, v) ∈ l → ∃ sql, sql ∈ texts ∧ k = sha256 sql ∧ v = f sql.

Lemma remembers_new {A} texts (f : string → A) size : remembers texts f size (newLRU size).
Proof. exists []. split; [apply holds_new|]. split; [done|]. split; [cbn; lia|]. by intros k v ?%elem_of_nil. Qed.

Lemma remembers_put {A} texts (f : string → A) size (c : lru digest A) sql :
  sql ∈ texts → remembers texts f size c → remembers texts f size (put c (sha256 sql) (f sql)).
Proof.
  intros Hsql (l & Hh & Hm & Hlen & Hl). destruct (holds_put c l (sha256 sql) (f sql) Hh) as [Hh' Hm'].
  exists (spec_put (max c) l (sha256 sql) (f sql)). split; [done|]. split; [congruence|].
  split; [rewrite Hm; by apply (spec_op_length size (l, []) (Put (sha256 sql) (f sql)))|]. intros k v.
  unfold spec_put. destruct (spec_find _ l).
  - intros [[= -> ->]|[_ Hin]%list_elem_of_filter]%elem_of_cons; [by exists sql|by apply Hl].
  - intros Hin. apply (sublist_subseteq _ _ (sublist_take _ _)) in Hin.
    apply elem_of_cons in Hin as [[= -> ->]|Hin]; [by exists sql|by apply Hl].
Qed.

Lemma remembers_get {A} texts (f : string → A) size (c : lru digest A) sql :
  collision_free texts → sql ∈ texts → remembers texts f size c →
  remembers texts f size (get c (sha256 sql)).2 ∧ ∀ e, (get c (sha256 sql)).1 = Some e → e_val e = f sql.
Proof.
  intros Hinj Hsql (l & Hh & Hm & Hlen & Hl). destruct (holds_get c l (sha256 sql) Hh) as [Hr Hh'].
  pose proof (spec_op_length size (l, []) (Get (V := A) (sha256 sql)) Hlen) as Hlen'. cbn in Hlen'.
  assert (Hmax : max (get c (sha256 sql)).2 = size) by (unfold get; by destruct (items c !! sha256 sql)).
  unfold spec_get in *. destruct (spec_find (sha256 sql) l) as [v|] eqn:Hf.
  - assert (Hin : (sha256 sql, v) ∈ l).
    { unfold spec_find in Hf. destruct (filter _ l) as [|[k w] rest] eqn:Hfl; [done|]. injection Hf as ->.
      assert (Hx : (k, v) ∈ filter (λ x, x.1 = sha256 sql) l) by (rewrite Hfl; by left).
      apply list_elem_of_filter in Hx as [Hk Hx]. cbn in Hk. by subst. }
    cbn [fst snd] in *. split.
    + eexists. split; [exact Hh'|]. split; [done|]. split; [done|].
      intros k w [[= -> ->]|[_ Hx]%list_elem_of_filter]%elem_of_cons; by apply Hl.
    + intros e He. rewrite He in Hr. cbn in Hr. destruct (Hl _ _ Hin) as (sql' & Hin' & Hs & ->).
      apply Hinj in Hs; [|done..]. subst. congruence.
  - cbn [fst snd] in *. split; [by exists l|]. intros e He. by rewrite He in Hr.
Qed.

Definition caches_ok (texts : list string) (p : parser) : Prop :=
  remembers texts (parseUncached (cfg p)) (CacheSize (cfg p)) (cache p) ∧
  remembers texts (λ sql, let '(fp, err) := fingerprintUncached (cfg p) sql in (with_fingerprint empty_statement fp, err))
    (CacheSize (cfg p)) (fpCache p).

Lemma Parse_step texts p sql :
  collision_free texts → sql ∈ texts → caches_ok texts p →
  (Parse p sql).1 = parseUncached (cfg p) sql ∧ caches_ok texts (Parse p sql).2 ∧ cfg (Parse p sql).2 = cfg p.
Proof.
  intros Hinj Hsql [Hc Hf]. unfold Parse. destruct (remembers_get _ _ _ _ sql Hinj Hsql Hc) as [Hc' He].
  destruct (get (cache p) (sha256 sql)) as [[e|] c]; cbn [fst snd] in *.
  - split; [by apply He|]. by split_and!.
  - split; [done|]. split; [|done]. split; [|done]. by apply remembers_put.
Qed.

Lemma Fingerprint_step texts p sql :
  collision_free texts → sql ∈ texts → caches_ok texts p →
  (Fingerprint_of p sql).1 = fingerprintUncached (cfg p) sql ∧ caches_ok texts (Fingerprint_of p sql).2 ∧
  cfg (Fingerprint_of p sql).2 = cfg p.
Proof.
  intros Hinj Hsql [Hc Hf]. unfold Fingerprint_of. destruct (remembers_get _ _ _ _ sql Hinj Hsql Hf) as [Hf' He].
  destruct (get (fpCache p) (sha256 sql)) as [[e|] c]; cbn [fst snd] in *.
  - rewrite (He e eq_refl). destruct (fingerprintUncached (cfg p) sql). by split_and!.
  - pose proof (remembers_put _ _ _ _ sql Hsql Hf') as Hput. cbn beta in Hput.
    destruct (fingerprintUncached (cfg p) sql). by split_and!.
Qed.

Lemma remembers_size {A} texts (f : string → A) size (c : lru digest A) :
  0 < size → remembers texts f size c → Z.of_nat (length (order c)) <= size.
Proof. intros Hs (l & Hh & _ & Hlen & _). rewrite (Forall2_length _ _ _ (h_entries _ _ Hh)). lia. Qed.

Lemma withDefaults_positive c : 0 < CacheSize (withDefaults c).
Proof. cbn. destruct (Z.leb_spec (CacheSize c) 0); lia. Qed.

(** What clients call, and what they see. *)
Inductive request := RParse (sql : string) | RFingerprint (sql : string).

Definition text_of (r : request) : string := match r with RParse sql | RFingerprint sql => sql end.

Definition serve (p : parser) (r : request) : (Statement * option Error) * parser :=
  match r with
  | RParse sql => Parse p sql
  | RFingerprint sql =>
      let '((fp, err), p) := Fingerprint_of p sql in ((with_fingerprint empty_statement fp, err), p)
  end.

Definition uncached (c : Config) (r : request) : Statement * option Error :=
  match r with
  | RParse sql => parseUncached c sql
  | RFingerprint sql => let '(fp, err) := fingerprintUncached c sql in (with_fingerprint empty_statement fp, err)
  end.

Fixpoint serve_all (p : parser) (rs : list request) : list (Statement * option Error) * parser :=
  match rs with
  | [] => ([], p)
  | r :: rs => let '(a, p) := serve p r in let '(answers, p) := serve_all p rs in (a :: answers, p)
  end.

Lemma serve_step texts p r :
  collision_free texts → text_of r ∈ texts → caches_ok texts p →
  (serve p r).1 = uncached (cfg p) r ∧ caches_ok texts (serve p r).2 ∧ cfg (serve p r).2 = cfg p.
Proof.
  intros Hinj Hsql Hok. destruct r as [sql|sql]; [by apply Parse_step|]. unfold serve, uncached.
  destruct (Fingerprint_step texts p sql Hinj Hsql Hok) as (H1 & H2 & H3).
  destruct (Fingerprint_of p sql) as [[fp err] p']. cbn [fst snd] in *. by rewrite <- H1.
Qed.

Lemma serve_all_steps texts rs p :
  collision_free texts → text_of <$> rs ⊆ texts → caches_ok texts p →
  (serve_all p rs).1 = uncached (cfg p) <$> rs ∧ caches_ok texts (serve_all p rs).2 ∧ cfg (serve_all p rs).2 = cfg p.
Proof.
  intros Hinj. revert p. induction rs as [|r rs IH]; intros p Hrs Hok; [done|]. cbn [serve_all].
  rewrite fmap_cons in Hrs. destruct (serve_step texts p r Hinj ltac:(set_solver) Hok) as (Hr & Hok' & Hcfg). destruct (serve p r) as [a p']. cbn [fst snd] in *.
  destruct (IH p' ltac:(set_solver) Hok') as (Ha & Hok'' & Hcfg'). destruct (serve_all p' rs) as [answers p'']. cbn [fst snd] in *.
  split; [|split; [done|congruence]]. rewrite fmap_cons, Hr, Ha. by rewrite Hcfg.
Qed.

(** C11: caching changes no answer. Whatever statements a new parser is asked to parse or to
    fingerprint, in whatever order, as long as no two different texts among them have the same
    digest, each answer, failures included, is the one of a parse without a cache; and both
    caches stay within the configured size. *)
Theorem cache_transparent c rs :
  collision_free (text_of <$> rs) →
  let '(answers, p) := serve_all (New c) rs in
  answers = uncached (withDefaults c) <$> rs ∧
  Z.of_nat (length (order (cache p))) <= CacheSize (cfg p) ∧ Z.of_nat (length (order (fpCache p))) <= CacheSize (cfg p).
Proof.
  intros Hinj. assert (Hok : caches_ok (text_of <$> rs) (New c)) by (split; apply remembers_new).
  destruct (serve_all_steps _ rs (New c) Hinj ltac:(done) Hok) as (Ha & [H1 H2] & Hcfg). destruct (serve_all (New c) rs) as [answers p].
  cbn [fst snd] in *. split; [done|]. rewrite Hcfg in *. pose proof (withDefaults_positive c).
  split; by eapply remembers_size.
Qed.

End parser.

(** ** Witness *)

(** A parser that takes every text for its own fingerprint, and a digest of four characters. *)
Definition short_digest (s : string) : string := String.substring 0 4 s.

Definition sample_requests : list request :=
  [RParse "a"; RFingerprint "a"; RParse ""; RParse "a"; RParse "SELECT ..."]%string.

Lemma cache_transparent_witness :
  short_digest "SELECT 1" = short_digest "SELECT 2" ∧
  let answers := (serve_all (digest := string) (tree := string) (perr := unit) short_digest inr inr
    (λ t, mkStatement t "" [] [] [] []) id (New (mkConfig 0 2 0)) sample_requests).1 in
  answers =
    [(mkStatement "a" "a" [] [] [] [], None); (mkStatement "" "a" [] [] [] [], None);
     (empty_statement, Some (mkError "empty" None)); (mkStatement "a" "a" [] [] [] [], None);
     (empty_statement, Some (mkError "truncated" None))]%string ∧
  answers = uncached (tree := string) (perr := unit) inr inr (λ t, mkStatement t "" [] [] [] []) id
    (withDefaults (mkConfig 0 2 0)) <$> sample_requests.
Proof.
  split; [by vm_compute|]. cbv zeta. split; [by vm_compute|].
  pose proof (cache_transparent (digest := string) (tree := string) (perr := unit) short_digest inr inr
    (λ t, mkStatement t "" [] [] [] []) id (mkConfig 0 2 0) sample_requests) as Hc.
  destruct (serve_all _ _ _ _ _ _ sample_requests) as [answers p]. apply Hc.
  intros x y Hx Hy. unfold sample_requests in Hx, Hy. cbn [fmap list_fmap text_of] in Hx, Hy.
  rewrite !elem_of_cons, elem_of_nil in Hx, Hy.
  destruct Hx as [->|[->|[->|[->|[->|[]]]]]], Hy as [->|[->|[->|[->|[->|[]]]]]]; vm_compute; congruence.
Defined.
