(* ===== verification/Auth.v ===== *)
(** * [internal/auth]: who gets in, and as whom

    API keys, OIDC sessions and their refresh, roles from claims, the middlewares and the
    order in which the server applies them, the login routes, and the access policy.
    A handler is a function of the request, the user and what the response has collected;
    the cookie codec, the identity provider, the token store and the policy engine are
    third-party code and parameters. Log lines are left out. *)

From Stdlib Require Import Ascii.
From S2P Require Import Prelude GoFloat AutoConfig PatroniLayout Sqlparse.
From stdpp Require Import options.

#[local] Set Default Proof Using "Type*".

(** ** Data *)

Definition RoleAdmin : string := "admin".
Definition RoleViewer : string := "viewer".
Definition defaultRole : string := RoleViewer.

Inductive Method := MethodToken | MethodOIDC | MethodPAT.
Record UserContext := mkUser { u_Name : string; u_Email : string; u_Role : string; u_AuthMethod : Method }.
Record AuthToken := mkAuthToken { at_Name : string; at_Token : string; at_Role : string }.

Record OIDCConfig := mkOIDC {
  IssuerURL : string; ClientID : string; RoleClaim : string; RoleMapping : gmap string string; cfg_DenyUnmapped : bool
}.
Record AuthConfig := mkAuthConfig {
  Mode : string; Tokens : list AuthToken; OIDC : option OIDCConfig; RequireHTTPS : bool; PATMinRole : string
}.

Record SessionData := mkSession {
  RefreshToken : string; IDToken : string; s_ExpiresAt : Z; UserName : string; UserEmail : string; UserRole : string
}.

#[global] Instance SessionData_eq_dec : EqDecision SessionData.
Proof. solve_decision. Defined.

Record request := mkRequest {
  r_Scheme : string; r_Header : string → string; r_Path : string; r_Method : string;
  r_Cookie : string → option string; r_QueryParam : string → string;
  r_Route : string; r_IP : string (** the host part of [RealIP] *)
}.

Record cookie := mkCookie { c_Name : string; c_Value : string; c_MaxAge : Z; c_Secure : bool }.

(** What a request does besides answering. *)
Inductive event := ESetCookie (c : cookie) | ERevoke (refreshToken : string) | ERecordLogin (email name role : string).

Record ctx := mkCtx { c_req : request; c_user : option UserContext; c_events : list event }.

Inductive response :=
  | RError (status : Z) | RRedirect (url : string) | RPage (status : Z) | RJSON (fields : list (string * string))
  | RHandled.

Definition handler : Type := ctx → response * ctx.
Definition middleware : Type := handler → handler.

Definition errUnauthorized : response := RError 401.
Definition errForbidden : response := RError 403.
Definition errHTTPSRequired : response := RError 403.
Definition errOIDCUnavailable : response := RError 503.
Definition errNoActiveSession : response := RError 401.
Definition errAuthorizationErr : response := RError 500.

Definition emit (e : event) (c : ctx) : ctx := mkCtx (c_req c) (c_user c) (c_events c ++ [e]).
Definition SetUser (u : UserContext) (c : ctx) : ctx := mkCtx (c_req c) (Some u) (c_events c).

(** ** Configuration: [AuthConfig.Validate] *)

Inductive auth_error := errPATMinRole | errTokenRequired | errOIDCRequired | errOIDCIncomplete | errDenyUnmapped | errMode.

Definition Validate (a : AuthConfig) : auth_error + AuthConfig :=
  if decide (PATMinRole a ∉ [""; RoleViewer; RoleAdmin]%string) then inl errPATMinRole
  else
    let a := mkAuthConfig (Mode a) (Tokens a) (OIDC a) (RequireHTTPS a)
      (if decide (PATMinRole a = ""%string) then RoleAdmin else PATMinRole a) in
    if decide (Mode a = "none"%string ∨ Mode a = ""%string) then inr a
    else if decide (Mode a = "token"%string) then
      if Nat.eqb (length (Tokens a)) 0 then inl errTokenRequired else inr a
    else if decide (Mode a = "oidc"%string) then
      match OIDC a with
      | None => inl errOIDCRequired
      | Some o =>
          if decide (IssuerURL o = ""%string ∨ ClientID o = ""%string) then inl errOIDCIncomplete
          else if cfg_DenyUnmapped o && bool_decide (RoleMapping o = ∅) then inl errDenyUnmapped
          else inr a
      end
    else inl errMode.

(** ** Roles from claims *)

(** A [map[string]any] is a JSON object, in which a later entry of a key replaces an
    earlier one; [nil] is [JNull]. *)
Definition lookup_key (entries : list (string * json)) (k : string) : json :=
  default JNull (snd <$> last (filter (λ e, e.1 = k) entries)).

Fixpoint nestedValue (cur : json) (keys : list string) : json :=
  match keys with
  | [] => cur
  | k :: keys =>
      match cur with
      | JObject entries => nestedValue (lookup_key entries k) keys
      | _ => JNull
      end
  end.

Definition maps_to (roleMapping : gmap string string) (role : string) (r : json) : bool :=
  match r with JString s => bool_decide (roleMapping !! s = Some role) | _ => false end.

Definition is_string (s : string) (r : json) : bool :=
  match r with JString s' => bool_decide (s' = s) | _ => false end.

Definition extractRoleFromClaims (claims : json) (claimPath : string) (roleMapping : gmap string string) : string * bool :=
  match nestedValue claims (Split "."%char claimPath) with
  | JArray roles =>
      if decide (roleMapping ≠ ∅) then
        if existsb (maps_to roleMapping RoleAdmin) roles then (RoleAdmin, true)
        else if existsb (maps_to roleMapping RoleViewer) roles then (RoleViewer, true)
        else (defaultRole, false)
      else if existsb (is_string RoleAdmin) roles then (RoleAdmin, false)
      else (defaultRole, false)
  | _ => (defaultRole, false)
  end.

(** ** The identity provider, the cookie codec and the token store *)

Record token := mkToken { t_RefreshToken : string; t_Expiry : Z; t_IDToken : option string }.

(** The answers of third-party code during one request; [None] is an error. *)
Class Surroundings := {
  now : Z;
  encode : string → SessionData → option string;
  decode : string → string → option SessionData;
  ready : bool;
  refresh : string → option token;
  exchange : string → option token;
  verify : string → option string;
  token_claims : string → option json;
  random_state : option string;
  auth_code_url : string → string;
  logout_url : string → string;
  resolve_token : string → option UserContext;
  record_login : bool
}.

(** [OIDCProvider]: its configuration. *)
Record OIDCProvider := mkProvider { p_cfg : OIDCConfig; roleClaim : string }.

Definition NewOIDCProvider (cfg : OIDCConfig) : OIDCProvider :=
  mkProvider cfg (if decide (RoleClaim cfg = ""%string) then "realm_access.roles"%string else RoleClaim cfg).

Definition DenyUnmapped (p : OIDCProvider) : bool := cfg_DenyUnmapped (p_cfg p).

Definition ExtractRole (p : OIDCProvider) (claims : json) : option string :=
  let '(role, mapped) := extractRoleFromClaims claims (roleClaim p) (RoleMapping (p_cfg p)) in
  if DenyUnmapped p && negb mapped then None else Some role.

(** ** Sessions *)

Definition cookieName : string := "dasha_session".
Definition stateCookieName : string := "oauth_state".
Definition stateMaxAge : Z := 300.
Definition maxCookieSize : Z := 4000.

Definition isSecureRequest (r : request) : bool :=
  bool_decide (r_Scheme r = "https"%string) || bool_decide (r_Header r "X-Forwarded-Proto" = "https"%string).

Section auth.
Context {S : Surroundings}.
(** [SessionManager.maxAge], and whether the server has a token store and a login recorder. *)
Context (maxAge : Z) (has_resolver has_recorder : bool).

Definition set_cookie (name value : string) (age : Z) (c : ctx) : ctx :=
  emit (ESetCookie (mkCookie name value age (isSecureRequest (c_req c)))) c.

Definition drop_id_token (d : SessionData) : SessionData :=
  mkSession (RefreshToken d) "" (s_ExpiresAt d) (UserName d) (UserEmail d) (UserRole d).

(** [SetSession]; [None] is a failure to encode, which sets no cookie. *)
Definition SetSession (c : ctx) (data : SessionData) : option ctx :=
  encoded ← encode cookieName data;
  encoded ←
    (if (maxCookieSize <? Z.of_nat (String.length encoded)) && negb (bool_decide (IDToken data = ""%string))
     then encode cookieName (drop_id_token data) else Some encoded);
  Some (set_cookie cookieName encoded maxAge c).

Definition GetSession (c : ctx) : option SessionData :=
  value ← r_Cookie (c_req c) cookieName; decode cookieName value.

Definition ClearSession (c : ctx) : ctx := set_cookie cookieName "" (-1) c.

Definition session_user (s : SessionData) : UserContext := mkUser (UserName s) (UserEmail s) (UserRole s) MethodOIDC.

Definition with_role (s : SessionData) (role : string) : SessionData :=
  mkSession (RefreshToken s) (IDToken s) (s_ExpiresAt s) (UserName s) (UserEmail s) role.

(** The session with the new tokens. *)
Definition with_token (s : SessionData) (t : token) : SessionData :=
  mkSession (if decide (t_RefreshToken t = ""%string) then RefreshToken s else t_RefreshToken t)
    (match t_IDToken t with Some raw => raw | None => IDToken s end)
    (t_Expiry t) (UserName s) (UserEmail s) (UserRole s).

(** The role in the new token, [Some None] for one that is refused, [None] when there is
    no verified token to read it from. *)
Definition recheck_role (p : OIDCProvider) (t : token) : option (option string) :=
  raw ← t_IDToken t; id ← verify raw; claims ← token_claims id; Some (ExtractRole p claims).

(** [ValidateAndRefresh]: [None] is an error. *)
Definition ValidateAndRefresh (c : ctx) (p : OIDCProvider) : option UserContext * ctx :=
  match GetSession c with
  | None => (None, c)
  | Some s =>
      if (s_ExpiresAt s <? now) && negb (bool_decide (RefreshToken s = ""%string)) then
        if negb ready then (None, ClearSession c)
        else
          match refresh (RefreshToken s) with
          | None => (None, ClearSession c)
          | Some t =>
              let s' := with_token s t in
              match recheck_role p t with
              | Some None => (None, ClearSession c)
              | Some (Some role) =>
                  match SetSession c (with_role s' role) with
                  | None => (None, c)
                  | Some c => (Some (session_user (with_role s' role)), c)
                  end
              | None =>
                  if DenyUnmapped p then (None, ClearSession c)
                  else
                    match SetSession c s' with
                    | None => (None, c)
                    | Some c => (Some (session_user s'), c)
                    end
              end
          end
      else (Some (session_user s), c)
  end.

Definition SetStateCookie (c : ctx) : option (string * ctx) :=
  state ← random_state; Some (state, set_cookie stateCookieName state stateMaxAge c).

(** [None] is an error; the state cookie is then left alone. *)
Definition ValidateStateCookie (c : ctx) : option ctx :=
  value ← r_Cookie (c_req c) stateCookieName;
  if decide (value = ""%string ∨ value ≠ r_QueryParam (c_req c) "state") then None
  else Some (set_cookie stateCookieName "" (-1) c).

Definition ExchangeCode (c : ctx) : option token :=
  let code := r_QueryParam (c_req c) "code" in
  if decide (code = ""%string) then None else if ready then exchange code else None.

(** ** API keys *)

Fixpoint validateToken (tokens : list AuthToken) (apiKey : string) : option UserContext :=
  match tokens with
  | [] => None
  | t :: tokens =>
      if decide (at_Token t ≠ ""%string ∧ apiKey = at_Token t) then Some (mkUser (at_Name t) "" (at_Role t) MethodToken)
      else validateToken tokens apiKey
  end.

Definition resolveAPIKey (c : ctx) (tokens : list AuthToken) : option UserContext :=
  let apiKey := r_Header (c_req c) "X-API-Key" in
  if decide (apiKey = ""%string) then None
  else
    match validateToken tokens apiKey with
    | Some user => Some user
    | None => if has_resolver then resolve_token apiKey else None
    end.

(** ** Middlewares *)

Definition noopMiddleware : middleware := λ next, next.

Definition requireHTTPSMiddleware (enabled : bool) : middleware := λ next c,
  if enabled && negb (isSecureRequest (c_req c)) then (errHTTPSRequired, c) else next c.

Definition tokenMiddleware (tokens : list AuthToken) : middleware := λ next c,
  match resolveAPIKey c tokens with
  | None => (errUnauthorized, c)
  | Some user => next (SetUser user c)
  end.

Definition isAPIRequest (c : ctx) : bool := HasPrefix (r_Path (c_req c)) "/api/".

Definition oidcMiddleware (tokens : list AuthToken) (provider : option OIDCProvider) : middleware := λ next c,
  if decide (r_Header (c_req c) "X-API-Key" ≠ ""%string) then tokenMiddleware tokens next c
  else
    match provider with
    | None => (errOIDCUnavailable, c)
    | Some p =>
        match ValidateAndRefresh c p with
        | (None, c) => if isAPIRequest c then (errUnauthorized, c) else (RRedirect "/auth/login", c)
        | (Some user, c) => next (SetUser user c)
        end
    end.

Definition NewAuthMiddleware (cfg : AuthConfig) (provider : option OIDCProvider) : middleware :=
  if decide (Mode cfg = "token"%string) then tokenMiddleware (Tokens cfg)
  else if decide (Mode cfg = "oidc"%string) then oidcMiddleware (Tokens cfg) provider
  else noopMiddleware.

(** [enforce] is the policy engine's answer; [None] is an error. *)
Definition NewCasbinMiddleware (cfg : AuthConfig) (enforce : string → string → string → option bool) : middleware :=
  if decide (Mode cfg = "none"%string ∨ Mode cfg = ""%string) then noopMiddleware
  else λ next c,
    match c_user c with
    | None => (errUnauthorized, c)
    | Some user =>
        match enforce (u_Role user) (r_Path (c_req c)) (r_Method (c_req c)) with
        | None => (errAuthorizationErr, c)
        | Some false => (errForbidden, c)
        | Some true => next c
        end
    end.

Definition SkipAuth (mw : middleware) (paths : list string) : middleware := λ next c,
  if decide (r_Path (c_req c) ∈ paths) then next c else mw next c.

Definition SkipAuthPrefix (mw : middleware) (prefixes : list string) : middleware := λ next c,
  if existsb (HasPrefix (r_Path (c_req c))) prefixes then next c else mw next c.

(** *** Rate limits ([ratelimit.go])

    A store of limiters is asked for a key; which stores exist is the configuration's. *)

Record RateLimitConfig := mkRateLimit { rps_positive : bool; Burst : Z }.

Definition rateLimitKey (c : ctx) : string :=
  match c_user c with Some u => ("user:" +:+ u_Name u)%string | None => ("ip:" +:+ r_IP (c_req c))%string end.

Definition errRateLimitExceed : response := RError 429.

Definition limited (allow : string → bool) : middleware := λ next c,
  if allow (rateLimitKey c) then next c else (errRateLimitExceed, c).

(** A missing configuration and a rate that is not positive disable a limit. *)
Definition NewRateLimiter (cfg : option RateLimitConfig) (allow : string → bool) : middleware :=
  match cfg with
  | Some l => if rps_positive l then limited allow else noopMiddleware
  | None => noopMiddleware
  end.

(** [newStoreFor]: the burst of the store, at least one. *)
Definition newStoreFor (cfg : option RateLimitConfig) : option Z :=
  match cfg with Some l => if rps_positive l then Some (Z.max (Burst l) 1) else None | None => None end.

Record RateLimitGroup := mkGroup { g_User : option RateLimitConfig; g_Admin : option RateLimitConfig }.

(** A store is named by its group ([None] for the default one) and its audience. *)
Definition NewPathRateLimiter (paths : list string) (def : RateLimitGroup) (groups : gmap string RateLimitGroup)
    (group : option (ctx → string)) (allow : option string → bool → string → bool) : middleware := λ next c,
  if decide (r_Route (c_req c) ∉ paths) then next c
  else
    let '(name, stores) :=
      match group with
      | Some f => match groups !! f c with Some g => (Some (f c), g) | None => (None, def) end
      | None => (None, def)
      end in
    let admin := match c_user c with Some u => bool_decide (u_Role u = RoleAdmin) | None => false end in
    match newStoreFor (if admin then g_Admin stores else g_User stores) with
    | None => next c
    | Some _ => limited (allow name admin) next c
    end.

(** [NewMiddlewares] and the order of [http.New]. *)
Definition skipPublic (mw : middleware) : middleware := SkipAuth (SkipAuthPrefix mw ["/auth/"%string]) ["/api/auth/info"%string].

Definition provider_of (cfg : AuthConfig) : option OIDCProvider :=
  if decide (Mode cfg = "oidc"%string) then NewOIDCProvider <$> OIDC cfg else None.

Definition server (cfg : AuthConfig) (enforce : string → string → string → option bool)
    (rateLimitMW logsRateLimitMW : middleware) : middleware := λ route,
  requireHTTPSMiddleware (RequireHTTPS cfg)
    (skipPublic (NewAuthMiddleware cfg (provider_of cfg))
      (rateLimitMW (logsRateLimitMW (skipPublic (NewCasbinMiddleware cfg enforce) route)))).

(** ** The login routes ([bff.go]) *)

Definition loginHandler (provider : option OIDCProvider) : handler := λ c,
  match provider with
  | Some _ =>
      if ready then
        match SetStateCookie c with
        | None => (RPage 500, c)
        | Some (state, c) => (RRedirect (auth_code_url state), c)
        end
      else (RPage 503, c)
  | None => (RPage 503, c)
  end.

(** The record of a sign-in; a failed write is only logged. *)
Definition recordLogin (email name role : string) (c : ctx) : ctx :=
  if negb has_recorder || bool_decide (email = ""%string) then c else emit (ERecordLogin email name role) c.

Definition claim_string (claims : json) (k : string) : string :=
  match nestedValue claims [k] with JString s => s | _ => ""%string end.

Definition callbackHandler (provider : option OIDCProvider) : handler := λ c,
  match provider with
  | None => (RPage 503, c)
  | Some p =>
      if negb ready then (RPage 503, c)
      else
        match ValidateStateCookie c with
        | None => (RRedirect "/auth/login", c)
        | Some c =>
            match ExchangeCode c with
            | None => (RPage 502, c)
            | Some t =>
                match t_IDToken t with
                | None => (RPage 502, c)
                | Some raw =>
                    match verify raw with
                    | None => (RPage 401, c)
                    | Some id =>
                        match token_claims id with
                        | None => (RPage 500, c)
                        | Some claims =>
                            let name := claim_string claims "preferred_username" in
                            let email := claim_string claims "email" in
                            match ExtractRole p claims with
                            | None => (RPage 403, emit (ERevoke (t_RefreshToken t)) c)
                            | Some role =>
                                match SetSession c (mkSession (t_RefreshToken t) raw (t_Expiry t) name email role) with
                                | None => (RPage 500, c)
                                | Some c => (RRedirect "/", recordLogin email name role c)
                                end
                            end
                        end
                    end
                end
            end
        end
  end.

Definition logoutHandler (provider : option OIDCProvider) : handler := λ c,
  match GetSession c with
  | None => (errNoActiveSession, c)
  | Some s =>
      let c := ClearSession c in
      match provider with
      | Some _ =>
          (RJSON [("status", "ok"); ("logout_url", logout_url (IDToken s))]%string, emit (ERevoke (RefreshToken s)) c)
      | None => (RJSON [("status", "ok"); ("logout_url", "")]%string, c)
      end
  end.

Definition meHandler (provider : option OIDCProvider) : handler := λ c,
  match provider with
  | None => (errUnauthorized, c)
  | Some p =>
      match ValidateAndRefresh c p with
      | (None, c) => (errUnauthorized, c)
      | (Some u, c) => (RJSON [("name", u_Name u); ("email", u_Email u); ("role", u_Role u)]%string, c)
      end
  end.

End auth.

(** ** Access policy ([casbin.go]) *)

Inductive effect := Allow | Deny.
Record rule := mkRule { p_sub : string; p_obj : string; p_act : string; p_eft : effect }.

Definition casbinPolicy : list rule :=
  [mkRule "admin" "/api/*" "GET" Allow; mkRule "admin" "/api/*" "POST" Allow;
   mkRule "admin" "/api/*" "PUT" Allow; mkRule "admin" "/api/*" "DELETE" Allow;
   mkRule "viewer" "/api/*" "GET" Allow; mkRule "viewer" "/api/auth/tokens" "POST" Allow;
   mkRule "viewer" "/api/auth/tokens/*" "DELETE" Allow; mkRule "viewer" "/api/auth/admin/*" "GET" Deny;
   mkRule "viewer" "/api/auth/admin/*" "DELETE" Deny; mkRule "viewer" "/api/logs/check" "GET" Deny].

Definition literal (s : string) : Prop :=
  ("*"%char ∉ String.list_ascii_of_string s) ∧ (":"%char ∉ String.list_ascii_of_string s).

#[global] Instance literal_dec s : Decision (literal s).
Proof. unfold literal. apply _. Defined.

(** What the model text asks of the policy engine: a request matches a rule of its subject
    (the policy has no roles of roles), its method and a pattern [keyMatch2] accepts; some
    matching rule allows and none denies. A pattern that ends in [/*] accepts what starts
    with its stem and the slash, one without [*] and [:] itself only. *)
Class PolicyEngine := {
  keyMatch2 : string → string → bool;
  Enforce : list rule → string → string → string → option bool;
  keyMatch2_star path stem : literal stem → keyMatch2 path (stem +:+ "/*")%string = HasPrefix path (stem +:+ "/")%string;
  keyMatch2_exact path obj : literal obj → keyMatch2 path obj = bool_decide (path = obj);
  Enforce_effect policy sub obj act :
    let matching := filter (λ r, p_sub r = sub ∧ keyMatch2 obj (p_obj r) = true ∧ p_act r = act) policy in
    Enforce policy sub obj act =
      Some (existsb (λ r, match p_eft r with Allow => true | Deny => false end) matching &&
            negb (existsb (λ r, match p_eft r with Allow => false | Deny => true end) matching))
}.

Definition enforcer `{PolicyEngine} : string → string → string → option bool := Enforce casbinPolicy.

(** *** What the policy grants *)

Definition under (path stem : string) : bool := HasPrefix path (stem +:+ "/")%string.

Definition granted (sub path act : string) : bool :=
  if decide (sub = RoleAdmin) then under path "/api" && bool_decide (act ∈ ["GET"; "POST"; "PUT"; "DELETE"]%string)
  else if decide (sub = RoleViewer) then
    if decide (act = "GET"%string) then
      under path "/api" && negb (under path "/api/auth/admin") && negb (bool_decide (path = "/api/logs/check"%string))
    else if decide (act = "POST"%string) then bool_decide (path = "/api/auth/tokens"%string)
    else if decide (act = "DELETE"%string) then under path "/api/auth/tokens" && negb (under path "/api/auth/admin")
    else false
  else false.

Section policy.
Context `{PolicyEngine}.

Lemma existsb_filter {A} (P : A → Prop) `{∀ x, Decision (P x)} (f : A → bool) l :
  existsb f (filter P l) = existsb (λ x, bool_decide (P x) && f x) l.
Proof.
  induction l as [|x l IH]; [done|]. destruct (decide (P x)) as [Hx|Hx].
  - rewrite filter_cons_True by done. cbn. by rewrite IH, bool_decide_true.
  - rewrite filter_cons_False by done. cbn. by rewrite IH, bool_decide_false.
Qed.

Lemma rule_matches sub obj act r :
  bool_decide (p_sub r = sub ∧ keyMatch2 obj (p_obj r) = true ∧ p_act r = act) =
  bool_decide (p_sub r = sub) && keyMatch2 obj (p_obj r) && bool_decide (p_act r = act).
Proof. repeat case_bool_decide; destruct (keyMatch2 obj (p_obj r)); naive_solver. Qed.

Lemma star_match path stem pattern :
  pattern = (stem +:+ "/*")%string → bool_decide (literal stem) = true → keyMatch2 path pattern = under path stem.
Proof. intros -> Hl%bool_decide_eq_true. by apply keyMatch2_star. Qed.

Lemma exact_match path obj : bool_decide (literal obj) = true → keyMatch2 path obj = bool_decide (path = obj).
Proof. intros Hl%bool_decide_eq_true. by apply keyMatch2_exact. Qed.

Lemma enforcer_granted sub path act : enforcer sub path act = Some (granted sub path act).
Proof.
  unfold enforcer. rewrite Enforce_effect. f_equal. rewrite !existsb_filter.
  unfold casbinPolicy. cbn [existsb]. rewrite !rule_matches. cbn [p_sub p_obj p_act p_eft].
  rewrite !(star_match path "/api" "/api/*"), !(star_match path "/api/auth/tokens" "/api/auth/tokens/*"),
    !(star_match path "/api/auth/admin" "/api/auth/admin/*"), (exact_match path "/api/auth/tokens"),
    (exact_match path "/api/logs/check") by (done || by vm_compute).
  unfold granted, RoleAdmin, RoleViewer.
  set (a := under path "/api"). set (t := under path "/api/auth/tokens"). set (m := under path "/api/auth/admin").
  set (lc := bool_decide (path = "/api/logs/check"%string)). set (tk := bool_decide (path = "/api/auth/tokens"%string)).
  assert (Hact : act ∈ ["GET"; "POST"; "PUT"; "DELETE"]%string ∨
    ((("GET"%string ≠ act ∧ "POST"%string ≠ act) ∧ ("PUT"%string ≠ act ∧ "DELETE"%string ≠ act)) ∧
     act ∉ ["GET"; "POST"; "PUT"; "DELETE"]%string)).
  { destruct (decide (act ∈ ["GET"; "POST"; "PUT"; "DELETE"]%string)); [by left|right; set_solver]. }
  assert (Hsub : sub ∈ ["admin"; "viewer"]%string ∨ ("admin"%string ≠ sub ∧ "viewer"%string ≠ sub)).
  { destruct (decide (sub ∈ ["admin"; "viewer"]%string)); [by left|right; set_solver]. }
  destruct Hsub as [Hsub|[H1 H2]].
  - destruct Hact as [Hact|[[[H1 H2] [H3 H4]] H5]].
    + apply elem_of_cons in Hsub as [->|[->|[]%elem_of_nil]%elem_of_cons];
        apply elem_of_cons in Hact as [->|[->|[->|[->|[]%elem_of_nil]%elem_of_cons]%elem_of_cons]%elem_of_cons];
        destruct a, t, m, lc, tk; by vm_compute.
    + rewrite !(bool_decide_false ("GET"%string = act)), !(bool_decide_false ("POST"%string = act)),
        !(bool_decide_false ("PUT"%string = act)), !(bool_decide_false ("DELETE"%string = act)),
        (bool_decide_false (act ∈ _)), !(decide_False (P := act = _)) by (done || by apply not_eq_sym).
      rewrite !andb_false_r. by repeat case_decide.
  - rewrite !(bool_decide_false ("admin"%string = sub)), !(bool_decide_false ("viewer"%string = sub)) by done.
    by rewrite !(decide_False (P := sub = _)) by (by apply not_eq_sym).
Qed.

End policy.

(** ** Specification *)

Section spec.
Context {S : Surroundings}.
Context (maxAge : Z) (has_resolver : bool).

(** The entries of the role claim. *)
Definition claim_roles (p : OIDCProvider) (claims : json) : list json :=
  match nestedValue claims (Split "."%char (roleClaim p)) with JArray roles => roles | _ => [] end.

Definition mapped_to (p : OIDCProvider) (claims : json) (role : string) : Prop :=
  ∃ s, JString s ∈ claim_roles p claims ∧ RoleMapping (p_cfg p) !! s = Some role.

(** What makes an administrator: an entry mapped to admin, or without a mapping the entry
    "admin" itself. *)
Definition claims_admin (p : OIDCProvider) (claims : json) : Prop :=
  if decide (RoleMapping (p_cfg p) ≠ ∅) then mapped_to p claims RoleAdmin
  else JString RoleAdmin ∈ claim_roles p claims.

Definition claims_mapped (p : OIDCProvider) (claims : json) : Prop :=
  mapped_to p claims RoleAdmin ∨ mapped_to p claims RoleViewer.

Definition needs_refresh (s : SessionData) : bool := (s_ExpiresAt s <? now) && negb (bool_decide (RefreshToken s = ""%string)).

(** The session a request goes on with: its own, or the refreshed one. *)
Definition session_grants (p : OIDCProvider) (s : SessionData) (u : UserContext) : Prop :=
  if needs_refresh s then
    ready = true ∧ ∃ t, refresh (RefreshToken s) = Some t ∧
      ((∃ raw id claims role, t_IDToken t = Some raw ∧ verify raw = Some id ∧ token_claims id = Some claims ∧
          ExtractRole p claims = Some role ∧ u = session_user (with_role (with_token s t) role)) ∨
       (recheck_role p t = None ∧ DenyUnmapped p = false ∧ u = session_user (with_token s t)))
  else u = session_user s.

(** How a user can have been authenticated. *)
Definition authenticated (cfg : AuthConfig) (c : ctx) (u : UserContext) : Prop :=
  let apiKey := r_Header (c_req c) "X-API-Key" in
  (∃ t, t ∈ Tokens cfg ∧ at_Token t ≠ ""%string ∧ apiKey = at_Token t ∧ u = mkUser (at_Name t) "" (at_Role t) MethodToken) ∨
  (has_resolver = true ∧ apiKey ≠ ""%string ∧ resolve_token apiKey = Some u) ∨
  (Mode cfg = "oidc"%string ∧ apiKey = ""%string ∧
   ∃ p s, provider_of cfg = Some p ∧ GetSession c = Some s ∧ session_grants p s u).

(** Cookies that were set under the session's name. *)
Definition session_cookies (es : list event) : list cookie :=
  omap (λ e, match e with ESetCookie k => if decide (c_Name k = cookieName) then Some k else None | _ => None end) es.

(** *** Lemmas *)

Lemma existsb_elem {A} (f : A → bool) l : existsb f l = true ↔ ∃ x, x ∈ l ∧ f x = true.
Proof. rewrite existsb_exists. by setoid_rewrite <- list_elem_of_In. Qed.

Lemma existsb_maps m role roles : existsb (maps_to m role) roles = true ↔ ∃ s, JString s ∈ roles ∧ m !! s = Some role.
Proof.
  rewrite existsb_elem. unfold maps_to. split.
  - intros ([| | |s| |] & Hin & Hm); try done. exists s. split; [done|]. by apply bool_decide_eq_true in Hm.
  - intros (s & Hin & Hm). exists (JString s). split; [done|]. by apply bool_decide_eq_true.
Qed.

Lemma existsb_is_string s roles : existsb (is_string s) roles = true ↔ JString s ∈ roles.
Proof.
  rewrite existsb_elem. unfold is_string. split.
  - intros ([| | |s'| |] & Hin & Hm); try done. apply bool_decide_eq_true in Hm. by subst.
  - intros Hin. exists (JString s). split; [done|]. by apply bool_decide_eq_true.
Qed.

Lemma extract_roles p claims :
  extractRoleFromClaims claims (roleClaim p) (RoleMapping (p_cfg p)) =
  let roles := claim_roles p claims in let m := RoleMapping (p_cfg p) in
  if decide (m ≠ ∅) then
    if existsb (maps_to m RoleAdmin) roles then (RoleAdmin, true)
    else if existsb (maps_to m RoleViewer) roles then (RoleViewer, true) else (RoleViewer, false)
  else if existsb (is_string RoleAdmin) roles then (RoleAdmin, false) else (RoleViewer, false).
Proof. unfold extractRoleFromClaims, claim_roles. destruct (nestedValue _ _); try done; cbn; by case_decide. Qed.

Lemma extract_spec p claims role mapped :
  extractRoleFromClaims claims (roleClaim p) (RoleMapping (p_cfg p)) = (role, mapped) →
  (mapped = true ↔ claims_mapped p claims) ∧
  ((role = RoleAdmin ∧ claims_admin p claims) ∨ (role = RoleViewer ∧ ¬ claims_admin p claims)).
Proof.
  rewrite extract_roles. cbv zeta. unfold claims_mapped, claims_admin, mapped_to. case_decide as Hm.
  - pose proof (existsb_maps (RoleMapping (p_cfg p)) RoleAdmin (claim_roles p claims)) as Ha.
    pose proof (existsb_maps (RoleMapping (p_cfg p)) RoleViewer (claim_roles p claims)) as Hv.
    destruct (existsb _ _); [|destruct (existsb _ _)]; intros [= <- <-]; (split; [|]); naive_solver.
  - rewrite Hm. setoid_rewrite lookup_empty.
    pose proof (existsb_is_string RoleAdmin (claim_roles p claims)) as Ha.
    destruct (existsb _ _); intros [= <- <-]; (split; [|]); naive_solver.
Qed.

Lemma ExtractRole_spec p claims :
  (ExtractRole p claims = None ↔ DenyUnmapped p = true ∧ ¬ claims_mapped p claims) ∧
  ∀ role, ExtractRole p claims = Some role →
    (role = RoleAdmin ∧ claims_admin p claims) ∨ (role = RoleViewer ∧ ¬ claims_admin p claims).
Proof.
  unfold ExtractRole. destruct (extractRoleFromClaims _ _ _) as [role mapped] eqn:He.
  destruct (extract_spec p claims role mapped He) as [Hm Hr].
  destruct (DenyUnmapped p), mapped; cbn; split; naive_solver.
Qed.

Lemma recheck_spec p t :
  (∀ r, recheck_role p t = Some r → ∃ raw id claims, t_IDToken t = Some raw ∧ verify raw = Some id ∧
    token_claims id = Some claims ∧ ExtractRole p claims = r).
Proof.
  intros r. unfold recheck_role. destruct (t_IDToken t) as [raw|]; [|done]. cbn [mbind option_bind].
  destruct (verify raw) as [id|] eqn:Hv; [|done]. cbn [mbind option_bind].
  destruct (token_claims id) as [claims|] eqn:Hc; [|done]. cbn [mbind option_bind].
  intros [= Hr]. by exists raw, id, claims.
Qed.

Lemma SetSession_spec c d c' :
  SetSession maxAge c d = Some c' →
  ∃ value, (encode cookieName d = Some value ∨ encode cookieName (drop_id_token d) = Some value) ∧
    c' = set_cookie cookieName value maxAge c.
Proof.
  unfold SetSession. destruct (encode cookieName d) as [v|] eqn:Hv; [|done]. cbn [mbind option_bind].
  destruct (_ && _).
  - destruct (encode cookieName (drop_id_token d)) as [v'|] eqn:Hv'; [|done]. cbn [mbind option_bind].
    intros [= <-]. exists v'. split; [by right|done].
  - cbn [mbind option_bind]. intros [= <-]. exists v. split; [by left|done].
Qed.

Lemma validateToken_spec tokens apiKey u :
  validateToken tokens apiKey = Some u →
  ∃ t, t ∈ tokens ∧ at_Token t ≠ ""%string ∧ apiKey = at_Token t ∧ u = mkUser (at_Name t) "" (at_Role t) MethodToken.
Proof.
  induction tokens as [|t tokens IH]; [done|]. cbn [validateToken]. case_decide as Ht.
  - intros [= <-]. exists t. split; [by left|]. naive_solver.
  - intros Hu. destruct (IH Hu) as (t' & Hin & ?). exists t'. split; [by right|done].
Qed.

Lemma resolveAPIKey_spec cfg c u :
  resolveAPIKey has_resolver c (Tokens cfg) = Some u → authenticated cfg c u.
Proof.
  unfold resolveAPIKey, authenticated. case_decide as Hk; [done|].
  destruct (validateToken _ _) as [u'|] eqn:Hv; [intros [= <-]; left; by apply validateToken_spec|].
  destruct has_resolver eqn:Hr; [|done]. intros Hu. right. left. by split_and!.
Qed.

(** Every outcome of [ValidateAndRefresh]. *)
Lemma ValidateAndRefresh_spec c p r c' :
  ValidateAndRefresh maxAge c p = (r, c') →
  match r with
  | None => c' = c ∨ c' = ClearSession c
  | Some u => ∃ s, GetSession c = Some s ∧ session_grants p s u ∧
      if needs_refresh s then
        ∃ value d t, refresh (RefreshToken s) = Some t ∧ s_ExpiresAt d = t_Expiry t ∧ session_user d = u ∧
          encode cookieName d = Some value ∧ c' = set_cookie cookieName value maxAge c
      else c' = c
  end.
Proof.
  unfold ValidateAndRefresh. destruct (GetSession c) as [s|] eqn:Hs; [|intros [= <- <-]; by left].
  unfold session_grants. fold (needs_refresh s).
  destruct (needs_refresh s) eqn:Hn; [|intros [= <- <-]; by exists s; rewrite Hn].
  destruct ready eqn:Hready; cbn [negb]; [|intros [= <- <-]; by right].
  destruct (refresh (RefreshToken s)) as [t|] eqn:Ht; [|intros [= <- <-]; by right].
  destruct (recheck_role p t) as [[role|]|] eqn:Hr; [|intros [= <- <-]; by right|].
  - destruct (SetSession _ _ _) as [c1|] eqn:Hset; [|intros [= <- <-]; by left]. intros [= <- <-].
    exists s. rewrite Hn. split; [done|]. split.
    + split; [done|]. exists t. split; [done|]. left.
      destruct (recheck_spec p t _ Hr) as (raw & id & claims & ? & ? & ? & ?). by exists raw, id, claims, role.
    + destruct (SetSession_spec _ _ _ Hset) as (value & [He|He] & ->); [by exists value, (with_role (with_token s t) role), t|].
      by exists value, (drop_id_token (with_role (with_token s t) role)), t.
  - destruct (DenyUnmapped p) eqn:Hd; [intros [= <- <-]; by right|].
    destruct (SetSession _ _ _) as [c1|] eqn:Hset; [|intros [= <- <-]; by left]. intros [= <- <-].
    exists s. rewrite Hn. split; [done|]. split.
    + split; [done|]. exists t. split; [done|]. by right.
    + destruct (SetSession_spec _ _ _ Hset) as (value & [He|He] & ->); [by exists value, (with_token s t), t|].
      by exists value, (drop_id_token (with_token s t)), t.
Qed.

(** What a middleware can do with a request, whatever comes next: refuse it, or hand it
    on as [c']. *)
Definition refuses (mw : middleware) (c : ctx) : Prop := ∃ r c', r ≠ RHandled ∧ ∀ next, mw next c = (r, c').
Definition passes (mw : middleware) (c c' : ctx) : Prop := ∀ next, mw next c = next c'.

(** A middleware that lets a request pass as it is or refuses it. *)
Definition passive (mw : middleware) : Prop := ∀ c, refuses mw c ∨ passes mw c c.

Lemma refuses_compose (mw1 mw2 : middleware) c : refuses mw1 c → refuses (λ next, mw1 (mw2 next)) c.
Proof. intros (r & c' & Hr & Hd). exists r, c'. split; [done|]. intros next. apply Hd. Qed.

Lemma passes_refuses (mw1 mw2 : middleware) c c1 :
  passes mw1 c c1 → refuses mw2 c1 → refuses (λ next, mw1 (mw2 next)) c.
Proof. intros Hp (r & c' & Hr & Hd). exists r, c'. split; [done|]. intros next. by rewrite (Hp (mw2 next)). Qed.

Lemma passes_compose (mw1 mw2 : middleware) c c1 c2 :
  passes mw1 c c1 → passes mw2 c1 c2 → passes (λ next, mw1 (mw2 next)) c c2.
Proof. intros H1 H2 next. by rewrite (H1 (mw2 next)). Qed.

Lemma noop_passive : passive noopMiddleware.
Proof. intros c. by right. Qed.

Lemma limited_passive allow : passive (limited allow).
Proof.
  intros c. unfold refuses, passes, limited. destruct (allow (rateLimitKey c)); [by right|left].
  by exists errRateLimitExceed, c.
Qed.

Lemma compose_passive mw1 mw2 : passive mw1 → passive mw2 → passive (λ next, mw1 (mw2 next)).
Proof.
  intros H1 H2 c. destruct (H1 c) as [Hr|Hp]; [left; by apply refuses_compose|].
  destruct (H2 c) as [Hr|Hp']; [left; by eapply passes_refuses|right; by eapply passes_compose].
Qed.

Lemma NewRateLimiter_passive cfg allow : passive (NewRateLimiter cfg allow).
Proof. unfold NewRateLimiter. destruct cfg as [l|]; [destruct (rps_positive l)|]; auto using noop_passive, limited_passive. Qed.

Lemma NewPathRateLimiter_passive paths def groups group allow : passive (NewPathRateLimiter paths def groups group allow).
Proof.
  intros c. unfold NewPathRateLimiter, refuses, passes. case_decide; [by right|].
  destruct (match group with Some f => _ | None => _ end) as [name stores].
  destruct (newStoreFor _); [|by right]. apply limited_passive.
Qed.

(** The paths no authentication guards. *)
Definition public (path : string) : bool := bool_decide (path = "/api/auth/info"%string) || under path "/auth".

Lemma skipPublic_spec mw next c :
  skipPublic mw next c = if public (r_Path (c_req c)) then next c else mw next c.
Proof.
  unfold skipPublic, SkipAuth, SkipAuthPrefix, public, under. cbn [existsb].
  change ("/auth" +:+ "/")%string with "/auth/"%string. rewrite orb_false_r.
  case_decide as Hp.
  - apply list_elem_of_singleton in Hp. by rewrite bool_decide_true.
  - rewrite bool_decide_false by (intros Hx; apply Hp; by apply list_elem_of_singleton). done.
Qed.

Lemma skipPublic_public mw c : public (r_Path (c_req c)) = true → passes (skipPublic mw) c c.
Proof. intros Hp next. by rewrite skipPublic_spec, Hp. Qed.

Lemma skipPublic_guarded mw c :
  public (r_Path (c_req c)) = false →
  (refuses mw c → refuses (skipPublic mw) c) ∧ ∀ c', passes mw c c' → passes (skipPublic mw) c c'.
Proof.
  intros Hp. split.
  - intros (r & c' & Hr & Hd). exists r, c'. split; [done|]. intros next. by rewrite skipPublic_spec, Hp.
  - intros c' Hpass next. by rewrite skipPublic_spec, Hp.
Qed.

Lemma https_step enabled c :
  refuses (requireHTTPSMiddleware enabled) c ∨
  (passes (requireHTTPSMiddleware enabled) c c ∧ (enabled = true → isSecureRequest (c_req c) = true)).
Proof.
  unfold refuses, passes, requireHTTPSMiddleware. destruct enabled, (isSecureRequest (c_req c)) eqn:Hs; cbn;
    try (right; by split). left. by exists errHTTPSRequired, c.
Qed.

(** The authentication step: it refuses, or hands on a request with an authenticated
    user. *)
Lemma token_step cfg c :
  refuses (tokenMiddleware has_resolver (Tokens cfg)) c ∨
  ∃ u, authenticated cfg c u ∧ passes (tokenMiddleware has_resolver (Tokens cfg)) c (SetUser u c).
Proof.
  unfold refuses, passes, tokenMiddleware. destruct (resolveAPIKey _ _ _) as [u|] eqn:Hu.
  - right. exists u. split; [by apply resolveAPIKey_spec|done].
  - left. by exists errUnauthorized, c.
Qed.

Lemma oidc_step cfg c :
  Mode cfg = "oidc"%string →
  let mw := oidcMiddleware maxAge has_resolver (Tokens cfg) (provider_of cfg) in
  refuses mw c ∨ ∃ u c', authenticated cfg c u ∧ c_req c' = c_req c ∧ c_user c' = Some u ∧ passes mw c c'.
Proof.
  intros Hm mw. subst mw. destruct (decide (r_Header (c_req c) "X-API-Key" = ""%string)) as [Hk|Hk].
  - unfold refuses, passes, oidcMiddleware. setoid_rewrite (decide_False (P := r_Header (c_req c) "X-API-Key" ≠ ""%string)); [|tauto..].
    destruct (provider_of cfg) as [p|] eqn:Hp; [|left; by exists errOIDCUnavailable, c].
    destruct (ValidateAndRefresh maxAge c p) as [[u|] c'] eqn:Hv; pose proof (ValidateAndRefresh_spec _ _ _ _ Hv) as Hspec.
    + right. destruct Hspec as (s & Hs & Hg & Hc). exists u, (SetUser u c').
      assert (Hreq : c_req c' = c_req c).
      { destruct (needs_refresh s); [by destruct Hc as (? & ? & ? & _ & _ & _ & _ & ->)|by rewrite Hc]. }
      split_and!; [|done|done|done]. right. right. split; [done|]. split; [done|]. by exists p, s.
    + left. destruct (isAPIRequest c'); [by exists errUnauthorized, c'|by exists (RRedirect "/auth/login"), c'].
  - assert (Heq : ∀ next, oidcMiddleware maxAge has_resolver (Tokens cfg) (provider_of cfg) next c =
      tokenMiddleware has_resolver (Tokens cfg) next c) by (intros next; unfold oidcMiddleware; by rewrite decide_True).
    destruct (token_step cfg c) as [(r & c' & Hr & Hd)|(u & Ha & Hp)].
    + left. exists r, c'. split; [done|]. intros next. by rewrite Heq.
    + right. exists u, (SetUser u c). split_and!; [done|done|done|]. intros next. by rewrite Heq.
Qed.

Lemma auth_step cfg c :
  Mode cfg = "token"%string ∨ Mode cfg = "oidc"%string →
  let mw := NewAuthMiddleware maxAge has_resolver cfg (provider_of cfg) in
  refuses mw c ∨ ∃ u c', authenticated cfg c u ∧ c_req c' = c_req c ∧ c_user c' = Some u ∧ passes mw c c'.
Proof.
  intros Hmode mw. subst mw. unfold NewAuthMiddleware. destruct Hmode as [Hm|Hm]; rewrite Hm.
  - rewrite decide_True by done. destruct (token_step cfg c) as [Hr|(u & Ha & Hp)]; [by left|right].
    by exists u, (SetUser u c).
  - rewrite decide_False, decide_True by done. by apply oidc_step.
Qed.

(** The policy step. *)
Lemma casbin_step `{PolicyEngine} cfg c :
  ¬ (Mode cfg = "none"%string ∨ Mode cfg = ""%string) →
  refuses (NewCasbinMiddleware cfg enforcer) c ∨
  (passes (NewCasbinMiddleware cfg enforcer) c c ∧
   ∃ u, c_user c = Some u ∧ granted (u_Role u) (r_Path (c_req c)) (r_Method (c_req c)) = true).
Proof.
  intros Hm. unfold refuses, passes, NewCasbinMiddleware. destruct (decide (Mode cfg = "none"%string ∨ Mode cfg = ""%string)) as [|_]; [done|].
  destruct (c_user c) as [u|]; [|left; by exists errUnauthorized, c]. rewrite enforcer_granted.
  destruct (granted _ _ _) eqn:Hg; [right; split; [done|by exists u]|left; by exists errForbidden, c].
Qed.

(** Authentication is off, or the path needs none. *)
Definition open_access (cfg : AuthConfig) (c : ctx) : Prop :=
  Mode cfg = "none"%string ∨ Mode cfg = ""%string ∨ public (r_Path (c_req c)) = true.

#[global] Instance open_access_dec cfg c : Decision (open_access cfg c).
Proof. unfold open_access. apply _. Defined.

Lemma front_step cfg c :
  Mode cfg ∈ ["none"; ""; "token"; "oidc"]%string →
  let mw := skipPublic (NewAuthMiddleware maxAge has_resolver cfg (provider_of cfg)) in
  refuses mw c ∨ ∃ c1, passes mw c c1 ∧ c_req c1 = c_req c ∧
    (open_access cfg c ∨ ∃ u, c_user c1 = Some u ∧ authenticated cfg c u).
Proof.
  intros Hmode mw. subst mw. destruct (decide (open_access cfg c)) as [Ho|Ho].
  - right. exists c. split; [|by split; [|left]]. destruct (public (r_Path (c_req c))) eqn:Hp; [by apply skipPublic_public|].
    apply skipPublic_guarded; [done|]. intros next. unfold NewAuthMiddleware.
    destruct Ho as [Hm|[Hm|Ho]]; [by rewrite Hm..|congruence].
  - unfold open_access in Ho. destruct (public (r_Path (c_req c))) eqn:Hp; [tauto|].
    destruct (auth_step cfg c) as [Hr|(u & c1 & Hu & Hreq & Hc1 & Hpass)]; [set_solver| |].
    + left. by apply skipPublic_guarded.
    + right. exists c1. split; [by apply skipPublic_guarded|]. split; [done|]. right. by exists u.
Qed.

Lemma policy_step `{PolicyEngine} cfg (lim : middleware) c :
  passive lim →
  let mw := λ route, lim (skipPublic (NewCasbinMiddleware cfg enforcer) route) in
  refuses mw c ∨ (passes mw c c ∧
    (open_access cfg c ∨ ∃ u, c_user c = Some u ∧ granted (u_Role u) (r_Path (c_req c)) (r_Method (c_req c)) = true)).
Proof.
  intros Hlim mw. subst mw. destruct (Hlim c) as [Hr|Hp]; [left; by apply refuses_compose|].
  assert (Hstep : refuses (skipPublic (NewCasbinMiddleware cfg enforcer)) c ∨
    (passes (skipPublic (NewCasbinMiddleware cfg enforcer)) c c ∧
     (open_access cfg c ∨ ∃ u, c_user c = Some u ∧ granted (u_Role u) (r_Path (c_req c)) (r_Method (c_req c)) = true))).
  { unfold open_access. destruct (public (r_Path (c_req c))) eqn:Hpub; [right; split; [by apply skipPublic_public|tauto]|].
    destruct (decide (Mode cfg = "none"%string ∨ Mode cfg = ""%string)) as [Hoff|Hon].
    - right. split; [|tauto]. apply skipPublic_guarded; [done|]. intros next. unfold NewCasbinMiddleware. by rewrite decide_True.
    - destruct (casbin_step cfg c Hon) as [Hr|[Hc Hu]]; [left|right; split; [|tauto]]; by apply skipPublic_guarded. }
  destruct Hstep as [Hr|[Hs Hg]]; [left; by eapply (passes_refuses lim)|right].
  split; [by eapply (passes_compose lim)|done].
Qed.

End spec.

(** ** Properties *)

Section properties.
Context {S : Surroundings} (maxAge : Z) (has_resolver has_recorder : bool).

(** C12: nothing behind the server is reached unchecked. With limiters that only pass or
    refuse, the server either answers a request itself, whatever the route, or hands it to
    the route with nothing changed but the user and the cookies; then it came over HTTPS
    where that is required, and unless authentication is off or the path is public there
    is a user, who presented a configured token, a personal access token or an OIDC
    session, and whose role the access policy grants the method on the path: an
    administrator everything under [/api/], a viewer reading there except the
    administration of users and the log check, and issuing and revoking access tokens;
    any other role nothing. *)
Theorem server_guards `{PolicyEngine} cfg rateLimitMW logsRateLimitMW c :
  passive rateLimitMW → passive logsRateLimitMW →
  Mode cfg ∈ ["none"; ""; "token"; "oidc"]%string →
  let srv := server maxAge has_resolver cfg enforcer rateLimitMW logsRateLimitMW in
  refuses srv c ∨
  ∃ c', passes srv c c' ∧ c_req c' = c_req c ∧
    (RequireHTTPS cfg = true → isSecureRequest (c_req c) = true) ∧
    (Mode cfg = "none"%string ∨ Mode cfg = ""%string ∨ public (r_Path (c_req c)) = true ∨
     ∃ u, c_user c' = Some u ∧ authenticated has_resolver cfg c u ∧
       granted (u_Role u) (r_Path (c_req c)) (r_Method (c_req c)) = true).
Proof.
  intros Hrl Hlrl Hmode srv. subst srv. unfold server.
  destruct (https_step (RequireHTTPS cfg) c) as [Hr|[Hp Hsec]]; [left; by apply refuses_compose|].
  destruct (front_step maxAge has_resolver cfg c Hmode) as [Hr|(c1 & Ha & Hreq & Hu)].
  { left. eapply passes_refuses; [exact Hp|]. by apply refuses_compose. }
  destruct (policy_step cfg _ c1 (compose_passive _ _ Hrl Hlrl)) as [Hr|[Hc Hg]].
  { left. eapply passes_refuses; [exact Hp|]. eapply (passes_refuses (skipPublic _)); [exact Ha|exact Hr]. }
  right. exists c1. split; [eapply passes_compose; [exact Hp|]; eapply (passes_compose (skipPublic _)); [exact Ha|exact Hc]|].
  split; [done|]. split; [done|]. unfold open_access in *. rewrite Hreq in Hg.
  destruct Hu as [Ho|(u & Hc1 & Hu)]; [tauto|]. destruct Hg as [Ho|(u' & Hu' & Hg)]; [tauto|].
  right. right. right. exists u. rewrite Hc1 in Hu'. injection Hu' as <-. by split_and!.
Qed.

(** C13: what [ValidateAndRefresh] does to a session. An error sets no cookie, or the one
    that clears the session. A user it returns is the session's, by name and address; one
    whose session needed no refresh comes with the role in it and no cookie, one whose
    session was refreshed with exactly one new session cookie. Under [deny_unmapped] the
    role of a refreshed session always comes from verified claims that a mapping entry
    matches. Round trip: as long as the cookie codec restores what it encoded and the new
    expiry has not passed, a later request with that cookie gets the same user and no
    further cookie. *)
Theorem refresh_roundtrip c p r c' :
  ValidateAndRefresh maxAge c p = (r, c') →
  match r with
  | None => c' = c ∨ c' = ClearSession c
  | Some u => ∃ s, GetSession c = Some s ∧ u_Name u = UserName s ∧ u_Email u = UserEmail s ∧
      if needs_refresh s then
        (DenyUnmapped p = true → ∃ t raw id claims, refresh (RefreshToken s) = Some t ∧ t_IDToken t = Some raw ∧
          verify raw = Some id ∧ token_claims id = Some claims ∧ claims_mapped p claims ∧
          ExtractRole p claims = Some (u_Role u)) ∧
        ∃ value t, refresh (RefreshToken s) = Some t ∧ c' = set_cookie cookieName value maxAge c ∧
          ∀ (S' : Surroundings) c2, (∀ d v, @encode S cookieName d = Some v → @decode S' cookieName v = Some d) →
            r_Cookie (c_req c2) cookieName = Some value → @now S' <= t_Expiry t →
            @ValidateAndRefresh S' maxAge c2 p = (Some u, c2)
      else u_Role u = UserRole s ∧ c' = c
  end.
Proof.
  intros Hv. pose proof (ValidateAndRefresh_spec _ _ _ _ _ Hv) as Hspec. destruct r as [u|]; [|done].
  destruct Hspec as (s & Hs & Hg & Hc). exists s. split; [done|]. unfold session_grants in Hg.
  destruct (needs_refresh s) eqn:Hn; [|by subst].
  destruct Hg as (_ & t & Ht & Hg).
  assert (Hid : u_Name u = UserName s ∧ u_Email u = UserEmail s).
  { destruct Hg as [(raw & id & claims & role & _ & _ & _ & _ & ->)|(_ & _ & ->)]; done. }
  destruct Hid as [Hname Hemail]. split; [done|]. split; [done|]. split.
  - intros Hd. destruct Hg as [(raw & id & claims & role & Hraw & Hver & Hcl & Hrole & Hu)|(_ & Hd' & _)]; [|congruence].
    exists t, raw, id, claims. split_and!; try done; [|by rewrite Hu].
    destruct (ExtractRole_spec p claims) as [Hnone _]. unfold ExtractRole in Hrole, Hnone.
    destruct (extractRoleFromClaims _ _ _) as [role' mapped] eqn:He. apply (extract_spec p claims role' mapped He).
    rewrite Hd in Hrole. by destruct mapped.
  - destruct Hc as (value & d & t' & Ht' & Hexp & Hu & Henc & Hc'). rewrite Ht in Ht'. injection Ht' as <-.
    exists value, t. split; [done|]. split; [done|]. intros S' c2 Hcodec Hcookie Hnow.
    unfold ValidateAndRefresh, GetSession. rewrite Hcookie. cbn [mbind option_bind]. rewrite (Hcodec _ _ Henc).
    assert (Hlt : (t_Expiry t <? @now S') = false) by (apply Z.ltb_ge; exact Hnow).
    rewrite Hexp, Hlt. cbn. by rewrite Hu.
Qed.

(** A callback that proved an identity: the state is the one of its cookie, and the code
    was exchanged for a token whose identity token was verified. *)
Definition identified (c : ctx) (t : token) (raw : string) (claims : json) : Prop :=
  ready = true ∧
  (∃ state, r_Cookie (c_req c) stateCookieName = Some state ∧ state ≠ ""%string ∧ r_QueryParam (c_req c) "state" = state) ∧
  r_QueryParam (c_req c) "code" ≠ ""%string ∧ exchange (r_QueryParam (c_req c) "code") = Some t ∧
  t_IDToken t = Some raw ∧ ∃ id, verify raw = Some id ∧ token_claims id = Some claims.

(** The state of the callback is the one of its cookie. *)
Definition state_matches (c : ctx) : Prop :=
  ∃ state, r_Cookie (c_req c) stateCookieName = Some state ∧ state ≠ ""%string ∧ r_QueryParam (c_req c) "state" = state.

(** The answer to a callback that opens no session, with what went wrong: the provider is not there, the
    state is not that of the login, the code gives no token or a token without an identity, the identity does not
    verify, its claims cannot be read, they give no role, the session cannot be encoded. *)
Inductive refusal (p : OIDCProvider) (c : ctx) : response → Prop :=
  | no_provider : ready = false → refusal p c (RPage 503)
  | bad_state : ready = true → ¬ state_matches c → refusal p c (RRedirect "/auth/login")
  | no_code : ready = true → state_matches c → r_QueryParam (c_req c) "code" = ""%string → refusal p c (RPage 502)
  | no_token : ready = true → state_matches c → r_QueryParam (c_req c) "code" ≠ ""%string →
      exchange (r_QueryParam (c_req c) "code") = None → refusal p c (RPage 502)
  | no_identity t : ready = true → state_matches c → r_QueryParam (c_req c) "code" ≠ ""%string →
      exchange (r_QueryParam (c_req c) "code") = Some t → t_IDToken t = None → refusal p c (RPage 502)
  | unverified t raw : ready = true → state_matches c → r_QueryParam (c_req c) "code" ≠ ""%string →
      exchange (r_QueryParam (c_req c) "code") = Some t → t_IDToken t = Some raw → verify raw = None → refusal p c (RPage 401)
  | no_claims t raw id : ready = true → state_matches c → r_QueryParam (c_req c) "code" ≠ ""%string →
      exchange (r_QueryParam (c_req c) "code") = Some t → t_IDToken t = Some raw → verify raw = Some id →
      token_claims id = None → refusal p c (RPage 500)
  | no_role t raw claims : identified c t raw claims → DenyUnmapped p = true → ¬ claims_mapped p claims → refusal p c (RPage 403)
  | not_encoded t raw claims role d : identified c t raw claims → ExtractRole p claims = Some role →
      session_user d = mkUser (claim_string claims "preferred_username") (claim_string claims "email") role MethodOIDC →
      encode cookieName d = None ∨ encode cookieName (drop_id_token d) = None → refusal p c (RPage 500).

Lemma SetSession_none c d : SetSession maxAge c d = None → encode cookieName d = None ∨ encode cookieName (drop_id_token d) = None.
Proof.
  unfold SetSession. destruct (encode cookieName d) as [v|]; [|by left]. cbn [mbind option_bind].
  destruct (_ && _); [|done]. destruct (encode cookieName (drop_id_token d)); [done|by right].
Qed.

Lemma state_case c : (state_matches c ∧ ValidateStateCookie c = Some (set_cookie stateCookieName "" (-1) c)) ∨
  (¬ state_matches c ∧ ValidateStateCookie c = None).
Proof.
  unfold ValidateStateCookie, state_matches. destruct (r_Cookie (c_req c) stateCookieName) as [state|].
  2:{ right. split; [by intros (? & ? & _)|done]. }
  cbn [mbind option_bind]. case_decide as Hst.
  - right. split; [|done]. intros (st & [= <-] & Hne & Hq). destruct Hst as [|Hst]; [done|by apply Hst].
  - left. split; [|done]. exists state. split; [done|]. split; [tauto|].
    destruct (decide (state = r_QueryParam (c_req c) "state")) as [->|]; [done|tauto].
Qed.

(** The session of an identified user, once it is encoded. *)
Lemma session_opened p c c1 c2 t raw claims role : identified c t raw claims → ExtractRole p claims = Some role →
  c_req c1 = c_req c → session_cookies (c_events c1) = session_cookies (c_events c) →
  let name := claim_string claims "preferred_username" in let email := claim_string claims "email" in
  SetSession maxAge c1 (mkSession (t_RefreshToken t) raw (t_Expiry t) name email role) = Some c2 →
  ∃ t' raw' claims' role' value d, RRedirect "/" = RRedirect "/" ∧ identified c t' raw' claims' ∧
    ExtractRole p claims' = Some role' ∧ encode cookieName d = Some value ∧
    session_user d = mkUser (claim_string claims' "preferred_username") (claim_string claims' "email") role' MethodOIDC ∧
    session_cookies (c_events (recordLogin has_recorder email name role c2)) =
      session_cookies (c_events c) ++ [mkCookie cookieName value maxAge (isSecureRequest (c_req c))].
Proof.
  intros Hid Hrole Hreq Hc1 name email Hset. destruct (SetSession_spec _ _ _ _ Hset) as (value & Henc & ->).
  set (d := mkSession _ _ _ _ _ _) in Henc.
  assert (∃ d', encode cookieName d' = Some value ∧ session_user d' = session_user d) as (d' & Hd' & Hu).
  { destruct Henc as [Henc|Henc]; [by exists d|by exists (drop_id_token d)]. }
  exists t, raw, claims, role, value, d'. split_and!; try done.
  rewrite <- Hc1, <- Hreq. unfold recordLogin. destruct (_ || _); unfold session_cookies; cbn; rewrite !omap_app; cbn; by rewrite ?app_nil_r.
Qed.

(** C14: a login becomes a session only for who proved the identity. The callback sets a
    session cookie only when the state matches its cookie, the code was exchanged, and the
    identity token was verified and names a role that the provider's configuration
    accepts; the session then carries exactly that name, address and role. The role is
    administrator if and only if the claims say so, and viewer otherwise; with
    [deny_unmapped] a user without a mapping entry is refused, gets no session, and the
    refresh token is revoked. Every other callback sets no session cookie and is
    answered with the status of what went wrong. *)
Theorem login_sound p c r c' :
  callbackHandler maxAge has_recorder (Some p) c = (r, c') →
  (∀ claims, (ExtractRole p claims = None ↔ DenyUnmapped p = true ∧ ¬ claims_mapped p claims) ∧
    ∀ role, ExtractRole p claims = Some role →
      (role = RoleAdmin ∧ claims_admin p claims) ∨ (role = RoleViewer ∧ ¬ claims_admin p claims)) ∧
  (∀ t raw claims, identified c t raw claims → ExtractRole p claims = None →
     r = RPage 403 ∧ ERevoke (t_RefreshToken t) ∈ c_events c') ∧
  ((refusal p c r ∧ session_cookies (c_events c') = session_cookies (c_events c)) ∨
   ∃ t raw claims role value d, r = RRedirect "/" ∧ identified c t raw claims ∧
     ExtractRole p claims = Some role ∧ encode cookieName d = Some value ∧
     session_user d = mkUser (claim_string claims "preferred_username") (claim_string claims "email") role MethodOIDC ∧
     session_cookies (c_events c') = session_cookies (c_events c) ++ [mkCookie cookieName value maxAge (isSecureRequest (c_req c))]).
Proof.
  intros Hrun. split; [apply ExtractRole_spec|]. revert Hrun. unfold callbackHandler, ExchangeCode.
  destruct ready eqn:Hready; cbn [negb]; [|intros [= <- <-]; split; [intros ??? [? _]; congruence|by left; split; [constructor|]]].
  set (c1 := set_cookie stateCookieName "" (-1) c).
  assert (Hc1 : session_cookies (c_events c1) = session_cookies (c_events c)).
  { subst c1. unfold session_cookies. cbn. rewrite omap_app. cbn. by rewrite app_nil_r. }
  destruct (state_case c) as [[Hst Heq]|[Hst Heq]]; rewrite Heq; fold c1.
  2:{ intros [= <- <-]. split; [by intros ??? (_ & ? & _)|]. left. split; [by apply bad_state|done]. }
  change (c_req c1) with (c_req c). case_decide as Hcode.
  { intros [= <- <-]. split; [by intros t raw claims (_ & _ & ? & _)|]. left. split; [by apply no_code|done]. }
  destruct (exchange (r_QueryParam (c_req c) "code")) as [t|] eqn:Hex;
    [|intros [= <- <-]; split; [intros ??? (_ & _ & _ & ? & _); congruence|left; split; [by apply no_token|done]]].
  destruct (t_IDToken t) as [raw|] eqn:Hraw;
    [|intros [= <- <-]; split; [intros ??? (_ & _ & _ & He & Hr & _); congruence|left; split; [by eapply no_identity|done]]].
  destruct (verify raw) as [id|] eqn:Hver;
    [|intros [= <- <-]; split; [intros ??? (_ & _ & _ & He & Hr & (? & ? & _)); congruence|left; split; [by eapply unverified|done]]].
  destruct (token_claims id) as [claims|] eqn:Hcl;
    [|intros [= <- <-]; split; [intros ??? (_ & _ & _ & He & Hr & (? & ? & ?)); congruence|left; split; [by eapply no_claims|done]]].
  assert (Hid : identified c t raw claims) by (split_and!; try done; by exists id).
  assert (Huniq : ∀ t' raw' claims', identified c t' raw' claims' → t' = t ∧ claims' = claims).
  { intros t' raw' claims' (_ & _ & _ & He & Hr & (id' & Hv & Hc)). rewrite Hex in He. injection He as <-. split; [done|]. congruence. }
  destruct (ExtractRole p claims) as [role|] eqn:Hrole.
  - intros Hrun. split; [intros t' raw' claims' Hi Hnone; destruct (Huniq _ _ _ Hi); congruence|].
    destruct (SetSession _ _ _) as [c2|] eqn:Hset; injection Hrun as <- <-.
    + right. by apply (session_opened p c c1 c2 t raw claims role).
    + left. split; [|done]. eapply not_encoded; [exact Hid|exact Hrole| |by eapply SetSession_none]. done.
  - intros [= <- <-]. split.
    + intros t' raw' claims' Hi _. destruct (Huniq _ _ _ Hi) as [-> _]. split; [done|]. cbn. rewrite !elem_of_app. right. by left.
    + left. split.
      * apply (ExtractRole_spec p claims) in Hrole as [Hd Hm]. by eapply no_role.
      * rewrite <- Hc1. unfold session_cookies. cbn. rewrite !omap_app. cbn. by rewrite !app_nil_r.
Qed.

End properties.

(** ** Witnesses *)

Fixpoint cut_star (s : string) : option string :=
  if decide (s = "/*"%string) then Some ""%string
  else match s with EmptyString => None | String c s' => String c <$> cut_star s' end.

Lemma cut_star_app stem : cut_star (stem +:+ "/*") = Some stem.
Proof.
  induction stem as [|c stem IH]; [done|].
  change (String c stem +:+ "/*")%string with (String c (stem +:+ "/*")). cbn [cut_star]. rewrite IH.
  case_decide as Hs; [|done]. exfalso. injection Hs as _ Hs. destruct stem as [|c' stem]; [done|].
  change (String c' stem +:+ "/*")%string with (String c' (stem +:+ "/*")) in Hs. injection Hs as _ Hs.
  by destruct stem.
Qed.

Lemma cut_star_literal s : "*"%char ∉ String.list_ascii_of_string s → cut_star s = None.
Proof.
  induction s as [|c s IH]; [done|]. intros Hs. cbn [cut_star]. case_decide as Heq.
  - exfalso. apply Hs. rewrite Heq. cbn. set_solver.
  - rewrite IH; [done|]. intros Hin. apply Hs. cbn. by right.
Qed.

Definition sample_match (path obj : string) : bool :=
  match cut_star obj with Some stem => HasPrefix path (stem +:+ "/")%string | None => bool_decide (path = obj) end.

#[refine] Definition sample_engine : PolicyEngine := {|
  keyMatch2 := sample_match;
  Enforce := λ policy sub obj act,
    let matching := filter (λ r, p_sub r = sub ∧ sample_match obj (p_obj r) = true ∧ p_act r = act) policy in
    Some (existsb (λ r, match p_eft r with Allow => true | Deny => false end) matching &&
          negb (existsb (λ r, match p_eft r with Allow => false | Deny => true end) matching))
|}.
Proof.
  - intros path stem _. unfold sample_match. by rewrite cut_star_app.
  - intros path obj [Hobj _]. unfold sample_match. by rewrite cut_star_literal.
  - done.
Defined.

Definition sample_session : SessionData := mkSession "r1" "" 100 "ann" "ann@example.org" "viewer".
Definition sample_claims : json :=
  JObject [("preferred_username", JString "ann"); ("email", JString "ann@example.org");
           ("realm_access", JObject [("roles", JArray [JString "staff"; JString "dba"])])]%string.

(** The session expired at 100; the codec names sessions by their role, and restores them. *)
Definition sample_surroundings (t : Z) : Surroundings := {|
  now := t;
  encode := λ _ d, if decide (d = mkSession "r1" "id2" 5000 "ann" "ann@example.org" "admin") then Some "new"%string else Some "other"%string;
  decode := λ _ v,
    if decide (v = "new"%string) then Some (mkSession "r1" "id2" 5000 "ann" "ann@example.org" "admin")
    else if decide (v = "old"%string) then Some sample_session else None;
  ready := true;
  refresh := λ _, Some (mkToken "" 5000 (Some "id2"%string));
  exchange := λ _, Some (mkToken "r1" 5000 (Some "id2"%string));
  verify := Some;
  token_claims := λ _, Some sample_claims;
  random_state := Some "s"%string;
  auth_code_url := id;
  logout_url := id;
  resolve_token := λ _, None;
  record_login := true
|}.

Definition sample_oidc : OIDCConfig := mkOIDC "https://idp" "dasha" "" {["dba" := "admin"%string]} true.
Definition sample_provider_oidc : OIDCProvider := NewOIDCProvider sample_oidc.
Definition sample_auth : AuthConfig := mkAuthConfig "oidc" [mkAuthToken "ci" "s3cret" "viewer"] (Some sample_oidc) true "admin".
Definition sample_request (key path method cookie_value : string) : ctx :=
  mkCtx (mkRequest "https" (λ h, if decide (h = "X-API-Key"%string) then key else ""%string) path method
    (λ n, if decide (n = cookieName) then Some cookie_value else Some "s"%string)
    (λ q, if decide (q = "state"%string) then "s"%string else "code"%string) path "10.0.0.1") None [].

Lemma server_guards_witness :
  let srv := server (S := sample_surroundings 200) 3600 false sample_auth (@enforcer sample_engine) noopMiddleware noopMiddleware in
  let c := sample_request "s3cret" "/api/clusters" "GET" "" in
  (srv (λ c, (RHandled, c)) c).1 = RHandled ∧
  ∃ c', passes srv c c' ∧ ∃ u, c_user c' = Some u ∧ granted (u_Role u) "/api/clusters" "GET" = true.
Proof.
  cbv zeta. split; [by vm_compute|].
  destruct (server_guards (S := sample_surroundings 200) 3600 false (H := sample_engine) sample_auth noopMiddleware noopMiddleware
    (sample_request "s3cret" "/api/clusters" "GET" "") noop_passive noop_passive
    ltac:(apply (bool_decide_unpack _); by vm_compute)) as [(r & c' & Hr & Hd)|(c' & Hp & _ & _ & Hcase)].
  - exfalso. specialize (Hd (λ c, (RHandled, c))). vm_compute in Hd. injection Hd as <- <-. by apply Hr.
  - exists c'. split; [exact Hp|]. destruct Hcase as [Hm|[Hm|[Hm|(u & Hu & _ & Hg)]]]; [by vm_compute in Hm..|by exists u].
Defined.

(** An expired session of a viewer whose claims meanwhile make her an administrator. *)
Lemma refresh_roundtrip_witness :
  let p := ValidateAndRefresh (S := sample_surroundings 200) 3600 (sample_request "" "/api/clusters" "GET" "old") sample_provider_oidc in
  p.1 = Some (mkUser "ann" "ann@example.org" "admin" MethodOIDC) ∧
  ∃ s, GetSession (S := sample_surroundings 200) (sample_request "" "/api/clusters" "GET" "old") = Some s ∧
    UserName s = "ann"%string ∧
    ∃ value, p.2 = set_cookie cookieName value 3600 (sample_request "" "/api/clusters" "GET" "old").
Proof.
  cbv zeta. split; [by vm_compute|].
  pose proof (refresh_roundtrip (S := sample_surroundings 200) 3600 (sample_request "" "/api/clusters" "GET" "old")
    sample_provider_oidc _ _ (surjective_pairing _)) as Hr.
  assert (H1 : (ValidateAndRefresh (S := sample_surroundings 200) 3600 (sample_request "" "/api/clusters" "GET" "old")
    sample_provider_oidc).1 = Some (mkUser "ann" "ann@example.org" "admin" MethodOIDC)) by by vm_compute.
  rewrite H1 in Hr. destruct Hr as (s & Hs & Hn & _ & Hrest). exists s. split; [exact Hs|]. split; [by rewrite <- Hn|].
  assert (Hneed : needs_refresh (S := sample_surroundings 200) s = true).
  { vm_compute in Hs. injection Hs as <-. by vm_compute. }
  rewrite Hneed in Hrest. destruct Hrest as (_ & value & t & _ & Hc & _). by exists value.
Defined.

Lemma login_sound_witness :
  let p := callbackHandler (S := sample_surroundings 200) 3600 false (Some sample_provider_oidc) (sample_request "" "/auth/callback" "GET" "") in
  p.1 = RRedirect "/" ∧ length (session_cookies (c_events p.2)) = 1%nat ∧
  ExtractRole sample_provider_oidc sample_claims = Some "admin"%string ∧ claims_admin sample_provider_oidc sample_claims.
Proof.
  cbv zeta. split; [by vm_compute|]. split; [by vm_compute|]. split; [by vm_compute|].
  destruct (login_sound (S := sample_surroundings 200) 3600 false sample_provider_oidc
    (sample_request "" "/auth/callback" "GET" "") _ _ (surjective_pairing _)) as [Hrole _].
  destruct (proj2 (Hrole sample_claims) "admin"%string ltac:(by vm_compute)) as [[_ Ha]|[He _]]; [exact Ha|by vm_compute in He].
Defined.
