(* ===== verification/Activity.v ===== *)
(** * [internal/activity]: classes of sessions and the profile ([activity.go], [config.go], [profile.go])

    What a session of [pg_stat_activity] is doing, and the aggregation of samples into a
    profile. A count is the length of a list in memory, so it is a [Z] without
    wrap-around; shares are [float64]. The grouping key of a session ([QueryKey]) is a
    field of the sample here. *)

From S2P Require Import Prelude GoFloat Sqlparse PatroniLayout.
From stdpp Require Import options.

#[local] Set Default Proof Using "Type*".

(** ** Sessions and their classes *)

Definition ClassCPU : string := "CPU".
Definition ClassClientIdleTx : string := "ClientIdleTx".
Definition ClassOther : string := "Other".

Definition Classes : list string :=
  ["CPU"; "IO"; "Lock"; "LWLock"; "BufferPin"; "IPC"; "Client"; "Timeout"; "ClientIdleTx"; "Extension"; "Activity"; "Other"]%string.

Definition waitTypeClasses : gmap string string :=
  list_to_map [("Activity", "Activity"); ("BufferPin", "BufferPin"); ("Client", "Client"); ("Extension", "Extension");
    ("IO", "IO"); ("IPC", "IPC"); ("Lock", "Lock"); ("LWLock", "LWLock"); ("Timeout", "Timeout")]%string.

Definition RunsStatement (backendType : string) : bool :=
  bool_decide (backendType = "client backend"%string) || bool_decide (backendType = "parallel worker"%string).

Record Session := mkSession {
  PID : Z; BackendType : string; s_Database : string; User : string; Application : string; ClientAddr : string;
  State : string; WaitType : string; WaitEvent : string; QueryID : Z; QueryStart : time; XactStart : time;
  HoldsXmin : bool; Text : string; s_Key : string; KeyKind : string
}.

Record Sample := mkSample { At : time; Sessions : list Session; Truncated : bool }.
Record Access := mkAccess { CanReadAllStats : bool; QueryIDAvailable_ : bool; TrackUtility : bool }.

Definition Class_of (s : Session) : string :=
  if HasPrefix (State s) "idle in transaction" then ClassClientIdleTx
  else if decide (WaitType s = ""%string) then ClassCPU
  else match waitTypeClasses !! WaitType s with Some c => c | None => ClassOther end.

Definition Counted (s : Session) (includeBackground : bool) : bool :=
  if RunsStatement (BackendType s) then
    bool_decide (State s ∈ ["active"; "idle in transaction"; "idle in transaction (aborted)"; "fastpath function call"]%string)
  else includeBackground && negb (bool_decide (WaitType s = "Activity"%string)).

(** ** Configuration *)

Record Config := mkConfig { WindowMinutes : Z; SampleTimeout : duration; MaxSessions : Z }.

Definition DefaultWindowMinutes : Z := 60.
Definition DefaultSampleTimeout : duration := Second.
Definition DefaultMaxSessions : Z := 2000.
Definition minSampleTimeout : duration := 200 * 10 ^ 6.
Definition maxSampleTimeout : duration := 10 * Second.

Definition WithDefaults (c : Config) : Config :=
  mkConfig (if WindowMinutes c =? 0 then DefaultWindowMinutes else WindowMinutes c)
    (if SampleTimeout c =? 0 then DefaultSampleTimeout else SampleTimeout c)
    (if MaxSessions c =? 0 then DefaultMaxSessions else MaxSessions c).

Inductive config_error := EWindowMinutes | ESampleTimeout | EMaxSessions.

Definition Validate (c : Config) : option config_error :=
  if (WindowMinutes c <? 5) || (240 <? WindowMinutes c) then Some EWindowMinutes
  else if (SampleTimeout c <? minSampleTimeout) || (maxSampleTimeout <? SampleTimeout c) then Some ESampleTimeout
  else if (MaxSessions c <? 100) || (20000 <? MaxSessions c) then Some EMaxSessions
  else None.

(** ** The profile *)

Record Filter := mkFilter { f_Database : string; f_Class : string; IncludeBackground : bool }.

Definition match_ (f : Filter) (s : Session) : bool :=
  if negb (Counted s (IncludeBackground f)) then false
  else if negb (bool_decide (f_Database f = ""%string)) && negb (bool_decide (s_Database s = f_Database f)) then false
  else bool_decide (f_Class f = ""%string) || bool_decide (Class_of s = f_Class f).

Record Share := mkShare { Value : string; AAS : float; SharePct : float }.
Record EventShare := mkEventShare { es_Class : string; es_WaitEvent : string; es_AAS : float; es_SharePct : float }.
Record QueryShare := mkQueryShare {
  q_Key : string; q_KeyKind : string; q_QueryID : Z; q_AAS : float; q_SharePct : float;
  q_ByClass : gmap string float; DistinctPIDs : Z; q_Text : string
}.
Record Profile := mkProfile {
  From : time; To : time; Samples : Z; p_Truncated : Z; p_AAS : float;
  ByClass : list Share; TopEvents : list EventShare; TopQueries : list QueryShare;
  ByDatabase : list Share; ByUser : list Share; ByApp : list Share; ByBackend : list Share
}.

Record queryAcc := mkAcc { acc_kind : string; acc_queryID : Z; acc_n : Z; acc_byClass : gmap string Z; acc_pids : gset Z; acc_text : string }.

(** The local variables of [Aggregate], with the fields of the profile its loop writes. *)
Record tallies := mkTallies {
  t_from : time; t_to : time; t_truncated : Z;
  t_total : Z; t_classes : gmap string Z; t_events : gmap (string * string) Z; t_queries : gmap string queryAcc;
  t_dbs : gmap string Z; t_users : gmap string Z; t_apps : gmap string Z; t_btypes : gmap string Z
}.

Definition no_tallies : tallies := mkTallies zero_time zero_time 0 0 ∅ ∅ ∅ ∅ ∅ ∅ ∅.

(** [m[k]++]. *)
Definition bump {K} `{Countable K} (k : K) (m : gmap K Z) : gmap K Z := <[k := default 0 (m !! k) + 1]> m.

Definition count_query (s : Session) (cls : string) (m : gmap string queryAcc) : gmap string queryAcc :=
  let q := default (mkAcc (KeyKind s) (QueryID s) 0 ∅ ∅ "") (m !! s_Key s) in
  <[s_Key s := mkAcc (acc_kind q) (acc_queryID q) (acc_n q + 1) (bump cls (acc_byClass q)) ({[PID s]} ∪ acc_pids q)
      (if decide (acc_text q = ""%string) then Text s else acc_text q)]> m.

Definition count_session (f : Filter) (t : tallies) (s : Session) : tallies :=
  if negb (match_ f s) then t
  else
    let cls := Class_of s in
    mkTallies (t_from t) (t_to t) (t_truncated t) (t_total t + 1) (bump cls (t_classes t))
      (bump (cls, WaitEvent s) (t_events t))
      (if negb (RunsStatement (BackendType s)) then t_queries t else count_query s cls (t_queries t))
      (bump (s_Database s) (t_dbs t)) (bump (User s) (t_users t)) (bump (Application s) (t_apps t))
      (bump (BackendType s) (t_btypes t)).

Definition count_sample (f : Filter) (t : tallies) (smp : Sample) : tallies :=
  foldl (count_session f)
    (mkTallies (if Prelude.is_zero (t_from t) || time_before (At smp) (t_from t) then At smp else t_from t)
       (if time_after (At smp) (t_to t) then At smp else t_to t)
       (if Truncated smp then t_truncated t + 1 else t_truncated t)
       (t_total t) (t_classes t) (t_events t) (t_queries t) (t_dbs t) (t_users t) (t_apps t) (t_btypes t))
    (Sessions smp).

(** The orders of the lists: [cmp.Or] of the comparisons, the larger share first. *)
Definition by_class : Share → Share → bool := more_on AAS float_less.
Definition by_value : Share → Share → bool := lex_less (more_on AAS float_less) (less_on Value str_ltb).
Definition by_event : EventShare → EventShare → bool :=
  lex_less (more_on es_AAS float_less) (lex_less (less_on es_Class str_ltb) (less_on es_WaitEvent str_ltb)).
Definition by_query : QueryShare → QueryShare → bool := lex_less (more_on q_AAS float_less) (less_on q_Key str_ltb).

(** [top] limits a list when it is positive. *)
Definition head_ {A} (s : list A) (n : Z) : list A :=
  if (0 <? n) && (n <? Z.of_nat (length s)) then take (Z.to_nat n) s else s.

Section operations.
Context `{!MapRange}.

Definition shares (site : string) (counts : gmap string Z) (aas pct : Z → float) (top : Z) : list Share :=
  head_ (sort_slice by_value
    ((λ '(v, c), mkShare v (aas c) (pct c)) <$> map_range site counts)) top.

Definition share_of_class (aas pct : Z → float) (m : gmap string Z) (c : string) : option Share :=
  match m !! c with
  | Some k => if 0 <? k then Some (mkShare c (aas k) (pct k)) else None
  | None => None
  end.

Definition query_share (aas pct : Z → float) (key : string) (q : queryAcc) : QueryShare :=
  mkQueryShare key (acc_kind q) (acc_queryID q) (aas (acc_n q)) (pct (acc_n q))
    ((λ v, to_float v * 100 / to_float (acc_n q))%float <$> acc_byClass q) (Z.of_nat (size (acc_pids q))) (acc_text q).

Definition Aggregate (samples : list Sample) (f : Filter) (top : Z) : Profile :=
  if Nat.eqb (length samples) 0 then mkProfile zero_time zero_time 0 0 0 [] [] [] [] [] [] []
  else
    let t := foldl (count_sample f) no_tallies samples in
    let aas c := (to_float c / to_float (Z.of_nat (length samples)))%float in
    let pct c := if t_total t =? 0 then 0%float else (to_float c * 100 / to_float (t_total t))%float in
    mkProfile (t_from t) (t_to t) (Z.of_nat (length samples)) (t_truncated t) (aas (t_total t))
      (sort_stable by_class (omap (share_of_class aas pct (t_classes t)) Classes))
      (head_ (sort_slice by_event
        ((λ '((c, e), k), mkEventShare c e (aas k) (pct k)) <$> map_range "events" (t_events t))) top)
      (head_ (sort_slice by_query
        ((λ '(key, q), query_share aas pct key q) <$> map_range "queries" (t_queries t))) top)
      (shares "dbs" (t_dbs t) aas pct top) (shares "users" (t_users t) aas pct top)
      (shares "apps" (t_apps t) aas pct top) (shares "btypes" (t_btypes t) aas pct top).
End operations.

(** ** Specification *)

(** How many of the sessions have the value [k]. *)
Definition tally {K} `{EqDecision K} (proj : Session → K) (l : list Session) (k : K) : Z :=
  Z.of_nat (length (filter (λ s, proj s = k) l)).

Definition counts_of {K} `{Countable K} (proj : Session → K) (l : list Session) (m : gmap K Z) : Prop :=
  ∀ k, m !! k = if 0 <? tally proj l k then Some (tally proj l k) else None.

(** The sessions that run the statement [key]. *)
Definition runs (key : string) (l : list Session) : list Session :=
  filter (λ s, s_Key s = key) (filter (λ s, RunsStatement (BackendType s) = true) l).

(** The first text of a statement's sessions that is not empty. *)
Definition first_text (l : list Session) : string := default ""%string (head (filter (λ t, t ≠ ""%string) (Text <$> l))).

Definition acc_of (l : list Session) (q : queryAcc) : Prop :=
  acc_kind q = default ""%string (KeyKind <$> head l) ∧ acc_queryID q = default 0 (QueryID <$> head l) ∧
  acc_n q = Z.of_nat (length l) ∧ counts_of Class_of l (acc_byClass q) ∧
  acc_pids q = list_to_set (PID <$> l) ∧ acc_text q = first_text l.

Record tallied (l : list Session) (t : tallies) : Prop := {
  ok_total : t_total t = Z.of_nat (length l);
  ok_classes : counts_of Class_of l (t_classes t);
  ok_events : counts_of (λ s, (Class_of s, WaitEvent s)) l (t_events t);
  ok_queries : ∀ key, match t_queries t !! key with
    | Some q => runs key l ≠ [] ∧ acc_of (runs key l) q
    | None => runs key l = []
    end;
  ok_dbs : counts_of s_Database l (t_dbs t);
  ok_users : counts_of User l (t_users t);
  ok_apps : counts_of Application l (t_apps t);
  ok_btypes : counts_of BackendType l (t_btypes t)
}.

(** ** Lemmas: counting *)

Lemma tally_app {K} `{EqDecision K} (proj : Session → K) l s k :
  tally proj (l ++ [s]) k = tally proj l k + (if decide (proj s = k) then 1 else 0).
Proof.
  unfold tally. rewrite filter_app, length_app. destruct (decide (proj s = k)).
  - rewrite filter_cons_True by done. cbn. lia.
  - rewrite filter_cons_False by done. cbn. lia.
Qed.

Lemma tally_nonneg {K} `{EqDecision K} (proj : Session → K) l k : 0 <= tally proj l k.
Proof. unfold tally. lia. Qed.

Lemma counts_nil {K} `{Countable K} (proj : Session → K) : counts_of proj [] ∅.
Proof. intros k. by rewrite lookup_empty. Qed.

Lemma counts_bump {K} `{Countable K} (proj : Session → K) l m s :
  counts_of proj l m → counts_of proj (l ++ [s]) (bump (proj s) m).
Proof.
  intros Hm k. pose proof (tally_nonneg proj l k). rewrite tally_app. unfold bump.
  destruct (decide (proj s = k)) as [<-|Hne].
  - rewrite lookup_insert_eq, Hm. destruct (Z.ltb_spec 0 (tally proj l (proj s))); cbn.
    + by rewrite (proj2 (Z.ltb_lt _ _)) by lia.
    + rewrite (proj2 (Z.ltb_lt _ _)) by lia. f_equal. lia.
  - by rewrite lookup_insert_ne, Hm, Z.add_0_r.
Qed.

Lemma runs_app key l s :
  runs key (l ++ [s]) = runs key l ++ (if RunsStatement (BackendType s) && bool_decide (s_Key s = key) then [s] else []).
Proof.
  unfold runs. rewrite !filter_app. f_equal. destruct (RunsStatement (BackendType s)) eqn:Hr.
  - rewrite (filter_cons_True _ s []) by done. case_bool_decide; [by rewrite filter_cons_True|by rewrite filter_cons_False].
  - by rewrite (filter_cons_False _ s []) by congruence.
Qed.

Lemma first_text_app l s :
  first_text (l ++ [s]) = if decide (first_text l = ""%string) then Text s else first_text l.
Proof.
  unfold first_text. rewrite fmap_app, filter_app.
  assert (Hin : ∀ t, t ∈ filter (λ t, t ≠ ""%string) (Text <$> l) → t ≠ ""%string) by by intros t [? _]%list_elem_of_filter.
  change (Text <$> [s]) with [Text s]. destruct (filter _ (Text <$> l)) as [|t ts].
  - rewrite app_nil_l. destruct (decide (Text s = ""%string)) as [Ht|Ht].
    + rewrite filter_cons_False by tauto. cbn. by rewrite decide_True.
    + by rewrite filter_cons_True.
  - cbn. rewrite decide_False; [done|]. apply Hin. by left.
Qed.

Lemma acc_step l q s :
  acc_of l q →
  acc_of (l ++ [s]) (mkAcc (if decide (l = []) then KeyKind s else acc_kind q) (if decide (l = []) then QueryID s else acc_queryID q)
    (acc_n q + 1) (bump (Class_of s) (acc_byClass q)) ({[PID s]} ∪ acc_pids q)
    (if decide (acc_text q = ""%string) then Text s else acc_text q)).
Proof.
  intros (Hk & Hi & Hn & Hc & Hp & Ht). unfold acc_of. cbn.
  assert (Hhd : head (l ++ [s]) = if decide (l = []) then Some s else head l) by by destruct l.
  rewrite Hhd. split_and!.
  - by destruct (decide (l = [])).
  - by destruct (decide (l = [])).
  - rewrite length_app. cbn. lia.
  - by apply counts_bump.
  - rewrite fmap_app, list_to_set_app_L, Hp. cbn. rewrite union_empty_r_L. apply union_comm_L.
  - by rewrite first_text_app, Ht.
Qed.

Lemma acc_new : acc_of [] (mkAcc "" 0 0 ∅ ∅ "").
Proof. by split_and!. Qed.

Lemma queries_step l m s :
  (∀ key, match m !! key with Some q => runs key l ≠ [] ∧ acc_of (runs key l) q | None => runs key l = [] end) →
  RunsStatement (BackendType s) = true →
  ∀ key, match count_query s (Class_of s) m !! key with
    | Some q => runs key (l ++ [s]) ≠ [] ∧ acc_of (runs key (l ++ [s])) q
    | None => runs key (l ++ [s]) = []
    end.
Proof.
  intros Hm Hr key. rewrite runs_app, Hr. unfold count_query. specialize (Hm key). cbn [andb].
  destruct (decide (s_Key s = key)) as [Hk|Hne].
  - subst key. rewrite lookup_insert_eq, bool_decide_eq_true_2 by done. split; [apply not_eq_sym, app_cons_not_nil|].
    destruct (m !! s_Key s) as [q|]; cbn.
    + destruct Hm as [Hne Hq]. pose proof (acc_step _ _ s Hq) as Hs. by destruct (decide (runs (s_Key s) l = [])).
    + rewrite Hm. exact (acc_step [] _ s acc_new).
  - rewrite lookup_insert_ne, bool_decide_eq_false_2, app_nil_r by done. done.
Qed.

Lemma tallied_step f l t s :
  tallied l t → tallied (l ++ filter (λ s, match_ f s = true) [s]) (count_session f t s).
Proof.
  intros [Hto Hc He Hq Hd Hu Ha Hb]. unfold count_session. destruct (match_ f s) eqn:Hm; cbn [negb].
  - rewrite filter_cons_True by done. split; cbn; try by apply counts_bump.
    + rewrite length_app. cbn. lia.
    + by apply (counts_bump (λ s, (Class_of s, WaitEvent s))).
    + destruct (RunsStatement (BackendType s)) eqn:Hr; cbn [negb]; [by apply queries_step|].
      intros key. rewrite runs_app, Hr. cbn. rewrite app_nil_r. apply Hq.
  - rewrite filter_cons_False by congruence. by rewrite app_nil_r.
Qed.

(** ** Lemmas: the fold *)

(** The sessions a profile counts. *)
Definition counted (f : Filter) (samples : list Sample) : list Session :=
  filter (λ s, match_ f s = true) (mjoin (Sessions <$> samples)).

Lemma tallied_fold f ss l t : tallied l t → tallied (l ++ filter (λ s, match_ f s = true) ss) (foldl (count_session f) t ss).
Proof.
  revert l t. induction ss as [|s ss IH]; intros l t Ht; cbn [foldl]; [by rewrite app_nil_r|].
  change (s :: ss) with ([s] ++ ss). rewrite filter_app, app_assoc. apply IH. by apply tallied_step.
Qed.

Lemma fold_frame f ss t :
  let t' := foldl (count_session f) t ss in
  t_from t' = t_from t ∧ t_to t' = t_to t ∧ t_truncated t' = t_truncated t.
Proof.
  revert t. induction ss as [|s ss IH]; intros t; cbn [foldl]; [done|].
  destruct (IH (count_session f t s)) as (-> & -> & ->). unfold count_session. by destruct (match_ f s).
Qed.

Lemma tallied_with l t from to k :
  tallied l t → tallied l (mkTallies from to k (t_total t) (t_classes t) (t_events t) (t_queries t) (t_dbs t) (t_users t) (t_apps t) (t_btypes t)).
Proof. by intros []. Qed.

Lemma tallied_empty : tallied [] no_tallies.
Proof. split; try done; try (intros k; by rewrite lookup_empty). Qed.

Lemma tallied_samples f samples : tallied (counted f samples) (foldl (count_sample f) no_tallies samples).
Proof.
  induction samples as [|smp samples IH] using rev_ind; [apply tallied_empty|].
  rewrite foldl_app. cbn [foldl]. unfold counted. rewrite fmap_app, join_app, filter_app. cbn. rewrite app_nil_r.
  unfold count_sample at 1. by apply tallied_fold, tallied_with.
Qed.

(** The first and the last time, and how many samples were cut off. *)
Definition spans (samples : list Sample) (t : tallies) : Prop :=
  (∀ smp, smp ∈ samples → t_from t <= At smp <= t_to t) ∧
  t_from t ∈ At <$> samples ∧ t_to t ∈ At <$> samples ∧
  t_truncated t = Z.of_nat (length (filter (λ smp, Truncated smp = true) samples)).

Lemma count_sample_frame f t smp :
  let t' := count_sample f t smp in
  t_from t' = (if Prelude.is_zero (t_from t) || time_before (At smp) (t_from t) then At smp else t_from t) ∧
  t_to t' = (if time_after (At smp) (t_to t) then At smp else t_to t) ∧
  t_truncated t' = (if Truncated smp then t_truncated t + 1 else t_truncated t).
Proof.
  unfold count_sample. match goal with |- context [foldl _ ?t' _] => destruct (fold_frame f (Sessions smp) t') as (Hf & Ht & Hk) end.
  cbn in Hf, Ht, Hk |- *. by rewrite Hf, Ht, Hk.
Qed.

Lemma spans_samples f samples :
  samples ≠ [] → (∀ smp, smp ∈ samples → zero_time < At smp) → spans samples (foldl (count_sample f) no_tallies samples).
Proof.
  induction samples as [|smp samples IH] using rev_ind; [done|]. intros _ Hz. rewrite foldl_app. cbn [foldl].
  destruct (count_sample_frame f (foldl (count_sample f) no_tallies samples) smp) as (Hf & Ht & Hk).
  assert (Hsmp : zero_time < At smp) by (apply Hz, elem_of_app; right; by left).
  unfold spans. rewrite Hf, Ht, Hk. clear Hf Ht Hk. rewrite fmap_app, filter_app, length_app.
  assert (Hk : Z.of_nat (length (filter (λ smp, Truncated smp = true) [smp])) = if Truncated smp then 1 else 0).
  { destruct (Truncated smp) eqn:Hb; [by rewrite filter_cons_True|by rewrite filter_cons_False by congruence]. }
  destruct (decide (samples = [])) as [->|Hne].
  { cbn [foldl no_tallies t_from t_to t_truncated]. unfold time_after.
    rewrite (proj2 (Z.ltb_lt _ _) Hsmp). change (Prelude.is_zero zero_time) with true. cbn [orb]. rewrite Nat2Z.inj_add, Hk. cbn.
    split_and!; [|by left|by left|by destruct (Truncated smp)].
    intros smp' ->%list_elem_of_singleton. lia. }
  destruct IH as (Hspan & Hfrom & Hto & Htr); [done|intros ??; apply Hz, elem_of_app; by left|].
  assert (Hz0 : Prelude.is_zero (t_from (foldl (count_sample f) no_tallies samples)) = false).
  { apply Z.eqb_neq. intros Heq. apply list_elem_of_fmap in Hfrom as (x & Hx & Hin).
    specialize (Hz x). rewrite elem_of_app in Hz. specialize (Hz (or_introl Hin)). lia. }
  rewrite Hz0. cbn [orb]. unfold time_before, time_after. rewrite Htr, Nat2Z.inj_add, Hk.
  split_and!; [| | |by destruct (Truncated smp); lia].
  - intros x [Hx| ->%list_elem_of_singleton]%elem_of_app; [specialize (Hspan x Hx)|];
      destruct (Z.ltb_spec (At smp) (t_from (foldl (count_sample f) no_tallies samples))),
        (Z.ltb_spec (t_to (foldl (count_sample f) no_tallies samples)) (At smp)); lia.
  - rewrite elem_of_app. destruct (_ <? _); [right; by left|by left].
  - rewrite elem_of_app. destruct (_ <? _); [right; by left|by left].
Qed.

(** ** Lemmas: the lists *)

(** The first [top] of the elements of the given shape, all of them in the order of
    [less] without ties. *)
Definition listed {A} (less : A → A → bool) (out : list A) (top : Z) (shape : A → Prop) : Prop :=
  ∃ l, strictly less l ∧ (∀ x, x ∈ l ↔ shape x) ∧ out = head_ l top.

Lemma listed_map `{!MapRange} {A K V} `{Countable K} {J} (less : A → A → bool) (key : A → J) `{!StrictWeak less, !Separates less key}
    site (m : gmap K V) (mk : K * V → A) (shape : A → Prop) top :
  (∀ x y, key (mk x) = key (mk y) → x.1 = y.1) →
  (∀ x, shape x ↔ ∃ k v, m !! k = Some v ∧ x = mk (k, v)) →
  listed less (head_ (sort_slice less (mk <$> map_range site m)) top) top shape.
Proof.
  intros Hkey Hshape. exists (sort_slice less (mk <$> map_range site m)). split_and!; [| |done].
  - apply (sort_slice_strictly less key). rewrite <- list_fmap_compose.
    apply (NoDup_fmap_2_strong (key ∘ mk)); [|eapply NoDup_fmap_1, map_range_nodup].
    intros [k v] [k' v'] Hx Hy Heq. apply elem_of_map_range in Hx, Hy. specialize (Hkey _ _ Heq). cbn in Hkey. congruence.
  - intros x. rewrite elem_of_sort_slice, list_elem_of_fmap, Hshape. split.
    + intros ([k v] & -> & Hin%elem_of_map_range). by exists k, v.
    + intros (k & v & Hm & ->). exists (k, v). split; [done|]. by apply elem_of_map_range.
Qed.

Lemma counts_Some {K} `{Countable K} (proj : Session → K) l m k c :
  counts_of proj l m → m !! k = Some c ↔ 0 < tally proj l k ∧ c = tally proj l k.
Proof. intros Hm. rewrite Hm. destruct (Z.ltb_spec 0 (tally proj l k)); naive_solver lia. Qed.

(** A share of the sessions [l] by the property [proj]. *)
Definition share_of (proj : Session → string) (l : list Session) (aas pct : Z → float) (s : Share) : Prop :=
  0 < tally proj l (Value s) ∧ AAS s = aas (tally proj l (Value s)) ∧ SharePct s = pct (tally proj l (Value s)).

Definition event_of (l : list Session) (aas pct : Z → float) (e : EventShare) : Prop :=
  let k := tally (λ s, (Class_of s, WaitEvent s)) l (es_Class e, es_WaitEvent e) in
  0 < k ∧ es_AAS e = aas k ∧ es_SharePct e = pct k.

(** A query: the sessions that run it, by class in per cent of them. *)
Definition query_of (l : list Session) (aas pct : Z → float) (q : QueryShare) : Prop :=
  let own := runs (q_Key q) l in
  let k := Z.of_nat (length own) in
  own ≠ [] ∧ Some (q_KeyKind q) = KeyKind <$> head own ∧ Some (q_QueryID q) = QueryID <$> head own ∧
  q_AAS q = aas k ∧ q_SharePct q = pct k ∧ DistinctPIDs q = Z.of_nat (size (list_to_set (PID <$> own) : gset Z)) ∧
  q_Text q = first_text own ∧
  ∀ c, q_ByClass q !! c = if 0 <? tally Class_of own c then Some (to_float (tally Class_of own c) * 100 / to_float k)%float else None.

Lemma listed_shares `{!MapRange} site proj l m aas pct top :
  counts_of proj l m → listed by_value (shares site m aas pct top) top (share_of proj l aas pct).
Proof.
  intros Hm. unfold shares. apply (listed_map by_value Value).
  - by intros [k v] [k' v'].
  - intros [v a p]. unfold share_of. cbn. split.
    + intros (Hk & -> & ->). exists v, (tally proj l v). split; [by apply (counts_Some proj l m)|done].
    + intros (k & c & Hc & [= -> -> ->]). apply (counts_Some proj l) in Hc as [Hk ->]; done.
Qed.

#[global] Instance by_event_separates : Separates by_event (λ e, (es_Class e, es_WaitEvent e)).
Proof.
  apply lex_less_separates. intros x y. unfold lex_less, less_on. rewrite !orb_false_iff. intros [H1 H2] [H3 H4].
  rewrite H3 in H2. rewrite H1 in H4. cbn in H2, H4.
  by rewrite (str_ltb_antisym _ _ H1 H3), (str_ltb_antisym _ _ H2 H4).
Qed.

Lemma listed_events `{!MapRange} site l m aas pct top :
  counts_of (λ s, (Class_of s, WaitEvent s)) l m →
  listed by_event (head_ (sort_slice by_event ((λ '((c, e), k), mkEventShare c e (aas k) (pct k)) <$> map_range site m)) top) top
    (event_of l aas pct).
Proof.
  intros Hm. apply (listed_map by_event (λ e, (es_Class e, es_WaitEvent e))).
  - by intros [[c e] k] [[c' e'] k'] [= -> ->].
  - intros [c e a p]. unfold event_of. cbn. split.
    + intros (Hk & -> & ->). eexists (c, e), _. split; [by apply (counts_Some (λ s, (Class_of s, WaitEvent s)) l m)|done].
    + intros ([c' e'] & k & Hk & [= -> -> -> ->]). apply (counts_Some (λ s, (Class_of s, WaitEvent s)) l) in Hk as [Hk ->]; done.
Qed.

Lemma listed_queries `{!MapRange} site l m aas pct top :
  (∀ key, match m !! key with Some q => runs key l ≠ [] ∧ acc_of (runs key l) q | None => runs key l = [] end) →
  listed by_query (head_ (sort_slice by_query ((λ '(key, q), query_share aas pct key q) <$> map_range site m)) top) top
    (query_of l aas pct).
Proof.
  intros Hm. apply (listed_map by_query q_Key).
  - by intros [k q] [k' q'].
  - intros [key kd id a p by_ d tx]. unfold query_of. cbn. split.
    + intros (Hne & Hkd & Hid & -> & -> & -> & -> & Hby). specialize (Hm key).
      destruct (m !! key) as [q|] eqn:Hq; [|done]. destruct Hm as [_ (Hk & Hi & Hn & Hc & Hp & Ht)].
      exists key, q. split; [done|]. unfold query_share. rewrite Hk, Hi, Hn, Hp, Ht.
      f_equal; [by rewrite <- Hkd|by rewrite <- Hid|].
      apply map_eq. intros c. rewrite Hby, lookup_fmap, Hc. by destruct (0 <? tally _ _ c).
    + intros (k & q & Hq & [= -> -> -> -> -> -> -> ->]). specialize (Hm k). rewrite Hq in Hm.
      destruct Hm as [Hne (Hk & Hi & Hn & Hc & Hp & Ht)]. rewrite Hk, Hi, Hn, Hp, Ht.
      split_and!; try done; [by destruct (runs k l)|by destruct (runs k l)|].
      intros c. rewrite lookup_fmap, Hc. by destruct (0 <? tally _ _ c).
Qed.

Lemma Class_in s : Class_of s ∈ Classes.
Proof.
  unfold Class_of. destruct (HasPrefix _ _); [by apply (bool_decide_unpack _); vm_compute|].
  destruct (decide _); [by apply (bool_decide_unpack _); vm_compute|].
  destruct (waitTypeClasses !! WaitType s) as [c|] eqn:Hc; [|by apply (bool_decide_unpack _); vm_compute].
  assert (Hall : map_Forall (λ _ c, c ∈ Classes) waitTypeClasses) by by apply (bool_decide_unpack _); vm_compute.
  by apply (Hall _ _ Hc).
Qed.

Lemma sumZ_single (cs : list string) (c : string) : NoDup cs → c ∈ cs → sumZ ((λ c', if decide (c = c') then 1 else 0) <$> cs) = 1.
Proof.
  induction cs as [|c' cs IH]; [by intros _ ?%elem_of_nil|]. rewrite fmap_cons, sumZ_cons. intros [Hc' Hnd]%NoDup_cons.
  destruct (decide (c = c')) as [->|Hne].
  - intros _. assert (H0 : sumZ ((λ c, if decide (c' = c) then 1 else 0) <$> cs) = 0); [|lia]. clear IH Hnd.
    induction cs as [|c cs IH]; [done|]. apply not_elem_of_cons in Hc' as [? ?]. rewrite fmap_cons, sumZ_cons, IH by done.
    by rewrite decide_False.
  - intros [|Hin]%elem_of_cons; [done|]. by rewrite IH.
Qed.

Lemma Classes_nodup : NoDup Classes.
Proof. by apply (bool_decide_unpack _); vm_compute. Qed.

(** The classes partition the sessions. *)
Lemma classes_partition l : sumZ (tally Class_of l <$> Classes) = Z.of_nat (length l).
Proof.
  induction l as [|s l IH] using rev_ind; [by vm_compute|]. rewrite length_app. cbn [length].
  assert (Hadd : ∀ cs, sumZ (tally Class_of (l ++ [s]) <$> cs) =
    sumZ (tally Class_of l <$> cs) + sumZ ((λ c', if decide (Class_of s = c') then 1 else 0) <$> cs)).
  { induction cs as [|c cs IHcs]; [done|]. rewrite !fmap_cons, !sumZ_cons, IHcs, tally_app. lia. }
  rewrite Hadd, IH, (sumZ_single _ _ Classes_nodup (Class_in s)). lia.
Qed.

(** The stacking order. *)
Definition stacked (x y : Share) : Prop :=
  ∃ i j, Classes !! i = Some (Value x) ∧ Classes !! j = Some (Value y) ∧ (i < j)%nat.

Lemma omap_stacked (mk : string → option Share) cs k :
  (∀ c x, mk c = Some x → Value x = c) → drop k Classes = cs → StronglySorted stacked (omap mk cs).
Proof.
  intros Hv. revert k. induction cs as [|c cs IH]; intros k Hcs; [constructor|].
  assert (Hlook : ∀ i, Classes !! (k + i)%nat = (c :: cs) !! i) by (intros i; by rewrite <- Hcs, lookup_drop).
  assert (Hcs' : drop (S k) Classes = cs).
  { by rewrite <- Nat.add_1_r, <- drop_drop, Hcs. }
  cbn [omap list_omap]. destruct (mk c) as [x|] eqn:Hx; [|by apply (IH (S k))].
  constructor; [by apply (IH (S k))|]. rewrite list.Forall_forall. intros y (c' & Hc' & Hy)%list_elem_of_omap.
  apply list_elem_of_lookup in Hc' as [i Hi]. exists k, (k + S i)%nat. rewrite (Hv _ _ Hx), (Hv _ _ Hy).
  split_and!; [by rewrite <- (Nat.add_0_r k), Hlook|by rewrite Hlook|lia].
Qed.

#[global] Instance by_class_strict : StrictWeak by_class.
Proof. unfold by_class. apply _. Qed.

Lemma listed_classes l m aas pct :
  counts_of Class_of l m →
  let out := sort_stable by_class (omap (share_of_class aas pct m) Classes) in
  StronglySorted (stably by_class stacked) out ∧ ∀ x, x ∈ out ↔ share_of Class_of l aas pct x.
Proof.
  intros Hm out. assert (Hmk : ∀ c x, share_of_class aas pct m c = Some x ↔ Value x = c ∧ share_of Class_of l aas pct x).
  { intros c [v a p]. unfold share_of_class, share_of. rewrite Hm. cbn. pose proof (tally_nonneg Class_of l c).
    destruct (Z.ltb_spec 0 (tally Class_of l c)) as [Hk|Hk].
    - rewrite (proj2 (Z.ltb_lt _ _) Hk). split; [by intros [= <- <- <-]|by intros (-> & _ & -> & ->)].
    - split; [done|intros (-> & ? & _); lia]. }
  subst out. split.
  { apply (sort_stable_sorted _), (omap_stacked _ _ 0); [|done]. by intros c x [? _]%Hmk. }
  intros x. rewrite sort_stable_perm, list_elem_of_omap. split.
  - by intros (c & _ & [_ Hx]%Hmk).
  - intros Hx. exists (Value x). split; [|by apply Hmk]. destruct Hx as [Hk _]. unfold tally in Hk.
    destruct (filter (λ s, Class_of s = Value x) l) as [|s l'] eqn:Hf; [cbn in Hk; lia|].
    assert (Hs : s ∈ filter (λ s, Class_of s = Value x) l) by (rewrite Hf; by left).
    apply list_elem_of_filter in Hs as [<- _]. apply Class_in.
Qed.

(** ** Properties *)

Section properties.
Context `{!MapRange}.

(** C15: a profile accounts for exactly the sessions the filter selects. Its interval runs
    from the earliest to the latest sample; its total load, and each share by class, wait
    event, database, user, application, backend type and query, is the exact number of
    selected sessions with that value, per sample and in per cent of all of them. The
    classes add up to the total and come in decreasing order, equal ones as stacked; every
    other list holds the first [top] of all the values that occur, in one order without
    ties, so nothing depends on the iteration order of a map. A query is described by the
    sessions that run it: distinct processes, shares by class, the first text known. *)
Theorem Aggregate_exact samples f top :
  samples ≠ [] → (∀ smp, smp ∈ samples → zero_time < At smp) →
  let p := Aggregate samples f top in
  let l := counted f samples in
  let size := Z.of_nat (length l) in
  let aas k := (to_float k / to_float (Z.of_nat (length samples)))%float in
  let pct k := if size =? 0 then 0%float else (to_float k * 100 / to_float size)%float in
  Samples p = Z.of_nat (length samples) ∧
  p_Truncated p = Z.of_nat (length (filter (λ smp, Truncated smp = true) samples)) ∧
  (∀ smp, smp ∈ samples → From p <= At smp <= To p) ∧ From p ∈ At <$> samples ∧ To p ∈ At <$> samples ∧
  p_AAS p = aas size ∧
  sumZ (tally Class_of l <$> Classes) = size ∧
  StronglySorted (stably by_class stacked) (ByClass p) ∧ (∀ x, x ∈ ByClass p ↔ share_of Class_of l aas pct x) ∧
  listed by_event (TopEvents p) top (event_of l aas pct) ∧
  listed by_query (TopQueries p) top (query_of l aas pct) ∧
  listed by_value (ByDatabase p) top (share_of s_Database l aas pct) ∧
  listed by_value (ByUser p) top (share_of User l aas pct) ∧
  listed by_value (ByApp p) top (share_of Application l aas pct) ∧
  listed by_value (ByBackend p) top (share_of BackendType l aas pct).
Proof.
  intros Hne Hz p l size aas pct. destruct (tallied_samples f samples) as [Hto Hc He Hq Hd Hu Ha Hb].
  destruct (spans_samples f samples Hne Hz) as (Hspan & Hfrom & Hlast & Htr).
  assert (Hp : p = Aggregate samples f top) by done. unfold Aggregate in Hp.
  rewrite (proj2 (Nat.eqb_neq _ _)) in Hp by (by destruct samples). cbv zeta in Hp. rewrite Hto in Hp.
  fold l in Hc, He, Hq, Hd, Hu, Ha, Hb, Hp. fold size in Hp. rewrite Hp. cbn [Samples p_Truncated From To p_AAS ByClass TopEvents TopQueries ByDatabase ByUser ByApp ByBackend].
  destruct (listed_classes l _ aas pct Hc) as [Hsorted Hshares].
  split_and!; try done; [apply Hspan..|apply classes_partition|by apply listed_events|by apply listed_queries|
    by apply listed_shares|by apply listed_shares|by apply listed_shares|by apply listed_shares].
Qed.
End properties.

(** ** A sample *)

Definition sample_session (pid : Z) (state wait key text : string) : Session :=
  mkSession pid "client backend" "app" "ann" "psql" "" state wait "" 0 zero_time zero_time false text key "text".
Definition sample_samples : list Sample :=
  [mkSample 2 [sample_session 10 "active" "" "t:1" ""; sample_session 11 "idle" "" "t:2" "select 2"] false;
   mkSample 1 [sample_session 12 "active" "IO" "t:1" "select 1"; sample_session 13 "idle in transaction" "Client" "t:3" ""] true].

Lemma Aggregate_exact_witness :
  let p := @Aggregate canonical_range sample_samples (mkFilter "" "" false) 1 in
  map Value (ByClass p) = ["CPU"; "IO"; "ClientIdleTx"]%string ∧
  map (λ q, (q_Key q, DistinctPIDs q, q_Text q)) (TopQueries p) = [("t:1", 2, "select 1")]%string ∧
  From p ∈ At <$> sample_samples.
Proof.
  split; [by vm_compute|]. split; [by vm_compute|].
  eapply (@Aggregate_exact canonical_range sample_samples (mkFilter "" "" false) 1).
  - done.
  - apply list.Forall_forall. by apply (bool_decide_unpack _); vm_compute.
Defined.
