(* ===== verification/Sampler.v ===== *)
(** * [internal/activity]: the shared sampler ([sampler.go])

    The map of hosts with the operations that run under its mutex, and the concurrent
    callers and reads as a step relation. Between two critical sections anything may
    happen: the clock advances, other callers come, look, join and give up. The
    [singleflight] group runs one function per key at a time and hands its result to
    everyone who asked in between. What the database answers is arbitrary. *)

From Stdlib Require Import Ascii.
From S2P Require Import Prelude Activity.
From stdpp Require Import options.

#[local] Set Default Proof Using "Type*".

Definition sampleTTL : duration := 900 * 10 ^ 6.
Definition accessTTL : duration := 5 * Minute.
Definition idleTTL : duration := Minute.
Definition recentSamples : nat := 16.

(** Cluster and instance. *)
Definition hostKey : Type := string * string.

Record hostEntry := mkEntry {
  sample : option Sample; recent : list Sample; fetchedAt : time;
  access : option Access; accessAt : time; lastUsed : time
}.

Definition result : Type := Sample * Access.

(** ** Under the mutex *)

Abbreviation hosts_map := (gmap hostKey hostEntry) (only parsing).

Definition idle (now : time) (e : hostEntry) : bool := idleTTL <? time_sub now (lastUsed e).

Definition sweep (now : time) (hosts : hosts_map) : hosts_map := filter (λ x, idle now x.2 = false) hosts.

Definition entry (hosts : hosts_map) (key : hostKey) (now : time) : hostEntry :=
  default (mkEntry None [] zero_time None zero_time now) (hosts !! key).

Definition cached (hosts : hosts_map) (key : hostKey) (now : time) : option result * hosts_map :=
  let hosts := sweep now hosts in
  match hosts !! key with
  | None => (None, hosts)
  | Some e =>
      let hosts := <[key := mkEntry (sample e) (recent e) (fetchedAt e) (access e) (accessAt e) now]> hosts in
      match sample e, access e with
      | Some smp, Some acc => (if time_sub now (fetchedAt e) <? sampleTTL then Some (smp, acc) else None, hosts)
      | _, _ => (None, hosts)
      end
  end.

(** The access known so far, and whether it need not be asked for again. *)
Definition known_access (hosts : hosts_map) (key : hostKey) (now : time) : option Access * bool :=
  match hosts !! key with
  | Some e => (access e, match access e with Some _ => time_sub now (accessAt e) <? accessTTL | None => false end)
  | None => (None, false)
  end.

Definition store_access (hosts : hosts_map) (key : hostKey) (now : time) (acc : Access) : hosts_map :=
  let e := entry hosts key now in
  <[key := mkEntry (sample e) (recent e) (fetchedAt e) (Some acc) now (lastUsed e)]> hosts.

Definition store_sample (hosts : hosts_map) (key : hostKey) (now started : time) (smp : Sample) : hosts_map :=
  let e := entry hosts key now in
  let kept := if Nat.eqb (length (recent e)) recentSamples then tail (recent e) else recent e in
  <[key := mkEntry (Some smp) (kept ++ [smp]) started (access e) (accessAt e) (lastUsed e)]> hosts.

Definition Recent (hosts : hosts_map) (key : hostKey) (at_ : time) : option Sample :=
  e ← hosts !! key; head (filter (λ smp, At smp = at_) (reverse (recent e))).

(** ** Callers and reads *)

Definition nul : ascii := "000"%char.

(** The key of the [singleflight] group. *)
Definition flight_key (key : hostKey) : string := key.1 +:+ String nul key.2.

(** What the sampler did, in order: answers stored, reads started, hosts forgotten. *)
Inductive event :=
  | EAccess (key : hostKey) (at_ : time) (acc : Access)
  | EStart (key : hostKey) (started : time)
  | ERead (key : hostKey) (started : time) (smp : Sample)
  | ESweep (key : hostKey).

(** Where a running [fetch] is. *)
Inductive fetch_pc :=
  | FEnter | FLookup (now : time)
  | FAccess | FAccessAt (now : time) | FAsking (prev : option Access) (now : time)
  | FStart (acc : Access) | FReading (acc : Access) (started : time)
  | FDone (res : option result).

(** Where a caller of [Get] is. *)
Inductive get_pc := CEnter | CLookup (now : time) | CMiss | CWait | CDone (res : option result).

Record sampler := mkSampler {
  clock : time;
  hosts : gmap hostKey hostEntry;
  flights : gmap string (hostKey * fetch_pc);
  callers : gmap nat (hostKey * get_pc);
  log : list event
}.

Definition NewSampler (now : time) : sampler := mkSampler now ∅ ∅ ∅ [].

Definition swept (now : time) (hosts : hosts_map) : list event :=
  (λ x, ESweep x.1) <$> filter (λ x, idle now x.2 = true) (map_to_list hosts).

(** One step of [fetch] at the time [now]. *)
Inductive fetch_step (now : time) (hosts : hosts_map) (key : hostKey) : fetch_pc → hosts_map → fetch_pc → list event → Prop :=
  | fetch_now : fetch_step now hosts key FEnter hosts (FLookup now) []
  | fetch_cached t r hosts' : cached hosts key t = (r, hosts') →
      fetch_step now hosts key (FLookup t) hosts' (match r with Some r => FDone (Some r) | None => FAccess end) (swept t hosts)
  | fetch_access_now : fetch_step now hosts key FAccess hosts (FAccessAt now) []
  | fetch_known t prev fresh : known_access hosts key t = (prev, fresh) →
      fetch_step now hosts key (FAccessAt t) hosts
        (match prev with Some acc => if fresh then FStart acc else FAsking prev t | None => FAsking prev t end) []
  | fetch_access_ok t prev acc :
      fetch_step now hosts key (FAsking prev t) (store_access hosts key t acc) (FStart acc) [EAccess key t acc]
  | fetch_access_err t prev :
      fetch_step now hosts key (FAsking prev t) hosts (match prev with Some acc => FStart acc | None => FDone None end) []
  | fetch_start acc : fetch_step now hosts key (FStart acc) hosts (FReading acc now) [EStart key now]
  | fetch_read acc started smp :
      fetch_step now hosts key (FReading acc started) (store_sample hosts key now started smp) (FDone (Some (smp, acc)))
        [ERead key started smp]
  | fetch_error acc started : fetch_step now hosts key (FReading acc started) hosts (FDone None) [].

(** A flight's result, handed to everyone waiting for it. *)
Definition deliver (fk : string) (res : option result) (c : hostKey * get_pc) : hostKey * get_pc :=
  match c.2 with CWait => if decide (flight_key c.1 = fk) then (c.1, CDone res) else c | _ => c end.

Section step.
Variable asked_for : hostKey → Prop.

Inductive step : sampler → sampler → Prop :=
  | step_clock s d : 0 <= d → step s (mkSampler (clock s + d) (hosts s) (flights s) (callers s) (log s))
  | step_call s i key : asked_for key → callers s !! i = None →
      step s (mkSampler (clock s) (hosts s) (flights s) (<[i := (key, CEnter)]> (callers s)) (log s))
  | step_now s i key : callers s !! i = Some (key, CEnter) →
      step s (mkSampler (clock s) (hosts s) (flights s) (<[i := (key, CLookup (clock s))]> (callers s)) (log s))
  | step_cached s i key t r hosts' : callers s !! i = Some (key, CLookup t) → cached (hosts s) key t = (r, hosts') →
      step s (mkSampler (clock s) hosts' (flights s)
        (<[i := (key, match r with Some r => CDone (Some r) | None => CMiss end)]> (callers s)) (log s ++ swept t (hosts s)))
  | step_join s i key : callers s !! i = Some (key, CMiss) →
      step s (mkSampler (clock s) (hosts s)
        (match flights s !! flight_key key with Some _ => flights s | None => <[flight_key key := (key, FEnter)]> (flights s) end)
        (<[i := (key, CWait)]> (callers s)) (log s))
  | step_cancel s i key : callers s !! i = Some (key, CWait) →
      step s (mkSampler (clock s) (hosts s) (flights s) (<[i := (key, CDone None)]> (callers s)) (log s))
  | step_fetch s fk key pc hosts' pc' evs : flights s !! fk = Some (key, pc) →
      fetch_step (clock s) (hosts s) key pc hosts' pc' evs →
      step s (mkSampler (clock s) hosts' (<[fk := (key, pc')]> (flights s)) (callers s) (log s ++ evs))
  | step_deliver s fk key res : flights s !! fk = Some (key, FDone res) →
      step s (mkSampler (clock s) (hosts s) (delete fk (flights s)) (deliver fk res <$> callers s) (log s)).

Definition reachable (s : sampler) : Prop := ∃ t, rtc step (NewSampler t) s.
End step.

(** ** What the log says of a host *)

Definition about_read (key : hostKey) (l : list (time * Sample)) (e : event) : list (time * Sample) :=
  match e with
  | ERead k t smp => if decide (k = key) then l ++ [(t, smp)] else l
  | ESweep k => if decide (k = key) then [] else l
  | _ => l
  end.
Definition about_access (key : hostKey) (l : list (time * Access)) (e : event) : list (time * Access) :=
  match e with
  | EAccess k t acc => if decide (k = key) then l ++ [(t, acc)] else l
  | ESweep k => if decide (k = key) then [] else l
  | _ => l
  end.

(** The answers about a host since it was last forgotten. *)
Definition reads (key : hostKey) (es : list event) : list (time * Sample) := foldl (about_read key) [] es.
Definition accesses (key : hostKey) (es : list event) : list (time * Access) := foldl (about_access key) [] es.

(** The newest [n] elements. *)
Definition newest {A} (n : nat) (l : list A) : list A := drop (length l - n) l.

(** An entry says what the log says. *)
Definition tells (es : list event) (key : hostKey) (e : option hostEntry) : Prop :=
  match e with
  | None => reads key es = [] ∧ accesses key es = []
  | Some e =>
      ((λ smp, (fetchedAt e, smp)) <$> sample e) = last (reads key es) ∧
      ((λ acc, (accessAt e, acc)) <$> access e) = last (accesses key es) ∧
      recent e = (newest recentSamples (reads key es)).*2
  end.

(** A sample and an access the log holds are still good at [t]. *)
Definition hit (key : hostKey) (es : list event) (t : time) : Prop :=
  ∃ ts smp ta acc, last (reads key es) = Some (ts, smp) ∧ last (accesses key es) = Some (ta, acc) ∧ time_sub t ts < sampleTTL.

(** ** Lemmas: the log *)

Definition is_read (key : hostKey) (e : event) : Prop := ∃ t smp, e = ERead key t smp.
Definition answered (es : list event) (key : hostKey) (acc : Access) : Prop := ∃ t, EAccess key t acc ∈ es.
Definition was_read (es : list event) (key : hostKey) (smp : Sample) : Prop := ∃ t, ERead key t smp ∈ es.

Lemma reads_elem key es x : x ∈ reads key es → ERead key x.1 x.2 ∈ es.
Proof.
  induction es as [|e es IH] using rev_ind; [by intros ?%elem_of_nil|]. unfold reads in *. rewrite foldl_app, elem_of_app. cbn.
  destruct e as [k t a|k t|k t smp|k]; cbn; try (intros ?; by left; apply IH).
  - destruct (decide (k = key)) as [->|]; [|by left; apply IH]. intros [Hx| ->%list_elem_of_singleton]%elem_of_app; [by left; apply IH|].
    right. by left.
  - destruct (decide (k = key)); [by intros ?%elem_of_nil|by left; apply IH].
Qed.

Lemma accesses_elem key es x : x ∈ accesses key es → EAccess key x.1 x.2 ∈ es.
Proof.
  induction es as [|e es IH] using rev_ind; [by intros ?%elem_of_nil|]. unfold accesses in *. rewrite foldl_app, elem_of_app. cbn.
  destruct e as [k t a|k t|k t smp|k]; cbn; try (intros ?; by left; apply IH).
  - destruct (decide (k = key)) as [->|]; [|by left; apply IH]. intros [Hx| ->%list_elem_of_singleton]%elem_of_app; [by left; apply IH|].
    right. by left.
  - destruct (decide (k = key)); [by intros ?%elem_of_nil|by left; apply IH].
Qed.

Lemma hit_answers key es ts smp ta acc :
  last (reads key es) = Some (ts, smp) → last (accesses key es) = Some (ta, acc) → was_read es key smp ∧ answered es key acc.
Proof.
  intros Hr Ha. split.
  - exists ts. apply (reads_elem key es (ts, smp)). by apply last_Some_elem_of.
  - exists ta. apply (accesses_elem key es (ta, acc)). by apply last_Some_elem_of.
Qed.

(** Events that do not concern a host's reads and its being forgotten leave them. *)
Definition quiet_for (key : hostKey) (es : list event) : Prop := Forall (λ e, ¬ is_read key e ∧ e ≠ ESweep key) es.

Lemma reads_quiet key es es' : quiet_for key es' → reads key (es ++ es') = reads key es.
Proof.
  unfold reads. rewrite foldl_app. intros Hq. induction Hq as [|e es' [Hr Hs] Hq IH]; [done|]. cbn [foldl].
  assert (Hstep : ∀ l, about_read key l e = l).
  { intros l. destruct e as [k t a|k t|k t smp|k]; cbn; try done; (destruct (decide (k = key)) as [->|]; [|done]); [|done].
    exfalso. apply Hr. by exists t, smp. }
  by rewrite Hstep.
Qed.

(** ** Lemmas: the entries *)

Lemma sweeps_reads key ks l :
  foldl (about_read key) l (ESweep <$> ks) = if decide (key ∈ ks) then [] else l.
Proof.
  revert l. induction ks as [|k ks IH]; intros l; [done|]. rewrite fmap_cons. cbn [foldl about_read].
  rewrite IH. destruct (decide (k = key)) as [->|Hne].
  - rewrite (decide_True (P := key ∈ key :: ks)) by (by left). by destruct (decide _).
  - destruct (decide (key ∈ ks)), (decide (key ∈ k :: ks)) as [Hin|Hin]; try done; [by destruct Hin; right|].
    by apply elem_of_cons in Hin as [|].
Qed.

Lemma sweeps_accesses key ks l :
  foldl (about_access key) l (ESweep <$> ks) = if decide (key ∈ ks) then [] else l.
Proof.
  revert l. induction ks as [|k ks IH]; intros l; [done|]. rewrite fmap_cons. cbn [foldl about_access].
  rewrite IH. destruct (decide (k = key)) as [->|Hne].
  - rewrite (decide_True (P := key ∈ key :: ks)) by (by left). by destruct (decide _).
  - destruct (decide (key ∈ ks)), (decide (key ∈ k :: ks)) as [Hin|Hin]; try done; [by destruct Hin; right|].
    by apply elem_of_cons in Hin as [|].
Qed.

Lemma swept_events (t : time) (hosts : hosts_map) :
  swept t hosts = ESweep <$> (filter (λ x, idle t x.2 = true) (map_to_list hosts)).*1.
Proof. unfold swept. by rewrite <- list_fmap_compose. Qed.

Lemma swept_keys (t : time) (hosts : hosts_map) (key : hostKey) :
  key ∈ (filter (λ x, idle t x.2 = true) (map_to_list hosts)).*1 ↔ ∃ e, hosts !! key = Some e ∧ idle t e = true.
Proof.
  rewrite list_elem_of_fmap. split.
  - intros ([k e] & -> & [Hi Hin%elem_of_map_to_list]%list_elem_of_filter). by exists e.
  - intros (e & He & Hi). exists (key, e). split; [done|]. apply list_elem_of_filter. split; [done|]. by apply elem_of_map_to_list.
Qed.

Lemma tells_sweep (es : list event) (t : time) (hosts : hosts_map) (key : hostKey) :
  tells es key (hosts !! key) → tells (es ++ swept t hosts) key (sweep t hosts !! key).
Proof.
  unfold tells, reads, accesses. rewrite swept_events, !foldl_app, sweeps_reads, sweeps_accesses.
  unfold sweep. rewrite map_lookup_filter. pose proof (swept_keys t hosts key) as Hk.
  destruct (hosts !! key) as [e|] eqn:He; cbn [mbind option_bind].
  - destruct (idle t e) eqn:Hi.
    + rewrite !decide_True by (apply Hk; by exists e). rewrite option_guard_False by (cbn; congruence). done.
    + rewrite !decide_False by (intros (e' & He' & Hi')%Hk; congruence). rewrite option_guard_True by done. done.
  - rewrite !decide_False by (intros (e' & He' & Hi')%Hk; congruence). done.
Qed.

Lemma tells_cached (es : list event) (hosts : hosts_map) (key : hostKey) (t : time) r hosts' :
  (∀ k, tells es k (hosts !! k)) → cached hosts key t = (r, hosts') →
  (∀ k, tells (es ++ swept t hosts) k (hosts' !! k)) ∧
  match r with
  | Some (smp, acc) => ∃ ts ta, last (reads key (es ++ swept t hosts)) = Some (ts, smp) ∧
      last (accesses key (es ++ swept t hosts)) = Some (ta, acc) ∧ time_sub t ts < sampleTTL
  | None => ¬ hit key (es ++ swept t hosts) t
  end.
Proof.
  intros Ht. assert (Hs : ∀ k, tells (es ++ swept t hosts) k (sweep t hosts !! k)) by (intros k; apply tells_sweep, Ht).
  unfold cached. destruct (sweep t hosts !! key) as [e|] eqn:He.
  - pose proof (Hs key) as Hkey. rewrite He in Hkey. destruct Hkey as (Hsmp & Hacc & Hrec).
    assert (Hup : ∀ e', sample e' = sample e → recent e' = recent e → fetchedAt e' = fetchedAt e → access e' = access e →
      accessAt e' = accessAt e → ∀ k, tells (es ++ swept t hosts) k (<[key := e']> (sweep t hosts) !! k)).
    { intros e' H1 H2 H3 H4 H5 k. destruct (decide (k = key)) as [->|]; [|by rewrite lookup_insert_ne].
      rewrite lookup_insert_eq. cbn. by rewrite H1, H2, H3, H4, H5. }
    destruct (sample e) as [smp|] eqn:Hse, (access e) as [acc|] eqn:Hae; intros [= <- <-]; (split; [by apply Hup|]);
      try (unfold hit; cbn in Hsmp, Hacc; intros (ts & smp' & ta & acc' & Hl & Hl' & _); congruence).
    destruct (Z.ltb_spec (time_sub t (fetchedAt e)) sampleTTL) as [Hlt|Hge].
    + exists (fetchedAt e), (accessAt e). by split_and!.
    + intros (ts & smp' & ta & acc' & Hl & _ & Hlt). rewrite <- Hsmp in Hl. injection Hl as <- <-. lia.
  - intros [= <- <-]. split; [done|]. specialize (Hs key). rewrite He in Hs. destruct Hs as [Hr _].
    intros (ts & smp & ta & acc & Hl & _). by rewrite Hr in Hl.
Qed.

Lemma entry_tells (es : list event) (hosts : hosts_map) (key : hostKey) (now : time) :
  tells es key (hosts !! key) →
  let e := entry hosts key now in
  ((λ smp, (fetchedAt e, smp)) <$> sample e) = last (reads key es) ∧
  ((λ acc, (accessAt e, acc)) <$> access e) = last (accesses key es) ∧
  recent e = (newest recentSamples (reads key es)).*2.
Proof. unfold entry. destruct (hosts !! key) as [e|]; [done|]. by intros [-> ->]. Qed.

Lemma tells_store_access (es : list event) (hosts : hosts_map) (key : hostKey) (t : time) (acc : Access) :
  (∀ k, tells es k (hosts !! k)) → ∀ k, tells (es ++ [EAccess key t acc]) k (store_access hosts key t acc !! k).
Proof.
  intros Ht k. unfold tells, reads, accesses. rewrite !foldl_app. cbn [foldl about_read about_access].
  fold (reads k es). fold (accesses k es). unfold store_access. destruct (decide (key = k)) as [->|Hne].
  - rewrite lookup_insert_eq. destruct (entry_tells es hosts k t (Ht k)) as (Hs & Ha & Hr). cbn.
    split_and!; [done|by rewrite last_snoc|done].
  - rewrite lookup_insert_ne by done. apply Ht.
Qed.

Lemma newest_snoc {A} n (l : list A) x :
  (0 < n)%nat → newest n (l ++ [x]) = (if Nat.eqb (length (newest n l)) n then tail (newest n l) else newest n l) ++ [x].
Proof.
  intros Hn. unfold newest. rewrite length_drop, length_app. cbn [length]. destruct (Nat.eqb_spec (length l - (length l - n)) n) as [Heq|Hne].
  - replace (length l + 1 - n)%nat with (length l - n + 1)%nat by lia. rewrite drop_app_le by lia. f_equal.
    rewrite <- drop_drop. by destruct (drop (length l - n) l).
  - replace (length l + 1 - n)%nat with 0%nat by lia. replace (length l - n)%nat with 0%nat by lia. done.
Qed.

Lemma tells_store_sample (es : list event) (hosts : hosts_map) (key : hostKey) (now started : time) (smp : Sample) :
  (∀ k, tells es k (hosts !! k)) → ∀ k, tells (es ++ [ERead key started smp]) k (store_sample hosts key now started smp !! k).
Proof.
  intros Ht k. unfold tells, reads, accesses. rewrite !foldl_app. cbn [foldl about_read about_access].
  fold (reads k es). fold (accesses k es). unfold store_sample. destruct (decide (key = k)) as [->|Hne].
  - rewrite lookup_insert_eq. destruct (entry_tells es hosts k now (Ht k)) as (Hs & Ha & Hr). cbn [sample fetchedAt access accessAt recent].
    split_and!; [by rewrite last_snoc|done|]. rewrite newest_snoc by (unfold recentSamples; lia). rewrite fmap_app, Hr, length_fmap.
    destruct (Nat.eqb _ _); [|done]. by destruct (newest _ _).
  - rewrite lookup_insert_ne by done. apply Ht.
Qed.

(** ** The invariant *)

(** The cache was looked at, at a time not later than now, and had nothing good; no
    sample of the host was stored since. *)
Definition missed (es : list event) (now : time) (key : hostKey) : Prop :=
  ∃ la lb t, es = la ++ lb ∧ t <= now ∧ Forall (λ e, ¬ is_read key e) lb ∧ ¬ hit key la t.

Definition fetch_ok (es : list event) (now : time) (key : hostKey) (pc : fetch_pc) : Prop :=
  match pc with
  | FEnter => True
  | FLookup t => t <= now
  | FAccess | FAccessAt _ => missed es now key
  | FAsking prev _ => missed es now key ∧ ∀ acc, prev = Some acc → answered es key acc
  | FStart acc => missed es now key ∧ answered es key acc
  | FReading acc t => answered es key acc ∧ EStart key t ∈ es ∧ t <= now
  | FDone (Some (smp, acc)) => was_read es key smp ∧ answered es key acc
  | FDone None => True
  end.

(** Two reads of a host: with an access known before the first, and nothing read or
    forgotten between them. *)
Definition spaced (es : list event) : Prop :=
  ∀ key l0 ta acc l1 t smp l2 t' l3,
    es = l0 ++ EAccess key ta acc :: l1 ++ ERead key t smp :: l2 ++ EStart key t' :: l3 →
    ESweep key ∉ l1 → quiet_for key l2 → t + sampleTTL <= t'.

Lemma missed_mono es es' now now' key :
  missed es now key → now <= now' → Forall (λ e, ¬ is_read key e) es' → missed (es ++ es') now' key.
Proof.
  intros (la & lb & t & -> & Ht & Hlb & Hh) Hnow Hes'. exists la, (lb ++ es'), t. rewrite app_assoc.
  split_and!; [done|lia|by apply Forall_app|done].
Qed.

Lemma answered_mono es es' key acc : answered es key acc → answered (es ++ es') key acc.
Proof. intros [t Ht]. exists t. apply elem_of_app. by left. Qed.

Lemma was_read_mono es es' key smp : was_read es key smp → was_read (es ++ es') key smp.
Proof. intros [t Ht]. exists t. apply elem_of_app. by left. Qed.

#[local] Hint Resolve missed_mono answered_mono was_read_mono : core.

Lemma fetch_mono es es' now now' key pc :
  fetch_ok es now key pc → now <= now' → Forall (λ e, ¬ is_read key e) es' → fetch_ok (es ++ es') now' key pc.
Proof.
  intros Hok Hnow Hes'. destruct pc as [|t| |t|prev t|acc|acc t|[[smp acc]|]]; cbn in *; eauto; try lia.
  - destruct Hok as [Hm Hp]. split; eauto.
  - destruct Hok as [Hm Hp]. split; eauto.
  - destruct Hok as (Ha & Hs & Ht). split_and!; [eauto|apply elem_of_app; by left|lia].
  - destruct Hok as [Hm Hp]. split; eauto.
Qed.

(** The last occurrence of what [lb] does not have lies before it. *)
Lemma app_split {A} (l : list A) x l2 la lb :
  l ++ x :: l2 = la ++ lb → x ∉ lb → ∃ l2', la = l ++ x :: l2' ∧ l2 = l2' ++ lb.
Proof.
  intros Heq Hx. apply app_eq_app in Heq as (k & [[-> ->]|[-> Hk]]).
  - exfalso. apply Hx. apply elem_of_app. right. by left.
  - destruct k as [|y k]; cbn in Hk; [subst; exfalso; apply Hx; by left|]. injection Hk as -> ->. by exists k.
Qed.

Lemma accesses_kept key l es :
  l ≠ [] → ESweep key ∉ es → foldl (about_access key) l es ≠ [].
Proof.
  revert l. induction es as [|e es IH]; intros l Hl Hs; [done|]. apply not_elem_of_cons in Hs as [Hne Hs]. cbn [foldl].
  apply IH; [|done]. destruct e as [k t a|k t|k t smp|k]; cbn; try done; destruct (decide (k = key)) as [->|]; try done.
  by destruct l.
Qed.

Lemma missed_spaced es now key :
  missed es now key → ∀ l0 ta acc l1 t smp l2, es = l0 ++ EAccess key ta acc :: l1 ++ ERead key t smp :: l2 →
  ESweep key ∉ l1 → quiet_for key l2 → t + sampleTTL <= now.
Proof.
  intros (la & lb & t0 & -> & Ht0 & Hlb & Hh) l0 ta acc l1 t smp l2 Heq Hl1 Hl2.
  replace (l0 ++ EAccess key ta acc :: l1 ++ ERead key t smp :: l2) with ((l0 ++ EAccess key ta acc :: l1) ++ ERead key t smp :: l2) in Heq
    by by rewrite <- app_assoc.
  symmetry in Heq. apply app_split in Heq as (l2' & -> & ->).
  2:{ intros Hin. rewrite list.Forall_forall in Hlb. apply (Hlb _ Hin). by exists t, smp. }
  apply Forall_app in Hl2 as [Hl2 _].
  assert (Hr : last (reads key ((l0 ++ EAccess key ta acc :: l1) ++ ERead key t smp :: l2')) = Some (t, smp)).
  { change (ERead key t smp :: l2') with ([ERead key t smp] ++ l2'). rewrite app_assoc, reads_quiet by done.
    unfold reads. rewrite foldl_app. cbn. by rewrite decide_True, last_snoc. }
  assert (Ha : accesses key ((l0 ++ EAccess key ta acc :: l1) ++ ERead key t smp :: l2') ≠ []).
  { unfold accesses. rewrite <- app_assoc, foldl_app. cbn [foldl app]. apply accesses_kept.
    - cbn. rewrite decide_True by done. by destruct (foldl _ _ l0).
    - rewrite elem_of_app, elem_of_cons. intros [?|[?|Hin]]; [done|done|]. unfold quiet_for in Hl2.
      rewrite list.Forall_forall in Hl2. by destruct (Hl2 _ Hin). }
  match type of Ha with ?l ≠ [] => destruct (last l) as [[ta' acc']|] eqn:Hla end; [|by apply last_None in Hla].
  destruct (Z.lt_ge_cases (time_sub t0 t) sampleTTL) as [Hlt|Hge].
  - exfalso. apply Hh. by exists t, smp, ta', acc'.
  - unfold time_sub, sampleTTL, min64, max64 in *. lia.
Qed.

Lemma spaced_snoc es es' :
  spaced es → (∀ key t, EStart key t ∉ es') → spaced (es ++ es').
Proof.
  intros Hs Hno key l0 ta acc l1 t smp l2 t' l3 Heq Hl1 Hl2.
  replace (l0 ++ EAccess key ta acc :: l1 ++ ERead key t smp :: l2 ++ EStart key t' :: l3)
    with ((l0 ++ EAccess key ta acc :: l1 ++ ERead key t smp :: l2) ++ EStart key t' :: l3) in Heq
    by (rewrite <- app_assoc; cbn; by rewrite <- app_assoc).
  symmetry in Heq. apply app_split in Heq as (l3' & -> & ->); [|apply Hno].
  eapply (Hs key l0 ta acc l1 t smp l2 t' l3'); [|done|done]. rewrite <- app_assoc. cbn. by rewrite <- app_assoc.
Qed.

Lemma spaced_start es now key : spaced es → missed es now key → spaced (es ++ [EStart key now]).
Proof.
  intros Hs Hm key' l0 ta acc l1 t smp l2 t' l3 Heq Hl1 Hl2.
  destruct l3 as [|e l3 _] using rev_ind.
  - replace (l0 ++ EAccess key' ta acc :: l1 ++ ERead key' t smp :: l2 ++ [EStart key' t'])
      with ((l0 ++ EAccess key' ta acc :: l1 ++ ERead key' t smp :: l2) ++ [EStart key' t']) in Heq
      by (rewrite <- app_assoc; cbn; by rewrite <- app_assoc).
    apply app_inj_tail in Heq as [-> [= <- <-]]. by eapply missed_spaced.
  - replace (l0 ++ EAccess key' ta acc :: l1 ++ ERead key' t smp :: l2 ++ EStart key' t' :: l3 ++ [e])
      with ((l0 ++ EAccess key' ta acc :: l1 ++ ERead key' t smp :: l2 ++ EStart key' t' :: l3) ++ [e]) in Heq
      by (rewrite <- app_assoc; cbn; rewrite <- app_assoc; cbn; by rewrite <- app_assoc).
    apply app_inj_tail in Heq as [-> _]. by eapply Hs.
Qed.

(** ** Reachable states *)

Section reach.
Context (asked_for : hostKey → Prop).
Implicit Types (s : sampler).

(** The cluster names that reach the sampler hold no zero byte. *)
Definition no_nul (x : string) : Prop := nul ∉ String.list_ascii_of_string x.

Definition get_ok (es : list event) (fs : gmap string (hostKey * fetch_pc)) (key : hostKey) (pc : get_pc) : Prop :=
  match pc with
  | CWait => ∃ key' pc', fs !! flight_key key = Some (key', pc')
  | CDone (Some (smp, acc)) => was_read es key smp ∧ answered es key acc
  | _ => True
  end.

Record inv (s : sampler) : Prop := {
  i_hosts : ∀ key, tells (log s) key (hosts s !! key);
  i_flights : ∀ fk key pc, flights s !! fk = Some (key, pc) →
    fk = flight_key key ∧ asked_for key ∧ fetch_ok (log s) (clock s) key pc;
  i_callers : ∀ i key pc, callers s !! i = Some (key, pc) → asked_for key ∧ get_ok (log s) (flights s) key pc;
  i_spaced : spaced (log s)
}.

Lemma flight_key_inj key key' :
  no_nul key.1 → no_nul key'.1 → flight_key key = flight_key key' → key = key'.
Proof.
  destruct key as [c i], key' as [c' i']. unfold no_nul, flight_key. cbn [fst snd]. intros Hc Hc' Heq.
  by destruct (string_sep_inj _ _ _ _ _ Hc Hc' Heq) as [-> ->].
Qed.

Lemma get_mono es es' fs fs' key pc :
  get_ok es fs key pc → (∀ k, is_Some (fs !! k) → is_Some (fs' !! k)) → get_ok (es ++ es') fs' key pc.
Proof.
  intros Hok Hfs. destruct pc as [|t| | |[[smp acc]|]]; cbn in *; try done.
  - destruct Hok as (key' & pc' & Hf). destruct (Hfs (flight_key key)) as [[k p] Hk]; [by rewrite Hf|]. by exists k, p.
  - destruct Hok. split; [by apply was_read_mono|by apply answered_mono].
Qed.

Lemma swept_quiet t hosts key : Forall (λ e, ¬ is_read key e) (swept t hosts).
Proof. unfold swept. apply Forall_fmap, Forall_true. by intros x (? & ? & ?). Qed.

Lemma swept_no_start t hosts key t' : EStart key t' ∉ swept t hosts.
Proof. unfold swept. by intros (? & ? & _)%list_elem_of_fmap. Qed.

(** What a step of a read does to the invariant. *)
Lemma fetch_step_ok es now hosts key pc hosts' pc' evs :
  (∀ k, tells es k (hosts !! k)) → fetch_ok es now key pc → spaced es → fetch_step now hosts key pc hosts' pc' evs →
  (∀ k, tells (es ++ evs) k (hosts' !! k)) ∧ fetch_ok (es ++ evs) now key pc' ∧ spaced (es ++ evs) ∧
  ∀ key', key' ≠ key → Forall (λ e, ¬ is_read key' e) evs.
Proof.
  intros Ht Hok Hsp Hstep. assert (Hnil : ∀ P : event → Prop, Forall P []) by constructor.
  destruct Hstep as [|t r hosts' Hc| |t prev fresh Hk|t prev acc|t prev|acc|acc started smp|acc started];
    cbn [fetch_ok] in *; rewrite ?app_nil_r.
  - split_and!; try done; lia.
  - destruct (tells_cached es hosts key t r hosts' Ht Hc) as [Ht' Hr].
    split_and!; [done| |apply spaced_snoc; [done|intros ??; apply swept_no_start]|intros ??; apply swept_quiet].
    destruct r as [[smp acc]|].
    + destruct Hr as (ts & ta & Hr & Ha & _). cbn. by eapply hit_answers.
    + exists (es ++ swept t hosts), [], t. rewrite app_nil_r. by split_and!.
  - by split_and!.
  - split_and!; try done. unfold known_access in Hk. pose proof (Ht key) as Hkey.
    destruct (hosts !! key) as [e|]; injection Hk as <- <-; [|by split].
    destruct (access e) as [acc|] eqn:He; [|by split].
    assert (Hans : answered es key acc).
    { destruct Hkey as (_ & Ha & _). rewrite He in Ha. exists (accessAt e).
      apply (accesses_elem key es (accessAt e, acc)). by apply last_Some_elem_of. }
    destruct (_ <? _); cbn; (split; [done|]); [done|]. by intros acc' [= <-].
  - destruct Hok as [Hm Hp]. split_and!.
    + by apply tells_store_access.
    + apply missed_mono with now; [done|lia|]. constructor; [|done]. by intros (? & ? & ?).
    + exists t. apply elem_of_app. right. by left.
    + apply spaced_snoc; [done|]. by intros ?? ?%list_elem_of_singleton.
    + intros. constructor; [|done]. by intros (? & ? & ?).
  - destruct Hok as [Hm Hp]. split_and!; try done. destruct prev as [acc|]; [|done]. split; [done|by apply Hp].
  - destruct Hok as [Hm Ha]. split_and!.
    + intros k. specialize (Ht k). unfold tells, reads, accesses in *. by rewrite !foldl_app.
    + by apply answered_mono.
    + apply elem_of_app. right. by left.
    + lia.
    + by apply spaced_start.
    + intros. constructor; [|done]. by intros (? & ? & ?).
  - destruct Hok as (Ha & Hs & Hle). split_and!.
    + by apply tells_store_sample.
    + exists started. apply elem_of_app. right. by left.
    + by apply answered_mono.
    + apply spaced_snoc; [done|]. by intros ?? ?%list_elem_of_singleton.
    + intros key' Hne. constructor; [|done]. intros (? & ? & [= <- _ _]). done.
  - by split_and!.
Qed.

Lemma inv_step s s' : (∀ key, asked_for key → no_nul key.1) → inv s → step asked_for s s' → inv s'.
Proof.
  intros Hnul [Hh Hf Hc Hsp] Hstep.
  destruct Hstep as [s d Hd|s i key Hk Hi|s i key Hi|s i key t r hosts' Hi Hr|s i key Hi|s i key Hi|s fk key pc hosts' pc' evs Hfk Hst|s fk key res Hfk];
    split; cbn [clock hosts flights callers log]; try done.
  - intros fk key pc Hfk. destruct (Hf _ _ _ Hfk) as (-> & Hk & Hok). split_and!; [done|done|].
    rewrite <- (app_nil_r (log s)). apply (fetch_mono _ _ (clock s)); [done|lia|constructor].
  - intros j key' pc [[<- [= <- <-]]|[Hne Hj]]%lookup_insert_Some; [by split|by eapply Hc].
  - intros j key' pc [[<- [= <- <-]]|[Hne Hj]]%lookup_insert_Some; [split; [by eapply Hc|done]|by eapply Hc].
  - by eapply tells_cached.
  - intros fk key' pc Hfk. destruct (Hf _ _ _ Hfk) as (-> & Hk & Hok). split_and!; [done|done|].
    apply (fetch_mono _ _ (clock s)); [done|lia|apply swept_quiet].
  - intros j key' pc [[<- [= <- <-]]|[Hne Hj]]%lookup_insert_Some.
    + split; [by eapply Hc|]. destruct r as [[smp acc]|]; [|done].
      destruct (tells_cached _ _ _ _ _ _ Hh Hr) as (_ & ts & ta & Hl & Ha & _). cbn. by eapply hit_answers.
    + destruct (Hc _ _ _ Hj). split; [done|]. by eapply get_mono.
  - apply spaced_snoc; [done|]. intros ??. apply swept_no_start.
  - intros fk key' pc Hfk. destruct (flights s !! flight_key key) eqn:Hfl; [by eapply Hf|].
    apply lookup_insert_Some in Hfk as [[<- [= <- <-]]|[Hne Hfk]]; [|by eapply Hf]. split_and!; [done|by eapply Hc|done].
  - intros j key' pc [[<- [= <- <-]]|[Hne Hj]]%lookup_insert_Some.
    + split; [by eapply Hc|]. cbn. destruct (flights s !! flight_key key) as [[key' pc]|] eqn:Hfl; [by exists key', pc|].
      exists key, FEnter. by rewrite lookup_insert_eq.
    + destruct (Hc _ _ _ Hj). split; [done|]. rewrite <- (app_nil_r (log s)). eapply get_mono; [done|].
      intros k Hk. destruct (flights s !! flight_key key); [done|]. destruct (decide (flight_key key = k)) as [<-|];
        [by rewrite lookup_insert_eq|by rewrite lookup_insert_ne].
  - intros j key' pc [[<- [= <- <-]]|[Hne Hj]]%lookup_insert_Some; [split; [by eapply Hc|done]|by eapply Hc].
  - destruct (Hf _ _ _ Hfk) as (_ & _ & Hok). by apply (fetch_step_ok _ _ _ _ _ _ _ _ Hh Hok Hsp Hst).
  - destruct (Hf _ _ _ Hfk) as (-> & Hk & Hok). destruct (fetch_step_ok _ _ _ _ _ _ _ _ Hh Hok Hsp Hst) as (_ & Hok' & _ & Hq).
    intros fk key' pc1 [[<- [= <- <-]]|[Hne Hfk']]%lookup_insert_Some; [by split_and!|].
    destruct (Hf _ _ _ Hfk') as (-> & Hk' & Hok1). split_and!; [done|done|]. apply (fetch_mono _ _ (clock s)); [done|lia|].
    apply Hq. by intros ->.
  - intros j key' pc1 Hj. destruct (Hc _ _ _ Hj). split; [done|]. eapply get_mono; [done|].
    intros k Hk. destruct (decide (fk = k)) as [<-|]; [by rewrite lookup_insert_eq|by rewrite lookup_insert_ne].
  - destruct (Hf _ _ _ Hfk) as (_ & _ & Hok). by apply (fetch_step_ok _ _ _ _ _ _ _ _ Hh Hok Hsp Hst).
  - intros fk' key' pc [Hne Hfk']%lookup_delete_Some. by eapply Hf.
  - intros j key' pc Hj. rewrite lookup_fmap in Hj. destruct (callers s !! j) as [[key1 pc1]|] eqn:Hj1; [|done].
    injection Hj as Hj. destruct (Hc _ _ _ Hj1) as [Hk1 Hok1]. destruct (Hf _ _ _ Hfk) as (Hfk1 & Hk & Hok).
    unfold deliver in Hj. cbn in Hj. destruct pc1 as [|t| | |res1]; try (injection Hj as <- <-; by split).
    destruct (decide (flight_key key1 = fk)) as [Heq|Hne].
    + injection Hj as <- <-. split; [done|]. rewrite Hfk1 in Heq. apply flight_key_inj in Heq as ->; [|by apply Hnul..].
      destruct res as [[smp acc]|]; [exact Hok|done].
    + injection Hj as <- <-. split; [done|]. cbn in Hok1 |- *. by rewrite lookup_delete_ne.
Qed.

Lemma inv_reachable s : (∀ key, asked_for key → no_nul key.1) → reachable asked_for s → inv s.
Proof.
  intros Hnul (t & Hr). assert (Hi : inv (NewSampler t)).
  { split; cbn; try done. intros key l0 ta acc l1 t1 smp l2 t2 l3 Heq. by destruct l0. }
  induction Hr as [|s1 s2 s3 Hst Hr IH]; [done|]. by apply IH, (inv_step s1).
Qed.

(** ** Progress *)

Definition rank (pc : fetch_pc) : nat :=
  match pc with
  | FEnter => 7 | FLookup _ => 6 | FAccess => 5 | FAccessAt _ => 4 | FAsking _ _ => 3 | FStart _ => 2 | FReading _ _ => 1
  | FDone _ => 0
  end.

Lemma fetch_step_rank now hosts key pc hosts' pc' evs : fetch_step now hosts key pc hosts' pc' evs → (rank pc' < rank pc)%nat.
Proof. destruct 1 as [|t [r|] hosts'| |t [prev|] [|]|t prev acc|t [prev|]|acc|acc started smp|acc started]; cbn; lia. Qed.

Lemma fetch_step_exists now hosts key pc : (0 < rank pc)%nat → ∃ hosts' pc' evs, fetch_step now hosts key pc hosts' pc' evs.
Proof.
  destruct pc as [|t| |t|prev t|acc|acc t|res]; cbn; intros Hr; try lia.
  - do 3 eexists. constructor.
  - destruct (cached hosts key t) as [r hosts'] eqn:Hc. do 3 eexists. by econstructor.
  - do 3 eexists. constructor.
  - destruct (known_access hosts key t) as [prev fresh] eqn:Hk. do 3 eexists. by econstructor.
  - do 3 eexists. by apply fetch_access_err.
  - do 3 eexists. constructor.
  - do 3 eexists. by apply fetch_error.
Qed.

Lemma flight_served s fk key pc i key' :
  flights s !! fk = Some (key, pc) → callers s !! i = Some (key', CWait) → flight_key key' = fk →
  ∃ n s' res, (n <= S (rank pc))%nat ∧ nsteps (step asked_for) n s s' ∧ callers s' !! i = Some (key', CDone res).
Proof.
  remember (rank pc) as m eqn:Hm. revert s pc Hm. induction (lt_wf m) as [m _ IH]. intros s pc -> Hfk Hi Hkey.
  destruct (decide (rank pc = 0%nat)) as [H0|H0].
  - destruct pc as [|t| |t|prev t|acc|acc t|res]; try done. eexists 1%nat, _, res. split; [lia|]. split.
    + econstructor; [by eapply step_deliver|constructor].
    + cbn. rewrite lookup_fmap, Hi. cbn. unfold deliver. cbn. by rewrite decide_True.
  - destruct (fetch_step_exists (clock s) (hosts s) key pc ltac:(lia)) as (hosts' & pc' & evs & Hst).
    pose proof (fetch_step_rank _ _ _ _ _ _ _ Hst) as Hlt.
    destruct (IH (rank pc') Hlt (mkSampler (clock s) hosts' (<[fk := (key, pc')]> (flights s)) (callers s) (log s ++ evs)) pc')
      as (n & s' & res & Hn & Hrun & Hdone); [done|cbn; by rewrite lookup_insert_eq|done|done|].
    exists (S n), s', res. split; [lia|]. split; [|done]. econstructor; [|exact Hrun]. by eapply step_fetch.
Qed.
End reach.

(** ** Properties *)

(** C16: callers share reads without mixing them up. In every state the sampler reaches, if
    no cluster name holds a zero byte: a host is read at most once at a time; a result a
    caller got consists of a sample and an access that the database answered for the very
    host the caller asked for; and the memory of a host is exact: a lookup answers only
    with its newest sample, read less than 900 milliseconds ago, and [Recent] finds the
    newest sample of a time among the last sixteen since the host was last forgotten,
    which happens to a host only when nobody asked for it for over a minute. *)
Theorem sampler_shares (asked_for : hostKey → Prop) s :
  (∀ key, asked_for key → no_nul key.1) → reachable asked_for s →
  (∀ fk fk' key acc acc' t t', flights s !! fk = Some (key, FReading acc t) → flights s !! fk' = Some (key, FReading acc' t') →
     fk = fk') ∧
  (∀ i key smp acc, callers s !! i = Some (key, CDone (Some (smp, acc))) →
     was_read (log s) key smp ∧ answered (log s) key acc) ∧
  (∀ key now smp acc hosts', cached (hosts s) key now = (Some (smp, acc), hosts') →
     ∃ t, last (reads key (log s ++ swept now (hosts s))) = Some (t, smp) ∧ time_sub now t < sampleTTL) ∧
  (∀ key at_, Recent (hosts s) key at_ =
     head (filter (λ smp, At smp = at_) (reverse (newest recentSamples (reads key (log s))).*2))) ∧
  (∀ key now, ESweep key ∈ swept now (hosts s) ↔ ∃ e, hosts s !! key = Some e ∧ idleTTL < time_sub now (lastUsed e)).
Proof.
  intros Hnul Hr. destruct (inv_reachable _ _ Hnul Hr) as [Hh Hf Hc _]. split_and!.
  - intros fk fk' key acc acc' t t' H1 H2. destruct (Hf _ _ _ H1) as [-> _]. by destruct (Hf _ _ _ H2) as [-> _].
  - intros i key smp acc Hi. apply (Hc _ _ _ Hi).
  - intros key now smp acc hosts' Hca. destruct (tells_cached _ _ _ _ _ _ Hh Hca) as (_ & ts & ta & Hl & _ & Hlt). by exists ts.
  - intros key at_. unfold Recent. specialize (Hh key). destruct (hosts s !! key) as [e|]; cbn.
    + destruct Hh as (_ & _ & ->). done.
    + by destruct Hh as [-> _].
  - intros key now. rewrite swept_events, list_elem_of_fmap. split.
    + intros (k & [= ->] & (e & He & Hi)%swept_keys). exists e. split; [done|]. by apply Z.ltb_lt.
    + intros (e & He & Hi). exists key. split; [done|]. apply swept_keys. exists e. split; [done|]. by apply Z.ltb_lt.
Qed.

(** However many callers poll, the database is not asked more often than every 900
    milliseconds. A host whose sample was stored with its access known, and that was not
    forgotten or read since, is read again at the earliest 900 milliseconds after that
    read started. *)
Theorem sampler_rate (asked_for : hostKey → Prop) s key l0 ta acc l1 t smp l2 t' l3 :
  (∀ key, asked_for key → no_nul key.1) → reachable asked_for s →
  log s = l0 ++ EAccess key ta acc :: l1 ++ ERead key t smp :: l2 ++ EStart key t' :: l3 →
  ESweep key ∉ l1 → quiet_for key l2 → t + 900000000 <= t'.
Proof. intros Hnul Hr Heq Hl1 Hl2. destruct (inv_reachable _ _ Hnul Hr) as [_ _ _ Hs]. by eapply Hs. Qed.

(** C17: nobody waits for ever. A caller that waits, in whatever state, has a read of its
    host running; every step of that read that the database's answer allows brings it
    closer to its end, which is at most seven steps away, and the end serves the caller. *)
Theorem waiter_served (asked_for : hostKey → Prop) s i key :
  (∀ key, asked_for key → no_nul key.1) → reachable asked_for s → callers s !! i = Some (key, CWait) →
  ∃ pc, flights s !! flight_key key = Some (key, pc) ∧
    (∀ now hosts hosts' pc' evs, fetch_step now hosts key pc hosts' pc' evs → (rank pc' < rank pc)%nat) ∧
    ∃ n s' res, (n <= 8)%nat ∧ nsteps (step asked_for) n s s' ∧ callers s' !! i = Some (key, CDone res).
Proof.
  intros Hnul Hr Hi. destruct (inv_reachable _ _ Hnul Hr) as [_ Hf Hc _].
  destruct (Hc _ _ _ Hi) as (Hk & key' & pc & Hfk). destruct (Hf _ _ _ Hfk) as (Heq & Hk' & _).
  apply flight_key_inj in Heq as <-; [|by apply Hnul..].
  exists pc. split; [done|]. split; [intros *; apply fetch_step_rank|].
  destruct (flight_served asked_for s _ key pc i key Hfk Hi eq_refl) as (n & s' & res & Hn & Hrun & Hdone).
  exists n, s', res. split; [|done]. destruct pc; cbn in Hn; lia.
Qed.

(** ** A run *)

Definition sample_host : hostKey := ("main", "db1:5432")%string.
Definition sample_smp : Sample := mkSample 5 [] false.
Definition sample_acc : Access := mkAccess true true false.
Definition sample_known (key : hostKey) : Prop := key = sample_host.

Lemma sample_known_nul key : sample_known key → no_nul key.1.
Proof. intros ->. apply (bool_decide_unpack _); by vm_compute. Qed.

(** A scheduler that plays a given sequence of moves, with the database's answers. *)
Inductive move :=
  | MTick (d : Z) | MCall (i : nat) (key : hostKey) | MCaller (i : nat) | MFetch (fk : string) (acc : Access) (smp : Sample)
  | MDeliver (fk : string).

Definition play_fetch (now : time) (hosts : hosts_map) (key : hostKey) (pc : fetch_pc) (acc : Access) (smp : Sample) :
    option (hosts_map * fetch_pc * list event) :=
  match pc with
  | FEnter => Some (hosts, FLookup now, [])
  | FLookup t =>
      let '(r, hosts') := cached hosts key t in
      Some (hosts', match r with Some r => FDone (Some r) | None => FAccess end, swept t hosts)
  | FAccess => Some (hosts, FAccessAt now, [])
  | FAccessAt t =>
      let '(prev, fresh) := known_access hosts key t in
      Some (hosts, match prev with Some acc => if fresh then FStart acc else FAsking prev t | None => FAsking prev t end, [])
  | FAsking _ t => Some (store_access hosts key t acc, FStart acc, [EAccess key t acc])
  | FStart acc => Some (hosts, FReading acc now, [EStart key now])
  | FReading acc started => Some (store_sample hosts key now started smp, FDone (Some (smp, acc)), [ERead key started smp])
  | FDone _ => None
  end.

Definition play (s : sampler) (m : move) : option sampler :=
  match m with
  | MTick d => if 0 <=? d then Some (mkSampler (clock s + d) (hosts s) (flights s) (callers s) (log s)) else None
  | MCall i key =>
      match callers s !! i with
      | None => if decide (key = sample_host) then
          Some (mkSampler (clock s) (hosts s) (flights s) (<[i := (key, CEnter)]> (callers s)) (log s)) else None
      | Some _ => None
      end
  | MCaller i =>
      match callers s !! i with
      | Some (key, CEnter) =>
          Some (mkSampler (clock s) (hosts s) (flights s) (<[i := (key, CLookup (clock s))]> (callers s)) (log s))
      | Some (key, CLookup t) =>
          let '(r, hosts') := cached (hosts s) key t in
          Some (mkSampler (clock s) hosts' (flights s)
            (<[i := (key, match r with Some r => CDone (Some r) | None => CMiss end)]> (callers s)) (log s ++ swept t (hosts s)))
      | Some (key, CMiss) =>
          Some (mkSampler (clock s) (hosts s)
            (match flights s !! flight_key key with Some _ => flights s | None => <[flight_key key := (key, FEnter)]> (flights s) end)
            (<[i := (key, CWait)]> (callers s)) (log s))
      | _ => None
      end
  | MFetch fk acc smp =>
      match flights s !! fk with
      | Some (key, pc) =>
          '(hosts', pc', evs) ← play_fetch (clock s) (hosts s) key pc acc smp;
          Some (mkSampler (clock s) hosts' (<[fk := (key, pc')]> (flights s)) (callers s) (log s ++ evs))
      | None => None
      end
  | MDeliver fk =>
      match flights s !! fk with
      | Some (key, FDone res) => Some (mkSampler (clock s) (hosts s) (delete fk (flights s)) (deliver fk res <$> callers s) (log s))
      | _ => None
      end
  end.

Lemma play_fetch_sound now hosts key pc acc smp hosts' pc' evs :
  play_fetch now hosts key pc acc smp = Some (hosts', pc', evs) → fetch_step now hosts key pc hosts' pc' evs.
Proof.
  destruct pc as [|t| |t|prev t|acc0|acc0 t|res]; cbn.
  - intros [= <- <- <-]. constructor.
  - destruct (cached hosts key t) as [r h] eqn:Hc. intros [= <- <- <-]. by constructor.
  - intros [= <- <- <-]. constructor.
  - destruct (known_access hosts key t) as [prev fresh] eqn:Hk. intros [= <- <- <-]. by constructor.
  - intros [= <- <- <-]. constructor.
  - intros [= <- <- <-]. constructor.
  - intros [= <- <- <-]. constructor.
  - done.
Qed.

Lemma play_sound s m s' : play s m = Some s' → step sample_known s s'.
Proof.
  destruct m as [d|i key|i|fk acc smp|fk]; cbn.
  - destruct (Z.leb_spec 0 d); intros [= <-]. by constructor.
  - destruct (callers s !! i) eqn:Hi; [done|]. destruct (decide (key = sample_host)); intros [= <-]. by constructor.
  - destruct (callers s !! i) as [[key [|t| | |res]]|] eqn:Hi; try done; [intros [= <-]; by constructor| |intros [= <-]; by constructor].
    destruct (cached (hosts s) key t) as [r h] eqn:Hc. intros [= <-]. by constructor.
  - destruct (flights s !! fk) as [[key pc]|] eqn:Hfk; [|done].
    destruct (play_fetch _ _ _ _ _ _) as [[[h pc'] evs]|] eqn:Hp; [|done]. intros [= <-].
    eapply step_fetch; [done|]. by apply play_fetch_sound in Hp.
  - destruct (flights s !! fk) as [[key pc]|] eqn:Hfk; [|done]. destruct pc; try done. intros [= <-]. by econstructor.
Qed.

Definition play_all (s : sampler) (ms : list move) : option sampler :=
  foldl (λ s m, s ← s; play s m) (Some s) ms.

Lemma play_all_sound s ms s' : play_all s ms = Some s' → rtc (step sample_known) s s'.
Proof.
  revert s' . induction ms as [|m ms IH] using rev_ind; intros s'; unfold play_all; [by intros [= <-]|].
  rewrite foldl_app. cbn. fold (play_all s ms). destruct (play_all s ms) as [s1|]; [|done]. cbn. intros Hp.
  eapply rtc_r; [by apply IH|by eapply play_sound].
Qed.

(** A caller comes and its read goes through; a second after it another read starts, with
    a second caller waiting for it. *)
Definition sample_fk : string := flight_key sample_host.
Definition sample_fetch (n : nat) : list move := replicate n (MFetch sample_fk sample_acc sample_smp).
Definition sample_moves : list move :=
  [MCall 0 sample_host; MCaller 0; MCaller 0; MCaller 0] ++ sample_fetch 7 ++ [MDeliver sample_fk; MTick Second;
   MCall 1 sample_host; MCaller 1; MCaller 1; MCaller 1] ++ sample_fetch 5.

Definition sample_run : option sampler := play_all (NewSampler 0) sample_moves.
Definition sample_state : sampler := default (NewSampler 0) sample_run.

Lemma sample_reachable : reachable sample_known sample_state.
Proof. exists 0. apply (play_all_sound _ sample_moves). by vm_compute. Qed.

Lemma sampler_shares_witness :
  callers sample_state !! 0%nat = Some (sample_host, CDone (Some (sample_smp, sample_acc))) ∧
  was_read (log sample_state) sample_host sample_smp ∧ answered (log sample_state) sample_host sample_acc.
Proof.
  assert (Hd : callers sample_state !! 0%nat = Some (sample_host, CDone (Some (sample_smp, sample_acc)))) by by vm_compute.
  split; [exact Hd|]. exact (proj1 (proj2 (sampler_shares sample_known sample_state sample_known_nul sample_reachable)) 0%nat _ _ _ Hd).
Defined.

Lemma sampler_rate_witness : 0 + 900000000 <= Second.
Proof.
  apply (sampler_rate sample_known sample_state sample_host [] 0 sample_acc [EStart sample_host 0] 0 sample_smp [] Second []).
  - exact sample_known_nul.
  - exact sample_reachable.
  - by vm_compute.
  - by intros ?%list_elem_of_singleton.
  - constructor.
Defined.

Lemma waiter_served_witness :
  ∃ pc, flights sample_state !! sample_fk = Some (sample_host, pc) ∧ pc ≠ FEnter.
Proof.
  destruct (waiter_served sample_known sample_state 1 sample_host sample_known_nul sample_reachable) as (pc & Hpc & _);
    [by vm_compute|]. exists pc. split; [exact Hpc|]. intros ->. vm_compute in Hpc. discriminate.
Defined.
