(* ===== verification/ExplainPlan.v ===== *)
(** * [internal/explain]: the plan tree ([plan.go], [hash.go], [parse_json.go], [detect.go])

    A plan as a tree of nodes, its traversal and addressing, the fingerprint of its shape,
    and its construction from the decoded JSON of PostgreSQL. [sha256], [json.Unmarshal]
    into the JSON structs, and the printing of settings that are neither strings nor
    booleans are parameters. A pointer to a number is an [option]. *)

From Stdlib Require Import Ascii.
From S2P Require Import Prelude GoFloat AutoConfig PatroniLayout Sqlparse.
From stdpp Require Import pretty.
From stdpp Require Import options.

#[local] Set Default Proof Using "Type*".
#[local] Set Warnings "-register-all".
#[local] Open Scope Z_scope.

(** ** Data *)

Definition SourceExplain : string := "explain".
Definition SourceLog : string := "log".
Definition FormatText : string := "text".
Definition FormatJSON : string := "json".

Definition RelOuter : string := "Outer".
Definition RelInner : string := "Inner".

Record Capabilities := mkCaps { c_Actual : bool; c_Buffers : bool; c_Timing : bool; c_Settings : bool }.
Record Actual := mkActual { StartupTime : float; TotalTime : float; a_Rows : float; Loops : float }.
Record Buffers := mkBuffers {
  SharedHit : float; SharedRead : float; SharedDirtied : float; SharedWritten : float;
  LocalHit : float; LocalRead : float; LocalDirtied : float; LocalWritten : float;
  TempRead : float; TempWritten : float
}.
Record Trigger := mkTrigger { tr_Name : string; tr_Relation : string; tr_Time : float; tr_Calls : float }.
Record JIT := mkJIT {
  Functions : Z; Generation : option float; Inlining : option float; Optimization : option float;
  Emission : option float; Total : option float
}.

(** A node without its children. *)
Record node_data := mkData {
  Type_ : string; Relation : string; n_Schema : string; Alias : string; IndexName : string; ParentRel : string;
  SubplanName : string; Parallel : bool; PartialMode : string; Strategy : string; JoinType : string;
  ScanDirection : string; Operation : string;
  StartupCost : float; TotalCost : float; PlanRows : float; PlanWidth : Z;
  n_Actual : option Actual;
  n_Filter : string; IndexCond : string; RecheckCond : string; HashCond : string; MergeCond : string; JoinFilter : string;
  SortKey : list string;
  RowsRemovedByFilter : option float; RowsRemovedByJoinFilter : option float; HeapFetches : option float;
  SortMethod : string; SortSpaceKB : option float; SortSpaceType : string;
  WorkersPlanned : option Z; WorkersLaunched : option Z;
  HeapBlocksExact : option float; HeapBlocksLossy : option float; n_Buffers : option Buffers
}.

Inductive Node := mkNode { data : node_data; Children : list Node }.
Add Printing Let Node.

Record Plan := mkPlan {
  p_Source : string; p_Format : string; Generic : bool; QueryText : string; QueryParams : string;
  p_QueryID : Z; HasQueryID : bool; Duration : option float; PlanningTime : option float; ExecutionTime : option float;
  Root : Node; Triggers : list Trigger; p_JIT : option JIT; Settings : gmap string string; Caps : Capabilities
}.

Definition TotalRows (a : option Actual) : float :=
  match a with None => 0%float | Some a => (a_Rows a * Loops a)%float end.

(** ** Traversal *)

(** Child indexes from the root. *)
Definition path : Type := list Z.

(** [walk] with the variables the visitor captures as a state. *)
Fixpoint walk {S} (fn : path → Node → S → bool * S) (n : Node) (p : path) (s : S) {struct n} : S :=
  let '(go_on, s) := fn p n s in
  if negb go_on then s
  else
    (fix each (i : Z) (cs : list Node) (s : S) : S :=
       match cs with [] => s | c :: cs => each (i + 1) cs (walk fn c (p ++ [i]) s) end) 0 (Children n) s.

Definition Walk {S} (pl : Plan) (fn : path → Node → S → bool * S) (s : S) : S := walk fn (Root pl) [] s.

Definition child (n : Node) (i : Z) : option Node :=
  if (i <? 0) || (Z.of_nat (length (Children n)) <=? i) then None else Children n !! Z.to_nat i.

Fixpoint node_at (n : Node) (p : path) : option Node :=
  match p with [] => Some n | i :: p => c ← child n i; node_at c p end.

Definition NodeAt (pl : Plan) (p : path) : option Node := node_at (Root pl) p.

Definition NodeCount (pl : Plan) : Z := Walk pl (λ _ _ count, (true, count + 1)) 0.

Definition SelfCost (n : Node) : float :=
  let self := foldl (λ self c, (self - TotalCost (data c))%float) (TotalCost (data n)) (Children n) in
  if (self <? 0)%float then 0%float else self.

(** ** The fingerprint of the shape *)

(** [Itoa], [FormatBool], and what [write] adds to the hash. *)
Definition Itoa (z : Z) : string := pretty z.
Definition FormatBool (b : bool) : string := if b then "true" else "false".
Definition write (s : string) : string := Itoa (Z.of_nat (String.length s)) +:+ ":" +:+ s.

(** The strings of a node that are hashed, in order. *)
Definition shape_fields (d : node_data) : list string :=
  [Type_ d; Strategy d; PartialMode d; JoinType d; Operation d; ScanDirection d; n_Schema d; Relation d; IndexName d;
   ParentRel d; FormatBool (Parallel d)].

Definition unordered (d : node_data) : bool := bool_decide (Type_ d = "Append"%string) && Parallel d.

Definition concat_strings (l : list string) : string := foldr String.append "" l.

Section hash.
(** [hex(sha256(x)[:8])]. *)
Context (digest : string → string).

(** The bytes [hashNode] writes; [Hash] is their digest. *)
Fixpoint hashNode (n : Node) : string :=
  concat_strings (write <$> (shape_fields (data n) ++ [Itoa (Z.of_nat (length (Children n)))])) +:+
  (if unordered (data n) then
     concat_strings (write <$> sort_slice str_ltb ((λ c, digest (hashNode c)) <$> Children n))
   else concat_strings (hashNode <$> Children n)).

Definition Hash (n : Node) : string := digest (hashNode n).
End hash.

(** ** Formats *)

Inductive code := CodeUnsupportedFormat | CodeEmptyPlan | CodeParseError.
Record perror := mkErr { e_Code : code; Detail : string }.

Definition newline : ascii := "010"%char.
Definition TrimLeft (s : string) (cutset : list ascii) : string :=
  String.string_of_list_ascii (drop_while (λ c, bool_decide (c ∈ cutset)) (String.list_ascii_of_string s)).

(** [strings.Lines], without the line ends that the caller trims. *)
Definition Lines (s : string) : list string := Split newline s.

Definition isYAML (body : string) : bool :=
  HasPrefix body ("Query Text: " +:+ String "034"%char "") ||
  existsb (λ line,
    let line := TrimRight line ["013"%char; newline] in
    if decide (line = ""%string) then false
    else if HasPrefix line " " || HasPrefix line (String "009"%char "") then false
    else bool_decide (TrimRight line [" "%char] ∈ ["Plan:"; "- Plan:"]%string)) (Lines body).

Definition DetectFormat (body : string) : perror + string :=
  let trimmed := TrimLeft body [" "; "009"; "013"; "010"]%char in
  if decide (trimmed = ""%string) then inl (mkErr CodeEmptyPlan "")
  else if HasPrefix trimmed "{" || HasPrefix trimmed "[" then inr FormatJSON
  else if HasPrefix trimmed "<explain" then inl (mkErr CodeUnsupportedFormat "xml")
  else if isYAML trimmed then inl (mkErr CodeUnsupportedFormat "yaml")
  else inr FormatText.

(** ** Plans in JSON *)

(** A node as decoded, without its children. *)
Record json_data := mkJData {
  j_NodeType : string; j_Strategy : string; j_PartialMode : string; j_Operation : string; j_JoinType : string;
  j_ScanDirection : string; j_ParentRel : string; j_SubplanName : string; j_ParallelAware : bool;
  j_Relation : string; j_Schema : string; j_Alias : string; j_IndexName : string;
  j_CTEName : string; j_FuncName : string; j_TableFunc : string; j_TupleName : string;
  j_StartupCost : float; j_TotalCost : float; j_PlanRows : float; j_PlanWidth : Z;
  j_ActualStartupTime : option float; j_ActualTotalTime : option float;
  j_ActualRows : option float; j_ActualLoops : option float;
  j_Filter : string; j_OneTime : string; j_IndexCond : string; j_RecheckCond : string; j_HashCond : string;
  j_MergeCond : string; j_JoinFilter : string; j_TIDCond : string; j_SortKey : list string;
  j_RowsRemovedByFilter : option float; j_RowsRemovedByJoinFilter : option float; j_HeapFetches : option float;
  j_SortMethod : string; j_SortSpaceUsed : option float; j_SortSpaceType : string;
  j_WorkersPlanned : option Z; j_WorkersLaunched : option Z;
  j_ExactHeapBlocks : option float; j_LossyHeapBlocks : option float;
  j_SharedHit : option float; j_SharedRead : option float; j_SharedDirtied : option float; j_SharedWritten : option float;
  j_LocalHit : option float; j_LocalRead : option float; j_LocalDirtied : option float; j_LocalWritten : option float;
  j_TempRead : option float; j_TempWritten : option float
}.

Inductive jsonNode := mkJNode { jdata : json_data; Plans : list jsonNode }.
Add Printing Let jsonNode.

Record jsonJIT := mkJJIT {
  jj_Functions : Z; jj_Generation : option float; jj_Inlining : option float; jj_Optimization : option float;
  jj_Emission : option float; jj_Total : option float
}.

Record jsonPlan := mkJPlan {
  jp_QueryText : string; jp_QueryParams : string; jp_QueryID : option Z; jp_Plan : option jsonNode;
  jp_PlanningTime : option float; jp_ExecutionTime : option float; jp_Triggers : list Trigger;
  jp_Settings : gmap string json; jp_JIT : option jsonJIT
}.

Definition firstNonEmpty (vs : list string) : string := default ""%string (head (filter (λ v, v ≠ ""%string) vs)).
Definition normalizePartialMode (mode : string) : string := if decide (mode = "Simple"%string) then "" else mode.
Definition scanDirection (s : string) : string := if decide (s = "NoMovement"%string) then "Forward" else s.
Definition deref (v : option float) : float := default 0%float v.

Definition block_fields (j : json_data) : list (option float) :=
  [j_SharedHit j; j_SharedRead j; j_SharedDirtied j; j_SharedWritten j; j_LocalHit j; j_LocalRead j; j_LocalDirtied j;
   j_LocalWritten j; j_TempRead j; j_TempWritten j].

Definition touched (f : option float) : bool := match f with Some v => negb (v =? 0)%float | None => false end.

Definition jsonBuffers (j : json_data) : option Buffers :=
  if negb (existsb touched (block_fields j)) then None
  else Some (mkBuffers (deref (j_SharedHit j)) (deref (j_SharedRead j)) (deref (j_SharedDirtied j)) (deref (j_SharedWritten j))
    (deref (j_LocalHit j)) (deref (j_LocalRead j)) (deref (j_LocalDirtied j)) (deref (j_LocalWritten j))
    (deref (j_TempRead j)) (deref (j_TempWritten j))).

(** The measured numbers, which need the rows and the loops. *)
Definition json_actual (j : json_data) : option Actual :=
  match j_ActualRows j, j_ActualLoops j with
  | Some rows, Some loops =>
      Some (mkActual (default 0%float (j_ActualStartupTime j)) (default 0%float (j_ActualTotalTime j)) rows loops)
  | _, _ => None
  end.

Definition json_relation (j : json_data) : string :=
  if decide (j_Relation j = ""%string) then firstNonEmpty [j_CTEName j; j_FuncName j; j_TableFunc j; j_TupleName j]
  else j_Relation j.

Definition convert_data (j : json_data) : node_data :=
  let relation := json_relation j in
  mkData (j_NodeType j) relation (j_Schema j) (if decide (j_Alias j = relation) then "" else j_Alias j) (j_IndexName j)
    (j_ParentRel j) (j_SubplanName j) (j_ParallelAware j) (normalizePartialMode (j_PartialMode j)) (j_Strategy j)
    (j_JoinType j) (scanDirection (j_ScanDirection j)) (j_Operation j)
    (j_StartupCost j) (j_TotalCost j) (j_PlanRows j) (j_PlanWidth j) (json_actual j)
    (firstNonEmpty [j_Filter j; j_OneTime j]) (firstNonEmpty [j_IndexCond j; j_TIDCond j]) (j_RecheckCond j) (j_HashCond j)
    (j_MergeCond j) (j_JoinFilter j) (j_SortKey j) (j_RowsRemovedByFilter j) (j_RowsRemovedByJoinFilter j) (j_HeapFetches j)
    (j_SortMethod j) (j_SortSpaceUsed j) (j_SortSpaceType j) (j_WorkersPlanned j) (j_WorkersLaunched j)
    (j_ExactHeapBlocks j) (j_LossyHeapBlocks j) (jsonBuffers j).

(** What a node adds to the capabilities of its plan. *)
Definition learn (j : json_data) (c : Capabilities) : Capabilities :=
  mkCaps (match json_actual j with Some _ => true | None => c_Actual c end)
    (match jsonBuffers j with Some _ => true | None => c_Buffers c end)
    (match json_actual j, j_ActualTotalTime j with Some _, Some _ => true | _, _ => c_Timing c end) (c_Settings c).

Fixpoint convertJSONNode (j : jsonNode) (caps : Capabilities) {struct j} : Node * Capabilities :=
  let '(children, caps) :=
    (fix each (js : list jsonNode) (caps : Capabilities) : list Node * Capabilities :=
       match js with
       | [] => ([], caps)
       | j :: js =>
           let '(n, caps) := convertJSONNode j caps in
           let '(ns, caps) := each js caps in (n :: ns, caps)
       end) (Plans j) (learn (jdata j) caps) in
  (mkNode (convert_data (jdata j)) children, caps).

Definition no_caps : Capabilities := mkCaps false false false false.

(** [encoding/json]: decoding into the structs, and printing a setting. *)
Class PlanJSON := {
  unmarshal_list : string → option (list jsonPlan);
  unmarshal_plan : string → option jsonPlan;
  print_setting : json → string
}.

Section parse.
Context {P : PlanJSON}.

Definition settingString (v : json) : string :=
  match v with
  | JString s => s
  | JBool b => if b then "on" else "off"
  | _ => print_setting v
  end.

Definition plan_of (raw : jsonPlan) (src : string) : perror + Plan :=
  match jp_Plan raw with
  | None => inl (mkErr CodeParseError "no Plan element")
  | Some node =>
      let '(root, caps) := convertJSONNode node no_caps in
      let settings := settingString <$> jp_Settings raw in
      inr (mkPlan src FormatJSON false (jp_QueryText raw) (jp_QueryParams raw)
        (default 0 (jp_QueryID raw)) (bool_decide (is_Some (jp_QueryID raw))) None (jp_PlanningTime raw) (jp_ExecutionTime raw)
        root (jp_Triggers raw)
        ((λ j, mkJIT (jj_Functions j) (jj_Generation j) (jj_Inlining j) (jj_Optimization j) (jj_Emission j) (jj_Total j)) <$> jp_JIT raw)
        settings
        (mkCaps (c_Actual caps) (c_Buffers caps)
          (match jp_ExecutionTime raw with Some _ => true | None => c_Timing caps end) (negb (bool_decide (settings = ∅)))))
  end.

Definition ParseJSON (body src : string) : perror + Plan :=
  let trimmed := TrimSpace body in
  if decide (trimmed = ""%string) then inl (mkErr CodeEmptyPlan "")
  else if HasPrefix trimmed "[" then
    match unmarshal_list trimmed with
    | None => inl (mkErr CodeParseError "json")
    | Some [] => inl (mkErr CodeEmptyPlan "")
    | Some (raw :: _) => plan_of raw src
    end
  else
    match unmarshal_plan trimmed with
    | None => inl (mkErr CodeParseError "json")
    | Some raw => plan_of raw src
    end.
End parse.

(** ** Lemmas: the tree *)

Lemma Node_tree_ind (P : Node → Prop) : (∀ d cs, Forall P cs → P (mkNode d cs)) → ∀ n, P n.
Proof.
  intros HP. fix FIX 1. intros [d cs]. apply HP. induction cs as [|c cs IH]; constructor; [apply FIX|exact IH].
Qed.

(** The nodes a traversal meets, parents first, below a node it does not prune. *)
Fixpoint visits (keep : path → Node → bool) (p : path) (n : Node) : list (path * Node) :=
  (p, n) ::
  (if keep p n then
     (fix each (i : Z) (cs : list Node) : list (path * Node) :=
        match cs with [] => [] | c :: cs => visits keep (p ++ [i]) c ++ each (i + 1) cs end) 0 (Children n)
   else []).

Fixpoint visits_from (keep : path → Node → bool) (p : path) (i : Z) (cs : list Node) : list (path * Node) :=
  match cs with [] => [] | c :: cs => visits keep (p ++ [i]) c ++ visits_from keep p (i + 1) cs end.

Lemma visits_unfold keep p d cs :
  visits keep p (mkNode d cs) = (p, mkNode d cs) :: (if keep p (mkNode d cs) then visits_from keep p 0 cs else []).
Proof.
  cbn [visits Children]. f_equal. destruct (keep _ _); [|done]. generalize 0.
  induction cs as [|c cs IH]; intros i; [done|]. cbn [visits_from]. by rewrite <- IH.
Qed.

(** The visitor that notes where it is. *)
Definition note (keep : path → Node → bool) (p : path) (n : Node) (acc : list (path * Node)) : bool * list (path * Node) :=
  (keep p n, acc ++ [(p, n)]).

(** [walk] over the children, from an index on. *)
Fixpoint walk_from {S} (fn : path → Node → S → bool * S) (p : path) (i : Z) (cs : list Node) (s : S) : S :=
  match cs with [] => s | c :: cs => walk_from fn p (i + 1) cs (walk fn c (p ++ [i]) s) end.

Lemma walk_unfold {S} (fn : path → Node → S → bool * S) d cs p s :
  walk fn (mkNode d cs) p s =
    let '(go_on, s) := fn p (mkNode d cs) s in if negb go_on then s else walk_from fn p 0 cs s.
Proof.
  cbn [walk Children]. destruct (fn _ _ _) as [[|] s']; cbn [negb]; [|done]. generalize 0. revert s'.
  induction cs as [|c cs IH]; intros s' i; [done|]. cbn [walk_from]. by rewrite <- IH.
Qed.

Lemma walk_note keep n p acc : walk (note keep) n p acc = acc ++ visits keep p n.
Proof.
  revert p acc. induction n as [d cs IH] using Node_tree_ind. intros p acc. rewrite walk_unfold, visits_unfold.
  unfold note at 1. destruct (keep p (mkNode d cs)); cbn [negb]; [|done].
  replace (acc ++ (p, mkNode d cs) :: visits_from keep p 0 cs) with ((acc ++ [(p, mkNode d cs)]) ++ visits_from keep p 0 cs)
    by by rewrite <- app_assoc.
  generalize (acc ++ [(p, mkNode d cs)]). generalize 0.
  induction IH as [|c cs Hc IH IHcs]; intros i acc'; cbn [walk_from visits_from]; [by rewrite app_nil_r|].
  by rewrite IHcs, Hc, <- app_assoc.
Qed.

Lemma walk_count n p k : walk (λ _ _ count, (true, count + 1)) n p k = k + Z.of_nat (length (visits (λ _ _, true) p n)).
Proof.
  revert p k. induction n as [d cs IH] using Node_tree_ind. intros p k. rewrite walk_unfold, visits_unfold. cbn [negb length].
  enough (H : ∀ i k, walk_from (λ _ _ count, (true, count + 1)) p i cs k = k + Z.of_nat (length (visits_from (λ _ _, true) p i cs)))
    by (rewrite H; lia).
  induction IH as [|c cs Hc IH IHcs]; intros i k'; cbn [walk_from visits_from length]; [lia|].
  rewrite IHcs, Hc, length_app. lia.
Qed.

Lemma child_spec n i c : child n i = Some c ↔ 0 <= i ∧ Children n !! Z.to_nat i = Some c.
Proof.
  unfold child. destruct (Z.ltb_spec i 0); cbn; [split; [done|lia]|].
  destruct (Z.leb_spec (Z.of_nat (length (Children n))) i); [|naive_solver].
  rewrite lookup_ge_None_2 by lia. naive_solver.
Qed.

Lemma elem_visits_from keep p i cs x :
  x ∈ visits_from keep p i cs ↔ ∃ k c, cs !! k = Some c ∧ x ∈ visits keep (p ++ [i + Z.of_nat k]) c.
Proof.
  revert i. induction cs as [|c cs IH]; intros i; cbn [visits_from].
  - rewrite elem_of_nil. split; [done|]. by intros (k & c & Hk & _).
  - rewrite elem_of_app, IH. split.
    + intros [Hx|(k & c' & Hk & Hx)].
      * exists 0%nat, c. split; [done|]. by rewrite Z.add_0_r.
      * exists (S k), c'. split; [done|]. by replace (i + Z.of_nat (S k)) with (i + 1 + Z.of_nat k) by lia.
    + intros ([|k] & c' & Hk & Hx); cbn in Hk.
      * left. injection Hk as ->. by rewrite Z.add_0_r in Hx.
      * right. exists k, c'. split; [done|]. by replace (i + 1 + Z.of_nat k) with (i + Z.of_nat (S k)) by lia.
Qed.

(** Every node above [q] is kept. *)
Definition kept (keep : path → Node → bool) (p : path) (n : Node) (q : path) : Prop :=
  ∀ q1 i q2, q = q1 ++ i :: q2 → ∃ m, node_at n q1 = Some m ∧ keep (p ++ q1) m = true.

Lemma elem_visits keep p n q m :
  (q, m) ∈ visits keep p n ↔ ∃ r, q = p ++ r ∧ node_at n r = Some m ∧ kept keep p n r.
Proof.
  revert p q. induction n as [d cs IH] using Node_tree_ind. intros p q. rewrite visits_unfold, elem_of_cons.
  rewrite list.Forall_forall in IH. set (n := mkNode d cs) in *. split.
  - intros [[= -> ->]|Hin].
    { exists []. split_and!; [by rewrite app_nil_r|done|]. by intros [] ?? ?. }
    destruct (keep p n) eqn:Hk; [|by apply elem_of_nil in Hin]. apply elem_visits_from in Hin as (k & c & Hc & Hin).
    apply IH in Hin as (r & -> & Hr & Hkept); [|by eapply list_elem_of_lookup_2].
    exists (Z.of_nat k :: r). split_and!; [by rewrite <- app_assoc| |].
    + cbn [node_at]. rewrite (proj2 (child_spec n (Z.of_nat k) c)) by (split; [lia|by rewrite Nat2Z.id]). done.
    + intros [|i q1] j q2 Heq; [exists n; by rewrite app_nil_r|]. injection Heq as <- ->.
      destruct (Hkept q1 j q2 eq_refl) as (m' & Hm' & Hk'). exists m'. cbn [node_at].
      rewrite (proj2 (child_spec n (Z.of_nat k) c)) by (split; [lia|by rewrite Nat2Z.id]). split; [done|].
      by rewrite <- app_assoc in Hk'.
  - intros (r & -> & Hr & Hkept). destruct r as [|i r]; [left; rewrite app_nil_r; cbn in Hr; by injection Hr as <-|]. right.
    destruct (Hkept [] i r eq_refl) as (n' & [= <-] & Hk). rewrite app_nil_r in Hk. rewrite Hk.
    cbn [node_at] in Hr. destruct (child n i) as [c|] eqn:Hc; [|done]. cbn in Hr. apply child_spec in Hc as [Hi Hc].
    apply elem_visits_from. exists (Z.to_nat i), c. split; [done|]. apply IH; [by eapply list_elem_of_lookup_2|].
    rewrite Z2Nat.id by done. exists r. split_and!; [by rewrite <- app_assoc|done|].
    intros q1 j q2 ->. destruct (Hkept (i :: q1) j q2 eq_refl) as (m' & Hm' & Hk'). cbn [node_at] in Hm'.
    rewrite (proj2 (child_spec n i c)) in Hm' by done. exists m'. split; [done|]. by rewrite <- app_assoc.
Qed.

(** Without pruning, every node of the tree. *)
Lemma elem_visits_all n q m : (q, m) ∈ visits (λ _ _, true) [] n ↔ node_at n q = Some m.
Proof.
  rewrite elem_visits. split; [by intros (r & -> & ? & _)|]. intros Hm. exists q. split_and!; [done|done|].
  intros q1 i q2 ->. revert Hm. generalize n. clear n. induction q1 as [|j q1 IH]; intros n; cbn; [by exists n|].
  destruct (child n j) as [c|]; [|done]. intros Hm. destruct (IH c Hm) as (x & Hx & _). by exists x.
Qed.

(** The order in which a depth-first traversal meets paths. *)
Fixpoint path_lt (p q : path) : Prop :=
  match p, q with
  | _, [] => False
  | [], _ => True
  | i :: p, j :: q => i < j ∨ (i = j ∧ path_lt p q)
  end.

Lemma path_lt_app p q r : path_lt (p ++ q) (p ++ r) ↔ path_lt q r.
Proof. induction p as [|i p IH]; cbn; [done|]. rewrite IH. split; [intros [?|[_ ?]]; [lia|done]|by right]. Qed.

Lemma path_lt_irrefl p : ¬ path_lt p p.
Proof. induction p as [|i p IH]; cbn; [tauto|]. intros [?|[_ ?]]; [lia|done]. Qed.

Lemma visits_below keep p n q : q ∈ (visits keep p n).*1 → ∃ r, q = p ++ r.
Proof. intros ([q' m] & -> & Hx)%list_elem_of_fmap. apply elem_visits in Hx as (r & -> & _). by exists r. Qed.

Lemma visits_sorted keep p n : StronglySorted path_lt (visits keep p n).*1.
Proof.
  revert p. induction n as [d cs IH] using Node_tree_ind. intros p. rewrite visits_unfold. rewrite fmap_cons.
  destruct (keep _ _); [|constructor; constructor].
  enough (H : ∀ i, StronglySorted path_lt (visits_from keep p i cs).*1 ∧
    ∀ q, q ∈ (visits_from keep p i cs).*1 → ∃ j r, q = p ++ j :: r ∧ i <= j).
  { constructor; [apply H|]. rewrite list.Forall_forall. intros q Hq. apply H in Hq as (j & r & -> & _).
    cbn. rewrite <- (app_nil_r p) at 1. by apply path_lt_app. }
  induction IH as [|c cs Hc IH IHcs]; intros i; cbn [visits_from]; [split; [constructor|by intros ? ?%elem_of_nil]|].
  destruct (IHcs (i + 1)) as [Hs Hq]. rewrite fmap_app. split.
  - apply StronglySorted_app. split_and!; [|apply Hc|done]. intros q1 q2 Hq1 Hq2.
    apply visits_below in Hq1 as (r1 & ->). apply Hq in Hq2 as (j & r2 & -> & Hj). rewrite <- app_assoc. apply path_lt_app. left. lia.
  - intros q [Hx|Hx]%elem_of_app.
    + apply visits_below in Hx as (r & ->). exists i, r. split; [by rewrite <- app_assoc|lia].
    + apply Hq in Hx as (j & r & -> & Hj). exists j, r. split; [done|lia].
Qed.

(** ** Lemmas: the encoding *)

Definition is_digit (c : ascii) : Prop := ∃ x, (x < 10)%N ∧ c = pretty_N_char x.

Lemma pretty_go_digits x s : Forall is_digit (String.list_ascii_of_string s) →
  Forall is_digit (String.list_ascii_of_string (pretty_N_go x s)).
Proof.
  revert s. induction (N.lt_wf_0 x) as [x _ IH]. intros s Hs. destruct (decide (0 < x)%N) as [Hx|Hx].
  - rewrite pretty_N_go_step by done. apply IH; [by apply N.div_lt|]. constructor; [|done].
    exists (x `mod` 10)%N. split; [by apply N.mod_lt|done].
  - replace x with 0%N by lia. by rewrite pretty_N_go_0.
Qed.

Lemma Itoa_digits n : Forall is_digit (String.list_ascii_of_string (Itoa (Z.of_nat n))).
Proof.
  unfold Itoa, pretty, pretty_Z. destruct n as [|n]; cbn [Z.of_nat].
  - constructor; [by exists 0%N|done].
  - change (Forall is_digit (String.list_ascii_of_string (pretty_N_go (N.pos (Pos.of_succ_nat n)) ""))). by apply pretty_go_digits.
Qed.

Lemma Itoa_colon n : ":"%char ∉ String.list_ascii_of_string (Itoa (Z.of_nat n)).
Proof.
  intros Hin. pose proof (Itoa_digits n) as Hd. rewrite list.Forall_forall in Hd. destruct (Hd _ Hin) as (x & Hx & Heq).
  revert Heq. unfold pretty_N_char. destruct x as [|x]; [done|]. repeat (destruct x as [x|x|]; try done).
Qed.

Lemma Itoa_inj n m : Itoa (Z.of_nat n) = Itoa (Z.of_nat m) → n = m.
Proof. intros Heq. apply (inj pretty) in Heq. lia. Qed.

Lemma write_inj a b u v : write a +:+ u = write b +:+ v → a = b ∧ u = v.
Proof.
  unfold write. rewrite !string_app_assoc. intros Heq.
  destruct (string_sep_inj _ _ _ _ _ (Itoa_colon (String.length a)) (Itoa_colon (String.length b)) Heq) as [Hlen Hrest].
  apply string_app_length_inj in Hrest; [done|]. by apply Itoa_inj.
Qed.

Lemma concat_strings_app l k : concat_strings (l ++ k) = concat_strings l +:+ concat_strings k.
Proof. induction l as [|s l IH]; [done|]. cbn [app]. change (concat_strings (s :: l ++ k)) with (s +:+ concat_strings (l ++ k)).
  rewrite IH. symmetry. apply string_app_assoc. Qed.

Lemma writes_inj l k u v :
  length l = length k → concat_strings (write <$> l) +:+ u = concat_strings (write <$> k) +:+ v → l = k ∧ u = v.
Proof.
  revert k. induction l as [|a l IH]; intros [|b k] Hl; try done. rewrite !fmap_cons.
  change (concat_strings (?x :: ?y)) with (x +:+ concat_strings y). rewrite !string_app_assoc. intros Heq.
  apply write_inj in Heq as [-> Heq]. cbn in Hl. by apply IH in Heq as [-> ->]; [|lia].
Qed.

(** The shape of a plan: what its fingerprint depends on. *)
Inductive shape := Ordered (fields : list string) (children : list shape) | Parallel_append (fields digests : list string).

Section shape.
Context (digest : string → string).

Fixpoint shape_of (n : Node) : shape :=
  if unordered (data n) then
    Parallel_append (shape_fields (data n)) (sort_slice str_ltb ((λ c, digest (hashNode digest c)) <$> Children n))
  else Ordered (shape_fields (data n)) (shape_of <$> Children n).

(** The bytes of a shape. *)
Fixpoint render (s : shape) : string :=
  match s with
  | Ordered fields children =>
      concat_strings (write <$> (fields ++ [Itoa (Z.of_nat (length children))])) +:+ concat_strings (render <$> children)
  | Parallel_append fields digests =>
      concat_strings (write <$> (fields ++ [Itoa (Z.of_nat (length digests))])) +:+ concat_strings (write <$> digests)
  end.

Lemma render_shape n : render (shape_of n) = hashNode digest n.
Proof.
  induction n as [d cs IH] using Node_tree_ind. cbn [shape_of hashNode data Children].
  destruct (unordered d); cbn [render].
  - by rewrite sort_slice_length, length_fmap.
  - rewrite length_fmap. f_equal. f_equal. rewrite <- list_fmap_compose. apply list_fmap_ext. intros i c Hc.
    rewrite list.Forall_forall in IH. apply IH. by eapply list_elem_of_lookup_2.
Qed.

Lemma FormatBool_inj a b : FormatBool a = FormatBool b → a = b.
Proof. by destruct a, b. Qed.

Lemma fields_unordered d1 d2 : shape_fields d1 = shape_fields d2 → unordered d1 = unordered d2.
Proof. intros Heq. injection Heq. unfold unordered. by intros ->%FormatBool_inj _ _ _ _ _ _ _ _ _ ->. Qed.

Lemma hashNode_prefix n1 n2 u v :
  hashNode digest n1 +:+ u = hashNode digest n2 +:+ v → shape_of n1 = shape_of n2 ∧ u = v.
Proof.
  revert n2 u v. induction n1 as [d1 cs1 IH] using Node_tree_ind. intros [d2 cs2] u v.
  cbn [hashNode shape_of data Children]. rewrite !string_app_assoc. intros Heq.
  apply writes_inj in Heq as [Hf Heq]; [|by rewrite !length_app].
  apply app_inj_tail in Hf as [Hf Hlen%Itoa_inj]. rewrite (fields_unordered _ _ Hf) in *. rewrite Hf.
  destruct (unordered d2).
  - apply writes_inj in Heq as [-> ->]; [done|]. by rewrite !sort_slice_length, !length_fmap.
  - enough (shape_of <$> cs1 = shape_of <$> cs2 ∧ u = v) as [-> ->] by done. clear Hf.
    revert cs2 Hlen Heq. induction IH as [|c1 cs1 Hc IH IHcs]; intros [|c2 cs2] Hlen Heq; try done.
    change ((hashNode digest c1 +:+ concat_strings (hashNode digest <$> cs1)) +:+ u =
      (hashNode digest c2 +:+ concat_strings (hashNode digest <$> cs2)) +:+ v) in Heq.
    change (shape_of <$> c1 :: cs1) with (shape_of c1 :: (shape_of <$> cs1)).
    change (shape_of <$> c2 :: cs2) with (shape_of c2 :: (shape_of <$> cs2)). rewrite !string_app_assoc in Heq. apply Hc in Heq as [-> Heq]. cbn in Hlen.
    by apply IHcs in Heq as [-> ->]; [|lia].
Qed.

Lemma parallel_append_perm d cs1 cs2 :
  unordered d = true → cs1 ≡ₚ cs2 → shape_of (mkNode d cs1) = shape_of (mkNode d cs2).
Proof.
  intros Hd Hp. cbn [shape_of data Children]. rewrite Hd. f_equal. apply (sort_slice_unique str_ltb); [by apply fmap_Permutation|].
  intros x y _ _. apply str_ltb_antisym.
Qed.
End shape.

(** ** Lemmas: JSON *)

Lemma json_tree_ind (P : jsonNode → Prop) : (∀ d js, Forall P js → P (mkJNode d js)) → ∀ j, P j.
Proof.
  intros HP. fix FIX 1. intros [d js]. apply HP. induction js as [|j js IH]; constructor; [apply FIX|exact IH].
Qed.

(** The node at a path of the decoded JSON. *)
Fixpoint json_at (j : jsonNode) (p : path) : option jsonNode :=
  match p with
  | [] => Some j
  | i :: p => c ← (if i <? 0 then None else Plans j !! Z.to_nat i); json_at c p
  end.

(** The tree without the capabilities, and all nodes in order. *)
Fixpoint converted (j : jsonNode) : Node := mkNode (convert_data (jdata j)) (converted <$> Plans j).
Fixpoint json_nodes (j : jsonNode) : list json_data := jdata j :: mjoin (json_nodes <$> Plans j).

Lemma convert_spec j caps : convertJSONNode j caps = (converted j, foldl (λ c d, learn d c) caps (json_nodes j)).
Proof.
  revert caps. induction j as [d js IH] using json_tree_ind. intros caps. cbn [convertJSONNode converted json_nodes jdata Plans foldl].
  set (each := fix each (js : list jsonNode) (caps : Capabilities) : list Node * Capabilities := _).
  enough (H : ∀ caps, each js caps = (converted <$> js, foldl (λ c d, learn d c) caps (mjoin (json_nodes <$> js)))) by by rewrite H.
  clear caps. induction IH as [|j js Hj IH IHjs]; intros caps; [done|].
  change (each (j :: js) caps) with
    (let '(n, caps) := convertJSONNode j caps in let '(ns, caps) := each js caps in (n :: ns, caps)).
  rewrite Hj, IHjs. change (json_nodes <$> j :: js) with (json_nodes j :: (json_nodes <$> js)).
  cbn [mjoin list_join]. by rewrite foldl_app.
Qed.

Lemma node_at_converted j p : node_at (converted j) p = converted <$> json_at j p.
Proof.
  revert j. induction p as [|i p IH]; intros j; [done|]. cbn [node_at json_at].
  assert (Hc : child (converted j) i = converted <$> (if i <? 0 then None else Plans j !! Z.to_nat i)).
  { unfold child. destruct j as [d js]. cbn [converted Children Plans]. destruct (Z.ltb_spec i 0); cbn [orb]; [done|].
    rewrite length_fmap, list_lookup_fmap. destruct (Z.leb_spec (Z.of_nat (length js)) i); [|done].
    by rewrite lookup_ge_None_2 by lia. }
  rewrite Hc. destruct (if i <? 0 then None else Plans j !! Z.to_nat i); [apply IH|done].
Qed.

Lemma json_nodes_at j d : d ∈ json_nodes j ↔ ∃ p j', json_at j p = Some j' ∧ d = jdata j'.
Proof.
  induction j as [d0 js IH] using json_tree_ind. cbn [json_nodes jdata Plans]. rewrite elem_of_cons. rewrite list.Forall_forall in IH. split.
  - intros [->|Hin]; [by exists [], (mkJNode d0 js)|]. apply list_elem_of_join in Hin as (l & Hd & Hl).
    apply list_elem_of_fmap in Hl as (j & -> & Hj). destruct (proj1 (IH j Hj) Hd) as (p & j' & Hp & ->).
    apply list_elem_of_lookup in Hj as [i Hi]. exists (Z.of_nat i :: p), j'. split; [|done]. cbn [json_at Plans].
    rewrite (proj2 (Z.ltb_ge _ _)) by lia. by rewrite Nat2Z.id, Hi.
  - intros ([|i p] & j' & Hp & ->); [injection Hp as <-; by left|]. right. cbn [json_at Plans] in Hp.
    destruct (i <? 0); [done|]. destruct (js !! Z.to_nat i) as [j|] eqn:Hj; [|done]. cbn in Hp.
    apply list_elem_of_lookup_2 in Hj. apply list_elem_of_join. exists (json_nodes j). split; [|by apply list_elem_of_fmap_2].
    apply (IH j Hj). by exists p, j'.
Qed.

Lemma exists_cons {A} (P : A → Prop) x l : (∃ y, y ∈ x :: l ∧ P y) ↔ P x ∨ ∃ y, y ∈ l ∧ P y.
Proof. setoid_rewrite elem_of_cons. naive_solver. Qed.

Lemma learned {A} (b : bool) (x : option A) (Q : Prop) :
  ((match x with Some _ => true | None => b end) = true ∨ Q) ↔ (b = true ∨ is_Some x ∨ Q).
Proof. destruct x; split; [right; left; by eexists|by left|tauto|intros [?|[[? [=]]|?]]; tauto]. Qed.

Lemma learn_all ds caps :
  let c := foldl (λ c d, learn d c) caps ds in
  (c_Actual c = true ↔ c_Actual caps = true ∨ ∃ d, d ∈ ds ∧ is_Some (json_actual d)) ∧
  (c_Buffers c = true ↔ c_Buffers caps = true ∨ ∃ d, d ∈ ds ∧ is_Some (jsonBuffers d)) ∧
  (c_Timing c = true ↔ c_Timing caps = true ∨ ∃ d, d ∈ ds ∧ is_Some (json_actual d) ∧ is_Some (j_ActualTotalTime d)).
Proof.
  revert caps. induction ds as [|d ds IH]; intros caps; cbn [foldl].
  - split_and!; (split; [by left|intros [?|(d & ?%elem_of_nil & _)]; done]).
  - destruct (IH (learn d caps)) as (Ha & Hb & Ht). cbv zeta. rewrite Ha, Hb, Ht, !exists_cons. unfold learn.
    cbn [c_Actual c_Buffers c_Timing]. rewrite !learned. split_and!; [done|done|].
    destruct (json_actual d) as [a|].
    + rewrite learned. assert (is_Some (Some a)) by by exists a. tauto.
    + assert (¬ is_Some (None : option Actual)) by by intros [? ?]. tauto.
Qed.

(** ** Properties *)

Lemma walk_fold {S} (fn : path → Node → S → bool * S) n p s :
  (∀ p n s, (fn p n s).1 = true) → walk fn n p s = foldl (λ s x, (fn x.1 x.2 s).2) s (visits (λ _ _, true) p n).
Proof.
  intros Hfn. revert p s. induction n as [d cs IH] using Node_tree_ind. intros p s. rewrite walk_unfold, visits_unfold. cbn [foldl fst snd].
  pose proof (Hfn p (mkNode d cs) s) as H1. destruct (fn p (mkNode d cs) s) as [b s']. cbn in H1. subst b. cbn [negb snd].
  generalize 0. revert s'. induction IH as [|c cs Hc IH IHcs]; intros s' i; cbn [walk_from visits_from foldl]; [done|].
  by rewrite IHcs, Hc, foldl_app.
Qed.

(** C18: [Walk] and [NodeAt] are inverse to each other. Whatever the visitor prunes, the
    paths it is given are exactly those that [NodeAt] resolves below nodes it kept, each
    with the node it resolves to, each once, in depth-first order. A visitor that prunes
    nothing, whatever else it does, meets every node of the tree, and [NodeCount] is
    their number. *)
Theorem Walk_NodeAt pl keep :
  let visited := Walk pl (note keep) [] in
  let all := Walk pl (note (λ _ _, true)) [] in
  (∀ p n, (p, n) ∈ visited ↔ NodeAt pl p = Some n ∧ kept keep [] (Root pl) p) ∧
  StronglySorted path_lt visited.*1 ∧ NoDup visited.*1 ∧
  (∀ p n, (p, n) ∈ all ↔ NodeAt pl p = Some n) ∧ NodeCount pl = Z.of_nat (length all) ∧
  ∀ S (fn : path → Node → S → bool * S) s, (∀ p n s, (fn p n s).1 = true) →
    Walk pl fn s = foldl (λ s x, (fn x.1 x.2 s).2) s all.
Proof.
  intros visited all. unfold visited, all, Walk, NodeAt, NodeCount, Walk. rewrite !walk_note, walk_count. cbn [app].
  split_and!.
  - intros p n. rewrite elem_visits. split; [by intros (r & -> & ?)|intros [? ?]; by exists p].
  - apply visits_sorted.
  - pose proof (visits_sorted keep [] (Root pl)) as Hs. revert Hs. generalize ((visits keep [] (Root pl)).*1).
    induction 1 as [|p l Hs IH Hp]; constructor; [|done]. rewrite list.Forall_forall in Hp. intros Hin.
    by apply (path_lt_irrefl p), Hp.
  - intros p n. apply elem_visits_all.
  - lia.
  - intros S fn s Hfn. by apply walk_fold.
Qed.

(** C19: the fingerprint reads off exactly the shape of a plan. Two plans hash the same
    bytes if and only if they have the same shape: the same hashed fields, node by node,
    in the same order, except below a Parallel Append, where only the sorted fingerprints
    of the children count. So equal shapes have equal fingerprints, different ones only
    by a collision of the digest, and the order in which a Parallel Append lists its
    children, costs, estimates, measurements and conditions do not matter. *)
Theorem Hash_shape (digest : string → string) n1 n2 :
  (hashNode digest n1 = hashNode digest n2 ↔ shape_of digest n1 = shape_of digest n2) ∧
  (shape_of digest n1 = shape_of digest n2 → Hash digest n1 = Hash digest n2) ∧
  (Hash digest n1 = Hash digest n2 → shape_of digest n1 ≠ shape_of digest n2 →
     ∃ x y, x ≠ y ∧ digest x = digest y) ∧
  (∀ d cs1 cs2, unordered d = true → cs1 ≡ₚ cs2 → Hash digest (mkNode d cs1) = Hash digest (mkNode d cs2)) ∧
  (∀ d1 d2 cs, shape_fields d1 = shape_fields d2 → Hash digest (mkNode d1 cs) = Hash digest (mkNode d2 cs)).
Proof.
  assert (Hiff : ∀ n1 n2, hashNode digest n1 = hashNode digest n2 ↔ shape_of digest n1 = shape_of digest n2).
  { intros m1 m2. split; [|intros Hs; by rewrite <- !render_shape, Hs]. intros Heq.
    apply (hashNode_prefix digest m1 m2 "" ""). by rewrite Heq. }
  split_and!; [done| | | |].
  - intros Hs%Hiff. unfold Hash. by rewrite Hs.
  - intros Heq Hne. exists (hashNode digest n1), (hashNode digest n2). split; [by rewrite Hiff|done].
  - intros d cs1 cs2 Hd Hp. unfold Hash. f_equal. by apply Hiff, parallel_append_perm.
  - intros d1 d2 cs Hf. unfold Hash. f_equal. apply Hiff. cbn [shape_of data Children].
    by rewrite (fields_unordered _ _ Hf), Hf.
Qed.

(** The plan that a text decodes to. *)
Definition decodes `{PlanJSON} (body : string) (raw : jsonPlan) : Prop :=
  let trimmed := TrimSpace body in
  trimmed ≠ ""%string ∧
  if HasPrefix trimmed "[" then ∃ raws, unmarshal_list trimmed = Some (raw :: raws) else unmarshal_plan trimmed = Some raw.

(** The first of these texts that is not empty, or the empty text. *)
Definition first_of (vs : list string) (v : string) : Prop :=
  (∃ pre rest, vs = pre ++ v :: rest ∧ Forall (λ s, s = ""%string) pre ∧ v ≠ ""%string) ∨
  (v = ""%string ∧ Forall (λ s, s = ""%string) vs).

(** A number that is missing counts as zero. *)
Definition counted (v : option float) (x : float) : Prop := match v with Some y => x = y | None => x = 0%float end.

(** A node of a plan says what a node of the JSON says, field by field. *)
Record node_says (j : json_data) (d : node_data) : Prop := {
  ns_names : Type_ d = j_NodeType j ∧ n_Schema d = j_Schema j ∧ IndexName d = j_IndexName j ∧ ParentRel d = j_ParentRel j ∧
    SubplanName d = j_SubplanName j ∧ Parallel d = j_ParallelAware j ∧ Strategy d = j_Strategy j ∧ JoinType d = j_JoinType j ∧
    Operation d = j_Operation j;
  ns_relation : first_of [j_Relation j; j_CTEName j; j_FuncName j; j_TableFunc j; j_TupleName j] (Relation d);
  ns_alias : Alias d = if decide (j_Alias j = Relation d) then ""%string else j_Alias j;
  ns_mode : PartialMode d = if decide (j_PartialMode j = "Simple"%string) then ""%string else j_PartialMode j;
  ns_direction : ScanDirection d = if decide (j_ScanDirection j = "NoMovement"%string) then "Forward"%string else j_ScanDirection j;
  ns_cost : StartupCost d = j_StartupCost j ∧ TotalCost d = j_TotalCost j ∧ PlanRows d = j_PlanRows j ∧ PlanWidth d = j_PlanWidth j;
  ns_conditions : first_of [j_Filter j; j_OneTime j] (n_Filter d) ∧ first_of [j_IndexCond j; j_TIDCond j] (IndexCond d) ∧
    RecheckCond d = j_RecheckCond j ∧ HashCond d = j_HashCond j ∧ MergeCond d = j_MergeCond j ∧ JoinFilter d = j_JoinFilter j;
  ns_sort : SortKey d = j_SortKey j ∧ SortMethod d = j_SortMethod j ∧ SortSpaceKB d = j_SortSpaceUsed j ∧ SortSpaceType d = j_SortSpaceType j;
  ns_counts : RowsRemovedByFilter d = j_RowsRemovedByFilter j ∧ RowsRemovedByJoinFilter d = j_RowsRemovedByJoinFilter j ∧
    HeapFetches d = j_HeapFetches j ∧ WorkersPlanned d = j_WorkersPlanned j ∧ WorkersLaunched d = j_WorkersLaunched j ∧
    HeapBlocksExact d = j_ExactHeapBlocks j ∧ HeapBlocksLossy d = j_LossyHeapBlocks j;
  ns_actual : match n_Actual d with
    | None => j_ActualRows j = None ∨ j_ActualLoops j = None
    | Some a => j_ActualRows j = Some (a_Rows a) ∧ j_ActualLoops j = Some (Loops a) ∧
        counted (j_ActualStartupTime j) (StartupTime a) ∧ counted (j_ActualTotalTime j) (TotalTime a)
    end;
  ns_buffers : match n_Buffers d with
    | None => ∀ f, f ∈ block_fields j → touched f = false
    | Some b => (∃ f, f ∈ block_fields j ∧ touched f = true) ∧
        counted (j_SharedHit j) (SharedHit b) ∧ counted (j_SharedRead j) (SharedRead b) ∧
        counted (j_SharedDirtied j) (SharedDirtied b) ∧ counted (j_SharedWritten j) (SharedWritten b) ∧
        counted (j_LocalHit j) (LocalHit b) ∧ counted (j_LocalRead j) (LocalRead b) ∧
        counted (j_LocalDirtied j) (LocalDirtied b) ∧ counted (j_LocalWritten j) (LocalWritten b) ∧
        counted (j_TempRead j) (TempRead b) ∧ counted (j_TempWritten j) (TempWritten b)
    end
}.

Lemma firstNonEmpty_first vs : first_of vs (firstNonEmpty vs).
Proof.
  induction vs as [|v vs IH]; [by right|]. unfold firstNonEmpty in *. rewrite filter_cons. case_decide as Hv.
  - left. by exists [], vs.
  - destruct (decide (v = EmptyString)) as [->|]; [|done]. destruct IH as [(pre & rest & Hvs & Hp & Hne)|[He Hall]].
    + left. exists (EmptyString :: pre), rest. split; [cbn [app]; by rewrite <- Hvs|]. split; [by constructor|done].
    + right. split; [done|by constructor].
Qed.

Lemma counted_default v : counted v (default 0%float v).
Proof. by destruct v. Qed.

Lemma convert_data_says j : node_says j (convert_data j).
Proof.
  constructor; try done.
  - cbn [Relation convert_data]. unfold json_relation. case_decide as Hr.
    + pose proof (firstNonEmpty_first [j_Relation j; j_CTEName j; j_FuncName j; j_TableFunc j; j_TupleName j]) as Hf.
      revert Hf. unfold firstNonEmpty. rewrite (filter_cons _ (j_Relation j)), decide_False by (by intros ?). done.
    + left. by exists [], [j_CTEName j; j_FuncName j; j_TableFunc j; j_TupleName j].
  - split_and!; try done; apply firstNonEmpty_first.
  - cbn [n_Actual convert_data]. unfold json_actual. destruct (j_ActualRows j), (j_ActualLoops j); try (by (left + right)).
    split_and!; try done; apply counted_default.
  - cbn [n_Buffers convert_data]. unfold jsonBuffers. destruct (existsb touched (block_fields j)) eqn:He; cbn [negb].
    + apply existsb_exists in He as (f & Hf%list_elem_of_In & Ht). split; [by exists f|]. split_and!; apply counted_default.
    + intros f Hf. apply not_true_iff_false. intros Ht. apply not_true_iff_false in He. apply He, existsb_exists.
      exists f. by rewrite <- list_elem_of_In.
Qed.

(** The value of a setting as text. *)
Definition setting_text `{PlanJSON} (v : json) (s : string) : Prop :=
  match v with JString t => s = t | JBool b => s = (if b then "on" else "off")%string | _ => s = print_setting v end.

(** A plan says what the JSON of its root and the rest of the record say. *)
Record says `{PlanJSON} (raw : jsonPlan) (node : jsonNode) (src : string) (pl : Plan) : Prop := {
  r_rest : p_Source pl = src ∧ p_Format pl = FormatJSON ∧ Generic pl = false ∧ Duration pl = None ∧
    QueryText pl = jp_QueryText raw ∧ QueryParams pl = jp_QueryParams raw ∧ Triggers pl = jp_Triggers raw ∧
    PlanningTime pl = jp_PlanningTime raw ∧ ExecutionTime pl = jp_ExecutionTime raw;
  r_query_id : match jp_QueryID raw with
    | Some id => HasQueryID pl = true ∧ p_QueryID pl = id
    | None => HasQueryID pl = false ∧ p_QueryID pl = 0
    end;
  r_setting : ∀ k, match jp_Settings raw !! k, Settings pl !! k with
    | Some v, Some s => setting_text v s
    | None, None => True
    | _, _ => False
    end;
  r_jit : match jp_JIT raw, p_JIT pl with
    | Some j, Some t => Functions t = jj_Functions j ∧ Generation t = jj_Generation j ∧ Inlining t = jj_Inlining j ∧
        Optimization t = jj_Optimization j ∧ Emission t = jj_Emission j ∧ Total t = jj_Total j
    | None, None => True
    | _, _ => False
    end;
  r_nodes : ∀ p, match json_at node p, NodeAt pl p with
    | Some j, Some n => node_says (jdata j) (data n)
    | None, None => True
    | _, _ => False
    end;
  r_actual : c_Actual (Caps pl) = true ↔ ∃ p n, NodeAt pl p = Some n ∧ is_Some (n_Actual (data n));
  r_buffers : c_Buffers (Caps pl) = true ↔ ∃ p n, NodeAt pl p = Some n ∧ is_Some (n_Buffers (data n));
  r_timing : c_Timing (Caps pl) = true ↔ is_Some (ExecutionTime pl) ∨
    ∃ p j n, json_at node p = Some j ∧ NodeAt pl p = Some n ∧ is_Some (n_Actual (data n)) ∧ is_Some (j_ActualTotalTime (jdata j));
  r_settings : c_Settings (Caps pl) = true ↔ Settings pl ≠ ∅
}.

Lemma some_node (f : json_data → Prop) node (g : node_data → Prop) (pl : Plan) :
  Root pl = converted node → (∀ d, f d ↔ g (convert_data d)) →
  (∃ d, d ∈ json_nodes node ∧ f d) ↔ ∃ p n, NodeAt pl p = Some n ∧ g (data n).
Proof.
  unfold NodeAt. intros -> Hfg. setoid_rewrite json_nodes_at. setoid_rewrite node_at_converted. split.
  - intros (d & (p & j & Hp & ->) & Hf). exists p, (converted j). rewrite Hp. split; [done|]. destruct j. by apply Hfg.
  - intros (p & n & Hn & Hg). destruct (json_at node p) as [j|] eqn:Hj; [|done]. injection Hn as <-.
    exists (jdata j). split; [by exists p, j|]. destruct j. by apply Hfg.
Qed.

Lemma plan_of_says `{PlanJSON} raw src :
  match plan_of raw src with
  | inl e => e_Code e = CodeParseError ∧ jp_Plan raw = None
  | inr pl => ∃ node, jp_Plan raw = Some node ∧ says raw node src pl
  end.
Proof.
  unfold plan_of. destruct (jp_Plan raw) as [node|]; [|done]. rewrite convert_spec. exists node. split; [done|].
  destruct (learn_all (json_nodes node) no_caps) as (Ha & Hb & Ht). cbv zeta in Ha, Hb, Ht.
  split; cbn [p_Source p_Format Settings Triggers ExecutionTime Caps c_Actual c_Buffers c_Timing c_Settings Root].
  - done.
  - by destruct (jp_QueryID raw).
  - intros k. rewrite lookup_fmap. destruct (jp_Settings raw !! k) as [[]|]; done.
  - cbn [p_JIT]. by destruct (jp_JIT raw).
  - intros p. unfold NodeAt. cbn [Root]. rewrite node_at_converted. destruct (json_at node p) as [[]|]; [apply convert_data_says|done].
  - rewrite Ha. setoid_rewrite (some_node (λ d, is_Some (json_actual d)) node (λ d, is_Some (n_Actual d))); [naive_solver|done|done].
  - rewrite Hb. setoid_rewrite (some_node (λ d, is_Some (jsonBuffers d)) node (λ d, is_Some (n_Buffers d))); [naive_solver|done|done].
  - destruct (jp_ExecutionTime raw) as [t|]; [split; [by left; exists t|done]|]. rewrite Ht. setoid_rewrite json_nodes_at. unfold NodeAt. cbn [Root].
    split.
    + intros [|(d & (p & j & Hp & ->) & Hd)]; [done|]. right. exists p, j, (converted j). rewrite node_at_converted, Hp. by destruct j.
    + intros [[? ?]|(p & j & n & Hp & Hn & Hd)]; [done|]. right. exists (jdata j). split; [by exists p, j|].
      rewrite node_at_converted, Hp in Hn. injection Hn as <-. by destruct j.
  - rewrite negb_true_iff. apply bool_decide_eq_false.
Qed.

(** C20: a plan read from JSON says what the JSON says. A body is refused with the code of
    its defect, an empty one or an empty list as empty, anything undecodable or without a
    plan as a parse error. Otherwise the query text, parameters and identifier, the times, the triggers,
    settings and compilation times are those of the JSON; the tree has a node exactly where the JSON has
    one, each of its fields what the JSON says of it, under its first name that is not empty where there
    are several; and the capabilities are what the nodes prove: measured
    rows or buffers are claimed if and only if some node carries them, timing if and only
    if the plan has an execution time or some measured node a total time; a node carries
    buffers if and only if it counted a block. *)
Theorem ParseJSON_faithful `{PlanJSON} body src :
  match ParseJSON body src with
  | inl e =>
      (e_Code e = CodeEmptyPlan ∧ (TrimSpace body = ""%string ∨ unmarshal_list (TrimSpace body) = Some [])) ∨
      (e_Code e = CodeParseError ∧ ∀ raw, decodes body raw → jp_Plan raw = None)
  | inr pl => ∃ raw node, decodes body raw ∧ jp_Plan raw = Some node ∧ says raw node src pl
  end.
Proof.
  unfold ParseJSON, decodes. destruct (decide (TrimSpace body = ""%string)) as [Ht|Ht]; [by left; split; [|left]|].
  destruct (HasPrefix (TrimSpace body) "[").
  - destruct (unmarshal_list (TrimSpace body)) as [[|raw raws]|] eqn:Hu.
    + left. by split; [|right].
    + pose proof (plan_of_says raw src) as Hp. destruct (plan_of raw src) as [e|pl].
      * right. destruct Hp as [Hc Hn]. split; [done|]. by intros raw' [_ (raws' & [= <- <-])].
      * destruct Hp as (node & Hn & Hs). exists raw, node. split_and!; try done. by exists raws.
    + right. split; [done|]. by intros raw' [_ (raws' & ?)].
  - destruct (unmarshal_plan (TrimSpace body)) as [raw|] eqn:Hu.
    + pose proof (plan_of_says raw src) as Hp. destruct (plan_of raw src) as [e|pl].
      * right. destruct Hp as [Hc Hn]. split; [done|]. by intros raw' [_ [= <-]].
      * destruct Hp as (node & Hn & Hs). by exists raw, node.
    + right. split; [done|]. by intros raw' [_ ?].
Qed.
