(* ===== verification/ExplainRules.v ===== *)
(** * [internal/explain]: the rule catalog ([rule.go], [rules.go])

    The checks over a parsed plan, each a traversal that appends findings, and the
    evaluation of the catalog with the rules that lack what they need. *)

From Stdlib Require Import Ascii.
From S2P Require Import Prelude GoFloat PatroniLayout Sqlparse ExplainPlan.
From stdpp Require Import options.

#[local] Set Default Proof Using "Type*".
#[local] Open Scope string_scope.
#[local] Open Scope Z_scope.
#[local] Open Scope list_scope.

(** ** Data *)

Inductive Severity := SeverityHigh | SeverityMedium | SeverityLow.

Inductive Requirement := ReqActual | ReqTiming | ReqBuffers | ReqWorkMem.

#[global] Instance Requirement_eq_dec : EqDecision Requirement.
Proof. solve_decision. Defined.

Record Context_ := mkContext { WorkMemKB : option Z; TableRows : gmap string Z }.

(** An [any] among the parameters of a finding. *)
Inductive value := VFloat (f : float) | VInt (z : Z) | VBool (b : bool) | VString (s : string).

Record Finding := mkFinding {
  f_Code : string; f_Severity : Severity; f_Path : path; NodeType : string; f_Relation : string;
  Params : gmap string value
}.

(** [Requires] is a bit set. *)
Record Rule := mkRule {
  Code : string; r_Severity : Severity; Requires : list Requirement; Eval : Plan → Context_ → list Finding
}.
Record Dormant := mkDormant { d_Code : string; Missing : list string }.

Definition tableRows (c : Context_) (n : node_data) : option Z :=
  if bool_decide (TableRows c = ∅) || bool_decide (Relation n = "") then None
  else
    match (if decide (n_Schema n = "") then None else TableRows c !! (n_Schema n +:+ "." +:+ Relation n)) with
    | Some rows => Some rows
    | None => TableRows c !! Relation n
    end.

(** ** Traversal *)

(** [eachNode] with what the visitor appends to as a state. *)
Fixpoint each_node {S} (fn : path → Node → option Node → S → S) (n : Node) (parent : option Node) (p : path) (s : S) : S :=
  (fix each (i : Z) (cs : list Node) (s : S) : S :=
     match cs with [] => s | c :: cs => each (i + 1) cs (each_node fn c (Some n) (p ++ [i]) s) end)
    0 (Children n) (fn p n parent s).

Definition eachNode {S} (pl : Plan) (fn : path → Node → option Node → S → S) (s : S) : S := each_node fn (Root pl) None [] s.

Definition finding (code : string) (severity : Severity) (p : path) (n : Node) (params : list (string * value)) : Finding :=
  mkFinding code severity p (Type_ (data n)) (Relation (data n)) (list_to_map params).

(** The visitor of most rules: [out = append(out, ...)] or an early return. *)
Definition collect (pl : Plan) (check : path → Node → option Node → option Finding) : list Finding :=
  eachNode pl (λ p n parent out, match check p n parent with Some f => out ++ [f] | None => out end) [].

(** ** The rules *)

Definition seqScanMinTableRows : float := 100000%float.
Definition seqScanMinCost : float := 1000%float.
Definition hotspotMinShare : float := 0.5%float.
Definition hotspotMinCost : float := 100%float.
Definition nestedLoopMinOuterRows : float := 1000%float.
Definition nestedLoopMinPairs : float := 1000000%float.
Definition materializeMinRows : float := 100000%float.
Definition misestimateFactor : float := 10%float.
Definition misestimateMinRows : float := 100%float.
Definition discardMinShare : float := 0.9%float.
Definition discardMinRows : float := 10000%float.
Definition heapFetchMinShare : float := 0.2%float.
Definition heapFetchMinRows : float := 1000%float.
Definition loopsFactor : float := 10%float.
Definition loopsMin : float := 1000%float.
Definition lossyMinShare : float := 0.1%float.
Definition overheadMinShare : float := 0.25%float.
Definition overheadMinMs : float := 10%float.

(** What the node threw away per loop. *)
Definition rowsRemoved (n : node_data) : float :=
  foldl (λ removed v, match v with Some v => (removed + v)%float | None => removed end) 0%float
    [RowsRemovedByFilter n; RowsRemovedByJoinFilter n].

Definition scannedRows (n : node_data) : float :=
  match n_Actual n with
  | None => 0%float
  | Some a => (ExplainPlan.TotalRows (Some a) + rowsRemoved n * Loops a)%float
  end.

Definition evalSeqScanLarge (pl : Plan) (ctx : Context_) : list Finding :=
  collect pl (λ p n _,
    let d := data n in
    if negb (bool_decide (Type_ d = "Seq Scan")) || bool_decide (n_Filter d = "") then None
    else
      let params := [("plan_rows", VFloat (PlanRows d)); ("total_cost", VFloat (TotalCost d))] in
      match tableRows ctx d with
      | Some rows =>
          if (to_float rows <? seqScanMinTableRows)%float then None
          else Some (finding "seq_scan_large" SeverityMedium p n (("table_rows", VInt rows) :: params))
      | None =>
          if (0 <? scannedRows d)%float then
            if (scannedRows d <? seqScanMinTableRows)%float then None
            else Some (finding "seq_scan_large" SeverityMedium p n (("scanned_rows", VFloat (scannedRows d)) :: params))
          else if (TotalCost d <? seqScanMinCost)%float then None
          else Some (finding "seq_scan_large" SeverityLow p n (("estimate_only", VBool true) :: params))
      end).

(** The node with the largest cost of its own so far. *)
Definition hotter (p : path) (n : Node) (parent : option Node) (best : option (path * Node) * float) :
    option (path * Node) * float :=
  if (best.2 <? SelfCost n)%float then (Some (p, n), SelfCost n) else best.

Definition evalCostHotspot (pl : Plan) (ctx : Context_) : list Finding :=
  let total := TotalCost (data (Root pl)) in
  if (total <=? 0)%float || c_Actual (Caps pl) then []
  else
    match eachNode pl hotter (None, 0%float) with
    | (Some (p, n), cost) =>
        if (cost <? hotspotMinCost)%float || (cost / total <? hotspotMinShare)%float then []
        else [finding "cost_hotspot" SeverityLow p n
          [("self_cost", VFloat cost); ("total_cost", VFloat total); ("cost_share", VFloat (cost / total))]]
    | (None, _) => []
    end.

(** One round of the loop of [joinSides]; the index of a side not found yet is [-1]. *)
Definition join_side (sides : Z * Z) (x : nat * Node) : Z * Z :=
  let '(outer, inner) := sides in
  let '(i, c) := x in
  if bool_decide (ParentRel (data c) = RelOuter) && (outer <? 0) then (Z.of_nat i, inner)
  else if bool_decide (ParentRel (data c) = RelInner) && (inner <? 0) then (outer, Z.of_nat i)
  else (outer, inner).

Definition joinSides (n : Node) : option (Z * Z) :=
  let '(outer, inner) := foldl join_side (-1, -1) (imap (λ i c, (i, c)) (Children n)) in
  if (0 <=? outer) && (0 <=? inner) then Some (outer, inner) else None.

Definition child_rows (n : Node) (i : Z) : float :=
  match child n i with Some c => PlanRows (data c) | None => 0%float end.

Definition evalNestedLoopBlowup (pl : Plan) (ctx : Context_) : list Finding :=
  collect pl (λ p n _,
    if negb (bool_decide (Type_ (data n) = "Nested Loop")) then None
    else
      '(outerIdx, innerIdx) ← joinSides n;
      let outer := child_rows n outerIdx in
      let inner := child_rows n innerIdx in
      let pairs := (outer * inner)%float in
      if (outer <? nestedLoopMinOuterRows)%float || (pairs <? nestedLoopMinPairs)%float then None
      else Some (finding "nested_loop_blowup" SeverityMedium p n
        [("outer_rows", VFloat outer); ("inner_rows", VFloat inner); ("pairs", VFloat pairs)])).

Fixpoint unwrapBuffered (n : Node) (p : path) : Node * path :=
  if bool_decide (Type_ (data n) ∈ ["Materialize"; "Memoize"]) then
    match Children n with [c] => unwrapBuffered c (p ++ [0]) | _ => (n, p) end
  else (n, p).

Definition evalIndexCandidateJoin (pl : Plan) (ctx : Context_) : list Finding :=
  collect pl (λ p n _,
    if negb (bool_decide (Type_ (data n) = "Nested Loop")) then None
    else
      '(outerIdx, innerIdx) ← joinSides n;
      c ← child n innerIdx;
      let '(inner, innerPath) := unwrapBuffered c (p ++ [innerIdx]) in
      if negb (bool_decide (Type_ (data inner) = "Seq Scan")) then None
      else if bool_decide (HashCond (data n) = "" ∧ MergeCond (data n) = "" ∧ JoinFilter (data n) = "" ∧ n_Filter (data inner) = "") then None
      else Some (finding "index_candidate_join" SeverityHigh innerPath inner
        [("outer_rows", VFloat (child_rows n outerIdx)); ("inner_rows", VFloat (PlanRows (data inner)))])).

Definition evalSortEstimateSpill (pl : Plan) (ctx : Context_) : list Finding :=
  match WorkMemKB ctx with
  | None => []
  | Some kb =>
      collect pl (λ p n _,
        if negb (bool_decide (Type_ (data n) ∈ ["Sort"; "Incremental Sort"; "Hash"])) then None
        else
          let estimatedKB := (PlanRows (data n) * to_float (PlanWidth (data n)) / 1024)%float in
          if (estimatedKB <=? to_float kb)%float then None
          else Some (finding "sort_estimate_spill" SeverityMedium p n
            [("estimated_kb", VFloat estimatedKB); ("work_mem_kb", VInt kb); ("plan_rows", VFloat (PlanRows (data n)))]))
  end.

Definition evalCTEMaterialize (pl : Plan) (ctx : Context_) : list Finding :=
  collect pl (λ p n _,
    if negb (bool_decide (Type_ (data n) ∈ ["CTE Scan"; "Materialize"])) then None
    else if (PlanRows (data n) <? materializeMinRows)%float then None
    else Some (finding "cte_materialize" SeverityLow p n
      [("plan_rows", VFloat (PlanRows (data n))); ("total_cost", VFloat (TotalCost (data n)))])).

Definition evalRowMisestimate (pl : Plan) (ctx : Context_) : list Finding :=
  collect pl (λ p n _,
    match n_Actual (data n) with
    | None => None
    | Some a =>
        if (Loops a =? 0)%float then None
        else
          let estimated := math_max (PlanRows (data n)) 1 in
          let actual := math_max (a_Rows a) 1 in
          if (math_max estimated actual <? misestimateMinRows)%float then None
          else
            let ratio := math_max (estimated / actual) (actual / estimated) in
            if (ratio <? misestimateFactor)%float then None
            else Some (finding "row_misestimate" SeverityHigh p n
              [("plan_rows", VFloat (PlanRows (data n))); ("actual_rows", VFloat (a_Rows a)); ("loops", VFloat (Loops a)); ("ratio", VFloat ratio)])
    end).

Definition evalSortSpillActual (pl : Plan) (ctx : Context_) : list Finding :=
  collect pl (λ p n _,
    if negb (Contains (SortMethod (data n)) "external") then None
    else Some (finding "sort_spill_actual" SeverityMedium p n
      (match SortSpaceKB (data n) with Some kb => [("sort_space_kb", VFloat kb)] | None => [] end ++
       [("sort_method", VString (SortMethod (data n)))]))).

Definition evalFilterDiscardsRows (pl : Plan) (ctx : Context_) : list Finding :=
  collect pl (λ p n _,
    match n_Actual (data n) with
    | None => None
    | Some a =>
        if bool_decide (RowsRemovedByFilter (data n) = None) && bool_decide (RowsRemovedByJoinFilter (data n) = None) then None
        else
          let removed := (rowsRemoved (data n) * Loops a)%float in
          let rows := ExplainPlan.TotalRows (Some a) in
          if (removed <? discardMinRows)%float then None
          else
            let share := (removed / (removed + rows))%float in
            if (share <? discardMinShare)%float then None
            else Some (finding "filter_discards_rows" SeverityMedium p n
              [("rows_removed", VFloat removed); ("actual_rows", VFloat rows); ("removed_share", VFloat share)])
    end).

Definition evalHeapFetchesHigh (pl : Plan) (ctx : Context_) : list Finding :=
  collect pl (λ p n _,
    match HeapFetches (data n), n_Actual (data n) with
    | Some fetches, Some a =>
        if negb (bool_decide (Type_ (data n) = "Index Only Scan")) then None
        else
          let rows := ExplainPlan.TotalRows (Some a) in
          if (fetches <? heapFetchMinRows)%float || (rows <=? 0)%float || (fetches / rows <? heapFetchMinShare)%float then None
          else Some (finding "heap_fetches_high" SeverityMedium p n
            [("heap_fetches", VFloat fetches); ("actual_rows", VFloat rows); ("ratio", VFloat (fetches / rows))])
    | _, _ => None
    end).

Definition evalLoopsBlowup (pl : Plan) (ctx : Context_) : list Finding :=
  collect pl (λ p n parent,
    match n_Actual (data n), parent with
    | Some a, Some parent =>
        if negb (bool_decide (Type_ (data parent) = "Nested Loop")) then None
        else if negb (bool_decide (ParentRel (data n) = RelInner)) then None
        else
          '(outerIdx, _) ← joinSides parent;
          let expected := math_max (child_rows parent outerIdx) 1 in
          let expected :=
            match n_Actual (data parent) with
            | Some pa => if (0 <? Loops pa)%float then (expected * Loops pa)%float else expected
            | None => expected
            end in
          let loops := Loops a in
          if (loops <? loopsMin)%float || (loops <? expected * loopsFactor)%float then None
          else Some (finding "loops_blowup" SeverityHigh p n
            [("loops", VFloat loops); ("expected_loops", VFloat expected); ("ratio", VFloat (loops / expected))])
    | _, _ => None
    end).

Definition evalBitmapLossy (pl : Plan) (ctx : Context_) : list Finding :=
  collect pl (λ p n _,
    match HeapBlocksLossy (data n) with
    | None => None
    | Some lossy =>
        if negb (bool_decide (Type_ (data n) = "Bitmap Heap Scan")) then None
        else
          let exact := default 0%float (HeapBlocksExact (data n)) in
          if (lossy <=? 0)%float || (lossy / (lossy + exact) <? lossyMinShare)%float then None
          else Some (finding "bitmap_lossy" SeverityLow p n [("lossy_blocks", VFloat lossy); ("exact_blocks", VFloat exact)])
    end).

Definition evalWorkersNotLaunched (pl : Plan) (ctx : Context_) : list Finding :=
  collect pl (λ p n _,
    match WorkersPlanned (data n), WorkersLaunched (data n) with
    | Some planned, Some launched =>
        if planned <=? launched then None
        else Some (finding "workers_not_launched" SeverityLow p n
          [("workers_planned", VInt planned); ("workers_launched", VInt launched)])
    | _, _ => None
    end).

Definition totalTimeMs (pl : Plan) : float :=
  match ExecutionTime pl, Duration pl, n_Actual (data (Root pl)) with
  | Some t, _, _ => t
  | None, Some d, _ => d
  | None, None, Some a => TotalTime a
  | None, None, None => 0%float
  end.

Definition overhead (code : string) (pl : Plan) (spent : float) : list Finding :=
  let total := totalTimeMs pl in
  if (total <=? 0)%float || (spent <? overheadMinMs)%float || (spent / total <? overheadMinShare)%float then []
  else [finding code SeverityLow [] (Root pl)
    [("time_ms", VFloat spent); ("total_time_ms", VFloat total); ("time_share", VFloat (spent / total))]].

Definition evalJITOverhead (pl : Plan) (ctx : Context_) : list Finding :=
  match p_JIT pl with
  | Some j => match Total j with Some jit => overhead "jit_overhead" pl jit | None => [] end
  | None => []
  end.

Definition evalTriggerTime (pl : Plan) (ctx : Context_) : list Finding :=
  if Nat.eqb (length (Triggers pl)) 0 then []
  else overhead "trigger_time" pl (foldl (λ spent t, (spent + tr_Time t)%float) 0%float (Triggers pl)).

Definition registry : list Rule := [
  mkRule "seq_scan_large" SeverityMedium [] evalSeqScanLarge;
  mkRule "cost_hotspot" SeverityLow [] evalCostHotspot;
  mkRule "nested_loop_blowup" SeverityMedium [] evalNestedLoopBlowup;
  mkRule "index_candidate_join" SeverityHigh [] evalIndexCandidateJoin;
  mkRule "sort_estimate_spill" SeverityMedium [ReqWorkMem] evalSortEstimateSpill;
  mkRule "cte_materialize" SeverityLow [] evalCTEMaterialize;
  mkRule "row_misestimate" SeverityHigh [ReqActual] evalRowMisestimate;
  mkRule "sort_spill_actual" SeverityMedium [ReqActual] evalSortSpillActual;
  mkRule "filter_discards_rows" SeverityMedium [ReqActual] evalFilterDiscardsRows;
  mkRule "heap_fetches_high" SeverityMedium [ReqActual] evalHeapFetchesHigh;
  mkRule "loops_blowup" SeverityHigh [ReqActual] evalLoopsBlowup;
  mkRule "bitmap_lossy" SeverityLow [ReqActual] evalBitmapLossy;
  mkRule "workers_not_launched" SeverityLow [ReqActual] evalWorkersNotLaunched;
  mkRule "jit_overhead" SeverityLow [ReqTiming] evalJITOverhead;
  mkRule "trigger_time" SeverityLow [ReqTiming] evalTriggerTime].

(** ** Evaluation *)

Definition TrimSuffix (s suffix : string) : string := String.substring 0 (String.length s - String.length suffix) s.

Definition ParseMemKB (v : string) : option Z :=
  let v := TrimSpace v in
  let '(v, mult) :=
    if HasSuffix v "kB" then (TrimSuffix v "kB", 1)
    else if HasSuffix v "MB" then (TrimSuffix v "MB", 2 ^ 10)
    else if HasSuffix v "GB" then (TrimSuffix v "GB", 2 ^ 20)
    else if HasSuffix v "TB" then (TrimSuffix v "TB", 2 ^ 30)
    else (v, 1) in
  match Atoi (TrimSpace v) with
  | Some kb => if kb <? 0 then None else Some (mul64 kb mult)
  | None => None
  end.

Definition planWorkMemKB (pl : Plan) : option Z := ParseMemKB (default "" (Settings pl !! "work_mem")).

Definition requires (req : Requirement) (reqs : list Requirement) : bool := bool_decide (req ∈ reqs).

Definition missingFor (reqs : list Requirement) (caps : Capabilities) (ctx : Context_) : list string :=
  (if requires ReqActual reqs && negb (c_Actual caps) then ["actual"] else []) ++
  (if requires ReqTiming reqs && negb (c_Timing caps) then ["timing"] else []) ++
  (if requires ReqBuffers reqs && negb (c_Buffers caps) then ["buffers"] else []) ++
  (if requires ReqWorkMem reqs && bool_decide (WorkMemKB ctx = None) then ["work_mem"] else []).

Definition severityRank (s : Severity) : Z := match s with SeverityHigh => 0 | SeverityMedium => 1 | SeverityLow => 2 end.

Definition by_severity : Finding → Finding → bool :=
  lex_less (less_on (λ f, severityRank (f_Severity f)) Z.ltb) (less_on f_Code str_ltb).

(** The caller's setting gives way to the one the plan printed. *)
Definition context_of (pl : Plan) (ctx : Context_) : Context_ :=
  match planWorkMemKB pl with Some kb => mkContext (Some kb) (TableRows ctx) | None => ctx end.

Definition eval_step (pl : Plan) (ctx : Context_) (out : list Finding * list Dormant) (r : Rule) : list Finding * list Dormant :=
  let missing := missingFor (Requires r) (Caps pl) ctx in
  if Nat.ltb 0 (length missing) then (out.1, out.2 ++ [mkDormant (Code r) missing])
  else (out.1 ++ Eval r pl ctx, out.2).

Definition Evaluate (pl : Plan) (ctx : Context_) : list Finding * list Dormant :=
  let ctx := context_of pl ctx in
  let '(findings, dormant) := foldl (eval_step pl ctx) ([], []) registry in
  (sort_stable by_severity findings, dormant).

Definition LookupRule (code : string) : option Rule := head (filter (λ r, Code r = code) registry).

(** ** Lemmas: traversal *)

(** Every node with its path and its parent. *)
Fixpoint family (n : Node) (parent : option Node) (p : path) : list (path * Node * option Node) :=
  (p, n, parent) ::
  (fix each (i : Z) (cs : list Node) : list (path * Node * option Node) :=
     match cs with [] => [] | c :: cs => family c (Some n) (p ++ [i]) ++ each (i + 1) cs end) 0 (Children n).

Fixpoint family_from (parent : Node) (p : path) (i : Z) (cs : list Node) : list (path * Node * option Node) :=
  match cs with [] => [] | c :: cs => family c (Some parent) (p ++ [i]) ++ family_from parent p (i + 1) cs end.

Lemma family_unfold d cs parent p : family (mkNode d cs) parent p = (p, mkNode d cs, parent) :: family_from (mkNode d cs) p 0 cs.
Proof.
  cbn [family Children]. f_equal. generalize (mkNode d cs) as m. generalize 0. induction cs as [|c cs IH]; intros i m; [done|].
  cbn [family_from]. by rewrite <- IH.
Qed.

Lemma family_visits n parent p : (family n parent p).*1 = visits (λ _ _, true) p n.
Proof.
  revert parent p. induction n as [d cs IH] using Node_tree_ind. intros parent p. rewrite family_unfold, visits_unfold, fmap_cons.
  f_equal. generalize (mkNode d cs) as m. generalize 0. induction IH as [|c cs Hc IH IHcs]; intros i m; [done|].
  cbn [family_from visits_from]. by rewrite fmap_app, Hc, IHcs.
Qed.

Lemma each_node_fold {S} (fn : path → Node → option Node → S → S) n parent p s :
  each_node fn n parent p s = foldl (λ s x, fn x.1.1 x.1.2 x.2 s) s (family n parent p).
Proof.
  revert parent p s. induction n as [d cs IH] using Node_tree_ind. intros parent p s. rewrite family_unfold.
  cbn [each_node foldl fst snd Children]. set (s0 := fn p (mkNode d cs) parent s). clearbody s0. generalize (mkNode d cs) as m.
  revert s0. generalize 0. induction IH as [|c cs Hc IH IHcs]; intros i s0 m; [done|].
  cbn [family_from]. by rewrite foldl_app, <- Hc, <- IHcs.
Qed.

Lemma collect_omap pl check :
  collect pl check = omap (λ x, check x.1.1 x.1.2 x.2) (family (Root pl) None []).
Proof.
  unfold collect, eachNode. rewrite each_node_fold. set (l := family _ _ _). clearbody l.
  enough (H : ∀ out, foldl (λ s x, match check x.1.1 x.1.2 x.2 with Some f => s ++ [f] | None => s end) out l =
    out ++ omap (λ x, check x.1.1 x.1.2 x.2) l) by apply (H []).
  induction l as [|x l IH]; intros out; [by rewrite app_nil_r|]. cbn [foldl omap list_omap]. rewrite IH.
  destruct (check _ _ _); [by rewrite <- app_assoc|done].
Qed.

Lemma family_node_at pl x : x ∈ family (Root pl) None [] → NodeAt pl x.1.1 = Some x.1.2.
Proof.
  intros Hx. assert (Hv : x.1 ∈ visits (λ _ _, true) [] (Root pl)) by (rewrite <- (family_visits _ None); by apply list_elem_of_fmap_2).
  destruct x as [[p n] parent]. apply elem_visits in Hv as (r & -> & Hr & _). done.
Qed.

Lemma node_at_app n p q : node_at n (p ++ q) = m ← node_at n p; node_at m q.
Proof. revert n. induction p as [|i p IH]; intros n; cbn; [done|]. destruct (child n i); [apply IH|done]. Qed.

Lemma unwrap_at n p m q : unwrapBuffered n p = (m, q) → ∃ r, q = p ++ r ∧ node_at n r = Some m.
Proof.
  revert p. induction n as [d cs IH] using Node_tree_ind. intros p. cbn [unwrapBuffered data Children].
  assert (Hhere : (mkNode d cs, p) = (m, q) → ∃ r, q = p ++ r ∧ node_at (mkNode d cs) r = Some m).
  { intros [= <- <-]. exists []. by rewrite app_nil_r. }
  destruct (bool_decide _); [|done]. destruct cs as [|c [|c' cs]]; [done| |done]. intros Hu.
  apply Forall_cons in IH as [IH _]. apply IH in Hu as (r & -> & Hr). exists (0 :: r). split; [by rewrite <- app_assoc|done].
Qed.

(** ** Lemmas: findings *)

(** A finding is about the node its path leads to. *)
Definition points (pl : Plan) (f : Finding) : Prop :=
  ∃ n, NodeAt pl (f_Path f) = Some n ∧ NodeType f = Type_ (data n) ∧ f_Relation f = Relation (data n).

Definition about (code : string) (p : path) (n : Node) (f : Finding) : Prop :=
  f_Code f = code ∧ f_Path f = p ∧ NodeType f = Type_ (data n) ∧ f_Relation f = Relation (data n).

Lemma collect_points pl check code :
  (∀ p n parent f, NodeAt pl p = Some n → check p n parent = Some f → f_Code f = code ∧ points pl f) →
  ∀ f, f ∈ collect pl check → f_Code f = code ∧ points pl f.
Proof.
  intros Hc f. rewrite collect_omap, list_elem_of_omap. intros (x & Hx & Hf). eapply Hc; [by apply family_node_at|exact Hf].
Qed.

(** A check that reports the node it is at. *)
Lemma here_points pl code p n f : NodeAt pl p = Some n → about code p n f → f_Code f = code ∧ points pl f.
Proof. intros Hn (-> & <- & Ht & Hr). split; [done|]. by exists n. Qed.

(** Every branch of a check reports the node it is at, or nothing. *)
Ltac solve_check :=
  repeat (case_match || (progress cbn)); intros; simplify_eq/=; try done; by split_and!.

Lemma root_points pl code severity params : points pl (finding code severity [] (Root pl) params).
Proof. by exists (Root pl). Qed.

Lemma overhead_points pl code spent f : f ∈ overhead code pl spent → f_Code f = code ∧ points pl f.
Proof.
  unfold overhead. destruct (_ || _ || _); [by intros ?%elem_of_nil|]. intros ->%list_elem_of_singleton.
  split; [done|apply root_points].
Qed.

(** *** The hottest node *)

Definition hottest (l : list (path * Node * option Node)) (best : option (path * Node) * float) : Prop :=
  (∀ x, x ∈ l → (best.2 <? SelfCost x.1.2)%float = false) ∧
  match best.1 with Some (p, n) => (∃ parent, (p, n, parent) ∈ l) ∧ best.2 = SelfCost n | None => best.2 = 0%float end.

Lemma hotter_hottest l best x :
  hottest l best → hottest (l ++ [x]) (hotter x.1.1 x.1.2 x.2 best).
Proof.
  intros [Hmax Hb]. unfold hotter. destruct (best.2 <? SelfCost x.1.2)%float eqn:Hlt; split.
  - intros y [Hy| ->%list_elem_of_singleton]%elem_of_app; cbn; [|apply flt_irrefl].
    destruct (SelfCost x.1.2 <? SelfCost y.1.2)%float eqn:Hxy; [|done]. rewrite <- (Hmax y Hy).
    symmetry. by eapply flt_trans.
  - cbn. split; [|done]. exists x.2. apply elem_of_app. right. destruct x as [[? ?] ?]. by left.
  - intros y [Hy| ->%list_elem_of_singleton]%elem_of_app; [by apply Hmax|done].
  - destruct best as [[[p n]|] c]; cbn in Hb |- *; [|done]. destruct Hb as [(parent & Hin) Hc]. split; [|done].
    exists parent. apply elem_of_app. by left.
Qed.

Lemma hottest_all pl : hottest (family (Root pl) None []) (eachNode pl hotter (None, 0%float)).
Proof.
  unfold eachNode. rewrite each_node_fold. induction (family (Root pl) None []) as [|x l IH] using rev_ind.
  - split; [by intros ? ?%elem_of_nil|done].
  - rewrite foldl_app. cbn [foldl]. by apply hotter_hottest.
Qed.

Lemma hotspot_points pl ctx f :
  f ∈ evalCostHotspot pl ctx → (f_Code f = "cost_hotspot" ∧ points pl f) ∧
  c_Actual (Caps pl) = false ∧ ∃ cost, Params f !! "self_cost" = Some (VFloat cost) ∧
    (cost <? hotspotMinCost)%float = false ∧ ∀ p n, NodeAt pl p = Some n → (cost <? SelfCost n)%float = false.
Proof.
  unfold evalCostHotspot. destruct (_ || c_Actual _) eqn:Ho; [by intros ?%elem_of_nil|]. apply orb_false_iff in Ho as [_ Hcaps].
  pose proof (hottest_all pl) as [Hmax Hb]. destruct (eachNode pl hotter _) as [[[p n]|] cost]; [|by intros ?%elem_of_nil].
  cbn in Hmax, Hb. destruct Hb as [(parent & Hin) Hc].
  destruct (cost <? hotspotMinCost)%float eqn:Hmin; cbn [orb]; [by intros ?%elem_of_nil|].
  destruct (_ / _ <? _)%float; [by intros ?%elem_of_nil|]. intros ->%list_elem_of_singleton. split.
  - split; [done|]. exists n. split; [|done]. by apply (family_node_at pl _ Hin).
  - split; [done|]. exists cost. split; [by vm_compute|]. split; [done|]. intros q m Hq.
    assert (Hv : (q, m) ∈ visits (λ _ _, true) [] (Root pl)) by by apply elem_visits_all.
    rewrite <- (family_visits _ None) in Hv. apply list_elem_of_fmap in Hv as (x & Hx & Hinx).
    specialize (Hmax x Hinx). by rewrite <- Hx in Hmax.
Qed.

(** A rule that reports the nodes its check is at. *)
Ltac solve_rule :=
  apply collect_points; intros p n parent f Hn Hf; apply (here_points _ _ p n); [exact Hn|];
  cbv zeta in Hf;
  repeat match type of Hf with
    | context [match ?x with _ => _ end] => destruct x; cbn in Hf; try done
    | context [mbind _ ?x] => destruct x; cbn in Hf; try done
    end;
  injection Hf as <-; by split_and!.

Lemma Eval_points pl ctx r f : r ∈ registry → f ∈ Eval r pl ctx → f_Code f = Code r ∧ points pl f.
Proof.
  intros Hr. revert f. unfold registry in Hr. rewrite !elem_of_cons in Hr.
  repeat destruct Hr as [->|Hr]; cbn [Eval Code]; [..|by apply elem_of_nil in Hr].
  - solve_rule.
  - intros f Hf. by apply (hotspot_points pl ctx).
  - solve_rule.
  - apply collect_points. intros p n parent f Hn Hf.
    destruct (negb _); [done|]. destruct (joinSides n) as [[o i]|]; [|done]. cbn in Hf.
    destruct (child n i) as [c|] eqn:Hc; [|done]. cbn in Hf.
    destruct (unwrapBuffered c (p ++ [i])) as [inner q] eqn:Hu. destruct (negb _); [done|].
    destruct (bool_decide _); [done|]. injection Hf as <-. apply unwrap_at in Hu as (r & -> & Hr).
    split; [done|]. exists inner. split; [|done]. unfold NodeAt in *.
    change (node_at (Root pl) ((p ++ [i]) ++ r) = Some inner). rewrite <- app_assoc, node_at_app, Hn. cbn. by rewrite Hc.
  - unfold evalSortEstimateSpill. destruct (WorkMemKB ctx); [|by intros ? ?%elem_of_nil]. solve_rule.
  - solve_rule.
  - solve_rule.
  - solve_rule.
  - solve_rule.
  - solve_rule.
  - solve_rule.
  - solve_rule.
  - solve_rule.
  - unfold evalJITOverhead. destruct (p_JIT pl) as [j|]; [|by intros ? ?%elem_of_nil].
    destruct (Total j); [|by intros ? ?%elem_of_nil]. apply overhead_points.
  - unfold evalTriggerTime. destruct (Nat.eqb _ _); [by intros ? ?%elem_of_nil|]. apply overhead_points.
Qed.

(** ** Lemmas: the catalog *)

Definition missing (pl : Plan) (ctx : Context_) (r : Rule) : list string := missingFor (Requires r) (Caps pl) ctx.

Lemma eval_fold pl ctx rs out :
  foldl (eval_step pl ctx) out rs =
    (out.1 ++ mjoin ((λ r, Eval r pl ctx) <$> filter (λ r, missing pl ctx r = []) rs),
     out.2 ++ ((λ r, mkDormant (Code r) (missing pl ctx r)) <$> filter (λ r, missing pl ctx r ≠ []) rs)).
Proof.
  revert out. induction rs as [|r rs IH]; intros [fs ds]; cbn [foldl]; [by rewrite !app_nil_r|]. rewrite IH.
  unfold eval_step. fold (missing pl ctx r). cbn [fst snd]. destruct (missing pl ctx r) as [|m ms] eqn:Hm; cbn [length Nat.ltb Nat.leb].
  - rewrite (filter_cons_True (λ r, missing pl ctx r = [])), filter_cons_False by (rewrite ?Hm; by try intros []).
    rewrite fmap_cons. cbn [mjoin list_join fst snd]. by rewrite app_assoc.
  - rewrite (filter_cons_False (λ r, missing pl ctx r = [])), filter_cons_True by (by rewrite Hm).
    cbn [fst snd]. rewrite fmap_cons, Hm. by rewrite <- app_assoc.
Qed.

(** What a rule of each kind needs is what the plan proves, or what the caller knows. *)
Definition met (pl : Plan) (ctx : Context_) (req : Requirement) : bool :=
  match req with
  | ReqActual => c_Actual (Caps pl) | ReqTiming => c_Timing (Caps pl) | ReqBuffers => c_Buffers (Caps pl)
  | ReqWorkMem => bool_decide (is_Some (WorkMemKB ctx))
  end.

Definition missing_code (req : Requirement) : string :=
  match req with ReqActual => "actual" | ReqTiming => "timing" | ReqBuffers => "buffers" | ReqWorkMem => "work_mem" end.

Lemma missing_spec pl ctx r m :
  m ∈ missing pl ctx r ↔ ∃ req, req ∈ Requires r ∧ met pl ctx req = false ∧ m = missing_code req.
Proof.
  unfold missing, missingFor, requires. rewrite !elem_of_app.
  assert (Hone : ∀ req b (c : string), m ∈ (if bool_decide (req ∈ Requires r) && b then [c] else []) ↔
    req ∈ Requires r ∧ b = true ∧ m = c).
  { intros req b c. case_bool_decide; destruct b; cbn; rewrite ?list_elem_of_singleton, ?elem_of_nil; naive_solver. }
  rewrite !Hone. assert (Hwm : bool_decide (WorkMemKB ctx = None) = true ↔ met pl ctx ReqWorkMem = false).
  { cbn. rewrite bool_decide_eq_true, bool_decide_eq_false, <- eq_None_not_Some. done. }
  rewrite Hwm, !negb_true_iff. split.
  - intros [(?&?&->)|[(?&?&->)|[(?&?&->)|(?&?&->)]]];
      [by exists ReqActual|by exists ReqTiming|by exists ReqBuffers|by exists ReqWorkMem].
  - intros ([] & Hr & Hm & ->); cbn in *; [left|right; left|do 2 right; left|do 3 right]; done.
Qed.

(** ** Properties *)

(** C21: evaluating the catalog is sound and leaves nothing out. Every rule is either
    dormant, listed in catalog order with exactly the codes of what it needs and neither
    the plan nor the caller provides, or evaluated, and the findings are all of the
    evaluated rules' findings, by decreasing severity and then by code. Every finding
    carries the code of its rule and points at a node of the plan, whose type and relation
    it quotes; so no rule that reads measurements says anything about a plan without
    them. The cost hot spot is a node that no other node exceeds, in a plan without
    measurements. *)
Theorem Evaluate_sound pl ctx :
  let '(findings, dormant) := Evaluate pl ctx in
  let ctx' := context_of pl ctx in
  NoDup (Code <$> registry) ∧
  dormant = (λ r, mkDormant (Code r) (missing pl ctx' r)) <$> filter (λ r, missing pl ctx' r ≠ []) registry ∧
  (∀ r m, m ∈ missing pl ctx' r ↔ ∃ req, req ∈ Requires r ∧ met pl ctx' req = false ∧ m = missing_code req) ∧
  findings ≡ₚ mjoin ((λ r, Eval r pl ctx') <$> filter (λ r, missing pl ctx' r = []) registry) ∧
  StronglySorted (not_less by_severity) findings ∧
  (∀ f, f ∈ findings → ∃ r, r ∈ registry ∧ missing pl ctx' r = [] ∧ f_Code f = Code r ∧ points pl f) ∧
  (∀ f, f ∈ findings → f_Code f = "cost_hotspot" → c_Actual (Caps pl) = false ∧
     ∃ cost, Params f !! "self_cost" = Some (VFloat cost) ∧ ∀ p n, NodeAt pl p = Some n → (cost <? SelfCost n)%float = false).
Proof.
  unfold Evaluate. rewrite eval_fold. cbn [fst snd app]. set (ctx' := context_of pl ctx).
  assert (Hin : ∀ f, f ∈ mjoin ((λ r, Eval r pl ctx') <$> filter (λ r, missing pl ctx' r = []) registry) →
    ∃ r, r ∈ registry ∧ missing pl ctx' r = [] ∧ f ∈ Eval r pl ctx').
  { intros f (l & Hf & (r & -> & [Hm Hr]%list_elem_of_filter)%list_elem_of_fmap)%list_elem_of_join. by exists r. }
  split_and!.
  - apply (bool_decide_unpack _); by vm_compute.
  - done.
  - apply missing_spec.
  - apply sort_stable_perm.
  - assert (Hs : StronglySorted (stably by_severity (λ _ _, True)) (sort_stable by_severity
      (mjoin ((λ r, Eval r pl ctx') <$> filter (λ r, missing pl ctx' r = []) registry)))).
    { apply (sort_stable_sorted _). clear Hin. induction (mjoin _) as [|f l IH]; [constructor|]. constructor; [done|by apply Forall_true]. }
    revert Hs. apply StronglySorted_impl_in. intros x y _ _. apply (stably_not_less by_severity).
  - intros f. rewrite sort_stable_perm. intros (r & Hr & Hm & Hf)%Hin. exists r. split_and!; try done; by apply (Eval_points pl ctx' r).
  - intros f. rewrite sort_stable_perm. intros (r & Hr & Hm & Hf)%Hin Hcode.
    destruct (Eval_points pl ctx' r f Hr Hf) as [Hc _]. rewrite Hcode in Hc.
    unfold registry in Hr. rewrite !elem_of_cons in Hr.
    repeat destruct Hr as [->|Hr]; try done; [|by apply elem_of_nil in Hr].
    cbn [Eval] in Hf. destruct (hotspot_points _ _ _ Hf) as (_ & Ha & cost & Hp & _ & Hmax). split; [done|]. by exists cost.
Qed.

(** A setting beyond what fits 64 bits of kilobytes wraps around instead of being refused. *)
Example ParseMemKB_wraps : ParseMemKB "8589934592TB" = Some min64.
Proof. by vm_compute. Qed.

Example ParseMemKB_units : map ParseMemKB ["4096kB"; " 4MB "; "1GB"; "64"; "-1"; "x"] =
  [Some 4096; Some 4096; Some 1048576; Some 64; None; None].
Proof. by vm_compute. Qed.
