(* ===== verification/Health.v ===== *)
(** * [internal/health]: the score ([score.go], [weights.go], [per_db.go])

    Eight categories each turn raw metrics into a penalty of 0 to 100; the penalties,
    adjusted for signals only the instance has, are weighed into a score, which a
    catastrophic condition caps. [float64] arithmetic is exact binary64, without fused
    multiplication and addition, as on amd64. The thresholds of sequences are those of
    [schemalint/config.go]. *)

From S2P Require Import Prelude GoFloat GoFloatOrder.
From stdpp Require Import options.

#[local] Open Scope string_scope.
#[local] Open Scope Z_scope.
#[local] Open Scope list_scope.

(** ** Data *)

Inductive Category :=
  | CategoryConnections | CategoryPerformance | CategoryStorage | CategoryReplication
  | CategoryMaintenance | CategoryHorizon | CategoryWalCheckpoint | CategoryLocks.

#[global] Instance Category_eq_dec : EqDecision Category.
Proof. solve_decision. Defined.

Record ColdMaintenanceTable := mkColdTable {
  ct_Schema : string; ct_Table : string; ct_SizeBytes : Z; ct_DeadRatio : float; ct_NeverVacuumed : bool;
  ct_RelfrozenxidAge : Z; ct_NoWritesDays : Z
}.
Record ColdFacts := mkCold { WindowDays : Z; Tables : list ColdMaintenanceTable; More : Z }.

Record RawMetrics := mkRaw {
  InRecovery : bool; Database : string; MetricsInstanceWide : bool;
  SnapshotBackedRules : gmap string bool; TotalConnections : Z; ActiveConnections : Z;
  IdleInTransaction : Z; IdleInTransactionDatabase : string; LongestTransactionSeconds : float;
  LongestTransactionDatabase : string; MaxConnections : Z; CacheHitRatio : float;
  CacheSampleBlocks : Z; TrackIoTimingEnabled : bool; MaxDeadRatio : float; AvgDeadRatio : float;
  TablesHighBloat : Z; ReplicaCount : Z; MaxReplayLagSeconds : float; MaxLagBytes : Z;
  DisconnectedReplicas : Z; MaxXidAge : Z; VacuumBacklogTables : Z;
  MaxOverdueVacuumAgeHours : float; TablesNeverVacuumed : Z; AutovacuumEnabled : bool;
  TrackCountsEnabled : bool; TablesWithAutovacuumOff : Z; MaxRelfrozenxidAge : Z;
  ColdMaxRelfrozenxidAge : Z; ColdFreezeRatio : float; Cold : option ColdFacts; HorizonLagXids : Z;
  HorizonDatabase : string; TimedCheckpoints : Z; RequestedCheckpoints : Z; ActiveLockWaiters : Z;
  LongestLockWaitSeconds : float; UngrantedLocks : Z; DeadlocksTotal : Z;
  HeavyweightLocksTotal : Z; MaxLocksPerTransaction : Z; HotUpdateRatio : float;
  NewpageUpdateRatio : float; StalePlannerStatsTables : Z; WalLevel : string;
  LogicalSlotsActive : Z; WalLevelManaged : bool; SequenceThresholds : gmap string float;
  LoadAvg15 : float; NumVCPU : float; PoolerServerConns : float; PoolerPoolSize : float;
  ChecksumFailuresRate : float; SequenceExhaustionMax : float; LatencyRegressionRatio : float;
  SeqScanRegressionRatio : float; DiskUsedRatio : float
}.

Record CategoryResult := mkCategory {
  Name : Category; Score : float; Weight : float; Penalty : float; Details : gmap string float
}.
Record Result := mkResult {
  r_Score : float; Categories : list CategoryResult; HasReplication : bool; r_InRecovery : bool
}.

Record Weights := mkWeights {
  Connections : float; Performance : float; Storage : float; Replication : float; Maintenance : float;
  Horizon : float; WalCheckpoint : float; Locks : float
}.

Definition MarkSnapshotBacked (rules : gmap string bool) (ruleIDs : list string) : gmap string bool :=
  foldl (λ rules id, <[id := true]> rules) rules ruleIDs.

Definition xidFreezeTableAge : Z := 150000000.
Definition xidFreezeMaxAge : Z := 200000000.
Definition xidFailsafeAge : Z := 1600000000.
Definition xidShutdownAge : Z := 2100000000.
Definition criticalScoreCeiling : float := 30.
Definition diskUsedCritical : float := 0.90.
Definition minCacheSampleBlocks : Z := 50000.

(** ** Sequence thresholds ([schemalint]) *)

Inductive Level := LevelError | LevelWarning | LevelNotice.

#[global] Instance Level_eq_dec : EqDecision Level.
Proof. solve_decision. Defined.

Definition level_string (l : Level) : string :=
  match l with LevelError => "error" | LevelWarning => "warning" | LevelNotice => "notice" end.

Definition sequenceThreshold (thresholds : gmap string float) (l : Level) : float :=
  match thresholds !! level_string l with
  | Some v => v
  | None => match l with LevelError => 5 | LevelWarning => 10 | LevelNotice => 20 end
  end.

Definition LevelForFreePct (freePct : float) (thresholds : gmap string float) : option Level :=
  if (freePct <? sequenceThreshold thresholds LevelError)%float then Some LevelError
  else if (freePct <? sequenceThreshold thresholds LevelWarning)%float then Some LevelWarning
  else if (freePct <? sequenceThreshold thresholds LevelNotice)%float then Some LevelNotice
  else None.

Definition freePctOf (usedRatio : float) : float := (100 * (1 - usedRatio))%float.

(** ** Weights *)

Definition DefaultWeights : Weights := mkWeights 0.15 0.15 0.10 0.15 0.15 0.10 0.10 0.10.

Definition Sum (w : Weights) : float :=
  (Connections w + Performance w + Storage w + Replication w + Maintenance w + Horizon w + WalCheckpoint w
   + Locks w)%float.

Definition weight_values (w : Weights) : list float :=
  [Connections w; Performance w; Storage w; Replication w; Maintenance w; Horizon w; WalCheckpoint w; Locks w].

(** No error, that is. *)
Definition Validate (w : Weights) : bool :=
  forallb (λ v, negb ((v <? 0)%float || negb (v =? v)%float || (PrimFloat.abs v =? infinity)%float)) (weight_values w)
  && negb (Sum w <=? 0)%float.

Definition map_weights (f : float → float) (w : Weights) : Weights :=
  mkWeights (f (Connections w)) (f (Performance w)) (f (Storage w)) (f (Replication w)) (f (Maintenance w))
    (f (Horizon w)) (f (WalCheckpoint w)) (f (Locks w)).

Definition Normalize (w : Weights) : Weights :=
  let sum := Sum w in
  if (sum <=? 0)%float then w
  else if (PrimFloat.abs (sum - 1) <? 1e-9)%float then w
  else map_weights (λ v, (v / sum)%float) w.

Definition byCategory (w : Weights) (name : Category) : float :=
  match name with
  | CategoryConnections => Connections w
  | CategoryPerformance => Performance w
  | CategoryStorage => Storage w
  | CategoryReplication => Replication w
  | CategoryMaintenance => Maintenance w
  | CategoryHorizon => Horizon w
  | CategoryWalCheckpoint => WalCheckpoint w
  | CategoryLocks => Locks w
  end.

(** [math.Round(x*10)/10], and the same with more decimals. *)
Definition round_to (scale x : float) : float := (math_round (x * scale) / scale)%float.
Definition round1 : float → float := round_to 10.

(** ** The penalty of each category *)

Definition Details_of : list (string * float) → gmap string float := list_to_map.

Definition penaltyConnections (m : RawMetrics) : CategoryResult :=
  if MaxConnections m =? 0 then mkCategory CategoryConnections 0 0.15 0 ∅
  else
    let ratio := (to_float (TotalConnections m) / to_float (MaxConnections m))%float in
    let penalty :=
      (if 0.95 <? ratio then 70 + (ratio - 0.95) / 0.05 * 30
       else if 0.80 <? ratio then 30 + (ratio - 0.80) / 0.15 * 40
       else if 0.60 <? ratio then (ratio - 0.60) / 0.20 * 30
       else 0)%float in
    let idlePenalty := math_min (to_float (IdleInTransaction m) * 5) 30 in
    let penalty := (penalty + idlePenalty)%float in
    let penalty :=
      (if 300 <? LongestTransactionSeconds m
       then penalty + math_min ((LongestTransactionSeconds m - 300) / 60 * 5) 20
       else penalty)%float in
    let penalty := math_min penalty 100 in
    mkCategory CategoryConnections 0 0.15 (round1 penalty) (Details_of [
      ("connection_ratio", round_to 1000 ratio);
      ("idle_in_transaction", to_float (IdleInTransaction m));
      ("longest_transaction_seconds", LongestTransactionSeconds m)]).

Definition cacheHitRatioMeaningful (m : RawMetrics) : bool :=
  (CacheSampleBlocks m =? 0) || (minCacheSampleBlocks <=? CacheSampleBlocks m).

Definition penaltyPerformance (m : RawMetrics) : CategoryResult :=
  let penalty :=
    (if negb (cacheHitRatioMeaningful m) then 0
     else if 95 <=? CacheHitRatio m then 0
     else if 90 <=? CacheHitRatio m then (95 - CacheHitRatio m) / 5 * 20
     else if 85 <=? CacheHitRatio m then 20 + (90 - CacheHitRatio m) / 5 * 30
     else 50 + (85 - CacheHitRatio m) / 10 * 50)%float in
  let penalty := math_min penalty 100 in
  let details := Details_of [("cache_hit_ratio", CacheHitRatio m)] in
  let details :=
    if negb (cacheHitRatioMeaningful m) then <["cache_sample_blocks" := to_float (CacheSampleBlocks m)]> details
    else details in
  mkCategory CategoryPerformance 0 0.15 (round1 penalty) details.

Definition penaltyStorage (m : RawMetrics) : CategoryResult :=
  let penalty :=
    (if 30 <? MaxDeadRatio m then 40
     else if 20 <? MaxDeadRatio m then 20 + (MaxDeadRatio m - 20) / 10 * 20
     else MaxDeadRatio m / 20 * 20)%float in
  let penalty :=
    (if 15 <? AvgDeadRatio m then penalty + math_min ((AvgDeadRatio m - 15) * 2) 30 else penalty)%float in
  let penalty :=
    if 5 <? TablesHighBloat m then (penalty + math_min (to_float (TablesHighBloat m) * 3) 30)%float else penalty in
  let penalty :=
    (if 0.20 <? NewpageUpdateRatio m then penalty + 20
     else if 0.10 <? NewpageUpdateRatio m then penalty + 10
     else if 0.05 <? NewpageUpdateRatio m then penalty + 5
     else penalty)%float in
  let penalty := math_min penalty 100 in
  mkCategory CategoryStorage 0 0.10 (round1 penalty) (Details_of [
    ("max_dead_ratio", MaxDeadRatio m);
    ("avg_dead_ratio", AvgDeadRatio m);
    ("tables_high_bloat", to_float (TablesHighBloat m));
    ("newpage_update_ratio", NewpageUpdateRatio m)]).

Definition penaltyReplication (m : RawMetrics) : CategoryResult :=
  if ReplicaCount m =? 0 then mkCategory CategoryReplication 0 0.15 0 (Details_of [("replica_count", 0%float)])
  else
    let penalty :=
      (if 30 <? MaxReplayLagSeconds m then 50
       else if 5 <? MaxReplayLagSeconds m then 10 + (MaxReplayLagSeconds m - 5) / 25 * 40
       else if 1 <? MaxReplayLagSeconds m then (MaxReplayLagSeconds m - 1) / 4 * 10
       else 0)%float in
    let lagMB := (to_float (MaxLagBytes m) / 1048576)%float in
    let penalty := (if 100 <? lagMB then penalty + math_min (lagMB / 10) 30 else penalty)%float in
    let penalty :=
      if 0 <? DisconnectedReplicas m then (penalty + math_min (to_float (DisconnectedReplicas m) * 30) 60)%float
      else penalty in
    let penalty := math_min penalty 100 in
    mkCategory CategoryReplication 0 0.15 (round1 penalty) (Details_of [
      ("replica_count", to_float (ReplicaCount m));
      ("max_replay_lag_seconds", MaxReplayLagSeconds m);
      ("max_lag_bytes", to_float (MaxLagBytes m));
      ("disconnected_replicas", to_float (DisconnectedReplicas m))]).

(** The part of the maintenance penalty that grows with the age of transaction ids. *)
Definition xid_penalty (xidAge : Z) : float :=
  if xidFailsafeAge <? xidAge then
    (80 + math_min (to_float (sub64 xidAge xidFailsafeAge) / to_float (xidShutdownAge - xidFailsafeAge) * 20) 20)%float
  else if xidFreezeMaxAge <? xidAge then
    (to_float (sub64 xidAge xidFreezeMaxAge) / to_float (xidFailsafeAge - xidFreezeMaxAge) * 80)%float
  else 0%float.

Definition penaltyMaintenance (m : RawMetrics) : CategoryResult :=
  let xidAge := Z.max (MaxRelfrozenxidAge m) (MaxXidAge m) in
  let penalty := xid_penalty xidAge in
  let penalty :=
    (if 1440 <? MaxOverdueVacuumAgeHours m then penalty + 30
     else if 504 <? MaxOverdueVacuumAgeHours m
       then penalty + math_min (15 + (MaxOverdueVacuumAgeHours m - 504) / 24 * 0.5) 30
     else if 168 <? MaxOverdueVacuumAgeHours m then penalty + (MaxOverdueVacuumAgeHours m - 168) / 24 * 1
     else penalty)%float in
  let penalty :=
    if 5 <? VacuumBacklogTables m
    then (penalty + math_min (to_float (sub64 (VacuumBacklogTables m) 5) * 1.5) 15)%float else penalty in
  let penalty :=
    if 0 <? TablesNeverVacuumed m
    then (penalty + math_min (to_float (TablesNeverVacuumed m) * 5) 20)%float else penalty in
  let penalty :=
    if 0 <? TablesWithAutovacuumOff m
    then (penalty + math_min (to_float (TablesWithAutovacuumOff m) * 3) 15)%float else penalty in
  let penalty :=
    if 0 <? StalePlannerStatsTables m
    then (penalty + math_min (to_float (StalePlannerStatsTables m) * 2) 15)%float else penalty in
  let penalty := math_min penalty 100 in
  mkCategory CategoryMaintenance 0 0.15 (round1 penalty) (Details_of [
    ("max_xid_age", to_float (MaxXidAge m));
    ("max_relfrozenxid_age", to_float (MaxRelfrozenxidAge m));
    ("vacuum_backlog_tables", to_float (VacuumBacklogTables m));
    ("max_overdue_vacuum_age_hours", MaxOverdueVacuumAgeHours m);
    ("tables_never_vacuumed", to_float (TablesNeverVacuumed m));
    ("tables_with_autovacuum_off", to_float (TablesWithAutovacuumOff m));
    ("stale_planner_stats_tables", to_float (StalePlannerStatsTables m))]).

Definition penaltyHorizon (m : RawMetrics) : CategoryResult :=
  let lag := to_float (HorizonLagXids m) in
  let penalty :=
    (if 100000000 <? lag then 70 + math_min ((lag - 100000000) / 100000000 * 30) 30
     else if 10000000 <? lag then 30 + (lag - 10000000) / 90000000 * 40
     else if 1000000 <? lag then (lag - 1000000) / 9000000 * 30
     else 0)%float in
  let penalty := math_min penalty 100 in
  mkCategory CategoryHorizon 0 0.10 (round1 penalty) (Details_of [("horizon_lag_xids", lag)]).

Definition penaltyWalCheckpoint (m : RawMetrics) : CategoryResult :=
  let total := add64 (TimedCheckpoints m) (RequestedCheckpoints m) in
  let ratio := if 10 <=? total then (to_float (RequestedCheckpoints m) / to_float total)%float else 0%float in
  let penalty :=
    if 10 <=? total then
      (if 0.20 <? ratio then 70 + math_min ((ratio - 0.20) / 0.30 * 30) 30
       else if 0.10 <? ratio then 30 + (ratio - 0.10) / 0.10 * 40
       else if 0.05 <? ratio then (ratio - 0.05) / 0.05 * 30
       else 0)%float
    else 0%float in
  let penalty := math_min penalty 100 in
  mkCategory CategoryWalCheckpoint 0 0.10 (round1 penalty) (Details_of [
    ("requested_checkpoint_ratio", round_to 10000 ratio);
    ("timed_checkpoints", to_float (TimedCheckpoints m));
    ("requested_checkpoints", to_float (RequestedCheckpoints m))]).

(** Rows of [pg_locks] against the capacity of the lock table. *)
Definition lock_saturation (m : RawMetrics) : float :=
  let capacity := (to_float (MaxLocksPerTransaction m) * to_float (MaxConnections m))%float in
  if (0 <? MaxLocksPerTransaction m) && (0 <? MaxConnections m) && (0 <? capacity)%float
  then (to_float (HeavyweightLocksTotal m) / capacity)%float else 0%float.

Definition penaltyLocks (m : RawMetrics) : CategoryResult :=
  let penalty :=
    if 10 <=? ActiveLockWaiters m then 60%float else if 3 <=? ActiveLockWaiters m then 30%float
    else if 1 <=? ActiveLockWaiters m then 10%float else 0%float in
  let penalty :=
    (if 60 <? LongestLockWaitSeconds m then penalty + 40
     else if 30 <? LongestLockWaitSeconds m then penalty + 20
     else if 10 <? LongestLockWaitSeconds m then penalty + 5 else penalty)%float in
  let penalty :=
    if 15 <=? UngrantedLocks m then (penalty + 30)%float
    else if 5 <=? UngrantedLocks m then (penalty + 15)%float
    else if 2 <=? UngrantedLocks m then (penalty + 5)%float else penalty in
  let saturation := lock_saturation m in
  let penalty :=
    if (0 <? MaxLocksPerTransaction m) && (0 <? MaxConnections m) then
      (if 0.8 <? saturation then penalty + 30
       else if 0.6 <? saturation then penalty + 15
       else if 0.5 <? saturation then penalty + 5 else penalty)%float
    else penalty in
  let penalty :=
    if 100 <=? DeadlocksTotal m then (penalty + 20)%float
    else if 10 <=? DeadlocksTotal m then (penalty + 10)%float
    else if 1 <=? DeadlocksTotal m then (penalty + 3)%float else penalty in
  let penalty := math_min penalty 100 in
  mkCategory CategoryLocks 0 0.10 (round1 penalty) (Details_of [
    ("active_lock_waiters", to_float (ActiveLockWaiters m));
    ("longest_lock_wait_seconds", LongestLockWaitSeconds m);
    ("ungranted_locks", to_float (UngrantedLocks m));
    ("deadlocks_total", to_float (DeadlocksTotal m));
    ("heavyweight_locks", to_float (HeavyweightLocksTotal m));
    ("lock_pool_saturation", round_to 10000 saturation)]).

Definition hotUpdatePenalty (ratio : float) : float :=
  (if ratio <? 0.50 then 30 else if ratio <? 0.65 then 15 else if ratio <? 0.80 then 5 else 0)%float.

(** ** Adjusting the categories of an instance *)

(** What a loop over the categories does to the first one of a name. *)
Fixpoint at_category (name : Category) (f : CategoryResult → CategoryResult) (categories : list CategoryResult) :
    list CategoryResult :=
  match categories with
  | [] => []
  | c :: rest => if decide (Name c = name) then f c :: rest else c :: at_category name f rest
  end.

Definition with_penalty (p : float) (c : CategoryResult) : CategoryResult :=
  mkCategory (Name c) (Score c) (Weight c) p (Details c).
Definition with_weight (w : float) (c : CategoryResult) : CategoryResult :=
  mkCategory (Name c) (Score c) w (Penalty c) (Details c).
Definition with_score (s : float) (c : CategoryResult) : CategoryResult :=
  mkCategory (Name c) s (Weight c) (Penalty c) (Details c).

Definition addPenalty (name : Category) (delta : float) : list CategoryResult → list CategoryResult :=
  at_category name (λ c, with_penalty (math_min (Penalty c + delta) 100) c).

Definition setDetail (name : Category) (key : string) (value : float) : list CategoryResult → list CategoryResult :=
  at_category name (λ c, mkCategory (Name c) (Score c) (Weight c) (Penalty c) (<[key := value]> (Details c))).

Definition b2f (b : bool) : float := if b then 1%float else 0%float.

Definition when {A} (b : bool) (f : A → A) (x : A) : A := if b then f x else x.

(** [addPenalty] with the first delta whose threshold [v] reaches. *)
Definition addSteps (name : Category) (v : float) (steps : list (float * float)) (cs : list CategoryResult) :
    list CategoryResult :=
  match list_find (λ s, (s.1 <=? v)%float = true) steps with
  | Some (_, s) => addPenalty name s.2 cs
  | None => cs
  end.

(** The changes, in the order they are made. *)
Definition adjustments (m : RawMetrics) : list (list CategoryResult → list CategoryResult) :=
  [when (negb (AutovacuumEnabled m)) (addPenalty CategoryMaintenance 100);
   when (negb (TrackCountsEnabled m)) (addPenalty CategoryMaintenance 100);
   setDetail CategoryMaintenance "autovacuum_enabled" (b2f (AutovacuumEnabled m));
   setDetail CategoryMaintenance "track_counts_enabled" (b2f (TrackCountsEnabled m));
   when (negb (TrackIoTimingEnabled m)) (addPenalty CategoryPerformance 5);
   setDetail CategoryPerformance "track_io_timing_enabled" (b2f (TrackIoTimingEnabled m));
   addSteps CategoryPerformance (LatencyRegressionRatio m) [(6, 50); (3, 30); (1.5, 10)]%float;
   when (0 <? LatencyRegressionRatio m)%float
      (setDetail CategoryPerformance "latency_regression" (round_to 100 (LatencyRegressionRatio m)));
   addSteps CategoryPerformance (SeqScanRegressionRatio m) [(6, 40); (3, 25); (1.5, 10)]%float;
   when (0 <? SeqScanRegressionRatio m)%float
      (setDetail CategoryPerformance "seq_scan_regression" (round_to 100 (SeqScanRegressionRatio m)));
   addPenalty CategoryStorage (hotUpdatePenalty (HotUpdateRatio m));
   setDetail CategoryStorage "hot_update_ratio" (HotUpdateRatio m);
   addSteps CategoryStorage (DiskUsedRatio m) [(diskUsedCritical, 80); (0.80, 30); (0.70, 10)]%float;
   when (0 <? DiskUsedRatio m)%float
      (setDetail CategoryStorage "disk_used_ratio" (round_to 1000 (DiskUsedRatio m)));
   when (bool_decide (WalLevel m = "minimal") && (0 <? ReplicaCount m))
      (λ cs, setDetail CategoryWalCheckpoint "wal_level_minimal_with_replicas" 1 (addPenalty CategoryWalCheckpoint 80 cs));
   when (bool_decide (WalLevel m = "logical") && (LogicalSlotsActive m =? 0) && negb (WalLevelManaged m))
      (λ cs, setDetail CategoryWalCheckpoint "wal_level_logical_without_slots" 1 (addPenalty CategoryWalCheckpoint 5 cs));
   when (0 <? NumVCPU m)%float
      (λ cs, let sat := (LoadAvg15 m / NumVCPU m)%float in
        setDetail CategoryConnections "host_load_per_vcpu" (round_to 100 sat)
          (addSteps CategoryConnections sat [(4, 60); (2, 30); (1, 10)]%float cs));
   when (0 <? PoolerPoolSize m)%float
      (λ cs, let sat := (PoolerServerConns m / PoolerPoolSize m)%float in
        setDetail CategoryConnections "pooler_saturation" (round_to 1000 sat)
          (addSteps CategoryConnections sat [(0.8, 30); (0.6, 15); (0.5, 5)]%float cs))].

Definition applyInstanceAdjustments (m : RawMetrics) (cs : list CategoryResult) : list CategoryResult :=
  (λ c, with_penalty (round1 (Penalty c)) c) <$> foldl (λ cs f, f cs) cs (adjustments m).

(** ** The score *)

Definition is_dropped (drop : list Category) (c : CategoryResult) : bool := bool_decide (Name c ∈ drop).

Definition weight_sum (l : list CategoryResult) : float := foldl (λ s c, (s + Weight c)%float) 0%float l.

Definition redistributeWeights (drop : list Category) (categories : list CategoryResult) : list CategoryResult :=
  let droppedSum := weight_sum (filter (λ c, is_dropped drop c = true) categories) in
  let otherSum := weight_sum (filter (λ c, is_dropped drop c = false) categories) in
  if (droppedSum =? 0)%float then categories
  else
    let categories := (λ c, if is_dropped drop c then with_penalty 0 (with_weight 0 c) else c) <$> categories in
    if (otherSum =? 0)%float then categories
    else (λ c, if is_dropped drop c then c
               else with_weight (Weight c + droppedSum * (Weight c / otherSum))%float c) <$> categories.

Definition criticalXidCeiling (xidAge : Z) : float :=
  if xidFailsafeAge <=? xidAge then criticalScoreCeiling else 100%float.

Definition criticalCeiling (m : RawMetrics) : float :=
  if (0 <? ChecksumFailuresRate m)%float then criticalScoreCeiling
  else if (diskUsedCritical <=? DiskUsedRatio m)%float then criticalScoreCeiling
  else if InRecovery m then 100%float
  else
    let c := criticalXidCeiling (Z.max (MaxRelfrozenxidAge m) (MaxXidAge m)) in
    if (c <? 100)%float then c
    else if negb (AutovacuumEnabled m) || negb (TrackCountsEnabled m) then criticalScoreCeiling
    else if decide (LevelForFreePct (freePctOf (SequenceExhaustionMax m)) (SequenceThresholds m) = Some LevelError)
    then criticalScoreCeiling
    else 100%float.

Definition Floored (m : RawMetrics) : bool := (criticalCeiling m <? 100)%float.

Definition penalties (m : RawMetrics) : list CategoryResult :=
  [penaltyConnections m; penaltyPerformance m; penaltyStorage m; penaltyReplication m; penaltyMaintenance m;
   penaltyHorizon m; penaltyWalCheckpoint m; penaltyLocks m].

Definition dropped_categories (m : RawMetrics) : list Category :=
  (if 0 <? ReplicaCount m then [] else [CategoryReplication]) ++ (if InRecovery m then [CategoryMaintenance] else []).

Definition total_penalty (cs : list CategoryResult) : float :=
  foldl (λ s c, (s + Penalty c * Weight c)%float) 0%float cs.

Definition scored (cs : list CategoryResult) : list CategoryResult :=
  (λ c, with_score (100 - Penalty c)%float c) <$> cs.

(** A penalty as a score from 0 to 100, under a ceiling. *)
Definition score_of (totalPenalty ceiling : float) : float :=
  let score := math_max 0 (math_min 100 (100 - totalPenalty)) in
  if (ceiling <? score)%float then ceiling else score.

Definition CalculateWithWeights (m : RawMetrics) (w : Weights) : Result :=
  let w := Normalize (if Validate w then w else DefaultWeights) in
  let categories := applyInstanceAdjustments m (penalties m) in
  let categories := (λ c, with_weight (byCategory w (Name c)) c) <$> categories in
  let categories := redistributeWeights (dropped_categories m) categories in
  let score := score_of (total_penalty categories) (criticalCeiling m) in
  mkResult (round1 score) (scored categories) (0 <? ReplicaCount m) (InRecovery m).

Definition Calculate (m : RawMetrics) : Result := CalculateWithWeights m DefaultWeights.

(** ** Databases *)

Record PerDBMetrics := mkPerDB {
  db_Database : string; db_SizeBytes : Z; db_CacheHitRatio : float; db_CacheSampleBlocks : Z;
  db_MaxDeadRatio : float; db_AvgDeadRatio : float; db_TablesHighBloat : Z; db_HotUpdateRatio : float;
  db_NewpageUpdateRatio : float; db_MaxXidAge : Z; db_VacuumBacklogTables : Z;
  db_MaxOverdueVacuumAgeHours : float; db_TablesNeverVacuumed : Z
}.
Record DatabaseScore := mkDBScore {
  s_Database : string; s_SizeBytes : Z; s_Score : float; s_Categories : list CategoryResult
}.

(** The metrics of an instance with everything zero but what a database has. *)
Definition raw_of (m : PerDBMetrics) : RawMetrics := {|
  InRecovery := false; Database := db_Database m; MetricsInstanceWide := false;
  SnapshotBackedRules := ∅; TotalConnections := 0; ActiveConnections := 0; IdleInTransaction := 0;
  IdleInTransactionDatabase := ""; LongestTransactionSeconds := 0%float;
  LongestTransactionDatabase := ""; MaxConnections := 0; CacheHitRatio := db_CacheHitRatio m;
  CacheSampleBlocks := db_CacheSampleBlocks m; TrackIoTimingEnabled := false;
  MaxDeadRatio := db_MaxDeadRatio m; AvgDeadRatio := db_AvgDeadRatio m;
  TablesHighBloat := db_TablesHighBloat m; ReplicaCount := 0; MaxReplayLagSeconds := 0%float;
  MaxLagBytes := 0; DisconnectedReplicas := 0; MaxXidAge := db_MaxXidAge m;
  VacuumBacklogTables := db_VacuumBacklogTables m;
  MaxOverdueVacuumAgeHours := db_MaxOverdueVacuumAgeHours m;
  TablesNeverVacuumed := db_TablesNeverVacuumed m; AutovacuumEnabled := false;
  TrackCountsEnabled := false; TablesWithAutovacuumOff := 0; MaxRelfrozenxidAge := 0;
  ColdMaxRelfrozenxidAge := 0; ColdFreezeRatio := 0%float; Cold := None; HorizonLagXids := 0;
  HorizonDatabase := ""; TimedCheckpoints := 0; RequestedCheckpoints := 0; ActiveLockWaiters := 0;
  LongestLockWaitSeconds := 0%float; UngrantedLocks := 0; DeadlocksTotal := 0;
  HeavyweightLocksTotal := 0; MaxLocksPerTransaction := 0; HotUpdateRatio := db_HotUpdateRatio m;
  NewpageUpdateRatio := db_NewpageUpdateRatio m; StalePlannerStatsTables := 0; WalLevel := "";
  LogicalSlotsActive := 0; WalLevelManaged := false; SequenceThresholds := ∅; LoadAvg15 := 0%float;
  NumVCPU := 0%float; PoolerServerConns := 0%float; PoolerPoolSize := 0%float;
  ChecksumFailuresRate := 0%float; SequenceExhaustionMax := 0%float;
  LatencyRegressionRatio := 0%float; SeqScanRegressionRatio := 0%float; DiskUsedRatio := 0%float
|}.

(** The weights a database has a use for. *)
Definition perDBProject (w : Weights) (inRecovery : bool) : Weights :=
  mkWeights 0 (Performance w) (Storage w) 0 (if inRecovery then 0%float else Maintenance w) 0 0 0.

Definition perDBWeights (w : Weights) (inRecovery : bool) : Weights :=
  let out := perDBProject w inRecovery in
  Normalize (if (Sum out <=? 0)%float then perDBProject DefaultWeights inRecovery else out).

Definition db_categories (m : PerDBMetrics) (w : Weights) (inRecovery : bool) : list CategoryResult :=
  let raw := raw_of m in
  let cats := [penaltyPerformance raw; penaltyStorage raw; penaltyMaintenance raw] in
  let cats := addPenalty CategoryStorage (hotUpdatePenalty (db_HotUpdateRatio m)) cats in
  let cats := setDetail CategoryStorage "hot_update_ratio" (db_HotUpdateRatio m) cats in
  let cats :=
    if inRecovery then (λ c, if decide (Name c = CategoryMaintenance) then with_penalty 0 c else c) <$> cats
    else cats in
  (λ c, with_weight (byCategory w (Name c)) c) <$> cats.

Definition ComputePerDB (metrics : list PerDBMetrics) (w : Weights) (inRecovery : bool) : list DatabaseScore :=
  let w := perDBWeights w inRecovery in
  (λ m,
    let cats := db_categories m w inRecovery in
    let ceiling := if inRecovery then 100%float else criticalXidCeiling (db_MaxXidAge m) in
    mkDBScore (db_Database m) (db_SizeBytes m) (round1 (score_of (total_penalty cats) ceiling)) (scored cats))
  <$> metrics.

Definition WorstDatabase (scores : list DatabaseScore) : option DatabaseScore :=
  match scores with
  | [] => None
  | s :: rest => Some (foldl (λ worst s, if (s_Score s <? s_Score worst)%float then s else worst) s rest)
  end.

(** A healthy primary, but for its replicas, the age of its transaction ids and the use
    of its sequences. *)
Definition healthy (rep xid : Z) (seq : float) : RawMetrics := {|
  InRecovery := false; Database := "app"; MetricsInstanceWide := false; SnapshotBackedRules := ∅;
  TotalConnections := 10; ActiveConnections := 0; IdleInTransaction := 0;
  IdleInTransactionDatabase := ""; LongestTransactionSeconds := 0%float;
  LongestTransactionDatabase := ""; MaxConnections := 100; CacheHitRatio := 99%float;
  CacheSampleBlocks := 0; TrackIoTimingEnabled := true; MaxDeadRatio := 0%float;
  AvgDeadRatio := 0%float; TablesHighBloat := 0; ReplicaCount := rep;
  MaxReplayLagSeconds := 0%float; MaxLagBytes := 0; DisconnectedReplicas := 0; MaxXidAge := xid;
  VacuumBacklogTables := 0; MaxOverdueVacuumAgeHours := 0%float; TablesNeverVacuumed := 0;
  AutovacuumEnabled := true; TrackCountsEnabled := true; TablesWithAutovacuumOff := 0;
  MaxRelfrozenxidAge := 0; ColdMaxRelfrozenxidAge := 0; ColdFreezeRatio := 0%float; Cold := None;
  HorizonLagXids := 0; HorizonDatabase := ""; TimedCheckpoints := 0; RequestedCheckpoints := 0;
  ActiveLockWaiters := 0; LongestLockWaitSeconds := 0%float; UngrantedLocks := 0;
  DeadlocksTotal := 0; HeavyweightLocksTotal := 0; MaxLocksPerTransaction := 0;
  HotUpdateRatio := 1%float; NewpageUpdateRatio := 0%float; StalePlannerStatsTables := 0;
  WalLevel := "replica"; LogicalSlotsActive := 0; WalLevelManaged := false;
  SequenceThresholds := ∅; LoadAvg15 := 0%float; NumVCPU := 0%float; PoolerServerConns := 0%float;
  PoolerPoolSize := 0%float; ChecksumFailuresRate := 0%float; SequenceExhaustionMax := seq;
  LatencyRegressionRatio := 0%float; SeqScanRegressionRatio := 0%float; DiskUsedRatio := 0%float
|}.

Example healthy_score : r_Score (Calculate (healthy 1 0 0)) = 100%float.
Proof. by vm_compute. Qed.

Example wraparound_score :
  r_Score (Calculate (healthy 1 1600000000 0)) = 30%float ∧ Penalty <$> Categories (Calculate (healthy 1 1600000000 0)) !! 4%nat = Some 80%float.
Proof. by vm_compute. Qed.

(** ** Tenths of a point *)

Definition tenth (n : Z) (x : float) : Prop := ∃ k, 0 ≤ k ≤ n ∧ (x =? to_float k / 10)%float = true.

(** Facts about the tenths up to [n], checked one by one. *)
Lemma tenths_checked (P : float → Prop) n k :
  Forall (λ i, P (to_float (Z.of_nat i) / 10)%float) (seq 0 (S n)) → 0 ≤ k ≤ Z.of_nat n → P (to_float k / 10)%float.
Proof.
  rewrite list.Forall_forall. intros H Hk. specialize (H (Z.to_nat k)). rewrite Z2Nat.id in H by lia.
  apply H, elem_of_seq. lia.
Qed.

Lemma tenths_within k : 0 ≤ k ≤ 1000 → within (to_float k / 10)%float 100 ∧ (to_float k / 10 =? to_float k / 10)%float = true.
Proof.
  intros Hk. apply (tenths_checked (λ x, within x 100 ∧ (x =? x)%float = true) 1000); [|lia].
  apply (bool_decide_unpack _). by vm_compute.
Qed.

Lemma tenth_within n x : n ≤ 1000 → tenth n x → within x 100.
Proof. intros Hn (k & Hk & Hx). apply (eqb_within _ _ _ Hx), tenths_within. lia. Qed.

Lemma zero_div c : (0 <? c)%float = true → finite c → ∀ y, (y =? 0)%float = true → (y / c =? 0)%float = true.
Proof.
  intros Hc Fc y. destruct (positive_spec c Hc Fc) as (m & e & Hce).
  rewrite !FloatAxioms.eqb_spec, FloatAxioms.div_spec, Hce. change (Prim2SF 0) with (S754_zero false).
  by destruct (Prim2SF y) as [s|[]| |[] m' e'].
Qed.

Lemma round1_tenth x b n : within x b → finite b → 0 ≤ n ≤ 1000 → fv (b * 10)%float = n * 2 ^ 1074 →
  tenth n (round1 x).
Proof.
  intros Hx Fb Hn Hv. assert (within (x * 10)%float (b * 10)%float) as Hy
    by (apply mul_within; [done|by vm_compute..]).
  pose proof (within_nonneg _ _ Hy) as Hb. pose proof (proj1 (within_spec _ _ Hb) Hy) as [_ Hle].
  destruct (math_round_spec (x * 10)%float n) as (k & Hk & [Hr|(-> & Hr & Hz)]);
    [by apply (within_nn _ _ Hy)|lia|assert (1000 < 2 ^ 52) by done; lia|..]; unfold round1, round_to; rewrite Hr.
  - exists k. split; [done|]. apply tenths_within. lia.
  - exists 0. split; [lia|]. change (to_float 0 / 10)%float with 0%float. by apply zero_div.
Qed.

Lemma round1_penalty p : nn p → tenth 1000 (round1 (math_min p 100)).
Proof. intros. apply (round1_tenth _ 100); [by apply min_within|done|lia|by vm_compute]. Qed.

(** ** Penalties are non-negative *)

Lemma nn_step (b : bool) p d : nn p → (b = true → nn d) → nn (if b then (p + d)%float else p).
Proof. intros. destruct b; [apply nn_add; auto|done]. Qed.

Lemma nn_gap x c : nn x → nn c → finite c → (c <=? x)%float = false → nn (c - x)%float.
Proof.
  intros Hx Hc Fc Hlt. apply nn_sub; [|done|].
  - by apply leb_of_not_leb.
  - apply (within_finite _ c); [|done]. split; [done|]. by apply leb_of_not_leb.
Qed.

Lemma nn_above c x : (c <? x)%float = true → nn c → nn x.
Proof. intros H Hc. by apply (leb_nonneg c x Hc), ltb_leb. Qed.

Ltac nn_step_tac :=
  lazymatch goal with
  | H : (?c <? ?x)%float = true |- nn ?x => apply (nn_above c x H)
  | |- nn (if _ then (?p + _)%float else ?p) => apply nn_step; [|intros]
  | |- nn (if ?b then _ else _) => destruct b eqn:?
  | |- nn (_ + _)%float => apply nn_add
  | |- nn (math_min _ _) => eapply within_nn, min_within
  | |- nn (_ * _)%float => apply nn_mul; [|by vm_compute..]
  | |- nn (_ / _)%float => apply nn_div; [|by vm_compute..]
  | |- nn (to_float _) => apply nn_to_float
  | |- nn (_ - _)%float =>
      first [apply nn_sub; [by apply ltb_leb|by vm_compute..] | apply nn_gap; [|by vm_compute..|done]]
  end.
Ltac nn_auto :=
  cbv zeta; repeat nn_step_tac; try assumption; try (lazymatch goal with |- nn (_ _) => fail | |- nn _ => by vm_compute end).

(** What the collectors deliver: counts that fit their type, ratios that are not negative. *)
Record measured (m : RawMetrics) : Prop := {
  m_cache : nn (CacheHitRatio m);
  m_dead : nn (MaxDeadRatio m);
  m_idle : 0 ≤ IdleInTransaction m;
  m_xid : int64 (MaxXidAge m);
  m_relfrozenxid : int64 (MaxRelfrozenxidAge m);
  m_backlog : int64 (VacuumBacklogTables m)
}.

Lemma sub64_pos a b : int64 a → 0 ≤ b < a → 0 ≤ sub64 a b.
Proof. unfold sub64, int64, min64, max64. intros. rewrite wrap64_id; unfold int64, min64, max64; lia. Qed.

Lemma xid_penalty_nn xidAge : int64 xidAge → nn (xid_penalty xidAge).
Proof.
  intros H. unfold xid_penalty, xidFailsafeAge, xidFreezeMaxAge, xidShutdownAge.
  nn_auto; apply sub64_pos; [done|lia|done|lia].
Qed.

Section penalties_ok.
  Context (m : RawMetrics) (Hm : measured m).

Lemma penaltyConnections_ok : tenth 1000 (Penalty (penaltyConnections m)).
Proof using Hm.
  unfold penaltyConnections. destruct (MaxConnections m =? 0); [exists 0; by vm_compute|].
  apply round1_penalty. nn_auto. apply Hm.
Qed.

Lemma penaltyPerformance_ok : tenth 1000 (Penalty (penaltyPerformance m)).
Proof using Hm.
  pose proof (m_cache m Hm). apply round1_penalty. nn_auto.
Qed.

Lemma penaltyStorage_ok : tenth 1000 (Penalty (penaltyStorage m)).
Proof using Hm. pose proof (m_dead m Hm). apply round1_penalty. nn_auto; lia. Qed.

Lemma penaltyReplication_ok : tenth 1000 (Penalty (penaltyReplication m)).
Proof using.
  unfold penaltyReplication. destruct (ReplicaCount m =? 0); [exists 0; by vm_compute|].
  apply round1_penalty. nn_auto. lia.
Qed.

Lemma penaltyMaintenance_ok : tenth 1000 (Penalty (penaltyMaintenance m)).
Proof using Hm.
  destruct Hm. apply round1_penalty. assert (nn (xid_penalty (Z.max (MaxRelfrozenxidAge m) (MaxXidAge m)))) as Hxid
    by (apply xid_penalty_nn; unfold int64 in *; lia).
  cbv zeta. nn_auto; try lia. apply sub64_pos; [done|lia].
Qed.

Lemma penaltyHorizon_ok : tenth 1000 (Penalty (penaltyHorizon m)).
Proof using. apply round1_penalty. nn_auto. Qed.

Lemma penaltyWalCheckpoint_ok : tenth 1000 (Penalty (penaltyWalCheckpoint m)).
Proof using. apply round1_penalty. nn_auto. Qed.

Lemma penaltyLocks_ok : tenth 1000 (Penalty (penaltyLocks m)).
Proof using. apply round1_penalty. nn_auto. Qed.

Lemma penalties_ok : Forall (λ c, tenth 1000 (Penalty c)) (penalties m).
Proof using Hm.
  unfold penalties. repeat constructor; auto using penaltyConnections_ok, penaltyPerformance_ok, penaltyStorage_ok,
    penaltyReplication_ok, penaltyMaintenance_ok, penaltyHorizon_ok, penaltyWalCheckpoint_ok, penaltyLocks_ok.
Qed.
End penalties_ok.

(** ** The adjustments keep penalties between 0 and 100 *)

Definition penalised (cs : list CategoryResult) : Prop := Forall (λ c, within (Penalty c) 100) cs.

(** A step of the adjustments: penalties stay in range, the categories stay the same. *)
Definition adjusts (f : list CategoryResult → list CategoryResult) : Prop :=
  ∀ cs, penalised cs → penalised (f cs) ∧ Name <$> f cs = Name <$> cs.

Lemma at_category_adjusts name f :
  (∀ c, within (Penalty c) 100 → within (Penalty (f c)) 100 ∧ Name (f c) = Name c) → adjusts (at_category name f).
Proof.
  intros Hf cs. induction cs as [|c cs IH]; intros Hcs; [done|].
  apply Forall_cons in Hcs as [Hc Hcs]. cbn [at_category]. case_decide.
  - destruct (Hf c Hc) as [? Hn]. split; [by constructor|]. cbn. by rewrite Hn.
  - destruct (IH Hcs) as [? Hn]. split; [by constructor|]. cbn. by rewrite Hn.
Qed.

Lemma addPenalty_adjusts name delta : nn delta → adjusts (addPenalty name delta).
Proof.
  intros Hd. apply at_category_adjusts. intros c Hc. split; [|done].
  apply min_within; [|done]. by apply nn_add; [apply (within_nn _ 100)|].
Qed.

Lemma setDetail_adjusts name key value : adjusts (setDetail name key value).
Proof. by apply at_category_adjusts. Qed.

Lemma when_adjusts b f : adjusts f → adjusts (when b f).
Proof. intros Hf cs Hcs. destruct b; [by apply Hf|done]. Qed.

Lemma comp_adjusts f g : adjusts f → adjusts g → adjusts (λ cs, f (g cs)).
Proof. intros Hf Hg cs Hcs. destruct (Hg cs Hcs) as [H1 <-]. by apply Hf. Qed.

Lemma addSteps_adjusts name v steps : Forall (λ s, nn s.2) steps → adjusts (addSteps name v steps).
Proof.
  intros Hs cs Hcs. unfold addSteps. destruct (list_find _ steps) as [[i s]|] eqn:E; [|done].
  apply list_find_Some in E as (Hi & _). rewrite Forall_lookup in Hs. apply addPenalty_adjusts; [by apply (Hs i)|done].
Qed.

Lemma hotUpdatePenalty_nn ratio : nn (hotUpdatePenalty ratio).
Proof. unfold hotUpdatePenalty. nn_auto. Qed.

Create HintDb adjusts.
#[local] Hint Resolve addPenalty_adjusts setDetail_adjusts when_adjusts comp_adjusts addSteps_adjusts
  hotUpdatePenalty_nn : adjusts.
#[local] Hint Extern 5 (nn _) => by vm_compute : adjusts.
#[local] Hint Extern 5 (Forall _ _) => repeat constructor; by vm_compute : adjusts.

Lemma round_penalties cs : penalised cs →
  Forall (λ c, tenth 1000 (Penalty c)) ((λ c, with_penalty (round1 (Penalty c)) c) <$> cs) ∧
  Name <$> ((λ c, with_penalty (round1 (Penalty c)) c) <$> cs) = Name <$> cs.
Proof.
  intros Hcs. split; [|by rewrite <-list_fmap_compose].
  apply Forall_fmap. eapply Forall_impl; [done|]. intros c Hc. cbn.
  apply (round1_tenth _ 100); [done|done|lia|by vm_compute].
Qed.

Lemma adjustments_adjust m : Forall adjusts (adjustments m).
Proof. unfold adjustments. cbv zeta. repeat apply Forall_cons_2; [eauto 10 with adjusts..|by apply Forall_nil]. Qed.

Lemma applyInstanceAdjustments_ok m cs : penalised cs →
  Forall (λ c, tenth 1000 (Penalty c)) (applyInstanceAdjustments m cs) ∧
  Name <$> applyInstanceAdjustments m cs = Name <$> cs.
Proof.
  intros Hcs. assert (adjusts (λ cs, foldl (λ cs f, f cs) cs (adjustments m))) as H.
  { generalize (adjustments_adjust m). generalize (adjustments m). clear. intros fs Hfs cs.
    revert cs. induction Hfs as [|f fs Hf Hfs IH]; intros cs Hcs; [done|]. destruct (Hf cs Hcs) as [H1 <-]. by apply IH. }
  destruct (H cs Hcs) as [H1 <-]. by apply round_penalties.
Qed.

(** ** Weights *)

Definition ordinary (w : Weights) : Prop := Forall (λ v, nn v ∧ finite v) (weight_values w).

Lemma value_ordinary v :
  (v <? 0)%float || negb (v =? v)%float || (PrimFloat.abs v =? infinity)%float = false → nn v ∧ finite v.
Proof.
  rewrite !orb_false_iff, negb_false_iff. intros [[Hlt Hn] Ha].
  assert (nn v) as Hv by (by apply leb_of_not_ltb). split; [done|]. apply finite_spec; [done|].
  split; [by apply leb_refl_nn|]. intros Hi. revert Ha. rewrite FloatAxioms.eqb_spec, FloatAxioms.abs_spec, Hi. done.
Qed.

Lemma Validate_ordinary w : Validate w = true → ordinary w.
Proof.
  unfold Validate. rewrite andb_true_iff, forallb_forall. intros [H _]. apply list.Forall_forall.
  intros v Hv. apply value_ordinary, negb_true_iff, H. by apply list_elem_of_In.
Qed.

(** A sum from the left is above each of its parts. *)
Definition sum_from (a : float) (l : list float) : float := foldl PrimFloat.add a l.

Lemma sum_from_nn a l : nn a → Forall nn l → nn (sum_from a l) ∧ (a <=? sum_from a l)%float = true.
Proof.
  intros Ha Hl. revert a Ha. induction Hl as [|x l Hx Hl IH]; intros a Ha; [split; [done|by apply leb_refl_nn]|].
  cbn. destruct (IH (a + x)%float) as [Hn Hle]; [by apply nn_add|]. split; [done|].
  apply (within_trans a (a + x)%float); [|done]. split; [done|].
  apply (add_above a x a x); by apply within_self.
Qed.

Lemma sum_from_above a l x : nn a → Forall nn l → x ∈ l → within x (sum_from a l).
Proof.
  intros Ha Hl. revert a Ha. induction Hl as [|y l Hy Hl IH]; intros a Ha; [by rewrite elem_of_nil|].
  rewrite elem_of_cons. intros [->|Hx]; cbn; [|apply IH; [by apply nn_add|done]].
  apply (within_trans _ (a + y)%float); [|by apply sum_from_nn; [apply nn_add|]].
  split; [done|]. apply (add_above_r a y a y); by apply within_self.
Qed.

Lemma Sum_above w v : ordinary w → v ∈ weight_values w → within v (Sum w).
Proof.
  unfold ordinary, weight_values. intros Hw Hv. rewrite Forall_cons in Hw. destruct Hw as [[Hc _] Hw].
  assert (Forall nn (tail (weight_values w))) as Ht by (eapply Forall_impl; [done|]; intros ? [? _]; done).
  change (Sum w) with (sum_from (Connections w) (tail (weight_values w))).
  apply elem_of_cons in Hv as [->|Hv]; [|by apply sum_from_above].
  split; [done|]. by apply sum_from_nn.
Qed.

Lemma Sum_nn w : ordinary w → nn (Sum w).
Proof.
  intros Hw. apply (within_nonneg (Connections w)). apply Sum_above; [done|]. unfold weight_values. set_solver.
Qed.

(** Close to one is below two. *)
Lemma near_one s : nn s → (PrimFloat.abs (s - 1) <? 1e-9)%float = true → (s <=? 2)%float = true.
Proof.
  intros Hs Hn. destruct (s <=? 2)%float eqn:Hle; [done|exfalso]. apply leb_of_not_leb in Hle; [|done|done].
  assert (within 1 (s - 1)%float ∧ nn (s - 1)%float) as [Hw Hnn].
  { destruct (decide (finite s)) as [Fs|Fs].
    - assert (within 1 s) as H1 by (by apply (within_trans 1 2)).
      destruct (fv_sub s 1 H1 Fs) as [Hp Hv]. apply fv_le in Hle; [|done|done]. rewrite within_spec by (by rewrite nonneg_spec).
      unfold nn. rewrite nonneg_spec. split; [|done]. split; [done|]. rewrite Hv.
      assert (fv 1 = rnd (fv 2 - fv 1) 1) as H21 by (by vm_compute). rewrite H21 at 1.
      apply rnd_mono; [by vm_compute|done..|lia].
    - apply nn_infinity in Fs; [|done]. unfold within, nn. rewrite !FloatAxioms.leb_spec, FloatAxioms.sub_spec, Fs.
      by vm_compute. }
  assert (within (s - 1)%float 1e-9) as Hsmall.
  { split; [done|]. apply ltb_leb. revert Hn. rewrite !FloatAxioms.ltb_spec, FloatAxioms.abs_spec.
    unfold nn in Hnn. rewrite nonneg_spec in Hnn. by destruct (Prim2SF (s - 1)) as [[]|[]| |[] m e]. }
  destruct (within_trans _ _ _ Hw (proj2 Hsmall)) as [_ Hx]. by vm_compute in Hx.
Qed.

Lemma byCategory_value w name : byCategory w name ∈ weight_values w.
Proof. destruct name; unfold weight_values; cbn [byCategory]; set_solver. Qed.

Lemma byCategory_map f w name : byCategory (map_weights f w) name = f (byCategory w name).
Proof. by destruct name. Qed.

(** Normalised weights are between zero and two, whatever the configured ones add up to. *)
Lemma Normalize_within w name : ordinary w → (0 <? Sum w)%float = true → within (byCategory (Normalize w) name) 2.
Proof.
  intros Hw Hpos. pose proof (Sum_above w _ Hw (byCategory_value w name)) as Hv. pose proof (Sum_nn w Hw) as Hs.
  unfold Normalize. cbv zeta. destruct (Sum w <=? 0)%float eqn:Hle.
  { exfalso. apply fv_le in Hle; [|done|done]. apply fv_lt in Hpos; [|done|done]. lia. }
  destruct (PrimFloat.abs (Sum w - 1) <? 1e-9)%float eqn:Hnear; [by apply (within_trans _ _ _ Hv), near_one|].
  rewrite byCategory_map. apply (within_trans _ 1); [|done].
  destruct (decide (finite (Sum w))) as [Fs|Fs]; [by apply ratio_within|].
  apply nn_infinity in Fs; [|done]. assert (finite (byCategory w name)) as Fv.
  { unfold ordinary in Hw. rewrite list.Forall_forall in Hw. apply (Hw _ (byCategory_value w name)). }
  destruct Hv as [Hv _]. apply (within_trans _ 0); [|done]. apply zero_eqb.
  rewrite FloatAxioms.eqb_spec, FloatAxioms.div_spec, Fs. rewrite nonneg_spec in Hv. apply finite_spec in Fv as [_ Fv]; [|by apply nonneg_spec].
  by destruct (Prim2SF (byCategory w name)) as [[]|[]| |[] m e].
Qed.

Lemma chosen_weights w : let w' := if Validate w then w else DefaultWeights in
  ordinary w' ∧ (0 <? Sum w')%float = true.
Proof.
  cbv zeta. destruct (Validate w) eqn:Hv.
  - pose proof (Validate_ordinary w Hv) as Hw. split; [done|]. unfold Validate in Hv.
    apply andb_true_iff in Hv as [_ Hs]. apply negb_true_iff in Hs. pose proof (Sum_nn w Hw).
    apply fv_lt; [done..|]. assert (¬ fv (Sum w) ≤ fv 0); [|lia]. rewrite <-fv_le by done. by rewrite Hs.
  - split; [|by vm_compute]. unfold ordinary. apply (bool_decide_unpack _). by vm_compute.
Qed.

(** The bound of a sum of [n] terms of at most [b]. *)
Definition sum_bound (b : float) (n : nat) : float := Nat.iter n (λ s, (s + b)%float) 0%float.

Lemma sum_bound_nn b n : nn b → nn (sum_bound b n).
Proof. intros Hb. induction n as [|n IH]; [by vm_compute|]. by apply nn_add. Qed.

Lemma fold_within {A} (f : A → float) b (l : list A) n : nn b → Forall (λ c, within (f c) b) l → (length l ≤ n)%nat →
  within (foldl (λ s c, (s + f c)%float) 0%float l) (sum_bound b n) ∧
  Forall (λ c, within (f c) (foldl (λ s c, (s + f c)%float) 0%float l)) l.
Proof.
  intros Hb. revert n. induction l as [|x l IH] using rev_ind; intros n Hl Hn.
  - split; [|by apply Forall_nil]. split; [done|]. by apply sum_bound_nn.
  - rewrite Forall_app, Forall_singleton in Hl. destruct Hl as [Hl Hx]. rewrite length_app in Hn. cbn in Hn.
    destruct n as [|n]; [lia|]. destruct (IH n Hl ltac:(lia)) as [Hs Hall]. rewrite foldl_app. cbn.
    change (sum_bound b (S n)) with (sum_bound b n + b)%float. split; [by apply add_within|].
    rewrite Forall_app, Forall_singleton. split.
    + eapply Forall_impl; [exact Hall|]. intros c Hc. cbn. apply (within_trans _ _ _ Hc).
      by apply (add_above _ _ (sum_bound b n) b).
    + split; [by apply (within_nn _ b)|]. by apply (add_above_r _ _ (sum_bound b n) b).
Qed.

Lemma redistribute_ok drop cs : Forall (λ c, within (Weight c) 2) cs → length cs = 8%nat →
  Forall (λ c, within (Weight c) 18 ∧ (Name c ∈ drop → (Weight c =? 0)%float = true)) (redistributeWeights drop cs) ∧
  Name <$> redistributeWeights drop cs = Name <$> cs ∧
  (∀ P : CategoryResult → Prop, Forall P cs → (∀ c, P c → P (with_penalty 0 c)) → (∀ c w, P c → P (with_weight w c)) →
    Forall P (redistributeWeights drop cs)).
Proof.
  intros Hw Hlen. unfold redistributeWeights. cbv zeta.
  assert (∀ b, Forall (λ c, within (Weight c) 2) (filter (λ c, is_dropped drop c = b) cs) ∧
    (length (filter (λ c, is_dropped drop c = b) cs) ≤ 8)%nat) as Hfilter.
  { intros b. split; [rewrite list.Forall_forall in *; intros c [_ ?]%list_elem_of_filter; auto|].
    rewrite <-Hlen. apply length_filter. }
  destruct (Hfilter true) as [Ht Htl], (Hfilter false) as [Hf Hfl].
  destruct (fold_within Weight 2 _ 8 ltac:(done) Ht Htl) as [Hd Hda].
  destruct (fold_within Weight 2 _ 8 ltac:(done) Hf Hfl) as [Ho Hoa].
  fold (weight_sum (filter (λ c, is_dropped drop c = true) cs)) in *.
  fold (weight_sum (filter (λ c, is_dropped drop c = false) cs)) in *.
  set (droppedSum := weight_sum _) in *. set (otherSum := weight_sum _) in Ho, Hoa |- *.
  assert (Forall (λ c, within (Weight c) 18 ∧ (is_dropped drop c = true → within (Weight c) droppedSum) ∧
    (is_dropped drop c = false → within (Weight c) otherSum) ∧ within (Weight c) 2) cs) as Hcs.
  { rewrite list.Forall_forall in *. intros c Hc. split; [by apply (within_trans _ 2); [apply Hw|]|].
    split_and!; [intros Hdr; apply Hda|intros Hdr; apply Hoa|by apply Hw]; by apply list_elem_of_filter. }
  clearbody droppedSum otherSum. change (sum_bound 2 8) with 16%float in *. clear Ht Htl Hf Hfl Hfilter Hda Hoa Hw.
  destruct (droppedSum =? 0)%float eqn:Hd0.
  { split; [|split; [done|by intros P ? _ _]]. eapply Forall_impl; [exact Hcs|]. intros c (? & Hc & _). split; [done|].
    intros Hin. apply within_zero. apply (within_trans _ droppedSum); [|by apply zero_eqb].
    apply Hc. by apply bool_decide_eq_true. }
  destruct (otherSum =? 0)%float eqn:Ho0; split_and!.
  - apply Forall_fmap. eapply Forall_impl; [exact Hcs|]. intros c (? & _). cbn. destruct (is_dropped drop c) eqn:E; cbn; [done|].
    split; [done|]. intros Hin. by apply bool_decide_eq_false in E.
  - rewrite <-list_fmap_compose. apply list_fmap_ext. intros ? c _. cbn. by destruct (is_dropped drop c).
  - intros P HP H0 H1. apply Forall_fmap. eapply Forall_impl; [exact HP|]. intros c Hc. cbn. destruct (is_dropped drop c); auto.
  - rewrite <-list_fmap_compose. apply Forall_fmap. eapply Forall_impl; [exact Hcs|]. intros c (Hc & _ & Hoc & H2). cbn.
    destruct (is_dropped drop c) eqn:E; cbn.
    + unfold is_dropped in *. cbn. by rewrite E.
    + rewrite E. cbn. split; [|intros Hin; by apply bool_decide_eq_false in E].
      apply (add_within _ _ 2 16); [done|]. apply (mul_within _ _ 16 1); [done| |done..].
      apply ratio_within; [by apply Hoc|apply pos_of_nonzero; [by apply (within_nn _ 16)|done]|by apply (within_finite _ 16)].
  - rewrite <-!list_fmap_compose. apply list_fmap_ext. intros ? c _. cbn.
    destruct (is_dropped drop c) eqn:E; cbn; [unfold is_dropped in *; cbn; by rewrite E|by rewrite E].
  - intros P HP H0 H1. rewrite <-list_fmap_compose. apply Forall_fmap. eapply Forall_impl; [exact HP|]. intros c Hc. cbn.
    destruct (is_dropped drop c) eqn:E; [unfold is_dropped in *; cbn; rewrite E; auto|rewrite E; auto].
Qed.

(** ** The score *)

Lemma total_penalty_number cs : (length cs ≤ 8)%nat →
  Forall (λ c, within (Penalty c) 100 ∧ within (Weight c) 18) cs →
  is_number (100 - total_penalty cs)%float.
Proof.
  intros Hlen Hcs. assert (Forall (λ c, within (Penalty c * Weight c)%float (100 * 18)) cs) as Hp.
  { eapply Forall_impl; [exact Hcs|]. intros c [? ?]. by apply mul_within. }
  destruct (fold_within (λ c, (Penalty c * Weight c)%float) (100 * 18) cs 8) as [Ht _]; [by vm_compute|done|done|].
  fold (total_penalty cs) in Ht. change (sum_bound _ 8) with 14400%float in Ht.
  apply sub_number; [by vm_compute|by apply (within_nn _ 14400)|done|by apply (within_finite _ 14400)].
Qed.

(** A score is a tenth of a point, and under its ceiling. *)
Lemma score_of_ok total ceiling : is_number (100 - total)%float → ceiling = criticalScoreCeiling ∨ ceiling = 100%float →
  tenth 1000 (round1 (score_of total ceiling)) ∧
  ((ceiling <? 100)%float = true → (round1 (score_of total ceiling) <=? 30)%float = true).
Proof.
  intros Hn Hc. pose proof (clamp_within _ Hn) as Hs. unfold score_of. cbv zeta.
  set (s := math_max 0 _) in *. assert (within (if (ceiling <? s)%float then ceiling else s) ceiling ∨ ceiling = 100%float) as Hle.
  { destruct Hc as [->| ->]; [left|by right]. destruct (criticalScoreCeiling <? s)%float eqn:E; [by vm_compute|].
    split; [by apply (within_nn _ 100)|]. apply leb_of_not_ltb; [done|by apply nn_number, (within_nn _ 100)|done]. }
  split.
  - apply (round1_tenth _ 100); [|done|lia|by vm_compute]. destruct (ceiling <? s)%float eqn:E; [|done].
    destruct Hc as [->| ->]; by vm_compute.
  - intros Hlt. destruct Hc as [->| ->]; [|done]. destruct Hle as [Hle|?]; [|done].
    destruct (round1_tenth _ _ 300 Hle ltac:(done) ltac:(lia) ltac:(by vm_compute)) as (k & Hk & Hx).
    apply (eqb_within _ _ _ Hx). apply (tenths_checked (λ x, within x 30) 300); [|lia].
    apply (bool_decide_unpack _). by vm_compute.
Qed.

Lemma criticalCeiling_cases m : criticalCeiling m = criticalScoreCeiling ∨ criticalCeiling m = 100%float.
Proof. unfold criticalCeiling, criticalXidCeiling. cbv zeta. repeat case_match; auto. Qed.

Definition categories : list Category :=
  [CategoryConnections; CategoryPerformance; CategoryStorage; CategoryReplication; CategoryMaintenance;
   CategoryHorizon; CategoryWalCheckpoint; CategoryLocks].

Lemma penalties_names m : Name <$> penalties m = categories.
Proof.
  unfold penalties, penaltyConnections, penaltyReplication. cbv zeta. by destruct (MaxConnections m =? 0), (ReplicaCount m =? 0).
Qed.

Lemma scored_ok cs (P : CategoryResult → Prop) : Forall P cs → (∀ c s, P c → P (with_score s c)) →
  Forall (λ c, within (Penalty c) 100) cs →
  Forall (λ c, P c ∧ within (Score c) 100) (scored cs) ∧ Name <$> scored cs = Name <$> cs.
Proof.
  intros HP Hs Hpen. unfold scored. split; [|by rewrite <-list_fmap_compose].
  apply Forall_fmap. apply (Forall_impl (λ c, P c ∧ within (Penalty c) 100)); [by apply Forall_and|].
  intros c [Hc Hp]. split; [by apply Hs|]. cbn. by apply sub_within; [|apply within_self|].
Qed.

(** ** Databases *)

Record measured_db (m : PerDBMetrics) : Prop := {
  d_cache : nn (db_CacheHitRatio m); d_dead : nn (db_MaxDeadRatio m);
  d_xid : int64 (db_MaxXidAge m); d_backlog : int64 (db_VacuumBacklogTables m)
}.

Lemma measured_raw_of m : measured_db m → measured (raw_of m).
Proof. intros []. by constructor. Qed.

Lemma perDBWeights_within w inRecovery name : ordinary w → within (byCategory (perDBWeights w inRecovery) name) 2.
Proof.
  intros Hw. unfold perDBWeights. cbv zeta. set (project := λ w : Weights, perDBProject w inRecovery).
  change (perDBProject DefaultWeights inRecovery) with (project DefaultWeights). change (perDBProject w inRecovery) with (project w).
  assert (∀ w, ordinary w → ordinary (project w)) as Hp.
  { unfold ordinary, weight_values. intros w0. rewrite !Forall_cons. intros (?&?&?&?&?&?).
    repeat (split; [first [done|split; by vm_compute|by destruct inRecovery; [split; by vm_compute|]]|]). done. }
  destruct (Sum (project w) <=? 0)%float eqn:Hs; apply Normalize_within.
  - apply Hp. unfold ordinary. apply (bool_decide_unpack _). by vm_compute.
  - destruct inRecovery; by vm_compute.
  - by apply Hp.
  - pose proof (Sum_nn _ (Hp w Hw)). apply fv_lt; [done..|].
    assert (¬ fv (Sum (project w)) ≤ fv 0); [|lia]. rewrite <-fv_le by done. by rewrite Hs.
Qed.

Lemma db_categories_ok m w inRecovery : measured_db m → ordinary w →
  let cats := db_categories m (perDBWeights w inRecovery) inRecovery in
  Name <$> cats = [CategoryPerformance; CategoryStorage; CategoryMaintenance] ∧
  Forall (λ c, within (Penalty c) 100 ∧ within (Weight c) 18) cats.
Proof.
  intros Hm Hw. cbv zeta. unfold db_categories. cbv zeta. apply measured_raw_of in Hm.
  set (raw := raw_of m) in *. set (cats := [penaltyPerformance raw; penaltyStorage raw; penaltyMaintenance raw]).
  assert (penalised cats) as Hc.
  { repeat constructor; by eapply tenth_within; [|auto using penaltyPerformance_ok, penaltyStorage_ok, penaltyMaintenance_ok]. }
  destruct (comp_adjusts _ _ (setDetail_adjusts CategoryStorage "hot_update_ratio" (db_HotUpdateRatio m))
    (addPenalty_adjusts CategoryStorage _ (hotUpdatePenalty_nn (db_HotUpdateRatio m))) cats Hc) as [Hc1 Hn1].
  set (cats1 := setDetail _ _ _ _) in *. assert (Name <$> cats1 = [CategoryPerformance; CategoryStorage; CategoryMaintenance]) as Hn
    by (by rewrite Hn1). clearbody cats1.
  set (cats2 := if inRecovery then _ else cats1).
  assert (penalised cats2 ∧ Name <$> cats2 = Name <$> cats1) as [Hc2 Hn2].
  { unfold cats2. destruct inRecovery; [|done]. split.
    - apply Forall_fmap. eapply Forall_impl; [exact Hc1|]. intros c ?. cbn. case_decide; [by vm_compute|done].
    - rewrite <-list_fmap_compose. apply list_fmap_ext. intros ? c _. cbn. by case_decide. }
  rewrite <-list_fmap_compose. split; [by rewrite <-Hn, <-Hn2|].
  apply Forall_fmap. eapply Forall_impl; [exact Hc2|]. intros c ?. split; [done|].
  apply (within_trans _ 2); [by apply perDBWeights_within|done].
Qed.

(** The least score, of numbers. *)
Lemma WorstDatabase_least scores s : Forall (λ s, nn (s_Score s)) scores → WorstDatabase scores = Some s →
  s ∈ scores ∧ Forall (λ s', (s_Score s <=? s_Score s')%float = true) scores.
Proof.
  destruct scores as [|s0 rest]; [done|]. rewrite Forall_cons. cbn. intros [H0 Hrest] [= <-].
  revert s0 H0. induction Hrest as [|s1 rest H1 Hrest IH]; intros s0 H0; cbn.
  { split; [by left|]. repeat constructor. by apply leb_refl_nn. }
  destruct (s_Score s1 <? s_Score s0)%float eqn:E.
  - destruct (IH s1 H1) as [Hin Hall]. split; [set_solver|]. apply Forall_cons. split; [|done].
    apply Forall_cons in Hall as [Hs1 _].
    apply (within_trans _ (s_Score s1)); [|by apply ltb_leb]. split; [|done].
    apply elem_of_cons in Hin as [->|Hin]; [done|]. rewrite list.Forall_forall in Hrest. by apply Hrest.
  - destruct (IH s0 H0) as [Hin Hall]. split; [set_solver|]. apply Forall_cons in Hall as [Hs0 Hall].
    repeat (apply Forall_cons; split); [done| |done].
    apply (within_trans _ (s_Score s0)); [|by apply leb_of_not_ltb; [apply nn_number..|]]. split; [|done].
    apply elem_of_cons in Hin as [->|Hin]; [done|]. rewrite list.Forall_forall in Hrest. by apply Hrest.
Qed.

(** C22: whatever the weights, and for any metrics a collector can deliver, the score is a
    number of tenths from 0 to 100, at most 30 under a catastrophic condition; each of the
    eight categories has a penalty in tenths and a score from 0 to 100, and a category that
    means nothing on the instance weighs nothing. *)
Theorem score_bounded m w : measured m →
  let r := CalculateWithWeights m w in
  tenth 1000 (r_Score r) ∧ (Floored m = true → (r_Score r <=? 30)%float = true) ∧
  Name <$> Categories r = categories ∧
  Forall (λ c, (tenth 1000 (Penalty c) ∧ within (Weight c) 18 ∧
    (Name c ∈ dropped_categories m → (Weight c =? 0)%float = true)) ∧ within (Score c) 100) (Categories r).
Proof.
  intros Hm. cbv zeta. unfold CalculateWithWeights. cbv zeta. cbn [r_Score Categories].
  pose proof (penalties_ok m Hm) as Hpen. pose proof (penalties_names m) as Hnames.
  destruct (applyInstanceAdjustments_ok m (penalties m)) as [Hadj Hadjn].
  { eapply Forall_impl; [exact Hpen|]. intros c. by apply tenth_within. }
  rewrite Hnames in Hadjn. set (cs1 := applyInstanceAdjustments m (penalties m)) in *. clearbody cs1.
  destruct (chosen_weights w) as [Hw Hw0]. set (w' := Normalize _).
  set (cs2 := (λ c, with_weight (byCategory w' (Name c)) c) <$> cs1).
  assert (Name <$> cs2 = categories) as Hn2 by (unfold cs2; rewrite <-list_fmap_compose; exact Hadjn).
  assert (length cs2 = 8%nat) as Hlen by (by rewrite <-(length_fmap Name), Hn2).
  destruct (redistribute_ok (dropped_categories m) cs2) as (Hwt & Hn3 & Hkeep); [|done|].
  { apply Forall_fmap, Forall_true. intros c. by apply Normalize_within. }
  specialize (Hkeep (λ c, tenth 1000 (Penalty c))). set (cs3 := redistributeWeights _ cs2) in *. clearbody cs3.
  assert (Forall (λ c, tenth 1000 (Penalty c)) cs3) as Hp3.
  { apply Hkeep; [by apply Forall_fmap| |done]. intros c _. exists 0. by vm_compute. }
  assert (Forall (λ c, within (Penalty c) 100) cs3) as Hp3'
    by (eapply Forall_impl; [exact Hp3|]; intros c; by apply tenth_within).
  assert (is_number (100 - total_penalty cs3)%float) as Hnum.
  { apply total_penalty_number; [by rewrite <-(length_fmap Name), Hn3, length_fmap, Hlen|].
    apply Forall_and. split; [done|]. eapply Forall_impl; [exact Hwt|]. by intros c [? _]. }
  destruct (score_of_ok _ _ Hnum (criticalCeiling_cases m)) as [Hs Hfl]. split; [done|]. split; [exact Hfl|].
  destruct (scored_ok cs3 (λ c, tenth 1000 (Penalty c) ∧ within (Weight c) 18 ∧
    (Name c ∈ dropped_categories m → (Weight c =? 0)%float = true))) as [Hsc ->]; [|done|done|].
  { by apply Forall_and. }
  by rewrite Hn3, Hn2.
Qed.

(** Every database gets a score in tenths from 0 to 100, in the order given, at most 30
    when its transaction ids run out and it can be vacuumed; the worst database is one with
    the least score. *)
Theorem ComputePerDB_bounds metrics w inRecovery : Validate w = true → Forall measured_db metrics →
  let scores := ComputePerDB metrics w inRecovery in
  Forall2 (λ m s, s_Database s = db_Database m ∧ s_SizeBytes s = db_SizeBytes m ∧ tenth 1000 (s_Score s) ∧
    (inRecovery = false → xidFailsafeAge ≤ db_MaxXidAge m → (s_Score s <=? 30)%float = true)) metrics scores ∧
  (∀ worst, WorstDatabase scores = Some worst →
    worst ∈ scores ∧ Forall (λ s, (s_Score worst <=? s_Score s)%float = true) scores).
Proof.
  intros Hw%Validate_ordinary Hms. cbv zeta.
  assert (Forall2 (λ m s, s_Database s = db_Database m ∧ s_SizeBytes s = db_SizeBytes m ∧ tenth 1000 (s_Score s) ∧
    (inRecovery = false → xidFailsafeAge ≤ db_MaxXidAge m → (s_Score s <=? 30)%float = true)) metrics
    (ComputePerDB metrics w inRecovery)) as H.
  { unfold ComputePerDB. cbv zeta. apply Forall2_fmap_r. induction Hms as [|m metrics Hm Hms IH]; constructor; [|done].
    destruct (db_categories_ok m w inRecovery Hm Hw) as [Hn Hc].
    set (cats := db_categories m _ _) in *. cbn [s_Database s_SizeBytes s_Score].
    destruct (score_of_ok (total_penalty cats) (if inRecovery then 100%float else criticalXidCeiling (db_MaxXidAge m)))
      as [Ht Hfl].
    - apply total_penalty_number; [|done]. rewrite <-(length_fmap Name), Hn. cbn. lia.
    - unfold criticalXidCeiling. repeat case_match; auto.
    - split_and!; [done..|]. intros -> Hx. apply Hfl. unfold criticalXidCeiling. by rewrite (proj2 (Z.leb_le _ _) Hx). }
  split; [done|]. intros worst Hworst. apply WorstDatabase_least; [|done].
  clear Hworst. induction H as [|m s ms ss (_ & _ & Ht & _) H IH]; constructor.
  - by apply (within_nn _ 100), (tenth_within 1000).
  - apply IH. by apply Forall_cons in Hms as [_ Hms].
Qed.

Lemma score_bounded_witness :
  let m := healthy 1 1600000000 0 in
  Floored m = true ∧ (r_Score (CalculateWithWeights m DefaultWeights) <=? 30)%float = true.
Proof.
  cbv zeta. destruct (score_bounded (healthy 1 1600000000 0) DefaultWeights) as (_ & H & _).
  { constructor; (by vm_compute) || (split; vm_compute; discriminate). }
  split; [by vm_compute|]. apply H. by vm_compute.
Defined.

Definition sample_db (name : string) (hit : float) (xid : Z) : PerDBMetrics :=
  mkPerDB name 1000 hit 0 1 0 0 1 0 xid 0 0 0.

Lemma ComputePerDB_bounds_witness :
  let metrics := [sample_db "a" 99 5; sample_db "b" 80 5; sample_db "c" 99 1700000000] in
  s_Database <$> WorstDatabase (ComputePerDB metrics DefaultWeights false) = Some "c" ∧
  Forall2 (λ m s, s_Database s = db_Database m ∧ s_SizeBytes s = db_SizeBytes m ∧ tenth 1000 (s_Score s) ∧
    (false = false → xidFailsafeAge ≤ db_MaxXidAge m → (s_Score s <=? 30)%float = true)) metrics
    (ComputePerDB metrics DefaultWeights false).
Proof.
  cbv zeta. split; [by vm_compute|]. apply (ComputePerDB_bounds _ DefaultWeights false); [by vm_compute|].
  repeat constructor; (by vm_compute) || (vm_compute; discriminate).
Defined.

(** Weights whose sum overflows are accepted, and all become zero: whatever is wrong with
    an instance that nothing clamps, its score is 100. *)
Definition huge_weights : Weights := map_weights (λ _, 1e308%float) DefaultWeights.

Example overflowing_weights :
  let m := healthy 1 1500000000 0 in
  Validate huge_weights = true ∧ weight_values (Normalize huge_weights) = replicate 8 0%float ∧
  (r_Score (Calculate m) <? 100)%float = true ∧ r_Score (CalculateWithWeights m huge_weights) = 100%float.
Proof. by vm_compute. Qed.
