(* ===== verification/HealthRules.v ===== *)
(** * [internal/health]: the rules that recommend ([rules.go], [cold.go])

    A catalog of checks over the raw metrics of an instance, each with the severity it
    found, and their evaluation into a sorted list of recommendations. The texts live in
    the frontend. The quoting of an identifier is the database driver's. *)

From S2P Require Import Prelude GoFloat GoFloatOrder Health.
From stdpp Require Import options.

#[local] Open Scope string_scope.
#[local] Open Scope Z_scope.
#[local] Open Scope list_scope.

Inductive Severity := SeverityHigh | SeverityMedium | SeverityLow.

#[global] Instance Severity_eq_dec : EqDecision Severity.
Proof. solve_decision. Defined.

(** The empty severity is [None]. *)
Definition severityRank (s : option Severity) : Z :=
  match s with
  | Some SeverityHigh => 0
  | Some SeverityMedium => 1
  | Some SeverityLow => 2
  | None => 3
  end.

Definition severityForLevel (l : Level) : Severity :=
  match l with LevelError => SeverityHigh | LevelWarning => SeverityMedium | LevelNotice => SeverityLow end.

(** A value in the context of a hit. *)
Inductive scalar := SInt (z : Z) | SFloat (f : float) | SBool (b : bool) | SString (s : string).
Inductive any := AScalar (s : scalar) | AObjects (l : list (gmap string scalar)).

Record Hit := mkHit {
  h_Severity : Severity; MetricValue : float; h_Database : string; Context_ : gmap string any
}.

Record Rule := mkRule {
  ID : string; rule_Category : Category; RelatedRoute : string; Advisory : bool;
  rule_Evaluate : RawMetrics → option Hit
}.

Record Recommendation := mkRecommendation {
  RuleID : string; rec_Category : Category; rec_Severity : Severity; rec_MetricValue : float;
  rec_Database : string; rec_Context : gmap string any; rec_RelatedRoute : string; rec_Advisory : bool
}.

Definition instanceOnlyCategories (c : Category) : bool :=
  match c with
  | CategoryConnections | CategoryReplication | CategoryHorizon | CategoryWalCheckpoint | CategoryLocks => true
  | _ => false
  end.

Definition metricsInstanceWideRules : list string :=
  ["low_cache_hit_ratio"; "high_max_dead_ratio"; "high_avg_dead_ratio"; "low_hot_update_ratio";
   "xid_wraparound_risk"; "checksum_failures"; "host_disk_space"; "latency_regression"; "seq_scan_regression"].

Definition instanceScopeAggregateRules : list string := ["sequence_exhaustion"].

(** ** Severities *)

(** [severityFor] at a type whose [>=] is the converse of [leb]. *)
Definition severityFor_ {T} (leb : T → T → bool) (v high med low : T) : option Severity :=
  if leb high v then Some SeverityHigh
  else if leb med v then Some SeverityMedium
  else if leb low v then Some SeverityLow
  else None.

Definition severityFor : float → float → float → float → option Severity := severityFor_ PrimFloat.leb.
Definition severityForInt : Z → Z → Z → Z → option Severity := severityFor_ Z.leb.

Definition severityForBelow (v high med low : float) : option Severity :=
  if (v <? high)%float then Some SeverityHigh
  else if (v <? med)%float then Some SeverityMedium
  else if (v <? low)%float then Some SeverityLow
  else None.

(** A hit where there is a severity. *)
Definition graded (sev : option Severity) (value : float) : option Hit :=
  sev ← sev; Some (mkHit sev value "" ∅).

Definition graded_in (database : string) (sev : option Severity) (value : float) : option Hit :=
  sev ← sev; Some (mkHit sev value database ∅).

Definition graded_with (context : list (string * any)) (sev : option Severity) (value : float) : option Hit :=
  sev ← sev; Some (mkHit sev value "" (list_to_map context)).

Definition AInt (z : Z) : any := AScalar (SInt z).

(** ** The catalog *)

Class Identifier := Sanitize : list string → string.

Section registry.
  Context `{Identifier}.

Definition cold_context (c : ColdFacts) (t0 : ColdMaintenanceTable) : gmap string any :=
  list_to_map [
    ("window_days", AInt (WindowDays c));
    ("worst", AScalar (SString (Sanitize [ct_Schema t0; ct_Table t0])));
    ("objects", AObjects ((λ t, list_to_map [
      ("schema", SString (ct_Schema t));
      ("table", SString (ct_Table t));
      ("size_bytes", SInt (ct_SizeBytes t));
      ("dead_ratio", SFloat (round_to 10 (ct_DeadRatio t)));
      ("never_vacuumed", SBool (ct_NeverVacuumed t));
      ("relfrozenxid_age", SInt (ct_RelfrozenxidAge t));
      ("no_writes_days", SInt (ct_NoWritesDays t))]) <$> Tables c));
    ("more", AInt (More c))].

Definition coldFreezeSeverity (m : RawMetrics) : option Severity :=
  if xidFailsafeAge <=? ColdMaxRelfrozenxidAge m then Some SeverityHigh
  else severityFor (ColdFreezeRatio m) infinity 1.0 0.9.

Definition high_connection_ratio (m : RawMetrics) : option Hit :=
  if MaxConnections m =? 0 then None
  else
    let ratio := (to_float (TotalConnections m) / to_float (MaxConnections m))%float in
    graded_with [("total", AInt (TotalConnections m)); ("max_connections", AInt (MaxConnections m))]
      (severityFor ratio 0.95 0.80 0.60) ratio.

Definition low_cache_hit_ratio (m : RawMetrics) : option Hit :=
  if negb (cacheHitRatioMeaningful m) then None
  else graded (severityForBelow (CacheHitRatio m) 85 90 95) (CacheHitRatio m).

Definition replication_lag_time (m : RawMetrics) : option Hit :=
  if ReplicaCount m =? 0 then None
  else graded (severityFor (MaxReplayLagSeconds m) 30 5 1) (MaxReplayLagSeconds m).

Definition replication_lag_bytes (m : RawMetrics) : option Hit :=
  if ReplicaCount m =? 0 then None
  else
    let mb := (to_float (MaxLagBytes m) / 1048576)%float in
    graded (severityFor mb 1024 100 10) (to_float (MaxLagBytes m)).

Definition disconnected_replicas (m : RawMetrics) : option Hit :=
  if DisconnectedReplicas m =? 0 then None
  else
    let sev := if 2 <=? DisconnectedReplicas m then SeverityHigh else SeverityMedium in
    graded (Some sev) (to_float (DisconnectedReplicas m)).

Definition relfrozenxid_age_outlier (m : RawMetrics) : option Hit :=
  let sev := severityForInt (MaxRelfrozenxidAge m) xidFailsafeAge xidFreezeMaxAge xidFreezeTableAge in
  let cold := coldFreezeSeverity m in
  if bool_decide (cold ≠ None) && (severityRank cold <? severityRank sev) then
    graded_with [("cold", AScalar (SBool true)); ("freeze_ratio", AScalar (SFloat (round_to 100 (ColdFreezeRatio m))))]
      cold (to_float (ColdMaxRelfrozenxidAge m))
  else graded sev (to_float (MaxRelfrozenxidAge m)).

Definition cold_tables_maintenance (m : RawMetrics) : option Hit :=
  match Cold m with
  | Some c =>
      match Tables c with
      | [] => None
      | t0 :: _ => Some (mkHit SeverityLow (to_float (add64 (Z.of_nat (length (Tables c))) (More c))) "" (cold_context c t0))
      end
  | None => None
  end.

Definition requested_checkpoint_ratio (m : RawMetrics) : option Hit :=
  let total := add64 (TimedCheckpoints m) (RequestedCheckpoints m) in
  if total <? 10 then None
  else
    let ratio := (to_float (RequestedCheckpoints m) / to_float total)%float in
    graded_with [("timed", AInt (TimedCheckpoints m)); ("requested", AInt (RequestedCheckpoints m))]
      (severityFor ratio 0.20 0.10 0.05) ratio.

Definition lock_pool_saturation (m : RawMetrics) : option Hit :=
  if (MaxLocksPerTransaction m <=? 0) || (MaxConnections m <=? 0) then None
  else
    let capacity := (to_float (MaxLocksPerTransaction m) * to_float (MaxConnections m))%float in
    if (capacity <=? 0)%float then None
    else
      let ratio := (to_float (HeavyweightLocksTotal m) / capacity)%float in
      graded_with [("total", AInt (HeavyweightLocksTotal m)); ("capacity", AInt (to_int capacity))]
        (severityFor ratio 0.8 0.6 0.5) ratio.

Definition wal_level_minimal_with_replicas (m : RawMetrics) : option Hit :=
  if negb (bool_decide (WalLevel m = "minimal")) || (ReplicaCount m =? 0) then None
  else graded_with [("replicas", AInt (ReplicaCount m))] (Some SeverityHigh) (to_float (ReplicaCount m)).

Definition wal_level_logical_without_publications (m : RawMetrics) : option Hit :=
  if negb (bool_decide (WalLevel m = "logical")) || (0 <? LogicalSlotsActive m) || WalLevelManaged m then None
  else graded (Some SeverityLow) 0.

Definition host_cpu_saturation (m : RawMetrics) : option Hit :=
  if (NumVCPU m <=? 0)%float then None
  else let sat := (LoadAvg15 m / NumVCPU m)%float in graded (severityFor sat 4 2 1) sat.

Definition pooler_saturation (m : RawMetrics) : option Hit :=
  if (PoolerPoolSize m <=? 0)%float then None
  else let sat := (PoolerServerConns m / PoolerPoolSize m)%float in graded (severityFor sat 0.8 0.6 0.5) sat.

Definition sequence_exhaustion (m : RawMetrics) : option Hit :=
  level ← LevelForFreePct (freePctOf (SequenceExhaustionMax m)) (SequenceThresholds m);
  Some (mkHit (severityForLevel level) (SequenceExhaustionMax m) "" ∅).

(** Flags: a hit of one severity while a setting is off, or a count is positive. *)
Definition unless (b : bool) (sev : Severity) (value : float) : option Hit :=
  if b then None else graded (Some sev) value.

Definition Registry : list Rule := [
  mkRule "high_connection_ratio" CategoryConnections "/queries" false high_connection_ratio;
  mkRule "idle_in_transaction" CategoryConnections "/queries" false (λ m,
    graded_in (IdleInTransactionDatabase m) (severityForInt (IdleInTransaction m) 10 5 2) (to_float (IdleInTransaction m)));
  mkRule "long_running_transaction" CategoryConnections "/queries" false (λ m,
    graded_in (LongestTransactionDatabase m) (severityFor (LongestTransactionSeconds m) 1800 600 300)
      (LongestTransactionSeconds m));
  mkRule "low_cache_hit_ratio" CategoryPerformance "/tables" false low_cache_hit_ratio;
  mkRule "high_max_dead_ratio" CategoryStorage "/tables" false (λ m,
    graded (severityFor (MaxDeadRatio m) 30 20 10) (MaxDeadRatio m));
  mkRule "high_avg_dead_ratio" CategoryStorage "/tables" false (λ m,
    graded (severityFor (AvgDeadRatio m) 25 15 5) (AvgDeadRatio m));
  mkRule "many_bloated_tables" CategoryStorage "/tables" false (λ m,
    graded (severityForInt (TablesHighBloat m) 20 10 5) (to_float (TablesHighBloat m)));
  mkRule "replication_lag_time" CategoryReplication "/replication" false replication_lag_time;
  mkRule "replication_lag_bytes" CategoryReplication "/replication" false replication_lag_bytes;
  mkRule "disconnected_replicas" CategoryReplication "/replication" false disconnected_replicas;
  mkRule "xid_wraparound_risk" CategoryMaintenance "/maintenance" false (λ m,
    graded (severityForInt (MaxXidAge m) xidFailsafeAge xidFreezeMaxAge xidFreezeTableAge) (to_float (MaxXidAge m)));
  mkRule "stale_vacuum" CategoryMaintenance "/maintenance" false (λ m,
    graded (severityFor (MaxOverdueVacuumAgeHours m / 24) 60 21 7) (MaxOverdueVacuumAgeHours m));
  mkRule "vacuum_backlog" CategoryMaintenance "/maintenance" false (λ m,
    graded (severityForInt (VacuumBacklogTables m) 30 15 6) (to_float (VacuumBacklogTables m)));
  mkRule "tables_never_vacuumed" CategoryMaintenance "/maintenance" false (λ m,
    graded (severityForInt (TablesNeverVacuumed m) 5 2 1) (to_float (TablesNeverVacuumed m)));
  mkRule "autovacuum_disabled" CategoryMaintenance "/maintenance" false (λ m,
    unless (AutovacuumEnabled m) SeverityHigh 0);
  mkRule "track_counts_disabled" CategoryMaintenance "/maintenance" false (λ m,
    unless (TrackCountsEnabled m) SeverityHigh 0);
  mkRule "tables_with_autovacuum_off" CategoryMaintenance "/maintenance" false (λ m,
    unless (TablesWithAutovacuumOff m <=? 0) SeverityLow (to_float (TablesWithAutovacuumOff m)));
  mkRule "relfrozenxid_age_outlier" CategoryMaintenance "/maintenance" false relfrozenxid_age_outlier;
  mkRule "cold_tables_maintenance" CategoryMaintenance "/maintenance" true cold_tables_maintenance;
  mkRule "horizon_lag_xids" CategoryHorizon "/queries" false (λ m,
    let lag := to_float (HorizonLagXids m) in
    graded_in (HorizonDatabase m) (severityFor lag 100000000 10000000 1000000) lag);
  mkRule "requested_checkpoint_ratio" CategoryWalCheckpoint "/maintenance" false requested_checkpoint_ratio;
  mkRule "track_io_timing_disabled" CategoryPerformance "/settings" false (λ m,
    unless (TrackIoTimingEnabled m) SeverityLow 0);
  mkRule "active_lock_waiters" CategoryLocks "/locks" false (λ m,
    graded (severityForInt (ActiveLockWaiters m) 10 3 1) (to_float (ActiveLockWaiters m)));
  mkRule "longest_lock_wait_seconds" CategoryLocks "/locks" false (λ m,
    graded (severityFor (LongestLockWaitSeconds m) 60 30 10) (LongestLockWaitSeconds m));
  mkRule "ungranted_locks" CategoryLocks "/locks" false (λ m,
    graded (severityForInt (UngrantedLocks m) 15 5 2) (to_float (UngrantedLocks m)));
  mkRule "deadlocks_rate" CategoryLocks "/locks" false (λ m,
    unless (DeadlocksTotal m <=? 0) SeverityLow (to_float (DeadlocksTotal m)));
  mkRule "lock_pool_saturation" CategoryLocks "/locks" false lock_pool_saturation;
  mkRule "low_hot_update_ratio" CategoryStorage "/tables" false (λ m,
    graded (severityForBelow (HotUpdateRatio m) 0.50 0.65 0.80) (HotUpdateRatio m));
  mkRule "high_newpage_update_ratio" CategoryStorage "/tables" false (λ m,
    graded (severityFor (NewpageUpdateRatio m) 0.20 0.10 0.05) (NewpageUpdateRatio m));
  mkRule "stale_planner_stats" CategoryMaintenance "/maintenance" false (λ m,
    graded (severityForInt (StalePlannerStatsTables m) 10 5 3) (to_float (StalePlannerStatsTables m)));
  mkRule "wal_level_minimal_with_replicas" CategoryWalCheckpoint "/replication" false wal_level_minimal_with_replicas;
  mkRule "wal_level_logical_without_publications" CategoryWalCheckpoint "/replication" false
    wal_level_logical_without_publications;
  mkRule "checksum_failures" CategoryStorage "/home" false (λ m,
    unless (ChecksumFailuresRate m <=? 0)%float SeverityHigh (ChecksumFailuresRate m));
  mkRule "host_cpu_saturation" CategoryConnections "/queries" false host_cpu_saturation;
  mkRule "pooler_saturation" CategoryConnections "/connections" false pooler_saturation;
  mkRule "sequence_exhaustion" CategoryStorage "/schema-lint" false sequence_exhaustion;
  mkRule "latency_regression" CategoryPerformance "/queries" false (λ m,
    graded (severityFor (LatencyRegressionRatio m) 6 3 1.5) (LatencyRegressionRatio m));
  mkRule "seq_scan_regression" CategoryPerformance "/indexes-usage" false (λ m,
    graded (severityFor (SeqScanRegressionRatio m) 6 3 1.5) (SeqScanRegressionRatio m));
  mkRule "host_disk_space" CategoryStorage "/tables" false (λ m,
    graded (severityFor (DiskUsedRatio m) diskUsedCritical 0.80 0.70) (DiskUsedRatio m))
].

(** ** Evaluation *)

Definition databaseOf (m : RawMetrics) (r : Rule) (hit : Hit) (databaseScoped : bool) : string :=
  if decide (h_Database hit ≠ "") then h_Database hit
  else if instanceOnlyCategories (rule_Category r) then ""
  else if negb databaseScoped && bool_decide (ID r ∈ instanceScopeAggregateRules) then ""
  else if MetricsInstanceWide m && bool_decide (ID r ∈ metricsInstanceWideRules)
          && negb (default false (SnapshotBackedRules m !! ID r)) then ""
  else Database m.

(** The rules an evaluation runs. *)
Definition applies (m : RawMetrics) (databaseScoped : bool) (r : Rule) : bool :=
  negb (databaseScoped && instanceOnlyCategories (rule_Category r))
  && negb (InRecovery m && bool_decide (rule_Category r = CategoryMaintenance)).

Definition recommendation (m : RawMetrics) (databaseScoped : bool) (r : Rule) (hit : Hit) : Recommendation :=
  mkRecommendation (ID r) (rule_Category r) (h_Severity hit) (MetricValue hit) (databaseOf m r hit databaseScoped)
    (Context_ hit) (RelatedRoute r) (Advisory r).

Definition by_severity : Recommendation → Recommendation → bool :=
  lex_less (less_on (λ r, severityRank (Some (rec_Severity r))) Z.ltb) (less_on RuleID str_ltb).

(** The recommendations in the order of the catalog. *)
Definition hits (m : RawMetrics) (databaseScoped : bool) : list Recommendation :=
  omap (λ r, if applies m databaseScoped r then recommendation m databaseScoped r <$> rule_Evaluate r m else None)
    Registry.

Definition Evaluate (m : RawMetrics) (databaseScoped : bool) : list Recommendation :=
  sort_stable by_severity (hits m databaseScoped).

End registry.

(** ** The list of recommendations *)

Section evaluate.
  Context `{Identifier} (m : RawMetrics) (databaseScoped : bool).

#[local] Abbreviation hits := (hits m databaseScoped).

Lemma Registry_distinct : NoDup (ID <$> Registry).
Proof using. unfold Registry. cbn [fmap list_fmap ID]. apply (bool_decide_unpack _). by vm_compute. Qed.

Lemma hits_spec rec : rec ∈ hits ↔ ∃ r hit, r ∈ Registry ∧ applies m databaseScoped r = true ∧
  rule_Evaluate r m = Some hit ∧ rec = recommendation m databaseScoped r hit.
Proof using.
  unfold HealthRules.hits. rewrite list_elem_of_omap. split.
  - intros (r & Hr & Hrec). destruct (applies m databaseScoped r) eqn:Ha; [|done].
    apply fmap_Some in Hrec as (hit & Hh & ->). eauto 10.
  - intros (r & hit & Hr & Ha & Hh & ->). exists r. by rewrite Ha, Hh.
Qed.

Lemma hits_distinct : NoDup (RuleID <$> hits).
Proof using.
  unfold HealthRules.hits. generalize Registry_distinct. generalize Registry. intros l. induction l as [|r l IH]; [constructor|].
  rewrite fmap_cons, NoDup_cons. intros [Hr Hl]. cbn [omap list_omap].
  destruct (applies m databaseScoped r); [|by apply IH]. destruct (rule_Evaluate r m) as [hit|]; cbn; [|by apply IH].
  apply NoDup_cons. split; [|by apply IH]. intros Hin. apply Hr.
  apply list_elem_of_fmap in Hin as (rec & Heq & Hin). apply list_elem_of_omap in Hin as (r' & Hr' & Hrec).
  destruct (applies m databaseScoped r'); [|done]. apply fmap_Some in Hrec as (h' & _ & ->). cbn in Heq.
  rewrite Heq. by apply list_elem_of_fmap_2.
Qed.

Lemma Evaluate_hits rec : rec ∈ Evaluate m databaseScoped ↔ rec ∈ hits.
Proof using.
  unfold Evaluate. generalize hits. intros l. by rewrite sort_stable_perm.
Qed.

Lemma Evaluate_sorted : strictly by_severity (Evaluate m databaseScoped).
Proof using.
  unfold Evaluate. generalize hits_distinct. generalize hits.
  intros l. apply (sort_stable_strictly _ RuleID).
Qed.

(** With a finding of the highest severity in the list, the first one is such a finding. *)
Lemma Evaluate_head rec : rec ∈ hits → rec_Severity rec = SeverityHigh →
  ∃ first, head (Evaluate m databaseScoped) = Some first ∧ rec_Severity first = SeverityHigh.
Proof using.
  intros Hin Hsev. apply Evaluate_hits in Hin. pose proof Evaluate_sorted as Hs.
  destruct (Evaluate m databaseScoped) as [|first rest]; [by apply elem_of_nil in Hin|].
  exists first. split; [done|]. apply elem_of_cons in Hin as [->|Hin]; [done|].
  apply StronglySorted_inv in Hs as [_ Hs]. rewrite list.Forall_forall in Hs. specialize (Hs rec Hin).
  unfold by_severity, lex_less, less_on in Hs. rewrite Hsev in Hs. by destruct (rec_Severity first).
Qed.

(** A rule of the catalog, by its place, that hits with the highest severity. *)
Lemma fires_high i r hit : Registry !! i = Some r → applies m databaseScoped r = true →
  rule_Evaluate r m = Some hit → h_Severity hit = SeverityHigh →
  ∃ first, head (Evaluate m databaseScoped) = Some first ∧ rec_Severity first = SeverityHigh.
Proof using.
  intros Hr Ha Hh Hs. apply (Evaluate_head (recommendation m databaseScoped r hit)); [|done].
  apply hits_spec. exists r, hit. split; [by eapply list_elem_of_lookup_2|done].
Qed.

Lemma storage_applies r : rule_Category r = CategoryStorage → applies m databaseScoped r = true.
Proof using. intros Hc. unfold applies. rewrite Hc. cbn. by rewrite !andb_false_r. Qed.

Lemma maintenance_applies r : rule_Category r = CategoryMaintenance → InRecovery m = false →
  applies m databaseScoped r = true.
Proof using. intros Hc Hr. unfold applies. rewrite Hc, Hr. cbn. by rewrite andb_false_r. Qed.

Lemma severityForInt_high v high med low : high ≤ v → severityForInt v high med low = Some SeverityHigh.
Proof using. intros Hv. unfold severityForInt, severityFor_. by rewrite (proj2 (Z.leb_le _ _) Hv). Qed.

Lemma relfrozenxid_high : xidFailsafeAge ≤ MaxRelfrozenxidAge m →
  relfrozenxid_age_outlier m = Some (mkHit SeverityHigh (to_float (MaxRelfrozenxidAge m)) "" ∅).
Proof using.
  intros Hx. unfold relfrozenxid_age_outlier. rewrite severityForInt_high by done. cbv zeta.
  destruct (coldFreezeSeverity m) as [[]|]; cbn; by rewrite ?andb_false_r.
Qed.

End evaluate.

(** The list of recommendations has exactly one entry for each rule of the catalog that
    applies and hits, with what the rule says, the worst first and in the order of the ids
    within a severity. *)
Theorem Evaluate_exact `{Identifier} m databaseScoped :
  (∀ rec, rec ∈ Evaluate m databaseScoped ↔ ∃ r hit, r ∈ Registry ∧ applies m databaseScoped r = true ∧
    rule_Evaluate r m = Some hit ∧ rec = recommendation m databaseScoped r hit) ∧
  NoDup (RuleID <$> Evaluate m databaseScoped) ∧ strictly by_severity (Evaluate m databaseScoped).
Proof.
  split_and!.
  - intros rec. by rewrite Evaluate_hits, hits_spec.
  - unfold Evaluate. generalize (hits_distinct m databaseScoped). generalize (hits m databaseScoped). intros l.
    by rewrite sort_stable_perm.
  - apply Evaluate_sorted.
Qed.

(** C23: A score that is clamped for a catastrophic condition is explained: the list of
    recommendations, of the instance or of a database, opens with one of high severity. *)
Theorem floor_explained `{Identifier} m databaseScoped : Floored m = true →
  ∃ first, head (Evaluate m databaseScoped) = Some first ∧ rec_Severity first = SeverityHigh.
Proof.
  unfold Floored, criticalCeiling. destruct (0 <? ChecksumFailuresRate m)%float eqn:Hck.
  { intros _. eapply (fires_high _ _ 32%nat); [reflexivity|by apply storage_applies| |].
    - cbn. unfold unless. by rewrite (ltb_not_leb _ _ Hck).
    - done. }
  destruct (diskUsedCritical <=? DiskUsedRatio m)%float eqn:Hdisk.
  { intros _. eapply (fires_high _ _ 38%nat); [reflexivity|by apply storage_applies| |].
    - cbn. unfold severityFor, severityFor_. by rewrite Hdisk.
    - done. }
  destruct (InRecovery m) eqn:Hrec; [done|]. cbv zeta. unfold criticalXidCeiling.
  destruct (Z.leb_spec xidFailsafeAge (Z.max (MaxRelfrozenxidAge m) (MaxXidAge m))) as [Hx|_].
  { intros _. destruct (decide (xidFailsafeAge ≤ MaxXidAge m)) as [Hm|Hm].
    - eapply (fires_high _ _ 10%nat); [reflexivity|by apply maintenance_applies| |].
      + cbn. by rewrite severityForInt_high.
      + done.
    - eapply (fires_high _ _ 17%nat); [reflexivity|by apply maintenance_applies| |].
      + apply relfrozenxid_high. lia.
      + done. }
  change (100 <? 100)%float with false. cbv iota. destruct (AutovacuumEnabled m) eqn:Hav; cbn [negb orb].
  2: { intros _. eapply (fires_high _ _ 14%nat); [reflexivity|by apply maintenance_applies| |].
    - cbn. unfold unless. by rewrite Hav.
    - done. }
  destruct (TrackCountsEnabled m) eqn:Htc; cbn [negb].
  2: { intros _. eapply (fires_high _ _ 15%nat); [reflexivity|by apply maintenance_applies| |].
    - cbn. unfold unless. by rewrite Htc.
    - done. }
  case_decide as Hseq; [|done]. intros _. eapply (fires_high _ _ 35%nat); [reflexivity|by apply storage_applies| |].
  - cbn. unfold sequence_exhaustion. by rewrite Hseq.
  - done.
Qed.

(** ** On concrete instances *)

(** Identifiers in double quotes, which [pgx] would double inside. *)
#[local] Instance quoted : Identifier := λ parts,
  let quote := String (Ascii.ascii_of_nat 34) EmptyString in
  String.concat "." ((λ p, (quote +:+ p +:+ quote)%string) <$> parts).

Lemma floor_explained_witness :
  let m := healthy 1 1600000000 0.99 in
  Floored m = true ∧ RuleID <$> Evaluate m false = ["sequence_exhaustion"; "xid_wraparound_risk"] ∧
  ∃ first, head (Evaluate m true) = Some first ∧ rec_Severity first = SeverityHigh.
Proof.
  cbv zeta. split; [by vm_compute|]. split; [by vm_compute|]. apply (floor_explained (healthy 1 1600000000 0.99) true).
  by vm_compute.
Defined.

(** An age of transaction ids that is reported does not always move the score. *)
Example unscored_recommendation :
  let m := healthy 1 160000000 0 in
  (λ r, (RuleID r, rec_Severity r, rec_Advisory r)) <$> Evaluate m false = [("xid_wraparound_risk", SeverityLow, false)] ∧
  r_Score (Calculate m) = 100%float.
Proof. by vm_compute. Qed.

(** The database is named in a snapshot, and not for a rule a datasource fed. *)
Example databases_named :
  let m := healthy 1 160000000 0.9 in
  (λ r, (RuleID r, rec_Database r)) <$> Evaluate m false = [("sequence_exhaustion", ""); ("xid_wraparound_risk", "app")] ∧
  (λ r, (RuleID r, rec_Database r)) <$> Evaluate m true = [("sequence_exhaustion", "app"); ("xid_wraparound_risk", "app")].
Proof. by vm_compute. Qed.
