(* ===== verification/IndexAdvice.v ===== *)
(** * [internal/indexadvice]: verdicts on existing indexes

    The scan counters of an index, read on every host of a cluster, are summed per host
    over the partitions the index has, and the sums turned into a verdict on dropping it. *)

From S2P Require Import Prelude GoSlices GoFloat GoFloatOrder GoFmt.
From stdpp Require Import pretty.
From stdpp Require Import options.

#[local] Open Scope string_scope.
#[local] Open Scope Z_scope.
#[local] Open Scope list_scope.

(** ** Data *)

Inductive Verdict :=
  | VerdictDropCandidate | VerdictUsed | VerdictStaleEvidence | VerdictInsufficientData | VerdictUnknown.

Inductive ReasonCode :=
  | ReasonUnreachableHosts | ReasonNoEvidence | ReasonUsedOnReplicaOnly | ReasonUsed | ReasonWindowTooShort
  | ReasonFewScans | ReasonNeverScanned.

Inductive NoteCode := NoteStatsResetNever | NotePartitioned.

Record Thresholds := mkThresholds { MinWindowDays : float; UsedScansPerDay : float }.

Definition DefaultMinWindowDays : float := 7.
Definition DefaultUsedScansPerDay : float := 0.1.

Definition withDefaults (t : Thresholds) : Thresholds := {|
  MinWindowDays := if (MinWindowDays t <=? 0)%float then DefaultMinWindowDays else MinWindowDays t;
  UsedScansPerDay := if (UsedScansPerDay t <=? 0)%float then DefaultUsedScansPerDay else UsedScansPerDay t
|}.

Record HostRate := mkRate { hr_Instance : string; hr_ScansPerDay : float }.

Record ReasonParams := mkParams {
  Hosts : list string; UsedOn : list HostRate; p_WindowDays : float; p_MinWindowDays : float; TotalScans : Z;
  HostCount : Z; p_Partitions : Z
}.
Definition no_params : ReasonParams := mkParams [] [] 0 0 0 0 0.

Record Reason := mkReason { Code : ReasonCode; Notes : list NoteCode; Params : ReasonParams }.

Definition reasonOf (code : ReasonCode) (p : ReasonParams) : Reason := mkReason code [] p.

Record HostUsage := mkUsage {
  hu_Instance : string; hu_InRecovery : bool; hu_IndexScans : Z; hu_WindowDays : float; hu_ScansPerDay : float;
  StatsResetKnown : bool
}.

Record IndexReport := mkReport {
  ir_Schema : string; ir_Table : string; ir_Index : string; Partitioned : bool; ir_Partitions : Z; ir_SizeBytes : Z;
  ir_Verdict : Verdict; ir_Reason : Reason; ReasonText : string; PerInstance : list HostUsage
}.

(** [dto.IndexScanSample] and what holds it. *)
Record IndexScanSample := mkSample {
  s_Schema : string; s_Table : string; s_Index : string; RootSchema : string; RootIndex : string; RootTable : string;
  IsPartitioned : bool; SizeBytes : Z; IndexScans : Z; StatsReset : option time; WindowDays : float; InRecovery : bool
}.
Record IndexHostSample := mkHostSample { Instance : string; Sample : IndexScanSample }.
Record IndexClusterScans := mkScans { Samples : list IndexHostSample; Unreachable : list string }.

(** ** The explanation in English *)

Definition hostRates (hs : list HostRate) : string :=
  strings_Join ((λ h, hr_Instance h +:+ " (" +:+ fmt_fixed 1 (hr_ScansPerDay h) +:+ " scans/day)") <$> hs) ", ".

Definition baseText (r : Reason) : string :=
  let p := Params r in
  match Code r with
  | ReasonUnreachableHosts =>
      "cannot judge: " +:+ strings_Join (Hosts p) ", " +:+ " unreachable. idx_scan is per-instance and is not replicated, " +:+
      "so an index idle on the hosts we did read may be serving reads on the one we did not."
  | ReasonNoEvidence => "no host reported this index."
  | ReasonUsedOnReplicaOnly =>
      "keep: idle on the primary but used on " +:+ hostRates (UsedOn p) +:+ ". Replica scan counters are not " +:+
      "replicated back — dropping it would break replica reads."
  | ReasonUsed => "keep: used on " +:+ hostRates (UsedOn p) +:+ "."
  | ReasonWindowTooShort =>
      "the shortest statistics window is " +:+ fmt_fixed 1 (p_WindowDays p) +:+ " day(s), below the " +:+
      fmt_fixed 0 (p_MinWindowDays p) +:+ "-day minimum — " +:+
      "wait until it covers a full business cycle (a monthly report can be the only user of an index)."
  | ReasonFewScans =>
      pretty (TotalScans p) +:+ " scan(s) over " +:+ fmt_fixed 0 (p_WindowDays p) +:+
      " day(s) — too few to call it used, but they may be recent: " +:+
      "the counter cannot say WHEN. Run pg_stat_reset() and re-check after a full business cycle."
  | ReasonNeverScanned =>
      "zero scans on all " +:+ pretty (HostCount p) +:+ " host(s) over " +:+ fmt_fixed 0 (p_WindowDays p) +:+ " day(s)."
  end.

Definition noteText (r : Reason) (n : NoteCode) : string :=
  match n with
  | NoteStatsResetNever =>
      "Note: pg_stat_reset() was never called, so this window is only a lower bound taken " +:+
      "from postmaster uptime — the counters may span much longer (they survive a clean restart), or the " +:+
      "statistics may have been lost on a crash. Call pg_stat_reset() to establish a window you can trust."
  | NotePartitioned =>
      "This is a partitioned index: the scans of its " +:+ pretty (p_Partitions (Params r)) +:+
      " per-partition child indexes are summed here, " +:+
      "and a DROP must target this parent — PostgreSQL refuses to drop a child and points here instead, " +:+
      "which removes the index from EVERY partition. A cold partition with zero scans is partition " +:+
      "pruning working, not a dead index."
  end.

Definition Text (r : Reason) : string := strings_Join (baseText r :: (noteText r <$> Notes r)) " ".

(** ** The verdict *)

Definition minWindowFloor : float := 1 / 24.

Definition scansPerDay (scans : Z) (windowDays : float) : float := (to_float scans / go_max windowDays minWindowFloor)%float.

Record tally := mkTally {
  t_usedOn : list HostRate; usedOnPrim : bool; t_totalScans : Z; windowGuess : bool; minWindow : float
}.

Definition decide_step (th : Thresholds) (t : tally) (h : HostUsage) : tally :=
  let busy := (UsedScansPerDay th <? hu_ScansPerDay h)%float in
  {| t_usedOn := if busy then t_usedOn t ++ [mkRate (hu_Instance h) (hu_ScansPerDay h)] else t_usedOn t;
     usedOnPrim := if busy && negb (hu_InRecovery h) then true else usedOnPrim t;
     t_totalScans := t_totalScans t ⊞ hu_IndexScans h;
     windowGuess := if negb (StatsResetKnown h) then true else windowGuess t;
     minWindow := go_min (minWindow t) (hu_WindowDays h) |}.

Definition withWindowNote (guess : bool) (r : Reason) : Reason :=
  if guess then mkReason (Code r) (Notes r ++ [NoteStatsResetNever]) (Params r) else r.

Definition decide (hosts : list HostUsage) (unreachable : list string) (th : Thresholds) : Verdict * Reason :=
  if bool_decide (unreachable ≠ []) then
    (VerdictUnknown, reasonOf ReasonUnreachableHosts (mkParams unreachable [] 0 0 0 0 0))
  else
    match hosts with
    | [] => (VerdictUnknown, reasonOf ReasonNoEvidence no_params)
    | h0 :: _ =>
        let t := foldl (decide_step th) (mkTally [] false 0 false (hu_WindowDays h0)) hosts in
        if bool_decide (t_usedOn t ≠ []) && negb (usedOnPrim t) then
          (VerdictUsed, reasonOf ReasonUsedOnReplicaOnly (mkParams [] (t_usedOn t) 0 0 0 0 0))
        else if bool_decide (t_usedOn t ≠ []) then
          (VerdictUsed, reasonOf ReasonUsed (mkParams [] (t_usedOn t) 0 0 0 0 0))
        else if (minWindow t <? MinWindowDays th)%float then
          (VerdictInsufficientData, withWindowNote (windowGuess t)
             (reasonOf ReasonWindowTooShort (mkParams [] [] (minWindow t) (MinWindowDays th) 0 0 0)))
        else if 0 <? t_totalScans t then
          (VerdictStaleEvidence, reasonOf ReasonFewScans (mkParams [] [] (minWindow t) 0 (t_totalScans t) 0 0))
        else
          (VerdictDropCandidate, withWindowNote (windowGuess t)
             (reasonOf ReasonNeverScanned (mkParams [] [] (minWindow t) 0 0 (Z.of_nat (length hosts)) 0)))
    end.

(** ** The report *)

Record hostAgg := mkHostAgg {
  scans : Z; size : Z; windowDays : float; inRecovery : bool; statsKnown : bool
}.
Record rootAgg := mkRootAgg {
  schema : string; table : string; index : string; partitioned : bool; children : gset string;
  hosts : gmap string hostAgg; hostOrder : list string
}.

Definition root_key (hs : IndexHostSample) : string * string := (RootSchema (Sample hs), RootIndex (Sample hs)).

Definition new_root (hs : IndexHostSample) : rootAgg :=
  let s := Sample hs in mkRootAgg (RootSchema s) (RootTable s) (RootIndex s) (IsPartitioned s) ∅ ∅ [].

Definition new_host (hs : IndexHostSample) : hostAgg :=
  let s := Sample hs in mkHostAgg 0 0 (WindowDays s) (InRecovery s) (bool_decide (is_Some (StatsReset s))).

Definition add_host (h : hostAgg) (hs : IndexHostSample) : hostAgg :=
  mkHostAgg (scans h ⊞ IndexScans (Sample hs)) (size h ⊞ SizeBytes (Sample hs)) (windowDays h) (inRecovery h) (statsKnown h).

Definition add_sample (r : rootAgg) (hs : IndexHostSample) : rootAgg :=
  let s := Sample hs in
  let '(order, hm) := group_step Instance new_host add_host (hostOrder r, hosts r) hs in
  mkRootAgg (schema r) (table r) (index r) (partitioned r) ({[s_Schema s +:+ "." +:+ s_Index s]} ∪ children r) hm order.

Definition usage_of (inst : string) (h : hostAgg) : HostUsage :=
  mkUsage inst (inRecovery h) (scans h) (windowDays h) (scansPerDay (scans h) (windowDays h)) (statsKnown h).

Definition host_list (r : rootAgg) : list (string * hostAgg) :=
  omap (λ inst, (λ h, (inst, h)) <$> hosts r !! inst) (hostOrder r).

Definition report_of (unreachable : list string) (th : Thresholds) (r : rootAgg) : IndexReport :=
  let size := foldl (λ acc ih, Z.max acc (size ih.2)) 0 (host_list r) in
  let hus := (λ ih, usage_of ih.1 ih.2) <$> host_list r in
  let '(verdict, reason) := decide hus unreachable th in
  let partitions := if partitioned r then Z.of_nat (base.size (children r)) else 0 in
  let reason :=
    if partitioned r then
      let p := Params reason in
      mkReason (Code reason) (Notes reason ++ [NotePartitioned])
        (mkParams (Hosts p) (UsedOn p) (p_WindowDays p) (p_MinWindowDays p) (TotalScans p) (HostCount p) partitions)
    else reason in
  mkReport (schema r) (table r) (index r) (partitioned r) partitions size verdict reason (Text reason) hus.

Definition Report (sc : IndexClusterScans) (th : Thresholds) : list IndexReport :=
  let th := withDefaults th in
  let '(order, roots) := group root_key new_root add_sample (Samples sc) in
  omap (λ k, report_of (Unreachable sc) th <$> roots !! k) order.

(** ** What the report holds, from the samples alone

    The samples of one host for one root come first; then the host's evidence; then the
    report on the root. *)

Definition samples_of (sc : IndexClusterScans) (k : string * string) : list IndexHostSample :=
  members root_key k (Samples sc).

Definition on_host (inst : string) (l : list IndexHostSample) : list IndexHostSample := members Instance inst l.

Definition total (f : IndexScanSample → Z) (l : list IndexHostSample) : Z := wrap64 (sumZ ((f ∘ Sample) <$> l)).

Definition evidence (l : list IndexHostSample) (inst : string) : option HostUsage :=
  f ← head (on_host inst l);
  let scans := total IndexScans (on_host inst l) in
  let w := WindowDays (Sample f) in
  Some (mkUsage inst (InRecovery (Sample f)) scans w (scansPerDay scans w) (bool_decide (is_Some (StatsReset (Sample f))))).

Record describes (sc : IndexClusterScans) (th : Thresholds) (k : string * string) (r : IndexReport) : Prop := {
  about_root : (ir_Schema r, ir_Index r) = k;
  first_sample : ∃ f, head (samples_of sc k) = Some f ∧ ir_Table r = RootTable (Sample f) ∧
    Partitioned r = IsPartitioned (Sample f);
  per_host : PerInstance r = omap (evidence (samples_of sc k)) (firsts (Instance <$> samples_of sc k));
  largest_host : ir_SizeBytes r =
    foldl Z.max 0 ((λ inst, total SizeBytes (on_host inst (samples_of sc k))) <$> firsts (Instance <$> samples_of sc k));
  child_count : ir_Partitions r =
    if Partitioned r then
      Z.of_nat (length (firsts ((λ s, s_Schema (Sample s) +:+ "." +:+ s_Index (Sample s)) <$> samples_of sc k)))
    else 0;
  verdict_decided : (ir_Verdict r, Code (ir_Reason r)) =
    let '(v, reason) := decide (PerInstance r) (Unreachable sc) (withDefaults th) in (v, Code reason)
}.

Lemma fold_add_sample l r :
  let r' := foldl add_sample r l in
  (hostOrder r', hosts r') = foldl (group_step Instance new_host add_host) (hostOrder r, hosts r) l ∧
  schema r' = schema r ∧ table r' = table r ∧ index r' = index r ∧ partitioned r' = partitioned r ∧
  children r' = list_to_set ((λ s, s_Schema (Sample s) +:+ "." +:+ s_Index (Sample s)) <$> l) ∪ children r.
Proof.
  revert r. induction l as [|s l IH]; intros r; cbn [foldl]; [split_and!; try done; set_solver|].
  destruct (IH (add_sample r s)) as (Ho & Hs & Ht & Hi & Hp & Hc). cbn zeta in *. rewrite Ho, Hs, Ht, Hi, Hp, Hc.
  unfold add_sample. destruct (group_step _ _ _ _ s) as [order hm] eqn:Hg. cbn. split_and!; try done. set_solver.
Qed.

Lemma fold_add_host l h :
  foldl add_host h l = mkHostAgg (foldl add64 (scans h) ((IndexScans ∘ Sample) <$> l))
    (foldl add64 (size h) ((SizeBytes ∘ Sample) <$> l)) (windowDays h) (inRecovery h) (statsKnown h).
Proof. revert h. induction l as [|s l IH]; intros h; cbn; [by destruct h|]. by rewrite IH. Qed.

Lemma host_aggregate l inst :
  (λ h, usage_of inst h) <$> aggregate_of new_host add_host (on_host inst l) = evidence l inst ∧
  size <$> aggregate_of new_host add_host (on_host inst l) =
    match on_host inst l with [] => None | l' => Some (total SizeBytes l') end.
Proof.
  unfold evidence, aggregate_of, total. destruct (on_host inst l) as [|f g]; [done|].
  rewrite fold_add_host. cbn [head mbind option_bind fmap option_fmap option_map size].
  rewrite !foldl_add64 by done. cbn [scans size]. done.
Qed.

Lemma size_list_to_set (l : list string) : base.size (list_to_set l : gset string) = length (firsts l).
Proof.
  rewrite <- (size_list_to_set (C := gset string)) by apply firsts_nodup. f_equal. apply set_eq. intros x.
  by rewrite !elem_of_list_to_set, elem_of_firsts.
Qed.

Lemma host_list_spec (l : list IndexHostSample) r :
  (hostOrder r, hosts r) = group Instance new_host add_host l →
  (λ ih, usage_of ih.1 ih.2) <$> host_list r = omap (evidence l) (firsts (Instance <$> l)) ∧
  (λ ih, size ih.2) <$> host_list r = (λ inst, total SizeBytes (on_host inst l)) <$> firsts (Instance <$> l).
Proof.
  intros Hg. destruct (group_spec Instance new_host add_host l) as [Ho Hm]. rewrite <- Hg in Ho, Hm. cbn [fst snd] in Ho, Hm.
  unfold host_list. rewrite Ho, (list_fmap_alt (λ inst, total _ _)), !list_fmap_omap.
  split; apply list_omap_ext, Forall_Forall2_diag, list.Forall_forall; intros inst Hin; rewrite Hm;
    change (members Instance inst l) with (on_host inst l); destruct (host_aggregate l inst) as [Heq Hsz].
  - rewrite <- Heq. by destruct (aggregate_of _ _ _).
  - destruct (aggregate_of _ _ _) as [h|]; destruct (on_host inst l) as [|f g] eqn:Hf; try done.
    rewrite elem_of_firsts in Hin. destruct (proj1 (members_nil _ _ _) Hf Hin).
Qed.

Lemma report_of_describes sc th k f g : samples_of sc k = f :: g → ∃ r,
  aggregate_of new_root add_sample (samples_of sc k) = Some r ∧
  describes sc th k (report_of (Unreachable sc) (withDefaults th) r).
Proof.
  intros Hl. assert (Hk : root_key f = k).
  { assert (f ∈ samples_of sc k) as Hf by (rewrite Hl; left). by apply elem_of_members in Hf as [? _]. }
  exists (foldl add_sample (new_root f) (samples_of sc k)). split; [by rewrite Hl|].
  destruct (fold_add_sample (samples_of sc k) (new_root f)) as (Hg & Hs & Ht & Hi & Hp & Hc). cbn zeta in *.
  set (r := foldl add_sample (new_root f) (samples_of sc k)) in *.
  destruct (host_list_spec _ r Hg) as [Hhus Hsz].
  unfold report_of. destruct (decide _ _ _) as [v reason] eqn:Hd. cbn in *. split; cbn; try done.
  - by rewrite Hs, Hi.
  - exists f. by rewrite Hl, Ht, Hp.
  - rewrite <- Hsz. clear. generalize 0. induction (host_list r) as [|h hl IH]; intros z; [done|]. apply IH.
  - rewrite Hp. case_match; [|done]. by rewrite Hc, (right_id_L ∅ (∪)), size_list_to_set.
  - rewrite Hd. by case_match.
Qed.

(** One report for every root, in the order the roots first appear: the evidence of
    each host that reported it is summed over the partitions of the index there, the size
    is that of the host where the index is largest, and the verdict follows from the
    evidence, the hosts that did not answer and the thresholds. *)
Lemma Report_spec sc th : Forall2 (describes sc th) (firsts (root_key <$> Samples sc)) (Report sc th).
Proof.
  unfold Report. destruct (group_spec root_key new_root add_sample (Samples sc)) as [Ho Hm].
  destruct (group _ _ _ _) as [order roots]. cbn [fst snd] in *. subst order.
  assert (Hin : Forall (λ k, k ∈ root_key <$> Samples sc) (firsts (root_key <$> Samples sc))).
  { apply list.Forall_forall. intros k. by rewrite elem_of_firsts. }
  induction Hin as [|k ks Hk _ IH]; [constructor|]. cbn [omap list_omap]. rewrite Hm.
  change (members root_key k (Samples sc)) with (samples_of sc k).
  destruct (samples_of sc k) as [|f g] eqn:Hl; [destruct (proj1 (members_nil _ _ _) Hl Hk)|].
  destruct (report_of_describes sc th k f g Hl) as (r & Hr & Hd). rewrite <- Hl, Hr. by constructor.
Qed.

(** ** When an index may be dropped *)

Lemma decide_fold th hs t :
  let t' := foldl (decide_step th) t hs in
  t_usedOn t' = t_usedOn t ++ ((λ h, mkRate (hu_Instance h) (hu_ScansPerDay h)) <$>
    filter (λ h, (UsedScansPerDay th <? hu_ScansPerDay h)%float = true) hs) ∧
  t_totalScans t' = foldl add64 (t_totalScans t) (hu_IndexScans <$> hs) ∧
  minWindow t' = foldl go_min (minWindow t) (hu_WindowDays <$> hs).
Proof.
  revert t. induction hs as [|h hs IH]; intros t; cbn [foldl]; [by rewrite app_nil_r|].
  destruct (IH (decide_step th t h)) as (Hu & Ht & Hm). cbn zeta in *. rewrite Hu, Ht, Hm, filter_cons.
  unfold decide_step. cbn [t_usedOn t_totalScans minWindow fmap list_fmap foldl]. split_and!; try done.
  destruct (UsedScansPerDay th <? hu_ScansPerDay h)%float; [|done].
  rewrite decide_True by done. by rewrite <- app_assoc.
Qed.

Lemma fold_min_nonneg w ws : Forall (λ w, (0 <=? w)%float = true) (w :: ws) →
  (0 <=? foldl go_min w ws)%float = true.
Proof.
  revert w. induction ws as [|v ws IH]; intros w [Hw Hws]%Forall_cons; [done|].
  apply Forall_cons in Hws as [Hv Hws]. apply IH. constructor; [by apply go_min_nonneg|done].
Qed.

Lemma fold_min_lt w ws b : (0 <=? b)%float = true → Forall (λ w, (0 <=? w)%float = true) (w :: ws) →
  (foldl go_min w ws <? b)%float = false → Forall (λ w, (w <? b)%float = false) (w :: ws).
Proof.
  intros Hb. revert w. induction ws as [|v ws IH]; intros w [Hw Hws]%Forall_cons; cbn [foldl].
  - intros Hlt. by repeat constructor.
  - apply Forall_cons in Hws as [Hv Hws]. intros Hlt.
    apply IH in Hlt; [|constructor; [by apply go_min_nonneg|done]]. apply Forall_cons in Hlt as [Hm Hlt].
    rewrite go_min_lt, orb_false_iff in Hm by done. destruct Hm. by repeat constructor.
Qed.

(** What [decide] has seen when it calls an index droppable. *)
Lemma decide_drop hs unreachable th : (decide hs unreachable th).1 = VerdictDropCandidate →
  (0 <=? MinWindowDays th)%float = true → Forall (λ h, (0 <=? hu_WindowDays h)%float = true) hs →
  unreachable = [] ∧ hs ≠ [] ∧ wrap64 (sumZ (hu_IndexScans <$> hs)) ≤ 0 ∧
  Forall (λ h, (UsedScansPerDay th <? hu_ScansPerDay h)%float = false ∧
    (hu_WindowDays h <? MinWindowDays th)%float = false) hs.
Proof.
  unfold decide. case_bool_decide as Hu; [done|]. subst unreachable.
  destruct hs as [|h0 hs]; [done|]. remember (h0 :: hs) as l eqn:Hl.
  destruct (decide_fold th l (mkTally [] false 0 false (hu_WindowDays h0))) as (Hu & Ht & Hm). cbn zeta in *.
  destruct (foldl (decide_step th) _ l) as [used prim tot guess mw]. cbn [t_usedOn t_totalScans minWindow app] in *.
  case_bool_decide as Hnone; cbn [andb]; [by destruct prim|]. rewrite Hnone in Hu.
  destruct (mw <? MinWindowDays th)%float eqn:Hw; [done|]. case_test; [done|]. intros _ Hb Hall.
  split_and!; [done|by rewrite Hl| |].
  - rewrite foldl_add64 in Ht by done. rewrite Z.add_0_l in Ht. lia.
  - assert (Hbusy : Forall (λ h, (UsedScansPerDay th <? hu_ScansPerDay h)%float = false) l).
    { apply list.Forall_forall. intros h Hh. apply not_true_is_false. intros Hbusy.
      apply (not_elem_of_nil (mkRate (hu_Instance h) (hu_ScansPerDay h))). rewrite Hu.
      apply list_elem_of_fmap. exists h. by rewrite list_elem_of_filter. }
    apply Forall_and. split; [done|]. rewrite Hm in Hw. apply fold_min_lt in Hw; [|done|].
    + by apply Forall_cons, proj2, Forall_fmap in Hw.
    + rewrite Hl in *. constructor; [by inversion Hall|]. by apply Forall_fmap.
Qed.

Lemma sumZ_zero l : Forall (λ x, 0 ≤ x) l → sumZ l ≤ 0 → Forall (λ x, x = 0) l.
Proof.
  induction 1 as [|x l Hx Hl IH]; intros Hs; [constructor|]. rewrite sumZ_cons in Hs.
  pose proof (sumZ_nonneg l Hl). constructor; [lia|apply IH; lia].
Qed.

Lemma sumZ_all_zero l : Forall (λ x, x = 0) l → sumZ l = 0.
Proof. induction 1 as [|x l -> _ IH]; [done|]. by rewrite sumZ_cons, IH. Qed.

(** The counters one host reports are part of the sum over all. *)
Lemma sumZ_members_le (f : IndexHostSample → Z) inst l : Forall (λ s, 0 ≤ f s) l →
  0 ≤ sumZ (f <$> on_host inst l) ≤ sumZ (f <$> l).
Proof.
  induction 1 as [|s l Hs Hl IH]; [done|]. unfold on_host in *. rewrite members_cons, fmap_cons, sumZ_cons.
  case_match; rewrite ?fmap_cons, ?sumZ_cons; lia.
Qed.

Lemma evidence_some (l : list IndexHostSample) inst : inst ∈ Instance <$> l →
  ∃ h, evidence l inst = Some h ∧ hu_IndexScans h = total IndexScans (on_host inst l).
Proof.
  intros Hi. unfold evidence. destruct (head (on_host inst l)) as [f|] eqn:Hf; [by eexists|].
  destruct (proj1 (members_nil _ _ _) (proj1 (head_None _) Hf) Hi).
Qed.

Lemma evidence_scans (l : list IndexHostSample) : Forall (λ s, 0 ≤ IndexScans (Sample s)) l →
  sumZ ((IndexScans ∘ Sample) <$> l) < 2 ^ 63 →
  sumZ (hu_IndexScans <$> omap (evidence l) (firsts (Instance <$> l))) = sumZ ((IndexScans ∘ Sample) <$> l).
Proof.
  intros Hall Hsum.
  rewrite <- (sumZ_regroup Instance (IndexScans ∘ Sample) (firsts (Instance <$> l)) l (firsts_nodup _))
    by (intros s Hs; apply elem_of_firsts; by apply list_elem_of_fmap_2).
  assert (Hin : Forall (λ i, i ∈ Instance <$> l) (firsts (Instance <$> l))).
  { apply list.Forall_forall. intros i. by rewrite elem_of_firsts. }
  induction Hin as [|i ks Hi _ IH]; [done|]. cbn [omap list_omap]. destruct (evidence_some l i Hi) as (h & -> & Hh).
  rewrite !fmap_cons, !sumZ_cons, Hh. f_equal; [|exact IH]. apply wrap64_id.
  pose proof (sumZ_members_le (IndexScans ∘ Sample) i l Hall) as Hb. revert Hb. unfold int64, min64, max64, on_host.
  generalize (sumZ ((IndexScans ∘ Sample) <$> members Instance i l)). clear - Hsum. intros z Hz. lia.
Qed.

(** No window is negative or not a number. *)
Lemma evidence_windows (l : list IndexHostSample) ks : Forall (λ s, (0 <=? WindowDays (Sample s))%float = true) l →
  Forall (λ h, (0 <=? hu_WindowDays h)%float = true) (omap (evidence l) ks).
Proof.
  intros Hall. apply list.Forall_forall. intros h (i & _ & Hh)%list_elem_of_omap. unfold evidence in Hh.
  destruct (on_host i l) as [|f g] eqn:Hf; [done|]. injection Hh as <-. cbn.
  assert (f ∈ on_host i l) as [_ Hin]%elem_of_members by (rewrite Hf; left).
  rewrite list.Forall_forall in Hall. by apply Hall.
Qed.

(** An index is called droppable only when every host answered, some host reported it, no
    sample of it or of its partitions on any host has a scan, and the statistics of every
    host that reported it reach back the minimal window. *)
Theorem drop_candidate_sound sc th r :
  r ∈ Report sc th → ir_Verdict r = VerdictDropCandidate →
  (0 <=? MinWindowDays (withDefaults th))%float = true →
  let l := samples_of sc (ir_Schema r, ir_Index r) in
  Forall (λ s, 0 ≤ IndexScans (Sample s) ∧ (0 <=? WindowDays (Sample s))%float = true) l →
  sumZ ((IndexScans ∘ Sample) <$> l) < 2 ^ 63 →
  Unreachable sc = [] ∧ l ≠ [] ∧ Forall (λ s, IndexScans (Sample s) = 0) l ∧
  PerInstance r ≠ [] ∧ Forall (λ h, hu_IndexScans h = 0 ∧
    (hu_WindowDays h <? MinWindowDays (withDefaults th))%float = false) (PerInstance r).
Proof.
  intros Hr Hv Hth. destruct (list_elem_of_lookup_1 _ _ Hr) as [i Hi].
  destruct (Forall2_lookup_r _ _ _ _ _ (Report_spec sc th) Hi) as (k & _ & [<- (f & Hf & _) Hper _ _ Hd]).
  intros l. assert (Heq : samples_of sc (ir_Schema r, ir_Index r) = l) by done. clearbody l. rewrite Heq in *.
  intros [Hs Hw]%Forall_and Hsum.
  destruct (decide _ _ _) as [v reason] eqn:Hdec. injection Hd as Hd _. rewrite Hv in Hd. subst v.
  apply (f_equal fst) in Hdec. cbn [fst] in Hdec. apply decide_drop in Hdec as (Hu & Hne & Htot & Hall); [|done|].
  2: { rewrite Hper. by apply evidence_windows. }
  rewrite Hper, evidence_scans in Htot by done.
  assert (Hnn : Forall (λ x, 0 ≤ x) ((IndexScans ∘ Sample) <$> l)) by by apply Forall_fmap.
  assert (Hz : Forall (λ x, x = 0) ((IndexScans ∘ Sample) <$> l)).
  { apply sumZ_zero; [done|]. rewrite wrap64_id in Htot; [done|]. pose proof (sumZ_nonneg _ Hnn). unfold int64, min64, max64. lia. }
  apply Forall_fmap in Hz. split_and!; try done; [by intros ->|].
  apply Forall_and. split; [|by eapply Forall_impl; [exact Hall|]; cbn; intros ? [_ ?]].
  rewrite Hper. apply list.Forall_forall. intros h (inst & _ & Hh)%list_elem_of_omap. unfold evidence in Hh.
  destruct (head (on_host inst l)); [|done]. injection Hh as <-. cbn. unfold total. rewrite sumZ_all_zero; [done|].
  apply Forall_fmap, list.Forall_forall. intros s [_ Hin]%elem_of_members. rewrite list.Forall_forall in Hz. by apply Hz.
Qed.

(** C24: One report for every root, each once, in the order the roots first appear: the
    evidence of each host that reported it is summed over the partitions of the index
    there, the size is that of the host where the index is largest, and the verdict
    follows from the evidence, the hosts that did not answer and the thresholds. *)
Theorem Report_exact sc th :
  (λ r, (ir_Schema r, ir_Index r)) <$> Report sc th = firsts (root_key <$> Samples sc) ∧
  NoDup ((λ r, (ir_Schema r, ir_Index r)) <$> Report sc th) ∧
  Forall2 (describes sc th) (firsts (root_key <$> Samples sc)) (Report sc th).
Proof.
  pose proof (Report_spec sc th) as Hs.
  assert (Heq : (λ r, (ir_Schema r, ir_Index r)) <$> Report sc th = firsts (root_key <$> Samples sc)).
  { induction Hs as [|k r ks rs Hd _ IH]; [done|]. rewrite fmap_cons, IH. f_equal. apply Hd. }
  rewrite Heq. split_and!; [done|apply firsts_nodup|done].
Qed.

(** ** Examples: a partitioned index two hosts report, one partition of it used on the
    replica; the same without that scan. *)

Definition example_sample (inst part : string) (scans : Z) (recovery : bool) : IndexHostSample :=
  mkHostSample inst (mkSample "public" part (part +:+ "_idx") "public" "t_idx" "t" true 8192 scans (Some 0) 30 recovery).

Definition example_scans (scans : Z) : IndexClusterScans :=
  mkScans [example_sample "a" "p1" 0 false; example_sample "a" "p2" 0 false; example_sample "b" "p1" 0 true;
           example_sample "b" "p2" scans true] [].

Example used_on_replica :
  (λ r, (ir_Verdict r, ir_Partitions r, ir_SizeBytes r, ReasonText r)) <$> Report (example_scans 9000) (mkThresholds 0 0)
  = [(VerdictUsed, 2, 16384,
      "keep: idle on the primary but used on b (300.0 scans/day). Replica scan counters are not " +:+
      "replicated back — dropping it would break replica reads. " +:+
      "This is a partitioned index: the scans of its 2 per-partition child indexes are summed here, " +:+
      "and a DROP must target this parent — PostgreSQL refuses to drop a child and points here instead, " +:+
      "which removes the index from EVERY partition. A cold partition with zero scans is partition " +:+
      "pruning working, not a dead index.")].
Proof. by vm_compute. Qed.

Example one_scan_is_stale : ir_Verdict <$> Report (example_scans 1) (mkThresholds 0 0) = [VerdictStaleEvidence].
Proof. by vm_compute. Qed.

Lemma drop_candidate_sound_witness :
  let sc := example_scans 0 in
  let r := nth 0 (Report sc (mkThresholds 0 0)) (mkReport "" "" "" false 0 0 VerdictUnknown (reasonOf ReasonUsed no_params) "" []) in
  r ∈ Report sc (mkThresholds 0 0) ∧ ir_Verdict r = VerdictDropCandidate ∧ Unreachable sc = [].
Proof.
  intros sc r. assert (Hr : r ∈ Report sc (mkThresholds 0 0)) by left.
  assert (Hv : ir_Verdict r = VerdictDropCandidate) by by vm_compute.
  split; [exact Hr|]. split; [exact Hv|]. apply (drop_candidate_sound sc (mkThresholds 0 0) r Hr Hv).
  - by vm_compute.
  - repeat constructor; by vm_compute.
  - by vm_compute.
Defined.
