(* ===== verification/AdvisorCatalog.v ===== *)
(** * [internal/indexadvisor]: catalog, workload, configuration ([catalog.go], [config.go])

    What the index advisor reasons from: the relations, columns, indexes and activity
    counters read from a database, the statements read from every host, and the limits. *)

From S2P Require Import Prelude GoSlices GoFloat Sqlparse.
From stdpp Require Import options.

#[local] Open Scope string_scope.
#[local] Open Scope Z_scope.
#[local] Open Scope list_scope.

(** ** Data *)

Record RelKey := mkKey { k_Schema : string; k_Name : string }.

#[global] Instance RelKey_eq_dec : EqDecision RelKey.
Proof. solve_decision. Defined.
#[global] Instance RelKey_countable : Countable RelKey.
Proof. apply (inj_countable' (λ k, (k_Schema k, k_Name k)) (λ p, mkKey p.1 p.2)). by intros []. Defined.

Definition no_key : RelKey := mkKey "" "".

Record Relation := mkRelation {
  rel_Key : RelKey; rel_Kind : string; Rows : Z; Pages : Z; Root : RelKey; Parent : RelKey
}.
Definition IsPartition (r : Relation) : bool := bool_decide (k_Name (Root r) ≠ "").

Record Column := mkColumn {
  c_Name : string; DataType : string; BtreeIndexable : bool; StatsKnown : bool; NDistinct : float; NullFrac : float
}.

Record Index := mkIndex {
  i_Name : string; Method : string; Unique : bool; Primary : bool; Valid : bool; Partial : bool; Expression : bool;
  NullPredicate : list string; Columns : list string
}.

Record Writes := mkWrites { Inserted : Z; Updated : Z; Deleted : Z; SeqScans : Z; IdxScans : Z }.
Definition no_writes : Writes := mkWrites 0 0 0 0 0.

Record Catalog := mkCatalog {
  Relations : gmap RelKey Relation; cat_Columns : gmap RelKey (list Column); Indexes : gmap RelKey (list Index);
  cat_Writes : gmap RelKey Writes; ByName : gmap string (list RelKey); Truncated : bool
}.

Definition NewCatalog : Catalog := mkCatalog ∅ ∅ ∅ ∅ ∅ false.

(** A slice kept in a map: an absent key reads as the nil slice. *)
Definition at_key {K A} `{Countable K} (m : gmap K (list A)) (k : K) : list A := default [] (m !! k).

Definition AddRelation (c : Catalog) (r : Relation) : Catalog :=
  let n := k_Name (rel_Key r) in
  let byName :=
    if decide (Relations c !! rel_Key r = None) then <[n := at_key (ByName c) n ++ [rel_Key r]]> (ByName c) else ByName c in
  mkCatalog (<[rel_Key r := r]> (Relations c)) (cat_Columns c) (Indexes c) (cat_Writes c) byName (Truncated c).

Definition AddColumn (c : Catalog) (key : RelKey) (col : Column) : Catalog :=
  mkCatalog (Relations c) (<[key := at_key (cat_Columns c) key ++ [col]]> (cat_Columns c)) (Indexes c) (cat_Writes c) (ByName c)
    (Truncated c).

Definition AddIndex (c : Catalog) (key : RelKey) (idx : Index) : Catalog :=
  mkCatalog (Relations c) (cat_Columns c) (<[key := at_key (Indexes c) key ++ [idx]]> (Indexes c)) (cat_Writes c) (ByName c)
    (Truncated c).

Definition AddWrites (c : Catalog) (key : RelKey) (w : Writes) : Catalog :=
  let cur := default no_writes (cat_Writes c !! key) in
  let cur := mkWrites (Inserted cur ⊞ Inserted w) (Updated cur ⊞ Updated w) (Deleted cur ⊞ Deleted w)
    (SeqScans cur ⊞ SeqScans w) (IdxScans cur ⊞ IdxScans w) in
  mkCatalog (Relations c) (cat_Columns c) (Indexes c) (<[key := cur]> (cat_Writes c)) (ByName c) (Truncated c).

Definition Forget (c : Catalog) (key : RelKey) : Catalog :=
  let kept := filter (λ k, k ≠ key) (at_key (ByName c) (k_Name key)) in
  let byName :=
    if decide (kept = []) then delete (k_Name key) (ByName c) else <[k_Name key := kept]> (ByName c) in
  mkCatalog (delete key (Relations c)) (delete key (cat_Columns c)) (delete key (Indexes c)) (delete key (cat_Writes c)) byName
    (Truncated c).

Record WorkloadEntry := mkWEntry {
  QueryIDs : list Z; QueryIDByHost : gmap string Z; e_Fingerprint : string; Query : string; Calls : Z; TotalTimeMs : float;
  e_Rows : Z; Stmt : Statement; e_Hosts : list string
}.

Record Workload := mkWorkload {
  Entries : list WorkloadEntry; w_NotParsed : gmap string Z; Collected : Z; Available : bool; w_Hosts : list string;
  NoStats : list string; Unreachable : list string
}.
Definition no_workload : Workload := mkWorkload [] ∅ 0 false [] [] [].

Definition CountNotParsed (w : Workload) (reason : string) : Workload :=
  mkWorkload (Entries w) (tally_add (w_NotParsed w) reason 1) (Collected w) (Available w) (w_Hosts w) (NoStats w) (Unreachable w).

Section range.
Context `{MapRange}.

(** The keys of a tally are added one by one, in the order the map gives them. *)
Definition merge_tally (site : string) (dst src : gmap string Z) : gmap string Z :=
  foldl (λ m cn, tally_add m cn.1 cn.2) dst (map_range site src).

Definition Merge (w other : Workload) : Workload := {|
  Entries := Entries w ++ Entries other;
  w_NotParsed := merge_tally "Workload.Merge" (w_NotParsed w) (w_NotParsed other);
  Collected := Collected w ⊞ Collected other;
  Available := Available w || Available other;
  w_Hosts := w_Hosts w ++ w_Hosts other;
  NoStats := NoStats w ++ NoStats other;
  Unreachable := Unreachable w ++ Unreachable other
|}.
End range.

(** ** Configuration *)

Definition DefaultMaxQueries : Z := 500.
Definition DefaultMaxQueryBytes : Z := 100 * 1024.
Definition DefaultMaxCandidates : Z := 50.
Definition DefaultMaxIndexColumns : Z := 3.
Definition DefaultMinTableRows : Z := 10000.
Definition DefaultParseCacheSize : Z := 1000.
Definition DefaultTimeout : duration := 60 * Second.
Definition DefaultEvidenceWindow : duration := Hour.
Definition MaxIndexColumnsCeiling : Z := 4.

Record AdvisorConfig := mkAdvisorConfig {
  Enabled : option bool; MaxQueries : Z; a_MaxQueryBytes : Z; MaxCandidates : Z; MaxIndexColumns : Z; MinTableRows : Z;
  ParseCacheSize : Z; Timeout : duration; EvidenceWindow : duration
}.

Definition IsEnabled (c : AdvisorConfig) : bool := default true (Enabled c).

Definition WithDefaults (c : AdvisorConfig) : AdvisorConfig :=
  let or v d := if v <=? 0 then d else v in
  let cols := or (MaxIndexColumns c) DefaultMaxIndexColumns in
  {| Enabled := Enabled c;
     MaxQueries := or (MaxQueries c) DefaultMaxQueries;
     a_MaxQueryBytes := or (a_MaxQueryBytes c) DefaultMaxQueryBytes;
     MaxCandidates := or (MaxCandidates c) DefaultMaxCandidates;
     MaxIndexColumns := if MaxIndexColumnsCeiling <? cols then MaxIndexColumnsCeiling else cols;
     MinTableRows := or (MinTableRows c) DefaultMinTableRows;
     ParseCacheSize := or (ParseCacheSize c) DefaultParseCacheSize;
     Timeout := or (Timeout c) DefaultTimeout;
     EvidenceWindow := or (EvidenceWindow c) DefaultEvidenceWindow |}.

(** ** The tally as a list ([report.go]) *)

Record NotParsed := mkNotParsed { ReasonCode : string; Count : Z }.

Definition not_parsed_less : NotParsed → NotParsed → bool :=
  lex_less (more_on Count Z.ltb) (less_on ReasonCode str_ltb).

Definition notParsedList `{MapRange} (counts : gmap string Z) : list NotParsed :=
  sort_slice not_parsed_less ((λ cn, mkNotParsed cn.1 cn.2) <$> map_range "notParsedList" counts).

(** ** The names of a catalog agree with its relations *)

Record consistent (c : Catalog) : Prop := {
  by_name : ∀ n k, k ∈ at_key (ByName c) n ↔ k_Name k = n ∧ is_Some (Relations c !! k);
  by_name_once : ∀ n, NoDup (at_key (ByName c) n);
  by_name_some : ∀ n, ByName c !! n ≠ Some [];
  own_key : ∀ k r, Relations c !! k = Some r → rel_Key r = k
}.

Lemma at_key_insert {K A} `{Countable K} (m : gmap K (list A)) k k' l :
  at_key (<[k := l]> m) k' = if decide (k = k') then l else at_key m k'.
Proof. unfold at_key. case_decide; [subst; by rewrite lookup_insert_eq|by rewrite lookup_insert_ne]. Qed.

Lemma at_key_delete {K A} `{Countable K} (m : gmap K (list A)) k k' :
  at_key (delete k m) k' = if decide (k = k') then [] else at_key m k'.
Proof. unfold at_key. case_decide; [subst; by rewrite lookup_delete_eq|by rewrite lookup_delete_ne]. Qed.

Lemma at_key_some {K A} `{Countable K} (m : gmap K (list A)) k : m !! k ≠ Some [] → m !! k = None ↔ at_key m k = [].
Proof. unfold at_key. intros Hne. destruct (m !! k) as [[|x l]|]; cbn; split; congruence. Qed.

Lemma NewCatalog_consistent : consistent NewCatalog.
Proof.
  split; cbn; unfold at_key; intros; rewrite ?lookup_empty; cbn; try done.
  - split; [by intros ?%elem_of_nil|]. by intros [_ [? ?]].
  - constructor.
Qed.

Lemma AddRelation_consistent c r : consistent c → consistent (AddRelation c r).
Proof.
  intros [Hn Ho Hs Hk]. unfold AddRelation. split; cbn.
  - intros n k. destruct (decide (k = rel_Key r)) as [->|Hkr].
    + rewrite lookup_insert_eq. case_decide as Hnew.
      * rewrite at_key_insert. case_decide as Hnm; [subst n|].
        -- rewrite elem_of_app, list_elem_of_singleton. split; [by eauto|]. by right.
        -- split; [|by intros [? _]]. intros [? _]%Hn. done.
      * rewrite Hn. split; intros [? ?]; split; eauto. destruct (Relations c !! rel_Key r); [eauto|done].
    + rewrite lookup_insert_ne by done. case_decide as Hnew; [|apply Hn]. rewrite at_key_insert. case_decide as Hnm; [subst n|apply Hn].
      rewrite elem_of_app, list_elem_of_singleton, Hn. naive_solver.
  - intros n. case_decide as Hnew; [|apply Ho]. rewrite at_key_insert. case_decide as Hnm; [subst n|apply Ho].
    apply NoDup_app. split; [apply Ho|]. split; [|apply NoDup_singleton].
    intros k [_ Hin]%Hn ->%list_elem_of_singleton. rewrite Hnew in Hin. by destruct Hin.
  - intros n. case_decide as Hnew; [|apply Hs]. destruct (decide (k_Name (rel_Key r) = n)) as [<-|Hne].
    + rewrite lookup_insert_eq. intros [= Hnil]. by apply app_nil in Hnil as [_ ?].
    + rewrite lookup_insert_ne by done. apply Hs.
  - intros k r'. destruct (decide (rel_Key r = k)) as [<-|Hne];
      [rewrite lookup_insert_eq; by intros [= <-]|rewrite lookup_insert_ne by done; apply Hk].
Qed.

Lemma Forget_consistent c key : consistent c → consistent (Forget c key).
Proof.
  intros [Hn Ho Hs Hk]. unfold Forget.
  set (kept := filter (λ k, k ≠ key) (at_key (ByName c) (k_Name key))).
  set (byName := if decide (kept = []) then _ else _).
  assert (Hat : ∀ n, at_key byName n = if decide (k_Name key = n) then kept else at_key (ByName c) n).
  { intros n. unfold byName. destruct (decide (kept = [])) as [He|He];
      [rewrite at_key_delete|rewrite at_key_insert]; case_decide; congruence. }
  split; cbn.
  - intros n k. rewrite Hat. destruct (decide (k = key)) as [->|Hkk].
    + rewrite lookup_delete_eq. case_decide as Hnm; [|rewrite Hn; naive_solver].
      unfold kept. rewrite list_elem_of_filter. split; [by intros [? _]|]. by intros [_ [? ?]].
    + rewrite lookup_delete_ne by done. case_decide as Hnm; [subst n|apply Hn].
      unfold kept. rewrite list_elem_of_filter, Hn. naive_solver.
  - intros n. rewrite Hat. case_decide; [apply NoDup_filter, Ho|apply Ho].
  - intros n. unfold byName. destruct (decide (k_Name key = n)) as [<-|Hne]; case_decide;
      rewrite ?lookup_delete_eq, ?lookup_insert_eq, ?lookup_delete_ne, ?lookup_insert_ne by done; try done; [congruence|apply Hs..].
  - intros k r Hr. apply lookup_delete_Some in Hr as [_ Hr]. by apply Hk.
Qed.

Inductive catalog_op :=
  | OpRelation (r : Relation) | OpColumn (k : RelKey) (col : Column) | OpIndex (k : RelKey) (idx : Index)
  | OpWrites (k : RelKey) (w : Writes) | OpForget (k : RelKey).

Definition run_catalog_op (c : Catalog) (o : catalog_op) : Catalog :=
  match o with
  | OpRelation r => AddRelation c r
  | OpColumn k col => AddColumn c k col
  | OpIndex k idx => AddIndex c k idx
  | OpWrites k w => AddWrites c k w
  | OpForget k => Forget c k
  end.

(** A catalog filled by any sequence of its operations resolves a name to exactly the
    relations that carry it, each once. *)
Theorem catalog_consistent ops : consistent (foldl run_catalog_op NewCatalog ops).
Proof.
  induction ops as [|o ops IH] using rev_ind; [apply NewCatalog_consistent|]. rewrite foldl_app. cbn [foldl].
  destruct o; cbn [run_catalog_op]; [by apply AddRelation_consistent|by destruct IH..|by apply Forget_consistent].
Qed.

(** Forgetting a relation leaves no trace of it and nothing else changed. *)
Lemma Forget_exact c key : consistent c →
  let c' := Forget c key in
  Relations c' = delete key (Relations c) ∧ cat_Columns c' = delete key (cat_Columns c) ∧
  Indexes c' = delete key (Indexes c) ∧ cat_Writes c' = delete key (cat_Writes c) ∧
  ∀ n, at_key (ByName c') n = filter (λ k, k ≠ key) (at_key (ByName c) n).
Proof.
  intros [Hn Ho Hs Hk]. cbn. split_and!; try done. intros n.
  assert (Hother : k_Name key ≠ n → filter (λ k, k ≠ key) (at_key (ByName c) n) = at_key (ByName c) n).
  { intros Hne. apply filter_all, list.Forall_forall. intros k [? _]%Hn ->. done. }
  case_decide as He; [rewrite at_key_delete|rewrite at_key_insert]; case_decide as Hnm; subst; try done; by rewrite Hother.
Qed.

(** ** Tallies *)

Lemma merge_tally_lookup `{MapRange} site dst src code :
  merge_tally site dst src !! code =
    match src !! code with Some v => Some (default 0 (dst !! code) ⊞ v) | None => dst !! code end.
Proof.
  unfold merge_tally, tally_add.
  rewrite (foldl_ext_fun _ (λ d '(name, v), <[name := default 0 (d !! name) ⊞ v]> d)) by by intros ? [].
  rewrite accumulate_lookup by apply map_range_nodup. by rewrite map_range_to_map.
Qed.

(** ** The list of reasons *)

Lemma notParsedList_perm `{MapRange} m : notParsedList m ≡ₚ (λ cn, mkNotParsed cn.1 cn.2) <$> map_to_list m.
Proof.
  unfold notParsedList. rewrite sort_slice_perm. apply fmap_Permutation, NoDup_Permutation.
  - apply (NoDup_fmap_1 fst), map_range_nodup.
  - apply NoDup_map_to_list.
  - intros [k v]. by rewrite elem_of_map_range, elem_of_map_to_list.
Qed.

#[global] Instance not_parsed_less_strict : StrictWeak not_parsed_less.
Proof. apply _. Qed.

#[global] Instance not_parsed_less_separates : Separates not_parsed_less ReasonCode.
Proof. apply _. Qed.

Lemma notParsedList_sorted `{MapRange} m : strictly not_parsed_less (notParsedList m).
Proof.
  apply (sort_slice_strictly _ ReasonCode). rewrite <- list_fmap_compose. apply map_range_nodup.
Qed.

(** ** Limits *)

Lemma WithDefaults_bounds c :
  0 < MaxCandidates (WithDefaults c) ∧ 0 < MaxIndexColumns (WithDefaults c) ≤ MaxIndexColumnsCeiling ∧
  0 < MinTableRows (WithDefaults c).
Proof.
  unfold WithDefaults, MaxIndexColumnsCeiling, DefaultMaxCandidates, DefaultMaxIndexColumns, DefaultMinTableRows. cbn.
  repeat case_test; lia.
Qed.
