(* ===== verification/GoStrings.v ===== *)
(** * More of packages [strings] and [unicode/utf8]

    Strings are bytes. [[]rune(s)] decodes UTF-8, an invalid byte as U+FFFD; the parsers
    below only look for ASCII characters, so they run on the bytes of the re-encoded
    runes. *)

From S2P Require Import Prelude PatroniLayout Sqlparse.
From stdpp Require Import options.

#[local] Open Scope string_scope.
#[local] Open Scope Z_scope.
#[local] Open Scope list_scope.

Definition byte_of (c : Ascii.ascii) : Z := Z.of_N (Ascii.N_of_ascii c).
Definition char (z : Z) : Ascii.ascii := Ascii.ascii_of_N (Z.to_N z).
Definition in_range (lo hi : Z) (c : Ascii.ascii) : bool := (lo <=? byte_of c) && (byte_of c <=? hi).

(** ** [utf8.ValidString] *)

Definition tail_byte : Ascii.ascii → bool := in_range 128 191.
Definition rune1 : Ascii.ascii → bool := in_range 0 127.
Definition rune2 (a b : Ascii.ascii) : bool := in_range 194 223 a && tail_byte b.
Definition rune3 (a b c : Ascii.ascii) : bool :=
  ((in_range 224 224 a && in_range 160 191 b) || (in_range 225 236 a && tail_byte b) ||
   (in_range 237 237 a && in_range 128 159 b) || (in_range 238 239 a && tail_byte b)) && tail_byte c.
Definition rune4 (a b c d : Ascii.ascii) : bool :=
  ((in_range 240 240 a && in_range 144 191 b) || (in_range 241 243 a && tail_byte b) ||
   (in_range 244 244 a && in_range 128 143 b)) && tail_byte c && tail_byte d.

Fixpoint ValidString (s : string) : bool :=
  match s with
  | EmptyString => true
  | String a s1 =>
      if rune1 a then ValidString s1
      else
        match s1 with
        | EmptyString => false
        | String b s2 =>
            if rune2 a b then ValidString s2
            else
              match s2 with
              | EmptyString => false
              | String c s3 =>
                  if rune3 a b c then ValidString s3
                  else match s3 with EmptyString => false | String d s4 => if rune4 a b c d then ValidString s4 else false end
              end
        end
  end.

(** [string([]rune(s))]. *)
Definition RuneError : string := String (char 239) (String (char 191) (String (char 189) "")).

Fixpoint revalidate (s : string) : string :=
  match s with
  | EmptyString => EmptyString
  | String a s1 =>
      if rune1 a then String a (revalidate s1)
      else
        match s1 with
        | EmptyString => RuneError
        | String b s2 =>
            if rune2 a b then String a (String b (revalidate s2))
            else
              match s2 with
              | EmptyString => RuneError +:+ revalidate s1
              | String c s3 =>
                  if rune3 a b c then String a (String b (String c (revalidate s3)))
                  else
                    match s3 with
                    | EmptyString => RuneError +:+ revalidate s1
                    | String d s4 =>
                        if rune4 a b c d then String a (String b (String c (String d (revalidate s4))))
                        else RuneError +:+ revalidate s1
                    end
              end
        end
  end.

(** ** [strings] *)

(** [strings.ReplaceAll] of a non-empty [old]; [skip] bytes of a match are still to come. *)
Fixpoint replace_from (skip : nat) (s old new : string) : string :=
  match s with
  | EmptyString => EmptyString
  | String c s' =>
      match skip with
      | S skip => replace_from skip s' old new
      | O =>
          if HasPrefix s old then new +:+ replace_from (String.length old - 1) s' old new
          else String c (replace_from 0 s' old new)
      end
  end.

Definition ReplaceAll (s old new : string) : string := replace_from 0 s old new.

Definition CutSuffix (s suffix : string) : option string :=
  if HasSuffix s suffix then Some (String.substring 0 (String.length s - String.length suffix) s) else None.

Definition ContainsAny (s chars : string) : bool :=
  existsb (λ c, bool_decide (c ∈ String.list_ascii_of_string chars)) (String.list_ascii_of_string s).

(** [strings.Cut]: the text before the first [sep], and behind it. *)
Fixpoint Cut (s sep : string) : option (string * string) :=
  match CutPrefix s sep with
  | Some rest => Some ("", rest)
  | None => match s with EmptyString => None | String c s' => (λ '(a, b), (String c a, b)) <$> Cut s' sep end
  end.

Definition TrimPrefix (s prefix : string) : string := default s (CutPrefix s prefix).
Definition TrimSuffix (s suffix : string) : string := default s (CutSuffix s suffix).

(** [strings.Fields]: the runs without white space. *)
Fixpoint fields_go (fuel : nat) (cur l : list Z) : list (list Z) :=
  let flush := if decide (cur = []) then [] else [cur] in
  match fuel with
  | O => flush
  | S fuel =>
      match l with
      | [] => flush
      | b :: l' =>
          match head (omap (λ pat, strip pat l) spaces) with
          | Some rest => flush ++ fields_go fuel [] rest
          | None => fields_go fuel (cur ++ [b]) l'
          end
      end
  end.

(** Every round takes a byte away, so one more than the length is enough fuel. *)
Definition Fields (s : string) : list string := of_bytes <$> fields_go (S (String.length s)) [] (bytes s).

(** The double quote. *)
Definition quote : Ascii.ascii := char 34.
Definition dq : string := String quote "".

Example ReplaceAll_quotes : ReplaceAll ("a" +:+ dq +:+ "b") dq (dq +:+ dq) = "a" +:+ dq +:+ dq +:+ "b".
Proof. by vm_compute. Qed.

Example ValidString_values :
  (ValidString (String (char 195) (String (char 169) "t")), ValidString (String (char 195) "t"),
   revalidate (String (char 195) "t")) = (true, false, RuneError +:+ "t").
Proof. by vm_compute. Qed.

(** ** Lemmas *)

Lemma str_app_cons c (s t : string) : String c s +:+ t = String c (s +:+ t).
Proof. done. Qed.

Lemma str_app_nil_r (s : string) : s +:+ "" = s.
Proof. induction s as [|c s IH]; [done|]. apply (f_equal (String c) IH). Qed.

Lemma str_length_app (s t : string) : String.length (s +:+ t) = (String.length s + String.length t)%nat.
Proof. induction s as [|c s IH]; [done|]. apply (f_equal S IH). Qed.

Lemma byte_of_range c : 0 ≤ byte_of c < 256.
Proof. unfold byte_of. pose proof (Ascii.N_ascii_bounded c). lia. Qed.

(** The first bytes of the four kinds of runes are distinct. *)
Lemma rune_kinds a : (rune1 a = true → byte_of a < 128) ∧
  (∀ b, rune2 a b = true → 194 ≤ byte_of a < 224) ∧ (∀ b c, rune3 a b c = true → 224 ≤ byte_of a < 240) ∧
  (∀ b c d, rune4 a b c d = true → 240 ≤ byte_of a).
Proof.
  unfold rune1, rune2, rune3, rune4, tail_byte, in_range.
  split_and!; intros *; repeat rewrite ?andb_true_iff, ?orb_true_iff, ?Z.leb_le; intros;
    repeat match goal with H : _ ∧ _ |- _ => destruct H | H : _ ∨ _ |- _ => destruct H end; lia.
Qed.

(** Induction over the runes of a valid string. *)
Lemma valid_ind (P : string → Prop) :
  P "" → (∀ a s, rune1 a = true → ValidString s = true → P s → P (String a s)) →
  (∀ a b s, rune2 a b = true → ValidString s = true → P s → P (String a (String b s))) →
  (∀ a b c s, rune3 a b c = true → ValidString s = true → P s → P (String a (String b (String c s)))) →
  (∀ a b c d s, rune4 a b c d = true → ValidString s = true → P s → P (String a (String b (String c (String d s))))) →
  ∀ s, ValidString s = true → P s.
Proof.
  intros H0 H1 H2 H3 H4. fix IH 1. intros [|a s1]; [done|]. cbn [ValidString].
  destruct (rune1 a) eqn:E1; [intros Hs; apply H1; [done..|]; by apply IH|].
  destruct s1 as [|b s2]; [done|]. destruct (rune2 a b) eqn:E2; [intros Hs; apply H2; [done..|]; by apply IH|].
  destruct s2 as [|c s3]; [done|]. destruct (rune3 a b c) eqn:E3; [intros Hs; apply H3; [done..|]; by apply IH|].
  destruct s3 as [|d s4]; [done|]. destruct (rune4 a b c d) eqn:E4; [|done]. intros Hs. apply H4; [done..|]. by apply IH.
Qed.

(** The first byte says which kind of rune it is. *)
Lemma rune2_only a b : rune2 a b = true → rune1 a = false.
Proof.
  destruct (rune_kinds a) as (R1 & R2 & _). intros H%R2. apply not_true_is_false. intros H1%R1. lia.
Qed.
Lemma rune3_only a b c : rune3 a b c = true → rune1 a = false ∧ rune2 a b = false.
Proof.
  destruct (rune_kinds a) as (R1 & R2 & R3 & _). intros H%R3.
  split; apply not_true_is_false; [intros H1%R1|intros H1%R2]; lia.
Qed.
Lemma rune4_only a b c d : rune4 a b c d = true → rune1 a = false ∧ rune2 a b = false ∧ rune3 a b c = false.
Proof.
  destruct (rune_kinds a) as (R1 & R2 & R3 & R4). intros H%R4.
  split_and!; apply not_true_is_false; [intros H1%R1|intros H1%R2|intros H1%R3]; lia.
Qed.

Lemma revalidate_valid s : ValidString s = true → revalidate s = s.
Proof.
  revert s. apply valid_ind; [done|..].
  - intros a s Ha _ IH. cbn. by rewrite Ha, IH.
  - intros a b s Ha _ IH. cbn [revalidate]. by rewrite (rune2_only a b Ha), Ha, IH.
  - intros a b c s Ha _ IH. destruct (rune3_only a b c Ha) as [H1 H2]. cbn [revalidate]. by rewrite H1, H2, Ha, IH.
  - intros a b c d s Ha _ IH. destruct (rune4_only a b c d Ha) as (H1 & H2 & H3). cbn [revalidate]. by rewrite H1, H2, H3, Ha, IH.
Qed.

Lemma valid_app s t : ValidString s = true → ValidString t = true → ValidString (s +:+ t) = true.
Proof.
  intros Hs Ht. revert s Hs. apply (valid_ind (λ s, ValidString (s +:+ t) = true)); [done|..].
  - intros a s Ha _ IH. rewrite !str_app_cons. cbn [ValidString]. by rewrite Ha, IH.
  - intros a b s Ha _ IH. rewrite !str_app_cons. cbn [ValidString]. by rewrite (rune2_only a b Ha), Ha, IH.
  - intros a b c s Ha _ IH. destruct (rune3_only a b c Ha) as [H1 H2]. rewrite !str_app_cons. cbn [ValidString].
    by rewrite H1, H2, Ha, IH.
  - intros a b c d s Ha _ IH. destruct (rune4_only a b c d Ha) as (H1 & H2 & H3). rewrite !str_app_cons. cbn [ValidString].
    by rewrite H1, H2, H3, Ha, IH.
Qed.

Lemma revalidate_ascii c s : rune1 c = true → revalidate (String c s) = String c (revalidate s).
Proof. intros Hc. cbn. by rewrite Hc. Qed.
