(* ===== verification/AdvisorDDL.v ===== *)
(** * [internal/indexadvisor/ddl.go]: the suggested DDL

    One statement for an ordinary table; for a partitioned one a script that creates an
    index on every level of the tree and attaches each to the index of its parent. *)

From S2P Require Import Prelude GoSlices GoFloat PatroniLayout Sqlparse GoStrings AdvisorCatalog.
From stdpp Require Import pretty.
From stdpp Require Import options.

#[local] Open Scope string_scope.
#[local] Open Scope Z_scope.
#[local] Open Scope list_scope.

Definition partitionedKind : string := "p".
Definition maxIdentLen : nat := 63.
Definition ddlMaxPartitions : Z := 20.

(** ** Identifiers *)

Definition quoteIdent (s : string) : string := dq +:+ ReplaceAll s dq (dq +:+ dq) +:+ dq.

Definition quoted (k : RelKey) : string := quoteIdent (k_Schema k) +:+ "." +:+ quoteIdent (k_Name k).

(** The loop that takes bytes off the end until the rest is valid UTF-8. *)
Fixpoint drop_invalid (n : nat) (base : string) : string :=
  match n with
  | O => ""
  | S n' => let b := String.substring 0 n base in if ValidString b then b else drop_invalid n' base
  end.

Definition truncIdent (base suffix : string) : string :=
  let limit := (maxIdentLen - String.length suffix)%nat in
  if decide (String.length base ≤ limit)%nat then base +:+ suffix else drop_invalid limit base +:+ suffix.

Definition predicateSQL (predicate : list string) : string :=
  strings_Join ((λ c, quoteIdent c +:+ " IS NULL") <$> predicate) " AND ".

Definition whereClause (predicate : list string) : string :=
  match predicate with [] => "" | _ => " WHERE " +:+ predicateSQL predicate end.

Definition columnList (columns : list string) : string := "(" +:+ strings_Join (quoteIdent <$> columns) ", " +:+ ")".

(** ** The scope *)

Record ddlScope := mkScope { s_children : gmap RelKey (list RelKey); kinds : gmap RelKey string; taken : gset RelKey }.

Definition kind_of (s : ddlScope) (k : RelKey) : string := default "" (kinds s !! k).
Definition partitioned (s : ddlScope) (k : RelKey) : bool := bool_decide (kind_of s k = partitionedKind).
Definition children_of (s : ddlScope) (k : RelKey) : list RelKey := at_key (s_children s) k.

Definition scope_relation (s : ddlScope) (kr : RelKey * Relation) : ddlScope :=
  let '(key, rel) := kr in
  {| s_children :=
       if decide (k_Name (Parent rel) ≠ "") then <[Parent rel := children_of s (Parent rel) ++ [key]]> (s_children s)
       else s_children s;
     kinds := <[key := rel_Kind rel]> (kinds s);
     taken := {[key]} ∪ taken s |}.

Definition newDDLScope `{MapRange} (cat : Catalog) : ddlScope :=
  let s := foldl scope_relation (mkScope ∅ ∅ ∅) (map_range "newDDLScope.Relations" (Relations cat)) in
  let idx := mjoin ((λ ki, (λ i, mkKey (k_Schema ki.1) (i_Name i)) <$> ki.2) <$> map_range "newDDLScope.Indexes" (Indexes cat)) in
  {| s_children := sort_slice (less_on k_Name str_ltb) <$> s_children s;
     kinds := kinds s;
     taken := list_to_set idx ∪ taken s |}.

(** [leaves]; the fuel bounds the depth of the tree. *)
Fixpoint leaves_go (fuel : nat) (s : ddlScope) (node : RelKey) : Z :=
  match fuel with
  | O => 0
  | S fuel =>
      if partitioned s node then foldl (λ n child, n + leaves_go fuel s child) 0 (children_of s node) else 1
  end.

(** A path down a tree of partitions meets no relation twice. *)
Definition depth (s : ddlScope) : nat := S (base.size (kinds s)).

Definition leaves (s : ddlScope) (node : RelKey) : Z := leaves_go (depth s) s node.

(** ** Names of indexes *)

(** The candidates of [reserve], and the first that is free: [fuel] of them are tried. *)
Definition index_name (rel : RelKey) (columns : list string) (i : Z) : RelKey :=
  let base := k_Name rel +:+ "_" +:+ strings_Join columns "_" +:+ "_idx" in
  mkKey (k_Schema rel) (truncIdent base (if 0 <? i then pretty i else "")).

Fixpoint first_free (fuel : nat) (taken : gset RelKey) (name : Z → RelKey) (i : Z) : RelKey :=
  match fuel with
  | O => name i
  | S fuel => if decide (name i ∈ taken) then first_free fuel taken name (i + 1) else name i
  end.

Definition reserve (s : ddlScope) (rel : RelKey) (columns : list string) : RelKey * ddlScope :=
  let key := first_free (100 * S (base.size (taken s))) (taken s) (index_name rel columns) 0 in
  (key, mkScope (s_children s) (kinds s) ({[key]} ∪ taken s)).

(** ** The script *)

Record ddlWriter := mkWriter { scope : ddlScope; buf : string; budget : Z; skipped : Z }.

Definition newline : string := String (char 10) "".

Definition line (w : ddlWriter) (s : string) : ddlWriter :=
  mkWriter (scope w) ((if decide (buf w = "") then "" else buf w +:+ newline) +:+ s) (budget w) (skipped w).

Definition with_scope (w : ddlWriter) (s : ddlScope) : ddlWriter := mkWriter s (buf w) (budget w) (skipped w).

(** [children], over the writer of one subtree. *)
Definition write_children (sub : ddlWriter → RelKey → RelKey → ddlWriter) (w : ddlWriter) (node nodeIdx : RelKey) : ddlWriter :=
  foldl (λ w child,
    if budget w <=? 0 then mkWriter (scope w) (buf w) (budget w) (skipped w + leaves (scope w) child)
    else sub (line (mkWriter (scope w) (buf w) (budget w - 1) (skipped w)) "") child nodeIdx)
    w (children_of (scope w) node).

Fixpoint subtree (fuel : nat) (columns : list string) (cols : string) (w : ddlWriter) (node parentIdx : RelKey) : ddlWriter :=
  match fuel with
  | O => w
  | S fuel =>
      let '(nodeIdx, s) := reserve (scope w) node columns in
      let w := with_scope w s in
      let w :=
        if partitioned s node then
          write_children (subtree fuel columns cols)
            (line w ("CREATE INDEX " +:+ quoteIdent (k_Name nodeIdx) +:+ " ON ONLY " +:+ quoted node +:+ " " +:+ cols +:+ ";"))
            node nodeIdx
        else
          line w ("CREATE INDEX CONCURRENTLY " +:+ quoteIdent (k_Name nodeIdx) +:+ " ON " +:+ quoted node +:+ " " +:+ cols +:+ ";") in
      line w ("ALTER INDEX " +:+ quoted parentIdx +:+ " ATTACH PARTITION " +:+ quoted nodeIdx +:+ ";")
  end.

Definition partitionDDL (root : RelKey) (columns : list string) (cols : string) (s : ddlScope) : string * ddlScope :=
  let '(rootIdx, s) := reserve s root columns in
  let w := mkWriter s "" ddlMaxPartitions 0 in
  let w := line w ("CREATE INDEX " +:+ quoteIdent (k_Name rootIdx) +:+ " ON ONLY " +:+ quoted root +:+ " " +:+ cols +:+ ";") in
  let w := write_children (subtree (depth s) columns cols) w root rootIdx in
  let w :=
    if 0 <? skipped w then
      line (line w "") ("-- " +:+ pretty (skipped w) +:+ " more partitions are not listed here: " +:+
        quoteIdent (k_Name rootIdx) +:+ " stays invalid until every one of them is built and attached the same way")
    else w in
  (buf w, scope w).

Definition ddlFor (key : RelKey) (columns predicate : list string) (s : ddlScope) : string * ddlScope :=
  let cols := columnList columns +:+ whereClause predicate in
  if negb (partitioned s key) then ("CREATE INDEX CONCURRENTLY ON " +:+ quoted key +:+ " " +:+ cols +:+ ";", s)
  else if decide (children_of s key = []) then ("CREATE INDEX ON " +:+ quoted key +:+ " " +:+ cols +:+ ";", s)
  else partitionDDL key columns cols s.

(** ** A name is always found *)

Lemma pretty_go_length d x s : (10 ^ N.of_nat d ≤ x < 10 ^ N.of_nat (S d))%N →
  String.length (pretty_N_go x s) = (S d + String.length s)%nat.
Proof.
  revert x s. induction d as [|d IH]; intros x s Hx.
  - change (10 ^ N.of_nat 0)%N with 1%N in Hx. change (10 ^ N.of_nat 1)%N with 10%N in Hx.
    rewrite pretty_N_go_step by lia. rewrite N.div_small by lia. done.
  - rewrite pretty_N_go_step by lia. rewrite IH; [cbn; lia|].
    rewrite !Nat2N.inj_succ, !N.pow_succ_r' in *. split; [apply N.div_le_lower_bound; lia|apply N.Div0.div_lt_upper_bound; lia].
Qed.

Lemma pretty_length d i : 10 ^ Z.of_nat d ≤ i < 10 ^ Z.of_nat (S d) → String.length (pretty i) = S d.
Proof.
  intros Hi. assert (Hp : 0 < 10 ^ Z.of_nat d) by (apply Z.pow_pos_nonneg; lia). destruct i as [|p|p]; [lia| |lia].
  change (pretty (Zpos p)) with (pretty_N_go (Npos p) ""). rewrite (pretty_go_length d); [cbn; lia|].
  rewrite <- !nat_N_Z in Hi. change 10 with (Z.of_N 10) in Hi. rewrite <- !N2Z.inj_pow in Hi. lia.
Qed.

(** The part of [truncIdent] before the suffix depends on the suffix's length only. *)
Definition ident_stem (base : string) (n : nat) : string :=
  let limit := (maxIdentLen - n)%nat in
  if decide (String.length base ≤ limit)%nat then base else drop_invalid limit base.

Lemma truncIdent_stem base suffix : truncIdent base suffix = ident_stem base (String.length suffix) +:+ suffix.
Proof. unfold truncIdent, ident_stem. by case_decide. Qed.

Lemma substring_length n s : (String.length (String.substring 0 n s) ≤ n)%nat.
Proof. revert s. induction n as [|n IH]; intros [|c s]; cbn; try lia. specialize (IH s). lia. Qed.

Lemma drop_invalid_spec n base : (String.length (drop_invalid n base) ≤ n)%nat ∧ ValidString (drop_invalid n base) = true.
Proof.
  induction n as [|n [IHl IHv]]; cbn [drop_invalid]; [done|].
  destruct (ValidString (String.substring 0 (S n) base)) eqn:Hv; [|split; [lia|done]]. split; [apply substring_length|done].
Qed.

(** A truncated name fits [NAMEDATALEN], and is valid UTF-8 if the whole one is. *)
Lemma truncIdent_spec base suffix : (String.length suffix ≤ maxIdentLen)%nat →
  (String.length (truncIdent base suffix) ≤ maxIdentLen)%nat ∧
  (ValidString base = true → ValidString suffix = true → ValidString (truncIdent base suffix) = true).
Proof.
  intros Hs. unfold truncIdent. destruct (drop_invalid_spec (maxIdentLen - String.length suffix) base) as [Hl Hv].
  case_decide; rewrite str_length_app; (split; [lia|intros ? ?; by apply valid_app]).
Qed.

Lemma index_name_inj rel columns d i j :
  10 ^ Z.of_nat d ≤ i < 10 ^ Z.of_nat (S d) → 10 ^ Z.of_nat d ≤ j < 10 ^ Z.of_nat (S d) →
  index_name rel columns i = index_name rel columns j → i = j.
Proof.
  intros Hi Hj Heq. assert (0 < 10 ^ Z.of_nat d) by (apply Z.pow_pos_nonneg; lia).
  unfold index_name in Heq. rewrite !(proj2 (Z.ltb_lt 0 _)) in Heq by lia. injection Heq as Heq.
  rewrite !truncIdent_stem, (pretty_length d i), (pretty_length d j) in Heq by done.
  apply string_app_length_inj in Heq as [_ Heq]; [|done]. by apply (inj pretty) in Heq.
Qed.

Lemma first_free_spec fuel taken name i :
  (∃ j, i ≤ j < i + Z.of_nat fuel ∧ first_free fuel taken name i = name j ∧ name j ∉ taken) ∨
  (∀ j, i ≤ j < i + Z.of_nat fuel → name j ∈ taken).
Proof.
  revert i. induction fuel as [|fuel IH]; intros i; [right; lia|]. cbn [first_free]. case_decide as Ht.
  - destruct (IH (i + 1)) as [(j & Hj & Heq & Hn)|Hall]; [left; exists j; split_and!; [lia..|done|done]|].
    right. intros j Hj. destruct (decide (j = i)) as [->|]; [done|]. apply Hall. lia.
  - left. exists i. split_and!; [lia..|done|done].
Qed.

(** Some power of ten below [100 (n + 1)] leaves room for more than [n] numbers of one length. *)
Lemma digits_exist (n : nat) : ∃ d : nat, Z.of_nat n < 9 * 10 ^ Z.of_nat d ∧ 10 ^ Z.of_nat (S d) ≤ 100 * Z.of_nat (S n).
Proof.
  assert (Hex : ∀ k : nat, (∃ d : nat, (d < k)%nat ∧ Z.of_nat n < 9 * 10 ^ Z.of_nat d ∧ 10 ^ Z.of_nat (S d) ≤ 100 * Z.of_nat (S n)) ∨
    (∀ d : nat, (d < k)%nat → 9 * 10 ^ Z.of_nat d ≤ Z.of_nat n)).
  { induction k as [|k [(d & Hd & ?)|IH]]; [right; lia|left; exists d; split; [lia|done]|].
    destruct (decide (Z.of_nat n < 9 * 10 ^ Z.of_nat k)) as [Hlt|Hge].
    - left. exists k. split_and!; [lia|done|]. destruct k as [|k]; [change (10 ^ Z.of_nat 1) with 10; lia|].
      specialize (IH k ltac:(lia)). rewrite !Nat2Z.inj_succ, !Z.pow_succ_r in * by lia. lia.
    - right. intros d Hd. destruct (decide (d = k)) as [->|]; [lia|]. apply IH. lia. }
  destruct (Hex (S n)) as [(d & _ & ?)|Hall]; [by exists d|]. exfalso. specialize (Hall n ltac:(lia)).
  pose proof (Z.pow_gt_lin_r 10 (Z.of_nat n) ltac:(lia) ltac:(lia)). lia.
Qed.

Lemma reserve_free s rel columns : ∃ i, 0 ≤ i < 100 * Z.of_nat (S (base.size (taken s))) ∧
  (reserve s rel columns).1 = index_name rel columns i ∧ (reserve s rel columns).1 ∉ taken s.
Proof.
  unfold reserve. cbn [fst]. set (n := base.size (taken s)). set (name := index_name rel columns).
  destruct (first_free_spec (100 * S n) (taken s) name 0) as [(j & Hj & -> & Hn)|Hall];
    [exists j; split_and!; [lia..|done|done]|]. exfalso.
  destruct (digits_exist n) as (d & Hlt & Hle).
  set (js := seqZ (10 ^ Z.of_nat d) (9 * 10 ^ Z.of_nat d)).
  assert (Hp : 0 < 10 ^ Z.of_nat d) by (apply Z.pow_pos_nonneg; lia).
  assert (Hjs : ∀ j, j ∈ js → 10 ^ Z.of_nat d ≤ j < 10 ^ Z.of_nat (S d)).
  { intros j Hj%elem_of_seqZ. rewrite Nat2Z.inj_succ, Z.pow_succ_r by lia. lia. }
  assert (Hnd : NoDup (name <$> js)).
  { apply NoDup_fmap_2_strong; [|apply NoDup_seqZ]. intros i j Hi Hj. by apply (index_name_inj rel columns d); apply Hjs. }
  assert (Hsub : (list_to_set (name <$> js) : gset RelKey) ⊆ taken s).
  { intros x (j & -> & Hj)%elem_of_list_to_set%list_elem_of_fmap. apply Hall. specialize (Hjs j Hj). lia. }
  apply subseteq_size in Hsub. rewrite size_list_to_set, length_fmap in Hsub by done.
  unfold js in Hsub. rewrite length_seqZ in Hsub. fold n in Hsub. lia.
Qed.

(** ** The tree *)

(** The scope of a catalog whose partitions form trees. *)
Record forest (s : ddlScope) : Prop := {
  ranked : ∃ rank : RelKey → nat, ∀ m n, n ∈ children_of s m → (rank n < rank m)%nat;
  known : ∀ m n, n ∈ children_of s m → n ∈ dom (kinds s)
}.

Definition same_tree (s s' : ddlScope) : Prop := s_children s' = s_children s ∧ kinds s' = kinds s.

Definition below (s : ddlScope) (rank : RelKey → nat) (node : RelKey) : gset RelKey :=
  filter (λ k, (rank k < rank node)%nat) (dom (kinds s)).

Section tree.
Variables (s : ddlScope) (rank : RelKey → nat).
Hypothesis Hrank : ∀ m n, n ∈ children_of s m → (rank n < rank m)%nat.
Hypothesis Hknown : ∀ m n, n ∈ children_of s m → n ∈ dom (kinds s).

Lemma below_child m n : n ∈ children_of s m → (base.size (below s rank n) < base.size (below s rank m))%nat.
Proof using Hrank Hknown.
  intros Hn. apply subset_size. unfold below. split.
  - intros k. rewrite !elem_of_filter. specialize (Hrank m n Hn). intros [? ?]. split; [lia|done].
  - intros Hsub. assert (n ∈ filter (λ k, (rank k < rank n)%nat) (dom (kinds s))) as [? _]%elem_of_filter; [|lia].
    apply Hsub, elem_of_filter. split; [by apply Hrank|by eapply Hknown].
Qed.

Lemma below_depth n : (base.size (below s rank n) < depth s)%nat.
Proof.
  unfold depth. rewrite <- size_dom. apply Nat.lt_succ_r, subseteq_size. unfold below. by intros k [_ ?]%elem_of_filter.
Qed.

Lemma foldl_leaves f g cs z : (∀ c, c ∈ cs → leaves_go f s c = leaves_go g s c) →
  foldl (λ n child, n + leaves_go f s child) z cs = foldl (λ n child, n + leaves_go g s child) z cs.
Proof.
  revert z. induction cs as [|c cs IH]; intros z Hcs; [done|]. cbn. rewrite (Hcs c) by left. apply IH.
  intros c' Hc'. apply Hcs. by right.
Qed.

Lemma leaves_go_fuel f g node : (base.size (below s rank node) < f)%nat → (base.size (below s rank node) < g)%nat →
  leaves_go f s node = leaves_go g s node.
Proof using Hrank Hknown.
  revert g node. induction f as [|f IH]; intros [|g] node Hf Hg; try lia. cbn [leaves_go].
  destruct (partitioned s node); [|done]. apply foldl_leaves. intros c Hc. pose proof (below_child _ _ Hc). apply IH; lia.
Qed.

Lemma foldl_sumZ {A} (f : A → Z) l z : foldl (λ n x, n + f x) z l = z + sumZ (f <$> l).
Proof.
  revert z. induction l as [|x l IH]; intros z; [unfold sumZ; cbn; lia|]. rewrite fmap_cons, sumZ_cons. cbn [foldl].
  rewrite IH. lia.
Qed.

Lemma leaves_unfold node :
  leaves s node = if partitioned s node then sumZ (leaves s <$> children_of s node) else 1.
Proof using Hrank Hknown.
  unfold leaves at 1, depth at 1. cbn [leaves_go]. destruct (partitioned s node); [|done].
  rewrite (foldl_leaves _ (depth s)); [unfold leaves; by rewrite foldl_sumZ|].
  intros c Hc. pose proof (below_child _ _ Hc). pose proof (below_depth node). pose proof (below_depth c).
  unfold depth in *. apply leaves_go_fuel; lia.
Qed.
End tree.

(** [leaves] ends on a forest: it counts the leaves below a partitioned table, and an
    ordinary one as itself. *)
Lemma leaves_counts s node : forest s →
  leaves s node = if partitioned s node then sumZ (leaves s <$> children_of s node) else 1.
Proof. intros [[rank Hrank] Hknown]. by apply (leaves_unfold s rank). Qed.

Lemma same_children s s' k : same_tree s s' → children_of s' k = children_of s k.
Proof. unfold children_of. by intros [-> _]. Qed.

Lemma same_partitioned s s' k : same_tree s s' → partitioned s' k = partitioned s k.
Proof. unfold partitioned, kind_of. by intros [_ ->]. Qed.

Lemma same_leaves s s' k : same_tree s s' → leaves s' k = leaves s k.
Proof.
  intros Hs. unfold leaves, depth. destruct Hs as [Hc Hk]. rewrite Hk. generalize (S (base.size (kinds s))). intros fuel.
  revert k. induction fuel as [|fuel IH]; intros k; [done|]. cbn [leaves_go].
  rewrite (same_partitioned s s' k) by done. rewrite (same_children s s' k) by done.
  destruct (partitioned s k); [|done]. generalize (children_of s k), 0. intros l. induction l as [|c l IHl]; intros z; [done|].
  cbn. rewrite IH. apply IHl.
Qed.

(** ** The lines of a script *)

Inductive stmt :=
  | CreateOnOnly (idx rel : RelKey) | CreateConcurrently (idx rel : RelKey) | AttachPartition (parent child : RelKey)
  | Blank | Unlisted (n : Z) (root : RelKey).

Definition show_stmt (cols : string) (st : stmt) : string :=
  match st with
  | CreateOnOnly i r => "CREATE INDEX " +:+ quoteIdent (k_Name i) +:+ " ON ONLY " +:+ quoted r +:+ " " +:+ cols +:+ ";"
  | CreateConcurrently i r =>
      "CREATE INDEX CONCURRENTLY " +:+ quoteIdent (k_Name i) +:+ " ON " +:+ quoted r +:+ " " +:+ cols +:+ ";"
  | AttachPartition p c => "ALTER INDEX " +:+ quoted p +:+ " ATTACH PARTITION " +:+ quoted c +:+ ";"
  | Blank => ""
  | Unlisted n r =>
      "-- " +:+ pretty n +:+ " more partitions are not listed here: " +:+ quoteIdent (k_Name r) +:+
      " stays invalid until every one of them is built and attached the same way"
  end.

Definition creates (l : list stmt) : list (RelKey * RelKey) :=
  omap (λ st, match st with CreateOnOnly i r | CreateConcurrently i r => Some (i, r) | _ => None end) l.
Definition attaches (l : list stmt) : list (RelKey * RelKey) :=
  omap (λ st, match st with AttachPartition p c => Some (p, c) | _ => None end) l.
Definition concurrent (l : list stmt) : Z :=
  Z.of_nat (length (omap (λ st, match st with CreateConcurrently i r => Some (i, r) | _ => None end) l)).

Definition put_line (b s : string) : string := (if decide (b = "") then "" else b +:+ newline) +:+ s.

(** What a part of the writer adds: lines, names, and its share of the budget and of the
    leaves, given the indexes that exist already. *)
Record adds (columns : list string) (cols : string) (w w' : ddlWriter) (before : list (RelKey * RelKey)) (l : list stmt)
    (b lv : Z) : Prop := {
  a_tree : same_tree (scope w) (scope w');
  a_buf : buf w' = foldl put_line (buf w) (show_stmt cols <$> l);
  a_taken : taken (scope w') = list_to_set (creates l).*1 ∪ taken (scope w);
  a_fresh : NoDup (creates l).*1 ∧ ∀ i, i ∈ (creates l).*1 → i ∉ taken (scope w);
  a_named : ∀ i r, (i, r) ∈ creates l → ∃ n, 0 ≤ n < 100 * Z.of_nat (S (base.size (taken (scope w')))) ∧ i = index_name r columns n;
  a_attach : ∀ l1 p c l2, l = l1 ++ AttachPartition p c :: l2 →
    ∃ m n, (p, m) ∈ before ++ creates l1 ∧ (c, n) ∈ before ++ creates l1 ∧ n ∈ children_of (scope w) m;
  a_budget : budget w' + Z.of_nat (length (creates l)) = budget w + b;
  a_leaves : skipped w' + concurrent l = skipped w + lv
}.

Lemma creates_app l l' : creates (l ++ l') = creates l ++ creates l'.
Proof. apply omap_app. Qed.
Lemma attaches_app l l' : attaches (l ++ l') = attaches l ++ attaches l'.
Proof. apply omap_app. Qed.
Lemma concurrent_app l l' : concurrent (l ++ l') = concurrent l + concurrent l'.
Proof. unfold concurrent. rewrite omap_app, length_app. lia. Qed.

Lemma adds_trans columns cols w w1 w2 before l1 l2 b1 b2 v1 v2 :
  adds columns cols w w1 before l1 b1 v1 → adds columns cols w1 w2 (before ++ creates l1) l2 b2 v2 →
  adds columns cols w w2 before (l1 ++ l2) (b1 + b2) (v1 + v2).
Proof.
  intros [[Tc Tk] B T [N F] Nm A Bu L] [[Tc' Tk'] B' T' [N' F'] Nm' A' Bu' L']. split.
  - split; congruence.
  - by rewrite fmap_app, foldl_app, <- B.
  - rewrite T', T, creates_app, fmap_app, list_to_set_app_L. set_solver.
  - rewrite creates_app, fmap_app, NoDup_app. rewrite T in F'. split_and!; [done| |done|].
    + intros i Hi Hi'. apply (F' i Hi'). set_solver.
    + intros i [Hi|Hi]%elem_of_app; [by apply F|]. specialize (F' i Hi). set_solver.
  - intros i r. rewrite creates_app, elem_of_app. intros [Hi|Hi]; [|by apply Nm'].
    destruct (Nm i r Hi) as (n & Hn & ->). exists n. split; [|done].
    assert (base.size (taken (scope w1)) ≤ base.size (taken (scope w2)))%nat by (apply subseteq_size; set_solver). lia.
  - intros k p c k' Heq. apply app_eq_inv in Heq as [(m & -> & Hm)|(m & -> & Hm)].
    + destruct m as [|st m]; cbn in Hm.
      * rewrite app_nil_r in *. destruct (A' [] p c k' (eq_sym Hm)) as (x & y & Hx & Hy & Hxy). exists x, y.
        rewrite !app_nil_r in *. split_and!; [done..|]. unfold children_of in *. by rewrite <- Tc.
      * injection Hm as <- ->. destruct (A k p c m eq_refl) as (x & y & ?). by exists x, y.
    + destruct (A' m p c k' Hm) as (x & y & Hx & Hy & Hxy). exists x, y. rewrite creates_app, app_assoc.
      split_and!; [done..|]. unfold children_of in *. by rewrite <- Tc.
  - rewrite creates_app, length_app. lia.
  - rewrite concurrent_app. lia.
Qed.

Lemma adds_nil columns cols w before : adds columns cols w w before [] 0 0.
Proof.
  split; try done.
  - cbn. set_solver.
  - split; [constructor|]. intros i []%elem_of_nil.
  - intros i r []%elem_of_nil.
  - by intros [|? ?].
Qed.

(** A line that neither creates nor attaches. *)
Lemma adds_line columns cols w before st : creates [st] = [] → attaches [st] = [] →
  adds columns cols w (line w (show_stmt cols st)) before [st] 0 0.
Proof.
  intros Hc Ha. split; cbn [line scope buf budget skipped fmap list_fmap foldl]; rewrite ?Hc; try done.
  - cbn. set_solver.
  - split; [constructor|]. intros i []%elem_of_nil.
  - intros i r []%elem_of_nil.
  - intros [|st' [|? ?]] p c l2; cbn; try done. intros [= ->]. done.
  - destruct st; try done; unfold concurrent; cbn; lia.
Qed.

Lemma adds_attach columns cols w before p c m n : (p, m) ∈ before → (c, n) ∈ before → n ∈ children_of (scope w) m →
  adds columns cols w (line w (show_stmt cols (AttachPartition p c))) before [AttachPartition p c] 0 0.
Proof.
  intros Hp Hc Hn. split; cbn [line scope buf budget skipped fmap list_fmap foldl]; try done.
  - cbn. set_solver.
  - split; [constructor|]. intros i []%elem_of_nil.
  - intros i r []%elem_of_nil.
  - intros [|st' [|? ?]] p' c' l2; cbn; try done. intros [= -> -> _]. exists m, n. by rewrite app_nil_r.
Qed.

(** Reserving a name and creating the index of that name. *)
Lemma adds_create columns cols w rel before st :
  let '(idx, s) := reserve (scope w) rel columns in
  st idx = CreateOnOnly idx rel ∨ st idx = CreateConcurrently idx rel →
  adds columns cols w (line (with_scope w s) (show_stmt cols (st idx))) before [st idx] 1 (concurrent [st idx]).
Proof.
  destruct (reserve_free (scope w) rel columns) as (n & Hn & Hidx & Hfree).
  destruct (reserve (scope w) rel columns) as [idx s] eqn:Hr. cbn [fst] in *.
  assert (Hs : s = mkScope (s_children (scope w)) (kinds (scope w)) ({[idx]} ∪ taken (scope w))).
  { unfold reserve in Hr. by injection Hr as <- <-. }
  intros Hst. assert (Hc : creates [st idx] = [(idx, rel)]) by (destruct Hst as [-> | ->]; done).
  split; cbn [line with_scope scope buf budget skipped fmap list_fmap foldl]; rewrite ?Hc; subst s; cbn [s_children kinds taken]; try done.
  - f_equal. set_solver.
  - split; [apply NoDup_singleton|]. intros i ->%list_elem_of_singleton. done.
  - intros i r [= -> ->]%list_elem_of_singleton. exists n. split; [|done]. split; [lia|].
    rewrite size_union, size_singleton; [lia|]. set_solver.
  - intros [|st' [|? ?]] p c l2; cbn; try done; intros [= Heq]; exfalso; destruct Hst as [Hst|Hst]; by rewrite Hst in Heq.
Qed.

Lemma concurrent_cases i r : concurrent [CreateOnOnly i r] = 0 ∧ concurrent [CreateConcurrently i r] = 1.
Proof. done. Qed.

(** What the writer of a subtree promises: it adds the whole subtree, and attaches what it
    creates. *)
Definition writes_subtree (columns : list string) (cols : string) (s0 : ddlScope)
    (sub : ddlWriter → RelKey → RelKey → ddlWriter) (node : RelKey) : Prop :=
  ∀ w parentIdx m before, same_tree s0 (scope w) → (parentIdx, m) ∈ before → node ∈ children_of s0 m → 0 ≤ budget w →
  ∃ l, adds columns cols w (sub w node parentIdx) before l 1 (leaves s0 node) ∧
    (creates l).*1 ≡ₚ (attaches l).*2 ∧ 0 ≤ budget (sub w node parentIdx).

Lemma same_tree_trans s1 s2 s3 : same_tree s1 s2 → same_tree s2 s3 → same_tree s1 s3.
Proof. unfold same_tree. intros [? ?] [? ?]. split; congruence. Qed.

Lemma write_children_adds columns cols s0 sub w node nodeIdx before :
  (∀ c, c ∈ children_of s0 node → writes_subtree columns cols s0 sub c) →
  same_tree s0 (scope w) → (nodeIdx, node) ∈ before → 0 ≤ budget w →
  ∃ l, adds columns cols w (write_children sub w node nodeIdx) before l 0 (sumZ (leaves s0 <$> children_of s0 node)) ∧
    (creates l).*1 ≡ₚ (attaches l).*2 ∧ 0 ≤ budget (write_children sub w node nodeIdx).
Proof.
  unfold write_children. intros Hsub Hs. rewrite (same_children s0 _ node Hs).
  assert (Hin : ∀ c, c ∈ children_of s0 node → c ∈ children_of s0 node) by done. revert Hin.
  generalize (children_of s0 node) at 1 3 4 5. intros cs Hin. revert w before Hs.
  induction cs as [|c cs IH]; intros w before Hs Hidx Hb; [exists []; split_and!; [apply adds_nil|done..]|].
  cbn [foldl]. rewrite fmap_cons, sumZ_cons.
  assert (Hstep : ∃ w1 l1 b1, w1 = (if budget w <=? 0 then mkWriter (scope w) (buf w) (budget w) (skipped w + leaves (scope w) c)
      else sub (line (mkWriter (scope w) (buf w) (budget w - 1) (skipped w)) "") c nodeIdx) ∧
    adds columns cols w w1 before l1 b1 (leaves s0 c) ∧ b1 = 0 ∧ (creates l1).*1 ≡ₚ (attaches l1).*2 ∧ 0 ≤ budget w1).
  { case_test.
    - eexists _, [], 0. split; [done|]. split_and!; try done. rewrite (same_leaves s0) by done.
      destruct (adds_nil columns cols w before) as [T B K F N A _ _]. split; try done; unfold concurrent; cbn; lia.
    - set (w0 := mkWriter (scope w) (buf w) (budget w - 1) (skipped w)).
      destruct (Hsub c (Hin c (list_elem_of_here _ _)) (line w0 "") nodeIdx node before) as (l & Hl & Hp & Hb'); [done|done|apply Hin; left|cbn; lia|].
      eexists _, ([Blank] ++ l), (0 + 0). split; [done|]. rewrite creates_app, attaches_app. split_and!; [|done|done|done].
      pose proof (adds_line columns cols w0 before Blank eq_refl eq_refl) as Hblank.
      replace before with (before ++ creates [Blank]) in Hl by (cbn; apply app_nil_r).
      pose proof (adds_trans _ _ _ _ _ _ _ _ _ _ _ _ Hblank Hl) as [T B K F N A Bu L]. split; try done.
      cbn [w0 budget] in Bu. lia. }
  destruct Hstep as (w1 & l1 & b1 & <- & Hadd & -> & Hp & Hb').
  destruct (IH (λ c' Hc', Hin c' (list_elem_of_further _ _ _ Hc')) w1 (before ++ creates l1)) as (l2 & Hadd2 & Hp2 & Hb2).
  - eapply same_tree_trans; [exact Hs|]. by destruct Hadd.
  - apply elem_of_app. by left.
  - done.
  - exists (l1 ++ l2). split_and!; [|by rewrite creates_app, attaches_app, !fmap_app, Hp, Hp2|done].
    by apply (adds_trans columns cols w w1 _ before l1 l2 0 0).
Qed.

Lemma subtree_adds columns cols s0 rank fuel node :
  (∀ m n, n ∈ children_of s0 m → (rank n < rank m)%nat) → (∀ m n, n ∈ children_of s0 m → n ∈ dom (kinds s0)) →
  (base.size (below s0 rank node) < fuel)%nat →
  writes_subtree columns cols s0 (subtree fuel columns cols) node.
Proof.
  intros Hrank Hknown. revert node. induction fuel as [|fuel IH]; intros node Hfuel; [lia|].
  intros w pidx m before Hs Hp Hn Hb. cbn [subtree].
  pose proof (adds_create columns cols w node before) as Hcreate.
  destruct (reserve (scope w) node columns) as [idx s] eqn:Hr.
  assert (Hss : same_tree (scope w) s) by (unfold reserve in Hr; by injection Hr as <- <-).
  rewrite (same_partitioned s0 s node) by (by eapply same_tree_trans).
  rewrite (leaves_unfold s0 rank Hrank Hknown). destruct (partitioned s0 node).
  - specialize (Hcreate (λ i, CreateOnOnly i node) (or_introl eq_refl)). cbn beta in Hcreate.
    rewrite (proj1 (concurrent_cases idx node)) in Hcreate.
    change (show_stmt cols (CreateOnOnly idx node)) with
      ("CREATE INDEX " +:+ quoteIdent (k_Name idx) +:+ " ON ONLY " +:+ quoted node +:+ " " +:+ cols +:+ ";") in Hcreate.
    set (w1 := line (with_scope w s) _) in *.
    destruct (write_children_adds columns cols s0 (subtree fuel columns cols) w1 node idx (before ++ [(idx, node)]))
      as (l & Hl & Hpl & Hbl).
    + intros c Hc. apply IH. pose proof (below_child s0 rank Hrank Hknown _ _ Hc). lia.
    + by eapply same_tree_trans.
    + apply elem_of_app. right. by left.
    + done.
    + pose proof (adds_trans _ _ _ _ _ _ _ _ _ _ _ _ Hcreate Hl) as Hboth.
      set (w2 := write_children _ w1 node idx) in *.
      assert (Ht2 : same_tree s0 (scope w2)) by (eapply same_tree_trans; [exact Hs|]; by destruct Hboth).
      pose proof (adds_attach columns cols w2 (before ++ creates ([CreateOnOnly idx node] ++ l)) pidx idx m node) as Hatt.
      rewrite (same_children s0 (scope w2)) in Hatt by done.
      specialize (Hatt ltac:(apply elem_of_app; by left) ltac:(apply elem_of_app; right; by left) Hn).
      exists (([CreateOnOnly idx node] ++ l) ++ [AttachPartition pidx idx]). split_and!; [|..|done].
      * pose proof (adds_trans _ _ _ _ _ _ _ _ _ _ _ _ Hboth Hatt) as Hall. by rewrite !Z.add_0_r in Hall.
      * rewrite !creates_app, !attaches_app, !fmap_app. cbn. rewrite Hpl. by rewrite app_nil_r, Permutation_cons_append.
  - specialize (Hcreate (λ i, CreateConcurrently i node) (or_intror eq_refl)). cbn beta in Hcreate.
    rewrite (proj2 (concurrent_cases idx node)) in Hcreate. set (w1 := line (with_scope w s) _) in *.
    pose proof (adds_attach columns cols w1 (before ++ creates [CreateConcurrently idx node]) pidx idx m node) as Hatt.
    rewrite (same_children s0 (scope w1)) in Hatt by (by eapply same_tree_trans).
    specialize (Hatt ltac:(apply elem_of_app; by left) ltac:(apply elem_of_app; right; by left) Hn).
    exists ([CreateConcurrently idx node] ++ [AttachPartition pidx idx]). split_and!; [|done..].
    exact (adds_trans _ _ _ _ _ _ _ _ _ _ _ _ Hcreate Hatt).
Qed.

(** ** The whole script *)

Definition tail_lines (l : list string) : string := foldr (λ s acc, newline +:+ s +:+ acc) "" l.

Lemma strings_Join_lines x l : strings_Join (x :: l) newline = x +:+ tail_lines l.
Proof.
  revert x. induction l as [|y l IH]; intros x; [symmetry; apply str_app_nil_r|].
  change (strings_Join (x :: y :: l) newline) with (x +:+ newline +:+ strings_Join (y :: l) newline). by rewrite IH.
Qed.

Lemma foldl_put_line b l : b ≠ "" → foldl put_line b l = b +:+ tail_lines l.
Proof.
  revert b. induction l as [|s l IH]; intros b Hb; [symmetry; apply str_app_nil_r|]. cbn [foldl].
  assert (Hp : put_line b s = b +:+ newline +:+ s) by (unfold put_line; rewrite decide_False by done; apply string_app_assoc).
  rewrite IH, Hp, !string_app_assoc; [done|]. rewrite Hp. by destruct b.
Qed.

Lemma pretty_length_le d i : 0 < i < 10 ^ Z.of_nat d → (String.length (pretty i) ≤ d)%nat.
Proof.
  induction d as [|d IH]; intros Hi; [change (10 ^ Z.of_nat 0) with 1 in Hi; lia|].
  destruct (decide (i < 10 ^ Z.of_nat d)); [specialize (IH ltac:(lia)); lia|]. rewrite (pretty_length d); lia.
Qed.

Lemma index_name_length rel columns i : 0 ≤ i < 10 ^ 21 → (String.length (k_Name (index_name rel columns i)) ≤ maxIdentLen)%nat.
Proof.
  intros Hi. unfold index_name. cbn [k_Name]. apply truncIdent_spec. unfold maxIdentLen. case_test; [|cbn; lia].
  pose proof (pretty_length_le 21 i ltac:(lia)). lia.
Qed.

(** What a script of statements must be to build an index on the whole tree. *)
Record builds_tree (s : ddlScope) (root rootIdx : RelKey) (columns : list string) (l : list stmt) : Prop := {
  b_first : head l = Some (CreateOnOnly rootIdx root);
  b_names : NoDup ((creates l).*1) ∧ (∀ i, i ∈ (creates l).*1 → i ∉ taken s ∧ (String.length (k_Name i) ≤ maxIdentLen)%nat);
  b_schema : ∀ i r, (i, r) ∈ creates l → k_Schema i = k_Schema r;
  b_attached : (creates l).*1 ≡ₚ rootIdx :: (attaches l).*2;
  b_parents : ∀ l1 p c l2, l = l1 ++ AttachPartition p c :: l2 →
    ∃ m n, (p, m) ∈ creates l1 ∧ (c, n) ∈ creates l1 ∧ n ∈ children_of s m;
  b_cap : Z.of_nat (length (attaches l)) ≤ ddlMaxPartitions
}.

(** The script of a partitioned table: it creates every index under a name of its own that
    nothing else has and the server will not cut, and on the schema of its table; it
    attaches each but the root's, once, after both indexes exist, to the index of the
    table's parent; it lists at most [ddlMaxPartitions] partitions, and says how many
    leaves it left out when there are any; a partitioned table without leaves past that bound is left out
    and not counted ([unlisted_without_notice]). *)
Theorem partitionDDL_script root columns cols s :
  forest s → partitioned s root = true → Z.of_nat (base.size (taken s)) < 2 ^ 62 →
  ∃ l n rootIdx,
    (partitionDDL root columns cols s).1 =
      strings_Join (show_stmt cols <$> (l ++ if 0 <? n then [Blank; Unlisted n rootIdx] else [])) newline ∧
    builds_tree s root rootIdx columns l ∧ concurrent l + n = leaves s root ∧
    taken (partitionDDL root columns cols s).2 = list_to_set (creates l).*1 ∪ taken s.
Proof.
  intros Hf Hpart Hsize. pose proof Hf as [[rank Hrank] Hknown]. unfold partitionDDL.
  set (w00 := mkWriter s "" ddlMaxPartitions 0).
  pose proof (adds_create columns cols w00 root []) as Hcreate. change (scope w00) with s in Hcreate.
  destruct (reserve s root columns) as [rootIdx s1] eqn:Hr.
  specialize (Hcreate (λ i, CreateOnOnly i root) (or_introl eq_refl)). cbn beta in Hcreate.
  rewrite (proj1 (concurrent_cases rootIdx root)) in Hcreate.
  change (line (mkWriter s1 "" ddlMaxPartitions 0)) with (line (with_scope w00 s1)).
  change ("CREATE INDEX " +:+ quoteIdent (k_Name rootIdx) +:+ " ON ONLY " +:+ quoted root +:+ " " +:+ cols +:+ ";") with
    (show_stmt cols (CreateOnOnly rootIdx root)).
  set (w1 := line (with_scope w00 s1) _) in *.
  destruct (write_children_adds columns cols s (subtree (depth s1) columns cols) w1 root rootIdx ([] ++ [(rootIdx, root)]))
    as (l & Hl & Hp & Hb).
  - intros c Hc. apply (subtree_adds columns cols s rank); [done..|].
    assert (depth s1 = depth s) as -> by (unfold depth, reserve in *; by injection Hr as <- <-). apply below_depth.
  - by destruct Hcreate.
  - by left.
  - unfold w1, w00, ddlMaxPartitions. cbn. lia.
  - set (w2 := write_children _ w1 root rootIdx) in *.
    pose proof (adds_trans _ _ _ _ _ _ _ _ _ _ _ _ Hcreate Hl) as [Htree Hbuf Htaken [Hnd Hfresh] Hnamed Hatt Hbud Hlv].
    set (body := [CreateOnOnly rootIdx root] ++ l) in *.
    assert (Hcl : (creates body).*1 = rootIdx :: (creates l).*1) by (unfold body; by rewrite creates_app, fmap_app).
    assert (Hal : attaches body = attaches l) by done.
    assert (Hlen : length (attaches l) = length (creates l)) by (by rewrite <- (length_fmap snd), <- Hp, length_fmap).
    assert (Hcap : Z.of_nat (length (attaches l)) ≤ ddlMaxPartitions).
    { unfold body in Hbud. rewrite creates_app, length_app in Hbud. cbn in Hbud. lia. }
    assert (Hpos : ∀ i r, (i, r) ∈ creates body → ∃ k, 0 ≤ k < 10 ^ 21 ∧ i = index_name r columns k).
    { intros i r Hi. destruct (Hnamed i r Hi) as (k & Hk & ->). exists k. split; [|done].
      assert (base.size (taken (scope w2)) ≤ S (length (creates l)) + base.size (taken s))%nat.
      { change (scope w00) with s in Htaken. rewrite Htaken, Hcl.
        rewrite size_union by (intros j Hj Hj'; apply (Hfresh j); [rewrite Hcl; by apply elem_of_list_to_set in Hj|done]).
        rewrite size_list_to_set by (by rewrite <- Hcl). cbn. rewrite length_fmap. lia. }
      unfold ddlMaxPartitions in Hcap. lia. }
    exists body, (skipped w2), rootIdx. split_and!.
    + rewrite fmap_app. unfold body. cbn [app fmap list_fmap]. rewrite strings_Join_lines.
      unfold body in Hbuf. cbn [app fmap list_fmap foldl w00 buf] in Hbuf.
      change (put_line "" ?x) with x in Hbuf. rewrite <- foldl_put_line by done. rewrite foldl_app, <- Hbuf.
      by destruct (0 <? skipped w2).
    + split; [done|split; [done|]|..|done|by rewrite Hal].
      * intros i Hi. split; [by apply Hfresh|]. apply list_elem_of_fmap in Hi as ([i' r] & -> & Hi).
        destruct (Hpos i' r Hi) as (k & Hk & ->). by apply index_name_length.
      * intros i r Hi. by destruct (Hpos i r Hi) as (k & _ & ->).
      * by rewrite Hcl, Hal, Hp.
    + rewrite (leaves_unfold s rank Hrank Hknown), Hpart. cbn [w00 skipped] in Hlv. lia.
    + change (scope w00) with s in Htaken. rewrite <- Htaken. by destruct (0 <? skipped w2).
Qed.

(** ** The scope of a catalog *)

Definition child_of (m : RelKey) (kr : RelKey * Relation) : option RelKey :=
  if decide (Parent kr.2 = m ∧ k_Name m ≠ "") then Some kr.1 else None.

Lemma fold_scope l : NoDup l.*1 →
  let s := foldl scope_relation (mkScope ∅ ∅ ∅) l in
  (∀ m, children_of s m = omap (child_of m) l) ∧
  (∀ k, kinds s !! k = rel_Kind <$> (list_to_map l : gmap RelKey Relation) !! k) ∧ taken s = list_to_set l.*1.
Proof.
  induction l as [|[k r] l IH] using rev_ind; intros Hnd; cbn zeta.
  { cbn. split_and!; [by intros|intros k; by rewrite !lookup_empty|done]. }
  rewrite fmap_app, NoDup_app in Hnd. destruct Hnd as (Hnd & Hdisj & _). specialize (IH Hnd). cbn zeta in IH.
  destruct IH as (Hc & Hk & Ht). rewrite foldl_app. cbn [foldl]. set (s := foldl _ _ l) in *. unfold scope_relation.
  cbn [s_children kinds taken]. split_and!.
  - intros m. rewrite omap_app, <- Hc. cbn [omap list_omap]. unfold child_of, children_of. cbn [fst snd s_children].
    case_decide as Hp; [rewrite at_key_insert; case_decide as Hm|].
    + rewrite decide_True by (by subst m). by rewrite Hm.
    + rewrite decide_False by naive_solver. by rewrite app_nil_r.
    + rewrite decide_False by naive_solver. by rewrite app_nil_r.
  - intros k'. rewrite list_to_map_app. destruct (decide (k = k')) as [<-|Hne].
    + rewrite lookup_insert_eq, lookup_union_r; [by cbn; rewrite lookup_insert_eq|]. apply not_elem_of_list_to_map_1.
      intros Hin. apply (Hdisj _ Hin). by left.
    + rewrite lookup_insert_ne, Hk by done. cbn.
      rewrite lookup_union. rewrite lookup_insert_ne, lookup_empty by done. by destruct (_ !! k').
  - rewrite fmap_app, list_to_set_app_L, Ht. cbn. set_solver.
Qed.

(** The partitions of a catalog form trees when no table is below itself. *)
Definition acyclic (cat : Catalog) : Prop := ∃ rank : RelKey → nat, ∀ k r,
  Relations cat !! k = Some r → k_Name (Parent r) ≠ "" → (rank k < rank (Parent r))%nat.

Lemma newDDLScope_spec `{MapRange} cat :
  let s := newDDLScope cat in
  (∀ m n, n ∈ children_of s m ↔ ∃ r, Relations cat !! n = Some r ∧ Parent r = m ∧ k_Name m ≠ "") ∧
  (∀ k, kinds s !! k = rel_Kind <$> Relations cat !! k) ∧
  (∀ k, k ∈ taken s ↔ is_Some (Relations cat !! k) ∨
    ∃ t idxs i, Indexes cat !! t = Some idxs ∧ i ∈ idxs ∧ k = mkKey (k_Schema t) (i_Name i)).
Proof.
  unfold newDDLScope. cbn zeta.
  destruct (fold_scope (map_range "newDDLScope.Relations" (Relations cat))) as (Hc & Hk & Ht); [apply map_range_nodup|].
  cbn zeta in *. set (s := foldl _ _ _) in *. cbn [s_children kinds taken]. split_and!.
  - intros m n. unfold children_of at 1. cbn [s_children]. unfold at_key. rewrite lookup_fmap.
    assert (Heq : default [] (sort_slice (less_on k_Name str_ltb) <$> s_children s !! m) ≡ₚ children_of s m).
    { unfold children_of, at_key. destruct (s_children s !! m); cbn; [apply sort_slice_perm|done]. }
    rewrite Heq, Hc, list_elem_of_omap. unfold child_of. split.
    + intros ([k r] & Hin%elem_of_map_range & Hd). cbn in Hd. case_decide as Hp; [|done]. injection Hd as <-. by exists r.
    + intros (r & Hr & <- & Hn). exists (n, r). rewrite elem_of_map_range. split; [done|]. by rewrite decide_True.
  - intros k. by rewrite Hk, map_range_to_map.
  - intros k. rewrite elem_of_union, Ht, !elem_of_list_to_set.
    match goal with |- ?A ∨ ?B ↔ ?C ∨ ?D => enough ((B ↔ C) ∧ (A ↔ D)) by tauto end. split.
    + split.
      * intros ([k' r] & -> & Hin%elem_of_map_range)%list_elem_of_fmap. cbn. eauto.
      * intros [r Hr]. apply list_elem_of_fmap. exists (k, r). by rewrite elem_of_map_range.
    + rewrite list_elem_of_join. split.
      * intros (l & Hin & ([t idxs] & -> & Ht')%list_elem_of_fmap). apply elem_of_map_range in Ht'.
        apply list_elem_of_fmap in Hin as (i & -> & Hi). by exists t, idxs, i.
      * intros (t & idxs & i & Hidx & Hi & ->). exists ((λ i, mkKey (k_Schema t) (i_Name i)) <$> idxs).
        split; [by apply (list_elem_of_fmap_2 (λ i, mkKey (k_Schema t) (i_Name i)))|]. apply list_elem_of_fmap.
        exists (t, idxs). by rewrite elem_of_map_range.
Qed.

Lemma newDDLScope_forest `{MapRange} cat : acyclic cat → forest (newDDLScope cat).
Proof.
  intros [rank Hrank]. destruct (newDDLScope_spec cat) as (Hc & Hk & _). cbn zeta in *. split.
  - exists rank. intros m n (r & Hr & <- & Hn)%Hc. by eapply Hrank.
  - intros m n (r & Hr & _)%Hc. apply elem_of_dom. rewrite Hk, Hr. by eexists.
Qed.

(** ** Examples *)

Definition part (name kind parent : string) : Relation :=
  mkRelation (mkKey "s" name) kind 1000000 1000 (if decide (parent = "") then no_key else mkKey "s" "t")
    (if decide (parent = "") then no_key else mkKey "s" parent).

Definition catalog_of (rs : list Relation) : Catalog := foldl AddRelation NewCatalog rs.

(** A name already taken is numbered, and a long one cut for the number. *)
Definition long_name : string := strings_Join (replicate 8 "orders_") "".
Definition names_twice : list string :=
  let '(a, s) := reserve (mkScope ∅ ∅ {[mkKey "s" "t_a_idx"]}) (mkKey "s" "t") ["a"] in
  let '(b, s) := reserve s (mkKey "s" long_name) ["customer_id"] in
  let '(c, s) := reserve s (mkKey "s" long_name) ["customer_id"] in k_Name <$> [a; b; c].

Example reserve_names :
  names_twice = ["t_a_idx1"; "orders_orders_orders_orders_orders_orders_orders_orders__custom";
                 "orders_orders_orders_orders_orders_orders_orders_orders__custo1"].
Proof. by vm_compute. Qed.

Definition small_tree : Catalog :=
  catalog_of [part "t" "p" ""; part "p2" "r" "t"; part "p1" "p" "t"; part "p1a" "r" "p1"].

Example small_script :
  (ddlFor (mkKey "s" "t") ["a"] ["b"] (newDDLScope (H := canonical_range) small_tree)).1 =
  strings_Join (show_stmt (columnList ["a"] +:+ whereClause ["b"]) <$>
    [CreateOnOnly (mkKey "s" "t_a_idx") (mkKey "s" "t"); Blank;
     CreateOnOnly (mkKey "s" "p1_a_idx") (mkKey "s" "p1"); Blank;
     CreateConcurrently (mkKey "s" "p1a_a_idx") (mkKey "s" "p1a");
     AttachPartition (mkKey "s" "p1_a_idx") (mkKey "s" "p1a_a_idx");
     AttachPartition (mkKey "s" "t_a_idx") (mkKey "s" "p1_a_idx"); Blank;
     CreateConcurrently (mkKey "s" "p2_a_idx") (mkKey "s" "p2");
     AttachPartition (mkKey "s" "t_a_idx") (mkKey "s" "p2_a_idx")]) newline.
Proof. by vm_compute. Qed.

(** A partitioned table without partitions past the cap has no leaves to count: the script
    leaves its index out and looks complete, though the root's stays invalid. *)
Definition capped_tree : Catalog :=
  catalog_of (part "t" "p" "" :: part "z" "p" "t" ::
    ((λ i, part ("p" +:+ pretty (Z.of_nat i)) "r" "t") <$> seq 10 20)).

Example unlisted_without_notice :
  let s := newDDLScope (H := canonical_range) capped_tree in
  let text := (ddlFor (mkKey "s" "t") ["a"] [] s).1 in
  bool_decide (mkKey "s" "z" ∈ children_of s (mkKey "s" "t")) = true ∧
  Contains text "z" = false ∧ Contains text "more partitions" = false.
Proof. by vm_compute. Qed.

(** Partitions of one name in two schemas come in the order of the map. *)
Definition twin_tree : Catalog :=
  catalog_of [part "t" "p" ""; part "p" "r" "t"; mkRelation (mkKey "s2" "p") "r" 1 1 (mkKey "s" "t") (mkKey "s" "t")].

Example script_follows_map_order :
  (ddlFor (mkKey "s" "t") ["a"] [] (newDDLScope (H := canonical_range) twin_tree)).1 ≠
  (ddlFor (mkKey "s" "t") ["a"] [] (newDDLScope (H := reversed_range) twin_tree)).1.
Proof. by vm_compute. Qed.

Lemma small_tree_acyclic : acyclic small_tree.
Proof.
  exists (λ k, if decide (k = mkKey "s" "t") then 3%nat else if decide (k = mkKey "s" "p1") then 2%nat else 1%nat).
  intros k r Hk. assert (Hall : map_Forall (λ k r, k_Name (Parent r) ≠ "" →
    ((if decide (k = mkKey "s" "t") then 3%nat else if decide (k = mkKey "s" "p1") then 2%nat else 1%nat) <
    (if decide (Parent r = mkKey "s" "t") then 3%nat else if decide (Parent r = mkKey "s" "p1") then 2%nat else 1%nat))%nat)
    (Relations small_tree)) by (apply (bool_decide_unpack _); by vm_compute).
  by apply (Hall k r).
Qed.

Lemma partitionDDL_script_witness :
  let s := newDDLScope (H := canonical_range) small_tree in
  partitioned s (mkKey "s" "t") = true ∧
  ∃ l n rootIdx, builds_tree s (mkKey "s" "t") rootIdx ["a"] l ∧ concurrent l + n = leaves s (mkKey "s" "t").
Proof.
  intros s. assert (Hp : partitioned s (mkKey "s" "t") = true) by by vm_compute. split; [exact Hp|].
  assert (Hsize : Z.of_nat (base.size (taken s)) < 2 ^ 62) by by vm_compute.
  destruct (partitionDDL_script (mkKey "s" "t") ["a"] "" s (newDDLScope_forest _ small_tree_acyclic) Hp Hsize)
    as (l & n & i & _ & Hb & Hn & _). exists l, n, i. split; [exact Hb|exact Hn].
Defined.
