(* ===== verification/AdvisorPredicate.v ===== *)
(** * [internal/indexadvisor/predicate.go]: reading the predicate of a partial index

    The columns of a conjunction of [IS NULL] tests, as the server renders it; nothing for
    any other expression. *)

From S2P Require Import Prelude GoSlices PatroniLayout Sqlparse GoStrings AdvisorCatalog AdvisorDDL.
From Stdlib Require Import Ascii.
From stdpp Require Import options.

#[local] Open Scope string_scope.
#[local] Open Scope Z_scope.
#[local] Open Scope list_scope.

Definition isNullSuffix : string := " IS NULL".
Definition conj_sep : string := " AND ".
Definition lpar : Ascii.ascii := char 40.
Definition rpar : Ascii.ascii := char 41.
Definition special : string := " ()" +:+ dq +:+ "'.,:".

(** The loop of [matchingParen] from byte [i] on. *)
Fixpoint matching_go (i depth : Z) (quoted : bool) (s : string) : Z :=
  match s with
  | EmptyString => -1
  | String c s' =>
      if decide (c = quote) then matching_go (i + 1) depth (negb quoted) s'
      else if quoted then matching_go (i + 1) depth quoted s'
      else if decide (c = lpar) then matching_go (i + 1) (depth + 1) quoted s'
      else if decide (c = rpar) then (if decide (depth - 1 = 0) then i else matching_go (i + 1) (depth - 1) quoted s')
      else matching_go (i + 1) depth quoted s'
  end.

Definition matchingParen (expr : string) : Z := matching_go 0 0 false expr.

(** Every round takes two parentheses off, so the length is enough fuel. *)
Fixpoint trim_parens (fuel : nat) (expr : string) : string :=
  match fuel with
  | O => expr
  | S fuel =>
      if HasPrefix expr "(" && (matchingParen expr =? Z.of_nat (String.length expr) - 1) then
        trim_parens fuel (TrimSpace (String.substring 1 (String.length expr - 2) expr))
      else expr
  end.

Definition trimParens (expr : string) : string := let expr := TrimSpace expr in trim_parens (String.length expr) expr.

(** The loop of [splitConjuncts]: [cur] is the text since [start], [skip] what is left of a
    separator. The result is the parts so far and the text after the last separator. *)
Fixpoint split_go (skip : nat) (depth : Z) (quoted : bool) (out : list string) (cur s : string) : list string * string :=
  match s with
  | EmptyString => (out, cur)
  | String c s' =>
      match skip with
      | S skip => split_go skip depth quoted out cur s'
      | O =>
          let add := cur +:+ String c "" in
          if decide (c = quote) then split_go 0 depth (negb quoted) out add s'
          else if quoted then split_go 0 depth quoted out add s'
          else if decide (c = lpar) then split_go 0 (depth + 1) quoted out add s'
          else if decide (c = rpar) then split_go 0 (depth - 1) quoted out add s'
          else if (depth =? 0) && HasPrefix s conj_sep then
            split_go (String.length conj_sep - 1) depth quoted (out ++ [cur]) "" s'
          else split_go 0 depth quoted out add s'
      end
  end.

Definition splitConjuncts (expr : string) : list string :=
  let '(out, last) := split_go 0 0 false [] "" (revalidate expr) in
  if decide (last = "") then [] else out ++ [last].

Definition unquoteIdent (s : string) : option string :=
  if HasPrefix s dq && HasSuffix s dq && (1 <? Z.of_nat (String.length s)) then
    let inner := String.substring 1 (String.length s - 2) s in
    if Contains (ReplaceAll inner (dq +:+ dq) "") dq then None else Some (ReplaceAll inner (dq +:+ dq) dq)
  else if bool_decide (s = "") || ContainsAny s special then None
  else Some s.

Definition isNullColumn (expr : string) : option string :=
  name ← CutSuffix (trimParens expr) isNullSuffix; unquoteIdent (TrimSpace name).

(** [slices.Compact]. *)
Fixpoint Compact (l : list string) : list string :=
  match l with
  | [] => []
  | x :: l' => match Compact l' with
               | [] => [x]
               | y :: l'' => if decide (x = y) then y :: l'' else x :: y :: l''
               end
  end.

Definition NullPredicateColumns (expr : string) : list string :=
  match mapM isNullColumn (splitConjuncts (trimParens expr)) with
  | Some out => Compact (sort_slice str_ltb out)
  | None => []
  end.

Example null_predicates :
  NullPredicateColumns <$>
    [""; "(deleted_at IS NULL)"; "((responsible IS NULL) AND (deleted_at IS NULL))";
     "(" +:+ dq +:+ "deletedAt" +:+ dq +:+ " IS NULL)"; "(status = 'open'::text)";
     "((deleted_at IS NULL) AND (status_id = 1))"; "(deleted_at IS NOT NULL)";
     "((deleted_at IS NULL) OR (status_id = 1))"; "((lower(email) IS NULL))"; "((deleted_at)::date IS NULL)";
     "(deleted_at::date IS NULL)"; "(" +:+ dq +:+ "a AND b" +:+ dq +:+ " IS NULL)"]
  = [[]; ["deleted_at"]; ["deleted_at"; "responsible"]; ["deletedAt"]; []; []; []; []; []; []; []; ["a AND b"]].
Proof. by vm_compute. Qed.

(** ** Scanning what the server renders *)

(** Letters, digits, underscore and dollar need no quotes. *)
Definition safe (c : Ascii.ascii) : bool :=
  in_range 97 122 c || in_range 48 57 c || in_range 95 95 c || in_range 36 36 c.

Definition plain_name (s : string) : Prop := s ≠ "" ∧ Forall (λ c, safe c = true) (String.list_ascii_of_string s).

(** A name and how it is written. *)
Inductive shows (name : string) : string → Prop :=
  | shows_quoted : shows name (quoteIdent name)
  | shows_plain : plain_name name → shows name name.

(** [strings.ReplaceAll] of a quote by two. *)
Fixpoint double (s : string) : string :=
  match s with
  | EmptyString => EmptyString
  | String c s' => if decide (c = quote) then String quote (String quote (double s')) else String c (double s')
  end.

Lemma HasPrefix_char c s d p : HasPrefix (String c s) (String d p) = if decide (c = d) then HasPrefix s p else false.
Proof. unfold HasPrefix. cbn [CutPrefix]. case_decide; [done|]. by apply bool_decide_eq_false_2; intros [? ?]. Qed.

Lemma HasPrefix_nil s : HasPrefix s "" = true.
Proof. unfold HasPrefix. apply bool_decide_eq_true_2. by exists s. Qed.

Lemma ReplaceAll_double s : ReplaceAll s dq (dq +:+ dq) = double s.
Proof.
  unfold ReplaceAll. induction s as [|c s IH]; [done|]. cbn [replace_from double]. unfold dq at 1.
  rewrite HasPrefix_char, HasPrefix_nil. change (String.length dq - 1)%nat with 0%nat. rewrite IH. by case_decide.
Qed.

Lemma quoteIdent_eq s : quoteIdent s = String quote (double s +:+ dq).
Proof. unfold quoteIdent. rewrite ReplaceAll_double. done. Qed.

(** Text that holds no parenthesis and no separator outside quotes. *)
Record flat (t : string) : Prop := {
  flat_matching : ∀ i d rest, matching_go i d false (t +:+ rest) = matching_go (i + Z.of_nat (String.length t)) d false rest;
  flat_split : ∀ d out cur rest, split_go 0 d false out cur (t +:+ rest) = split_go 0 d false out (cur +:+ t) rest
}.

Lemma flat_nil : flat "".
Proof. split; intros; [cbn; f_equal; lia|by rewrite str_app_nil_r]. Qed.

Lemma flat_app s t : flat s → flat t → flat (s +:+ t).
Proof.
  intros [Sm Ss] [Tm Ts]. split; intros.
  - rewrite string_app_assoc, Sm, Tm, str_length_app. f_equal. lia.
  - by rewrite string_app_assoc, Ss, Ts, string_app_assoc.
Qed.

Lemma add_char cur c t : (cur +:+ String c "") +:+ t = cur +:+ String c t.
Proof. by rewrite string_app_assoc. Qed.

(** Inside quotes everything passes up to the closing one. *)
Lemma double_scan s :
  (∀ i d rest, matching_go i d true (double s +:+ dq +:+ rest) =
    matching_go (i + Z.of_nat (String.length (double s +:+ dq))) d false rest) ∧
  (∀ d out cur rest, split_go 0 d true out cur (double s +:+ dq +:+ rest) =
    split_go 0 d false out (cur +:+ (double s +:+ dq)) rest).
Proof.
  induction s as [|c s [IHm IHs]]; [done|]. cbn [double]. case_decide as Hc.
  - split; intros; rewrite !str_app_cons; cbn [matching_go split_go]; repeat (rewrite decide_True by done; cbn [negb]).
    + rewrite IHm. cbn [String.length]. f_equal. lia.
    + by rewrite IHs, !add_char.
  - split; intros; rewrite !str_app_cons; cbn [matching_go split_go]; rewrite !decide_False by done.
    + rewrite IHm. cbn [String.length]. f_equal. lia.
    + by rewrite IHs, !add_char.
Qed.

Lemma flat_quoted s : flat (quoteIdent s).
Proof.
  rewrite quoteIdent_eq. destruct (double_scan s) as [Hm Hs].
  split; intros; rewrite str_app_cons, string_app_assoc; cbn [matching_go split_go]; rewrite decide_True by done; cbn [negb].
  - rewrite Hm. cbn [String.length]. f_equal. lia.
  - by rewrite Hs, add_char.
Qed.

Lemma safe_not c : safe c = true → c ≠ quote ∧ c ≠ lpar ∧ c ≠ rpar ∧ c ≠ " "%char ∧ rune1 c = true ∧ 33 ≤ byte_of c ≤ 126.
Proof.
  unfold safe, rune1, in_range. rewrite !orb_true_iff, !andb_true_iff, !Z.leb_le. intros Hc.
  assert (H : 36 ≤ byte_of c ≤ 126 ∧ byte_of c ≠ 40 ∧ byte_of c ≠ 41) by lia. clear Hc.
  assert (Hne : ∀ d, byte_of d = 34 ∨ byte_of d = 40 ∨ byte_of d = 41 ∨ byte_of d = 32 → c ≠ d) by (intros d Hd ->; lia).
  split_and!; try lia; apply Hne; vm_compute; auto.
Qed.

(** One character that is neither special nor the start of a separator. *)
Lemma scan_char c s : c ≠ quote → c ≠ lpar → c ≠ rpar → HasPrefix (String c s) conj_sep = false →
  (∀ i d, matching_go i d false (String c s) = matching_go (i + 1) d false s) ∧
  (∀ d out cur, split_go 0 d false out cur (String c s) = split_go 0 d false out (cur +:+ String c "") s).
Proof.
  intros Hq Hl Hr Hsep. split; intros; cbn [matching_go split_go]; rewrite !decide_False by done; [done|].
  by rewrite Hsep, andb_false_r.
Qed.

Lemma flat_char c : c ≠ quote → c ≠ lpar → c ≠ rpar → c ≠ " "%char → flat (String c "").
Proof.
  intros Hq Hl Hr Hs. assert (Hsep : ∀ s, HasPrefix (String c s) conj_sep = false).
  { intros s. unfold conj_sep. by rewrite HasPrefix_char, decide_False. }
  split; intros; rewrite str_app_cons; apply (scan_char c rest); done.
Qed.

Lemma flat_plain s : plain_name s → flat s.
Proof.
  intros [_ Hs]. induction s as [|c s IH]; [apply flat_nil|].
  apply Forall_cons in Hs as [(? & ? & ? & ? & _)%safe_not Hs]. apply (flat_app (String c "")); [by apply flat_char|by apply IH].
Qed.

Lemma flat_shows name t : shows name t → flat t.
Proof. intros [|?]; [apply flat_quoted|by apply flat_plain]. Qed.

Definition safe_upper (c : ascii) : Prop := c ≠ quote ∧ c ≠ lpar ∧ c ≠ rpar ∧ c ≠ " "%char.

Lemma flat_suffix : flat isNullSuffix.
Proof.
  assert (Hsep : ∀ c s, c ≠ "A"%char → HasPrefix (String " " (String c s)) conj_sep = false).
  { intros c s Hc. unfold conj_sep. by rewrite !HasPrefix_char, decide_True, decide_False. }
  assert (Hone : ∀ d t, d ≠ "A"%char → flat (String d t) → flat (String " " (String d t))).
  { intros d t Hd [Hm Hs]. split; intros; rewrite !str_app_cons;
      destruct (scan_char " "%char (String d (t +:+ rest))) as [Sm Ss]; try done; try by apply Hsep.
    - rewrite Sm, <- str_app_cons, Hm. cbn [String.length]. f_equal. lia.
    - by rewrite Ss, <- str_app_cons, Hs, add_char. }
  assert (Hword : ∀ c t, safe_upper c → flat t → flat (String c t)).
  { intros c t (? & ? & ? & ?) Ht. apply (flat_app (String c "")); [by apply flat_char|done]. }
  unfold isNullSuffix. apply Hone; [done|]. repeat (apply Hword; [done|]).
  apply Hone; [done|]. repeat (apply Hword; [done|]). apply flat_nil.
Qed.

(** ** Substrings and white space *)

Lemma substring_prefix s t : String.substring 0 (String.length s) (s +:+ t) = s.
Proof. induction s as [|c s IH]; [by destruct t|]. rewrite str_app_cons. cbn. by rewrite IH. Qed.

Lemma substring_tail n s t : String.substring (String.length s) n (s +:+ t) = String.substring 0 n t.
Proof. induction s as [|c s IH]; [done|]. rewrite str_app_cons. exact IH. Qed.

Lemma substring_inner c s d : String.substring 1 (String.length (String c (s +:+ String d "")) - 2) (String c (s +:+ String d "")) = s.
Proof.
  cbn [String.length]. rewrite str_length_app. cbn [String.length].
  replace (S (String.length s + 1) - 2)%nat with (String.length s) by lia. apply substring_prefix.
Qed.

Lemma rev_string_app s t : rev_string (s +:+ t) = rev_string t +:+ rev_string s.
Proof.
  unfold rev_string. rewrite list_ascii_app, reverse_app. generalize (reverse (String.list_ascii_of_string t)). intros l.
  induction l as [|c l IH]; [done|]. cbn [app String.string_of_list_ascii]. by rewrite IH.
Qed.

Lemma HasPrefix_app s t : HasPrefix (s +:+ t) s = true.
Proof. induction s as [|c s IH]; [apply HasPrefix_nil|]. rewrite str_app_cons, HasPrefix_char. by rewrite decide_True. Qed.

Lemma HasSuffix_app s t : HasSuffix (s +:+ t) t = true.
Proof. unfold HasSuffix. rewrite rev_string_app. apply HasPrefix_app. Qed.

Lemma CutSuffix_app s t : CutSuffix (s +:+ t) t = Some s.
Proof.
  unfold CutSuffix. rewrite HasSuffix_app, str_length_app.
  replace (String.length s + String.length t - String.length t)%nat with (String.length s) by lia. by rewrite substring_prefix.
Qed.

Definition graphic (c : ascii) : Prop := 33 ≤ byte_of c ≤ 126.

Lemma bytes_cons c s : bytes (String c s) = byte_of c :: bytes s.
Proof. unfold bytes, byte_of. cbn. f_equal. unfold Ascii.nat_of_ascii. lia. Qed.

Lemma bytes_app s t : bytes (s +:+ t) = bytes s ++ bytes t.
Proof. unfold bytes. by rewrite list_ascii_app, fmap_app. Qed.

Lemma of_bytes_bytes s : of_bytes (bytes s) = s.
Proof.
  unfold of_bytes, bytes. rewrite <- list_fmap_compose. rewrite (list_fmap_ext _ id).
  - rewrite list_fmap_id. apply String.string_of_list_ascii_of_string.
  - intros i c _. cbn. by rewrite Nat2Z.id, Ascii.ascii_nat_embedding.
Qed.

(** No rendering of white space starts or ends with a graphic character. *)
Lemma no_space b l : 33 ≤ b ≤ 126 →
  head (omap (λ pat, strip pat (b :: l)) spaces) = None ∧ head (omap (λ pat, strip pat (b :: l)) (reverse <$> spaces)) = None.
Proof.
  intros Hb. set (other (pat : list Z) := match pat with p :: _ => (p <? 33) || (126 <? p) | [] => false end).
  assert (Hall : Forall (λ pat, other pat = true) spaces ∧ Forall (λ pat, other pat = true) (reverse <$> spaces)).
  { split; (apply (bool_decide_unpack _); by vm_compute). }
  assert (Hgen : ∀ pats : list (list Z), Forall (λ pat, other pat = true) pats → head (omap (λ pat, strip pat (b :: l)) pats) = None).
  { induction 1 as [|pat pats Hp _ IH]; [done|]. cbn [omap list_omap]. destruct pat as [|p pat]; [done|]. cbn [strip].
    cbn [other] in Hp. rewrite orb_true_iff, !Z.ltb_lt in Hp. rewrite (proj2 (Z.eqb_neq b p)) by lia. exact IH. }
  split; apply Hgen; apply Hall.
Qed.

Lemma trim_left_stop pats fuel l : head (omap (λ pat, strip pat l) pats) = None → trim_left pats fuel l = l.
Proof. destruct fuel; [done|]. intros Hl. cbn [trim_left]. by rewrite Hl. Qed.

Lemma TrimSpace_ends s b b' l l' : bytes s = b :: l → reverse (bytes s) = b' :: l' → 33 ≤ b ≤ 126 → 33 ≤ b' ≤ 126 → TrimSpace s = s.
Proof.
  intros Hb Hb' Hr Hr'. unfold TrimSpace. rewrite (trim_left_stop spaces) by (rewrite Hb; exact (proj1 (no_space b l Hr))).
  rewrite (trim_left_stop (reverse <$> spaces)) by (rewrite Hb'; exact (proj2 (no_space b' l' Hr'))).
  rewrite reverse_involutive. apply of_bytes_bytes.
Qed.

(** Text without white space at either end. *)
Record trimmed (s : string) : Prop := {
  t_first : ∃ a m, s = String a m ∧ graphic a;
  t_last : ∃ m z, s = m +:+ String z "" ∧ graphic z
}.

Lemma TrimSpace_trimmed s : trimmed s → TrimSpace s = s.
Proof.
  intros [(a & m & Ha & Hga) (m' & z & Hz & Hgz)].
  apply (TrimSpace_ends s (byte_of a) (byte_of z) (bytes m) (reverse (bytes m'))); [by rewrite Ha, bytes_cons| |done|done].
  rewrite Hz, bytes_app, reverse_app, bytes_cons. done.
Qed.

Lemma trimmed_app s t : trimmed s → trimmed t → ∀ m, trimmed (s +:+ m +:+ t).
Proof.
  intros [(a & x & -> & Ha) _] [_ (y & z & -> & Hz)] m. split.
  - rewrite str_app_cons. eauto.
  - exists (String a x +:+ m +:+ y), z. by rewrite !string_app_assoc.
Qed.

Lemma trimmed_char c : graphic c → trimmed (String c "").
Proof. intros Hc. split; [by exists c, ""|by exists "", c]. Qed.

Lemma trimmed_shows name t : shows name t → trimmed t.
Proof.
  intros [|[Hne Hs]].
  - rewrite quoteIdent_eq. assert (Hq : graphic quote) by (vm_compute; split; congruence).
    change (String quote (double name +:+ dq)) with (dq +:+ double name +:+ dq). by apply trimmed_app; apply trimmed_char.
  - destruct name as [|a m]; [done|]. cbn in Hs. apply Forall_cons in Hs as [Ha Hs]. apply safe_not in Ha.
    split; [exists a, m; split; [done|apply Ha]|].
    destruct (String.list_ascii_of_string m) as [|c l] eqn:Hm using rev_ind.
    + destruct m; [|done]. exists "", a. split; [done|apply Ha].
    + apply Forall_app in Hs as [_ Hs]. apply Forall_singleton, safe_not in Hs.
      exists (String a (String.string_of_list_ascii l)), c. split; [|apply Hs]. rewrite str_app_cons. f_equal.
      rewrite <- (String.string_of_list_ascii_of_string m), Hm. clear. induction l as [|d l IH]; [done|]. cbn. by rewrite IH.
Qed.

(** ** Names come back *)

Lemma unquote_double s :
  Contains (ReplaceAll (double s) (dq +:+ dq) "") dq = false ∧ ReplaceAll (double s) (dq +:+ dq) dq = s.
Proof.
  unfold ReplaceAll. change (dq +:+ dq) with (String quote dq). induction s as [|c s [IHc IHr]]; [done|].
  cbn [double]. case_decide as Hc; cbn [replace_from]; unfold dq at 1 3; rewrite !HasPrefix_char, ?HasPrefix_nil.
  - rewrite !decide_True by done. change (String.length (String quote dq) - 1)%nat with 1%nat. cbn [replace_from].
    split; [exact IHc|]. rewrite IHr, Hc. done.
  - rewrite !decide_False by done. split; [|by rewrite IHr]. cbn [Contains]. unfold dq at 2. rewrite HasPrefix_char.
    rewrite decide_False by done. exact IHc.
Qed.

(** [unquoteIdent] reads back what [quoteIdent] writes, whatever the name. *)
Lemma unquote_quoteIdent s : unquoteIdent (quoteIdent s) = Some s.
Proof.
  destruct (unquote_double s) as [Hc Hr]. unfold unquoteIdent. rewrite quoteIdent_eq.
  assert (Hp : HasPrefix (String quote (double s +:+ dq)) dq = true) by (unfold dq at 2; by rewrite HasPrefix_char, decide_True, HasPrefix_nil).
  assert (Hs : HasSuffix (String quote (double s +:+ dq)) dq = true) by (rewrite <- str_app_cons; apply HasSuffix_app).
  rewrite Hp, Hs. change (double s +:+ dq) with (double s +:+ String quote ""). rewrite substring_inner, Hc, Hr.
  rewrite (proj2 (Z.ltb_lt _ _)); [done|]. cbn [String.length]. rewrite str_length_app. cbn. lia.
Qed.

Lemma safe_special c : safe c = true → c ∉ String.list_ascii_of_string special.
Proof.
  unfold safe, in_range. rewrite !orb_true_iff, !andb_true_iff, !Z.leb_le. intros Hc Hin.
  assert (Hall : Forall (λ d, byte_of d < 36 ∨ 38 < byte_of d < 48 ∨ byte_of d = 58) (String.list_ascii_of_string special)).
  { apply (bool_decide_unpack _). by vm_compute. }
  rewrite list.Forall_forall in Hall. specialize (Hall c Hin). lia.
Qed.

Lemma unquote_plain s : plain_name s → unquoteIdent s = Some s.
Proof.
  intros [Hne Hs]. unfold unquoteIdent.
  assert (Hp : HasPrefix s dq = false).
  { destruct s as [|c s]; [done|]. cbn in Hs. apply Forall_cons in Hs as [Hc%safe_not _]. unfold dq. rewrite HasPrefix_char.
    by rewrite decide_False by apply Hc. }
  rewrite Hp. cbn [andb]. rewrite bool_decide_eq_false_2 by done. cbn [orb].
  assert (Hc : ContainsAny s special = false); [|by rewrite Hc].
  unfold ContainsAny. induction Hs as [|c l Hc _ IH]; [done|]. cbn [existsb]. rewrite IH, orb_false_r.
  apply bool_decide_eq_false_2. by apply safe_special.
Qed.

Lemma unquote_shows name t : shows name t → unquoteIdent t = Some name.
Proof. intros [|?]; [apply unquote_quoteIdent|by apply unquote_plain]. Qed.

(** ** A conjunction of tests *)

(** One test, bare or in parentheses. *)
Inductive test_of (name : string) : string → Prop :=
  | test_bare t : shows name t → test_of name (t +:+ isNullSuffix)
  | test_parens t : shows name t → test_of name ("(" +:+ (t +:+ isNullSuffix) +:+ ")").

Lemma trimmed_test name t : shows name t → trimmed (t +:+ isNullSuffix).
Proof.
  intros Ht. destruct (trimmed_shows _ _ Ht) as [(a & m & -> & Ha) _]. split; [rewrite str_app_cons; eauto|].
  exists (String a m +:+ " IS NUL"), "L"%char. rewrite string_app_assoc. split; [done|]. vm_compute. split; congruence.
Qed.

Lemma trimmed_parens s : trimmed ("(" +:+ s +:+ ")").
Proof. apply (trimmed_app "(" ")"); apply trimmed_char; vm_compute; split; congruence. Qed.

Lemma trimmed_part name p : test_of name p → trimmed p.
Proof. intros [t Ht|t Ht]; [by eapply trimmed_test|apply trimmed_parens]. Qed.

Lemma no_lpar name t rest : shows name t → HasPrefix (t +:+ rest) "(" = false.
Proof.
  intros [|[Hne Hs]].
  - rewrite quoteIdent_eq, str_app_cons, HasPrefix_char. by rewrite decide_False.
  - destruct name as [|c s]; [done|]. cbn in Hs. apply Forall_cons in Hs as [Hc%safe_not _]. rewrite str_app_cons, HasPrefix_char.
    rewrite decide_False; [done|]. apply Hc.
Qed.

Lemma trim_parens_none fuel s : HasPrefix s "(" = false → trim_parens fuel s = s.
Proof. intros Hs. destruct fuel; [done|]. cbn. by rewrite Hs. Qed.

Lemma parens_eq s : "(" +:+ s +:+ ")" = String lpar (s +:+ String rpar "").
Proof. done. Qed.

(** One pair of parentheses around text that closes what it opens comes off. *)
Lemma trimParens_step s : trimmed s → (∀ i rest, matching_go i 1 false (s +:+ rest) = matching_go (i + Z.of_nat (String.length s)) 1 false rest) →
  ∃ fuel, trimParens ("(" +:+ s +:+ ")") = trim_parens fuel s.
Proof.
  intros Ht Hm. unfold trimParens. cbn zeta. rewrite (TrimSpace_trimmed _ (trimmed_parens s)), parens_eq.
  exists (String.length (s +:+ String rpar "")). cbn [String.length trim_parens].
  assert (Hmatch : matchingParen (String lpar (s +:+ String rpar "")) = Z.of_nat (String.length (String lpar (s +:+ String rpar ""))) - 1).
  { unfold matchingParen. cbn [matching_go]. rewrite decide_False, decide_True by done. rewrite Hm. cbn [matching_go].
    rewrite !decide_False by done. rewrite !decide_True by done. cbn [String.length]. rewrite str_length_app. cbn [String.length]. lia. }
  rewrite Hmatch, HasPrefix_char, HasPrefix_nil, decide_True, Z.eqb_refl by done. cbn [andb].
  pose proof (substring_inner lpar s rpar) as Hin. cbn [String.length] in Hin. by rewrite Hin, (TrimSpace_trimmed s Ht).
Qed.

Lemma flat_test name t : shows name t → flat (t +:+ isNullSuffix).
Proof. intros Ht. apply flat_app; [by eapply flat_shows|apply flat_suffix]. Qed.

Lemma isNullColumn_test name p : test_of name p → isNullColumn p = Some name.
Proof.
  intros Hp. assert (Heq : ∃ t, shows name t ∧ trimParens p = t +:+ isNullSuffix).
  { destruct Hp as [t Ht|t Ht]; exists t; (split; [done|]).
    - unfold trimParens. cbn zeta. rewrite (TrimSpace_trimmed _ (trimmed_test _ _ Ht)). by eapply trim_parens_none, no_lpar.
    - destruct (trimParens_step (t +:+ isNullSuffix)) as [fuel ->]; [by eapply trimmed_test|intros; by apply (flat_test _ _ Ht)|].
      by eapply trim_parens_none, no_lpar. }
  destruct Heq as (t & Ht & Heq). unfold isNullColumn. rewrite Heq, CutSuffix_app. cbn.
  rewrite (TrimSpace_trimmed _ (trimmed_shows _ _ Ht)). by apply unquote_shows.
Qed.

(** At depth 0 the splitter passes over a test. *)
Lemma split_test name p out cur rest : test_of name p → split_go 0 0 false out cur (p +:+ rest) = split_go 0 0 false out (cur +:+ p) rest.
Proof.
  intros [t Ht|t Ht]; [apply (flat_split _ (flat_test _ _ Ht))|]. rewrite parens_eq, str_app_cons, string_app_assoc, str_app_cons.
  cbn [split_go]. rewrite decide_False, decide_True by done. rewrite (flat_split _ (flat_test _ _ Ht)). cbn [split_go].
  rewrite !decide_False, decide_True by done. f_equal. rewrite !string_app_assoc. f_equal.
Qed.

Lemma split_sep out cur rest : split_go 0 0 false out cur (conj_sep +:+ rest) = split_go 0 0 false (out ++ [cur]) "" rest.
Proof.
  unfold conj_sep at 1. rewrite !str_app_cons. cbn [split_go]. rewrite !decide_False by done.
  unfold conj_sep at 1. rewrite !HasPrefix_char. by rewrite !decide_True by done.
Qed.

Lemma split_tests names p ps out : Forall2 test_of names (p :: ps) →
  let '(o, last) := split_go 0 0 false out "" (strings_Join (p :: ps) conj_sep) in o ++ [last] = out ++ p :: ps ∧ last ≠ "".
Proof.
  revert names p out. induction ps as [|q ps IH]; intros names p out Hall; apply Forall2_cons_inv_r in Hall as (name & names' & Hp & Hall & ->).
  - cbn [strings_Join]. pose proof (split_test name p out "" "" Hp) as Hs. rewrite str_app_nil_r in Hs. rewrite Hs. cbn.
    split; [done|].
    by destruct (trimmed_part _ _ Hp) as [(a & m & -> & _) _].
  - change (strings_Join (p :: q :: ps) conj_sep) with (p +:+ conj_sep +:+ strings_Join (q :: ps) conj_sep).
    rewrite (split_test name) by done. rewrite split_sep. specialize (IH names' q (out ++ ["" +:+ p]) Hall).
    destruct (split_go _ _ _ _ _ _) as [o last]. destruct IH as [-> ?]. by rewrite <- app_assoc.
Qed.

(** ** What the server renders *)

(** [pg_get_expr] of a conjunction of tests; [texts] are the names as written. *)
Definition pg_expr (texts : list string) : string :=
  match texts with
  | [t] => "(" +:+ (t +:+ isNullSuffix) +:+ ")"
  | _ => "(" +:+ strings_Join ((λ t, "(" +:+ (t +:+ isNullSuffix) +:+ ")") <$> texts) conj_sep +:+ ")"
  end.

Lemma valid_double s : ValidString s = true → ValidString (double s) = true.
Proof.
  revert s. assert (Hq : ∀ c, byte_of c ≠ 34 → c ≠ quote) by (intros c Hc ->; by apply Hc).
  assert (Ht : ∀ lo hi c, 128 ≤ lo → in_range lo hi c = true → c ≠ quote).
  { intros lo hi c Hlo Hc. apply Hq. unfold in_range in Hc. rewrite andb_true_iff, !Z.leb_le in Hc. lia. }
  assert (Htail : ∀ c, tail_byte c = true → c ≠ quote) by (intros c; by apply Ht).
  apply (valid_ind (λ s, ValidString (double s) = true)); [done|..].
  - intros a s Ha _ IH. cbn [double]. case_decide; cbn [ValidString]; [by change (rune1 quote) with true|by rewrite Ha].
  - intros a b s Ha _ IH. pose proof Ha as Hr. unfold rune2 in Hr. apply andb_true_iff in Hr as [Hx Hy].
    cbn [double]. rewrite !decide_False by first [by eapply Htail|by eapply (Ht 194)]. cbn [ValidString].
    by rewrite (rune2_only a b Ha), Ha.
  - intros a b c s Ha _ IH. destruct (rune3_only a b c Ha) as [H1 H2]. destruct (rune_kinds a) as (_ & _ & R3 & _).
    specialize (R3 b c Ha). unfold rune3, in_range, tail_byte in Ha |- *.
    assert (byte_of b ≠ 34 ∧ byte_of c ≠ 34) as [Hb Hc].
    { unfold in_range in Ha. repeat rewrite ?andb_true_iff, ?orb_true_iff, ?Z.leb_le in Ha. lia. }
    cbn [double]. rewrite !decide_False by (apply Hq; done || lia). cbn [ValidString]. rewrite H1, H2.
    unfold rune3, in_range, tail_byte. by rewrite Ha.
  - intros a b c d s Ha _ IH. destruct (rune4_only a b c d Ha) as (H1 & H2 & H3). destruct (rune_kinds a) as (_ & _ & _ & R4).
    specialize (R4 b c d Ha). pose proof Ha as Hr. unfold rune4, in_range, tail_byte in Hr.
    assert (byte_of b ≠ 34 ∧ byte_of c ≠ 34 ∧ byte_of d ≠ 34) as (Hb & Hc & Hd).
    { unfold in_range in Hr. repeat rewrite ?andb_true_iff, ?orb_true_iff, ?Z.leb_le in Hr. lia. }
    cbn [double]. rewrite !decide_False by (apply Hq; done || lia). cbn [ValidString]. by rewrite H1, H2, H3, Ha.
Qed.

Lemma valid_shows name t : ValidString name = true → shows name t → ValidString t = true.
Proof.
  intros Hv [|_]; [|done]. rewrite quoteIdent_eq. change (String quote (double name +:+ dq)) with (dq +:+ double name +:+ dq).
  by repeat apply valid_app; [|apply valid_double|].
Qed.

Lemma valid_test name p : ValidString name = true → test_of name p → ValidString p = true.
Proof.
  intros Hv [t Ht|t Ht]; pose proof (valid_shows _ _ Hv Ht); repeat apply valid_app; done.
Qed.

Lemma valid_Join l sep : ValidString sep = true → Forall (λ s, ValidString s = true) l → ValidString (strings_Join l sep) = true.
Proof.
  intros Hsep. induction 1 as [|s l Hs Hl IH]; [done|]. destruct l as [|s' l]; [done|].
  change (strings_Join (s :: s' :: l) sep) with (s +:+ sep +:+ strings_Join (s' :: l) sep). by repeat apply valid_app.
Qed.

Lemma trimmed_Join p ps sep : Forall trimmed (p :: ps) → trimmed (strings_Join (p :: ps) sep).
Proof.
  revert p. induction ps as [|q ps IH]; intros p [Hp Hps]%Forall_cons; [done|].
  change (strings_Join (p :: q :: ps) sep) with (p +:+ sep +:+ strings_Join (q :: ps) sep). apply trimmed_app; [done|by apply IH].
Qed.

(** Reading a conjunction of tests with nothing around it. *)
Lemma read_tests names parts fuel : Forall (λ n, ValidString n = true) names → Forall2 test_of names parts → parts ≠ [] →
  trim_parens fuel (strings_Join parts conj_sep) = strings_Join parts conj_sep →
  ∀ expr, trimParens expr = trim_parens fuel (strings_Join parts conj_sep) →
  NullPredicateColumns expr = Compact (sort_slice str_ltb names).
Proof.
  intros Hv Hall Hne Htrim expr Hexpr. unfold NullPredicateColumns. rewrite Hexpr, Htrim. unfold splitConjuncts.
  assert (Hvp : Forall (λ p, ValidString p = true) parts).
  { clear Hne Htrim Hexpr. revert Hv. induction Hall as [|n p ns ps Hp _ IH]; intros Hv; [constructor|].
    apply Forall_cons in Hv as [Hn Hv]. constructor; [by eapply valid_test|by apply IH]. }
  rewrite revalidate_valid by by apply valid_Join. destruct parts as [|p ps]; [done|].
  pose proof (split_tests names p ps [] Hall) as Hs. destruct (split_go _ _ _ _ _ _) as [out last]. destruct Hs as [Hs Hl].
  rewrite decide_False, Hs by done. cbn [app].
  assert (Hm : mapM isNullColumn (p :: ps) = Some names); [|by rewrite Hm].
  apply mapM_Some_2. clear -Hall. induction Hall as [|n q ns qs Hq _ IH]; constructor; [by apply isNullColumn_test|done].
Qed.

Lemma matching_parens t i rest : flat t →
  matching_go i 1 false (("(" +:+ t +:+ ")") +:+ rest) = matching_go (i + Z.of_nat (String.length ("(" +:+ t +:+ ")"))) 1 false rest.
Proof.
  intros [Hm _]. rewrite parens_eq, str_app_cons, string_app_assoc, str_app_cons. cbn [matching_go].
  rewrite decide_False, decide_True by done. rewrite Hm. cbn [matching_go]. rewrite !decide_False by done.
  rewrite decide_True by done. rewrite decide_False by done. cbn [String.length]. rewrite str_length_app. cbn [String.length].
  f_equal. lia.
Qed.

Lemma matching_sep i rest : matching_go i 1 false (conj_sep +:+ rest) = matching_go (i + 5) 1 false rest.
Proof.
  unfold conj_sep. rewrite !str_app_cons. cbn [matching_go]. rewrite !decide_False by done. change ("" +:+ rest) with rest.
  f_equal. lia.
Qed.

Lemma matching_parts ts : Forall flat ts → ∀ i rest,
  let body := strings_Join ((λ t, "(" +:+ t +:+ ")") <$> ts) conj_sep in
  matching_go i 1 false (body +:+ rest) = matching_go (i + Z.of_nat (String.length body)) 1 false rest.
Proof.
  induction 1 as [|t ts Ht Hts IH]; intros i rest; cbn zeta; [cbn; f_equal; lia|]. destruct ts as [|u ts].
  - by apply matching_parens.
  - rewrite !fmap_cons. change (strings_Join (?x :: ?y :: ?l) conj_sep) with (x +:+ conj_sep +:+ strings_Join (y :: l) conj_sep).
    rewrite string_app_assoc, matching_parens by done. rewrite string_app_assoc, matching_sep.
    cbn zeta in IH. rewrite fmap_cons in IH. rewrite IH. rewrite !str_length_app.
    change (String.length conj_sep) with 5%nat. f_equal. lia.
Qed.

(** Two parts are not inside one pair of parentheses. *)
Lemma parts_stop t u ts fuel : flat t →
  let body := strings_Join ((λ t, "(" +:+ t +:+ ")") <$> t :: u :: ts) conj_sep in trim_parens fuel body = body.
Proof.
  intros [Hm _]. cbn zeta. rewrite !fmap_cons.
  change (strings_Join (?x :: ?y :: ?l) conj_sep) with (x +:+ conj_sep +:+ strings_Join (y :: l) conj_sep).
  generalize (strings_Join (("(" +:+ u +:+ ")") :: ((λ t0, "(" +:+ t0 +:+ ")") <$> ts)) conj_sep). intros rest.
  destruct fuel as [|fuel]; [done|]. cbn [trim_parens].
  rewrite (proj2 (Z.eqb_neq _ _)); [by rewrite andb_false_r|].
  rewrite parens_eq, str_app_cons, string_app_assoc, str_app_cons. unfold matchingParen. cbn [matching_go].
  rewrite decide_False, decide_True by done. rewrite Hm. cbn [matching_go].
  rewrite !decide_False by done. rewrite !decide_True by done. cbn [String.length]. rewrite !str_length_app. cbn [String.length].
  rewrite !str_length_app. change (String.length conj_sep) with 5%nat. lia.
Qed.

(** Different predicates are written differently. *)
Lemma double_inj a b u v : HasPrefix u dq = false → HasPrefix v dq = false →
  double a +:+ dq +:+ u = double b +:+ dq +:+ v → a = b ∧ u = v.
Proof.
  intros Hu Hv. assert (Hq : ∀ s t, HasPrefix s dq = false → s ≠ String quote t).
  { intros s t Hs ->. unfold dq in Hs. by rewrite HasPrefix_char, decide_True, HasPrefix_nil in Hs. }
  assert (Hdq : ∀ x, dq +:+ x = String quote x) by done. rewrite !Hdq.
  revert b. induction a as [|c a IH]; intros [|c' b]; cbn [double]; try case_decide as Hc; try case_decide as Hc';
    rewrite ?str_app_cons; intros Heq.
  - split; [done|]. by apply (f_equal (λ s, match s with String _ t => t | EmptyString => s end)) in Heq.
  - injection Heq as Heq. destruct (Hq u (double b +:+ String quote v) Hu Heq).
  - injection Heq as Heq _. congruence.
  - injection Heq as Heq. destruct (Hq v (double a +:+ String quote u) Hv (eq_sym Heq)).
  - injection Heq as Heq _. congruence.
  - subst c c'. injection Heq as Heq. by destruct (IH b Heq) as [-> ->].
  - injection Heq as Heq _. congruence.
  - injection Heq as Heq _. congruence.
  - injection Heq as -> Heq. by destruct (IH b Heq) as [-> ->].
Qed.

Lemma quoteIdent_inj a b u v : HasPrefix u dq = false → HasPrefix v dq = false →
  quoteIdent a +:+ u = quoteIdent b +:+ v → a = b ∧ u = v.
Proof.
  intros Hu Hv. rewrite !quoteIdent_eq, !str_app_cons, !string_app_assoc. intros Heq. injection Heq as Heq. by apply double_inj.
Qed.

Definition join_tail (l : list string) (sep : string) : string := match l with [] => "" | _ => sep +:+ strings_Join l sep end.

Lemma Join_cons s l sep : strings_Join (s :: l) sep = s +:+ join_tail l sep.
Proof. destruct l; [symmetry; apply str_app_nil_r|done]. Qed.

Lemma predicateSQL_inj l1 l2 : predicateSQL l1 = predicateSQL l2 → l1 = l2.
Proof.
  unfold predicateSQL. revert l2. induction l1 as [|a l1 IH]; intros [|b l2]; rewrite ?fmap_cons, ?Join_cons, ?string_app_assoc; [done| | |].
  - rewrite quoteIdent_eq. done.
  - rewrite quoteIdent_eq. done.
  - intros Heq. apply quoteIdent_inj in Heq as [-> Heq]; [|by vm_compute..].
    apply string_app_length_inj in Heq as [_ Heq]; [|done]. f_equal. apply IH.
    destruct l1 as [|x l1], l2 as [|y l2]; cbn [fmap list_fmap join_tail] in Heq; [done|done|done|].
    by apply string_app_length_inj in Heq as [_ Heq].
Qed.

(** The columns of a partial index whose predicate is a conjunction of [IS NULL] tests are
    read back, sorted and without repetitions, from the expression as the server renders it
    and from the one of the suggested DDL, whatever characters the names hold. *)
Theorem NullPredicateColumns_roundtrip names texts :
  names ≠ [] → Forall (λ n, ValidString n = true) names → Forall2 shows names texts →
  NullPredicateColumns (pg_expr texts) = Compact (sort_slice str_ltb names) ∧
  NullPredicateColumns (predicateSQL names) = Compact (sort_slice str_ltb names).
Proof.
  intros Hne Hv Hall. split.
  - destruct Hall as [|n t ns ts Ht Hall]; [done|]. destruct ts as [|u ts].
    + inversion Hall; subst. destruct (trimParens_step (t +:+ isNullSuffix)) as [fuel Hf].
      { by eapply trimmed_test. }
      { intros. apply (flat_matching _ (flat_test _ _ Ht)). }
      apply (read_tests [n] [t +:+ isNullSuffix] fuel); [done|repeat constructor; done|done| |done].
      by eapply trim_parens_none, no_lpar.
    + set (body := (λ t, t +:+ isNullSuffix) <$> t :: u :: ts).
      assert (Hflat : Forall flat body).
      { unfold body. apply Forall_fmap. assert (Hall' : Forall2 shows (n :: ns) (t :: u :: ts)) by by constructor.
        clear -Hall'. induction Hall' as [|n' t' ns' ts' Ht _ IH]; constructor; [by eapply flat_test|done]. }
      assert (Hparts : (λ t, "(" +:+ t +:+ ")") <$> body = (λ t, "(" +:+ (t +:+ isNullSuffix) +:+ ")") <$> t :: u :: ts).
      { unfold body. by rewrite <- list_fmap_compose. }
      destruct (trimParens_step (strings_Join ((λ t, "(" +:+ t +:+ ")") <$> body) conj_sep)) as [fuel Hf].
      { apply trimmed_Join. change (Forall trimmed ((λ t, "(" +:+ t +:+ ")") <$> body)). apply Forall_fmap, Forall_true. intros. apply trimmed_parens. }
      { by apply matching_parts. }
      rewrite Hparts in Hf. refine (read_tests _ _ fuel Hv _ _ _ _ Hf); [|done|].
      * assert (Hall' : Forall2 shows (n :: ns) (t :: u :: ts)) by by constructor. clear -Hall'.
        induction Hall' as [|n' t' ns' ts' Ht' _ IH]; constructor; [by constructor|done].
      * rewrite <- Hparts. unfold body. rewrite !fmap_cons. apply parts_stop. by inversion Hflat.
  - destruct names as [|n ns]; [done|]. set (parts := (λ c, quoteIdent c +:+ isNullSuffix) <$> n :: ns).
    assert (Htest : Forall2 test_of (n :: ns) parts).
    { unfold parts. clear. induction (n :: ns) as [|m l IH]; constructor; [apply test_bare, shows_quoted|done]. }
    assert (Hstop : ∀ fuel, trim_parens fuel (strings_Join parts conj_sep) = strings_Join parts conj_sep).
    { intros fuel. apply trim_parens_none. unfold parts. rewrite fmap_cons.
      generalize ((λ c, quoteIdent c +:+ isNullSuffix) <$> ns). intros [|q l].
      - eapply no_lpar, shows_quoted.
      - change (strings_Join (?x :: ?y :: ?l) conj_sep) with (x +:+ conj_sep +:+ strings_Join (y :: l) conj_sep).
        rewrite string_app_assoc. eapply no_lpar, shows_quoted. }
    apply (read_tests _ _ (String.length (TrimSpace (predicateSQL (n :: ns)))) Hv Htest); [done|apply Hstop|].
    unfold trimParens. cbn zeta. change (predicateSQL (n :: ns)) with (strings_Join parts conj_sep).
    rewrite (TrimSpace_trimmed (strings_Join parts conj_sep)); [done|]. unfold parts. apply trimmed_Join.
    change (Forall trimmed ((λ c, quoteIdent c +:+ isNullSuffix) <$> n :: ns)). apply Forall_fmap, Forall_true. intros c. eapply trimmed_test, shows_quoted.
Qed.

Definition odd_name : string := "a" +:+ dq +:+ ") AND (" +:+ String (char 195) (String (char 169) "").

Lemma NullPredicateColumns_roundtrip_witness :
  ValidString odd_name = true ∧
  NullPredicateColumns (pg_expr [quoteIdent odd_name; "b_1"]) = Compact (sort_slice str_ltb [odd_name; "b_1"]).
Proof.
  split; [by vm_compute|]. apply (NullPredicateColumns_roundtrip [odd_name; "b_1"] [quoteIdent odd_name; "b_1"]).
  - done.
  - repeat constructor; by vm_compute.
  - constructor; [constructor|]. constructor; [|constructor]. apply shows_plain. split; [done|]. repeat constructor; by vm_compute.
Defined.
