(* ===== verification/IndexAdvisor.v ===== *)
(** * [internal/indexadvisor/build.go]: from a workload to ranked candidates

    The statements of every host are folded by fingerprint; each one that a [WHERE] clause
    could speed up is bound to the tables of the catalog and turned into the draft of an
    index; drafts that one index can serve are merged; what is left is ranked. *)

From S2P Require Import Prelude GoSlices GoFloat PatroniLayout Sqlparse AdvisorCatalog GoStrings AdvisorDDL.
From stdpp Require Import options.

#[local] Open Scope string_scope.
#[local] Open Scope Z_scope.
#[local] Open Scope list_scope.

(** ** Constants *)

Definition lowWeightPct : float := 1.
Definition writeHeavyRatio : float := 10.
Definition writeHeavyMinCalls : Z := 1000.
Definition btreeMethod : string := "btree".
Definition uniqueNDistinct : float := -1.
Definition nullPredicateMaxFrac : float := 0.5.
Definition manyIndexesThreshold : Z := 10.
Definition matviewKind : string := "m".

Definition ReasonUnknownRelation : string := "unknown_relation".
Definition ReasonSystemRelation : string := "system_relation".
Definition ReasonAmbiguousName : string := "ambiguous_name".
Definition ReasonAmbiguousColumn : string := "ambiguous_column".
Definition ReasonUnknownColumn : string := "unknown_column".
Definition ReasonUnsupportedType : string := "unsupported_type".
Definition ReasonTableTooSmall : string := "table_too_small".
Definition ReasonAlreadyIndexed : string := "already_indexed".
Definition ReasonNoIndexablePredicate : string := "no_indexable_predicate".

(** ** Folding the workload *)

Section collapse.
Context `{MapRange}.

Definition fold_hosts (dst src : gmap string Z) : gmap string Z :=
  foldl (λ m hi, if decide (m !! hi.1 = None) then <[hi.1 := hi.2]> m else m) dst (map_range "collapse.QueryIDByHost" src).

Definition fold_entry (g e : WorkloadEntry) : WorkloadEntry := {|
  QueryIDs := foldl appendUnique (QueryIDs g) (QueryIDs e);
  QueryIDByHost := fold_hosts (QueryIDByHost g) (QueryIDByHost e);
  e_Fingerprint := e_Fingerprint g;
  Query := if (String.length (Query g) <? String.length (Query e))%nat then Query e else Query g;
  Calls := Calls g ⊞ Calls e;
  TotalTimeMs := (TotalTimeMs g + TotalTimeMs e)%float;
  e_Rows := e_Rows g ⊞ e_Rows e;
  Stmt := Stmt g;
  e_Hosts := foldl appendUnique (e_Hosts g) (e_Hosts e)
|}.

Definition collapse_step (st : list WorkloadEntry * gmap string nat) (e : WorkloadEntry) :
    list WorkloadEntry * gmap string nat :=
  let '(out, index) := st in
  match index !! e_Fingerprint e with
  | Some i =>
      if decide (e_Fingerprint e = "") then (out ++ [e], <[e_Fingerprint e := length out]> index)
      else (match out !! i with Some g => <[i := fold_entry g e]> out | None => out end, index)
  | None => (out ++ [e], <[e_Fingerprint e := length out]> index)
  end.

Definition collapse (entries : list WorkloadEntry) : list WorkloadEntry := (foldl collapse_step ([], ∅) entries).1.

(** ** Names *)

Definition isSystemRef (r : Ref) : bool :=
  bool_decide (r_Schema r = "information_schema") || HasPrefix (r_Schema r) "pg_" || HasPrefix (r_Name r) "pg_".

Definition unknownReason (r : Ref) : string := if isSystemRef r then ReasonSystemRelation else ReasonUnknownRelation.

Definition sumCounts (counts : gmap string Z) : Z := foldl (λ total cn, total ⊞ cn.2) 0 (map_range "sumCounts" counts).

Fixpoint firstNonEmpty (values : list string) : string :=
  match values with [] => "" | v :: values => if decide (v = "") then firstNonEmpty values else v end.

(** The key of a relation the catalog has: the root's for a partition. *)
Definition roll_up (cat : Catalog) (r : Ref) (key : RelKey) : RelKey + string :=
  match Relations cat !! key with
  | None => inr (unknownReason r)
  | Some rel => if IsPartition rel && bool_decide (is_Some (Relations cat !! Root rel)) then inl (Root rel) else inl key
  end.

Definition resolveRef (cat : Catalog) (r : Ref) : RelKey + string :=
  if decide (r_Schema r = "") then
    match at_key (ByName cat) (r_Name r) with
    | [] => inr (unknownReason r)
    | [key] => roll_up cat r key
    | _ => inr ReasonAmbiguousName
    end
  else roll_up cat r (mkKey (r_Schema r) (r_Name r)).

Definition systemOnly (cat : Catalog) (stmt : Statement) : bool :=
  bool_decide (Tables stmt ≠ []) && forallb (λ r, bool_decide (resolveRef cat r = inr ReasonSystemRelation)) (Tables stmt).

Definition workloadTime (cat : Catalog) (entries : list WorkloadEntry) : float :=
  foldl (λ sum e, if systemOnly cat (Stmt e) then sum else (sum + TotalTimeMs e)%float) 0%float entries.

Definition collectWrites (cat : Catalog) (entries : list WorkloadEntry) : gmap RelKey Z :=
  foldl (λ m e, foldl (λ m r,
    match resolveRef cat r with inl key => <[key := default 0 (m !! key) ⊞ Calls e]> m | inr _ => m end) m (Written (Stmt e)))
    ∅ entries.

Definition resolveTables (cat : Catalog) (refs : list Ref) : list RelKey * string :=
  foldl (λ '(out, reason) r,
    match resolveRef cat r with
    | inl key => (appendUnique out key, reason)
    | inr why => (out, firstNonEmpty [reason; why])
    end) ([], "") refs.

(** [columns]; the cache of the source only stores what it returns. *)
Definition columns (cat : Catalog) (key : RelKey) : gmap string Column :=
  foldl (λ m c, <[c_Name c := c]> m) ∅ (at_key (cat_Columns cat) key).

Definition bindUsage (cat : Catalog) (u : Usage) (tables : list RelKey) : RelKey + string :=
  if decide (r_Name (u_Ref u) ≠ "") then resolveRef cat (u_Ref u)
  else
    match filter (λ key, is_Some (columns cat key !! u_Column u)) tables with
    | [] => inr ReasonUnknownColumn
    | [found] => inl found
    | _ => inr ReasonAmbiguousColumn
    end.

Definition bindUsages (cat : Catalog) (usages : list Usage) (tables : list RelKey) : gmap RelKey (list Usage) * string :=
  foldl (λ '(out, reason) u,
    match bindUsage cat u tables with
    | inl key => (<[key := at_key out key ++ [u]]> out, reason)
    | inr why => (out, firstNonEmpty [reason; why])
    end) (∅, "") usages.
End collapse.

(** ** The key of one candidate *)

Record roles := mkRoles { equality : list string; ranges : list string; ordering : list string; nulls : list string }.

Definition RoleEquality : string := "equality".
Definition RoleRange : string := "range".
Definition RoleJoin : string := "join".
Definition RoleOrder : string := "order".
Definition RoleGroup : string := "group".
Definition RoleIsNull : string := "is_null".

Definition role_step (st : roles * list Usage * list Usage) (u : Usage) : roles * list Usage * list Usage :=
  let '(r, orderBy, groupBy) := st in
  if decide (u_Role u = RoleEquality ∨ u_Role u = RoleJoin) then
    (mkRoles (appendUnique (equality r) (u_Column u)) (ranges r) (ordering r) (nulls r), orderBy, groupBy)
  else if decide (u_Role u = RoleIsNull) then
    (mkRoles (equality r) (ranges r) (ordering r) (appendUnique (nulls r) (u_Column u)), orderBy, groupBy)
  else if decide (u_Role u = RoleRange) then
    (mkRoles (equality r) (appendUnique (ranges r) (u_Column u)) (ordering r) (nulls r), orderBy, groupBy)
  else if decide (u_Role u = RoleOrder) then (r, orderBy ++ [u], groupBy)
  else if decide (u_Role u = RoleGroup) then (r, orderBy, groupBy ++ [u])
  else (r, orderBy, groupBy).

Definition splitRoles (usages : list Usage) : roles :=
  let '(r, orderBy, groupBy) := foldl role_step (mkRoles [] [] [] [], [], []) usages in
  let sortSpec := sort_stable (less_on u_Seq Z.ltb) (if decide (orderBy = []) then groupBy else orderBy) in
  let mixedDir := existsb (λ u, match head sortSpec with Some u0 => negb (Bool.eqb (u_Desc u) (u_Desc u0)) | None => false end) sortSpec in
  if mixedDir then r else mkRoles (equality r) (ranges r) (foldl (λ l u, appendUnique l (u_Column u)) [] sortSpec) (nulls r).

Definition selectivePredicate (nulls : list string) (cols : gmap string Column) : list string * bool :=
  let '(predicate, statsMissing) := foldl (λ '(predicate, statsMissing) name,
    match cols !! name with
    | None => (predicate, statsMissing)
    | Some c =>
        if negb (StatsKnown c) then (predicate, true)
        else if (0 <? NullFrac c)%float && (NullFrac c <=? nullPredicateMaxFrac)%float then (predicate ++ [name], statsMissing)
        else (predicate, statsMissing)
    end) ([], false) nulls in
  (sort_slice str_ltb predicate, statsMissing).

Definition distinctCount (c : Column) (rows : Z) : float :=
  if (NDistinct c <? 0)%float then (- NDistinct c * to_float rows)%float else NDistinct c.

Record item := mkItem { it_name : string; it_distinct : float; it_seq : Z }.

Definition item_less (a b : item) : bool :=
  if negb (it_distinct a =? it_distinct b)%float then (it_distinct b <? it_distinct a)%float else it_seq a <? it_seq b.

Definition stats_known (cols : gmap string Column) (name : string) : bool :=
  match cols !! name with Some c => StatsKnown c | None => false end.

Definition orderEquality (names : list string) (cols : gmap string Column) (rows : Z) : list string * bool :=
  if forallb (stats_known cols) names then
    let items := imap (λ i name,
      mkItem name (match cols !! name with Some c => distinctCount c rows | None => 0%float end) (Z.of_nat i)) names in
    (it_name <$> sort_stable item_less items, false)
  else (names, true).

Definition filterIndexable (columns : list string) (cols : gmap string Column) : list string * bool * bool :=
  foldl (λ '(kept, unindexable, unknown) name,
    match cols !! name with
    | None => (kept, unindexable, true)
    | Some c => if negb (BtreeIndexable c) then (kept, true, unknown) else (kept ++ [name], unindexable, unknown)
    end) ([], false, false) columns.

Definition containsAll (haystack names : list string) : bool := forallb (λ name, bool_decide (name ∈ haystack)) names.

Definition sameColumns (a b : list string) : bool := (length a =? length b)%nat && containsAll a b.

Definition holdsSameRows (idx : Index) (predicate : list string) : bool :=
  if negb (Partial idx) then true
  else bool_decide (NullPredicate idx ≠ []) && bool_decide (NullPredicate idx = predicate).

(** The length of the equality prefix of a key. *)
Fixpoint eq_prefix (columns equality : list string) : nat :=
  match columns with [] => O | c :: columns => if decide (c ∈ equality) then S (eq_prefix columns equality) else O end.

Definition coversKey (idxColumns columns equality : list string) : bool :=
  if (length idxColumns <? length columns)%nat then false
  else
    let n := eq_prefix columns equality in
    sameColumns (take n idxColumns) (take n columns) &&
    bool_decide (drop n (take (length columns) idxColumns) = drop n columns).

Definition usable (idx : Index) : bool := bool_decide (Method idx = btreeMethod) && Valid idx && negb (Expression idx).

Definition coveredByExisting (cat : Catalog) (key : RelKey) (columns equality predicate : list string) : bool :=
  existsb (λ idx, usable idx && holdsSameRows idx predicate && coversKey (Columns idx) columns equality) (at_key (Indexes cat) key).

Definition servedByUniqueIndex (cat : Catalog) (key : RelKey) (equality predicate : list string) : bool :=
  existsb (λ idx, Unique idx && usable idx && holdsSameRows idx predicate &&
    (bool_decide (Columns idx ≠ []) && containsAll equality (Columns idx))) (at_key (Indexes cat) key).

Definition similarIndexes (cat : Catalog) (key : RelKey) (columns : list string) : list string :=
  sort_slice str_ltb (i_Name <$> filter (λ idx, usable idx && containsAll (Columns idx) columns = true) (at_key (Indexes cat) key)).

Fixpoint truncateAtUnique (columns equality : list string) (cols : gmap string Column) : list string :=
  match columns with
  | [] => []
  | name :: columns =>
      let unique := match cols !! name with Some c => StatsKnown c && (NDistinct c <=? uniqueNDistinct)%float | None => false end in
      if bool_decide (name ∈ equality) && unique then [name] else name :: truncateAtUnique columns equality cols
  end.

(** ** Drafts *)

Record CoveredQuery := mkCovered {
  cq_QueryIDs : list Z; cq_QueryIDByHost : gmap string Z; cq_Fingerprint : string; cq_Query : string; cq_WeightPct : float;
  cq_Calls : Z; cq_Hosts : list string
}.

Record draft := mkDraft {
  d_key : RelKey; d_columns : list string; predicate : list string; covered : gmap string CoveredQuery; order : list string;
  statsMissing : bool; wideIndex : bool; requested : Z
}.

(** The fields of the builder that do not change while the statements are added. *)
Record builder := mkBuilder { cat : Catalog; cfg : AdvisorConfig; totalTime : float; writeCalls : gmap RelKey Z }.

Definition buildDraft (b : builder) (key : RelKey) (usages : list Usage) : draft + string :=
  match Relations (cat b) !! key with
  | None => inr ReasonUnknownRelation
  | Some rel =>
      if Rows rel <? MinTableRows (cfg b) then inr ReasonTableTooSmall
      else
        let cols := columns (cat b) key in
        let r := splitRoles usages in
        let nulls := filter (λ name, (name ∉ equality r) ∧ (name ∉ ranges r) ∧ (name ∉ ordering r)) (nulls r) in
        let '(predicate, predicateStats) := selectivePredicate nulls cols in
        if servedByUniqueIndex (cat b) key (equality r) predicate then inr ReasonAlreadyIndexed
        else
          let '(columns, statsMissing) := orderEquality (equality r) cols (Rows rel) in
          let statsMissing := statsMissing || predicateStats in
          let columns :=
            match ranges r with
            | range :: _ => appendUnique columns range
            | [] => foldl appendUnique columns (ordering r)
            end in
          let '(columns, unindexable, unknown) := filterIndexable columns cols in
          if decide (columns = []) then
            inr (if unindexable : bool then ReasonUnsupportedType
                 else if unknown : bool then ReasonUnknownColumn else ReasonNoIndexablePredicate)
          else
            let columns := truncateAtUnique columns (equality r) cols in
            let requested := Z.of_nat (length columns) in
            let columns := take (Z.to_nat (MaxIndexColumns (cfg b))) columns in
            if coveredByExisting (cat b) key columns (equality r) predicate then inr ReasonAlreadyIndexed
            else inl (mkDraft key columns predicate ∅ [] statsMissing (Z.of_nat (length columns) <? requested) requested)
  end.

Definition sortedHosts (hosts : list string) : list string := sort_slice str_ltb (firsts hosts).

Definition weight (b : builder) (e : WorkloadEntry) : float :=
  if (totalTime b <=? 0)%float then 0%float else (100 * TotalTimeMs e / totalTime b)%float.

Definition same_index (d d' : draft) : Prop := d_columns d' = d_columns d ∧ predicate d' = predicate d.
#[global] Instance same_index_dec d d' : Decision (same_index d d').
Proof. unfold same_index. apply _. Defined.

Definition cover (b : builder) (target : draft) (e : WorkloadEntry) : draft :=
  if decide (covered target !! e_Fingerprint e = None) then
    mkDraft (d_key target) (d_columns target) (predicate target)
      (<[e_Fingerprint e := mkCovered (QueryIDs e) (QueryIDByHost e) (e_Fingerprint e) (Query e) (weight b e) (Calls e)
           (sortedHosts (e_Hosts e))]> (covered target))
      (order target ++ [e_Fingerprint e]) (statsMissing target) (wideIndex target) (requested target)
  else target.

Definition flag (target d : draft) : draft :=
  mkDraft (d_key target) (d_columns target) (predicate target) (covered target) (order target)
    (statsMissing target || statsMissing d) (wideIndex target || wideIndex d) (requested target).

(** [attach]: the first draft of the same columns and predicate takes the statement. *)
Fixpoint attach_to (b : builder) (ds : list draft) (d : draft) (e : WorkloadEntry) : list draft :=
  match ds with
  | [] => [cover b d e]
  | d' :: ds => if decide (same_index d d') then cover b (flag d' d) e :: ds else d' :: attach_to b ds d e
  end.

Definition attach (b : builder) (drafts : gmap RelKey (list draft)) (d : draft) (e : WorkloadEntry) : gmap RelKey (list draft) :=
  <[d_key d := attach_to b (at_key drafts (d_key d)) d e]> drafts.

Definition key_less : RelKey → RelKey → bool := lex_less (less_on k_Schema str_ltb) (less_on k_Name str_ltb).

Definition KindSelect : string := "select".
Definition KindUpdate : string := "update".
Definition KindDelete : string := "delete".
Definition KindMerge : string := "merge".

Definition yieldsCandidates (kind : string) : bool := bool_decide (kind ∈ [KindSelect; KindUpdate; KindDelete; KindMerge]).

Definition statementReason (stmt : Statement) : string :=
  match Unsupported stmt with r :: _ => r | [] => ReasonNoIndexablePredicate end.

Section build.
Context `{MapRange}.

Definition sortedKeys {V} (site : string) (m : gmap RelKey V) : list RelKey := sort_slice key_less (map_range site m).*1.

(** One table of a statement: its draft is attached, or the first reason is kept. *)
Definition table_step (b : builder) (e : WorkloadEntry) (byTable : gmap RelKey (list Usage))
    (st : gmap RelKey (list draft) * bool * string) (key : RelKey) : gmap RelKey (list draft) * bool * string :=
  let '(drafts, produced, dropReason) := st in
  match buildDraft b key (at_key byTable key) with
  | inl d => (attach b drafts d e, true, dropReason)
  | inr reason => (drafts, produced, firstNonEmpty [dropReason; reason])
  end.

Definition addStatement (b : builder) (drafts : gmap RelKey (list draft)) (e : WorkloadEntry) :
    string * gmap RelKey (list draft) :=
  if negb (yieldsCandidates (Kind (Stmt e))) then ("", drafts)
  else
    let '(tables, tableReason) := resolveTables (cat b) (Tables (Stmt e)) in
    if decide (tables = []) then (firstNonEmpty [tableReason; ReasonUnknownRelation], drafts)
    else
      let '(byTable, bindReason) := bindUsages (cat b) (Usages (Stmt e)) tables in
      let '(drafts, produced, dropReason) :=
        foldl (table_step b e byTable) (drafts, false, "") (sortedKeys "addStatement" byTable) in
      if produced then ("", drafts)
      else (firstNonEmpty [dropReason; bindReason; tableReason; statementReason (Stmt e)], drafts).

(** ** Merging and ranking *)

Definition isPrefix (short long : list string) : bool :=
  if (length long <? length short)%nat then false else bool_decide (take (length short) long = short).

Definition mergeFrom (d other : draft) : draft :=
  let '(covered, order) := foldl (λ '(covered, order) fp,
    if decide (covered !! fp = None) then
      (match IndexAdvisor.covered other !! fp with Some q => <[fp := q]> covered | None => covered end, order ++ [fp])
    else (covered, order)) (covered d, order d) (IndexAdvisor.order other) in
  mkDraft (d_key d) (d_columns d) (predicate d) covered order (statsMissing d || statsMissing other)
    (wideIndex d || wideIndex other) (requested d).
(** The first kept draft that [d] is a prefix of takes it over. *)
Fixpoint merge_into (kept : list draft) (d : draft) : list draft :=
  match kept with
  | [] => [d]
  | k :: kept =>
      if bool_decide (predicate d = predicate k) && isPrefix (d_columns d) (d_columns k) then mergeFrom k d :: kept
      else k :: merge_into kept d
  end.

Definition mergePrefixes (drafts : list draft) : list draft :=
  foldl merge_into [] (sort_stable (more_on (λ d, length (d_columns d)) Nat.ltb) drafts).

(** ** The report *)

Record Warning := mkWarning { w_Code : string; w_Params : gmap string float; w_Names : list string }.

Inductive EvidenceState := EvidenceNotSearched | EvidenceNotFound | EvidenceFound.
Record Evidence := mkEvidence {
  State : EvidenceState; ev_Plans : Z; SeqScanNodes : Z; ActualTimeMs : float; RowsRemoved : float; ev_From : time; ev_To : time;
  ev_Partial : bool
}.
Definition not_searched : Evidence := mkEvidence EvidenceNotSearched 0 0 0 0 zero_time zero_time false.

Record Candidate := mkCandidate {
  Schema : string; Table : string; cd_Columns : list string; Predicate : string; DDL : string; WeightPct : float;
  Covered : list CoveredQuery; TableRows : Z; cd_Writes : Writes; Warnings : list Warning; cd_Evidence : Evidence;
  PlannerChecked : bool
}.

Record Summary := mkSummary {
  PgssAvailable : bool; AnalyzedQueries : Z; CollapsedGroups : Z; NotParsedCount : Z; CoveredTimePct : float;
  CatalogTruncated : bool; s_Hosts : list string; HostsWithoutStats : list string
}.

Record Report := mkReport {
  Candidates : list Candidate; r_NotParsed : list NotParsed; r_Summary : Summary; UnreachableHosts : list string
}.

Record trade := mkTrade { t_writeCalls : Z; t_readCalls : Z }.

Definition writeHeavy (t : trade) : bool :=
  if t_writeCalls t <? writeHeavyMinCalls then false
  else (writeHeavyRatio * to_float (Z.max (t_readCalls t) 1) <? to_float (t_writeCalls t))%float.

Definition warn (code : string) (params : list (string * float)) (names : list string) : Warning :=
  mkWarning code (list_to_map params) names.

Definition warningsFor (b : builder) (d : draft) (kind : string) (weight : float) (t : trade) (partitions : Z) : list Warning :=
  let similar := similarIndexes (cat b) (d_key d) (d_columns d) in
  let n := Z.of_nat (length (at_key (Indexes (cat b)) (d_key d))) in
  (if decide (similar = []) then [] else [warn "similar_index" [] similar]) ++
  (if manyIndexesThreshold <=? n then [warn "many_indexes" [("indexes", to_float n)] []] else []) ++
  (if statsMissing d then [warn "stats_missing" [] []] else []) ++
  (if wideIndex d then
     [warn "wide_index" [("columns", to_float (Z.of_nat (length (d_columns d)))); ("requested", to_float (requested d))] []]
   else []) ++
  (if decide (kind = partitionedKind) then [warn "partition_root" [("partitions", to_float partitions)] []] else []) ++
  (if decide (kind = matviewKind) then [warn "matview" [] []] else []) ++
  (if writeHeavy t then
     [warn "write_heavy" [("write_calls", to_float (t_writeCalls t)); ("read_calls", to_float (t_readCalls t))] []]
   else []) ++
  (if (weight <? lowWeightPct)%float then [warn "low_weight" [("weight_pct", weight)] []] else []).

Definition by_weight (a b : CoveredQuery) : bool := (cq_WeightPct b <? cq_WeightPct a)%float.

(** The covered statements in insertion order. *)
Definition covered_list (d : draft) : list CoveredQuery := omap (λ fp, covered d !! fp) (order d).

Definition candidate (b : builder) (s : ddlScope) (key : RelKey) (d : draft) : Candidate * ddlScope :=
  let rel := Relations (cat b) !! key in
  let kind := match rel with Some r => rel_Kind r | None => "" end in
  let qs := covered_list d in
  let weight := foldl (λ w q, (w + cq_WeightPct q)%float) 0%float qs in
  let readCalls := foldl (λ c q, c ⊞ cq_Calls q) 0 qs in
  let t := mkTrade (default 0 (writeCalls b !! key)) readCalls in
  let partitions := if decide (kind = partitionedKind) then leaves s key else 0 in
  let '(ddl, s) := ddlFor key (d_columns d) (predicate d) s in
  (mkCandidate (k_Schema key) (k_Name key) (d_columns d) (predicateSQL (predicate d)) ddl weight (sort_stable by_weight qs)
     (match rel with Some r => Rows r | None => 0 end) (default no_writes (cat_Writes (cat b) !! key))
     (warningsFor b d kind weight t partitions) not_searched false, s).

(** [slices.Compare] of two lists, when it is negative. *)
Fixpoint strings_less (a b : list string) : bool :=
  match a, b with
  | [], [] => false
  | [], _ :: _ => true
  | _ :: _, [] => false
  | x :: a, y :: b => if decide (x = y) then strings_less a b else str_ltb x y
  end.

Definition candidate_less (a b : Candidate) : bool :=
  if negb (WeightPct a =? WeightPct b)%float then (WeightPct b <? WeightPct a)%float
  else if decide (Schema a ≠ Schema b) then str_ltb (Schema a) (Schema b)
  else if decide (Table a ≠ Table b) then str_ltb (Table a) (Table b)
  else if decide (cd_Columns a ≠ cd_Columns b) then strings_less (cd_Columns a) (cd_Columns b)
  else str_ltb (Predicate a) (Predicate b).

(** All candidates, before they are ranked. *)
Definition all_candidates (b : builder) (s : ddlScope) (drafts : gmap RelKey (list draft)) : list Candidate :=
  (foldl (λ '(out, s) key,
    foldl (λ '(out, s) d, let '(c, s) := candidate b s key d in (out ++ [c], s)) (out, s) (mergePrefixes (at_key drafts key)))
    ([], s) (sortedKeys "candidates" drafts)).1.

Definition candidates (b : builder) (s : ddlScope) (drafts : gmap RelKey (list draft)) : list Candidate :=
  take (Z.to_nat (MaxCandidates (cfg b))) (sort_stable candidate_less (all_candidates b s drafts)).

Definition coveredTimePct (cs : list Candidate) : float :=
  (foldl (λ '(seen, total) q,
    if decide (cq_Fingerprint q ∈ (seen : gset string)) then (seen, total)
    else ({[cq_Fingerprint q]} ∪ seen, (total + cq_WeightPct q)%float)) (∅, 0%float) (mjoin (Covered <$> cs))).2.

Definition statement_step (b : builder) (st : gmap RelKey (list draft) * gmap string Z) (g : WorkloadEntry) :
    gmap RelKey (list draft) * gmap string Z :=
  let '(drafts, skipped) := st in
  let '(reason, drafts) := addStatement b drafts g in
  (drafts, if decide (reason = "") then skipped else tally_add skipped reason 1).

Definition new_builder (w : Workload) (c : Catalog) (conf : AdvisorConfig) : builder :=
  let groups := collapse (Entries w) in
  mkBuilder c (WithDefaults conf) (workloadTime c groups) (collectWrites c groups).

(** The drafts and the tally once every statement has been added. *)
Definition add_all (w : Workload) (c : Catalog) (conf : AdvisorConfig) : gmap RelKey (list draft) * gmap string Z :=
  foldl (statement_step (new_builder w c conf)) (∅, merge_tally "Build.NotParsed" ∅ (w_NotParsed w)) (collapse (Entries w)).

(** [Build]; the duration it measures is left out. *)
Definition Build (w : Workload) (c : Catalog) (conf : AdvisorConfig) : Report :=
  let b := new_builder w c conf in
  let '(drafts, skipped) := add_all w c conf in
  let cs := candidates b (newDDLScope c) drafts in
  mkReport cs (notParsedList skipped)
    (mkSummary (Available w) (Z.of_nat (length (Entries w))) (Z.of_nat (length (collapse (Entries w)))) (sumCounts skipped)
       (coveredTimePct cs) (Truncated c) (sortedHosts (w_Hosts w)) (sortedHosts (NoStats w)))
    (sortedHosts (Unreachable w)).
End build.
