(* ===== verification/AdvisorFold.v ===== *)
(** * Folding the workload: what [collapse] keeps

    Statements of one fingerprint become one entry; statements without a fingerprint stay
    apart. *)

From S2P Require Import Prelude GoSlices GoFloat Sqlparse AdvisorCatalog IndexAdvisor.
From stdpp Require Import options.

#[local] Open Scope string_scope.
#[local] Open Scope Z_scope.
#[local] Open Scope list_scope.

Section fold.
Context `{MapRange}.
Implicit Types (e g : WorkloadEntry) (es out : list WorkloadEntry).

Definition with_fp (fp : string) (es : list WorkloadEntry) : list WorkloadEntry := members e_Fingerprint fp es.

(** What the entries of one fingerprint become. *)
Definition folded (es : list WorkloadEntry) : list WorkloadEntry :=
  match es with [] => [] | e :: es => [foldl fold_entry e es] end.

Lemma folded_snoc es e : es ≠ [] → folded (es ++ [e]) = (λ g, fold_entry g e) <$> folded es.
Proof. destruct es as [|e0 es]; [done|]. intros _. cbn. by rewrite foldl_app. Qed.

Lemma fold_entry_fp g e : e_Fingerprint (fold_entry g e) = e_Fingerprint g.
Proof. done. Qed.

(** The index points at the entry of its fingerprint. *)
Record indexed (st : list WorkloadEntry * gmap string nat) : Prop := {
  ix_some : ∀ fp i, st.2 !! fp = Some i → ∃ g, st.1 !! i = Some g ∧ e_Fingerprint g = fp;
  ix_none : ∀ fp, st.2 !! fp = None → with_fp fp st.1 = [];
  ix_one : ∀ fp, fp ≠ "" → (length (with_fp fp st.1) ≤ 1)%nat
}.

Lemma with_fp_app fp es es' : with_fp fp (es ++ es') = with_fp fp es ++ with_fp fp es'.
Proof. apply members_app. Qed.

Lemma with_fp_one fp e : with_fp fp [e] = if decide (e_Fingerprint e = fp) then [e] else [].
Proof. unfold with_fp. rewrite members_cons. by case_decide. Qed.

(** Replacing an entry by one of the same fingerprint. *)
Lemma with_fp_insert fp out i g g' : out !! i = Some g → e_Fingerprint g' = e_Fingerprint g →
  (length (with_fp (e_Fingerprint g) out) ≤ 1)%nat →
  with_fp fp (<[i := g']> out) = if decide (e_Fingerprint g = fp) then [g'] else with_fp fp out.
Proof.
  intros Hi Hfp Hone. destruct (list_elem_of_split_length out i g Hi) as (l1 & l2 & -> & ->).
  rewrite insert_app_r_alt, Nat.sub_diag by lia. cbn [insert list_insert]. rewrite !with_fp_app in *.
  change (g' :: l2) with ([g'] ++ l2). change (g :: l2) with ([g] ++ l2) in *. rewrite !with_fp_app, !with_fp_one, Hfp in *.
  rewrite decide_True in Hone by done. rewrite !length_app in Hone. cbn in Hone. case_decide as Heq; [|done].
  subst fp. destruct (with_fp _ l1); [|cbn in Hone; lia]. destruct (with_fp _ l2); [done|cbn in Hone; lia].
Qed.

Lemma collapse_step_spec st e fp : indexed st →
  indexed (collapse_step st e) ∧
  with_fp fp (collapse_step st e).1 =
    (if decide (e_Fingerprint e = fp) then
       (if decide (fp = "" ∨ with_fp fp st.1 = []) then with_fp fp st.1 ++ [e] else (λ g, fold_entry g e) <$> with_fp fp st.1)
     else with_fp fp st.1).
Proof.
  intros [Hs Hn Ho]. destruct st as [out index]. cbn [fst snd] in *.
  assert (Happ : ∀ fp', with_fp fp' (out ++ [e]) = if decide (e_Fingerprint e = fp') then with_fp fp' out ++ [e] else with_fp fp' out).
  { intros fp'. rewrite with_fp_app, with_fp_one. case_decide; [done|by rewrite app_nil_r]. }
  assert (Hpush : (e_Fingerprint e = "" ∨ with_fp (e_Fingerprint e) out = []) →
    indexed (out ++ [e], <[e_Fingerprint e := length out]> index)).
  { intros Hcase. split; cbn [fst snd].
    - intros fp' i. destruct (decide (e_Fingerprint e = fp')) as [<-|Hne].
      + rewrite lookup_insert_eq. intros [= <-]. exists e. by rewrite lookup_app_r, Nat.sub_diag by lia.
      + rewrite lookup_insert_ne by done. intros (g & Hg & Hfp)%Hs. exists g. split; [|done]. by apply lookup_app_l_Some.
    - intros fp'. destruct (decide (e_Fingerprint e = fp')) as [<-|Hne]; [by rewrite lookup_insert_eq|].
      rewrite lookup_insert_ne by done. intros Hnone%Hn. by rewrite Happ, decide_False.
    - intros fp' Hfp'. rewrite Happ. case_decide as Heq; [|by apply Ho]. subst fp'. destruct Hcase as [?| ->]; [done|]. cbn. lia. }
  unfold collapse_step. destruct (index !! e_Fingerprint e) as [i|] eqn:Hi.
  - case_decide as Hempty.
    + split; [apply Hpush; by left|]. cbn [fst]. rewrite Happ. case_decide as Heq; [|done]. rewrite decide_True; [done|]. left. congruence.
    + destruct (Hs _ _ Hi) as (g & Hg & Hgfp). rewrite Hg. cbn [fst].
      assert (Hins : ∀ fp', with_fp fp' (<[i := fold_entry g e]> out) = if decide (e_Fingerprint e = fp') then [fold_entry g e] else with_fp fp' out).
      { intros fp'. rewrite (with_fp_insert fp' out i g) by (try done; rewrite Hgfp; by apply Ho). by rewrite Hgfp. }
      assert (Hmem : with_fp (e_Fingerprint e) out = [g]).
      { assert (g ∈ with_fp (e_Fingerprint e) out) as Hin by (apply elem_of_members; split; [done|by eapply list_elem_of_lookup_2]).
        specialize (Ho _ Hempty). destruct (with_fp _ out) as [|x [|y l]]; cbn in Ho; [by apply elem_of_nil in Hin| |lia].
        by apply list_elem_of_singleton in Hin as ->. }
      split; [split; cbn [fst snd]|].
      * intros fp' j Hj. destruct (decide (i = j)) as [<-|Hne].
        -- exists (fold_entry g e). rewrite list_lookup_insert_eq by (by eapply lookup_lt_Some).
           split; [done|]. destruct (Hs _ _ Hj) as (g' & Hg' & <-). rewrite Hg in Hg'. by injection Hg' as <-.
        -- rewrite list_lookup_insert_ne by done. by apply Hs.
      * intros fp' Hnone. rewrite Hins. rewrite decide_False; [by apply Hn|]. intros <-. by rewrite Hi in Hnone.
      * intros fp' Hfp'. rewrite Hins. case_decide; [done|by apply Ho].
      * rewrite Hins. case_decide as Heq; [|done]. subst fp. rewrite Hmem, decide_False; [done|]. intros [?|?]; done.
  - pose proof (Hn _ Hi) as Hnil. split; [apply Hpush; by right|]. cbn [fst]. rewrite Happ. case_decide as Heq; [|done]. subst fp.
    rewrite decide_True; [done|by right].
Qed.

Lemma collapse_fold es : let st := foldl collapse_step ([], ∅) es in
  indexed st ∧ with_fp "" st.1 = with_fp "" es ∧ ∀ fp, fp ≠ "" → with_fp fp st.1 = folded (with_fp fp es).
Proof.
  induction es as [|e es (Hix & He & Hne)] using rev_ind; cbn zeta in *.
  { split; [|done]. split; cbn; [by intros ? ? ?|done|]. intros. lia. }
  rewrite foldl_app. cbn [foldl]. set (st := foldl collapse_step _ es) in *.
  split; [apply (collapse_step_spec st e ""); done|]. split.
  - rewrite (proj2 (collapse_step_spec st e "" Hix)), with_fp_app, with_fp_one, He.
    case_decide; [by rewrite decide_True by (by left)|by rewrite app_nil_r].
  - intros fp Hfp. rewrite (proj2 (collapse_step_spec st e fp Hix)), with_fp_app, with_fp_one, Hne by done.
    case_decide as Heq; [|by rewrite app_nil_r].
    destruct (decide (with_fp fp es = [])) as [->|Hnil]; [by rewrite decide_True by (by right)|].
    rewrite folded_snoc by done. rewrite decide_False; [done|]. intros [?|Hf]; [done|]. by destruct (with_fp fp es).
Qed.

(** ** The fields of a folded entry *)

Lemma keep_first_lookup (l : list (string * Z)) (dst : gmap string Z) h : NoDup l.*1 →
  foldl (λ m hi, if decide (m !! hi.1 = None) then <[hi.1 := hi.2]> m else m) dst l !! h =
  match dst !! h with Some id => Some id | None => (list_to_map l : gmap string Z) !! h end.
Proof.
  revert dst. induction l as [|[k v] l IH]; intros dst Hnd; cbn [foldl fst snd]; [by destruct (dst !! h)|].
  apply NoDup_cons in Hnd as [Hk Hnd]. rewrite IH by done.
  change (list_to_map ((k, v) :: l)) with (<[k := v]> (list_to_map l : gmap string Z)).
  destruct (decide (k = h)) as [<-|Hne].
  - rewrite lookup_insert_eq. rewrite (not_elem_of_list_to_map_1 l k) by done.
    case_decide as Hd; [by rewrite lookup_insert_eq, Hd|]. by destruct (dst !! k).
  - rewrite lookup_insert_ne by done. case_decide; [by rewrite lookup_insert_ne|done].
Qed.

Lemma fold_hosts_lookup dst src h : fold_hosts dst src !! h = match dst !! h with Some id => Some id | None => src !! h end.
Proof. unfold fold_hosts. rewrite keep_first_lookup by apply map_range_nodup. by rewrite map_range_to_map. Qed.

Lemma foldl_fold_entry e es :
  let g := foldl fold_entry e es in
  QueryIDs g = foldl appendUnique (QueryIDs e) (mjoin (QueryIDs <$> es)) ∧
  e_Hosts g = foldl appendUnique (e_Hosts e) (mjoin (e_Hosts <$> es)) ∧
  Calls g = foldl add64 (Calls e) (Calls <$> es) ∧ e_Rows g = foldl add64 (e_Rows e) (e_Rows <$> es) ∧
  TotalTimeMs g = foldl PrimFloat.add (TotalTimeMs e) (TotalTimeMs <$> es) ∧
  Stmt g = Stmt e ∧ (∀ h, QueryIDByHost g !! h = head (omap (λ x, QueryIDByHost x !! h) (e :: es))).
Proof.
  revert e. induction es as [|x es IH]; intros e; cbn zeta.
  { cbn. split_and!; try done. intros h. by destruct (QueryIDByHost e !! h). }
  cbn [foldl]. destruct (IH (fold_entry e x)) as (Hq & Hh & Hc & Hr & Ht & Hs & Hm). cbn zeta in *.
  rewrite Hq, Hh, Hc, Hr, Ht, Hs. rewrite !fmap_cons. cbn [foldl mjoin list_join]. rewrite !foldl_app.
  split_and!; try done. intros h. rewrite Hm. cbn [omap list_omap]. cbn [fold_entry QueryIDByHost]. rewrite fold_hosts_lookup.
  by destruct (QueryIDByHost e !! h).
Qed.

Lemma foldl_longest e es :
  Query (foldl fold_entry e es) ∈ Query <$> e :: es ∧
  Forall (λ x, (String.length (Query x) ≤ String.length (Query (foldl fold_entry e es)))%nat) (e :: es).
Proof.
  revert e. induction es as [|x es IH]; intros e; [split; [left|by repeat constructor]|].
  cbn [foldl]. destruct (IH (fold_entry e x)) as [Hin Hall]. apply Forall_cons in Hall as [Hx Hall]. cbn [fold_entry Query] in Hx.
  split.
  - rewrite fmap_cons, elem_of_cons in Hin. rewrite !fmap_cons, !elem_of_cons. destruct Hin as [->|Hin]; [|by right; right].
    cbn [fold_entry Query]. case_match; [right; by left|by left].
  - destruct (Nat.ltb_spec (String.length (Query e)) (String.length (Query x))); constructor; try lia; constructor; (done || lia).
Qed.

Lemma wrap64_sum_ext (l l' : list Z) : Forall2 (λ a b, wrap64 a = wrap64 b) l l' → wrap64 (sumZ l) = wrap64 (sumZ l').
Proof.
  induction 1 as [|a b l l' Hab _ IH]; [done|]. rewrite !sumZ_cons.
  by rewrite <- wrap64_add_l, <- wrap64_add_r, Hab, IH, wrap64_add_l, wrap64_add_r.
Qed.

Lemma sum_folded (f : WorkloadEntry → Z) es : (∀ g e, f (fold_entry g e) = f g ⊞ f e) →
  wrap64 (sumZ (f <$> folded es)) = wrap64 (sumZ (f <$> es)).
Proof.
  intros Hf. destruct es as [|e es]; [done|]. cbn [folded fmap list_fmap]. rewrite !sumZ_cons. change (sumZ []) with 0. rewrite Z.add_0_r.
  revert e. induction es as [|x es IH]; intros e; cbn [foldl fmap list_fmap]; [by rewrite Z.add_0_r|].
  rewrite IH, Hf, sumZ_cons. unfold add64. rewrite wrap64_add_l. f_equal. lia.
Qed.

Lemma collapse_sum (f : WorkloadEntry → Z) es : (∀ g e, f (fold_entry g e) = f g ⊞ f e) →
  wrap64 (sumZ (f <$> collapse es)) = wrap64 (sumZ (f <$> es)).
Proof.
  intros Hf. destruct (collapse_fold es) as (_ & He & Hne). cbn zeta in *. fold (collapse es) in He, Hne.
  set (ks := firsts (e_Fingerprint <$> collapse es ++ es)).
  assert (Hks : ∀ e, e ∈ collapse es ++ es → e_Fingerprint e ∈ ks) by (intros e Hin; apply elem_of_firsts; by apply list_elem_of_fmap_2).
  rewrite <- (sumZ_regroup e_Fingerprint f ks (collapse es)); [|apply firsts_nodup|intros e Hin; apply Hks, elem_of_app; by left].
  rewrite <- (sumZ_regroup e_Fingerprint f ks es); [|apply firsts_nodup|intros e Hin; apply Hks, elem_of_app; by right].
  apply wrap64_sum_ext, Forall2_fmap, Forall_Forall2_diag, list.Forall_forall. intros fp _.
  change (members e_Fingerprint fp ?l) with (with_fp fp l). destruct (decide (fp = "")) as [->|Hfp]; [by rewrite He|].
  rewrite Hne by done. by apply sum_folded.
Qed.

(** What folding must keep of the entries [e :: es] of one fingerprint in their entry [g]. *)
Record folds (e : WorkloadEntry) (es : list WorkloadEntry) (g : WorkloadEntry) : Prop := {
  f_ids : ∀ id, id ∈ QueryIDs g ↔ ∃ x, x ∈ e :: es ∧ id ∈ QueryIDs x;
  f_hosts : ∀ h, h ∈ e_Hosts g ↔ ∃ x, x ∈ e :: es ∧ h ∈ e_Hosts x;
  f_pairs : ∀ h, QueryIDByHost g !! h = head (omap (λ x, QueryIDByHost x !! h) (e :: es));
  f_query : Query g ∈ Query <$> e :: es ∧
    Forall (λ x, (String.length (Query x) ≤ String.length (Query g))%nat) (e :: es);
  f_calls : Calls g = foldl add64 (Calls e) (Calls <$> es) ∧ e_Rows g = foldl add64 (e_Rows e) (e_Rows <$> es);
  f_time : TotalTimeMs g = foldl PrimFloat.add (TotalTimeMs e) (TotalTimeMs <$> es);
  f_stmt : Stmt g = Stmt e
}.

Lemma elem_of_joined {A} `{EqDecision A} (f : WorkloadEntry → list A) e es x :
  x ∈ foldl appendUnique (f e) (mjoin (f <$> es)) ↔ ∃ y, y ∈ e :: es ∧ x ∈ f y.
Proof.
  rewrite foldl_appendUnique_elem, list_elem_of_join. split.
  - intros [Hx|(l & Hx & (y & -> & Hy)%list_elem_of_fmap)]; [exists e; split; [left|done]|exists y; split; [by right|done]].
  - intros (y & [->|Hy]%elem_of_cons & Hx); [by left|]. right. exists (f y). split; [done|by apply list_elem_of_fmap_2].
Qed.

Lemma folds_foldl e es : folds e es (foldl fold_entry e es).
Proof.
  destruct (foldl_fold_entry e es) as (Hq & Hh & Hc & Hr & Ht & Hs & Hm). cbn zeta in *.
  split; try done; [intros id; rewrite Hq; apply elem_of_joined|intros h; rewrite Hh; apply elem_of_joined|apply foldl_longest].
Qed.

(** Statements of one fingerprint, from however many rows and hosts, become one entry with
    the sums of their calls, rows and times, every identifier and host, the identifier each
    host showed first, and the longest text; statements without a fingerprint are left
    alone, and no call is lost. *)
Theorem collapse_exact es :
  with_fp "" (collapse es) = with_fp "" es ∧
  (∀ fp, fp ≠ "" → match with_fp fp es with
                   | [] => with_fp fp (collapse es) = []
                   | e :: r => ∃ g, with_fp fp (collapse es) = [g] ∧ folds e r g
                   end) ∧
  wrap64 (sumZ (Calls <$> collapse es)) = wrap64 (sumZ (Calls <$> es)) ∧
  wrap64 (sumZ (e_Rows <$> collapse es)) = wrap64 (sumZ (e_Rows <$> es)).
Proof.
  destruct (collapse_fold es) as (_ & He & Hne). cbn zeta in *. fold (collapse es) in He, Hne. split_and!; [done|..].
  - intros fp Hfp. rewrite (Hne fp Hfp). destruct (with_fp fp es) as [|e r]; [done|]. cbn [folded].
    exists (foldl fold_entry e r). split; [done|apply folds_foldl].
  - apply (collapse_sum Calls). by intros.
  - apply (collapse_sum e_Rows). by intros.
Qed.
End fold.
