(* ===== verification/AdvisorSound.v ===== *)
(** * The index advisor's candidates: sound and not redundant

    What [Build] proposes is a btree index the database lacks, on a table worth it, for
    statements of the workload, and no proposal is the start of another one. *)

From S2P Require Import Prelude GoSlices GoFloat Sqlparse AdvisorCatalog GoStrings AdvisorDDL AdvisorPredicate IndexAdvisor.
From stdpp Require Import options.

#[local] Open Scope string_scope.
#[local] Open Scope Z_scope.
#[local] Open Scope list_scope.

(** ** Names resolve to relations *)

(** Roots of partitions are not partitions themselves. *)
Definition rooted (c : Catalog) : Prop := ∀ k r, Relations c !! k = Some r → IsPartition r = true →
  ∀ r', Relations c !! Root r = Some r' → IsPartition r' = false.

(** A relation an index can be built on: not a partition of a table the catalog has. *)
Definition target (c : Catalog) (key : RelKey) : Prop :=
  ∃ r, Relations c !! key = Some r ∧ (IsPartition r = true → Relations c !! Root r = None).

Lemma resolveRef_target c r key : rooted c → resolveRef c r = inl key → target c key.
Proof.
  intros Hroot. assert (Hup : ∀ k, roll_up c r k = inl key → target c key).
  { intros k. unfold roll_up. destruct (Relations c !! k) as [rel|] eqn:Hk; [|done].
    destruct (IsPartition rel) eqn:Hp; cbn [andb].
    - case_bool_decide as Hr; intros [= <-].
      + destruct Hr as [r' Hr']. exists r'. split; [done|]. rewrite (Hroot k rel Hk Hp r' Hr'). done.
      + exists rel. split; [done|]. intros _. destruct (Relations c !! Root rel); [|done]. destruct Hr. by eexists.
    - intros [= <-]. exists rel. split; [done|]. by rewrite Hp. }
  unfold resolveRef. case_decide; [|apply Hup]. destruct (at_key _ _) as [|k [|]]; [done|apply Hup|done].
Qed.

Lemma resolveTables_target c refs : rooted c → Forall (target c) (resolveTables c refs).1.
Proof.
  intros Hroot. unfold resolveTables. set (st := ([], "")). assert (Hst : Forall (target c) st.1) by constructor. revert Hst.
  generalize st. clear st. induction refs as [|r refs IH]; intros [out reason] Hst; [done|]. cbn [foldl].
  destruct (resolveRef c r) as [key|why] eqn:Hr; apply IH; [|done]. cbn in *. apply list.Forall_forall. intros k Hk.
  apply elem_of_appendUnique in Hk as [Hk| ->]; [|by eapply resolveRef_target]. rewrite list.Forall_forall in Hst. by apply Hst.
Qed.

Lemma bindUsage_target c u tables key : rooted c → Forall (target c) tables → bindUsage c u tables = inl key → target c key.
Proof.
  intros Hroot Ht. unfold bindUsage. case_decide; [by apply resolveRef_target|].
  destruct (filter _ tables) as [|found [|]] eqn:Hf; [done| |done]. intros [= <-].
  rewrite list.Forall_forall in Ht. apply Ht. assert (found ∈ filter (λ key, is_Some (columns c key !! u_Column u)) tables) as Hin by (rewrite Hf; left).
  by apply list_elem_of_filter in Hin as [_ ?].
Qed.

Lemma bindUsages_target c us tables key : rooted c → Forall (target c) tables → is_Some ((bindUsages c us tables).1 !! key) → target c key.
Proof.
  intros Hroot Ht. unfold bindUsages. set (st := (∅, "")).
  assert (Hst : ∀ k, is_Some (st.1 !! k) → target c k) by (intros k; cbn; rewrite lookup_empty; by intros [? ?]). revert Hst.
  generalize st. clear st. induction us as [|u us IH]; intros [out reason] Hst; [apply Hst|]. cbn [foldl].
  destruct (bindUsage c u tables) as [k|why] eqn:Hu; apply IH; [|done]. cbn in *. intros k'.
  destruct (decide (k = k')) as [<-|Hne]; [intros _; by eapply bindUsage_target|]. rewrite lookup_insert_ne by done. apply Hst.
Qed.

(** ** Lists of columns *)

Lemma splitRoles_nodup us : NoDup (equality (splitRoles us)) ∧ NoDup (ordering (splitRoles us)) ∧ NoDup (nulls (splitRoles us)).
Proof.
  unfold splitRoles.
  assert (Hr : ∀ st, NoDup (equality st.1.1) → NoDup (nulls st.1.1) → ordering st.1.1 = [] →
    NoDup (equality (foldl role_step st us).1.1) ∧ NoDup (nulls (foldl role_step st us).1.1) ∧
    ordering (foldl role_step st us).1.1 = []).
  { induction us as [|u us IH]; intros [[r o] g] He Hn Ho; [done|]. cbn [foldl]. apply IH; cbn [role_step];
      repeat case_decide; cbn; try done; by apply appendUnique_nodup. }
  destruct (Hr (mkRoles [] [] [] [], [], [])) as (He & Hn & Ho); [constructor|constructor|done|].
  destruct (foldl role_step _ us) as [[r o] g]. cbn [fst] in *.
  case_match; [split_and!; [done|rewrite Ho; constructor|done]|]. split_and!; [done| |done]. cbn [ordering].
  match goal with |- NoDup (foldl _ [] ?l) => generalize l end. intros l.
  assert (Hl : ∀ k, foldl (λ l u, appendUnique l (u_Column u)) k l = foldl appendUnique k (u_Column <$> l)).
  { induction l as [|u l IHl]; intros k; [done|]. cbn. apply IHl. }
  rewrite Hl. apply foldl_appendUnique_nodup. constructor.
Qed.

Lemma orderEquality_perm names cols rows : (orderEquality names cols rows).1 ≡ₚ names.
Proof.
  unfold orderEquality. destruct (forallb _ _); [|done]. cbn [fst]. rewrite sort_stable_perm.
  rewrite fmap_imap. generalize 0%nat. intros _. clear. induction names as [|n names IH] using rev_ind; [done|].
  rewrite imap_app. cbn. by rewrite IH.
Qed.

Definition indexable (cols : gmap string Column) (name : string) : Prop := ∃ c, cols !! name = Some c ∧ BtreeIndexable c = true.

#[global] Instance indexable_dec cols name : Decision (indexable cols name).
Proof.
  destruct (cols !! name) as [c|] eqn:Hc.
  - destruct (BtreeIndexable c) eqn:Hb; [left; by exists c|right]. intros (c' & Hc' & ?). congruence.
  - right. intros (c' & ? & _). congruence.
Defined.

Lemma filterIndexable_filter l cols : (filterIndexable l cols).1.1 = filter (indexable cols) l.
Proof.
  unfold filterIndexable.
  assert (Hgen : ∀ st, (foldl (λ '(kept, unindexable, unknown) name,
    match cols !! name with
    | None => (kept, unindexable, true)
    | Some c => if negb (BtreeIndexable c) then (kept, true, unknown) else (kept ++ [name], unindexable, unknown)
    end) st l).1.1 = st.1.1 ++ filter (indexable cols) l).
  { induction l as [|n l IH]; intros [[k ui] uk]; cbn [foldl]; [by rewrite app_nil_r|]. rewrite filter_cons.
    destruct (cols !! n) as [c|] eqn:Hc.
    - destruct (BtreeIndexable c) eqn:Hb; cbn [negb]; rewrite IH; cbn [fst].
      + rewrite decide_True by by exists c. by rewrite <- app_assoc.
      + rewrite decide_False; [done|]. intros (c' & Hc' & ?). congruence.
    - rewrite IH. rewrite decide_False; [done|]. intros (c' & Hc' & ?). congruence. }
  by rewrite Hgen.
Qed.

Lemma truncateAtUnique_prefix l eqs cols : truncateAtUnique l eqs cols `prefix_of` l ∧ (l ≠ [] → truncateAtUnique l eqs cols ≠ []).
Proof.
  induction l as [|n l [IH _]]; [split; [done|done]|]. cbn [truncateAtUnique].
  destruct (bool_decide (n ∈ eqs) && _); (split; [|done]); [by exists l|by apply prefix_cons].
Qed.

Lemma prefix_nodup {A} (l k : list A) : l `prefix_of` k → NoDup k → NoDup l.
Proof. intros [m ->] Hk. by apply NoDup_app in Hk as [? _]. Qed.

Lemma coversKey_prefix idx l eqs : l `prefix_of` idx → coversKey idx l eqs = true.
Proof.
  intros [m ->]. unfold coversKey. rewrite (proj2 (Nat.ltb_ge _ _)) by (rewrite length_app; lia).
  assert (Hn : (eq_prefix l eqs ≤ length l)%nat).
  { induction l as [|c l IH]; cbn; [lia|]. case_decide; cbn; lia. }
  rewrite take_app_le by done. rewrite take_app_length. unfold sameColumns. rewrite Nat.eqb_refl. cbn [andb].
  rewrite bool_decide_eq_true_2 by done. rewrite andb_true_r. unfold containsAll. apply forallb_forall. intros c Hc.
  apply bool_decide_eq_true_2. by apply list_elem_of_In.
Qed.

(** The columns whose NULLs a partial index is worth. *)
Definition selective (cols : gmap string Column) (name : string) : Prop := ∃ c,
  cols !! name = Some c ∧ StatsKnown c = true ∧ (0 <? NullFrac c)%float = true ∧ (NullFrac c <=? nullPredicateMaxFrac)%float = true.

Lemma selectivePredicate_spec ns cols : NoDup ns →
  strictly str_ltb (selectivePredicate ns cols).1 ∧
  Forall (λ n, n ∈ ns ∧ selective cols n) (selectivePredicate ns cols).1.
Proof.
  unfold selectivePredicate. intros Hns. destruct (foldl _ _ ns) as [p m] eqn:Hf. cbn [fst].
  assert (Hp : NoDup p ∧ ∀ n, n ∈ p → n ∈ ns ∧ selective cols n).
  { revert p m Hf. induction ns as [|n ns IH] using rev_ind; intros p m Hf; [injection Hf as <- <-; split; [constructor|]; intros ? []%elem_of_nil|].
    apply NoDup_app in Hns as (Hns & Hdisj & _). rewrite foldl_app in Hf. cbn [foldl] in Hf.
    destruct (foldl _ _ ns) as [q k]. destruct (IH Hns q k eq_refl) as [Hnd Hin].
    assert (Hsame : p = q ∨ (p = q ++ [n] ∧ selective cols n)).
    { destruct (cols !! n) as [c|] eqn:Hc; [|injection Hf as <- <-; by left].
      destruct (StatsKnown c) eqn:Hk; cbn [negb] in Hf; [|injection Hf as <- <-; by left].
      destruct (0 <? NullFrac c)%float eqn:H0; cbn [andb] in Hf; [|injection Hf as <- <-; by left].
      destruct (NullFrac c <=? nullPredicateMaxFrac)%float eqn:H1; injection Hf as <- <-; [|by left]. right. split; [done|]. by exists c. }
    destruct Hsame as [->|[-> Hsel]].
    - split; [done|]. intros x Hx. destruct (Hin x Hx). split; [apply elem_of_app; by left|done].
    - split.
      + apply NoDup_app. split; [done|]. split; [|apply NoDup_singleton]. intros x Hx ->%list_elem_of_singleton.
        destruct (Hin n Hx) as [Hn _]. apply (Hdisj n Hn). by left.
      + intros x [Hx| ->%list_elem_of_singleton]%elem_of_app; [destruct (Hin x Hx); split; [apply elem_of_app; by left|done]|].
        split; [apply elem_of_app; right; by left|done]. }
  destruct Hp as [Hnd Hin]. split.
  - apply (sort_slice_strictly _ (λ x, x)). by rewrite list_fmap_id.
  - apply list.Forall_forall. intros n Hn. apply Hin. by apply elem_of_sort_slice in Hn.
Qed.

(** ** One draft *)

Record draft_ok (b : builder) (d : draft) : Prop := {
  ok_rows : ∃ r, Relations (cat b) !! d_key d = Some r ∧ MinTableRows (cfg b) ≤ Rows r;
  ok_some : d_columns d ≠ [];
  ok_once : NoDup (d_columns d);
  ok_width : (length (d_columns d) ≤ Z.to_nat (MaxIndexColumns (cfg b)))%nat;
  ok_columns : Forall (indexable (columns (cat b) (d_key d))) (d_columns d);
  ok_predicate : strictly str_ltb (predicate d) ∧
    Forall (λ n, (n ∉ d_columns d) ∧ selective (columns (cat b) (d_key d)) n) (predicate d);
  ok_new : Forall (λ idx, usable idx = true → holdsSameRows idx (predicate d) = true → ¬ d_columns d `prefix_of` Columns idx)
    (at_key (Indexes (cat b)) (d_key d))
}.

(** The columns of a key before the width cap come from the roles of the statement. *)
Lemma key_columns_spec (r : roles) names : NoDup names → (∀ n, n ∈ names → n ∈ equality r) → NoDup (ordering r) →
  let l := match ranges r with range :: _ => appendUnique names range | [] => foldl appendUnique names (ordering r) end in
  NoDup l ∧ ∀ n, n ∈ l → n ∈ equality r ∨ n ∈ ranges r ∨ n ∈ ordering r.
Proof.
  intros Hn Heq Ho. cbn zeta. destruct (ranges r) as [|x rs].
  - split; [by apply foldl_appendUnique_nodup|]. intros n [Hin|Hin]%foldl_appendUnique_elem; [left; by apply Heq|by right; right].
  - split; [by apply appendUnique_nodup|]. intros n [Hin| ->]%elem_of_appendUnique; [left; by apply Heq|right; left; by left].
Qed.

Lemma take_nonempty {A} n (l : list A) : l ≠ [] → (0 < n)%nat → take n l ≠ [].
Proof. destruct l, n; (done || lia). Qed.

Lemma elem_of_taken {A} n (l : list A) x : x ∈ take n l → x ∈ l.
Proof. intros Hx. rewrite <- (take_drop n l). apply elem_of_app. by left. Qed.

Lemma buildDraft_ok b key us d : 0 < MaxIndexColumns (cfg b) → buildDraft b key us = inl d →
  draft_ok b d ∧ d_key d = key ∧ covered d = ∅ ∧ order d = [].
Proof.
  intros Hmax. unfold buildDraft. destruct (Relations (cat b) !! key) as [rel|] eqn:Hrel; [|done]. case_test; [done|].
  set (cols := columns (cat b) key). set (r := splitRoles us). destruct (splitRoles_nodup us) as (He & Ho & Hn). fold r in He, Ho, Hn.
  set (ns := filter _ (nulls r)).
  destruct (selectivePredicate_spec ns cols) as [Hsort Hsel]; [by apply NoDup_filter|].
  destruct (selectivePredicate ns cols) as [p pm]. cbn [fst] in *.
  destruct (servedByUniqueIndex _ _ _ _); [done|].
  pose proof (orderEquality_perm (equality r) cols (Rows rel)) as Hperm.
  destruct (orderEquality (equality r) cols (Rows rel)) as [names sm]. cbn [fst] in Hperm.
  destruct (key_columns_spec r names) as [Hnd Hfrom]; [by rewrite Hperm|by intros n; rewrite Hperm|done|]. cbn zeta in *.
  match goal with |- context [filterIndexable ?l cols] => set (l0 := l) in * end.
  pose proof (filterIndexable_filter l0 cols) as Hfil. destruct (filterIndexable l0 cols) as [[kept ui] uk]. cbn [fst] in Hfil.
  case_decide as Hne; [done|]. destruct (truncateAtUnique_prefix kept (equality r) cols) as [Htr Htrne].
  set (cut := truncateAtUnique kept (equality r) cols) in *.
  set (key_cols := take (Z.to_nat (MaxIndexColumns (cfg b))) cut).
  destruct (coveredByExisting _ _ _ _ _) eqn:Hcov; [done|]. intros [= <-]. split; [|done].
  assert (Hsub : ∀ n, n ∈ key_cols → n ∈ l0 ∧ indexable cols n).
  { intros n Hin. assert (n ∈ kept) as Hk. { destruct Htr as [m Hm]. rewrite Hm. apply elem_of_app. left. by eapply elem_of_taken. }
    rewrite Hfil in Hk. by apply list_elem_of_filter in Hk as [? ?]. }
  split; cbn [d_key d_columns predicate].
  - exists rel. split; [done|lia].
  - apply take_nonempty; [by apply Htrne|lia].
  - eapply prefix_nodup; [apply prefix_take|]. eapply prefix_nodup; [exact Htr|]. rewrite Hfil. by apply NoDup_filter.
  - unfold key_cols. rewrite length_take. lia.
  - apply list.Forall_forall. intros n Hin. by apply Hsub.
  - split; [done|]. eapply Forall_impl; [exact Hsel|]. cbn. intros n [Hns Hs]. split; [|done].
    apply list_elem_of_filter in Hns as [(H1 & H2 & H3) _]. intros Hin. destruct (Hsub n Hin) as [Hl _].
    destruct (Hfrom n Hl) as [?|[?|?]]; done.
  - apply list.Forall_forall. intros idx Hidx Hu Hrows Hpre. apply not_true_iff_false in Hcov. apply Hcov.
    unfold coveredByExisting. apply existsb_exists. exists idx. split; [by apply list_elem_of_In|]. rewrite Hu, Hrows.
    by apply coversKey_prefix.
Qed.

(** ** All drafts *)

Definition cq_of (b : builder) (g : WorkloadEntry) : CoveredQuery :=
  mkCovered (QueryIDs g) (QueryIDByHost g) (e_Fingerprint g) (Query g) (weight b g) (Calls g) (sortedHosts (e_Hosts g)).

(** The columns and the predicate are what one draft of a table differs from another in. *)
Definition index_of (d : draft) : list string * list string := (d_columns d, predicate d).

Record covers (b : builder) (groups : list WorkloadEntry) (d : draft) : Prop := {
  cv_once : NoDup (order d);
  cv_dom : ∀ fp, is_Some (covered d !! fp) ↔ fp ∈ order d;
  cv_from : ∀ fp q, covered d !! fp = Some q →
    ∃ g, g ∈ groups ∧ e_Fingerprint g = fp ∧ yieldsCandidates (Kind (Stmt g)) = true ∧ q = cq_of b g
}.

Record good_draft (b : builder) (groups : list WorkloadEntry) (key : RelKey) (d : draft) : Prop := {
  g_ok : draft_ok b d;
  g_key : d_key d = key;
  g_covers : covers b groups d;
  g_some : order d ≠ []
}.

Definition drafts_ok (b : builder) (groups : list WorkloadEntry) (drafts : gmap RelKey (list draft)) : Prop :=
  ∀ key ds, drafts !! key = Some ds →
    target (cat b) key ∧ Forall (good_draft b groups key) ds ∧ NoDup (index_of <$> ds).

Lemma same_index_of d d' : same_index d d' ↔ index_of d' = index_of d.
Proof. unfold same_index, index_of. split; [by intros [-> ->]|by intros [= -> ->]]. Qed.

Lemma draft_ok_same b d d' : d_key d' = d_key d → index_of d' = index_of d → draft_ok b d → draft_ok b d'.
Proof. intros Hk [= Hc Hp] []. by split; rewrite ?Hk, ?Hc, ?Hp. Qed.

Lemma cover_good b groups key d e : e ∈ groups → yieldsCandidates (Kind (Stmt e)) = true →
  draft_ok b d → d_key d = key → covers b groups d →
  good_draft b groups key (cover b d e) ∧ index_of (cover b d e) = index_of d ∧
  order (cover b d e) = appendUnique (order d) (e_Fingerprint e).
Proof.
  intros He Hy Hok Hk [Ho Hd Hf]. unfold cover, appendUnique. case_decide as Hnew.
  - assert (Hfp : e_Fingerprint e ∉ order d) by (intros [q Hq]%Hd; congruence).
    rewrite decide_False by done. split_and!; [split; cbn|done|done].
    + by eapply draft_ok_same; [..|exact Hok].
    + done.
    + split; cbn.
      * apply NoDup_app. split; [done|]. split; [|apply NoDup_singleton]. by intros fp Hfp' ->%list_elem_of_singleton.
      * intros fp. rewrite elem_of_app, list_elem_of_singleton. destruct (decide (e_Fingerprint e = fp)) as [<-|Hne].
        -- rewrite lookup_insert_eq. split; [by right|eauto].
        -- rewrite lookup_insert_ne, Hd by done. split; [by left|]. intros [?|?]; [done|congruence].
      * intros fp q. destruct (decide (e_Fingerprint e = fp)) as [<-|Hne].
        -- rewrite lookup_insert_eq. intros [= <-]. by exists e.
        -- rewrite lookup_insert_ne by done. apply Hf.
    + intros Hnil. by apply app_nil in Hnil as [_ ?].
  - assert (Hfp : e_Fingerprint e ∈ order d). { apply Hd. destruct (covered d !! e_Fingerprint e); [eauto|done]. }
    rewrite decide_True by done. split_and!; [|done|done]. split; try done. intros Hnil. rewrite Hnil in Hfp. by apply elem_of_nil in Hfp.
Qed.

Lemma attach_to_ok b groups key ds d e : e ∈ groups → yieldsCandidates (Kind (Stmt e)) = true →
  draft_ok b d → d_key d = key → covered d = ∅ → order d = [] →
  Forall (good_draft b groups key) ds → NoDup (index_of <$> ds) →
  Forall (good_draft b groups key) (attach_to b ds d e) ∧ NoDup (index_of <$> attach_to b ds d e) ∧
  (∀ i, i ∈ index_of <$> attach_to b ds d e ↔ i ∈ index_of <$> ds ∨ i = index_of d) ∧
  (∃ d', d' ∈ attach_to b ds d e ∧ e_Fingerprint e ∈ order d') ∧
  (∀ d' fp, d' ∈ ds → fp ∈ order d' → ∃ d'', d'' ∈ attach_to b ds d e ∧ fp ∈ order d'').
Proof.
  intros He Hy Hok Hk Hc Ho. assert (Hcov : covers b groups d).
  { split; rewrite ?Ho, ?Hc; [constructor| |]; intros fp; rewrite lookup_empty; [|done]. rewrite elem_of_nil. by split; [intros [? ?]|]. }
  induction ds as [|d0 ds IH]; intros Hall Hnd; cbn [attach_to].
  - destruct (cover_good b groups key d e He Hy Hok Hk Hcov) as (Hg & Hi & Hord). rewrite fmap_cons, Hi. cbn.
    split_and!; [by constructor|apply NoDup_singleton| | |].
    + intros i. rewrite list_elem_of_singleton, elem_of_nil. tauto.
    + eexists. split; [left|]. rewrite Hord. apply elem_of_appendUnique. by right.
    + intros d' fp []%elem_of_nil.
  - apply Forall_cons in Hall as [[Gok Gk Gc Gs] Hall]. rewrite fmap_cons in Hnd. apply NoDup_cons in Hnd as [Hd0 Hnd]. case_decide as Hsame.
    + destruct (cover_good b groups key (flag d0 d) e He Hy) as (Hg & Hi & Hord);
        [by eapply draft_ok_same; [..|exact Gok]|done|by destruct Gc|]. change (index_of (flag d0 d)) with (index_of d0) in Hi.
      rewrite !fmap_cons, Hi. apply same_index_of in Hsame. split_and!; [by constructor|by constructor| | |].
      * intros i. rewrite elem_of_cons, Hsame. tauto.
      * eexists. split; [left|]. rewrite Hord. apply elem_of_appendUnique. by right.
      * intros d' fp [->|Hd']%elem_of_cons Hfp.
        -- eexists. split; [left|]. rewrite Hord. apply elem_of_appendUnique. by left.
        -- exists d'. split; [by right|done].
    + destruct (IH Hall Hnd) as (H1 & H2 & H3 & (d1 & Hd1 & He1) & H5). rewrite !fmap_cons. split_and!.
      * by constructor.
      * constructor; [|done]. rewrite H3. intros [?|Heq]; [done|]. by apply Hsame, same_index_of.
      * intros i. rewrite !elem_of_cons, H3. tauto.
      * exists d1. split; [by right|done].
      * intros d' fp [->|Hd']%elem_of_cons Hfp; [exists d0; split; [left|done]|].
        destruct (H5 d' fp Hd' Hfp) as (d'' & ? & ?). exists d''. split; [by right|done].
Qed.

(** A statement some draft covers. *)
Definition drafted (drafts : gmap RelKey (list draft)) (fp : string) : Prop :=
  ∃ key ds d, drafts !! key = Some ds ∧ d ∈ ds ∧ fp ∈ order d.

Lemma attach_ok b groups drafts d e : e ∈ groups → yieldsCandidates (Kind (Stmt e)) = true →
  draft_ok b d → covered d = ∅ → order d = [] → target (cat b) (d_key d) → drafts_ok b groups drafts →
  drafts_ok b groups (attach b drafts d e) ∧ drafted (attach b drafts d e) (e_Fingerprint e) ∧
  (∀ fp, drafted drafts fp → drafted (attach b drafts d e) fp).
Proof.
  intros He Hy Hok Hc Ho Ht Hds. unfold attach.
  assert (Hat : Forall (good_draft b groups (d_key d)) (at_key drafts (d_key d)) ∧ NoDup (index_of <$> at_key drafts (d_key d))).
  { unfold at_key. destruct (drafts !! d_key d) as [ds|] eqn:Hl; [by apply (Hds _ _ Hl)|]. split; constructor. }
  destruct (attach_to_ok b groups (d_key d) (at_key drafts (d_key d)) d e) as (H1 & H2 & _ & (d1 & Hd1 & Hfp1) & H5); try done; try apply Hat.
  split_and!.
  - intros key ds. destruct (decide (d_key d = key)) as [<-|Hne].
    + rewrite lookup_insert_eq. intros [= <-]. done.
    + rewrite lookup_insert_ne by done. apply Hds.
  - exists (d_key d). eexists _, d1. rewrite lookup_insert_eq. done.
  - intros fp (key & ds & d' & Hl & Hd' & Hfp). destruct (decide (d_key d = key)) as [Heq|Hne].
    + destruct (H5 d' fp) as (d'' & Hd'' & Hfp''); [unfold at_key; by rewrite Heq, Hl|done|].
      exists (d_key d). eexists _, d''. rewrite lookup_insert_eq. done.
    + exists key, ds, d'. by rewrite lookup_insert_ne.
Qed.

(** ** Adding the statements *)

Section statements.
Context `{MapRange} (b : builder) (groups : list WorkloadEntry).
Hypothesis Hmax : 0 < MaxIndexColumns (cfg b).
Hypothesis Hroot : rooted (cat b).
Hypothesis Hnamed : ∀ e, e ∈ groups → Forall (λ r, r ≠ "") (Unsupported (Stmt e)).

(** What adding a statement to the drafts [st] may have made of them. *)
Definition grows (st st' : gmap RelKey (list draft)) : Prop :=
  drafts_ok b groups st → drafts_ok b groups st' ∧ ∀ fp, drafted st fp → drafted st' fp.

Lemma grows_trans st1 st2 st3 : grows st1 st2 → grows st2 st3 → grows st1 st3.
Proof.
  unfold grows. intros H12 H23 [H2 M2]%H12. destruct (H23 H2) as [H3 M3]. split; [done|]. intros fp Hfp. by apply M3, M2.
Qed.

Lemma table_steps_ok e byTable keys st : e ∈ groups → yieldsCandidates (Kind (Stmt e)) = true →
  Forall (target (cat b)) keys →
  let st' := foldl (table_step b e byTable) st keys in
  grows st.1.1 st'.1.1 ∧ (drafts_ok b groups st.1.1 → st'.1.2 = true → st.1.2 = true ∨ drafted st'.1.1 (e_Fingerprint e)).
Proof using Hmax.
  intros He Hy Hkeys. revert st. induction Hkeys as [|key keys Hkey _ IH]; intros [[drafts produced] reason]; cbn zeta; cbn [foldl].
  { split; [by intros ?|]. by left. }
  specialize (IH (table_step b e byTable (drafts, produced, reason) key)). cbn zeta in IH. destruct IH as [IHg IHd].
  cbn [table_step] in *. destruct (buildDraft b key (at_key byTable key)) as [d|why] eqn:Hd; cbn [fst snd] in *; [|by split].
  destruct (buildDraft_ok b key _ d Hmax Hd) as (Hok & Hk & Hc & Ho). assert (Ht : target (cat b) (d_key d)) by by rewrite Hk.
  assert (Hstep : grows drafts (attach b drafts d e)).
  { intros Hds. destruct (attach_ok b groups drafts d e He Hy Hok Hc Ho Ht Hds) as (? & _ & ?). done. }
  split; [by eapply grows_trans|]. intros Hds Hprod. right.
  destruct (attach_ok b groups drafts d e He Hy Hok Hc Ho Ht Hds) as (Hds' & Hin & _). by apply (IHg Hds').
Qed.

(** A statement with nothing to report either yields no candidates or is covered by a draft. *)
Lemma addStatement_ok drafts e : e ∈ groups → drafts_ok b groups drafts →
  let '(reason, drafts') := addStatement b drafts e in
  drafts_ok b groups drafts' ∧ (∀ fp, drafted drafts fp → drafted drafts' fp) ∧
  (reason = "" → yieldsCandidates (Kind (Stmt e)) = true → drafted drafts' (e_Fingerprint e)).
Proof using Hmax Hroot Hnamed.
  intros He Hds. unfold addStatement. destruct (yieldsCandidates (Kind (Stmt e))) eqn:Hy; cbn [negb]; [|done].
  pose proof (resolveTables_target (cat b) (Tables (Stmt e)) Hroot) as Htab.
  destruct (resolveTables (cat b) (Tables (Stmt e))) as [tables treason]. cbn [fst] in Htab.
  case_decide as Hnone.
  { split_and!; [done|done|]. cbn [firstNonEmpty]. by case_decide. }
  pose proof (bindUsages_target (cat b) (Usages (Stmt e)) tables) as Hbind.
  destruct (bindUsages (cat b) (Usages (Stmt e)) tables) as [byTable breason]. cbn [fst] in Hbind.
  assert (Hkeys : Forall (target (cat b)) (sortedKeys "addStatement" byTable)).
  { apply list.Forall_forall. intros k Hk. unfold sortedKeys in Hk. rewrite elem_of_sort_slice in Hk.
    apply list_elem_of_fmap in Hk as ([k' us] & -> & Hin). apply elem_of_map_range in Hin. apply (Hbind k' Hroot Htab). by eexists. }
  destruct (table_steps_ok e byTable _ (drafts, false, "") He Hy Hkeys) as [Hg Hd]. cbn zeta in *.
  destruct (foldl (table_step b e byTable) _ _) as [[drafts' produced] dreason]. cbn [fst snd] in *.
  destruct (Hg Hds) as [Hds' Hmono]. destruct produced.
  - split_and!; [done|done|]. intros _ _. destruct (Hd Hds eq_refl) as [|?]; done.
  - split_and!; [done|done|]. intros Hr _. exfalso. revert Hr. cbn [firstNonEmpty]. repeat case_decide; try done.
    intros _. unfold statementReason in *. specialize (Hnamed e He). destruct (Unsupported (Stmt e)) as [|r us]; [done|].
    by inversion Hnamed.
Qed.
End statements.

(** ** Merging *)

Lemma isPrefix_spec l k : isPrefix l k = true ↔ l `prefix_of` k.
Proof.
  unfold isPrefix. destruct (Nat.ltb_spec (length k) (length l)) as [Hlt|Hge].
  - split; [done|]. intros Hp%prefix_length. lia.
  - rewrite bool_decide_eq_true. split; [intros <-; apply prefix_take|]. intros [m ->]. by rewrite take_app_length.
Qed.

(** Two indexes of which neither serves instead of the other. *)
Definition apart (i j : list string * list string) : Prop :=
  i.2 = j.2 → (¬ i.1 `prefix_of` j.1) ∧ (¬ j.1 `prefix_of` i.1).

Lemma merge_fold_ok b groups d other fps : covers b groups other → (∀ fp, fp ∈ fps → fp ∈ order other) →
  ∀ c o, covers b groups (mkDraft (d_key d) (d_columns d) (predicate d) c o (statsMissing d) (wideIndex d) (requested d)) →
  let '(c', o') := foldl (λ '(covered, order) fp,
    if decide (covered !! fp = None) then
      (match IndexAdvisor.covered other !! fp with Some q => <[fp := q]> covered | None => covered end, order ++ [fp])
    else (covered, order)) (c, o) fps in
  covers b groups (mkDraft (d_key d) (d_columns d) (predicate d) c' o' (statsMissing d) (wideIndex d) (requested d)) ∧
  ∀ fp, fp ∈ o' ↔ fp ∈ o ∨ fp ∈ fps.
Proof.
  intros [_ Hdom Hfrom]. induction fps as [|fp fps IH]; intros Hin c o Hcov; cbn [foldl].
  { split; [done|]. intros fp. rewrite elem_of_nil. tauto. }
  assert (Hfp : fp ∈ order other) by (apply Hin; left). apply Hdom in Hfp as [q Hq]. rewrite Hq.
  specialize (IH (λ x Hx, Hin x (list_elem_of_further _ _ _ Hx))). destruct Hcov as [Ho Hd Hf]. cbn in Ho, Hd, Hf.
  case_decide as Hnew.
  - assert (Hout : fp ∉ o) by (intros [? ?]%Hd; congruence).
    specialize (IH (<[fp := q]> c) (o ++ [fp])). destruct (foldl _ _ fps) as [c' o']. destruct IH as [Hc' Ho'].
    { split; cbn.
      - apply NoDup_app. split; [done|]. split; [|apply NoDup_singleton]. by intros x Hx ->%list_elem_of_singleton.
      - intros x. rewrite elem_of_app, list_elem_of_singleton. destruct (decide (fp = x)) as [<-|Hne].
        + rewrite lookup_insert_eq. split; [by right|eauto].
        + rewrite lookup_insert_ne, Hd by done. split; [by left|]. intros [?|?]; [done|congruence].
      - intros x y. destruct (decide (fp = x)) as [<-|Hne]; [rewrite lookup_insert_eq; intros [= <-]; by apply Hfrom|].
        rewrite lookup_insert_ne by done. apply Hf. }
    split; [done|]. intros x. rewrite Ho', elem_of_app, list_elem_of_singleton, elem_of_cons. tauto.
  - assert (Hout : fp ∈ o). { apply Hd. destruct (c !! fp); [eauto|done]. }
    specialize (IH c o). destruct (foldl _ _ fps) as [c' o']. destruct IH as [Hc' Ho']; [by split|].
    split; [done|]. intros x. rewrite Ho', elem_of_cons. split; [tauto|]. intros [?|[->|?]]; tauto.
Qed.

Lemma mergeFrom_good b groups key k d : good_draft b groups key k → covers b groups d →
  good_draft b groups key (mergeFrom k d) ∧ index_of (mergeFrom k d) = index_of k ∧
  (∀ fp, fp ∈ order (mergeFrom k d) ↔ fp ∈ order k ∨ fp ∈ order d).
Proof.
  intros [Hok Hk Hc Hs] Hd. unfold mergeFrom.
  pose proof (merge_fold_ok b groups k d (order d) Hd (λ _ Hx, Hx) (covered k) (order k)) as Hf.
  destruct (foldl _ _ (order d)) as [c' o']. destruct Hf as [Hcov Hord]; [by destruct Hc|]. cbn.
  split_and!; [|done|done]. split; cbn.
  - by eapply draft_ok_same; [..|exact Hok].
  - done.
  - by destruct Hcov.
  - intros Hnil. destruct (order k) as [|fp o]; [done|]. assert (fp ∈ o') as Hin by (apply Hord; left; by left).
    rewrite Hnil in Hin. by apply elem_of_nil in Hin.
Qed.

Lemma merge_into_ok b groups key kept d : Forall (good_draft b groups key) kept → good_draft b groups key d →
  Forall (λ k, (length (d_columns d) ≤ length (d_columns k))%nat) kept →
  StronglySorted apart (index_of <$> kept) →
  Forall (good_draft b groups key) (merge_into kept d) ∧ StronglySorted apart (index_of <$> merge_into kept d) ∧
  Forall (λ i, i ∈ index_of <$> kept ∨ i = index_of d) (index_of <$> merge_into kept d) ∧
  (∀ k fp, k ∈ d :: kept → fp ∈ order k → ∃ k', k' ∈ merge_into kept d ∧ fp ∈ order k').
Proof.
  intros Hkept Hd. induction Hkept as [|k kept Hk Hkept IH]; intros Hlen Hap; cbn [merge_into].
  { cbn. split_and!; [by constructor|by repeat constructor|constructor; [by right|constructor]|]. intros k fp Hin Hfp. by exists k. }
  apply Forall_cons in Hlen as [Hlk Hlen]. rewrite fmap_cons in Hap. apply StronglySorted_inv in Hap as [Hap Hka].
  case_match eqn:Htest.
  - destruct (mergeFrom_good b groups key k d Hk) as (Hg & Hi & Ho); [by destruct Hd|]. rewrite !fmap_cons, Hi.
    split_and!; [by constructor|by constructor| |].
    + apply list.Forall_forall. intros i Hin. by left.
    + intros k' fp [->|[->|Hin]%elem_of_cons]%elem_of_cons Hfp; [exists (mergeFrom k d)|exists (mergeFrom k d)|exists k'];
        (split; [first [by left|by right]|]); try done; rewrite Ho; tauto.
  - destruct (IH Hlen Hap) as (H1 & H2 & H3 & H4). rewrite !fmap_cons. split_and!; [by constructor| | |].
    + constructor; [done|]. rewrite list.Forall_forall in H3, Hka |- *. intros i [Hi| ->]%H3; [by apply Hka|].
      unfold apart, index_of. cbn. intros Hp. apply andb_false_iff in Htest as [Htest|Htest].
      { by rewrite bool_decide_eq_true_2 in Htest. }
      assert (Hnp : ¬ d_columns d `prefix_of` d_columns k) by (rewrite <- isPrefix_spec; congruence).
      split; [|done]. intros [m Hm]. apply Hnp. rewrite Hm, length_app in Hlk. assert (m = []) as -> by (destruct m; [done|cbn in Hlk; lia]).
      rewrite app_nil_r in Hm. by rewrite Hm.
    + constructor; [left; by left|]. eapply Forall_impl; [exact H3|]. cbn. intros i [?| ->]; [left; by right|by right].
    + intros k' fp [->|[->|Hin]%elem_of_cons]%elem_of_cons Hfp.
      * destruct (H4 d fp) as (x & ? & ?); [left|done|]. exists x. split; [by right|done].
      * exists k. split; [left|done].
      * destruct (H4 k' fp) as (x & ? & ?); [by right|done|]. exists x. split; [by right|done].
Qed.

#[global] Instance Nltb_strict : StrictWeak Nat.ltb.
Proof. split; intros *; rewrite ?Nat.ltb_lt, ?Nat.ltb_ge; lia. Qed.

Definition shorter (x y : draft) : Prop := (length (d_columns y) ≤ length (d_columns x))%nat.

Lemma merge_all_ok b groups key l : Forall (good_draft b groups key) l → StronglySorted shorter l → ∀ kept,
  Forall (good_draft b groups key) kept → Forall (λ d, Forall (λ k, shorter k d) kept) l → StronglySorted apart (index_of <$> kept) →
  let out := foldl merge_into kept l in
  Forall (good_draft b groups key) out ∧ StronglySorted apart (index_of <$> out) ∧
  (∀ k fp, k ∈ kept ++ l → fp ∈ order k → ∃ k', k' ∈ out ∧ fp ∈ order k').
Proof.
  intros Hl. induction Hl as [|d l Hd Hl IH]; intros Hsort kept Hkept Hlen Hap; cbn zeta; cbn [foldl].
  { split_and!; [done..|]. intros k fp. rewrite app_nil_r. eauto. }
  apply StronglySorted_inv in Hsort as [Hsort Hdl]. apply Forall_cons in Hlen as [Hlen1 Hlen].
  destruct (merge_into_ok b groups key kept d Hkept Hd Hlen1 Hap) as (H1 & H2 & H3 & H4).
  destruct (IH Hsort (merge_into kept d)) as (I1 & I2 & I3); [done| |done|].
  { rewrite list.Forall_forall in Hlen, Hdl |- *. rewrite list.Forall_forall in H3. intros x Hx. apply list.Forall_forall. intros k Hk.
    destruct (H3 (index_of k)) as [(k0 & Heq & Hk0)%list_elem_of_fmap|Heq]; [by apply list_elem_of_fmap_2| |];
      unfold shorter, index_of in *; injection Heq as -> _; [|by apply Hdl].
    specialize (Hlen x Hx). rewrite list.Forall_forall in Hlen. by apply Hlen. }
  cbn zeta in *. split_and!; [done|done|]. intros k fp Hk Hfp.
  assert (∃ k', k' ∈ merge_into kept d ++ l ∧ fp ∈ order k') as (k' & Hk' & Hfp').
  { apply elem_of_app in Hk as [Hk|[->|Hk]%elem_of_cons].
    - destruct (H4 k fp) as (x & ? & ?); [by right|done|]. exists x. split; [apply elem_of_app; by left|done].
    - destruct (H4 d fp) as (x & ? & ?); [left|done|]. exists x. split; [apply elem_of_app; by left|done].
    - exists k. split; [apply elem_of_app; by right|done]. }
  by apply (I3 k' fp).
Qed.

(** After merging, no draft of a table is the start of another with its predicate. *)
Lemma mergePrefixes_ok b groups key ds : Forall (good_draft b groups key) ds →
  Forall (good_draft b groups key) (mergePrefixes ds) ∧ StronglySorted apart (index_of <$> mergePrefixes ds) ∧
  (∀ k fp, k ∈ ds → fp ∈ order k → ∃ k', k' ∈ mergePrefixes ds ∧ fp ∈ order k').
Proof.
  intros Hds. unfold mergePrefixes. set (less := more_on _ Nat.ltb). pose proof (sort_stable_perm less ds) as Hp.
  destruct (merge_all_ok b groups key (sort_stable less ds)) with (kept := @nil draft) as (H1 & H2 & H3).
  - by rewrite Hp.
  - assert (Hs : StronglySorted (stably less (λ _ _, True)) (sort_stable less ds)).
    { apply (sort_stable_sorted _). clear. induction ds as [|d ds IH]; constructor; [done|]. by apply Forall_true. }
    clear Hp. revert Hs. generalize (sort_stable less ds). intros l0 Hs.
    induction Hs as [|x l Hs IH Hx]; constructor; [done|]. eapply Forall_impl; [exact Hx|]. intros y Hy%(stably_not_less _).
    unfold less, more_on in Hy. apply Nat.ltb_ge in Hy. unfold shorter. lia.
  - constructor.
  - apply Forall_true. intros. constructor.
  - constructor.
  - split_and!; [done|done|]. intros k fp Hk Hfp. apply (H3 k fp); [|done]. cbn. by rewrite Hp.
Qed.

(** ** The candidates *)

Lemma key_less_separates : Separates key_less (λ k, k).
Proof.
  intros [s1 n1] [s2 n2]. unfold key_less, lex_less, less_on. cbn. rewrite !orb_false_iff. intros [H1 H2] [H3 H4].
  rewrite H3 in H2. rewrite H1 in H4. cbn in *. by rewrite (str_ltb_antisym s1 s2), (str_ltb_antisym n1 n2).
Qed.

Section candidates.
Context `{MapRange} (b : builder) (groups : list WorkloadEntry).

(** The drafts that become candidates, in order, with their tables. *)
Definition merged (drafts : gmap RelKey (list draft)) : list (RelKey * draft) :=
  mjoin ((λ key, (λ d, (key, d)) <$> mergePrefixes (at_key drafts key)) <$> sortedKeys "candidates" drafts).

Definition made (kd : RelKey * draft) (cd : Candidate) : Prop := ∃ s, cd = (candidate b s kd.1 kd.2).1.

Lemma fold_candidates key ds st :
  ∃ cs, (foldl (λ '(out, s) d, let '(c, s) := candidate b s key d in (out ++ [c], s)) st ds).1 = st.1 ++ cs ∧
    Forall2 made ((λ d, (key, d)) <$> ds) cs.
Proof.
  revert st. induction ds as [|d ds IH]; intros [out s]; cbn [foldl]; [exists []; by rewrite app_nil_r|].
  destruct (candidate b s key d) as [c s'] eqn:Hc. destruct (IH (out ++ [c], s')) as (cs & -> & Hcs).
  exists (c :: cs). cbn [fst]. rewrite <- app_assoc. split; [done|]. constructor; [|done]. exists s. cbn [fst snd]. by rewrite Hc.
Qed.

Lemma all_candidates_made s drafts : Forall2 made (merged drafts) (all_candidates b s drafts).
Proof.
  unfold all_candidates, merged. generalize (sortedKeys "candidates" drafts). intros keys.
  assert (Hgen : ∀ st, ∃ cs, (foldl (λ '(out, s) key, foldl (λ '(out, s) d, let '(c, s) := candidate b s key d in (out ++ [c], s))
      (out, s) (mergePrefixes (at_key drafts key))) st keys).1 = st.1 ++ cs ∧
    Forall2 made (mjoin ((λ key, (λ d, (key, d)) <$> mergePrefixes (at_key drafts key)) <$> keys)) cs).
  { induction keys as [|key keys IH]; intros [out s0]; cbn [foldl]; [exists []; by rewrite app_nil_r|].
    destruct (fold_candidates key (mergePrefixes (at_key drafts key)) (out, s0)) as (cs & Hcs & Hall).
    destruct (foldl _ (out, s0) _) as [out' s1]. cbn [fst] in Hcs. subst out'. destruct (IH (out ++ cs, s1)) as (cs' & -> & Hall').
    exists (cs ++ cs'). cbn [fst]. rewrite <- app_assoc. split; [done|]. cbn [fmap list_fmap]. by apply Forall2_app. }
  destruct (Hgen ([], s)) as (cs & -> & Hcs). done.
Qed.

Lemma made_fields kd cd : made kd cd →
  mkKey (Schema cd) (Table cd) = kd.1 ∧ cd_Columns cd = d_columns kd.2 ∧ Predicate cd = predicateSQL (predicate kd.2) ∧
  Covered cd ≡ₚ covered_list kd.2 ∧ TableRows cd = (match Relations (cat b) !! kd.1 with Some r => Rows r | None => 0 end).
Proof.
  intros [s ->]. unfold candidate. destruct (ddlFor _ _ _ _) as [ddl s']. cbn. split_and!; [by destruct kd.1|done|done|apply sort_stable_perm|done].
Qed.

Lemma elem_of_merged drafts key d : (key, d) ∈ merged drafts ↔
  is_Some (drafts !! key) ∧ d ∈ mergePrefixes (at_key drafts key).
Proof.
  unfold merged. rewrite list_elem_of_join. split.
  - intros (l & Hin & (k & -> & Hk)%list_elem_of_fmap). apply list_elem_of_fmap in Hin as (d' & [= <- <-] & Hd). split; [|done].
    unfold sortedKeys in Hk. rewrite elem_of_sort_slice in Hk. apply list_elem_of_fmap in Hk as ([k v] & -> & Hk).
    apply elem_of_map_range in Hk. cbn. eauto.
  - intros [[v Hv] Hd]. exists ((λ d, (key, d)) <$> mergePrefixes (at_key drafts key)). split; [by apply list_elem_of_fmap_2|].
    apply list_elem_of_fmap. exists key. split; [done|]. unfold sortedKeys. rewrite elem_of_sort_slice.
    apply list_elem_of_fmap. exists (key, v). split; [done|]. by apply elem_of_map_range.
Qed.

Lemma merged_good drafts key d : drafts_ok b groups drafts → (key, d) ∈ merged drafts →
  target (cat b) key ∧ good_draft b groups key d.
Proof.
  intros Hds [[ds Hl] Hd]%elem_of_merged. destruct (Hds key ds Hl) as (Ht & Hg & _). split; [done|].
  unfold at_key in Hd. rewrite Hl in Hd. destruct (mergePrefixes_ok b groups key ds Hg) as (Hall & _ & _).
  rewrite list.Forall_forall in Hall. by apply Hall.
Qed.

Lemma merged_covers drafts fp : drafts_ok b groups drafts → drafted drafts fp →
  ∃ key d, (key, d) ∈ merged drafts ∧ fp ∈ order d.
Proof.
  intros Hds (key & ds & d & Hl & Hd & Hfp). destruct (Hds key ds Hl) as (_ & Hg & _).
  destruct (mergePrefixes_ok b groups key ds Hg) as (_ & _ & Hkeep). destruct (Hkeep d fp Hd Hfp) as (d' & Hd' & Hfp').
  exists key, d'. rewrite elem_of_merged. split; [|done]. split; [eauto|]. unfold at_key. by rewrite Hl.
Qed.

(** Two drafts of one table are apart. *)
Definition distinct_index (x y : RelKey * draft) : Prop := x.1 = y.1 → apart (index_of x.2) (index_of y.2).

Lemma merged_apart drafts : drafts_ok b groups drafts → StronglySorted distinct_index (merged drafts).
Proof.
  intros Hds. unfold merged. assert (Hnd : NoDup (sortedKeys "candidates" drafts)).
  { unfold sortedKeys. rewrite sort_slice_perm. apply map_range_nodup. }
  induction Hnd as [|key keys Hkey _ IH]; [constructor|]. cbn [fmap list_fmap]. apply StronglySorted_app. split_and!; [| |done].
  - intros x y Hx Hy. apply list_elem_of_fmap in Hx as (d & -> & _).
    apply list_elem_of_join in Hy as (l & Hl & (k & -> & Hk)%list_elem_of_fmap). apply list_elem_of_fmap in Hl as (d' & -> & _).
    intros Heq. cbn in Heq. subst k. done.
  - assert (Hap : StronglySorted apart (index_of <$> mergePrefixes (at_key drafts key))).
    { unfold at_key. destruct (drafts !! key) as [ds|] eqn:Hl; [|constructor]. destruct (Hds key ds Hl) as (_ & Hg & _).
      by apply (mergePrefixes_ok b groups key ds Hg). }
    induction (mergePrefixes (at_key drafts key)) as [|d ds IHd]; [constructor|]. cbn [fmap list_fmap] in *.
    apply StronglySorted_inv in Hap as [Hap Hd]. constructor; [by apply IHd|]. apply Forall_fmap.
    rewrite Forall_fmap in Hd. eapply Forall_impl; [exact Hd|]. by intros d' Hd' _.
Qed.
End candidates.

(** What makes a candidate sound: see [Build_sound]. *)
Record justified `{MapRange} (w : Workload) (c : Catalog) (conf : AdvisorConfig) (cd : Candidate) : Prop := {
  on_table : ∃ r, Relations c !! mkKey (Schema cd) (Table cd) = Some r ∧
    (IsPartition r = true → Relations c !! AdvisorCatalog.Root r = None) ∧
    MinTableRows (WithDefaults conf) ≤ Rows r ∧ TableRows cd = Rows r;
  key_columns : cd_Columns cd ≠ [] ∧ NoDup (cd_Columns cd) ∧
    Z.of_nat (length (cd_Columns cd)) ≤ MaxIndexColumns (WithDefaults conf) ≤ MaxIndexColumnsCeiling ∧
    Forall (indexable (columns c (mkKey (Schema cd) (Table cd)))) (cd_Columns cd);
  predicate_columns : ∃ p, Predicate cd = predicateSQL p ∧ strictly str_ltb p ∧
    Forall (λ n, (n ∉ cd_Columns cd) ∧ selective (columns c (mkKey (Schema cd) (Table cd))) n) p ∧
    Forall (λ idx, usable idx = true → holdsSameRows idx p = true → ¬ cd_Columns cd `prefix_of` Columns idx)
      (at_key (Indexes c) (mkKey (Schema cd) (Table cd)));
  for_statements : Covered cd ≠ [] ∧ NoDup (cq_Fingerprint <$> Covered cd) ∧
    Forall (λ q, ∃ g, g ∈ collapse (Entries w) ∧ yieldsCandidates (Kind (Stmt g)) = true ∧
      q = cq_of (new_builder w c conf) g) (Covered cd)
}.

(** Candidates that would index the same rows of one table by keys of which one starts the other. *)
Definition not_redundant (x y : Candidate) : Prop :=
  Schema x = Schema y → Table x = Table y → Predicate x = Predicate y →
  (¬ cd_Columns x `prefix_of` cd_Columns y) ∧ (¬ cd_Columns y `prefix_of` cd_Columns x).

(** A symmetric relation between all pairs does not depend on the order. *)
Lemma pairs_perm {A} (R : relation A) `{!Symmetric R} l l' : l ≡ₚ l' → StronglySorted R l → StronglySorted R l'.
Proof.
  induction 1 as [|x l l' Hp IH|x y l|l1 l2 l3 _ IH1 _ IH2]; [done| | |by auto].
  - intros [Hs Hx]%StronglySorted_inv. constructor; [by apply IH|]. by rewrite <- Hp.
  - intros [[Hs Hy]%StronglySorted_inv Hx]%StronglySorted_inv. apply Forall_cons in Hx as [Hxy Hx].
    constructor; [by constructor|]. by constructor.
Qed.

#[global] Instance not_redundant_symmetric : Symmetric not_redundant.
Proof. intros x y Hxy H1 H2 H3. by destruct (Hxy (eq_sym H1) (eq_sym H2) (eq_sym H3)). Qed.

(** The reason a statement is left out for, empty if it is not. *)
Definition reason_of `{MapRange} (b : builder) (g : WorkloadEntry) : string := (addStatement b ∅ g).1.

Lemma addStatement_reason `{MapRange} b drafts g : (addStatement b drafts g).1 = reason_of b g.
Proof.
  unfold reason_of, addStatement. destruct (negb _); [done|]. destruct (resolveTables _ _) as [tables tr].
  case_decide; [done|]. destruct (bindUsages _ _ _) as [byTable br].
  assert (Hgen : ∀ keys d1 d2 p r,
    let x := foldl (table_step b g byTable) (d1, p, r) keys in let y := foldl (table_step b g byTable) (d2, p, r) keys in
    x.1.2 = y.1.2 ∧ x.2 = y.2).
  { induction keys as [|key keys IH]; intros d1 d2 p r; [done|]. cbn [foldl table_step]. destruct (buildDraft _ _ _); apply IH. }
  destruct (Hgen (sortedKeys "addStatement" byTable) drafts ∅ false "") as [Hp Hr]. cbn zeta in Hp, Hr.
  destruct (foldl _ (drafts, false, "") _) as [[d1 p1] r1], (foldl _ (∅, false, "") _) as [[d2 p2] r2].
  cbn [fst snd] in *. subst. by destruct p2.
Qed.

Section Build.
Context `{MapRange} (w : Workload) (c : Catalog) (conf : AdvisorConfig).
#[local] Abbreviation b := (new_builder w c conf).
#[local] Abbreviation groups := (collapse (Entries w)).
Hypothesis Hroot : rooted c.
Hypothesis Hnamed : ∀ e, e ∈ groups → Forall (λ r, r ≠ "") (Unsupported (Stmt e)).

Lemma statement_steps l st : (∀ g, g ∈ l → g ∈ groups) → drafts_ok b groups st.1 →
  let st' := foldl (statement_step b) st l in
  drafts_ok b groups st'.1 ∧ (∀ fp, drafted st.1 fp → drafted st'.1 fp) ∧
  (∀ g, g ∈ l → reason_of b g = "" → yieldsCandidates (Kind (Stmt g)) = true → drafted st'.1 (e_Fingerprint g)).
Proof using Hroot Hnamed.
  revert st. induction l as [|g l IH]; intros [drafts skipped] Hl Hds; cbn zeta; cbn [foldl fst].
  { split_and!; [done|done|]. intros g []%elem_of_nil. }
  assert (Hg : g ∈ groups) by (apply Hl; left).
  pose proof (addStatement_ok b groups (proj1 (proj1 (proj2 (WithDefaults_bounds conf)))) Hroot Hnamed drafts g Hg Hds) as Hadd.
  pose proof (addStatement_reason b drafts g) as Hr. cbn [statement_step].
  destruct (addStatement b drafts g) as [reason drafts']. cbn [fst] in Hr. destruct Hadd as (Hds' & Hmono & Hdone).
  destruct (IH (drafts', if decide (reason = "") then skipped else tally_add skipped reason 1)) as (H1 & H2 & H3); [|done|].
  { intros x Hx. apply Hl. by right. }
  cbn zeta in *. cbn [fst] in *. split_and!; [done|by intros fp Hfp; apply H2, Hmono|].
  intros x [->|Hx]%elem_of_cons Hrx Hy; [|by apply H3]. apply H2, Hdone; [congruence|done].
Qed.

Lemma add_all_ok : drafts_ok b groups (add_all w c conf).1 ∧
  (∀ g, g ∈ groups → reason_of b g = "" → yieldsCandidates (Kind (Stmt g)) = true →
    drafted (add_all w c conf).1 (e_Fingerprint g)).
Proof using Hroot Hnamed.
  unfold add_all. destruct (statement_steps groups (∅, merge_tally "Build.NotParsed" ∅ (w_NotParsed w))) as (H1 & _ & H3).
  - done.
  - intros key ds Hl. cbn in Hl. by rewrite lookup_empty in Hl.
  - done.
Qed.

Lemma covered_list_fps d : covers b groups d → cq_Fingerprint <$> covered_list d = order d.
Proof.
  intros [_ Hd Hf]. unfold covered_list. assert (Hall : ∀ fp, fp ∈ order d → is_Some (covered d !! fp)) by (intros fp; apply Hd).
  clear Hd. induction (order d) as [|fp o IH]; [done|]. cbn [omap list_omap]. destruct (Hall fp (list_elem_of_here _ _)) as [q Hq].
  rewrite Hq, fmap_cons.
  destruct (Hf fp q Hq) as (g & _ & Hfp & _ & ->). cbn [cq_of cq_Fingerprint]. rewrite Hfp. f_equal. apply IH.
  intros x Hx. apply Hall. by right.
Qed.

Lemma merged_sound kd cd : kd ∈ merged (add_all w c conf).1 → made b kd cd → justified w c conf cd.
Proof using Hroot Hnamed.
  destruct kd as [key d]. intros Hin Hmade. destruct (merged_good b groups _ key d (proj1 add_all_ok) Hin) as [Ht [Hok Hk Hcov Hsome]].
  destruct (made_fields b _ _ Hmade) as (Hkey & Hcols & Hpred & Hq & Hrows). cbn [fst snd] in *.
  destruct Hok as [(r & Hr & Hmin) Hne Hnd Hw Hi [Hps Hpi] Hnew]. rewrite Hk in *. change (cat b) with c in *.
  destruct (WithDefaults_bounds conf) as (_ & [Hpos Hceil] & _). split; rewrite ?Hkey, ?Hcols.
  - destruct Ht as (r' & Hr' & Hpart). rewrite Hr in Hr'. injection Hr' as <-. rewrite Hr in Hrows. by exists r.
  - split_and!; try done. change (cfg b) with (WithDefaults conf) in Hw. lia.
  - exists (predicate d). done.
  - pose proof (covered_list_fps d Hcov) as Hfps. split_and!.
    + intros Hnil. rewrite Hnil in Hq. apply Permutation_nil_l in Hq. rewrite <- Hq in Hfps. by destruct (order d).
    + rewrite Hq, Hfps. by destruct Hcov.
    + rewrite Hq. apply list.Forall_forall. intros q (fp & _ & Hl)%list_elem_of_omap. destruct Hcov as [_ _ Hf].
      destruct (Hf fp q Hl) as (g & Hg & _ & Hy & ->). by exists g.
Qed.

Lemma Build_candidates cd : cd ∈ Candidates (Build w c conf) → cd ∈ all_candidates b (newDDLScope c) (add_all w c conf).1.
Proof.
  unfold Build. destruct (add_all w c conf) as [drafts skipped]. cbn. intros Hin%elem_of_taken. by rewrite sort_stable_perm in Hin.
Qed.
End Build.

(** Every candidate is a btree index the database lacks, on a table worth it: an existing
    one of at least the minimal size and not a partition whose root is known; its key is
    made of at most [MaxIndexColumns] distinct columns of the catalog that btree can index;
    a partial one filters on other columns whose statistics say that NULLs are rare enough;
    no valid btree index over the same rows starts with its key; and it covers statements
    of the workload that such an index can serve, each once. *)
Theorem Build_sound `{MapRange} w c conf :
  rooted c → (∀ e, e ∈ collapse (Entries w) → Forall (λ r, r ≠ "") (Unsupported (Stmt e))) →
  Forall (justified w c conf) (Candidates (Build w c conf)).
Proof.
  intros Hroot Hnamed. apply list.Forall_forall. intros cd Hin%Build_candidates.
  destruct (list_elem_of_lookup_1 _ _ Hin) as [i Hi].
  destruct (Forall2_lookup_r _ _ _ _ _ (all_candidates_made _ _ _) Hi) as (kd & Hkd & Hmade).
  apply (merged_sound w c conf Hroot Hnamed kd); [by eapply list_elem_of_lookup_2|done].
Qed.

(** No two candidates of a report are one index too many: of two on the same rows of a
    table, neither key starts with the other; and there are at most [MaxCandidates]. *)
Theorem Build_not_redundant `{MapRange} w c conf :
  rooted c → (∀ e, e ∈ collapse (Entries w) → Forall (λ r, r ≠ "") (Unsupported (Stmt e))) →
  StronglySorted not_redundant (Candidates (Build w c conf)) ∧
  Z.of_nat (length (Candidates (Build w c conf))) ≤ MaxCandidates (WithDefaults conf).
Proof.
  intros Hroot Hnamed. destruct (add_all_ok w c conf Hroot Hnamed) as [Hds _].
  pose proof (merged_apart (new_builder w c conf) _ _ Hds) as Hap.
  pose proof (all_candidates_made (new_builder w c conf) (newDDLScope c) (add_all w c conf).1) as Hmade.
  assert (Hall : StronglySorted not_redundant (all_candidates (new_builder w c conf) (newDDLScope c) (add_all w c conf).1)).
  { revert Hap. induction Hmade as [|kd cd kds cds Hm Hms IH]; [constructor|]. intros [Hap Hkd]%StronglySorted_inv.
    constructor; [by apply IH|]. apply list.Forall_forall. intros cd' Hin. destruct (list_elem_of_lookup_1 _ _ Hin) as [i Hi].
    destruct (Forall2_lookup_r _ _ _ _ _ Hms Hi) as (kd' & Hkd' & Hm'). rewrite list.Forall_forall in Hkd.
    specialize (Hkd kd' (list_elem_of_lookup_2 _ _ _ Hkd')). destruct (made_fields _ _ _ Hm) as (K & C & P & _).
    destruct (made_fields _ _ _ Hm') as (K' & C' & P' & _). intros Hs Ht Hp. rewrite C, C'. apply Hkd.
    - rewrite <- K, <- K'. by rewrite Hs, Ht.
    - apply predicateSQL_inj. change (predicateSQL (predicate kd.2) = predicateSQL (predicate kd'.2)). by rewrite <- P, <- P'. }
  unfold Build. destruct (add_all w c conf) as [drafts skipped]. cbn [Candidates fst] in *. unfold candidates.
  destruct (WithDefaults_bounds conf) as (Hmax & _). split.
  - eapply (pairs_perm _ _ _ (symmetry (sort_stable_perm candidate_less _))) in Hall.
    rewrite <- (take_drop (Z.to_nat (MaxCandidates (cfg (new_builder w c conf))))) in Hall.
    by apply StronglySorted_app in Hall as (_ & ? & _).
  - rewrite length_take. change (cfg (new_builder w c conf)) with (WithDefaults conf). lia.
Qed.

(** ** Nothing goes uncounted *)

Section tally.
Context `{MapRange}.

Lemma sumCounts_total m : sumCounts m = wrap64 (tally_total m).
Proof.
  unfold sumCounts, tally_total.
  assert (Hg : ∀ l z, foldl (λ total (cn : string * Z), total ⊞ cn.2) z l = foldl add64 z l.*2).
  { induction l as [|x l IH]; intros z; [done|]. apply IH. }
  rewrite Hg, foldl_add64 by done. f_equal. rewrite Z.add_0_l. apply sumZ_perm, fmap_Permutation, NoDup_Permutation.
  - apply (NoDup_fmap_1 fst), map_range_nodup.
  - apply NoDup_map_to_list.
  - intros [k v]. by rewrite elem_of_map_range, elem_of_map_to_list.
Qed.

Lemma merge_tally_empty site m : map_Forall (λ _ n, int64 n) m → merge_tally site ∅ m = m.
Proof.
  intros Hm. apply map_eq. intros code. rewrite merge_tally_lookup, lookup_empty. destruct (m !! code) as [n|] eqn:Hn; [|done].
  cbn. f_equal. apply add64_0_l. by apply (Hm code n).
Qed.

Lemma statement_tally b l st : nonneg_counts st.2 → tally_total st.2 + Z.of_nat (length l) < 2 ^ 63 →
  let st' := foldl (statement_step b) st l in
  nonneg_counts st'.2 ∧ tally_total st'.2 = tally_total st.2 + Z.of_nat (length (filter (λ g, reason_of b g ≠ "") l)).
Proof.
  revert st. induction l as [|g l IH]; intros [drafts skipped] Hn Hb; cbn zeta; cbn [foldl]; [split; [done|cbn; lia]|].
  pose proof (addStatement_reason b drafts g) as Hr. cbn [statement_step]. destruct (addStatement b drafts g) as [reason drafts'].
  cbn [fst snd length] in *. rewrite filter_cons. case_decide as He.
  - destruct (IH (drafts', skipped) Hn) as [H1 H2]; [cbn; lia|]. split; [done|]. cbn zeta in H2. rewrite H2. cbn [snd].
    rewrite decide_False by (intros Hx; by apply Hx; rewrite <- Hr). done.
  - destruct (tally_add_nonneg skipped reason Hn ltac:(lia)) as [Hn' Ht].
    destruct (IH (drafts', tally_add skipped reason 1) Hn') as [H1 H2]; [cbn; lia|]. split; [done|]. cbn zeta in H2. rewrite H2. cbn [snd].
    rewrite decide_True by (by rewrite <- Hr). cbn [length]. lia.
Qed.
End tally.

(** Every statement of the workload is accounted for: one that could use an index is in a
    candidate, before the cap, or counted in the tally of what yielded nothing, together
    with what the collector could not parse. *)
Theorem Build_accounts `{MapRange} w c conf :
  rooted c → (∀ e, e ∈ collapse (Entries w) → Forall (λ r, r ≠ "") (Unsupported (Stmt e))) →
  nonneg_counts (w_NotParsed w) → tally_total (w_NotParsed w) + Z.of_nat (length (collapse (Entries w))) < 2 ^ 63 →
  let b := new_builder w c conf in
  let left_out := filter (λ g, reason_of b g ≠ "") (collapse (Entries w)) in
  let n := tally_total (w_NotParsed w) + Z.of_nat (length left_out) in
  NotParsedCount (r_Summary (Build w c conf)) = n ∧ sumZ (Count <$> r_NotParsed (Build w c conf)) = n ∧
  (∀ g, g ∈ collapse (Entries w) → g ∈ left_out ∨ yieldsCandidates (Kind (Stmt g)) = false ∨
    ∃ cd, cd ∈ all_candidates b (newDDLScope c) (add_all w c conf).1 ∧ e_Fingerprint g ∈ cq_Fingerprint <$> Covered cd).
Proof.
  intros Hroot Hnamed Hn Hb b left_out n. destruct (add_all_ok w c conf Hroot Hnamed) as [Hds Hdone].
  assert (Hi : map_Forall (λ _ n, int64 n) (w_NotParsed w)).
  { intros k v Hk. pose proof (tally_count_le _ k Hn) as Hc. rewrite Hk in Hc. cbn in Hc. unfold int64, min64, max64. lia. }
  destruct (statement_tally b (collapse (Entries w)) (∅, merge_tally "Build.NotParsed" ∅ (w_NotParsed w))) as [Htn Ht];
    [by rewrite merge_tally_empty|by rewrite merge_tally_empty|]. cbn zeta in Htn, Ht. rewrite merge_tally_empty in Htn, Ht by done.
  assert (Hall : tally_total (add_all w c conf).2 = n).
  { unfold add_all. rewrite merge_tally_empty by done. exact Ht. }
  pose proof (tally_count_le _ "" Hn) as H0.
  assert (Hle : (length left_out ≤ length (collapse (Entries w)))%nat) by apply length_filter. split_and!.
  - unfold Build. destruct (add_all w c conf) as [drafts skipped]. cbn in *. rewrite sumCounts_total, Hall. apply wrap64_id.
    unfold int64, min64, max64. lia.
  - unfold Build. destruct (add_all w c conf) as [drafts skipped]. cbn [r_NotParsed snd] in *. rewrite <- Hall.
    unfold tally_total. rewrite (notParsedList_perm skipped). by rewrite <- list_fmap_compose.
  - intros g Hg. destruct (decide (reason_of b g = "")) as [Hr|Hr]; [right|left; by apply list_elem_of_filter].
    destruct (yieldsCandidates (Kind (Stmt g))) eqn:Hy; [right|by left]. specialize (Hdone g Hg Hr Hy).
    destruct (merged_covers b _ _ _ Hds Hdone) as (key & d & Hin & Hfp). destruct (merged_good b _ _ key d Hds Hin) as [_ [_ _ Hcov _]].
    destruct (list_elem_of_lookup_1 _ _ Hin) as [i Hkd].
    destruct (Forall2_lookup_l _ _ _ _ _ (all_candidates_made b (newDDLScope c) _) Hkd) as (cd & Hcd & Hmade).
    exists cd. split; [by eapply list_elem_of_lookup_2|]. destruct (made_fields b _ _ Hmade) as (_ & _ & _ & Hq & _).
    rewrite Hq. cbn [snd]. by rewrite (covered_list_fps w c conf d Hcov).
Qed.

(** ** Examples *)

#[local] Existing Instance canonical_range.

Definition t_key : RelKey := mkKey "s" "t".
Definition column (name : string) (nd : float) : Column := mkColumn name "int" true true nd 0.

Definition small_catalog : Catalog :=
  AddIndex (foldl (λ c nd, AddColumn c t_key (column nd.1 nd.2))
    (AddRelation NewCatalog (mkRelation t_key "r" 1000000 10000 no_key no_key))
    [("a", 10%float); ("b", 500%float); ("c", 40%float); ("d", 3%float)])
  t_key (mkIndex "t_d" "btree" false false true false false [] ["d"]).

Definition usage (col : string) (role : string) : Usage := mkUsage (mkRef "s" "t" "") col role false 0.

Definition select (fp : string) (cols : list string) (ms : float) : WorkloadEntry :=
  mkWEntry [7] {[ "h" := 7 ]} fp "select" 10 ms 1
    (mkStatement "select" fp [mkRef "s" "t" ""] ((λ c, usage c "equality") <$> cols) [] []) ["h"].

Definition workload (es : list WorkloadEntry) : Workload :=
  mkWorkload es ∅ (Z.of_nat (length es)) true ["h"] [] [].

Definition conf0 : AdvisorConfig := mkAdvisorConfig None 0 0 0 0 0 0 0 0.

(** The narrow statement is served by the wide one's index, and one on [d] by the existing one. *)
Definition three_statements : Workload :=
  workload [select "f1" ["b"] 30; select "f2" ["a"; "b"] 60; select "f3" ["d"] 10].

Example one_candidate :
  (λ cd, (cd_Columns cd, WeightPct cd, cq_Fingerprint <$> Covered cd, DDL cd)) <$> Candidates (Build three_statements small_catalog conf0)
  = [(["b"; "a"], 90%float, ["f2"; "f1"],
      "CREATE INDEX CONCURRENTLY ON " +:+ quoted t_key +:+ " (" +:+ quoteIdent "b" +:+ ", " +:+ quoteIdent "a" +:+ ");")] ∧
  r_NotParsed (Build three_statements small_catalog conf0) = [mkNotParsed "already_indexed" 1].
Proof. by vm_compute. Qed.

(** The warning that the key was cut quotes the columns requested by the first statement of
    the draft, which may be no more than the key has. *)
Example wide_index_requests_no_more :
  let w := workload [select "f1" ["a"; "b"; "c"] 50; select "f2" ["a"; "b"; "c"; "d"] 50] in
  let warnings := mjoin (Warnings <$> Candidates (Build w small_catalog conf0)) in
  (λ x, (w_Params x !! "columns", w_Params x !! "requested")) <$> filter (λ x, w_Code x = "wide_index") warnings
  = [(Some 3%float, Some 3%float)].
Proof. by vm_compute. Qed.

Lemma no_partitions_rooted c : map_Forall (λ _ r, IsPartition r = false) (Relations c) → rooted c.
Proof. intros Hall k r Hk Hp. by rewrite (Hall k r Hk) in Hp. Qed.

Lemma small_rooted : rooted small_catalog.
Proof. apply no_partitions_rooted. apply (bool_decide_unpack _). by vm_compute. Qed.

Lemma three_named e : e ∈ collapse (Entries three_statements) → Forall (λ r, r ≠ "") (Unsupported (Stmt e)).
Proof.
  assert (Hall : Forall (λ e, Forall (λ r, r ≠ "") (Unsupported (Stmt e))) (collapse (Entries three_statements))).
  { apply (bool_decide_unpack _). by vm_compute. }
  rewrite list.Forall_forall in Hall. apply Hall.
Qed.

Lemma Build_sound_witness :
  length (Candidates (Build three_statements small_catalog conf0)) = 1%nat ∧
  Forall (justified three_statements small_catalog conf0) (Candidates (Build three_statements small_catalog conf0)).
Proof. split; [by vm_compute|]. exact (Build_sound three_statements small_catalog conf0 small_rooted three_named). Defined.

Lemma Build_not_redundant_witness :
  Z.of_nat (length (Candidates (Build three_statements small_catalog conf0))) ≤ MaxCandidates (WithDefaults conf0).
Proof. exact (proj2 (Build_not_redundant three_statements small_catalog conf0 small_rooted three_named)). Defined.

Lemma Build_accounts_witness :
  sumZ (Count <$> r_NotParsed (Build three_statements small_catalog conf0)) = 1.
Proof.
  assert (Hn : nonneg_counts (w_NotParsed three_statements)) by apply map_Forall_empty.
  assert (Hb : tally_total (w_NotParsed three_statements) + Z.of_nat (length (collapse (Entries three_statements))) < 2 ^ 63) by by vm_compute.
  rewrite (proj1 (proj2 (Build_accounts three_statements small_catalog conf0 small_rooted three_named Hn Hb))). by vm_compute.
Defined.
