(* ===== verification/GoNumber.v ===== *)
(** * [strconv.ParseFloat]

    The syntax Go reads, and the value it gives: the nearest binary64, ties to even, of the
    exact number that is written. A syntax error and a value out of range are one [None]:
    the callers only ask whether there is an error. *)

From Stdlib Require Import Ascii.
From S2P Require Import Prelude GoFloat PatroniLayout GoStrings.
From stdpp Require Import options.

#[local] Open Scope string_scope.
#[local] Open Scope Z_scope.
#[local] Open Scope list_scope.

(** ** Rounding *)

(** [m * 10^e] or [m * 2^e], for a positive [m]. *)
Definition round_integer (neg : bool) (m e : Z) : spec_float := binary_round_aux 53 1024 neg m e loc_Exact.

(** [m / d]: a quotient of 60 bits or more, and where the rest of the division lies. *)
Definition round_quotient (neg : bool) (m d : Z) : spec_float :=
  let shift := Z.max 0 (Z.log2 d - Z.log2 m + 60) in
  let q := m * 2 ^ shift / d in
  let r := m * 2 ^ shift mod d in
  binary_round_aux 53 1024 neg q (- shift) (if r =? 0 then loc_Exact else loc_Inexact (2 * r ?= d)).

Definition decimal_value (neg : bool) (m e : Z) : spec_float :=
  if m =? 0 then S754_zero neg
  else if 0 <=? e then round_integer neg (m * 10 ^ e) 0
  else round_quotient neg m (10 ^ (- e)).

Definition hex_value (neg : bool) (m e : Z) : spec_float := if m =? 0 then S754_zero neg else round_integer neg m e.

Definition in_float (f : spec_float) : option float :=
  match f with S754_infinity _ => None | _ => Some (SF2Prim f) end.

(** ** Syntax *)

Definition digit_of (base : Z) (c : ascii) : option Z :=
  let b := byte_of c in
  if in_range 48 57 c then Some (b - 48)
  else if base =? 16 then
    if in_range 97 102 c then Some (b - 87) else if in_range 65 70 c then Some (b - 55) else None
  else None.

Definition underscore : ascii := char 95.
Definition dot : ascii := char 46.
Definition is_lower (letter c : ascii) : bool := bool_decide (c = letter) || (byte_of c + 32 =? byte_of letter).

(** The digits of the mantissa: its value, how many of them stand after the point, and
    whether there is one at all. *)
Record mantissa := mkMantissa { m_value : Z; m_scale : Z; saw_dot : bool; saw_digits : bool }.

Fixpoint read_mantissa (base : Z) (m : mantissa) (s : list ascii) : mantissa * list ascii :=
  match s with
  | [] => (m, [])
  | c :: s' =>
      if decide (c = underscore) then read_mantissa base m s'
      else if decide (c = dot) then
        if saw_dot m then (m, s) else read_mantissa base (mkMantissa (m_value m) (m_scale m) true (saw_digits m)) s'
      else
        match digit_of base c with
        | Some d =>
            read_mantissa base
              (mkMantissa (m_value m * base + d) (if saw_dot m then m_scale m + 1 else m_scale m) (saw_dot m) true) s'
        | None => (m, s)
        end
  end.

(** The digits of the exponent, which stops growing at 10000. *)
Fixpoint read_exponent (e : Z) (s : list ascii) : Z * list ascii :=
  match s with
  | [] => (e, [])
  | c :: s' =>
      if decide (c = underscore) then read_exponent e s'
      else
        match digit_of 10 c with
        | Some d => read_exponent (if e <? 10000 then e * 10 + d else e) s'
        | None => (e, s)
        end
  end.

(** A sign: whether it is minus, and the rest. *)
Definition read_sign (s : list ascii) : bool * list ascii :=
  match s with
  | c :: s' => if decide (c = char 45) then (true, s') else if decide (c = char 43) then (false, s') else (false, s)
  | [] => (false, [])
  end.

(** The exponent after the mantissa; a hexadecimal number must have one. *)
Definition read_exp_part (base : Z) (s : list ascii) : option (Z * list ascii) :=
  let letter := if base =? 16 then char 112 else char 101 in
  match s with
  | c :: s' =>
      if is_lower letter c then
        let '(neg, s') := read_sign s' in
        match s' with
        | c' :: _ =>
            if in_range 48 57 c' then let '(e, rest) := read_exponent 0 s' in Some (if neg then - e else e, rest) else None
        | [] => None
        end
      else if base =? 16 then None
      else Some (0, s)
  | [] => if base =? 16 then None else Some (0, [])
  end.

(** [underscoreOK], over the text after the sign: an underscore stands after a digit, or the
    prefix [0x], and before a digit. [saw] is the class of the character before. *)
Inductive seen := SeenNone | SeenDigit | SeenUnderscore | SeenOther.

Fixpoint underscores_ok (hex : bool) (saw : seen) (s : list ascii) : bool :=
  match s with
  | [] => match saw with SeenUnderscore => false | _ => true end
  | c :: s' =>
      match digit_of (if hex then 16 else 10) c with
      | Some _ => underscores_ok hex SeenDigit s'
      | None =>
          if decide (c = underscore) then
            match saw with SeenDigit => underscores_ok hex SeenUnderscore s' | _ => false end
          else match saw with SeenUnderscore => false | _ => underscores_ok hex SeenOther s' end
      end
  end.

(** The prefix [0x], when something follows it. *)
Definition hex_prefix (s : list ascii) : option (list ascii) :=
  match s with
  | z :: x :: s' => if bool_decide (z = char 48) && is_lower (char 120) x && bool_decide (s' ≠ []) then Some s' else None
  | _ => None
  end.

Definition parse_number (neg : bool) (s : list ascii) : option float :=
  let '(base, digits) := match hex_prefix s with Some s' => (16, s') | None => (10, s) end in
  let '(m, rest) := read_mantissa base (mkMantissa 0 0 false false) digits in
  if negb (saw_digits m) then None
  else
    '(e, rest) ← read_exp_part base rest;
    if bool_decide (rest ≠ []) then None
    else if negb (underscores_ok (base =? 16) (if base =? 16 then SeenDigit else SeenNone) digits) then None
    else if base =? 16 then in_float (hex_value neg (m_value m) (e - 4 * m_scale m))
    else in_float (decimal_value neg (m_value m) (e - m_scale m)).

(** Infinities and NaN, in any case. *)
Definition fold_case (s : list ascii) : string :=
  String.string_of_list_ascii ((λ c, if in_range 65 90 c then char (byte_of c + 32) else c) <$> s).

Definition ParseFloat (s : string) : option float :=
  let l := String.list_ascii_of_string s in
  let '(neg, s) := read_sign l in
  let word := fold_case s in
  if decide (word = "inf" ∨ word = "infinity") then Some (if neg then neg_infinity else infinity)
  else if decide (fold_case l = "nan") then Some nan
  else parse_number neg s.

Example ParseFloat_values :
  ParseFloat <$> ["0.1"; "12"; "1e3"; "-2.5e-3"; "1."; ".5"; "0x1p-2"; "1_000.5"; "+Inf"; "179769313486231570000e288"; "4.9e-324"]
  = Some <$> [0.1; 12; 1000; -0.0025; 1; 0.5; 0.25; 1000.5; infinity; 179769313486231570000e288; 4.9e-324]%float.
Proof. by vm_compute. Qed.

Example ParseFloat_errors :
  ParseFloat <$> [""; "."; "e3"; "1e"; "1e+"; "1.2.3"; "abc"; "1 "; "0x1"; "_1"; "1__0"; "1e400"; "infin"; "12kB"]
  = replicate 14 None.
Proof. by vm_compute. Qed.
