(* ===== verification/GoRegexp.v ===== *)
(** * Package [regexp]

    Patterns as a syntax tree and their search: leftmost, and at one place the match a
    backtracking search finds first. Repetition is over one class of characters, which is
    all the patterns of the modelled code need. A class looks at a byte: the characters
    they tell apart are ASCII, and the bytes of the others fall into the same classes as
    the characters they encode. *)

From Stdlib Require Import Ascii.
From S2P Require Import Prelude PatroniLayout GoStrings.
From stdpp Require Import options.

#[local] Open Scope string_scope.
#[local] Open Scope Z_scope.
#[local] Open Scope list_scope.

(** ** Patterns *)

Inductive regexp :=
  | Eps
  | Bol                                           (* ^ *)
  | Boundary                                      (* \b *)
  | Lit (s : string)
  | Cls (p : ascii → bool)
  | Many (p : ascii → bool)                       (* p* *)
  | Lazy (p : ascii → bool)                       (* p*? *)
  | Opt (r : regexp)                              (* r? *)
  | Seq (a b : regexp)
  | Alt (a b : regexp)
  | Group (i : nat) (r : regexp).

Declare Scope regexp_scope.
Delimit Scope regexp_scope with re.
Bind Scope regexp_scope with regexp.
Infix "⋅" := Seq (at level 56, right associativity) : regexp_scope.
Infix "∥" := Alt (at level 57, right associativity) : regexp_scope.

(** [p+] and [p+?]. *)
Definition Plus (p : ascii → bool) : regexp := Seq (Cls p) (Many p).
Definition PlusLazy (p : ascii → bool) : regexp := Seq (Cls p) (Lazy p).

Definition space_char (c : ascii) : bool := bool_decide (byte_of c ∈ [9; 10; 12; 13; 32]).
Definition not_space (c : ascii) : bool := negb (space_char c).
Definition digit_char : ascii → bool := in_range 48 57.
Definition any_char (c : ascii) : bool := negb (byte_of c =? 10).
Definition word_char (c : ascii) : bool := in_range 48 57 c || in_range 65 90 c || in_range 97 122 c || (byte_of c =? 95).

(** ** Matching at one place *)

(** The character before, and the text from here on. *)
Record place := mkPlace { before : option ascii; ahead : list ascii }.

(** The text of the groups. *)
Abbreviation groups := (gmap nat (list ascii)).

Fixpoint literal (l : list ascii) (p : place) : option place :=
  match l with
  | [] => Some p
  | c :: l =>
      match ahead p with
      | c' :: s => if decide (c' = c) then literal l (mkPlace (Some c) s) else None
      | [] => None
      end
  end.

Definition at_boundary (p : place) : bool :=
  negb (Bool.eqb (from_option word_char false (before p)) (from_option word_char false (head (ahead p)))).

Section exec.
Context {R : Type}.

(** What is to be matched next. *)
Definition cont : Type := place → groups → option R.

Definition or_else (a : option R) (b : unit → option R) : option R := match a with Some r => Some r | None => b tt end.

(** As many characters of a class as possible, or as few. *)
Fixpoint greedy (p : ascii → bool) (k : cont) (prev : option ascii) (s : list ascii) (g : groups) : option R :=
  match s with
  | c :: s' => if p c then or_else (greedy p k (Some c) s' g) (λ _, k (mkPlace prev s) g) else k (mkPlace prev s) g
  | [] => k (mkPlace prev s) g
  end.

Fixpoint reluctant (p : ascii → bool) (k : cont) (prev : option ascii) (s : list ascii) (g : groups) : option R :=
  or_else (k (mkPlace prev s) g)
    (λ _, match s with c :: s' => if p c then reluctant p k (Some c) s' g else None | [] => None end).

Fixpoint exec (r : regexp) (k : cont) (p : place) (g : groups) {struct r} : option R :=
  match r with
  | Eps => k p g
  | Bol => match before p with None => k p g | Some _ => None end
  | Boundary => if at_boundary p then k p g else None
  | Lit s => match literal (String.list_ascii_of_string s) p with Some p' => k p' g | None => None end
  | Cls q => match ahead p with c :: s => if q c then k (mkPlace (Some c) s) g else None | [] => None end
  | Many q => greedy q k (before p) (ahead p) g
  | Lazy q => reluctant q k (before p) (ahead p) g
  | Opt a => or_else (exec a k p g) (λ _, k p g)
  | Seq a b => exec a (exec b k) p g
  | Alt a b => or_else (exec a k p g) (λ _, exec b k p g)
  | Group i a => exec a (λ p' g', k p' (<[i := take (length (ahead p) - length (ahead p')) (ahead p)]> g')) p g
  end.
End exec.
Arguments cont : clear implicits.

(** ** Searching *)

(** A match: the text before it, its own, the place behind it, and the groups. *)
Record found := mkFound { f_before : list ascii; f_text : list ascii; f_end : place; f_groups : groups }.

Fixpoint search (r : regexp) (skipped : list ascii) (prev : option ascii) (s : list ascii) : option found :=
  match exec r (λ p g, Some (p, g)) (mkPlace prev s) ∅ with
  | Some (p, g) => Some (mkFound (reverse skipped) (take (length s - length (ahead p)) s) p g)
  | None => match s with c :: s' => search r (c :: skipped) (Some c) s' | [] => None end
  end.

Definition find (r : regexp) (s : string) : option found := search r [] None (String.list_ascii_of_string s).

Definition MatchString (r : regexp) (s : string) : bool := match find r s with Some _ => true | None => false end.

(** The text of a group; a group that took no part is empty. *)
Definition sub (f : found) (i : nat) : string := String.string_of_list_ascii (default [] (f_groups f !! i)).
Definition whole (f : found) : string := String.string_of_list_ascii (f_text f).

(** [FindAllStringSubmatch(s, -1)] for a pattern that does not match the empty text. Every
    round moves on, so the length is enough fuel. *)
Fixpoint find_all (fuel : nat) (r : regexp) (prev : option ascii) (s : list ascii) : list found :=
  match fuel with
  | O => []
  | S fuel =>
      match search r [] prev s with
      | None => []
      | Some f => if decide (f_text f = []) then [] else f :: find_all fuel r (before (f_end f)) (ahead (f_end f))
      end
  end.

Definition FindAll (r : regexp) (s : string) : list found :=
  let l := String.list_ascii_of_string s in find_all (S (length l)) r None l.

(** ** Examples *)

Local Open Scope regexp_scope.

Definition example_re : regexp := Bol ⋅ Lit "Trigger " ⋅ Group 1 (PlusLazy any_char) ⋅ Opt (Lit " on " ⋅ Group 2 (Plus not_space)) ⋅ Lit ": ".

Example submatches :
  (λ s, (λ f, (sub f 1, sub f 2)) <$> find example_re s) <$>
    ["Trigger t on orders: x"; "Trigger t a: x on b: y"; "a Trigger t: "; "Trigger on : : "]
  = [Some ("t", "orders"); Some ("t a", ""); None; Some ("on ", "")].
Proof. by vm_compute. Qed.

Example all_matches :
  (λ f, (sub f 1, sub f 2)) <$>
    FindAll (Group 1 (Lit "a" ∥ Lit "ab") ⋅ Lit " " ⋅ Group 2 (Many digit_char)) "a 1, ab 2, a a 34 a "
  = [("a", "1"); ("ab", "2"); ("a", ""); ("a", "34"); ("a", "")].
Proof. by vm_compute. Qed.

(** ** Replacing *)

(** [ReplaceAllString], for a pattern that does not match the empty text and a replacement
    without a dollar. *)
Fixpoint replace_found (fuel : nat) (r : regexp) (repl : list ascii) (prev : option ascii) (s : list ascii) : list ascii :=
  match fuel with
  | O => s
  | S fuel =>
      match search r [] prev s with
      | None => s
      | Some f =>
          if decide (f_text f = []) then s
          else f_before f ++ repl ++ replace_found fuel r repl (before (f_end f)) (ahead (f_end f))
      end
  end.

Definition ReplaceAllString (r : regexp) (s repl : string) : string :=
  let l := String.list_ascii_of_string s in
  String.string_of_list_ascii (replace_found (S (length l)) r (String.list_ascii_of_string repl) None l).
