(* ===== verification/ExplainText.v ===== *)
(** * [internal/explain/parse_text.go]: plans in the text format

    A line is a node, the header of a sub-plan, an attribute of a node, the wrapped rest of
    one, or part of what follows the tree; which node a line belongs to is said by its
    indentation alone. The source keeps a stack of pointers into the tree. A frame is
    always the last child of the one below it, so here the open node is in the frame and
    joins the children of the frame below when it is popped. *)

From Stdlib Require Import Ascii.
From S2P Require Import Prelude GoSlices GoFloat PatroniLayout Sqlparse GoStrings GoNumber GoRegexp ExplainPlan.
From stdpp Require Import options.

#[local] Set Warnings "-register-all".
#[local] Open Scope string_scope.
#[local] Open Scope Z_scope.
#[local] Open Scope list_scope.

(** ** Patterns *)

Definition decimal : regexp := (Plus digit_char ⋅ Opt (Lit ".") ⋅ Many digit_char)%re.
Definition number_chars (c : ascii) : bool := digit_char c || bool_decide (c = dot).

Definition nodeLineRe : regexp :=
  (Bol ⋅ Group 1 (Many space_char) ⋅ Opt (Group 2 (Lit "->" ⋅ Plus space_char)) ⋅ Group 3 (Cls not_space ⋅ Lazy any_char) ⋅
   Cls space_char ⋅ Cls space_char ⋅ Lit "(" ⋅ Group 4 (Lit "cost=" ∥ Lit "actual " ∥ Lit "never executed"))%re.
Definition costRe : regexp :=
  (Lit "(cost=" ⋅ Group 1 decimal ⋅ Lit ".." ⋅ Group 2 decimal ⋅ Lit " rows=" ⋅ Group 3 decimal ⋅ Lit " width=" ⋅
   Group 4 (Plus digit_char) ⋅ Lit ")")%re.
Definition actualRe : regexp :=
  (Lit "(actual " ⋅ Opt (Lit "time=" ⋅ Group 1 decimal ⋅ Lit ".." ⋅ Group 2 decimal ⋅ Lit " ") ⋅ Lit "rows=" ⋅
   Group 3 decimal ⋅ Lit " loops=" ⋅ Group 4 decimal ⋅ Lit ")")%re.
Definition triggerRe : regexp :=
  (Bol ⋅ Lit "Trigger " ⋅ Group 1 (PlusLazy any_char) ⋅ Opt (Lit " on " ⋅ Group 2 (Plus not_space)) ⋅ Lit ": time=" ⋅
   Group 3 (Plus number_chars) ⋅ Lit " calls=" ⋅ Group 4 (Plus number_chars))%re.
Definition jitTimeRe : regexp :=
  (Group 1 (Lit "Generation" ∥ Lit "Inlining" ∥ Lit "Optimization" ∥ Lit "Emission" ∥ Lit "Total") ⋅ Lit " " ⋅
   Group 2 (Plus number_chars) ⋅ Lit " ms")%re.
Definition sortSpaceRe : regexp :=
  (Cls space_char ⋅ Cls space_char ⋅ Group 1 (Lit "Memory" ∥ Lit "Disk") ⋅ Lit ": " ⋅ Group 2 (Plus digit_char) ⋅ Lit "kB")%re.
Definition subplanRe : regexp := (Bol ⋅ Group 1 (Lit "InitPlan" ∥ Lit "SubPlan" ∥ Lit "CTE") ⋅ Boundary)%re.

Definition parseFloat (s : string) : float := default 0%float (ParseFloat s).

(** ** Setting one field of a node or a plan *)

(** The record [full] with the field [field] replaced by [v]. *)
Ltac replace_field full field v :=
  let f := eval pattern field in full in
  match f with ?g _ => let r := eval cbv beta in (g v) in exact r end.

Ltac set_data proj v d :=
  replace_field constr:(mkData (Type_ d) (Relation d) (n_Schema d) (Alias d) (IndexName d) (ParentRel d) (SubplanName d)
    (Parallel d) (PartialMode d) (Strategy d) (JoinType d) (ScanDirection d) (Operation d) (StartupCost d) (TotalCost d)
    (PlanRows d) (PlanWidth d) (n_Actual d) (n_Filter d) (IndexCond d) (RecheckCond d) (HashCond d) (MergeCond d)
    (JoinFilter d) (SortKey d) (RowsRemovedByFilter d) (RowsRemovedByJoinFilter d) (HeapFetches d) (SortMethod d)
    (SortSpaceKB d) (SortSpaceType d) (WorkersPlanned d) (WorkersLaunched d) (HeapBlocksExact d) (HeapBlocksLossy d)
    (n_Buffers d)) (proj d) v.

Definition set_Type v d : node_data := ltac:(set_data Type_ v d).
Definition set_Relation v d : node_data := ltac:(set_data Relation v d).
Definition set_Schema v d : node_data := ltac:(set_data n_Schema v d).
Definition set_Alias v d : node_data := ltac:(set_data Alias v d).
Definition set_IndexName v d : node_data := ltac:(set_data IndexName v d).
Definition set_ParentRel v d : node_data := ltac:(set_data ParentRel v d).
Definition set_SubplanName v d : node_data := ltac:(set_data SubplanName v d).
Definition set_Parallel v d : node_data := ltac:(set_data Parallel v d).
Definition set_PartialMode v d : node_data := ltac:(set_data PartialMode v d).
Definition set_Strategy v d : node_data := ltac:(set_data Strategy v d).
Definition set_JoinType v d : node_data := ltac:(set_data JoinType v d).
Definition set_ScanDirection v d : node_data := ltac:(set_data ScanDirection v d).
Definition set_Operation v d : node_data := ltac:(set_data Operation v d).
Definition set_StartupCost v d : node_data := ltac:(set_data StartupCost v d).
Definition set_TotalCost v d : node_data := ltac:(set_data TotalCost v d).
Definition set_PlanRows v d : node_data := ltac:(set_data PlanRows v d).
Definition set_PlanWidth v d : node_data := ltac:(set_data PlanWidth v d).
Definition set_Actual v d : node_data := ltac:(set_data n_Actual v d).
Definition set_Filter v d : node_data := ltac:(set_data n_Filter v d).
Definition set_IndexCond v d : node_data := ltac:(set_data IndexCond v d).
Definition set_RecheckCond v d : node_data := ltac:(set_data RecheckCond v d).
Definition set_HashCond v d : node_data := ltac:(set_data HashCond v d).
Definition set_MergeCond v d : node_data := ltac:(set_data MergeCond v d).
Definition set_JoinFilter v d : node_data := ltac:(set_data JoinFilter v d).
Definition set_SortKey v d : node_data := ltac:(set_data SortKey v d).
Definition set_RowsRemovedByFilter v d : node_data := ltac:(set_data RowsRemovedByFilter v d).
Definition set_RowsRemovedByJoinFilter v d : node_data := ltac:(set_data RowsRemovedByJoinFilter v d).
Definition set_HeapFetches v d : node_data := ltac:(set_data HeapFetches v d).
Definition set_SortMethod v d : node_data := ltac:(set_data SortMethod v d).
Definition set_SortSpaceKB v d : node_data := ltac:(set_data SortSpaceKB v d).
Definition set_SortSpaceType v d : node_data := ltac:(set_data SortSpaceType v d).
Definition set_WorkersPlanned v d : node_data := ltac:(set_data WorkersPlanned v d).
Definition set_WorkersLaunched v d : node_data := ltac:(set_data WorkersLaunched v d).
Definition set_HeapBlocksExact v d : node_data := ltac:(set_data HeapBlocksExact v d).
Definition set_HeapBlocksLossy v d : node_data := ltac:(set_data HeapBlocksLossy v d).
Definition set_Buffers v d : node_data := ltac:(set_data n_Buffers v d).

Ltac set_plan proj v p :=
  replace_field constr:(mkPlan (p_Source p) (p_Format p) (Generic p) (QueryText p) (QueryParams p) (p_QueryID p) (HasQueryID p)
    (Duration p) (PlanningTime p) (ExecutionTime p) (Root p) (Triggers p) (p_JIT p) (Settings p) (Caps p)) (proj p) v.

Definition set_QueryParams v p : Plan := ltac:(set_plan QueryParams v p).
Definition set_QueryText v p : Plan := ltac:(set_plan QueryText v p).
Definition set_QueryID v p : Plan := ltac:(set_plan p_QueryID v p).
Definition set_HasQueryID v p : Plan := ltac:(set_plan HasQueryID v p).
Definition set_PlanningTime v p : Plan := ltac:(set_plan PlanningTime v p).
Definition set_ExecutionTime v p : Plan := ltac:(set_plan ExecutionTime v p).
Definition set_Root v p : Plan := ltac:(set_plan Root v p).
Definition set_Triggers v p : Plan := ltac:(set_plan Triggers v p).
Definition set_JIT v p : Plan := ltac:(set_plan p_JIT v p).
Definition set_Settings v p : Plan := ltac:(set_plan Settings v p).
Definition set_Caps v p : Plan := ltac:(set_plan Caps v p).

Definition zero_data : node_data :=
  mkData "" "" "" "" "" "" "" false "" "" "" "" "" 0 0 0 0 None "" "" "" "" "" "" [] None None None "" None "" None None None None
    None.

(** ** Lines *)

Definition tab : ascii := char 9.
Definition blank : ascii := char 32.
Definition return_ : ascii := char 13.

Definition splitLines (body : string) : list string :=
  Split newline (TrimRight (ReplaceAll body (String return_ (String newline "")) (String newline "")) [newline]).

Fixpoint nodeIndent (line : string) : Z :=
  match line with
  | EmptyString => 0
  | String c line => if decide (c = blank) then 1 + nodeIndent line else if decide (c = tab) then 8 + nodeIndent line else 0
  end.

(** ** The label of a node *)

Definition unquoteIdent (s : string) : string :=
  if (2 <=? Z.of_nat (String.length s)) && HasPrefix s dq && HasSuffix s dq then
    ReplaceAll (String.substring 1 (String.length s - 2) s) (dq +:+ dq) dq
  else s.

(** [token] is what has been read of an identifier. *)
Fixpoint split_idents (quoted : bool) (token s : string) : list string :=
  match s with
  | EmptyString => if decide (token = "") then [] else [token]
  | String c s' =>
      let more := token +:+ String c "" in
      if decide (c = quote) then split_idents (negb quoted) more s'
      else if bool_decide (c = blank) && negb quoted then
        (if decide (token = "") then [] else [token]) ++ split_idents quoted "" s'
      else split_idents quoted more s'
  end.

Definition splitIdents (s : string) : list string := split_idents false "" s.

(** The dot outside quotes: the text before it and behind it. *)
Fixpoint qualified_dot (quoted : bool) (name : string) : option (string * string) :=
  match name with
  | EmptyString => None
  | String c name' =>
      if bool_decide (c = dot) && negb quoted then Some ("", name')
      else (λ '(a, b), (String c a, b)) <$> qualified_dot (if decide (c = quote) then negb quoted else quoted) name'
  end.

Definition splitQualified (name : string) : string * string :=
  match qualified_dot false name with
  | Some (schema, rel) => (unquoteIdent schema, unquoteIdent rel)
  | None => ("", unquoteIdent name)
  end.

Definition parseOnClause (s : string) (n : node_data) : node_data :=
  match splitIdents s with
  | [] => n
  | name :: rest =>
      let '(schema, rel) := splitQualified name in
      let n := set_Relation rel (set_Schema schema n) in
      match rest with
      | [] => n
      | a :: _ => let alias := unquoteIdent a in if decide (alias ≠ Relation n) then set_Alias alias n else n
      end
  end.

Definition joinTypes : list string := ["Left"; "Right Semi"; "Right Anti"; "Right"; "Full"; "Semi"; "Anti"].
Definition setOpCommands : list string := ["Intersect All"; "Intersect"; "Except All"; "Except"].

(** The first of [words] that ends [s] after a blank, with the text before it. *)
Definition cut_word (s : string) (words : list string) : option (string * string) :=
  head (omap (λ w, (λ rest, (rest, w)) <$> CutSuffix s (" " +:+ w)) words).

Definition trimSetOpCommand (label : string) : string :=
  if negb (HasPrefix label "SetOp") && negb (HasPrefix label "HashSetOp") then label
  else match cut_word label setOpCommands with Some (rest, _) => rest | None => label end.

Definition joinTypeName (hd : string) : string :=
  if decide (hd = "Nested Loop") then "Nested Loop"
  else if decide (hd = "Merge") then "Merge Join"
  else if decide (hd = "Hash") then "Hash Join"
  else hd +:+ " Join".

Definition normalizeType (label : string) (n : node_data) : node_data :=
  if decide (label = "HashAggregate") then set_Strategy "Hashed" (set_Type "Aggregate" n)
  else if decide (label = "GroupAggregate") then set_Strategy "Sorted" (set_Type "Aggregate" n)
  else if decide (label = "MixedAggregate") then set_Strategy "Mixed" (set_Type "Aggregate" n)
  else if decide (label = "Aggregate") then set_Strategy "Plain" (set_Type "Aggregate" n)
  else if decide (label = "HashSetOp") then set_Strategy "Hashed" (set_Type "SetOp" n)
  else if decide (label = "SetOp") then set_Strategy "Sorted" (set_Type "SetOp" n)
  else if decide (label ∈ ["Insert"; "Update"; "Delete"; "Merge"]) then set_Operation label (set_Type "ModifyTable" n)
  else if decide (label = "Foreign Scan") then set_Operation "Select" (set_Type "Foreign Scan" n)
  else if decide (label ∈ ["Foreign Insert"; "Foreign Update"; "Foreign Delete"]) then
    set_Operation (TrimPrefix label "Foreign ") (set_Type "Foreign Scan" n)
  else
    match CutSuffix label " Join" with
    | Some base =>
        match cut_word base joinTypes with
        | Some (hd, jt) => set_Type (joinTypeName hd) (set_JoinType jt n)
        | None => set_Type (joinTypeName base) (set_JoinType "Inner" n)
        end
    | None =>
        if decide (label = "Nested Loop") then set_JoinType "Inner" (set_Type "Nested Loop" n) else set_Type label n
    end.

Definition aliasOnlyTypes : list string := ["Subquery Scan"; "Values Scan"].

(** The prefixes of a label, in the order they are looked for. *)
Definition cut_modifiers (label : string) (n : node_data) : string * node_data :=
  let '(label, n) := match CutPrefix label "Parallel " with Some rest => (rest, set_Parallel true n) | None => (label, n) end in
  let label := TrimPrefix label "Async " in
  match CutPrefix label "Partial " with
  | Some rest => (rest, set_PartialMode "Partial" n)
  | None =>
      match CutPrefix label "Finalize " with
      | Some rest => (rest, set_PartialMode "Finalize" n)
      | None => (label, n)
      end
  end.

(** What the type says about the other fields. *)
Definition settle_names (n : node_data) : node_data :=
  let n :=
    if decide (Type_ n ∈ aliasOnlyTypes ∧ Relation n ≠ "") then set_Relation "" (set_Alias (Relation n) n) else n in
  let n :=
    if decide (Type_ n = "Bitmap Index Scan" ∧ IndexName n = "") then set_Relation "" (set_IndexName (Relation n) n) else n in
  if decide (Type_ n ∈ ["Index Scan"; "Index Only Scan"] ∧ ScanDirection n = "") then set_ScanDirection "Forward" n else n.

Definition parseLabel (label : string) (n : node_data) : node_data :=
  let '(label, n) := cut_modifiers (TrimSpace label) n in
  let '(label, n) := match Cut label " on " with Some (hd, tl) => (hd, parseOnClause tl n) | None => (label, n) end in
  let '(label, n) :=
    match Cut label " using " with Some (hd, tl) => (hd, set_IndexName (unquoteIdent tl) n) | None => (label, n) end in
  let '(label, n) :=
    match CutSuffix label " Backward" with Some rest => (rest, set_ScanDirection "Backward" n) | None => (label, n) end in
  settle_names (normalizeType (trimSetOpCommand label) n).

(** ** A node line *)

Definition line_costs (line : string) (n : node_data) : node_data :=
  match find costRe line with
  | Some c =>
      set_PlanWidth (to_int (parseFloat (sub c 4))) (set_PlanRows (parseFloat (sub c 3))
        (set_TotalCost (parseFloat (sub c 2)) (set_StartupCost (parseFloat (sub c 1)) n)))
  | None => n
  end.

Definition line_actual (line : string) (n : node_data) : node_data :=
  match find actualRe line with
  | Some a =>
      set_Actual (Some (mkActual (parseFloat (sub a 1)) (parseFloat (sub a 2)) (parseFloat (sub a 3)) (parseFloat (sub a 4)))) n
  | None => if Contains line "(never executed)" then set_Actual (Some (mkActual 0 0 0 0)) n else n
  end.

Definition matchNodeLine (line : string) : option node_data :=
  match find nodeLineRe line with
  | None => None
  | Some m => Some (line_actual line (line_costs line (parseLabel (sub m 3) zero_data)))
  end.

Definition hasTiming (line : string) : bool := Contains line "(actual time=".

(** ** Places in the tree *)

Definition RelMember : string := "Member".
Definition RelSubquery : string := "Subquery".
Definition RelInitPlan : string := "InitPlan".
Definition RelSubPlan : string := "SubPlan".

(** An open node. *)
Record textFrame := mkFrame { node : Node; f_indent : Z; attrsAt : Z; lastAttr : string }.

Definition on_data (f : node_data → node_data) (n : Node) : Node := mkNode (f (data n)) (Children n).

Definition planChildren (parent : Node) : Z := Z.of_nat (length (filter (λ c, SubplanName (data c) = "") (Children parent))).

Definition childRole (parent : Node) (index : Z) : string :=
  if decide (Type_ (data parent) ∈ ["Append"; "Merge Append"; "BitmapAnd"; "BitmapOr"]) then RelMember
  else if decide (Type_ (data parent) = "Subquery Scan") then RelSubquery
  else if index =? 0 then RelOuter
  else if index =? 1 then RelInner
  else RelMember.

Definition subplanRole (header : string) : string := if HasPrefix header "SubPlan" then RelSubPlan else RelInitPlan.

(** [parent.node.Children = append(parent.node.Children, ...)]. *)
Definition adopt (parent : textFrame) (c : Node) : textFrame :=
  mkFrame (mkNode (data (node parent)) (Children (node parent) ++ [c])) (f_indent parent) (attrsAt parent) (lastAttr parent).

(** The loops that pop every frame but the last down to an indentation. *)
Fixpoint pop (indent : Z) (top : textFrame) (below : list textFrame) : textFrame * list textFrame :=
  match below with
  | [] => (top, [])
  | parent :: below' =>
      if indent <=? f_indent top then pop indent (adopt parent (node top)) below' else (top, below)
  end.

(** Every frame popped: the root. *)
Fixpoint close_all (top : textFrame) (below : list textFrame) : Node :=
  match below with [] => node top | parent :: below => close_all (adopt parent (node top)) below end.

(** ** Attributes *)

(** [splitTopLevel]: [cur] is the text since the last comma. *)
Fixpoint split_top (q : option ascii) (depth : Z) (cur s : string) : list string :=
  match s with
  | EmptyString => let rest := TrimSpace cur in if decide (rest = "") then [] else [rest]
  | String c s' =>
      let more := cur +:+ String c "" in
      match q with
      | Some q' => split_top (if decide (c = q') then None else q) depth more s'
      | None =>
          if decide (c = char 39 ∨ c = quote) then split_top (Some c) depth more s'
          else if decide (c = char 40 ∨ c = char 91) then split_top None (depth + 1) more s'
          else if decide (c = char 41 ∨ c = char 93) then split_top None (depth - 1) more s'
          else if bool_decide (c = char 44) && (depth =? 0) then TrimSpace cur :: split_top None depth "" s'
          else split_top None depth more s'
      end
  end.

Definition splitTopLevel (s : string) : list string := split_top None 0 "" s.

Definition setSortMethod (raw : string) (n : node_data) : node_data :=
  match Cut raw ": " with
  | None => n
  | Some (_, value) =>
      match find sortSpaceRe value with
      | Some m =>
          let n := set_SortSpaceKB (Some (parseFloat (sub m 2))) (set_SortSpaceType (sub m 1) n) in
          let value := match Cut value (whole m) with Some (hd, _) => hd | None => value end in
          set_SortMethod (TrimSpace value) n
      | None => set_SortMethod (TrimSpace value) n
      end
  end.

Definition heap_part (n : node_data) (part : string) : node_data :=
  match Cut part "=" with
  | Some (kind, num) =>
      if decide (kind = "exact") then set_HeapBlocksExact (Some (parseFloat num)) n
      else if decide (kind = "lossy") then set_HeapBlocksLossy (Some (parseFloat num)) n
      else n
  | None => n
  end.

Definition setHeapBlocks (value : string) (n : node_data) : node_data := foldl heap_part n (Fields value).

Definition set_block (b : Buffers) (kind : string) (v : float) : Buffers :=
  let '(mkBuffers sh sr sd sw lh lr ld lw tr tw) := b in
  if decide (kind = "shared hit") then mkBuffers v sr sd sw lh lr ld lw tr tw
  else if decide (kind = "shared read") then mkBuffers sh v sd sw lh lr ld lw tr tw
  else if decide (kind = "shared dirtied") then mkBuffers sh sr v sw lh lr ld lw tr tw
  else if decide (kind = "shared written") then mkBuffers sh sr sd v lh lr ld lw tr tw
  else if decide (kind = "local hit") then mkBuffers sh sr sd sw v lr ld lw tr tw
  else if decide (kind = "local read") then mkBuffers sh sr sd sw lh v ld lw tr tw
  else if decide (kind = "local dirtied") then mkBuffers sh sr sd sw lh lr v lw tr tw
  else if decide (kind = "local written") then mkBuffers sh sr sd sw lh lr ld v tr tw
  else if decide (kind = "temp read") then mkBuffers sh sr sd sw lh lr ld lw v tw
  else if decide (kind = "temp written") then mkBuffers sh sr sd sw lh lr ld lw tr v
  else b.

Definition buffer_group (b : Buffers) (group : string) : Buffers :=
  match Fields group with
  | scope :: ((_ :: _) as fields) =>
      foldl (λ b f, match Cut f "=" with
                    | Some (kind, num) => set_block b (scope +:+ " " +:+ kind) (parseFloat num)
                    | None => b
                    end) b fields
  | _ => b
  end.

Definition parseTextBuffers (value : string) : Buffers :=
  foldl buffer_group (mkBuffers 0 0 0 0 0 0 0 0 0 0) (Split (char 44) value).

Definition setTextAttr (key value raw : string) (n : node_data) : node_data :=
  if decide (key ∈ ["Filter"; "One-Time Filter"]) then set_Filter value n
  else if decide (key ∈ ["Index Cond"; "TID Cond"]) then set_IndexCond value n
  else if decide (key = "Recheck Cond") then set_RecheckCond value n
  else if decide (key = "Hash Cond") then set_HashCond value n
  else if decide (key = "Merge Cond") then set_MergeCond value n
  else if decide (key = "Join Filter") then set_JoinFilter value n
  else if decide (key = "Rows Removed by Filter") then set_RowsRemovedByFilter (Some (parseFloat value)) n
  else if decide (key = "Rows Removed by Join Filter") then set_RowsRemovedByJoinFilter (Some (parseFloat value)) n
  else if decide (key = "Heap Fetches") then set_HeapFetches (Some (parseFloat value)) n
  else if decide (key = "Sort Key") then set_SortKey (splitTopLevel value) n
  else if decide (key = "Sort Method") then setSortMethod raw n
  else if decide (key = "Workers Planned") then set_WorkersPlanned (Some (to_int (parseFloat value))) n
  else if decide (key = "Workers Launched") then set_WorkersLaunched (Some (to_int (parseFloat value))) n
  else if decide (key = "Heap Blocks") then setHeapBlocks value n
  else if decide (key = "Buffers") then set_Buffers (Some (parseTextBuffers value)) n
  else n.

Definition appendToAttr (key line : string) (n : node_data) : node_data :=
  let line := " " +:+ TrimSpace line in
  if decide (key ∈ ["Filter"; "One-Time Filter"]) then set_Filter (n_Filter n +:+ line) n
  else if decide (key ∈ ["Index Cond"; "TID Cond"]) then set_IndexCond (IndexCond n +:+ line) n
  else if decide (key = "Recheck Cond") then set_RecheckCond (RecheckCond n +:+ line) n
  else if decide (key = "Hash Cond") then set_HashCond (HashCond n +:+ line) n
  else if decide (key = "Merge Cond") then set_MergeCond (MergeCond n +:+ line) n
  else if decide (key = "Join Filter") then set_JoinFilter (JoinFilter n +:+ line) n
  else n.

Definition applyTextAttr (f : textFrame) (line : string) (indent : Z) : textFrame :=
  let at_ := if attrsAt f =? -1 then indent else attrsAt f in
  let f := mkFrame (node f) (f_indent f) at_ (lastAttr f) in
  if at_ <? indent then
    if negb (Contains line ": ") && bool_decide (lastAttr f ≠ "") then
      mkFrame (on_data (appendToAttr (lastAttr f) line) (node f)) (f_indent f) at_ (lastAttr f)
    else f
  else
    match Cut line ": " with
    | None => f
    | Some (key, value) => mkFrame (on_data (setTextAttr key (TrimSpace value) line) (node f)) (f_indent f) at_ key
    end.

(** ** After the tree *)

Definition parseSettings (line : string) : gmap string string :=
  foldl (λ out part,
    match Cut part " = " with
    | None => out
    | Some (key, value) =>
        let value := TrimSpace value in
        let value :=
          if (2 <=? Z.of_nat (String.length value)) && HasPrefix value "'" && HasSuffix value "'" then
            ReplaceAll (String.substring 1 (String.length value - 2) value) "''" "'"
          else value in
        <[TrimSpace key := value]> out
    end) ∅ (splitTopLevel line).

Definition jit_time (j : JIT) (m : found) : JIT :=
  let v := Some (parseFloat (sub m 2)) in
  let '(mkJIT f g i o e t) := j in
  if decide (sub m 1 = "Generation") then mkJIT f v i o e t
  else if decide (sub m 1 = "Inlining") then mkJIT f g v o e t
  else if decide (sub m 1 = "Optimization") then mkJIT f g i v e t
  else if decide (sub m 1 = "Emission") then mkJIT f g i o v t
  else if decide (sub m 1 = "Total") then mkJIT f g i o e v
  else j.

Definition applyJITLine (p : Plan) (line : string) : Plan :=
  match p_JIT p with
  | None => p
  | Some j =>
      match CutPrefix line "Functions: " with
      | Some n =>
          set_JIT (Some (mkJIT (to_int (parseFloat n)) (Generation j) (Inlining j) (Optimization j) (Emission j) (Total j))) p
      | None => if HasPrefix line "Timing: " then set_JIT (Some (foldl jit_time j (FindAll jitTimeRe line))) p else p
      end
  end.

Definition milliseconds (s : string) : option float := Some (parseFloat (TrimSuffix s " ms")).

(** [applyTail]; [None] where the source says that the line does not belong there, and
    leaves the plan as it is. *)
Definition applyTail (p : Plan) (line : string) (nested : bool) : option Plan :=
  if nested then Some (applyJITLine p line)
  else
    match CutPrefix line "Planning Time: " with
    | Some v => Some (set_PlanningTime (milliseconds v) p)
    | None =>
    match CutPrefix line "Execution Time: " with
    | Some v => Some (set_ExecutionTime (milliseconds v) p)
    | None =>
    match CutPrefix line "Query Identifier: " with
    | Some v => Some (match Atoi v with Some id => set_HasQueryID true (set_QueryID id p) | None => p end)
    | None =>
    match CutPrefix line "Settings: " with
    | Some v => Some (set_Settings (parseSettings v) p)
    | None =>
        if decide (line = "JIT:") then Some (set_JIT (Some (mkJIT 0 None None None None None)) p)
        else if decide (line = "Planning:") then Some p
        else
          (λ m, set_Triggers (Triggers p ++ [mkTrigger (sub m 1) (sub m 2) (parseFloat (sub m 3)) (parseFloat (sub m 4))]) p)
          <$> find triggerRe line
    end end end end.

(** ** The parser *)

(** The lines before the first node. *)
Definition header_line (st : list string * string) (raw : string) : list string * string :=
  let '(queryText, params) := st in
  let line := TrimLeft raw [blank; tab] in
  match CutPrefix line "Query Text: " with
  | Some t => (queryText ++ [t], params)
  | None =>
      match CutPrefix line "Query Parameters: " with
      | Some t => (queryText, t)
      | None => (if decide (queryText = []) then [] else queryText ++ [raw], params)
      end
  end.

(** The lines before the first node, and from there on. *)
Fixpoint split_header (lines : list string) : list string * list string :=
  match lines with
  | [] => ([], [])
  | l :: lines' =>
      match matchNodeLine l with
      | Some _ => ([], lines)
      | None => let '(hd, rest) := split_header lines' in (l :: hd, rest)
      end
  end.

Record tstate := mkState { plan : Plan; top : textFrame; below : list textFrame; pending : string; inTail : bool }.

Definition timing_on (p : Plan) : Plan := set_Caps (mkCaps (c_Actual (Caps p)) (c_Buffers (Caps p)) true (c_Settings (Caps p))) p.

(** A node line becomes the last child of the frame its indentation says. *)
Definition node_step (st : tstate) (line : string) (indent : Z) (d : node_data) : tstate :=
  let '(parent, below) := pop indent (top st) (below st) in
  let d := set_ParentRel (childRole (node parent) (planChildren (node parent))) d in
  let d :=
    if decide (pending st ≠ "") then set_ParentRel (subplanRole (pending st)) (set_SubplanName (pending st) d) else d in
  mkState (if hasTiming line then timing_on (plan st) else plan st) (mkFrame (mkNode d []) indent (-1) "") (parent :: below) ""
    (inTail st).

Definition line_step (rootIndent : Z) (st : tstate) (line : string) : tstate :=
  if decide (TrimSpace line = "") then st
  else
    let indent := nodeIndent line in
    let trimmed := TrimLeft line [blank; tab] in
    if inTail st then
      mkState (default (plan st) (applyTail (plan st) trimmed (rootIndent <? indent))) (top st) (below st) (pending st) true
    else
      match matchNodeLine line with
      | Some d => node_step st line indent d
      | None =>
          let '(popped, rest) := pop indent (top st) (below st) in
          if MatchString subplanRe trimmed && negb (Contains trimmed ": ") then mkState (plan st) popped rest trimmed false
          else
            match (if indent <=? rootIndent then applyTail (plan st) trimmed false else None) with
            | Some p => mkState p (top st) (below st) (pending st) true
            | None => mkState (plan st) (applyTextAttr popped trimmed indent) rest (pending st) false
            end
      end.

Definition fillTextCaps (p : Plan) : Plan :=
  let c := Caps p in
  let settings := bool_decide (Settings p ≠ ∅) in
  let timing := match ExecutionTime p with Some _ => true | None => c_Timing c end in
  set_Caps
    (Walk p (λ _ n c,
       (true, mkCaps (match n_Actual (data n) with Some _ => true | None => c_Actual c end)
                (match n_Buffers (data n) with Some _ => true | None => c_Buffers c end) (c_Timing c) (c_Settings c)))
       (mkCaps (c_Actual c) (c_Buffers c) timing settings)) p.

Definition empty_plan (src : string) : Plan :=
  mkPlan src FormatText false "" "" 0 false None None None (mkNode zero_data []) [] None ∅ no_caps.

(** The loop over the lines behind the first node line. *)
Definition tree_lines (p : Plan) (root : node_data) (rootIndent : Z) (lines : list string) : tstate :=
  foldl (line_step rootIndent) (mkState p (mkFrame (mkNode root []) rootIndent (-1) "") [] "" false) lines.

Definition ParseText (body src : string) : perror + Plan :=
  let '(header, lines) := split_header (splitLines body) in
  let '(queryText, params) := foldl header_line ([], "") header in
  let p := set_QueryText (TrimRight (strings_Join queryText (String newline "")) [blank; newline])
    (set_QueryParams params (empty_plan src)) in
  match lines with
  | first :: rest =>
      match matchNodeLine first with
      | Some root =>
          let p := if hasTiming first then timing_on p else p in
          let st := tree_lines p root (nodeIndent first) rest in
          inr (fillTextCaps (set_Root (close_all (top st) (below st)) (plan st)))
      | None => inl (mkErr CodeParseError "no plan node found")
      end
  | [] => inl (mkErr CodeParseError "no plan node found")
  end.

(** [Parse]. *)
Definition Parse `{PlanJSON} (body src : string) : perror + Plan :=
  match DetectFormat body with
  | inl err => inl err
  | inr format => if decide (format = FormatJSON) then ParseJSON body src else ParseText body src
  end.
