(* ===== verification/ExplainOutline.v ===== *)
(** * The tree a text plan is read as

    What the lines of a body say by their indentation alone is its outline: every node line
    is a node, at the depth of the node lines that enclose it. The parser is shown to
    return exactly the tree of that outline. *)

From Stdlib Require Import Ascii.
From S2P Require Import Prelude GoSlices GoFloat PatroniLayout Sqlparse GoStrings GoNumber GoRegexp ExplainPlan ExplainText.
From stdpp Require Import options.

#[local] Set Warnings "-register-all".
#[local] Open Scope string_scope.
#[local] Open Scope Z_scope.
#[local] Open Scope list_scope.

(** ** The outline *)

(** What a node line, and the header before it, say about a node. *)
Definition said (d : node_data) : node_data :=
  mkData (Type_ d) (Relation d) (n_Schema d) (Alias d) (IndexName d) "" (SubplanName d) (Parallel d) (PartialMode d) (Strategy d)
    (JoinType d) (ScanDirection d) (Operation d) (StartupCost d) (TotalCost d) (PlanRows d) (PlanWidth d) (n_Actual d)
    "" "" "" "" "" "" [] None None None "" None "" None None None None None.

(** The nodes of a tree with their depths, parents first. *)
Fixpoint shape (k : nat) (n : Node) : list (nat * node_data) := (k, said (data n)) :: flat_map (shape (S k)) (Children n).

Definition is_header (trimmed : string) : bool := MatchString subplanRe trimmed && negb (Contains trimmed ": ").

(** The indentations of the node lines that are still open (but the root's), innermost first;
    the header waiting for its node; and the nodes so far. *)
Record outline := mkOutline { opens : list Z; header : string; nodes : list (nat * node_data) }.

(** A line closes every node line that is not to its left. *)
Definition outline_step (o : outline) (line : string) : outline :=
  if decide (TrimSpace line = "") then o
  else
    let left_of := filter (λ j, j < nodeIndent line) (opens o) in
    let trimmed := TrimLeft line [blank; tab] in
    match matchNodeLine line with
    | Some d => mkOutline (nodeIndent line :: left_of) "" (nodes o ++ [(S (length left_of), said (set_SubplanName (header o) d))])
    | None => mkOutline left_of (if is_header trimmed then trimmed else header o) (nodes o)
    end.

(** A line that is not indented more than the root and opens one of the blocks after the
    tree. *)
Definition ends_tree (rootIndent : Z) (line : string) : bool :=
  let trimmed := TrimLeft line [blank; tab] in
  bool_decide (TrimSpace line ≠ "") && bool_decide (matchNodeLine line = None) && negb (is_header trimmed) &&
  (nodeIndent line <=? rootIndent) && bool_decide (is_Some (applyTail (empty_plan "") trimmed false)).

Fixpoint tree_part (rootIndent : Z) (lines : list string) : list string :=
  match lines with
  | [] => []
  | l :: lines => if ends_tree rootIndent l then [] else l :: tree_part rootIndent lines
  end.

(** ** Lemmas *)

Lemma shape_visits p n :
  (λ pn, (length pn.1, said (data pn.2))) <$> visits (λ _ _, true) p n = shape (length p) n.
Proof.
  revert p. induction n as [d cs IH] using Node_tree_ind. intros p. rewrite visits_unfold, fmap_cons. cbn [shape Children]. f_equal.
  generalize 0. induction IH as [|c cs Hc _ IHcs]; intros i; [done|]. cbn [visits_from flat_map].
  rewrite fmap_app, IHcs, Hc. replace (length (p ++ [i])) with (S (length p)) by (rewrite length_app; cbn; lia). done.
Qed.

Lemma shape_adopt k f c : shape k (node (adopt f c)) = shape k (node f) ++ shape (S k) c.
Proof. destruct f as [[d cs] fi fa fl]. cbn [adopt node shape data Children]. rewrite flat_map_app. cbn [flat_map]. by rewrite app_nil_r. Qed.

Lemma close_all_pop i t b : let '(t', b') := pop i t b in close_all t' b' = close_all t b.
Proof.
  revert t. induction b as [|p b IH]; intros t; [done|]. cbn [pop]. destruct (i <=? f_indent t); [|done]. apply IH.
Qed.

(** What is added to the innermost open node is added at the end of the tree. *)
Lemma close_all_grow (f : nat → list (nat * node_data)) t t' b :
  (∀ k, shape k (node t') = shape k (node t) ++ f k) → ∀ k,
  shape k (close_all t' b) = shape k (close_all t b) ++ f (k + length b)%nat.
Proof.
  revert t t' f. induction b as [|p b IH]; intros t t' f Hf k; cbn [close_all length]; [by rewrite Nat.add_0_r|].
  rewrite (IH (adopt p (node t)) (adopt p (node t')) (λ k, f (S k))); [by rewrite Nat.add_succ_r|].
  intros j. by rewrite !shape_adopt, Hf, app_assoc.
Qed.

(** The indentations of the open nodes but the root. *)
Fixpoint indents (t : textFrame) (b : list textFrame) : list Z :=
  match b with [] => [] | p :: b => f_indent t :: indents p b end.

Lemma indents_length t b : length (indents t b) = length b.
Proof. revert t. induction b as [|p b IH]; intros t; [done|]. cbn. by rewrite IH. Qed.

Lemma indents_adopt t c b : indents (adopt t c) b = indents t b.
Proof. by destruct b. Qed.

Lemma filter_all_below i l : StronglySorted (λ a c, c < a) l → Forall (λ j, j < i) l → filter (λ j, j < i) l = l.
Proof. intros _ Hl. induction Hl as [|x l Hx Hl IH]; [done|]. rewrite filter_cons_True by done. by f_equal. Qed.

Lemma indents_pop i t b : StronglySorted (λ a c, c < a) (indents t b) →
  let '(t', b') := pop i t b in indents t' b' = filter (λ j, j < i) (indents t b).
Proof.
  revert t. induction b as [|p b IH]; intros t Hs; [done|]. cbn [pop indents] in *. apply StronglySorted_inv in Hs as [Hs Hall].
  destruct (Z.leb_spec i (f_indent t)).
  - rewrite filter_cons_False by lia. specialize (IH (adopt p (node t))). rewrite indents_adopt in IH. by apply IH.
  - rewrite filter_cons_True by lia. cbn [indents]. f_equal. symmetry. apply filter_all_below; [done|].
    eapply Forall_impl; [exact Hall|]. cbn. lia.
Qed.

Lemma sorted_filter_below i l : StronglySorted (λ a c : Z, c < a) l → StronglySorted (λ a c, c < a) (filter (λ j, j < i) l).
Proof.
  induction 1 as [|x l Hs IH Hx]; [constructor|]. rewrite filter_cons. case_decide; [|done]. constructor; [done|].
  rewrite list.Forall_forall in *. intros y [_ Hy]%list_elem_of_filter. by apply Hx.
Qed.

Lemma sorted_push i l : StronglySorted (λ a c : Z, c < a) l → StronglySorted (λ a c, c < a) (i :: filter (λ j, j < i) l).
Proof.
  intros Hs. constructor; [by apply sorted_filter_below|]. apply list.Forall_forall. by intros y [Hy _]%list_elem_of_filter.
Qed.

(** ** Attributes leave what the line says alone *)

Lemma heap_said l d : said (foldl heap_part d l) = said d.
Proof.
  revert d. induction l as [|s l IH]; intros d; [done|]. cbn [foldl]. rewrite IH. unfold heap_part.
  destruct (Cut s "=") as [[kind num]|]; [|done]. by repeat case_decide.
Qed.

Lemma sort_method_said raw d : said (setSortMethod raw d) = said d.
Proof. unfold setSortMethod. destruct (Cut raw ": ") as [[? v]|]; [|done]. by destruct (find sortSpaceRe v). Qed.

Lemma setTextAttr_said key v raw d : said (setTextAttr key v raw d) = said d.
Proof.
  unfold setTextAttr. repeat (case_decide; [first [done|apply sort_method_said|apply heap_said]|]). done.
Qed.

Lemma appendToAttr_said key line d : said (appendToAttr key line d) = said d.
Proof. unfold appendToAttr. by repeat case_decide. Qed.

Lemma applyTextAttr_frame f line i :
  f_indent (applyTextAttr f line i) = f_indent f ∧ ∀ k, shape k (node (applyTextAttr f line i)) = shape k (node f).
Proof.
  unfold applyTextAttr. cbn zeta. destruct f as [[d cs] fi fa fl]. cbn [node f_indent attrsAt lastAttr].
  destruct (_ <? i).
  - destruct (_ && _); [|done]. split; [done|]. intros k. cbn [node on_data shape data Children]. by rewrite appendToAttr_said.
  - destruct (Cut line ": ") as [[key v]|]; [|done]. split; [done|]. intros k. cbn [node on_data shape data Children].
    by rewrite setTextAttr_said.
Qed.

Lemma indents_same t t' b : f_indent t' = f_indent t → indents t' b = indents t b.
Proof. intros H. destruct b; cbn; congruence. Qed.

(** Whether a line belongs after the tree does not depend on the plan. *)
Lemma applyTail_plan p q line : is_Some (applyTail p line false) ↔ is_Some (applyTail q line false).
Proof.
  unfold applyTail. repeat (destruct (CutPrefix line _); [by split; eauto|]). repeat (case_decide; [by split; eauto|]).
  by destruct (find triggerRe line).
Qed.

(** ** A node line names no sub-plan *)

Lemma normalizeType_subplan label n : SubplanName (normalizeType label n) = SubplanName n.
Proof.
  unfold normalizeType. repeat (case_decide; [done|]). destruct (CutSuffix label " Join") as [base|].
  - by destruct (cut_word base joinTypes) as [[? ?]|].
  - by case_decide.
Qed.

Lemma settle_names_subplan n : SubplanName (settle_names n) = SubplanName n.
Proof. unfold settle_names. cbn zeta. by repeat case_decide. Qed.

Lemma parseOnClause_subplan s n : SubplanName (parseOnClause s n) = SubplanName n.
Proof.
  unfold parseOnClause. destruct (splitIdents s) as [|name [|a rest]]; [done|..]; destruct (splitQualified name); [done|].
  cbn zeta. by case_decide.
Qed.

Lemma cut_modifiers_subplan label n : SubplanName (cut_modifiers label n).2 = SubplanName n.
Proof.
  unfold cut_modifiers. destruct (CutPrefix label "Parallel ");
    (destruct (CutPrefix _ "Partial "); [done|]; by destruct (CutPrefix _ "Finalize ")).
Qed.

Lemma parseLabel_subplan label n : SubplanName (parseLabel label n) = SubplanName n.
Proof.
  unfold parseLabel. pose proof (cut_modifiers_subplan (TrimSpace label) n) as Hm.
  destruct (cut_modifiers (TrimSpace label) n) as [l1 n1]. cbn [snd] in Hm.
  destruct (Cut l1 " on ") as [[hd tl]|]; [rewrite <- (parseOnClause_subplan tl) in Hm|];
    (destruct (Cut _ " using ") as [[? ?]|]; destruct (CutSuffix _ " Backward");
     rewrite settle_names_subplan, normalizeType_subplan; exact Hm).
Qed.

Lemma matchNodeLine_subplan line d : matchNodeLine line = Some d → SubplanName d = "".
Proof.
  unfold matchNodeLine. destruct (find nodeLineRe line) as [m|]; [|done]. intros [= <-].
  transitivity (SubplanName (parseLabel (sub m 3) zero_data)); [|apply parseLabel_subplan].
  generalize (parseLabel (sub m 3) zero_data). intros n. unfold line_actual, line_costs.
  destruct (find costRe line), (find actualRe line); try done; by destruct (Contains line _).
Qed.

(** ** The parser follows the outline *)

Record tracks (root : node_data) (st : tstate) (o : outline) : Prop := {
  tr_tail : inTail st = false;
  tr_header : pending st = header o;
  tr_opens : indents (top st) (below st) = opens o;
  tr_sorted : StronglySorted (λ a c : Z, c < a) (opens o);
  tr_shape : shape 0 (close_all (top st) (below st)) = (O, said root) :: nodes o
}.

(** The popped stack holds the node lines to the left, and the same tree. *)
Lemma tracks_pop root st o i t b : tracks root st o → pop i (top st) (below st) = (t, b) →
  let left_of := filter (λ j, j < i) (opens o) in
  indents t b = left_of ∧ length b = length left_of ∧ StronglySorted (λ a c : Z, c < a) left_of ∧
  shape 0 (close_all t b) = (O, said root) :: nodes o.
Proof.
  intros [_ _ Ho Hs Hsh] Hp. pose proof (close_all_pop i (top st) (below st)) as Hc. rewrite <- Ho in Hs.
  pose proof (indents_pop i (top st) (below st) Hs) as Hi. rewrite Hp in Hc, Hi. rewrite Ho in Hi, Hs. cbn zeta.
  split_and!; [done|by rewrite <- Hi, indents_length|by apply sorted_filter_below|by rewrite Hc].
Qed.

Lemma node_step_tracks root st o line d : tracks root st o → matchNodeLine line = Some d → TrimSpace line ≠ "" →
  tracks root (node_step st line (nodeIndent line) d) (outline_step o line).
Proof.
  intros Htr Hd Hb. unfold node_step, outline_step. rewrite decide_False by done. cbn zeta. rewrite Hd.
  destruct (pop _ _ _) as [t b] eqn:Hp. destruct (tracks_pop _ _ _ _ _ _ Htr Hp) as (Hi & Hl & Hs & Hsh).
  destruct Htr as [Ht Hh Ho _ _]. constructor; cbn [inTail pending header opens nodes top below]; [done|done| | |].
  - cbn [indents]. by rewrite <- Hi.
  - constructor; [done|]. apply list.Forall_forall. by intros y [Hy _]%list_elem_of_filter.
  - cbn [close_all node].
    rewrite (close_all_grow (λ k, shape (S k) (mkNode _ [])) t _ b (λ k, shape_adopt k t _) 0), Hsh, <- app_comm_cons.
    cbn [shape flat_map Children data Nat.add]. rewrite Hl. do 4 f_equal. rewrite <- Hh. case_decide as Hq; [done|].
    rewrite Hq. pose proof (matchNodeLine_subplan line d Hd) as Hno. destruct d. cbn in Hno. by subst.
Qed.

Lemma tree_line_tracks r root st o line : tracks root st o → ends_tree r line = false →
  tracks root (line_step r st line) (outline_step o line).
Proof.
  intros Htr He. unfold line_step. destruct (decide (TrimSpace line = "")) as [Hb|Hb].
  { unfold outline_step. by rewrite decide_True. }
  cbn zeta. rewrite (tr_tail _ _ _ Htr). destruct (matchNodeLine line) as [d|] eqn:Hd; [by apply node_step_tracks|].
  unfold outline_step. rewrite decide_False by done. cbn zeta. rewrite Hd.
  destruct (pop _ _ _) as [t b] eqn:Hp. destruct (tracks_pop _ _ _ _ _ _ Htr Hp) as (Hi & Hl & Hs & Hsh).
  unfold ends_tree in He. cbn zeta in He. rewrite (bool_decide_eq_true_2 _ Hb), (bool_decide_eq_true_2 _ Hd) in He.
  destruct Htr as [Ht Hh Ho _ _]. unfold is_header in He |- *.
  destruct (MatchString subplanRe _ && negb (Contains _ ": ")) eqn:Hhd; [by constructor|]. cbn [negb andb] in He.
  assert (Hn : (if nodeIndent line <=? r then applyTail (plan st) (TrimLeft line [blank; tab]) false else None) = None).
  { destruct (nodeIndent line <=? r); [|done]. cbn [andb] in He. apply bool_decide_eq_false in He.
    rewrite (applyTail_plan _ (plan st)), <- eq_None_not_Some in He. done. }
  rewrite Hn. destruct (applyTextAttr_frame t (TrimLeft line [blank; tab]) (nodeIndent line)) as [Hf Hk].
  constructor; cbn [inTail pending header opens nodes top below]; [done|done|by rewrite (indents_same t) by done|done|].
  rewrite (close_all_grow (λ _, []) t) by (intros k; by rewrite app_nil_r). by rewrite app_nil_r.
Qed.

(** Once the tree has ended it stays as it is. *)
Lemma tail_line_keeps r st line : inTail st = true →
  let st' := line_step r st line in inTail st' = true ∧ top st' = top st ∧ below st' = below st.
Proof. intros Ht. unfold line_step. case_decide; [done|]. cbn zeta. by rewrite Ht. Qed.

Lemma tail_lines_keep r lines st : inTail st = true →
  let st' := foldl (line_step r) st lines in top st' = top st ∧ below st' = below st.
Proof.
  revert st. induction lines as [|l lines IH]; intros st Ht; [done|]. cbn [foldl].
  destruct (tail_line_keeps r st l Ht) as (H1 & H2 & H3). cbn zeta in *.
  destruct (IH _ H1) as [H4 H5]. by rewrite H4, H5.
Qed.

Lemma ends_tree_step r st root o line : tracks root st o → ends_tree r line = true →
  let st' := line_step r st line in inTail st' = true ∧ top st' = top st ∧ below st' = below st.
Proof.
  intros [Ht _ _ _ _] He. unfold ends_tree in He. cbn zeta in He. rewrite !andb_true_iff, !bool_decide_eq_true in He.
  destruct He as [[[[Hb Hd] Hh] Hi] Hp]. unfold line_step. rewrite decide_False by done. cbn zeta. rewrite Ht, Hd.
  unfold is_header in Hh. apply negb_true_iff in Hh. destruct (pop _ _ _) as [t b]. rewrite Hh, Hi.
  rewrite (applyTail_plan _ (plan st)) in Hp. destruct Hp as [p ->]. done.
Qed.

Lemma tree_lines_shape r root lines st o : tracks root st o →
  let st' := foldl (line_step r) st lines in
  shape 0 (close_all (top st') (below st')) = (O, said root) :: nodes (foldl outline_step o (tree_part r lines)).
Proof.
  revert st o. induction lines as [|l lines IH]; intros st o Htr; cbn [foldl tree_part]; [apply Htr|].
  destruct (ends_tree r l) eqn:He.
  - destruct (ends_tree_step _ _ _ _ _ Htr He) as (H1 & H2 & H3). cbn zeta in *.
    destruct (tail_lines_keep r lines _ H1) as [H4 H5]. cbn zeta. rewrite H4, H5, H2, H3. apply Htr.
  - cbn [foldl]. apply IH. by apply tree_line_tracks.
Qed.

Lemma split_header_spec lines : let '(hd, rest) := split_header lines in
  lines = hd ++ rest ∧ Forall (λ l, matchNodeLine l = None) hd ∧
  match rest with [] => True | first :: _ => matchNodeLine first ≠ None end.
Proof.
  induction lines as [|l lines IH]; [done|]. cbn [split_header]. destruct (matchNodeLine l) as [d|] eqn:Hl.
  - split_and!; [done|constructor|by rewrite Hl].
  - destruct (split_header lines) as [hd rest]. destruct IH as (-> & Hh & Hr). split_and!; [done|by constructor|done].
Qed.

(** C25: A text plan is refused exactly when no line of it is a node. Otherwise the first node
    line is the root, and the nodes of the tree are exactly the node lines up to the blocks
    behind it, in their order, each with the type, names, costs and measurements its line
    says and the header that stood before it, as deep as there are node lines open: to the
    left of it and of every line in between. *)
Theorem ParseText_outline body src :
  match ParseText body src with
  | inl e => e = mkErr CodeParseError "no plan node found" ∧ Forall (λ l, matchNodeLine l = None) (splitLines body)
  | inr p => ∃ before first root rest,
      splitLines body = before ++ first :: rest ∧ Forall (λ l, matchNodeLine l = None) before ∧ matchNodeLine first = Some root ∧
      (λ pn, (length pn.1, said (data pn.2))) <$> visits (λ _ _, true) [] (Root p) =
        (O, said root) :: nodes (foldl outline_step (mkOutline [] "" []) (tree_part (nodeIndent first) rest))
  end.
Proof.
  unfold ParseText. pose proof (split_header_spec (splitLines body)) as Hsp. destruct (split_header (splitLines body)) as [hd rest].
  destruct Hsp as (Hl & Hhd & Hr). destruct (foldl header_line ([], "") hd) as [qt params].
  destruct rest as [|first rest]; [split; [done|]; by rewrite Hl, app_nil_r|].
  destruct (matchNodeLine first) as [root|] eqn:Hfirst; [|done]. cbn zeta. exists hd, first, root, rest.
  split_and!; [done|done|done|]. rewrite (shape_visits []).
  change (Root (fillTextCaps ?p)) with (Root p). cbn [set_Root Root]. unfold tree_lines.
  rewrite (tree_lines_shape _ root _ _ (mkOutline [] "" [])); [done|]. by constructor; [| | |constructor|].
Qed.

(** ** Example: the plan of a parallel aggregate, as auto_explain logs it *)

Definition lines_of (l : list string) : string := strings_Join l (String newline "").

Definition logged_plan : string := lines_of [
  "Query Text: SELECT count(*) FROM probe_t";
  "WHERE payload LIKE '%abc%';";
  "Finalize Aggregate  (cost=6455.18..6455.19 rows=1 width=8) (actual time=20.979..22.191 rows=1 loops=1)";
  "  Output: count(*)";
  "  Buffers: shared hit=576 read=2232, temp read=5";
  "  ->  Gather  (cost=6455.06..6455.17 rows=1 width=8) (actual time=20.888..22.188 rows=2 loops=1)";
  "        Workers Planned: 1";
  "        ->  Partial Aggregate  (cost=5455.06..5455.07 rows=1 width=8) (actual time=19.654..19.655 rows=1 loops=2)";
  "              Worker 0:  actual time=18.515..18.516 rows=1 loops=1";
  "                Buffers: shared hit=279 read=1023";
  "              ->  Parallel Seq Scan on public.probe_t p  (cost=0.00..5455.06 rows=2 width=0) (never executed)";
  "                    Filter: ((p.payload ~~ '%abc%'::text)";
  "                      AND (p.k = 42))";
  "        InitPlan 1 (returns $0)";
  "          ->  Index Scan Backward using probe_i_k on probe_i  (cost=0.42..8.44 rows=1 width=4)";
  "Query Identifier: -4452854032459450605";
  "Settings: search_path = '" +:+ dq +:+ "$user" +:+ dq +:+ ", public', work_mem = '64MB'";
  "Execution Time: 22.5 ms"].

Definition summary (p : Plan) : list (nat * string * string * string * string) :=
  (λ pn, let d := data pn.2 in (length pn.1, Type_ d, Relation d, ParentRel d, SubplanName d)) <$> visits (λ _ _, true) [] (Root p).

Example logged_plan_parsed :
  match ParseText logged_plan "log" with
  | inl _ => False
  | inr p =>
      summary p =
        [(0%nat, "Aggregate", "", "", ""); (1%nat, "Gather", "", "Outer", ""); (2%nat, "Aggregate", "", "Outer", "");
         (3%nat, "Seq Scan", "probe_t", "Outer", ""); (2%nat, "Index Scan", "probe_i", "InitPlan", "InitPlan 1 (returns $0)")] ∧
      ((λ n, (PartialMode (data n), TotalCost (data n), n_Buffers (data n))) <$> NodeAt p [] =
        Some ("Finalize", 6455.19, Some (mkBuffers 576 2232 0 0 0 0 0 0 5 0)))%float ∧
      (λ n, (n_Filter (data n), Alias (data n), Parallel (data n), n_Actual (data n))) <$> NodeAt p [0; 0; 0] =
        Some ("((p.payload ~~ '%abc%'::text) AND (p.k = 42))", "p", true, Some (mkActual 0 0 0 0)) ∧
      QueryText p = lines_of ["SELECT count(*) FROM probe_t"; "WHERE payload LIKE '%abc%';"] ∧
      p_QueryID p = -4452854032459450605 ∧ ExecutionTime p = Some 22.5%float ∧
      Settings p !! "search_path" = Some (dq +:+ "$user" +:+ dq +:+ ", public") ∧ Settings p !! "work_mem" = Some "64MB" ∧
      Caps p = mkCaps true true true true
  end.
Proof. by vm_compute. Qed.

(** An index whose name holds the word that introduces the table is cut in two. *)
Example index_named_on :
  let d := parseLabel ("Index Scan using " +:+ dq +:+ "by on date" +:+ dq +:+ " on orders") zero_data in
  (IndexName d, Relation d) = (dq +:+ "by", "date" +:+ dq +:+ " on orders").
Proof. by vm_compute. Qed.
