(* ===== verification/LogPattern.v ===== *)
(** * [internal/logs/pattern]: templates of log messages

    The variable parts of a line are masked, so that messages of one structure compare
    equal. *)

From Stdlib Require Import Ascii.
From S2P Require Import Prelude GoSlices PatroniLayout GoStrings GoRegexp.
From stdpp Require Import options.

#[local] Open Scope string_scope.
#[local] Open Scope Z_scope.
#[local] Open Scope list_scope.

Definition not_char (c c' : ascii) : bool := negb (bool_decide (c' = c)).
Definition hex_digit (c : ascii) : bool := digit_char c || in_range 97 102 c || in_range 65 70 c.

Definition reQuoted : regexp :=
  (Lit "'" ⋅ Many (not_char (char 39)) ⋅ Lit "'" ∥ Lit dq ⋅ Many (not_char quote) ⋅ Lit dq)%re.
Definition reLSN : regexp := (Boundary ⋅ Plus hex_digit ⋅ Lit "/" ⋅ Plus hex_digit ⋅ Boundary)%re.
Definition reHex : regexp := (Boundary ⋅ Lit "0x" ⋅ Plus hex_digit ⋅ Boundary)%re.
Definition reNumber : regexp := (Plus digit_char ⋅ Opt (Lit "." ⋅ Plus digit_char))%re.

Definition Placeholder : string := "<*>".

Definition mask (s placeholder : string) : string :=
  let s := strings_Join (Fields s) " " in
  let s := ReplaceAllString reQuoted s placeholder in
  let s := ReplaceAllString reLSN s placeholder in
  let s := ReplaceAllString reHex s placeholder in
  ReplaceAllString reNumber s placeholder.

Definition Key (s : string) : string := mask s "?".
Definition Display (s : string) : string := mask s Placeholder.
#[global] Arguments Key : simpl never.
#[global] Arguments Display : simpl never.

Example Key_values :
  Key <$> ["login time: 656 microseconds"; "duplicate   key   value"; "connection from 10.0.0.1:5432";
           "relation " +:+ dq +:+ "orders" +:+ dq +:+ " does not exist"; "sync=0.004 s; lsn=2E/28E36B88, redo lsn=2D/159A2E80";
           "at 0xFF in 'it''s'"]
  = ["login time: ? microseconds"; "duplicate key value"; "connection from ?.?:?"; "relation ? does not exist";
     "sync=? s; lsn=?, redo lsn=?"; "at ? in ??"].
Proof. by vm_compute. Qed.
