(* ===== verification/LogInsights.v ===== *)
(** * [internal/logs/insights]: records and their categories

    [detect.go] (records that carry a plan), [classify.go] (the registry of categories) and
    [categories.go] (what the records of one window add up to). *)

From Stdlib Require Import Ascii.
From S2P Require Import Prelude GoSlices GoFloat PatroniLayout Sqlparse Sanitize GoStrings GoNumber LogPattern.
From stdpp Require Import options.

#[local] Open Scope string_scope.
#[local] Open Scope Z_scope.
#[local] Open Scope list_scope.

(** ** Detection *)

Record PlanRecord := mkPlanRecord { DurationMs : float; Body : string; QueryID : Z; HasQueryID : bool }.

Definition durationPrefix : string := "duration: ".
Definition maxDurationMs : float := to_float (100 * 365 * 24 * 3600 * 1000).

Definition splitDuration (text : string) : option (float * string) :=
  s ← CutPrefix text durationPrefix;
  '(num, rest) ← Cut s " ms";
  ms ← ParseFloat num;
  if negb (ms =? ms)%float || (ms <? 0)%float || (maxDurationMs <? ms)%float then None else Some (ms, rest).

Definition TrimLeft (s : string) (cutset : list ascii) : string :=
  String.string_of_list_ascii (drop_while (λ c, bool_decide (c ∈ cutset)) (String.list_ascii_of_string s)).

Definition ParseQueryID (raw : string) : Z * bool :=
  match Atoi (TrimSpace raw) with
  | Some id => if id =? 0 then (0, false) else (id, true)
  | None => (0, false)
  end.

Definition Detect (text queryID : string) : option PlanRecord :=
  '(ms, rest) ← splitDuration text;
  body ← CutPrefix rest "  plan:";
  let '(id, has) := ParseQueryID queryID in
  Some (mkPlanRecord ms (TrimLeft body [char 13; char 10]) id has).

Definition isStatementDuration (text : string) : bool :=
  match splitDuration text with
  | None => false
  | Some (_, rest) =>
      if decide (rest = "") then true
      else
        match CutPrefix rest "  " with
        | None => false
        | Some after => existsb (HasPrefix after) ["statement: "; "execute "; "parse "; "bind "]
        end
  end.

(** ** Classification *)

Definition stream_PostgreSQL : string := "postgresql".

Definition CategoryDeadlock : string := "deadlock".
Definition CategoryLockWait : string := "lock_wait".
Definition CategoryConnectionLimit : string := "connection_limit".
Definition CategoryAuthentication : string := "authentication".
Definition CategoryCanceled : string := "canceled".
Definition CategoryPlan : string := "plan".
Definition CategorySlowQuery : string := "slow_query".
Definition CategoryCheckpoint : string := "checkpoint".
Definition CategoryAutovacuum : string := "autovacuum".
Definition CategoryTempFile : string := "temp_file".
Definition CategoryConnection : string := "connection".
Definition CategoryError : string := "error".
Definition CategoryOther : string := "other".

Record LogRecord := mkRecord { Stream : string; r_Severity : string; SQLState : string; r_Text : string }.
Record Category := mkCategory { cat_Code : string; cat_Stream : string; Match : LogRecord → bool }.

Definition hasAnyPrefix (s : string) (prefixes : list string) : bool := existsb (HasPrefix s) prefixes.
Definition containsAny (s : string) (subs : list string) : bool := existsb (Contains s) subs.

Definition stateOr (r : LogRecord) (state prefix : string) : bool :=
  if decide (SQLState r ≠ "") then bool_decide (SQLState r = state) else HasPrefix (r_Text r) prefix.

Definition isErrorState (state : string) : bool :=
  if negb (String.length state =? 5)%nat then false
  else negb (bool_decide (String.substring 0 2 state ∈ ["00"; "01"; "02"])).

(** [strings.ToUpper], as far as an ASCII word can come out of it: besides its own two cases
    an [I] comes from U+0131 and an [S] from U+017F. *)
Fixpoint upper_word (s : string) : string :=
  match s with
  | EmptyString => ""
  | String a s' =>
      if in_range 97 122 a then String (char (byte_of a - 32)) (upper_word s')
      else
        match s' with
        | String b s'' =>
            if (byte_of a =? 196) && (byte_of b =? 177) then String (char 73) (upper_word s'')
            else if (byte_of a =? 197) && (byte_of b =? 191) then String (char 83) (upper_word s'')
            else String a (upper_word s')
        | EmptyString => String a ""
        end
  end.

Definition isErrorSeverity (s : string) : bool := bool_decide (upper_word s ∈ ["ERROR"; "FATAL"; "PANIC"]).

Definition registry : list Category := [
  mkCategory CategoryDeadlock stream_PostgreSQL (λ r, stateOr r "40P01" "deadlock detected");
  mkCategory CategoryLockWait stream_PostgreSQL (λ r,
    bool_decide (SQLState r = "55P03") ||
    hasAnyPrefix (r_Text r) ["canceling statement due to lock timeout"; "could not obtain lock on"] ||
    (HasPrefix (r_Text r) "process " &&
     containsAny (r_Text r) [" still waiting for "; " acquired "; " avoided deadlock "; " detected deadlock "]));
  mkCategory CategoryConnectionLimit stream_PostgreSQL (λ r,
    bool_decide (SQLState r = "53300") ||
    hasAnyPrefix (r_Text r) ["sorry, too many clients already"; "remaining connection slots are reserved"]);
  mkCategory CategoryAuthentication stream_PostgreSQL (λ r,
    HasPrefix (SQLState r) "28" || hasAnyPrefix (r_Text r) ["password authentication failed"; "no pg_hba.conf entry"]);
  mkCategory CategoryCanceled stream_PostgreSQL (λ r, stateOr r "57014" "canceling statement due to");
  mkCategory CategoryPlan stream_PostgreSQL (λ r, match Detect (r_Text r) "" with Some _ => true | None => false end);
  mkCategory CategorySlowQuery stream_PostgreSQL (λ r, isStatementDuration (r_Text r));
  mkCategory CategoryCheckpoint stream_PostgreSQL (λ r,
    hasAnyPrefix (r_Text r)
      ["checkpoint starting:"; "checkpoint complete:"; "restartpoint starting:"; "restartpoint complete:";
       "checkpoints are occurring too frequently"; "recovery restart point at"]);
  mkCategory CategoryAutovacuum stream_PostgreSQL (λ r,
    hasAnyPrefix (r_Text r)
      ["automatic vacuum of table"; "automatic aggressive vacuum"; "automatic analyze of table"; "skipping vacuum of";
       "skipping analyze of"]);
  mkCategory CategoryTempFile stream_PostgreSQL (λ r, HasPrefix (r_Text r) "temporary file: ");
  mkCategory CategoryConnection stream_PostgreSQL (λ r,
    hasAnyPrefix (r_Text r)
      ["connection received:"; "connection authenticated:"; "connection authorized:"; "replication connection authorized:";
       "connection ready:"; "disconnection:"]);
  mkCategory CategoryError "" (λ r, isErrorState (SQLState r) || isErrorSeverity (r_Severity r))].

(** A category restricted to a stream, and the first of a list that takes the record. *)
Definition applies (r : LogRecord) (c : Category) : bool :=
  if decide (cat_Stream c ≠ "" ∧ cat_Stream c ≠ Stream r) then false else Match c r.

Fixpoint first_match (r : LogRecord) (cs : list Category) : string :=
  match cs with [] => CategoryOther | c :: cs => if applies r c then cat_Code c else first_match r cs end.

Definition Classify (r : LogRecord) : string := first_match r registry.

Definition Categories : list Category := registry ++ [mkCategory CategoryOther "" (λ _, true)].

(** ** What the records of a window add up to *)

Definition templateInputBytes : nat := 1024.

Record TemplateCount := mkTemplate { Template : string; t_Count : Z; t_First : time; t_Last : time }.
Record CategorySummary := mkCatSummary {
  s_Code : string; s_Count : Z; Share : float; s_First : time; s_Last : time; Templates : list TemplateCount
}.
Record categoryAcc := mkAcc { summary : CategorySummary; templates : gmap string TemplateCount }.
Record CategoryCounts := mkCounts { total : Z; byCode : gmap string categoryAcc }.

Definition NewCategoryCounts : CategoryCounts := mkCounts 0 ∅.

Definition widen (first last ts : time) : time * time :=
  (if time_before ts first then ts else first, if time_after ts last then ts else last).

(** [utf8.RuneStart], and the loop of [truncate]. *)
Definition RuneStart (c : ascii) : bool := negb (tail_byte c).

Fixpoint cut_at (n : nat) (s : string) : nat :=
  match n with
  | O => O
  | S n' => match String.get n s with Some c => if RuneStart c then n else cut_at n' s | None => n end
  end.

Definition truncate (s : string) (n : nat) : string :=
  if (String.length s <=? n)%nat then s else String.substring 0 (cut_at n s) s.

Definition template_of (text : string) : string := Display (Sanitize.SQL (truncate text templateInputBytes)).
#[global] Arguments template_of : simpl never.

(** One more of a template, and of a category. *)
Definition count_template (t : TemplateCount) (ts : time) : TemplateCount :=
  let '(first, last) := widen (t_First t) (t_Last t) ts in mkTemplate (Template t) (t_Count t ⊞ 1) first last.

Definition add_template (m : gmap string TemplateCount) (tmpl : string) (ts : time) : gmap string TemplateCount :=
  <[tmpl := count_template (default (mkTemplate tmpl 0 ts ts) (m !! tmpl)) ts]> m.


Definition count_category (acc : categoryAcc) (code text : string) (ts : time) : categoryAcc :=
  let s := summary acc in
  let '(first, last) := widen (s_First s) (s_Last s) ts in
  mkAcc (mkCatSummary (s_Code s) (s_Count s ⊞ 1) (Share s) first last (Templates s))
    (if decide (code = CategoryPlan) then templates acc else add_template (templates acc) (template_of text) ts).

Definition Add (c : CategoryCounts) (code text : string) (ts : time) : CategoryCounts :=
  let acc := default (mkAcc (mkCatSummary code 0 0 ts ts []) ∅) (byCode c !! code) in
  mkCounts (total c ⊞ 1) (<[code := count_category acc code text ts]> (byCode c)).

Definition template_less : TemplateCount → TemplateCount → bool :=
  lex_less (more_on t_Count Z.ltb) (lex_less (more_on t_Last Z.ltb) (less_on Template str_ltb)).
Definition category_less : CategorySummary → CategorySummary → bool :=
  lex_less (more_on s_Count Z.ltb) (less_on s_Code str_ltb).

Section summary.
Context `{MapRange}.

Definition summarize (total : Z) (topTemplates : nat) (acc : categoryAcc) : CategorySummary :=
  let s := summary acc in
  mkCatSummary (s_Code s) (s_Count s) (to_float (s_Count s) / to_float total) (s_First s) (s_Last s)
    (take topTemplates (sort_slice template_less (map_range "Summary.templates" (templates acc)).*2)).

Definition Summary (c : CategoryCounts) (topTemplates : nat) : list CategorySummary :=
  sort_slice category_less (summarize (total c) topTemplates <$> (map_range "Summary.byCode" (byCode c)).*2).
End summary.

Example Detect_plan :
  let d := Detect (("duration: 12.5 ms  plan:" +:+ String (char 10) "") +:+ "Seq Scan on t") " -5 " in
  (Body <$> d, DurationMs <$> d, QueryID <$> d) = (Some "Seq Scan on t", Some 12.5%float, Some (-5)).
Proof. by vm_compute. Qed.

Example Classify_examples :
  (λ r, Classify (mkRecord "postgresql" r.1.1 r.1.2 r.2)) <$>
    [("ERROR", "40P01", "x"); ("ERROR", "", "deadlock detected"); ("LOG", "", "duration: 1.5 ms  plan: x");
     ("LOG", "", "duration: 1.5 ms  statement: SELECT"); ("LOG", "00000", "something"); ("fatal", "", "x")]
  = ["deadlock"; "deadlock"; "plan"; "slow_query"; "other"; "error"].
Proof. by vm_compute. Qed.

(** ** The summary is exact *)

(** A range of times that is the least around the times of a list. *)
Record spans (first last : time) (ts : list time) : Prop := {
  sp_first : first ∈ ts;
  sp_last : last ∈ ts;
  sp_all : Forall (λ t, first ≤ t ≤ last) ts
}.

Lemma spans_one t : spans t t [t].
Proof. split; [by left|by left|]. by repeat constructor. Qed.

Lemma widen_spans first last ts t : spans first last ts →
  spans (widen first last t).1 (widen first last t).2 (ts ++ [t]).
Proof.
  intros [Hf Hl Ha]. unfold widen, time_before, time_after. rewrite list.Forall_forall in Ha. pose proof (Ha _ Hf) as Hlf. cbn [fst snd].
  split.
  - destruct (Z.ltb_spec t first); apply elem_of_app; [right; by left|by left].
  - destruct (Z.ltb_spec last t); apply elem_of_app; [right; by left|by left].
  - apply list.Forall_forall. intros u [Hu|Hu]%elem_of_app.
    + specialize (Ha u Hu). destruct (Z.ltb_spec t first), (Z.ltb_spec last t); lia.
    + apply list_elem_of_singleton in Hu as ->. destruct (Z.ltb_spec t first), (Z.ltb_spec last t); lia.
Qed.

(** The first time of all is widened by itself to begin with. *)
Lemma widen_self t : widen t t t = (t, t).
Proof. unfold widen, time_before, time_after. by rewrite Z.ltb_irrefl. Qed.

(** A record as [Add] takes it: its category, its text, its time. *)
Record entry := mkEntry { e_code : string; e_text : string; e_at : time }.

Definition add_entry (c : CategoryCounts) (e : entry) : CategoryCounts := Add c (e_code e) (e_text e) (e_at e).

Definition fresh_template (e : entry) : TemplateCount := mkTemplate (template_of (e_text e)) 0 (e_at e) (e_at e).
Definition fresh_category (e : entry) : categoryAcc := mkAcc (mkCatSummary (e_code e) 0 0 (e_at e) (e_at e) []) ∅.

Lemma count_succ {A} (l : list A) x : wrap64 (Z.of_nat (length l)) ⊞ 1 = wrap64 (Z.of_nat (length (l ++ [x]))).
Proof. unfold add64. rewrite wrap64_add_l, length_app, Nat2Z.inj_add. done. Qed.

Lemma template_counts e l :
  let t := foldl (λ t e, count_template t (e_at e)) (fresh_template e) (e :: l) in
  Template t = template_of (e_text e) ∧ t_Count t = wrap64 (Z.of_nat (length (e :: l))) ∧ spans (t_First t) (t_Last t) (e_at <$> e :: l).
Proof.
  induction l as [|x l IH] using rev_ind.
  - cbn [foldl]. unfold count_template, fresh_template. cbn [Template t_Count t_First t_Last]. rewrite widen_self.
    cbn [Template t_Count t_First t_Last]. split_and!; [done|done|apply spans_one].
  - rewrite app_comm_cons, foldl_snoc, fmap_app. revert IH. cbn zeta.
    generalize (foldl (λ t e, count_template t (e_at e)) (fresh_template e) (e :: l)). intros t (Ht & Hn & Hs). unfold count_template. pose proof (widen_spans _ _ _ (e_at x) Hs) as Hw.
    destruct (widen (t_First t) (t_Last t) (e_at x)) as [f la]. cbn [fst snd] in Hw. cbn [Template t_Count t_First t_Last].
    split_and!; [done|rewrite Hn|done].
    apply (count_succ (e :: l) x).
Qed.

(** The templates of a list of records. *)
Definition templates_of (es : list entry) : gmap string TemplateCount :=
  (group (λ e, template_of (e_text e)) fresh_template (λ t e, count_template t (e_at e)) es).2.

Lemma templates_of_snoc es e :
  templates_of (es ++ [e]) = add_template (templates_of es) (template_of (e_text e)) (e_at e).
Proof.
  unfold templates_of. by rewrite group_snoc.
Qed.

Lemma category_counts e l : Forall (λ x, e_code x = e_code e) l →
  let acc := foldl (λ acc e, count_category acc (e_code e) (e_text e) (e_at e)) (fresh_category e) (e :: l) in
  let s := summary acc in
  s_Code s = e_code e ∧ s_Count s = wrap64 (Z.of_nat (length (e :: l))) ∧ spans (s_First s) (s_Last s) (e_at <$> e :: l) ∧
  templates acc = (if decide (e_code e = CategoryPlan) then ∅ else templates_of (e :: l)).
Proof.
  induction l as [|x l IH] using rev_ind; intros Hall.
  - cbn [foldl]. unfold count_category, fresh_category. cbn [summary s_Code s_Count s_First s_Last templates]. rewrite widen_self.
    cbn [summary s_Code s_Count s_First s_Last templates]. split_and!; [done|done|apply spans_one|].
    case_decide; [done|]. symmetry. exact (templates_of_snoc [] e).
  - apply Forall_app in Hall as [Hall Hx]. specialize (IH Hall). pose proof (proj1 (Forall_singleton _ _) Hx) as Hcode. cbv beta in Hcode.
    rewrite app_comm_cons, foldl_snoc, fmap_app. revert IH. cbn zeta.
    generalize (foldl (λ acc e, count_category acc (e_code e) (e_text e) (e_at e)) (fresh_category e) (e :: l)).
    intros acc (Hc & Hn & Hs & Ht). unfold count_category. pose proof (widen_spans _ _ _ (e_at x) Hs) as Hw.
    destruct (widen _ _ _) as [f la]. cbn [fst snd] in Hw. cbn [summary s_Code s_Count s_First s_Last templates]. rewrite Hcode. split_and!; [done|rewrite Hn|done|].
    + apply (count_succ (e :: l) x).
    + rewrite Ht. case_decide; [done|]. by rewrite (templates_of_snoc (e :: l) x).
Qed.

(** The accumulator holds exactly the records of each category. *)
Definition counts_of (es : list entry) : gmap string categoryAcc :=
  (group e_code fresh_category (λ acc e, count_category acc (e_code e) (e_text e) (e_at e)) es).2.

Lemma counts_fold es :
  foldl add_entry NewCategoryCounts es = mkCounts (wrap64 (Z.of_nat (length es))) (counts_of es).
Proof.
  induction es as [|e es IH] using rev_ind; [done|]. rewrite foldl_snoc, IH, <- (count_succ es e).
  unfold add_entry, Add. cbn [total byCode]. f_equal. unfold counts_of. by rewrite group_snoc.
Qed.

Lemma counts_of_lookup es code :
  match members e_code code es with
  | [] => counts_of es !! code = None
  | e :: l => ∃ acc, counts_of es !! code = Some acc ∧
      let s := summary acc in
      s_Code s = code ∧ s_Count s = wrap64 (Z.of_nat (length (e :: l))) ∧ spans (s_First s) (s_Last s) (e_at <$> e :: l) ∧
      templates acc = (if decide (code = CategoryPlan) then ∅ else templates_of (e :: l))
  end.
Proof.
  unfold counts_of. rewrite (proj2 (group_spec e_code _ _ es)). destruct (members e_code code es) as [|e l] eqn:Hm; [done|].
  eexists. split; [done|]. assert (Hall : Forall (λ x, e_code x = code) (e :: l)).
  { apply list.Forall_forall. intros x Hx. rewrite <- Hm in Hx. by apply elem_of_members in Hx as [Hx _]. }
  apply Forall_cons in Hall as [He Hl]. subst code. by apply category_counts.
Qed.

(** What a template of a list of records must say. *)
Definition template_exact (es : list entry) (t : TemplateCount) : Prop :=
  let same := filter (λ e, template_of (e_text e) = Template t) es in
  same ≠ [] ∧ t_Count t = wrap64 (Z.of_nat (length same)) ∧ spans (t_First t) (t_Last t) (e_at <$> same).

Lemma templates_of_lookup es k :
  match members (λ e, template_of (e_text e)) k es with
  | [] => templates_of es !! k = None
  | e :: l => ∃ t, templates_of es !! k = Some t ∧ Template t = k ∧ template_exact es t
  end.
Proof.
  unfold templates_of. rewrite (proj2 (group_spec (λ e, template_of (e_text e)) _ _ es)).
  destruct (members _ k es) as [|e l] eqn:Hm; [done|]. eexists. split; [done|].
  destruct (template_counts e l) as (Ht & Hn & Hs).
  assert (He : template_of (e_text e) = k).
  { assert (Hin : e ∈ members (λ e, template_of (e_text e)) k es) by (rewrite Hm; left). by apply elem_of_members in Hin as [Hin _]. }
  cbn zeta in *. rewrite He in Ht. split; [done|]. unfold template_exact. rewrite Ht.
  change (filter (λ e, template_of (e_text e) = k) es) with (members (λ e, template_of (e_text e)) k es). rewrite Hm. done.
Qed.

#[global] Instance template_less_strict : StrictWeak template_less.
Proof. unfold template_less. apply _. Qed.
#[global] Instance category_less_strict : StrictWeak category_less.
Proof. unfold category_less. apply _. Qed.
#[global] Instance template_less_separates : Separates template_less Template.
Proof. unfold template_less. apply _. Qed.
#[global] Instance category_less_separates : Separates category_less s_Code.
Proof. unfold category_less. apply _. Qed.

(** What one line of the summary must say about the records of its category. *)
Record category_exact (es : list entry) (top : nat) (s : CategorySummary) : Prop := {
  ce_some : members e_code (s_Code s) es ≠ [];
  ce_count : s_Count s = wrap64 (Z.of_nat (length (members e_code (s_Code s) es)));
  ce_share : Share s = (to_float (s_Count s) / to_float (wrap64 (Z.of_nat (length es))))%float;
  ce_span : spans (s_First s) (s_Last s) (e_at <$> members e_code (s_Code s) es);
  ce_templates : ∃ all : list TemplateCount,
    Templates s = take top all ∧ strictly template_less all ∧
    if decide (s_Code s = CategoryPlan) then all = []
    else Forall (template_exact (members e_code (s_Code s) es)) all ∧
         ∀ e, e ∈ members e_code (s_Code s) es → template_of (e_text e) ∈ Template <$> all
}.

Lemma summarize_templates `{MapRange} es top s acc :
  templates acc = (if decide (s = CategoryPlan) then ∅ else templates_of es) → ∃ all,
  take top (sort_slice template_less (map_range "Summary.templates" (templates acc)).*2) = take top all ∧ strictly template_less all ∧
  if decide (s = CategoryPlan) then all = []
  else Forall (template_exact es) all ∧ ∀ e, e ∈ es → template_of (e_text e) ∈ Template <$> all.
Proof.
  intros ->. exists (sort_slice template_less (map_range "Summary.templates" (if decide (s = CategoryPlan) then ∅ else templates_of es)).*2).
  split; [done|]. case_decide as Hp; [rewrite !map_range_empty; by split; [constructor|]|].
  assert (Hkey : Forall (λ kt, kt.1 = Template kt.2 ∧ template_exact es kt.2) (map_range "Summary.templates" (templates_of es))).
  { apply list.Forall_forall. intros [k t] Hin%elem_of_map_range. cbn. pose proof (templates_of_lookup es k) as Hl.
    destruct (members _ k es); [by rewrite Hl in Hin|]. destruct Hl as (t' & Ht & Hk & Hx). rewrite Ht in Hin. by injection Hin as <-. }
  split_and!.
  - apply (sort_slice_strictly template_less Template). rewrite <- list_fmap_compose.
    rewrite (list_fmap_ext (Template ∘ snd) fst (map_range "Summary.templates" (templates_of es))); [apply map_range_nodup|].
    intros i kt Hi. rewrite list.Forall_forall in Hkey. symmetry. apply Hkey. by eapply list_elem_of_lookup_2.
  - rewrite sort_slice_perm. apply Forall_fmap. eapply Forall_impl; [exact Hkey|]. by intros kt [_ ?].
  - intros e He. rewrite sort_slice_perm, <- list_fmap_compose. pose proof (templates_of_lookup es (template_of (e_text e))) as Hl.
    destruct (members _ _ es) eqn:Hm.
    { apply members_nil in Hm. destruct Hm. by apply (list_elem_of_fmap_2 (λ e, template_of (e_text e))). }
    destruct Hl as (t & Ht & Hk & _). rewrite <- Hk. apply (list_elem_of_fmap_2 (Template ∘ snd) _ (template_of (e_text e), t)).
    by apply elem_of_map_range.
Qed.

(** C27: Whatever records of a window are counted, the summary has one line for every category
    that occurs and no other, the most frequent first: with the number of its records,
    their share, the times of the first and the last of them, and, but for plans, the most
    frequent of their templates, each counted exactly. *)
Theorem Summary_exact `{MapRange} es top :
  let out := Summary (foldl add_entry NewCategoryCounts es) top in
  (s_Code <$> out) ≡ₚ firsts (e_code <$> es) ∧ strictly category_less out ∧ Forall (category_exact es top) out.
Proof.
  cbn zeta. rewrite counts_fold. unfold Summary. cbn [total byCode]. set (n := wrap64 _).
  set (l := map_range "Summary.byCode" (counts_of es)).
  assert (Hl : Forall (λ ka, s_Code (summary ka.2) = ka.1 ∧ category_exact es top (summarize n top ka.2)) l).
  { apply list.Forall_forall. intros [k acc] Hin%elem_of_map_range. pose proof (counts_of_lookup es k) as Hk.
    destruct (members e_code k es) as [|e r] eqn:Hm; [by rewrite Hk in Hin|]. destruct Hk as (acc' & Ha & Hc & Hn & Hs & Ht).
    rewrite Ha in Hin. injection Hin as ->. cbn [fst snd]. split; [done|].
    constructor; unfold summarize; cbn zeta; cbn [s_Code s_Count Share s_First s_Last Templates]; rewrite ?Hc, ?Hm; [done|done|done|done|].
    by apply summarize_templates. }
  assert (Hcodes : (s_Code <$> (summarize n top <$> l.*2)) = l.*1).
  { rewrite <- !list_fmap_compose. apply list_fmap_ext. intros i ka Hi. rewrite list.Forall_forall in Hl.
    destruct (Hl ka) as [Hc _]; [by eapply list_elem_of_lookup_2|]. exact Hc. }
  assert (Hnd : NoDup l.*1) by apply map_range_nodup. split_and!.
  - rewrite sort_slice_perm, Hcodes. apply NoDup_Permutation; [done|apply firsts_nodup|]. intros k.
    rewrite elem_of_firsts. pose proof (counts_of_lookup es k) as Hk. destruct (members e_code k es) as [|e r] eqn:Hm.
    + apply members_nil in Hm. split; [|done]. intros ([k' acc] & -> & Hin%elem_of_map_range)%list_elem_of_fmap. cbn in *. by rewrite Hin in Hk.
    + destruct Hk as (acc & Ha & _). split; [intros _|intros _; apply (list_elem_of_fmap_2 fst _ (k, acc)); by apply elem_of_map_range].
      assert (He : e ∈ members e_code k es) by (rewrite Hm; left). apply elem_of_members in He as [<- He].
      by apply list_elem_of_fmap_2.
  - apply (sort_slice_strictly category_less s_Code). by rewrite Hcodes.
  - rewrite sort_slice_perm. apply Forall_fmap, Forall_fmap. eapply Forall_impl; [exact Hl|]. by intros ka [_ ?].
Qed.
