(* ===== verification/LogPlans.v ===== *)
(** * [internal/logs/insights/plans.go]: the plans of one window

    Records of auto_explain are parsed, within a budget, and grouped by statement and shape;
    a summary ranks the groups by the time they took and runs the rules on the slowest plan
    of each. The summary masks the texts of the sample plans; here it does so in what it
    returns. *)

From Stdlib Require Import Ascii.
From S2P Require Import Prelude GoSlices GoFloat GoFloatOrder GoFmt PatroniLayout Sqlparse Sanitize GoStrings ExplainPlan ExplainRules ExplainText LogPattern LogInsights.
From stdpp Require Import options.

#[local] Set Warnings "-register-all".
#[local] Open Scope string_scope.
#[local] Open Scope Z_scope.
#[local] Open Scope list_scope.

Definition CodePlanTooLarge : string := "plan_too_large".
Definition CodePlanBudgetExhausted : string := "plan_budget_exhausted".

(** [explain.Error.Code]. *)
Definition code_string (c : code) : string :=
  match c with
  | CodeUnsupportedFormat => "unsupported_plan_format"
  | CodeEmptyPlan => "empty_plan"
  | CodeParseError => "parse_error"
  end.

(** ** Data *)

Record PlanLimits := mkLimits { MaxPlanBytes : Z; MaxPlans : Z }.
Record DurationStats := mkStats { Min : float; P50 : float; P95 : float; Max : float; Sum : float }.
Definition no_stats : DurationStats := mkStats 0 0 0 0 0.

Record PlanGroup := mkGroup {
  Ord : Z; g_QueryID : Z; g_HasQueryID : bool; g_Hash : string; g_Count : Z; Durations : DurationStats; g_First : time;
  g_Last : time; g_Sample : Plan; g_Findings : list Finding; g_Dormant : list Dormant
}.

(** A nil list of indexes is [None]: the row says nothing of them. *)
Record GroupRow := mkRow {
  row_Ord : Z; row_QueryID : Z; row_HasQueryID : bool; row_Hash : string; row_Count : Z; row_Durations : DurationStats;
  row_First : time; row_Last : time; row_QueryText : string; row_Indexes : option (list string); row_Findings : list Finding;
  row_Dormant : list Dormant
}.

(** The indexes a plan reads, each once. *)
Definition planIndexes (p : Plan) : list string :=
  Walk p (λ _ n out, (true, if decide (IndexName (data n) = "") then out else appendUnique out (IndexName (data n)))) [].

Definition Row (g : PlanGroup) : GroupRow :=
  mkRow (Ord g) (g_QueryID g) (g_HasQueryID g) (g_Hash g) (g_Count g) (Durations g) (g_First g) (g_Last g)
    (QueryText (g_Sample g)) (Some (planIndexes (g_Sample g))) (g_Findings g) (g_Dormant g).

Definition WithPlan (r : GroupRow) (p : Plan) : PlanGroup :=
  mkGroup (row_Ord r) (row_QueryID r) (row_HasQueryID r) (row_Hash r) (row_Count r) (row_Durations r) (row_First r) (row_Last r)
    p (row_Findings r) (row_Dormant r).

Record NotParsed := mkNotParsed { np_Code : string; np_Count : Z }.
Record DormantRule := mkDormantRule { dr_Code : string; dr_Missing : list string; dr_Groups : Z }.
Record PlansSummary := mkPlansSummary {
  Records : Z; Parsed : Z; NotParsed_ : list NotParsed; WithoutQueryID : Z; TotalGroups : Z; TotalDurationMs : float;
  MaxDurationMs : float; ps_First : time; ps_Last : time; Groups : list PlanGroup; ps_Dormant : list DormantRule;
  BudgetExhausted : bool
}.
Record PlanWindow := mkWindow { w_Groups : list PlanGroup; Partial : bool; PlanRecords : Z }.

(** The query id, whether there is one, the hash of the shape, the normalized text. *)
Definition planKey : Type := Z * bool * string * string.
Record planAcc := mkPlanAcc { acc_group : PlanGroup; acc_durations : list float }.
Record Plans := mkPlans {
  limits : PlanLimits; records : Z; attempted : Z; parsed : Z; noQueryID : Z; notParsed : gmap string Z;
  groups : gmap planKey planAcc; exhausted : bool
}.

Definition NewPlans (l : PlanLimits) : Plans := mkPlans l 0 0 0 0 ∅ ∅ false.

Definition set_Duration v p : Plan := ltac:(set_plan Duration v p).

Section plans.
Context `{PlanJSON} (digest : string → string).

(** ** Adding a record *)

(** The plan of a record as it is kept, and the key of its group. *)
Definition kept_plan (rec : PlanRecord) (p : Plan) : Plan :=
  let p := set_HasQueryID (HasQueryID rec) (set_QueryID (QueryID rec) p) in
  let p := set_Duration (Some (DurationMs rec)) p in
  set_QueryText (Sanitize.SQL (QueryText p)) p.

Definition key_of (rec : PlanRecord) (p : Plan) : planKey :=
  (QueryID rec, HasQueryID rec, Hash digest (Root p), Key (QueryText p)).

Definition new_group (k : planKey) (rec : PlanRecord) (p : Plan) (ts : time) : planAcc :=
  mkPlanAcc (mkGroup 0 (QueryID rec) (HasQueryID rec) k.1.2 0 no_stats ts ts p [] []) [].

Definition sample_ms (g : PlanGroup) : float := default 0%float (Duration (g_Sample g)).

Definition add_plan (a : planAcc) (rec : PlanRecord) (p : Plan) (ts : time) : planAcc :=
  let g := acc_group a in
  let '(first, last) := widen (g_First g) (g_Last g) ts in
  mkPlanAcc
    (mkGroup (Ord g) (g_QueryID g) (g_HasQueryID g) (g_Hash g) (g_Count g ⊞ 1) (Durations g) first last
       (if (sample_ms g <? DurationMs rec)%float then p else g_Sample g) (g_Findings g) (g_Dormant g))
    (acc_durations a ++ [DurationMs rec]).

Definition Add (a : Plans) (rec : PlanRecord) (ts : time) : Plans :=
  let n := records a ⊞ 1 in
  if (0 <? MaxPlanBytes (limits a)) && (MaxPlanBytes (limits a) <? Z.of_nat (String.length (Body rec))) then
    mkPlans (limits a) n (attempted a) (parsed a) (noQueryID a) (tally_add (notParsed a) CodePlanTooLarge 1) (groups a) (exhausted a)
  else if (0 <? MaxPlans (limits a)) && (MaxPlans (limits a) <=? attempted a) then
    mkPlans (limits a) n (attempted a) (parsed a) (noQueryID a) (tally_add (notParsed a) CodePlanBudgetExhausted 1) (groups a) true
  else
    let tried := attempted a ⊞ 1 in
    match Parse (Body rec) SourceLog with
    | inl err =>
        mkPlans (limits a) n tried (parsed a) (noQueryID a) (tally_add (notParsed a) (code_string (e_Code err)) 1) (groups a) (exhausted a)
    | inr p =>
        let p := kept_plan rec p in
        let k := key_of rec p in
        let acc := default (new_group k rec p ts) (groups a !! k) in
        mkPlans (limits a) n tried (parsed a ⊞ 1) (if HasQueryID rec then noQueryID a else noQueryID a ⊞ 1) (notParsed a)
          (<[k := add_plan acc rec p ts]> (groups a)) (exhausted a)
    end.

(** ** The summary *)

(** The nearest rank: [sorted[max(ceil(q*n)-1, 0)]]. *)
Definition rank (sorted : list float) (q : float) : float :=
  let i := to_int (math_ceil (q * to_float (Z.of_nat (length sorted)))) - 1 in
  default nan (sorted !! Z.to_nat (Z.max i 0)).

Definition durationStats (ds : list float) : DurationStats :=
  match ds with
  | [] => no_stats
  | _ =>
      let sorted := sort_slice float_less ds in
      mkStats (default nan (head sorted)) (rank sorted 0.5) (rank sorted 0.95) (default nan (last sorted))
        (foldl (λ s d, (s + d)%float) 0%float sorted)
  end.

Definition mask_data (d : node_data) : node_data :=
  set_JoinFilter (Sanitize.SQL (JoinFilter d)) (set_MergeCond (Sanitize.SQL (MergeCond d)) (set_HashCond (Sanitize.SQL (HashCond d))
    (set_RecheckCond (Sanitize.SQL (RecheckCond d)) (set_IndexCond (Sanitize.SQL (IndexCond d)) (set_Filter (Sanitize.SQL (n_Filter d)) d))))).

Fixpoint mask_node (n : Node) : Node := mkNode (mask_data (data n)) (mask_node <$> Children n).

Definition maskPlan (p : Plan) : Plan :=
  set_Root (mask_node (Root p))
    (set_QueryParams (Sanitize.SQL (QueryParams p)) (set_QueryText (Sanitize.SQL (QueryText p)) p)).

(** A group as the summary shows it. *)
Definition finish (env : Context_) (a : planAcc) : PlanGroup :=
  let g := acc_group a in
  let sample := maskPlan (g_Sample g) in
  let '(findings, dormant) := Evaluate sample env in
  mkGroup (Ord g) (g_QueryID g) (g_HasQueryID g) (g_Hash g) (g_Count g) (durationStats (acc_durations a)) (g_First g) (g_Last g)
    sample findings dormant.

Definition add_dormant (m : gmap string DormantRule) (d : Dormant) : gmap string DormantRule :=
  let rule := default (mkDormantRule (d_Code d) [] 0) (m !! d_Code d) in
  <[d_Code d := mkDormantRule (dr_Code rule) (foldl appendUnique (dr_Missing rule) (Missing d)) (dr_Groups rule ⊞ 1)]> m.

Definition not_parsed_less : NotParsed → NotParsed → bool := lex_less (more_on np_Count Z.ltb) (less_on np_Code str_ltb).

Definition group_less : PlanGroup → PlanGroup → bool :=
  lex_less (more_on (λ g, Sum (Durations g)) float_less) (lex_less (more_on (λ g, Max (Durations g)) float_less)
    (lex_less (more_on g_Count Z.ltb) (lex_less (less_on g_Hash str_ltb)
      (lex_less (less_on g_QueryID Z.ltb) (less_on (λ g, QueryText (g_Sample g)) str_ltb))))).

Definition set_Ord (i : Z) (g : PlanGroup) : PlanGroup :=
  mkGroup i (g_QueryID g) (g_HasQueryID g) (g_Hash g) (g_Count g) (Durations g) (g_First g) (g_Last g) (g_Sample g) (g_Findings g)
    (g_Dormant g).

Context `{MapRange}.

(** What the loop over the groups gathers beside them: the two times, the range. *)
Definition window_step (w : float * float * option (time * time)) (g : PlanGroup) : float * float * option (time * time) :=
  let '(sum, longest, range) := w in
  ((sum + Sum (Durations g))%float, go_max longest (Max (Durations g)),
   Some (match range with
         | None => (g_First g, g_Last g)
         | Some (f, l) => let '(f, l) := widen f l (g_First g) in widen f l (g_Last g)
         end)).

Definition Summary (a : Plans) (env : Context_) : PlansSummary :=
  let gs := finish env <$> (map_range "Summary.groups" (groups a)).*2 in
  let dormant := foldl (λ m g, foldl add_dormant m (g_Dormant g)) ∅ gs in
  let '(sum, longest, range) := foldl window_step (0%float, 0%float, None) gs in
  mkPlansSummary (records a) (parsed a)
    (sort_slice not_parsed_less ((λ cn, mkNotParsed cn.1 cn.2) <$> map_range "Summary.notParsed" (notParsed a)))
    (noQueryID a) (Z.of_nat (base.size (groups a))) sum longest
    (from_option fst zero_time range) (from_option snd zero_time range)
    (imap (λ i g, set_Ord (Z.of_nat i) g) (sort_slice group_less gs))
    (sort_slice (less_on dr_Code str_ltb) (map_range "Summary.dormant" dormant).*2) (exhausted a).
End plans.

(** ** The groups a response carries *)

(** The loop that marks: the [i]-th group of one ranking, then the [i]-th of the other. *)
Definition mark (st : list bool * Z) (i : nat) : list bool * Z :=
  let '(keep, kept) := st in
  match keep !! i with Some false => (<[i := true]> keep, kept + 1) | _ => (keep, kept) end.

Fixpoint mark_all (top : Z) (byMax : list nat) (i : nat) (todo : list nat) (st : list bool * Z) : list bool * Z :=
  match todo with
  | [] => st
  | _ :: todo =>
      if top <=? st.2 then st
      else
        let st := mark st i in
        let st := if st.2 <? top then match byMax !! i with Some j => mark st j | None => st end else st in
        mark_all top byMax (S i) todo st
  end.

Definition TopGroups (gs : list PlanGroup) (top : Z) : list PlanGroup :=
  if (top <=? 0) || (Z.of_nat (length gs) <=? top) then gs
  else
    let max_of i := from_option (λ g, Max (Durations g)) 0%float (gs !! i) in
    let byMax := sort_stable (more_on max_of float_less) (seq 0 (length gs)) in
    let '(keep, _) := mark_all top byMax 0 (seq 0 (length gs)) (replicate (length gs) false, 0) in
    omap (λ kg : bool * PlanGroup, if kg.1 then Some kg.2 else None) (zip keep gs).
