(* ===== verification/LogPlansSound.v ===== *)
(** * What the plans of a window add up to

    Every record of auto_explain is either counted under the reason it was not read or in
    the group of its statement and shape, and the summary says of each group exactly what
    its records say. *)

From Stdlib Require Import Ascii.
From S2P Require Import Prelude GoSlices GoFloat GoFloatOrder GoFloatInt GoFmt PatroniLayout Sqlparse Sanitize GoStrings ExplainPlan ExplainRules ExplainText LogPattern LogInsights LogPlans.
From stdpp Require Import options.

#[local] Set Warnings "-register-all".
#[local] Open Scope string_scope.
#[local] Open Scope Z_scope.
#[local] Open Scope list_scope.

(** ** What becomes of each record *)

(** A record that was read, when it was logged, and its plan. *)
Record reading := mkReading { rd_rec : PlanRecord; rd_at : time; rd_plan : Plan }.

Inductive verdict := Refused (code : string) | Read (x : reading).

Definition too_large (l : PlanLimits) (rec : PlanRecord) : bool :=
  (0 <? MaxPlanBytes l) && (MaxPlanBytes l <? Z.of_nat (String.length (Body rec))).
Definition no_budget (l : PlanLimits) (tried : Z) : bool := (0 <? MaxPlans l) && (MaxPlans l <=? tried).

Section sound.
Context `{PlanJSON} (digest : string → string) (lim : PlanLimits).

(** A record that is too large is not tried; the rest are, until the budget is spent. *)
Definition judge (tried : Z) (r : PlanRecord * time) : verdict :=
  if too_large lim r.1 then Refused CodePlanTooLarge
  else if no_budget lim tried then Refused CodePlanBudgetExhausted
  else
    match Parse (Body r.1) SourceLog with
    | inl err => Refused (code_string (e_Code err))
    | inr p => Read (mkReading r.1 r.2 (kept_plan r.1 p))
    end.

(** How many of the first records were tried. *)
Definition tried_of (recs : list (PlanRecord * time)) : Z :=
  let fits := Z.of_nat (length (filter (λ r, too_large lim r.1 = false) recs)) in
  if 0 <? MaxPlans lim then Z.min (MaxPlans lim) fits else fits.

Definition verdicts (recs : list (PlanRecord * time)) : list verdict :=
  imap (λ i r, judge (tried_of (take i recs)) r) recs.

Definition readings (recs : list (PlanRecord * time)) : list reading :=
  omap (λ v, match v with Read x => Some x | Refused _ => None end) (verdicts recs).
Definition refusals (recs : list (PlanRecord * time)) : list string :=
  omap (λ v, match v with Refused c => Some c | Read _ => None end) (verdicts recs).

Definition reading_key (x : reading) : planKey := key_of digest (rd_rec x) (rd_plan x).

Lemma verdicts_snoc recs r : verdicts (recs ++ [r]) = verdicts recs ++ [judge (tried_of recs) r].
Proof.
  unfold verdicts. rewrite imap_app. cbn [imap]. rewrite Nat.add_0_r, take_app_length. f_equal.
  apply imap_ext. intros i x Hi. by rewrite take_app_le by (apply lookup_lt_Some in Hi; lia).
Qed.

Lemma tried_snoc recs r : 0 <= tried_of recs ∧
  tried_of (recs ++ [r]) = if too_large lim r.1 || no_budget lim (tried_of recs) then tried_of recs else tried_of recs + 1.
Proof.
  unfold tried_of, no_budget. rewrite filter_app, length_app. rewrite filter_cons, filter_nil.
  destruct (too_large lim r.1); cbn [orb].
  - rewrite decide_False by done. cbn [length]. rewrite Nat.add_0_r. split; [|done]. destruct (Z.ltb_spec 0 (MaxPlans lim)); lia.
  - rewrite decide_True by done. cbn [length]. rewrite Nat2Z.inj_add. destruct (Z.ltb_spec 0 (MaxPlans lim)); cbn [andb]; [|lia].
    split; [lia|]. destruct (Z.leb_spec (MaxPlans lim) (Z.min (MaxPlans lim) (Z.of_nat (length (filter (λ r, too_large lim r.1 = false) recs))))); lia.
Qed.

Lemma tried_le recs : tried_of recs ≤ Z.of_nat (length recs).
Proof.
  unfold tried_of. pose proof (length_filter (λ r, too_large lim r.1 = false) recs).
  destruct (0 <? MaxPlans lim); lia.
Qed.

(** ** The accumulator *)

(** A group as the loop makes it. *)
Definition start (x : reading) : planAcc := new_group (reading_key x) (rd_rec x) (rd_plan x) (rd_at x).
Definition grow (a : planAcc) (x : reading) : planAcc := add_plan a (rd_rec x) (rd_plan x) (rd_at x).

Definition accumulated (recs : list (PlanRecord * time)) : Plans :=
  mkPlans lim (Z.of_nat (length recs)) (tried_of recs) (Z.of_nat (length (readings recs)))
    (Z.of_nat (length (filter (λ x, HasQueryID (rd_rec x) = false) (readings recs)))) (tally (refusals recs))
    (group reading_key start grow (readings recs)).2 (bool_decide (CodePlanBudgetExhausted ∈ refusals recs)).

Lemma code_not_budget c : code_string c ≠ CodePlanBudgetExhausted.
Proof. by destruct c. Qed.

Lemma readings_length recs : (length (readings recs) + length (refusals recs) = length recs)%nat.
Proof.
  unfold readings, refusals. transitivity (length (verdicts recs)); [|unfold verdicts; by rewrite length_imap].
  induction (verdicts recs) as [|[c|x] vs IH]; cbn; [done|..]; lia.
Qed.

Lemma Add_accumulated recs r : Z.of_nat (length (recs ++ [r])) < 2 ^ 63 →
  Add digest (accumulated recs) r.1 r.2 = accumulated (recs ++ [r]).
Proof.
  intros Hb. pose proof (verdicts_snoc recs r) as Hv. destruct (tried_snoc recs r) as [Ht0 Ht].
  pose proof (tried_le recs) as Htl. pose proof (readings_length recs) as Hrl. rewrite length_app in Hb. cbn [length] in Hb.
  pose proof (length_filter (λ x, HasQueryID (rd_rec x) = false) (readings recs)) as Hf.
  assert (Hinc : ∀ z, 0 ≤ z ≤ Z.of_nat (length recs) → z ⊞ 1 = z + 1).
  { intros z Hz. apply add64_small. unfold int64, min64, max64. lia. }
  assert (Hlen : Z.of_nat (length recs) ⊞ 1 = Z.of_nat (length (recs ++ [r]))).
  { rewrite length_app, Hinc by lia. cbn [length]. lia. }
  unfold Add, accumulated. cbn [limits records attempted parsed noQueryID notParsed groups exhausted]. rewrite Hlen.
  change ((0 <? MaxPlanBytes lim) && _) with (too_large lim r.1). change ((0 <? MaxPlans lim) && _) with (no_budget lim (tried_of recs)).
  unfold readings, refusals in *. rewrite Hv, !omap_app, Ht. unfold judge.
  destruct (too_large lim r.1); cbn [orb]; [|destruct (no_budget lim (tried_of recs)) eqn:Hnb; [|destruct (Parse (Body r.1) SourceLog) as [err|p]]].
  all: cbn [omap list_omap]; rewrite ?app_nil_r; unfold tally; rewrite ?foldl_snoc; fold tally.
  - f_equal. apply bool_decide_ext. rewrite elem_of_app, list_elem_of_singleton. split; [by left|]. by intros [?|?].
  - f_equal. symmetry. apply bool_decide_eq_true_2, elem_of_app. right. by left.
  - rewrite Hinc by lia. f_equal. apply bool_decide_ext. rewrite elem_of_app, list_elem_of_singleton. split; [by left|].
    intros [?|Hc]; [done|]. by destruct (code_not_budget (e_Code err)).
  - rewrite !Hinc by lia. rewrite filter_app, !length_app, group_snoc. cbn [length]. f_equal; [by rewrite Nat2Z.inj_add|].
    rewrite filter_cons, filter_nil. cbn [rd_rec]. destruct (HasQueryID r.1); [rewrite decide_False by done|rewrite decide_True by done]; cbn [length]; lia.
Qed.

Lemma Add_fold recs : Z.of_nat (length recs) < 2 ^ 63 →
  foldl (λ a r, Add digest a r.1 r.2) (NewPlans lim) recs = accumulated recs.
Proof.
  induction recs as [|r recs IH] using rev_ind; intros Hb.
  - cbn [foldl]. unfold accumulated. assert (tried_of [] = 0) as ->; [|done].
    unfold tried_of. rewrite filter_nil. change (Z.of_nat (length [])) with 0. destruct (Z.ltb_spec 0 (MaxPlans lim)); lia.
  - rewrite foldl_snoc, IH by (rewrite length_app in Hb; lia). by apply Add_accumulated.
Qed.
End sound.

(** ** The statistics of a group *)

(** The durations in order, with the least and the greatest, the median and the 95th percentile at
    their nearest ranks, the half and 19 twentieths of the count rounded up, and the sum in that order. *)
Record stats_exact (ds : list float) (s : DurationStats) (sorted : list float) : Prop := {
  se_sorted : sorted ≡ₚ ds ∧ StronglySorted (λ a b, float_less b a = false) sorted;
  se_ranks : let n := Z.of_nat (length ds) in
    sorted !! 0%nat = Some (Min s) ∧ sorted !! Z.to_nat ((n + 1) / 2 - 1) = Some (P50 s) ∧
    sorted !! Z.to_nat ((19 * n + 19) / 20 - 1) = Some (P95 s) ∧ last sorted = Some (Max s);
  se_sum : Sum s = foldl (λ s d, (s + d)%float) 0%float sorted
}.

Lemma rank_at sorted q k : to_int (math_ceil (q * to_float (Z.of_nat (length sorted)))) = k → 1 ≤ k ≤ Z.of_nat (length sorted) →
  sorted !! Z.to_nat (k - 1) = Some (rank sorted q).
Proof.
  intros Hk Hb. unfold rank. rewrite Hk, Z.max_l by lia.
  destruct (lookup_lt_is_Some_2 sorted (Z.to_nat (k - 1)) ltac:(lia)) as [v Hv]. by rewrite Hv.
Qed.

Lemma durationStats_exact ds : ds ≠ [] → Z.of_nat (length ds) < 2 ^ 47 → stats_exact ds (durationStats ds) (sort_slice float_less ds).
Proof.
  intros Hne Hb. pose proof (sort_slice_perm float_less ds) as Hp. pose proof (sort_slice_sorted float_less ds) as Hs.
  unfold durationStats. destruct ds as [|d0 ds]; [done|]. set (l := sort_slice float_less (d0 :: ds)) in *.
  assert (Hlen : length l = length (d0 :: ds)) by by rewrite Hp. clearbody l.
  assert (Hn : 0 < Z.of_nat (length (d0 :: ds)) < 2 ^ 47) by (cbn [length] in *; lia).
  constructor; [done| |done]. cbn [Min P50 P95 Max]. rewrite <- Hlen in *. split_and!.
  - by destruct l.
  - apply rank_at; [by apply ceil_half|]. pose proof (Z.div_mod (Z.of_nat (length l) + 1) 2 ltac:(done)).
    pose proof (Z.mod_pos_bound (Z.of_nat (length l) + 1) 2 ltac:(done)). lia.
  - apply rank_at; [by apply ceil_95|]. pose proof (Z.div_mod (19 * Z.of_nat (length l) + 19) 20 ltac:(done)).
    pose proof (Z.mod_pos_bound (19 * Z.of_nat (length l) + 19) 20 ltac:(done)). lia.
  - destruct (last l) as [y|] eqn:Hy; [done|]. apply last_None in Hy as ->. done.
Qed.

(** ** The groups *)

(** The plan of the first of the slowest records. *)
Definition slowest (es : list reading) (p : Plan) : Prop :=
  ∃ x, x ∈ es ∧ p = rd_plan x ∧ Forall (λ z, (DurationMs (rd_rec x) <? DurationMs (rd_rec z))%float = false) es.

Definition timed (x : reading) : Prop := Duration (rd_plan x) = Some (DurationMs (rd_rec x)).

Record grown (digest : string → string) (x : reading) (es : list reading) (a : planAcc) : Prop := {
  gr_id : let g := acc_group a in
    (Ord g, g_QueryID g, g_HasQueryID g, g_Hash g, g_Findings g, g_Dormant g) =
    (0, QueryID (rd_rec x), HasQueryID (rd_rec x), (reading_key digest x).1.2, [], []);
  gr_count : g_Count (acc_group a) = wrap64 (Z.of_nat (length es));
  gr_span : spans (g_First (acc_group a)) (g_Last (acc_group a)) (rd_at <$> es);
  gr_durations : acc_durations a = (λ y, DurationMs (rd_rec y)) <$> es;
  gr_sample : slowest es (g_Sample (acc_group a)) ∧ Duration (g_Sample (acc_group a)) ≠ None
}.

Lemma slowest_step es x p ms : slowest es p → Forall timed es → Duration p = Some ms → timed x →
  slowest (es ++ [x]) (if (ms <? DurationMs (rd_rec x))%float then rd_plan x else p).
Proof.
  intros (y & Hy & -> & Hall) Htm Hms Hx. rewrite list.Forall_forall in Htm. specialize (Htm y Hy). unfold timed in Htm. rewrite Htm in Hms.
  injection Hms as <-. destruct (DurationMs (rd_rec y) <? DurationMs (rd_rec x))%float eqn:Hlt.
  - exists x. split; [apply elem_of_app; right; by left|]. split; [done|]. apply Forall_app. split; [|apply Forall_singleton, flt_irrefl].
    eapply Forall_impl; [exact Hall|]. cbn. intros z Hz. destruct (DurationMs (rd_rec x) <? DurationMs (rd_rec z))%float eqn:Hxz; [|done].
    by rewrite (flt_trans _ _ _ Hlt Hxz) in Hz.
  - exists y. split; [apply elem_of_app; by left|]. split; [done|]. apply Forall_app. split; [done|]. by apply Forall_singleton.
Qed.

Lemma grown_grow digest x es a y : grown digest x es a → Forall timed es → timed y → grown digest x (es ++ [y]) (grow a y).
Proof.
  intros [Hid Hn Hs Hd [Hsl Hsome]] Htm Hy. pose proof (widen_spans _ _ _ (rd_at y) Hs) as Hw. unfold grow, add_plan.
  destruct (Duration (g_Sample (acc_group a))) as [ms|] eqn:Hms; [|done].
  destruct (widen _ _ (rd_at y)) as [f l]. cbn [fst snd] in Hw. constructor; cbn [acc_group acc_durations Ord g_QueryID g_HasQueryID
    g_Hash g_Count g_First g_Last g_Sample g_Findings g_Dormant].
  - exact Hid.
  - rewrite Hn. apply count_succ.
  - by rewrite fmap_app.
  - by rewrite Hd, fmap_app.
  - unfold sample_ms. rewrite Hms. cbn [default from_option id]. split; [by apply slowest_step|]. unfold timed in Hy.
    destruct (_ <? _)%float; [by rewrite Hy|by rewrite Hms].
Qed.

Lemma grown_start digest x : timed x → grown digest x [x] (grow (start digest x) x).
Proof.
  intros Hx. unfold grow, add_plan, start, new_group. cbn [acc_group acc_durations Ord g_QueryID g_HasQueryID g_Hash g_Count g_First
    g_Last g_Sample g_Findings g_Dormant]. rewrite widen_self. unfold sample_ms. cbn [g_Sample]. rewrite Hx. cbn [default from_option id].
  rewrite flt_irrefl. constructor; cbn [acc_group acc_durations Ord g_QueryID g_HasQueryID g_Hash g_Count g_First
    g_Last g_Sample g_Findings g_Dormant]; [done|done|apply spans_one|done|]. split; [|by rewrite Hx].
  exists x. split; [by left|]. split; [done|]. apply Forall_singleton, flt_irrefl.
Qed.

Lemma grown_all digest x l : Forall timed (x :: l) → grown digest x (x :: l) (foldl grow (start digest x) (x :: l)).
Proof.
  induction l as [|y l IH] using rev_ind; intros Htm; [apply grown_start; by apply Forall_cons in Htm as [? _]|].
  rewrite app_comm_cons, foldl_snoc. rewrite app_comm_cons in Htm. apply Forall_app in Htm as [Htm Hy]. apply grown_grow; [by apply IH|done|].
  exact (proj1 (Forall_singleton _ _) Hy).
Qed.

(** A group of the summary and the records of its key. *)
Record group_exact (env : Context_) (k : planKey) (es : list reading) (g : PlanGroup) : Prop := {
  ge_key : (g_QueryID g, g_HasQueryID g, g_Hash g) = k.1;
  ge_count : g_Count g = Z.of_nat (length es);
  ge_span : spans (g_First g) (g_Last g) (rd_at <$> es);
  ge_stats : ∃ sorted, stats_exact ((λ x, DurationMs (rd_rec x)) <$> es) (Durations g) sorted;
  ge_sample : ∃ p, slowest es p ∧ g_Sample g = maskPlan p;
  ge_rules : (g_Findings g, g_Dormant g) = Evaluate (g_Sample g) env
}.

Lemma readings_timed `{PlanJSON} lim recs : Forall timed (readings lim recs).
Proof.
  apply list.Forall_forall. intros x Hx. unfold readings in Hx. apply list_elem_of_omap in Hx as (v & Hv & Hx).
  destruct v as [|x']; [done|]. injection Hx as ->. unfold verdicts in Hv. apply list_elem_of_lookup_1 in Hv as [i Hi].
  rewrite list_lookup_imap in Hi. destruct (recs !! i) as [r|]; [|done]. cbn in Hi. injection Hi as Hi. unfold judge in Hi.
  destruct (too_large lim r.1); [done|]. destruct (no_budget lim _); [done|]. destruct (Parse (Body r.1) SourceLog); [done|].
  injection Hi as <-. done.
Qed.

Lemma finish_exact digest env k x l : Forall (λ y, reading_key digest y = k) (x :: l) → Forall timed (x :: l) →
  Z.of_nat (length (x :: l)) < 2 ^ 47 → group_exact env k (x :: l) (finish env (foldl grow (start digest x) (x :: l))).
Proof.
  intros Hk Htm Hb. destruct (grown_all digest x l Htm) as [Hid Hn Hs Hd [Hsl _]]. revert Hid Hn Hs Hd Hsl.
  generalize (foldl grow (start digest x) (x :: l)). intros a Hid Hn Hs Hd Hsl. cbn zeta in Hid. injection Hid as _ Hq Hh Hhash _ _.
  apply Forall_cons in Hk as [Hk _]. unfold finish. cbn zeta. destruct (Evaluate _ env) as [fs ds] eqn:He.
  constructor; cbn [g_QueryID g_HasQueryID g_Hash g_Count g_First g_Last Durations g_Sample g_Findings g_Dormant].
  - rewrite Hq, Hh, Hhash, <- Hk. done.
  - rewrite Hn. apply wrap64_id. unfold int64, min64, max64. lia.
  - done.
  - rewrite Hd. eexists. apply durationStats_exact; [done|by rewrite length_fmap].
  - by exists (g_Sample (acc_group a)).
  - by rewrite He.
Qed.

#[global] Instance group_less_strict : StrictWeak group_less.
Proof. unfold group_less. apply _. Qed.
#[global] Instance np_less_strict : StrictWeak not_parsed_less.
Proof. unfold not_parsed_less. apply _. Qed.
#[global] Instance np_less_separates : Separates not_parsed_less np_Code.
Proof. unfold not_parsed_less. apply _. Qed.

Lemma group_exact_set_Ord env k es g i : group_exact env k es g → group_exact env k es (set_Ord i g).
Proof. intros [H1 H2 H3 H4 H5 H6]. by constructor. Qed.

Lemma group_less_set_Ord i j a b : group_less (set_Ord i a) (set_Ord j b) = group_less a b.
Proof. done. Qed.

Lemma ranked_sorted l i0 : StronglySorted (not_less group_less) l →
  StronglySorted (not_less group_less) (imap (λ i g, set_Ord (Z.of_nat (i0 + i)) g) l).
Proof.
  intros Hs. revert i0. induction Hs as [|g l Hs IH Hg]; intros i0; [constructor|]. cbn [imap].
  rewrite (imap_ext _ (λ i g, set_Ord (Z.of_nat (S i0 + i)) g)) by (intros i x _; cbn; by rewrite Nat.add_succ_r).
  constructor; [apply IH|]. apply list.Forall_forall. intros g' Hg'. apply list_elem_of_lookup_1 in Hg' as [i Hi].
  rewrite list_lookup_imap in Hi. destruct (l !! i) as [x|] eqn:Hx; [|done]. injection Hi as <-. rewrite list.Forall_forall in Hg.
  unfold not_less. rewrite group_less_set_Ord. apply Hg. by eapply list_elem_of_lookup_2.
Qed.

Lemma Forall2_imap_fmap {A B C K} (P : K → C → Prop) (key : A → K) (f : A → B) (h : nat → B → C) l :
  Forall (λ a, ∀ i, P (key a) (h i (f a))) l → Forall2 P (key <$> l) (imap h (f <$> l)).
Proof.
  intros Hl. revert h Hl. induction l as [|a l IH]; intros h Hl; [constructor|]. apply Forall_cons in Hl as [Ha Hl].
  constructor; [apply Ha|]. apply IH. eapply Forall_impl; [exact Hl|]. cbn. intros b Hb i. apply Hb.
Qed.

(** The groups of the accumulator, each with what its records say. *)
Lemma groups_exact `{MapRange} digest env ok : Forall timed ok → Z.of_nat (length ok) < 2 ^ 47 →
  let m := (group (reading_key digest) (start digest) grow ok).2 in
  let l := map_range "Summary.groups" m in
  NoDup l.*1 ∧ (∀ k, k ∈ l.*1 ↔ k ∈ reading_key digest <$> ok) ∧
  Forall (λ ka, group_exact env ka.1 (members (reading_key digest) ka.1 ok) (finish env ka.2)) l.
Proof.
  intros Htm Hb m l. assert (Hm : ∀ k, m !! k = aggregate_of (start digest) grow (members (reading_key digest) k ok)) by apply group_spec.
  split_and!; [apply map_range_nodup| |].
  - intros k. rewrite list_elem_of_fmap. split.
    + intros ([k' a] & -> & Hin%elem_of_map_range). rewrite Hm in Hin. cbn [fst].
      destruct (members _ k' ok) as [|x r] eqn:Hk; [done|]. assert (Hx : x ∈ members (reading_key digest) k' ok) by (rewrite Hk; left).
      apply elem_of_members in Hx as [<- Hx]. by apply list_elem_of_fmap_2.
    + intros Hin. destruct (m !! k) as [a|] eqn:Ha; [exists (k, a); split; [done|]; by apply elem_of_map_range|].
      rewrite Hm in Ha. destruct (members _ k ok) as [|x r] eqn:Hk; [|done]. by apply members_nil in Hk.
  - apply list.Forall_forall. intros [k a] Hin%elem_of_map_range. rewrite Hm in Hin. cbn [fst snd].
    pose proof (length_filter (λ x, reading_key digest x = k) ok) as Hlen. fold (members (reading_key digest) k ok) in Hlen.
    assert (Hsub : ∀ x, x ∈ members (reading_key digest) k ok → reading_key digest x = k ∧ timed x).
    { intros x [Hx Hin']%elem_of_members. rewrite list.Forall_forall in Htm. by auto. }
    destruct (members _ k ok) as [|x r]; [done|]. injection Hin as <-. apply finish_exact; [| |lia]; apply list.Forall_forall; intros y Hy; by apply Hsub.
Qed.

(** C26: Nothing is lost of the plans of a window: every record is counted once, as read or
    under the reason it was refused. The groups are exactly the statements and shapes that
    were read, ranked by the time they took; each says how often and when it ran, its least and
    greatest duration, the median and the 95th percentile by their nearest ranks, the sum, and the
    findings on its slowest plan, with the credentials masked. *)
Theorem PlansSummary_exact `{PlanJSON} `{MapRange} digest lim recs env :
  Z.of_nat (length recs) < 2 ^ 47 →
  let s := Summary (foldl (λ a r, Add digest a r.1 r.2) (NewPlans lim) recs) env in
  let ok := readings lim recs in let out := refusals lim recs in
  (Records s = Z.of_nat (length recs) ∧ Parsed s = Z.of_nat (length ok) ∧ (length ok + length out = length recs)%nat ∧
   WithoutQueryID s = Z.of_nat (length (filter (λ x, HasQueryID (rd_rec x) = false) ok)) ∧
   BudgetExhausted s = bool_decide (CodePlanBudgetExhausted ∈ out)) ∧
  (strictly not_parsed_less (NotParsed_ s) ∧
   ∀ c n, mkNotParsed c n ∈ NotParsed_ s ↔ c ∈ out ∧ n = Z.of_nat (length (filter (λ c', c' = c) out))) ∧
  ∃ ks, NoDup ks ∧ (∀ k, k ∈ ks ↔ k ∈ reading_key digest <$> ok) ∧ TotalGroups s = Z.of_nat (length ks) ∧
    Forall2 (λ k g, group_exact env k (members (reading_key digest) k ok) g) ks (Groups s) ∧
    StronglySorted (not_less group_less) (Groups s).
Proof.
  intros Hb s ok out. pose proof (readings_length lim recs) as Hlen. fold ok out in Hlen.
  destruct (groups_exact digest env ok (readings_timed lim recs) ltac:(lia)) as (Hnd & Hks & Hall). cbn zeta in Hnd, Hks, Hall.
  unfold s, Summary. rewrite Add_fold by lia. unfold accumulated. cbn [records parsed notParsed noQueryID groups exhausted].
  fold ok out. set (m := (group _ _ _ ok).2) in *. set (l := map_range "Summary.groups" m) in *.
  destruct (foldl window_step _ _) as [[sum longest] range].
  cbn [Records Parsed WithoutQueryID BudgetExhausted NotParsed_ TotalGroups Groups]. split; [done|]. split; [split|].
  - apply (sort_slice_strictly _ np_Code). rewrite <- list_fmap_compose. apply map_range_nodup.
  - intros c n. rewrite elem_of_sort_slice, list_elem_of_fmap. split.
    + intros ([c' n'] & [= -> ->] & Hin%elem_of_map_range). rewrite tally_lookup in Hin. cbn [fst snd]. case_decide as Hc; [|done].
      injection Hin as <-. split; [done|]. apply wrap64_id. pose proof (length_filter (λ c0, c0 = c') out). unfold int64, min64, max64. lia.
    + intros [Hc ->]. exists (c, Z.of_nat (length (filter (λ c', c' = c) out))). split; [done|]. apply elem_of_map_range.
      rewrite tally_lookup, decide_True by done. f_equal. apply wrap64_id. pose proof (length_filter (λ c0, c0 = c) out).
      unfold int64, min64, max64. lia.
  - destruct (Permutation_map_inv (finish env ∘ snd) (l1 := sort_slice group_less (finish env <$> l.*2)) l) as (l' & Hl' & Hp).
    { change (map ?f ?x) with (f <$> x). by rewrite sort_slice_perm, list_fmap_compose. }
    exists l'.*1. change (map ?f ?x) with (f <$> x) in Hl'. split_and!.
    + by rewrite <- Hp.
    + intros k. rewrite <- Hp. apply Hks.
    + rewrite length_fmap, <- Hp. f_equal. unfold l. by rewrite (map_range_perm "Summary.groups" m), length_map_to_list.
    + rewrite Hl'. apply Forall2_imap_fmap. rewrite <- Hp. eapply Forall_impl; [exact Hall|]. intros ka Hka i.
      by apply group_exact_set_Ord.
    + apply (ranked_sorted _ 0). apply (sort_slice_sorted _).
Qed.

(** Two runs of one statement and a record that is no plan. *)
Definition no_json : PlanJSON := {| unmarshal_list _ := None; unmarshal_plan _ := None; print_setting _ := "" |}.

Definition text_record (ms : float) (body : string) : PlanRecord := mkPlanRecord ms body 7 true.
Definition seq_scan : string := "Seq Scan on t  (cost=0.00..1.00 rows=1 width=4)".
Definition sample_records : list (PlanRecord * time) :=
  [(text_record 3 seq_scan, 10); (text_record 5 seq_scan, 4); (text_record 1 "nothing", 6)].

Lemma PlansSummary_exact_witness :
  let s := Summary (H0 := canonical_range) (foldl (λ a r, Add (H := no_json) (λ s, s) a r.1 r.2) (NewPlans (mkLimits 1024 8)) sample_records)
    (mkContext None ∅) in
  (Parsed s, TotalGroups s, g_Count <$> Groups s, (λ g, (g_First g, g_Last g)) <$> Groups s, (λ g, Max (Durations g)) <$> Groups s) =
    (2, 1, [2], [(4, 10)], [5%float]) ∧
  Records s = 3 ∧ strictly not_parsed_less (NotParsed_ s).
Proof.
  cbv zeta. split; [by vm_compute|].
  destruct (@PlansSummary_exact no_json canonical_range (λ s, s) (mkLimits 1024 8) sample_records (mkContext None ∅)) as ((Hr & _) & (Hs & _) & _);
    [done|by split].
Defined.
