(* ===== verification/LogCompare.v ===== *)
(** * [internal/logs/insights/compare.go]: the plans of two windows side by side

    The statements both windows hold are compared by the shapes they ran with, the indexes
    those shapes read and how long the dominant shape took. *)

From S2P Require Import Prelude GoSlices GoFloat GoFloatOrder Discovery HealthRules ExplainPlan ExplainRules LogPattern LogInsights LogPlans.
From stdpp Require Import pretty options.

#[local] Open Scope string_scope.
#[local] Open Scope Z_scope.
#[local] Open Scope list_scope.

Definition ReasonNewShape : string := "new_shape".
Definition ReasonLostIndex : string := "lost_index".
Definition ReasonSlower : string := "slower".

Definition slowdownFactor : float := 2.
Definition severeFactor : float := 10.
Definition minSlowerPlans : Z := 20.

Record Regression := mkRegression {
  rg_QueryID : Z; rg_HasQueryID : bool; rg_QueryText : string; Reasons : list string; AddedHashes : list string;
  RemovedHashes : list string; AddedIndexes : list string; LostIndexes : list string; Current : DurationStats;
  Baseline : DurationStats; CurrentCount : Z; BaselineCount : Z; P50Ratio : float; P95Ratio : float; rg_Severity : option HealthRules.Severity
}.

Record statement := mkStatement { dominant : GroupRow; hashes : list string; indexes : list string }.

(** [appendNew] of one value. *)
Definition append_new (values : list string) (v : string) : list string :=
  if decide (v ≠ "") then appendUnique values v else values.

Definition appendNew (values add : list string) : list string := foldl append_new values add.

(** The query id and the text are told apart by the first letter. *)
Definition statementKey (r : GroupRow) : option string :=
  if row_HasQueryID r then Some ("q:" +:+ pretty (row_QueryID r))
  else
    let key := Key (row_QueryText r) in
    if decide (key ≠ "") then Some ("t:" +:+ key) else None.

(** A statement that is met, and one more of its groups. *)
Definition new_statement (r : GroupRow) : statement := mkStatement r [] [].

Definition add_row (s : statement) (r : GroupRow) : statement :=
  mkStatement (if (Sum (row_Durations (dominant s)) <? Sum (row_Durations r))%float then r else dominant s)
    (appendNew (hashes s) [row_Hash r]) (appendNew (indexes s) (default [] (row_Indexes r))).

Definition statements (rows : list GroupRow) : gmap string statement :=
  foldl (λ m r,
    match statementKey r with
    | None => m
    | Some key => <[key := add_row (default (new_statement r) (m !! key)) r]> m
    end) ∅ rows.

Definition missingFrom (values other : list string) : list string := sort_slice str_ltb (SliceMissing values other).

Definition ratio (cur base : float) : float := if (base <=? 0)%float then 0 else (cur / base)%float.

Definition regressionSeverity (r : Regression) : HealthRules.Severity :=
  let slower := bool_decide (ReasonSlower ∈ Reasons r) in
  if bool_decide (LostIndexes r ≠ []) || (slower && (severeFactor <=? P95Ratio r)%float) then HealthRules.SeverityHigh
  else if slower then HealthRules.SeverityMedium
  else HealthRules.SeverityLow.

Definition compareStatement (cur base : statement) (indexesKnown : bool) : option Regression :=
  let p95 := ratio (P95 (row_Durations (dominant cur))) (P95 (row_Durations (dominant base))) in
  let added := missingFrom (hashes cur) (hashes base) in
  let lost := if indexesKnown then missingFrom (indexes base) (indexes cur) else [] in
  let measured := (minSlowerPlans <=? row_Count (dominant cur)) && (minSlowerPlans <=? row_Count (dominant base)) in
  let reasons :=
    (if decide (added ≠ []) then [ReasonNewShape] else []) ++ (if decide (lost ≠ []) then [ReasonLostIndex] else []) ++
    (if measured && (slowdownFactor <=? p95)%float then [ReasonSlower] else []) in
  if decide (reasons = []) then None
  else
    let r severity :=
      mkRegression (row_QueryID (dominant cur)) (row_HasQueryID (dominant cur)) (row_QueryText (dominant cur)) reasons
        added (missingFrom (hashes base) (hashes cur))
        (if indexesKnown then missingFrom (indexes cur) (indexes base) else []) lost
        (row_Durations (dominant cur)) (row_Durations (dominant base)) (row_Count (dominant cur)) (row_Count (dominant base))
        (ratio (P50 (row_Durations (dominant cur))) (P50 (row_Durations (dominant base)))) p95 severity in
    Some (r (Some (regressionSeverity (r None)))).

Definition severityRank (s : option HealthRules.Severity) : Z :=
  match s with Some HealthRules.SeverityHigh => 0 | Some HealthRules.SeverityMedium => 1 | _ => 2 end.

Definition regression_less : Regression → Regression → bool :=
  lex_less (less_on (λ r, severityRank (rg_Severity r)) Z.ltb) (lex_less (more_on P95Ratio float_less)
    (lex_less (more_on (λ r, Sum (Current r)) float_less) (lex_less (less_on rg_QueryID Z.ltb) (less_on rg_QueryText str_ltb)))).

Definition Compare `{MapRange} (current baseline : list GroupRow) (indexesKnown : bool) : list Regression :=
  let base := statements baseline in
  sort_slice regression_less
    (omap (λ kc : string * statement, b ← base !! kc.1; compareStatement kc.2 b indexesKnown)
       (map_range "Compare.cur" (statements current))).

(** ** The comparison is exact *)

(** What one statement did in one window. *)
Definition rows_of (key : string) (rows : list GroupRow) : list GroupRow := filter (λ r, statementKey r = Some key) rows.

Definition spent (r : GroupRow) : float := Sum (row_Durations r).

(** The first of the groups none of which took more time. *)
Definition longest (rows : list GroupRow) : option GroupRow :=
  match rows with [] => None | r :: l => Some (foldl (longer spent) r l) end.

Definition ran (rows : list GroupRow) (h : string) : Prop := h ≠ "" ∧ ∃ r, r ∈ rows ∧ row_Hash r = h.
Definition reads (rows : list GroupRow) (i : string) : Prop := i ≠ "" ∧ ∃ r l, r ∈ rows ∧ row_Indexes r = Some l ∧ i ∈ l.

(** The sorted list of the values that satisfy a predicate, each once. *)
Definition listed (l : list string) (P : string → Prop) : Prop := strictly str_ltb l ∧ ∀ v, v ∈ l ↔ P v.

Definition lost (known : bool) (cs bs : list GroupRow) (i : string) : Prop := known = true ∧ reads bs i ∧ ¬ reads cs i.
Definition slower (c b : GroupRow) : Prop :=
  20 ≤ row_Count c ∧ 20 ≤ row_Count b ∧ (2 <=? ratio (P95 (row_Durations c)) (P95 (row_Durations b)))%float = true.

(** Why a statement is listed. *)
Definition reason_for (known : bool) (cs bs : list GroupRow) (c b : GroupRow) (reason : string) : Prop :=
  (reason = ReasonNewShape ∧ ∃ h, ran cs h ∧ ¬ ran bs h) ∨ (reason = ReasonLostIndex ∧ ∃ i, lost known cs bs i) ∨
  (reason = ReasonSlower ∧ slower c b).

Record regression_exact (known : bool) (cs bs : list GroupRow) (c b : GroupRow) (r : Regression) : Prop := {
  re_statement : (rg_QueryID r, rg_HasQueryID r, rg_QueryText r) = (row_QueryID c, row_HasQueryID c, row_QueryText c);
  re_reasons : ∀ reason, reason ∈ Reasons r ↔ reason_for known cs bs c b reason;
  re_added_hashes : listed (AddedHashes r) (λ h, ran cs h ∧ ¬ ran bs h);
  re_removed_hashes : listed (RemovedHashes r) (λ h, ran bs h ∧ ¬ ran cs h);
  re_added_indexes : listed (AddedIndexes r) (lost known bs cs);
  re_lost_indexes : listed (LostIndexes r) (lost known cs bs);
  re_durations : (Current r, Baseline r, CurrentCount r, BaselineCount r) = (row_Durations c, row_Durations b, row_Count c, row_Count b);
  re_ratios : (P50Ratio r, P95Ratio r) =
    (ratio (P50 (row_Durations c)) (P50 (row_Durations b)), ratio (P95 (row_Durations c)) (P95 (row_Durations b)));
  re_high : rg_Severity r = Some HealthRules.SeverityHigh ↔
    (∃ i, lost known cs bs i) ∨ slower c b ∧ (10 <=? P95Ratio r)%float = true;
  re_low : rg_Severity r = Some HealthRules.SeverityLow ↔ (¬ ∃ i, lost known cs bs i) ∧ ¬ slower c b
}.

(** *** One statement *)

Lemma appendNew_elem k l v : v ∈ appendNew k l ↔ v ∈ k ∨ v ≠ "" ∧ v ∈ l.
Proof.
  revert k. induction l as [|x l IH]; intros k; cbn; [rewrite elem_of_nil; tauto|]. rewrite IH, elem_of_cons.
  unfold append_new. case_decide as Hx; [rewrite elem_of_appendUnique|]; naive_solver.
Qed.

Lemma appendNew_nodup k l : NoDup k → NoDup (appendNew k l).
Proof.
  revert k. induction l as [|x l IH]; intros k Hk; cbn; [done|]. apply IH. unfold append_new. case_decide; [|done].
  by apply appendUnique_nodup.
Qed.

(** The state of a statement after the rows of a list, the first of which made it. *)
Record did (rows : list GroupRow) (s : statement) : Prop := {
  did_dominant : longest rows = Some (dominant s);
  did_hashes : ∀ h, h ∈ hashes s ↔ ran rows h;
  did_indexes : ∀ i, i ∈ indexes s ↔ reads rows i;
  did_nodup : NoDup (hashes s) ∧ NoDup (indexes s)
}.

Lemma ran_snoc rows r h : ran (rows ++ [r]) h ↔ ran rows h ∨ h ≠ "" ∧ h ∈ [row_Hash r].
Proof.
  unfold ran. setoid_rewrite elem_of_app. setoid_rewrite list_elem_of_singleton. naive_solver.
Qed.

Lemma reads_snoc rows r i : reads (rows ++ [r]) i ↔ reads rows i ∨ i ≠ "" ∧ i ∈ default [] (row_Indexes r).
Proof.
  unfold reads. setoid_rewrite elem_of_app. setoid_rewrite list_elem_of_singleton. destruct (row_Indexes r) as [l|] eqn:Hr; cbn.
  - naive_solver.
  - rewrite elem_of_nil. naive_solver.
Qed.

Lemma add_row_did rows s r : did rows s → did (rows ++ [r]) (add_row s r).
Proof.
  intros [Hd Hh Hi [Hnh Hni]]. split; unfold add_row; cbn [dominant hashes indexes].
  - destruct rows as [|x l]; [done|]. cbn [longest app] in Hd |- *. rewrite foldl_snoc. injection Hd as ->. done.
  - intros h. by rewrite appendNew_elem, ran_snoc, Hh.
  - intros i. by rewrite appendNew_elem, reads_snoc, Hi.
  - split; by apply appendNew_nodup.
Qed.

Lemma first_row_did r : did [r] (add_row (new_statement r) r).
Proof.
  split; unfold add_row, new_statement; cbn [dominant hashes indexes longest foldl].
  - by rewrite flt_irrefl.
  - intros h. rewrite appendNew_elem, (ran_snoc [] r h). unfold ran. setoid_rewrite elem_of_nil. naive_solver.
  - intros i. rewrite appendNew_elem, (reads_snoc [] r i). unfold reads. setoid_rewrite elem_of_nil. naive_solver.
  - split; apply appendNew_nodup, NoDup_nil_2.
Qed.

Lemma rows_of_snoc key rows r :
  rows_of key (rows ++ [r]) = rows_of key rows ++ (if decide (statementKey r = Some key) then [r] else []).
Proof. unfold rows_of. by rewrite filter_app. Qed.

(** The map holds, for every statement of the window, what its rows say. *)
Lemma statements_lookup rows key :
  match rows_of key rows with
  | [] => statements rows !! key = None
  | l => ∃ s, statements rows !! key = Some s ∧ did l s
  end.
Proof.
  induction rows as [|r rows IH] using rev_ind; [done|]. rewrite rows_of_snoc. unfold statements. rewrite foldl_snoc. fold (statements rows).
  destruct (statementKey r) as [k|] eqn:Hk; [|rewrite decide_False by done; by rewrite app_nil_r].
  destruct (decide (k = key)) as [->|Hne].
  - rewrite decide_True by done. rewrite lookup_insert_eq. destruct (rows_of key rows) as [|x l]; cbn [app].
    + rewrite IH. eexists. split; [done|]. apply first_row_did.
    + destruct IH as (s & -> & Hs). eexists. split; [done|]. exact (add_row_did _ _ r Hs).
  - rewrite decide_False by congruence. by rewrite app_nil_r, lookup_insert_ne.
Qed.

Lemma missingFrom_listed values other (P Q : string → Prop) : NoDup values → (∀ v, v ∈ values ↔ P v) → (∀ v, v ∈ other ↔ Q v) →
  listed (missingFrom values other) (λ v, P v ∧ ¬ Q v).
Proof.
  intros Hnd Hv Ho. unfold missingFrom, SliceMissing. split.
  - apply (sort_slice_strictly (less_on (id : string → string) str_ltb) (id : string → string)). rewrite list_fmap_id. by apply NoDup_filter.
  - intros v. rewrite sort_slice_perm, list_elem_of_filter, elem_of_list_to_set, Hv, Ho. tauto.
Qed.

Lemma listed_nil l P : listed l P → l ≠ [] ↔ ∃ v, P v.
Proof.
  intros [_ Hl]. split.
  - destruct l as [|v l]; [done|]. intros _. exists v. apply Hl. by left.
  - intros [v Hv%Hl] ->. by apply not_elem_of_nil in Hv.
Qed.

Lemma listed_empty (P : string → Prop) : (∀ v, ¬ P v) → listed [] P.
Proof. intros HP. split; [constructor|]. intros v. rewrite elem_of_nil. firstorder. Qed.

Lemma listed_impl l (P Q : string → Prop) : (∀ v, P v ↔ Q v) → listed l P → listed l Q.
Proof. intros HPQ [Hs Hl]. split; [done|]. intros v. by rewrite Hl. Qed.

(** The indexes of one window that the other lacks, when they are known. *)
Lemma lost_listed (known : bool) cs bs c b : did cs c → did bs b →
  listed (if known then missingFrom (indexes b) (indexes c) else []) (lost known cs bs).
Proof.
  intros Hc Hb. unfold lost. destruct known; [|apply listed_empty; by intros v (? & _)].
  apply (listed_impl _ (λ v, reads bs v ∧ ¬ reads cs v)); [|apply (missingFrom_listed _ _ _ _ (proj2 (did_nodup _ _ Hb)) (did_indexes _ _ Hb) (did_indexes _ _ Hc))].
  intros v. split; [by intros|by intros [_ ?]].
Qed.

(** The reasons a list of three guarded names holds. *)
Lemma guarded_reasons (g1 g2 g3 : Prop) `{!Decision g1, !Decision g2} (b3 : bool) reason : (b3 = true ↔ g3) →
  reason ∈ (if decide g1 then [ReasonNewShape] else []) ++ (if decide g2 then [ReasonLostIndex] else []) ++ (if b3 then [ReasonSlower] else []) ↔
  (reason = ReasonNewShape ∧ g1) ∨ (reason = ReasonLostIndex ∧ g2) ∨ (reason = ReasonSlower ∧ g3).
Proof.
  intros H3. rewrite !elem_of_app. destruct (decide g1), (decide g2), b3;
    rewrite ?list_elem_of_singleton, ?elem_of_nil; naive_solver.
Qed.

Lemma severity_of_reasons r (lostP slowP : Prop) : (LostIndexes r ≠ [] ↔ lostP) → (ReasonSlower ∈ Reasons r ↔ slowP) →
  (regressionSeverity r = HealthRules.SeverityHigh ↔ lostP ∨ slowP ∧ (10 <=? P95Ratio r)%float = true) ∧
  (regressionSeverity r = HealthRules.SeverityLow ↔ ¬ lostP ∧ ¬ slowP).
Proof.
  intros <- <-. unfold regressionSeverity. change severeFactor with 10%float.
  destruct (bool_decide_reflect (LostIndexes r ≠ [])), (bool_decide_reflect (ReasonSlower ∈ Reasons r)), (10 <=? P95Ratio r)%float; cbn;
    naive_solver.
Qed.

Definition worse (known : bool) (cs bs : list GroupRow) (c b : GroupRow) : Prop := ∃ reason, reason_for known cs bs c b reason.

Lemma compareStatement_exact known cs bs c b : did cs c → did bs b →
  match compareStatement c b known with
  | Some r => regression_exact known cs bs (dominant c) (dominant b) r ∧ worse known cs bs (dominant c) (dominant b)
  | None => ¬ worse known cs bs (dominant c) (dominant b)
  end.
Proof.
  intros Hc Hb. unfold compareStatement, worse.
  pose proof (missingFrom_listed _ _ _ _ (proj1 (did_nodup _ _ Hc)) (did_hashes _ _ Hc) (did_hashes _ _ Hb)) as Hadd.
  pose proof (missingFrom_listed _ _ _ _ (proj1 (did_nodup _ _ Hb)) (did_hashes _ _ Hb) (did_hashes _ _ Hc)) as Hrem.
  pose proof (lost_listed known cs bs c b Hc Hb) as Hlost. pose proof (lost_listed known bs cs b c Hb Hc) as Hnew.
  set (added := missingFrom (hashes c) (hashes b)) in *. set (gone := if known then _ else []) in Hlost |- *.
  set (p95 := ratio _ _). set (measured := (minSlowerPlans <=? _) && (minSlowerPlans <=? _)).
  assert (H3 : measured && (slowdownFactor <=? p95)%float = true ↔ slower (dominant c) (dominant b)).
  { unfold measured, slower, minSlowerPlans, slowdownFactor. fold p95. rewrite !andb_true_iff, !Z.leb_le. tauto. }
  set (reasons := _ ++ _ ++ _).
  assert (Hr : ∀ reason, reason ∈ reasons ↔ reason_for known cs bs (dominant c) (dominant b) reason).
  { intros reason. unfold reasons, reason_for. rewrite (guarded_reasons _ _ _ _ _ H3), (listed_nil _ _ Hadd), (listed_nil _ _ Hlost). done. }
  destruct (decide (reasons = [])) as [He|Hne].
  - intros [reason Hin%Hr]. rewrite He in Hin. by apply not_elem_of_nil in Hin.
  - split; [|destruct reasons as [|x l]; [done|]; exists x; apply Hr; by left].
    assert (Hslow : ReasonSlower ∈ reasons ↔ slower (dominant c) (dominant b)) by (rewrite Hr; unfold reason_for; naive_solver).
    match goal with |- regression_exact _ _ _ _ _ (mkRegression _ _ _ _ _ _ _ _ _ _ _ _ _ _ (Some (regressionSeverity ?r0))) =>
      pose proof (severity_of_reasons r0 _ _ (listed_nil _ _ Hlost) Hslow) as [Hhigh Hlow]; set (sev := regressionSeverity r0) in * end.
    split; cbn [rg_QueryID rg_HasQueryID rg_QueryText Reasons AddedHashes RemovedHashes AddedIndexes LostIndexes Current Baseline CurrentCount
      BaselineCount P50Ratio P95Ratio rg_Severity]; [done|exact Hr|exact Hadd|exact Hrem|exact Hnew|exact Hlost|done|done| |].
    + rewrite <- Hhigh. clearbody sev. split; [by intros [= ->]|by intros ->].
    + rewrite <- Hlow. clearbody sev. split; [by intros [= ->]|by intros ->].
Qed.

(** The statement of a key in both windows, and the group that took most of its time in each. *)
Definition compared (known : bool) (current baseline : list GroupRow) (key : string) (c b : GroupRow) : Prop :=
  let cs := rows_of key current in let bs := rows_of key baseline in
  longest cs = Some c ∧ longest bs = Some b ∧ worse known cs bs c b.

Lemma longest_max rows c : longest rows = Some c → c ∈ rows ∧ Forall (λ r, (spent c <? spent r)%float = false) rows.
Proof. destruct rows as [|r l]; [done|]. intros [= <-]. apply longer_max. Qed.

Lemma statements_did rows key s : statements rows !! key = Some s → did (rows_of key rows) s.
Proof.
  intros Hs. pose proof (statements_lookup rows key) as Hk. destruct (rows_of key rows); [congruence|].
  destruct Hk as (s' & Hs' & Hd). congruence.
Qed.

Lemma longest_statement rows key c : longest (rows_of key rows) = Some c →
  ∃ s, statements rows !! key = Some s ∧ did (rows_of key rows) s ∧ dominant s = c.
Proof.
  intros Hl. pose proof (statements_lookup rows key) as Hk. destruct (rows_of key rows) as [|x l] eqn:Hr; [done|].
  destruct Hk as (s & Hs & Hd). exists s. split; [done|]. split; [done|]. rewrite (did_dominant _ _ Hd) in Hl. by injection Hl.
Qed.

(** The list of [Compare], before it is sorted, with the keys it came from. *)
Lemma omap_keys {K A B} (f : K * A → option B) (l : list (K * A)) :
  ∃ ks, ks `sublist_of` l.*1 ∧ (∀ k, k ∈ ks ↔ ∃ a b, (k, a) ∈ l ∧ f (k, a) = Some b) ∧
    Forall2 (λ k b, ∃ a, (k, a) ∈ l ∧ f (k, a) = Some b) ks (omap f l).
Proof.
  induction l as [|[k a] l (ks & Hsub & Hks & Hall)].
  - exists []. split; [done|]. split; [|constructor]. intros k. split; [by intros ?%not_elem_of_nil|by intros (? & ? & ?%not_elem_of_nil & _)].
  - assert (Hall' : Forall2 (λ k' b, ∃ a', (k', a') ∈ (k, a) :: l ∧ f (k', a') = Some b) ks (omap f l)).
    { eapply Forall2_impl; [exact Hall|]. intros k' b' (a' & Hin & Hf). exists a'. split; [by right|done]. }
    cbn [fmap list_fmap fst]. cbn [omap list_omap]. destruct (f (k, a)) as [b|] eqn:Hf.
    + exists (k :: ks). split; [by constructor|]. split.
      * intros k'. setoid_rewrite elem_of_cons. rewrite Hks. naive_solver.
      * constructor; [|done]. exists a. split; [by left|done].
    + exists ks. split; [by constructor|]. split; [|done]. intros k'. rewrite Hks. setoid_rewrite elem_of_cons. naive_solver.
Qed.

(** C32: A comparison of two windows lists exactly the statements both windows hold and for which
    there is a reason to, each once and the worst first. Every entry says which shapes and
    indexes came and went, compares the shapes that took most of the time in each window, and
    names exactly the reasons that apply; its severity follows from them. *)
Theorem Compare_exact `{MapRange} current baseline known :
  let out := Compare current baseline known in
  StronglySorted (not_less regression_less) out ∧
  ∃ ks, NoDup ks ∧ (∀ key, key ∈ ks ↔ ∃ c b, compared known current baseline key c b) ∧
    Forall2 (λ key r, ∃ c b, compared known current baseline key c b ∧
      (c ∈ rows_of key current ∧ Forall (λ x, (spent c <? spent x)%float = false) (rows_of key current)) ∧
      (b ∈ rows_of key baseline ∧ Forall (λ x, (spent b <? spent x)%float = false) (rows_of key baseline)) ∧
      regression_exact known (rows_of key current) (rows_of key baseline) c b r) ks out.
Proof.
  cbn zeta. unfold Compare. set (f := λ kc : string * statement, _). set (l := map_range "Compare.cur" (statements current)).
  split; [apply (sort_slice_sorted _)|]. destruct (omap_keys f l) as (ks & Hsub & Hks & Hall).
  assert (Hf : ∀ key a r, (key, a) ∈ l → f (key, a) = Some r →
    ∃ c b, compared known current baseline key c b ∧ regression_exact known (rows_of key current) (rows_of key baseline) c b r).
  { intros key a r Hin%elem_of_map_range. unfold f. cbn [fst snd]. destruct (statements baseline !! key) as [sb|] eqn:Hb; [|done]. cbn [mbind option_bind].
    apply statements_did in Hin, Hb. pose proof (compareStatement_exact known _ _ _ _ Hin Hb) as He. intros Hr. rewrite Hr in He.
    destruct He as [He Hw]. exists (dominant a), (dominant sb). split; [|done]. split; [by apply did_dominant|]. split; [by apply did_dominant|done]. }
  destruct (Forall2_perm_r _ _ _ (sort_slice regression_less (omap f l)) ltac:(by rewrite sort_slice_perm) Hall) as (ks' & Hp & Hall').
  exists ks'. split_and!.
  - rewrite <- Hp. eapply sublist_NoDup; [|exact Hsub]. apply map_range_nodup.
  - intros key. rewrite <- Hp, Hks. split; [intros (a & r & Hin & Hr); destruct (Hf _ _ _ Hin Hr) as (c & b & Hcmp & _); by exists c, b|].
    intros (c & b & Hc & Hb & Hw). apply longest_statement in Hc as (sc & Hsc & Hdc & <-), Hb as (sb & Hsb & Hdb & <-).
    pose proof (compareStatement_exact known _ _ _ _ Hdc Hdb) as He.
    destruct (compareStatement sc sb known) as [r|] eqn:Hr; [|done]. exists sc, r. split; [by apply elem_of_map_range|]. unfold f. cbn [fst snd].
    by rewrite Hsb.
  - eapply Forall2_impl; [exact Hall'|]. cbn beta. intros key r (a & Hin & Hr). destruct (Hf _ _ _ Hin Hr) as (c & b & Hcmp & He). exists c, b.
    destruct (Hcmp) as (Hc & Hb & _). split; [done|]. split; [by apply longest_max|]. split; [by apply longest_max|done].
Qed.

(** The query id alone keys a statement here, though a nested statement shares it with its
    caller ([planKey] of [plans.go]): a caller and a statement nested in it are one statement,
    and a shape of the one counts as a new shape of the other. *)
Example nested_statement_merged :
  let row hash text sum := mkRow 0 7 true hash 1 (mkStats sum sum sum sum sum) 0 0 text (Some []) [] [] in
  Reasons <$> Compare (H := canonical_range) [row "h1" "SELECT f()" 5%float; row "h2" "SELECT 1 FROM t" 1%float] [row "h1" "SELECT f()" 5%float] true =
    [[ReasonNewShape]].
Proof. by vm_compute. Qed.
