(* ===== verification/LogSource.v ===== *)
(** * [internal/logs/source]: what a log source promises

    The contract of [source.go], the field maps of [fieldmap.go] and the registry of
    [registry.go]. A call of [Stream] hands records to a callback; here it is a [run], the
    records it would hand out if the callback never stopped it, and how it ends. *)

From S2P Require Import Prelude GoSlices PatroniLayout Discovery GoStrings LogInsights.
From stdpp Require Import options.

#[local] Open Scope string_scope.
#[local] Open Scope Z_scope.
#[local] Open Scope list_scope.

(** ** [source.go] *)

(** The errors [errors.Is] asks for. *)
Inductive sentinel := ErrStream | ErrUnavailable | ErrConfig | ErrInvalidToken | ErrPartial | ContextCanceled.
#[global] Instance sentinel_eq_dec : EqDecision sentinel.
Proof. solve_decision. Defined.

Record error := mkError { wraps : list sentinel; err_text : string }.
Definition Is (e : error) (s : sentinel) : bool := bool_decide (s ∈ wraps e).

Record LogLine := mkLine { Timestamp : time; Fields : gmap string string; Token : string }.

(** A missing field reads as the empty string. *)
Definition field (fields : gmap string string) (name : string) : string := default "" (fields !! name).

Record Filter := mkFilter { f_Severities : list string; f_Host : string; f_QueryID : option Z; f_Contains : list string }.
Definition no_filter : Filter := mkFilter [] "" None [].

Record StreamParams := mkParams {
  sp_Cluster : Cluster; sp_Stream : string; sp_From : time; sp_To : time; sp_Filter : Filter; sp_Token : string
}.

(** Why the context of a read ended, if it did. *)
Inductive ctx_err := DeadlineExceeded | Canceled.
#[global] Instance ctx_err_eq_dec : EqDecision ctx_err.
Proof. solve_decision. Defined.

Record CheckResult := mkCheck {
  Target : string; Documents : Z; Found : gmap string string; Missing : list string; Types : gmap string string;
  Sample : option (gmap string string)
}.

Record run := mkRun { delivered : list LogLine; failed : option error; ctx_done : option ctx_err }.

(** The callback stops a read by returning false: the rest is not handed out, and it has
    not failed. *)
Fixpoint feed {S} (fn : S → LogLine → S * bool) (s : S) (l : list LogLine) : S * bool :=
  match l with
  | [] => (s, true)
  | x :: l => let '(s, go) := fn s x in if go then feed fn s l else (s, false)
  end.

Definition run_stream {S} (r : run) (fn : S → LogLine → S * bool) (s : S) : S * option error :=
  let '(s, finished) := feed fn s (delivered r) in (s, if finished then failed r else None).

(** ** [fieldmap.go] *)

Record FieldMap := mkFieldMap {
  fm_Timestamp : string; fm_Severity : string; fm_Text : string; fm_Host : string; fm_Database : string; fm_User : string;
  fm_PID : string; fm_QueryID : string; fm_SQLState : string; Mask : list string; Severities : list string;
  KeywordFields : gmap string string; HostMatch : string
}.
Definition zero_map : FieldMap := mkFieldMap "" "" "" "" "" "" "" "" "" [] [] ∅ "".

Definition HostMatchExact : string := "exact".
Definition HostMatchSuffix : string := "suffix".

Definition no_map (m : FieldMap) : bool := bool_decide (fm_Text m = "").

Definition Keyword (m : FieldMap) (f : string) : string :=
  match KeywordFields m !! f with Some kw => if decide (kw ≠ "") then kw else f | None => f end.

Definition CanonicalSeverity `{GoText} (m : FieldMap) (raw : string) : option string :=
  head (filter (λ v, EqualFold v raw = true) (Severities m)).

Definition PresetCSVLog : string := "csvlog".
Definition PresetJSONLog : string := "jsonlog".
Definition PresetOdyssey : string := "odyssey".
Definition PresetPgBouncer : string := "pgbouncer".
Definition PresetNone : string := "none".

Definition pgSeverities : list string := ["DEBUG"; "LOG"; "INFO"; "NOTICE"; "WARNING"; "ERROR"; "FATAL"; "PANIC"].

Definition presets : list (string * FieldMap) := [
  (PresetCSVLog, mkFieldMap "" "error_severity" "message" "" "database_name" "user_name" "process_id" "query_id" "sql_state_code"
     ["message"; "query"; "internal_query"; "detail"; "hint"; "context"] pgSeverities ∅ "");
  (PresetJSONLog, mkFieldMap "" "error_severity" "message" "" "dbname" "user" "pid" "query_id" "state_code"
     ["message"; "statement"; "internal_query"; "detail"; "hint"; "context"] pgSeverities ∅ "");
  (PresetOdyssey, mkFieldMap "" "level" "text" "" "db" "user" "pid" "" "" ["text"] ["debug"; "info"; "warning"; "error"; "fatal"] ∅ "");
  (PresetPgBouncer, mkFieldMap "" "level" "msg" "" "" "" "pid" "" "" ["msg"] ["NOISE"; "DEBUG"; "LOG"; "WARNING"; "ERROR"; "FATAL"] ∅ "")].

Definition Preset (name : string) : option FieldMap := (list_to_map presets : gmap string FieldMap) !! name.

Definition RoleTimestamp : string := "timestamp".
Definition RoleSeverity : string := "severity".
Definition RoleText : string := "text".
Definition RoleHost : string := "host".
Definition RoleDatabase : string := "database".
Definition RoleUser : string := "user".
Definition RolePID : string := "pid".
Definition RoleQueryID : string := "query_id".
Definition RoleSQLState : string := "sql_state".

Definition Roles (m : FieldMap) : gmap string string :=
  list_to_map (filter (λ rf : string * string, rf.2 ≠ "") [
    (RoleTimestamp, fm_Timestamp m); (RoleSeverity, fm_Severity m); (RoleText, fm_Text m); (RoleHost, fm_Host m);
    (RoleDatabase, fm_Database m); (RoleUser, fm_User m); (RolePID, fm_PID m); (RoleQueryID, fm_QueryID m);
    (RoleSQLState, fm_SQLState m)]).

(** [config.LogFieldMapConfig]. *)
Record LogFieldMapConfig := mkFieldMapConfig {
  c_Preset : string; c_Timestamp : string; c_Severity : string; c_Text : string; c_Host : string; c_Database : string;
  c_User : string; c_PID : string; c_QueryID : string; c_SQLState : string; c_Mask : list string;
  c_KeywordFields : gmap string string; c_Severities : list string; c_HostMatch : string
}.

(** Every one of them wraps [ErrConfig]. *)
Inductive map_error := UnknownPreset (name : string) | BadHostMatch (mode : string) | MissingRoles (roles : list string) | NoSeverities.

(** A dot in a field name separates the levels of a nested record. *)
Fixpoint before_last_dot (s : string) : option string :=
  match s with
  | EmptyString => None
  | String c s' =>
      match before_last_dot s' with
      | Some p => Some (String c p)
      | None => if decide (c = char 46) then Some "." else None
      end
  end.

Definition has_dot (s : string) : bool := bool_decide (before_last_dot s ≠ None).

Definition add_field (out : list string) (f : string) : list string := if decide (f ≠ "") then appendUnique out f else out.

Definition mask_step (prefix : string) (out : list string) (f : string) : list string :=
  let out := add_field out f in
  if bool_decide (prefix ≠ "") && negb (has_dot f) then add_field out (prefix +:+ f) else out.

Definition resolveMask (fm : FieldMap) : list string :=
  let prefix := default "" (before_last_dot (fm_Text fm)) in
  foldl (mask_step prefix) (add_field [] (fm_Text fm)) (Mask fm).

Definition override (src dst : string) : string := if decide (src ≠ "") then src else dst.

(** The preset and the roles configured on top of it. *)
Definition overridden (c : LogFieldMapConfig) (p : FieldMap) : FieldMap :=
  mkFieldMap (override (c_Timestamp c) (fm_Timestamp p)) (override (c_Severity c) (fm_Severity p)) (override (c_Text c) (fm_Text p))
    (override (c_Host c) (fm_Host p)) (override (c_Database c) (fm_Database p)) (override (c_User c) (fm_User p))
    (override (c_PID c) (fm_PID p)) (override (c_QueryID c) (fm_QueryID p)) (override (c_SQLState c) (fm_SQLState p))
    (if decide (c_Mask c ≠ []) then c_Mask c else Mask p)
    (if decide (c_Severities c ≠ []) then c_Severities c else Severities p)
    (c_KeywordFields c) (override (override (c_HostMatch c) (HostMatch p)) HostMatchExact).

Definition with_mask (fm : FieldMap) (mask : list string) : FieldMap :=
  mkFieldMap (fm_Timestamp fm) (fm_Severity fm) (fm_Text fm) (fm_Host fm) (fm_Database fm) (fm_User fm) (fm_PID fm) (fm_QueryID fm)
    (fm_SQLState fm) mask (Severities fm) (KeywordFields fm) (HostMatch fm).

(** The roles Dasha cannot do without, and those a map leaves unbound. *)
Definition required (fm : FieldMap) : list (string * string) :=
  [(RoleTimestamp, fm_Timestamp fm); (RoleSeverity, fm_Severity fm); (RoleText, fm_Text fm); (RoleHost, fm_Host fm)].
Definition unbound (fm : FieldMap) : list string := (filter (λ rf : string * string, rf.2 = "") (required fm)).*1.

Definition FieldMapFromConfig (c : LogFieldMapConfig) : map_error + FieldMap :=
  let base :=
    if decide (c_Preset c ≠ "" ∧ c_Preset c ≠ PresetNone) then from_option inr (inl (UnknownPreset (c_Preset c))) (Preset (c_Preset c))
    else inr zero_map in
  match base with
  | inl e => inl e
  | inr p =>
      let fm := overridden c p in
      if decide (HostMatch fm ≠ HostMatchExact ∧ HostMatch fm ≠ HostMatchSuffix) then inl (BadHostMatch (HostMatch fm))
      else if decide (unbound fm ≠ []) then inl (MissingRoles (sort_slice str_ltb (unbound fm)))
      else if decide (Severities fm = []) then inl NoSeverities
      else inr (with_mask fm (resolveMask fm))
  end.

(** ** [registry.go] *)

(** A provider as the service sees it; [p_Matches] is there for a [ClusterMatcher]. *)
Record Provider := mkProvider {
  p_Streams : list string; p_Fields : string → FieldMap; p_Stream : StreamParams → run; p_Narrow : StreamParams → Filter;
  p_Check : Cluster → string → (error * option ctx_err) + CheckResult; p_Matches : option (Cluster → bool)
}.

Record Registry := mkRegistry { names : list string; providers : gmap string Provider; defaultName : string }.

Definition NewRegistry : Registry := mkRegistry [] ∅ "".

Definition Register (r : Registry) (name : string) (p : Provider) : Registry :=
  mkRegistry (match providers r !! name with None => names r ++ [name] | Some _ => names r end) (<[name := p]> (providers r)) (defaultName r).

Definition SetDefault (r : Registry) (name : string) : Registry := mkRegistry (names r) (providers r) name.

Definition claims (r : Registry) (cluster : Cluster) (name : string) : option (Provider * string) :=
  p ← providers r !! name; m ← p_Matches p; if (m : Cluster → bool) cluster then Some (p, name) else None.

Definition For (r : Registry) (cluster : Cluster) : option (Provider * string) :=
  if decide (LogSource cluster ≠ "") then (λ p, (p, LogSource cluster)) <$> providers r !! LogSource cluster
  else
    match head (omap (claims r cluster) (names r)) with
    | Some found => Some found
    | None =>
        if decide (defaultName r ≠ "") then (λ p, (p, defaultName r)) <$> providers r !! defaultName r else None
    end.

Definition Supports (r : Registry) (cluster : Cluster) : bool := bool_decide (is_Some (For r cluster)).

Definition stream_severities (r : Registry) (cluster : Cluster) : gmap string (list string) :=
  match For r cluster with
  | None => ∅
  | Some (p, _) =>
      foldl (λ out stream, let fm := p_Fields p stream in if decide (Severities fm ≠ []) then <[stream := Severities fm]> out else out)
        ∅ (p_Streams p)
  end.

Definition stream_names (r : Registry) (cluster : Cluster) : list string := from_option (λ pn : Provider * string, p_Streams pn.1) [] (For r cluster).

(** ** The field maps that are accepted *)

Record field_map_ok (fm : FieldMap) : Prop := {
  ok_bound : ∀ role f, (role, f) ∈ required fm → f ≠ "";
  ok_text_masked : fm_Text fm ∈ Mask fm;
  ok_mask : NoDup (Mask fm) ∧ "" ∉ Mask fm;
  ok_severities : Severities fm ≠ [];
  ok_host_match : HostMatch fm ∈ [HostMatchExact; HostMatchSuffix]
}.

Lemma add_field_elem out f g : g ∈ add_field out f ↔ g ∈ out ∨ g ≠ "" ∧ g = f.
Proof. unfold add_field. case_decide; [rewrite elem_of_appendUnique|]; naive_solver. Qed.

Lemma add_field_nodup out f : NoDup out → NoDup (add_field out f).
Proof. intros. unfold add_field. case_decide; [|done]. by apply appendUnique_nodup. Qed.

(** The fields that are masked: the text, every field listed, and the field of that name
    beside the text when the text is nested. *)
Definition masked (fm : FieldMap) (f : string) : Prop :=
  f ≠ "" ∧ (f = fm_Text fm ∨ f ∈ Mask fm ∨
    ∃ prefix g, before_last_dot (fm_Text fm) = Some prefix ∧ g ∈ Mask fm ∧ has_dot g = false ∧ f = prefix +:+ g).

Lemma before_last_dot_nonempty s p : before_last_dot s = Some p → p ≠ "".
Proof.
  destruct s as [|c s]; [done|]. cbn. destruct (before_last_dot s); [by intros [= <-]|]. case_decide; [by intros [= <-]|done].
Qed.

(** The prefix ends at the last dot. *)
Lemma before_last_dot_spec s :
  match before_last_dot s with
  | Some p => ∃ leaf, s = p +:+ leaf ∧ has_dot leaf = false
  | None => True
  end.
Proof.
  induction s as [|c s IH]; [done|]. cbn. destruct (before_last_dot s) as [p|] eqn:Hs.
  - destruct IH as (leaf & -> & Hleaf). by exists leaf.
  - case_decide as Hc; [|done]. exists s. subst c. split; [done|]. unfold has_dot. by rewrite Hs.
Qed.

Lemma mask_steps prefix l out : NoDup out → NoDup (foldl (mask_step prefix) out l) ∧ ∀ f, f ∈ foldl (mask_step prefix) out l ↔
  f ∈ out ∨ f ≠ "" ∧ (f ∈ l ∨ ∃ g, prefix ≠ "" ∧ g ∈ l ∧ has_dot g = false ∧ f = prefix +:+ g).
Proof.
  revert out. induction l as [|x l IH]; intros out Hnd; cbn [foldl].
  - split; [done|]. intros f. setoid_rewrite elem_of_nil. naive_solver.
  - assert (Hx : NoDup (mask_step prefix out x) ∧ ∀ f, f ∈ mask_step prefix out x ↔
      f ∈ out ∨ f ≠ "" ∧ (f = x ∨ prefix ≠ "" ∧ has_dot x = false ∧ f = prefix +:+ x)).
    { unfold mask_step. destruct (bool_decide_reflect (prefix ≠ "")), (has_dot x); cbn [andb negb];
        (split; [by repeat apply add_field_nodup|]); intros f; rewrite !add_field_elem; naive_solver. }
    destruct Hx as [Hx1 Hx2]. destruct (IH _ Hx1) as [H1 H2]. split; [exact H1|]. intros f. rewrite H2, Hx2.
    setoid_rewrite elem_of_cons. naive_solver.
Qed.

Lemma resolveMask_spec fm : NoDup (resolveMask fm) ∧ ∀ f, f ∈ resolveMask fm ↔ masked fm f.
Proof.
  unfold resolveMask, masked. set (prefix := default "" (before_last_dot (fm_Text fm))).
  destruct (mask_steps prefix (Mask fm) (add_field [] (fm_Text fm)) ltac:(apply add_field_nodup, NoDup_nil_2)) as [H1 H2]. split; [exact H1|].
  intros f. rewrite H2, add_field_elem, elem_of_nil. unfold prefix. clear.
  destruct (before_last_dot (fm_Text fm)) as [p|] eqn:Hp; cbn [default]; [pose proof (before_last_dot_nonempty _ _ Hp)|]; naive_solver.
Qed.

(** What the configuration builds on: nothing, or the named preset. *)
Definition starts_from (c : LogFieldMapConfig) (p : FieldMap) : Prop :=
  (c_Preset c ∈ [""; PresetNone] ∧ p = zero_map) ∨ (c_Preset c, p) ∈ presets.

Lemma Preset_spec name p : Preset name = Some p ↔ (name, p) ∈ presets.
Proof. unfold Preset. symmetry. apply elem_of_list_to_map. by apply (bool_decide_unpack _); vm_compute. Qed.

Lemma presets_no_host_match name p : (name, p) ∈ presets → HostMatch p = "" ∧ Severities p ≠ [] ∧ name ∉ [""; PresetNone].
Proof.
  intros Hin. assert (Hall : Forall (λ np : string * FieldMap, HostMatch np.2 = "" ∧ Severities np.2 ≠ [] ∧ np.1 ∉ [""; PresetNone]) presets).
  { repeat constructor; cbn; try done; apply (bool_decide_unpack _); by vm_compute. }
  rewrite list.Forall_forall in Hall. exact (Hall _ Hin).
Qed.

Lemma starts_from_dec c :
  (if decide (c_Preset c ≠ "" ∧ c_Preset c ≠ PresetNone) then from_option inr (inl (UnknownPreset (c_Preset c))) (Preset (c_Preset c))
   else inr zero_map) = inl (UnknownPreset (c_Preset c)) ∧ (∀ p, ¬ starts_from c p) ∨
  ∃ p, (if decide (c_Preset c ≠ "" ∧ c_Preset c ≠ PresetNone) then from_option inr (inl (UnknownPreset (c_Preset c))) (Preset (c_Preset c))
   else inr zero_map) = inr p ∧ starts_from c p.
Proof.
  unfold starts_from. case_decide as Hd.
  - destruct (Preset (c_Preset c)) as [p|] eqn:Hp; cbn [from_option].
    + right. exists p. split; [done|]. right. by apply Preset_spec.
    + left. split; [done|]. intros p [[Hin _]|Hin%Preset_spec]; [|congruence]. rewrite !elem_of_cons, elem_of_nil in Hin. tauto.
  - right. exists zero_map. split; [done|]. left. split; [|done]. rewrite !elem_of_cons.
    destruct (decide (c_Preset c = "")), (decide (c_Preset c = PresetNone)); tauto.
Qed.

Lemma unbound_elem fm role : role ∈ unbound fm ↔ (role, "") ∈ required fm.
Proof.
  unfold unbound. rewrite list_elem_of_fmap. setoid_rewrite list_elem_of_filter. split.
  - intros ([r f] & -> & Hf & Hin). cbn in Hf. by subst f.
  - intros Hin. by exists (role, "").
Qed.

(** A setting is what is configured, or what the preset has when nothing is. *)
Definition chosen (configured preset v : string) : Prop :=
  (configured ≠ "" ∧ v = configured) ∨ (configured = "" ∧ v = preset).

Lemma override_chosen configured preset : chosen configured preset (override configured preset).
Proof. unfold chosen, override. case_decide as Hc; [by left|]. by right. Qed.

(** The roles a search needs, with what is configured for them and what the preset has. *)
Definition needed (c : LogFieldMapConfig) (p : FieldMap) : list (string * string * string) :=
  [(RoleTimestamp, c_Timestamp c, fm_Timestamp p); (RoleSeverity, c_Severity c, fm_Severity p); (RoleText, c_Text c, fm_Text p);
   (RoleHost, c_Host c, fm_Host p)].

(** What an accepted map is, setting by setting. *)
Record built (c : LogFieldMapConfig) (p fm : FieldMap) : Prop := {
  built_needed : chosen (c_Timestamp c) (fm_Timestamp p) (fm_Timestamp fm) ∧ chosen (c_Severity c) (fm_Severity p) (fm_Severity fm) ∧
    chosen (c_Text c) (fm_Text p) (fm_Text fm) ∧ chosen (c_Host c) (fm_Host p) (fm_Host fm);
  built_optional : chosen (c_Database c) (fm_Database p) (fm_Database fm) ∧ chosen (c_User c) (fm_User p) (fm_User fm) ∧
    chosen (c_PID c) (fm_PID p) (fm_PID fm) ∧ chosen (c_QueryID c) (fm_QueryID p) (fm_QueryID fm) ∧
    chosen (c_SQLState c) (fm_SQLState p) (fm_SQLState fm);
  built_keywords : KeywordFields fm = c_KeywordFields c;
  built_severities : Severities fm = if decide (c_Severities c = []) then Severities p else c_Severities c;
  built_host_match : chosen (c_HostMatch c) HostMatchExact (HostMatch fm);
  built_mask : let listed := if decide (c_Mask c = []) then Mask p else c_Mask c in
    ∀ f, f ∈ Mask fm ↔ f ≠ "" ∧ (f = fm_Text fm ∨ f ∈ listed ∨
      ∃ prefix g, before_last_dot (fm_Text fm) = Some prefix ∧ g ∈ listed ∧ has_dot g = false ∧ f = prefix +:+ g)
}.

Lemma unbound_needed c p role : role ∈ unbound (overridden c p) ↔ ∃ configured preset, (role, configured, preset) ∈ needed c p ∧ configured = "" ∧ preset = "".
Proof.
  rewrite unbound_elem. unfold required, needed. cbn [fm_Timestamp fm_Severity fm_Text fm_Host overridden].
  assert (Ho : ∀ x y, override x y = "" ↔ x = "" ∧ y = "").
  { intros x y. unfold override. case_decide as Hx; naive_solver. }
  setoid_rewrite elem_of_cons. setoid_rewrite elem_of_cons. setoid_rewrite elem_of_cons. setoid_rewrite elem_of_cons. setoid_rewrite elem_of_nil.
  split.
  - intros [[= -> He]|[[= -> He]|[[= -> He]|[[= -> He]|[]]]]]; symmetry in He; apply Ho in He as [Hc Hp]; eexists _, _; (split; [|exact (conj Hc Hp)]); auto.
  - intros (x & y & Hin & -> & ->). destruct Hin as [[= -> H1 H2]|[[= -> H1 H2]|[[= -> H1 H2]|[[= -> H1 H2]|[]]]]]; rewrite <- H1, <- H2; auto.
Qed.

Lemma host_match_of c p : starts_from c p → override (override (c_HostMatch c) (HostMatch p)) HostMatchExact =
  (if decide (c_HostMatch c = "") then HostMatchExact else c_HostMatch c).
Proof.
  intros Hs. assert (Hp : HostMatch p = "") by (destruct Hs as [[_ ->]|Hin]; [done|by apply presets_no_host_match in Hin as (? & _)]).
  unfold override. rewrite Hp. by repeat case_decide.
Qed.

(** C31: The field map of a stream is what its configuration asks for, each setting the configured
    one or else that of the preset, and fit to use: the roles the search needs are bound, the values of a severity and the way to match a host are
    known, and the text of a record is masked, with every field listed, wherever it is
    nested. A configuration is refused exactly when its preset is unknown, its way to match a
    host is, a needed role is unbound (and those are named) or it knows no severity. *)
Theorem FieldMapFromConfig_exact c :
  match FieldMapFromConfig c with
  | inr fm => field_map_ok fm ∧ ∃ p, starts_from c p ∧ built c p fm
  | inl (UnknownPreset name) => name = c_Preset c ∧ ∀ p, ¬ starts_from c p
  | inl (BadHostMatch mode) => mode = c_HostMatch c ∧ mode ∉ [""; HostMatchExact; HostMatchSuffix]
  | inl (MissingRoles roles) => ∃ p, starts_from c p ∧ roles ≠ [] ∧ strictly str_ltb roles ∧
      ∀ role, role ∈ roles ↔ ∃ configured preset, (role, configured, preset) ∈ needed c p ∧ configured = "" ∧ preset = ""
  | inl NoSeverities => c_Severities c = [] ∧ starts_from c zero_map
  end.
Proof.
  unfold FieldMapFromConfig. destruct (starts_from_dec c) as [[-> Hn]|(p & -> & Hp)]; [done|]. cbv beta iota zeta.
  assert (Hhm : HostMatch (overridden c p) = if decide (c_HostMatch c = "") then HostMatchExact else c_HostMatch c)
    by exact (host_match_of c p Hp).
  destruct (decide (HostMatch (overridden c p) ≠ HostMatchExact ∧ _)) as [[H1 H2]|Hok].
  { rewrite Hhm in H1, H2 |- *. destruct (decide (c_HostMatch c = "")); [done|]. split; [done|]. set_solver. }
  destruct (decide (unbound (overridden c p) ≠ [])) as [Hu|Hu].
  { exists p. split; [done|]. split; [by intros He; apply (f_equal length) in He; rewrite sort_slice_length in He; destruct (unbound _)|].
    split; [|by intros role; rewrite sort_slice_perm; apply unbound_needed].
    apply (sort_slice_strictly (less_on (id : string → string) str_ltb) (id : string → string)). rewrite list_fmap_id. unfold unbound.
    eapply sublist_NoDup; [|apply fmap_sublist, sublist_filter]. by apply (bool_decide_unpack _); vm_compute. }
  destruct (decide (Severities (overridden c p) = [])) as [Hs|Hs].
  { cbn [Severities overridden] in Hs. case_decide as Hcs; [done|]. split; [done|].
    destruct Hp as [[Hin ->]|Hin]; [by left|]. by apply presets_no_host_match in Hin as (_ & ? & _). }
  destruct (resolveMask_spec (overridden c p)) as [Hnd Hmask]. split.
  - split; cbn [with_mask Mask fm_Text Severities HostMatch].
    + intros role f Hin ->. change (required (with_mask _ _)) with (required (overridden c p)) in Hin. apply unbound_elem in Hin.
      apply Hu. intros He. rewrite He in Hin. by apply not_elem_of_nil in Hin.
    + apply Hmask. split; [|by left]. intros He. apply Hu. intros Hnil. apply (not_elem_of_nil RoleText). rewrite <- Hnil. apply unbound_elem.
      unfold required. rewrite He. by apply (bool_decide_unpack _).
    + split; [done|]. intros [Hne _]%Hmask. done.
    + done.
    + rewrite !elem_of_cons. destruct (decide (HostMatch (overridden c p) = HostMatchExact)); [by left|]. right. left.
      apply dec_stable. tauto.
  - exists p. split; [done|]. clear Hok Hu Hs Hnd. constructor; cbn [with_mask fm_Timestamp fm_Severity fm_Text fm_Host fm_Database fm_User fm_PID
      fm_QueryID fm_SQLState KeywordFields Severities Mask HostMatch overridden]; [split_and!; apply override_chosen..|done| | |].
    + destruct (decide (c_Severities c = [])) as [->|]; [by rewrite decide_False by auto|by rewrite decide_True].
    + unfold chosen. cbn [HostMatch overridden] in Hhm. rewrite Hhm. case_decide; auto.
    + cbv zeta. intros f. rewrite Hmask. unfold masked. cbn [fm_Text Mask overridden].
      destruct (decide (c_Mask c = [])) as [->|]; [by rewrite decide_False by auto|by rewrite decide_True].
Qed.

Definition nested_config : LogFieldMapConfig :=
  mkFieldMapConfig "csvlog" "@timestamp" "pg.severity" "pg.message" "host.name" "" "" "" "" "" [] ∅ [] "suffix".

Example nested_config_mask :
  from_option Mask [] (match FieldMapFromConfig nested_config with inr fm => Some fm | inl _ => None end) =
    ["pg.message"; "message"; "query"; "pg.query"; "internal_query"; "pg.internal_query"; "detail"; "pg.detail"; "hint"; "pg.hint";
     "context"; "pg.context"].
Proof. by vm_compute. Qed.

(** ** The registry *)

(** The names are those of the providers, each once. *)
Definition registry_wf (r : Registry) : Prop := NoDup (names r) ∧ ∀ name, name ∈ names r ↔ is_Some (providers r !! name).

Lemma NewRegistry_wf : registry_wf NewRegistry.
Proof. split; [constructor|]. intros name. cbn. rewrite lookup_empty, elem_of_nil. by split; [|intros []]. Qed.

Lemma Register_wf r name p : registry_wf r → registry_wf (Register r name p).
Proof.
  intros [Hnd Hk]. unfold Register. split; cbn [names providers].
  - destruct (providers r !! name) eqn:Hn; [done|]. apply NoDup_app. split; [done|]. split; [|apply NoDup_singleton].
    intros x Hx%Hk ->%list_elem_of_singleton. rewrite Hn in Hx. by destruct Hx.
  - intros x. destruct (decide (x = name)) as [->|Hne].
    + rewrite lookup_insert_eq. split; [done|]. intros _. destruct (providers r !! name) eqn:Hn; [apply Hk; by rewrite Hn|].
      apply elem_of_app. right. by left.
    + rewrite lookup_insert_ne by done. destruct (providers r !! name); [apply Hk|]. rewrite elem_of_app, list_elem_of_singleton, Hk.
      split; [by intros [?| ->]|by left].
Qed.

(** Which source serves a cluster: the one it names and no other; else the first registered
    that claims it; else the default. *)
Lemma For_spec r cluster : match For r cluster with
  | Some (p, name) => providers r !! name = Some p ∧
      (LogSource cluster = name ∨
       LogSource cluster = "" ∧ ((∃ m, p_Matches p = Some m ∧ m cluster = true) ∨ name = defaultName r))
  | None => providers r !! LogSource cluster = None ∨ LogSource cluster = "" ∧ ∀ name p m, name ∈ names r → providers r !! name = Some p →
      p_Matches p = Some m → m cluster = false
  end.
Proof.
  unfold For. destruct (decide (LogSource cluster ≠ "")) as [Hs|Hs]; [destruct (providers r !! LogSource cluster) eqn:Hp; cbn; [by auto|by left]|].
  apply dec_stable in Hs. destruct (head (omap (claims r cluster) (names r))) as [[p name]|] eqn:Hh.
  - apply head_Some_elem_of, list_elem_of_omap in Hh as (n & Hin & Hc). unfold claims in Hc.
    destruct (providers r !! n) as [q|] eqn:Hq; [|done]. cbn in Hc. destruct (p_Matches q) as [m|] eqn:Hm; [|done]. cbn in Hc.
    destruct (m cluster) eqn:Hmc; [|done]. injection Hc as -> ->. split; [done|]. right. split; [done|]. left. by exists m.
  - assert (Hnone : ∀ name p m, name ∈ names r → providers r !! name = Some p → p_Matches p = Some m → m cluster = false).
    { intros name p m Hin Hp Hm. destruct (m cluster) eqn:Hmc; [|done]. exfalso. apply (not_elem_of_nil (p, name)).
      apply head_None in Hh. rewrite <- Hh. apply list_elem_of_omap. exists name. split; [done|]. unfold claims. rewrite Hp. cbn. rewrite Hm. cbn. by rewrite Hmc. }
    case_decide as Hd; [|right; split; [done|exact Hnone]]. destruct (providers r !! defaultName r) as [p|] eqn:Hp; cbn.
    + split; [done|]. right. split; [done|]. by right.
    + right. split; [done|exact Hnone].
Qed.
