(* ===== verification/LogSearch.v ===== *)
(** * [internal/logs]: searching the log of a cluster ([scan.go], [fields.go], [service.go])

    A search reads the run of its source under a limit, keeps the records that pass its
    filters, masks them, and answers with a page and a cursor or with groups of alike
    messages. An error is its sentinel; messages are left out. *)

From S2P Require Import Prelude GoSlices PatroniLayout Discovery Sqlparse Sanitize GoStrings LogPattern LogInsights LogSource.
From stdpp Require Import pretty options.

#[local] Open Scope string_scope.
#[local] Open Scope Z_scope.
#[local] Open Scope list_scope.

(** The sentinels of the service, the two errors of a context, and whatever a store reports. *)
Inductive service_error := ErrNotFound | ErrUnsupported | ErrInvalid | ErrUpstream | ErrTimeout | ErrDisabled | ErrNoStorage | ErrCanceled |
  ErrDeadline | ErrStore.
#[global] Instance service_error_eq_dec : EqDecision service_error.
Proof. solve_decision. Defined.

(** ** [service.go]: data *)

Definition defaultPageSize : Z := 100.

Record SearchQuery := mkQuery {
  q_Cluster : string; q_Stream : string; q_From : time; q_To : time; q_Severities : list string; q_Host : string;
  q_QueryID : option Z; Include : list string; Exclude : list string; q_Database : string; q_User : string; Dedup : bool;
  PageSize : Z; PageToken : string
}.

Record Entry := mkEntry {
  en_Timestamp : time; en_Severity : string; Hostname : string; en_Text : string; en_Database : string; en_User : string;
  en_Fields : gmap string string; en_Count : Z; FirstSeen : time; LastSeen : time
}.

Record SearchResult := mkResult { Items : list Entry; NextPageToken : string; sr_Dedup : bool; sr_Partial : bool; Scanned : Z }.

Record CheckReport := mkReport { cr_Source : string; cr_Stream : string; cr_Result : CheckResult }.

(** [config.LogSearchConfig], as far as a search reads it. *)
Record LogSearchConfig := mkSearchConfig { MaxScan : Z; MaxPageSize : Z; TimeoutSeconds : Z }.
Definition search_defaults (c : LogSearchConfig) : LogSearchConfig :=
  mkSearchConfig (if MaxScan c <=? 0 then 5000 else MaxScan c) (if MaxPageSize c <=? 0 then 1000 else MaxPageSize c)
    (if TimeoutSeconds c <=? 0 then 30 else TimeoutSeconds c).

(** What the service is built of; [clusters] is what the registry of clusters answers. *)
Record service := mkService { clusters : option (list Cluster); sources : Registry; cfg : LogSearchConfig }.
Definition NewService (cls : option (list Cluster)) (reg : Registry) (c : LogSearchConfig) : service :=
  mkService cls reg (search_defaults c).

Record binding := mkBinding { b_cluster : Cluster; b_provider : Provider; b_sourceName : string; b_fields : FieldMap }.

(** ** [scan.go] *)

Record scanLimits := mkScanLimits { MaxRecords : Z; MaxBytes : Z; MaxRecordBytes : Z; CapRecord : option (LogLine → bool) }.
Record scanStats := mkStats { st_Records : Z; Bytes : Z; Capped : bool; st_Partial : bool }.

Definition searchLimits (c : LogSearchConfig) : scanLimits := mkScanLimits (MaxScan c) 0 0 None.

Definition recordBytes (rec : LogLine) : Z := map_fold (λ _ v n, n ⊞ Z.of_nat (String.length v)) 0 (Fields rec).

(** What a record is charged against the byte budget. *)
Definition charge (limits : scanLimits) (rec : LogLine) : Z :=
  let n := recordBytes rec in
  if (0 <? MaxRecordBytes limits) && (MaxRecordBytes limits <? n) && from_option (λ cap, cap rec) false (CapRecord limits)
  then MaxRecordBytes limits else n.

Definition scan_step {S} (limits : scanLimits) (visit : S → LogLine → S * bool) (sst : S * scanStats) (rec : LogLine) : (S * scanStats) * bool :=
  let '(s, st) := sst in
  let '(s, ok) := visit s rec in
  if negb ok then ((s, st), false)
  else
    let n := st_Records st ⊞ 1 in
    let bytes := if 0 <? MaxBytes limits then Bytes st ⊞ charge limits rec else Bytes st in
    let capped := (0 <? MaxRecords limits) && (MaxRecords limits <=? n) || (0 <? MaxBytes limits) && (MaxBytes limits <=? bytes) in
    ((s, mkStats n bytes (if capped then true else Capped st) (st_Partial st)), negb capped).

(** [classify]: what has become of the context goes before what the source says. *)
Definition classify (ctx : option ctx_err) (e : error) : service_error :=
  if decide (ctx = Some DeadlineExceeded) then ErrTimeout
  else if decide (ctx = Some Canceled ∨ Is e ContextCanceled = true) then ErrCanceled
  else if Is e ErrStream || Is e ErrUnavailable then ErrUnsupported
  else if Is e ErrInvalidToken then ErrInvalid
  else ErrUpstream.

Definition no_stats : scanStats := mkStats 0 0 false false.

Definition scan {S} (r : run) (limits : scanLimits) (visit : S → LogLine → S * bool) (s : S) : S * scanStats * option service_error :=
  let '((s, st), err) := run_stream r (scan_step limits visit) (s, no_stats) in
  match err with
  | None => (s, st, None)
  | Some e => (s, mkStats (st_Records st) (Bytes st) (Capped st) (Is e ErrPartial), Some (classify (ctx_done r) e))
  end.

(** ** [fields.go] *)

Definition severityRank (s : string) : Z :=
  let u := upper_word s in
  if decide (u = "PANIC") then 9 else if decide (u = "FATAL") then 8 else if decide (u = "ERROR") then 7
  else if decide (u = "WARNING") then 6 else if decide (u = "NOTICE") then 5 else if decide (u = "LOG") then 4
  else if decide (u = "INFO") then 3 else if decide (u = "DEBUG") then 2 else if decide (u = "NOISE") then 1 else 0.

Section service.
Context `{GoText}.

Definition containsFold (haystack needle : string) : bool := Contains (ToLower haystack) (ToLower needle).

(** ** [service.go]: from a request to a read *)

Definition findCluster (s : service) (name : string) : option Cluster :=
  match clusters s with
  | None => None
  | Some cls => head (filter (λ c, Name c = name) cls)
  end.

Definition SourceName (s : service) (cluster : string) : string :=
  from_option (λ pn : Provider * string, pn.2) "" (c ← findCluster s cluster; For (sources s) c).

Definition resolve (s : service) (cluster stream : string) : service_error + binding :=
  match findCluster s cluster with
  | None => inl ErrNotFound
  | Some c =>
      match For (sources s) c with
      | None => inl ErrUnsupported
      | Some (provider, sourceName) =>
          let fm := p_Fields provider stream in
          if no_map fm then inl ErrUnsupported else inr (mkBinding c provider sourceName fm)
      end
  end.

Definition hostInCluster (cluster : Cluster) (host : string) : bool := bool_decide (host ∈ Hosts cluster).

(** [None] is a window that can be read. *)
Definition validateWindow (cluster : Cluster) (from to : time) (host : string) : option service_error :=
  if negb (time_before from to) then Some ErrInvalid
  else if bool_decide (host ≠ "") && negb (hostInCluster cluster host) then Some ErrInvalid
  else None.

Fixpoint canonical (fm : FieldMap) (raws : list string) : service_error + list string :=
  match raws with
  | [] => inr []
  | raw :: raws =>
      if decide (raw = "") then canonical fm raws
      else
        match CanonicalSeverity fm raw with
        | None => inl ErrInvalid
        | Some v => match canonical fm raws with inl e => inl e | inr vs => inr (v :: vs) end
        end
  end.

Definition validate (cluster : Cluster) (fm : FieldMap) (q : SearchQuery) : service_error + list string :=
  match validateWindow cluster (q_From q) (q_To q) (q_Host q) with
  | Some e => inl e
  | None =>
      if Dedup q && bool_decide (PageToken q ≠ "") then inl ErrInvalid
      else if bool_decide (q_QueryID q ≠ None) && bool_decide (fm_QueryID fm = "") then inl ErrInvalid
      else canonical fm (q_Severities q)
  end.

(** ** [service.go]: records to entries *)

Definition maskFields (fields : gmap string string) (fm : FieldMap) : gmap string string :=
  foldl (λ m mk, match m !! mk with Some v => <[mk := Sanitize.SQL v]> m | None => m end) fields (Mask fm).

(** One exclusion: against the template of the record when it holds the placeholder. *)
Definition excluded (text ex : string) : bool :=
  if decide (ex = "") then false
  else if Contains ex Placeholder then containsFold (Display text) ex
  else containsFold text ex.

Definition toEntry (q : SearchQuery) (fm : FieldMap) (rec : LogLine) : option Entry :=
  let text := field (Fields rec) (fm_Text fm) in
  if existsb (λ inc, bool_decide (inc ≠ "") && negb (containsFold text inc)) (Include q) then None
  else if existsb (excluded text) (Exclude q) then None
  else if from_option (λ id, bool_decide (field (Fields rec) (fm_QueryID fm) ≠ pretty id)) false (q_QueryID q) then None
  else if bool_decide (q_Database q ≠ "") && negb (containsFold (field (Fields rec) (fm_Database fm)) (q_Database q)) then None
  else if bool_decide (q_User q ≠ "") && negb (containsFold (field (Fields rec) (fm_User fm)) (q_User q)) then None
  else
    let masked := maskFields (Fields rec) fm in
    Some (mkEntry (Timestamp rec) (field masked (fm_Severity fm)) (field masked (fm_Host fm)) (field masked (fm_Text fm))
      (field masked (fm_Database fm)) (field masked (fm_User fm)) masked 0 zero_time zero_time).

(** ** [service.go]: a page *)

Definition page_size (c : LogSearchConfig) (q : SearchQuery) : Z :=
  let n := if PageSize q <=? 0 then defaultPageSize else PageSize q in
  if MaxPageSize c <? n then MaxPageSize c else n.

Record page_state := mkPage { pg_items : list Entry; pg_token : string; pg_more : bool }.

Definition page_visit (q : SearchQuery) (fm : FieldMap) (size : Z) (s : page_state) (rec : LogLine) : page_state * bool :=
  match toEntry q fm rec with
  | Some e =>
      if size <=? Z.of_nat (length (pg_items s)) then (mkPage (pg_items s) (pg_token s) true, false)
      else (mkPage (pg_items s ++ [e]) (Token rec) (pg_more s), true)
  | None => (mkPage (pg_items s) (Token rec) (pg_more s), true)
  end.

Definition searchPage (c : LogSearchConfig) (r : run) (q : SearchQuery) (fm : FieldMap) : service_error + SearchResult :=
  let '(s, st, err) := scan r (searchLimits c) (page_visit q fm (page_size c q)) (mkPage [] "" false) in
  match err with
  | Some e =>
      if decide (e = ErrTimeout ∧ pg_items s ≠ []) then inr (mkResult (pg_items s) (pg_token s) false true (st_Records st))
      else if st_Partial st then inr (mkResult (pg_items s) "" false true (st_Records st))
      else inl e
  | None =>
      inr (mkResult (pg_items s) (if pg_more s || Capped st then pg_token s else "") false (Capped st) (st_Records st))
  end.

(** ** [service.go]: groups of alike messages *)

Definition new_group (e : Entry) : Entry :=
  mkEntry (en_Timestamp e) (en_Severity e) (Hostname e) (Display (en_Text e)) (en_Database e) (en_User e) (en_Fields e)
    1 (en_Timestamp e) (en_Timestamp e).

Definition join_group (g e : Entry) : Entry :=
  let later := time_after (en_Timestamp e) (LastSeen g) in
  mkEntry (en_Timestamp g) (if severityRank (en_Severity g) <? severityRank (en_Severity e) then en_Severity e else en_Severity g)
    (Hostname g) (en_Text g) (en_Database g) (en_User g) (if later then en_Fields e else en_Fields g)
    (en_Count g ⊞ 1) (if time_before (en_Timestamp e) (FirstSeen g) then en_Timestamp e else FirstSeen g)
    (if later then en_Timestamp e else LastSeen g).

Definition dedup_visit (q : SearchQuery) (fm : FieldMap) (m : gmap string Entry) (rec : LogLine) : gmap string Entry * bool :=
  match toEntry q fm rec with
  | None => (m, true)
  | Some e =>
      let key := Key (en_Text e) in
      (<[key := match m !! key with Some g => join_group g e | None => new_group e end]> m, true)
  end.

Definition group_less : Entry → Entry → bool := lex_less (more_on en_Count Z.ltb) (more_on LastSeen Z.ltb).

Definition searchDedup `{MapRange} (c : LogSearchConfig) (r : run) (q : SearchQuery) (fm : FieldMap) : service_error + SearchResult :=
  let '(m, st, err) := scan r (searchLimits c) (dedup_visit q fm) ∅ in
  let result capped := mkResult (sort_slice group_less (map_range "searchDedup.groups" m).*2) "" true capped (st_Records st) in
  match err with
  | None => inr (result (Capped st))
  | Some e =>
      if decide (st_Partial st = true ∨ e = ErrTimeout ∧ m ≠ ∅) then inr (result true) else inl e
  end.

(** ** [service.go]: the operations *)

Definition Search `{MapRange} (s : service) (q : SearchQuery) : service_error + SearchResult :=
  match resolve s (q_Cluster q) (q_Stream q) with
  | inl e => inl e
  | inr b =>
      match validate (b_cluster b) (b_fields b) q with
      | inl e => inl e
      | inr severities =>
          let params f := mkParams (b_cluster b) (q_Stream q) (q_From q) (q_To q) f (PageToken q) in
          let f := mkFilter severities (q_Host q) (q_QueryID q) [] in
          let f := if decide (q_QueryID q ≠ None)
                   then mkFilter severities (q_Host q) (f_QueryID (p_Narrow (b_provider b) (params f))) [] else f in
          let r := p_Stream (b_provider b) (params f) in
          if Dedup q then searchDedup (cfg s) r q (b_fields b) else searchPage (cfg s) r q (b_fields b)
      end
  end.

Definition Check_source (s : service) (cluster stream : string) : service_error + CheckReport :=
  match resolve s cluster stream with
  | inl e => inl e
  | inr b =>
      match p_Check (b_provider b) (b_cluster b) stream with
      | inl (e, ctx) => inl (classify ctx e)
      | inr res =>
          inr (mkReport (b_sourceName b) stream
            (mkCheck (Target res) (Documents res) (Found res) (Missing res) (Types res) ((λ f, maskFields f (b_fields b)) <$> Sample res)))
      end
  end.
End service.

(** ** What a scan reads *)

(** The state after records none of which the visitor turns away. *)
Fixpoint visits {S} (visit : S → LogLine → S * bool) (s : S) (l : list LogLine) : option S :=
  match l with
  | [] => Some s
  | x :: l => let '(s, ok) := visit s x in if ok then visits visit s l else None
  end.

(** Why a scan ends: the source has no more, a limit is reached, or the visitor turns the
    next record away. *)
Inductive scan_end {S} (visit : S → LogLine → S * bool) (s1 : S) : list LogLine → S → bool → bool → Prop :=
  | end_source : scan_end visit s1 [] s1 true false
  | end_limit post : scan_end visit s1 post s1 false true
  | end_visitor x post s' : visit s1 x = (s', false) → scan_end visit s1 (x :: post) s' false false.

(** A record that counts, under a limit on the number of records alone. *)
Definition counted (max : Z) (st : scanStats) : scanStats :=
  mkStats (st_Records st + 1) (Bytes st) (if max <=? st_Records st + 1 then true else Capped st) (st_Partial st).

Section scan.
Context {S : Type} (max : Z) (visit : S → LogLine → S * bool) (Hmax : 0 < max ∧ int64 max).
Let limits : scanLimits := mkScanLimits max 0 0 None.

Lemma scan_step_count s st x : 0 ≤ st_Records st < max → scan_step limits visit (s, st) x =
  let '(s', ok) := visit s x in
  if ok then ((s', counted max st), negb (max <=? st_Records st + 1)) else ((s', st), false).
Proof using Hmax.
  intros Hst. unfold scan_step, counted, limits. cbn [MaxRecords MaxBytes]. destruct (visit s x) as [s' []]; cbn [negb]; [|done].
  rewrite add64_small by (unfold int64, min64, max64 in *; lia). rewrite (proj2 (Z.ltb_lt 0 max)) by lia. cbn [andb]. rewrite orb_false_r. done.
Qed.

Lemma scan_feed l s st : 0 ≤ st_Records st < max → Capped st = false →
  ∃ pre post s1 s' st' fin, l = pre ++ post ∧ feed (scan_step limits visit) (s, st) l = ((s', st'), fin) ∧
    visits visit s pre = Some s1 ∧ scan_end visit s1 post s' fin (Capped st') ∧
    st_Records st' = st_Records st + Z.of_nat (length pre) ∧ st_Records st' ≤ max ∧ st_Partial st' = st_Partial st ∧
    (Capped st' = true ↔ st_Records st' = max).
Proof using Hmax.
  revert s st. induction l as [|x l IH]; intros s st Hst Hc.
  { exists [], [], s, s, st, true. cbn. rewrite Hc. split_and!; try done; [constructor|lia|lia|]. split; [done|lia]. }
  cbn [feed]. rewrite scan_step_count by done. destruct (visit s x) as [s2 ok] eqn:Hv. destruct ok; [|].
  - unfold counted. destruct (Z.leb_spec max (st_Records st + 1)) as [Hle|Hlt]; cbn [negb].
    + exists [x], l, s2, s2, (mkStats (st_Records st + 1) (Bytes st) true (st_Partial st)), false. cbn. rewrite Hv.
      split_and!; try done; [constructor|lia..|]. split; [lia|done].
    + destruct (IH s2 (mkStats (st_Records st + 1) (Bytes st) (Capped st) (st_Partial st))) as (pre & post & s1 & s' & st' & fin & -> & Hf & Hvs & He & Hn & Hm & Hp & Hcap);
        [cbn; lia|done|].
      exists (x :: pre), post, s1, s', st', fin. cbn [app visits length]. rewrite Hv. cbn in Hn, Hp. split_and!; try done. lia.
  - exists [], (x :: l), s, s2, st, false. cbn. rewrite Hc. split_and!; try done; [by constructor|lia|lia|]. split; [done|lia].
Qed.
End scan.

(** The defaults leave every limit positive. *)
Lemma search_defaults_positive c : 0 < MaxScan (search_defaults c) ∧ 0 < MaxPageSize (search_defaults c) ∧ 0 < TimeoutSeconds (search_defaults c).
Proof.
  unfold search_defaults. cbn [MaxScan MaxPageSize TimeoutSeconds].
  destruct (Z.leb_spec (MaxScan c) 0), (Z.leb_spec (MaxPageSize c) 0), (Z.leb_spec (TimeoutSeconds c) 0); lia.
Qed.

Lemma search_defaults_int64 c : int64 (MaxScan c) → int64 (MaxScan (search_defaults c)).
Proof. intros. unfold search_defaults. cbn [MaxScan]. destruct (Z.leb_spec (MaxScan c) 0); [unfold int64, min64, max64; lia|done]. Qed.

Lemma page_size_positive c q : 0 < MaxPageSize c → 0 < page_size c q ≤ MaxPageSize c.
Proof.
  unfold page_size, defaultPageSize. intros. destruct (Z.leb_spec (PageSize q) 0), (Z.ltb_spec (MaxPageSize c) (if PageSize q <=? 0 then 100 else PageSize q));
    repeat case_match; lia.
Qed.

(** ** Paging loses and repeats nothing *)

Definition content (x : LogLine) : time * gmap string string := (Timestamp x, Fields x).

(** What a source promises of the cursors it has [issued]: a read that starts from the cursor of a record
    hands out what was to come after that record, and every read is in the order [R] of
    time. Records of one time may come in another order each time. *)
Class Resumable (R : time → time → Prop) (issued : string → Prop) (open : nat → string → run) : Prop := {
  issued_start : issued "";
  issued_next : ∀ n tk x, issued tk → x ∈ delivered (open n tk) → Token x ≠ "" ∧ issued (Token x);
  answers : ∀ n tk, issued tk → failed (open n tk) = None;
  ordered : ∀ n tk, issued tk → StronglySorted (λ x y, R (Timestamp x) (Timestamp y)) (delivered (open n tk));
  resumes : ∀ n tk pre x post, issued tk → delivered (open n tk) = pre ++ x :: post →
    ∀ m, content <$> delivered (open m (Token x)) ≡ₚ content <$> post
}.

Section paging.
Context `{GoText} (c : LogSearchConfig) (q : SearchQuery) (fm : FieldMap).

Lemma toEntry_content x y : content x = content y → toEntry q fm x = toEntry q fm y.
Proof. intros [= Ht Hf]. unfold toEntry. by rewrite Ht, Hf. Qed.

Lemma toEntry_time x e : toEntry q fm x = Some e → en_Timestamp e = Timestamp x.
Proof. unfold toEntry. repeat case_match; by intros [= <-]. Qed.

Lemma entries_perm l l' : content <$> l ≡ₚ content <$> l' → omap (toEntry q fm) l ≡ₚ omap (toEntry q fm) l'.
Proof.
  intros Hp. destruct (Permutation_map_inv content _ Hp) as (l2 & Heq & Hp2). rewrite Hp2. clear Hp Hp2.
  change (map content ?x) with (content <$> x) in Heq.
  revert l2 Heq. induction l as [|x l IH]; intros [|y l2]; try done. intros [= Ht Hf Heq]. cbn.
  rewrite (toEntry_content x y) by (unfold content; congruence). destruct (toEntry q fm y); [apply perm_skip|]; by apply IH.
Qed.

Lemma page_visits size s l s1 : visits (page_visit q fm size) s l = Some s1 → Z.of_nat (length (pg_items s)) ≤ size →
  pg_items s1 = pg_items s ++ omap (toEntry q fm) l ∧ Z.of_nat (length (pg_items s1)) ≤ size ∧ pg_more s1 = pg_more s ∧
  pg_token s1 = from_option Token (pg_token s) (last l).
Proof.
  revert s. induction l as [|x l IH]; intros s; cbn [visits].
  - intros [= <-] Hs. cbn. rewrite app_nil_r. done.
  - assert (Htoken : ∀ t, from_option Token t (last (x :: l)) = from_option Token (Token x) (last l)) by (intros t; rewrite last_cons; by destruct (last l)).
    unfold page_visit at 1. destruct (toEntry q fm x) as [e|] eqn:He.
    + destruct (Z.leb_spec size (Z.of_nat (length (pg_items s)))) as [|Hroom]; [done|]. intros Hv _.
      apply IH in Hv as (Hi & Hf & Hm & Ht); cbn [pg_items pg_more pg_token] in *; [|rewrite length_app; cbn [length]; lia].
      split_and!; [|done|done|by rewrite Ht, Htoken]. rewrite Hi, <- app_assoc. cbn. by rewrite He.
    + intros Hv Hs. apply IH in Hv as (Hi & Hf & Hm & Ht); [|done]. cbn [pg_items pg_more pg_token] in *.
      split_and!; [|done|done|by rewrite Ht, Htoken]. rewrite Hi. cbn. by rewrite He.
Qed.

(** One page of a read that does not fail: the entries of some of its first records, at most
    as many as the page holds, and a cursor exactly when records are left. *)
Lemma page_exact r : 0 < MaxScan c → int64 (MaxScan c) → 0 < MaxPageSize c → failed r = None →
  ∃ pre post res, delivered r = pre ++ post ∧ searchPage c r q fm = inr res ∧ Items res = omap (toEntry q fm) pre ∧
    Z.of_nat (length (Items res)) ≤ page_size c q ∧ Scanned res = Z.of_nat (length pre) ∧ Scanned res ≤ MaxScan c ∧
    (NextPageToken res = "" ∧ post = [] ∨ pre ≠ [] ∧ NextPageToken res = from_option Token "" (last pre)).
Proof.
  intros Hscan Hint Hpage Hok. pose proof (page_size_positive c q Hpage) as Hsize.
  destruct (scan_feed (MaxScan c) (page_visit q fm (page_size c q)) (conj Hscan Hint) (delivered r) (mkPage [] "" false) no_stats)
    as (pre & post & s1 & s' & st' & fin & Hsplit & Hf & Hv & He & Hn & Hm & _ & Hcap); [cbn; lia|done|].
  apply page_visits in Hv as (Hi & Hfits & Hmore & Htok); [|cbn; lia]. cbn [pg_items pg_more pg_token app] in Hi, Hmore, Htok. cbn in Hn.
  assert (Hkeep : pg_items s' = pg_items s1 ∧ pg_token s' = pg_token s1 ∧
      (if fin then pg_more s' = false ∧ post = [] ∧ Capped st' = false else pg_more s' || Capped st' = true ∧ pre ≠ [])).
  { destruct He as [|post|x post s' Hx]; [done| |].
    - split; [done|]. split; [done|]. split; [apply orb_true_r|]. intros ->. pose proof (proj1 Hcap eq_refl). cbn in Hn. lia.
    - unfold page_visit in Hx. destruct (toEntry q fm x); [|done]. destruct (Z.leb_spec (page_size c q) (Z.of_nat (length (pg_items s1)))); [|done].
      injection Hx as <-. split; [done|]. split; [done|]. split; [done|]. intros ->. rewrite Hi in *. cbn in *. lia. }
  destruct Hkeep as (Hi' & Ht' & Hend). unfold searchPage, scan, run_stream. change (searchLimits c) with (mkScanLimits (MaxScan c) 0 0 None).
  rewrite Hf. exists pre, post. rewrite Hok. assert (Hnone : (if fin then @None error else None) = None) by by destruct fin. rewrite Hnone.
  eexists. split; [done|]. split; [reflexivity|]. cbn [Items NextPageToken Scanned]. split; [congruence|]. split; [congruence|].
  split; [lia|]. split; [lia|]. rewrite Ht', Htok. destruct fin.
  - destruct Hend as (-> & -> & ->). by left.
  - destruct Hend as [-> Hne]. by right.
Qed.
End paging.

Section follow.
Context `{GoText} (c : LogSearchConfig) (q : SearchQuery) (fm : FieldMap) (R : time → time → Prop) (issued : string → Prop) (open : nat → string → run).

(** A client that follows the cursor until there is none, and whether it came to the end. *)
Fixpoint follow (fuel n : nat) (tk : string) : list (list Entry) * bool :=
  match fuel with
  | O => ([], false)
  | Datatypes.S fuel =>
      match searchPage c (open n tk) q fm with
      | inl _ => ([], false)
      | inr res =>
          if decide (NextPageToken res = "") then ([Items res], true)
          else let '(pages, done) := follow fuel (Datatypes.S n) (NextPageToken res) in (Items res :: pages, done)
      end
  end.

Definition in_order (l : list Entry) : Prop := StronglySorted (λ e f, R (en_Timestamp e) (en_Timestamp f)) l.

Lemma entries_in_order l : StronglySorted (λ x y, R (Timestamp x) (Timestamp y)) l → in_order (omap (toEntry q fm) l).
Proof.
  induction 1 as [|x l Hs IH Hall]; [constructor|]. cbn. destruct (toEntry q fm x) as [e|] eqn:He; [|done]. constructor; [done|].
  apply list.Forall_forall. intros f (y & Hy & Hf)%list_elem_of_omap. rewrite list.Forall_forall in Hall.
  rewrite (toEntry_time q fm _ _ He), (toEntry_time q fm _ _ Hf). by apply Hall.
Qed.

Lemma in_order_app l1 l2 : in_order l1 → in_order l2 → (∀ e f, e ∈ l1 → f ∈ l2 → R (en_Timestamp e) (en_Timestamp f)) → in_order (l1 ++ l2).
Proof.
  induction 1 as [|e l1 Hs IH Hall]; intros H2 Hx; [done|]. cbn. constructor.
  - apply IH; [done|]. intros e' f He' Hf. apply Hx; [by right|done].
  - apply Forall_app. split; [done|]. apply list.Forall_forall. intros f Hf. apply Hx; [by left|done].
Qed.

Context `{!Resumable R issued open} (Hscan : 0 < MaxScan c) (Hint : int64 (MaxScan c)) (Hpage : 0 < MaxPageSize c).

Lemma follow_all fuel n tk : issued tk → (length (delivered (open n tk)) < fuel)%nat →
  let '(pages, done) := follow fuel n tk in
  done = true ∧ concat pages ≡ₚ omap (toEntry q fm) (delivered (open n tk)) ∧ in_order (concat pages) ∧
  Forall (λ p, Z.of_nat (length p) ≤ page_size c q) pages ∧ (length pages ≤ Datatypes.S (length (delivered (open n tk))))%nat.
Proof using Hscan Hint Hpage Resumable0.
  revert n tk. induction fuel as [|fuel IH]; intros n tk Htk Hlen; [lia|]. cbn [follow].
  destruct (page_exact c q fm (open n tk) Hscan Hint Hpage (answers n tk Htk)) as (pre & post & res & Hsplit & -> & Hi & Hfits & _ & _ & Hnext).
  pose proof (ordered n tk Htk) as Hord. rewrite Hsplit in Hord |- *. rewrite Hsplit, length_app in Hlen.
  destruct Hnext as [[-> ->]|[Hne Hnext]].
  - rewrite decide_True by done. cbn [concat]. rewrite app_nil_r in Hord |- *. rewrite app_nil_r, Hi. rewrite Hi in Hfits.
    split; [done|]. split; [done|]. split; [by apply entries_in_order|]. split; [by constructor|]. cbn. lia.
  - destruct (last pre) as [x|] eqn:Hx; [|by apply last_None in Hx]. cbn [from_option] in Hnext. apply last_Some in Hx as [pre' ->].
    destruct (issued_next n tk x Htk) as [Htok Hiss]; [rewrite Hsplit; set_solver|]. rewrite Hnext, decide_False by done.
    rewrite <- app_assoc in Hsplit. cbn in Hsplit. pose proof (resumes n tk pre' x post Htk Hsplit (Datatypes.S n)) as Hp.
    assert (Hlen' : length (delivered (open (Datatypes.S n) (Token x))) = length post).
    { apply Permutation_length in Hp. by rewrite !length_fmap in Hp. }
    specialize (IH (Datatypes.S n) (Token x)). rewrite length_app in Hlen. cbn [length] in Hlen. destruct (follow fuel _ _) as [pages done].
    destruct IH as (-> & Hperm & Hsorted & Hsmall & Hn); [done|lia|]. cbn [concat]. rewrite Hi. apply (entries_perm q fm) in Hp.
    split; [done|]. split; [by rewrite (omap_app _ (pre' ++ [x]) post), Hperm, Hp|]. split; [|split].
    + apply StronglySorted_app in Hord as (Hcross & Hpre & _). apply in_order_app; [by apply entries_in_order|done|].
      intros e f (y & Hy & He)%list_elem_of_omap Hf. rewrite Hperm, Hp in Hf. apply list_elem_of_omap in Hf as (z & Hz & Hf).
      rewrite (toEntry_time q fm _ _ He), (toEntry_time q fm _ _ Hf). by apply Hcross.
    + constructor; [by rewrite <- Hi|done].
    + cbn [length]. rewrite Hlen' in Hn. rewrite !length_app. cbn. lia.
Qed.
End follow.

(** C29: A client that follows the cursors of a search comes to the end, and has then seen every
    record that passes the filters exactly once, in the order of time, however small the
    pages and the budget of a scan are and in whatever order the source hands out the records
    of one time on each read. No page is longer than was asked for, and there are at most as
    many pages as records, and one. *)
Theorem search_pages_exact `{GoText} conf q fm R issued open `{!Resumable R issued open} :
  int64 (MaxScan conf) →
  let c := search_defaults conf in let all := delivered (open 0%nat "") in
  let '(pages, done) := follow c q fm open (S (length all)) 0 "" in
  done = true ∧ concat pages ≡ₚ omap (toEntry q fm) all ∧ in_order R (concat pages) ∧
  Forall (λ p, Z.of_nat (length p) ≤ page_size c q) pages ∧ (length pages ≤ S (length all))%nat.
Proof.
  intros Hint c all. destruct (search_defaults_positive conf) as (Hs & Hp & _). pose proof (search_defaults_int64 conf Hint : int64 (MaxScan c)) as Hi.
  exact (follow_all c q fm R issued open Hs Hi Hp (S (length all)) 0 "" issued_start (Nat.lt_succ_diag_r _)).
Qed.

(** A source of two records, for the examples. *)
Definition two_lines (tk : string) : list LogLine :=
  let line ts text token := mkLine ts {["message" := text]} token in
  if decide (tk = "") then [line 1 "a" "x"; line 2 "b" "y"] else if decide (tk = "x") then [line 2 "b" "y"] else [].
Definition small_source (_ : nat) (tk : string) : run := mkRun (two_lines tk) None None.

Definition plain_text : GoText := {|
  parse_json _ := None; url_Parse _ := None; ToLower := λ s, s; EqualFold := λ a b, bool_decide (a = b)
|}.
Definition any_query (size : Z) : SearchQuery := mkQuery "c" "postgresql" 0 9 [] "" None [] [] "" "" false size "".
Definition message_map : FieldMap := mkFieldMap "ts" "" "message" "" "" "" "" "" "" ["message"] ["LOG"] ∅ "exact".

Lemma small_source_resumable : Resumable Z.le (λ _, True) small_source.
Proof.
  unfold small_source, two_lines. split; cbn [delivered failed]; [done| |done| |].
  - intros _ tk x _. repeat case_decide; intros Hx; repeat (apply elem_of_cons in Hx as [->|Hx]; [done|]); by apply not_elem_of_nil in Hx.
  - intros _ tk _. repeat case_decide; repeat constructor; cbn; lia.
  - intros _ tk pre x post _ Heq _. repeat case_decide; destruct pre as [|a [|b [|? ?]]]; try discriminate Heq; injection Heq;
      intros; subst; done.
Qed.

Lemma search_pages_exact_witness :
  let pages n := follow (H := plain_text) (search_defaults (mkSearchConfig 0 0 0)) (any_query 1) message_map small_source n 0 "" in
  map (map en_Text) (pages 3%nat).1 = [["a"]; ["b"]] ∧
  let '(ps, done) := pages (S (length (delivered (small_source 0 "")))) in done = true ∧ in_order Z.le (concat ps).
Proof.
  split; [by vm_compute|].
  pose proof (@search_pages_exact plain_text (mkSearchConfig 0 0 0) (any_query 1) message_map Z.le (λ _, True) small_source small_source_resumable
    ltac:(unfold int64, min64, max64; cbn; lia)) as Hex.
  cbv zeta in Hex. destruct (follow _ _ _ _ _ _ _) as [ps done]. by destruct Hex as (-> & _ & Hs & _).
Defined.

(** ** Groups of alike messages *)

(** What the row of a group says of its records: the first gives its place and its template,
    the worst its severity, the latest its fields. *)
Record alike (es : list Entry) (g : Entry) : Prop := {
  al_count : en_Count g = Z.of_nat (length es);
  al_span : spans (FirstSeen g) (LastSeen g) (en_Timestamp <$> es);
  al_first : ∀ e rest, es = e :: rest → (en_Timestamp g, Hostname g, en_Database g, en_User g, en_Text g) =
    (en_Timestamp e, Hostname e, en_Database e, en_User e, Display (en_Text e));
  al_severity : en_Severity g ∈ en_Severity <$> es ∧ Forall (λ e, severityRank (en_Severity e) ≤ severityRank (en_Severity g)) es;
  al_fields : ∃ e, e ∈ es ∧ en_Timestamp e = LastSeen g ∧ en_Fields g = en_Fields e
}.

Section dedup.
Context `{GoText} (q : SearchQuery) (fm : FieldMap).

Lemma alike_one e : alike [e] (new_group e).
Proof.
  unfold new_group. split; cbn [en_Count FirstSeen LastSeen en_Timestamp Hostname en_Database en_User en_Text en_Severity en_Fields].
  1: done. 1: apply spans_one. 1: intros ? ? [= <- _]; reflexivity. 2: exists e; split; [by left|split; reflexivity].
  split; [by left|]. by repeat constructor.
Qed.

Lemma alike_join es g e : alike es g → es ≠ [] → int64 (Z.of_nat (length es) + 1) → alike (es ++ [e]) (join_group g e).
Proof.
  intros [Hc Hs Hf [Hsev Hmax] (x & Hx & Hlast & Hfields)] Hne Hint. unfold join_group. split; cbn [en_Count FirstSeen LastSeen en_Timestamp
    Hostname en_Database en_User en_Text en_Severity en_Fields].
  - rewrite Hc, add64_small by done. rewrite length_app. cbn. lia.
  - rewrite fmap_app. apply (widen_spans _ _ _ (en_Timestamp e) Hs).
  - intros e1 rest Heq. destruct es as [|e2 es]; [done|]. injection Heq as -> _. by eapply Hf.
  - rewrite fmap_app. destruct (Z.ltb_spec (severityRank (en_Severity g)) (severityRank (en_Severity e))).
    + split; [apply elem_of_app; right; by left|]. apply Forall_app. split; [|by repeat constructor].
      eapply Forall_impl; [exact Hmax|]. cbn. lia.
    + split; [apply elem_of_app; by left|]. apply Forall_app. split; [done|]. by repeat constructor.
  - destruct (time_after _ _); [exists e|exists x]; rewrite elem_of_app; (split; [|done]); [right; by left|by left].
Qed.

Definition no_group (e : Entry) : Entry :=
  mkEntry (en_Timestamp e) (en_Severity e) (Hostname e) (Display (en_Text e)) (en_Database e) (en_User e) (en_Fields e)
    0 (en_Timestamp e) (en_Timestamp e).

Lemma join_no_group e : join_group (no_group e) e = new_group e.
Proof. unfold join_group, no_group, new_group. cbn. unfold time_before, time_after. by rewrite !Z.ltb_irrefl. Qed.

Definition alike_key (e : Entry) : string := Key (en_Text e).

Lemma dedup_visits m l m' : visits (dedup_visit q fm) m l = Some m' →
  m' = foldl (λ m e, <[alike_key e := join_group (default (no_group e) (m !! alike_key e)) e]> m) m (omap (toEntry q fm) l).
Proof.
  revert m. induction l as [|x l IH]; intros m; cbn [visits]; [by intros [= <-]|].
  unfold dedup_visit at 1. cbn [omap list_omap]. destruct (toEntry q fm x) as [e|]; intros Hm%IH; subst m'; [|done]. cbn [foldl]. do 2 f_equal.
  unfold alike_key. destruct (m !! _); [done|]. cbn. by rewrite join_no_group.
Qed.

Definition groups_of (es : list Entry) : gmap string Entry := (group alike_key no_group join_group es).2.

Lemma dedup_groups l m' : visits (dedup_visit q fm) ∅ l = Some m' → m' = groups_of (omap (toEntry q fm) l).
Proof.
  intros ->%dedup_visits. unfold groups_of. induction (omap (toEntry q fm) l) as [|e es IH] using rev_ind; [done|].
  by rewrite foldl_snoc, IH, group_snoc.
Qed.

Lemma groups_of_lookup es key : int64 (Z.of_nat (length es)) →
  match members alike_key key es with
  | [] => groups_of es !! key = None
  | l => ∃ g, groups_of es !! key = Some g ∧ alike l g
  end.
Proof.
  intros Hint. unfold groups_of. rewrite (proj2 (group_spec alike_key _ _ es)). pose proof (length_filter (λ e, alike_key e = key) es) as Hlen.
  fold (members alike_key key es) in Hlen. destruct (members alike_key key es) as [|e l]; [done|]. eexists. split; [done|].
  cbn [foldl]. rewrite join_no_group. clear key. induction l as [|x l IH] using rev_ind; [apply alike_one|].
  rewrite foldl_snoc. cbn [app]. change (e :: l ++ [x]) with ((e :: l) ++ [x]) in *. rewrite length_app in Hlen. cbn [length] in Hlen.
  apply alike_join; [apply IH; cbn; lia|done|]. unfold int64, min64, max64 in *. cbn [length]. lia.
Qed.
End dedup.

Lemma omap_shorter {A B} (f : A → option B) l : (length (omap f l) ≤ length l)%nat.
Proof. induction l as [|x l IH]; [done|]. cbn. destruct (f x); cbn; lia. Qed.

(** The rows of the answer, one for every key. *)
Lemma dedup_rows `{MapRange} es m : m = groups_of es → int64 (Z.of_nat (length es)) →
  let items := sort_slice group_less (map_range "searchDedup.groups" m).*2 in
  StronglySorted (not_less group_less) items ∧
  ∃ ks, NoDup ks ∧ (∀ k, k ∈ ks ↔ k ∈ alike_key <$> es) ∧ Forall2 (λ k g, alike (members alike_key k es) g) ks items.
Proof.
  intros -> Hint items. split; [apply (sort_slice_sorted _)|]. set (l := map_range "searchDedup.groups" (groups_of es)) in *.
  assert (Hall : Forall2 (λ k g, alike (members alike_key k es) g) l.*1 l.*2).
  { apply Forall2_fmap, Forall_Forall2_diag, list.Forall_forall. intros [k g] Hin%elem_of_map_range. cbn.
    pose proof (groups_of_lookup es k Hint) as Hk. destruct (members alike_key k es); [congruence|]. destruct Hk as (g' & Hg & Ha). congruence. }
  destruct (Forall2_perm_r _ _ _ items ltac:(unfold items; by rewrite sort_slice_perm) Hall) as (ks & Hp & Hks).
  exists ks. split; [rewrite <- Hp; apply map_range_nodup|]. split; [|done]. intros k. rewrite <- Hp, list_elem_of_fmap.
  pose proof (groups_of_lookup es k Hint) as Hk. split.
  - intros ([k' g] & -> & Hin%elem_of_map_range). cbn. destruct (members alike_key k' es) as [|e l'] eqn:Hm.
    + pose proof (groups_of_lookup es k' Hint) as Hk'. rewrite Hm in Hk'. congruence.
    + assert (He : e ∈ members alike_key k' es) by (rewrite Hm; by left). apply elem_of_members in He as [<- He]. by apply list_elem_of_fmap_2.
  - intros Hin. destruct (members alike_key k es) as [|e l'] eqn:Hm; [by apply members_nil in Hm|]. destruct Hk as (g & Hg & _).
    exists (k, g). split; [done|]. by apply elem_of_map_range.
Qed.

(** C30: A search for groups reads the records up to the limit of a scan, and answers with one row
    for every message the records that pass the filters have up to their values: how many
    there are, when the first and the last was logged, the worst severity, the fields of the
    latest; most frequent first. It says that it is partial exactly when the limit was
    reached, the source gave a part of its answer, or it timed out with something to show; any other failure
    of the source is the answer itself, and drops the rows that were collected. *)
Theorem searchDedup_exact `{GoText} `{MapRange} conf r q fm : int64 (MaxScan conf) →
  let c := search_defaults conf in
  ∃ pre post, delivered r = pre ++ post ∧ Z.of_nat (length pre) ≤ MaxScan c ∧ (post = [] ∨ Z.of_nat (length pre) = MaxScan c) ∧
    let es := omap (toEntry q fm) pre in let capped := bool_decide (Z.of_nat (length pre) = MaxScan c) in
    match searchDedup c r q fm with
    | inr res =>
        (if capped then sr_Partial res = true
         else match failed r with
              | None => sr_Partial res = false
              | Some e => sr_Partial res = true ∧ (Is e ErrPartial = true ∨ classify (ctx_done r) e = ErrTimeout ∧ es ≠ [])
              end) ∧
        Scanned res = Z.of_nat (length pre) ∧ NextPageToken res = "" ∧ StronglySorted (not_less group_less) (Items res) ∧
        ∃ ks, NoDup ks ∧ (∀ k, k ∈ ks ↔ k ∈ alike_key <$> es) ∧ Forall2 (λ k g, alike (members alike_key k es) g) ks (Items res)
    | inl err => capped = false ∧ ∃ e, failed r = Some e ∧ err = classify (ctx_done r) e ∧ Is e ErrPartial = false ∧
        (err = ErrTimeout → es = [])
    end.
Proof.
  intros Hint c. destruct (search_defaults_positive conf) as (Hs & _). pose proof (search_defaults_int64 conf Hint : int64 (MaxScan c)) as Hi.
  destruct (scan_feed (MaxScan c) (dedup_visit q fm) (conj Hs Hi) (delivered r) ∅ no_stats)
    as (pre & post & s1 & s' & st' & fin & Hsplit & Hf & Hv & He & Hn & Hm & _ & Hcap); [cbn; split; [lia|exact Hs]|done|].
  apply dedup_groups in Hv. cbn in Hn. exists pre, post. split; [done|]. split; [lia|].
  assert (Hend : s' = s1 ∧ Capped st' = bool_decide (Z.of_nat (length pre) = MaxScan c) ∧ fin = negb (Capped st') ∧ (fin = true → post = [])).
  { destruct He as [|post|x post s' Hx].
    - split; [done|]. split; [|done]. symmetry. apply bool_decide_eq_false. intros Heq. assert (false = true) by (apply Hcap; lia). done.
    - split; [done|]. split; [|done]. symmetry. apply bool_decide_eq_true. rewrite <- (proj1 Hcap eq_refl). lia.
    - unfold dedup_visit in Hx. by destruct (toEntry q fm x). }
  destruct Hend as (-> & Hcapped & -> & Hpost).
  split; [destruct (Capped st'); [right; rewrite <- (proj1 Hcap eq_refl); lia|by left; apply Hpost]|]. cbn zeta. rewrite <- Hcapped.
  set (es := omap (toEntry q fm) pre) in *. assert (Hes : Z.of_nat (length es) ≤ Z.of_nat (length pre)) by (unfold es; pose proof (omap_shorter (toEntry q fm) pre); lia).
  assert (Hempty : s1 ≠ ∅ ↔ es ≠ []).
  { subst s1. split; [by intros Hne Hnil; rewrite Hnil in Hne|]. intros Hne. destruct es as [|e es'] eqn:Hee; [done|]. rewrite <- Hee in *. intros Hem.
    pose proof (groups_of_lookup es (alike_key e)) as Hk. rewrite Hem, lookup_empty in Hk.
    assert (Hin : e ∈ members alike_key (alike_key e) es) by (apply elem_of_members; split; [done|rewrite Hee; by left]).
    destruct (members _ _ es); [by apply not_elem_of_nil in Hin|]. destruct Hk as (g & Hg & _); [|done]. unfold int64, min64, max64 in *. lia. }
  assert (Hgroups : let items := sort_slice group_less (map_range "searchDedup.groups" s1).*2 in StronglySorted (not_less group_less) items ∧
      ∃ ks, NoDup ks ∧ (∀ k, k ∈ ks ↔ k ∈ alike_key <$> es) ∧ Forall2 (λ k g, alike (members alike_key k es) g) ks items).
  { apply (dedup_rows es s1 Hv). unfold int64, min64, max64 in *. lia. }
  unfold searchDedup, scan, run_stream. change (searchLimits c) with (mkScanLimits (MaxScan c) 0 0 None). rewrite Hf.
  destruct (Capped st') eqn:Hc; cbn [negb].
  - cbn [sr_Partial Scanned NextPageToken Items]. split; [exact Hc|]. split; [lia|]. split; [done|exact Hgroups].
  - destruct (failed r) as [e|];
      [|cbn [sr_Partial Scanned NextPageToken Items]; split; [exact Hc|]; split; [lia|]; split; [done|exact Hgroups]].
    cbn [st_Partial st_Records Bytes Capped]. destruct (decide _) as [Hd|Hd]; cbn [sr_Partial Scanned NextPageToken Items].
    + split; [|split; [lia|split; [done|exact Hgroups]]]. split; [done|]. rewrite <- Hempty. exact Hd.
    + split; [done|]. exists e. split; [done|]. split; [done|]. split; [destruct (Is e ErrPartial); [|done]; by destruct Hd; left|].
      intros Ht. destruct (decide (es = [])) as [|Hne]; [done|]. exfalso. apply Hd. right. split; [exact Ht|by apply Hempty].
Qed.

Lemma searchDedup_exact_witness :
  let r := mkRun (two_lines "") None None in let conf := mkSearchConfig 0 0 0 in
  from_option (λ res, map en_Text (Items res)) [] (match searchDedup (H := plain_text) (H0 := canonical_range) (search_defaults conf) r (any_query 1) message_map with
    inr res => Some res | inl _ => None end) = ["b"; "a"] ∧
  ∃ pre, Z.of_nat (length pre) ≤ MaxScan (search_defaults conf) ∧ delivered r = pre.
Proof.
  split; [by vm_compute|].
  destruct (@searchDedup_exact plain_text canonical_range (mkSearchConfig 0 0 0) (mkRun (two_lines "") None None) (any_query 1) message_map
    ltac:(unfold int64, min64, max64; cbn; lia)) as (pre & post & Heq & Hle & [-> | Hmax] & _); [exists pre; split; [done|by rewrite app_nil_r in Heq]|].
  exfalso. apply (f_equal length) in Heq. rewrite length_app in Heq.
  change (length (delivered (mkRun (two_lines "") None None))) with 2%nat in Heq. change (MaxScan _) with 5000 in Hmax. lia.
Defined.

(** The row of a group is excluded by its template: the texts it stands for are masked
    before the template is made of them, but the exclusion looks for it in the template of the
    raw text. A record whose text has a credential stays. *)
Example template_of_masked_text :
  let rec := mkLine 1 {["message" := "FATAL: dsn host=h1 password=abc rejected after 5 tries"]} "x" in
  let shown := option_map (λ e, en_Text (new_group e)) (toEntry (H := plain_text) (any_query 1) message_map rec) in
  shown = Some "FATAL: dsn host=h<*> password=*** rejected after <*> tries" ∧
  excluded (H := plain_text) (field (Fields rec) "message") (default "" shown) = false.
Proof. split; by vm_compute. Qed.
