(* ===== verification/LogOpenSearch.v ===== *)
(** * [internal/logs/source/opensearch] and [source/time.go]: reading an index

    A read fetches batches and resumes each from the time of the last record handed out,
    skipping what was handed out at that very time; a cursor is that position. The store
    answers a request with hits; text templates, [time.Parse] and the text form of a cursor
    ([encoding/json] and [base64]) are parameters. *)

From Stdlib Require Import Ascii.
From S2P Require Import Prelude GoSlices GoFloat PatroniLayout Discovery GoStrings GoNumber GoRegexp LogSource.
From stdpp Require Import options.

#[local] Open Scope string_scope.
#[local] Open Scope Z_scope.
#[local] Open Scope list_scope.

(** ** [source/time.go] *)

(** A decoded JSON value: numbers keep their literal, an array the text it is printed as, and
    an object its members in the order a range over the map visits them. *)
Inductive value :=
  | VNull
  | VString (s : string)
  | VBool (b : bool)
  | VNumber (literal : string)
  | VArray (text : string)
  | VObject (members : list (string * value)).

Class TimeParser := { time_Parse : string → string → option time }.

Definition timeLayouts : list string :=
  ["2006-01-02T15:04:05.999999999Z07:00"; "2006-01-02T15:04:05.999999999"; "2006-01-02 15:04:05.999999999-07:00";
   "2006-01-02 15:04:05.999999999"].

Definition UnixMilli (ms : Z) : time := ms * 10 ^ 6.

Definition floatMillis (ms : float) : option time :=
  if negb (ms =? ms)%float || (ms <? to_float (- 2 ^ 63))%float || (to_float (2 ^ 63) <=? ms)%float then None
  else Some (UnixMilli (to_int ms)).

Definition ParseTime `{TimeParser} (v : option value) : option time :=
  match v with
  | Some (VString t) =>
      let trimmed := TrimSpace t in
      match omap (λ layout, time_Parse layout trimmed) timeLayouts with
      | ts :: _ => Some ts
      | [] => UnixMilli <$> Atoi trimmed
      end
  | Some (VNumber n) =>
      match Atoi n with
      | Some ms => Some (UnixMilli ms)
      | None => ms ← ParseFloat n; floatMillis ms
      end
  | _ => None
  end.

(** ** [query.go]: requests and hits *)

Inductive term := TString (s : string) | TInt (n : Z).
Inductive filter_clause :=
  | Terms (field : string) (values : list string)
  | Term (field : string) (v : term)
  | TermOrPrefix (field value prefix : string)
  | MatchPhrase (field phrase : string).

(** The range on the timestamp is kept apart from the other clauses. *)
Record searchRequest := mkRequest {
  rq_timestamp : string; rq_gte : time; rq_lte : time; rq_filters : list filter_clause; rq_size : Z; rq_total : bool
}.

Definition hostFilter (fm : FieldMap) (host : string) : filter_clause :=
  let f := Keyword fm (fm_Host fm) in
  if decide (HostMatch fm ≠ HostMatchSuffix) then Term f (TString host) else TermOrPrefix f host (host +:+ ".").

Definition sortedKeys (m : gmap string string) : list string := sort_slice str_ltb (map_to_list m).*1.

Definition clauses (fm : FieldMap) (selector : gmap string string) (f : Filter) : list filter_clause :=
  (if decide (f_Severities f ≠ []) then [Terms (Keyword fm (fm_Severity fm)) (f_Severities f)] else []) ++
  (if decide (f_Host f ≠ "") then [hostFilter fm (f_Host f)] else []) ++
  from_option (λ id, [Term (Keyword fm (fm_QueryID fm)) (TInt id)]) [] (f_QueryID f) ++
  ((λ phrase, MatchPhrase (fm_Text fm) phrase) <$> f_Contains f) ++
  ((λ k, Term (Keyword fm k) (TString (default "" (selector !! k)))) <$> sortedKeys selector).

Definition buildSearch (fm : FieldMap) (selector : gmap string string) (f : Filter) (from to : time) (size : Z) (total : bool) : searchRequest :=
  mkRequest (fm_Timestamp fm) from to (clauses fm selector f) size total.

Record hit := mkHit { h_ID : string; h_Source : list (string * value) }.

Definition scalar (v : value) : string :=
  match v with
  | VNull => "" | VString s => s | VBool b => if b then "true" else "false" | VNumber n => n | VArray t => t
  | VObject _ => ""
  end.

Definition dotted (prefix k : string) : string := if decide (prefix ≠ "") then prefix +:+ "." +:+ k else k.

Fixpoint flatten_value (prefix : string) (v : value) (out : gmap string string) : gmap string string :=
  match v with
  | VObject members =>
      (fix go members out :=
         match members with
         | [] => out
         | (k, x) :: members =>
             go members (match x with VObject _ => flatten_value (dotted prefix k) x out | _ => <[dotted prefix k := scalar x]> out end)
         end) members out
  | _ => out
  end.

Definition flatten (src : list (string * value)) : gmap string string := flatten_value "" (VObject src) ∅.

(** The keys of a decoded object are distinct. *)
Definition member (src : list (string * value)) (k : string) : option value := snd <$> head (filter (λ kv : string * value, kv.1 = k) src).

(** ** [cursor.go] *)

Record cursor := mkCursor { TS : time; IDs : list string }.
Definition zero_cursor : cursor := mkCursor zero_time [].

(** The text form of a cursor, by [encoding/json] and [base64]; a year of more than four
    digits has none. *)
Class CursorText := { cursor_text : cursor → option string; cursor_of : string → option cursor }.

Definition encodeCursor `{CursorText} (c : cursor) : option string := cursor_text c.
Definition decodeCursor `{CursorText} (token : string) : option cursor := if decide (token = "") then Some zero_cursor else cursor_of token.

(** ** [opensearch.go] *)

Record streamDef := mkStreamDef { sd_index : string; sd_selector : gmap string string; sd_fields : FieldMap }.
Record OpenSearch := mkOpenSearch { os_streams : gmap string streamDef; batchSize : Z; maxBoundaryIDs : Z }.

(** The sizes of [New]. *)
Definition batch_size (configured : Z) : Z := if configured <=? 0 then 1000 else configured.
Definition boundary_size (configured batch : Z) : Z := if configured <=? 0 then Z.max 10000 batch else Z.max configured batch.

(** The set beside the list of ids holds the same ids. *)
Record boundary := mkBoundary { b_ts : time; b_ids : list string }.
Definition newBoundary (c : cursor) : boundary := mkBoundary (TS c) (IDs c).
Definition seen (b : boundary) (ts : time) (id : string) : bool := bool_decide (ts = b_ts b ∧ id ∈ b_ids b).
Definition add (b : boundary) (ts : time) (id : string) : boundary :=
  mkBoundary ts ((if decide (ts = b_ts b) then b_ids b else []) ++ [id]).

(** What a template expands to for a cluster; [None] is an error. *)
Class Templates := { Expand : string → string → option string }.

(** [^[a-zA-Z0-9_][a-zA-Z0-9_.+*,\-]*$] *)
Definition index_head (c : ascii) : bool := digit_char c || in_range 97 122 c || in_range 65 90 c || (byte_of c =? 95).
Definition validIndex (s : string) : bool :=
  match s with
  | EmptyString => false
  | String c s' => index_head c && forallb (λ c, index_head c || bool_decide (byte_of c ∈ [46; 43; 42; 44; 45])) (String.list_ascii_of_string s')
  end.

Definition expandIndex `{Templates} (tmpl cluster : string) : option string :=
  index ← Expand tmpl cluster; if validIndex index then Some index else None.

Definition ExpandMap `{Templates} (m : gmap string string) (cluster : string) : option (gmap string string) :=
  foldr (λ kv out, out ← out; v ← Expand kv.2 cluster; Some (<[kv.1 := v]> out)) (Some ∅) (map_to_list m).

Section stream.
Context `{TimeParser} `{CursorText} `{Templates}.

Definition hit_time (fm : FieldMap) (h : hit) : option time :=
  ParseTime (match member (h_Source h) (fm_Timestamp fm) with
             | Some raw => Some raw
             | None => VString <$> flatten (h_Source h) !! fm_Timestamp fm
             end).

(** [emit]: the records handed out, how many hits had no usable time, the boundary, the
    error that ends the read. *)
Fixpoint emit (fm : FieldMap) (hits : list hit) (b : boundary) : list LogLine * Z * boundary * option error :=
  match hits with
  | [] => ([], 0, b, None)
  | h :: hits =>
      match hit_time fm h with
      | None => let '(out, skipped, b, err) := emit fm hits b in (out, skipped + 1, b, err)
      | Some ts =>
          if seen b ts (h_ID h) then emit fm hits b
          else
            let b := add b ts (h_ID h) in
            match encodeCursor (mkCursor (b_ts b) (b_ids b)) with
            | None => ([], 0, b, Some (mkError [] "encode cursor"))
            | Some token =>
                let '(out, skipped, b', err) := emit fm hits b in (mkLine ts (flatten (h_Source h)) token :: out, skipped, b', err)
            end
      end
  end.

Definition partial (text : string) : error := mkError [ErrPartial] text.

(** The loop of [Stream]; [search] answers the [n]-th request. *)
Fixpoint read_loop (fuel : nat) (p : OpenSearch) (fm : FieldMap) (search : nat → searchRequest → error + list hit)
    (request : time → Z → searchRequest) (n : nat) (from : time) (b : boundary) : list LogLine * option error :=
  match fuel with
  | O => ([], None)
  | S fuel =>
      let size := Z.min (Z.of_nat (length (b_ids b)) + batchSize p) (maxBoundaryIDs p) in
      match search n (request from size) with
      | inl err => ([], Some err)
      | inr hits =>
          let '(out, skipped, b, err) := emit fm hits b in
          if err then (out, err)
          else if Z.of_nat (length hits) <? size then (out, None)
          else if decide (out = []) then
            ([], Some (if skipped =? Z.of_nat (length hits) then partial "no usable timestamp" else partial "records share one timestamp"))
          else let '(rest, err) := read_loop fuel p fm search request (S n) (b_ts b) b in (out ++ rest, err)
      end
  end.

(** [fuel] bounds the batches of one read. *)
Definition Stream (fuel : nat) (p : OpenSearch) (search : nat → string → searchRequest → error + list hit) (ctx : option ctx_err)
    (sp : StreamParams) : run :=
  let fails s := mkRun [] (Some (mkError [s] "")) ctx in
  match os_streams p !! sp_Stream sp with
  | None => fails ErrStream
  | Some def =>
      match expandIndex (sd_index def) (Name (sp_Cluster sp)) with
      | None => fails ErrConfig
      | Some index =>
          match ExpandMap (sd_selector def) (Name (sp_Cluster sp)) with
          | None => fails ErrConfig
          | Some selector =>
              match decodeCursor (sp_Token sp) with
              | None => fails ErrInvalidToken
              | Some start =>
                  let from := if Prelude.is_zero (TS start) then sp_From sp else TS start in
                  let request from size := buildSearch (sd_fields def) selector (sp_Filter sp) from (sp_To sp) size false in
                  let '(out, err) := read_loop fuel p (sd_fields def) (λ n, search n index) request 0 from (newBoundary start) in
                  mkRun out err ctx
              end
          end
      end
  end.
End stream.
