(* ===== verification/LogOpenSearchSound.v ===== *)
(** * A read of an index loses and repeats nothing

    Every document of the range is handed out once, in the order of time, however the store
    orders the documents of one time on each request; a cursor hands out what is left. *)

From Stdlib Require Import Ascii.
From S2P Require Import Prelude GoSlices GoFloat PatroniLayout Discovery GoStrings GoNumber GoRegexp LogSource LogSearch LogOpenSearch.
From stdpp Require Import options.

#[local] Open Scope string_scope.
#[local] Open Scope Z_scope.
#[local] Open Scope list_scope.

(** What the text of a cursor is read back as. *)
Class CursorLaws `{CursorText} : Prop :=
  cursor_read_back : ∀ c tok, cursor_text c = Some tok → cursor_of tok = Some c ∧ tok ≠ "".

Definition sorted_by (key : hit → time) (l : list hit) : Prop := StronglySorted (λ x y, key x ≤ key y) l.

Section reading.
Context (key : hit → time) (docs : list hit) (to : time) (Hids : NoDup (h_ID <$> docs)).

(** What is left to read from a boundary. *)
Definition left_over (b : boundary) (from : time) : list hit :=
  filter (λ d, from ≤ key d ≤ to ∧ ¬ (key d = b_ts b ∧ h_ID d ∈ b_ids b)) docs.

Definition adds (b : boundary) (ds : list hit) : boundary := foldl (λ b d, add b (key d) (h_ID d)) b ds.

(** The ids of a boundary, if it has any, are at the time the read starts from. *)
Definition starts (b : boundary) (from : time) : Prop := b_ids b = [] ∨ b_ts b = from.

Lemma docs_nodup : NoDup docs.
Proof using Hids. by eapply NoDup_fmap_1. Qed.

Lemma same_id x y : x ∈ docs → y ∈ docs → h_ID x = h_ID y → x = y.
Proof using Hids.
  clear -Hids. induction docs as [|d l IH]; [by intros ?%not_elem_of_nil|]. cbn in Hids. apply NoDup_cons in Hids as [Hd Hl].
  intros [->|Hx]%elem_of_cons [->|Hy]%elem_of_cons Heq; [done| | |by apply IH].
  - destruct Hd. rewrite Heq. by apply list_elem_of_fmap_2.
  - destruct Hd. rewrite <- Heq. by apply list_elem_of_fmap_2.
Qed.

Lemma left_over_nodup b from : NoDup (left_over b from).
Proof using Hids. apply NoDup_filter, docs_nodup. Qed.

(** The boundary after documents in the order of time: the time of the last, and the ids at
    that time. *)
Lemma adds_spec b from ds x : sorted_by key (ds ++ [x]) → starts b from → Forall (λ d, from ≤ key d) (ds ++ [x]) →
  b_ts (adds b (ds ++ [x])) = key x ∧
  ∀ id, id ∈ b_ids (adds b (ds ++ [x])) ↔ (b_ts b = key x ∧ id ∈ b_ids b) ∨ ∃ d, d ∈ ds ++ [x] ∧ key d = key x ∧ h_ID d = id.
Proof.
  clear docs Hids. intros Hs Hb Hall. unfold adds. rewrite foldl_snoc. fold (adds b ds). split; [done|]. intros id. unfold add. cbn [b_ids].
  rewrite elem_of_app, list_elem_of_singleton.
  assert (Hds : id ∈ (if decide (key x = b_ts (adds b ds)) then b_ids (adds b ds) else []) ↔
    (b_ts b = key x ∧ id ∈ b_ids b) ∨ ∃ d, d ∈ ds ∧ key d = key x ∧ h_ID d = id).
  { revert x Hs Hall. induction ds as [|y ds IH] using rev_ind; intros x Hs Hall.
    - cbn [adds foldl]. setoid_rewrite elem_of_nil. case_decide as Hx; [naive_solver|]. rewrite elem_of_nil. naive_solver.
    - unfold adds. rewrite foldl_snoc. fold (adds b ds). unfold add. cbn [b_ts b_ids].
      apply StronglySorted_app in Hs as (Hcross & Hpre & _). apply Forall_app in Hall as [Hall Hx].
      specialize (IH y Hpre Hall).
      destruct (decide (key x = key y)) as [Hxy|Hxy].
      + rewrite Hxy, elem_of_app, list_elem_of_singleton, IH. setoid_rewrite elem_of_app. setoid_rewrite list_elem_of_singleton. naive_solver.
      + rewrite elem_of_nil. split; [done|]. intros [[Hbx Hid]|(d & Hd & Hdx & _)].
        * destruct Hb as [Hnil|Hfrom]; [rewrite Hnil in Hid; by apply not_elem_of_nil in Hid|]. apply Hxy. rewrite Forall_app in Hall.
          destruct Hall as [_ Hy]. rewrite Forall_singleton in Hy. pose proof (Hcross y x ltac:(set_solver) ltac:(set_solver)). lia.
        * apply Hxy. assert (key d ≤ key y).
          { apply elem_of_app in Hd as [Hd|Hd%list_elem_of_singleton]; [|by subst]. apply StronglySorted_app in Hpre as (Hc & _ & _). apply Hc; set_solver. }
          pose proof (Hcross y x ltac:(set_solver) ltac:(set_solver)). lia. }
  rewrite Hds. setoid_rewrite elem_of_app. setoid_rewrite list_elem_of_singleton. naive_solver.
Qed.

(** What is left after the first of the documents that were left. *)
Lemma left_over_after b from ds x post : starts b from → (ds ++ [x]) ++ post ≡ₚ left_over b from → sorted_by key (ds ++ [x]) →
  Forall (λ d, key x ≤ key d) post → left_over (adds b (ds ++ [x])) (key x) ≡ₚ post.
Proof using Hids.
  intros Hb Hp Hs Hpost. assert (Hall : Forall (λ d, from ≤ key d) (ds ++ [x])).
  { apply list.Forall_forall. intros d Hd. assert (Hin : d ∈ left_over b from) by (rewrite <- Hp; set_solver).
    apply list_elem_of_filter in Hin as [[? _] _]. lia. }
  destruct (adds_spec b from ds x Hs Hb Hall) as [Hts Hin]. pose proof (left_over_nodup b from) as Hnd. rewrite <- Hp in Hnd.
  apply NoDup_app in Hnd as (_ & Hdis & Hndp). apply NoDup_Permutation; [apply left_over_nodup|done|]. intros y.
  assert (Hle : ∀ d, d ∈ ds ++ [x] → key d ≤ key x).
  { intros d [Hd| ->%list_elem_of_singleton]%elem_of_app; [|done]. apply StronglySorted_app in Hs as (Hc & _ & _). apply Hc; set_solver. }
  assert (Hy : y ∈ left_over b from ↔ y ∈ ds ++ [x] ∨ y ∈ post) by (by rewrite <- Hp, elem_of_app).
  unfold left_over in *. rewrite list_elem_of_filter, Hts, Hin. rewrite list_elem_of_filter in Hy.
  assert (Hfx : from ≤ key x ∧ key x ≤ to).
  { assert (Hx : x ∈ left_over b from) by (rewrite <- Hp; set_solver). apply list_elem_of_filter in Hx as [[? _] _]. lia. }
  split.
  - intros [[Hr Hno] Hd]. destruct (proj1 Hy) as [Hds|]; [split; [|done]|exfalso|done].
    + split; [lia|]. intros [Hk Hi]. apply Hno. destruct Hb as [Hnil|Hfrom]; [rewrite Hnil in Hi; by apply not_elem_of_nil in Hi|].
      assert (key y = key x) by lia. split; [done|]. left. split; [congruence|done].
    + apply Hno. assert (key y = key x) by (specialize (Hle y Hds); lia). split; [done|]. right. by exists y.
  - intros Hyp. destruct (proj2 Hy (or_intror Hyp)) as [[Hr Hno] Hd]. rewrite list.Forall_forall in Hpost. specialize (Hpost y Hyp).
    split; [|done]. split; [lia|]. intros [Hk [[Hbx Hid]|(d & Hd' & Hdk & Hdi)]]; [apply Hno; split; [congruence|done]|].
    apply (Hdis d Hd'). rewrite (same_id d y); [done| |done|done].
    assert (Hdin : d ∈ filter (λ d, from ≤ key d ≤ to ∧ ¬ (key d = b_ts b ∧ h_ID d ∈ b_ids b)) docs) by (rewrite <- Hp; set_solver).
    by apply list_elem_of_filter in Hdin as [_ ?].
Qed.
End reading.

(** ** One batch *)

Lemma filter_ext_elem {A} (P Q : A → Prop) `{!∀ x, Decision (P x), !∀ x, Decision (Q x)} (l : list A) :
  (∀ x, x ∈ l → P x ↔ Q x) → filter P l = filter Q l.
Proof.
  intros Hl. induction l as [|x l IH]; [done|]. rewrite !filter_cons, IH by (intros; apply Hl; by right).
  specialize (Hl x ltac:(by left)). by repeat case_decide; try tauto.
Qed.

Section batches.
Context `{TimeParser} `{CursorText} (key : hit → time) (fm : FieldMap).

(** The records of documents handed out one after the other, each with the cursor after it. *)
Fixpoint lines (b : boundary) (ds : list hit) : list LogLine :=
  match ds with
  | [] => []
  | d :: ds =>
      let b := add b (key d) (h_ID d) in
      mkLine (key d) (flatten (h_Source d)) (default "" (encodeCursor (mkCursor (b_ts b) (b_ids b)))) :: lines b ds
  end.

Lemma lines_app b l1 l2 : lines b (l1 ++ l2) = lines b l1 ++ lines (adds key b l1) l2.
Proof. revert b. induction l1 as [|d l1 IH]; intros b; [done|]. cbn. by rewrite IH. Qed.

Lemma lines_content b ds : content <$> lines b ds = (λ d, (key d, flatten (h_Source d))) <$> ds.
Proof. revert b. induction ds as [|d ds IH]; intros b; [done|]. cbn. by rewrite IH. Qed.

Lemma lines_sorted b ds : sorted_by key ds → StronglySorted (λ x y, Timestamp x ≤ Timestamp y) (lines b ds).
Proof.
  intros Hs. revert b. induction Hs as [|d ds Hs IH Hall]; intros b; [constructor|]. cbn. constructor; [apply IH|].
  apply list.Forall_forall. intros x Hx. apply (list_elem_of_fmap_2 content) in Hx. rewrite lines_content in Hx.
  apply list_elem_of_fmap in Hx as (d' & Heq & Hd'). injection Heq as Ht _. rewrite list.Forall_forall in Hall. cbn. rewrite Ht. by apply Hall.
Qed.

(** A record of the list, the documents before it and its cursor. *)
Lemma lines_split b ds pre x post : lines b ds = pre ++ x :: post → ∃ ds1 d ds2, ds = (ds1 ++ [d]) ++ ds2 ∧ pre = lines b ds1 ∧
  post = lines (adds key b (ds1 ++ [d])) ds2 ∧ Timestamp x = key d ∧
  Token x = default "" (encodeCursor (mkCursor (b_ts (adds key b (ds1 ++ [d]))) (b_ids (adds key b (ds1 ++ [d]))))).
Proof.
  revert b pre. induction ds as [|d ds IH]; intros b pre Heq; [by destruct pre|]. cbn in Heq. destruct pre as [|y pre].
  - injection Heq as <- <-. by exists [], d, ds.
  - injection Heq as <- Heq. destruct (IH _ _ Heq) as (ds1 & d' & ds2 & -> & -> & -> & Ht & Htok). by exists (d :: ds1), d', ds2.
Qed.

Definition unseen (b : boundary) (d : hit) : Prop := seen b (key d) (h_ID d) = false.
#[global] Instance unseen_dec b d : Decision (unseen b d).
Proof. unfold unseen. apply _. Defined.

(** Every document of [hits] has the time the store sorts by, and a cursor. *)
Definition usable (hits : list hit) : Prop :=
  Forall (λ d, hit_time fm d = Some (key d) ∧ ∀ ids, is_Some (encodeCursor (mkCursor (key d) ids))) hits.

Lemma unseen_add b from d h : starts b from → from ≤ key d ≤ key h → h_ID h ≠ h_ID d →
  unseen (add b (key d) (h_ID d)) h ↔ unseen b h.
Proof.
  intros Hb Hk Hid. unfold unseen, seen, add. cbn [b_ts b_ids]. rewrite !bool_decide_eq_false, elem_of_app, list_elem_of_singleton.
  destruct (decide (key d = b_ts b)) as [Hd|Hd]; [rewrite Hd; naive_solver|]. rewrite elem_of_nil. split; [|naive_solver].
  intros _ [Hkh Hin]. destruct Hb as [Hnil|Hfrom]; [rewrite Hnil in Hin; by apply not_elem_of_nil in Hin|]. lia.
Qed.

Lemma emit_batch hits b from : sorted_by key hits → NoDup (h_ID <$> hits) → Forall (λ d, from ≤ key d) hits → starts b from → usable hits →
  let out := filter (unseen b) hits in emit fm hits b = (lines b out, 0, adds key b out, None).
Proof.
  intros Hs. revert b from. induction Hs as [|d hits Hs IH Hall]; intros b from Hnd Hfrom Hb Hu; [done|].
  apply NoDup_cons in Hnd as [Hd Hnd]. apply Forall_cons in Hfrom as [Hfd Hfrom]. apply Forall_cons in Hu as [[Ht Hc] Hu].
  cbn [emit]. rewrite Ht. cbn zeta. rewrite filter_cons. destruct (seen b (key d) (h_ID d)) eqn:Hseen.
  - rewrite decide_False by (unfold unseen; congruence). by apply (IH b from).
  - rewrite decide_True by done. cbn [lines adds foldl]. fold (adds key (add b (key d) (h_ID d)) (filter (unseen b) hits)).
    destruct (Hc (b_ids (add b (key d) (h_ID d)))) as [tok Htok]. change (b_ts (add b (key d) (h_ID d))) with (key d). rewrite Htok. cbn [default].
    specialize (IH (add b (key d) (h_ID d)) (key d) Hnd ltac:(done) ltac:(by right) Hu). cbn zeta in IH. rewrite IH.
    assert (Hf : filter (unseen (add b (key d) (h_ID d))) hits = filter (unseen b) hits).
    { apply filter_ext_elem. intros h Hh. apply (unseen_add b from); [done| |].
      - rewrite list.Forall_forall in Hall. specialize (Hall h Hh). lia.
      - intros He. apply Hd. rewrite <- He. by apply list_elem_of_fmap_2. }
    by rewrite Hf.
Qed.
End batches.

(** ** The loop *)

Lemma StronglySorted_filter {A} (R : relation A) (P : A → Prop) `{!∀ x, Decision (P x)} l : StronglySorted R l → StronglySorted R (filter P l).
Proof.
  induction 1 as [|x l Hs IH Hall]; [constructor|]. rewrite filter_cons. case_decide; [|done]. constructor; [done|].
  rewrite list.Forall_forall in Hall |- *. intros y [_ Hy]%list_elem_of_filter. by apply Hall.
Qed.

Section loop.
Context `{TimeParser} `{CursorText} (key : hit → time) (fm : FieldMap) (p : OpenSearch) (docs : list hit) (to : time).
(** The ids of a boundary are those of documents at its time, each once. *)
Definition good (b : boundary) : Prop := NoDup (b_ids b) ∧ ∀ id, id ∈ b_ids b → ∃ d, d ∈ docs ∧ key d = b_ts b ∧ h_ID d = id.

Lemma good_add b d : good b → d ∈ docs → unseen key b d → good (add b (key d) (h_ID d)).
Proof.
  intros [Hnd Hg] Hd Hu. unfold unseen, seen in Hu. apply bool_decide_eq_false in Hu. unfold add. split; cbn [b_ids b_ts].
  - apply NoDup_app. destruct (decide (key d = b_ts b)) as [He|He]; (split; [done || constructor|]; split; [|apply NoDup_singleton]).
    + intros id Hid ->%list_elem_of_singleton. by apply Hu.
    + intros id Hid. by apply not_elem_of_nil in Hid.
  - intros id [Hid| ->%list_elem_of_singleton]%elem_of_app; [|by exists d]. destruct (decide (key d = b_ts b)) as [He|He].
    + destruct (Hg id Hid) as (d' & ? & ? & ?). exists d'. by rewrite He.
    + by apply not_elem_of_nil in Hid.
Qed.

Lemma good_adds b from ds : good b → starts b from → Forall (λ d, from ≤ key d) ds → sorted_by key ds → NoDup (h_ID <$> ds) → ds ⊆ docs →
  Forall (unseen key b) ds → good (adds key b ds).
Proof.
  intros Hg Hb Hfrom Hs. revert b from Hg Hb Hfrom. induction Hs as [|d ds Hs IH Hall]; intros b from Hg Hb Hfrom Hnd Hsub Hu; [done|].
  apply NoDup_cons in Hnd as [Hd Hnd]. apply Forall_cons in Hu as [Hud Hu]. apply Forall_cons in Hfrom as [Hfd Hfrom].
  cbn [adds foldl]. apply (IH _ (key d)); [apply good_add; [done|apply Hsub; by left|done]|by right|done|done|set_solver|].
  apply list.Forall_forall. intros h Hh. rewrite list.Forall_forall in Hall, Hu. apply (unseen_add key b from); [done| |  |by apply Hu].
  - specialize (Hall h Hh). lia.
  - intros He. apply Hd. rewrite <- He. by apply list_elem_of_fmap_2.
Qed.

Lemma left_over_unseen b from hits rest : hits ++ rest ≡ₚ filter (λ d, from ≤ key d ≤ to) docs →
  filter (unseen key b) hits ++ filter (unseen key b) rest ≡ₚ left_over key docs to b from.
Proof.
  intros Hp. rewrite <- filter_app, Hp. rewrite list_filter_filter. unfold left_over.
  erewrite filter_ext_elem; [reflexivity|].
  intros d _. unfold unseen, seen. rewrite bool_decide_eq_false. tauto.
Qed.

Context (request : time → Z → searchRequest) (search : nat → searchRequest → error + list hit).

(** The store answers with the first documents of the range, in an order of the times that
    may differ between requests; fewer than asked for are all there are. *)
Definition answers_range : Prop := ∀ n from size, 0 ≤ size → ∃ hits rest,
  search n (request from size) = inr hits ∧ hits ++ rest ≡ₚ filter (λ d, from ≤ key d ≤ to) docs ∧ sorted_by key (hits ++ rest) ∧
  (Z.of_nat (length hits) = size ∨ Z.of_nat (length hits) < size ∧ rest = []).

(** Fewer documents share one time than a boundary may hold. *)
Definition sparse : Prop := ∀ t, Z.of_nat (length (filter (λ d, key d = t) docs)) < maxBoundaryIDs p.

Context (Hids : NoDup (h_ID <$> docs)) (Husable : usable key fm docs) (Hanswers : answers_range) (Hsparse : sparse) (Hbatch : 0 < batchSize p).

(** A boundary has room for one more. *)
Lemma good_room b : good b → Z.of_nat (length (b_ids b)) < maxBoundaryIDs p.
Proof using Hsparse.
  intros [Hnd Hg]. eapply Z.le_lt_trans; [|apply (Hsparse (b_ts b))]. apply inj_le.
  rewrite <- (length_fmap h_ID (filter (λ d, key d = b_ts b) docs)). apply submseteq_length, NoDup_submseteq; [done|].
  intros id Hid. destruct (Hg id Hid) as (d & Hd & Ht & <-). apply list_elem_of_fmap_2, list_elem_of_filter. by split.
Qed.

(** A batch that only holds what was handed out is shorter than what was asked for. *)
Lemma batch_progress b hits : good b → NoDup (h_ID <$> hits) → filter (unseen key b) hits = [] →
  Z.of_nat (length hits) < Z.min (Z.of_nat (length (b_ids b)) + batchSize p) (maxBoundaryIDs p).
Proof using Hsparse Hbatch.
  intros Hg Hnd Hnone. pose proof (good_room b Hg). enough (length hits ≤ length (b_ids b))%nat by lia.
  rewrite <- (length_fmap h_ID hits). apply submseteq_length, NoDup_submseteq; [done|].
  intros id (d & -> & Hd)%list_elem_of_fmap. destruct (seen b (key d) (h_ID d)) eqn:Hs; [by apply bool_decide_eq_true in Hs as [_ ?]|].
  exfalso. apply (not_elem_of_nil d). rewrite <- Hnone. by apply list_elem_of_filter.
Qed.

Lemma read_loop_all fuel n from b : good b → starts b from → (length (left_over key docs to b from) < fuel)%nat →
  ∃ ds, ds ≡ₚ left_over key docs to b from ∧ sorted_by key ds ∧
    read_loop fuel p fm search request n from b = (lines key b ds, None).
Proof using Hids Husable Hanswers Hsparse Hbatch.
  revert n from b. induction fuel as [|fuel IH]; intros n from b Hg Hb Hfuel; [lia|]. cbn [read_loop].
  set (size := Z.min _ _). destruct (Hanswers n from size) as (hits & rest & -> & Hp & Hs & Hlen); [unfold size; pose proof (good_room b Hg); lia|].
  assert (Hin : ∀ d, d ∈ hits ++ rest → d ∈ docs ∧ from ≤ key d) by (intros d Hd; rewrite Hp in Hd; apply list_elem_of_filter in Hd as [? ?]; split; [done|lia]).
  assert (Hnd : NoDup (h_ID <$> hits)).
  { assert (Hall : NoDup (h_ID <$> hits ++ rest)) by (rewrite Hp; eapply sublist_NoDup; [exact Hids|apply fmap_sublist, sublist_filter]).
    rewrite fmap_app in Hall. by apply NoDup_app in Hall as (? & _). }
  assert (Hfrom : Forall (λ d, from ≤ key d) hits) by (apply list.Forall_forall; intros d Hd; apply Hin; set_solver).
  assert (Hu : usable key fm hits) by (apply list.Forall_forall; intros d Hd; unfold usable in Husable; rewrite list.Forall_forall in Husable; apply Husable, Hin; set_solver).
  pose proof Hs as (Hcross & Hsh & Hsr)%StronglySorted_app.
  pose proof (emit_batch key fm hits b from Hsh Hnd Hfrom Hb Hu) as He. cbn zeta in He. rewrite He. cbn iota.
  set (out := filter (unseen key b) hits) in *. pose proof (left_over_unseen b from hits rest Hp) as Hleft. fold out in Hleft.
  assert (Hso : sorted_by key out) by (by apply StronglySorted_filter).
  destruct (Z.ltb_spec (Z.of_nat (length hits)) size) as [Hshort|Hfull].
  { destruct Hlen as [Hlen|[_ ->]]; [lia|]. exists out. rewrite app_nil_r in Hleft. by split. }
  assert (Hne : out ≠ []) by (intros Hnil; pose proof (batch_progress b hits Hg Hnd Hnil) as Hbp; fold size in Hbp; lia).
  destruct (exists_last Hne) as (ds & x & Hout). rewrite decide_False by (rewrite Hout; intros Hl; apply (f_equal length) in Hl; revert Hl; clear; rewrite lines_app, length_app; cbn; lia).
  assert (Hsub : ∀ d, d ∈ out → d ∈ hits ∧ unseen key b d) by (intros d [? ?]%list_elem_of_filter; done).
  assert (Hx : x ∈ out) by (rewrite Hout; set_solver).
  pose proof (left_over_after key docs to Hids b from ds x (filter (unseen key b) rest) Hb) as Hafter. rewrite <- Hout in Hafter.
  specialize (Hafter Hleft Hso ltac:(apply list.Forall_forall; intros d [_ Hd]%list_elem_of_filter; apply Hcross; [by apply Hsub|done])).
  destruct (adds_spec key b from ds x) as [Hts _]; [by rewrite <- Hout|done|rewrite <- Hout; apply list.Forall_forall; intros d Hd; apply Hin; apply elem_of_app; left; by apply Hsub|].
  rewrite <- Hout in Hts. rewrite Hts.
  destruct (IH (S n) (key x) (adds key b out)) as (ds' & Hp' & Hs' & ->).
  { apply (good_adds b from); [done|done| |done| | |].
    - apply list.Forall_forall. intros d Hd. apply Hin, elem_of_app. left. by apply Hsub.
    - eapply sublist_NoDup; [exact Hnd|]. apply fmap_sublist, sublist_filter.
    - intros d Hd. apply Hin, elem_of_app. left. by apply Hsub.
    - apply list.Forall_forall. intros d Hd. by apply Hsub. }
  { by right. }
  { apply Permutation_length in Hleft, Hafter. rewrite length_app in Hleft. rewrite Hout, length_app in Hleft. cbn in Hleft. lia. }
  exists (out ++ ds'). rewrite lines_app. split; [by rewrite Hp', Hafter|]. split; [|done]. rewrite Hafter in Hp'.
  apply StronglySorted_app. split; [|by split]. intros d d' Hd Hd'. rewrite Hp' in Hd'. apply list_elem_of_filter in Hd' as [_ Hd'].
  apply Hcross; [by apply Hsub|done].
Qed.
End loop.

(** ** The interface *)

(** An index that answers every request of a stream: the documents that pass the filters do
    not change, are told apart by their ids, and have the times the store sorts them by. *)
Record index_store `{TimeParser} `{CursorText} (key : hit → time) (fm : FieldMap) (index : string) (flt : list filter_clause)
    (docs : list hit) (search : nat → string → searchRequest → error + list hit) : Prop := {
  st_ids : NoDup (h_ID <$> docs);
  st_usable : usable key fm docs;
  st_answers : ∀ to, answers_range key docs to (λ from size, mkRequest (fm_Timestamp fm) from to flt size false) (λ n, search n index)
}.

Section resumable.
Context `{TimeParser} `{CursorText} `{Templates} {Hlaws : CursorLaws}.
Context (key : hit → time) (p : OpenSearch) (sp : StreamParams) (def : streamDef) (index : string) (selector : gmap string string) (docs : list hit).
Context (search : nat → nat → string → searchRequest → error + list hit).

Definition with_token (tk : string) : StreamParams :=
  mkParams (sp_Cluster sp) (sp_Stream sp) (sp_From sp) (sp_To sp) (sp_Filter sp) tk.

(** The [n]-th read of the range, from a cursor. *)
Definition open_index (n : nat) (tk : string) : run := Stream (S (length docs)) p (search n) None (with_token tk).

(** The stream is configured, its templates expand, and the store answers. *)
Record served : Prop := {
  sv_stream : os_streams p !! sp_Stream sp = Some def;
  sv_index : expandIndex (sd_index def) (Name (sp_Cluster sp)) = Some index;
  sv_selector : ExpandMap (sd_selector def) (Name (sp_Cluster sp)) = Some selector;
  sv_store : ∀ n, index_store key (sd_fields def) index (clauses (sd_fields def) selector (sp_Filter sp)) docs (search n);
  sv_sparse : sparse key p docs;
  sv_batch : 0 < batchSize p;
  sv_from : zero_time < sp_From sp
}.

Definition start_of (c : cursor) : time := if Prelude.is_zero (TS c) then sp_From sp else TS c.

(** The cursors of a read: the start, and the positions after a document of the range. *)
Definition issued_cursor (c : cursor) : Prop := c = zero_cursor ∨ (sp_From sp ≤ TS c ∧ good key docs (newBoundary c)).
Definition issued_token (tk : string) : Prop := ∃ c, decodeCursor tk = Some c ∧ issued_cursor c.

Context (Hserved : served).

Lemma start_ok c : issued_cursor c → good key docs (newBoundary c) ∧ starts (newBoundary c) (start_of c) ∧ sp_From sp ≤ start_of c.
Proof using Hserved.
  unfold start_of. destruct Hserved as [_ _ _ _ _ _ Hfrom]. intros [->|[Hle Hg]].
  - split; [split; [constructor|by intros ? ?%not_elem_of_nil]|]. split; [by left|]. cbn. change (Prelude.is_zero zero_time) with true. cbn. lia.
  - split; [done|]. unfold Prelude.is_zero. rewrite (proj2 (Z.eqb_neq _ _)) by lia. split; [by right|done].
Qed.

(** A read from a cursor hands out what is left after it. *)
Lemma open_reads n tk c : decodeCursor tk = Some c → issued_cursor c → ∃ ds, ds ≡ₚ left_over key docs (sp_To sp) (newBoundary c) (start_of c) ∧
  sorted_by key ds ∧ open_index n tk = mkRun (lines key (newBoundary c) ds) None None.
Proof using Hserved.
  intros Hc Hi. destruct (start_ok c Hi) as (Hg & Hs & Hle). destruct Hserved as [Hst Hix Hsel Hstore Hsparse Hbatch Hfrom].
  destruct (Hstore n) as [Hids Hu Ha]. unfold open_index, Stream, with_token. cbn [sp_Stream sp_Cluster sp_Token sp_From sp_To sp_Filter].
  rewrite Hst, Hix, Hsel, Hc. fold (start_of c).
  destruct (read_loop_all key (sd_fields def) p docs (sp_To sp)
    (λ from size, buildSearch (sd_fields def) selector (sp_Filter sp) from (sp_To sp) size false) (λ m, search n m index)
    Hids Hu (Ha (sp_To sp)) Hsparse Hbatch (S (length docs)) 0 (start_of c) (newBoundary c) Hg Hs) as (ds & Hp & Hsd & Hr).
  { unfold left_over. pose proof (length_filter (λ d, start_of c ≤ key d ≤ sp_To sp ∧ ¬ (key d = b_ts (newBoundary c) ∧ h_ID d ∈ b_ids (newBoundary c))) docs). lia. }
  exists ds. split; [done|]. split; [done|]. cbv zeta. by rewrite Hr.
Qed.

(** The cursor of a record that was handed out. *)
Lemma handed_out c ds x post : issued_cursor c → (ds ++ [x]) ++ post ≡ₚ left_over key docs (sp_To sp) (newBoundary c) (start_of c) →
  sorted_by key ((ds ++ [x]) ++ post) →
  let b := adds key (newBoundary c) (ds ++ [x]) in let c' := mkCursor (b_ts b) (b_ids b) in
  (∃ tok, encodeCursor c' = Some tok ∧ tok ≠ "" ∧ decodeCursor tok = Some c') ∧ issued_cursor c' ∧ start_of c' = key x ∧
  left_over key docs (sp_To sp) (newBoundary c') (start_of c') ≡ₚ post.
Proof using Hserved Hlaws.
  intros Hi Hp Hs. destruct (start_ok c Hi) as (Hg & Hst & Hle). pose proof Hs as (Hcross & Hpre & _)%StronglySorted_app.
  assert (Hin : ∀ d, d ∈ (ds ++ [x]) ++ post → d ∈ docs ∧ start_of c ≤ key d ∧ unseen key (newBoundary c) d).
  { intros d Hd. rewrite Hp in Hd. apply list_elem_of_filter in Hd as [[? Hn] ?]. split; [done|]. split; [lia|]. by apply bool_decide_eq_false. }
  destruct Hserved as [_ _ _ Hstore _ _ Hfrom]. destruct (Hstore 0%nat) as [Hids Hu _].
  assert (Hall : ∀ d, d ∈ ds ++ [x] → d ∈ docs ∧ start_of c ≤ key d ∧ unseen key (newBoundary c) d) by (intros d Hd; apply Hin, elem_of_app; by left).
  destruct (adds_spec key (newBoundary c) (start_of c) ds x Hpre Hst ltac:(apply list.Forall_forall; intros d Hd; by apply Hall)) as [Hts _].
  assert (Hgood : good key docs (adds key (newBoundary c) (ds ++ [x]))).
  { apply (good_adds key docs _ (start_of c)); [done|done| |done| | |].
    - apply list.Forall_forall. intros d Hd. by apply Hall.
    - pose proof (left_over_nodup key docs (sp_To sp) Hids (newBoundary c) (start_of c)) as Hnd. rewrite <- Hp in Hnd. apply NoDup_app in Hnd as (Hnd & _).
      apply NoDup_fmap_2_strong; [|done]. intros d d' Hd Hd' Heq. by apply (same_id docs Hids); [apply Hall|apply Hall|].
    - intros d Hd. by apply Hall.
    - apply list.Forall_forall. intros d Hd. by apply Hall. }
  set (b := adds key (newBoundary c) (ds ++ [x])) in *. cbn zeta.
  assert (Hx : x ∈ docs ∧ start_of c ≤ key x) by (destruct (Hall x) as (? & ? & _); [set_solver|by split]).
  assert (Hstart : start_of (mkCursor (b_ts b) (b_ids b)) = key x).
  { unfold start_of. cbn [TS]. rewrite Hts. unfold Prelude.is_zero. by rewrite (proj2 (Z.eqb_neq _ _)) by lia. }
  split; [|split; [|split; [done|]]].
  - unfold usable in Hu. rewrite list.Forall_forall in Hu. destruct (Hu x (proj1 Hx)) as [_ Htext]. rewrite Hts. destruct (Htext (b_ids b)) as [tok Htok].
    exists tok. destruct (cursor_read_back _ _ Htok) as [Hback Hne]. split; [done|]. split; [done|]. unfold decodeCursor. by rewrite decide_False.
  - right. cbn [TS newBoundary]. unfold newBoundary. cbn [TS IDs]. split; [rewrite Hts; lia|by destruct b].
  - rewrite Hstart. unfold newBoundary at 1. cbn [TS IDs]. replace (mkBoundary (b_ts b) (b_ids b)) with b by by destruct b.
    apply (left_over_after key docs (sp_To sp) Hids _ (start_of c)); [done|done|done|].
    apply list.Forall_forall. intros d Hd. apply Hcross; [set_solver|done].
Qed.
End resumable.

(** The contract of a log source, kept: while the store answers, a read from a cursor hands
    out, in the order of time, exactly what had not been handed out when the cursor was. *)
Lemma index_resumable `{TimeParser} `{CursorText} `{Templates} `{!CursorLaws} key p sp def index selector docs search :
  served key p sp def index selector docs search →
  Resumable Z.le (issued_token key sp docs) (open_index p sp docs search) ∧
  content <$> delivered (open_index p sp docs search 0 "") ≡ₚ
    (λ d, (key d, flatten (h_Source d))) <$> filter (λ d, sp_From sp ≤ key d ≤ sp_To sp) docs.
Proof.
  intros Hserved. pose proof (open_reads key p sp def index selector docs search Hserved) as Hopen.
  assert (Hzero : issued_cursor key sp docs zero_cursor) by by left. split; [split|].
  - exists zero_cursor. by split.
  - intros n tk y (c & Hc & Hi) Hy. destruct (Hopen n tk c Hc Hi) as (ds & Hp & Hs & Hr). rewrite Hr in Hy. cbn [delivered] in Hy.
    apply list_elem_of_split in Hy as (pre & post & Hy). destruct (lines_split _ _ _ _ _ _ Hy) as (ds1 & d & ds2 & -> & _ & _ & _ & Htok).
    destruct (handed_out key p sp def index selector docs search Hserved c ds1 d ds2 Hi Hp Hs) as ((tok & He & Hne & Hd) & Hi' & _ & _).
    rewrite Htok, He. split; [done|]. eexists. by split.
  - intros n tk (c & Hc & Hi). by destruct (Hopen n tk c Hc Hi) as (ds & _ & _ & ->).
  - intros n tk (c & Hc & Hi). destruct (Hopen n tk c Hc Hi) as (ds & _ & Hs & ->). by apply lines_sorted.
  - intros n tk pre y post (c & Hc & Hi) Hy m. destruct (Hopen n tk c Hc Hi) as (ds & Hp & Hs & Hr). rewrite Hr in Hy. cbn [delivered] in Hy.
    destruct (lines_split _ _ _ _ _ _ Hy) as (ds1 & d & ds2 & -> & _ & -> & _ & Htok).
    destruct (handed_out key p sp def index selector docs search Hserved c ds1 d ds2 Hi Hp Hs) as ((tok & He & Hne & Hd) & Hi' & Hst & Hleft).
    rewrite Htok, He. change (default "" (Some tok)) with tok. destruct (Hopen m tok _ Hd Hi') as (ds' & Hp' & _ & ->). cbn [delivered].
    rewrite !lines_content, Hp', Hleft. done.
  - destruct (Hopen 0%nat "" zero_cursor eq_refl Hzero) as (ds & Hp & _ & ->). cbn [delivered]. rewrite lines_content, Hp. unfold left_over.
    apply fmap_Permutation. change (start_of sp zero_cursor) with (sp_From sp). erewrite filter_ext_elem; [reflexivity|].
    intros d _. cbn. rewrite elem_of_nil. tauto.
Qed.

(** C28: A search that pages through an index shows every document of its range that passes the
    filters exactly once and in the order of time, and comes to an end: with batches and
    pages of any size, and although the store may order the documents of one time as it likes
    on every request, as long as fewer of them share one time than a boundary may hold. *)
Theorem search_index_exact `{TimeParser} `{CursorText} `{Templates} `{GoText} `{!CursorLaws} key p sp def index selector docs search conf q fm :
  served key p sp def index selector docs search → int64 (MaxScan conf) →
  let wanted := filter (λ d, sp_From sp ≤ key d ≤ sp_To sp) docs in
  let '(pages, done) := follow (search_defaults conf) q fm (open_index p sp docs search) (S (length wanted)) 0 "" in
  done = true ∧ concat pages ≡ₚ omap (λ d, toEntry q fm (mkLine (key d) (flatten (h_Source d)) "")) wanted ∧ in_order Z.le (concat pages) ∧
  Forall (λ page, Z.of_nat (length page) ≤ page_size (search_defaults conf) q) pages.
Proof.
  intros Hserved Hint wanted. destruct (index_resumable key p sp def index selector docs search Hserved) as [Hres Hall].
  fold wanted in Hall. destruct (search_defaults_positive conf) as (Hs & Hp & _).
  assert (Hlen : length (delivered (open_index p sp docs search 0 "")) = length wanted).
  { apply Permutation_length in Hall. by rewrite !length_fmap in Hall. }
  pose proof (follow_all (search_defaults conf) q fm Z.le _ _ Hs (search_defaults_int64 conf Hint) Hp (S (length wanted)) 0 ""
    issued_start ltac:(rewrite Hlen; lia)) as Hf.
  destruct (follow _ _ _ _ _ _ _) as [pages done]. destruct Hf as (-> & Hperm & Hsorted & Hsmall & _).
  split; [done|]. split; [|by split]. rewrite Hperm. rewrite (entries_perm q fm _ ((λ d, mkLine (key d) (flatten (h_Source d)) "") <$> wanted)).
  - clear. induction wanted as [|d l IH]; [done|]. cbn. destruct (toEntry _ _ _); cbn; by rewrite IH.
  - rewrite Hall, <- list_fmap_compose. done.
Qed.

(** ** A store in memory *)

(** A text form of cursors: the binary digits of their code. *)
Fixpoint digits (p : positive) : string :=
  match p with xH => "." | xO p => String "0" (digits p) | xI p => String "1" (digits p) end.
Fixpoint of_digits (s : string) : option positive :=
  match s with
  | String c s' =>
      if decide (c = "."%char) then (if decide (s' = "") then Some xH else None)
      else if decide (c = "0"%char) then xO <$> of_digits s'
      else if decide (c = "1"%char) then xI <$> of_digits s' else None
  | EmptyString => None
  end.

Lemma of_digits_digits p : of_digits (digits p) = Some p ∧ digits p ≠ "".
Proof. split; [|by destruct p]. induction p as [p IH|p IH|]; cbn; [by rewrite IH|by rewrite IH|done]. Qed.

#[local] Instance digit_text : CursorText := {|
  cursor_text c := Some (digits (encode (TS c, IDs c)));
  cursor_of s := p ← of_digits s; '(ts, ids) ← decode (A := Z * list string) p; Some (mkCursor ts ids)
|}.

Lemma digit_text_laws : CursorLaws.
Proof.
  intros [ts ids] tok [= <-]. cbn [TS IDs]. destruct (of_digits_digits (encode (ts, ids))) as [Hd Hne]. split; [|done]. cbn.
  rewrite Hd. cbn. by rewrite decode_encode.
Qed.

(** The store sorts what it finds and cuts it off. *)
Definition sorted_store (key : hit → time) (docs : list hit) (_ _ : nat) (_ : string) (rq : searchRequest) : error + list hit :=
  inr (take (Z.to_nat (rq_size rq)) (sort_slice (less_on key Z.ltb) (filter (λ d, rq_gte rq ≤ key d ≤ rq_lte rq) docs))).

Lemma sorted_store_answers key docs m index fm flt to :
  answers_range key docs to (λ from size, mkRequest (fm_Timestamp fm) from to flt size false) (λ n, sorted_store key docs m n index).
Proof.
  intros n from size Hsize. unfold sorted_store. cbn [rq_size rq_gte rq_lte]. set (l := sort_slice _ _).
  exists (take (Z.to_nat size) l), (drop (Z.to_nat size) l). rewrite take_drop. split; [done|]. split; [apply sort_slice_perm|]. split.
  - pose proof (sort_slice_sorted (less_on key Z.ltb) (filter (λ d, from ≤ key d ≤ to) docs)) as Hs. fold l in Hs. unfold sorted_by.
    clearbody l. induction Hs as [|x l Hs IH Hall]; constructor; [done|]. eapply Forall_impl; [exact Hall|]. cbn. intros y Hy.
    unfold not_less, less_on in Hy. lia.
  - destruct (decide (Z.to_nat size ≤ length l)%nat) as [Hle|Hlt]; [left; rewrite length_take; lia|right].
    rewrite length_take. split; [lia|]. apply drop_ge. lia.
Qed.

#[local] Instance no_layouts : TimeParser := {| time_Parse _ _ := None |}.
#[local] Instance plain_templates : Templates := {| Expand t _ := Some t |}.

Definition doc (id ms text : string) : hit := mkHit id [("ts", VNumber ms); ("message", VString text)].
Definition doc_key (d : hit) : time := default 0 (hit_time message_map d).
Definition sample_docs : list hit := [doc "c" "30" "late"; doc "a" "10" "one"; doc "b" "10" "two"].
Definition sample_index : OpenSearch := mkOpenSearch {["postgresql" := mkStreamDef "logs" ∅ message_map]} 1 3.
Definition sample_range : StreamParams :=
  mkParams (mkCluster "c" "" "" "" "" [] [] ∅ "" "" ∅ "") "postgresql" 0 (10 ^ 9) no_filter "".

Lemma sample_served : served doc_key sample_index sample_range (mkStreamDef "logs" ∅ message_map) "logs" ∅ sample_docs (sorted_store doc_key sample_docs).
Proof.
  split; [by vm_compute..| | |by vm_compute|by vm_compute].
  - intros n. split; [by apply (bool_decide_unpack _); vm_compute| |intros to; apply sorted_store_answers].
    repeat constructor; cbn; eauto.
  - intros t. change (maxBoundaryIDs sample_index) with 3. assert (H1 : doc_key (doc "c" "30" "late") = 30 * 10 ^ 6) by by vm_compute.
    assert (H2 : doc_key (doc "a" "10" "one") = 10 * 10 ^ 6) by by vm_compute. assert (H3 : doc_key (doc "b" "10" "two") = 10 * 10 ^ 6) by by vm_compute.
    unfold sample_docs. rewrite !filter_cons, filter_nil. rewrite H1, H2, H3. repeat case_decide; cbn; lia.
Qed.

Lemma search_index_exact_witness :
  let pages := follow (H := plain_text) (search_defaults (mkSearchConfig 0 0 0)) (any_query 2) message_map
    (open_index sample_index sample_range sample_docs (sorted_store doc_key sample_docs)) 4 0 "" in
  map (map en_Text) pages.1 = [["two"; "one"]; ["late"]] ∧ pages.2 = true.
Proof.
  intros pages. split; [by vm_compute|]. unfold pages.
  pose proof (search_index_exact (H2 := plain_text) (H3 := digit_text_laws) doc_key sample_index sample_range (mkStreamDef "logs" ∅ message_map) "logs" ∅
    sample_docs (sorted_store doc_key sample_docs) (mkSearchConfig 0 0 0) (any_query 2) message_map sample_served
    ltac:(unfold int64, min64, max64; cbn; lia)) as Hex.
  cbv zeta in Hex. change (S (length (filter _ sample_docs))) with 4%nat in Hex. destruct (follow _ _ _ _ _ _ _) as [ps done]. by destruct Hex as [-> _].
Defined.

(** A cursor of a range that begins earlier lifts the lower bound of the range asked for:
    [from] becomes the time of the cursor (the source of VictoriaLogs guards its bound). *)
Example cursor_before_range :
  let tk := default "" (encodeCursor (mkCursor (10 * 10 ^ 6) ["a"])) in
  let later := mkParams (sp_Cluster sample_range) "postgresql" (20 * 10 ^ 6) (10 ^ 9) no_filter tk in
  Timestamp <$> delivered (Stream 4 sample_index (sorted_store doc_key sample_docs 0) None later) = [10 * 10 ^ 6; 30 * 10 ^ 6].
Proof. by vm_compute. Qed.
