(* ===== verification/LogService.v ===== *)
(** * [internal/logs]: insights, plans and comparisons ([settings.go], [plans.go],
    [insights.go], [evidence.go], [compare.go])

    A scan reads a window under a budget, sums up its plans and says what it could not
    read. What runs beside it is an argument: the settings of a cluster, the store of
    snapshots, and [saveScan], which answers with the id of the snapshot if one is taken
    (see [LogSnapshots]). Time budgets end a read through its [run]. *)

From S2P Require Import Prelude GoSlices GoFloat PatroniLayout Discovery Sanitize GoStrings ExplainPlan ExplainRules ExplainText LogPattern LogInsights LogPlans LogCompare LogSource LogSearch.
From stdpp Require Import pretty options.

#[local] Set Warnings "-register-all".
#[local] Open Scope string_scope.
#[local] Open Scope Z_scope.
#[local] Open Scope list_scope.

(** ** Configuration *)

Record LogInsightsConfig := mkInsights {
  Enabled : option bool; ic_MaxRecords : Z; ic_MaxBytes : Z; ic_MaxPlanBytes : Z; ic_MaxPlans : Z; IndexAdvisorEvidence : bool
}.
Definition IsEnabled (c : LogInsightsConfig) : bool := default true (Enabled c).
Definition insights_defaults (c : LogInsightsConfig) : LogInsightsConfig :=
  mkInsights (Enabled c) (if ic_MaxRecords c <=? 0 then 50000 else ic_MaxRecords c) (if ic_MaxBytes c <=? 0 then 2 ^ 26 else ic_MaxBytes c)
    (if ic_MaxPlanBytes c <=? 0 then 2 ^ 21 else ic_MaxPlanBytes c) (if ic_MaxPlans c <=? 0 then 5000 else ic_MaxPlans c)
    (IndexAdvisorEvidence c).

(** ** [settings.go] *)

Record Configuration := mkConfiguration {
  Instance_ : string; AutoExplain : bool; LogMinDurationMs : option Z; LogAnalyze : option bool; LogFormat : string; LogLevel : string;
  ComputeQueryID : string; cf_WorkMemKB : option Z
}.

Record planLogging := mkLogging { Config : option Configuration; Levels : list string; pl_WorkMemKB : option Z }.

Definition planContext (l : planLogging) : Context_ := mkContext (pl_WorkMemKB l) ∅.

Definition parseBoolSetting (v : string) : option bool :=
  if decide (v = "on") then Some true else if decide (v = "off") then Some false else None.

Definition newConfiguration (host : string) (values : gmap string string) : Configuration :=
  let on := existsb (λ kv : string * string, HasPrefix kv.1 "auto_explain.") (map_to_list values) in
  let setting name := default "" (values !! name) in
  mkConfiguration host on
    (if on then Atoi (setting "auto_explain.log_min_duration") else None)
    (if on then parseBoolSetting (setting "auto_explain.log_analyze") else None)
    (if on then setting "auto_explain.log_format" else "") (if on then setting "auto_explain.log_level" else "")
    (setting "compute_query_id") (ParseMemKB (setting "work_mem")).

(** What [GetPlanLogSettings] answers for an instance of a cluster; [None] is an error. *)
Definition settings_of : Type := string → string → option (gmap string string).

Definition readSettings (settings : option settings_of) (cluster : Cluster) (hosts : list string) : list Configuration * bool :=
  match settings with
  | Some get =>
      if decide (hosts = []) then ([], false)
      else
        let out := omap (λ host, newConfiguration host <$> get (Name cluster) host) hosts in
        (out, bool_decide (length out = length hosts))
  | None => ([], false)
  end.

Definition sharedWorkMemKB (first : Configuration) (rest : list Configuration) : option Z :=
  kb ← cf_WorkMemKB first;
  if forallb (λ c, bool_decide (cf_WorkMemKB c = Some kb)) rest then Some kb else None.

Definition scanHosts (cluster : Cluster) (host : string) : list string := if decide (host ≠ "") then [host] else Hosts cluster.

Definition read_logging (settings : option settings_of) (cluster : Cluster) (host : string) : planLogging :=
  match readSettings settings cluster (scanHosts cluster host) with
  | ([], _) => mkLogging None [] None
  | (first :: rest, complete) =>
      if complete
      then mkLogging (Some first) (foldl (λ l c, if decide (LogLevel c ≠ "") then appendUnique l (LogLevel c) else l) [] (first :: rest))
             (sharedWorkMemKB first rest)
      else mkLogging (Some first) [] None
  end.

Fixpoint all_canonical `{GoText} (fm : FieldMap) (levels : list string) : option (list string) :=
  match levels with
  | [] => Some []
  | level :: levels => v ← CanonicalSeverity fm level; vs ← all_canonical fm levels; Some (v :: vs)
  end.

(** An empty list narrows nothing, as does a level the source has no spelling for. *)
Definition planSeverities `{GoText} (levels : list string) (fm : FieldMap) : list string := default [] (all_canonical fm levels).

(** ** [insights.go]: data *)

Definition PartialRecords : string := "records".
Definition PartialBytes : string := "bytes".
Definition PartialTimeout : string := "timeout".
Definition PartialSource : string := "source".
Definition PartialPlans : string := "plans".

Definition EmptyNoRecords : string := "no_records".
Definition EmptyNoPlanRecords : string := "no_plan_records".
Definition EmptyUnsupportedFormat : string := "unsupported_plan_format".
Definition EmptyNotParsed : string := "not_parsed".
Definition EmptyBudgetExhausted : string := "budget_exhausted".
Definition EmptySourceUnavailable : string := "source_unavailable".

Record Span := mkSpan { span_From : time; span_To : time }.
Definition no_span : Span := mkSpan zero_time zero_time.
Definition span_add (s : Span) (ts : time) : Span :=
  mkSpan (if Prelude.is_zero (span_From s) || time_before ts (span_From s) then ts else span_From s)
    (if time_after ts (span_To s) then ts else span_To s).

Record ScanResult := mkScanResult {
  ScanID : option string; sc_Scanned : Z; sc_Partial : bool; PartialReasons : list string; Covered : Span; PlansCovered : Span;
  NarrowedBy : list string; sc_Categories : list CategorySummary; sc_Plans : PlansSummary; sc_PlanRecords : Z; EmptyReason : string;
  sc_Configuration : option Configuration
}.

Definition with_id (res : ScanResult) (id : option string) : ScanResult :=
  mkScanResult id (sc_Scanned res) (sc_Partial res) (PartialReasons res) (Covered res) (PlansCovered res) (NarrowedBy res) (sc_Categories res)
    (sc_Plans res) (sc_PlanRecords res) (EmptyReason res) (sc_Configuration res).

Definition with_groups (s : PlansSummary) (gs : list PlanGroup) : PlansSummary :=
  mkPlansSummary (Records s) (Parsed s) (NotParsed_ s) (WithoutQueryID s) (TotalGroups s) (TotalDurationMs s) (MaxDurationMs s)
    (ps_First s) (ps_Last s) gs (ps_Dormant s) (BudgetExhausted s).

Definition with_plans (res : ScanResult) (p : PlansSummary) : ScanResult :=
  mkScanResult (ScanID res) (sc_Scanned res) (sc_Partial res) (PartialReasons res) (Covered res) (PlansCovered res) (NarrowedBy res)
    (sc_Categories res) p (sc_PlanRecords res) (EmptyReason res) (sc_Configuration res).

(** [snapshot.go]: one stored read. The id and the time of creation are given when it is saved. *)
Definition ScanInsights : string := "insights".
Definition ScanPlans : string := "plans".
Definition ScanCompare : string := "compare".
Record Scan := mkScan {
  Kind : string; sn_Cluster : string; sn_Stream : string; sn_Host : string; sn_From : time; sn_To : time; Result : ScanResult
}.

Definition insightsTopGroups : Z := 10.
Definition insightsTopTemplates : nat := 5.

Definition onlyUnsupported (notParsed : list NotParsed) : bool :=
  forallb (λ np, bool_decide (np_Code np = code_string CodeUnsupportedFormat)) notParsed && bool_decide (notParsed ≠ []).

Definition emptyReason (st : scanStats) (interrupted : bool) (p : PlansSummary) : string :=
  if 0 <? TotalGroups p then ""
  else if (st_Records st =? 0) && interrupted then EmptySourceUnavailable
  else if st_Records st =? 0 then EmptyNoRecords
  else if (Records p =? 0) && Capped st then EmptyBudgetExhausted
  else if (Records p =? 0) && interrupted then EmptySourceUnavailable
  else if Records p =? 0 then EmptyNoPlanRecords
  else if onlyUnsupported (NotParsed_ p) then EmptyUnsupportedFormat
  else if BudgetExhausted p then EmptyBudgetExhausted
  else EmptyNotParsed.

Definition partialReasons (st : scanStats) (err : option service_error) (limits : scanLimits) (planBudgetExhausted : bool)
    : service_error + list string :=
  let rest :=
    (if Capped st then
       (if (0 <? MaxRecords limits) && (MaxRecords limits <=? st_Records st) then [PartialRecords] else []) ++
       (if (0 <? MaxBytes limits) && (MaxBytes limits <=? Bytes st) then [PartialBytes] else [])
     else []) ++ (if planBudgetExhausted then [PartialPlans] else []) in
  match err with
  | None => inr rest
  | Some e =>
      if st_Partial st then inr (PartialSource :: rest)
      else if bool_decide (e = ErrTimeout) && (0 <? st_Records st) then inr (PartialTimeout :: rest)
      else inl e
  end.

Definition scanBudget (c : LogInsightsConfig) (capRecord : LogLine → bool) : scanLimits :=
  mkScanLimits (ic_MaxRecords c) (ic_MaxBytes c) (ic_MaxPlanBytes c) (Some capRecord).

Definition newPlans (c : LogInsightsConfig) : Plans := NewPlans (mkLimits (ic_MaxPlanBytes c) (ic_MaxPlans c)).

(** ** [plans.go] *)

Definition planPhrase : string := "plan".
Definition defaultPlanGroups : Z := 10.
Definition maxPlanGroups : Z := 100.

Record PlansQuery := mkPlansQuery {
  pq_Cluster : string; pq_Stream : string; pq_From : time; pq_To : time; pq_QueryID : Z; pq_HasQueryID : bool; QueryIDs : list Z;
  pq_Database : string; pq_Host : string; Limit : Z
}.

Definition planGroupLimit (limit : Z) : Z := if limit <=? 0 then defaultPlanGroups else Z.min limit maxPlanGroups.

Definition wantedPlan (q : PlansQuery) (pr : PlanRecord) : bool :=
  if pq_HasQueryID q then HasQueryID pr && (QueryID pr =? pq_QueryID q)
  else if decide (QueryIDs q ≠ []) then HasQueryID pr && bool_decide (QueryID pr ∈ QueryIDs q)
  else true.

Definition validateQueryIDRole (b : binding) (q : PlansQuery) : option service_error :=
  if (pq_HasQueryID q || bool_decide (QueryIDs q ≠ [])) && bool_decide (fm_QueryID (b_fields b) = "") then Some ErrInvalid else None.

Definition validatePlansWindow (b : binding) (q : PlansQuery) : option service_error :=
  match validateWindow (b_cluster b) (pq_From q) (pq_To q) (pq_Host q) with
  | Some e => Some e
  | None => validateQueryIDRole b q
  end.

Definition narrowedBy (f : LogSource.Filter) : list string :=
  (if decide (f_Severities f ≠ []) then ["severity=" +:+ strings_Join (f_Severities f) ","] else []) ++
  (if decide (f_QueryID f ≠ None) then ["query_id"] else []) ++ (if decide (f_Contains f ≠ []) then ["text"] else []).

Section service.
Context `{GoText} `{PlanJSON} `{MapRange} (digest : string → string) (s : service) (conf : LogInsightsConfig) (settings : option settings_of).
Context (saveScan : Scan → list PlanGroup → option string).

Definition planFilter (q : PlansQuery) (levels : list string) (fm : FieldMap) : LogSource.Filter :=
  mkFilter (planSeverities levels fm) (pq_Host q) (if pq_HasQueryID q then Some (pq_QueryID q) else None) [planPhrase].

(** What a scan gathers as it reads: both spans, the records with a plan, the plans. *)
Record gathered := mkGathered { ga_covered : Span; ga_plansCovered : Span; ga_planRecords : Z; ga_plans : Plans }.

Definition gather_spans (g : gathered) (ts : time) (n : Z) (plans : Plans) : gathered :=
  mkGathered (span_add (ga_covered g) ts) (if exhausted plans then ga_plansCovered g else span_add (ga_plansCovered g) ts) n plans.

(** The plan a record of the database asked for carries. *)
Definition plan_of (q : PlansQuery) (fm : FieldMap) (rec : LogLine) : option PlanRecord :=
  if decide (pq_Database q = "" ∨ field (Fields rec) (fm_Database fm) = pq_Database q)
  then Detect (field (Fields rec) (fm_Text fm)) (field (Fields rec) (fm_QueryID fm)) else None.

Definition plan_visit (q : PlansQuery) (fm : FieldMap) (g : gathered) (rec : LogLine) : gathered * bool :=
  let '(n, plans) :=
    match plan_of q fm rec with
    | Some pr => (ga_planRecords g ⊞ 1, if wantedPlan q pr then LogPlans.Add digest (ga_plans g) pr (Timestamp rec) else ga_plans g)
    | None => (ga_planRecords g, ga_plans g)
    end in
  (gather_spans g (Timestamp rec) n plans, true).

Definition plan_limits (fm : FieldMap) : scanLimits :=
  scanBudget conf (λ rec, bool_decide (is_Some (Detect (field (Fields rec) (fm_Text fm)) ""))).

Definition scanPlans (b : binding) (q : PlansQuery) (logging : planLogging) : service_error + (ScanResult * list PlanGroup) :=
  let params f := mkParams (b_cluster b) (pq_Stream q) (pq_From q) (pq_To q) f "" in
  let f := p_Narrow (b_provider b) (params (planFilter q (Levels logging) (b_fields b))) in
  let limits := plan_limits (b_fields b) in
  let '(g, st, err) := scan (p_Stream (b_provider b) (params f)) limits (plan_visit q (b_fields b)) (mkGathered no_span no_span 0 (newPlans conf)) in
  let summary := LogPlans.Summary (ga_plans g) (planContext logging) in
  match partialReasons st err limits (BudgetExhausted summary) with
  | inl e => inl e
  | inr reasons =>
      inr (mkScanResult None (st_Records st) (bool_decide (reasons ≠ [])) reasons (ga_covered g) (ga_plansCovered g) (narrowedBy f) []
             (with_groups summary (TopGroups (Groups summary) (planGroupLimit (Limit q)))) (ga_planRecords g)
             (emptyReason st (bool_decide (err ≠ None)) summary) (Config logging),
           Groups summary)
  end.

Definition Plans_ (q : PlansQuery) : service_error + ScanResult :=
  if negb (IsEnabled conf) then inl ErrDisabled
  else
    match resolve s (pq_Cluster q) (pq_Stream q) with
    | inl e => inl e
    | inr b =>
        match validatePlansWindow b q with
        | Some e => inl e
        | None =>
            match scanPlans b q (read_logging settings (b_cluster b) (pq_Host q)) with
            | inl e => inl e
            | inr (res, groups) =>
                inr (with_id res (saveScan (mkScan ScanPlans (pq_Cluster q) (pq_Stream q) (pq_Host q) (pq_From q) (pq_To q) res) groups))
            end
        end
    end.

(** ** [insights.go]: the operation *)

Record InsightsQuery := mkInsightsQuery { iq_Cluster : string; iq_Stream : string; iq_From : time; iq_To : time; iq_Host : string }.

Definition classify_line (stream : string) (fm : FieldMap) (rec : LogLine) : string :=
  Classify (mkRecord stream (field (Fields rec) (fm_Severity fm)) (field (Fields rec) (fm_SQLState fm)) (field (Fields rec) (fm_Text fm))).

Definition insights_visit (stream : string) (fm : FieldMap) (st : CategoryCounts * gathered) (rec : LogLine) : (CategoryCounts * gathered) * bool :=
  let '(categories, g) := st in
  let text := field (Fields rec) (fm_Text fm) in
  let code := classify_line stream fm rec in
  let plans :=
    if decide (code = CategoryPlan) then
      match Detect text (field (Fields rec) (fm_QueryID fm)) with
      | Some pr => LogPlans.Add digest (ga_plans g) pr (Timestamp rec)
      | None => ga_plans g
      end
    else ga_plans g in
  ((LogInsights.Add categories code text (Timestamp rec), gather_spans g (Timestamp rec) 0 plans), true).

Definition Insights (q : InsightsQuery) : service_error + ScanResult :=
  if negb (IsEnabled conf) then inl ErrDisabled
  else
    match resolve s (iq_Cluster q) (iq_Stream q) with
    | inl e => inl e
    | inr b =>
        match validateWindow (b_cluster b) (iq_From q) (iq_To q) (iq_Host q) with
        | Some e => inl e
        | None =>
            let fm := b_fields b in
            let params := mkParams (b_cluster b) (iq_Stream q) (iq_From q) (iq_To q) (mkFilter [] (iq_Host q) None []) "" in
            let limits := scanBudget conf (λ rec, bool_decide (classify_line (iq_Stream q) fm rec = CategoryPlan)) in
            let logging := read_logging settings (b_cluster b) (iq_Host q) in
            let '(cg, st, err) := scan (p_Stream (b_provider b) params) limits (insights_visit (iq_Stream q) fm)
              (NewCategoryCounts, mkGathered no_span no_span 0 (newPlans conf)) in
            let '(categories, g) := cg in
            let summary := LogPlans.Summary (ga_plans g) (planContext logging) in
            match partialReasons st err limits (BudgetExhausted summary) with
            | inl e => inl e
            | inr reasons =>
                let res := mkScanResult None (st_Records st) (bool_decide (reasons ≠ [])) reasons (ga_covered g) (ga_plansCovered g) []
                  (LogInsights.Summary categories insightsTopTemplates)
                  (with_groups summary (TopGroups (Groups summary) insightsTopGroups)) (Records summary)
                  (emptyReason st (bool_decide (err ≠ None)) summary) (Config logging) in
                inr (with_id res (saveScan (mkScan ScanInsights (iq_Cluster q) (iq_Stream q) (iq_Host q) (iq_From q) (iq_To q) res) (Groups summary)))
            end
        end
    end.

(** ** [evidence.go] *)

Definition PlansForQueryIDs (cluster stream database : string) (from to : time) (ids : list Z) : service_error + PlanWindow :=
  if negb (IsEnabled conf) || negb (IndexAdvisorEvidence conf) then inl ErrDisabled
  else if decide (ids = []) then inr (mkWindow [] false 0)
  else
    match resolve s cluster stream with
    | inl e => inl e
    | inr b =>
        if decide (database = "" ∨ fm_Database (b_fields b) = "") then inl ErrInvalid
        else
          let q := mkPlansQuery cluster stream from to 0 false ids database "" 0 in
          match validatePlansWindow b q with
          | Some e => inl e
          | None =>
              match scanPlans b q (read_logging settings (b_cluster b) "") with
              | inl e => inl e
              | inr (res, groups) => inr (mkWindow groups (sc_Partial res) (sc_PlanRecords res))
              end
          end
    end.

(** ** [compare.go] *)

Record CompareQuery := mkCompareQuery { cq_Plans : PlansQuery; BaseFrom : time; BaseTo : time; cq_ScanID : option string }.
Record ComparedWindow := mkCompared { cw_From : time; cw_To : time; cw_Result : ScanResult }.
Record CompareResult := mkCompareResult {
  cr_Current : ComparedWindow; cr_Baseline : option ComparedWindow; cr_Partial : bool; Regressions : list Regression
}.
Record currentSide := mkSide {
  window : ComparedWindow; rows : list GroupRow; side_host : string; side_logging : planLogging; indexesKnown : bool
}.

(** The part of [SnapshotStore] a comparison reads, and the wait for a snapshot that is
    still being written. *)
Record SnapshotStore := mkStore {
  GetInsightsScan : string → Z → option Scan; AllInsightsGroups : string → option (list GroupRow); awaitSnapshot : string → option service_error
}.
Context (snapshots : option SnapshotStore).

Definition validateCompare (b : binding) (q : CompareQuery) : option service_error :=
  match validateWindow (b_cluster b) (BaseFrom q) (BaseTo q) (pq_Host (cq_Plans q)) with
  | Some e => Some e
  | None =>
      match validateQueryIDRole b (cq_Plans q) with
      | Some e => Some e
      | None =>
          match cq_ScanID q with
          | None => validateWindow (b_cluster b) (pq_From (cq_Plans q)) (pq_To (cq_Plans q)) (pq_Host (cq_Plans q))
          | Some _ =>
              if Prelude.is_zero (pq_From (cq_Plans q)) && Prelude.is_zero (pq_To (cq_Plans q)) then None else Some ErrInvalid
          end
      end
  end.

Definition recordsIndexes (rs : list GroupRow) : bool := existsb (λ r, bool_decide (row_Indexes r ≠ None)) rs.

Definition scanCovers (q : CompareQuery) (scan : Scan) : option service_error :=
  if decide (sn_Cluster scan ≠ pq_Cluster (cq_Plans q) ∨ sn_Stream scan ≠ pq_Stream (cq_Plans q)) then Some ErrInvalid
  else if decide (pq_Host (cq_Plans q) ≠ "" ∧ pq_Host (cq_Plans q) ≠ sn_Host scan) then Some ErrInvalid
  else None.

Definition ofStatement (rs : list GroupRow) (q : PlansQuery) : list GroupRow :=
  if pq_HasQueryID q then filter (λ r, row_HasQueryID r = true ∧ row_QueryID r = pq_QueryID q) rs else rs.

Definition withoutGroups (res : ScanResult) : ScanResult := with_plans res (with_groups (sc_Plans res) []).
Definition groupRows (groups : list PlanGroup) : list GroupRow := Row <$> groups.
Definition pageOfRegressions (rs : list Regression) (limit : Z) : list Regression :=
  if limit <? Z.of_nat (length rs) then take (Z.to_nat limit) rs else rs.

Definition snapshotStore : service_error + SnapshotStore :=
  if negb (IsEnabled conf) then inl ErrDisabled
  else match snapshots with None => inl ErrNoStorage | Some st => inr st end.

Definition storedWindow (b : binding) (q : CompareQuery) (id : string) : service_error + currentSide :=
  match snapshotStore with
  | inl e => inl e
  | inr store =>
      match awaitSnapshot store id with
      | Some e => inl e
      | None =>
          match GetInsightsScan store id 0 with
          | None => inl ErrStore
          | Some scan =>
              match scanCovers q scan with
              | Some e => inl e
              | None =>
                  match AllInsightsGroups store id with
                  | None => inl ErrStore
                  | Some rs =>
                      inr (mkSide (mkCompared (sn_From scan) (sn_To scan) (Result scan)) (ofStatement rs (cq_Plans q)) (sn_Host scan)
                             (read_logging settings (b_cluster b) (sn_Host scan)) (recordsIndexes rs))
                  end
              end
          end
      end
  end.

Definition compare_scan (q : PlansQuery) (res : ScanResult) : Scan :=
  mkScan ScanCompare (pq_Cluster q) (pq_Stream q) (pq_Host q) (pq_From q) (pq_To q) res.

Definition currentWindow (b : binding) (q : CompareQuery) : service_error + currentSide :=
  match cq_ScanID q with
  | Some id => storedWindow b q id
  | None =>
      let p := cq_Plans q in
      let logging := read_logging settings (b_cluster b) (pq_Host p) in
      match scanPlans b p logging with
      | inl e => inl e
      | inr (res, groups) =>
          let res := with_id res (saveScan (compare_scan p res) groups) in
          inr (mkSide (mkCompared (pq_From p) (pq_To p) (withoutGroups res)) (groupRows groups) (pq_Host p) logging true)
      end
  end.

(** The baseline is read on the host and with the narrowing of the current side. *)
Definition base_query (q : CompareQuery) (host : string) : PlansQuery :=
  let p := cq_Plans q in
  mkPlansQuery (pq_Cluster p) (pq_Stream p) (BaseFrom q) (BaseTo q) (pq_QueryID p) (pq_HasQueryID p) (QueryIDs p) (pq_Database p) host (Limit p).

Definition Compare_windows (q : CompareQuery) : service_error + CompareResult :=
  if negb (IsEnabled conf) then inl ErrDisabled
  else
    match resolve s (pq_Cluster (cq_Plans q)) (pq_Stream (cq_Plans q)) with
    | inl e => inl e
    | inr b =>
        match validateCompare b q with
        | Some e => inl e
        | None =>
            match currentWindow b q with
            | inl e => inl e
            | inr cur =>
                let partial := sc_Partial (cw_Result (window cur)) in
                if decide (rows cur = []) then inr (mkCompareResult (window cur) None partial [])
                else
                  let base := base_query q (side_host cur) in
                  match scanPlans b base (side_logging cur) with
                  | inl e => inl e
                  | inr (summary, groups) =>
                      let summary := with_id summary (saveScan (compare_scan base summary) groups) in
                      inr (mkCompareResult (window cur) (Some (mkCompared (BaseFrom q) (BaseTo q) (withoutGroups summary)))
                             (partial || sc_Partial summary)
                             (pageOfRegressions (LogCompare.Compare (rows cur) (groupRows groups) (indexesKnown cur)) (planGroupLimit (Limit (cq_Plans q)))))
                  end
            end
        end
    end.
End service.
