(* ===== verification/LogServiceSound.v ===== *)
(** * What the insights of a window answer ([logs/plans.go], [evidence.go], [compare.go])

    A scan of plans reads a first part of the window and says which; the evidence of the
    index advisor and the comparison of two windows stay within what was asked for. *)

From S2P Require Import Prelude GoSlices GoFloat PatroniLayout Discovery Sanitize GoStrings ExplainPlan ExplainRules ExplainText LogPattern LogInsights LogPlans LogPlansSound LogCompare LogSource LogSearch LogService.
From stdpp Require Import pretty options.

#[local] Set Warnings "-register-all".
#[local] Open Scope string_scope.
#[local] Open Scope Z_scope.
#[local] Open Scope list_scope.

(** ** A scan whose visitor takes every record *)

Definition over (limit n : Z) : Prop := 0 < limit ∧ limit ≤ n.

Section scan.
Context {S : Type} (limits : scanLimits) (visit : S → LogLine → S * bool) (Hall : ∀ s x, (visit s x).2 = true).

Definition capped_by (st : scanStats) : Prop := over (MaxRecords limits) (st_Records st) ∨ over (MaxBytes limits) (Bytes st).

Lemma scan_step_taken s st x : Capped st = false → int64 (st_Records st + 1) →
  ∃ st', scan_step limits visit (s, st) x = (((visit s x).1, st'), negb (Capped st')) ∧
    st_Records st' = st_Records st + 1 ∧ Bytes st' = (if 0 <? MaxBytes limits then Bytes st ⊞ charge limits x else Bytes st) ∧
    st_Partial st' = st_Partial st ∧ (Capped st' = true ↔ capped_by st').
Proof using Hall.
  intros Hc Hn. unfold scan_step. pose proof (Hall s x) as Hok. destruct (visit s x) as [s' ok]. cbn [fst snd] in *. subst ok. cbn [negb].
  rewrite add64_small by done. rewrite Hc. set (bytes := if 0 <? MaxBytes limits then _ else _). set (capped := _ || _).
  exists (mkStats (st_Records st + 1) bytes capped (st_Partial st)). cbn [st_Records st_Partial Capped]. split_and!; [by destruct capped|done|done|done|].
  unfold capped_by, over. cbn [st_Records Bytes]. destruct capped eqn:E; subst capped.
  - split; [intros _|done]. apply orb_true_iff in E. rewrite !andb_true_iff, !Z.ltb_lt, !Z.leb_le in E. done.
  - split; [done|]. intros Hov. apply orb_false_iff in E as [E1 E2]. rewrite !andb_false_iff, !Z.ltb_ge, !Z.leb_gt in *. lia.
Qed.

(** What these records are charged, when bytes are counted; and whether they reach a limit. *)
Definition charged (l : list LogLine) : Z := if 0 <? MaxBytes limits then foldl (λ n rec, n ⊞ charge limits rec) 0 l else 0.
Definition reached (l : list LogLine) : Prop := over (MaxRecords limits) (Z.of_nat (length l)) ∨ over (MaxBytes limits) (charged l).

Lemma feed_taken l seen s st : Capped st = false → st_Records st = Z.of_nat (length seen) → Bytes st = charged seen →
  int64 (Z.of_nat (length (seen ++ l))) → ¬ reached seen →
  ∃ pre post st', l = pre ++ post ∧
    feed (scan_step limits visit) (s, st) l = ((foldl (λ s x, (visit s x).1) s pre, st'), negb (Capped st')) ∧
    st_Records st' = Z.of_nat (length (seen ++ pre)) ∧ Bytes st' = charged (seen ++ pre) ∧ st_Partial st' = st_Partial st ∧
    (Capped st' = true ↔ reached (seen ++ pre)) ∧ (Capped st' = false → post = []) ∧
    (∀ l1 x l2, pre = l1 ++ x :: l2 → ¬ reached (seen ++ l1)).
Proof using Hall.
  revert seen s st. induction l as [|x l IH]; intros seen s st Hc Hr0 Hb0 Hn Hcap.
  { exists [], [], st. rewrite !app_nil_r. cbn. rewrite Hc. split_and!; try done. by intros l1 x l2 ?%app_cons_not_nil. }
  assert (Hlen : int64 (Z.of_nat (length seen) + 1)).
  { rewrite length_app in Hn. cbn [length] in Hn. unfold int64, min64, max64 in *. lia. }
  destruct (scan_step_taken s st x Hc) as (st1 & Heq & Hr & Hb & Hp & Hc1); [by rewrite Hr0|].
  assert (Hr1 : st_Records st1 = Z.of_nat (length (seen ++ [x]))) by (rewrite Hr, Hr0, length_app; cbn; lia).
  assert (Hb1 : Bytes st1 = charged (seen ++ [x])).
  { rewrite Hb, Hb0. unfold charged. rewrite foldl_snoc. by destruct (0 <? MaxBytes limits). }
  assert (Hcr : Capped st1 = true ↔ reached (seen ++ [x])) by (rewrite Hc1; unfold capped_by, reached; by rewrite Hr1, Hb1).
  assert (Hfirst : ∀ l1 y l2, [x] = l1 ++ y :: l2 → ¬ reached (seen ++ l1)).
  { intros [|z l1] y l2 [= <- Hl]; [by rewrite app_nil_r|by apply app_cons_not_nil in Hl]. }
  cbn [feed]. rewrite Heq. destruct (Capped st1) eqn:E; cbn [negb].
  - exists [x], l, st1. rewrite E. cbn. split_and!; done.
  - destruct (IH (seen ++ [x]) (visit s x).1 st1) as (pre & post & st' & -> & Hf & Hr' & Hb' & Hp' & Hc' & Hpost & Hstop);
      [done|done|done|by rewrite <- app_assoc|by intros Hx%Hcr|].
    rewrite <- !app_assoc in Hr', Hb', Hc'. exists (x :: pre), post, st'. cbn [app foldl]. split_and!; try done; [congruence|].
    intros [|z l1] y l2 [= <- Hl]; [by rewrite app_nil_r|]. change (x :: l1) with ([x] ++ l1). rewrite app_assoc. by eapply Hstop.
Qed.

(** What such a scan has read, and why it ended. *)
Lemma scan_taken r s : int64 (Z.of_nat (length (delivered r))) →
  ∃ pre post st err, delivered r = pre ++ post ∧ scan r limits visit s = (foldl (λ s x, (visit s x).1) s pre, st, err) ∧
    st_Records st = Z.of_nat (length pre) ∧ Bytes st = charged pre ∧ (Capped st = true ↔ reached pre) ∧
    (∀ l1 x l2, pre = l1 ++ x :: l2 → ¬ reached l1) ∧
    (if Capped st then err = None ∧ st_Partial st = false
     else post = [] ∧ err = classify (ctx_done r) <$> failed r ∧ st_Partial st = from_option (λ e, Is e ErrPartial) false (failed r)).
Proof using Hall.
  intros Hn. destruct (feed_taken (delivered r) [] s LogSearch.no_stats) as (pre & post & st & Hl & Hf & Hr & Hb & Hp & Hc & Hpost & Hstop);
    [done|done|unfold charged; by destruct (0 <? MaxBytes limits)|done|unfold reached, over, charged; destruct (0 <? MaxBytes limits); cbn; lia|].
  cbn [app] in *. unfold scan, run_stream. rewrite Hf. exists pre, post. destruct (Capped st) eqn:E; cbn [negb].
  - exists st, None. rewrite E. split_and!; done.
  - destruct (failed r) as [e|]; cbn.
    + eexists (mkStats (st_Records st) (Bytes st) (Capped st) (Is e ErrPartial)), _. cbn. rewrite E. split_and!; try done. by apply Hpost.
    + exists st, None. rewrite E. split_and!; try done. by apply Hpost.
Qed.
End scan.

(** ** Why an answer is partial *)

(** Every reason stands for what it says, and there is one whenever records are missing. *)
Lemma partialReasons_exact st err limits exhausted reasons :
  partialReasons st err limits exhausted = inr reasons → (Capped st = true → err = None) → (Capped st = true ↔ capped_by limits st) →
  (PartialRecords ∈ reasons ↔ Capped st = true ∧ over (MaxRecords limits) (st_Records st)) ∧
  (PartialBytes ∈ reasons ↔ Capped st = true ∧ over (MaxBytes limits) (Bytes st)) ∧
  (PartialSource ∈ reasons ↔ err ≠ None ∧ st_Partial st = true) ∧
  (PartialTimeout ∈ reasons ↔ err = Some ErrTimeout ∧ st_Partial st = false) ∧
  (PartialPlans ∈ reasons ↔ exhausted = true) ∧
  (reasons = [] ↔ Capped st = false ∧ err = None ∧ exhausted = false).
Proof.
  assert (Hov : ∀ limit n, (0 <? limit) && (limit <=? n) = true ↔ over limit n).
  { intros. rewrite andb_true_iff, Z.ltb_lt, Z.leb_le. done. }
  unfold partialReasons, capped_by. rewrite <- !Hov. intros Hr Hce Hcap.
  destruct (Capped st).
  - rewrite Hce in Hr by done. destruct ((0 <? MaxRecords limits) && _), ((0 <? MaxBytes limits) && _), exhausted; cbn in Hr; injection Hr as <-;
      try (destruct (proj1 Hcap eq_refl); discriminate); rewrite Hce by done; set_solver.
  - destruct err as [e|]; [destruct (st_Partial st); [|destruct (bool_decide (e = ErrTimeout)) eqn:He; [apply bool_decide_eq_true in He as ->|done];
      destruct (0 <? st_Records st); [|done]]|]; destruct exhausted; cbn in Hr; injection Hr as <-; set_solver.
Qed.

(** ** What a scan of plans gathers *)

(** The span of a list of times: none for none. *)
Definition covers (sp : Span) (ts : list time) : Prop :=
  match ts with [] => sp = no_span | _ => spans (span_From sp) (span_To sp) ts end.

Definition real_time (t : time) : Prop := zero_time < t.

Lemma span_add_covers sp ts t : Forall real_time (ts ++ [t]) → covers sp ts → covers (span_add sp t) (ts ++ [t]).
Proof.
  intros [Hts Ht]%Forall_app Hc. rewrite list.Forall_singleton in Ht. destruct ts as [|u ts].
  - cbn in Hc. subst sp. unfold span_add, covers. cbn [app span_From span_To no_span]. change (Prelude.is_zero zero_time) with true. cbn [orb].
    unfold time_after. rewrite (proj2 (Z.ltb_lt zero_time t)) by done. apply spans_one.
  - assert (Hw : span_add sp t = let w := widen (span_From sp) (span_To sp) t in mkSpan w.1 w.2).
    { unfold span_add, widen. destruct Hc as [Hf _ _]. assert (Hz : Prelude.is_zero (span_From sp) = false); [|by rewrite Hz].
      rewrite list.Forall_forall in Hts. specialize (Hts _ Hf). unfold real_time in Hts. unfold Prelude.is_zero. lia. }
    rewrite Hw. cbn [app]. exact (widen_spans _ _ (u :: ts) t Hc).
Qed.

Section gather.
Context `{PlanJSON} (digest : string → string) (conf : LogInsightsConfig) (q : PlansQuery) (fm : FieldMap).

(** The plans among the records read, and those the query wants. *)
Definition plans_read (recs : list LogLine) : list (PlanRecord * time) := omap (λ rec, (λ pr, (pr, Timestamp rec)) <$> plan_of q fm rec) recs.
Definition plans_wanted (recs : list LogLine) : list (PlanRecord * time) := filter (λ r, wantedPlan q r.1 = true) (plans_read recs).
Definition summed (rs : list (PlanRecord * time)) : Plans := foldl (λ a r, LogPlans.Add digest a r.1 r.2) (newPlans conf) rs.
Definition plans_after (recs : list LogLine) : Plans := summed (plans_wanted recs).

Lemma plans_read_snoc recs x : plans_read (recs ++ [x]) = plans_read recs ++ (match plan_of q fm x with Some pr => [(pr, Timestamp x)] | None => [] end).
Proof. unfold plans_read. rewrite omap_app. cbn. by destruct (plan_of q fm x). Qed.

Lemma plans_after_snoc recs x : plans_after (recs ++ [x]) =
  match plan_of q fm x with
  | Some pr => if wantedPlan q pr then LogPlans.Add digest (plans_after recs) pr (Timestamp x) else plans_after recs
  | None => plans_after recs
  end.
Proof.
  unfold plans_after, plans_wanted. rewrite plans_read_snoc, filter_app. destruct (plan_of q fm x) as [pr|].
  - rewrite filter_cons, filter_nil. cbn [fst]. destruct (wantedPlan q pr); [rewrite decide_True by done|rewrite decide_False, app_nil_r by done; done].
    unfold summed. by rewrite foldl_snoc.
  - by rewrite filter_nil, app_nil_r.
Qed.

Lemma plan_visit_takes g x : (plan_visit digest q fm g x).2 = true.
Proof. unfold plan_visit. by destruct (plan_of q fm x). Qed.

Lemma Add_exhausted a rec ts : exhausted a = true → exhausted (LogPlans.Add digest a rec ts) = true.
Proof. unfold LogPlans.Add. intros. repeat case_match; done. Qed.

(** The records plans were still taken from: the longest part after which none had been
    turned away for the budget. *)
Definition within_budget (pre recs : list LogLine) : Prop :=
  exhausted (plans_after pre) = false ∧
  (pre = recs ∨ ∃ x post, recs = pre ++ x :: post ∧ exhausted (plans_after (pre ++ [x])) = true).

Record gathered_from (recs : list LogLine) (g : gathered) : Prop := {
  gf_covered : covers (ga_covered g) (Timestamp <$> recs);
  gf_plans_covered : ∃ pre, within_budget pre recs ∧ covers (ga_plansCovered g) (Timestamp <$> pre);
  gf_plan_records : ga_planRecords g = Z.of_nat (length (plans_read recs));
  gf_plans : ga_plans g = plans_after recs
}.

Lemma plans_after_exhausted recs l : exhausted (plans_after recs) = true → exhausted (plans_after (recs ++ l)) = true.
Proof.
  intros Hx. induction l as [|z l IH] using rev_ind; [by rewrite app_nil_r|]. rewrite app_assoc, plans_after_snoc.
  repeat case_match; [by apply Add_exhausted|done..].
Qed.

Lemma plan_visit_gathers recs g x : int64 (Z.of_nat (length recs) + 1) → Forall (λ r, real_time (Timestamp r)) (recs ++ [x]) →
  gathered_from recs g → gathered_from (recs ++ [x]) (plan_visit digest q fm g x).1.
Proof.
  intros Hb Ht [Hc (pre & Hpre & Hpc) Hn Hp].
  assert (Hplan : (plan_visit digest q fm g x).1 =
    gather_spans g (Timestamp x) (Z.of_nat (length (plans_read (recs ++ [x])))) (plans_after (recs ++ [x]))).
  { unfold plan_visit. rewrite plans_after_snoc, plans_read_snoc, length_app, Hn, Hp. pose proof (omap_shorter (λ rec, (λ pr, (pr, Timestamp rec)) <$> plan_of q fm rec) recs) as Hle.
    fold (plans_read recs) in Hle. destruct (plan_of q fm x) as [pr|]; cbn [length fst].
    - rewrite add64_small by (unfold int64, min64, max64 in *; lia). f_equal. lia.
    - by rewrite Nat.add_0_r. }
  rewrite Hplan. unfold gather_spans. assert (Hts : Forall real_time ((Timestamp <$> recs) ++ [Timestamp x])).
  { change [Timestamp x] with (Timestamp <$> [x]). rewrite <- fmap_app. by apply Forall_fmap. }
  split; cbn [ga_covered ga_plansCovered ga_planRecords ga_plans]; [rewrite fmap_app; by apply span_add_covers| |done|done].
  destruct Hpre as [Ha [->|(y & post & -> & Hy)]].
  - destruct (exhausted (plans_after (recs ++ [x]))) eqn:E.
    + exists recs. split; [|done]. split; [done|]. right. by exists x, [].
    + exists (recs ++ [x]). split; [split; [done|by left]|rewrite fmap_app; by apply span_add_covers].
  - rewrite <- app_assoc. cbn [app]. assert (exhausted (plans_after (pre ++ y :: post ++ [x])) = true) as ->.
    { change (y :: post ++ [x]) with ([y] ++ (post ++ [x])). rewrite app_assoc. by apply plans_after_exhausted. }
    exists pre. split; [|done]. split; [done|]. right. by exists y, (post ++ [x]).
Qed.

Lemma gathered_all recs : int64 (Z.of_nat (length recs)) → Forall (λ r, real_time (Timestamp r)) recs →
  gathered_from recs (foldl (λ g x, (plan_visit digest q fm g x).1) (mkGathered no_span no_span 0 (newPlans conf)) recs).
Proof.
  induction recs as [|x recs IH] using rev_ind; intros Hb Ht.
  - split; [done| |done|done]. exists []. split; [split; [done|by left]|done].
  - rewrite foldl_snoc. rewrite length_app in Hb. cbn [length] in Hb. apply plan_visit_gathers; [unfold int64, min64, max64 in *; lia|done|].
    apply Forall_app in Ht as [Ht _]. apply IH; [unfold int64, min64, max64 in *; lia|done].
Qed.
End gather.

(** ** The summary *)

Section summary.
Context `{PlanJSON} (digest : string → string).

(** Every group stands for a record that was added. *)
Definition groups_from (rs : list (PlanRecord * time)) (m : gmap planKey planAcc) : Prop :=
  ∀ k a, m !! k = Some a → ∃ r, r ∈ rs ∧ g_QueryID (acc_group a) = QueryID r.1 ∧ g_HasQueryID (acc_group a) = HasQueryID r.1.

Lemma Add_groups_from rs a r ts : groups_from rs (groups a) → groups_from (rs ++ [(r, ts)]) (groups (LogPlans.Add digest a r ts)).
Proof.
  intros Hrs. assert (Hkeep : groups_from (rs ++ [(r, ts)]) (groups a)).
  { intros k acc Hk. destruct (Hrs k acc Hk) as (x & Hx & Hids). exists x. split; [|done]. apply elem_of_app. by left. }
  unfold LogPlans.Add. repeat case_match; cbn [groups]; try done.
  all: intros k acc; rewrite lookup_insert; case_decide as Hk; [intros [= <-]|apply Hkeep].
  all: unfold add_plan; match goal with |- context [widen ?f ?l ?t] => destruct (widen f l t) end; cbn [acc_group g_QueryID g_HasQueryID].
  all: destruct (groups a !! _) as [acc'|] eqn:Ha; cbn [default from_option id]; [by apply Hkeep in Ha|].
  all: exists (r, ts); split; [apply elem_of_app; right; by left|done].
Qed.

Lemma fold_groups_from lim rs : groups_from rs (groups (foldl (λ a r, LogPlans.Add digest a r.1 r.2) (NewPlans lim) rs)).
Proof.
  induction rs as [|[r ts] rs IH] using rev_ind; [by intros k a [=]|]. rewrite foldl_snoc. by apply Add_groups_from.
Qed.

Context `{MapRange}.

Lemma Summary_groups a env : ∃ l, Groups (Summary a env) = imap (λ i g, set_Ord (Z.of_nat i) g) (sort_slice LogPlans.group_less (finish env <$> l.*2)) ∧
  l ≡ₚ map_to_list (groups a).
Proof.
  exists (map_range "Summary.groups" (groups a)). split; [|apply map_range_perm]. unfold Summary. by destruct (foldl window_step _ _) as [[? ?] ?].
Qed.

Lemma Summary_ids a env rs g : groups_from rs (groups a) → g ∈ Groups (Summary a env) →
  ∃ r, r ∈ rs ∧ g_QueryID g = QueryID r.1 ∧ g_HasQueryID g = HasQueryID r.1.
Proof.
  intros Hrs. destruct (Summary_groups a env) as (l & -> & Hl). intros (i & x & -> & Hi)%elem_of_lookup_imap.
  apply list_elem_of_lookup_2, elem_of_sort_slice, list_elem_of_fmap in Hi as (acc & -> & ((k & acc') & -> & Hin)%list_elem_of_fmap).
  rewrite Hl in Hin. apply elem_of_map_to_list, Hrs in Hin as (r & Hr & Hids). exists r. split; [done|]. cbn [snd]. unfold finish. by destruct (Evaluate _ _).
Qed.

Lemma Summary_count a env : TotalGroups (Summary a env) = Z.of_nat (length (Groups (Summary a env))).
Proof.
  destruct (Summary_groups a env) as (l & -> & Hl). rewrite length_imap, sort_slice_perm, !length_fmap, Hl, length_map_to_list.
  unfold Summary. by destruct (foldl window_step _ _) as [[? ?] ?].
Qed.

Lemma Summary_exhausted a env : BudgetExhausted (Summary a env) = exhausted a.
Proof. unfold Summary. by destruct (foldl window_step _ _) as [[? ?] ?]. Qed.
End summary.

Lemma emptyReason_groups st interrupted p : 0 ≤ TotalGroups p → emptyReason st interrupted p = "" ↔ TotalGroups p ≠ 0.
Proof.
  intros H0. unfold emptyReason. destruct (Z.ltb_spec 0 (TotalGroups p)); [split; [lia|done]|].
  split; [|lia]. repeat (case_match; [done|]). done.
Qed.

(** ** The scan of plans *)

(** The read behind a scan of plans. *)
Definition plans_run `{GoText} (b : binding) (q : PlansQuery) (logging : planLogging) : run :=
  let params f := mkParams (b_cluster b) (pq_Stream q) (pq_From q) (pq_To q) f "" in
  p_Stream (b_provider b) (params (p_Narrow (b_provider b) (params (planFilter q (Levels logging) (b_fields b))))).

Lemma failure_partial {A B} (f : A → B) (P : A → bool) fe :
  f <$> fe ≠ None ∧ from_option P false fe = true ↔ ∃ e, fe = Some e ∧ P e = true.
Proof. destruct fe as [e|]; cbn; [|naive_solver]. split; [intros [_ H]; by exists e|]. by intros (? & [= <-] & ?). Qed.

Lemma failure_other {A B} (f : A → B) (P : A → bool) fe t :
  f <$> fe = Some t ∧ from_option P false fe = false ↔ ∃ e, fe = Some e ∧ P e = false ∧ f e = t.
Proof. destruct fe as [e|]; cbn; [|naive_solver]. split; [intros [[= H1] H2]; by exists e|]. by intros (? & [= <-] & ? & <-). Qed.

(** What the answer says of the records it was read from. *)
Record answers `{PlanJSON} `{MapRange} (digest : string → string) (conf : LogInsightsConfig) (q : PlansQuery) (fm : FieldMap)
    (logging : planLogging) (r : run) (pre : list LogLine) (res : ScanResult) (gs : list PlanGroup) : Prop := {
  an_counts : sc_Scanned res = Z.of_nat (length pre) ∧ sc_PlanRecords res = Z.of_nat (length (plans_read q fm pre));
  an_groups : gs = Groups (Summary (plans_after digest conf q fm pre) (planContext logging));
  an_plans : sc_Plans res =
    with_groups (Summary (plans_after digest conf q fm pre) (planContext logging)) (TopGroups gs (planGroupLimit (Limit q)));
  an_covered : covers (Covered res) (Timestamp <$> pre);
  an_plans_covered : ∃ pre', within_budget digest conf q fm pre' pre ∧ covers (PlansCovered res) (Timestamp <$> pre');
  an_first : ∀ l1 x l2, pre = l1 ++ x :: l2 → ¬ reached (plan_limits conf fm) l1;
  an_partial : sc_Partial res = true ↔ PartialReasons res ≠ [];
  an_records : PartialRecords ∈ PartialReasons res ↔ over (ic_MaxRecords conf) (Z.of_nat (length pre));
  an_bytes : PartialBytes ∈ PartialReasons res ↔ over (ic_MaxBytes conf) (charged (plan_limits conf fm) pre);
  an_source : PartialSource ∈ PartialReasons res ↔ ¬ reached (plan_limits conf fm) pre ∧
    ∃ e, failed r = Some e ∧ Is e ErrPartial = true;
  an_timeout : PartialTimeout ∈ PartialReasons res ↔ ¬ reached (plan_limits conf fm) pre ∧
    ∃ e, failed r = Some e ∧ Is e ErrPartial = false ∧ classify (ctx_done r) e = ErrTimeout;
  an_budget : PartialPlans ∈ PartialReasons res ↔ exhausted (plans_after digest conf q fm pre) = true;
  an_empty : EmptyReason res = "" ↔ gs ≠ []
}.

(** C33: A scan of plans reads a first part of the window and answers for exactly that part: the
    records it counts, the plans it sums up, the span it names; the span of the plans is of the
    records before the budget of plans ran out. It stops at the first record that reaches a limit,
    and only there; it names the limit of records, that of bytes, the budget of plans, the source that
    gave a part of its answer and the timeout, each exactly when it was met, and an answer that is not
    partial has read the whole window of a source that did not fail, within the budget. A failure of the
    source is the answer itself when it is neither a part nor a timeout with records to show. *)
Theorem scanPlans_exact `{GoText} `{PlanJSON} `{MapRange} digest conf b q logging :
  let r := plans_run b q logging in
  int64 (Z.of_nat (length (delivered r))) → Forall (λ x, real_time (Timestamp x)) (delivered r) →
  match scanPlans digest conf b q logging with
  | inr (res, gs) => ∃ pre post, delivered r = pre ++ post ∧ (post = [] ∨ reached (plan_limits conf (b_fields b)) pre) ∧
      answers digest conf q (b_fields b) logging r pre res gs ∧
      (sc_Partial res = false → post = [] ∧ failed r = None ∧ exhausted (plans_after digest conf q (b_fields b) pre) = false)
  | inl e => ∃ fe, failed r = Some fe ∧ e = classify (ctx_done r) fe ∧ Is fe ErrPartial = false ∧ (e = ErrTimeout → delivered r = [])
  end.
Proof.
  intros r Hb Ht. unfold scanPlans. fold (plans_run b q logging). fold r. set (f := p_Narrow _ _).
  destruct (scan_taken (plan_limits conf (b_fields b)) (plan_visit digest q (b_fields b)) (plan_visit_takes digest q (b_fields b))
    r (mkGathered no_span no_span 0 (newPlans conf)) Hb) as (pre & post & st & err & Hsplit & -> & Hn & Hby & Hcap & Hstop & Hend).
  rewrite Hsplit in Hb, Ht |- *. apply Forall_app in Ht as [Ht _]. rewrite length_app in Hb.
  pose proof (gathered_all digest conf q (b_fields b) pre ltac:(unfold int64, min64, max64 in *; lia) Ht) as [Hc Hpc Hpn Hp].
  set (g := foldl _ _ pre) in *. rewrite Summary_exhausted, Hp. set (a := plans_after _ _ _ _ pre) in *.
  destruct (partialReasons st err _ _) as [e|reasons] eqn:Hr.
  - unfold partialReasons in Hr. destruct (Capped st).
    { destruct Hend as [-> _]. done. }
    destruct Hend as (-> & -> & Hpart). destruct (failed r) as [fe|]; [|done]. cbn in Hr, Hpart. exists fe. rewrite Hpart in Hr.
    destruct (Is fe ErrPartial); [done|]. split; [done|]. destruct (bool_decide _) eqn:He; cbn [andb] in Hr.
    + destruct (Z.ltb_spec 0 (st_Records st)); [done|]. injection Hr as <-. split_and!; [done|done|]. intros _. destruct pre; [done|]. cbn in Hn. lia.
    + injection Hr as <-. split_and!; [done|done|]. intros Het. by rewrite Het in He.
  - exists pre, post. split; [done|]. split; [destruct (Capped st); [right; by apply Hcap|left; by apply Hend]|].
    destruct (partialReasons_exact _ _ _ _ _ Hr) as (Hrec & Hbyt & Hsrc & Htime & Hplans & Hnil); [intros E; rewrite E in Hend; by destruct Hend| |].
    { rewrite Hcap. unfold capped_by, reached. by rewrite Hn, Hby. }
    assert (Hopen : Capped st = false ↔ ¬ reached (plan_limits conf (b_fields b)) pre) by (rewrite <- Hcap; by destruct (Capped st)).
    split; [split; cbn [sc_Scanned sc_PlanRecords sc_Plans Covered PlansCovered sc_Partial PartialReasons EmptyReason]|].
    + by rewrite Hn.
    + by fold a.
    + by fold a.
    + done.
    + done.
    + done.
    + apply bool_decide_eq_true.
    + rewrite Hrec, Hn, Hcap. split; [tauto|]. intros Ho. split; [by left|done].
    + rewrite Hbyt, Hby, Hcap. split; [tauto|]. intros Ho. split; [by right|done].
    + rewrite Hsrc, <- Hopen. destruct (Capped st); [destruct Hend as [-> _]; split; [by intros [? _]|by intros [? _]]|].
      destruct Hend as (_ & -> & ->). rewrite failure_partial. split; [done|by intros [_ ?]].
    + rewrite Htime, <- Hopen. destruct (Capped st); [destruct Hend as [-> _]; split; [by intros [? _]|by intros [? _]]|].
      destruct Hend as (_ & -> & ->). rewrite failure_other. split; [done|by intros [_ ?]].
    + done.
    + rewrite emptyReason_groups, Summary_count by (rewrite Summary_count; lia). destruct (Groups _); cbn; [done|]. split; [done|lia].
    + cbn [sc_Partial]. intros Hf. apply bool_decide_eq_false in Hf. destruct (proj1 Hnil) as (Hc1 & -> & Hx); [by destruct reasons; [|destruct Hf]|].
      rewrite Hc1 in Hend. destruct Hend as (-> & He & _). split_and!; [done| |done]. by destruct (failed r).
Qed.

(** ** Nothing beyond what was asked for *)

Lemma feed_prefix {S} (limits : scanLimits) (visit : S → LogLine → S * bool) l s st : (∀ s x, (visit s x).2 = true) →
  ∃ pre, pre `prefix_of` l ∧ (feed (scan_step limits visit) (s, st) l).1.1 = foldl (λ s x, (visit s x).1) s pre.
Proof.
  intros Hall. revert s st. induction l as [|x l IH]; intros s st; [by exists []|]. cbn [feed]. unfold scan_step at 1.
  pose proof (Hall s x) as Hok. destruct (visit s x) as [s' ok] eqn:E. cbn in Hok. subst ok. cbn [negb].
  match goal with |- context [mkStats ?n ?b ?c ?p] => set (st' := mkStats n b c p) end. destruct (negb _).
  - destruct (IH s' st') as (pre & Hp & Hf). exists (x :: pre). split; [by apply prefix_cons|]. cbn [foldl]. by rewrite E.
  - exists [x]. split; [apply prefix_cons, prefix_nil|]. cbn. by rewrite E.
Qed.

Lemma scan_prefix {S} (limits : scanLimits) (visit : S → LogLine → S * bool) r s : (∀ s x, (visit s x).2 = true) →
  ∃ pre st err, pre `prefix_of` delivered r ∧ scan r limits visit s = (foldl (λ s x, (visit s x).1) s pre, st, err).
Proof.
  intros Hall. destruct (feed_prefix limits visit (delivered r) s LogSearch.no_stats Hall) as (pre & Hp & Hf). exists pre.
  unfold scan, run_stream. destruct (feed _ _ _) as [[s' st'] fin]. cbn in Hf. subst s'. destruct (if fin then failed r else None); eauto.
Qed.

(** The record of the log a group of plans comes from. *)
Definition asked_for (q : PlansQuery) (fm : FieldMap) (recs : list LogLine) (g : PlanGroup) : Prop :=
  ∃ rec pr, rec ∈ recs ∧ plan_of q fm rec = Some pr ∧ wantedPlan q pr = true ∧ g_QueryID g = QueryID pr ∧ g_HasQueryID g = HasQueryID pr.

Lemma gathered_plans `{PlanJSON} digest conf q fm recs :
  ga_plans (foldl (λ g x, (plan_visit digest q fm g x).1) (mkGathered no_span no_span 0 (newPlans conf)) recs) = plans_after digest conf q fm recs.
Proof.
  induction recs as [|x recs IH] using rev_ind; [done|]. rewrite foldl_snoc, plans_after_snoc, <- IH. unfold plan_visit.
  by destruct (plan_of q fm x).
Qed.

Lemma scanPlans_asked `{GoText} `{PlanJSON} `{MapRange} digest conf b q logging res gs :
  scanPlans digest conf b q logging = inr (res, gs) → Forall (asked_for q (b_fields b) (delivered (plans_run b q logging))) gs.
Proof.
  unfold scanPlans. fold (plans_run b q logging). set (r := plans_run b q logging).
  destruct (scan_prefix (plan_limits conf (b_fields b)) (plan_visit digest q (b_fields b)) r (mkGathered no_span no_span 0 (newPlans conf))
    (plan_visit_takes digest q (b_fields b))) as (pre & st & err & [post Hpre] & ->). rewrite gathered_plans.
  destruct (partialReasons _ _ _ _); [done|]. intros [= _ <-]. apply list.Forall_forall. intros g Hg.
  destruct (Summary_ids _ _ (plans_wanted q (b_fields b) pre) g ltac:(apply fold_groups_from) Hg) as ([pr ts] & Hin & Hids).
  apply list_elem_of_filter in Hin as [Hw (rec & Hrec & Hpl)%list_elem_of_omap]. destruct (plan_of q (b_fields b) rec) as [pr'|] eqn:E; [|done].
  injection Hpl as <- <-. exists rec, pr'. rewrite Hpre. split; [apply elem_of_app; by left|done].
Qed.

Lemma plan_of_database q fm rec pr : plan_of q fm rec = Some pr → pq_Database q = "" ∨ field (Fields rec) (fm_Database fm) = pq_Database q.
Proof. unfold plan_of. by case_decide. Qed.

Definition evidence_query (cluster stream database : string) (from to : time) (ids : list Z) : PlansQuery :=
  mkPlansQuery cluster stream from to 0 false ids database "" 0.

(** C34: The evidence of the index advisor is read only where both the log insights and the evidence
    are switched on, and every plan in it comes from a record the source handed out for the
    window, of the database asked for, with one of the query ids asked for. *)
Theorem PlansForQueryIDs_confined `{GoText} `{PlanJSON} `{MapRange} digest s conf settings cluster stream database from to ids w :
  PlansForQueryIDs digest s conf settings cluster stream database from to ids = inr w →
  (IsEnabled conf = true ∧ IndexAdvisorEvidence conf = true) ∧
  ∀ g, g ∈ w_Groups w → g_HasQueryID g = true ∧ g_QueryID g ∈ ids ∧
    ∃ b rec, resolve s cluster stream = inr b ∧
      rec ∈ delivered (plans_run b (evidence_query cluster stream database from to ids) (read_logging settings (b_cluster b) "")) ∧
      database ≠ "" ∧ field (Fields rec) (fm_Database (b_fields b)) = database ∧
      g_QueryID g ∈ QueryID <$> option_list (Detect (field (Fields rec) (fm_Text (b_fields b))) (field (Fields rec) (fm_QueryID (b_fields b)))).
Proof.
  unfold PlansForQueryIDs. fold (evidence_query cluster stream database from to ids). destruct (IsEnabled conf), (IndexAdvisorEvidence conf); try done. cbn [negb orb].
  case_decide as Hids; [intros [= <-]; split; [done|]; by intros g ?%elem_of_nil|]. destruct (resolve s cluster stream) as [e|b] eqn:Hb; [done|].
  case_decide as Hdb; [done|]. destruct (validatePlansWindow _ _); [done|]. destruct (scanPlans _ _ _ _ _) as [e|[res gs]] eqn:Hs; [done|].
  intros [= <-]. split; [done|]. intros g Hg. cbn [w_Groups] in Hg. apply scanPlans_asked in Hs. rewrite list.Forall_forall in Hs.
  destruct (Hs g Hg) as (rec & pr & Hrec & Hpl & Hw & Hid & Hhas). unfold wantedPlan in Hw. cbn [pq_HasQueryID QueryIDs evidence_query] in Hw.
  rewrite decide_True in Hw by done. apply andb_true_iff in Hw as [Hh Hin%bool_decide_eq_true]. split; [congruence|]. split; [by rewrite Hid|].
  exists b, rec. split; [done|]. split; [done|]. split; [tauto|]. unfold plan_of in Hpl. case_decide as Hd; [|done].
  destruct Hd as [Hd|Hd]; [by destruct Hdb; left|]. split; [done|]. rewrite Hpl, Hid. by left.
Qed.


(** ** Comparing two windows *)

Lemma Compare_rows `{MapRange} current baseline known rg : rg ∈ LogCompare.Compare current baseline known →
  ∃ c, c ∈ current ∧ (rg_QueryID rg, rg_HasQueryID rg) = (row_QueryID c, row_HasQueryID c).
Proof.
  unfold LogCompare.Compare. rewrite elem_of_sort_slice. intros ([key sc] & Hin%elem_of_map_range & Hrg)%list_elem_of_omap.
  cbn [fst snd] in Hrg. destruct (statements baseline !! key) as [sb|]; [|done]. cbn [mbind option_bind] in Hrg.
  apply statements_did, did_dominant, longest_max in Hin as [Hin _]. apply list_elem_of_filter in Hin as [_ Hin].
  exists (dominant sc). split; [done|]. unfold compareStatement in Hrg. case_decide; [done|]. by injection Hrg as <-.
Qed.

Lemma planGroupLimit_bounds n : 0 < planGroupLimit n ≤ 100.
Proof. unfold planGroupLimit, defaultPlanGroups, maxPlanGroups. destruct (Z.leb_spec n 0); lia. Qed.

Lemma pageOfRegressions_prefix rs n : 0 < n → pageOfRegressions rs n `prefix_of` rs ∧ Z.of_nat (length (pageOfRegressions rs n)) ≤ n.
Proof.
  intros Hn. unfold pageOfRegressions. destruct (Z.ltb_spec n (Z.of_nat (length rs))).
  - split; [apply prefix_take|]. rewrite length_take. lia.
  - split; [done|lia].
Qed.

Lemma StronglySorted_prefix {A} (R : A → A → Prop) l k : l `prefix_of` k → StronglySorted R k → StronglySorted R l.
Proof. intros [post ->]. rewrite StronglySorted_app. tauto. Qed.

(** The rows of the current side are of the statement asked for, if one was. *)
Definition of_statement (q : PlansQuery) (r : GroupRow) : Prop :=
  pq_HasQueryID q = true → row_HasQueryID r = true ∧ row_QueryID r = pq_QueryID q.

Lemma asked_row q fm recs g : asked_for q fm recs g → of_statement q (Row g).
Proof.
  intros (rec & pr & _ & _ & Hw & Hid & Hhas) Hq. unfold wantedPlan in Hw. rewrite Hq in Hw. apply andb_true_iff in Hw as [Hh Heq].
  cbn [Row row_HasQueryID row_QueryID]. rewrite Hhas, Hid. split; [done|lia].
Qed.

Lemma ofStatement_rows rs q : Forall (of_statement q) (ofStatement rs q).
Proof.
  unfold ofStatement, of_statement. destruct (pq_HasQueryID q); [|by apply Forall_true]. apply list.Forall_forall.
  intros r [Hr _]%list_elem_of_filter _. done.
Qed.

Lemma currentWindow_rows `{GoText} `{PlanJSON} `{MapRange} digest conf settings saveScan snapshots b q cur :
  currentWindow digest conf settings saveScan snapshots b q = inr cur → Forall (of_statement (cq_Plans q)) (rows cur).
Proof.
  unfold currentWindow, storedWindow. intros Hcur. repeat (case_match; try discriminate Hcur); injection Hcur as <-; cbn [rows].
  - apply ofStatement_rows.
  - subst. unfold groupRows. apply Forall_fmap. eapply Forall_impl; [by eapply scanPlans_asked|]. intros g. apply asked_row.
Qed.

(** A comparison lists its regressions worst first and no more of them than one page holds. Asked
    for one statement it answers for that statement alone, also when its current side is a stored
    read of a whole window; and it is whole exactly when both of its sides are. *)
Theorem Compare_windows_confined `{GoText} `{PlanJSON} `{MapRange} digest s conf settings saveScan snapshots q res :
  Compare_windows digest s conf settings saveScan snapshots q = inr res →
  let p := cq_Plans q in
  (Z.of_nat (length (Regressions res)) ≤ planGroupLimit (Limit p) ≤ 100 ∧ StronglySorted (not_less regression_less) (Regressions res)) ∧
  (pq_HasQueryID p = true → ∀ rg, rg ∈ Regressions res → rg_HasQueryID rg = true ∧ rg_QueryID rg = pq_QueryID p) ∧
  (cr_Baseline res = None → Regressions res = []) ∧
  cr_Partial res = existsb (λ w, sc_Partial (cw_Result w)) (cr_Current res :: option_list (cr_Baseline res)).
Proof.
  unfold Compare_windows. destruct (negb _); [done|]. destruct (resolve _ _ _) as [|b]; [done|]. destruct (validateCompare _ _); [done|].
  destruct (currentWindow _ _ _ _ _ _ _) as [|cur] eqn:Hcur; [done|]. apply currentWindow_rows in Hcur.
  pose proof (planGroupLimit_bounds (Limit (cq_Plans q))) as Hn. case_decide as Hrows.
  - intros [= <-]. cbn. rewrite orb_false_r. split_and!; [lia|lia|constructor|by intros _ rg ?%elem_of_nil|done|done].
  - destruct (scanPlans _ _ _ _ _) as [|[summary gs]]; [done|]. intros [= <-]. cbn [Regressions cr_Baseline cr_Partial cr_Current option_list existsb].
    set (all := LogCompare.Compare _ _ _). destruct (pageOfRegressions_prefix all (planGroupLimit (Limit (cq_Plans q)))) as [Hpre Hlen]; [lia|].
    split_and!; [lia|lia| |intros Hq rg Hrg|done|cbn; by rewrite orb_false_r].
    + eapply StronglySorted_prefix; [exact Hpre|]. apply (sort_slice_sorted _).
    + apply (elem_of_prefix _ _ _ Hrg) in Hpre. apply Compare_rows in Hpre as (c & Hc & [= -> ->]). rewrite list.Forall_forall in Hcur. by apply Hcur.
Qed.

(** ** A service with one cluster, for the examples *)

(** Three records of two databases: a slow plan, a fast one of the same shape, and one that is
    no plan. The source hands out those of the window asked for. *)
Definition plan_map : FieldMap := mkFieldMap "ts" "" "message" "" "db" "" "" "id" "" ["message"] ["LOG"] ∅ "exact".
Definition plan_line (ts : time) (db id ms cost : string) : LogLine :=
  mkLine ts {["message" := "duration: " +:+ ms +:+ " ms  plan:" +:+ String (char 10) ("Seq Scan on " +:+ cost +:+ "  (cost=0.00..1.00 rows=1 width=4)");
              "db" := db; "id" := id]} "".
Definition plan_lines : list LogLine :=
  [plan_line 1 "a" "7" "5.0" "t"; plan_line 2 "b" "8" "1.0" "t"; mkLine 3 {["message" := "checkpoint starting: time"; "db" := "a"]} "";
   plan_line 4 "a" "7" "9.0" "u"; plan_line 5 "a" "9" "2.0" "t"].
Definition plan_source : Provider :=
  mkProvider ["postgresql"] (λ _, plan_map)
    (λ p, mkRun (filter (λ l, sp_From p ≤ Timestamp l ∧ Timestamp l < sp_To p) plan_lines) None None) sp_Filter
    (λ _ _, inr (mkCheck "" 0 ∅ [] ∅ None)) None.
Definition plan_cluster : Cluster := mkCluster "c" "" "" "" "" [] ["h"] ∅ "" "" ∅ "".
Definition plan_binding : binding := mkBinding plan_cluster plan_source "src" plan_map.
Definition plan_service : service := NewService (Some [plan_cluster]) (SetDefault (Register NewRegistry "src" plan_source) "src") (mkSearchConfig 0 0 0).
Definition plan_conf : LogInsightsConfig := insights_defaults (mkInsights None 3 0 0 0 true).
Definition plan_query : PlansQuery := mkPlansQuery "c" "postgresql" 1 9 7 true [] "a" "" 0.

#[local] Existing Instance plain_text.
#[local] Existing Instance no_json.
#[local] Existing Instance canonical_range.

(** The budget of three records stops the scan before the other shape of the statement. *)
Lemma scanPlans_exact_witness :
  match scanPlans id plan_conf plan_binding plan_query (mkLogging None [] None) with
  | inr (res, gs) => (PartialReasons res, Covered res, sc_PlanRecords res, g_Count <$> gs) = (["records"], mkSpan 1 3, 1, [1])
  | inl _ => False
  end ∧
  match scanPlans id plan_conf plan_binding plan_query (mkLogging None [] None) with
  | inr (res, gs) => EmptyReason res = "" ↔ gs ≠ []
  | inl _ => True
  end.
Proof.
  split; [vm_compute; reflexivity|].
  pose proof (scanPlans_exact id plan_conf plan_binding plan_query (mkLogging None [] None) ltac:(by vm_compute) ltac:(by repeat constructor)) as Hex.
  destruct (scanPlans _ _ _ _ _) as [e|[res gs]]; [done|]. destruct Hex as (pre & post & _ & _ & Ha & _). exact (an_empty _ _ _ _ _ _ _ _ _ Ha).
Defined.

Lemma PlansForQueryIDs_confined_witness :
  let out := PlansForQueryIDs id plan_service plan_conf None "c" "postgresql" "a" 1 9 [7] in
  match out with inr w => (g_QueryID <$> w_Groups w, Partial w) = ([7], true) | inl _ => False end ∧
  match out with inr w => IndexAdvisorEvidence plan_conf = true | inl _ => False end.
Proof.
  cbv zeta. assert (Hrun : match PlansForQueryIDs id plan_service plan_conf None "c" "postgresql" "a" 1 9 [7] with
    inr w => (g_QueryID <$> w_Groups w, Partial w) = ([7], true) | inl _ => False end) by (vm_compute; reflexivity). split; [exact Hrun|].
  destruct (PlansForQueryIDs _ _ _ _ _ _ _ _ _ _) as [e|w] eqn:E; [done|].
  exact (proj2 (proj1 (PlansForQueryIDs_confined id plan_service plan_conf None "c" "postgresql" "a" 1 9 [7] w E))).
Defined.

(** The statement ran with another shape in the second window. *)
Definition two_windows : CompareQuery := mkCompareQuery (mkPlansQuery "c" "postgresql" 4 9 7 true [] "a" "" 0) 1 4 None.

Lemma Compare_windows_confined_witness :
  let out := Compare_windows id plan_service plan_conf None (λ _ _, None) None two_windows in
  match out with inr res => (rg_QueryID <$> Regressions res, Reasons <$> Regressions res) = ([7], [[ReasonNewShape]]) | inl _ => False end ∧
  match out with inr res => cr_Baseline res = None → Regressions res = [] | inl _ => False end.
Proof.
  cbv zeta. assert (Hrun : match Compare_windows id plan_service plan_conf None (λ _ _, None) None two_windows with
    inr res => (rg_QueryID <$> Regressions res, Reasons <$> Regressions res) = ([7], [[ReasonNewShape]]) | inl _ => False end) by (vm_compute; reflexivity).
  split; [exact Hrun|]. destruct (Compare_windows _ _ _ _ _ _ _) as [e|res] eqn:E; [done|].
  exact (proj1 (proj2 (proj2 (Compare_windows_confined id plan_service plan_conf None (λ _ _, None) None two_windows res E)))).
Defined.
