(* ===== verification/LogSnapshots.v ===== *)
(** * [internal/logs/snapshot.go]: reads that are stored in the background

    A scan is answered at once, with the id its snapshot will have; a goroutine writes the
    rows, forgets the id and closes the channel a read of the id waits on. The goroutines are
    modelled by the steps they take between two points where another may run: each critical
    section of [pendingMu] is one step, and so are the write, the closing of a channel, and
    the two ways a wait ends. *)

From S2P Require Import Prelude GoFloat LogPattern LogInsights LogPlans LogSource LogSearch LogService.
From stdpp Require Import pretty options.

#[local] Set Warnings "-register-all".
#[local] Open Scope string_scope.
#[local] Open Scope Z_scope.
#[local] Open Scope list_scope.

(** ** Paging the groups of a snapshot *)

Definition GroupOrderSum : string := "sum".
Definition GroupOrderMax : string := "max".
Definition GroupOrderCount : string := "count".
Definition defaultGroupPageSize : Z := 50.
Definition maxGroupPageSize : Z := 1000.
Definition maxPendingSnapshots : nat := 8.

Record GroupsQuery := mkGroupsQuery {
  gq_ScanID : string; gq_QueryID : option Z; WithFindings : bool; Order : string; gq_Limit : Z; gq_Offset : Z
}.
Record GroupPage := mkGroupPage { gp_Total : Z; gp_Rows : list GroupRow }.

Definition pageBounds (limit offset : Z) : Z * Z :=
  (Z.min (if limit <=? 0 then defaultGroupPageSize else limit) maxGroupPageSize, Z.max offset 0).

(** An order left out is by the total time; [None] is an order that is not known. *)
Definition group_order (order : string) : option string :=
  if decide (order = "") then Some GroupOrderSum
  else if decide (order ∈ [GroupOrderSum; GroupOrderMax; GroupOrderCount]) then Some order else None.

Section reads.
(** [store] is what [snapshotStore] answers; the store, and the wait for the id. *)
Context (store : service_error + SnapshotStore) (ListInsightsGroups : GroupsQuery → service_error + GroupPage).
Context (GetInsightsGroup : string → Z → service_error + PlanGroup).

Definition Snapshot (id : string) : service_error + Scan :=
  match store with
  | inl e => inl e
  | inr st =>
      match awaitSnapshot st id with
      | Some e => inl e
      | None => from_option inr (inl ErrStore) (GetInsightsScan st id insightsTopGroups)
      end
  end.

Definition SnapshotGroups (q : GroupsQuery) : service_error + GroupPage :=
  match store with
  | inl e => inl e
  | inr st =>
      match group_order (Order q) with
      | None => inl ErrInvalid
      | Some order =>
          let '(limit, offset) := pageBounds (gq_Limit q) (gq_Offset q) in
          match awaitSnapshot st (gq_ScanID q) with
          | Some e => inl e
          | None => ListInsightsGroups (mkGroupsQuery (gq_ScanID q) (gq_QueryID q) (WithFindings q) order limit offset)
          end
      end
  end.

Definition SnapshotGroup (id : string) (ord : Z) : service_error + PlanGroup :=
  match store with
  | inl e => inl e
  | inr st =>
      if ord <? 0 then inl ErrInvalid
      else match awaitSnapshot st id with Some e => inl e | None => GetInsightsGroup id ord end
  end.
End reads.

(** ** The writes in flight *)

(** The scan as it is stored: it carries its id and none of the groups, which are stored beside it. *)
Definition stored_scan (id : string) (scan : Scan) : Scan :=
  mkScan (Kind scan) (sn_Cluster scan) (sn_Stream scan) (sn_Host scan) (sn_From scan) (sn_To scan) (withoutGroups (with_id (Result scan) (Some id))).

(** A goroutine that writes a snapshot: before the write has come to an end, before it has
    forgotten the id, and before it has closed its channel. *)
Inductive stage := Writing | Written | Forgotten.
Record writer := mkWriter { w_scan : Scan; w_groups : list PlanGroup; w_id : string; w_stage : stage }.

(** A read of an id: it waits on a channel, was let through, or ran out of time. [known] says
    that the id had been given out when the read began. *)
Inductive reader := Waiting (id : string) (ch : nat) | Through (id : string) (known : bool) | GaveUp (id : string).

(** Channels are numbered as they are made. *)
Record state := mkState {
  pending : gmap string nat; writers : gmap nat writer; closed : gset nat; next : nat;
  finished : gmap string (option (Scan * list PlanGroup)); issued : gset string; readers : list reader
}.
Definition initial : state := mkState ∅ ∅ ∅ 0 ∅ ∅ [].

Definition trackSnapshot (s : state) (id : string) (w : writer) : option state :=
  if decide (maxPendingSnapshots ≤ size (pending s))%nat then None
  else Some (mkState (<[id := next s]> (pending s)) (<[next s := w]> (writers s)) (closed s) (S (next s)) (finished s) ({[id]} ∪ issued s) (readers s)).

(** The id is what [uuid.New] made. The state, and the id of the answer if it has one. *)
Definition saveScan (s : state) (id : string) (scan : Scan) (groups : list PlanGroup) : state * option string :=
  match trackSnapshot s id (mkWriter (stored_scan id scan) groups id Writing) with
  | None => (s, None)
  | Some s' => (s', Some id)
  end.

Definition set_stage (w : writer) (st : stage) : writer := mkWriter (w_scan w) (w_groups w) (w_id w) st.

(** [SaveInsightsScan] has stored everything or nothing. *)
Definition write (s : state) (ch : nat) (stored : bool) : option state :=
  w ← writers s !! ch;
  match w_stage w with
  | Writing =>
      Some (mkState (pending s) (<[ch := set_stage w Written]> (writers s)) (closed s) (next s)
              (<[w_id w := if stored then Some (w_scan w, w_groups w) else None]> (finished s)) (issued s) (readers s))
  | _ => None
  end.

(** [releaseSnapshot], in two steps. *)
Definition forget (s : state) (ch : nat) : option state :=
  w ← writers s !! ch;
  match w_stage w with
  | Written => Some (mkState (delete (w_id w) (pending s)) (<[ch := set_stage w Forgotten]> (writers s)) (closed s) (next s) (finished s) (issued s) (readers s))
  | _ => None
  end.
Definition close (s : state) (ch : nat) : option state :=
  w ← writers s !! ch;
  match w_stage w with
  | Forgotten => Some (mkState (pending s) (delete ch (writers s)) ({[ch]} ∪ closed s) (next s) (finished s) (issued s) (readers s))
  | _ => None
  end.

(** [awaitSnapshot]: it looks the channel up, and then waits on it. *)
Definition ask (s : state) (id : string) : state :=
  let r := match pending s !! id with Some ch => Waiting id ch | None => Through id (bool_decide (id ∈ issued s)) end in
  mkState (pending s) (writers s) (closed s) (next s) (finished s) (issued s) (readers s ++ [r]).
Definition set_reader (s : state) (i : nat) (r : reader) : state :=
  mkState (pending s) (writers s) (closed s) (next s) (finished s) (issued s) (<[i := r]> (readers s)).
Definition wake (s : state) (i : nat) : option state :=
  match readers s !! i with
  | Some (Waiting id ch) => if decide (ch ∈ closed s) then Some (set_reader s i (Through id true)) else None
  | _ => None
  end.
Definition give_in (s : state) (i : nat) : option state :=
  match readers s !! i with Some (Waiting id _) => Some (set_reader s i (GaveUp id)) | _ => None end.

Inductive event :=
  | Save (id : string) (scan : Scan) (groups : list PlanGroup) | Write (ch : nat) (stored : bool) | Forget (ch : nat) | Close (ch : nat)
  | Ask (id : string) | Wake (i : nat) | GiveIn (i : nat).

Definition perform (s : state) (ev : event) : option state :=
  match ev with
  | Save id scan groups => if decide (id ∈ issued s) then None else Some (saveScan s id scan groups).1
  | Write ch stored => write s ch stored
  | Forget ch => forget s ch
  | Close ch => close s ch
  | Ask id => Some (ask s id)
  | Wake i => wake s i
  | GiveIn i => give_in s i
  end.

(** A version 4 UUID is made once: [Save] takes an id that was not given out before. *)
Fixpoint performs (s : state) (evs : list event) : option state :=
  match evs with [] => Some s | ev :: evs => s' ← perform s ev; performs s' evs end.

Inductive reachable : state → Prop :=
  | reachable_initial : reachable initial
  | reachable_step s ev s' : reachable s → perform s ev = Some s' → reachable s'.

(** ** What holds of every state *)

Record inv (s : state) : Prop := {
  inv_bound : (size (pending s) ≤ maxPendingSnapshots)%nat;
  inv_pending : ∀ id ch, pending s !! id = Some ch ↔ ∃ w, writers s !! ch = Some w ∧ w_id w = id ∧ w_stage w ≠ Forgotten;
  inv_writer : ∀ ch w, writers s !! ch = Some w →
    (ch < next s)%nat ∧ ch ∉ closed s ∧ w_id w ∈ issued s ∧ (is_Some (finished s !! w_id w) ↔ w_stage w ≠ Writing);
  inv_closed : ∀ ch, ch ∈ closed s → (ch < next s)%nat;
  inv_unique : ∀ ch ch' w w', writers s !! ch = Some w → writers s !! ch' = Some w' → w_id w = w_id w' → ch = ch';
  inv_issued : ∀ id, id ∈ issued s → is_Some (finished s !! id) ∨ ∃ ch w, writers s !! ch = Some w ∧ w_id w = id ∧ w_stage w = Writing;
  inv_finished : ∀ id, is_Some (finished s !! id) → id ∈ issued s;
  inv_waiting : ∀ id ch, Waiting id ch ∈ readers s → id ∈ issued s ∧
    ((∃ w, writers s !! ch = Some w ∧ w_id w = id) ∨ ch ∈ closed s ∧ is_Some (finished s !! id));
  inv_through : ∀ id, Through id true ∈ readers s → is_Some (finished s !! id)
}.

Lemma inv_initial : inv initial.
Proof.
  split; cbn.
  - rewrite map_size_empty. unfold maxPendingSnapshots. lia.
  - intros id ch. split; [by intros [=]|by intros (w & [=] & _)].
  - by intros ch w [=].
  - by intros ch ?%not_elem_of_empty.
  - by intros ch ch' w w' [=].
  - by intros id ?%not_elem_of_empty.
  - by intros id [? [=]].
  - by intros id ch ?%not_elem_of_nil.
  - by intros id ?%not_elem_of_nil.
Qed.

Section step.
Context (s : state) (Hinv : inv s).

Lemma save_inv id scan groups s' : perform s (Save id scan groups) = Some s' → inv s'.
Proof using Hinv.
  cbn. destruct (decide (id ∈ issued s)) as [|Hnew]; [done|]. unfold saveScan, trackSnapshot. case_decide as Hb; intros [= <-]; [done|].
  destruct Hinv as [Hbound Hpend Hw Hc Hu Hi Hf Hwait Hthrough].
  assert (Hfresh : ∀ w, writers s !! next s = Some w → False) by (intros w Hx; destruct (Hw _ _ Hx); lia).
  assert (Hnid : ∀ ch w, writers s !! ch = Some w → w_id w ≠ id) by (intros ch w Hx Heq; destruct (Hw _ _ Hx) as (_ & _ & ? & _); congruence).
  split; cbn [pending writers closed next finished issued readers fst].
  - rewrite map_size_insert_None; [lia|]. apply eq_None_not_Some. intros [ch Hch]. apply Hpend in Hch as (w & Hx & Heq & _). by apply Hnid in Hx.
  - intros id' ch. rewrite lookup_insert_Some, Hpend. setoid_rewrite lookup_insert_Some. split.
    + intros [[-> <-]|[Hne (w & Hx & Hid & Hst)]]; [eexists; split; [by left|done]|]. exists w. split; [right; split; [by intros <-; apply Hfresh in Hx|done]|done].
    + intros (w & [[<- <-]|[Hne Hx]] & Hid & Hst); [by left|]. right. split; [by intros ->; apply Hnid in Hx|]. by exists w.
  - intros ch w [[<- <-]|[Hne Hx]]%lookup_insert_Some.
    + cbn. split; [lia|]. split; [intros Hcl; apply Hc in Hcl; lia|]. split; [set_solver|]. split; [by intros ?%Hf|done].
    + destruct (Hw _ _ Hx) as (? & ? & ? & ?). split; [lia|]. split; [done|]. split; [set_solver|done].
  - intros ch Hcl. apply Hc in Hcl. lia.
  - intros ch ch' w w' [[<- <-]|[Hne Hx]]%lookup_insert_Some [[<- <-]|[Hne' Hx']]%lookup_insert_Some Heq; cbn in Heq;
      [done|by apply Hnid in Hx'|by apply Hnid in Hx|by eapply Hu].
  - intros id' [->%elem_of_singleton|Hin]%elem_of_union.
    + right. eexists _, _. split; [apply lookup_insert_eq|done].
    + destruct (Hi _ Hin) as [?|(ch & w & Hx & ?)]; [by left|]. right. exists ch, w. rewrite lookup_insert_ne; [done|]. by intros <-; apply Hfresh in Hx.
  - intros id' Hx. apply Hf in Hx. set_solver.
  - intros id' ch Hr. destruct (Hwait _ _ Hr) as [Hid [(w & Hx & Heq)|Hcl]]; (split; [set_solver|]); [left|by right].
    exists w. rewrite lookup_insert_ne; [done|]. by intros <-; apply Hfresh in Hx.
  - done.
Qed.

(** A writer that goes on to its next stage. *)
Lemma stage_inv ch w st m f : writers s !! ch = Some w →
  (size m ≤ maxPendingSnapshots)%nat →
  (∀ id c, m !! id = Some c ↔ pending s !! id = Some c ∧ (id = w_id w → st ≠ Forgotten)) →
  (∀ id, id ≠ w_id w → f !! id = finished s !! id) → (is_Some (f !! w_id w) ∧ st ≠ Writing) → (w_stage w = Forgotten → st = Forgotten) →
  inv (mkState m (<[ch := set_stage w st]> (writers s)) (closed s) (next s) f (issued s) (readers s)).
Proof using Hinv.
  intros Hch Hm Hpm Hfne [Hfw Hst] Hkeep. destruct Hinv as [Hbound Hpend Hw Hc Hu Hi Hf Hwait Hthrough]. pose proof (Hw _ _ Hch) as (Hlt & Hncl & Hiss & Hfin).
  assert (Hfin' : ∀ id, is_Some (finished s !! id) → is_Some (f !! id)).
  { intros id Hx. destruct (decide (id = w_id w)) as [->|Hne]; [done|]. by rewrite Hfne. }
  split; cbn [pending writers closed next finished issued readers].
  - done.
  - intros id c. rewrite Hpm, Hpend. setoid_rewrite lookup_insert_Some. split.
    + intros [(w' & Hx & Hid & Hs') Hcond]. destruct (decide (c = ch)) as [->|Hne].
      * assert (w' = w) as -> by congruence. exists (set_stage w st). split; [by left|]. split; [done|]. by apply Hcond.
      * exists w'. split; [right; split; [congruence|done]|done].
    + intros (w' & [[<- <-]|[Hne Hx]] & Hid & Hs').
      * cbn in Hid, Hs'. subst id. split; [|done]. exists w. split; [done|]. split; [done|]. intros E. by apply Hs', Hkeep.
      * split; [by exists w'|]. intros ->. by destruct (Hne (Hu _ _ _ _ Hch Hx (eq_sym Hid))).
  - intros c w' [[<- <-]|[Hne Hx]]%lookup_insert_Some; cbn [set_stage w_id w_stage]; [done|].
    destruct (Hw _ _ Hx) as (? & ? & ? & Hs'). rewrite Hfne; [done|]. intros Heq. by destruct (Hne (Hu _ _ _ _ Hch Hx (eq_sym Heq))).
  - done.
  - assert (Hold : ∀ c x, <[ch := set_stage w st]> (writers s) !! c = Some x → ∃ x0, writers s !! c = Some x0 ∧ w_id x0 = w_id x).
    { intros c x [[<- <-]|[_ Hx]]%lookup_insert_Some; eauto. }
    intros c c' x x' (x0 & Hx & <-)%Hold (x0' & Hx' & <-)%Hold. by apply Hu.
  - intros id Hin. destruct (Hi _ Hin) as [?|(c & w' & Hx & Hid & Hs')]; [by left; apply Hfin'|]. destruct (decide (c = ch)) as [->|Hne].
    + left. assert (w' = w) as -> by congruence. by subst id.
    + right. exists c, w'. by rewrite lookup_insert_ne.
  - intros id Hx. destruct (decide (id = w_id w)) as [->|Hne]; [done|]. rewrite Hfne in Hx by done. by apply Hf.
  - intros id c Hr. destruct (Hwait _ _ Hr) as [Hid [(w' & Hx & Heq)|[Hcl Hfi]]]; (split; [done|]); [left|right; split; [done|by apply Hfin']].
    destruct (decide (c = ch)) as [->|Hne]; [|exists w'; by rewrite lookup_insert_ne]. assert (w' = w) as -> by congruence.
    exists (set_stage w st). by rewrite lookup_insert_eq.
  - intros id Hr. by apply Hfin', Hthrough.
Qed.

Lemma write_inv ch stored s' : write s ch stored = Some s' → inv s'.
Proof using Hinv.
  unfold write. destruct (writers s !! ch) as [w|] eqn:Hch; [|done]. cbn [mbind option_bind]. destruct (w_stage w) eqn:Hst; try done. intros [= <-].
  apply stage_inv; [done|by apply inv_bound| | | |by rewrite Hst].
  - intros id c. split; [by intros|by intros []].
  - intros id Hne. by rewrite lookup_insert_ne.
  - by rewrite lookup_insert_eq.
Qed.

Lemma forget_inv ch s' : forget s ch = Some s' → inv s'.
Proof using Hinv.
  unfold forget. destruct (writers s !! ch) as [w|] eqn:Hch; [|done]. cbn [mbind option_bind]. destruct (w_stage w) eqn:Hst; try done. intros [= <-].
  apply stage_inv; [done| | |done| |by rewrite Hst].
  - etransitivity; [|apply (inv_bound _ Hinv)]. apply map_subseteq_size, delete_subseteq.
  - intros id c. rewrite lookup_delete_Some. split; [intros [Hne ?]; split; [done|by intros ->]|intros [? Hne]]. split; [|done]. intros <-. by apply Hne.
  - split; [|done]. apply (inv_writer _ Hinv _ _ Hch). by rewrite Hst.
Qed.

Lemma close_inv ch s' : close s ch = Some s' → inv s'.
Proof using Hinv.
  unfold close. destruct (writers s !! ch) as [w|] eqn:Hch; [|done]. cbn [mbind option_bind]. destruct (w_stage w) eqn:Hst; try done. intros [= <-].
  destruct Hinv as [Hbound Hpend Hw Hc Hu Hi Hf Hwait Hthrough]. pose proof (Hw _ _ Hch) as (Hlt & Hncl & Hiss & Hfin).
  split; cbn [pending writers closed next finished issued readers]; try done.
  - intros id c. rewrite Hpend. setoid_rewrite lookup_delete_Some. split; [|naive_solver]. intros (w' & Hx & Hid & Hs'). exists w'.
    split; [split; [congruence|done]|done].
  - intros c x [Hne Hx]%lookup_delete_Some. destruct (Hw _ _ Hx) as (? & ? & ? & ?). split; [done|]. split; [set_solver|done].
  - intros c Hx. apply elem_of_union in Hx as [->%elem_of_singleton|Hx]; [done|by apply Hc].
  - intros c c' x x' [_ Hx]%lookup_delete_Some [_ Hx']%lookup_delete_Some. by apply Hu.
  - intros id Hin. destruct (Hi _ Hin) as [?|(c & w' & Hx & Hid & Hs')]; [by left|]. right. exists c, w'. rewrite lookup_delete_ne; [done|congruence].
  - intros id c Hr. destruct (Hwait _ _ Hr) as [Hid [(w' & Hx & Heq)|[Hcl Hfi]]]; (split; [done|]); [|right; split; [set_solver|done]].
    destruct (decide (c = ch)) as [->|Hne]; [|left; exists w'; by rewrite lookup_delete_ne]. right. split; [set_solver|].
    assert (w' = w) as -> by congruence. subst id. apply Hfin. by rewrite Hst.
Qed.

(** A step of a reader changes the readers alone. *)
Lemma readers_inv rs : (∀ id ch, Waiting id ch ∈ rs → Waiting id ch ∈ readers s ∨ pending s !! id = Some ch) →
  (∀ id, Through id true ∈ rs → is_Some (finished s !! id)) →
  inv (mkState (pending s) (writers s) (closed s) (next s) (finished s) (issued s) rs).
Proof using Hinv.
  intros Hwa Hth. destruct Hinv as [Hbound Hpend Hw Hc Hu Hi Hf Hwait Hthrough]. split; cbn [pending writers closed next finished issued readers]; try done.
  intros id ch [Hr|Hp]%Hwa; [by apply Hwait|]. apply Hpend in Hp as (w & Hx & <- & _). split; [apply (Hw _ _ Hx)|]. left. by exists w.
Qed.

Lemma ask_inv id : inv (ask s id).
Proof using Hinv.
  unfold ask. apply readers_inv.
  - intros id' ch [?|Hr%list_elem_of_singleton]%elem_of_app; [by left|]. destruct (pending s !! id) eqn:Hp; [|done]. injection Hr as <- <-. by right.
  - intros id' [?|Hr%list_elem_of_singleton]%elem_of_app; [by apply (inv_through _ Hinv)|]. destruct (pending s !! id) eqn:Hp; [done|].
    injection Hr as <- Hk. symmetry in Hk. apply bool_decide_eq_true in Hk. destruct (inv_issued _ Hinv _ Hk) as [?|(ch & w & Hx & Hid & Hst)]; [done|].
    assert (pending s !! id' = Some ch); [|congruence]. apply (inv_pending _ Hinv). exists w. by rewrite Hst.
Qed.

Lemma set_reader_inv i r : (∀ id ch, r ≠ Waiting id ch) → (∀ id, r = Through id true → is_Some (finished s !! id)) → inv (set_reader s i r).
Proof using Hinv.
  intros Hnw Hth. apply readers_inv.
  - intros id ch (j & Hj)%list_elem_of_lookup. apply list_lookup_insert_Some in Hj as [(_ & Heq & _)|[_ Hj]]; [by destruct (Hnw id ch)|].
    left. by eapply list_elem_of_lookup_2.
  - intros id (j & Hj)%list_elem_of_lookup. apply list_lookup_insert_Some in Hj as [(_ & Heq & _)|[_ Hj]]; [by apply Hth|].
    apply (inv_through _ Hinv). by eapply list_elem_of_lookup_2.
Qed.

Lemma step_inv ev s' : perform s ev = Some s' → inv s'.
Proof using Hinv.
  destruct ev; [apply save_inv|apply write_inv|apply forget_inv|apply close_inv|intros [= <-]; apply ask_inv| |]; cbn; unfold wake, give_in;
    destruct (readers s !! i) as [[id ch| |]|] eqn:Hr; try done.
  - case_decide as Hcl; [|done]. intros [= <-]. apply set_reader_inv; [done|]. intros ? [= <-]. apply list_elem_of_lookup_2, (inv_waiting _ Hinv) in Hr as [_ Hr].
    destruct Hr as [(w & Hx & _)|[_ ?]]; [|done]. by destruct (inv_writer _ Hinv _ _ Hx) as (_ & ? & _).
  - intros [= <-]. by apply set_reader_inv.
Qed.
End step.

Lemma reachable_inv s : reachable s → inv s.
Proof. induction 1 as [|s ev s' _ IH Hs]; [apply inv_initial|by eapply step_inv]. Qed.

Lemma performs_reachable s evs s' : reachable s → performs s evs = Some s' → reachable s'.
Proof.
  revert s. induction evs as [|ev evs IH]; intros s Hs; cbn; [by intros [= <-]|].
  destruct (perform s ev) as [s1|] eqn:Hev; [|done]. apply IH. by eapply reachable_step.
Qed.

Lemma performs_app s evs evs' : performs s (evs ++ evs') = s1 ← performs s evs; performs s1 evs'.
Proof. revert s. induction evs as [|ev evs IH]; intros s; cbn; [done|]. destruct (perform s ev); cbn; [apply IH|done]. Qed.

(** *** Writes in memory *)

Lemma in_flight_bounded s chs : inv s → NoDup chs → (∀ ch, ch ∈ chs → ∃ w, writers s !! ch = Some w ∧ w_stage w ≠ Forgotten) →
  (length chs ≤ maxPendingSnapshots)%nat.
Proof.
  intros Hinv Hnd Hall. etransitivity; [|apply (inv_bound _ Hinv)].
  assert (Hids : ∃ ids, length ids = length chs ∧ NoDup ids ∧ ∀ id, id ∈ ids → ∃ ch, ch ∈ chs ∧ pending s !! id = Some ch).
  { induction chs as [|ch chs IH]; [exists []; by repeat split; [constructor|intros id ?%elem_of_nil]|]. apply NoDup_cons in Hnd as [Hch Hnd].
    destruct IH as (ids & Hlen & Hnd' & Hp); [done|intros; apply Hall; by right|]. destruct (Hall ch ltac:(by left)) as (w & Hw & Hst).
    assert (Hpw : pending s !! w_id w = Some ch) by (apply (inv_pending _ Hinv); by exists w).
    exists (w_id w :: ids). split; [cbn; congruence|]. split.
    - constructor; [|done]. intros (ch' & Hch' & Hp')%Hp. congruence.
    - intros id [->|Hid]%elem_of_cons; [exists ch; split; [by left|done]|]. destruct (Hp id Hid) as (ch' & ? & ?). exists ch'. split; [by right|done]. }
  destruct Hids as (ids & <- & Hnd' & Hp). rewrite <- size_dom, <- (size_list_to_set (C := gset string) ids Hnd'). apply subseteq_size.
  intros id Hid%elem_of_list_to_set. destruct (Hp id Hid) as (ch & _ & Hx). by apply elem_of_dom_2 in Hx.
Qed.

(** What was stored is the scan under its id, none of its groups in the summary. *)
Definition stored_ok (id : string) (scan : Scan) : Prop := ScanID (Result scan) = Some id ∧ Groups (sc_Plans (Result scan)) = [].

Lemma reachable_stored s : reachable s →
  (∀ ch w, writers s !! ch = Some w → stored_ok (w_id w) (w_scan w)) ∧
  (∀ id scan gs, finished s !! id = Some (Some (scan, gs)) → stored_ok id scan).
Proof.
  induction 1 as [|s ev s' _ [Hw Hf] Hs]; [split; [by intros ch w [=]|by intros id scan gs [=]]|].
  destruct ev as [id scan gs|ch st|ch|ch|id|i|i]; cbn in Hs.
  - case_decide; [done|]. unfold saveScan, trackSnapshot in Hs. case_decide; injection Hs as <-; [done|]. split; [|done]. cbn.
    intros c w [[<- <-]|[_ Hx]]%lookup_insert_Some; [done|by eapply Hw].
  - unfold write in Hs. destruct (writers s !! ch) as [w|] eqn:Hch; [|done]. cbn in Hs. destruct (w_stage w); try done. injection Hs as <-. cbn. split.
    + intros c x [[<- <-]|[_ Hx]]%lookup_insert_Some; [exact (Hw ch w Hch)|by eapply Hw].
    + intros id scan gs [[<- Heq]|[_ Hx]]%lookup_insert_Some; [|by eapply Hf]. destruct st; [|done]. injection Heq as <- <-. exact (Hw ch w Hch).
  - unfold forget in Hs. destruct (writers s !! ch) as [w|] eqn:Hch; [|done]. cbn in Hs. destruct (w_stage w); try done. injection Hs as <-. cbn.
    split; [|done]. intros c x [[<- <-]|[_ Hx]]%lookup_insert_Some; [exact (Hw ch w Hch)|by eapply Hw].
  - unfold close in Hs. destruct (writers s !! ch) as [w|] eqn:Hch; [|done]. cbn in Hs. destruct (w_stage w); try done. injection Hs as <-. cbn.
    split; [|done]. intros c x [_ Hx]%lookup_delete_Some. by eapply Hw.
  - by injection Hs as <-.
  - unfold wake in Hs. repeat case_match; try done. by injection Hs as <-.
  - unfold give_in in Hs. repeat case_match; try done. by injection Hs as <-.
Qed.

(** C35: However the goroutines interleave, a read that is let through to a snapshot whose id had been
    given out comes after the write of that snapshot has ended; no more than eight writes hold
    their groups; and what was stored carries its own id and no groups in its summary. *)
Theorem snapshot_reads_follow_writes s : reachable s →
  (∀ id, Through id true ∈ readers s → is_Some (finished s !! id)) ∧
  (∀ chs, NoDup chs → (∀ ch, ch ∈ chs → ∃ w, writers s !! ch = Some w ∧ w_stage w ≠ Forgotten) → (length chs ≤ 8)%nat) ∧
  (∀ id scan gs, finished s !! id = Some (Some (scan, gs)) → stored_ok id scan).
Proof.
  intros Hs. pose proof (reachable_inv s Hs) as Hinv. split; [by apply inv_through|]. split; [|by apply reachable_stored].
  intros chs. by apply in_flight_bounded.
Qed.

(** The steps a writer still has before it. *)
Definition remaining (ch : nat) (stored : bool) (w : writer) : list event :=
  match w_stage w with Writing => [Write ch stored; Forget ch; Close ch] | Written => [Forget ch; Close ch] | Forgotten => [Close ch] end.

Lemma writer_closes s ch w stored : writers s !! ch = Some w →
  ∃ s', performs s (remaining ch stored w) = Some s' ∧ ch ∈ closed s' ∧ readers s' = readers s.
Proof.
  intros Hch. unfold remaining. destruct (w_stage w) eqn:Hst; cbn; unfold write, forget, close; rewrite Hch; cbn; rewrite Hst; cbn;
    rewrite ?lookup_insert_eq; cbn; rewrite ?lookup_insert_eq; cbn; (eexists; split; [done|]); (split; [cbn; set_solver|done]).
Qed.

(** C36: A read that waits for a snapshot never waits in vain: the goroutine that writes it is there,
    the at most three steps it has left are its own and can be taken in any state, whether or not
    the store takes the rows, and after them the read is let through. *)
Theorem snapshot_wait_ends s i id ch stored : reachable s → readers s !! i = Some (Waiting id ch) →
  ∃ evs s', (length evs ≤ 3)%nat ∧ (∀ ev, ev ∈ evs → ev ∈ [Write ch stored; Forget ch; Close ch]) ∧
    performs s (evs ++ [Wake i]) = Some s' ∧ readers s' !! i = Some (Through id true).
Proof.
  intros Hs Hr. pose proof (reachable_inv s Hs) as Hinv. pose proof (lookup_lt_Some _ _ _ Hr) as Hlt.
  destruct (inv_waiting _ Hinv id ch) as [_ Hw]; [by eapply list_elem_of_lookup_2|].
  assert (Hwake : ∀ s1, ch ∈ closed s1 → readers s1 = readers s →
    ∃ s', perform s1 (Wake i) = Some s' ∧ readers s' !! i = Some (Through id true)).
  { intros s1 Hcl Hrs. cbn. unfold wake. rewrite Hrs, Hr, decide_True by done. eexists. split; [done|]. cbn. rewrite Hrs.
    by apply list_lookup_insert_eq. }
  destruct Hw as [(w & Hx & _)|[Hcl _]].
  - destruct (writer_closes s ch w stored Hx) as (s1 & Hp & Hcl & Hrs). destruct (Hwake s1 Hcl Hrs) as (s' & Hs' & Ht).
    exists (remaining ch stored w), s'. split; [unfold remaining; destruct (w_stage w); cbn; lia|]. split; [unfold remaining; destruct (w_stage w); set_solver|].
    split; [|done]. rewrite performs_app, Hp. cbn [mbind option_bind performs]. by rewrite Hs'.
  - destruct (Hwake s Hcl eq_refl) as (s' & Hs' & Ht). exists [], s'. split; [cbn; lia|]. split; [by intros ev ?%elem_of_nil|]. split; [|done]. cbn [app performs]. by rewrite Hs'.
Qed.

(** Two scans are saved; a read of the first begins while it is written, and another after. *)
Definition empty_result : ScanResult :=
  mkScanResult None 0 false [] no_span no_span [] [] (mkPlansSummary 0 0 [] 0 0 0%float 0%float zero_time zero_time [] [] false) 0 "" None.
Definition some_scan : Scan := mkScan ScanPlans "c" "postgresql" "" 1 9 empty_result.
Definition two_saves : list event :=
  [Save "x" some_scan []; Save "y" some_scan []; Ask "x"; Write 0 true; Forget 0; Ask "x"; Close 0].

Definition after_two_saves : state := default initial (performs initial two_saves).

Lemma two_saves_reachable : reachable after_two_saves.
Proof. apply (performs_reachable initial two_saves); [constructor|]. reflexivity. Qed.

Lemma snapshot_reads_follow_writes_witness :
  readers after_two_saves = [Waiting "x" 0; Through "x" true] ∧ is_Some (finished after_two_saves !! "x").
Proof.
  assert (Hr : readers after_two_saves = [Waiting "x" 0; Through "x" true]) by by vm_compute. split; [exact Hr|].
  apply (proj1 (snapshot_reads_follow_writes after_two_saves two_saves_reachable)). rewrite Hr. right. left.
Defined.

Lemma snapshot_wait_ends_witness : ∃ evs s',
  performs after_two_saves (evs ++ [Wake 0]) = Some s' ∧ readers s' !! 0%nat = Some (Through "x" true).
Proof.
  destruct (snapshot_wait_ends after_two_saves 0 "x" 0 true two_saves_reachable) as (evs & s' & _ & _ & Hp & Hr); [by vm_compute|]. by exists evs, s'.
Defined.
