(* ===== verification/GoGlob.v ===== *)
(** * [path/filepath.Match]

    Shell patterns as package [path/filepath] matches them on a Unix system: [*] and [?]
    stop at a slash, a class may be negated and escaped, and a pattern that is not well
    formed is an error, also where the match has failed before it. *)

From S2P Require Import Prelude GoStrings.
From stdpp Require Import options.

#[local] Open Scope string_scope.
#[local] Open Scope Z_scope.
#[local] Open Scope list_scope.

(** ** [utf8.DecodeRuneInString] *)

(** The rune, whether it stands for one bad byte, and the rest; nothing is bad without being a byte. *)
Definition DecodeRune (s : string) : Z * bool * string :=
  match s with
  | EmptyString => (65533, false, "")
  | String a s1 =>
      if rune1 a then (byte_of a, false, s1)
      else
        match s1 with
        | EmptyString => (65533, true, s1)
        | String b s2 =>
            if rune2 a b then ((byte_of a - 192) * 64 + (byte_of b - 128), false, s2)
            else
              match s2 with
              | EmptyString => (65533, true, s1)
              | String c s3 =>
                  if rune3 a b c then (((byte_of a - 224) * 64 + (byte_of b - 128)) * 64 + (byte_of c - 128), false, s3)
                  else
                    match s3 with
                    | EmptyString => (65533, true, s1)
                    | String d s4 =>
                        if rune4 a b c d
                        then ((((byte_of a - 240) * 64 + (byte_of b - 128)) * 64 + (byte_of c - 128)) * 64 + (byte_of d - 128), false, s4)
                        else (65533, true, s1)
                    end
              end
        end
  end.

(** ** Patterns *)

Definition Separator : Ascii.ascii := char 47.
Definition backslash : Ascii.ascii := char 92.

(** A chunk: up to the next star that is not in a class. *)
Fixpoint scan_chunk (inrange : bool) (s : string) : string * string :=
  match s with
  | EmptyString => ("", "")
  | String c s' =>
      if decide (c = backslash) then
        match s' with
        | EmptyString => (s, "")
        | String d s'' => let '(chunk, rest) := scan_chunk inrange s'' in (String c (String d chunk), rest)
        end
      else if bool_decide (c = char 42) && negb inrange then ("", s)
      else
        let inrange := if decide (c = char 91) then true else if decide (c = char 93) then false else inrange in
        let '(chunk, rest) := scan_chunk inrange s' in (String c chunk, rest)
  end.

Fixpoint skip_stars (s : string) : string :=
  match s with String c s' => if decide (c = char 42) then skip_stars s' else s | EmptyString => "" end.

Definition scanChunk (pattern : string) : bool * string * string :=
  let p := skip_stars pattern in
  let '(chunk, rest) := scan_chunk false p in (bool_decide (p ≠ pattern), chunk, rest).

(** One end of a range of a class; [None] is [ErrBadPattern]. *)
Definition getEsc (chunk : string) : option (Z * string) :=
  let rune (s : string) :=
    let '(r, bad, rest) := DecodeRune s in
    if bad || bool_decide (rest = "") then None else Some (r, rest) in
  match chunk with
  | EmptyString => None
  | String c chunk' =>
      if decide (c = char 45 ∨ c = char 93) then None
      else if decide (c = backslash) then (if decide (chunk' = "") then None else rune chunk')
      else rune chunk
  end.

(** The ranges of a class up to its end: the rest, and whether one of them holds the rune. *)
Fixpoint ranges (fuel : nat) (chunk : string) (r : Z) (nrange : nat) (found : bool) : option (string * bool) :=
  match fuel with
  | O => None
  | S fuel =>
      match chunk, nrange with
      | String c rest, S _ =>
          if decide (c = char 93) then Some (rest, found)
          else range fuel chunk r nrange found
      | _, _ => range fuel chunk r nrange found
      end
  end
with range (fuel : nat) (chunk : string) (r : Z) (nrange : nat) (found : bool) : option (string * bool) :=
  match fuel with
  | O => None
  | S fuel =>
      '(lo, chunk) ← getEsc chunk;
      '(hi, chunk) ← (match chunk with
                      | String c rest => if decide (c = char 45) then getEsc rest else Some (lo, chunk)
                      | EmptyString => Some (lo, chunk)
                      end);
      ranges fuel chunk r (S nrange) (found || ((lo <=? r) && (r <=? hi)))
  end.

(** The rest of the name after a chunk, [None] inside once the match has failed; [None] outside
    is [ErrBadPattern]. *)
Fixpoint matchChunk (fuel : nat) (chunk : string) (s : option string) : option (option string) :=
  match fuel with
  | O => None
  | S fuel =>
      match chunk with
      | EmptyString => Some s
      | String c chunk' =>
          let s := match s with Some EmptyString => None | _ => s end in
          if decide (c = char 91) then
            let '(r, s) := match s with Some s' => let '(r, _, rest) := DecodeRune s' in (r, Some rest) | None => (0, None) end in
            let '(negated, body) := match chunk' with String d b => if decide (d = char 94) then (true, b) else (false, chunk') | _ => (false, chunk') end in
            '(rest, found) ← ranges (2 * S (String.length body)) body r 0 false;
            matchChunk fuel rest (if eqb found negated then None else s)
          else if decide (c = char 63) then
            matchChunk fuel chunk'
              (match s with
               | Some (String d s' as t) => if decide (d = Separator) then None else let '(_, _, rest) := DecodeRune t in Some rest
               | _ => None
               end)
          else
            literal ← (if decide (c = backslash) then match chunk' with String d rest => Some (d, rest) | EmptyString => None end else Some (c, chunk'));
            matchChunk fuel literal.2
              (match s with Some (String d s') => if decide (d = literal.1) then Some s' else None | _ => None end)
      end
  end.

Definition match_chunk (chunk s : string) : option (option string) := matchChunk (S (String.length chunk)) chunk (Some s).

(** A chunk after a star: the first place of the name, up to a slash, where it matches; the last
    chunk has to end with the name. *)
Fixpoint after_star (chunk : string) (last : bool) (name : string) : option (option string) :=
  match name with
  | EmptyString => Some None
  | String c rest =>
      if decide (c = Separator) then Some None
      else
        match match_chunk chunk rest with
        | None => None
        | Some (Some t) => if last && bool_decide (t ≠ "") then after_star chunk last rest else Some (Some t)
        | Some None => after_star chunk last rest
        end
  end.

(** The pattern is well formed to its end. *)
Fixpoint well_formed (fuel : nat) (pattern : string) : bool :=
  match fuel with
  | O => false
  | S fuel =>
      if decide (pattern = "") then true
      else let '(_, chunk, rest) := scanChunk pattern in
           match match_chunk chunk "" with None => false | Some _ => well_formed fuel rest end
  end.

Fixpoint match_loop (fuel : nat) (pattern name : string) : option bool :=
  match fuel with
  | O => None
  | S fuel =>
      if decide (pattern = "") then Some (bool_decide (name = ""))
      else
        let '(star, chunk, rest) := scanChunk pattern in
        if star && bool_decide (chunk = "") then Some (negb (bool_decide (Separator ∈ String.list_ascii_of_string name)))
        else
          let rest_verdict := if well_formed (S (String.length rest)) rest then Some false else None in
          let skip :=
            if star then
              match after_star chunk (bool_decide (rest = "")) name with
              | None => None
              | Some (Some t) => match_loop fuel rest t
              | Some None => rest_verdict
              end
            else rest_verdict in
          match match_chunk chunk name with
          | None => None
          | Some (Some t) => if decide (t = "" ∨ rest ≠ "") then match_loop fuel rest t else skip
          | Some None => skip
          end
  end.

(** [None] is [ErrBadPattern]. A turn takes at least one byte of the pattern. *)
Definition Match (pattern name : string) : option bool := match_loop (S (String.length pattern)) pattern name.

Example Match_examples :
  (λ pn, Match pn.1 pn.2) <$>
    [("abc", "abc"); ("*", "abc"); ("*c", "abc"); ("a*", "a"); ("a*/b", "abc/b"); ("a*", "ab/c"); ("a*b*c*d*e*/f", "axbxcxdxe/f");
     ("a*b?c*x", "abxbbxdbxebxczzx"); ("ab[c]", "abc"); ("ab[b-d]", "abc"); ("ab[^b-d]", "abc"); ("ab[^e-g]", "abc"); ("a[^a]b", "a☺b");
     ("a?b", "a/b"); ("[a-ζ]*", "α"); ("*[a-ζ]", "A"); ("*x", "xxx"); ("tenant_*", "tenant_42"); ("", "")]
  = [Some true; Some true; Some true; Some true; Some true; Some false; Some true; Some true; Some true; Some true; Some false; Some true;
     Some true; Some false; Some true; Some false; Some true; Some true; Some true].
Proof. by vm_compute. Qed.

Example Match_bad_patterns :
  (λ p, Match p "a") <$> ["[]a]"; "[-]"; "[x-]"; "[-x]"; "a["; "["; "[^"; "[a-b-c]"; String backslash ""; "b["; "a[b"] = replicate 11 None.
Proof. by vm_compute. Qed.

(** ** The fuel is enough *)

Lemma DecodeRune_shorter s : s ≠ "" → (String.length (DecodeRune s).2 < String.length s)%nat.
Proof.
  destruct s as [|a [|b [|c [|d s]]]]; [done|..]; intros _; cbn [DecodeRune]; repeat case_match; cbn; lia.
Qed.

Lemma DecodeRune_shorter_eq s r bad rest : DecodeRune s = (r, bad, rest) → s ≠ "" → (String.length rest < String.length s)%nat.
Proof. intros E Hs. pose proof (DecodeRune_shorter s Hs) as Hl. by rewrite E in Hl. Qed.

Lemma getEsc_shorter s r rest : getEsc s = Some (r, rest) → (String.length rest < String.length s)%nat.
Proof.
  destruct s as [|c s]; [done|]. unfold getEsc. case_decide; [done|]. case_decide; [case_decide; [done|]|].
  - destruct (DecodeRune s) as [[x bad] t] eqn:E. destruct (_ || _); [done|]. intros [= <- <-].
    apply DecodeRune_shorter_eq in E; [|done]. cbn. lia.
  - destruct (DecodeRune (String c s)) as [[x bad] t] eqn:E. destruct (_ || _); [done|]. intros [= <- <-]. by apply DecodeRune_shorter_eq in E.
Qed.

(** Enough fuel for the ranges of a class: two for each byte. *)
Lemma ranges_fuel n m chunk r k found : (2 * S (String.length chunk) ≤ n)%nat → (2 * S (String.length chunk) ≤ m)%nat →
  ranges n chunk r k found = ranges m chunk r k found.
Proof.
  revert n m k found. induction chunk as [chunk IH] using (induction_ltof1 _ String.length). intros n m k found Hn Hm.
  assert (Hr : ∀ n m, (2 * String.length chunk + 1 ≤ n)%nat → (2 * String.length chunk + 1 ≤ m)%nat → range n chunk r k found = range m chunk r k found).
  { intros [|a] [|b] Ha Hb; [lia..|]. cbn [range]. destruct (getEsc chunk) as [[lo c1]|] eqn:E1; [|done]. cbn [mbind option_bind].
    apply getEsc_shorter in E1. destruct c1 as [|x c1]; [cbn [mbind option_bind]; apply IH; [exact E1|lia..]|].
    case_decide; cbn [mbind option_bind]; [|apply IH; [exact E1|lia..]].
    destruct (getEsc c1) as [[hi c2]|] eqn:E2; [|done]. cbn [mbind option_bind]. apply getEsc_shorter in E2. cbn [String.length] in E1.
    apply IH; [unfold ltof; lia|lia..]. }
  destruct n as [|n], m as [|m]; [lia..|]. cbn [ranges]. destruct chunk as [|c rest]; [apply Hr; cbn in *; lia|].
  destruct k; [apply Hr; lia|]. case_decide; [done|]. apply Hr; lia.
Qed.

Lemma ranges_shorter n chunk r k found rest found' : ranges n chunk r k found = Some (rest, found') →
  (String.length rest ≤ String.length chunk)%nat.
Proof.
  revert chunk k found. induction n as [n IH] using lt_wf_ind. intros chunk k found.
  assert (Hr : ∀ a, (a < n)%nat → range a chunk r k found = Some (rest, found') → (String.length rest ≤ String.length chunk)%nat).
  { intros [|a] Ha; [done|]. cbn [range]. destruct (getEsc chunk) as [[lo c1]|] eqn:E1; [|done]. cbn [mbind option_bind]. apply getEsc_shorter in E1.
    destruct c1 as [|x c1]; [cbn [mbind option_bind]; intros Hx%IH; lia|].
    case_decide; cbn [mbind option_bind]; [|intros Hx%IH; lia]. destruct (getEsc c1) as [[hi c2]|] eqn:E2; [|done]. cbn [mbind option_bind].
    apply getEsc_shorter in E2. cbn in E1. intros Hx%IH; lia. }
  destruct n as [|n]; [done|]. cbn [ranges]. destruct chunk as [|c s]; [apply Hr; lia|]. destruct k; [apply Hr; lia|].
  case_decide; [intros [= <- <-]; cbn; lia|apply Hr; lia].
Qed.

Lemma matchChunk_fuel n m chunk s : (String.length chunk < n)%nat → (String.length chunk < m)%nat → matchChunk n chunk s = matchChunk m chunk s.
Proof.
  revert m chunk s. induction n as [|n IH]; intros [|m] chunk s Hn Hm; [lia..|]. cbn [matchChunk]. destruct chunk as [|c chunk']; [done|].
  cbn [String.length] in Hn, Hm. case_decide; [|case_decide; [apply IH; lia|]].
  - destruct (match match s with Some "" => None | _ => s end with Some _ => _ | None => _ end) as [r s'].
    assert (Hb : ∀ neg body, (String.length body ≤ String.length chunk')%nat →
      ('(rest, found) ← ranges (2 * S (String.length body)) body r 0 false; matchChunk n rest (if eqb found neg then None else s')) =
      ('(rest, found) ← ranges (2 * S (String.length body)) body r 0 false; matchChunk m rest (if eqb found neg then None else s'))).
    { intros neg body Hl. destruct (ranges _ _ _ _ _) as [[rest found]|] eqn:E; [|done]. cbn [mbind option_bind]. apply ranges_shorter in E. apply IH; lia. }
    destruct chunk' as [|d b]; [by apply Hb|]. case_decide; apply Hb; cbn; lia.
  - case_decide; [destruct chunk' as [|d rest]; [done|]; cbn [mbind option_bind snd]; cbn in Hn, Hm|cbn [mbind option_bind snd]]; apply IH; lia.
Qed.

Lemma scan_chunk_rest b s : (String.length (scan_chunk b s).2 ≤ String.length s)%nat.
Proof.
  revert b. induction s as [s IH] using (induction_ltof1 _ String.length). intros b. destruct s as [|c s]; [done|]. cbn [scan_chunk].
  case_decide.
  - destruct s as [|d s]; [cbn; lia|]. pose proof (IH s ltac:(unfold ltof; cbn; lia) b) as Hl. destruct (scan_chunk b s). cbn in *. lia.
  - destruct (_ && _); [done|]. set (b' := if decide _ then _ else _). pose proof (IH s ltac:(unfold ltof; cbn; lia) b') as Hl.
    destruct (scan_chunk b' s). cbn in *. lia.
Qed.

Lemma skip_stars_shorter s : (String.length (skip_stars s) ≤ String.length s)%nat.
Proof. induction s as [|c s IH]; [done|]. cbn. case_decide; cbn; lia. Qed.

Lemma scanChunk_shorter pattern star chunk rest : scanChunk pattern = (star, chunk, rest) → pattern ≠ "" →
  (String.length rest < String.length pattern)%nat.
Proof.
  unfold scanChunk. destruct (scan_chunk false (skip_stars pattern)) as [chunk' rest'] eqn:E. intros [= _ _ <-] Hne.
  destruct pattern as [|c s]; [done|]. cbn [skip_stars String.length] in *. case_decide as Hc.
  - pose proof (scan_chunk_rest false (skip_stars s)) as Hl. pose proof (skip_stars_shorter s). rewrite E in Hl. cbn in Hl. lia.
  - cbn [scan_chunk] in E. case_decide as Hb.
    + destruct s as [|d s]; [injection E as <- <-; cbn; lia|]. pose proof (scan_chunk_rest false s) as Hl. destruct (scan_chunk false s).
      injection E as <- <-. cbn in *. lia.
    + rewrite bool_decide_eq_false_2 in E by done. cbn [andb] in E. set (b := if decide _ then _ else _) in E.
      pose proof (scan_chunk_rest b s) as Hl. destruct (scan_chunk b s). injection E as <- <-. cbn in *. lia.
Qed.

Lemma well_formed_fuel n m p : (String.length p < n)%nat → (String.length p < m)%nat → well_formed n p = well_formed m p.
Proof.
  revert m p. induction n as [|n IH]; intros [|m] p Hn Hm; [lia..|]. cbn [well_formed]. case_decide as Hp; [done|].
  destruct (scanChunk p) as [[star chunk] rest] eqn:E. apply scanChunk_shorter in E; [|done]. destruct (match_chunk chunk ""); [apply IH; lia|done].
Qed.

(** Any fuel above the length of the pattern gives the same answer. *)
Lemma match_loop_fuel n m p name : (String.length p < n)%nat → (String.length p < m)%nat → match_loop n p name = match_loop m p name.
Proof.
  revert m p name. induction n as [|n IH]; intros [|m] p name Hn Hm; [lia..|]. cbn [match_loop]. case_decide as Hp; [done|].
  destruct (scanChunk p) as [[star chunk] rest] eqn:E. apply scanChunk_shorter in E; [|done].
  assert (Hrec : ∀ t, match_loop n rest t = match_loop m rest t) by (intros; apply IH; lia).
  destruct (star && _); [done|]. destruct (match_chunk chunk name) as [[t|]|]; [case_decide; [apply Hrec|]| |done].
  all: destruct star; [|done]; destruct (after_star _ _ _) as [[t'|]|]; [apply Hrec|done|done].
Qed.
