(* ===== verification/SchemaLint.v ===== *)
(** * [internal/schemalint]: schema defects of one database

    Rows of the catalog become findings; findings on partitions are folded into one on the
    root of the tree, those in ignored schemas are dropped, and the rest is ordered. The
    levels and thresholds of sequences are in [Health]. How long a report took is left out. *)

From S2P Require Import Prelude GoSlices GoFloat PatroniLayout Sqlparse GoStrings GoGlob Health.
From stdpp Require Import options.

#[local] Set Warnings "-register-all".
#[local] Open Scope string_scope.
#[local] Open Scope Z_scope.
#[local] Open Scope list_scope.

(** ** Data ([schemalint.go]) *)

Definition ObjectTypeSequence : string := "sequence".
Definition ObjectTypeRelation : string := "relation".
Definition ObjectTypeSchema : string := "schema".
Definition ObjectTypeAttribute : string := "attribute".
Definition ObjectTypeConstraint : string := "constraint".
Definition ObjectTypeIndex : string := "index".

Definition CodeSequenceExhaustion : string := "sequence_exhaustion".
Definition CodeNoPrimaryKey : string := "no_primary_key".
Definition CodeNoUniqueKey : string := "no_unique_key".
Definition CodePublicCreatePrivilege : string := "public_create_privilege".
Definition CodeUnloggedRelation : string := "unlogged_relation".
Definition CodeUnloggedSequence : string := "unlogged_sequence".
Definition CodeUUIDInNonUUIDType : string := "uuid_in_non_uuid_type".
Definition CodeRelationWithoutFk : string := "relation_without_fk".
Definition CodeRelationWithoutColumns : string := "relation_without_columns".
Definition CodeReservedWordInName : string := "reserved_word_in_name".
Definition CodeUnsafeCharsInName : string := "unsafe_chars_in_name".
Definition CodeInvalidConstraint : string := "invalid_constraint".
Definition CodeFkTypeMismatch : string := "fk_type_mismatch".
Definition CodeFkNullable : string := "fk_nullable".
Definition CodeFkSimilar : string := "fk_similar".
Definition CodeIndexSimilar : string := "index_similar".
Definition CodeBtreeOnArray : string := "btree_on_array".

Record Params := mkParams {
  UsedPct : option float; LastValue : option Z; MaxValue : option Z; OwnedBy : string; OwnedColumnType : string; Owner : string;
  Column : string; ColumnType : string; Constraint : string; ReferencedBy : string; Index : string; OtherObject : string;
  Partitions : Z; UniqueNullable : bool
}.
Definition no_params : Params := mkParams None None None "" "" "" "" "" "" "" "" "" 0 false.

Record Finding := mkFinding {
  fd_Code : string; fd_Level : Level; fd_ObjectType : string; fd_Schema : string; fd_Object : string; fd_Params : Params; RelatedRoute : string
}.

Inductive SkipReason := SkipInsufficientPrivileges | SkipUnsupportedVersion | SkipDisabled | SkipError.
#[global] Instance SkipReason_eq_dec : EqDecision SkipReason.
Proof. solve_decision. Defined.
Definition skip_string (r : SkipReason) : string :=
  match r with
  | SkipInsufficientPrivileges => "insufficient_privileges" | SkipUnsupportedVersion => "unsupported_version"
  | SkipDisabled => "disabled" | SkipError => "error"
  end.
Record Skip := mkSkip { sk_Code : string; sk_Reason : SkipReason; sk_Detail : string; sk_Count : Z }.

Record DatabaseSummary := mkDatabaseSummary { ds_Database : string; ds_Error : Z; ds_Warning : Z; ds_Notice : Z; ds_Skipped : Z; Failed : bool }.

(** The map of [Summary] is by the string of a level. *)
Record Report := mkReport { Findings : list Finding; Skipped : list Skip; rp_Summary : gmap string Z; Truncated : bool }.

Definition NotRun (r : Report) : Z := foldl (λ n s, if decide (sk_Reason s ≠ SkipDisabled) then n ⊞ 1 else n) 0 (Skipped r).

Definition levelRank (l : Level) : Z := match l with LevelError => 0 | LevelWarning => 1 | LevelNotice => 2 end.
Definition raise (l : Level) : Level := match l with LevelNotice => LevelWarning | _ => LevelError end.

(** ** The registry ([registry.go], [enums]) *)

Definition MinSupportedVersion : Z := 140000.

Definition QuerySchemaLintSequencesUsage : string := "schema_lint/sequences_usage".
Definition QuerySchemaLintRelationsWithoutKey : string := "schema_lint/relations_without_key".
Definition QuerySchemaLintPublicCreatePrivileges : string := "schema_lint/public_create_privileges".
Definition QuerySchemaLintUnloggedObjects : string := "schema_lint/unlogged_objects".
Definition QuerySchemaLintUuidLikeColumns : string := "schema_lint/uuid_like_columns".
Definition QuerySchemaLintRelationsWithoutFk : string := "schema_lint/relations_without_fk".
Definition QuerySchemaLintRelationsWithoutColumns : string := "schema_lint/relations_without_columns".
Definition QuerySchemaLintUnsafeNames : string := "schema_lint/unsafe_names".
Definition QueryConstraintsInvalidConstraints : string := "constraints/invalid_constraints".
Definition QueryFksTypeMismatch : string := "fks/type_mismatch".
Definition QueryFksPossibleNulls : string := "fks/possible_nulls".
Definition QueryFksPossibleSimilar1 : string := "fks/possible_similar1".
Definition QueryIndexesSimilar3 : string := "indexes/similar_3".
Definition QueryIndexesBtreeOnArray : string := "indexes/btree_on_array".

Record Check := mkCheck {
  ck_Code : string; ck_ObjectType : string; ck_Query : string; MinVersion : Z; DefaultEnabled : bool; ck_RelatedRoute : string;
  CollapseParts : bool; ck_RequiredPrivilege : string
}.

Definition registry : list Check := [
  mkCheck CodeSequenceExhaustion ObjectTypeSequence QuerySchemaLintSequencesUsage
    MinSupportedVersion true "/schema-lint" false "SELECT or USAGE on the sequences (GRANT SELECT ON ALL SEQUENCES IN SCHEMA ... TO <role>)";
  mkCheck CodeNoPrimaryKey ObjectTypeRelation QuerySchemaLintRelationsWithoutKey MinSupportedVersion true "/tables" true "";
  mkCheck CodeNoUniqueKey ObjectTypeRelation QuerySchemaLintRelationsWithoutKey MinSupportedVersion true "/tables" true "";
  mkCheck CodePublicCreatePrivilege ObjectTypeSchema QuerySchemaLintPublicCreatePrivileges MinSupportedVersion true "/schema-lint" false "";
  mkCheck CodeUnloggedRelation ObjectTypeRelation QuerySchemaLintUnloggedObjects MinSupportedVersion true "/tables" true "";
  mkCheck CodeUnloggedSequence ObjectTypeSequence QuerySchemaLintUnloggedObjects MinSupportedVersion true "/schema-lint" false "";
  mkCheck CodeUUIDInNonUUIDType ObjectTypeAttribute QuerySchemaLintUuidLikeColumns MinSupportedVersion true "/tables" true "";
  mkCheck CodeRelationWithoutFk ObjectTypeRelation QuerySchemaLintRelationsWithoutFk MinSupportedVersion false "/fk-analysis" true "";
  mkCheck CodeRelationWithoutColumns ObjectTypeRelation QuerySchemaLintRelationsWithoutColumns MinSupportedVersion true "/tables" true "";
  mkCheck CodeReservedWordInName ObjectTypeRelation QuerySchemaLintUnsafeNames MinSupportedVersion true "/tables" false "";
  mkCheck CodeUnsafeCharsInName ObjectTypeRelation QuerySchemaLintUnsafeNames MinSupportedVersion true "/tables" false "";
  mkCheck CodeInvalidConstraint ObjectTypeConstraint QueryConstraintsInvalidConstraints MinSupportedVersion true "/fk-analysis" true "";
  mkCheck CodeFkTypeMismatch ObjectTypeConstraint QueryFksTypeMismatch MinSupportedVersion true "/fk-analysis" true "";
  mkCheck CodeFkNullable ObjectTypeConstraint QueryFksPossibleNulls MinSupportedVersion true "/fk-analysis" true "";
  mkCheck CodeFkSimilar ObjectTypeConstraint QueryFksPossibleSimilar1 MinSupportedVersion false "/fk-analysis" true "";
  mkCheck CodeIndexSimilar ObjectTypeIndex QueryIndexesSimilar3 MinSupportedVersion false "/indexes-problems" true "";
  mkCheck CodeBtreeOnArray ObjectTypeIndex QueryIndexesBtreeOnArray MinSupportedVersion true "/indexes-problems" true ""].

Definition lookup_check (code : string) : option Check := head (filter (λ c, ck_Code c = code) registry).
Definition RequiredPrivilege (code : string) : string := from_option ck_RequiredPrivilege "" (lookup_check code).

(** ** [config.go] *)

Record Config := mkConfig {
  DisabledChecks : list string; EnabledChecks : list string; IgnoreSchemas : list string; cfg_Thresholds : gmap string float;
  SequenceCacheTTL : duration
}.

Definition enabled (c : Config) (chk : Check) : bool :=
  if decide (ck_Code chk ∈ DisabledChecks c) then false
  else if decide (ck_Code chk ∈ EnabledChecks c) then true
  else DefaultEnabled chk.

Definition ignoredSchema (c : Config) (schema : string) : bool := existsb (λ mask, bool_decide (GoGlob.Match mask schema = Some true)) (IgnoreSchemas c).

Definition DefaultSequenceCacheTTL : duration := 15 * 60 * 10 ^ 9.
Definition SequenceCacheTTLOrDefault (c : Config) : duration := if SequenceCacheTTL c <=? 0 then DefaultSequenceCacheTTL else SequenceCacheTTL c.

(** *** [validate.go] *)

Inductive config_error := UnknownCheck (list_name code : string) | BadPattern (mask : string) | UnknownLevel (name : string) |
  OutOfRange (name : string) | ThresholdOrder.

Definition unknown_code (codes : list string) : option string := head (filter (λ c, c ∉ ck_Code <$> registry) codes).

(** The loops over maps report the first offender they meet, in whatever order that is. *)
Definition validateSequenceThresholds `{MapRange} (c : Config) : option config_error :=
  let known := level_string <$> [LevelError; LevelWarning; LevelNotice] in
  match head (filter (λ n, n ∉ known) (map_range "validateSequenceThresholds.levels" (cfg_Thresholds c)).*1) with
  | Some name => Some (UnknownLevel name)
  | None =>
      let pct l := sequenceThreshold (cfg_Thresholds c) l in
      let values : gmap string float :=
        <["error" := pct LevelError]> (<["warning" := pct LevelWarning]> (<["notice" := pct LevelNotice]> ∅)) in
      match head (filter (λ nv : string * float, (nv.2 <=? 0)%float || (100 <? nv.2)%float = true) (map_range "validateSequenceThresholds.values" values)) with
      | Some nv => Some (OutOfRange nv.1)
      | None => if (pct LevelWarning <? pct LevelError)%float || (pct LevelNotice <? pct LevelWarning)%float then Some ThresholdOrder else None
      end
  end.

(** [None] is a section that can do what it says. *)
Definition Validate_config `{MapRange} (c : Config) : option config_error :=
  match unknown_code (DisabledChecks c), unknown_code (EnabledChecks c) with
  | Some code, _ => Some (UnknownCheck "disabled_checks" code)
  | None, Some code => Some (UnknownCheck "enabled_checks" code)
  | None, None =>
      match head (filter (λ mask, GoGlob.Match mask "" = None) (IgnoreSchemas c)) with
      | Some mask => Some (BadPattern mask)
      | None => validateSequenceThresholds c
      end
  end.

(** ** Which queries to run ([registry.go]) *)

Record QueryPlan := mkQueryPlan { qp_Query : string; Codes : list string }.

Definition plan_step (cfg : Config) (version : Z) (st : list QueryPlan * list Skip * gmap string nat) (chk : Check)
    : list QueryPlan * list Skip * gmap string nat :=
  let '(plans, skips, index) := st in
  if negb (enabled cfg chk) then (plans, skips ++ [mkSkip (ck_Code chk) SkipDisabled "" 0], index)
  else if (0 <? version) && (version <? MinVersion chk) then (plans, skips ++ [mkSkip (ck_Code chk) SkipUnsupportedVersion "" 0], index)
  else
    match index !! ck_Query chk with
    | Some i => (alter (λ p, mkQueryPlan (qp_Query p) (Codes p ++ [ck_Code chk])) i plans, skips, index)
    | None => (plans ++ [mkQueryPlan (ck_Query chk) [ck_Code chk]], skips, <[ck_Query chk := length plans]> index)
    end.

Definition Plan_of_checks (checks : list Check) (cfg : Config) (version : Z) : list QueryPlan * list Skip * gmap string nat :=
  foldl (plan_step cfg version) ([], [], ∅) checks.
Definition Plan (cfg : Config) (version : Z) : list QueryPlan * list Skip := (Plan_of_checks registry cfg version).1.

(** ** Rows ([build.go]) *)

Record SequenceRow := mkSequence {
  sq_Schema : string; sq_Object : string; sq_LastValue : Z; LastValueKnown : bool; sq_MaxValue : Z; sq_MinValue : Z; FreePct : float;
  sq_OwnedBy : string; sq_OwnedColumnType : string
}.
Record RelationKeyRow := mkRelationKey { rk_Schema : string; rk_Object : string; HasUnique : bool; rk_UniqueNullable : bool }.
Record SchemaPrivilegeRow := mkPrivilege { pv_Schema : string; pv_Owner : string }.
Record UnloggedRow := mkUnlogged { ul_Schema : string; ul_Object : string; ul_RelKind : string }.
Record ColumnRow := mkColumn { co_Schema : string; co_Object : string; co_Column : string; co_ColumnType : string }.
Record RelationRow := mkRelation { re_Schema : string; re_Object : string }.
Record NameRow := mkName { na_Schema : string; na_Object : string; na_RelKind : string; Reserved : bool }.
Record ConstraintRow := mkConstraint {
  cn_Schema : string; cn_Object : string; cn_Constraint : string; ReferencedSchema : string; ReferencedTable : string
}.
Record PairRow := mkPair { pa_Schema : string; pa_Object : string; First : string; Second : string }.

(** The schema and the object of a relation. *)
Definition ObjectRef : Type := string * string.

Record Inputs := mkInputs {
  ServerVersionNum : Z; Sequences : list SequenceRow; RelationKeys : list RelationKeyRow; SchemaPrivileges : list SchemaPrivilegeRow;
  Unlogged : list UnloggedRow; UUIDLikeColumns : list ColumnRow; WithoutFk : list RelationRow; WithoutColumns : list RelationRow;
  UnsafeNames : list NameRow; InvalidConstrs : list ConstraintRow; FkTypeMismatch : list PairRow; FkNullable : list PairRow;
  FkSimilar : list PairRow; IndexSimilar : list PairRow; BtreeOnArray : list PairRow; PartitionRoots : gmap ObjectRef ObjectRef;
  in_Skipped : list Skip; in_Truncated : bool
}.

Definition enabledCheck (code : string) (cfg : Config) : option Check :=
  chk ← lookup_check code; if enabled cfg chk then Some chk else None.

(** A finding of a check, where nothing about its type and route is special. *)
Definition finding (chk : Check) (level : Level) (schema object : string) (params : Params) : Finding :=
  mkFinding (ck_Code chk) level (ck_ObjectType chk) schema object params (ck_RelatedRoute chk).

(** *** Sequences *)

Definition int4Max : Z := 2147483647.

Section rows.
Context `{GoText} (cfg : Config).

Definition isInt4 (columnType : string) : bool := bool_decide (ToLower (TrimSpace columnType) ∈ ["integer"; "int4"; "int"]).

Definition effectiveHeadroom (r : SequenceRow) : float * Z :=
  if negb (isInt4 (sq_OwnedColumnType r)) || (sq_MaxValue r <=? int4Max) then (FreePct r, sq_MaxValue r)
  else
    let span := (to_float int4Max - to_float (sq_MinValue r))%float in
    if (span <=? 0)%float then (FreePct r, sq_MaxValue r)
    else (math_max (100 * (to_float int4Max - to_float (sq_LastValue r)) / span)%float 0, int4Max).

Definition from_sequence (chk : Check) (r : SequenceRow) : option Finding :=
  if negb (LastValueKnown r) then None
  else
    let '(freePct, maxValue) := effectiveHeadroom r in
    level ← LevelForFreePct freePct (cfg_Thresholds cfg);
    let level := if isInt4 (sq_OwnedColumnType r) then raise level else level in
    Some (finding chk level (sq_Schema r) (sq_Object r)
      (mkParams (Some (100 - freePct)%float) (Some (sq_LastValue r)) (Some maxValue) (sq_OwnedBy r) (sq_OwnedColumnType r)
         "" "" "" "" "" "" "" 0 false)).

Definition fromSequences (rows : list SequenceRow) : list Finding :=
  match enabledCheck CodeSequenceExhaustion cfg with None => [] | Some chk => omap (from_sequence chk) rows end.

Definition worst_step (st : float * bool) (r : SequenceRow) : float * bool :=
  let '(worst, known) := st in
  if negb (LastValueKnown r) || ignoredSchema cfg (sq_Schema r) then (worst, known)
  else
    let used := ((100 - (effectiveHeadroom r).1) / 100)%float in
    (if (worst <? used)%float then used else worst, true).

(** The largest share used, and whether any sequence could be read. *)
Definition WorstSequenceUsage (rows : list SequenceRow) : float * bool := foldl worst_step (0%float, false) rows.

Definition sequencePrivilegeSkip (rows : list SequenceRow) : list Skip :=
  match enabledCheck CodeSequenceExhaustion cfg with
  | None => []
  | Some _ =>
      let hidden := foldl (λ n r, if negb (LastValueKnown r) && negb (ignoredSchema cfg (sq_Schema r)) then n ⊞ 1 else n) 0 rows in
      if hidden =? 0 then [] else [mkSkip CodeSequenceExhaustion SkipInsufficientPrivileges "" hidden]
  end.

(** *** The other checks *)

Definition from_relation_key (noPK noUnique : option Check) (r : RelationKeyRow) : option Finding :=
  chk ← (if HasUnique r then noPK else noUnique);
  Some (finding chk LevelError (rk_Schema r) (rk_Object r)
    (mkParams None None None "" "" "" "" "" "" "" "" "" 0 (HasUnique r && rk_UniqueNullable r))).
Definition fromRelationKeys (rows : list RelationKeyRow) : list Finding :=
  omap (from_relation_key (enabledCheck CodeNoPrimaryKey cfg) (enabledCheck CodeNoUniqueKey cfg)) rows.

Definition fromSchemaPrivileges (rows : list SchemaPrivilegeRow) (version : Z) : list Finding :=
  match enabledCheck CodePublicCreatePrivilege cfg with
  | None => []
  | Some chk =>
      let level := if (0 <? version) && (version <? 150000) then LevelWarning else LevelError in
      (λ r, finding chk level (pv_Schema r) (pv_Schema r) (mkParams None None None "" "" (pv_Owner r) "" "" "" "" "" "" 0 false)) <$> rows
  end.

Definition fromUnlogged (rows : list UnloggedRow) : list Finding :=
  omap (λ r,
    chk ← (if decide (ul_RelKind r = "S") then enabledCheck CodeUnloggedSequence cfg else enabledCheck CodeUnloggedRelation cfg);
    Some (finding chk LevelWarning (ul_Schema r) (ul_Object r) no_params)) rows.

Definition fromUUIDLikeColumns (rows : list ColumnRow) : list Finding :=
  match enabledCheck CodeUUIDInNonUUIDType cfg with
  | None => []
  | Some chk =>
      (λ r, finding chk LevelNotice (co_Schema r) (co_Object r)
              (mkParams None None None "" "" "" (co_Column r) (co_ColumnType r) "" "" "" "" 0 false)) <$> rows
  end.

Definition fromRelations (rows : list RelationRow) (code : string) : list Finding :=
  match enabledCheck code cfg with
  | None => []
  | Some chk => (λ r, finding chk LevelNotice (re_Schema r) (re_Object r) no_params) <$> rows
  end.

Definition objectTypeForRelKind (relKind fallback : string) : string :=
  if decide (relKind = "i" ∨ relKind = "I") then ObjectTypeIndex else if decide (relKind = "S") then ObjectTypeSequence else fallback.

Definition fromUnsafeNames (rows : list NameRow) : list Finding :=
  omap (λ r,
    chk ← (if Reserved r then enabledCheck CodeReservedWordInName cfg else enabledCheck CodeUnsafeCharsInName cfg);
    let objectType := objectTypeForRelKind (na_RelKind r) (ck_ObjectType chk) in
    Some (mkFinding (ck_Code chk) (if Reserved r then LevelWarning else LevelNotice) objectType (na_Schema r) (na_Object r) no_params
      (if decide (objectType ≠ ck_ObjectType chk) then "" else ck_RelatedRoute chk))) rows.

Definition fromInvalidConstraints (rows : list ConstraintRow) : list Finding :=
  match enabledCheck CodeInvalidConstraint cfg with
  | None => []
  | Some chk =>
      (λ r,
        let referenced :=
          if decide (ReferencedSchema r ≠ "" ∧ ReferencedTable r ≠ "") then ReferencedSchema r +:+ "." +:+ ReferencedTable r else ReferencedTable r in
        finding chk LevelWarning (cn_Schema r) (cn_Object r) (mkParams None None None "" "" "" "" "" (cn_Constraint r) referenced "" "" 0 false)) <$> rows
  end.

Definition fromPairs (rows : list PairRow) (code : string) (level : Level) : list Finding :=
  match enabledCheck code cfg with
  | None => []
  | Some chk =>
      (λ r,
        let index := bool_decide (ck_ObjectType chk = ObjectTypeIndex) in
        finding chk level (pa_Schema r) (pa_Object r)
          (mkParams None None None "" "" "" "" "" (if index then "" else First r) "" (if index then First r else "") (Second r) 0 false)) <$> rows
  end.

(** ** Partitions *)

Definition deref (v : option float) : float := default 0%float v.

Definition worseThan (a b : Finding) : bool :=
  if decide (levelRank (fd_Level a) ≠ levelRank (fd_Level b)) then levelRank (fd_Level a) <? levelRank (fd_Level b)
  else (deref (UsedPct (fd_Params b)) <? deref (UsedPct (fd_Params a)))%float.

Definition set_rollup (p : Params) (partitions : Z) (uniqueNullable : bool) : Params :=
  mkParams (UsedPct p) (LastValue p) (MaxValue p) (OwnedBy p) (OwnedColumnType p) (Owner p) (Column p) (ColumnType p) (Constraint p)
    (ReferencedBy p) (Index p) (OtherObject p) partitions uniqueNullable.

(** A finding under another address, with other totals. *)
Definition moved (f : Finding) (at_ : ObjectRef) (partitions : Z) (uniqueNullable : bool) : Finding :=
  mkFinding (fd_Code f) (fd_Level f) (fd_ObjectType f) at_.1 at_.2 (set_rollup (fd_Params f) partitions uniqueNullable) (RelatedRoute f).

Definition self (f : Finding) : ObjectRef := (fd_Schema f, fd_Object f).

Definition mergePartitionFinding (base child : Finding) (childIsPartition : bool) : Finding :=
  let partitions := if childIsPartition then Partitions (fd_Params base) ⊞ 1 else Partitions (fd_Params base) in
  moved (if worseThan child base then child else base) (self base) partitions
    (UniqueNullable (fd_Params base) || UniqueNullable (fd_Params child)).

Definition nul : string := String (char 0) "".
Definition within (p : Params) : string := Column p +:+ nul +:+ Constraint p +:+ nul +:+ Index p.

(** What findings are folded by: the code, the root and what it is about within the relation. *)
Definition groupKey : Type := string * ObjectRef * string.

Definition collapses (f : Finding) : bool := from_option CollapseParts false (lookup_check (fd_Code f)).
Definition root_of (roots : gmap ObjectRef ObjectRef) (f : Finding) : ObjectRef := default (self f) (roots !! self f).
Definition is_child (roots : gmap ObjectRef ObjectRef) (f : Finding) : bool := bool_decide (is_Some (roots !! self f)).
Definition group_key (roots : gmap ObjectRef ObjectRef) (f : Finding) : groupKey := (fd_Code f, root_of roots f, within (fd_Params f)).

Definition first_of_group (roots : gmap ObjectRef ObjectRef) (f : Finding) : Finding :=
  moved f (root_of roots f) (if is_child roots f then 1 else Partitions (fd_Params f)) (UniqueNullable (fd_Params f)).

Definition collapse_step (roots : gmap ObjectRef ObjectRef) (st : list Finding * gmap groupKey nat) (f : Finding) : list Finding * gmap groupKey nat :=
  let '(out, groups) := st in
  if negb (collapses f) then (out ++ [f], groups)
  else
    let key := group_key roots f in
    match groups !! key with
    | None => (out ++ [first_of_group roots f], <[key := length out]> groups)
    | Some i => (alter (λ base, mergePartitionFinding base f (is_child roots f)) i out, groups)
    end.

Definition collapsePartitions (findings : list Finding) (roots : gmap ObjectRef ObjectRef) : list Finding :=
  (foldl (collapse_step roots) ([], ∅) findings).1.

(** ** The report *)

Definition applySuppression (findings : list Finding) : list Finding := filter (λ f, ignoredSchema cfg (fd_Schema f) = false) findings.

Definition finding_less : Finding → Finding → bool :=
  lex_less (less_on (λ f, levelRank (fd_Level f)) Z.ltb) (lex_less (less_on fd_Code str_ltb) (lex_less (less_on fd_Schema str_ltb)
    (lex_less (less_on fd_Object str_ltb) (lex_less (less_on (λ f, Column (fd_Params f)) str_ltb)
      (lex_less (less_on (λ f, Constraint (fd_Params f)) str_ltb) (lex_less (less_on (λ f, Index (fd_Params f)) str_ltb)
        (less_on (λ f, OtherObject (fd_Params f)) str_ltb))))))).
Definition skip_less : Skip → Skip → bool := lex_less (less_on sk_Code str_ltb) (less_on (λ s, skip_string (sk_Reason s)) str_ltb).

Definition summarize (findings : list Finding) : gmap string Z :=
  foldl (λ m f, <[level_string (fd_Level f) := default 0 (m !! level_string (fd_Level f)) ⊞ 1]> m)
    (<["error" := 0]> (<["warning" := 0]> (<["notice" := 0]> ∅))) findings.

(** Every finding, before partitions are folded. *)
Definition all_findings (i : Inputs) : list Finding :=
  fromSequences (Sequences i) ++ fromRelationKeys (RelationKeys i) ++ fromSchemaPrivileges (SchemaPrivileges i) (ServerVersionNum i) ++
  fromUnlogged (Unlogged i) ++ fromUUIDLikeColumns (UUIDLikeColumns i) ++ fromRelations (WithoutFk i) CodeRelationWithoutFk ++
  fromRelations (WithoutColumns i) CodeRelationWithoutColumns ++ fromUnsafeNames (UnsafeNames i) ++ fromInvalidConstraints (InvalidConstrs i) ++
  fromPairs (FkTypeMismatch i) CodeFkTypeMismatch LevelWarning ++ fromPairs (FkNullable i) CodeFkNullable LevelNotice ++
  fromPairs (FkSimilar i) CodeFkSimilar LevelNotice ++ fromPairs (IndexSimilar i) CodeIndexSimilar LevelNotice ++
  fromPairs (BtreeOnArray i) CodeBtreeOnArray LevelNotice.

Definition BuildReport (i : Inputs) : Report :=
  let findings := sort_slice finding_less (applySuppression (collapsePartitions (all_findings i) (PartitionRoots i))) in
  mkReport findings (sort_slice skip_less (in_Skipped i ++ sequencePrivilegeSkip (Sequences i))) (summarize findings) (in_Truncated i).
End rows.

(** Three indexes on one table that are similar to one another come as three pairs. Two of the
    pairs share their first index, which is all a group is keyed by: they are folded into one,
    and the report loses that the first is similar to the third. *)
Example similar_pair_hidden :
  let cfg := mkConfig [] [CodeIndexSimilar] [] ∅ 0 in
  let i := mkInputs 160000 [] [] [] [] [] [] [] [] [] [] [] [] [mkPair "s" "t" "a" "b"; mkPair "s" "t" "a" "c"; mkPair "s" "t" "b" "c"] [] ∅ [] false in
  (λ f, (Index (fd_Params f), OtherObject (fd_Params f))) <$> Findings (BuildReport (H := Build_GoText (λ _, None) (λ _, None) id (λ _ _, false)) cfg i)
  = [("a", "b"); ("b", "c")].
Proof. by vm_compute. Qed.

(** A threshold that is not a number passes the validation and switches its level off. *)
Example nan_threshold_accepted :
  let cfg := mkConfig [] [] [] {["error" := nan]} 0 in
  (Validate_config (H := canonical_range) cfg, LevelForFreePct 0 (cfg_Thresholds cfg)) = (None, Some LevelWarning).
Proof. by vm_compute. Qed.
