(* ===== verification/SchemaLintRepo.v ===== *)
(** * [internal/repository/schemalint.go]: reading what the schema checks need

    Each planned query is run on its own; one that fails is reported as skipped together with
    every check it feeds, and leaves no rows behind. The database is an argument: whether there
    is a template for a query, and what running it gives. *)

From S2P Require Import Prelude GoSlices GoFloat PatroniLayout Sqlparse GoStrings GoGlob Health SchemaLint.
From stdpp Require Import options.

#[local] Set Warnings "-register-all".
#[local] Open Scope string_scope.
#[local] Open Scope Z_scope.
#[local] Open Scope list_scope.

Definition schemaLintMaxRowsPerCheck : nat := Z.to_nat 5000.
Definition schemaLintMaxDatabases : nat := 30.
Definition schemaLintFailureTTL : duration := 30 * 10 ^ 9.
Definition partitionRootsCode : string := "partition_roots".

(** ** Errors ([errors.go]) *)

(** What a query fails with: a deadline, an error of the server with its SQLSTATE, or another. *)
Inductive query_error := DeadlineExceeded | PgError (code : string) | OtherError.
#[global] Instance query_error_eq_dec : EqDecision query_error.
Proof. solve_decision. Defined.

Definition insufficientPrivilegeCode : string := "42501".
Definition undefinedTableCode : string := "42P01".
Definition undefinedColumnCode : string := "42703".
Definition undefinedFunctionCode : string := "42883".
Definition queryCanceledCode : string := "57014".

Definition IsTimeout (e : query_error) : bool := bool_decide (e ∈ [DeadlineExceeded; PgError queryCanceledCode]).

Definition classifySchemaLintError (e : query_error) : SkipReason :=
  match e with
  | PgError code =>
      if decide (code = insufficientPrivilegeCode) then SkipInsufficientPrivileges
      else if decide (code ∈ [undefinedTableCode; undefinedColumnCode; undefinedFunctionCode]) then SkipUnsupportedVersion
      else SkipError
  | _ => SkipError
  end.

Definition skipDetail (e : query_error) : string :=
  if IsTimeout e then "timeout" else match e with PgError code => "SQLSTATE " +:+ code | _ => "query failed" end.

Definition skipForCodes (codes : list string) (reason : SkipReason) (detail : string) : list Skip := (λ c, mkSkip c reason detail 0) <$> codes.

(** ** Rows *)

(** A row as the server sends it; a free share that is NULL is [None]. The columns that are
    scanned and dropped are left out. *)
Inductive raw_row :=
  | RawSequence (r : SequenceRow) (freePct : option float) | RawRelationKey (r : RelationKeyRow) | RawPrivilege (r : SchemaPrivilegeRow)
  | RawUnlogged (r : UnloggedRow) | RawColumn (r : ColumnRow) | RawRelation (r : RelationRow) | RawName (r : NameRow)
  | RawConstraint (r : ConstraintRow) | RawMismatch (schema fk rel toSchema toRel : string) | RawNulls (schema fk rel : string) (atts : list string)
  | RawPair (r : PairRow) | RawFirst (schema object first : string).

Definition no_rows : Inputs := mkInputs 0 [] [] [] [] [] [] [] [] [] [] [] [] [] [] ∅ [] false.

Definition mergeSchemaLintInputs (dst src : Inputs) : Inputs :=
  mkInputs (ServerVersionNum dst) (Sequences dst ++ Sequences src) (RelationKeys dst ++ RelationKeys src)
    (SchemaPrivileges dst ++ SchemaPrivileges src) (Unlogged dst ++ Unlogged src) (UUIDLikeColumns dst ++ UUIDLikeColumns src)
    (WithoutFk dst ++ WithoutFk src) (WithoutColumns dst ++ WithoutColumns src) (UnsafeNames dst ++ UnsafeNames src)
    (InvalidConstrs dst ++ InvalidConstrs src) (FkTypeMismatch dst ++ FkTypeMismatch src) (FkNullable dst ++ FkNullable src)
    (FkSimilar dst ++ FkSimilar src) (IndexSimilar dst ++ IndexSimilar src) (BtreeOnArray dst ++ BtreeOnArray src)
    (PartitionRoots dst) (in_Skipped dst) (in_Truncated dst).

Definition with_free (r : SequenceRow) (free : option float) : SequenceRow :=
  mkSequence (sq_Schema r) (sq_Object r) (sq_LastValue r) (LastValueKnown r) (sq_MaxValue r) (sq_MinValue r) (default 0%float free)
    (sq_OwnedBy r) (sq_OwnedColumnType r).

(** The inputs of one row; [None] is a row that does not fit the query, or a query without a scanner. *)
Definition row_inputs (q : string) (raw : raw_row) : option Inputs :=
  let seqs l := mkInputs 0 l [] [] [] [] [] [] [] [] [] [] [] [] [] ∅ [] false in
  let pairs m n s i b := mkInputs 0 [] [] [] [] [] [] [] [] [] m n s i b ∅ [] false in
  let rest k p u c f w n v := mkInputs 0 [] k p u c f w n v [] [] [] [] [] ∅ [] false in
  match raw with
  | RawSequence r free => if decide (q = QuerySchemaLintSequencesUsage) then Some (seqs [with_free r free]) else None
  | RawRelationKey r => if decide (q = QuerySchemaLintRelationsWithoutKey) then Some (rest [r] [] [] [] [] [] [] []) else None
  | RawPrivilege r => if decide (q = QuerySchemaLintPublicCreatePrivileges) then Some (rest [] [r] [] [] [] [] [] []) else None
  | RawUnlogged r => if decide (q = QuerySchemaLintUnloggedObjects) then Some (rest [] [] [r] [] [] [] [] []) else None
  | RawColumn r => if decide (q = QuerySchemaLintUuidLikeColumns) then Some (rest [] [] [] [r] [] [] [] []) else None
  | RawRelation r =>
      if decide (q = QuerySchemaLintRelationsWithoutFk) then Some (rest [] [] [] [] [r] [] [] [])
      else if decide (q = QuerySchemaLintRelationsWithoutColumns) then Some (rest [] [] [] [] [] [r] [] []) else None
  | RawName r => if decide (q = QuerySchemaLintUnsafeNames) then Some (rest [] [] [] [] [] [] [r] []) else None
  | RawConstraint r => if decide (q = QueryConstraintsInvalidConstraints) then Some (rest [] [] [] [] [] [] [] [r]) else None
  | RawMismatch schema fk rel toSchema toRel =>
      if decide (q = QueryFksTypeMismatch) then Some (pairs [mkPair schema rel fk (toSchema +:+ "." +:+ toRel)] [] [] [] []) else None
  | RawNulls schema fk rel atts =>
      if decide (q = QueryFksPossibleNulls) then Some (pairs [] [mkPair schema rel fk (strings_Join atts ", ")] [] [] []) else None
  | RawPair r =>
      if decide (q = QueryFksPossibleSimilar1) then Some (pairs [] [] [r] [] [])
      else if decide (q = QueryIndexesSimilar3) then Some (pairs [] [] [] [r] []) else None
  | RawFirst schema object first => if decide (q = QueryIndexesBtreeOnArray) then Some (pairs [] [] [] [] [mkPair schema object first ""]) else None
  end.

Definition scanSchemaLintRow (q : string) (raw : raw_row) (i : Inputs) : option Inputs := mergeSchemaLintInputs i <$> row_inputs q raw.

(** ** One query *)

(** The rows a query sends, and how it ends; a read that stops early does not see the end. *)
Record answer := mkAnswer { a_rows : list raw_row; a_err : option query_error }.
Record roots_answer := mkRoots { r_rows : list (ObjectRef * ObjectRef); r_err : option query_error }.

(** A database behind a pool. The limit is part of the queries that take one. *)
Record database := mkDatabase {
  template : string → bool; run : string → query_error + answer; run_roots : query_error + roots_answer
}.

Fixpoint scan_rows (q : string) (room : nat) (rows : list raw_row) (i : Inputs) : option (Inputs * bool) :=
  match rows, room with
  | [], _ => Some (i, false)
  | _ :: _, O => Some (i, true)
  | raw :: rows, S room => i ← scanSchemaLintRow q raw i; scan_rows q room rows i
  end.

Definition runSchemaLintQuery (db : database) (q : string) (i : Inputs) : query_error + (Inputs * bool) :=
  match run db q with
  | inl e => inl e
  | inr a =>
      match scan_rows q schemaLintMaxRowsPerCheck (a_rows a) i with
      | None => inl OtherError
      | Some (i, truncated) => if truncated then inr (i, true) else match a_err a with Some e => inl e | None => inr (i, false) end
      end
  end.

Fixpoint scan_roots (rows : list (ObjectRef * ObjectRef)) (roots : gmap ObjectRef ObjectRef) : gmap ObjectRef ObjectRef * bool :=
  match rows with
  | [] => (roots, false)
  | (child, root) :: rows => if decide (schemaLintMaxRowsPerCheck ≤ size roots)%nat then (roots, true) else scan_roots rows (<[child := root]> roots)
  end.

Definition getPartitionRoots (db : database) : query_error + (gmap ObjectRef ObjectRef * bool) :=
  if negb (template db "schema_lint/partition_roots") then inl OtherError
  else
    match run_roots db with
    | inl e => inl e
    | inr a =>
        let '(roots, truncated) := scan_roots (r_rows a) ∅ in
        if truncated then inr (roots, true) else match r_err a with Some e => inl e | None => inr (roots, false) end
    end.

(** ** All of them *)

Definition planCollapses (codes : list string) : bool := existsb (λ chk, bool_decide (ck_Code chk ∈ codes) && CollapseParts chk) registry.

Definition with_skips (i : Inputs) (skips : list Skip) (truncated : bool) (roots : gmap ObjectRef ObjectRef) : Inputs :=
  mkInputs (ServerVersionNum i) (Sequences i) (RelationKeys i) (SchemaPrivileges i) (Unlogged i) (UUIDLikeColumns i) (WithoutFk i)
    (WithoutColumns i) (UnsafeNames i) (InvalidConstrs i) (FkTypeMismatch i) (FkNullable i) (FkSimilar i) (IndexSimilar i) (BtreeOnArray i)
    roots (in_Skipped i ++ skips) (in_Truncated i || truncated).

Definition collect_step (db : database) (st : Inputs * bool) (plan : QueryPlan) : Inputs * bool :=
  let '(i, needsRoots) := st in
  if negb (template db (qp_Query plan)) then (with_skips i (skipForCodes (Codes plan) SkipError "template unavailable") false (PartitionRoots i), needsRoots)
  else
    match runSchemaLintQuery db (qp_Query plan) no_rows with
    | inl e => (with_skips i (skipForCodes (Codes plan) (classifySchemaLintError e) (skipDetail e)) false (PartitionRoots i), needsRoots)
    | inr (scratch, truncated) =>
        (with_skips (mergeSchemaLintInputs i scratch) [] truncated (PartitionRoots i), needsRoots || planCollapses (Codes plan))
    end.

Definition collectSchemaLint (db : database) (cfg : Config) (version : Z) : Inputs :=
  let '(plans, skips) := Plan cfg version in
  let start := mkInputs version [] [] [] [] [] [] [] [] [] [] [] [] [] [] ∅ skips false in
  let '(i, needsRoots) := foldl (collect_step db) (start, false) plans in
  if needsRoots then
    match getPartitionRoots db with
    | inl e => with_skips i [mkSkip partitionRootsCode (classifySchemaLintError e) (skipDetail e) 0] false ∅
    | inr (roots, truncated) => with_skips i [] truncated roots
    end
  else i.

Definition schemaLintReportForPool `{GoText} (db : database) (cfg : Config) (version : Z) : Report := BuildReport cfg (collectSchemaLint db cfg version).

(** The line of a database in the overview; [None] is one whose version could not be read. *)
Definition database_summary `{GoText} (cfg : Config) (name : string) (read : option (database * Z)) : DatabaseSummary :=
  match read with
  | None => mkDatabaseSummary name 0 0 0 0 true
  | Some (db, version) =>
      let r := schemaLintReportForPool db cfg version in
      mkDatabaseSummary name (default 0 (rp_Summary r !! "error")) (default 0 (rp_Summary r !! "warning")) (default 0 (rp_Summary r !! "notice"))
        (NotRun r) false
  end.

(** ** The databases of an instance *)

Record pool_item := mkItem { it_Host : string; it_Database : string; it_pool : nat }.

Definition add_pool (instance_ : string) (pools : list (string * nat)) (it : pool_item) : list (string * nat) :=
  if decide (it_Host it ≠ instance_ ∨ it_Database it ∈ pools.*1) then pools else pools ++ [(it_Database it, it_pool it)].

(** One pool for each database of the instance, in the order of the names, at most thirty;
    [None] is an instance with none. *)
Definition instanceDatabasePools (pools : gmap string (list pool_item)) (cluster instance_ : string) : option (list (string * nat)) :=
  let found := foldl (add_pool instance_) [] (default [] (pools !! cluster)) in
  if decide (found = []) then None else Some (take schemaLintMaxDatabases (sort_slice (less_on fst str_ltb) found)).

(** ** How close the worst sequence is to its end *)

Record sequenceHeadroomEntry := mkEntry { he_worst : float; he_known : bool; he_expiresAt : time }.
Definition headroom_cache : Type := gmap string sequenceHeadroomEntry.

Definition sequenceHeadroomCacheKey (cluster instance_ database : string) : string := cluster +:+ "/" +:+ instance_ +:+ "/" +:+ database.

Definition storeSequenceHeadroom (cache : headroom_cache) (key : string) (worst : float) (known : bool) (now : time) (ttl : duration) : headroom_cache :=
  <[key := mkEntry worst known (time_add now ttl)]> cache.

(** What reading the sequences of a database gives; the version and the connection may fail as
    the query may. *)
Definition readSequenceHeadroom `{GoText} (cfg : Config) (db : query_error + database) : query_error + (float * bool) :=
  match db with
  | inl e => inl e
  | inr db =>
      if negb (template db QuerySchemaLintSequencesUsage) then inl OtherError
      else
        match runSchemaLintQuery db QuerySchemaLintSequencesUsage no_rows with
        | inl e => inl e
        | inr (i, _) => inr (WorstSequenceUsage cfg (Sequences i))
        end
  end.

(** [now] is the time of the call and [later] that of the store; [free] is whether the pool has
    a free slot, [ctx] whether the deadline of the caller has passed when the read fails. *)
Definition sequenceHeadroomForPool (cfg : Config) (cache : headroom_cache) (key : string) (now later : time) (free : bool)
    (read : query_error + (float * bool)) (ctx : bool) : (query_error + (float * bool)) * headroom_cache :=
  let last := cache !! key in
  match last with
  | Some e => if time_before now (he_expiresAt e) then (inr (he_worst e, he_known e), cache)
              else if negb free then (inr (he_worst e, he_known e), cache)
              else match read with
                   | inl err => (inl err, if ctx then cache else storeSequenceHeadroom cache key 0%float false later schemaLintFailureTTL)
                   | inr (worst, known) => (inr (worst, known), storeSequenceHeadroom cache key worst known later (SequenceCacheTTLOrDefault cfg))
                   end
  | None => if negb free then (inr (0%float, false), cache)
            else match read with
                 | inl err => (inl err, if ctx then cache else storeSequenceHeadroom cache key 0%float false later schemaLintFailureTTL)
                 | inr (worst, known) => (inr (worst, known), storeSequenceHeadroom cache key worst known later (SequenceCacheTTLOrDefault cfg))
                 end
  end.

(** The probes of all databases of an instance as one number. *)
Definition combine_step (st : float * bool * option query_error) (pr : query_error + (float * bool)) : float * bool * option query_error :=
  let '(worst, known, firstErr) := st in
  match pr with
  | inl e => (worst, known, match firstErr with None => Some e | Some _ => firstErr end)
  | inr (w, k) => if negb k then st else (if (worst <? w)%float then w else worst, true, firstErr)
  end.

Definition combine_headroom (probes : list (query_error + (float * bool))) : query_error + (float * bool) :=
  let '(worst, known, firstErr) := foldl combine_step (0%float, false, None) probes in
  match firstErr with
  | Some e => if negb known then inl e else inr (worst, known)
  | None => inr (worst, known)
  end.
