(* ===== verification/SchemaLintSound.v ===== *)
(** * What a schema report says, and what it leaves out

    The plan of queries, the folding of partitions, and the account the report gives of every
    check. *)

From S2P Require Import Prelude GoSlices GoFloat PatroniLayout Sqlparse GoStrings GoGlob Health SchemaLint SchemaLintRepo.
From stdpp Require Import options.

#[local] Set Warnings "-register-all".
#[local] Open Scope string_scope.
#[local] Open Scope Z_scope.
#[local] Open Scope list_scope.

(** ** The plan *)

Definition supported (version : Z) (chk : Check) : Prop := version ≤ 0 ∨ MinVersion chk ≤ version.
#[global] Instance supported_dec version chk : Decision (supported version chk).
Proof. unfold supported. apply _. Defined.
Definition runnable (cfg : Config) (version : Z) (chk : Check) : Prop := enabled cfg chk = true ∧ supported version chk.
#[global] Instance runnable_dec cfg version chk : Decision (runnable cfg version chk).
Proof. unfold runnable. apply _. Defined.

(** Why a check is not run. *)
Definition skip_of (cfg : Config) (version : Z) (chk : Check) : option Skip :=
  if enabled cfg chk then (if decide (supported version chk) then None else Some (mkSkip (ck_Code chk) SkipUnsupportedVersion "" 0))
  else Some (mkSkip (ck_Code chk) SkipDisabled "" 0).

(** The plan of one query: the checks that need it, in their order. *)
Definition plan_for (checks : list Check) (q : string) : QueryPlan := mkQueryPlan q (ck_Code <$> filter (λ c, ck_Query c = q) checks).

Record planned (cfg : Config) (version : Z) (checks : list Check) (plans : list QueryPlan) (skips : list Skip) (index : gmap string nat) : Prop := {
  pl_plans : plans = plan_for (filter (runnable cfg version) checks) <$> firsts (ck_Query <$> filter (runnable cfg version) checks);
  pl_skips : skips = omap (skip_of cfg version) checks;
  pl_index : ∀ q i, index !! q = Some i ↔ firsts (ck_Query <$> filter (runnable cfg version) checks) !! i = Some q
}.

Lemma plan_for_snoc checks chk q : plan_for (checks ++ [chk]) q =
  if decide (ck_Query chk = q) then mkQueryPlan q (Codes (plan_for checks q) ++ [ck_Code chk]) else plan_for checks q.
Proof.
  unfold plan_for. rewrite filter_app, fmap_app, filter_cons, filter_nil. case_decide; cbn [Codes]; [done|]. by rewrite app_nil_r.
Qed.

Lemma plan_step_planned cfg version checks chk plans skips index : planned cfg version checks plans skips index →
  let '(plans, skips, index) := plan_step cfg version (plans, skips, index) chk in planned cfg version (checks ++ [chk]) plans skips index.
Proof.
  intros [-> -> Hi]. set (qs := firsts _) in Hi |- *.
  assert (Hskip : ∀ s, skip_of cfg version chk = Some s → ¬ runnable cfg version chk →
    planned cfg version (checks ++ [chk]) (plan_for (filter (runnable cfg version) checks) <$> qs) (omap (skip_of cfg version) checks ++ [s]) index).
  { intros s Hs Hr. assert (Hf : filter (runnable cfg version) (checks ++ [chk]) = filter (runnable cfg version) checks).
    { by rewrite filter_app, filter_cons_False, filter_nil, app_nil_r by done. }
    split; rewrite ?Hf; [done| |done]. rewrite omap_app. cbn. by rewrite Hs. }
  unfold plan_step. unfold skip_of in Hskip. destruct (enabled cfg chk) eqn:He; cbn [negb];
    [|apply Hskip; [done|]; intros [Hen _]; congruence].
  assert (Hsup : (0 <? version) && (version <? MinVersion chk) = true ↔ ¬ supported version chk).
  { unfold supported. rewrite andb_true_iff, !Z.ltb_lt. lia. }
  destruct ((0 <? version) && _) eqn:Hv.
  { apply Hskip; [by rewrite decide_False by by apply Hsup|]. intros [_ Hs]. by apply (proj1 Hsup eq_refl). }
  assert (Hrun : runnable cfg version chk).
  { split; [done|]. destruct (decide (supported version chk)) as [|Hs]; [done|]. by apply Hsup in Hs. }
  clear Hskip. assert (Hnew : firsts (ck_Query <$> filter (runnable cfg version) (checks ++ [chk])) = appendUnique qs (ck_Query chk)).
  { rewrite filter_app, filter_cons_True, filter_nil, fmap_app by done. apply firsts_snoc. }
  assert (Hskips : omap (skip_of cfg version) (checks ++ [chk]) = omap (skip_of cfg version) checks).
  { rewrite omap_app. cbn. unfold skip_of. rewrite He, decide_True by apply Hrun. by rewrite app_nil_r. }
  assert (Hnd : NoDup qs) by apply firsts_nodup.
  destruct (index !! ck_Query chk) as [i|] eqn:Hq.
  - apply Hi in Hq. pose proof (list_elem_of_lookup_2 _ _ _ Hq) as Hin. split; rewrite ?Hnew, ?appendUnique_present by done; [|done|done].
    rewrite filter_app, filter_cons_True, filter_nil by done. apply list_eq. intros j. rewrite list_lookup_fmap. destruct (decide (i = j)) as [<-|Hne].
    + rewrite list_lookup_alter_eq, list_lookup_fmap, Hq. cbn. by rewrite plan_for_snoc, decide_True by done.
    + rewrite list_lookup_alter_ne, list_lookup_fmap by done. destruct (qs !! j) as [q|] eqn:Hj; [|done]. cbn.
      rewrite plan_for_snoc, decide_False; [done|]. intros <-. apply Hne. by eapply NoDup_lookup.
  - assert (Hout : ck_Query chk ∉ qs).
    { intros (i & Hx)%list_elem_of_lookup. apply Hi in Hx. congruence. }
    unfold appendUnique in Hnew. rewrite decide_False in Hnew by done. split; rewrite ?Hnew; [|done|].
    + rewrite filter_app, filter_cons_True, filter_nil, fmap_app by done. cbn [fmap list_fmap]. f_equal.
      * apply list_fmap_ext. intros j q Hj. rewrite plan_for_snoc, decide_False; [done|]. intros <-. apply Hout. by eapply list_elem_of_lookup_2.
      * rewrite plan_for_snoc, decide_True by done. do 2 f_equal. unfold plan_for. cbn [Codes].
        destruct (filter (λ c, ck_Query c = ck_Query chk) _) as [|c l] eqn:E; [done|]. exfalso. apply Hout, elem_of_firsts.
        assert (Hc : c ∈ c :: l) by left. rewrite <- E in Hc. apply list_elem_of_filter in Hc as [<- Hc]. by apply list_elem_of_fmap_2.
    + intros q i. rewrite lookup_insert_Some, length_fmap, lookup_snoc_Some, Hi. split; [intros [[<- <-]|[Hne Hx]]|intros [[Hl Hx]|[<- <-]]].
      * right. done.
      * left. split; [by eapply lookup_lt_Some|done].
      * right. split; [|done]. intros <-. apply Hout. by eapply list_elem_of_lookup_2.
      * by left.
Qed.

Lemma Plan_planned cfg version checks :
  let '(plans, skips, index) := Plan_of_checks checks cfg version in planned cfg version checks plans skips index.
Proof.
  induction checks as [|chk checks IH] using rev_ind.
  - split; [done|done|]. intros q i. cbn. split; by intros [=].
  - unfold Plan_of_checks in *. rewrite foldl_snoc. destruct (foldl _ _ checks) as [[plans skips] index]. by apply plan_step_planned.
Qed.

Lemma plan_codes run (qs : list string) : mjoin (Codes <$> (plan_for run <$> qs)) = ck_Code <$> mjoin ((λ q, members ck_Query q run) <$> qs).
Proof. induction qs as [|q qs IH]; [done|]. rewrite !fmap_cons. change (mjoin (?x :: ?l)) with (x ++ mjoin l). by rewrite fmap_app, <- IH. Qed.

Lemma plan_queries run (qs : list string) : qp_Query <$> (plan_for run <$> qs) = qs.
Proof. induction qs as [|q qs IH]; [done|]. by rewrite !fmap_cons, IH. Qed.

Lemma registry_codes : NoDup (ck_Code <$> registry).
Proof. apply (bool_decide_eq_true_1 _). by vm_compute. Qed.

(** The plan is exactly this: one query for each that an enabled and supported check needs, in the
    order of the registry, with every such check that needs it; every other check is skipped, as
    disabled or as unsupported. *)
Theorem Plan_exact cfg version :
  let run := filter (runnable cfg version) registry in
  (Plan cfg version).1 = plan_for run <$> firsts (ck_Query <$> run) ∧ (Plan cfg version).2 = omap (skip_of cfg version) registry ∧
  NoDup (qp_Query <$> (Plan cfg version).1) ∧
  mjoin (Codes <$> (Plan cfg version).1) ≡ₚ ck_Code <$> run ∧ NoDup (ck_Code <$> registry).
Proof.
  intros run. pose proof (Plan_planned cfg version registry) as Hp. unfold Plan. destruct (Plan_of_checks _ _ _) as [[plans skips] index].
  destruct Hp as [-> -> _]. cbn [fst snd]. fold run. clearbody run. split; [done|]. split; [done|]. split; [|split; [|apply registry_codes]].
  - rewrite plan_queries. apply firsts_nodup.
  - rewrite plan_codes, regroup; [done|apply firsts_nodup|]. intros c Hc. by apply elem_of_firsts, list_elem_of_fmap_2.
Qed.

(** ** What a query leaves in the inputs *)

(** The rows of one query among the inputs. *)
Definition only (q : string) (i : Inputs) : Inputs :=
  let keep {A} (q' : string) (l : list A) := if decide (q = q') then l else [] in
  mkInputs 0 (keep QuerySchemaLintSequencesUsage (Sequences i)) (keep QuerySchemaLintRelationsWithoutKey (RelationKeys i))
    (keep QuerySchemaLintPublicCreatePrivileges (SchemaPrivileges i)) (keep QuerySchemaLintUnloggedObjects (Unlogged i))
    (keep QuerySchemaLintUuidLikeColumns (UUIDLikeColumns i)) (keep QuerySchemaLintRelationsWithoutFk (WithoutFk i))
    (keep QuerySchemaLintRelationsWithoutColumns (WithoutColumns i)) (keep QuerySchemaLintUnsafeNames (UnsafeNames i))
    (keep QueryConstraintsInvalidConstraints (InvalidConstrs i)) (keep QueryFksTypeMismatch (FkTypeMismatch i))
    (keep QueryFksPossibleNulls (FkNullable i)) (keep QueryFksPossibleSimilar1 (FkSimilar i)) (keep QueryIndexesSimilar3 (IndexSimilar i))
    (keep QueryIndexesBtreeOnArray (BtreeOnArray i)) ∅ [] false.

Lemma keep_app {A} (P : Prop) `{Decision P} (l l' : list A) : (if decide P then l ++ l' else []) = (if decide P then l else []) ++ (if decide P then l' else []).
Proof. by case_decide. Qed.

Lemma only_merge q i i' : only q (mergeSchemaLintInputs i i') = mergeSchemaLintInputs (only q i) (only q i').
Proof. unfold only, mergeSchemaLintInputs. cbn [ServerVersionNum Sequences RelationKeys SchemaPrivileges Unlogged UUIDLikeColumns WithoutFk WithoutColumns
  UnsafeNames InvalidConstrs FkTypeMismatch FkNullable FkSimilar IndexSimilar BtreeOnArray PartitionRoots in_Skipped in_Truncated]. by rewrite !keep_app. Qed.

Lemma keep_nil {A} (P : Prop) `{Decision P} : (if decide P then ([] : list A) else []) = [].
Proof. by case_decide. Qed.

Lemma merge_no_rows q i : mergeSchemaLintInputs (only q i) no_rows = only q i.
Proof. unfold mergeSchemaLintInputs, no_rows. cbn. by rewrite !app_nil_r. Qed.

Lemma merge_no_rows_l q i : mergeSchemaLintInputs no_rows (only q i) = only q i.
Proof. done. Qed.

Lemma only_no_rows q : only q no_rows = no_rows.
Proof. unfold only, no_rows. cbn. by rewrite !keep_nil. Qed.

(** A row of a query is one of its rows and of no other. *)
Lemma only_row q raw s q' : row_inputs q raw = Some s → only q' s = if decide (q' = q) then s else no_rows.
Proof.
  intros Hs. destruct raw; cbn in Hs; repeat case_decide; try done; injection Hs as <-; subst; try reflexivity;
    unfold only, no_rows; cbn; rewrite !keep_nil, decide_False by done; done.
Qed.

Lemma only_scan q room rows i s tr q' : scan_rows q room rows i = Some (s, tr) → only q i = i →
  only q' s = if decide (q' = q) then s else only q' i.
Proof.
  revert room i. induction rows as [|raw rows IH]; intros [|room] i; cbn [scan_rows]; intros Hs Hi.
  1-3: injection Hs as <- <-; case_decide as Hq; [by subst|done].
  unfold scanSchemaLintRow in Hs. destruct (row_inputs q raw) as [one|] eqn:Hone; [|done]. cbn [fmap option_fmap option_map mbind option_bind] in Hs.
  pose proof (only_row _ _ _ q Hone) as Hq. rewrite decide_True in Hq by done.
  rewrite (IH _ _ Hs) by by rewrite only_merge, Hi, Hq. case_decide as Hne; [done|].
  by rewrite only_merge, (only_row _ _ _ q' Hone), decide_False, merge_no_rows by done.
Qed.

Lemma only_run db q s tr q' : runSchemaLintQuery db q no_rows = inr (s, tr) → only q' s = if decide (q' = q) then s else no_rows.
Proof.
  unfold runSchemaLintQuery. destruct (run db q) as [|a]; [done|]. destruct (scan_rows _ _ _ _) as [[s' tr']|] eqn:Hs; [|done].
  intros Heq. assert (s' = s) as ->; [destruct tr'; [|destruct (a_err a)]; congruence|].
  rewrite (only_scan _ _ _ _ _ _ q' Hs), only_no_rows; [done|apply only_no_rows].
Qed.

(** ** Every check is accounted for *)

(** What running a query gives, and why it gives nothing. *)
Definition outcome (db : database) (q : string) : (SkipReason * string) + (Inputs * bool) :=
  if negb (template db q) then inl (SkipError, "template unavailable")
  else match runSchemaLintQuery db q no_rows with inl e => inl (classifySchemaLintError e, skipDetail e) | inr r => inr r end.

Definition rows_read (db : database) (qs : list string) (q : string) : Inputs :=
  if decide (q ∈ qs) then match outcome db q with inl _ => no_rows | inr (s, _) => s end else no_rows.

(** The inputs after the queries of some plans. *)
Record collected (db : database) (skips : list Skip) (plans : list QueryPlan) (i : Inputs) : Prop := {
  cl_rows : ∀ q, only q i = rows_read db (qp_Query <$> plans) q;
  cl_skips : in_Skipped i = skips ++ mjoin ((λ p, match outcome db (qp_Query p) with inl (r, d) => skipForCodes (Codes p) r d | inr _ => [] end) <$> plans);
  cl_truncated : in_Truncated i = existsb (λ p, match outcome db (qp_Query p) with inr (_, tr) => tr | inl _ => false end) plans
}.

Lemma only_with_skips q i skips tr roots : only q (with_skips i skips tr roots) = only q i.
Proof. done. Qed.

Lemma only_outcome db q s tr q' : outcome db q = inr (s, tr) → only q' s = if decide (q' = q) then s else no_rows.
Proof. unfold outcome. destruct (negb _); [done|]. destruct (runSchemaLintQuery db q no_rows) as [|[s' tr']] eqn:E; [done|]. intros [= -> ->]. by eapply only_run. Qed.

Lemma rows_read_snoc db qs q q' : q ∉ qs → rows_read db (qs ++ [q]) q' =
  if decide (q' = q) then match outcome db q with inl _ => no_rows | inr (s, _) => s end else rows_read db qs q'.
Proof.
  intros Hq. unfold rows_read. destruct (decide (q' = q)) as [->|Hne]; [by rewrite decide_True by set_solver|].
  destruct (decide (q' ∈ qs)); [by rewrite decide_True by set_solver|by rewrite decide_False by set_solver].
Qed.

Lemma collect_step_collected db skips plans p i needs : qp_Query p ∉ qp_Query <$> plans → collected db skips plans i →
  collected db skips (plans ++ [p]) (collect_step db (i, needs) p).1.
Proof.
  intros Hq [Hr Hs Ht].
  assert (Hstep : (collect_step db (i, needs) p).1 = match outcome db (qp_Query p) with
    | inl (r, d) => with_skips i (skipForCodes (Codes p) r d) false (PartitionRoots i)
    | inr (s, tr) => with_skips (mergeSchemaLintInputs i s) [] tr (PartitionRoots i) end).
  { unfold collect_step, outcome. destruct (negb _); [done|]. by destruct (runSchemaLintQuery _ _ _) as [|[]]. }
  rewrite Hstep. split.
  - intros q. replace (qp_Query <$> plans ++ [p]) with ((qp_Query <$> plans) ++ [qp_Query p]) by by rewrite fmap_app.
    rewrite rows_read_snoc by done. destruct (outcome db (qp_Query p)) as [[r d]|[s tr]] eqn:Ho.
    + rewrite only_with_skips, Hr. case_decide as Hqq; [|done]. subst q. unfold rows_read. by rewrite decide_False.
    + rewrite only_with_skips, only_merge, (only_outcome _ _ _ _ q Ho), Hr. case_decide as Hqq.
      * subst q. unfold rows_read. rewrite decide_False by done.
        assert (Hos : only (qp_Query p) s = s) by by rewrite (only_outcome _ _ _ _ _ Ho), decide_True. rewrite <- Hos. apply merge_no_rows_l.
      * rewrite <- Hr. apply merge_no_rows.
  - rewrite fmap_app, join_app. destruct (outcome db (qp_Query p)) as [[r d]|[s tr]] eqn:Ho; cbn; rewrite Ho, Hs, app_nil_r; [by rewrite app_assoc|by rewrite !app_nil_r].
  - rewrite existsb_app. destruct (outcome db (qp_Query p)) as [[r d]|[s tr]] eqn:Ho; cbn; rewrite Ho, Ht; [done|by rewrite orb_false_r].
Qed.

Lemma fold_collected db skips plans plans0 i needs : NoDup (qp_Query <$> plans0 ++ plans) → collected db skips plans0 i →
  collected db skips (plans0 ++ plans) (foldl (collect_step db) (i, needs) plans).1.
Proof.
  revert plans0 i needs. induction plans as [|p plans IH]; intros plans0 i needs Hnd Hc; [by rewrite app_nil_r|]. cbn [foldl].
  assert (Hq : qp_Query p ∉ qp_Query <$> plans0).
  { rewrite fmap_app in Hnd. apply NoDup_app in Hnd as (_ & Hd & _). intros Hx. apply (Hd _ Hx). left. }
  pose proof (collect_step_collected db skips plans0 p i needs Hq Hc) as Hc'. destruct (collect_step db (i, needs) p) as [i' needs']. cbn [fst] in Hc'.
  specialize (IH (plans0 ++ [p]) i' needs'). rewrite <- app_assoc in IH. by apply IH.
Qed.

(** What is collected, up to the roots of partitions. *)
Lemma collect_rows db cfg version :
  let i := collectSchemaLint db cfg version in let plans := (Plan cfg version).1 in
  ∃ j more, collected db (Plan cfg version).2 plans j ∧ (∀ q, only q i = only q j) ∧ in_Skipped i = in_Skipped j ++ more ∧
    Forall (λ s, sk_Code s = partitionRootsCode) more ∧ (in_Truncated j = true → in_Truncated i = true).
Proof.
  cbn zeta. pose proof (Plan_planned cfg version registry) as Hp. unfold collectSchemaLint, Plan in *.
  destruct (Plan_of_checks _ _ _) as [[plans skips] index]. cbn [fst snd] in *. set (start := mkInputs version _ _ _ _ _ _ _ _ _ _ _ _ _ _ _ _ _).
  destruct Hp as [-> _ _]. set (plans := _ <$> _).
  pose proof (fold_collected db skips plans [] start false) as Hf. cbn [app] in Hf. destruct (foldl _ _ _) as [j needs]. cbn [fst] in Hf.
  assert (Hj : collected db skips plans j).
  { apply Hf; [unfold plans; rewrite plan_queries; apply firsts_nodup|]. split; [|by rewrite app_nil_r|done].
    intros q. unfold rows_read. rewrite decide_False by apply not_elem_of_nil. apply only_no_rows. }
  exists j. destruct needs; [destruct (getPartitionRoots db) as [e|[roots tr]]|].
  - exists [mkSkip partitionRootsCode (classifySchemaLintError e) (skipDetail e) 0]. split_and!; [done|done|done|by constructor|]. intros Ht. cbn. by rewrite Ht.
  - exists []. split_and!; [done|done|done|constructor|]. intros Ht. cbn. by rewrite Ht.
  - exists []. rewrite app_nil_r. split_and!; [done|done|done|constructor|done].
Qed.

(** *** Findings come from rows *)

Definition backed (cfg : Config) (i : Inputs) (f : Finding) : Prop :=
  Partitions (fd_Params f) = 0 ∧ ∃ chk, chk ∈ registry ∧ fd_Code f = ck_Code chk ∧ enabled cfg chk = true ∧ only (ck_Query chk) i ≠ no_rows.

Lemma enabledCheck_spec code cfg chk : enabledCheck code cfg = Some chk → lookup_check code = Some chk ∧ enabled cfg chk = true.
Proof. unfold enabledCheck. destruct (lookup_check code) as [c|]; [|done]. cbn [mbind option_bind]. destruct (enabled cfg c) eqn:E; [|done]. by intros [= <-]. Qed.

Lemma lookup_check_spec code chk : lookup_check code = Some chk → chk ∈ registry ∧ ck_Code chk = code.
Proof.
  unfold lookup_check. intros Hh. apply head_Some_elem_of, list_elem_of_filter in Hh. tauto.
Qed.

(** The finding of an enabled check, one of whose rows is there. *)
Lemma backed_by cfg i f code q chk : enabledCheck code cfg = Some chk →
  fd_Code f = ck_Code chk ∧ Partitions (fd_Params f) = 0 → ck_Query <$> lookup_check code = Some q →
  only q i ≠ no_rows → backed cfg i f.
Proof.
  intros (Hl & He)%enabledCheck_spec [Hf Hz] Hq Ho. rewrite Hl in Hq. injection Hq as <-. split; [done|]. exists chk. apply lookup_check_spec in Hl as [Hin _]. done.
Qed.

(** The list of one query holds a row. *)
Ltac holds_row proj Hin := let Heq := fresh "Heq" in
  intros Heq; apply (f_equal proj) in Heq; match type of Heq with ?a = _ => let b := type of Hin in
    match b with _ ∈ ?l => assert (a = l) as Hx by reflexivity; rewrite Hx in Heq end end; rewrite Heq in Hin; by apply not_elem_of_nil in Hin.

Section backed.
Context `{GoText} (cfg : Config) (i : Inputs).

Lemma pairs_backed (proj : Inputs → list PairRow) code q level f : ck_Query <$> lookup_check code = Some q → proj (only q i) = proj i → proj no_rows = [] →
  f ∈ fromPairs cfg (proj i) code level → backed cfg i f.
Proof.
  intros Hq Hp Hn. unfold fromPairs. destruct (enabledCheck code cfg) as [chk|] eqn:He; [|by intros ?%elem_of_nil].
  intros (r & -> & Hr)%list_elem_of_fmap. eapply backed_by; [exact He|done|exact Hq|]. intros Heq. rewrite <- Hp, Heq, Hn in Hr. by apply not_elem_of_nil in Hr.
Qed.

Lemma relations_backed (proj : Inputs → list RelationRow) code q f : ck_Query <$> lookup_check code = Some q → proj (only q i) = proj i → proj no_rows = [] →
  f ∈ fromRelations cfg (proj i) code → backed cfg i f.
Proof.
  intros Hq Hp Hn. unfold fromRelations. destruct (enabledCheck code cfg) as [chk|] eqn:He; [|by intros ?%elem_of_nil].
  intros (r & -> & Hr)%list_elem_of_fmap. eapply backed_by; [exact He|done|exact Hq|]. intros Heq. rewrite <- Hp, Heq, Hn in Hr. by apply not_elem_of_nil in Hr.
Qed.

Lemma all_backed f : f ∈ all_findings cfg i → backed cfg i f.
Proof.
  unfold all_findings. rewrite !elem_of_app. intros [Hf|[Hf|[Hf|[Hf|[Hf|[Hf|[Hf|[Hf|[Hf|[Hf|[Hf|[Hf|[Hf|Hf]]]]]]]]]]]]].
  - unfold fromSequences in Hf. destruct (enabledCheck _ _) as [chk|] eqn:He; [|by apply not_elem_of_nil in Hf].
    apply list_elem_of_omap in Hf as (r & Hr & Hf). unfold from_sequence in Hf. destruct (negb _); [done|]. destruct (effectiveHeadroom r).
    destruct (LevelForFreePct _ _); [|done]. injection Hf as <-. eapply backed_by; [exact He|done|reflexivity|]. holds_row Sequences Hr.
  - unfold fromRelationKeys in Hf. apply list_elem_of_omap in Hf as (r & Hr & Hf). unfold from_relation_key in Hf.
    destruct (HasUnique r); match type of Hf with context [enabledCheck ?c ?g] => destruct (enabledCheck c g) as [chk|] eqn:He; [|done] end; injection Hf as <-;
      (eapply backed_by; [exact He|done|reflexivity|]; holds_row RelationKeys Hr).
  - unfold fromSchemaPrivileges in Hf. destruct (enabledCheck _ _) as [chk|] eqn:He; [|by apply not_elem_of_nil in Hf].
    apply list_elem_of_fmap in Hf as (r & -> & Hr). eapply backed_by; [exact He|done|reflexivity|]. holds_row SchemaPrivileges Hr.
  - unfold fromUnlogged in Hf. apply list_elem_of_omap in Hf as (r & Hr & Hf).
    case_decide; match type of Hf with context [enabledCheck ?c ?g] => destruct (enabledCheck c g) as [chk|] eqn:He; [|done] end; injection Hf as <-;
      (eapply backed_by; [exact He|done|reflexivity|]; holds_row Unlogged Hr).
  - unfold fromUUIDLikeColumns in Hf. destruct (enabledCheck _ _) as [chk|] eqn:He; [|by apply not_elem_of_nil in Hf].
    apply list_elem_of_fmap in Hf as (r & -> & Hr). eapply backed_by; [exact He|done|reflexivity|]. holds_row UUIDLikeColumns Hr.
  - refine (relations_backed WithoutFk _ QuerySchemaLintRelationsWithoutFk f _ _ _ Hf); reflexivity.
  - refine (relations_backed WithoutColumns _ QuerySchemaLintRelationsWithoutColumns f _ _ _ Hf); reflexivity.
  - unfold fromUnsafeNames in Hf. apply list_elem_of_omap in Hf as (r & Hr & Hf).
    destruct (Reserved r); match type of Hf with context [enabledCheck ?c ?g] => destruct (enabledCheck c g) as [chk|] eqn:He; [|done] end; injection Hf as <-;
      (eapply backed_by; [exact He|done|reflexivity|]; holds_row UnsafeNames Hr).
  - unfold fromInvalidConstraints in Hf. destruct (enabledCheck _ _) as [chk|] eqn:He; [|by apply not_elem_of_nil in Hf].
    apply list_elem_of_fmap in Hf as (r & -> & Hr). eapply backed_by; [exact He|done|reflexivity|]. holds_row InvalidConstrs Hr.
  - refine (pairs_backed FkTypeMismatch _ QueryFksTypeMismatch _ f _ _ _ Hf); reflexivity.
  - refine (pairs_backed FkNullable _ QueryFksPossibleNulls _ f _ _ _ Hf); reflexivity.
  - refine (pairs_backed FkSimilar _ QueryFksPossibleSimilar1 _ f _ _ _ Hf); reflexivity.
  - refine (pairs_backed IndexSimilar _ QueryIndexesSimilar3 _ f _ _ _ Hf); reflexivity.
  - refine (pairs_backed BtreeOnArray _ QueryIndexesBtreeOnArray _ f _ _ _ Hf); reflexivity.
Qed.
End backed.

(** ** Folding partitions *)

Section collapse.
Context (roots : gmap ObjectRef ObjectRef).

Definition folded (f : Finding) : Prop := collapses f = true.
Definition group_members (k : groupKey) (l : list Finding) : list Finding := members (group_key roots) k (filter folded l).

(** What the findings of one group become. *)
Definition rollup (es : list Finding) : option Finding :=
  match es with [] => None | e :: es => Some (foldl (λ b f, mergePartitionFinding b f (is_child roots f)) (first_of_group roots e) es) end.

(** A place of the result: a finding that is kept, or a group. *)
Inductive slot := Kept (f : Finding) | Group (k : groupKey).
Definition kept_of (s : slot) : option Finding := match s with Kept f => Some f | Group _ => None end.
Definition group_of (s : slot) : option groupKey := match s with Kept _ => None | Group k => Some k end.

Definition slot_step (slots : list slot) (f : Finding) : list slot :=
  if collapses f then (if decide (group_key roots f ∈ omap group_of slots) then slots else slots ++ [Group (group_key roots f)]) else slots ++ [Kept f].
Definition slots_of (l : list Finding) : list slot := foldl slot_step [] l.

Definition shows (l : list Finding) (s : slot) (g : Finding) : Prop :=
  match s with Kept f => g = f | Group k => rollup (group_members k l) = Some g end.

Record collapsing (l : list Finding) (out : list Finding) (groups : gmap groupKey nat) : Prop := {
  co_shows : Forall2 (shows l) (slots_of l) out;
  co_groups : ∀ k i, groups !! k = Some i ↔ slots_of l !! i = Some (Group k)
}.

Lemma slots_snoc l f : slots_of (l ++ [f]) = slot_step (slots_of l) f.
Proof. unfold slots_of. by rewrite foldl_snoc. Qed.

Lemma omap_snoc {A B} (f : A → option B) l x : omap f (l ++ [x]) = omap f l ++ match f x with Some y => [y] | None => [] end.
Proof. rewrite omap_app. cbn. by destruct (f x). Qed.

Lemma slots_kept l : omap kept_of (slots_of l) = filter (λ f, collapses f = false) l.
Proof.
  induction l as [|f l IH] using rev_ind; [done|]. rewrite slots_snoc, filter_app, filter_cons, filter_nil, <- IH. unfold slot_step.
  destruct (collapses f); [destruct (decide (true = false)) as [|_]; [done|]|rewrite decide_True by done; by rewrite omap_snoc].
  case_decide; rewrite ?omap_snoc; cbn [kept_of]; by rewrite ?app_nil_r.
Qed.

Lemma filter_folded_snoc l f : filter folded (l ++ [f]) = filter folded l ++ (if collapses f then [f] else []).
Proof.
  unfold folded. rewrite filter_app, filter_cons, filter_nil. f_equal. destruct (collapses f); [by rewrite decide_True|by rewrite decide_False].
Qed.

Lemma slots_groups l : omap group_of (slots_of l) = firsts (group_key roots <$> filter folded l).
Proof.
  induction l as [|f l IH] using rev_ind; [done|]. rewrite slots_snoc, filter_folded_snoc. unfold slot_step.
  destruct (collapses f); [|by rewrite omap_snoc, !app_nil_r]. rewrite fmap_app. cbn [fmap list_fmap]. rewrite firsts_snoc, <- IH.
  unfold appendUnique. case_decide; [done|]. by rewrite omap_snoc.
Qed.

Lemma slot_unique l i j k : slots_of l !! i = Some (Group k) → slots_of l !! j = Some (Group k) → i = j.
Proof.
  pose proof (firsts_nodup (group_key roots <$> filter folded l)) as Hnd. rewrite <- slots_groups in Hnd. revert i j.
  induction (slots_of l) as [|s sl IH]; intros [|i] [|j] Hi Hj; try done.
  - cbn in Hi, Hj. injection Hi as ->. cbn in Hnd. apply NoDup_cons in Hnd as [Hn _]. destruct Hn. apply list_elem_of_omap.
    exists (Group k). split; [by eapply list_elem_of_lookup_2|done].
  - cbn in Hi, Hj. injection Hj as ->. cbn in Hnd. apply NoDup_cons in Hnd as [Hn _]. destruct Hn. apply list_elem_of_omap.
    exists (Group k). split; [by eapply list_elem_of_lookup_2|done].
  - f_equal. apply IH; [|done|done]. cbn in Hnd. destruct (group_of s); [by apply NoDup_cons in Hnd as [_ ?]|done].
Qed.

Lemma group_members_snoc k l f : group_members k (l ++ [f]) =
  group_members k l ++ (if collapses f then (if decide (group_key roots f = k) then [f] else []) else []).
Proof.
  unfold group_members. rewrite filter_folded_snoc, members_app. f_equal. destruct (collapses f); [|done]. rewrite members_cons. by case_decide.
Qed.

Lemma shows_other l f s g : shows l s g → (∀ k, s = Group k → collapses f = true → group_key roots f ≠ k) → shows (l ++ [f]) s g.
Proof.
  destruct s as [f'|k]; [done|]. cbn. intros Hs Hk. rewrite group_members_snoc. destruct (collapses f); [|by rewrite app_nil_r].
  rewrite decide_False by by apply Hk. by rewrite app_nil_r.
Qed.

Lemma rollup_snoc es f : es ≠ [] → rollup (es ++ [f]) = (λ b, mergePartitionFinding b f (is_child roots f)) <$> rollup es.
Proof. destruct es as [|e es]; [done|]. intros _. cbn. by rewrite foldl_snoc. Qed.

Lemma collapse_step_collapsing l out groups f : collapsing l out groups →
  let '(out, groups) := collapse_step roots (out, groups) f in collapsing (l ++ [f]) out groups.
Proof.
  intros [Hs Hg]. unfold collapse_step. pose proof (Forall2_length _ _ _ Hs) as Hlen. destruct (collapses f) eqn:Hf; cbn [negb].
  - destruct (groups !! group_key roots f) as [i|] eqn:Hk.
    + pose proof (proj1 (Hg _ _) Hk) as Hi. assert (Hin : group_key roots f ∈ omap group_of (slots_of l)).
      { apply list_elem_of_omap. exists (Group (group_key roots f)). split; [by eapply list_elem_of_lookup_2|done]. }
      assert (Hsl : slots_of (l ++ [f]) = slots_of l) by by rewrite slots_snoc; unfold slot_step; rewrite Hf, decide_True.
      split; rewrite Hsl; [|done]. apply Forall2_same_length_lookup. split; [by rewrite length_alter|].
      intros j s g Hj Hout. destruct (decide (j = i)) as [->|Hne].
      * rewrite Hi in Hj. injection Hj as <-. rewrite list_lookup_alter_eq in Hout. destruct (out !! i) as [b|] eqn:Hb; [|done].
        cbn in Hout. injection Hout as <-. pose proof (Forall2_lookup_lr _ _ _ _ _ _ Hs Hi Hb) as Hsh. cbn [shows] in Hsh |- *.
        rewrite group_members_snoc, Hf, decide_True, rollup_snoc, Hsh by (done || by intros E; rewrite E in Hsh). done.
      * rewrite list_lookup_alter_ne in Hout by done. apply shows_other; [by eapply Forall2_lookup_lr|]. intros k -> _ <-. apply Hne. by eapply slot_unique.
    + assert (Hout : group_key roots f ∉ omap group_of (slots_of l)).
      { intros ([f'|k] & Hin & Hk')%list_elem_of_omap; [done|]. injection Hk' as ->. apply list_elem_of_lookup in Hin as (i & Hi). apply Hg in Hi. congruence. }
      assert (Hsl : slots_of (l ++ [f]) = slots_of l ++ [Group (group_key roots f)]) by by rewrite slots_snoc; unfold slot_step; rewrite Hf, decide_False.
      assert (Hno : ∀ k, Group k ∈ slots_of l → group_key roots f ≠ k).
      { intros k Hin <-. apply Hout, list_elem_of_omap. by exists (Group (group_key roots f)). }
      assert (Hm : group_members (group_key roots f) l = []).
      { apply members_nil. rewrite slots_groups, elem_of_firsts in Hout. done. }
      split; rewrite Hsl.
      * apply Forall2_app; [|constructor; [|constructor]].
        -- apply Forall2_same_length_lookup. split; [done|]. intros j s g Hj Hx. apply shows_other; [by eapply Forall2_lookup_lr|].
           intros k -> _. apply Hno. by eapply list_elem_of_lookup_2.
        -- cbn [shows]. by rewrite group_members_snoc, Hf, decide_True, Hm by done.
      * intros k i. rewrite lookup_insert_Some, lookup_snoc_Some, Hg. split.
        -- intros [[<- <-]|[Hne Hi]]; [right; split; congruence|left; split; [by eapply lookup_lt_Some|done]].
        -- intros [[Hl Hi]|[-> Heq]]; [right; split; [|done]; apply Hno; by eapply list_elem_of_lookup_2|]. injection Heq as <-. left. split; congruence.
  - assert (Hsl : slots_of (l ++ [f]) = slots_of l ++ [Kept f]) by by rewrite slots_snoc; unfold slot_step; rewrite Hf.
    split; rewrite Hsl.
    + apply Forall2_app; [|by constructor]. eapply Forall2_impl; [exact Hs|]. intros s g Hsh. apply shows_other; [done|]. intros k _. by rewrite Hf.
    + intros k i. rewrite lookup_snoc_Some, Hg. split; [intros Hi; left; split; [by eapply lookup_lt_Some|done]|]. by intros [[_ ?]|[_ ?]].
Qed.

Lemma collapse_collapsing l : let '(out, groups) := foldl (collapse_step roots) ([], ∅) l in collapsing l out groups.
Proof.
  induction l as [|f l IH] using rev_ind.
  - split; [constructor|]. intros k i. cbn. split; by intros [=].
  - rewrite foldl_snoc. destruct (foldl _ _ l) as [out groups]. by apply collapse_step_collapsing.
Qed.
End collapse.

(** *** The finding of a group *)

Record rolled (roots : gmap ObjectRef ObjectRef) (k : groupKey) (es : list Finding) (g : Finding) : Prop := {
  ro_address : (fd_Code g, self g) = k.1;
  ro_partitions : Partitions (fd_Params g) = Z.of_nat (length (filter (λ e, is_child roots e = true) es));
  ro_nullable : UniqueNullable (fd_Params g) = existsb (λ e, UniqueNullable (fd_Params e)) es;
  ro_worst : ∃ w n u, w ∈ es ∧ g = moved w k.1.2 n u ∧ ∀ e, e ∈ es → worseThan e w = false
}.

Lemma worseThan_moved f b at_ n u : worseThan f (moved b at_ n u) = worseThan f b.
Proof. done. Qed.

Lemma worseThan_irrefl f : worseThan f f = false.
Proof. unfold worseThan. rewrite decide_False by by intros []. apply flt_irrefl. Qed.

Lemma worseThan_trans a b c : worseThan a b = true → worseThan b c = true → worseThan a c = true.
Proof.
  unfold worseThan. intros Hab Hbc. repeat case_decide; rewrite ?Z.ltb_lt in *; try lia. by eapply flt_trans.
Qed.

Lemma group_key_code roots f k : group_key roots f = k → fd_Code f = k.1.1 ∧ root_of roots f = k.1.2.
Proof. by intros <-. Qed.

Lemma rollup_rolled roots k es : es ≠ [] → Forall (λ e, group_key roots e = k ∧ Partitions (fd_Params e) = 0) es → Z.of_nat (length es) < 2 ^ 63 →
  ∃ g, rollup roots es = Some g ∧ rolled roots k es g.
Proof.
  induction es as [|f es IH] using rev_ind; [done|]. intros _ [Hes Hf]%Forall_app Hb. apply list.Forall_singleton in Hf as [Hk Hz].
  apply group_key_code in Hk as [Hcode Hroot]. rewrite length_app in Hb. cbn [length] in Hb. destruct (decide (es = [])) as [->|Hne].
  - cbn [app rollup foldl]. eexists. split; [done|]. split; unfold first_of_group; rewrite Hroot; cbn [moved fd_Code fd_Params set_rollup Partitions UniqueNullable].
    + unfold self, moved. cbn. rewrite Hcode. by destruct k as [[? []] ?].
    + rewrite filter_cons, filter_nil. destruct (is_child roots f); [by rewrite decide_True|by rewrite decide_False].
    + cbn. by rewrite orb_false_r.
    + eexists f, _, _. split; [by left|]. split; [done|]. intros e ->%list_elem_of_singleton. apply worseThan_irrefl.
  - destruct (IH Hne Hes ltac:(lia)) as (b & Hb' & [Hadd Hpart Hnull (w & n & u & Hw & -> & Hworst)]). rewrite rollup_snoc, Hb' by done.
    cbn [fmap option_fmap option_map]. eexists. split; [done|]. unfold mergePartitionFinding. rewrite worseThan_moved.
    assert (Hself : self (moved w k.1.2 n u) = k.1.2) by (unfold self, moved; cbn; by destruct k as [[? []] ?]).
    rewrite Hself. set (n' := if is_child roots f then _ else _). set (u' := _ || _).
    assert (Hn : n' = Z.of_nat (length (filter (λ e, is_child roots e = true) (es ++ [f])))).
    { unfold n'. rewrite Hpart, filter_app, length_app, filter_cons, filter_nil. pose proof (length_filter (λ e, is_child roots e = true) es).
      destruct (is_child roots f); [rewrite decide_True by done|rewrite decide_False by done]; cbn [length]; [|lia].
      rewrite add64_small by (unfold int64, min64, max64; lia). lia. }
    assert (Hu : u' = existsb (λ e, UniqueNullable (fd_Params e)) (es ++ [f])).
    { unfold u'. rewrite Hnull, existsb_app. cbn. by rewrite orb_false_r. }
    assert (Hwk : fd_Code w = k.1.1).
    { rewrite list.Forall_forall in Hes. destruct (Hes w Hw) as [Hwk _]. by apply group_key_code in Hwk as [? _]. }
    destruct (worseThan f w) eqn:Hfw.
    + split; [unfold self, moved; cbn; rewrite Hcode; by destruct k as [[? []] ?]|exact Hn|exact Hu|].
      exists f, n', u'. split; [apply elem_of_app; right; by left|]. split; [done|].
      intros e [He| ->%list_elem_of_singleton]%elem_of_app; [|apply worseThan_irrefl].
      destruct (worseThan e f) eqn:Hef; [|done]. pose proof (worseThan_trans _ _ _ Hef Hfw) as Hx. by rewrite Hworst in Hx.
    + split; [unfold self, moved; cbn; rewrite Hwk; by destruct k as [[? []] ?]|exact Hn|exact Hu|].
      exists w, n', u'. split; [apply elem_of_app; by left|]. split; [done|].
      intros e [He| ->%list_elem_of_singleton]%elem_of_app; [by apply Hworst|done].
Qed.

Lemma split_slots roots l sl out : Forall2 (shows roots l) sl out →
  ∃ gs, out ≡ₚ omap kept_of sl ++ gs ∧ Forall2 (λ k g, rollup roots (group_members roots k l) = Some g) (omap group_of sl) gs.
Proof.
  induction 1 as [|s g sl out Hs _ (gs & Hp & Hall)]; [by exists []|]. destruct s as [f|k]; cbn in Hs |- *.
  - subst g. exists gs. split; [by constructor|done].
  - exists (g :: gs). split; [|by constructor]. by rewrite Hp, Permutation_middle.
Qed.

Lemma summarize_lookup l lv : Z.of_nat (length l) < 2 ^ 63 →
  summarize l !! level_string lv = Some (Z.of_nat (length (filter (λ f, fd_Level f = lv) l))).
Proof.
  induction l as [|f l IH] using rev_ind; intros Hb; [by destruct lv|]. rewrite length_app in Hb. cbn [length] in Hb. unfold summarize in *.
  rewrite foldl_snoc, filter_app, length_app, filter_cons, filter_nil. pose proof (length_filter (λ f, fd_Level f = lv) l).
  destruct (decide (fd_Level f = lv)) as [->|Hne]; cbn [length].
  - rewrite lookup_insert_eq, IH by lia. cbn. rewrite add64_small by (unfold int64, min64, max64; lia). f_equal. lia.
  - assert (Hs : level_string (fd_Level f) ≠ level_string lv) by (destruct (fd_Level f), lv; done). rewrite lookup_insert_ne, IH by (done || lia). f_equal. lia.
Qed.

Lemma collapse_shorter roots l : (length (collapsePartitions l roots) ≤ length l)%nat.
Proof.
  unfold collapsePartitions. induction l as [|f l IH] using rev_ind; [done|]. rewrite foldl_snoc, length_app. destruct (foldl _ _ l) as [out groups].
  cbn [fst length] in *. unfold collapse_step. destruct (negb _); cbn [fst]; [rewrite length_app; cbn; lia|].
  destruct (groups !! _); cbn [fst]; [rewrite length_alter|rewrite length_app]; cbn; lia.
Qed.

(** The parts of a report before suppression: the findings that are kept and those of the groups. *)
Lemma collapse_exact_parts roots l : Forall (λ f, Partitions (fd_Params f) = 0) l → Z.of_nat (length l) < 2 ^ 63 →
  ∃ gs, collapsePartitions l roots ≡ₚ filter (λ f, collapses f = false) l ++ gs ∧
    Forall2 (λ k g, rolled roots k (group_members roots k l) g) (firsts (group_key roots <$> filter folded l)) gs.
Proof.
  intros Hz Hb. unfold collapsePartitions. pose proof (collapse_collapsing roots l) as Hc. destruct (foldl _ _ l) as [out groups].
  destruct Hc as [Hs _]. destruct (split_slots _ _ _ _ Hs) as (gs & Hp & Hall). rewrite slots_kept in Hp. rewrite slots_groups in Hall. exists gs. split; [done|].
  apply Forall2_same_length_lookup. split; [by eapply Forall2_length|]. intros j k g Hk Hg.
  pose proof (Forall2_lookup_lr _ _ _ _ _ _ Hall Hk Hg) as Hr. apply list_elem_of_lookup_2 in Hk. rewrite elem_of_firsts in Hk.
  destruct (rollup_rolled roots k (group_members roots k l)) as (g' & Hg' & Hro).
  - intros Hm. unfold group_members in Hm. rewrite members_nil in Hm. by apply Hm.
  - apply list.Forall_forall. intros e [Hke He]%elem_of_members. split; [done|]. rewrite list.Forall_forall in Hz. apply Hz.
    by apply list_elem_of_filter in He as [_ He].
  - unfold group_members, members. pose proof (length_filter (λ a, group_key roots a = k) (filter folded l)). pose proof (length_filter folded l). lia.
  - congruence.
Qed.

(** A report is made of exactly the findings of its checks. Those of the checks that
    fold become one for each group, on partitions and off them ([group_key]: the check, the root and the one
    thing it is about, of which a pair has only its first: see [similar_pair_hidden]), which carries the numbers of the
    worst of them, counts the partitions and keeps every warning about nullable keys; the others stay.
    Ignored schemas are left out, the rest is in order, and the summary counts it by level. *)
Theorem BuildReport_exact `{GoText} cfg i :
  let raw := all_findings cfg i in let roots := PartitionRoots i in let r := BuildReport cfg i in
  Z.of_nat (length raw) < 2 ^ 63 →
  ∃ gs, Findings r ≡ₚ filter (λ f, ignoredSchema cfg (fd_Schema f) = false) (filter (λ f, collapses f = false) raw ++ gs) ∧
    Forall2 (λ k g, rolled roots k (group_members roots k raw) g) (firsts (group_key roots <$> filter folded raw)) gs ∧
    StronglySorted (not_less finding_less) (Findings r) ∧
    ∀ lv, rp_Summary r !! level_string lv = Some (Z.of_nat (length (filter (λ f, fd_Level f = lv) (Findings r)))).
Proof.
  intros raw roots r Hb. destruct (collapse_exact_parts roots raw) as (gs & Hp & Hall); [|done|].
  { apply list.Forall_forall. intros f Hf. by apply all_backed in Hf as [Hz _]. }
  assert (Hlen : (length (Findings r) ≤ length raw)%nat).
  { unfold r, BuildReport. cbn [Findings]. rewrite sort_slice_length. unfold applySuppression. etransitivity; [apply length_filter|]. apply collapse_shorter. }
  exists gs. split_and!; [|done|apply (sort_slice_sorted _)|].
  - unfold r, BuildReport. cbn [Findings]. rewrite sort_slice_perm. unfold applySuppression. fold raw roots. by rewrite Hp.
  - intros lv. unfold r, BuildReport. cbn [rp_Summary Findings]. apply summarize_lookup. change (Z.of_nat (length (Findings r)) < 2 ^ 63). lia.
Qed.

(** *** The account *)

Lemma collapse_codes roots l g : g ∈ collapsePartitions l roots → fd_Code g ∈ fd_Code <$> l.
Proof.
  unfold collapsePartitions. revert g. induction l as [|f l IH] using rev_ind; [by intros g ?%elem_of_nil|]. intros g.
  rewrite foldl_snoc, fmap_app. destruct (foldl _ _ l) as [out groups]. cbn [fst] in IH.
  assert (Hold : ∀ g, g ∈ out → fd_Code g ∈ (fd_Code <$> l) ++ (fd_Code <$> [f])) by (intros g' Hg'; apply elem_of_app; left; by apply IH).
  assert (Hnew : fd_Code f ∈ (fd_Code <$> l) ++ (fd_Code <$> [f])) by (apply elem_of_app; right; by left).
  unfold collapse_step. destruct (negb _); [|destruct (groups !! _) as [i|]]; cbn [fst].
  - intros [Hg| ->%list_elem_of_singleton]%elem_of_app; [by apply Hold|done].
  - intros (j & Hj)%list_elem_of_lookup. destruct (decide (i = j)) as [->|Hne].
    + rewrite list_lookup_alter_eq in Hj. destruct (out !! j) as [b|] eqn:Hb; [|done]. injection Hj as <-.
      apply list_elem_of_lookup_2, Hold in Hb. unfold mergePartitionFinding. destruct (worseThan f b); cbn; [exact Hnew|exact Hb].
    + rewrite list_lookup_alter_ne in Hj by done. by apply Hold, (list_elem_of_lookup_2 _ _ _ Hj).
  - intros [Hg| ->%list_elem_of_singleton]%elem_of_app; [by apply Hold|done].
Qed.

Lemma same_check c c' : c ∈ registry → c' ∈ registry → ck_Code c = ck_Code c' → c = c'.
Proof.
  intros (i & Hi)%list_elem_of_lookup (j & Hj)%list_elem_of_lookup Heq. assert (i = j) as <-; [|congruence].
  eapply NoDup_lookup; [apply registry_codes| |]; rewrite list_lookup_fmap; [by rewrite Hi|rewrite Hj; cbn; by rewrite Heq].
Qed.

Lemma registry_versions c : c ∈ registry → MinVersion c = MinSupportedVersion.
Proof. intros Hc. assert (Hall : Forall (λ c, MinVersion c = MinSupportedVersion) registry) by by repeat constructor. rewrite list.Forall_forall in Hall. by apply Hall. Qed.

Lemma roots_not_a_check : partitionRootsCode ∉ ck_Code <$> registry.
Proof. apply (bool_decide_eq_true_1 _). by vm_compute. Qed.

(** A plan and a check of its query. *)
Lemma elem_of_plan run q c : c ∈ Codes (plan_for run q) ↔ ∃ chk, chk ∈ run ∧ ck_Query chk = q ∧ ck_Code chk = c.
Proof.
  unfold plan_for. cbn [Codes]. rewrite list_elem_of_fmap. setoid_rewrite list_elem_of_filter. naive_solver.
Qed.

Section account.
Context `{GoText} (db : database) (cfg : Config) (version : Z).
Let i : Inputs := collectSchemaLint db cfg version.
Let run : list Check := filter (runnable cfg version) registry.

Lemma plan_of_check p : p ∈ (Plan cfg version).1 ↔ p ∈ plan_for run <$> firsts (ck_Query <$> run).
Proof using. pose proof (Plan_planned cfg version registry) as Hp. unfold Plan. destruct (Plan_of_checks _ _ _) as [[plans skips] index]. by destruct Hp as [-> _ _]. Qed.

Lemma plan_skips : (Plan cfg version).2 = omap (skip_of cfg version) registry.
Proof using. pose proof (Plan_planned cfg version registry) as Hp. unfold Plan. destruct (Plan_of_checks _ _ _) as [[plans skips] index]. by destruct Hp as [_ -> _]. Qed.

(** The reason a check has no findings: it cannot be run, or its query failed. *)
Definition silent (chk : Check) : Prop := ¬ runnable cfg version chk ∨ ∃ e, outcome db (ck_Query chk) = inl e.

Lemma silent_iff chk : chk ∈ registry → ck_Code chk ∈ sk_Code <$> in_Skipped i ↔ silent chk.
Proof using.
  intros Hchk. destruct (collect_rows db cfg version) as (j & more & [_ Hskips _] & _ & Hmore & Hcodes & _). fold i in Hmore.
  rewrite Hmore, Hskips, !fmap_app, !elem_of_app, plan_skips. unfold silent. split.
  - intros [[Hin|Hin]|Hin].
    + left. apply list_elem_of_fmap in Hin as (s & Hs & (c & Hc & Hsk)%list_elem_of_omap). unfold skip_of in Hsk. intros [He Hv].
      assert (c = chk) as ->; [|by rewrite He, decide_True in Hsk by done]. apply same_check; [done|done|].
      destruct (enabled cfg c); [case_decide; [done|]|]; injection Hsk as <-; by rewrite Hs.
    + right. apply list_elem_of_fmap in Hin as (s & Hs & Hin). apply list_elem_of_join in Hin as (l & Hl & Hin).
      apply list_elem_of_fmap in Hin as (p & -> & (q & -> & _)%plan_of_check%list_elem_of_fmap). cbn [plan_for qp_Query] in Hl.
      destruct (outcome db q) as [[r d]|] eqn:Ho; [|by apply not_elem_of_nil in Hl]. exists (r, d). rewrite <- Ho. f_equal.
      apply list_elem_of_fmap in Hl as (c & -> & (chk' & Hrun & <- & Hc)%elem_of_plan). f_equal. apply same_check; [done| |cbn in Hs; congruence].
      by apply list_elem_of_filter in Hrun as [_ ?].
    + destruct roots_not_a_check. apply list_elem_of_fmap in Hin as (s & Hs & Hin). rewrite list.Forall_forall in Hcodes. rewrite <- (Hcodes s Hin), <- Hs.
      by apply list_elem_of_fmap_2.
  - intros Hs. destruct (decide (runnable cfg version chk)) as [Hr|Hr].
    + destruct Hs as [?|[[r d] Ho]]; [done|]. left. right. assert (Hrun : chk ∈ run) by by apply list_elem_of_filter.
      apply list_elem_of_fmap. exists (mkSkip (ck_Code chk) r d 0). split; [done|]. apply list_elem_of_join.
      exists (skipForCodes (Codes (plan_for run (ck_Query chk))) r d). split.
      * unfold skipForCodes. apply list_elem_of_fmap. exists (ck_Code chk). split; [done|]. apply elem_of_plan. by exists chk.
      * apply list_elem_of_fmap. exists (plan_for run (ck_Query chk)). split; [cbn [plan_for qp_Query]; by rewrite Ho|]. apply plan_of_check, list_elem_of_fmap.
        exists (ck_Query chk). split; [done|]. by apply elem_of_firsts, list_elem_of_fmap_2.
    + left. left. assert (Hsk : ∃ s, skip_of cfg version chk = Some s ∧ sk_Code s = ck_Code chk).
      { unfold skip_of, runnable in *. destruct (enabled cfg chk); [rewrite decide_False by tauto|]; by eexists. }
      destruct Hsk as (s & Hsk & <-). apply list_elem_of_fmap_2, list_elem_of_omap. by exists chk.
Qed.

Lemma silent_no_rows chk : chk ∈ registry → enabled cfg chk = true → silent chk → only (ck_Query chk) i = no_rows.
Proof using.
  intros Hchk He Hs. destruct (collect_rows db cfg version) as (j & more & [Hrows _ _] & Honly & _). fold i in Honly. rewrite Honly, Hrows.
  unfold rows_read. case_decide as Hq; [|done]. destruct Hs as [Hr|[e ->]]; [|done]. exfalso.
  apply list_elem_of_fmap in Hq as (p & Hq & (q & -> & Hin)%plan_of_check%list_elem_of_fmap). cbn in Hq. subst q.
  rewrite elem_of_firsts in Hin. apply list_elem_of_fmap in Hin as (c & _ & [Hrun Hc]%list_elem_of_filter). apply Hr. split; [done|].
  destruct Hrun as [_ Hv]. unfold supported in *. by rewrite (registry_versions _ Hchk), <- (registry_versions _ Hc).
Qed.

Lemma loud_rows chk : chk ∈ registry → ¬ silent chk →
  ∃ s tr, outcome db (ck_Query chk) = inr (s, tr) ∧ only (ck_Query chk) i = s ∧ (tr = true → in_Truncated i = true).
Proof using.
  intros Hchk Hns. destruct (decide (runnable cfg version chk)) as [Hr|Hr]; [|by destruct Hns; left].
  destruct (collect_rows db cfg version) as (j & more & [Hrows _ Htr] & Honly & _ & _ & Ht). fold i in Honly, Ht.
  assert (Hrun : chk ∈ run) by by apply list_elem_of_filter.
  assert (Hp : plan_for run (ck_Query chk) ∈ (Plan cfg version).1).
  { apply plan_of_check, list_elem_of_fmap. exists (ck_Query chk). split; [done|]. by apply elem_of_firsts, list_elem_of_fmap_2. }
  destruct (outcome db (ck_Query chk)) as [e|[s tr]] eqn:Ho; [destruct Hns; right; by exists e|]. exists s, tr. split; [done|]. split.
  - rewrite Honly, Hrows. unfold rows_read. rewrite decide_True, Ho by (apply (list_elem_of_fmap_2 qp_Query _ _ Hp)). done.
  - intros ->. apply Ht. rewrite Htr. apply existsb_exists. exists (plan_for run (ck_Query chk)). split; [by apply list_elem_of_In|]. cbn [plan_for qp_Query]. by rewrite Ho.
Qed.
End account.

(** No check is missing from a report without a word: one that is not listed as skipped is enabled
    and has all the rows of its query among the inputs the report is built of, and is marked as truncated
    when the query's answer was cut short; and one that is listed, as disabled, unsupported or failed, has none of its findings in it. *)
Theorem checks_accounted `{GoText} db cfg version :
  let i := collectSchemaLint db cfg version in let r := schemaLintReportForPool db cfg version in
  (∀ s, s ∈ in_Skipped i → s ∈ Skipped r) ∧
  ∀ chk, chk ∈ registry →
    if decide (ck_Code chk ∈ sk_Code <$> in_Skipped i) then ∀ f, f ∈ Findings r → fd_Code f ≠ ck_Code chk
    else enabled cfg chk = true ∧ ∃ rows tr, runSchemaLintQuery db (ck_Query chk) no_rows = inr (rows, tr) ∧ only (ck_Query chk) i = rows ∧
      (tr = true → Truncated r = true).
Proof.
  intros i r. split.
  - intros s Hs. unfold r, schemaLintReportForPool, BuildReport. cbn [Skipped]. rewrite elem_of_sort_slice. apply elem_of_app. by left.
  - intros chk Hchk. case_decide as Hsk; [|].
    + unfold i in Hsk. rewrite silent_iff in Hsk by done. intros f Hf Heq. unfold r, schemaLintReportForPool, BuildReport in Hf. cbn [Findings] in Hf.
      rewrite elem_of_sort_slice in Hf. apply list_elem_of_filter in Hf as [_ Hf]. apply collapse_codes, list_elem_of_fmap in Hf as (e & Hcode & He).
      apply all_backed in He as (_ & c & Hc & Hce & Hen & Hrows). assert (c = chk) as -> by (apply same_check; [done|done|congruence]).
      by apply Hrows, silent_no_rows.
    + unfold i in Hsk. rewrite silent_iff in Hsk by done. split.
      * destruct (enabled cfg chk) eqn:He; [done|]. destruct Hsk. left. intros [Hen _]. congruence.
      * destruct (loud_rows db cfg version chk Hchk Hsk) as (s & tr & Ho & Honly & Ht). exists s, tr. split; [|done].
        unfold outcome in Ho. destruct (negb _); [done|]. revert Ho. destruct (runSchemaLintQuery _ _ _); congruence.
Qed.

(** A database where one query may not be run and another is cut short by the server. *)
Definition small_db : database :=
  mkDatabase (λ q, bool_decide (q ≠ QueryIndexesBtreeOnArray))
    (λ q, if decide (q = QuerySchemaLintRelationsWithoutKey) then inr (mkAnswer [RawRelationKey (mkRelationKey "s" "t_1" false false);
                                                                           RawRelationKey (mkRelationKey "s" "t_2" false false);
                                                                           RawRelationKey (mkRelationKey "s" "u" true true)] None)
          else if decide (q = QuerySchemaLintSequencesUsage) then inl (PgError "42501") else inr (mkAnswer [] None))
    (inr (mkRoots [(("s", "t_1"), ("s", "t")); (("s", "t_2"), ("s", "t"))] None)).
Definition default_config : Config := mkConfig [] [] [] ∅ 0.
Definition ascii_text : GoText := Build_GoText (λ _, None) (λ _, None) id (λ a b, bool_decide (a = b)).

Lemma BuildReport_exact_witness :
  let i := collectSchemaLint small_db default_config 160000 in let r := BuildReport (H := ascii_text) default_config i in
  (λ f, (fd_Code f, fd_Object f, Partitions (fd_Params f))) <$> Findings r = [(CodeNoPrimaryKey, "u", 0); (CodeNoUniqueKey, "t", 2)] ∧
  (λ s, (sk_Code s, skip_string (sk_Reason s), sk_Detail s)) <$> filter (λ s, sk_Reason s ≠ SkipDisabled) (Skipped r) =
    [(CodeBtreeOnArray, "error", "template unavailable"); (CodeSequenceExhaustion, "insufficient_privileges", "SQLSTATE 42501")] ∧
  StronglySorted (not_less finding_less) (Findings r).
Proof.
  cbv zeta. split; [by vm_compute|]. split; [by vm_compute|].
  by destruct (@BuildReport_exact ascii_text default_config (collectSchemaLint small_db default_config 160000) ltac:(by vm_compute)) as (gs & _ & _ & Hs & _).
Defined.
