(* ===== verification/MetricSignals.v ===== *)
(** * [internal/metrics]: signals and trends ([signals.go], [score.go], [baseline.go],
    [dips.go], [history.go])

    A datasource's readings at one instant are [Signals]; what it does not carry stays
    absent and reads as healthy in the metrics of the score. The readings of a long window
    make a score at every instant, a median per hour of the week, and the dips below it. *)

From S2P Require Import Prelude GoFloat GoFloatOrder GoFmt Health.
From stdpp Require Import options.

#[local] Open Scope string_scope.
#[local] Open Scope Z_scope.
#[local] Open Scope list_scope.

(** ** Signals *)

Abbreviation SignalKind := string (only parsing).

Definition SigLatencyMs : SignalKind := "latency_ms".
Definition SigCacheHitRatio : SignalKind := "cache_hit_ratio".
Definition SigLoadAvg15 : SignalKind := "load_avg_15".
Definition SigNumVCPU : SignalKind := "num_vcpu".
Definition SigTotalConns : SignalKind := "total_connections".
Definition SigActiveConns : SignalKind := "active_connections".
Definition SigIdleInTx : SignalKind := "idle_in_transaction".
Definition SigMaxConns : SignalKind := "max_connections".
Definition SigPoolerClients : SignalKind := "pooler_client_conns".
Definition SigPoolerServers : SignalKind := "pooler_server_conns".
Definition SigPoolerPoolSize : SignalKind := "pooler_pool_size".
Definition SigMaxBloatRatio : SignalKind := "max_bloat_ratio".
Definition SigMaxDeadRatio : SignalKind := "max_dead_ratio".
Definition SigAvgDeadRatio : SignalKind := "avg_dead_ratio".
Definition SigHotUpdateRatio : SignalKind := "hot_update_ratio".
Definition SigDeadlocksTotal : SignalKind := "deadlocks_total".
Definition SigDiskUsedRatio : SignalKind := "disk_used_ratio".
Definition SigSeqScanRate : SignalKind := "seq_scan_tup_rate".
Definition SigXactsLeftWrap : SignalKind := "xacts_left_before_wraparound".
Definition SigAutovacuumOff : SignalKind := "autovacuum_off".
Definition SigTrackCountsOff : SignalKind := "track_counts_off".
Definition SigReplLagBytes : SignalKind := "repl_lag_bytes".
Definition SigReplLagSeconds : SignalKind := "repl_lag_seconds".
Definition SigCheckpointsReqRate : SignalKind := "checkpoints_req_rate".
Definition SigCheckpointsAllRate : SignalKind := "checkpoints_all_rate".
Definition SigTimedCheckpoints : SignalKind := "timed_checkpoints".
Definition SigRequestedCheckpoints : SignalKind := "requested_checkpoints".
Definition SigLocksNotGranted : SignalKind := "locks_not_granted".
Definition SigActiveLockWaiters : SignalKind := "active_lock_waiters".
Definition SigChecksumFailRate : SignalKind := "checksum_failures_rate".
Definition SigSeqExhaustionMax : SignalKind := "sequence_exhaustion_max".
Definition SigTypeExhaustionMax : SignalKind := "datatype_exhaustion_max".

(** A Dasha instance ([batch.go]). *)
Record TargetRef := mkTarget { Cluster : string; Instance_ : string }.

#[global] Instance TargetRef_eq_dec : EqDecision TargetRef.
Proof. solve_decision. Defined.

#[global] Instance TargetRef_countable : Countable TargetRef.
Proof.
  apply (inj_countable' (λ t, (Cluster t, Instance_ t)) (λ p, mkTarget p.1 p.2)). by intros [].
Defined.

(** A nil map reads as an empty one, so [Value] and [Have] are maps in either case. *)
Record Signals := mkSignals { At : time; Value : gmap string float; Have : gmap string bool }.

Definition NewSignals (t : time) : Signals := mkSignals t ∅ ∅.

Definition Set_ (s : Signals) (k : SignalKind) (v : float) : Signals :=
  mkSignals (At s) (<[k := v]> (Value s)) (<[k := true]> (Have s)).

Definition Has (s : Signals) (k : SignalKind) : bool := default false (Have s !! k).

(** The value and [true], that is. *)
Definition Get (s : Signals) (k : SignalKind) : option float :=
  match Value s !! k with
  | Some v => if Has s k then Some v else None
  | None => None
  end.

(** [if v, ok := s.Get(k); ok { field = f(v) }] on a field that is [d] before. *)
Definition reading {A} (s : Signals) (k : SignalKind) (d : A) (f : float → A) : A :=
  match Get s k with Some v => f v | None => d end.

(** ** The score's input *)

Definition wraparoundXidLimit : Z := 2146483648.

Definition xid_age (left : float) : Z := Z.max (wraparoundXidLimit ⊟ to_int left) 0.

Definition ToRawMetrics (s : Signals) : RawMetrics := {|
  InRecovery := false; Database := ""; MetricsInstanceWide := false; SnapshotBackedRules := ∅;
  TotalConnections := reading s SigTotalConns 0 to_int;
  ActiveConnections := reading s SigActiveConns 0 to_int;
  IdleInTransaction := reading s SigIdleInTx 0 to_int;
  IdleInTransactionDatabase := ""; LongestTransactionSeconds := 0%float; LongestTransactionDatabase := "";
  MaxConnections := reading s SigMaxConns 0 to_int;
  CacheHitRatio := reading s SigCacheHitRatio 100%float id;
  CacheSampleBlocks := 0; TrackIoTimingEnabled := true;
  MaxDeadRatio := reading s SigMaxDeadRatio 0%float id;
  AvgDeadRatio := reading s SigAvgDeadRatio 0%float id;
  TablesHighBloat := 0;
  ReplicaCount := reading s SigReplLagBytes (reading s SigReplLagSeconds 0 (λ _, 1)) (λ _, 1);
  MaxReplayLagSeconds := reading s SigReplLagSeconds 0%float id;
  MaxLagBytes := reading s SigReplLagBytes 0 to_int;
  DisconnectedReplicas := 0;
  MaxXidAge := reading s SigXactsLeftWrap 0 xid_age;
  VacuumBacklogTables := 0; MaxOverdueVacuumAgeHours := 0%float; TablesNeverVacuumed := 0;
  AutovacuumEnabled := reading s SigAutovacuumOff true (λ v, negb (0 <? v)%float);
  TrackCountsEnabled := reading s SigTrackCountsOff true (λ v, negb (0 <? v)%float);
  TablesWithAutovacuumOff := 0; MaxRelfrozenxidAge := 0; ColdMaxRelfrozenxidAge := 0;
  ColdFreezeRatio := 0%float; Cold := None; HorizonLagXids := 0; HorizonDatabase := "";
  TimedCheckpoints := reading s SigTimedCheckpoints 0 to_int;
  RequestedCheckpoints := reading s SigRequestedCheckpoints 0 to_int;
  ActiveLockWaiters := reading s SigActiveLockWaiters 0 to_int;
  LongestLockWaitSeconds := 0%float;
  UngrantedLocks := reading s SigLocksNotGranted 0 to_int;
  DeadlocksTotal := reading s SigDeadlocksTotal 0 to_int;
  HeavyweightLocksTotal := 0; MaxLocksPerTransaction := 0;
  HotUpdateRatio := reading s SigHotUpdateRatio 1%float id;
  NewpageUpdateRatio := 0%float; StalePlannerStatsTables := 0; WalLevel := ""; LogicalSlotsActive := 0;
  WalLevelManaged := false; SequenceThresholds := ∅;
  LoadAvg15 := reading s SigLoadAvg15 0%float id;
  NumVCPU := reading s SigNumVCPU 0%float id;
  PoolerServerConns := reading s SigPoolerServers 0%float id;
  PoolerPoolSize := reading s SigPoolerPoolSize 0%float id;
  ChecksumFailuresRate := reading s SigChecksumFailRate 0%float id;
  SequenceExhaustionMax := reading s SigSeqExhaustionMax 0%float id;
  LatencyRegressionRatio := 0%float; SeqScanRegressionRatio := 0%float;
  DiskUsedRatio := reading s SigDiskUsedRatio 0%float id
|}.

Record Baselines := mkBaselines { Latency : float; SeqScan : float }.

(** [m] with the ratios of latency and sequential scans to their baselines. *)
Definition with_regressions (m : RawMetrics) (latency seqScan : float) : RawMetrics := {|
  InRecovery := InRecovery m; Database := Database m; MetricsInstanceWide := MetricsInstanceWide m;
  SnapshotBackedRules := SnapshotBackedRules m; TotalConnections := TotalConnections m;
  ActiveConnections := ActiveConnections m; IdleInTransaction := IdleInTransaction m;
  IdleInTransactionDatabase := IdleInTransactionDatabase m;
  LongestTransactionSeconds := LongestTransactionSeconds m;
  LongestTransactionDatabase := LongestTransactionDatabase m; MaxConnections := MaxConnections m;
  CacheHitRatio := CacheHitRatio m; CacheSampleBlocks := CacheSampleBlocks m;
  TrackIoTimingEnabled := TrackIoTimingEnabled m; MaxDeadRatio := MaxDeadRatio m;
  AvgDeadRatio := AvgDeadRatio m; TablesHighBloat := TablesHighBloat m; ReplicaCount := ReplicaCount m;
  MaxReplayLagSeconds := MaxReplayLagSeconds m; MaxLagBytes := MaxLagBytes m;
  DisconnectedReplicas := DisconnectedReplicas m; MaxXidAge := MaxXidAge m;
  VacuumBacklogTables := VacuumBacklogTables m; MaxOverdueVacuumAgeHours := MaxOverdueVacuumAgeHours m;
  TablesNeverVacuumed := TablesNeverVacuumed m; AutovacuumEnabled := AutovacuumEnabled m;
  TrackCountsEnabled := TrackCountsEnabled m; TablesWithAutovacuumOff := TablesWithAutovacuumOff m;
  MaxRelfrozenxidAge := MaxRelfrozenxidAge m; ColdMaxRelfrozenxidAge := ColdMaxRelfrozenxidAge m;
  ColdFreezeRatio := ColdFreezeRatio m; Cold := Cold m; HorizonLagXids := HorizonLagXids m;
  HorizonDatabase := HorizonDatabase m; TimedCheckpoints := TimedCheckpoints m;
  RequestedCheckpoints := RequestedCheckpoints m; ActiveLockWaiters := ActiveLockWaiters m;
  LongestLockWaitSeconds := LongestLockWaitSeconds m; UngrantedLocks := UngrantedLocks m;
  DeadlocksTotal := DeadlocksTotal m; HeavyweightLocksTotal := HeavyweightLocksTotal m;
  MaxLocksPerTransaction := MaxLocksPerTransaction m; HotUpdateRatio := HotUpdateRatio m;
  NewpageUpdateRatio := NewpageUpdateRatio m; StalePlannerStatsTables := StalePlannerStatsTables m;
  WalLevel := WalLevel m; LogicalSlotsActive := LogicalSlotsActive m; WalLevelManaged := WalLevelManaged m;
  SequenceThresholds := SequenceThresholds m; LoadAvg15 := LoadAvg15 m; NumVCPU := NumVCPU m;
  PoolerServerConns := PoolerServerConns m; PoolerPoolSize := PoolerPoolSize m;
  ChecksumFailuresRate := ChecksumFailuresRate m; SequenceExhaustionMax := SequenceExhaustionMax m;
  LatencyRegressionRatio := latency; SeqScanRegressionRatio := seqScan; DiskUsedRatio := DiskUsedRatio m
|}.

(** The current value over its baseline, where both are positive. *)
Definition regression (s : Signals) (k : SignalKind) (base : float) : float :=
  if (0 <? base)%float then reading s k 0%float (λ v, if (0 <? v)%float then (v / base)%float else 0%float)
  else 0%float.

Definition rawWithRegression (s : Signals) (b : Baselines) : RawMetrics :=
  with_regressions (ToRawMetrics s) (regression s SigLatencyMs (Latency b)) (regression s SigSeqScanRate (SeqScan b)).

Definition ScoreFromSignalsBase (s : Signals) (w : Weights) (b : Baselines) : Result :=
  CalculateWithWeights (rawWithRegression s b) w.

Definition ScoreFromSignals (s : Signals) (w : Weights) : Result := ScoreFromSignalsBase s w (mkBaselines 0 0).

(** ** Seasonal baselines *)

Record SeriesPoint := mkSeriesPoint { p_Time : time; p_Value : float }.

Definition hours_of_week : nat := 168.

(** [b_Values] and [b_Count] are the arrays of the 168 hours of a week. *)
Record Baseline := mkBaseline { ByHourOfWeek : list float; Count : list Z; Enough : bool }.

(** The epoch was a Thursday; a week begins on Sunday. *)
Definition hourOfWeek (t : time) : nat := Z.to_nat ((t / (24 * Hour) + 4) mod 7 * 24 + t mod (24 * Hour) / Hour).

Definition median (vals : list float) : float :=
  match vals with
  | [] => 0%float
  | _ =>
      let s := sort_slice float_less vals in
      let n := length s in
      if Nat.eqb (Nat.modulo n 2) 1 then default 0%float (s !! Nat.div n 2)
      else ((default 0%float (s !! (Nat.div n 2 - 1)%nat) + default 0%float (s !! Nat.div n 2)) / 2)%float
  end.

Definition add_point (buckets : list (list float)) (p : SeriesPoint) : list (list float) :=
  alter (λ b, b ++ [p_Value p]) (hourOfWeek (p_Time p)) buckets.

Definition BuildBaseline (points : list SeriesPoint) (minPoints : Z) : Baseline :=
  let buckets := foldl add_point (replicate hours_of_week []) points in
  mkBaseline ((λ b : list float, match b with [] => 0%float | _ => median b end) <$> buckets)
    ((λ b : list float, Z.of_nat (length b)) <$> buckets)
    ((minPoints <=? Z.of_nat (length points)) && (0 <? minPoints)).

(** The index is in range: [hourOfWeek_range]. *)
Definition Value_at (b : Baseline) (t : time) : option float :=
  if negb (Enough b) then None
  else
    let h := hourOfWeek t in
    if default 0 (Count b !! h) =? 0 then None else Some (default 0%float (ByHourOfWeek b !! h)).

(** ** Dips *)

Record Dip := mkDip { d_Time : time; d_Value : float; d_Baseline : float; d_Drop : float }.

Definition dip_of (b : Baseline) (minDrop : float) (p : SeriesPoint) : option Dip :=
  match Value_at b (p_Time p) with
  | None => None
  | Some base =>
      let drop := (base - p_Value p)%float in
      if (minDrop <? drop)%float then Some (mkDip (p_Time p) (p_Value p) base drop) else None
  end.

Definition DetectScoreDips (points : list SeriesPoint) (b : Baseline) (minDrop : float) : list Dip :=
  if negb (Enough b) || (minDrop <=? 0)%float then [] else omap (dip_of b minDrop) points.

(** ** The trend *)

Record ScorePoint := mkScorePoint {
  pt_Time : time; pt_Score : float; pt_Categories : gmap string float; LatencyMs : float
}.
Record History := mkHistory {
  Points : list ScorePoint; h_Baseline : list SeriesPoint; Dips : list Dip; BaselineEnough : bool
}.

Definition category_string (c : Category) : string :=
  match c with
  | CategoryConnections => "connections"
  | CategoryPerformance => "performance"
  | CategoryStorage => "storage"
  | CategoryReplication => "replication"
  | CategoryMaintenance => "maintenance"
  | CategoryHorizon => "horizon"
  | CategoryWalCheckpoint => "wal_checkpoint"
  | CategoryLocks => "locks"
  end.

(** The readings of one signal. *)
Definition series_of (k : SignalKind) (sigs : list Signals) : list SeriesPoint :=
  omap (λ s, mkSeriesPoint (At s) <$> Get s k) sigs.

Definition categories_map (r : Result) : gmap string float :=
  foldl (λ m c, <[category_string (Name c) := Score c]> m) ∅ (Categories r).

Definition score_point (latBase seqBase : Baseline) (w : Weights) (s : Signals) : ScorePoint :=
  let b := mkBaselines (default 0%float (Value_at latBase (At s))) (default 0%float (Value_at seqBase (At s))) in
  let res := ScoreFromSignalsBase s w b in
  mkScorePoint (At s) (r_Score res) (categories_map res) (default 0%float (Get s SigLatencyMs)).

Definition series_point (p : ScorePoint) : SeriesPoint := mkSeriesPoint (pt_Time p) (pt_Score p).

Definition displayed (from to : time) (p : ScorePoint) : bool :=
  negb (time_before (pt_Time p) from || time_after (pt_Time p) to).

Definition buildHistory (sigs : list Signals) (from to : time) (minPoints : Z) (scoreDipPts : float) (w : Weights) :
  History :=
  let latBase := BuildBaseline (series_of SigLatencyMs sigs) minPoints in
  let seqBase := BuildBaseline (series_of SigSeqScanRate sigs) minPoints in
  let full := score_point latBase seqBase w <$> sigs in
  let base := BuildBaseline (series_point <$> full) minPoints in
  let disp := filter (displayed from to) full in
  mkHistory disp (omap (λ p, mkSeriesPoint (pt_Time p) <$> Value_at base (pt_Time p)) disp)
    (DetectScoreDips (series_point <$> disp) base scoreDipPts) (Enough base).

(** [History]: what it asks of the datasource, and the number of points a baseline needs. *)
Definition history_start (window : duration) (from to : time) : time :=
  let start := time_add to (- window) in if time_before from start then from else start.

Definition history_step (step : duration) : duration := if step <=? 0 then 5 * Minute else step.

Definition history_points (minHistory step : duration) : Z := Z.max 1 (div64 (minHistory ⊞ step ⊟ 1) step).

(** ** Examples *)

Definition monday_nine (week : Z) : time := (week * 7 + 4) * (24 * Hour) + 9 * Hour.

Example monday_hour : hourOfWeek (monday_nine 0) = 33%nat ∧ hourOfWeek 0 = 96%nat.
Proof. by vm_compute. Qed.

Example median_values : median [3; 1; 2]%float = 2%float ∧ median [4; 1; 2; 3]%float = 2.5%float.
Proof. by vm_compute. Qed.

(** The signals of an instance with [conns] connections of 100, no series of locks. *)
Definition conns_at (conns : float) (week : Z) : Signals :=
  Set_ (Set_ (NewSignals (monday_nine week)) SigTotalConns conns) SigMaxConns 100.

Definition sample_signals : list Signals := [conns_at 10 0; conns_at 10 1; conns_at 99 2].

Example sample_trend :
  let h := buildHistory sample_signals (monday_nine 2) (monday_nine 2) 3 10 DefaultWeights in
  (pt_Score <$> Points h, p_Value <$> h_Baseline h, map (fmt_fixed 1) (d_Drop <$> Dips h)) =
  ([83.4%float], [100%float], ["16.6"]).
Proof. by vm_compute. Qed.

(** ** Hours of the week *)

Lemma hourOfWeek_range t : (hourOfWeek t < hours_of_week)%nat.
Proof.
  unfold hourOfWeek, hours_of_week. pose proof (Z.mod_pos_bound (t / (24 * Hour) + 4) 7 ltac:(lia)) as Hd.
  pose proof (Z.mod_pos_bound t (24 * Hour) ltac:(done)) as Ht.
  assert (t mod (24 * Hour) / Hour < 24) by (apply Z.div_lt_upper_bound; [done|lia]).
  assert (0 ≤ t mod (24 * Hour) / Hour) by (apply Z.div_pos; [lia|done]). lia.
Qed.

(** A week later it is the same hour of the week. *)
Lemma hourOfWeek_weekly t n : hourOfWeek (t + n * (7 * (24 * Hour))) = hourOfWeek t.
Proof.
  unfold hourOfWeek. replace (t + n * (7 * (24 * Hour))) with (t + (n * 7) * (24 * Hour)) by lia.
  rewrite Z.div_add, Z_mod_plus_full by done. replace (t / (24 * Hour) + n * 7 + 4) with (t / (24 * Hour) + 4 + n * 7) by lia.
  by rewrite Z_mod_plus_full.
Qed.

(** ** The median *)

Lemma sorted_below {A} (less : A → A → bool) `{!StrictWeak less} l k x :
  StronglySorted (not_less less) l → l !! k = Some x → (length (filter (λ y, less y x) l) ≤ k)%nat.
Proof.
  intros Hs Hk. rewrite <- (take_drop k l), filter_app, length_app.
  rewrite (filter_none _ (drop k l)).
  - cbn. pose proof (length_filter (λ y, less y x) (take k l)) as Hl. rewrite length_take in Hl. cbn in *. lia.
  - apply list.Forall_forall. intros y Hy. apply list_elem_of_lookup in Hy as [i Hi]. rewrite lookup_drop in Hi.
    destruct i as [|i].
    + rewrite Nat.add_0_r in Hi. simplify_eq. intros Hxx%Is_true_true. pose proof (less_asym _ _ Hxx). congruence.
    + assert (not_less less x y) as Hn by (eapply StronglySorted_lookup; [done|exact Hk|exact Hi|lia]).
      unfold not_less in Hn. cbn. intros Hxy%Is_true_true. congruence.
Qed.

Lemma sorted_above {A} (less : A → A → bool) `{!StrictWeak less} l k x :
  StronglySorted (not_less less) l → l !! k = Some x →
  (length (filter (λ y, less x y) l) + k < length l)%nat.
Proof.
  intros Hs Hk. pose proof (lookup_lt_Some _ _ _ Hk) as Hlt.
  rewrite <- (take_drop (S k) l) at 1. rewrite filter_app, length_app. rewrite (filter_none _ (take (S k) l)).
  - cbn. pose proof (length_filter (λ y, less x y) (drop (S k) l)) as Hl. rewrite length_drop in Hl. cbn in *. lia.
  - apply list.Forall_forall. intros y Hy. apply list_elem_of_lookup in Hy as [i Hi].
    apply lookup_take_Some in Hi as [Hi Hik].
    destruct (decide (i = k)) as [->|Hne].
    + simplify_eq. intros Hyy%Is_true_true. pose proof (less_asym _ _ Hyy). congruence.
    + assert (not_less less y x) as Hn by (eapply StronglySorted_lookup; [done|exact Hi|exact Hk|lia]).
      unfold not_less in Hn. cbn. intros Hxy%Is_true_true. congruence.
Qed.

(** The middle of the values: the fewer half lies below and above it; an even number
    of values has two middles, and the median is half their sum. *)
Definition middle (vals : list float) (lo hi : float) : Prop :=
  lo ∈ vals ∧ hi ∈ vals ∧ float_less hi lo = false ∧
  (2 * length (filter (λ v, float_less v lo) vals) < length vals)%nat ∧
  (2 * length (filter (λ v, float_less hi v) vals) < length vals)%nat.

Lemma middle_sorted vals i j : let s := sort_slice float_less vals in
  (i ≤ j)%nat → (2 * i < length s)%nat → (length s < 2 * j + 2)%nat → (j < length s)%nat →
  middle vals (default 0%float (s !! i)) (default 0%float (s !! j)).
Proof.
  cbn zeta. set (s := sort_slice float_less vals). intros Hij Hi Hj Hjl.
  assert (Hp : s ≡ₚ vals) by apply sort_slice_perm. assert (Hs : StronglySorted (not_less float_less) s) by apply (sort_slice_sorted _).
  destruct (lookup_lt_is_Some_2 s i ltac:(lia)) as [lo Hlo]. destruct (lookup_lt_is_Some_2 s j ltac:(lia)) as [hi Hhi].
  rewrite Hlo, Hhi. cbn [default id]. unfold middle. rewrite <- !Hp. split_and!.
  - by apply list_elem_of_lookup_2 in Hlo.
  - by apply list_elem_of_lookup_2 in Hhi.
  - destruct (decide (i = j)) as [->|Hne].
    + simplify_eq. apply not_true_is_false. intros Hxx. pose proof (less_asym _ _ Hxx). congruence.
    + by eapply (StronglySorted_lookup (not_less float_less) s i j); [done..|lia].
  - pose proof (sorted_below float_less s i lo Hs Hlo) as Hc. lia.
  - pose proof (sorted_above float_less s j hi Hs Hhi). lia.
Qed.

Lemma median_middle vals : vals ≠ [] → ∃ lo hi, middle vals lo hi ∧
  (median vals = lo ∨ Nat.Even (length vals) ∧ median vals = ((lo + hi) / 2)%float).
Proof.
  intros Hne. assert (Hl : length vals ≠ 0%nat) by by destruct vals. unfold median. destruct vals as [|v0 vals0]; [done|].
  set (vals := v0 :: vals0) in *. pose proof (middle_sorted vals) as Hm. cbn zeta in Hm.
  assert (Hlen : length (sort_slice float_less vals) = length vals) by by rewrite sort_slice_perm.
  destruct (Nat.eqb_spec (length (sort_slice float_less vals) mod 2) 1) as [Ho|He].
  all: pose proof (Nat.div_mod_eq (length (sort_slice float_less vals)) 2) as Hdm.
  - eexists _, _. split; [apply (Hm (Nat.div (length (sort_slice float_less vals)) 2) (Nat.div (length (sort_slice float_less vals)) 2)); lia|by left].
  - pose proof (Nat.mod_upper_bound (length (sort_slice float_less vals)) 2 ltac:(lia)) as Hub.
    eexists _, _. split; [apply (Hm (Nat.div (length (sort_slice float_less vals)) 2 - 1)%nat (Nat.div (length (sort_slice float_less vals)) 2)); lia|].
    right. split; [|done]. exists (Nat.div (length (sort_slice float_less vals)) 2). lia.
Qed.

(** ** A baseline is a median per hour of the week *)

(** The values of [points] at the hour of the week of [t]. *)
Definition same_hour (t : time) (points : list SeriesPoint) : list float :=
  p_Value <$> filter (λ p, hourOfWeek (p_Time p) = hourOfWeek t) points.

(** The median of these, when there are [n] points or more. *)
Definition seasonal (n : Z) (points : list SeriesPoint) (t : time) : option float :=
  if decide (0 < n ≤ Z.of_nat (length points) ∧ same_hour t points ≠ []) then Some (median (same_hour t points))
  else None.

Lemma add_points_lookup points t :
  foldl add_point (replicate hours_of_week []) points !! hourOfWeek t = Some (same_hour t points).
Proof.
  unfold same_hour. induction points as [|p points IH] using rev_ind; cbn [foldl].
  - rewrite lookup_replicate_2 by apply hourOfWeek_range. done.
  - rewrite foldl_app. cbn [foldl]. unfold add_point at 1. rewrite filter_app, fmap_app.
    destruct (decide (hourOfWeek (p_Time p) = hourOfWeek t)) as [Heq|Hne].
    + by rewrite Heq, list_lookup_alter_eq, IH, filter_cons_True, filter_nil.
    + by rewrite list_lookup_alter_ne, IH, filter_cons_False, filter_nil, app_nil_r by done.
Qed.

Lemma BuildBaseline_value points n t : Value_at (BuildBaseline points n) t = seasonal n points t.
Proof.
  unfold Value_at, BuildBaseline, seasonal. cbn [Enough Count ByHourOfWeek].
  rewrite !list_lookup_fmap, add_points_lookup. cbn [fmap option_fmap option_map default from_option id].
  destruct (Z.leb_spec n (Z.of_nat (length points))), (Z.ltb_spec 0 n); cbn [andb negb].
  2-4: rewrite decide_False by lia; done.
  destruct (same_hour t points) as [|v vs]; cbn [length].
  - by rewrite decide_False by naive_solver.
  - rewrite decide_True by (split; [lia|done]). destruct (Z.eqb_spec (Z.of_nat (S (length vs))) 0); [lia|done].
Qed.

(** A point a whole number of weeks away is of the same season. *)
Lemma seasonal_weekly n points t k : seasonal n points (t + k * (7 * (24 * Hour))) = seasonal n points t.
Proof. unfold seasonal, same_hour. by rewrite hourOfWeek_weekly. Qed.

(** ** The trend *)

Lemma DetectScoreDips_spec points n series minDrop d :
  d ∈ DetectScoreDips points (BuildBaseline series n) minDrop ↔
    (0 < n ≤ Z.of_nat (length series)) ∧ (minDrop <=? 0)%float = false ∧
    ∃ p base, p ∈ points ∧ seasonal n series (p_Time p) = Some base ∧ (minDrop <? base - p_Value p)%float = true ∧
      d = mkDip (p_Time p) (p_Value p) base (base - p_Value p)%float.
Proof.
  unfold DetectScoreDips. cbn [Enough BuildBaseline].
  destruct (Z.leb_spec n (Z.of_nat (length series))), (Z.ltb_spec 0 n), (minDrop <=? 0)%float; cbn [andb negb orb].
  all: try (split; [by intros ?%not_elem_of_nil|]; intros (? & ? & _); lia || done).
  rewrite list_elem_of_omap. split.
  - intros (p & Hp & Hd). split_and!; [lia..|done|]. revert Hd. unfold dip_of. rewrite BuildBaseline_value.
    destruct (seasonal n series (p_Time p)) as [base|] eqn:Hs; [|done].
    destruct (minDrop <? _)%float eqn:Hlt; [|done]. intros [= <-]. by exists p, base.
  - intros (_ & _ & p & base & Hp & Hs & Hlt & ->). exists p. split; [done|]. unfold dip_of.
    by rewrite BuildBaseline_value, Hs, Hlt.
Qed.

Lemma score_point_exact n sigs w s :
  let p := score_point (BuildBaseline (series_of SigLatencyMs sigs) n) (BuildBaseline (series_of SigSeqScanRate sigs) n) w s in
  pt_Time p = At s ∧
  pt_Score p = r_Score (ScoreFromSignalsBase s w
    (mkBaselines (default 0%float (seasonal n (series_of SigLatencyMs sigs) (At s)))
       (default 0%float (seasonal n (series_of SigSeqScanRate sigs) (At s))))).
Proof. cbn zeta. unfold score_point. by rewrite !BuildBaseline_value. Qed.

Lemma displayed_spec from to p : displayed from to p ↔ from ≤ pt_Time p ≤ to.
Proof. unfold displayed, time_before, time_after. rewrite negb_True, orb_True, !Is_true_true. lia. Qed.

(** The trend of a score. One point per instant of the window the datasource answered,
    in its order, scored with its readings against the medians of latency and of sequential
    scans at the same hour of the week; the display is the part of these in its range, and does not
    change them. A dip is reported exactly at the displayed points whose score lies below
    the median score of that hour, over the whole window, by more than the threshold, once
    the window has enough points. *)
Theorem History_exact sigs from to from0 to0 n minDrop w :
  Forall (λ s, from0 ≤ At s ≤ to0) sigs →
  let all := Points (buildHistory sigs from0 to0 n minDrop w) in
  let h := buildHistory sigs from to n minDrop w in
  Forall2 (λ s p, pt_Time p = At s ∧
    pt_Score p = r_Score (ScoreFromSignalsBase s w
      (mkBaselines (default 0%float (seasonal n (series_of SigLatencyMs sigs) (At s)))
         (default 0%float (seasonal n (series_of SigSeqScanRate sigs) (At s)))))) sigs all ∧
  Points h = filter (λ p, from ≤ pt_Time p ≤ to) all ∧
  (BaselineEnough h = true ↔ 0 < n ≤ Z.of_nat (length sigs)) ∧
  (∀ d, d ∈ Dips h ↔ 0 < n ≤ Z.of_nat (length sigs) ∧ (minDrop <=? 0)%float = false ∧
    ∃ p base, p ∈ Points h ∧ seasonal n (series_point <$> all) (pt_Time p) = Some base ∧
      (minDrop <? base - pt_Score p)%float = true ∧ d = mkDip (pt_Time p) (pt_Score p) base (base - pt_Score p)%float).
Proof.
  intros Hin. cbn zeta. unfold buildHistory. cbn [Points BaselineEnough Dips].
  set (f := score_point _ _ w). set (full := f <$> sigs).
  assert (Hall : filter (displayed from0 to0) full = full).
  { apply filter_all. unfold full. apply list.Forall_fmap. eapply Forall_impl; [exact Hin|]. intros s Hs. apply displayed_spec.
    unfold f. by rewrite (proj1 (score_point_exact n sigs w s)). }
  assert (Hlen : length (series_point <$> full) = length sigs) by (unfold full; by rewrite !length_fmap).
  rewrite Hall. split_and!.
  - unfold full. apply Forall2_fmap_r, Forall_Forall2_diag, list.Forall_forall. intros s _. apply score_point_exact.
  - apply list_filter_iff. intros p. apply displayed_spec.
  - cbn [Enough BuildBaseline]. rewrite Hlen, andb_true_iff. lia.
  - intros d. rewrite DetectScoreDips_spec, Hlen. repeat f_equiv. split.
    + intros (p & base & Hp & Hrest). apply list_elem_of_fmap in Hp as (q & -> & Hq). exists q, base. done.
    + intros (q & base & Hq & Hrest). exists (series_point q), base. split; [by apply list_elem_of_fmap_2|done].
Qed.

Lemma History_exact_witness :
  Points (buildHistory sample_signals (monday_nine 2) (monday_nine 2) 3 10 DefaultWeights)
  = filter (λ p, monday_nine 2 ≤ pt_Time p ≤ monday_nine 2)
      (Points (buildHistory sample_signals 0 (monday_nine 2) 3 10 DefaultWeights)).
Proof.
  refine (proj1 (proj2 (History_exact sample_signals (monday_nine 2) (monday_nine 2) 0 (monday_nine 2) 3 10 DefaultWeights _))).
  repeat constructor; vm_compute; discriminate.
Defined.
