(* ===== verification/HealthScorer.v ===== *)
(** * [internal/healthscore]: the inputs of a score ([scorer.go], [overlay.go], [cold.go], [inputs.go])

    A score is computed from one read: the signals of a datasource when there is one, and the
    SQL snapshot of the instance, which fills what the datasource did not carry. The cold tables
    are excluded from the snapshot and reported apart. *)

From S2P Require Import Prelude GoSlices GoFloat GoFloatOrder HotObjects Health HealthRules MetricSignals.
From stdpp Require Import options.

#[local] Open Scope string_scope.
#[local] Open Scope Z_scope.
#[local] Open Scope list_scope.

(** ** Data *)

(** What a read fails with: an instance that is not configured, a context that ended, or
    anything else; the prefixes the callers wrap around it are left out. *)
Inductive read_error := ENotFound | EContext | EOther (msg : string).

(** The datasource's errors ([metrics]); the fleet tells a target without a mapping apart. *)
Inductive metrics_error := ErrTargetNotMapped | ErrMetrics (msg : string).

#[global] Instance metrics_error_eq_dec : EqDecision metrics_error.
Proof. solve_decision. Defined.

Inductive Source := SourceMetrics | SourceSnapshot | SourceNone.

Record HealthScoreMetrics := mkHealthScoreMetrics {
  m_InRecovery : bool; m_Database : string; m_TotalConnections : Z; m_ActiveConnections : Z; m_IdleInTransaction : Z;
  m_IdleInTransactionDatabase : string; m_LongestTransactionSeconds : float; m_LongestTransactionDatabase : string;
  m_MaxConnections : Z; m_CacheHitRatio : float; m_CacheSampleBlocks : Z; m_TrackIoTimingEnabled : bool;
  m_MaxDeadRatio : float; m_AvgDeadRatio : float; m_TablesHighBloat : Z; m_ReplicaCount : Z;
  m_MaxReplayLagSeconds : float; m_MaxLagBytes : Z; m_DisconnectedReplicas : Z; m_MaxXidAge : Z;
  m_VacuumBacklogTables : Z; m_MaxOverdueVacuumAgeHours : float; m_TablesNeverVacuumed : Z;
  m_AutovacuumEnabled : bool; m_TrackCountsEnabled : bool; m_TablesWithAutovacuumOff : Z; m_MaxRelfrozenxidAge : Z;
  m_ColdMaxRelfrozenxidAge : Z; m_ColdFreezeRatio : float; m_HorizonLagXids : Z; m_HorizonDatabase : string;
  m_TimedCheckpoints : Z; m_RequestedCheckpoints : Z; m_ActiveLockWaiters : Z; m_LongestLockWaitSeconds : float;
  m_UngrantedLocks : Z; m_DeadlocksTotal : Z; m_HeavyweightLocksTotal : Z; m_MaxLocksPerTransaction : Z;
  m_HotUpdateRatio : float; m_NewpageUpdateRatio : float; m_StalePlannerStatsTables : Z; m_WalLevel : string;
  m_LogicalSlotsActive : Z
}.

Record RawResult := mkRawResult { Raw : RawMetrics; rr_Signals : Signals; rr_Err : option metrics_error }.

(** [metrics] is [None] when the datasource is off or not consulted; an error excludes the
    value it comes with, and a sequence headroom that is not known is [None]. *)
Record inputs := mkInputs {
  in_metrics : option RawResult; in_snap : read_error + HealthScoreMetrics;
  in_seq : read_error + option float; in_cold : ColdSets
}.

Record ClusterContext := mkClusterContext { cc_Weights : Weights; cc_WalLevelManaged : bool }.

Record InstanceScore := mkInstanceScore {
  is_Result : Result; is_Source : Source; MetricsDegraded : bool; is_Cold : ColdSet; ColdWindowDays : Z
}.

(** ** The overlay *)

Definition overlayCatalogFacts (raw : RawMetrics) (m : HealthScoreMetrics) : RawMetrics := {|
  InRecovery := m_InRecovery m; Database := m_Database m; MetricsInstanceWide := MetricsInstanceWide raw;
  SnapshotBackedRules := SnapshotBackedRules raw; TotalConnections := TotalConnections raw;
  ActiveConnections := ActiveConnections raw; IdleInTransaction := IdleInTransaction raw;
  IdleInTransactionDatabase := m_IdleInTransactionDatabase m;
  LongestTransactionSeconds := m_LongestTransactionSeconds m;
  LongestTransactionDatabase := m_LongestTransactionDatabase m; MaxConnections := MaxConnections raw;
  CacheHitRatio := CacheHitRatio raw; CacheSampleBlocks := CacheSampleBlocks raw;
  TrackIoTimingEnabled := m_TrackIoTimingEnabled m; MaxDeadRatio := MaxDeadRatio raw;
  AvgDeadRatio := AvgDeadRatio raw; TablesHighBloat := m_TablesHighBloat m; ReplicaCount := ReplicaCount raw;
  MaxReplayLagSeconds := MaxReplayLagSeconds raw; MaxLagBytes := MaxLagBytes raw;
  DisconnectedReplicas := DisconnectedReplicas raw; MaxXidAge := MaxXidAge raw;
  VacuumBacklogTables := m_VacuumBacklogTables m; MaxOverdueVacuumAgeHours := m_MaxOverdueVacuumAgeHours m;
  TablesNeverVacuumed := m_TablesNeverVacuumed m; AutovacuumEnabled := m_AutovacuumEnabled m;
  TrackCountsEnabled := m_TrackCountsEnabled m; TablesWithAutovacuumOff := m_TablesWithAutovacuumOff m;
  MaxRelfrozenxidAge := m_MaxRelfrozenxidAge m; ColdMaxRelfrozenxidAge := m_ColdMaxRelfrozenxidAge m;
  ColdFreezeRatio := m_ColdFreezeRatio m; Cold := Cold raw; HorizonLagXids := m_HorizonLagXids m;
  HorizonDatabase := m_HorizonDatabase m; TimedCheckpoints := TimedCheckpoints raw;
  RequestedCheckpoints := RequestedCheckpoints raw; ActiveLockWaiters := ActiveLockWaiters raw;
  LongestLockWaitSeconds := m_LongestLockWaitSeconds m; UngrantedLocks := UngrantedLocks raw;
  DeadlocksTotal := DeadlocksTotal raw; HeavyweightLocksTotal := m_HeavyweightLocksTotal m;
  MaxLocksPerTransaction := m_MaxLocksPerTransaction m; HotUpdateRatio := HotUpdateRatio raw;
  NewpageUpdateRatio := m_NewpageUpdateRatio m; StalePlannerStatsTables := m_StalePlannerStatsTables m;
  WalLevel := m_WalLevel m; LogicalSlotsActive := m_LogicalSlotsActive m; WalLevelManaged := WalLevelManaged raw;
  SequenceThresholds := SequenceThresholds raw; LoadAvg15 := LoadAvg15 raw; NumVCPU := NumVCPU raw;
  PoolerServerConns := PoolerServerConns raw; PoolerPoolSize := PoolerPoolSize raw;
  ChecksumFailuresRate := ChecksumFailuresRate raw; SequenceExhaustionMax := SequenceExhaustionMax raw;
  LatencyRegressionRatio := LatencyRegressionRatio raw; SeqScanRegressionRatio := SeqScanRegressionRatio raw;
  DiskUsedRatio := DiskUsedRatio raw
|}.

(** A field the snapshot fills when its signal is absent. *)
Definition gap {A} (sig : Signals) (k : SignalKind) (snapshot raw : A) : A := if Has sig k then raw else snapshot.

(** Replication is one fact split across two signals. *)
Definition repl_gap {A} (sig : Signals) (snapshot raw : A) : A :=
  if negb (Has sig SigReplLagSeconds) && negb (Has sig SigReplLagBytes) then snapshot else raw.

(** The rules whose input the snapshot gave. *)
Definition gap_rules : list (SignalKind * string) :=
  [(SigCacheHitRatio, "low_cache_hit_ratio"); (SigMaxDeadRatio, "high_max_dead_ratio");
   (SigAvgDeadRatio, "high_avg_dead_ratio"); (SigHotUpdateRatio, "low_hot_update_ratio");
   (SigXactsLeftWrap, "xid_wraparound_risk")].

Definition gap_marks (sig : Signals) (rules : gmap string bool) : gmap string bool :=
  foldl (λ rules '(k, id), if Has sig k then rules else MarkSnapshotBacked rules [id]) rules gap_rules.

Definition overlaySignalGaps (raw : RawMetrics) (m : HealthScoreMetrics) (sig : Signals) : RawMetrics := {|
  InRecovery := InRecovery raw; Database := Database raw; MetricsInstanceWide := MetricsInstanceWide raw;
  SnapshotBackedRules := gap_marks sig (SnapshotBackedRules raw);
  TotalConnections := gap sig SigTotalConns (m_TotalConnections m) (TotalConnections raw);
  ActiveConnections := gap sig SigActiveConns (m_ActiveConnections m) (ActiveConnections raw);
  IdleInTransaction := gap sig SigIdleInTx (m_IdleInTransaction m) (IdleInTransaction raw);
  IdleInTransactionDatabase := IdleInTransactionDatabase raw;
  LongestTransactionSeconds := LongestTransactionSeconds raw;
  LongestTransactionDatabase := LongestTransactionDatabase raw;
  MaxConnections := gap sig SigMaxConns (m_MaxConnections m) (MaxConnections raw);
  CacheHitRatio := gap sig SigCacheHitRatio (m_CacheHitRatio m) (CacheHitRatio raw);
  CacheSampleBlocks := gap sig SigCacheHitRatio (m_CacheSampleBlocks m) (CacheSampleBlocks raw);
  TrackIoTimingEnabled := TrackIoTimingEnabled raw;
  MaxDeadRatio := gap sig SigMaxDeadRatio (m_MaxDeadRatio m) (MaxDeadRatio raw);
  AvgDeadRatio := gap sig SigAvgDeadRatio (m_AvgDeadRatio m) (AvgDeadRatio raw);
  TablesHighBloat := TablesHighBloat raw; ReplicaCount := repl_gap sig (m_ReplicaCount m) (ReplicaCount raw);
  MaxReplayLagSeconds := repl_gap sig (m_MaxReplayLagSeconds m) (MaxReplayLagSeconds raw);
  MaxLagBytes := repl_gap sig (m_MaxLagBytes m) (MaxLagBytes raw);
  DisconnectedReplicas := repl_gap sig (m_DisconnectedReplicas m) (DisconnectedReplicas raw);
  MaxXidAge := gap sig SigXactsLeftWrap (m_MaxXidAge m) (MaxXidAge raw);
  VacuumBacklogTables := VacuumBacklogTables raw; MaxOverdueVacuumAgeHours := MaxOverdueVacuumAgeHours raw;
  TablesNeverVacuumed := TablesNeverVacuumed raw; AutovacuumEnabled := AutovacuumEnabled raw;
  TrackCountsEnabled := TrackCountsEnabled raw; TablesWithAutovacuumOff := TablesWithAutovacuumOff raw;
  MaxRelfrozenxidAge := MaxRelfrozenxidAge raw; ColdMaxRelfrozenxidAge := ColdMaxRelfrozenxidAge raw;
  ColdFreezeRatio := ColdFreezeRatio raw; Cold := Cold raw; HorizonLagXids := HorizonLagXids raw;
  HorizonDatabase := HorizonDatabase raw;
  TimedCheckpoints := gap sig SigTimedCheckpoints (m_TimedCheckpoints m) (TimedCheckpoints raw);
  RequestedCheckpoints := gap sig SigRequestedCheckpoints (m_RequestedCheckpoints m) (RequestedCheckpoints raw);
  ActiveLockWaiters := gap sig SigActiveLockWaiters (m_ActiveLockWaiters m) (ActiveLockWaiters raw);
  LongestLockWaitSeconds := LongestLockWaitSeconds raw;
  UngrantedLocks := gap sig SigLocksNotGranted (m_UngrantedLocks m) (UngrantedLocks raw);
  DeadlocksTotal := gap sig SigDeadlocksTotal (m_DeadlocksTotal m) (DeadlocksTotal raw);
  HeavyweightLocksTotal := HeavyweightLocksTotal raw; MaxLocksPerTransaction := MaxLocksPerTransaction raw;
  HotUpdateRatio := gap sig SigHotUpdateRatio (m_HotUpdateRatio m) (HotUpdateRatio raw);
  NewpageUpdateRatio := NewpageUpdateRatio raw; StalePlannerStatsTables := StalePlannerStatsTables raw;
  WalLevel := WalLevel raw; LogicalSlotsActive := LogicalSlotsActive raw; WalLevelManaged := WalLevelManaged raw;
  SequenceThresholds := SequenceThresholds raw; LoadAvg15 := LoadAvg15 raw; NumVCPU := NumVCPU raw;
  PoolerServerConns := PoolerServerConns raw; PoolerPoolSize := PoolerPoolSize raw;
  ChecksumFailuresRate := ChecksumFailuresRate raw; SequenceExhaustionMax := SequenceExhaustionMax raw;
  LatencyRegressionRatio := LatencyRegressionRatio raw; SeqScanRegressionRatio := SeqScanRegressionRatio raw;
  DiskUsedRatio := DiskUsedRatio raw
|}.

Definition rawFromSnapshot (m : HealthScoreMetrics) : RawMetrics := {|
  InRecovery := m_InRecovery m; Database := m_Database m; MetricsInstanceWide := false; SnapshotBackedRules := ∅;
  TotalConnections := m_TotalConnections m; ActiveConnections := m_ActiveConnections m;
  IdleInTransaction := m_IdleInTransaction m; IdleInTransactionDatabase := m_IdleInTransactionDatabase m;
  LongestTransactionSeconds := m_LongestTransactionSeconds m;
  LongestTransactionDatabase := m_LongestTransactionDatabase m; MaxConnections := m_MaxConnections m;
  CacheHitRatio := m_CacheHitRatio m; CacheSampleBlocks := m_CacheSampleBlocks m;
  TrackIoTimingEnabled := m_TrackIoTimingEnabled m; MaxDeadRatio := m_MaxDeadRatio m;
  AvgDeadRatio := m_AvgDeadRatio m; TablesHighBloat := m_TablesHighBloat m; ReplicaCount := m_ReplicaCount m;
  MaxReplayLagSeconds := m_MaxReplayLagSeconds m; MaxLagBytes := m_MaxLagBytes m;
  DisconnectedReplicas := m_DisconnectedReplicas m; MaxXidAge := m_MaxXidAge m;
  VacuumBacklogTables := m_VacuumBacklogTables m; MaxOverdueVacuumAgeHours := m_MaxOverdueVacuumAgeHours m;
  TablesNeverVacuumed := m_TablesNeverVacuumed m; AutovacuumEnabled := m_AutovacuumEnabled m;
  TrackCountsEnabled := m_TrackCountsEnabled m; TablesWithAutovacuumOff := m_TablesWithAutovacuumOff m;
  MaxRelfrozenxidAge := m_MaxRelfrozenxidAge m; ColdMaxRelfrozenxidAge := m_ColdMaxRelfrozenxidAge m;
  ColdFreezeRatio := m_ColdFreezeRatio m; Cold := None; HorizonLagXids := m_HorizonLagXids m;
  HorizonDatabase := m_HorizonDatabase m; TimedCheckpoints := m_TimedCheckpoints m;
  RequestedCheckpoints := m_RequestedCheckpoints m; ActiveLockWaiters := m_ActiveLockWaiters m;
  LongestLockWaitSeconds := m_LongestLockWaitSeconds m; UngrantedLocks := m_UngrantedLocks m;
  DeadlocksTotal := m_DeadlocksTotal m; HeavyweightLocksTotal := m_HeavyweightLocksTotal m;
  MaxLocksPerTransaction := m_MaxLocksPerTransaction m; HotUpdateRatio := m_HotUpdateRatio m;
  NewpageUpdateRatio := m_NewpageUpdateRatio m; StalePlannerStatsTables := m_StalePlannerStatsTables m;
  WalLevel := m_WalLevel m; LogicalSlotsActive := m_LogicalSlotsActive m; WalLevelManaged := false;
  SequenceThresholds := ∅; LoadAvg15 := 0%float; NumVCPU := 0%float; PoolerServerConns := 0%float;
  PoolerPoolSize := 0%float; ChecksumFailuresRate := 0%float; SequenceExhaustionMax := 0%float;
  LatencyRegressionRatio := 0%float; SeqScanRegressionRatio := 0%float; DiskUsedRatio := 0%float
|}.

(** [raw] with the fields [compose] and [Recommendations] set themselves. *)
Definition with_facts (wide managed : bool) (thresholds : gmap string float) (exhaustion : float)
    (cold : option ColdFacts) (raw : RawMetrics) : RawMetrics := {|
  InRecovery := InRecovery raw; Database := Database raw; MetricsInstanceWide := wide;
  SnapshotBackedRules := SnapshotBackedRules raw; TotalConnections := TotalConnections raw;
  ActiveConnections := ActiveConnections raw; IdleInTransaction := IdleInTransaction raw;
  IdleInTransactionDatabase := IdleInTransactionDatabase raw;
  LongestTransactionSeconds := LongestTransactionSeconds raw;
  LongestTransactionDatabase := LongestTransactionDatabase raw; MaxConnections := MaxConnections raw;
  CacheHitRatio := CacheHitRatio raw; CacheSampleBlocks := CacheSampleBlocks raw;
  TrackIoTimingEnabled := TrackIoTimingEnabled raw; MaxDeadRatio := MaxDeadRatio raw;
  AvgDeadRatio := AvgDeadRatio raw; TablesHighBloat := TablesHighBloat raw; ReplicaCount := ReplicaCount raw;
  MaxReplayLagSeconds := MaxReplayLagSeconds raw; MaxLagBytes := MaxLagBytes raw;
  DisconnectedReplicas := DisconnectedReplicas raw; MaxXidAge := MaxXidAge raw;
  VacuumBacklogTables := VacuumBacklogTables raw; MaxOverdueVacuumAgeHours := MaxOverdueVacuumAgeHours raw;
  TablesNeverVacuumed := TablesNeverVacuumed raw; AutovacuumEnabled := AutovacuumEnabled raw;
  TrackCountsEnabled := TrackCountsEnabled raw; TablesWithAutovacuumOff := TablesWithAutovacuumOff raw;
  MaxRelfrozenxidAge := MaxRelfrozenxidAge raw; ColdMaxRelfrozenxidAge := ColdMaxRelfrozenxidAge raw;
  ColdFreezeRatio := ColdFreezeRatio raw; Cold := cold; HorizonLagXids := HorizonLagXids raw;
  HorizonDatabase := HorizonDatabase raw; TimedCheckpoints := TimedCheckpoints raw;
  RequestedCheckpoints := RequestedCheckpoints raw; ActiveLockWaiters := ActiveLockWaiters raw;
  LongestLockWaitSeconds := LongestLockWaitSeconds raw; UngrantedLocks := UngrantedLocks raw;
  DeadlocksTotal := DeadlocksTotal raw; HeavyweightLocksTotal := HeavyweightLocksTotal raw;
  MaxLocksPerTransaction := MaxLocksPerTransaction raw; HotUpdateRatio := HotUpdateRatio raw;
  NewpageUpdateRatio := NewpageUpdateRatio raw; StalePlannerStatsTables := StalePlannerStatsTables raw;
  WalLevel := WalLevel raw; LogicalSlotsActive := LogicalSlotsActive raw; WalLevelManaged := managed;
  SequenceThresholds := thresholds; LoadAvg15 := LoadAvg15 raw; NumVCPU := NumVCPU raw;
  PoolerServerConns := PoolerServerConns raw; PoolerPoolSize := PoolerPoolSize raw;
  ChecksumFailuresRate := ChecksumFailuresRate raw; SequenceExhaustionMax := exhaustion;
  LatencyRegressionRatio := LatencyRegressionRatio raw; SeqScanRegressionRatio := SeqScanRegressionRatio raw;
  DiskUsedRatio := DiskUsedRatio raw
|}.

Definition with_wide (wide : bool) (raw : RawMetrics) : RawMetrics :=
  with_facts wide (WalLevelManaged raw) (SequenceThresholds raw) (SequenceExhaustionMax raw) (Cold raw) raw.

Definition with_cold (cold : option ColdFacts) (raw : RawMetrics) : RawMetrics :=
  with_facts (MetricsInstanceWide raw) (WalLevelManaged raw) (SequenceThresholds raw) (SequenceExhaustionMax raw) cold raw.

(** ** Composition *)

Definition from_metrics (r : RawResult) (m : HealthScoreMetrics) : RawMetrics :=
  overlaySignalGaps (overlayCatalogFacts (with_wide true (Raw r)) m) m (rr_Signals r).

(** The sequence headroom, where the datasource did not give it and the instance has it. *)
Definition seq_exhaustion (raw : RawMetrics) (seq : read_error + option float) : float :=
  if negb (InRecovery raw) && (SequenceExhaustionMax raw =? 0)%float then
    match seq with inr (Some worst) => worst | _ => SequenceExhaustionMax raw end
  else SequenceExhaustionMax raw.

Definition compose (thresholds : gmap string float) (in_ : inputs) (walLevelManaged : bool) :
  read_error + (RawMetrics * Source * Z) :=
  match in_snap in_ with
  | inl e => inl e
  | inr m =>
      let '(raw, src, matched) :=
        match in_metrics in_ with
        | Some r =>
            match rr_Err r with
            | None => (from_metrics r m, SourceMetrics, Z.of_nat (size (Have (rr_Signals r))))
            | Some _ => (rawFromSnapshot m, SourceSnapshot, 0)
            end
        | None => (rawFromSnapshot m, SourceSnapshot, 0)
        end in
      inr (with_facts (MetricsInstanceWide raw) walLevelManaged thresholds (seq_exhaustion raw (in_seq in_)) (Cold raw) raw,
           src, matched)
  end.

(** ** Cold tables *)

Definition coldListLimit : Z := 5.
Definition coldCacheTTL : duration := 5 * Minute.
Definition inputsHold : duration := 5 * Second.

Record HealthScoreColdTable := mkColdRow {
  Idx : Z; row_DeadRatio : float; row_NeverVacuumed : bool; row_RelfrozenxidAge : Z; row_SizeBytes : Z
}.

Record ColdArgs := mkColdArgs { Schemas : list string; a_Tables : list string; a_Writes : list Z }.

Definition ColdArgsOf (set : ColdSet) : ColdArgs :=
  mkColdArgs (HotObjects.ct_Schema <$> cs_Tables set) (HotObjects.ct_Table <$> cs_Tables set) (ct_Writes <$> cs_Tables set).

Definition has_cold (set : ColdSet) : bool :=
  bool_decide (cs_Status set = ColdAvailable) && negb (bool_decide (cs_Tables set = [])).

Definition ColdArgs_ (sets : ColdSets) : gmap string ColdArgs :=
  ColdArgsOf <$> filter (λ x, has_cold x.2) (css_ByDatabase sets).

Definition hasColdTables (sets : ColdSets) (database : string) : bool := has_cold (For sets database).

(** The rows point into the tables, from 1. *)
Definition cold_row (set : ColdSet) (r : HealthScoreColdTable) : option ColdMaintenanceTable :=
  if (Idx r <? 1) || (Z.of_nat (length (cs_Tables set)) <? Idx r) then None
  else
    src ← cs_Tables set !! Z.to_nat (Idx r - 1);
    Some (Health.mkColdTable (HotObjects.ct_Schema src) (HotObjects.ct_Table src) (row_SizeBytes r) (row_DeadRatio r)
      (row_NeverVacuumed r) (row_RelfrozenxidAge r)
      (div64 (time_sub (cs_CapturedAt set) (ct_QuietSince src)) (24 * Hour))).

Definition buildColdFacts (set : ColdSet) (windowDays : Z) (rows : list HealthScoreColdTable) (total : Z) : ColdFacts :=
  let tables := omap (cold_row set) rows in
  mkCold windowDays tables (Z.max (total ⊟ Z.of_nat (length tables)) 0).

(** ** The cache of cold tables

    [get] looks up the entry under the mutex, asks the store without it, and stores the
    answer under it. *)

Record coldEntry := mkColdEntry { ce_sets : ColdSets; ce_expires : time }.

Definition cold_status (status : string) : ColdSets := mkColdSets status 0 ∅.

Definition cold_lookup (entries : gmap TargetRef coldEntry) (t : TargetRef) (now : time) : option ColdSets :=
  e ← entries !! t; if time_before now (ce_expires e) then Some (ce_sets e) else None.

(** [answer] is what the store says, if there is one; [None] is an error, which is not cached. *)
Definition cold_get (store : bool) (entries : gmap TargetRef coldEntry) (t : TargetRef) (now : time)
    (answer : option ColdSets) : ColdSets * gmap TargetRef coldEntry :=
  if negb store then (cold_status ColdNoStorage, entries)
  else
  match cold_lookup entries t now with
  | Some sets => (sets, entries)
  | None =>
      match answer with
      | None => (cold_status ColdError, entries)
      | Some sets => (sets, <[t := mkColdEntry sets (time_add now coldCacheTTL)]> entries)
      end
  end.

(** ** The scorer *)

(** What the scorer reads from; an option is [None] for an error. [coalesced] is what
    [coalescedInputs] answers. *)
Class Reads := {
  metrics_enabled : bool;
  CurrentRaw : TargetRef → RawResult;
  ColdTables_ : TargetRef → ColdSets;
  GetHealthScoreMetrics : TargetRef → string → gmap string ColdArgs → read_error + HealthScoreMetrics;
  GetSequenceHeadroom : TargetRef → string → read_error + option float;
  GetHealthScoreColdTables : TargetRef → string → ColdArgs → Z → option (list HealthScoreColdTable * Z);
  Clusters_ : option (list (string * string));
  GetHealthWeights : option (string → read_error + option Weights);
  thresholds_ : gmap string float
}.

Definition SourceYandexMDB : string := "yandex-mdb".

Section scorer.
Context `{!Reads}.

Definition read (t : TargetRef) (database : string) (pre : option RawResult) : inputs :=
  let metrics :=
    match pre with
    | Some r => Some r
    | None => if bool_decide (database = "") && metrics_enabled then Some (CurrentRaw t) else None
    end in
  let cold := ColdTables_ t in
  mkInputs metrics (GetHealthScoreMetrics t database (ColdArgs_ cold)) (GetSequenceHeadroom t database) cold.

Definition ScoreWith (coalesced : TargetRef → string → inputs) (t : TargetRef) (pre : option RawResult)
    (cc : ClusterContext) : read_error + InstanceScore :=
  let in_ := match pre with Some _ => read t "" pre | None => coalesced t "" end in
  match compose thresholds_ in_ (cc_WalLevelManaged cc) with
  | inl e => inl e
  | inr (raw, src, matched) =>
      inr (mkInstanceScore (CalculateWithWeights raw (cc_Weights cc)) src
        (match src with SourceMetrics => matched =? 0 | _ => false end)
        (For (in_cold in_) (Database raw)) (css_WindowDays (in_cold in_)))
  end.

(** The override of a cluster; with the error, the defaults. *)
Definition Weights_ (cluster : string) : Weights * option read_error :=
  match GetHealthWeights with
  | None => (DefaultWeights, None)
  | Some get =>
      match get cluster with
      | inl e => (DefaultWeights, Some e)
      | inr None => (DefaultWeights, None)
      | inr (Some w) => (w, None)
      end
  end.

Definition walLevelFixed (source : string) : bool := bool_decide (source = SourceYandexMDB).

Definition walLevelManaged (cluster : string) : bool :=
  match Clusters_ with
  | None => false
  | Some clusters => from_option (λ c, walLevelFixed c.2) false (head (filter (λ c, c.1 = cluster) clusters))
  end.

Definition Score_ (coalesced : TargetRef → string → inputs) (t : TargetRef) (pre : option RawResult) :
  read_error + InstanceScore :=
  match Weights_ (Cluster t) with
  | (_, Some e) => inl e
  | (w, None) => ScoreWith coalesced t pre (mkClusterContext w (walLevelManaged (Cluster t)))
  end.

Definition coldFacts (t : TargetRef) (database : string) (sets : ColdSets) : option ColdFacts :=
  if negb (hasColdTables sets database) then None
  else
    let set := For sets database in
    '(rows, total) ← GetHealthScoreColdTables t database (ColdArgsOf set) coldListLimit;
    Some (buildColdFacts set (css_WindowDays sets) rows total).

Definition Recommendations `{Identifier} (coalesced : TargetRef → string → inputs) (t : TargetRef) (database : string) :
  read_error + list Recommendation :=
  let in_ := coalesced t database in
  match compose thresholds_ in_ (walLevelManaged (Cluster t)) with
  | inl e => inl e
  | inr (raw, _, _) =>
      let raw := if InRecovery raw then raw else with_cold (coldFacts t (Database raw) (in_cold in_)) raw in
      inr (Evaluate raw (negb (bool_decide (database = ""))))
  end.

End scorer.

(** ** What the overlay leaves *)

(** [raw] with another attribution of its figures. *)
Definition attributed (wide : bool) (rules : gmap string bool) (raw : RawMetrics) : RawMetrics := {|
  InRecovery := InRecovery raw; Database := Database raw; MetricsInstanceWide := wide; SnapshotBackedRules := rules;
  TotalConnections := TotalConnections raw; ActiveConnections := ActiveConnections raw;
  IdleInTransaction := IdleInTransaction raw; IdleInTransactionDatabase := IdleInTransactionDatabase raw;
  LongestTransactionSeconds := LongestTransactionSeconds raw;
  LongestTransactionDatabase := LongestTransactionDatabase raw; MaxConnections := MaxConnections raw;
  CacheHitRatio := CacheHitRatio raw; CacheSampleBlocks := CacheSampleBlocks raw;
  TrackIoTimingEnabled := TrackIoTimingEnabled raw; MaxDeadRatio := MaxDeadRatio raw;
  AvgDeadRatio := AvgDeadRatio raw; TablesHighBloat := TablesHighBloat raw; ReplicaCount := ReplicaCount raw;
  MaxReplayLagSeconds := MaxReplayLagSeconds raw; MaxLagBytes := MaxLagBytes raw;
  DisconnectedReplicas := DisconnectedReplicas raw; MaxXidAge := MaxXidAge raw;
  VacuumBacklogTables := VacuumBacklogTables raw; MaxOverdueVacuumAgeHours := MaxOverdueVacuumAgeHours raw;
  TablesNeverVacuumed := TablesNeverVacuumed raw; AutovacuumEnabled := AutovacuumEnabled raw;
  TrackCountsEnabled := TrackCountsEnabled raw; TablesWithAutovacuumOff := TablesWithAutovacuumOff raw;
  MaxRelfrozenxidAge := MaxRelfrozenxidAge raw; ColdMaxRelfrozenxidAge := ColdMaxRelfrozenxidAge raw;
  ColdFreezeRatio := ColdFreezeRatio raw; Cold := Cold raw; HorizonLagXids := HorizonLagXids raw;
  HorizonDatabase := HorizonDatabase raw; TimedCheckpoints := TimedCheckpoints raw;
  RequestedCheckpoints := RequestedCheckpoints raw; ActiveLockWaiters := ActiveLockWaiters raw;
  LongestLockWaitSeconds := LongestLockWaitSeconds raw; UngrantedLocks := UngrantedLocks raw;
  DeadlocksTotal := DeadlocksTotal raw; HeavyweightLocksTotal := HeavyweightLocksTotal raw;
  MaxLocksPerTransaction := MaxLocksPerTransaction raw; HotUpdateRatio := HotUpdateRatio raw;
  NewpageUpdateRatio := NewpageUpdateRatio raw; StalePlannerStatsTables := StalePlannerStatsTables raw;
  WalLevel := WalLevel raw; LogicalSlotsActive := LogicalSlotsActive raw; WalLevelManaged := WalLevelManaged raw;
  SequenceThresholds := SequenceThresholds raw; LoadAvg15 := LoadAvg15 raw; NumVCPU := NumVCPU raw;
  PoolerServerConns := PoolerServerConns raw; PoolerPoolSize := PoolerPoolSize raw;
  ChecksumFailuresRate := ChecksumFailuresRate raw; SequenceExhaustionMax := SequenceExhaustionMax raw;
  LatencyRegressionRatio := LatencyRegressionRatio raw; SeqScanRegressionRatio := SeqScanRegressionRatio raw;
  DiskUsedRatio := DiskUsedRatio raw
|}.

(** Where its figures come from is nothing to the score, nor to what a rule finds. *)
Lemma score_attributed wide rules raw w : CalculateWithWeights (attributed wide rules raw) w = CalculateWithWeights raw w.
Proof. reflexivity. Qed.

Lemma rule_attributed `{Identifier} wide rules raw :
  Forall (λ r, rule_Evaluate r (attributed wide rules raw) = rule_Evaluate r raw) Registry.
Proof. unfold Registry. repeat constructor. Qed.

Lemma absent_reading {A} sig k (d : A) f : Has sig k = false → reading sig k d f = d.
Proof. intros Hk. unfold reading, Get. rewrite Hk. by destruct (Value sig !! k). Qed.

Definition all_marks : gmap string bool := gap_marks (NewSignals 0) ∅.

Lemma from_metrics_absent sig b e m : (∀ k, Has sig k = false) →
  from_metrics (mkRawResult (rawWithRegression sig b) sig e) m = attributed true all_marks (rawFromSnapshot m).
Proof.
  intros Hno. unfold from_metrics, overlaySignalGaps, attributed, rawFromSnapshot, gap, repl_gap. rewrite !Hno.
  cbn [negb andb].
  assert (Hr : ∀ k base, regression sig k base = 0%float).
  { intros k base. unfold regression. destruct (0 <? base)%float; [|done]. by apply absent_reading. }
  f_equal; try reflexivity; first [exact (absent_reading sig _ _ _ (Hno _))|exact (Hr _ _)|idtac].
  unfold gap_marks. cbn [foldl gap_rules]. rewrite !Hno. reflexivity.
Qed.

Lemma applies_attributed wide rules raw scoped r : applies (attributed wide rules raw) scoped r = applies raw scoped r.
Proof. done. Qed.

(** A rule whose figure only a datasource has. *)
Definition datasource_only (r : Rule) : bool :=
  bool_decide (ID r ∈ metricsInstanceWideRules) && bool_decide (all_marks !! ID r = None).

(** Such rules do not hit on what the snapshot leaves at zero. *)
Lemma datasource_only_silent `{Identifier} m managed th ex cold r : r ∈ Registry → datasource_only r = true →
  rule_Evaluate r (with_facts false managed th ex cold (rawFromSnapshot m)) = None.
Proof.
  intros Hr Ht. apply list_elem_of_lookup in Hr as [i Hi].
  assert (Hb : (datasource_only <$> Registry) !! i = Some true) by by rewrite list_lookup_fmap, Hi, <- Ht.
  assert (Hf : i ∈ [32; 36; 37; 38]%nat).
  { revert Hb. clear. set (l := datasource_only <$> Registry). vm_compute in l. subst l.
    intros Hb. do 39 (destruct i as [|i]; [first [discriminate Hb|by apply (bool_decide_unpack _)]|]). done. }
  clear Ht Hb. set (raw := with_facts _ _ _ _ _ _).
  apply elem_of_cons in Hf as [->|Hf]; [injection Hi as <-; reflexivity|].
  apply elem_of_cons in Hf as [->|Hf]; [injection Hi as <-; reflexivity|].
  apply elem_of_cons in Hf as [->|Hf]; [injection Hi as <-; reflexivity|].
  apply list_elem_of_singleton in Hf as ->. injection Hi as <-. reflexivity.
Qed.

Lemma Evaluate_attributed `{Identifier} m managed th ex cold scoped :
  let raw := with_facts false managed th ex cold (rawFromSnapshot m) in
  Evaluate (attributed true all_marks raw) scoped = Evaluate raw scoped.
Proof.
  cbn zeta. set (raw := with_facts _ _ _ _ _ _). unfold Evaluate. apply (f_equal (sort_stable by_severity)). unfold hits.
  pose proof (rule_attributed true all_marks raw) as Hrule. rewrite list.Forall_forall in Hrule.
  apply list_omap_ext. apply Forall_Forall2_diag, list.Forall_forall. intros r Hr.
  rewrite applies_attributed, Hrule by done. destruct (applies raw scoped r); [|done].
  destruct (rule_Evaluate r raw) as [hit|] eqn:Hhit; [|done].
  change (Some (recommendation (attributed true all_marks raw) scoped r hit) = Some (recommendation raw scoped r hit)).
  unfold recommendation. 
  replace (databaseOf (attributed true all_marks raw) r hit scoped) with (databaseOf raw r hit scoped); [done|].
  unfold databaseOf. case_decide; [done|]. destruct (instanceOnlyCategories _); [done|]. destruct (_ && _); [done|].
  change (MetricsInstanceWide raw) with false. change (MetricsInstanceWide (attributed true all_marks raw)) with true.
  change (Database (attributed true all_marks raw)) with (Database raw). cbn [andb].
  destruct (bool_decide (ID r ∈ metricsInstanceWideRules)) eqn:Hw; [|done]. cbn [andb].
  change (SnapshotBackedRules (attributed true all_marks raw)) with all_marks.
  destruct (all_marks !! ID r) as [[]|] eqn:Hm; [done| |].
  - exfalso. assert (Hf : map_Forall (λ _ b, b = true) all_marks) by (apply (bool_decide_unpack _); by vm_compute).
    by specialize (Hf _ _ Hm).
  - exfalso. assert (Hd : datasource_only r = true) by (unfold datasource_only; by rewrite Hw, Hm).
    pose proof (datasource_only_silent m managed th ex cold r Hr Hd) as Hn. fold raw in Hn. congruence.
Qed.

(** A read of the datasource that resolved and matched no series. *)
Definition carries_nothing (r : RawResult) : Prop :=
  rr_Err r = None ∧ Have (rr_Signals r) = ∅ ∧ ∃ b, Raw r = rawWithRegression (rr_Signals r) b.

Definition without_metrics (in_ : inputs) : inputs := mkInputs None (in_snap in_) (in_seq in_) (in_cold in_).

Lemma compose_carries_nothing th in_ managed r : in_metrics in_ = Some r → carries_nothing r →
  match compose th in_ managed, compose th (without_metrics in_) managed with
  | inl e, inl e' => e = e'
  | inr (raw, src, n), inr (raw', src', _) =>
      src = SourceMetrics ∧ n = 0 ∧ src' = SourceSnapshot ∧ raw = attributed true all_marks raw' ∧
      ∃ m ex, raw' = with_facts false managed th ex None (rawFromSnapshot m)
  | _, _ => False
  end.
Proof.
  intros Hm (He & Hh & b & Hraw). unfold compose, without_metrics. cbn [in_snap in_metrics in_seq]. rewrite Hm, He, Hh.
  destruct (in_snap in_) as [e|m]; [done|]. destruct r as [raw sig err]. cbn [Raw rr_Signals rr_Err] in *. subst raw.
  rewrite from_metrics_absent by (intros k; unfold Has; by rewrite Hh). split_and!; [done..|].
  exists m, (seq_exhaustion (rawFromSnapshot m) (in_seq in_)). done.
Qed.

Lemma InRecovery_attributed wide rules raw : InRecovery (attributed wide rules raw) = InRecovery raw.
Proof. done. Qed.

Lemma Database_attributed wide rules raw : Database (attributed wide rules raw) = Database raw.
Proof. done. Qed.

Lemma with_cold_attributed wide rules c raw : with_cold c (attributed wide rules raw) = attributed wide rules (with_cold c raw).
Proof. done. Qed.

Lemma with_cold_facts c wide managed th ex cold raw :
  with_cold c (with_facts wide managed th ex cold raw) = with_facts wide managed th ex c raw.
Proof. done. Qed.

(** A datasource that resolves a target and matches none of its series is as good as none:
    the score, the cold tables and every recommendation with its attribution are those of the SQL
    snapshot, for whatever the snapshot holds; only the source differs, and the score is marked as
    degraded. *)
Theorem empty_datasource_harmless `{!Reads, Identifier} (with_ without : TargetRef → string → inputs) t r cc :
  (∀ db, in_metrics (with_ t db) = Some r ∧ without t db = without_metrics (with_ t db)) → carries_nothing r →
  (∀ db, Recommendations with_ t db = Recommendations without t db) ∧
  match ScoreWith with_ t None cc, ScoreWith without t None cc with
  | inl e, inl e' => e = e'
  | inr s, inr s' => is_Result s = is_Result s' ∧ is_Cold s = is_Cold s' ∧ ColdWindowDays s = ColdWindowDays s' ∧
      is_Source s = SourceMetrics ∧ MetricsDegraded s = true ∧ is_Source s' = SourceSnapshot ∧ MetricsDegraded s' = false
  | _, _ => False
  end.
Proof.
  intros Hw Hr. split.
  - intros db. destruct (Hw db) as [Hm Hwo]. unfold Recommendations. rewrite Hwo.
    pose proof (compose_carries_nothing thresholds_ (with_ t db) (walLevelManaged (Cluster t)) r Hm Hr) as Hc.
    destruct (compose _ (with_ t db) _) as [e|[[raw src] n]], (compose _ (without_metrics _) _) as [e'|[[raw' src'] n']];
      [by rewrite Hc|destruct Hc..|].
    destruct Hc as (_ & _ & _ & -> & m & ex & Hraw).
    rewrite InRecovery_attributed, Database_attributed, with_cold_attributed.
    change (in_cold (without_metrics (with_ t db))) with (in_cold (with_ t db)).
    apply (f_equal inr). generalize (coldFacts t (Database raw') (in_cold (with_ t db))). intros c. rewrite Hraw.
    rewrite with_cold_facts. destruct (InRecovery _); apply Evaluate_attributed.
  - destruct (Hw "") as [Hm Hwo]. unfold ScoreWith. rewrite Hwo.
    pose proof (compose_carries_nothing thresholds_ (with_ t "") (cc_WalLevelManaged cc) r Hm Hr) as Hc.
    destruct (compose _ (with_ t "") _) as [e|[[raw src] n]], (compose _ (without_metrics _) _) as [e'|[[raw' src'] n']];
      [done|destruct Hc..|].
    destruct Hc as (-> & -> & -> & -> & _). cbn [is_Result is_Cold ColdWindowDays is_Source MetricsDegraded].
    by rewrite score_attributed.
Qed.

(** ** Attribution *)

Lemma gap_marks_spec sig k id : (k, id) ∈ gap_rules → default false (gap_marks sig ∅ !! id) = negb (Has sig k).
Proof.
  intros Hin. unfold gap_marks, gap_rules in *. cbn [foldl].
  destruct (Has sig SigCacheHitRatio) eqn:H1, (Has sig SigMaxDeadRatio) eqn:H2, (Has sig SigAvgDeadRatio) eqn:H3,
    (Has sig SigHotUpdateRatio) eqn:H4, (Has sig SigXactsLeftWrap) eqn:H5;
    repeat (apply elem_of_cons in Hin as [[= -> ->]|Hin]; [rewrite ?H1, ?H2, ?H3, ?H4, ?H5; by vm_compute|]);
    by apply not_elem_of_nil in Hin.
Qed.

Lemma graded_database sev v hit : graded sev v = Some hit → h_Database hit = "".
Proof. unfold graded. destruct sev; cbn; [|done]. by intros [= <-]. Qed.

(** A rule whose figure may come from either side. *)
Definition either_side (r : Rule) : bool := bool_decide (ID r ∈ gap_rules.*2).

Lemma either_side_rule `{Identifier} raw r hit : r ∈ Registry → either_side r = true → rule_Evaluate r raw = Some hit →
  h_Database hit = "" ∧ instanceOnlyCategories (rule_Category r) = false ∧
  bool_decide (ID r ∈ instanceScopeAggregateRules) = false ∧ bool_decide (ID r ∈ metricsInstanceWideRules) = true.
Proof.
  intros Hr Ht. apply list_elem_of_lookup in Hr as [i Hi].
  assert (Hb : (either_side <$> Registry) !! i = Some true) by by rewrite list_lookup_fmap, Hi, <- Ht.
  assert (Hf : i ∈ [3; 4; 5; 10; 27]%nat).
  { revert Hb. clear. set (l := either_side <$> Registry). vm_compute in l. subst l.
    intros Hb. do 39 (destruct i as [|i]; [first [discriminate Hb|by apply (bool_decide_unpack _)]|]). done. }
  clear Ht Hb. intros Hhit.
  assert (Hg : ∃ sev v, graded sev v = Some hit ∨ low_cache_hit_ratio raw = Some hit).
  { repeat (apply elem_of_cons in Hf as [->|Hf]; [injection Hi as <-; cbn [rule_Evaluate] in Hhit; eauto|]).
    by apply not_elem_of_nil in Hf. Unshelve. all: exact None || exact 0%float. }
  split.
  - destruct Hg as (sev & v & [Hg|Hg]); [by eapply graded_database|]. unfold low_cache_hit_ratio in Hg.
    destruct (negb _); [done|]. by eapply graded_database.
  - clear Hg Hhit. repeat (apply elem_of_cons in Hf as [->|Hf]; [injection Hi as <-; by vm_compute|]).
    by apply not_elem_of_nil in Hf.
Qed.

(** A recommendation drawn from a figure that both sides have names the database of the
    snapshot exactly when the figure is the snapshot's: the datasource's is of the whole instance. *)
Theorem gap_attribution `{Identifier} th in_ managed r m raw n k rec :
  in_metrics in_ = Some r → in_snap in_ = inr m → SnapshotBackedRules (Raw r) = ∅ →
  compose th in_ managed = inr (raw, SourceMetrics, n) →
  rec ∈ Evaluate raw false → (k, RuleID rec) ∈ gap_rules →
  rec_Database rec = if Has (rr_Signals r) k then "" else m_Database m.
Proof.
  unfold compose. intros -> -> Hempty. destruct (rr_Err r); [done|]. set (base := from_metrics r m). intros [= Hraw _] Hrec Hk.
  apply Evaluate_hits, hits_spec in Hrec as (rule & hit & Hr & _ & Hhit & ->). cbn [RuleID rec_Database recommendation] in *.
  assert (He : either_side rule = true) by (apply bool_decide_eq_true; by apply (list_elem_of_fmap_2 snd) in Hk).
  destruct (either_side_rule raw rule hit Hr He Hhit) as (Hd & Hc & Ha & Hw).
  unfold databaseOf. rewrite Hd, decide_False, Hc, Ha, Hw by naive_solver. cbn [andb negb].
  assert (Hm : MetricsInstanceWide raw = true) by by rewrite <- Hraw.
  assert (Hs : SnapshotBackedRules raw = gap_marks (rr_Signals r) ∅) by (rewrite <- Hraw; unfold base; by rewrite <- Hempty).
  assert (Hdb : Database raw = m_Database m) by by rewrite <- Hraw.
  rewrite Hm, Hs, Hdb, (gap_marks_spec _ k) by done. cbn [andb]. by destruct (Has _ k).
Qed.

(** ** Witnesses *)

Definition sample_snapshot : HealthScoreMetrics := {|
  m_InRecovery := false; m_Database := "app"; m_TotalConnections := 95; m_ActiveConnections := 3; m_IdleInTransaction := 0;
  m_IdleInTransactionDatabase := ""; m_LongestTransactionSeconds := 1%float; m_LongestTransactionDatabase := "app";
  m_MaxConnections := 100; m_CacheHitRatio := 80%float; m_CacheSampleBlocks := 900000; m_TrackIoTimingEnabled := true;
  m_MaxDeadRatio := 35%float; m_AvgDeadRatio := 2%float; m_TablesHighBloat := 0; m_ReplicaCount := 0;
  m_MaxReplayLagSeconds := 0%float; m_MaxLagBytes := 0; m_DisconnectedReplicas := 0; m_MaxXidAge := 1000;
  m_VacuumBacklogTables := 0; m_MaxOverdueVacuumAgeHours := 0%float; m_TablesNeverVacuumed := 0;
  m_AutovacuumEnabled := true; m_TrackCountsEnabled := true; m_TablesWithAutovacuumOff := 0; m_MaxRelfrozenxidAge := 1000;
  m_ColdMaxRelfrozenxidAge := 0; m_ColdFreezeRatio := 0%float; m_HorizonLagXids := 0; m_HorizonDatabase := "";
  m_TimedCheckpoints := 100; m_RequestedCheckpoints := 1; m_ActiveLockWaiters := 0; m_LongestLockWaitSeconds := 0%float;
  m_UngrantedLocks := 0; m_DeadlocksTotal := 0; m_HeavyweightLocksTotal := 10; m_MaxLocksPerTransaction := 64;
  m_HotUpdateRatio := 1%float; m_NewpageUpdateRatio := 0%float; m_StalePlannerStatsTables := 0; m_WalLevel := "replica";
  m_LogicalSlotsActive := 0
|}.

#[local] Instance quoted : Identifier := λ parts, GoSlices.strings_Join parts ".".

Definition silent : RawResult :=
  mkRawResult (rawWithRegression (NewSignals 0) (mkBaselines 0 0)) (NewSignals 0) None.

(** A datasource that knows the dead tuples, and nothing else. *)
Definition partial_signals : Signals := Set_ (NewSignals 0) SigMaxDeadRatio 40.
Definition partial : RawResult :=
  mkRawResult (rawWithRegression partial_signals (mkBaselines 0 0)) partial_signals None.

Definition sample_inputs (r : option RawResult) : inputs :=
  mkInputs r (inr sample_snapshot) (inr (Some 0.2%float)) (cold_status ColdNoStorage).

#[local] Instance sample_reads : Reads := {
  metrics_enabled := true;
  CurrentRaw _ := silent;
  ColdTables_ _ := cold_status ColdNoStorage;
  GetHealthScoreMetrics _ _ _ := inr sample_snapshot;
  GetSequenceHeadroom _ _ := inr (Some 0.2%float);
  GetHealthScoreColdTables _ _ _ _ := None;
  Clusters_ := Some [("c", SourceYandexMDB)];
  GetHealthWeights := None;
  thresholds_ := ∅
}.

Definition sample_recommendations (r : option RawResult) : list (string * string) :=
  match Recommendations (λ _ _, sample_inputs r) (mkTarget "c" "h") "" with
  | inr recs => (λ rec, (RuleID rec, rec_Database rec)) <$> recs
  | inl _ => []
  end.

Example sample_attribution :
  sample_recommendations (Some partial) =
    [("high_connection_ratio", ""); ("high_max_dead_ratio", ""); ("low_cache_hit_ratio", "app")] ∧
  sample_recommendations (Some silent) =
    [("high_connection_ratio", ""); ("high_max_dead_ratio", "app"); ("low_cache_hit_ratio", "app")].
Proof. by vm_compute. Qed.

Lemma empty_datasource_harmless_witness : ∀ db,
  Recommendations (λ _ _, sample_inputs (Some silent)) (mkTarget "c" "h") db
  = Recommendations (λ _ _, sample_inputs None) (mkTarget "c" "h") db.
Proof.
  refine (proj1 (empty_datasource_harmless (λ _ _, sample_inputs (Some silent)) (λ _ _, sample_inputs None)
    (mkTarget "c" "h") silent (mkClusterContext DefaultWeights true) _ _)).
  - done.
  - split_and!; [done..|]. by exists (mkBaselines 0 0).
Defined.

Definition partial_composed : RawMetrics :=
  match compose ∅ (sample_inputs (Some partial)) true with inr (raw, _, _) => raw | inl _ => rawFromSnapshot sample_snapshot end.

Lemma gap_attribution_witness : ∃ rec, rec ∈ Evaluate partial_composed false ∧
  RuleID rec = "high_max_dead_ratio" ∧ rec_Database rec = "".
Proof.
  assert (Hl : RuleID <$> Evaluate partial_composed false !! 1%nat = Some "high_max_dead_ratio") by (vm_compute; reflexivity).
  destruct (Evaluate partial_composed false !! 1%nat) as [rec|] eqn:Hrec; [|discriminate Hl]. injection Hl as Hid.
  apply list_elem_of_lookup_2 in Hrec. exists rec. split; [exact Hrec|]. split; [exact Hid|].
  refine (gap_attribution ∅ (sample_inputs (Some partial)) true partial sample_snapshot partial_composed 1 SigMaxDeadRatio rec
    _ _ _ _ Hrec _).
  - reflexivity.
  - reflexivity.
  - reflexivity.
  - vm_compute. reflexivity.
  - rewrite Hid. apply (bool_decide_unpack _). vm_compute. exact I.
Defined.
