(* ===== verification/HealthFleet.v ===== *)
(** * [internal/healthscore/fleet.go]: the worst instances of a fleet

    The configuration ([config.FleetConfig]), the instances of a request, the prefilter that
    ranks them by metrics alone, the queue that scores them one snapshot at a time within a
    budget, and what is remembered for the next computations. The computations themselves, shared
    by concurrent callers, are in [FleetFlights]. *)

From S2P Require Import Prelude GoSlices GoFloat GoFloatOrder GoFmt HotObjects Health MetricSignals HealthScorer.
From stdpp Require Import options.

#[local] Open Scope string_scope.
#[local] Open Scope Z_scope.
#[local] Open Scope list_scope.

(** ** Configuration ([config.go]) *)

Record FleetConfig := mkFleetConfig {
  Budget : duration; DefaultLimit : Z; CandidateMargin : option Z; StickyTTL : duration; ResultTTL : duration;
  SnapshotConcurrency : Z; InstanceTimeout : duration; AllowExhaustive : bool; MaxComputations : Z
}.

Definition DefaultFleetBudget : duration := 10 * Second.
Definition MaxFleetBudget : duration := 25 * Second.
Definition DefaultFleetLimit : Z := 20.
Definition MaxFleetLimit : Z := 50.
Definition DefaultFleetCandidateMargin : Z := 15.
Definition DefaultFleetStickyTTL : duration := Hour.
Definition DefaultFleetResultTTL : duration := Minute.
Definition DefaultFleetSnapshotConcurrency : Z := 8.
Definition DefaultFleetInstanceTimeout : duration := 5 * Second.
Definition DefaultFleetMaxComputations : Z := 4.

Definition positive_or (d x : Z) : Z := if x <=? 0 then d else x.

Definition WithDefaults (c : FleetConfig) : FleetConfig :=
  mkFleetConfig (positive_or DefaultFleetBudget (Budget c)) (positive_or DefaultFleetLimit (DefaultLimit c))
    (Some (default DefaultFleetCandidateMargin (CandidateMargin c))) (positive_or DefaultFleetStickyTTL (StickyTTL c))
    (positive_or DefaultFleetResultTTL (ResultTTL c)) (positive_or DefaultFleetSnapshotConcurrency (SnapshotConcurrency c))
    (positive_or DefaultFleetInstanceTimeout (InstanceTimeout c)) (AllowExhaustive c)
    (positive_or DefaultFleetMaxComputations (MaxComputations c)).

(** No error, that is. *)
Definition Validate_fleet (c : FleetConfig) : bool :=
  let c := WithDefaults c in
  (Budget c <=? MaxFleetBudget) && (InstanceTimeout c <? Budget c) && (0 <=? default 0 (CandidateMargin c))
  && (DefaultLimit c <=? MaxFleetLimit).

(** ** Data *)

Record FleetItem := mkItem {
  it_Target : TargetRef; it_Score : option float; it_Source : Source; it_InRecovery : bool; it_Degraded : bool;
  it_Err : string; uncomputed : bool
}.

Record FleetResult := mkFleetResult {
  Items : list FleetItem; InstancesTotal : Z; InstancesScored : Z; Candidates : Z; Uncomputed : Z;
  Incomplete : bool; MetricsUnavailable : bool; ComputedAt : time
}.

Record knownScore := mkKnown { k_score : float; k_at : time; k_topAt : time }.

Record clusterInputs := mkClusterInputs { ci_cc : ClusterContext; ci_err : option string }.

Record fleetPlan := mkPlan {
  candidates : list TargetRef; sqlOnly : list TargetRef; sweep : list TargetRef; withMetrics : Z; floor : Z;
  sticky : Z; unmapped : Z; failed : Z; unavailable : bool
}.

Definition errBudgetExceeded : string := "budget exceeded".
Definition errNoMetrics : metrics_error := ErrMetrics "no metrics for target".
Definition errInternal : string := "internal error".

Definition target_less : TargetRef → TargetRef → bool :=
  lex_less (less_on Cluster str_ltb) (less_on Instance_ str_ltb).

(** ** The instances of a request *)

(** A cluster of the registry: its name, the source that published it and its hosts. *)
Record ClusterInfo := mkClusterInfo { c_Name : string; c_Source : string; c_Instances : list string }.

Definition wanted (filter : list string) (c : ClusterInfo) : bool :=
  bool_decide (filter = []) || bool_decide (c_Name c ∈ filter).

(** An error names the missing clusters, sorted; the second result is the map of the clusters
    that fix [wal_level]. *)
Definition targets (clusters : list ClusterInfo) (names : list string) : list string + (list TargetRef * gmap string bool) :=
  let chosen := filter (wanted names) clusters in
  let out := concat ((λ c, mkTarget (c_Name c) <$> c_Instances c) <$> chosen) in
  let walFixed : gmap string bool := foldl (λ m c, <[c_Name c := walLevelFixed (c_Source c)]> m) ∅ chosen in
  let missing := filter (λ name, walFixed !! name = None) (firsts names) in
  match missing with
  | [] => inr (sort_slice target_less out, walFixed)
  | _ => inl (sort_slice str_ltb missing)
  end.

Section inputs.
Context `{!Reads}.

Definition clusterInputs_ (walFixed : gmap string bool) : gmap string clusterInputs :=
  map_imap (λ name fixed,
    let '(w, err) := Weights_ name in
    Some (mkClusterInputs (mkClusterContext w fixed) ((λ _ : read_error, "Score | Weights") <$> err))) walFixed.
End inputs.

(** The zero value of a map's element. *)
Definition no_inputs : clusterInputs := mkClusterInputs (mkClusterContext (mkWeights 0 0 0 0 0 0 0 0) false) None.

(** ** What is known of earlier computations *)

Abbreviation known_map := (gmap TargetRef knownScore) (only parsing).

Definition fresh (ttl : duration) (now at_ : time) : bool := time_sub now at_ <? ttl.

Definition remember_item (limit : nat) (at_ : time) (known : known_map) (x : nat * FleetItem) : known_map :=
  match it_Score x.2 with
  | None => known
  | Some score =>
      let k := default (mkKnown 0 zero_time zero_time) (known !! it_Target x.2) in
      <[it_Target x.2 := mkKnown score at_ (if decide (x.1 < limit)%nat then at_ else k_topAt k)]> known
  end.

Definition lives (ttl : duration) (at_ : time) (k : knownScore) : bool := fresh ttl at_ (k_at k) || fresh ttl at_ (k_topAt k).

Definition remember (ttl : duration) (known : known_map) (items : list FleetItem) (limit : nat) (at_ : time) : known_map :=
  filter (λ x, lives ttl at_ x.2 = true) (foldl (remember_item limit at_) known (imap pair items)).

(** Known scores first, lowest first. *)
Definition opt_less (a b : option float) : bool :=
  match a, b with Some a, Some b => float_less a b | Some _, None => true | None, _ => false end.

Definition known_score (ttl : duration) (known : known_map) (now : time) (t : TargetRef) : option float :=
  k ← known !! t; if fresh ttl now (k_at k) then Some (k_score k) else None.

Definition byKnownScore (ttl : duration) (known : known_map) (now : time) (targets : list TargetRef) : list TargetRef :=
  sort_stable (less_on (known_score ttl known now) opt_less) targets.

Definition stalestFirst (known : known_map) (targets : list TargetRef) : list TargetRef :=
  sort_stable (less_on (λ t, default zero_time (k_at <$> known !! t)) Z.ltb) targets.

(** ** The prefilter *)

Record ranked := mkRanked { rk_t : TargetRef; rk_score : float; rk_floor : bool }.

(** What the metrics say of a target. *)
Inductive class := CUnmapped | CFailed | CUnranked | CRanked (r : ranked).

Definition is_unmapped (c : class) : bool := match c with CUnmapped => true | _ => false end.
Definition is_failed (c : class) : bool := match c with CFailed => true | _ => false end.
Definition is_unranked (c : class) : bool := match c with CUnranked => true | _ => false end.
Definition as_ranked (c : class) : option ranked := match c with CRanked r => Some r | _ => None end.

Section prefilter.
Context (cfg : FleetConfig) (seqThresholds : gmap string float) (clusters : gmap string clusterInputs).

Definition raw_with_thresholds (raw : RawMetrics) : RawMetrics :=
  with_facts (MetricsInstanceWide raw) (WalLevelManaged raw) seqThresholds (SequenceExhaustionMax raw) (Cold raw) raw.

Definition classify (sigs : gmap TargetRef Signals) (errs : gmap TargetRef metrics_error) (t : TargetRef) : class :=
  match errs !! t with
  | Some ErrTargetNotMapped => CUnmapped
  | Some _ => CFailed
  | None =>
      let sig := default (NewSignals zero_time) (sigs !! t) in
      if decide (Have sig = ∅) then CUnranked
      else
        let raw := raw_with_thresholds (ToRawMetrics sig) in
        CRanked (mkRanked t (r_Score (CalculateWithWeights raw (cc_Weights (ci_cc (default no_inputs (clusters !! Cluster t))))))
          (Floored raw))
  end.

(** A target ranks by the lower of its estimate and its last exact score. *)
Definition rerank (known : known_map) (now : time) (r : ranked) : ranked :=
  match known !! rk_t r with
  | Some k => if fresh (StickyTTL cfg) now (k_at k) then mkRanked (rk_t r) (go_min (rk_score r) (k_score k)) (rk_floor r) else r
  | None => r
  end.

Definition is_sticky (known : known_map) (now : time) (t : TargetRef) : bool :=
  match known !! t with Some k => fresh (StickyTTL cfg) now (k_topAt k) | None => false end.

(** [add] over a list: the candidates, and how many were new. *)
Definition add (out : list TargetRef) (t : TargetRef) : list TargetRef := if decide (t ∈ out) then out else out ++ [t].
Definition add_all (out ts : list TargetRef) : list TargetRef := foldl add out ts.

Definition take_count : nat := Z.to_nat (MaxFleetLimit + default 0 (CandidateMargin cfg)).

(** [rankedAll] is in order; the candidates by precedence, and what is left of it. *)
Definition choose (rankedAll : list ranked) (sticky_ : TargetRef → bool) (unranked failed_ : list TargetRef) :
  list TargetRef * nat * nat * list TargetRef :=
  let floors := add_all [] (rk_t <$> filter (λ r, rk_floor r = true) rankedAll) in
  let stickies := add_all floors (rk_t <$> filter (λ r, sticky_ (rk_t r) = true) rankedAll) in
  let tops := add_all stickies (rk_t <$> take take_count rankedAll) in
  let out := add_all (add_all tops unranked) failed_ in
  (out, length floors, (length stickies - length floors)%nat, filter (λ t, t ∉ out) (rk_t <$> rankedAll)).

(** What a computation finds in [f.known] at its three reads, and the times of two of them. *)
Record glimpses := mkGlimpses { known_rank : known_map; now_rank : time; known_sql : known_map; now_sql : time; known_sweep : known_map }.

(** [InstantMany] of the datasource, when there is one; [alive] when the budget is not spent
    once it answered. *)
Definition prefilter (datasource : option (list TargetRef → gmap TargetRef Signals * gmap TargetRef metrics_error))
    (alive : bool) (g : glimpses) (targets : list TargetRef) (exhaustive : bool) : fleetPlan :=
  match datasource with
  | None => mkPlan [] (byKnownScore (StickyTTL cfg) (known_sql g) (now_sql g) targets) [] 0 0 0 0 0 false
  | Some instantMany =>
      if exhaustive then mkPlan targets [] [] (Z.of_nat (length targets)) 0 0 0 0 false
      else
        let '(sigs, errs) := instantMany targets in
        let class := classify sigs errs in
        let unmapped_ := filter (λ t, is_unmapped (class t) = true) targets in
        let failed_ := filter (λ t, is_failed (class t) = true) targets in
        let unranked := filter (λ t, is_unranked (class t) = true) targets in
        let rankedAll := omap (λ t, as_ranked (class t)) targets in
        let down := negb (bool_decide (failed_ = [])) && bool_decide (length rankedAll = 0%nat) && bool_decide (unranked = []) && alive in
        let sql := if down then unmapped_ ++ failed_ else unmapped_ in
        let rest := if down then [] else failed_ in
        let order := sort_stable (less_on rk_score float_less) (rerank (known_rank g) (now_rank g) <$> rankedAll) in
        let '(out, floors, stickies, passed) := choose order (is_sticky (known_rank g) (now_rank g)) unranked rest in
        mkPlan out (byKnownScore (StickyTTL cfg) (known_sql g) (now_sql g) sql) (stalestFirst (known_sweep g) passed)
          (Z.of_nat (length targets) - Z.of_nat (length sql)) (Z.of_nat floors) (Z.of_nat stickies)
          (Z.of_nat (length unmapped_)) (Z.of_nat (length failed_)) down
  end.
End prefilter.

(** ** The queue *)

(** The zero [RawMetrics]. *)
Definition no_raw : RawMetrics := raw_of (mkPerDB "" 0 0 0 0 0 0 0 0 0 0 0 0).

Definition without_raw : RawResult := mkRawResult no_raw (NewSignals zero_time) (Some errNoMetrics).

Definition uncomputedItem (t : TargetRef) : FleetItem := mkItem t None SourceNone false false errBudgetExceeded true.

(** What [ScoreWith] makes of a target: a panic, the text of an error, or a score; [dead] when
    the budget is spent once it returned. *)
Definition scoreOne (scorer : TargetRef → option RawResult → ClusterContext → option (string + InstanceScore))
    (dead : TargetRef → bool) (t : TargetRef) (pre : RawResult) (ci : clusterInputs) : FleetItem :=
  match ci_err ci with
  | Some e => mkItem t None SourceNone false false e false
  | None =>
      match scorer t (Some pre) (ci_cc ci) with
      | None => mkItem t None SourceNone false false errInternal false
      | Some (inl e) => if dead t then uncomputedItem t else mkItem t None SourceNone false false e false
      | Some (inr sc) =>
          mkItem t (Some (r_Score (is_Result sc))) (is_Source sc) (r_InRecovery (is_Result sc)) (HealthScorer.MetricsDegraded sc) "" false
      end
  end.

Record fleetJob := mkJob { j_i : nat; j_t : TargetRef; j_pre : RawResult }.

(** What the loop meets at its [n]-th turn: whether it gets a slot before the budget is
    spent, whether the metrics are in, and whether they come before the budget is spent when
    there is nothing else to do. *)
Record turns := mkTurns { acquires : nat → bool; ready : nat → bool; late : nat → bool }.

(** The jobs started, in order; [None] is out of fuel. [raws] is what [readRaw] sends. *)
Fixpoint dispatch (fuel : nat) (w : turns) (raws : gmap TargetRef RawResult) (cands sqls : list TargetRef) (n ci si : nat)
    (pending : bool) : option (list fleetJob) :=
  match fuel with
  | O => None
  | S fuel =>
      match cands !! ci, sqls !! si with
      | None, None => Some []
      | cand, sql =>
          if negb (acquires w n) then Some []
          else
            let pending := pending && negb (ready w n) in
            match (if pending then None else cand), sql with
            | Some t, _ =>
                cons (mkJob ci t (default without_raw (raws !! t))) <$> dispatch fuel w raws cands sqls (S n) (S ci) si pending
            | None, Some t =>
                cons (mkJob (length cands + si) t without_raw) <$> dispatch fuel w raws cands sqls (S n) ci (S si) pending
            | None, None => if late w n then dispatch fuel w raws cands sqls (S n) ci si false else Some []
            end
      end
  end.

Definition dispatch_fuel (cands sqls : list TargetRef) : nat := S (S (length cands + length sqls)).

Definition item_less : FleetItem → FleetItem → bool :=
  lex_less (less_on it_Score opt_less) (less_on it_Target target_less).

Section queue.
Context (scorer : TargetRef → option RawResult → ClusterContext → option (string + InstanceScore)) (dead : TargetRef → bool).
Context (clusters : gmap string clusterInputs).

Definition run_job (items : list FleetItem) (j : fleetJob) : list FleetItem :=
  <[j_i j := scoreOne scorer dead (j_t j) (j_pre j) (default no_inputs (clusters !! Cluster (j_t j)))]> items.

(** [readRaw] answers [CurrentRawMany], or nothing after a panic. *)
Definition scoreAll (w : turns) (readRaw : list TargetRef → gmap TargetRef RawResult) (cands sqls : list TargetRef) :
  option (list FleetItem) :=
  let items := uncomputedItem <$> cands ++ sqls in
  jobs ← dispatch (dispatch_fuel cands sqls) w (readRaw cands) cands sqls 0 0 0 (negb (bool_decide (cands = [])));
  Some (sort_stable item_less (foldl run_job items jobs)).

Definition is_scored (it : FleetItem) : bool := match it_Score it with Some _ => true | None => false end.
Definition is_uncomputed (it : FleetItem) : bool := negb (is_scored it) && uncomputed it.

Definition count {A} (f : A → bool) (l : list A) : Z := Z.of_nat (length (filter (λ x, f x = true) l)).

(** The overview, the scores remembered and the targets left to the sweep. [known] is what is
    known when the items are in. *)
Definition compute (cfg : FleetConfig) (w : turns) (readRaw : list TargetRef → gmap TargetRef RawResult) (known : known_map)
    (targets : list TargetRef) (plan : fleetPlan) (start : time) : option (FleetResult * known_map * list TargetRef) :=
  items ← scoreAll w readRaw (candidates plan) (sqlOnly plan);
  let left_ := count is_uncomputed items in
  Some (mkFleetResult (take (Z.to_nat MaxFleetLimit) items) (Z.of_nat (length targets)) (count is_scored items)
      (Z.of_nat (length (candidates plan))) left_ (0 <? left_) (unavailable plan) start,
    remember (StickyTTL cfg) known items (Z.to_nat (DefaultLimit cfg)) start, sweep plan).

(** ** The sweep *)

Definition sweepChunk : nat := 32.

(** [slices.Chunk]; the fuel is the length. *)
Fixpoint chunks {A} (fuel : nat) (l : list A) : list (list A) :=
  match fuel, l with
  | S fuel, _ :: _ => take sweepChunk l :: chunks fuel (drop sweepChunk l)
  | _, _ => []
  end.

(** [alive] before each chunk; [w], [others] are the queue's turns and what other computations
    make of [f.known], by chunk. *)
Definition sweep_chunk (cfg : FleetConfig) (w : nat → turns) (readRaw : list TargetRef → gmap TargetRef RawResult)
    (alive : nat → bool) (others : nat → known_map → known_map) (at_ : time)
    (st : option (nat * bool * known_map)) (chunk : list TargetRef) : option (nat * bool * known_map) :=
  '(n, stopped, known) ← st;
  if stopped || negb (alive n) then Some (n, true, known)
  else
    items ← scoreAll (w n) readRaw chunk [];
    Some (S n, false, remember (StickyTTL cfg) (others n known) items 0 at_).

Definition sweep_ (cfg : FleetConfig) (w : nat → turns) (readRaw : list TargetRef → gmap TargetRef RawResult)
    (alive : nat → bool) (others : nat → known_map → known_map) (at_ : time) (known : known_map) (targets : list TargetRef) :
  option known_map :=
  snd <$> foldl (sweep_chunk cfg w readRaw alive others at_) (Some (0%nat, false, known)) (chunks (length targets) targets).
End queue.

(** [Worst], once the computation is there: the first rows of its result. *)
Definition worst_items (cfg : FleetConfig) (limit : Z) (res : FleetResult) : list FleetItem :=
  take (Z.to_nat (if limit <=? 0 then DefaultLimit cfg else limit)) (Items res).

(** ** Orders *)

#[global] Instance opt_less_strict : StrictWeak opt_less.
Proof.
  split.
  - intros [x|] [y|]; cbn; try done. apply less_asym.
  - intros [x|] [y|] [z|]; cbn; try done. apply less_neg_trans.
Qed.

#[global] Instance item_less_strict : StrictWeak item_less.
Proof. unfold item_less, target_less. apply _. Qed.

#[global] Instance target_less_strict : StrictWeak target_less.
Proof. unfold target_less. apply _. Qed.

Lemma sort_stable_not_less {A} (less : A → A → bool) `{!StrictWeak less} l : StronglySorted (not_less less) (sort_stable less l).
Proof.
  assert (Hs : StronglySorted (stably less (λ _ _, True)) (sort_stable less l)).
  { apply (sort_stable_sorted _). induction l; constructor; [done|]. by apply Forall_true. }
  induction Hs as [|x k Hs IH Hall]; constructor; [done|].
  eapply Forall_impl; [exact Hall|]. intros y. apply (stably_not_less _).
Qed.

(** ** What the queue does *)

(** The metrics read for the [i]-th target of the queue. *)
Definition pre_of (raws : gmap TargetRef RawResult) (cands : list TargetRef) (i : nat) (t : TargetRef) : RawResult :=
  if decide (i < length cands)%nat then default without_raw (raws !! t) else without_raw.

Lemma dispatch_total fuel w raws cands sqls n ci si (pending : bool) :
  ((if pending then 1 else 0) + (length cands - ci) + (length sqls - si) < fuel)%nat →
  is_Some (dispatch fuel w raws cands sqls n ci si pending).
Proof.
  revert n ci si pending. induction fuel as [|fuel IH]; intros n ci si pending Hf; [lia|]. cbn [dispatch].
  destruct (cands !! ci) as [c|] eqn:Hc, (sqls !! si) as [s|] eqn:Hs; [..|done]; destruct (acquires w n); cbn [negb]; try done.
  - apply lookup_lt_Some in Hc, Hs. destruct pending, (ready w n); cbn [andb negb] in *; apply fmap_is_Some, IH; lia.
  - apply lookup_lt_Some in Hc. destruct pending, (ready w n); cbn [andb negb] in *; try (apply fmap_is_Some, IH; lia).
    destruct (late w n); [|done]. apply IH. lia.
  - apply lookup_lt_Some in Hs. assert ((if pending && negb (ready w n) then @None TargetRef else None) = None) as -> by by destruct (pending && _).
    apply fmap_is_Some, IH. destruct pending, (ready w n); cbn [andb negb] in *; lia.
Qed.

(** The jobs started from a point of the queue on. *)
Record jobs_from (raws : gmap TargetRef RawResult) (cands sqls : list TargetRef) (ci si : nat) (jobs : list fleetJob) : Prop := {
  jobs_nodup : NoDup (j_i <$> jobs);
  jobs_row : ∀ j, j ∈ jobs → (cands ++ sqls) !! j_i j = Some (j_t j) ∧ j_pre j = pre_of raws cands (j_i j) (j_t j) ∧
    ((ci ≤ j_i j < length cands)%nat ∨ (length cands + si ≤ j_i j)%nat)
}.

Lemma jobs_from_nil raws cands sqls ci si : jobs_from raws cands sqls ci si [].
Proof. split; [constructor|]. by intros j ?%not_elem_of_nil. Qed.

Lemma jobs_from_cand raws cands sqls ci si t jobs : cands !! ci = Some t → jobs_from raws cands sqls (S ci) si jobs →
  jobs_from raws cands sqls ci si (mkJob ci t (default without_raw (raws !! t)) :: jobs).
Proof.
  intros Ht [Hnd Hrow]. pose proof (lookup_lt_Some _ _ _ Ht) as Hlt. split.
  - rewrite fmap_cons, NoDup_cons. split; [|done]. intros Hin. apply list_elem_of_fmap in Hin as (j & Hj & Hin).
    destruct (Hrow j Hin) as (_ & _ & Hr). cbn in Hj. lia.
  - intros j [->|Hin]%elem_of_cons; cbn [j_i j_t j_pre].
    + split_and!; [by rewrite lookup_app_l|unfold pre_of; by rewrite decide_True|lia].
    + destruct (Hrow j Hin) as (H1 & H2 & H3). split_and!; [done..|lia].
Qed.

Lemma jobs_from_sql raws cands sqls ci si t jobs : sqls !! si = Some t → jobs_from raws cands sqls ci (S si) jobs →
  jobs_from raws cands sqls ci si (mkJob (length cands + si) t without_raw :: jobs).
Proof.
  intros Ht [Hnd Hrow]. split.
  - rewrite fmap_cons, NoDup_cons. split; [|done]. intros Hin. apply list_elem_of_fmap in Hin as (j & Hj & Hin).
    destruct (Hrow j Hin) as (_ & _ & Hr). cbn in Hj. lia.
  - intros j [->|Hin]%elem_of_cons; cbn [j_i j_t j_pre].
    + split_and!; [rewrite lookup_app_r by lia; by replace (length cands + si - length cands)%nat with si by lia
                  |unfold pre_of; by rewrite decide_False by lia|lia].
    + destruct (Hrow j Hin) as (H1 & H2 & H3). split_and!; [done..|lia].
Qed.

Lemma dispatch_jobs fuel w raws cands sqls n ci si pending jobs :
  dispatch fuel w raws cands sqls n ci si pending = Some jobs → jobs_from raws cands sqls ci si jobs.
Proof.
  revert n ci si pending jobs. induction fuel as [|fuel IH]; intros n ci si pending jobs; [done|]. cbn [dispatch].
  destruct (cands !! ci) as [c|] eqn:Hc, (sqls !! si) as [s|] eqn:Hs;
    [..|intros [= <-]; apply jobs_from_nil]; (destruct (acquires w n); cbn [negb]; [|intros [= <-]; apply jobs_from_nil]).
  all: destruct (pending && negb (ready w n)).
  all: try (intros (jobs' & Hj & ->)%fmap_Some; apply IH in Hj; by (apply jobs_from_sql || apply jobs_from_cand)).
  destruct (late w n); [|intros [= <-]; apply jobs_from_nil]. apply IH.
Qed.

(** With a slot at every turn, and metrics that come, every target is started. *)
Lemma dispatch_all fuel w raws cands sqls n ci si pending jobs :
  (∀ n, acquires w n = true ∧ late w n = true) → dispatch fuel w raws cands sqls n ci si pending = Some jobs →
  ∀ i, (ci ≤ i < length cands ∨ length cands + si ≤ i < length cands + length sqls)%nat → i ∈ j_i <$> jobs.
Proof.
  intros Hw. revert n ci si pending jobs. induction fuel as [|fuel IH]; intros n ci si pending jobs; [done|]. cbn [dispatch].
  destruct (Hw n) as [Ha Hl]. rewrite Ha, Hl. cbn [negb].
  destruct (cands !! ci) as [c|] eqn:Hc, (sqls !! si) as [s|] eqn:Hs.
  4: { apply lookup_ge_None in Hc, Hs. intros _ i Hi. lia. }
  all: try (apply lookup_ge_None in Hc); try (apply lookup_ge_None in Hs); destruct (pending && negb (ready w n)).
  all: first [intros (jobs' & Hj & ->)%fmap_Some i Hi; rewrite fmap_cons; cbn [j_i]; apply elem_of_cons;
                match goal with |- i = ?x ∨ _ => destruct (decide (i = x)); [by left|right] end; eapply IH; [exact Hj|lia]
             |intros Hj i Hi; eapply IH; [exact Hj|lia]].
Qed.

Section queue_lemmas.
Context (scorer : TargetRef → option RawResult → ClusterContext → option (string + InstanceScore)) (dead : TargetRef → bool).
Context (clusters : gmap string clusterInputs).

(** The row of a target that was started. *)
Definition started_row (t : TargetRef) (pre : RawResult) : FleetItem :=
  scoreOne scorer dead t pre (default no_inputs (clusters !! Cluster t)).

(** The rows before the sort. *)
Definition rows (started : nat → bool) (raws : gmap TargetRef RawResult) (cands sqls : list TargetRef) : list FleetItem :=
  imap (λ i t, if started i then started_row t (pre_of raws cands i t) else uncomputedItem t) (cands ++ sqls).

Lemma run_jobs_lookup jobs items i : NoDup (j_i <$> jobs) → (i < length items)%nat →
  foldl (run_job scorer dead clusters) items jobs !! i =
    match head (filter (λ j, j_i j = i) jobs) with Some j => Some (started_row (j_t j) (j_pre j)) | None => items !! i end.
Proof using Type.
  revert items. induction jobs as [|j jobs IH]; intros items Hnd Hi; [done|]. rewrite fmap_cons, NoDup_cons in Hnd.
  destruct Hnd as [Hj Hnd]. cbn [foldl]. rewrite IH by (done || (unfold run_job; by rewrite length_insert)).
  destruct (decide (j_i j = i)) as [Heq|Hne].
  - rewrite (filter_cons_True _ j) by done. cbn [head]. rewrite (filter_none _ jobs).
    + cbn. unfold run_job. rewrite Heq. by rewrite list_lookup_insert_eq by done.
    + apply list.Forall_forall. intros j' Hin Heq'. apply Hj. rewrite Heq, <- Heq'. by apply list_elem_of_fmap_2.
  - rewrite (filter_cons_False _ j) by done. destruct (head _); [done|]. unfold run_job. by rewrite list_lookup_insert_ne.
Qed.

Lemma run_jobs_rows raws cands sqls jobs : jobs_from raws cands sqls 0 0 jobs →
  foldl (run_job scorer dead clusters) (uncomputedItem <$> cands ++ sqls) jobs
  = rows (λ i, bool_decide (i ∈ j_i <$> jobs)) raws cands sqls.
Proof using Type.
  intros [Hnd Hrow]. assert (Hlen : length (foldl (run_job scorer dead clusters) (uncomputedItem <$> cands ++ sqls) jobs) = length (cands ++ sqls)).
  { clear. rewrite <- (length_fmap uncomputedItem (cands ++ sqls)). generalize (uncomputedItem <$> cands ++ sqls).
    induction jobs as [|j jobs IH]; intros l; [done|]. cbn [foldl]. rewrite IH. unfold run_job. apply length_insert. }
  unfold rows. apply list_eq_same_length with (n := length (cands ++ sqls)); [by rewrite length_imap|done|].
  intros i x y Hi. rewrite run_jobs_lookup by (done || by rewrite length_fmap). rewrite list_lookup_imap.
  destruct (lookup_lt_is_Some_2 (cands ++ sqls) i Hi) as [t Ht]. rewrite list_lookup_fmap, Ht. cbn [fmap option_fmap option_map].
  destruct (head (filter _ jobs)) as [j|] eqn:Hh.
  - apply head_Some_elem_of, list_elem_of_filter in Hh as [Heq Hin]. destruct (Hrow j Hin) as (Hjt & Hjp & _).
    rewrite bool_decide_eq_true_2 by (rewrite <- Heq; by apply list_elem_of_fmap_2).
    rewrite Hjp, Heq. rewrite Heq, Ht in Hjt. injection Hjt as <-. by intros [= <-] [= <-].
  - rewrite bool_decide_eq_false_2; [by intros [= <-] [= <-]|]. intros Hin. apply list_elem_of_fmap in Hin as (j & -> & Hin).
    apply head_None in Hh. assert (Hf : j ∈ filter (λ j', j_i j' = j_i j) jobs) by by apply list_elem_of_filter.
    rewrite Hh in Hf. by apply not_elem_of_nil in Hf.
Qed.

(** The queue ends, whatever it meets, with one row per target: what scoring it gives, or
    the row of one it did not reach. *)
Lemma scoreAll_rows w readRaw cands sqls : ∃ started,
  scoreAll scorer dead clusters w readRaw cands sqls
    = Some (sort_stable item_less (rows started (readRaw cands) cands sqls)) ∧
  ((∀ n, acquires w n = true ∧ late w n = true) → ∀ i, (i < length (cands ++ sqls))%nat → started i = true).
Proof using Type.
  destruct (dispatch_total (dispatch_fuel cands sqls) w (readRaw cands) cands sqls 0 0 0 (negb (bool_decide (cands = []))))
    as [jobs Hjobs]; [unfold dispatch_fuel; case_match; lia|].
  exists (λ i, bool_decide (i ∈ j_i <$> jobs)). unfold scoreAll. rewrite Hjobs. split.
  - cbn [mbind option_bind]. rewrite (run_jobs_rows (readRaw cands)); [done|]. by eapply dispatch_jobs.
  - intros Hw i Hi. apply bool_decide_eq_true_2. eapply dispatch_all; [exact Hw|exact Hjobs|]. rewrite length_app in Hi. lia.
Qed.

Lemma scoreOne_target t pre ci : it_Target (scoreOne scorer dead t pre ci) = t.
Proof using Type. unfold scoreOne. repeat case_match; done. Qed.

Lemma rows_targets started raws cands sqls : it_Target <$> rows started raws cands sqls = cands ++ sqls.
Proof using Type.
  unfold rows. rewrite fmap_imap. apply list_eq. intros i. rewrite list_lookup_imap.
  destruct ((cands ++ sqls) !! i) as [t|]; [|done]. cbn. f_equal. destruct (started i); [apply scoreOne_target|done].
Qed.
End queue_lemmas.

(** ** What the prefilter does *)

Lemma add_all_spec out ts : NoDup out → NoDup (add_all out ts) ∧ ∀ t, t ∈ add_all out ts ↔ t ∈ out ∨ t ∈ ts.
Proof.
  revert out. unfold add_all. induction ts as [|x ts IH]; intros out Hnd; cbn [foldl].
  - split; [done|]. intros t. rewrite elem_of_nil. tauto.
  - assert (Hadd : NoDup (add out x) ∧ ∀ t, t ∈ add out x ↔ t ∈ out ∨ t = x).
    { unfold add. case_decide as Hx; [split; [done|]; intros t; split; [tauto|by intros [?| ->]]|].
      split; [apply NoDup_app; split_and!; [done| |apply NoDup_singleton]|].
      - intros t Ht ->%list_elem_of_singleton. done.
      - intros t. by rewrite elem_of_app, list_elem_of_singleton. }
    destruct (IH _ (proj1 Hadd)) as [Hnd' Hin]. split; [done|]. intros t. rewrite Hin, (proj2 Hadd), elem_of_cons. tauto.
Qed.

Section prefilter_lemmas.
Context (cfg : FleetConfig) (seqThresholds : gmap string float) (clusters : gmap string clusterInputs).

Lemma choose_spec rankedAll sticky_ unranked failed_ :
  let '(out, _, _, passed) := choose cfg rankedAll sticky_ unranked failed_ in
  NoDup out ∧
  (∀ t, t ∈ out ↔ t ∈ rk_t <$> filter (λ r, rk_floor r = true ∨ sticky_ (rk_t r) = true) rankedAll
     ∨ t ∈ rk_t <$> take (take_count cfg) rankedAll ∨ t ∈ unranked ∨ t ∈ failed_) ∧
  passed = filter (λ t, t ∉ out) (rk_t <$> rankedAll).
Proof using Type.
  unfold choose. destruct (add_all_spec [] (rk_t <$> filter (λ r, rk_floor r = true) rankedAll)) as [Hn1 H1]; [constructor|].
  destruct (add_all_spec _ (rk_t <$> filter (λ r, sticky_ (rk_t r) = true) rankedAll) Hn1) as [Hn2 H2].
  destruct (add_all_spec _ (rk_t <$> take (take_count cfg) rankedAll) Hn2) as [Hn3 H3].
  destruct (add_all_spec _ unranked Hn3) as [Hn4 H4]. destruct (add_all_spec _ failed_ Hn4) as [Hn5 H5].
  split_and!; [done| |done]. intros t. rewrite H5, H4, H3, H2, H1, elem_of_nil, !list_elem_of_fmap.
  setoid_rewrite list_elem_of_filter. naive_solver.
Qed.

Lemma classify_target sigs errs t r : as_ranked (classify seqThresholds clusters sigs errs t) = Some r → rk_t r = t.
Proof using Type. unfold classify. repeat case_match; cbn; try done. all: by intros [= <-]. Qed.

Lemma rerank_target known now r : rk_t (rerank cfg known now r) = rk_t r.
Proof using Type. unfold rerank. by repeat case_match. Qed.

Lemma ranked_targets sigs errs (ts : list TargetRef) :
  rk_t <$> omap (λ t, as_ranked (classify seqThresholds clusters sigs errs t)) ts
  = filter (λ t, is_Some (as_ranked (classify seqThresholds clusters sigs errs t))) ts.
Proof using Type.
  induction ts as [|t ts IH]; [done|]. cbn [omap list_omap]. destruct (as_ranked _) as [r|] eqn:Hr.
  - rewrite fmap_cons, filter_cons_True by (rewrite Hr; by eexists). rewrite (classify_target _ _ _ _ Hr). by f_equal.
  - rewrite filter_cons_False; [done|]. rewrite Hr. by intros [? ?].
Qed.

(** The four classes of a fleet. *)
Lemma classes_perm sigs errs (ts : list TargetRef) : let class := classify seqThresholds clusters sigs errs in
  filter (λ t, is_unmapped (class t) = true) ts ++ filter (λ t, is_failed (class t) = true) ts
  ++ filter (λ t, is_unranked (class t) = true) ts ++ filter (λ t, is_Some (as_ranked (class t))) ts ≡ₚ ts.
Proof using Type.
  cbn zeta. induction ts as [|t ts IH]; [done|]. rewrite !filter_cons.
  destruct (classify seqThresholds clusters sigs errs t) as [| | |r] eqn:Hc; cbn [is_unmapped is_failed is_unranked as_ranked].
  all: repeat (destruct (decide (true = true)) as [_|?]; [|done]); repeat (destruct (decide (false = true)) as [?|_]; [done|]).
  all: try (destruct (decide (is_Some None)) as [[? ?]|_]; [done|]).
  - cbn. by rewrite IH.
  - cbn. by rewrite <- Permutation_middle, IH.
  - rewrite app_assoc. cbn. rewrite <- Permutation_middle, <- app_assoc. by rewrite IH.
  - destruct (decide (is_Some (Some r))) as [_|Hn]; [|by destruct Hn]. rewrite !app_assoc, <- Permutation_middle, <- !app_assoc.
    by rewrite IH.
Qed.
End prefilter_lemmas.

Lemma byKnownScore_perm ttl known now ts : byKnownScore ttl known now ts ≡ₚ ts.
Proof. apply sort_stable_perm. Qed.

Lemma stalestFirst_perm known ts : stalestFirst known ts ≡ₚ ts.
Proof. apply sort_stable_perm. Qed.

(** The candidates and what is left of the ranked are what they were chosen from. *)
Lemma choose_perm cfg rankedAll sticky_ unranked failed_ :
  NoDup ((rk_t <$> rankedAll) ++ unranked ++ failed_) →
  let '(out, _, _, passed) := choose cfg rankedAll sticky_ unranked failed_ in
  out ++ passed ≡ₚ (rk_t <$> rankedAll) ++ unranked ++ failed_.
Proof.
  intros Hnd. pose proof (choose_spec cfg rankedAll sticky_ unranked failed_) as Hc.
  destruct (choose _ _ _ _ _) as [[[out nf] ns] passed]. destruct Hc as (Hout & Hin & ->).
  apply NoDup_Permutation; [|done|].
  - apply NoDup_app. split_and!; [done| |].
    + intros t Ht. rewrite list_elem_of_filter. tauto.
    + apply NoDup_filter. by apply NoDup_app in Hnd as (? & _).
  - intros t. rewrite !elem_of_app, list_elem_of_filter. split.
    + intros [Ht|[_ Ht]]; [|by left]. apply Hin in Ht as [Ht|[Ht|Ht]]; [| |tauto]; left.
      * apply list_elem_of_fmap in Ht as (r & -> & Hr). apply list_elem_of_filter in Hr as [_ Hr]. by apply list_elem_of_fmap_2.
      * apply list_elem_of_fmap in Ht as (r & -> & Hr). apply list_elem_of_fmap_2. by eapply elem_of_take in Hr as (? & ? & ?); eapply list_elem_of_lookup_2.
    + intros Ht. destruct (decide (t ∈ out)) as [|Hn]; [by left|]. right. split; [done|]. destruct Ht as [|Ht]; [done|].
      exfalso. apply Hn, Hin. tauto.
Qed.

(** The prefilter of a fleet loses nobody: every instance of the request is, exactly once, a
    candidate, left to the SQL snapshot, or left to the sweep. An instance left to the sweep
    has metrics that raise no floor, was in no recent top, and there are as many candidates as the top
    and its margin hold none of which ranks above it. *)
Theorem prefilter_exact cfg seqThresholds clusters datasource alive g ts exhaustive : NoDup ts →
  let plan := prefilter cfg seqThresholds clusters datasource alive g ts exhaustive in
  candidates plan ++ sqlOnly plan ++ sweep plan ≡ₚ ts ∧
  ∀ t, t ∈ sweep plan → ∃ instantMany, datasource = Some instantMany ∧
    let '(sigs, errs) := instantMany ts in
    let rank t := as_ranked (classify seqThresholds clusters sigs errs t) in
    let estimate t := rk_score ∘ rerank cfg (known_rank g) (now_rank g) <$> rank t in
    ∃ r above, rank t = Some r ∧ rk_floor r = false ∧ is_sticky cfg (known_rank g) (now_rank g) t = false ∧
      NoDup above ∧ above ⊆ candidates plan ∧ length above = take_count cfg ∧
      ∀ t', t' ∈ above → ∃ s s', estimate t = Some s ∧ estimate t' = Some s' ∧ float_less s s' = false.
Proof.
  intros Hnd. cbn zeta. unfold prefilter. destruct datasource as [instantMany|].
  2: { split; [cbn; by rewrite app_nil_r, byKnownScore_perm|by intros t ?%not_elem_of_nil]. }
  destruct exhaustive; [split; [cbn; by rewrite app_nil_r|by intros t ?%not_elem_of_nil]|].
  destruct (instantMany ts) as [sigs errs] eqn:Him. set (class := classify seqThresholds clusters sigs errs).
  set (U := filter (λ t, is_unmapped (class t) = true) ts). set (F := filter (λ t, is_failed (class t) = true) ts).
  set (N := filter (λ t, is_unranked (class t) = true) ts). set (R := omap (λ t, as_ranked (class t)) ts).
  set (down := negb _ && _ && _ && alive). set (order := sort_stable _ _).
  assert (Hperm : U ++ F ++ N ++ (rk_t <$> R) ≡ₚ ts) 
    by (assert (rk_t <$> R = filter (λ t, is_Some (as_ranked (class t))) ts) as -> by apply ranked_targets; apply classes_perm).
  assert (Hot : rk_t <$> order ≡ₚ rk_t <$> R).
  { unfold order. rewrite sort_stable_perm, <- list_fmap_compose. apply Permutation_refl', list_fmap_ext. intros i r _. apply rerank_target. }
  set (rest := if down then [] else F). set (sql := if down then U ++ F else U).
  assert (Hsplit : ((rk_t <$> order) ++ N ++ rest) ++ sql ≡ₚ ts).
  { rewrite <- Hperm, Hot. unfold rest, sql. destruct down; rewrite ?app_nil_r.
    - rewrite (Permutation_app_comm _ (U ++ F)), <- app_assoc, (Permutation_app_comm (rk_t <$> R) N). done.
    - rewrite (Permutation_app_comm _ U), (app_assoc (rk_t <$> R)), (Permutation_app_comm _ F),
        (Permutation_app_comm (rk_t <$> R) N). done. }
  assert (Hnd' : NoDup ((rk_t <$> order) ++ N ++ rest)) by (rewrite <- Hsplit in Hnd; by apply NoDup_app in Hnd as (? & _)).
  pose proof (choose_perm cfg order (is_sticky cfg (known_rank g) (now_rank g)) N rest Hnd') as Hch.
  pose proof (choose_spec cfg order (is_sticky cfg (known_rank g) (now_rank g)) N rest) as Hsp.
  destruct (choose _ _ _ _ _) as [[[out nf] ns] passed]. cbn [candidates sqlOnly sweep].
  rewrite byKnownScore_perm, stalestFirst_perm. split.
  { rewrite (Permutation_app_comm sql passed), app_assoc, Hch. exact Hsplit. }
  destruct Hsp as (_ & Hout & Hpassed). intros t Ht. exists instantMany. split; [done|]. rewrite Him. fold class.
  rewrite (stalestFirst_perm _ passed), Hpassed in Ht. apply list_elem_of_filter in Ht as [Hno Ht].
  apply list_elem_of_fmap in Ht as (r' & -> & Hr'). apply list_elem_of_lookup in Hr' as [i Hi].
  assert (Hord : ∀ j x, order !! j = Some x → ∃ r, as_ranked (class (rk_t x)) = Some r ∧ x = rerank cfg (known_rank g) (now_rank g) r).
  { intros j x Hj. apply list_elem_of_lookup_2 in Hj. unfold order in Hj. rewrite sort_stable_perm in Hj.
    apply list_elem_of_fmap in Hj as (r & -> & Hr). exists r. split; [|done]. unfold R in Hr.
    apply list_elem_of_omap in Hr as (t & _ & Hr). rewrite rerank_target, (classify_target _ _ _ _ _ _ Hr). done. }
  assert (Hbig : (take_count cfg ≤ i)%nat).
  { destruct (decide (take_count cfg ≤ i)%nat) as [|Hlt]; [done|]. exfalso. apply Hno, Hout. right. left. apply list_elem_of_fmap_2.
    apply (list_elem_of_lookup_2 _ i). rewrite lookup_take_lt by lia. done. }
  destruct (Hord _ _ Hi) as (r & Hr & Hr'). exists r, (rk_t <$> take (take_count cfg) order). split_and!.
  - done.
  - apply not_true_is_false. intros Hfl. apply Hno, Hout. left. apply list_elem_of_fmap_2, list_elem_of_filter.
    split; [left|by eapply list_elem_of_lookup_2]. rewrite Hr'. unfold rerank. by repeat case_match.
  - apply not_true_is_false. intros Hst. apply Hno, Hout. left. apply list_elem_of_fmap_2, list_elem_of_filter.
    split; [by right|by eapply list_elem_of_lookup_2].
  - rewrite fmap_take. apply NoDup_app in Hnd' as (Hnd' & _). rewrite <- (take_drop (take_count cfg)) in Hnd'.
    by apply NoDup_app in Hnd' as (? & _).
  - intros x Hx. apply Hout. by right; left.
  - rewrite length_fmap, length_take. apply lookup_lt_Some in Hi. lia.
  - intros t' Ht'. apply list_elem_of_fmap in Ht' as (x & -> & Hx). apply list_elem_of_lookup in Hx as [j Hj].
    apply lookup_take_Some in Hj as [Hj Hjk]. destruct (Hord _ _ Hj) as (r2 & Hr2 & ->).
    exists (rk_score r'), (rk_score (rerank cfg (known_rank g) (now_rank g) r2)). rewrite Hr, Hr2. rewrite Hr'. split_and!; [done..|].
    assert (Hs : StronglySorted (not_less (less_on rk_score float_less)) order) by apply (sort_stable_not_less _).
    pose proof (StronglySorted_lookup _ _ _ _ _ _ Hs Hj Hi ltac:(lia)) as Hn. by rewrite <- Hr'.
Qed.

(** ** What a computation answers and remembers *)

Lemma count_split {A} (f : A → bool) l : Z.of_nat (length l) = count f l + count (λ x, negb (f x)) l.
Proof.
  unfold count. induction l as [|x l IH]; [done|]. rewrite !filter_cons. destruct (f x); cbn [negb];
    repeat (destruct (decide _); [|try done]); try done; cbn [length]; lia.
Qed.

Lemma uncomputed_not_scored it : is_uncomputed it = true → is_scored it = false.
Proof. unfold is_uncomputed. by destruct (is_scored it). Qed.

(** A computation over the plan of a fleet ends, whatever it meets, and answers with the
    worst: the rows of the plan's targets, each scored, failed or not reached, sorted by score with the
    unscored last, of which the first fifty are returned; no row left out ranks before one of them. Its
    counts are those of all rows, and it is incomplete exactly when it did not reach some. With a slot
    at every turn and metrics that arrive it reaches them all. *)
Theorem compute_exact scorer dead clusters cfg w readRaw known ts plan start :
  ∃ started res known', compute scorer dead clusters cfg w readRaw known ts plan start = Some (res, known', sweep plan) ∧
  let all := rows scorer dead clusters started (readRaw (candidates plan)) (candidates plan) (sqlOnly plan) in
  it_Target <$> all = candidates plan ++ sqlOnly plan ∧
  (∃ rest, Items res ++ rest ≡ₚ all ∧ StronglySorted (not_less item_less) (Items res ++ rest) ∧
    length (Items res) = Nat.min 50 (length all)) ∧
  InstancesScored res = count is_scored all ∧ Uncomputed res = count is_uncomputed all ∧
  (Incomplete res = true ↔ ∃ it, it ∈ all ∧ is_uncomputed it = true) ∧
  ((∀ n, acquires w n = true ∧ late w n = true) →
     all = imap (λ i t, started_row scorer dead clusters t (pre_of (readRaw (candidates plan)) (candidates plan) i t))
       (candidates plan ++ sqlOnly plan)).
Proof.
  destruct (scoreAll_rows scorer dead clusters w readRaw (candidates plan) (sqlOnly plan)) as (started & Hrows & Hall).
  unfold compute. rewrite Hrows. cbn [mbind option_bind]. eexists started, _, _. split; [done|]. cbn zeta.
  cbn [Items InstancesScored Uncomputed Incomplete].
  set (all := rows _ _ _ started _ _ _). set (sorted := sort_stable item_less all).
  assert (Hcount : ∀ f, count f sorted = count f all).
  { intros f. unfold count. apply (f_equal Z.of_nat), Permutation_length. unfold sorted. by rewrite sort_stable_perm. }
  rewrite !Hcount. split_and!; [apply rows_targets| |done|done| |].
  - exists (drop (Z.to_nat MaxFleetLimit) sorted). rewrite take_drop. split_and!.
    + apply sort_stable_perm.
    + apply (sort_stable_not_less _).
    + rewrite length_take. unfold sorted. by rewrite sort_stable_perm.
  - unfold count. rewrite Z.ltb_lt. split.
    + intros Hp. destruct (filter _ all) as [|it l] eqn:Hf; [done|]. exists it.
      assert (Hin : it ∈ filter (λ x, is_uncomputed x = true) all) by (rewrite Hf; by left).
      apply list_elem_of_filter in Hin. naive_solver.
    + intros (it & Hin & Hu). assert (Hf : it ∈ filter (λ x, is_uncomputed x = true) all) by by apply list_elem_of_filter.
      destruct (filter _ all); [by apply not_elem_of_nil in Hf|]. cbn [length]. lia.
  - intros Hw. specialize (Hall Hw). unfold all, rows. apply list_eq. intros i. rewrite !list_lookup_imap.
    destruct ((candidates plan ++ sqlOnly plan) !! i) as [t|] eqn:Ht; [|done]. cbn. by rewrite (Hall i (lookup_lt_Some _ _ _ Ht)).
Qed.

Lemma remember_fold_other limit at_ known l t : t ∉ (λ x : nat * FleetItem, it_Target x.2) <$> l →
  foldl (remember_item limit at_) known l !! t = known !! t.
Proof.
  revert known. induction l as [|x l IH]; intros known Hno; [done|]. rewrite fmap_cons, not_elem_of_cons in Hno.
  destruct Hno as [Hx Hno]. cbn [foldl]. rewrite IH by done. unfold remember_item.
  destruct (it_Score x.2); [|done]. by rewrite lookup_insert_ne.
Qed.

Lemma imap_targets (g : nat → FleetItem → nat * FleetItem) l : (∀ i x, (g i x).2 = x) →
  (λ x : nat * FleetItem, it_Target x.2) <$> imap g l = it_Target <$> l.
Proof.
  intros Hg. rewrite fmap_imap. apply list_eq. intros i. rewrite list_lookup_imap, list_lookup_fmap.
  destruct (l !! i) as [x|]; [|done]. cbn. by rewrite Hg.
Qed.

(** What is remembered of a scored row. *)
Lemma remember_lookup ttl known items limit at_ i it s : 0 < ttl → NoDup (it_Target <$> items) →
  items !! i = Some it → it_Score it = Some s →
  remember ttl known items limit at_ !! it_Target it =
    Some (mkKnown s at_ (if decide (i < limit)%nat then at_ else k_topAt (default (mkKnown 0 zero_time zero_time) (known !! it_Target it)))).
Proof.
  intros Httl Hnd Hi Hs. unfold remember. set (k := mkKnown _ _ _).
  assert (Hf : foldl (remember_item limit at_) known (imap pair items) !! it_Target it = Some k).
  { pose proof (list_elem_of_split_length items i it Hi) as (l1 & l2 & -> & Hlen).
    rewrite imap_app, foldl_app, imap_cons. cbn [foldl]. rewrite Nat.add_0_r, <- Hlen.
    rewrite fmap_app, fmap_cons in Hnd. apply NoDup_app in Hnd as (_ & Hno & Hnd). apply NoDup_cons in Hnd as [Hl2 _].
    rewrite remember_fold_other.
    - unfold remember_item. cbn [fst snd]. rewrite Hs. rewrite lookup_insert_eq. unfold k. do 2 f_equal.
      case_decide; [done|]. do 2 f_equal. apply remember_fold_other. rewrite imap_targets by done.
      intros Hin. apply (Hno _ Hin). by left.
    - by rewrite imap_targets. }
  apply map_lookup_filter_Some. split; [done|]. unfold lives, fresh, k. cbn [k_at snd].
  rewrite (time_sub_small at_ at_), Z.sub_diag by (rewrite Z.sub_diag; unfold int64, min64, max64; lia).
  by rewrite (proj2 (Z.ltb_lt 0 ttl)).
Qed.

(** An instance of the top stays watched: once a computation has ranked it among the first
    rows, every prefilter within the sticky time makes it a candidate for an exact score, whatever its
    metrics say, as long as they say something. *)
Theorem sticky_kept cfg seqThresholds clusters known items limit at_ i it s datasource alive g ts r :
  0 < StickyTTL cfg → NoDup (it_Target <$> items) → items !! i = Some it → it_Score it = Some s → (i < limit)%nat →
  known_rank g !! it_Target it = remember (StickyTTL cfg) known items limit at_ !! it_Target it →
  time_sub (now_rank g) at_ < StickyTTL cfg → it_Target it ∈ ts →
  as_ranked (classify seqThresholds clusters (datasource ts).1 (datasource ts).2 (it_Target it)) = Some r →
  it_Target it ∈ candidates (prefilter cfg seqThresholds clusters (Some datasource) alive g ts false).
Proof.
  intros Httl Hnd Hi Hs Hlim Hknown Hfresh Hts Hr. rewrite (remember_lookup _ _ _ _ _ i it s) in Hknown by done.
  rewrite decide_True in Hknown by done. cbn [prefilter]. destruct (datasource ts) as [sigs errs]. cbn [fst snd] in Hr.
  set (order := sort_stable _ _). set (un := filter _ ts). match goal with |- context [choose cfg order _ un ?l] => set (rest := l) end.
  pose proof (choose_spec cfg order (is_sticky cfg (known_rank g) (now_rank g)) un rest) as Hsp.
  destruct (choose _ _ _ _ _) as [[[out nf] ns] passed]. cbn [candidates]. apply (proj1 (proj2 Hsp)). left.
  pose proof (classify_target seqThresholds clusters sigs errs _ _ Hr) as Ht.
  rewrite <- Ht at 1. rewrite <- (rerank_target cfg (known_rank g) (now_rank g) r). apply list_elem_of_fmap_2, list_elem_of_filter.
  split.
  - right. unfold is_sticky. rewrite rerank_target, Ht, Hknown. cbn [k_topAt]. unfold fresh. lia.
  - unfold order. rewrite sort_stable_perm. apply list_elem_of_fmap_2, list_elem_of_omap. by exists (it_Target it).
Qed.

(** ** Witnesses *)

Definition host (name : string) : TargetRef := mkTarget "c" name.

Definition sample_config : FleetConfig := WithDefaults (mkFleetConfig 0 0 None 0 0 0 0 false 0).

Example sample_config_valid : Validate_fleet sample_config = true ∧ take_count sample_config = 65%nat.
Proof. by vm_compute. Qed.

(** Full of connections, and short of transaction ids. *)
Definition busy : Signals := Set_ (Set_ (NewSignals 0) SigTotalConns 99) SigMaxConns 100.
Definition wrapping : Signals := Set_ (NewSignals 0) SigXactsLeftWrap 1000.

Definition sample_datasource (ts : list TargetRef) : gmap TargetRef Signals * gmap TargetRef metrics_error :=
  (list_to_map [(host "a", busy); (host "b", wrapping)], list_to_map [(host "d", ErrTargetNotMapped); (host "e", ErrMetrics "timeout")]).

Definition sample_fleet : list TargetRef := host <$> ["a"; "b"; "c"; "d"; "e"].

Definition sample_glimpses (known : known_map) (now : time) : glimpses := mkGlimpses known now known now known.

Definition sample_plan (known : known_map) : fleetPlan :=
  prefilter sample_config ∅ ∅ (Some sample_datasource) true (sample_glimpses known Minute) sample_fleet false.

Example sample_plan_value :
  let p := sample_plan ∅ in
  (Instance_ <$> candidates p, Instance_ <$> sqlOnly p, sweep p, floor p, failed p) = (["b"; "a"; "c"; "e"], ["d"], [], 1, 1).
Proof. by vm_compute. Qed.

Lemma prefilter_exact_witness :
  candidates (sample_plan ∅) ++ sqlOnly (sample_plan ∅) ++ sweep (sample_plan ∅) ≡ₚ sample_fleet.
Proof.
  refine (proj1 (prefilter_exact sample_config ∅ ∅ (Some sample_datasource) true (sample_glimpses ∅ Minute) sample_fleet false _)).
  apply (bool_decide_unpack _). vm_compute. exact I.
Defined.

Definition sample_item : FleetItem := mkItem (host "a") (Some 83.4%float) SourceSnapshot false false "" false.

Lemma sticky_kept_witness :
  host "a" ∈ candidates (sample_plan (remember (StickyTTL sample_config) ∅ [sample_item] 1 0)).
Proof.
  destruct (as_ranked (classify ∅ ∅ (sample_datasource sample_fleet).1 (sample_datasource sample_fleet).2 (host "a"))) as [r|] eqn:Hr;
    [|exfalso; revert Hr; vm_compute; discriminate].
  refine (sticky_kept sample_config ∅ ∅ ∅ [sample_item] 1 0 0 sample_item 83.4%float sample_datasource true
    (sample_glimpses (remember (StickyTTL sample_config) ∅ [sample_item] 1 0) Minute) sample_fleet r _ _ _ _ _ _ _ _ Hr).
  - reflexivity.
  - apply (bool_decide_unpack _). vm_compute. exact I.
  - reflexivity.
  - reflexivity.
  - lia.
  - reflexivity.
  - vm_compute. reflexivity.
  - apply (bool_decide_unpack _). vm_compute. exact I.
Defined.
