(* ===== verification/FleetFlights.v ===== *)
(** * [internal/healthscore/fleet.go]: shared computations ([Worst], [join], [run])

    Callers that ask for the same instances share one computation, detached from all of them, and its
    result for a while; there are never more computations than configured, and one sweep at most. The
    goroutines are modelled by the steps they take between two points where another may
    run: a critical section of [mu], the publication of a result, a change of [sweeping], the firing of a timer,
    the end of a wait. What a computation answers is arbitrary here; [HealthFleet.compute] is what it does. *)

From S2P Require Import Prelude GoSlices GoFloat Health MetricSignals HealthScorer HealthFleet.
From stdpp Require Import options.

#[local] Open Scope string_scope.
#[local] Open Scope Z_scope.
#[local] Open Scope list_scope.
#[local] Set Default Proof Using "Type*".

(** ** The key of a computation *)

Definition hex_digits : string := "0123456789abcdef".

(** [%x] of a 64-bit number; sixteen digits are enough. *)
Fixpoint hex_go (fuel : nat) (n : Z) (acc : string) : string :=
  match fuel with
  | O => acc
  | S fuel =>
      let acc := String.substring (Z.to_nat (n mod 16)) 1 hex_digits +:+ acc in
      if n / 16 =? 0 then acc else hex_go fuel (n / 16) acc
  end.

Definition fnv_offset : Z := 14695981039346656037.
Definition fnv_prime : Z := 1099511628211.

(** [fnv.New64a]. *)
Definition fnv_byte (h : Z) (c : Ascii.ascii) : Z :=
  (Z.lxor h (Z.of_N (Ascii.N_of_ascii c)) * fnv_prime) mod 2 ^ 64.
Definition fnv (s : string) : Z := foldl fnv_byte fnv_offset (String.list_ascii_of_string s).

Definition nul : string := String Ascii.zero "".


Definition flightKey (exhaustive : bool) (targets : list TargetRef) : string :=
  (if exhaustive then "true/" else "false/") +:+
  hex_go 16 (fnv (String.concat "" ((λ t, Cluster t +:+ nul +:+ Instance_ t +:+ nul) <$> targets))) "".

Example flightKey_value : flightKey false [mkTarget "c" "h"] = "false/ecfd9392bb2ee10e" ∧ flightKey true [] = "true/cbf29ce484222325".
Proof. by vm_compute. Qed.

(** ** The state *)

Inductive outcome := Answered (res : FleetResult) | Panicked.

(** A computation runs, has published, has given its slot back, sweeps, or has ended. *)
Inductive stage := Computing | Published | Released | Sweeping | Ended.

#[global] Instance stage_eq_dec : EqDecision stage.
Proof. solve_decision. Defined.

(** [f_done] is the result with the time it was published, once [done] is closed; [f_timer] while
    the timer that forgets it is running. *)
Record fleetFlight := mkFlight { f_key : string; f_stage : stage; f_done : option (outcome * time); f_timer : bool }.

(** A caller, with the key and the time it asked at. *)
Inductive caller :=
  | Waiting (key : string) (asked : time) (id : nat)
  | Busy (key : string)
  | Served (key : string) (asked : time) (id : nat) (out : outcome)
  | GaveUp (key : string).

Record state := mkState {
  clock : time; flights : gmap string nat; flight : gmap nat fleetFlight; next : nat; computing : Z; sweeping : bool;
  callers : list caller
}.

Section run.
Context (cfg : FleetConfig).

Definition initial (now : time) : state := mkState now ∅ ∅ 0 0 false [].

Definition hold (out : outcome) : duration := match out with Answered _ => ResultTTL cfg | Panicked => 0 end.
Definition expires (d : outcome * time) : time := time_add d.2 (hold d.1).

(** A flight another caller may join. *)
Definition joinable (now : time) (f : fleetFlight) : bool :=
  match f_done f with None => true | Some d => time_before now (expires d) end.

Definition add_caller (s : state) (c : caller) : state :=
  mkState (clock s) (flights s) (flight s) (next s) (computing s) (sweeping s) (callers s ++ [c]).

Definition open (s : state) (key : string) : option nat :=
  id ← flights s !! key; f ← flight s !! id; if joinable (clock s) f then Some id else None.

(** [join]. *)
Definition join (s : state) (key : string) : state :=
  match open s key with
  | Some id => add_caller s (Waiting key (clock s) id)
  | None =>
      if MaxComputations cfg <=? computing s then add_caller s (Busy key)
      else
        mkState (clock s) (<[key := next s]> (flights s)) (<[next s := mkFlight key Computing None false]> (flight s)) (S (next s))
          (computing s + 1) (sweeping s) (callers s ++ [Waiting key (clock s) (next s)])
  end.

Definition set_flight (s : state) (id : nat) (f : fleetFlight) : state :=
  mkState (clock s) (flights s) (<[id := f]> (flight s)) (next s) (computing s) (sweeping s) (callers s).

Definition at_stage (s : state) (id : nat) (st : stage) : option fleetFlight :=
  f ← flight s !! id; if decide (f_stage f = st) then Some f else None.

(** [publish], which runs once. *)
Definition publish (s : state) (id : nat) (out : outcome) : option state :=
  f ← at_stage s id Computing; Some (set_flight s id (mkFlight (f_key f) Published (Some (out, clock s)) true)).

(** [release]; a computation that panicked has nothing left to do. *)
Definition release (s : state) (id : nat) : option state :=
  f ← at_stage s id Published;
  let st := match f_done f with Some (Panicked, _) => Ended | _ => Released end in
  Some (mkState (clock s) (flights s) (<[id := mkFlight (f_key f) st (f_done f) (f_timer f)]> (flight s)) (next s)
    (computing s - 1) (sweeping s) (callers s)).

(** The compare-and-swap of [sweeping]. *)
Definition try_sweep (s : state) (id : nat) : option state :=
  f ← at_stage s id Released;
  let st := if sweeping s then Ended else Sweeping in
  Some (mkState (clock s) (flights s) (<[id := mkFlight (f_key f) st (f_done f) (f_timer f)]> (flight s)) (next s)
    (computing s) true (callers s)).

(** The sweep ends, or panics. *)
Definition end_sweep (s : state) (id : nat) : option state :=
  f ← at_stage s id Sweeping;
  Some (mkState (clock s) (flights s) (<[id := mkFlight (f_key f) Ended (f_done f) (f_timer f)]> (flight s)) (next s)
    (computing s) false (callers s)).

(** The timer of a published result. *)
Definition expire (s : state) (id : nat) : option state :=
  f ← flight s !! id; d ← f_done f;
  if f_timer f && (expires d <=? clock s) then
    let flights' := if decide (flights s !! f_key f = Some id) then delete (f_key f) (flights s) else flights s in
    Some (mkState (clock s) flights' (<[id := mkFlight (f_key f) (f_stage f) (f_done f) false]> (flight s)) (next s)
      (computing s) (sweeping s) (callers s))
  else None.

Definition set_caller (s : state) (i : nat) (c : caller) : state :=
  mkState (clock s) (flights s) (flight s) (next s) (computing s) (sweeping s) (<[i := c]> (callers s)).

(** The wait of [Worst] ends. *)
Definition serve (s : state) (i : nat) : option state :=
  match callers s !! i with
  | Some (Waiting key asked id) =>
      f ← flight s !! id; d ← f_done f; Some (set_caller s i (Served key asked id d.1))
  | _ => None
  end.

Definition leave_flight (s : state) (i : nat) : option state :=
  match callers s !! i with Some (Waiting key _ _) => Some (set_caller s i (GaveUp key)) | _ => None end.

Definition tick (s : state) (d : duration) : option state :=
  if d <? 0 then None
  else Some (mkState (clock s + d) (flights s) (flight s) (next s) (computing s) (sweeping s) (callers s)).

Inductive event :=
  | Tick (d : duration) | Join (key : string) | Publish (id : nat) (out : outcome) | Release (id : nat) | TrySweep (id : nat)
  | EndSweep (id : nat) | Expire (id : nat) | Serve (i : nat) | GiveUp (i : nat).

Definition perform (s : state) (ev : event) : option state :=
  match ev with
  | Tick d => tick s d
  | Join key => Some (join s key)
  | Publish id out => publish s id out
  | Release id => release s id
  | TrySweep id => try_sweep s id
  | EndSweep id => end_sweep s id
  | Expire id => expire s id
  | Serve i => serve s i
  | GiveUp i => leave_flight s i
  end.

Fixpoint performs (s : state) (evs : list event) : option state :=
  match evs with [] => Some s | ev :: evs => s' ← perform s ev; performs s' evs end.

Inductive reachable : state → Prop :=
  | reachable_initial now : reachable (initial now)
  | reachable_step s ev s' : reachable s → perform s ev = Some s' → reachable s'.

(** ** [Worst] *)

Record FleetRequest := mkRequest { Limit : Z; Clusters : list string; Exhaustive : bool }.
Inductive fleet_error := ErrUnknownCluster (names : list string) | ErrExhaustiveNotAllowed | ErrFleetBusy | ErrInternal | ErrContext.

(** The key a request asks for. *)
Definition allowed_request (req : FleetRequest) (clusters : list ClusterInfo) : fleet_error + (string * list TargetRef * gmap string bool) :=
  if Exhaustive req && negb (AllowExhaustive cfg) then inl ErrExhaustiveNotAllowed
  else
    match targets clusters (Clusters req) with
    | inl missing => inl (ErrUnknownCluster missing)
    | inr (ts, walFixed) => inr (flightKey (Exhaustive req) ts, ts, walFixed)
    end.

(** What a caller answers; [None] while it waits. *)
Definition answer (req : FleetRequest) (c : caller) : option (fleet_error + list FleetItem) :=
  match c with
  | Waiting _ _ _ => None
  | Busy _ => Some (inl ErrFleetBusy)
  | GaveUp _ => Some (inl ErrContext)
  | Served _ _ _ Panicked => Some (inl ErrInternal)
  | Served _ _ _ (Answered res) => Some (inr (worst_items cfg (Limit req) res))
  end.
End run.

(** ** Counting flights *)

Definition number (P : fleetFlight → bool) (m : gmap nat fleetFlight) : Z := Z.of_nat (size (filter (λ x, P x.2 = true) m)).

Lemma number_empty P : number P ∅ = 0.
Proof. unfold number. by rewrite map_filter_empty, map_size_empty. Qed.

Lemma number_new P m id f : m !! id = None → number P (<[id := f]> m) = number P m + Z.b2z (P f).
Proof.
  intros Hid. unfold number. rewrite map_filter_insert. case_decide as Hp; cbn in Hp.
  - rewrite Hp, map_size_insert_None by by apply map_lookup_filter_None; left. cbn. lia.
  - rewrite delete_id by done. apply not_true_is_false in Hp. rewrite Hp. cbn. lia.
Qed.

Lemma number_update P m id f f' : m !! id = Some f → number P (<[id := f']> m) = number P m - Z.b2z (P f) + Z.b2z (P f').
Proof.
  intros Hid. rewrite <- (insert_delete_id m id f Hid) at 2. rewrite <- insert_delete_eq.
  rewrite !number_new by apply lookup_delete_eq. lia.
Qed.


Definition busy (f : fleetFlight) : bool := match f_stage f with Computing | Published => true | _ => false end.
Definition sweeps (f : fleetFlight) : bool := match f_stage f with Sweeping => true | _ => false end.

(** ** What holds of every state *)

Section invariant.
Context (cfg : FleetConfig) (Hmax : 0 < MaxComputations cfg) (Httl : 0 <= ResultTTL cfg).

Record inv (s : state) : Prop := {
  i_new : ∀ id f, flight s !! id = Some f → (id < next s)%nat;
  i_map : ∀ key id, flights s !! key = Some id → ∃ f, flight s !! id = Some f ∧ f_key f = key;
  i_running : ∀ id f, flight s !! id = Some f → f_done f = None → flights s !! f_key f = Some id;
  i_stage : ∀ id f, flight s !! id = Some f → (f_done f = None ↔ f_stage f = Computing);
  i_count : computing s = number busy (flight s);
  i_bound : computing s ≤ MaxComputations cfg;
  i_sweep : Z.b2z (sweeping s) = number sweeps (flight s);
  i_wait : ∀ key asked id, Waiting key asked id ∈ callers s → asked ≤ clock s ∧ ∃ f, flight s !! id = Some f ∧ f_key f = key ∧
    ∀ d, f_done f = Some d → asked ≤ expires cfg d;
  i_served : ∀ key asked id out, Served key asked id out ∈ callers s → ∃ f t, flight s !! id = Some f ∧ f_key f = key ∧
    f_done f = Some (out, t) ∧ asked ≤ expires cfg (out, t)
}.

Lemma flights_inv_initial now : inv (initial now).
Proof.
  unfold initial. split; cbn [clock flights flight next computing sweeping callers]; try (intros id f; by rewrite lookup_empty).
  - by rewrite number_empty.
  - lia.
  - by rewrite number_empty.
  - by intros key asked id ?%not_elem_of_nil.
  - by intros key asked id out ?%not_elem_of_nil.
Qed.

(** A flight that changes, with what is counted of it. *)
Lemma update_inv s id f f' n sw : inv s → flight s !! id = Some f → f_key f' = f_key f →
  (f_done f' = None ↔ f_stage f' = Computing) →
  (f_done f' = f_done f ∨ f_done f = None ∧ ∃ out, f_done f' = Some (out, clock s)) →
  n = computing s - Z.b2z (busy f) + Z.b2z (busy f') → n ≤ computing s →
  Z.b2z sw = Z.b2z (sweeping s) - Z.b2z (sweeps f) + Z.b2z (sweeps f') →
  inv (mkState (clock s) (flights s) (<[id := f']> (flight s)) (next s) n sw (callers s)).
Proof.
  intros Hs Hf Hkey Hstage Hdone Hn Hle Hsw. destruct Hs as [Hnew Hmap Hrun Hst Hcount Hbound Hsweep Hwait Hserved].
  assert (Hexp : ∀ asked, asked ≤ clock s → (∀ d, f_done f = Some d → asked ≤ expires cfg d) → ∀ d, f_done f' = Some d → asked ≤ expires cfg d).
  { intros asked Ha Hd d Hd'. destruct Hdone as [Heq|[_ [out Heq]]]; [apply Hd; congruence|]. rewrite Hd' in Heq. injection Heq as ->.
    unfold expires, time_add, hold. cbn. destruct out; lia. }
  split; cbn [clock flights flight next computing sweeping callers].
  - intros id' g [[<- <-]|[_ Hg]]%lookup_insert_Some; [by eapply Hnew|by eapply Hnew].
  - intros key id' Hk. destruct (Hmap _ _ Hk) as (g & Hg & <-). destruct (decide (id' = id)) as [->|Hne].
    + exists f'. rewrite lookup_insert_eq. split; [done|]. congruence.
    + exists g. by rewrite lookup_insert_ne.
  - intros id' g [[<- <-]|[_ Hg]]%lookup_insert_Some Hd; [|by apply Hrun].
    rewrite Hkey. apply Hrun; [done|]. destruct Hdone as [Heq|[_ [out Heq]]]; congruence.
  - intros id' g [[<- <-]|[_ Hg]]%lookup_insert_Some; [done|by eapply Hst].
  - rewrite (number_update _ _ _ f) by done. lia.
  - lia.
  - rewrite (number_update _ _ _ f) by done. lia.
  - intros key asked id' Hw. destruct (Hwait _ _ _ Hw) as (Ha & g & Hg & Hgk & Hgd). split; [done|].
    destruct (decide (id' = id)) as [->|Hne]; [|exists g; by rewrite lookup_insert_ne].
    exists f'. rewrite lookup_insert_eq. assert (g = f) as -> by congruence. split_and!; [done|congruence|by apply Hexp].
  - intros key asked id' out Hv. destruct (Hserved _ _ _ _ Hv) as (g & t & Hg & Hgk & Hgd & Hge).
    destruct (decide (id' = id)) as [->|Hne]; [|exists g, t; by rewrite lookup_insert_ne].
    assert (g = f) as -> by congruence. exists f', t. rewrite lookup_insert_eq. split_and!; [done|congruence| |done].
    destruct Hdone as [Heq|[Heq _]]; congruence.
Qed.

(** A change of the callers alone. *)
Lemma callers_inv s cs : inv s →
  (∀ key asked id, Waiting key asked id ∈ cs → Waiting key asked id ∈ callers s ∨
     asked ≤ clock s ∧ ∃ f, flight s !! id = Some f ∧ f_key f = key ∧ ∀ d, f_done f = Some d → asked ≤ expires cfg d) →
  (∀ key asked id out, Served key asked id out ∈ cs → Served key asked id out ∈ callers s ∨
     ∃ f t, flight s !! id = Some f ∧ f_key f = key ∧ f_done f = Some (out, t) ∧ asked ≤ expires cfg (out, t)) →
  inv (mkState (clock s) (flights s) (flight s) (next s) (computing s) (sweeping s) cs).
Proof.
  intros Hs Hw Hv. destruct Hs as [Hnew Hmap Hrun Hst Hcount Hbound Hsweep Hwait Hserved].
  split; cbn [clock flights flight next computing sweeping callers]; try done.
  - intros key asked id [Hin|?]%Hw; [by apply Hwait|done].
  - intros key asked id out [Hin|?]%Hv; [by apply Hserved|done].
Qed.

Lemma at_stage_Some s id st f : at_stage s id st = Some f → flight s !! id = Some f ∧ f_stage f = st.
Proof.
  unfold at_stage. destruct (flight s !! id) as [g|]; [|done]. cbn [mbind option_bind]. case_decide; [|done]. by intros [= <-].
Qed.

Lemma publish_inv s id out s' : inv s → publish s id out = Some s' → inv s'.
Proof.
  intros Hs. unfold publish. destruct (at_stage s id Computing) as [f|] eqn:Ha; [|done]. apply at_stage_Some in Ha as [Hf Hst].
  cbn [mbind option_bind]. intros [= <-]. apply (update_inv s id f); cbn [f_key f_done f_stage]; try done.
  - right. split; [by apply (i_stage _ Hs _ _ Hf)|]. by exists out.
  - unfold busy. rewrite Hst. cbn. lia.
  - unfold sweeps. rewrite Hst. cbn. lia.
Qed.

Lemma release_inv s id s' : inv s → release s id = Some s' → inv s'.
Proof.
  intros Hs. unfold release. destruct (at_stage s id Published) as [f|] eqn:Ha; [|done]. apply at_stage_Some in Ha as [Hf Hst].
  cbn [mbind option_bind]. intros [= <-]. pose proof (i_stage _ Hs _ _ Hf) as Hd.
  assert (Hnone : f_done f ≠ None) by (intros E; apply Hd in E; congruence).
  set (st := match f_done f with Some (Panicked, _) => Ended | _ => Released end).
  assert (Hst' : st = Ended ∨ st = Released) by (unfold st; destruct (f_done f) as [[[] ?]|]; auto).
  apply (update_inv s id f); cbn [f_key f_done f_stage]; [done..| |by left| |lia|].
  - split; [done|]. destruct Hst' as [-> | ->]; done.
  - unfold busy. rewrite Hst. cbn [f_stage]. destruct Hst' as [-> | ->]; cbn; lia.
  - unfold sweeps. rewrite Hst. cbn [f_stage]. destruct Hst' as [-> | ->]; cbn; lia.
Qed.

Lemma try_sweep_inv s id s' : inv s → try_sweep s id = Some s' → inv s'.
Proof.
  intros Hs. unfold try_sweep. destruct (at_stage s id Released) as [f|] eqn:Ha; [|done]. apply at_stage_Some in Ha as [Hf Hst].
  cbn [mbind option_bind]. intros [= <-]. pose proof (i_stage _ Hs _ _ Hf) as Hd.
  assert (Hnone : f_done f ≠ None) by (intros E; apply Hd in E; congruence).
  apply (update_inv s id f); cbn [f_key f_done f_stage]; [done..| |by left| |lia|].
  - split; [done|]. by destruct (sweeping s).
  - unfold busy. rewrite Hst. cbn [f_stage]. destruct (sweeping s); cbn; lia.
  - unfold sweeps. rewrite Hst. cbn [f_stage]. destruct (sweeping s); cbn; lia.
Qed.

Lemma end_sweep_inv s id s' : inv s → end_sweep s id = Some s' → inv s'.
Proof.
  intros Hs. unfold end_sweep. destruct (at_stage s id Sweeping) as [f|] eqn:Ha; [|done]. apply at_stage_Some in Ha as [Hf Hst].
  cbn [mbind option_bind]. intros [= <-]. pose proof (i_stage _ Hs _ _ Hf) as Hd.
  assert (Hnone : f_done f ≠ None) by (intros E; apply Hd in E; congruence).
  apply (update_inv s id f); cbn [f_key f_done f_stage]; [done..| |by left| |lia|].
  - by split.
  - unfold busy. rewrite Hst. cbn. lia.
  - pose proof (i_sweep _ Hs) as Hsw. unfold sweeps. rewrite Hst. cbn [f_stage].
    assert (sweeping s = true) as ->; [|done]. destruct (sweeping s); [done|]. exfalso. cbn in Hsw.
    rewrite <- (insert_delete_id _ id f Hf), number_new in Hsw by apply lookup_delete_eq.
    assert (Hone : sweeps f = true) by (unfold sweeps; by rewrite Hst). rewrite Hone in Hsw. unfold number in Hsw. cbn in Hsw. lia.
Qed.

(** A key forgotten, whose flight has published. *)
Lemma flight_forget_inv s key id f : inv s → flights s !! key = Some id → flight s !! id = Some f → f_done f ≠ None →
  inv (mkState (clock s) (delete key (flights s)) (flight s) (next s) (computing s) (sweeping s) (callers s)).
Proof.
  intros Hs Hk Hf Hd. destruct Hs as [Hnew Hmap Hrun Hst Hcount Hbound Hsweep Hwait Hserved].
  split; cbn [clock flights flight next computing sweeping callers]; try done.
  - intros key' id' [_ Hk']%lookup_delete_Some. by apply Hmap.
  - intros id' g Hg Hgd. rewrite lookup_delete_ne; [by apply Hrun|]. intros ->. apply Hd. specialize (Hrun _ _ Hg Hgd). congruence.
Qed.

Lemma expire_inv s id s' : inv s → expire cfg s id = Some s' → inv s'.
Proof.
  intros Hs. unfold expire. destruct (flight s !! id) as [f|] eqn:Hf; [|done]. cbn [mbind option_bind].
  destruct (f_done f) as [d|] eqn:Hd; [|done]. cbn [mbind option_bind]. destruct (_ && _); [|done]. intros [= <-].
  set (f' := mkFlight (f_key f) (f_stage f) (Some d) false).
  assert (Hu : inv (mkState (clock s) (flights s) (<[id := f']> (flight s)) (next s) (computing s) (sweeping s) (callers s))).
  { pose proof (i_stage _ Hs _ _ Hf) as Hst. rewrite Hd in Hst. apply (update_inv s id f); cbn [f' f_key f_done f_stage]; [done..| | |lia|].
    - by left.
    - unfold busy. cbn [f' f_stage]. lia.
    - unfold sweeps. cbn [f' f_stage]. lia. }
  case_decide as Hk; [|exact Hu].
  apply (flight_forget_inv _ (f_key f) id f' Hu); cbn [flights flight]; [done|by rewrite lookup_insert_eq|done].
Qed.

Lemma open_Some s key id : inv s → open cfg s key = Some id →
  ∃ f, flight s !! id = Some f ∧ f_key f = key ∧ ∀ d, f_done f = Some d → clock s ≤ expires cfg d.
Proof.
  intros Hs. unfold open. destruct (flights s !! key) as [id'|] eqn:Hk; [|done]. cbn [mbind option_bind].
  destruct (i_map _ Hs _ _ Hk) as (f & Hf & Hkey). rewrite Hf. cbn [mbind option_bind]. destruct (joinable _ _ f) eqn:Hj; [|done].
  intros [= <-]. exists f. split_and!; [done..|]. intros d Hd. unfold joinable in Hj. rewrite Hd in Hj. unfold time_before in Hj. lia.
Qed.

Lemma join_inv s key : inv s → inv (join cfg s key).
Proof.
  intros Hs. unfold join. destruct (open cfg s key) as [id|] eqn:Ho.
  { apply open_Some in Ho as (f & Hf & Hkey & Hd); [|done]. apply callers_inv; [done| |].
    - intros key' asked id' [?|Hin%list_elem_of_singleton]%elem_of_app; [by left|]. right. injection Hin as -> -> ->.
      split; [lia|]. by exists f.
    - intros key' asked id' out [?|Hin%list_elem_of_singleton]%elem_of_app; by left. }
  destruct (Z.leb_spec (MaxComputations cfg) (computing s)) as [|Hlt].
  { apply callers_inv; [done| |]; intros *; (intros [?|Hin%list_elem_of_singleton]%elem_of_app; by left). }
  assert (Hfresh : flight s !! next s = None).
  { destruct (flight s !! next s) as [f|] eqn:Hf; [|done]. apply (i_new _ Hs) in Hf. lia. }
  assert (Hclosed : ∀ id f, flight s !! id = Some f → f_done f = None → f_key f ≠ key).
  { intros id f Hf Hd Heq. pose proof (i_running _ Hs _ _ Hf Hd) as Hk. rewrite Heq in Hk. unfold open in Ho. rewrite Hk in Ho. cbn in Ho.
    rewrite Hf in Ho. cbn in Ho. unfold joinable in Ho. by rewrite Hd in Ho. }
  destruct Hs as [Hnew Hmap Hrun Hst Hcount Hbound Hsweep Hwait Hserved].
  split; cbn [clock flights flight next computing sweeping callers].
  - intros id f [[<- <-]|[_ Hf]]%lookup_insert_Some; [lia|]. apply Hnew in Hf. lia.
  - intros key' id [[<- <-]|[Hne Hk]]%lookup_insert_Some.
    + eexists. by rewrite lookup_insert_eq.
    + destruct (Hmap _ _ Hk) as (f & Hf & <-). exists f. rewrite lookup_insert_ne; [done|]. intros <-. congruence.
  - intros id f [[<- <-]|[Hne Hf]]%lookup_insert_Some Hd; [cbn [f_key]; by rewrite lookup_insert_eq|].
    rewrite lookup_insert_ne; [by apply Hrun|]. intros Heq. by apply (Hclosed _ _ Hf Hd).
  - intros id f [[<- <-]|[_ Hf]]%lookup_insert_Some; [done|by eapply Hst].
  - rewrite number_new by done. cbn. lia.
  - lia.
  - rewrite number_new by done. cbn. lia.
  - intros key' asked id [Hin|Hin%list_elem_of_singleton]%elem_of_app.
    + destruct (Hwait _ _ _ Hin) as (Ha & f & Hf & Hfk & Hd). split; [done|]. exists f. rewrite lookup_insert_ne; [done|]. intros <-. congruence.
    + injection Hin as -> -> ->. split; [lia|]. eexists. rewrite lookup_insert_eq. split_and!; [done..|]. by intros d [=].
  - intros key' asked id out [Hin|Hin%list_elem_of_singleton]%elem_of_app; [|done].
    destruct (Hserved _ _ _ _ Hin) as (f & t & Hf & Hrest). exists f, t. rewrite lookup_insert_ne; [done|]. intros <-. congruence.
Qed.

Lemma elem_of_insert_caller s i c x : x ∈ <[i := c]> (callers s) → x = c ∨ x ∈ callers s.
Proof.
  intros (j & Hj)%list_elem_of_lookup. apply list_lookup_insert_Some in Hj as [(_ & -> & _)|[_ Hj]]; [by left|].
  right. by eapply list_elem_of_lookup_2.
Qed.

Lemma serve_inv s i s' : inv s → serve s i = Some s' → inv s'.
Proof.
  intros Hs. unfold serve. destruct (callers s !! i) as [[key asked id| | |]|] eqn:Hc; try done.
  apply list_elem_of_lookup_2 in Hc. destruct (i_wait _ Hs _ _ _ Hc) as (_ & f & Hf & Hkey & Hd). rewrite Hf. cbn [mbind option_bind].
  destruct (f_done f) as [[out t]|] eqn:Hfd; [|done]. cbn [mbind option_bind]. intros [= <-]. apply callers_inv; [done| |].
  - intros key' asked' id' [Hx|?]%elem_of_insert_caller; [done|by left].
  - intros key' asked' id' out' [Hx|?]%elem_of_insert_caller; [|by left]. injection Hx as -> -> -> ->. right. exists f, t.
    split_and!; [done..|]. by apply Hd.
Qed.

Lemma leave_inv s i s' : inv s → leave_flight s i = Some s' → inv s'.
Proof.
  intros Hs. unfold leave_flight. destruct (callers s !! i) as [[key asked id| | |]|] eqn:Hc; try done. intros [= <-].
  apply callers_inv; [done| |]; intros *; (intros [Hx|?]%elem_of_insert_caller; [done|by left]).
Qed.

Lemma tick_inv s d s' : inv s → tick s d = Some s' → inv s'.
Proof.
  intros Hs. unfold tick. destruct (Z.ltb_spec d 0); [done|]. intros [= <-].
  destruct Hs as [Hnew Hmap Hrun Hst Hcount Hbound Hsweep Hwait Hserved].
  split; cbn [clock flights flight next computing sweeping callers]; try done.
  intros key asked id Hw. destruct (Hwait _ _ _ Hw) as [Ha Hrest]. split; [lia|done].
Qed.

Lemma flights_step_inv s ev s' : inv s → perform cfg s ev = Some s' → inv s'.
Proof.
  intros Hs. destruct ev; cbn [perform];
    eauto using tick_inv, publish_inv, release_inv, try_sweep_inv, end_sweep_inv, expire_inv, serve_inv, leave_inv.
  intros [= <-]. by apply join_inv.
Qed.

Lemma flights_reachable_inv s : reachable cfg s → inv s.
Proof. induction 1 as [now|s ev s' _ IH Hstep]; [apply flights_inv_initial|by eapply flights_step_inv]. Qed.

Lemma flights_performs_reachable s evs s' : reachable cfg s → performs cfg s evs = Some s' → reachable cfg s'.
Proof using Type.
  revert s. induction evs as [|ev evs IH]; intros s Hs; [by intros [= <-]|]. cbn [performs].
  destruct (perform cfg s ev) as [s1|] eqn:Hp; [|done]. cbn [mbind option_bind]. apply IH. by eapply reachable_step.
Qed.

End invariant.


(** C38: What a caller of the overview is served was computed for the very key it asked for, and was
    published after it asked or, at most the result's time to live, before; a failure is
    never older than the question. A waiting caller can always be served by its own computation, whose
    slot is given back. *)
Theorem answers_current cfg s : 0 < MaxComputations cfg → 0 ≤ ResultTTL cfg → reachable cfg s →
  (∀ key asked id out, Served key asked id out ∈ callers s → ∃ f t, flight s !! id = Some f ∧ f_key f = key ∧
     f_done f = Some (out, t) ∧ asked ≤ t + match out with Answered _ => ResultTTL cfg | Panicked => 0 end) ∧
  (∀ i key asked id res, callers s !! i = Some (Waiting key asked id) →
     ∃ evs s' out, evs ⊆ [Publish id (Answered res); Release id; Serve i] ∧ performs cfg s evs = Some s' ∧
       callers s' !! i = Some (Served key asked id out) ∧
       ∃ f, flight s' !! id = Some f ∧ f_key f = key ∧ busy f = false).
Proof.
  intros Hmax Httl Hr. pose proof (flights_reachable_inv cfg Hmax Httl s Hr) as Hs. split.
  - intros key asked id out Hin. destruct (i_served _ _ Hs _ _ _ _ Hin) as (f & t & Hf & Hk & Hd & Ha). by exists f, t.
  - intros i key asked id res Hi. pose proof (list_elem_of_lookup_2 _ _ _ Hi) as Hin.
    destruct (i_wait _ _ Hs _ _ _ Hin) as (_ & f & Hf & Hk & _). pose proof (i_stage _ _ Hs _ _ Hf) as Hst.
    pose proof (lookup_lt_Some _ _ _ Hi) as Hlt. destruct f as [key' st dn tm]. cbn [f_key f_stage f_done] in *. subst key'.
    destruct (decide (st = Computing)) as [->|Hnc]; [|destruct dn as [[out t]|]; [|by destruct Hnc; apply Hst]].
    + rewrite (proj2 Hst) in Hf by done.
      set (evs := [Publish id (Answered res); Release id; Serve i]). destruct (performs cfg s evs) as [s'|] eqn:Hrun; generalize Hrun;
        cbn [evs performs perform]; unfold publish, release, serve, at_stage, set_flight; rewrite Hf; cbn [mbind option_bind f_stage];
        rewrite decide_True by done; cbn [mbind option_bind set_flight flight f_key]; rewrite lookup_insert_eq;
        cbn [mbind option_bind f_stage]; rewrite decide_True by done; cbn [mbind option_bind callers flight f_done f_key];
        rewrite Hi; cbn [mbind option_bind flight]; rewrite lookup_insert_eq; [|done]. intros [= <-].
      exists evs. eexists _, (Answered res). split; [set_solver|]. split; [exact Hrun|].
      cbn [set_caller callers flight]. rewrite list_lookup_insert_eq by done. split; [done|]. eexists. by rewrite lookup_insert_eq.
    + destruct (decide (st = Published)) as [->|Hnp].
      * set (evs := [Release id; Serve i]). destruct (performs cfg s evs) as [s'|] eqn:Hrun; generalize Hrun;
          cbn [evs performs perform]; unfold release, serve, at_stage; rewrite Hf; cbn [mbind option_bind f_stage];
          rewrite decide_True by done; cbn [mbind option_bind callers flight f_done f_key];
          rewrite Hi; cbn [mbind option_bind flight]; rewrite lookup_insert_eq; [|done]. intros [= <-].
        exists evs. eexists _, out. split; [set_solver|]. split; [exact Hrun|].
        cbn [set_caller callers flight]. rewrite list_lookup_insert_eq by done. split; [done|]. eexists. rewrite lookup_insert_eq.
        split_and!; [done..|]. by destruct out.
      * set (evs := [Serve i]). destruct (performs cfg s evs) as [s'|] eqn:Hrun; generalize Hrun;
          cbn [evs performs perform]; unfold serve; rewrite Hi; cbn [mbind option_bind]; rewrite Hf; [|done]. intros [= <-].
        exists evs. eexists _, out. split; [set_solver|]. split; [exact Hrun|].
        cbn [set_caller callers flight]. rewrite list_lookup_insert_eq by done. split; [done|]. eexists. rewrite Hf.
        split_and!; [done..|]. by destruct st.
Qed.

(** ** Witnesses *)

Definition no_result : FleetResult := mkFleetResult [] 0 0 0 0 false false 0.

Definition sample_events : list event :=
  [Join "a"; Join "b"; Join "a"; Publish 0 (Answered no_result); Release 0; TrySweep 0; Serve 0; Tick Second; Join "a"; Serve 3;
   Publish 1 Panicked; Serve 1; Release 1; Tick Hour; Expire 0; Join "a"].

Definition sample_state : state := default (initial 0) (performs sample_config (initial 0) sample_events).

Example flights_sample_run :
  callers sample_state =
    [Served "a" 0 0 (Answered no_result); Served "b" 0 1 Panicked; Waiting "a" 0 0; Served "a" Second 0 (Answered no_result);
     Waiting "a" (Hour + Second) 2] ∧
  computing sample_state = 1 ∧ sweeping sample_state = true.
Proof. by vm_compute. Qed.

Lemma flights_sample_reachable : reachable sample_config sample_state.
Proof.
  apply (flights_performs_reachable _ (initial 0) sample_events); [apply reachable_initial|by vm_compute].
Qed.


Lemma answers_current_witness : ∃ f t, flight sample_state !! 0%nat = Some f ∧ f_key f = "a" ∧
  f_done f = Some (Answered no_result, t) ∧ Second ≤ t + Minute.
Proof.
  refine (proj1 (answers_current sample_config sample_state _ _ flights_sample_reachable) "a" Second 0%nat (Answered no_result) _).
  - vm_compute. reflexivity.
  - vm_compute. discriminate.
  - rewrite (proj1 flights_sample_run). do 3 right. left.
Defined.
