(* ===== verification/MetricBatch.v ===== *)
(** * [internal/metrics/batch.go]: glued queries

    The expressions of many targets go out as few requests, joined by [or] under a label that
    tells the terms apart. A request the datasource rejects is split in halves, so that an expression it
    does not accept costs the others as little as possible. The goroutines of [each] share nothing but the
    answers and the failures, which are collected in the order of the requests here. *)

From S2P Require Import Prelude GoSlices GoFloat PatroniLayout GoStrings MetricSignals.
From stdpp Require Import pretty options.

#[local] Open Scope string_scope.
#[local] Open Scope Z_scope.
#[local] Open Scope list_scope.

(** ** Data *)

Record batchKey := mkKey { k_Target : TargetRef; k_Signal : SignalKind }.

#[global] Instance batchKey_eq_dec : EqDecision batchKey.
Proof. solve_decision. Defined.

#[global] Instance batchKey_countable : Countable batchKey.
Proof. apply (inj_countable' (λ k, (k_Target k, k_Signal k)) (λ p, mkKey p.1 p.2)). by intros []. Defined.

Record batchItem := mkItem { Expr : string; Keys : list batchKey }.
Record batchReq := mkReq { r_expr : string; r_items : list batchItem; glued : bool }.

(** The datasource's failures: a status other than 200, or anything else. *)
Inductive query_error := StatusError (code : Z) | OtherError (msg : string).
Record batchFailure := mkFailure { fl_Keys : list batchKey; fl_Err : query_error }.

Definition batchLabel : string := "dasha_q".

Definition glueTerm (expr : string) (i : nat) : string :=
  "label_replace(" +:+ expr +:+ ", " +:+ dq +:+ batchLabel +:+ dq +:+ ", " +:+ dq +:+ pretty (Z.of_nat i) +:+ dq +:+
  ", " +:+ dq +:+ dq +:+ ", " +:+ dq +:+ dq +:+ ")".

(** ** Packing *)

Definition strlen (s : string) : Z := Z.of_nat (String.length s).

(** The requests, the items of the one being built, and its text. *)
Definition packing : Type := list batchReq * list batchItem * string.

Definition flush (st : packing) : packing :=
  let '(out, cur, sb) := st in (match cur with [] => out | _ => out ++ [mkReq sb cur true] end, [], "").

Definition pack_step (maxBytes : Z) (st : packing) (it : batchItem) : packing :=
  let '(out, cur, sb) := st in
  let term := " or " +:+ glueTerm (Expr it) (length cur) in
  if negb (bool_decide (cur = [])) && (strlen sb + strlen term <=? maxBytes) then (out, cur ++ [it], sb +:+ term)
  else
    let '(out, cur, sb) := match cur with [] => (out, cur, sb) | _ => flush (out, cur, sb) end in
    let term := glueTerm (Expr it) 0 in
    if maxBytes <? strlen term then (out ++ [mkReq (Expr it) [it] false], cur, sb)
    else (out, cur ++ [it], sb +:+ term).

Definition pack (maxBytes : Z) (items : list batchItem) : list batchReq :=
  (flush (foldl (pack_step maxBytes) ([], [], "") items)).1.1.

(** The item a sample belongs to. *)
Definition item (r : batchReq) (labels : gmap string string) : option batchItem :=
  if negb (glued r) then head (r_items r)
  else
    i ← PatroniLayout.Atoi (default "" (labels !! batchLabel));
    if i <? 0 then None else r_items r !! Z.to_nat i.

Definition rejected (err : query_error) : bool :=
  match err with StatusError code => (code =? 400) || (code =? 422) | OtherError _ => false end.

Definition multiTarget (items : list batchItem) : bool :=
  match (k_Target <$> concat (Keys <$> items)) with
  | [] => false
  | first :: rest => existsb (λ t, negb (bool_decide (t = first))) rest
  end.

(** ** Sending *)

Section send.
Context {A : Type} (maxBytes : Z).
(** The datasource's answer to the [n]-th request sent, and whether the context is alive once
    that many were sent. *)
Context (ask : nat → batchReq → query_error + A) (alive : nat → bool).

(** Requests sent so far, what was answered, and what failed. *)
Record sent := mkSent { s_count : nat; answers : list (batchReq * A); failures : list (batchReq * query_error) }.

Definition send1 (st : nat * list (batchReq * (query_error + A))) (r : batchReq) : nat * list (batchReq * (query_error + A)) :=
  (S st.1, st.2 ++ [(r, ask st.1 r)]).

Definition good (x : batchReq * (query_error + A)) : option (batchReq * A) := match x.2 with inr a => Some (x.1, a) | inl _ => None end.
Definition bad (x : batchReq * (query_error + A)) : option (batchReq * query_error) := match x.2 with inl e => Some (x.1, e) | inr _ => None end.

Definition fail (r : batchReq) (err : query_error) (st : sent) : sent := mkSent (s_count st) (answers st) (failures st ++ [(r, err)]).

(** [split]; the fuel bounds its depth, and [None] is out of fuel. *)
Fixpoint split (fuel : nat) (r : batchReq) (err : query_error) (st : sent) : option sent :=
  match fuel with
  | O => None
  | S fuel =>
      if negb (rejected err) || negb (alive (s_count st)) || negb (multiTarget (r_items r)) then Some (fail r err st)
      else
        let mid := Nat.div (length (r_items r)) 2 in
        let halves := pack maxBytes (take mid (r_items r)) ++ pack maxBytes (drop mid (r_items r)) in
        let '(n, results) := foldl send1 (s_count st, []) halves in
        let errs := omap bad results in
        if Nat.eqb (length errs) (length halves) then
          Some (fail r (default err (snd <$> head errs)) (mkSent n (answers st) (failures st)))
        else
          foldl (λ st' x, st ← st'; split fuel x.1 x.2 st) (Some (mkSent n (answers st ++ omap good results) (failures st))) errs
  end.

Definition run (r : batchReq) (st : sent) : option sent :=
  match ask (s_count st) r with
  | inr a => Some (mkSent (S (s_count st)) (answers st ++ [(r, a)]) (failures st))
  | inl err => split (S (length (r_items r))) r err (mkSent (S (s_count st)) (answers st) (failures st))
  end.

(** [each]: a request that gets no slot before the context ends fails with its error. *)
Definition each1 (slot : nat → bool) (st : option (nat * sent)) (r : batchReq) : option (nat * sent) :=
  '(i, st) ← st;
  if slot i then (λ st, (S i, st)) <$> run r st else Some (S i, fail r (OtherError "context canceled") st).

Definition each (slot : nat → bool) (items : list batchItem) : option sent :=
  snd <$> foldl (each1 slot) (Some (0%nat, mkSent 0 [] [])) (pack maxBytes items).
End send.

Arguments sent : clear implicits.

(** ** Answers *)

Record Sample := mkSample { s_Labels : gmap string string; s_Value : float }.

(** Keys that have a value keep it. *)
Definition put {A} (out : gmap batchKey A) (v : A) (k : batchKey) : gmap batchKey A := if decide (out !! k = None) then <[k := v]> out else out.

Definition put_sample {A} (r : batchReq) (labels : gmap string string) (v : A) (out : gmap batchKey A) : gmap batchKey A :=
  match item r labels with None => out | Some it => foldl (λ out k, put out v k) out (Keys it) end.

Definition collect {A S} (labels : S → gmap string string) (value : S → A) (st : sent (list S)) : gmap batchKey A :=
  foldl (λ out x, foldl (λ out s, put_sample x.1 (labels s) (value s) out) out x.2) ∅ (answers st).

Definition failure_of (x : batchReq * query_error) : batchFailure := mkFailure (concat (Keys <$> r_items x.1)) x.2.

Definition instant (maxBytes : Z) (ask : nat → batchReq → query_error + list Sample) (alive slot : nat → bool)
    (items : list batchItem) : option (gmap batchKey float * list batchFailure) :=
  st ← each maxBytes ask alive slot items;
  Some (collect s_Labels s_Value st, failure_of <$> failures st).

Record Series := mkSeries { sr_Labels : gmap string string; sr_Points : list SeriesPoint }.

Definition rangeQ (maxBytes : Z) (ask : nat → batchReq → query_error + list Series) (alive slot : nat → bool)
    (items : list batchItem) : option (gmap batchKey (list SeriesPoint) * list batchFailure) :=
  st ← each maxBytes ask alive slot items;
  Some (collect sr_Labels sr_Points st, failure_of <$> failures st).

(** ** Examples *)

Definition sample_item (host expr : string) : batchItem := mkItem expr [mkKey (mkTarget "c" host) SigTotalConns].

Example pack_value :
  (λ r, (length (r_items r), glued r)) <$> pack 100 [sample_item "a" "up"; sample_item "b" "down"; sample_item "c" "x"]
  = [(2%nat, true); (1%nat, true)] ∧
  (λ r, (r_expr r, glued r)) <$> pack 40 [sample_item "a" "up"] = [("up", false)].
Proof. by vm_compute. Qed.

(** ** Numbers in labels *)

Lemma digits_pretty x s : AutoConfig.digits_val 0 (String.list_ascii_of_string (pretty_N_go x s))
  = AutoConfig.digits_val (Z.of_N x) (String.list_ascii_of_string s).
Proof.
  revert s. induction (N.lt_wf_0 x) as [x _ IH]. intros s. destruct (decide (0 < x)%N) as [Hx|Hx].
  - rewrite pretty_N_go_step by done. rewrite IH by (by apply N.div_lt). cbn [String.list_ascii_of_string AutoConfig.digits_val].
    assert (Hd : ∀ d, (d < 10)%N → AutoConfig.is_digit (pretty_N_char d) = true ∧ AutoConfig.digit_val (pretty_N_char d) = Z.of_N d).
    { intros d Hd. destruct d as [|d]; [done|]. repeat (destruct d as [d|d|]; try done; try lia). }
    destruct (Hd (x `mod` 10)%N) as [-> ->]; [by apply N.mod_lt|]. f_equal. rewrite N2Z.inj_div, N2Z.inj_mod.
    pose proof (Z.div_mod (Z.of_N x) 10). lia.
  - replace x with 0%N by lia. by rewrite pretty_N_go_0.
Qed.

Lemma digit_not_sign c : AutoConfig.is_digit c = true → AutoConfig.is_char 45 c = false ∧ AutoConfig.is_char 43 c = false.
Proof. unfold AutoConfig.is_digit, AutoConfig.is_char. lia. Qed.

Lemma Atoi_pretty i : 0 ≤ i ≤ max64 → Atoi (pretty i) = Some i.
Proof.
  intros Hi. assert (Hrange : int64 i) by (unfold int64, min64, max64 in *; lia). destruct i as [|p|p]; [done| |lia].
  assert (Hd : AutoConfig.digits_val 0 (String.list_ascii_of_string (pretty (Z.pos p))) = Some (Z.pos p)).
  { change (pretty (Z.pos p)) with (pretty_N_go (N.pos p) ""). by rewrite digits_pretty. }
  unfold Atoi. destruct (String.list_ascii_of_string (pretty (Z.pos p))) as [|c l]; [done|]. cbn [AutoConfig.digits_val] in Hd.
  destruct (AutoConfig.is_digit c) eqn:Hc; [|done]. destruct (digit_not_sign c Hc) as [-> ->]. cbn [length Nat.eqb AutoConfig.digits_val].
  rewrite Hc, Hd. cbn. by rewrite decide_True.
Qed.

(** ** Packing *)

Definition glue (items : list batchItem) : string := strings_Join (imap (λ i it, glueTerm (Expr it) i) items) " or ".

(** A request as it may be sent. *)
Definition well_packed (maxBytes : Z) (r : batchReq) : Prop :=
  if glued r then r_items r ≠ [] ∧ r_expr r = glue (r_items r) ∧ strlen (r_expr r) ≤ maxBytes
  else ∃ it, r_items r = [it] ∧ r_expr r = Expr it ∧ maxBytes < strlen (glueTerm (Expr it) 0).

Lemma strings_Join_snoc l x sep : l ≠ [] → strings_Join (l ++ [x]) sep = strings_Join l sep +:+ sep +:+ x.
Proof.
  induction l as [|y l IH]; [done|]. intros _. destruct l as [|z l]; [done|].
  change (strings_Join ((y :: z :: l) ++ [x]) sep) with (y +:+ sep +:+ strings_Join ((z :: l) ++ [x]) sep).
  rewrite IH by done. change (strings_Join (y :: z :: l) sep) with (y +:+ sep +:+ strings_Join (z :: l) sep).
  by rewrite !string_app_assoc.
Qed.

Lemma glue_snoc items it : items ≠ [] → glue (items ++ [it]) = glue items +:+ " or " +:+ glueTerm (Expr it) (length items).
Proof.
  intros Hne. unfold glue. rewrite imap_app. cbn [imap]. rewrite strings_Join_snoc; [by rewrite Nat.add_0_r|]. by destruct items.
Qed.

(** The packing so far: what is being built fits, and no item is lost. *)
Record packed (maxBytes : Z) (items : list batchItem) (st : packing) : Prop := {
  p_items : concat (r_items <$> st.1.1) ++ st.1.2 = items;
  p_reqs : Forall (well_packed maxBytes) st.1.1;
  p_text : st.2 = match st.1.2 with [] => "" | cur => glue cur end;
  p_fits : st.1.2 ≠ [] → strlen st.2 ≤ maxBytes
}.

Lemma flush_packed maxBytes items st : packed maxBytes items st →
  packed maxBytes items (flush st) ∧ (flush st).1.2 = [] ∧ (flush st).2 = "".
Proof.
  destruct st as [[out cur] sb]. intros [Hi Hr Ht Hf]. cbn in *. split; [|done]. destruct cur as [|it cur]; split; cbn; try done.
  - rewrite fmap_app, concat_app. cbn. by rewrite app_nil_r, app_nil_r.
  - apply Forall_app. split; [done|]. constructor; [|done]. cbn. split_and!; [done..|by apply Hf].
Qed.

Lemma pack_step_packed maxBytes items st it : packed maxBytes items st → packed maxBytes (items ++ [it]) (pack_step maxBytes st it).
Proof.
  intros Hp. unfold pack_step. destruct st as [[out cur] sb]. case_match eqn:Htest.
  - apply andb_true_iff in Htest as [Hne Hfit]. apply negb_true_iff, bool_decide_eq_false in Hne. destruct Hp as [Hi Hr Ht Hf]. cbn in *.
    assert (Hsb : sb = glue cur) by (by destruct cur). split; cbn.
    + by rewrite app_assoc, Hi.
    + done.
    + transitivity (glue (cur ++ [it])); [|by destruct cur]. by rewrite glue_snoc, Hsb.
    + intros _. unfold strlen in *. rewrite str_length_app. lia.
  - clear Htest. assert (Hst : ∃ out', packed maxBytes items (out', [], "") ∧
      (match cur with [] => (out, cur, sb) | _ => flush (out, cur, sb) end) = (out', [], "")).
    { destruct cur as [|x cur].
      - exists out. destruct Hp as [Hi Hr Ht Hf]. cbn in *. subst sb. split; [by split|done].
      - destruct (flush_packed _ _ _ Hp) as [Hfl _]. by eexists. }
    destruct Hst as (out' & [Hi Hr Ht Hf] & ->). cbn [fst snd] in *. rewrite app_nil_r in Hi. destruct (Z.ltb_spec maxBytes (strlen (glueTerm (Expr it) 0))).
    + split; cbn; [|apply Forall_app; split; [done|]; constructor; [|done]; by exists it|done..].
      rewrite fmap_app, concat_app. cbn. by rewrite !app_nil_r, Hi.
    + split; cbn; [by rewrite Hi|done|done|done].
Qed.

Lemma pack_packed maxBytes items : packed maxBytes items (foldl (pack_step maxBytes) ([], [], "") items).
Proof.
  induction items as [|it items IH] using rev_ind; [by split|]. rewrite foldl_app. by apply pack_step_packed.
Qed.

Lemma pack_items maxBytes items : concat (r_items <$> pack maxBytes items) = items.
Proof.
  destruct (flush_packed _ _ _ (pack_packed maxBytes items)) as (Hp & Hcur & _). destruct Hp as [Hi _ _ _].
  unfold pack. rewrite Hcur, app_nil_r in Hi. exact Hi.
Qed.

Lemma pack_well maxBytes items : Forall (well_packed maxBytes) (pack maxBytes items).
Proof. apply (p_reqs _ _ _ (proj1 (flush_packed _ _ _ (pack_packed maxBytes items)))). Qed.

(** The label of a glued term leads back to its item. *)
Lemma item_label r i : glued r = true → Z.of_nat i ≤ max64 →
  item r {[batchLabel := pretty (Z.of_nat i)]} = r_items r !! i.
Proof.
  intros Hg Hi. unfold item. rewrite Hg. cbn [negb]. rewrite lookup_singleton_eq. cbn [default from_option id].
  rewrite Atoi_pretty by lia. cbn [mbind option_bind]. destruct (Z.ltb_spec (Z.of_nat i) 0); [lia|]. by rewrite Nat2Z.id.
Qed.

(** ** Splitting *)

Lemma packed_nonempty maxBytes r : well_packed maxBytes r → r_items r ≠ [].
Proof. unfold well_packed. destruct (glued r); [by intros (? & _)|]. by intros (it & -> & _). Qed.

Lemma multiTarget_nonempty items : multiTarget items = true → items ≠ [].
Proof. by intros H ->. Qed.

Section send_lemmas.
Context {A : Type} (maxBytes : Z) (ask : nat → batchReq → query_error + A) (alive : nat → bool).

Abbreviation split := (split maxBytes ask alive) (only parsing).

Lemma send1_all n acc rs : foldl (send1 ask) (n, acc) rs = ((n + length rs)%nat, acc ++ imap (λ i r, (r, ask (n + i)%nat r)) rs).
Proof using Type.
  revert n acc. induction rs as [|r rs IH]; intros n acc; cbn [foldl imap length].
  - by rewrite Nat.add_0_r, app_nil_r.
  - unfold send1 at 2. cbn [fst snd]. rewrite IH, <- app_assoc, Nat.add_0_r. f_equal; [lia|]. cbn. do 2 f_equal.
    apply imap_ext. intros i x _. cbn. do 2 f_equal. lia.
Qed.

Definition halves (items : list batchItem) : list batchReq :=
  let mid := Nat.div (length items) 2 in pack maxBytes (take mid items) ++ pack maxBytes (drop mid items).

Lemma halves_items items : concat (r_items <$> halves items) = items.
Proof using Type. unfold halves. by rewrite fmap_app, concat_app, !pack_items, take_drop. Qed.

Lemma halves_nonempty items : Forall (λ r, r_items r ≠ []) (halves items).
Proof using Type. unfold halves. apply Forall_app. split; (eapply Forall_impl; [apply pack_well|]); intros r; apply packed_nonempty. Qed.

(** A part of two or more requests is shorter than the whole. *)
Lemma part_shorter (rs : list batchReq) r : Forall (λ r, r_items r ≠ []) rs → r ∈ rs → (2 ≤ length rs)%nat →
  (length (r_items r) < length (concat (r_items <$> rs)))%nat.
Proof using Type.
  intros Hne Hr Hl. apply list_elem_of_split in Hr as (l1 & l2 & ->). rewrite fmap_app, fmap_cons, concat_app. cbn [concat].
  rewrite !length_app in *. cbn [length] in Hl.
  assert (Hx : ∀ l, Forall (λ r, r_items r ≠ []) l → (length l ≤ length (concat (r_items <$> l)))%nat).
  { clear. induction 1 as [|x l Hx Hl IH]; [done|]. cbn. rewrite length_app. destruct (r_items x); [done|]. cbn. lia. }
  apply Forall_app in Hne as [H1 H2]. apply Forall_cons in H2 as [_ H2]. apply Hx in H1, H2. lia.
Qed.

(** The results of some requests, by what became of them. *)
Lemma results_perm (results : list (batchReq * (query_error + A))) :
  concat (r_items <$> (omap good results).*1) ++ concat (r_items <$> (omap bad results).*1) ≡ₚ concat (r_items <$> results.*1).
Proof using Type.
  induction results as [|[r [e|a]] l IH]; [done| |]; cbn [omap list_omap good bad fst snd fmap list_fmap concat].
  - by rewrite Permutation_app_swap_app, IH.
  - by rewrite <- app_assoc, IH.
Qed.

Definition items_of (st : sent A) : list batchItem := concat (r_items <$> (answers st).*1) ++ concat (r_items <$> (failures st).*1).

Lemma items_of_fail r e st : items_of (fail r e st) ≡ₚ items_of st ++ r_items r.
Proof using Type. unfold items_of, fail. cbn. by rewrite !fmap_app, concat_app, app_assoc; cbn; rewrite app_nil_r. Qed.

Lemma split_fold fuel errs st : (∀ x, x ∈ errs → ∀ st, ∃ st', split fuel x.1 x.2 st = Some st' ∧ items_of st' ≡ₚ items_of st ++ r_items x.1) →
  ∃ st', foldl (λ st' x, st ← st'; split fuel x.1 x.2 st) (Some st) errs = Some st' ∧
    items_of st' ≡ₚ items_of st ++ concat (r_items <$> errs.*1).
Proof using Type.
  revert st. induction errs as [|x errs IH]; intros st Hx; cbn [foldl].
  - exists st. split; [done|]. by rewrite app_nil_r.
  - destruct (Hx x ltac:(by left) st) as (st1 & Heq & Hp). cbn [mbind option_bind]. rewrite Heq.
    destruct (IH st1) as (st' & Heq' & Hp'); [intros y Hy; apply Hx; by right|]. exists st'. split; [done|].
    rewrite Hp', Hp. cbn. by rewrite <- app_assoc.
Qed.

Lemma halves_results n items : let results := imap (λ i r, (r, ask (n + i)%nat r)) (halves items) in results.*1 = halves items.
Proof using Type. cbn zeta. rewrite fmap_imap. apply list_eq. intros i. rewrite list_lookup_imap. by destruct (halves items !! i). Qed.

(** Where not every part failed, the failed parts are shorter than the whole. *)
Lemma failed_part_shorter n items x : let errs := omap bad (imap (λ i r, (r, ask (n + i)%nat r)) (halves items)) in
  length errs ≠ length (halves items) → x ∈ errs → (length (r_items x.1) < length items)%nat.
Proof using Type.
  cbn zeta. set (results := imap _ _). intros Hne Hx. assert (Hl : length results = length (halves items)) by apply length_imap.
  assert (Hin : x.1 ∈ halves items).
  { rewrite <- (halves_results n). apply list_elem_of_omap in Hx as (y & Hy & Heq). unfold bad in Heq. destruct (y.2); [|done].
    injection Heq as <-. change (y.1 ∈ results.*1). by apply list_elem_of_fmap_2. }
  rewrite <- (halves_items items). apply part_shorter; [apply halves_nonempty|done|].
  destruct (halves items) as [|h1 [|h2 hs]] eqn:Hh; [by apply not_elem_of_nil in Hin| |cbn; lia].
  exfalso. apply Hne. subst results. cbn in *. unfold bad in *. cbn [snd] in *. destruct (ask _ h1); [done|]. by apply not_elem_of_nil in Hx.
Qed.

(** Splitting ends, and every item of the request is answered or failed, once. *)
Lemma split_accounts fuel r err st : (length (r_items r) < fuel)%nat →
  ∃ st', split fuel r err st = Some st' ∧ items_of st' ≡ₚ items_of st ++ r_items r.
Proof using Type.
  revert r err st. induction fuel as [|fuel IH]; intros r err st Hf; [lia|]. cbn [MetricBatch.split].
  destruct (_ || _ || _); [by eexists; split; [done|apply items_of_fail]|]. fold (halves (r_items r)). rewrite send1_all. cbn [app].
  set (results := imap _ _). set (n := (s_count st + _)%nat).
  destruct (Nat.eqb_spec (length (omap bad results)) (length (halves (r_items r)))) as [|Hne].
  { eexists. split; [done|]. rewrite items_of_fail. done. }
  destruct (split_fold fuel (omap bad results) (mkSent n (answers st ++ omap good results) (failures st))) as (st' & Heq & Hp).
  - intros x Hx st0. apply IH. pose proof (failed_part_shorter _ _ _ Hne Hx). lia.
  - exists st'. split; [done|]. rewrite Hp. unfold items_of. cbn [answers failures].
    rewrite <- (halves_items (r_items r)), <- (halves_results (s_count st)). fold results. rewrite <- results_perm.
    rewrite !fmap_app, concat_app, <- !app_assoc. apply Permutation_app_head. rewrite Permutation_app_swap_app. done.
Qed.

Lemma run_accounts r st : ∃ st', run maxBytes ask alive r st = Some st' ∧ items_of st' ≡ₚ items_of st ++ r_items r.
Proof using Type.
  unfold run. destruct (ask (s_count st) r) as [err|a].
  - destruct (split_accounts (S (length (r_items r))) r err (mkSent (S (s_count st)) (answers st) (failures st))) as (st' & Heq & Hp); [lia|].
    by exists st'.
  - eexists. split; [done|]. unfold items_of. cbn. rewrite !fmap_app, concat_app. cbn. rewrite app_nil_r.
    by rewrite <- !app_assoc, (Permutation_app_comm (r_items r)).
Qed.

Lemma each_fold slot rs i st : ∃ j st', foldl (each1 maxBytes ask alive slot) (Some (i, st)) rs = Some (j, st') ∧
  items_of st' ≡ₚ items_of st ++ concat (r_items <$> rs).
Proof using Type.
  revert i st. induction rs as [|r rs IH]; intros i st; cbn [foldl].
  - exists i, st. split; [done|]. by rewrite app_nil_r.
  - assert (Hone : ∃ st1, each1 maxBytes ask alive slot (Some (i, st)) r = Some (S i, st1) ∧ items_of st1 ≡ₚ items_of st ++ r_items r).
    { unfold each1. cbn [mbind option_bind]. destruct (slot i).
      - destruct (run_accounts r st) as (st1 & -> & Hp). by exists st1.
      - eexists. split; [done|]. apply items_of_fail. }
    destruct Hone as (st1 & -> & Hp). destruct (IH (S i) st1) as (j & st' & Heq & Hp'). exists j, st'. split; [done|].
    rewrite Hp', Hp. cbn. by rewrite <- app_assoc.
Qed.

(** What holds of a state and is kept by sending is kept by splitting. *)
Lemma split_fold_keeps (I : sent A → Prop) fuel errs st st' :
  (∀ x st st', x ∈ errs → I st → split fuel x.1 x.2 st = Some st' → I st') → I st →
  foldl (λ st' x, st ← st'; split fuel x.1 x.2 st) (Some st) errs = Some st' → I st'.
Proof using Type.
  revert st. induction errs as [|x errs IH]; intros st Hx HI; cbn [foldl]; [by intros [= <-]|]. cbn [mbind option_bind].
  destruct (split fuel x.1 x.2 st) as [st1|] eqn:Hs.
  - apply IH; [intros y s s' Hy; apply Hx; by right|]. eapply Hx; [by left|done|exact Hs].
  - intros Hn. exfalso. revert Hn. clear. induction errs as [|y errs IH]; [done|exact IH].
Qed.

Lemma each_fold_keeps (I : sent A → Prop) slot rs i st j st' :
  (∀ r st st', well_packed maxBytes r → I st → run maxBytes ask alive r st = Some st' → I st') →
  (∀ r e st, I st → I (fail r e st)) → Forall (well_packed maxBytes) rs → I st →
  foldl (each1 maxBytes ask alive slot) (Some (i, st)) rs = Some (j, st') → I st'.
Proof using Type.
  intros Hrun Hfail Hw. revert i st. induction Hw as [|r rs Hr Hw IH]; intros i st HI; cbn [foldl]; [by intros [= _ <-]|].
  unfold each1 at 2. cbn [mbind option_bind]. destruct (slot i).
  - destruct (run maxBytes ask alive r st) as [st1|] eqn:Hs; cbn [fmap option_fmap option_map].
    + apply IH. by eapply Hrun.
    + intros Hn. exfalso. revert Hn. clear. induction rs as [|y rs IH]; [done|exact IH].
  - apply IH. by apply Hfail.
Qed.

Lemma each_keeps (I : sent A → Prop) slot items st' :
  (∀ r st st', well_packed maxBytes r → I st → run maxBytes ask alive r st = Some st' → I st') →
  (∀ r e st, I st → I (fail r e st)) → I (mkSent 0 [] []) → each maxBytes ask alive slot items = Some st' → I st'.
Proof using Type.
  intros Hrun Hfail HI (x & Hx & ->)%fmap_Some. destruct x as [j st']. cbn [snd].
  eapply each_fold_keeps; [done|done|apply pack_well|exact HI|exact Hx].
Qed.

(** What was answered is an answer of the datasource to a request that may be sent. *)
Definition answered (st : sent A) : Prop := ∀ x, x ∈ answers st → well_packed maxBytes x.1 ∧ ∃ n, ask n x.1 = inr x.2.

Lemma halves_well items r : r ∈ halves items → well_packed maxBytes r.
Proof using Type.
  unfold halves. rewrite elem_of_app.
  pose proof (pack_well maxBytes (take (length items / 2) items)) as H1. pose proof (pack_well maxBytes (drop (length items / 2) items)) as H2.
  rewrite list.Forall_forall in H1, H2. intros [?|?]; auto.
Qed.

Lemma result_lookup n items x : x ∈ imap (λ i r, (r, ask (n + i)%nat r)) (halves items) → x.1 ∈ halves items ∧ ∃ m, x.2 = ask m x.1.
Proof using Type.
  intros Hx. apply list_elem_of_lookup in Hx as [i Hi]. rewrite list_lookup_imap in Hi. destruct (halves items !! i) as [r|] eqn:Hr; [|done].
  injection Hi as <-. split; [by eapply list_elem_of_lookup_2|]. by eexists.
Qed.

Lemma split_answered fuel r err st st' : answered st → split fuel r err st = Some st' → answered st'.
Proof using Type.
  revert r err st st'. induction fuel as [|fuel IH]; intros r err st st' Ha; [done|]. cbn [MetricBatch.split].
  destruct (_ || _ || _); [by intros [= <-]|]. fold (halves (r_items r)). rewrite send1_all. cbn [app]. set (results := imap _ _).
  destruct (Nat.eqb _ _); [by intros [= <-]|]. apply split_fold_keeps; [intros x s s' _; apply IH|].
  intros x [Hx|Hx]%elem_of_app; [by apply Ha|]. apply list_elem_of_omap in Hx as (y & Hy & Heq). unfold good in Heq.
  destruct (y.2) as [|a] eqn:Hy2; [done|]. injection Heq as <-. apply result_lookup in Hy as [Hin [m Hm]]. cbn [fst snd].
  split; [by eapply halves_well|]. exists m. by rewrite <- Hm.
Qed.

Lemma each_answered slot items st : each maxBytes ask alive slot items = Some st → answered st.
Proof using Type.
  apply each_keeps.
  - intros r st0 st' Hw Ha. unfold run. destruct (ask (s_count st0) r) as [err|a] eqn:Hask.
    + by apply split_answered.
    + intros [= <-] x [Hx|Hx%list_elem_of_singleton]%elem_of_app; [by apply Ha|]. subst x. split; [done|]. by eexists.
  - done.
  - by intros x ?%not_elem_of_nil.
Qed.

(** ** One item the datasource does not accept *)

Section offending.
Context (off : batchItem) (Halive : ∀ n, alive n = true).
Context (Hask : ∀ n r, match ask n r with inl e => rejected e = true ∧ off ∈ r_items r | inr _ => off ∉ r_items r end).

(** A failed request is of the offending item alone, or of its target alone. *)
Definition isolated (r : batchReq) : Prop := off ∈ r_items r ∧ (r_items r = [off] ∨ multiTarget (r_items r) = false).

Definition isolating (st : sent A) : Prop := ∀ x, x ∈ failures st → isolated x.1.

Lemma pack_nonempty items : items ≠ [] → pack maxBytes items ≠ [].
Proof using Type. intros Hne Hp. apply Hne. rewrite <- (pack_items maxBytes items), Hp. done. Qed.

(** One part is all there is of a single item. *)
Lemma single_half items h : halves items = [h] → off ∈ items → items = [off].
Proof using Type.
  clear Hask Halive. intros Hh Hoff. destruct items as [|x [|y items]]; [by apply not_elem_of_nil in Hoff|by apply list_elem_of_singleton in Hoff as ->|].
  exfalso. revert Hh. unfold halves. set (l := x :: y :: items). set (mid := (length l / 2)%nat).
  assert (Hmid : (0 < mid < length l)%nat).
  { assert (2 ≤ length l)%nat by (cbn; lia). unfold mid. split; [apply Nat.div_str_pos; lia|apply Nat.div_lt; lia]. }
  assert (H1 : pack maxBytes (take mid l) ≠ []) by (apply pack_nonempty; intros Hn; apply (f_equal length) in Hn; rewrite length_take in Hn; change (length (@nil batchItem)) with 0%nat in Hn; lia).
  assert (H2 : pack maxBytes (drop mid l) ≠ []) by (apply pack_nonempty; intros Hn; apply (f_equal length) in Hn; rewrite length_drop in Hn; change (length (@nil batchItem)) with 0%nat in Hn; lia).
  intros Hh. apply (f_equal length) in Hh. rewrite length_app in Hh. cbn [length] in Hh.
  destruct (pack maxBytes (take mid l)); [done|]. destruct (pack maxBytes (drop mid l)); [done|]. cbn in Hh. lia.
Qed.

(** The parts of a request all have the item only if there is one part. *)
Lemma parts_with (rs : list batchReq) : NoDup (concat (r_items <$> rs)) → rs ≠ [] → (∀ r, r ∈ rs → off ∈ r_items r) →
  ∃ r, rs = [r].
Proof using Type.
  destruct rs as [|r1 [|r2 rs]]; [done|by exists r1|]. cbn. intros Hnd _ Hin. exfalso. apply NoDup_app in Hnd as (_ & Hd & _).
  apply (Hd off); [apply Hin; by left|]. apply elem_of_app. left. apply Hin. by right; left.
Qed.

Lemma bad_le (l : list (batchReq * (query_error + A))) : (length (omap bad l) ≤ length l)%nat.
Proof using Type. induction l as [|[r [e|a]] l IH]; cbn [omap list_omap bad snd fst length]; lia. Qed.

Lemma all_bad (results : list (batchReq * (query_error + A))) : length (omap bad results) = length results →
  ∀ x, x ∈ results → ∃ e, x.2 = inl e.
Proof using Type.
  induction results as [|[r [e|a]] l IH]; cbn [omap list_omap bad snd fst length].
  - by intros _ x ?%not_elem_of_nil.
  - intros [= Hl] x [->|Hx]%elem_of_cons; [by exists e|by apply IH].
  - intros Hl. pose proof (bad_le l). lia.
Qed.

Lemma split_isolates fuel r err st st' : NoDup (r_items r) → isolating st → off ∈ r_items r → rejected err = true →
  split fuel r err st = Some st' → isolating st'.
Proof using Halive Hask.
  revert r err st st'. induction fuel as [|fuel IH]; intros r err st st' Hnd Hst Hoff Herr; [done|]. cbn [MetricBatch.split].
  rewrite Herr, Halive. cbn [negb orb]. destruct (multiTarget (r_items r)) eqn:Hm; cbn [negb].
  2: { intros [= <-] x [Hx|Hx%list_elem_of_singleton]%elem_of_app; [by apply Hst|]. subst x. split; [done|by right]. }
  fold (halves (r_items r)). rewrite send1_all. cbn [app]. set (results := imap _ _).
  assert (Hbad : ∀ x, x ∈ omap bad results → x.1 ∈ halves (r_items r) ∧ off ∈ r_items x.1 ∧ rejected x.2 = true).
  { intros x Hx. apply list_elem_of_omap in Hx as (y & Hy & Heq). unfold bad in Heq. destruct (y.2) as [e|] eqn:Hy2; [|done].
    injection Heq as <-. apply result_lookup in Hy as [Hin [m Hm']]. cbn [fst snd]. split; [done|].
    pose proof (Hask m y.1) as Ha. rewrite <- Hm', Hy2 in Ha. tauto. }
  assert (Hres : length results = length (halves (r_items r))) by apply length_imap.
  destruct (Nat.eqb_spec (length (omap bad results)) (length (halves (r_items r)))) as [Hall|Hne].
  - intros [= <-] x [Hx|Hx%list_elem_of_singleton]%elem_of_app; [by apply Hst|]. subst x. cbn [fst]. split; [done|left].
    rewrite <- Hres in Hall. pose proof (all_bad results Hall) as Hab.
    destruct (parts_with (halves (r_items r))) as [h Hh].
    + by rewrite halves_items.
    + intros Hh. pose proof (halves_items (r_items r)) as Hi. rewrite Hh in Hi. apply (multiTarget_nonempty _ Hm). by rewrite <- Hi.
    + intros h Hh. rewrite <- (halves_results (s_count st)) in Hh. fold results in Hh. apply list_elem_of_fmap in Hh as (y & -> & Hy).
      destruct (Hab y Hy) as [e He]. apply (Hbad (y.1, e)), list_elem_of_omap. exists y. split; [done|]. unfold bad. by rewrite He.
    + by apply (single_half _ h).
  - apply split_fold_keeps; [|done]. intros x s s' Hx Hs. destruct (Hbad x Hx) as (Hin & Hox & Hex). apply IH; [|done..].
    rewrite <- (halves_items (r_items r)) in Hnd. apply list_elem_of_split in Hin as (l1 & l2 & Hl). rewrite Hl, fmap_app, concat_app in Hnd.
    apply NoDup_app in Hnd as (_ & _ & Hnd). cbn in Hnd. by apply NoDup_app in Hnd as (? & _).
Qed.
End offending.
End send_lemmas.

Lemma run_isolates {A} maxBytes (ask : nat → batchReq → query_error + A) alive off r st st' : (∀ n, alive n = true) →
  (∀ n r, match ask n r with inl e => rejected e = true ∧ off ∈ r_items r | inr _ => off ∉ r_items r end) →
  NoDup (r_items r) → isolating off st → run maxBytes ask alive r st = Some st' → isolating off st'.
Proof.
  intros Halive Hask Hnd Hst. unfold run. pose proof (Hask (s_count st) r) as Hr. destruct (ask (s_count st) r) as [err|a].
  - destruct Hr as [He Hoff]. by apply (split_isolates maxBytes ask alive off Halive Hask).
  - by intros [= <-].
Qed.

Lemma each_accounts {A} maxBytes (ask : nat → batchReq → query_error + A) alive slot items :
  ∃ st, each maxBytes ask alive slot items = Some st ∧ items_of st ≡ₚ items.
Proof.
  destruct (each_fold maxBytes ask alive slot (pack maxBytes items) 0 (mkSent 0 [] [])) as (j & st & Heq & Hp).
  exists st. unfold each. rewrite Heq. split; [done|]. by rewrite Hp, pack_items.
Qed.

Lemma put_fold {A} (out : gmap batchKey A) v ks k x : foldl (λ out k, put out v k) out ks !! k = Some x →
  out !! k = Some x ∨ (k ∈ ks ∧ x = v).
Proof.
  revert out. induction ks as [|k' ks IH]; intros out; cbn [foldl]; [by left|]. intros [Hx|[Hk ->]]%IH; [|right; split; [by right|done]].
  unfold put in Hx. case_decide as Hn; [|by left]. apply lookup_insert_Some in Hx as [[-> ->]|[_ ?]]; [|by left].
  right. split; [by left|done].
Qed.

Lemma fold_or {A B} (f : A → B → A) (P : A → Prop) (Q : B → Prop) a l :
  (∀ a b, b ∈ l → P (f a b) → P a ∨ Q b) → P (foldl f a l) → P a ∨ ∃ b, b ∈ l ∧ Q b.
Proof.
  revert a. induction l as [|b l IH]; intros a Hf; cbn [foldl]; [by left|]. intros [Hp|(b' & Hb & Hq)]%IH.
  - destruct (Hf a b ltac:(by left) Hp) as [?|?]; [by left|]. right. exists b. split; [by left|done].
  - right. exists b'. split; [by right|done].
  - intros a' b' Hb. apply Hf. by right.
Qed.

(** A value collected comes from a sample whose label names an item of the key. *)
Lemma collect_sound {A S} (labels : S → gmap string string) (value : S → A) (st : sent (list S)) k v :
  collect labels value st !! k = Some v →
  ∃ x s it, x ∈ answers st ∧ s ∈ x.2 ∧ item x.1 (labels s) = Some it ∧ k ∈ Keys it ∧ v = value s.
Proof.
  unfold collect. intros Hc.
  eapply (fold_or _ (λ out : gmap batchKey A, out !! k = Some v)
    (λ x, ∃ s it, s ∈ x.2 ∧ item x.1 (labels s) = Some it ∧ k ∈ Keys it ∧ v = value s)) in Hc as [Hc|(x & Hx & s & it & Hr)].
  - by rewrite lookup_empty in Hc.
  - by exists x, s, it.
  - intros out x _ Hx. eapply (fold_or _ (λ out : gmap batchKey A, out !! k = Some v)
      (λ s, ∃ it, item x.1 (labels s) = Some it ∧ k ∈ Keys it ∧ v = value s)) in Hx as [Hx|(s & Hs & it & Hr)].
    + by left.
    + right. by exists s, it.
    + intros out' s _. unfold put_sample. destruct (item x.1 (labels s)) as [it|] eqn:Hit; [|by left].
      intros [?|[Hk ->]]%put_fold; [by left|]. right. by exists it.
Qed.

(** A value stays, whatever is collected after it. *)
Lemma foldl_keeps {A B} (f : A → B → A) (P : A → Prop) a l : (∀ a b, P a → P (f a b)) → P a → P (foldl f a l).
Proof. intros Hf. revert a. induction l as [|b l IH]; intros a Ha; [done|]. by apply IH, Hf. Qed.

Lemma foldl_reaches {A B} (f : A → B → A) (P : A → Prop) a l b :
  (∀ a b, P a → P (f a b)) → (∀ a, P (f a b)) → b ∈ l → P (foldl f a l).
Proof.
  intros Hf Hb (l1 & l2 & ->)%list_elem_of_split. rewrite foldl_app. cbn [foldl]. by apply foldl_keeps.
Qed.

Lemma put_keeps {A} (v : A) k (out : gmap batchKey A) k' : is_Some (out !! k) → is_Some (put out v k' !! k).
Proof.
  intros Hk. unfold put. case_decide; [|done]. destruct (decide (k' = k)) as [->|Hne]; [by rewrite lookup_insert_eq|].
  by rewrite lookup_insert_ne.
Qed.

Lemma put_sample_keeps {A} r labels (v : A) (out : gmap batchKey A) k : is_Some (out !! k) → is_Some (put_sample r labels v out !! k).
Proof.
  intros Hk. unfold put_sample. destruct (item r labels) as [it|]; [|done].
  apply (foldl_keeps _ (λ out, is_Some (out !! k))); [|done]. intros out' k'. apply put_keeps.
Qed.

(** Every key of the item a sample belongs to gets a value. *)
Lemma collect_complete {A S} (labels : S → gmap string string) (value : S → A) (st : sent (list S)) x s it k :
  x ∈ answers st → s ∈ x.2 → item x.1 (labels s) = Some it → k ∈ Keys it → is_Some (collect labels value st !! k).
Proof.
  intros Hx Hs Hit Hk. unfold collect. eapply (foldl_reaches _ (λ out, is_Some (out !! k))); [..|exact Hx].
  - intros out y Hout. apply (foldl_keeps _ (λ out, is_Some (out !! k))); [|done]. intros out' s'. apply put_sample_keeps.
  - intros out. eapply (foldl_reaches _ (λ out, is_Some (out !! k))); [..|exact Hs]; [intros out' s'; apply put_sample_keeps|].
    intros out'. unfold put_sample. rewrite Hit. eapply (foldl_reaches _ (λ out, is_Some (out !! k))); [..|exact Hk].
    + intros out'' k'. apply put_keeps.
    + intros out''. unfold put. case_decide as Hn; [by rewrite lookup_insert_eq|]. by apply not_eq_None_Some.
Qed.

(** The samples of a request of one bare expression are its item's; those of a glued one carry the
    number of their item. *)
Definition belongs (r : batchReq) (labels : gmap string string) (it : batchItem) : Prop :=
  ∃ i, r_items r !! i = Some it ∧
    if glued r then Atoi (default "" (labels !! "dasha_q")) = Some (Z.of_nat i) else i = 0%nat.

Lemma item_belongs r labels it : item r labels = Some it ↔ belongs r labels it.
Proof.
  unfold item, belongs, batchLabel. destruct (glued r); cbn [negb].
  - destruct (Atoi _) as [z|]; cbn [mbind option_bind]; [|by split; [|intros (? & _ & ?)]]. destruct (Z.ltb_spec z 0).
    + split; [done|]. intros (i & _ & [= ->]). lia.
    + split; [intros Hi; exists (Z.to_nat z); split; [done|]; by rewrite Z2Nat.id|]. intros (i & Hi & [= ->]). by rewrite Nat2Z.id.
  - split; [intros Hh; exists 0%nat; split; [by destruct (r_items r)|done]|]. intros (i & Hi & ->). by destruct (r_items r).
Qed.

(** C39: A batch of instant queries always ends with an answer, whatever the datasource replies and
    whenever the budget runs out. Every item is answered or reported as failed, exactly once, and a
    failure lists the keys of its items; no glued request is longer than allowed, its terms carry the
    numbers of their items, and a longer expression goes out by itself. Every key of the item a
    sample of an answered request belongs to has a value, and a key has no value but that of such a
    sample. *)
Theorem instant_exact maxBytes ask alive slot items : ∃ st values,
  each maxBytes ask alive slot items = Some st ∧
  instant maxBytes ask alive slot items = Some (values, (λ x, mkFailure (concat (Keys <$> r_items x.1)) x.2) <$> failures st) ∧
  concat (r_items <$> (answers st).*1) ++ concat (r_items <$> (failures st).*1) ≡ₚ items ∧
  (∀ r samples, (r, samples) ∈ answers st → well_packed maxBytes r ∧ ∃ n, ask n r = inr samples) ∧
  (∀ r samples s it k, (r, samples) ∈ answers st → s ∈ samples → belongs r (s_Labels s) it → k ∈ Keys it → is_Some (values !! k)) ∧
  ∀ k v, values !! k = Some v → ∃ r samples s it, (r, samples) ∈ answers st ∧ s ∈ samples ∧
    belongs r (s_Labels s) it ∧ k ∈ Keys it ∧ v = s_Value s.
Proof.
  destruct (each_accounts maxBytes ask alive slot items) as (st & Heq & Hp). exists st, (collect s_Labels s_Value st).
  unfold instant. rewrite Heq. split_and!; [done..|intros r samples Hr; by apply (each_answered _ _ _ _ _ _ Heq) in Hr| |].
  - intros r samples s it k Hr Hs Hit%item_belongs Hk. by eapply (collect_complete _ _ _ (r, samples)).
  - intros k v ([r samples] & s & it & Hx & Hs & Hit & Hk & ->)%collect_sound. exists r, samples, s, it.
    split_and!; try done. by apply item_belongs.
Qed.

(** An expression the datasource does not accept costs the others nothing: when it
    rejects the requests that hold one certain item, and answers all others, each request that is
    reported as failed holds that item, and is of it alone or of its target alone. *)
Theorem rejection_isolated {A} maxBytes (ask : nat → batchReq → query_error + A) alive items off st :
  NoDup items → (∀ n, alive n = true) →
  (∀ n r, match ask n r with inl e => rejected e = true ∧ off ∈ r_items r | inr _ => off ∉ r_items r end) →
  each maxBytes ask alive (λ _, true) items = Some st →
  ∀ r e, (r, e) ∈ failures st → off ∈ r_items r ∧ (r_items r = [off] ∨ multiTarget (r_items r) = false).
Proof.
  intros Hnd Halive Hask Hst. enough (Hi : isolating off st) by (intros r e Hr; by apply (Hi (r, e))).
  apply fmap_Some in Hst as ([j st'] & Hst & ->). cbn [snd].
  assert (Hp : Forall (λ r, NoDup (r_items r)) (pack maxBytes items)).
  { rewrite <- (pack_items maxBytes items) in Hnd. revert Hnd. generalize (pack maxBytes items). clear. intros rs.
    induction rs as [|r rs IH]; [constructor|]. cbn. intros (H1 & _ & H2)%NoDup_app. constructor; [done|by apply IH]. }
  assert (H0 : isolating off (mkSent 0 [] [] : sent A)) by by intros x ?%not_elem_of_nil.
  revert Hst H0. generalize 0%nat at 1. generalize (mkSent 0 [] [] : sent A). induction Hp as [|r rs Hr Hp IH]; intros st n; cbn [foldl].
  - by intros [= _ <-].
  - unfold each1 at 2. cbn [mbind option_bind]. destruct (run maxBytes ask alive r st) as [st1|] eqn:Hrun; cbn [fmap option_fmap option_map].
    + intros Hf H0. apply (IH _ _ Hf). by eapply run_isolates.
    + intros Hn. exfalso. revert Hn. clear. induction rs as [|y rs IH]; [done|exact IH].
Qed.

(** ** Witnesses *)

Definition sample_items : list batchItem :=
  (λ h, sample_item h ("up{host=" +:+ h +:+ "}")) <$> ["a"; "b"; "c"; "d"].

#[local] Instance batchItem_eq_dec : EqDecision batchItem.
Proof. solve_decision. Defined.

Definition odd_one : batchItem := sample_item "c" "up{host=c}".

(** Answers 7 for every term, but does not accept the expression of host [c]. *)
Definition picky (n : nat) (r : batchReq) : query_error + list Sample :=
  if decide (odd_one ∈ r_items r) then inl (StatusError 422)
  else inr (imap (λ i _, mkSample {[batchLabel := pretty (Z.of_nat i)]} 7) (r_items r)).

Definition sample_sent : option (sent (list Sample)) := each 1000 picky (λ _, true) (λ _, true) sample_items.

Example picky_sent :
  match sample_sent with
  | Some st => (r_items <$> (failures st).*1, s_count st) = ([[odd_one]], 5%nat)
  | None => False
  end.
Proof. by vm_compute. Qed.

Example picky_values :
  match instant 1000 picky (λ _, true) (λ _, true) sample_items with
  | Some (values, fails) => (λ h, values !! mkKey (mkTarget "c" h) SigTotalConns) <$> ["a"; "b"; "c"; "d"] = [Some 7; Some 7; None; Some 7]%float
  | None => False
  end.
Proof. by vm_compute. Qed.

Lemma rejection_isolated_witness : ∃ st e, sample_sent = Some st ∧ (mkReq (glueTerm (Expr odd_one) 0) [odd_one] true, e) ∈ failures st ∧
  odd_one ∈ [odd_one] ∧ ([odd_one] = [odd_one] ∨ multiTarget [odd_one] = false).
Proof.
  assert (Hrun : match sample_sent with Some st => failures st = [(mkReq (glueTerm (Expr odd_one) 0) [odd_one] true, StatusError 422)] | None => False end)
    by (vm_compute; reflexivity).
  destruct sample_sent as [st|] eqn:Hst; [|destruct Hrun]. exists st, (StatusError 422). split; [reflexivity|].
  assert (Hin : (mkReq (glueTerm (Expr odd_one) 0) [odd_one] true, StatusError 422) ∈ failures st) by (rewrite Hrun; left).
  split; [exact Hin|].
  refine (rejection_isolated 1000 picky (λ _, true) sample_items odd_one st _ _ _ Hst _ _ Hin).
  - apply (bool_decide_unpack _). vm_compute. exact I.
  - reflexivity.
  - intros n r. unfold picky. destruct (decide (odd_one ∈ r_items r)) as [Hd|Hd]; [split; [reflexivity|exact Hd]|exact Hd].
Defined.
