(* ===== verification/MetricCatalog.v ===== *)
(** * [internal/metrics/catalog.go]: the queries of a signal

    What a provider is asked for a signal: a MetricsQL template with the target's selector, the rate
    window and the fragment that drops service roles. The providers and roles are those of [config.go], and
    the role that serves a signal is [collector.go]'s. *)

From Stdlib Require Import Ascii.
From S2P Require Import Prelude GoStrings MetricSignals.
From stdpp Require Import options.

#[local] Open Scope string_scope.
#[local] Open Scope Z_scope.
#[local] Open Scope list_scope.

(** ** Providers and roles *)

Abbreviation Provider := string (only parsing).

Definition ProviderPgSCV : Provider := "pgscv".
Definition ProviderYCNative : Provider := "yc_native".
Definition ProviderPgBouncer : Provider := "pgbouncer".
Definition ProviderPgSCVSystem : Provider := "pgscv_system".
Definition ProviderPostgresExporter : Provider := "postgres_exporter".
Definition ProviderNodeExporter : Provider := "node_exporter".
Definition ProviderPgBouncerExporter : Provider := "pgbouncer_exporter".
Definition ProviderNone : Provider := "none".

Inductive Role := RoleCore | RolePooler | RoleHost.

#[global] Instance Role_eq_dec : EqDecision Role.
Proof. solve_decision. Defined.

#[global] Instance Role_countable : Countable Role.
Proof.
  apply (inj_countable' (λ r, match r with RoleCore => 0%nat | RolePooler => 1%nat | RoleHost => 2%nat end)
    (λ n, match n with 0%nat => RoleCore | 1%nat => RolePooler | _ => RoleHost end)). by intros [].
Defined.

Definition signalRole (s : SignalKind) : Role :=
  if decide (s ∈ [SigPoolerClients; SigPoolerServers; SigPoolerPoolSize]) then RolePooler
  else if decide (s ∈ [SigLoadAvg15; SigNumVCPU; SigDiskUsedRatio]) then RoleHost
  else RoleCore.

(** ** Templates

    A single quote stands for the double quote of the source, which has no single ones. *)

Definition template : Type := Provider * SignalKind * string.

Definition base_templates : list template :=
  [
   (ProviderPgSCV, SigLatencyMs, "1000 * sum(rate(postgres_statements_time_seconds_all_total{%[1]s}[%[2]s])) / " +:+
     "clamp_min(sum(rate(postgres_statements_calls_total{%[1]s}[%[2]s])), 1)");
   (ProviderYCNative, SigLatencyMs, "pooler_query_0_95{%[1]s}");
   (ProviderPgSCV, SigXactsLeftWrap, "min(postgres_xacts_left_before_wraparound{%[1]s})");
   (ProviderPgSCV, SigChecksumFailRate, "sum(increase(postgres_database_checksum_failures_total{%[1]s}[%[2]s])) or on() vector(0)");
   (ProviderPgSCV, SigCacheHitRatio, "100 * sum(rate(postgres_database_blocks_total{%[1]s,access='hit'}[%[2]s])) / " +:+
     "clamp_min(sum(rate(postgres_database_blocks_total{%[1]s}[%[2]s])), 1)");
   (ProviderPgSCV, SigMaxDeadRatio, "100 * max((postgres_table_tuples_dead_total{%[1]s} / " +:+
     "clamp_min(postgres_table_tuples_dead_total{%[1]s} + postgres_table_tuples_live_total{%[1]s}, 1)) " +:+
     "and (postgres_table_tuples_dead_total{%[1]s} + postgres_table_tuples_live_total{%[1]s} > 10000))");
   (ProviderPgSCV, SigAvgDeadRatio, "100 * avg((postgres_table_tuples_dead_total{%[1]s} / " +:+
     "clamp_min(postgres_table_tuples_dead_total{%[1]s} + postgres_table_tuples_live_total{%[1]s}, 1)) " +:+
     "and (postgres_table_tuples_dead_total{%[1]s} + postgres_table_tuples_live_total{%[1]s} > 10000))");
   (ProviderPgSCV, SigHotUpdateRatio, "(sum(rate(postgres_table_tuples_hot_updated_total{%[1]s}[%[2]s])) / " +:+
     "sum(rate(postgres_table_tuples_updated_total{%[1]s}[%[2]s])) " +:+
     "and sum(rate(postgres_table_tuples_updated_total{%[1]s}[%[2]s])) > 0.1) " +:+
     "or (sum(rate(postgres_table_tuples_updated_total{%[1]s}[%[2]s])) >= bool 0)");
   (ProviderPgSCV, SigSeqScanRate, "sum(rate(postgres_table_seq_tup_read_total{%[1]s}[%[2]s]))");
   (ProviderPgSCV, SigDeadlocksTotal, "sum(postgres_database_deadlocks_total{%[1]s})");
   (ProviderPgSCV, SigTimedCheckpoints, "sum(postgres_checkpoints_total{%[1]s,type='timed'})");
   (ProviderPgSCV, SigRequestedCheckpoints, "sum(postgres_checkpoints_total{%[1]s,type='req'})");
   (ProviderPgSCV, SigActiveLockWaiters, "sum(postgres_activity_wait_events_in_flight{%[1]s,type='Lock'})");
   (ProviderPgSCV, SigReplLagSeconds, "max(postgres_replication_lag_all_seconds{%[1]s})");
   (ProviderPgSCV, SigReplLagBytes, "max(postgres_replication_lag_all_bytes{%[1]s})");
   (ProviderPgSCV, SigLocksNotGranted, "sum(postgres_locks_not_granted_in_flight{%[1]s})");
   (ProviderPgSCV, SigTotalConns, "sum(postgres_activity_connections_all_in_flight{%[1]s})");
   (ProviderPgSCV, SigActiveConns, "sum(postgres_activity_connections_in_flight{%[1]s,state='active'})");
   (ProviderPgSCV, SigIdleInTx, "sum(postgres_activity_connections_in_flight{%[1]s,state='idle in transaction'})");
   (ProviderPgSCV, SigMaxConns, "max(postgres_service_settings_info{%[1]s,name='max_connections'})");
   (ProviderPgSCV, SigAutovacuumOff, "min(postgres_service_settings_info{%[1]s,name='autovacuum'}) == bool 0");
   (ProviderPgSCV, SigTrackCountsOff, "min(postgres_service_settings_info{%[1]s,name='track_counts'}) == bool 0");
   (ProviderPgSCV, SigCheckpointsReqRate, "sum(rate(postgres_checkpoints_total{%[1]s,type='req'}[%[2]s]))");
   (ProviderPgSCV, SigCheckpointsAllRate, "sum(rate(postgres_checkpoints_total{%[1]s}[%[2]s]))");
   (ProviderPgSCV, SigMaxBloatRatio, "max(postgres_table_bloat_ratio{%[1]s})");
   (ProviderPgSCV, SigSeqExhaustionMax, "max(postgres_schema_sequence_exhaustion_ratio{%[1]s})");
   (ProviderPgSCV, SigTypeExhaustionMax, "max(postgres_table_datatype_exhaustion_ratio{%[1]s})");
   (ProviderYCNative, SigLoadAvg15, "max(load_avg_15min{%[1]s})");
   (ProviderYCNative, SigNumVCPU, "max(n_cpus{%[1]s})");
   (ProviderYCNative, SigDiskUsedRatio, "max(disk_used_bytes{%[1]s} / disk_total_bytes{%[1]s})");
   (ProviderPgSCVSystem, SigLoadAvg15, "max(node_load15{%[1]s})");
   (ProviderPgSCVSystem, SigNumVCPU, "count(count by (cpu) (node_cpu_seconds_total{%[1]s}))");
   (ProviderPgSCVSystem, SigDiskUsedRatio, "max(node_filesystem_bytes{%[1]s,usage='used'} / " +:+
     "ignoring(usage) node_filesystem_bytes_total{%[1]s})");
   (ProviderPgBouncer, SigPoolerClients, "sum(pgbouncer_client_connections_in_flight{%[1]s})");
   (ProviderPgBouncer, SigPoolerServers, "sum(pgbouncer_pool_connections_in_flight{%[1]s})");
   (ProviderPgBouncer, SigPoolerPoolSize, "sum(pgbouncer_service_database_pool_size{%[1]s})");
   (ProviderYCNative, SigPoolerServers, "max(postgres_role_sessions{%[1]s%[3]s} / (postgres_role_conn_limit{%[1]s%[3]s} > 0))");
   (ProviderYCNative, SigPoolerPoolSize, "clamp_max(count(postgres_role_conn_limit{%[1]s%[3]s} > 0), 1)")
  ].

Definition pgeClient : string := "backend_type='client backend'".
Definition nodeFS : string := "fstype=~'ext[34]|xfs|btrfs',device_error=''".
Definition pgbNoAdm : string := "database!='pgbouncer'".

Definition ckptTimed : string := "pg_stat_checkpointer_num_timed_total{%[1]s}".
Definition ckptReq : string := "pg_stat_checkpointer_num_requested_total{%[1]s}".
Definition bgwTimed : string := "pg_stat_bgwriter_checkpoints_timed_total{%[1]s}".
Definition bgwReq : string := "pg_stat_bgwriter_checkpoints_req_total{%[1]s}".

Definition rate (m : string) : string := "sum(rate(" +:+ m +:+ "[%[2]s]))".

Definition activity (m : string) : string :=
  "sum(pg_stat_activity_count{%[1]s," +:+ pgeClient +:+ "," +:+ m +:+ "}) or 0 * sum(pg_stat_activity_count{%[1]s})".

Definition dead : string := "pg_stat_user_tables_n_dead_tup{%[1]s}".
Definition live : string := "pg_stat_user_tables_n_live_tup{%[1]s}".
Definition deadRatio : string :=
  "((" +:+ dead +:+ " / clamp_min(" +:+ dead +:+ " + " +:+ live +:+ ", 1)) and (" +:+ dead +:+ " + " +:+ live +:+ " > 10000))".
Definition upd : string := rate "pg_stat_user_tables_n_tup_upd{%[1]s}".

Definition fsSize : string := "node_filesystem_size_bytes{%[1]s," +:+ nodeFS +:+ "}".
Definition fsFree : string := "node_filesystem_free_bytes{%[1]s," +:+ nodeFS +:+ "}".

Definition exporterTemplates : list template :=
  let pe := ProviderPostgresExporter in
  let ne := ProviderNodeExporter in
  let pbe := ProviderPgBouncerExporter in
  [(pe, SigTotalConns, "sum(pg_stat_activity_count{%[1]s," +:+ pgeClient +:+ "})");
   (pe, SigActiveConns, activity "state='active'");
   (pe, SigIdleInTx, activity "state='idle in transaction'");
   (pe, SigActiveLockWaiters, activity "wait_event_type='Lock'");
   (pe, SigMaxConns, "max(pg_settings_max_connections{%[1]s})");
   (pe, SigAutovacuumOff, "min(pg_settings_autovacuum{%[1]s}) == bool 0");
   (pe, SigTrackCountsOff, "min(pg_settings_track_counts{%[1]s}) == bool 0");
   (pe, SigCacheHitRatio, "100 * " +:+ rate "pg_stat_database_blks_hit{%[1]s}" +:+ " / clamp_min(" +:+
     rate "pg_stat_database_blks_hit{%[1]s}" +:+ " + " +:+ rate "pg_stat_database_blks_read{%[1]s}" +:+ ", 1)");
   (pe, SigDeadlocksTotal, "sum(pg_stat_database_deadlocks{%[1]s})");
   (pe, SigTimedCheckpoints, "sum(" +:+ ckptTimed +:+ ") or sum(" +:+ bgwTimed +:+ ")");
   (pe, SigRequestedCheckpoints, "sum(" +:+ ckptReq +:+ ") or sum(" +:+ bgwReq +:+ ")");
   (pe, SigCheckpointsReqRate, rate ckptReq +:+ " or " +:+ rate bgwReq);
   (pe, SigCheckpointsAllRate, rate ckptTimed +:+ " + " +:+ rate ckptReq +:+ " or " +:+ rate bgwTimed +:+ " + " +:+ rate bgwReq);
   (pe, SigReplLagBytes, "max(pg_stat_replication_pg_wal_lsn_diff{%[1]s})");
   (pe, SigXactsLeftWrap, "2147483648 - max(pg_database_wraparound_age_datfrozenxid_seconds{%[1]s})");
   (pe, SigMaxDeadRatio, "100 * max" +:+ deadRatio);
   (pe, SigAvgDeadRatio, "100 * avg" +:+ deadRatio);
   (pe, SigHotUpdateRatio, "(" +:+ rate "pg_stat_user_tables_n_tup_hot_upd{%[1]s}" +:+ " / " +:+ upd +:+
     " and " +:+ upd +:+ " > 0.1) or (" +:+ upd +:+ " >= bool 0)");
   (pe, SigSeqScanRate, rate "pg_stat_user_tables_seq_tup_read{%[1]s}");
   (pe, SigLatencyMs, "1000 * " +:+ rate "pg_stat_statements_seconds_total{%[1]s}" +:+
     " / clamp_min(" +:+ rate "pg_stat_statements_calls_total{%[1]s}" +:+ ", 1)");
   (ne, SigLoadAvg15, "max(node_load15{%[1]s})");
   (ne, SigNumVCPU, "count(count by (cpu) (node_cpu_seconds_total{%[1]s}))");
   (ne, SigDiskUsedRatio, "max((" +:+ fsSize +:+ " - " +:+ fsFree +:+ ") / " +:+ fsSize +:+ ")");
   (pbe, SigPoolerClients, "sum({__name__=~'pgbouncer_pools_client_(active|waiting)_connections',%[1]s," +:+ pgbNoAdm +:+ "})");
   (pbe, SigPoolerServers, "sum({__name__=~'pgbouncer_pools_server_(active|idle|used|testing|login)_connections',%[1]s," +:+
     pgbNoAdm +:+ "})");
   (pbe, SigPoolerPoolSize, "sum(pgbouncer_databases_pool_size{%[1]s," +:+ pgbNoAdm +:+ "})")].

(** [NewQueryCatalog]: the keys are distinct ([templates_distinct]). *)
Definition templates : list template := base_templates ++ exporterTemplates.

(** ** Rendering *)

Definition straight_quote : Ascii.ascii := Ascii.ascii_of_nat 39.

(** The argument a verb [%[n]s] at the head of a template stands for, counted from 1. *)
Definition verb (s : string) : option nat :=
  match s with
  | String p (String b (String n (String k (String t _)))) =>
      if decide (p = "%"%char ∧ b = "["%char ∧ k = "]"%char ∧ t = "s"%char) then Some (Ascii.nat_of_ascii n - 48)%nat else None
  | _ => None
  end.

(** [fmt.Sprintf] of a template whose only verbs are these; [skip] characters of a verb are left. *)
Fixpoint render_go (args : list string) (skip : nat) (s : string) : string :=
  match s, skip with
  | EmptyString, _ => ""
  | String _ s', S skip => render_go args skip s'
  | String c s', O =>
      match verb s with
      | Some n => default "" (args !! pred n) +:+ render_go args 4 s'
      | None => (if decide (c = straight_quote) then dq else String c "") +:+ render_go args 0 s'
      end
  end.

Definition render (args : list string) (s : string) : string := render_go args 0 s.

Definition template_of (p : Provider) (s : SignalKind) : option string :=
  snd <$> head (filter (λ t : template, t.1 = (p, s)) templates).

Definition Expr_of (p : Provider) (s : SignalKind) (selector window exclude : string) : option string :=
  render [selector; window; exclude] <$> template_of p s.

(** [QueryCatalog.Signals]: sorted, and so the same for every order of the map. *)
Definition Signals_of (p : Provider) (role : Role) : list SignalKind :=
  sort_slice str_ltb ((λ t : template, t.1.2) <$> filter (λ t : template, t.1.1 = p ∧ signalRole t.1.2 = role) templates).

Definition exporterFlags (s : SignalKind) : string :=
  if decide (s ∈ [SigTimedCheckpoints; SigRequestedCheckpoints; SigCheckpointsReqRate; SigCheckpointsAllRate]) then
    "--collector.stat_checkpointer"
  else if decide (s = SigXactsLeftWrap) then "--collector.database_wraparound"
  else if decide (s = SigLatencyMs) then "--collector.stat_statements"
  else "".

Definition ValidationMetric (p : Provider) : string :=
  if decide (p = ProviderPgSCV) then "postgres_up"
  else if decide (p = ProviderYCNative) then "n_cpus"
  else if decide (p = ProviderPgBouncer) then "pgbouncer_up"
  else if decide (p = ProviderPgSCVSystem) then "node_load15"
  else if decide (p = ProviderPostgresExporter) then "pg_up"
  else if decide (p = ProviderNodeExporter) then "node_uname_info"
  else if decide (p = ProviderPgBouncerExporter) then "pgbouncer_up"
  else "".

(** ** Examples *)

Example expr_value :
  Expr_of ProviderPgSCV SigMaxConns "host='a'" "5m" "" =
    Some ("max(postgres_service_settings_info{host='a',name=" +:+ dq +:+ "max_connections" +:+ dq +:+ "})") ∧
  Expr_of ProviderYCNative SigPoolerPoolSize "h" "5m" ",x" = Some "clamp_max(count(postgres_role_conn_limit{h,x} > 0), 1)" ∧
  Expr_of ProviderPgBouncer SigLatencyMs "h" "5m" "" = None.
Proof. by vm_compute. Qed.

Example signals_value : Signals_of ProviderNodeExporter RoleHost = [SigDiskUsedRatio; SigLoadAvg15; SigNumVCPU].
Proof. by vm_compute. Qed.

Lemma templates_distinct : NoDup templates.*1.
Proof. apply (bool_decide_unpack _). by vm_compute. Qed.

(** A provider is catalogued for the signals of one role only, but for the native one of Yandex. *)
Lemma templates_roles : Forall (λ t : template, t.1.1 ≠ ProviderYCNative →
  signalRole t.1.2 = if decide (t.1.1 ∈ [ProviderPgBouncer; ProviderPgBouncerExporter]) then RolePooler
    else if decide (t.1.1 ∈ [ProviderPgSCVSystem; ProviderNodeExporter]) then RoleHost else RoleCore) templates.
Proof.
  assert (Hb : forallb (λ t : template, bool_decide (t.1.1 = ProviderYCNative) || bool_decide (signalRole t.1.2 =
    if decide (t.1.1 ∈ [ProviderPgBouncer; ProviderPgBouncerExporter]) then RolePooler
    else if decide (t.1.1 ∈ [ProviderPgSCVSystem; ProviderNodeExporter]) then RoleHost else RoleCore)) templates = true)
    by by vm_compute.
  apply list.Forall_forall. intros t Ht Hne. rewrite forallb_forall in Hb. apply list_elem_of_In, Hb in Ht.
  apply orb_true_iff in Ht as [Ht%bool_decide_eq_true|Ht%bool_decide_eq_true]; done.
Qed.

(** No template makes the label that tells glued terms apart. *)
Lemma templates_without_label : Forall (λ t : template, Cut t.2 "dasha_q" = None) templates.
Proof. repeat (apply Forall_cons_2; [by vm_compute|]). apply Forall_nil_2. Qed.

(** ** What an expression reads *)

Definition is_open (c : ascii) : bool := bool_decide (c = "{"%char).
Definition is_close (c : ascii) : bool := bool_decide (c = "}"%char).

(** The vector selectors of an expression: what stands between braces. *)
Fixpoint selectors_go (acc : option string) (e : string) : list string :=
  match e with
  | EmptyString => []
  | String c e' =>
      if is_open c then selectors_go (Some "") e'
      else if is_close c then match acc with Some a => a :: selectors_go None e' | None => selectors_go None e' end
      else selectors_go ((λ a, a +:+ String c "") <$> acc) e'
  end.

Definition selectors : string → list string := selectors_go None.

Definition holds_ (sel a : string) : Prop := ∃ u v, a = u +:+ sel +:+ v.

Definition no_brace (s : string) : Prop := Forall (λ c, is_open c = false ∧ is_close c = false) (String.list_ascii_of_string s).

(** The same walk over a template: every pair of braces has the first verb in it. *)
Fixpoint restricted (inside seen : bool) (skip : nat) (s : string) : bool :=
  match s, skip with
  | EmptyString, _ => true
  | String _ s', S skip => restricted inside seen skip s'
  | String c s', O =>
      match verb s with
      | Some n => (Nat.leb 1 n && Nat.leb n 3) && restricted inside (seen || Nat.eqb n 1) 4 s'
      | None =>
          if is_open c then restricted true false 0 s'
          else if is_close c then (negb inside || seen) && restricted false false 0 s'
          else restricted inside seen 0 s'
      end
  end.

Lemma selectors_skip acc t e : no_brace t → selectors_go acc (t +:+ e) = selectors_go ((λ a, a +:+ t) <$> acc) e.
Proof.
  unfold no_brace. revert acc. induction t as [|c t IH]; intros acc Ht.
  - change ("" +:+ e) with e. destruct acc as [a|]; [|done]. change ((λ a, a +:+ "") <$> Some a) with (Some (a +:+ "")).
    by rewrite str_app_nil_r.
  - cbn [String.list_ascii_of_string] in Ht. apply Forall_cons in Ht as [[Ho Hc] Ht].
    change (String c t +:+ e) with (String c (t +:+ e)). cbn [selectors_go]. rewrite Ho, Hc, IH by done.
    destruct acc as [a|]; [|done]. cbn. do 2 f_equal. by rewrite string_app_assoc.
Qed.

Lemma holds_app sel a t : holds_ sel a → holds_ sel (a +:+ t).
Proof. intros (u & v & ->). exists u, (v +:+ t). by rewrite !string_app_assoc. Qed.

Section rendered.
Context (sel window exclude : string) (Hsel : no_brace sel) (Hwin : no_brace window) (Hexc : no_brace exclude).

(** Where the walk is: outside of braces, or after a part that has the selector if it was seen. *)
Definition walk (inside seen : bool) (acc : option string) : Prop :=
  match acc with Some a => inside = true ∧ (seen = true → holds_ sel a) | None => inside = false end.

Lemma restricted_render s skip inside seen acc : restricted inside seen skip s = true → walk inside seen acc →
  Forall (holds_ sel) (selectors_go acc (render_go [sel; window; exclude] skip s)).
Proof using Hsel Hwin Hexc.
  revert skip inside seen acc. induction s as [|c s IH]; intros skip inside seen acc; [by constructor|].
  destruct skip as [|skip]; [|apply IH]. cbn [restricted render_go]. destruct (verb (String c s)) as [n|].
  - intros [Hn Hr]%andb_true_iff Hw. assert (Hcases : n = 1%nat ∨ n = 2%nat ∨ n = 3%nat) by (rewrite andb_true_iff, !Nat.leb_le in Hn; lia).
    assert (Harg : no_brace (default "" ([sel; window; exclude] !! pred n))) by (by destruct Hcases as [->|[->| ->]]).
    rewrite selectors_skip by done. eapply IH; [exact Hr|]. destruct acc as [a|]; [|done]. destruct Hw as [Hin Hseen]. split; [done|].
    intros [Hs|Hone%Nat.eqb_eq]%orb_true_iff; [by apply holds_app, Hseen|]. subst n. cbn. exists a, "". by rewrite str_app_nil_r.
  - case_decide as Hq.
    { subst c. cbn [is_open is_close]. change (is_open straight_quote) with false. change (is_close straight_quote) with false.
      intros Hr Hw. rewrite selectors_skip by (repeat constructor). eapply IH; [exact Hr|]. destruct acc as [a|]; [|done].
      destruct Hw as [Hin Hseen]. split; [done|]. intros Hs. by apply holds_app, Hseen. }
    change (String c "" +:+ render_go [sel; window; exclude] 0 s) with (String c (render_go [sel; window; exclude] 0 s)).
    cbn [selectors_go]. destruct (is_open c); [intros Hr _; by eapply IH|]. destruct (is_close c).
    + intros [Hs Hr]%andb_true_iff Hw. destruct acc as [a|]; [|by eapply IH]. destruct Hw as [-> Hseen]. cbn in Hs.
      constructor; [by apply Hseen|by eapply IH].
    + intros Hr Hw. eapply IH; [exact Hr|]. destruct acc as [a|]; [|done]. destruct Hw as [Hin Hseen]. split; [done|].
      intros Hs. by apply holds_app, Hseen.
Qed.
End rendered.

Lemma templates_restricted : Forall (λ t : template, restricted false false 0 t.2 = true) templates.
Proof. apply Forall_forall. intros t Ht. assert (Hb : forallb (λ t : template, restricted false false 0 t.2) templates = true) by by vm_compute.
  rewrite forallb_forall in Hb. by apply list_elem_of_In, Hb in Ht. Qed.

(** The queries of the catalog stay within their target: whatever selector, rate window and
    role exclusion are rendered into a catalogued expression, each of its vector selectors contains the
    target's, so that no query reads the series of another target; and a pair is catalogued once. *)
Theorem Expr_confined p s sel window exclude e : no_brace sel → no_brace window → no_brace exclude →
  Expr_of p s sel window exclude = Some e →
  Forall (holds_ sel) (selectors e) ∧ ∃ tpl, (p, s, tpl) ∈ templates ∧ ∀ tpl', (p, s, tpl') ∈ templates → tpl' = tpl.
Proof.
  intros Hs Hw Hx. unfold Expr_of, template_of. destruct (head (filter _ templates)) as [[key tpl]|] eqn:Hh; [|done].
  apply head_Some_elem_of, list_elem_of_filter in Hh as [Hk Ht]. cbn in Hk. subst key. intros [= <-]. cbn [snd]. split.
  - apply (restricted_render sel window exclude Hs Hw Hx _ _ false false); [|done].
    pose proof templates_restricted as Hr. rewrite list.Forall_forall in Hr. by apply (Hr _ Ht).
  - exists tpl. split; [done|]. intros tpl' Ht'. pose proof templates_distinct as Hnd.
    apply list_elem_of_lookup in Ht as [i Hi], Ht' as [j Hj].
    assert (Hij : i = j).
    { apply (NoDup_lookup templates.*1 i j (p, s)); [done|..]; (etransitivity; [apply list_lookup_fmap|]);
        [exact (f_equal (fmap (M:=option) (fst (B:=string))) Hi)|exact (f_equal (fmap (M:=option) (fst (B:=string))) Hj)]. }
    subst j. pose proof (eq_trans (eq_sym Hi) Hj) as Heq. by injection Heq.
Qed.

Lemma Expr_confined_witness :
  Forall (holds_ "host='a'") (selectors (default "" (Expr_of ProviderPgSCV SigHotUpdateRatio "host='a'" "5m" ""))).
Proof.
  destruct (Expr_of ProviderPgSCV SigHotUpdateRatio "host='a'" "5m" "") as [e|] eqn:He; [|exfalso; revert He; vm_compute; discriminate].
  refine (proj1 (Expr_confined _ _ _ _ _ e _ _ _ He)); repeat constructor.
Defined.
