(* ===== verification/GoNet.v ===== *)
(** * Go's [net]: addresses

    [net.SplitHostPort], and whether [net.ParseIP] takes a string for an address: four decimal
    octets, or the hexadecimal groups of IPv6 with at most one ellipsis and perhaps an IPv4 tail. *)

From Stdlib Require Import Ascii.
From S2P Require Import Prelude GoStrings.
From stdpp Require Import options.

#[local] Open Scope string_scope.
#[local] Open Scope Z_scope.
#[local] Open Scope list_scope.

(** ** [net.SplitHostPort] *)

Definition has_char (c : ascii) (s : string) : bool := bool_decide (c ∈ String.list_ascii_of_string s).

(** Around the last [c]. *)
Fixpoint cut_last (c : ascii) (s : string) : option (string * string) :=
  match s with
  | EmptyString => None
  | String d s' =>
      match cut_last c s' with
      | Some (before, after) => Some (String d before, after)
      | None => if decide (d = c) then Some ("", s') else None
      end
  end.

(** Around the first [c]. *)
Fixpoint cut_first (c : ascii) (s : string) : option (string * string) :=
  match s with
  | EmptyString => None
  | String d s' =>
      if decide (d = c) then Some ("", s')
      else match cut_first c s' with Some (before, after) => Some (String d before, after) | None => None end
  end.

(** [None] is an error. *)
Definition SplitHostPort (s : string) : option (string * string) :=
  match cut_last ":"%char s with
  | None => None
  | Some (before, port) =>
      match s with
      | String "["%char inner =>
          match cut_first "]"%char inner with
          | Some (host, rest) =>
              if decide (rest = String ":"%char port) then
                if has_char "["%char inner || has_char "]"%char rest then None else Some (host, port)
              else None
          | None => None
          end
      | _ =>
          if has_char ":"%char before || has_char "["%char s || has_char "]"%char s then None else Some (before, port)
      end
  end.

Example SplitHostPort_values :
  SplitHostPort <$> ["db:5432"; "[::1]:5432"; "db"; "::1"; "[::1]"; ":5432"; "[a]b:1"; "a]:1"]
  = [Some ("db", "5432"); Some ("::1", "5432"); None; None; None; Some ("", "5432"); None; None].
Proof. by vm_compute. Qed.

(** ** [net.ParseIP] *)

Definition digit (c : ascii) : option Z := if in_range 48 57 c then Some (byte_of c - 48) else None.
Definition is_hex (c : ascii) : bool := in_range 48 57 c || in_range 97 102 c || in_range 65 70 c.

(** The octets: whether a dot may not come now, the octet so far with its digits, and how
    many are complete. *)
Fixpoint v4_fields (after_dot : bool) (val digits pos : Z) (s : list ascii) : bool :=
  match s with
  | [] => 3 <=? pos
  | c :: s' =>
      match digit c with
      | Some d =>
          if (digits =? 1) && (val =? 0) then false
          else let val := val * 10 + d in if 255 <? val then false else v4_fields false val (digits + 1) pos s'
      | None =>
          if bool_decide (c = "."%char) then
            if after_dot || bool_decide (s' = []) || (pos =? 3) then false else v4_fields true 0 0 (pos + 1) s'
          else false
      end
  end.

Definition is_v4 (s : list ascii) : bool := v4_fields true 0 0 0 s.

Fixpoint hex_prefix (s : list ascii) : nat * list ascii :=
  match s with
  | c :: s' => if is_hex c then let '(n, rest) := hex_prefix s' in (S n, rest) else (O, s)
  | [] => (O, [])
  end.

Definition v6_done (i : Z) (ellipsis : bool) : bool := if i <? 16 then ellipsis else negb ellipsis.

(** The groups; [i] bytes are complete. A turn takes a digit and a colon, so the length is fuel
    enough. *)
Fixpoint v6_groups (fuel : nat) (i : Z) (ellipsis : bool) (s : list ascii) : bool :=
  match fuel with
  | O => false
  | S fuel =>
      if 16 <=? i then bool_decide (s = []) && v6_done i ellipsis
      else
        let '(n, rest) := hex_prefix s in
        if Nat.eqb n 0 || Nat.ltb 4 n then false
        else
          match rest with
          | [] => v6_done (i + 2) ellipsis
          | c :: rest' =>
              if bool_decide (c = "."%char) then
                if (negb ellipsis && negb (i =? 12)) || (16 <? i + 4) then false else is_v4 s && v6_done (i + 4) ellipsis
              else if negb (bool_decide (c = ":"%char)) then false
              else
                match rest' with
                | [] => false
                | d :: rest'' =>
                    if bool_decide (d = ":"%char) then
                      if ellipsis then false
                      else match rest'' with [] => v6_done (i + 2) true | _ => v6_groups fuel (i + 2) true rest'' end
                    else v6_groups fuel (i + 2) ellipsis rest'
                end
          end
  end.

Definition is_v6 (s : list ascii) : bool :=
  match s with
  | c :: d :: rest =>
      if bool_decide (c = ":"%char) && bool_decide (d = ":"%char) then
        match rest with [] => true | _ => v6_groups (S (length rest)) 0 true rest end
      else v6_groups (S (length s)) 0 false s
  | _ => v6_groups (S (length s)) 0 false s
  end.

(** Whether [net.ParseIP] is not nil; it takes no zone. *)
Definition is_ip (s : string) : bool :=
  let l := String.list_ascii_of_string s in
  match head (filter (λ c, c ∈ ["."%char; ":"%char; "%"%char]) l) with
  | Some c =>
      if bool_decide (c = "."%char) then is_v4 l
      else if bool_decide (c = ":"%char) then negb (has_char "%"%char s) && is_v6 l
      else false
  | None => false
  end.

Example is_ip_values :
  is_ip <$> ["10.0.0.1"; "10.0.0"; "10.0.0.256"; "010.0.0.1"; "1.2.3.4."; "::"; "::1"; "fe80::1%eth0"; "1:2:3:4:5:6:7:8"; "1:2:3:4:5:6:7";
             "::ffff:1.2.3.4"; "1::2::3"; "12345::"; "host"; "1:2:3:4:5:6:7::"; "1:2:3:4:5:6:7:8::"]
  = [true; false; false; false; false; true; true; false; true; false; true; false; false; false; true; false].
Proof. by vm_compute. Qed.
