(* ===== verification/MetricMatcher.v ===== *)
(** * [internal/metrics]: configuration and targets ([config.go], [matcher.go], [anchor.go])

    A Dasha instance becomes the labels a datasource knows it by: from its entry in the configuration, or
    from what service discovery says of it, or, for a stock exporter, from the one scrape that
    names its address. The rendering of a selector's template by [text/template] is a parameter, as are
    [strings.EqualFold] and what [%q] does outside ASCII. *)

From Stdlib Require Import Ascii.
From S2P Require Import Prelude GoSlices GoFloat PatroniLayout GoStrings GoNet MetricSignals MetricBatch MetricCatalog HealthScorer.
From stdpp Require Import options.

#[local] Open Scope string_scope.
#[local] Open Scope Z_scope.
#[local] Open Scope list_scope.

(** ** Configuration *)

Record AuthConfig := mkAuth {
  a_Type : string; Token : string; TokenFromEnv : string; Username : string; Password : string; PasswordFromEnv : string
}.
Record DatasourceConfig := mkDatasource { URL : string; ds_Auth : AuthConfig; ds_Timeout : duration; MaxQueryBytes : Z; MaxConcurrency : Z }.
Record BaselineConfig := mkBaselineConfig { Window : duration; MinHistory : duration; CacheTTL : duration }.
Record DipsConfig := mkDips { ScorePoints : float; LatencyFactor : float }.
Record ProvidersConfig := mkProviders { Core : Provider; Pooler : Provider; Host_ : Provider }.
Record TargetMapping := mkMapping {
  tm_Cluster : string; tm_Instance : string; tm_Env : string; tm_Service : string; tm_Host : string; tm_Container : string;
  tm_Providers : option ProvidersConfig
}.

(** [ExcludeRoles] is [None] when it is not set. *)
Record Config := mkConfig {
  Enabled : bool; Datasource : DatasourceConfig; Baseline_ : BaselineConfig; Dips_ : DipsConfig; WraparoundLeft : Z;
  Providers : ProvidersConfig; Selectors : gmap string string; Targets : list TargetMapping; RoleLabel : string;
  ExcludeRoles : option (list string); AutoMapDiscovered : option bool; AutoMapStatic : option bool; DiscoveryEnvLabel : string
}.

Definition autoMapEnabled (c : Config) : bool := default true (AutoMapDiscovered c).
Definition autoMapStaticEnabled (c : Config) : bool :=
  default true (AutoMapStatic c) && bool_decide (Core (Providers c) = ProviderPostgresExporter).
Definition envLabelKey (c : Config) : string := if decide (DiscoveryEnvLabel c = "") then "folder_id" else DiscoveryEnvLabel c.

Definition roleExclusion (c : Config) : string :=
  match default [] (ExcludeRoles c) with
  | [] => ""
  | roles =>
      let label := if decide (RoleLabel c = "") then "query_type" else RoleLabel c in
      "," +:+ label +:+ "!~" +:+ dq +:+ strings_Join roles "|" +:+ dq
  end.

Definition SelectorPgSCV : string := "pgscv".
Definition SelectorYCNativeHost : string := "yc_native_host".
Definition SelectorYCNativePooler : string := "yc_native_pooler".
Definition SelectorPgBouncer : string := "pgbouncer".
Definition SelectorPgSCVSystem : string := "pgscv_system".

Definition quoted_pairs (l : list (string * string)) : string :=
  strings_Join ((λ x, x.1 +:+ "=" +:+ dq +:+ "{{." +:+ x.2 +:+ "}}" +:+ dq) <$> l) ",".

Definition exporterFallbackSelector : string := "instance=~" +:+ dq +:+ "{{promre .Host}}(:[0-9]+)?" +:+ dq.

Definition container_selector : string := quoted_pairs [("cluster", "Env"); ("service_id", "Service"); ("container", "Container")].

Definition default_selectors : gmap string string := list_to_map
  [(SelectorPgSCV, container_selector);
   (SelectorYCNativeHost, quoted_pairs [("cluster", "Env"); ("resource_id", "Service")]);
   (SelectorYCNativePooler, quoted_pairs [("cluster", "Env"); ("subcluster_name", "Service")]);
   (SelectorPgBouncer, container_selector);
   (SelectorPgSCVSystem, container_selector);
   (ProviderPostgresExporter, exporterFallbackSelector);
   (ProviderNodeExporter, exporterFallbackSelector);
   (ProviderPgBouncerExporter, exporterFallbackSelector)].

Definition Default : Config := {|
  Enabled := false; Datasource := mkDatasource "" (mkAuth "" "" "" "" "" "") (10 * Second) 14000 4;
  Baseline_ := mkBaselineConfig (28 * (24 * Hour)) (14 * (24 * Hour)) (30 * Minute); Dips_ := mkDips 10 2;
  WraparoundLeft := 200000000; Providers := mkProviders ProviderPgSCV ProviderYCNative ProviderYCNative;
  Selectors := default_selectors; Targets := []; RoleLabel := "query_type"; ExcludeRoles := Some ["postgres_exporter"];
  AutoMapDiscovered := None; AutoMapStatic := None; DiscoveryEnvLabel := ""
|}.

Definition or_default (d x : Z) : Z := if x <=? 0 then d else x.
Definition or_default_f (d x : float) : float := if (x <=? 0)%float then d else x.
Definition or_string (d x : string) : string := if decide (x = "") then d else x.

(** A key of the defaults that is missing or empty takes the default. *)
Definition with_selectors (m : gmap string string) : gmap string string :=
  merge (λ d v, match d with Some d => Some (or_string d (default "" v)) | None => v end) default_selectors m.

Definition WithDefaults (c : Config) : Config :=
  let d := Default in
  let dsd := Datasource d in
  let ds := Datasource c in
  {| Enabled := Enabled c;
     Datasource := mkDatasource (URL ds) (ds_Auth ds) (or_default (ds_Timeout dsd) (ds_Timeout ds))
       (or_default (MaxQueryBytes dsd) (MaxQueryBytes ds)) (or_default (MaxConcurrency dsd) (MaxConcurrency ds));
     Baseline_ := mkBaselineConfig (or_default (Window (Baseline_ d)) (Window (Baseline_ c)))
       (or_default (MinHistory (Baseline_ d)) (MinHistory (Baseline_ c))) (or_default (CacheTTL (Baseline_ d)) (CacheTTL (Baseline_ c)));
     Dips_ := mkDips (or_default_f (ScorePoints (Dips_ d)) (ScorePoints (Dips_ c)))
       (or_default_f (LatencyFactor (Dips_ d)) (LatencyFactor (Dips_ c)));
     WraparoundLeft := or_default (WraparoundLeft d) (WraparoundLeft c);
     Providers := mkProviders (or_string (Core (Providers d)) (Core (Providers c))) (or_string (Pooler (Providers d)) (Pooler (Providers c)))
       (or_string (Host_ (Providers d)) (Host_ (Providers c)));
     Selectors := with_selectors (Selectors c); Targets := Targets c; RoleLabel := or_string (RoleLabel d) (RoleLabel c);
     ExcludeRoles := match ExcludeRoles c with Some l => Some l | None => ExcludeRoles d end;
     AutoMapDiscovered := AutoMapDiscovered c; AutoMapStatic := AutoMapStatic c; DiscoveryEnvLabel := DiscoveryEnvLabel c |}.

(** The roles a stock exporter may fill; the older providers may fill any. *)
Definition exporterRoles (p : Provider) : option (list Role) :=
  if decide (p = ProviderPostgresExporter) then Some [RoleCore]
  else if decide (p = ProviderNodeExporter) then Some [RoleHost]
  else if decide (p = ProviderPgBouncerExporter) then Some [RolePooler]
  else if decide (p = ProviderNone) then Some [RolePooler; RoleHost]
  else None.

Definition legacyProviders : list Provider := [ProviderPgSCV; ProviderYCNative; ProviderPgBouncer; ProviderPgSCVSystem].

Definition provider_ok (role : Role) (p : Provider) : bool :=
  if decide (p = "" ∨ p ∈ legacyProviders) then true
  else match exporterRoles p with Some roles => bool_decide (role ∈ roles) | None => false end.

(** No error, that is. *)
Definition checkProviders (p : ProvidersConfig) : bool :=
  provider_ok RoleCore (Core p) && provider_ok RolePooler (Pooler p) && provider_ok RoleHost (Host_ p).

Definition validateProviders (c : Config) : bool :=
  checkProviders (Providers c) && forallb (λ t, match tm_Providers t with Some p => checkProviders p | None => true end) (Targets c).

Definition auth_ok (a : AuthConfig) : bool :=
  let set_ (s : string) := negb (bool_decide (s = "")) in
  if decide (a_Type a ∈ [""; "none"]) then true
  else if decide (a_Type a = "bearer") then set_ (Token a) || set_ (TokenFromEnv a)
  else if decide (a_Type a = "basic") then set_ (Username a) && (set_ (Password a) || set_ (PasswordFromEnv a))
  else false.

Definition Validate (c : Config) : bool :=
  negb (Enabled c) ||
  (negb (bool_decide (URL (Datasource c) = "")) && (0 <? Window (Baseline_ c)) && (0 <? MinHistory (Baseline_ c)) &&
   (MinHistory (Baseline_ c) <=? Window (Baseline_ c)) && (Minute <=? CacheTTL (Baseline_ c)) &&
   (1024 <=? MaxQueryBytes (Datasource c)) && (1 <=? MaxConcurrency (Datasource c)) &&
   forallb (λ k, negb (bool_decide (default "" (Selectors c !! k) = "")))
     [SelectorPgSCV; SelectorYCNativeHost; SelectorYCNativePooler; SelectorPgBouncer] &&
   validateProviders c && auth_ok (ds_Auth (Datasource c))).

Definition providersFor (c : Config) (t : option TargetMapping) : ProvidersConfig :=
  match t with
  | Some t =>
      match tm_Providers t with
      | Some o => mkProviders (or_string (Core (Providers c)) (Core o)) (or_string (Pooler (Providers c)) (Pooler o))
                    (or_string (Host_ (Providers c)) (Host_ o))
      | None => Providers c
      end
  | None => Providers c
  end.

Definition providerForRole (p : ProvidersConfig) (role : Role) : Provider :=
  match role with RolePooler => Pooler p | RoleHost => Host_ p | RoleCore => Core p end.

(** ** Targets *)

Record ResolvedTarget := mkResolved {
  rt_Cluster : string; Env : string; Service : string; ServiceID : string; rt_Host : string; Container : string; rt_Instance : string;
  HostShort : string; rt_Port : string; rt_Providers : ProvidersConfig; Scrape : gmap Role string
}.

Record DiscoveryMeta := mkMeta {
  md_Source : string; ProviderID : string; md_Labels : gmap string string; Alias : string; Address : string; md_Port : string
}.

Definition isDiscovered (source : string) : bool := negb (bool_decide (source = "")) && negb (bool_decide (source = "static")).

(** The first label of a name; an address is left as it is. *)
Definition shortHost (fqdn : string) : string :=
  let host := match SplitHostPort fqdn with Some (h, _) => h | None => fqdn end in
  if is_ip host then fqdn
  else match cut_first "."%char fqdn with Some (label, _) => if decide (label = "") then fqdn else label | None => fqdn end.

Definition sourcePatroni : string := "patroni".
Definition labelPatroniScope : string := "patroni.scope".

(** What the standard library does with text here: the runs of bytes outside ASCII in [strconv.Quote],
    and the execution of a template, [None] being its error. *)
Class Rendering := { quote_wide : string → string; execute : string → ResolvedTarget → option string }.

Section matcher.
Context (cfg : Config) (meta : option (string → string → option DiscoveryMeta)).

Definition deriveTarget (cluster instance : string) (md : DiscoveryMeta) : ResolvedTarget :=
  let env := default "" (md_Labels md !! envLabelKey cfg) in
  if decide (md_Source md = sourcePatroni) then
    let scope := cmp_Or (default "" (md_Labels md !! labelPatroniScope)) cluster in
    let host := cmp_Or (Address md) instance in
    mkResolved cluster env scope scope host (cmp_Or (Alias md) (shortHost instance)) instance (shortHost host)
      (cmp_Or (md_Port md) defaultPGPort) (providersFor cfg None) ∅
  else
    mkResolved cluster env cluster (ProviderID md) instance (shortHost instance) instance (shortHost instance)
      (cmp_Or (md_Port md) defaultPGPort) (providersFor cfg None) ∅.

Definition static_target (cluster instance : string) (t : TargetMapping) : ResolvedTarget :=
  mkResolved cluster (tm_Env t) (tm_Service t) (tm_Service t) (tm_Host t) (tm_Container t) instance (shortHost (tm_Host t)) ""
    (providersFor cfg (Some t)) ∅.

Definition auto_static (cluster instance : string) (md : DiscoveryMeta) : ResolvedTarget :=
  mkResolved cluster "" "" "" instance "" instance (shortHost instance) (cmp_Or (md_Port md) defaultPGPort) (providersFor cfg None) ∅.

(** [None] is [ErrTargetNotMapped]. *)
Definition Resolve (cluster instance : string) : option ResolvedTarget :=
  match head (filter (λ t, tm_Cluster t = cluster ∧ tm_Instance t = instance) (Targets cfg)) with
  | Some t => Some (static_target cluster instance t)
  | None =>
      md ← (meta ← meta; meta cluster instance);
      if isDiscovered (md_Source md) then
        if autoMapEnabled cfg then Some (deriveTarget cluster instance md) else None
      else if autoMapStaticEnabled cfg then Some (auto_static cluster instance md) else None
  end.

Definition selectorKey (p : Provider) (role : Role) : string :=
  if decide (p = ProviderPgSCV) then SelectorPgSCV
  else if decide (p = ProviderPgBouncer) then SelectorPgBouncer
  else if decide (p = ProviderPgSCVSystem) then SelectorPgSCVSystem
  else if decide (p ∈ [ProviderPostgresExporter; ProviderNodeExporter; ProviderPgBouncerExporter]) then p
  else if decide (p = ProviderYCNative) then (if decide (role = RolePooler) then SelectorYCNativePooler else SelectorYCNativeHost)
  else SelectorPgSCV.

Context `{!GoText, !Rendering}.

Definition scraped (rt : ResolvedTarget) (role : Role) : string := default "" (Scrape rt !! role).

(** [inl] is an error. *)
Definition Selector (p : Provider) (role : Role) (rt : ResolvedTarget) : string + string :=
  if decide (scraped rt role = "") then
    match Selectors cfg !! selectorKey p role with
    | None => inl "no selector template"
    | Some raw => from_option inr (inl "render selector") (execute raw rt)
    end
  else inr (scraped rt role).

(** ** Strings in quotes *)

Definition ascii_nat (c : ascii) : Z := Z.of_N (Ascii.N_of_ascii c).
Definition backslash : ascii := Ascii.ascii_of_nat 92.
Definition hex_digit (n : Z) : string := String.substring (Z.to_nat n) 1 "0123456789abcdef".

Definition quote_byte (c : ascii) : string :=
  let short := list_to_map [(7, "a"); (8, "b"); (9, "t"); (10, "n"); (11, "v"); (12, "f"); (13, "r")] : gmap Z string in
  let n := ascii_nat c in
  match short !! n with
  | Some e => String backslash e
  | None =>
      if (n =? 34) || (n =? 92) then String backslash (String c "")
      else if (n <? 32) || (n =? 127) then String backslash "x" +:+ hex_digit (n / 16) +:+ hex_digit (n mod 16)
      else String c ""
  end.

(** [wide] is the run of bytes outside ASCII being read, backwards. *)
Fixpoint quote_go (wide : list ascii) (s : list ascii) : string :=
  let flushed := match wide with [] => "" | _ => quote_wide (String.string_of_list_ascii (rev wide)) end in
  match s with
  | [] => flushed
  | c :: s => if 127 <? ascii_nat c then quote_go (c :: wide) s else flushed +:+ quote_byte c +:+ quote_go [] s
  end.

(** [strconv.Quote], the verb [%q]. *)
Definition Quote (s : string) : string := dq +:+ quote_go [] (String.list_ascii_of_string s) +:+ dq.

(** [regexp.QuoteMeta]. *)
Definition meta_chars : list ascii := String.list_ascii_of_string (String backslash ".+*?()|[]{}^$").
Definition QuoteMeta (s : string) : string :=
  String.concat "" ((λ c, if decide (c ∈ meta_chars) then String backslash (String c "") else String c "") <$> String.list_ascii_of_string s).

Definition in_promql (c : ascii) : string :=
  if decide (c = backslash ∨ String c "" = dq) then String backslash (String c "") else String c "".

(** [promre] of the templates. *)
Definition promRegexLiteral (s : string) : string :=
  String.concat "" (in_promql <$> String.list_ascii_of_string (QuoteMeta s)).

(** ** The scrape of an exporter *)

(** The label of a map that has none is empty. *)
Definition label (l : gmap string string) (k : string) : string := default "" (l !! k).

Record anchorSpec := mkAnchor { a_query : string; addr : gmap string string → string * string }.

Definition server_addr (l : gmap string string) : string * string := default (label l "server", "") (SplitHostPort (label l "server")).

Definition anchorSpecs (p : Provider) : option anchorSpec :=
  if decide (p = ProviderPostgresExporter) then Some (mkAnchor "count by (instance, job, server) (pg_static)" server_addr)
  else if decide (p = ProviderNodeExporter) then
    Some (mkAnchor "count by (instance, job, nodename) (node_uname_info)" (λ l, (label l "nodename", "")))
  else if decide (p = ProviderPgBouncerExporter) then
    Some (mkAnchor ("count by (instance, job, host, port) (pgbouncer_databases_pool_size{" +:+
      String.concat "" ((λ c, if decide (c = straight_quote) then dq else String c "") <$> String.list_ascii_of_string pgbNoAdm) +:+ "})")
      (λ l, (label l "host", label l "port")))
  else None.

Definition usesAnchor (p : Provider) : option anchorSpec :=
  spec ← anchorSpecs p; if decide (default "" (Selectors cfg !! p) = exporterFallbackSelector) then Some spec else None.

Definition isFQDN (name : string) : bool := has_char "."%char name && negb (is_ip name).

Definition hostMatches (host : string) (rt : ResolvedTarget) : bool :=
  let fqdn := isFQDN host && (isFQDN (rt_Host rt) || isFQDN (rt_Instance rt)) in
  let same name := negb (bool_decide (name = "")) &&
    (EqualFold host name || negb fqdn && EqualFold (shortHost host) (shortHost name)) in
  let alias := Container rt in
  negb (bool_decide (host = "")) &&
  (same (rt_Host rt) || same (rt_Instance rt) ||
   negb (bool_decide (alias = "") || EqualFold alias (shortHost (rt_Host rt)) || EqualFold alias (shortHost (rt_Instance rt))) &&
   EqualFold (shortHost host) (shortHost alias)).

Definition scrape : Type := string * string.
Definition scrape_of (s : Sample) : scrape := (label (s_Labels s) "instance", label (s_Labels s) "job").

(** Whether a sample names the host of a target, and its port as well. *)
Definition names_host (spec : anchorSpec) (rt : ResolvedTarget) (s : Sample) : bool := hostMatches (addr spec (s_Labels s)).1 rt.
Definition names_port (spec : anchorSpec) (rt : ResolvedTarget) (s : Sample) : bool :=
  let port := (addr spec (s_Labels s)).2 in
  names_host spec rt s && (negb (bool_decide (port = "")) && bool_decide (port = rt_Port rt)).

Definition scrapes (keep : Sample → bool) (samples : list Sample) : gset scrape := list_to_set (scrape_of <$> filter keep samples).

Definition scrape_selector (sc : scrape) : string := "instance=" +:+ Quote sc.1 +:+ ",job=" +:+ Quote sc.2.

Definition scrapeSelector (samples : list Sample) (spec : anchorSpec) (rt : ResolvedTarget) : string :=
  let byHost := scrapes (names_host spec rt) samples in
  let found := if (1 <? size byHost)%nat then scrapes (names_port spec rt) samples else byHost in
  match elements found with [sc] => scrape_selector sc | _ => "" end.

(** ** The cache of the scrapes *)

Record anchorSnap := mkSnap { as_samples : list Sample; as_expires : time; as_failed : bool }.

Definition anchorTTL : duration := Minute.
Definition anchorErrorTTL : duration := 30 * Second.

(** [calls] counts the calls of [anchorSamples]. *)
Record matcher_state := mkState { anchors : gmap Provider anchorSnap; calls : nat }.

(** The clock, the datasource and whether the context is alive, at each call. *)
Context (now : nat → time) (ask : nat → string → query_error + list Sample) (alive : nat → bool).

Definition anchorSamples (p : Provider) (spec : anchorSpec) (fresh : bool) (st : matcher_state) : option (list Sample) * matcher_state :=
  let n := calls st in
  let cached := if fresh then None else snap ← anchors st !! p; if time_before (now n) (as_expires snap) then Some snap else None in
  match cached with
  | Some snap => (if as_failed snap then None else Some (as_samples snap), mkState (anchors st) (S n))
  | None =>
      match ask n (a_query spec) with
      | inl _ =>
          let snap := mkSnap [] (time_add (now n) anchorErrorTTL) true in
          (None, mkState (if negb fresh && alive n then <[p := snap]> (anchors st) else anchors st) (S n))
      | inr samples => (Some samples, mkState (<[p := mkSnap samples (time_add (now n) anchorTTL) false]> (anchors st)) (S n))
      end
  end.

Definition roleAssignments (p : ProvidersConfig) : list (Role * Provider) :=
  [(RoleCore, Core p); (RolePooler, Pooler p); (RoleHost, Host_ p)].

Definition with_scrape (m : gmap Role string) (rt : ResolvedTarget) : ResolvedTarget :=
  mkResolved (rt_Cluster rt) (Env rt) (Service rt) (ServiceID rt) (rt_Host rt) (Container rt) (rt_Instance rt) (HostShort rt) (rt_Port rt)
    (rt_Providers rt) m.

Definition role_step (fresh : bool) (acc : ResolvedTarget * matcher_state) (a : Role * Provider) : ResolvedTarget * matcher_state :=
  let '(rt, st) := acc in
  match usesAnchor a.2 with
  | None => (rt, st)
  | Some spec =>
      match anchorSamples a.2 spec fresh st with
      | (None, st) => (rt, st)
      | (Some samples, st) =>
          let sel := scrapeSelector samples spec rt in
          ((if decide (sel = "") then rt else with_scrape (<[a.1 := sel]> (Scrape rt)) rt), st)
      end
  end.

Definition ResolveCtx (cluster instance : string) (fresh : bool) (st : matcher_state) : option ResolvedTarget * matcher_state :=
  match Resolve cluster instance with
  | None => (None, st)
  | Some rt =>
      let '(rt, st) := foldl (role_step fresh) (rt, st) (roleAssignments (rt_Providers rt)) in (Some rt, st)
  end.

Inductive match_kind := MatchStatic | MatchExplicit | MatchAnchor | MatchTemplate.

Definition matchKind (p : Provider) (role : Role) (rt : ResolvedTarget) : match_kind :=
  match anchorSpecs p with
  | None => MatchStatic
  | Some _ =>
      match usesAnchor p with
      | None => MatchExplicit
      | Some _ => if decide (scraped rt role = "") then MatchTemplate else MatchAnchor
      end
  end.
End matcher.

(** ** Examples *)

Definition ascii_text : GoText := {|
  parse_json _ := None; url_Parse _ := None; ToLower := ascii_lower; EqualFold := λ a b, bool_decide (ascii_lower a = ascii_lower b) |}.
Definition plain : Rendering := {| quote_wide := λ s, s; execute := λ raw rt, Some (rt_Host rt) |}.

Example Quote_value : @Quote plain ("a" +:+ dq +:+ String backslash "b") = dq +:+ "a" +:+ String backslash dq +:+ String backslash (String backslash "b") +:+ dq.
Proof. by vm_compute. Qed.

Example promre_value : promRegexLiteral "db.1" = "db" +:+ String backslash (String backslash ".1").
Proof. by vm_compute. Qed.

Example shortHost_values : shortHost <$> ["rc1a-abc.mdb.net"; "10.0.0.1:5432"; "db"; ".x"] = ["rc1a-abc"; "10.0.0.1:5432"; "db"; ".x"].
Proof. by vm_compute. Qed.

Definition sample_target : ResolvedTarget :=
  mkResolved "c" "" "c" "id" "db-1.prod.net" "db-1" "db-1.prod.net" "db-1" "5432" (mkProviders ProviderPostgresExporter ProviderNone ProviderNone) ∅.

Example hostMatches_values : (λ h, @hostMatches ascii_text h sample_target) <$> ["DB-1.prod.net"; "db-1"; "db-1.test.net"; "db-2"; ""]
  = [true; true; false; false; false].
Proof. by vm_compute. Qed.

(** ** A configuration with its defaults *)

Lemma with_selectors_default m k d : default_selectors !! k = Some d → with_selectors m !! k = Some (or_string d (default "" (m !! k))).
Proof. intros Hd. unfold with_selectors. rewrite lookup_merge, Hd. by destruct (m !! k). Qed.

Lemma or_string_nonempty d x : d ≠ "" → or_string d x ≠ "".
Proof. unfold or_string. by case_decide. Qed.

Lemma selectorKey_default p role : ∃ d, default_selectors !! selectorKey p role = Some d ∧ d ≠ "".
Proof.
  unfold selectorKey. repeat case_decide; try (eexists; split; [by vm_compute|done]).
  match goal with H : p ∈ _ |- _ => rewrite !elem_of_cons, elem_of_nil in H; destruct H as [->|[->|[->|[]]]] end;
    (eexists; split; [by vm_compute|done]).
Qed.

Lemma selector_template c p role : ∃ raw, Selectors (WithDefaults c) !! selectorKey p role = Some raw ∧ raw ≠ "".
Proof.
  destruct (selectorKey_default p role) as (d & Hd & Hne). eexists. split; [by apply with_selectors_default|by apply or_string_nonempty].
Qed.

Lemma providers_allowed c t role : Validate (WithDefaults c) = true → Enabled c = true →
  match t with Some t => t ∈ Targets c | None => True end →
  let p := providerForRole (providersFor (WithDefaults c) t) role in p ≠ "" ∧ provider_ok role p = true.
Proof.
  intros Hv He Ht. unfold Validate in Hv. change (Enabled (WithDefaults c)) with (Enabled c) in Hv. rewrite He in Hv.
  cbn [negb orb] in Hv. apply andb_true_iff in Hv as [Hv _]. apply andb_true_iff in Hv as [_ Hv]. unfold validateProviders in Hv.
  apply andb_true_iff in Hv as [Hd Hts]. change (Targets (WithDefaults c)) with (Targets c) in Hts. rewrite forallb_forall in Hts.
  assert (Hdef : ∀ role, providerForRole (Providers (WithDefaults c)) role ≠ "" ∧ provider_ok role (providerForRole (Providers (WithDefaults c)) role) = true).
  { unfold checkProviders in Hd. rewrite !andb_true_iff in Hd. destruct Hd as [[H1 H2] H3].
    intros []; (split; [by apply or_string_nonempty|done]). }
  destruct t as [t|]; [|apply Hdef]. unfold providersFor. destruct (tm_Providers t) as [o|] eqn:Ho; [|apply Hdef].
  specialize (Hts t). rewrite Ho in Hts. specialize (Hts ltac:(by apply list_elem_of_In)). unfold checkProviders in Hts.
  rewrite !andb_true_iff in Hts. destruct Hts as [[H1 H2] H3]. specialize (Hdef role). revert Hdef. generalize (Providers (WithDefaults c)).
  intros d Hdef. destruct role; cbn [providerForRole Core Pooler Host_ or_string] in *; unfold or_string; (case_decide; [exact Hdef|done]).
Qed.

(** C40: A configuration that passes its validation has, once the defaults are filled in, a usable
    selector for everything it asks for: whatever way a target is found, each of its roles is given to
    a provider that may fill it, and the selector of that provider has a template that is not empty, so
    that only the rendering of the template itself can fail. *)
Theorem target_selectable `{!Rendering} c meta cluster instance rt role : Validate (WithDefaults c) = true → Enabled c = true →
  Resolve (WithDefaults c) meta cluster instance = Some rt →
  let p := providerForRole (rt_Providers rt) role in
  p ≠ "" ∧ provider_ok role p = true ∧ rt_Cluster rt = cluster ∧ rt_Instance rt = instance ∧
  ∃ raw, Selectors (WithDefaults c) !! selectorKey p role = Some raw ∧ raw ≠ "" ∧
    Selector (WithDefaults c) p role rt = from_option inr (inl "render selector") (execute raw rt).
Proof.
  intros Hv He Hr p.
  assert (∃ t, match t with Some t => t ∈ Targets c | None => True end ∧ rt_Providers rt = providersFor (WithDefaults c) t ∧
    rt_Cluster rt = cluster ∧ rt_Instance rt = instance ∧ Scrape rt = ∅) as (t & Ht & Hp & Hc & Hi & Hs).
  { unfold Resolve in Hr. change (Targets (WithDefaults c)) with (Targets c) in Hr.
    destruct (head (filter _ (Targets c))) as [t|] eqn:Hh.
    - injection Hr as <-. exists (Some t). split; [|done]. apply head_Some_elem_of in Hh. by apply list_elem_of_filter in Hh as [_ Hh].
    - exists None. apply bind_Some in Hr as (md & _ & Hr). unfold deriveTarget in Hr. repeat case_match; simplify_eq; done. }
  destruct (providers_allowed c t role Hv He Ht) as [Hne Hok]. destruct (selector_template c p role) as (raw & Hraw & Hrne).
  subst p. rewrite Hp in Hraw |- *. split_and!; try done. exists raw. split_and!; [done..|].
  unfold Selector, scraped. rewrite Hs, lookup_empty. cbn [default from_option]. rewrite Hraw. by destruct (execute raw rt).
Qed.

Definition sample_config : Config := WithDefaults {|
  Enabled := true; Datasource := mkDatasource "http://vm" (mkAuth "" "" "" "" "" "") 0 0 0;
  Baseline_ := mkBaselineConfig 0 0 0; Dips_ := mkDips 0 0; WraparoundLeft := 0; Providers := mkProviders ProviderPostgresExporter "" ProviderNodeExporter;
  Selectors := ∅; Targets := [mkMapping "c" "h" "prod" "svc" "h.prod" "h" (Some (mkProviders "" ProviderNone ""))]; RoleLabel := "";
  ExcludeRoles := None; AutoMapDiscovered := None; AutoMapStatic := None; DiscoveryEnvLabel := "" |}.

Lemma target_selectable_witness : @Selector sample_config plain ProviderPostgresExporter RoleCore
  (static_target sample_config "c" "h" (mkMapping "c" "h" "prod" "svc" "h.prod" "h" (Some (mkProviders "" ProviderNone "")))) = inr "h.prod".
Proof.
  destruct (@target_selectable plain sample_config None "c" "h" (static_target sample_config "c" "h" (mkMapping "c" "h" "prod" "svc" "h.prod" "h" (Some (mkProviders "" ProviderNone "")))) RoleCore)
    as (_ & _ & _ & _ & raw & _ & _ & Hsel); [vm_compute; reflexivity..|exact Hsel].
Defined.

(** ** Scrapes *)

(** The one scrape that names the host, or the one of those that names the port too. *)
Definition only_scrape `{!GoText} (spec : anchorSpec) (rt : ResolvedTarget) (samples : list Sample) (sc : scrape) : Prop :=
  (∃ s, s ∈ samples ∧ names_host spec rt s = true ∧ scrape_of s = sc) ∧
  ((∀ s, s ∈ samples → names_host spec rt s = true → scrape_of s = sc) ∨
   (∃ s, s ∈ samples ∧ names_port spec rt s = true) ∧ ∀ s, s ∈ samples → names_port spec rt s = true → scrape_of s = sc).

Lemma elem_of_scrapes keep samples sc : sc ∈ scrapes keep samples ↔ ∃ s, s ∈ samples ∧ keep s = true ∧ scrape_of s = sc.
Proof.
  unfold scrapes. rewrite elem_of_list_to_set, list_elem_of_fmap. split.
  - intros (s & -> & [Hk Hs]%list_elem_of_filter). exists s. by apply Is_true_true in Hk.
  - intros (s & Hs & Hk & <-). exists s. split; [done|]. apply list_elem_of_filter. by rewrite Hk.
Qed.

Lemma elements_one (X : gset scrape) sc : elements X = [sc] → sc ∈ X ∧ ∀ x, x ∈ X → x = sc.
Proof.
  intros He. split; [apply elem_of_elements; rewrite He; by left|]. intros x Hx%elem_of_elements. rewrite He in Hx.
  by apply list_elem_of_singleton in Hx.
Qed.

Lemma scrapeSelector_only `{!GoText, !Rendering} samples spec rt sel : scrapeSelector samples spec rt = sel → sel ≠ "" →
  ∃ sc, sel = scrape_selector sc ∧ only_scrape spec rt samples sc.
Proof.
  unfold scrapeSelector. destruct (1 <? _)%nat; intros <- Hne.
  - destruct (elements (scrapes (names_port spec rt) samples)) as [|sc [|]] eqn:He; try done.
    apply elements_one in He as [Hin Hall]. exists sc. split; [done|]. apply elem_of_scrapes in Hin as (s & Hs & Hp & Hsc). split.
    + exists s. split_and!; try done. by apply andb_true_iff in Hp as [? _].
    + right. split; [by exists s|]. intros s' Hs' Hp'. apply Hall, elem_of_scrapes. by exists s'.
  - destruct (elements (scrapes (names_host spec rt) samples)) as [|sc [|]] eqn:He; try done.
    apply elements_one in He as [Hin Hall]. exists sc. split; [done|]. split; [by apply elem_of_scrapes|].
    left. intros s Hs Hh. apply Hall, elem_of_scrapes. by exists s.
Qed.

Section scraping.
Context `{!GoText, !Rendering} (cfg : Config) (meta : option (string → string → option DiscoveryMeta)).
Context (now : nat → time) (ask : nat → string → query_error + list Sample) (alive : nat → bool).

Inductive reachable : matcher_state → Prop :=
  | reach_new : reachable (mkState ∅ 0)
  | reach_resolve st cluster instance fresh : reachable st → reachable (ResolveCtx cfg meta now ask alive cluster instance fresh st).2.

(** The datasource answered at the [n]-th call, and what it said is no older than a minute at the [m]-th. *)
Definition current (spec : anchorSpec) (samples : list Sample) (n m : nat) : Prop :=
  ask n (a_query spec) = inr samples ∧ (n = m ∨ (n < m)%nat ∧ now m < now n + anchorTTL).

Definition honest (st : matcher_state) : Prop :=
  ∀ p snap spec, anchors st !! p = Some snap → as_failed snap = false → anchorSpecs p = Some spec →
    ∃ n, (n < calls st)%nat ∧ ask n (a_query spec) = inr (as_samples snap) ∧ as_expires snap = time_add (now n) anchorTTL.

Lemma honest_next st anchors' : honest st → (∀ p snap, anchors' !! p = Some snap → as_failed snap = false → anchors st !! p = Some snap) →
  honest (mkState anchors' (S (calls st))).
Proof.
  intros Hh Ha p snap spec Hp Hf Hs. destruct (Hh p snap spec (Ha _ _ Hp Hf) Hf Hs) as (n & Hn & Hr). exists n. cbn. split; [lia|done].
Qed.

Lemma anchorSamples_honest p spec fresh st : honest st → anchorSpecs p = Some spec →
  let '(samples, st') := anchorSamples now ask alive p spec fresh st in
  honest st' ∧ calls st' = S (calls st) ∧
  ∀ l, samples = Some l → ∃ n, current spec l n (calls st) ∧ (fresh = true → n = calls st).
Proof.
  intros Hh Hspec. unfold anchorSamples.
  destruct (if fresh then None else _) as [snap|] eqn:Hc.
  - destruct fresh; [done|]. apply bind_Some in Hc as (snap' & Hp & Hb). destruct (time_before _ _) eqn:Ht; [|done]. simplify_eq.
    split_and!; [by apply honest_next|done|]. intros l. destruct (as_failed snap) eqn:Hf; [done|]. intros [= <-].
    destruct (Hh p snap spec Hp Hf Hspec) as (n & Hn & Ha & He). exists n. split; [|done]. split; [done|]. right. split; [done|].
    rewrite He in Ht. unfold time_before, time_add in Ht. lia.
  - destruct (ask (calls st) (a_query spec)) as [err|samples] eqn:Ha.
    + split_and!; [|done..]. apply honest_next; [done|]. intros q snap. destruct (negb fresh && alive (calls st)); [|done].
      intros [[<- <-]|[_ Hq]]%lookup_insert_Some Hf; done.
    + split_and!; [|done|].
      * intros q snap spec'. cbn [anchors]. intros [[<- <-]|[_ Hq]]%lookup_insert_Some Hf Hs'; cbn [calls as_samples as_expires].
        -- rewrite Hspec in Hs'. injection Hs' as <-. exists (calls st). split; [lia|done].
        -- destruct (Hh q snap spec' Hq Hf Hs') as (n & Hn & Hr). exists n. split; [lia|done].
      * intros l [= <-]. exists (calls st). split; [|done]. split; [done|by left].
Qed.

(** What the roles seen so far found. *)
Definition found_by (lo hi : nat) (fresh : bool) (rt0 : ResolvedTarget) (roles : list (Role * Provider)) (role : Role) (sel : string) : Prop :=
  ∃ p spec samples n m sc, (role, p) ∈ roles ∧ usesAnchor cfg p = Some spec ∧ (lo ≤ m < hi)%nat ∧ current spec samples n m ∧
    (fresh = true → n = m) ∧ sel = scrape_selector sc ∧ sel ≠ "" ∧ only_scrape spec rt0 samples sc.

Lemma found_by_later lo hi hi' fresh rt0 roles role sel : (hi ≤ hi')%nat → found_by lo hi fresh rt0 roles role sel →
  found_by lo hi' fresh rt0 roles role sel.
Proof. intros Hhi (p & spec & samples & n & m & sc & H1 & H2 & H3 & H4). exists p, spec, samples, n, m, sc. repeat split; try done; [lia|lia|apply H4..]. Qed.

Definition scraped_so_far (lo : nat) (fresh : bool) (rt0 : ResolvedTarget) (roles : list (Role * Provider)) (acc : ResolvedTarget * matcher_state) : Prop :=
  honest acc.2 ∧ (lo ≤ calls acc.2)%nat ∧ acc.1 = with_scrape (Scrape acc.1) rt0 ∧
  ∀ role sel, Scrape acc.1 !! role = Some sel → found_by lo (calls acc.2) fresh rt0 roles role sel.

Lemma role_step_scraped lo fresh rt0 roles acc a : a ∈ roles → scraped_so_far lo fresh rt0 roles acc →
  scraped_so_far lo fresh rt0 roles (role_step cfg now ask alive fresh acc a).
Proof.
  destruct acc as [rt st], a as [r p]. intros Ha (Hh & Hlo & Hrt & Hs). cbn [fst snd] in *. unfold role_step. cbn [fst snd].
  destruct (usesAnchor cfg p) as [spec|] eqn:Hu; [|by split_and!].
  assert (Hspec : anchorSpecs p = Some spec) by (unfold usesAnchor in Hu; apply bind_Some in Hu as (? & ? & ?); case_decide; simplify_eq; done).
  pose proof (anchorSamples_honest p spec fresh st Hh Hspec) as Hn. destruct (anchorSamples now ask alive p spec fresh st) as [[samples|] st'].
  all: destruct Hn as (Hh' & Hc & Hl).
  2:{ split_and!; cbn [fst snd]; try done; [lia|]. intros role sel Hsel. eapply found_by_later; [|by apply Hs]. lia. }
  destruct (Hl samples eq_refl) as (n & Hcur & Hfresh).
  case_decide as Hsel; cbn [fst snd].
  - split_and!; cbn [fst snd]; try done; [lia|]. intros role sel Hs'. eapply found_by_later; [|by apply Hs]. lia.
  - split_and!; cbn [fst snd]; try done; [lia|by rewrite Hrt|]. intros role sel. cbn [Scrape with_scrape].
    intros [[<- <-]|[_ Hs']]%lookup_insert_Some; [|eapply found_by_later; [|by apply Hs]; lia].
    destruct (scrapeSelector_only samples spec rt _ eq_refl Hsel) as (sc & Hsc & Honly).
    exists p, spec, samples, n, (calls st), sc. split_and!; try done; [lia..|]. by rewrite Hrt in Honly.
Qed.

Lemma ResolveCtx_scraped st cluster instance fresh : honest st →
  let '(rt, st') := ResolveCtx cfg meta now ask alive cluster instance fresh st in
  honest st' ∧ (calls st ≤ calls st')%nat ∧
  match Resolve cfg meta cluster instance with
  | None => rt = None
  | Some rt0 => ∃ rt', rt = Some rt' ∧ rt' = with_scrape (Scrape rt') rt0 ∧
      ∀ role sel, Scrape rt' !! role = Some sel → found_by (calls st) (calls st') fresh rt0 (roleAssignments (rt_Providers rt0)) role sel
  end.
Proof.
  intros Hh. unfold ResolveCtx. destruct (Resolve cfg meta cluster instance) as [rt0|] eqn:Hr; [|done].
  assert (Hgo : ∀ roles l acc, l ⊆ roles → scraped_so_far (calls st) fresh rt0 roles acc →
    scraped_so_far (calls st) fresh rt0 roles (foldl (role_step cfg now ask alive fresh) acc l)).
  { intros roles l. induction l as [|a l IH]; intros acc Hl Hacc; [done|]. cbn [foldl]. apply IH; [set_solver|].
    apply role_step_scraped; [set_solver|done]. }
  assert (Hscrape : Scrape rt0 = ∅).
  { unfold Resolve in Hr. destruct (head _) in Hr; [by injection Hr as <-|]. apply bind_Some in Hr as (md & _ & Hr).
    unfold deriveTarget in Hr. repeat case_match; simplify_eq; done. }
  specialize (Hgo (roleAssignments (rt_Providers rt0)) _ (rt0, st) ltac:(reflexivity)).
  destruct (foldl _ _ _) as [rt st']. destruct Hgo as (Hh' & Hlo & Hrt & Hs).
  { split_and!; cbn [fst snd]; try done. - by destruct rt0. - intros role sel. rewrite Hscrape. by intros ?%lookup_empty_Some. }
  split_and!; [done..|]. by exists rt.
Qed.

Lemma reachable_honest st : reachable st → honest st.
Proof.
  induction 1 as [|st cluster instance fresh _ IH].
  - intros p snap spec. cbn [anchors]. by intros ?%lookup_empty_Some.
  - pose proof (ResolveCtx_scraped st cluster instance fresh IH) as Hr. by destruct (ResolveCtx _ _ _ _ _ _ _ _ _) as [rt st'], Hr.
Qed.

(** Looking for the scrape of a target changes nothing of it but the selectors of its roles, and an
    exporter's scrape is taken for the target's own only when nothing else can be meant: the role kept the
    selector of the defaults, the datasource's list of scrapes is at most a minute old, or new when
    the caller asks for that, and the scrape is the only one of that list that names the host, or the only one
    of those that names the port of its PostgreSQL as well. *)
Theorem scrape_found st cluster instance fresh rt st' : reachable st →
  ResolveCtx cfg meta now ask alive cluster instance fresh st = (Some rt, st') →
  ∃ rt0, Resolve cfg meta cluster instance = Some rt0 ∧ rt = with_scrape (Scrape rt) rt0 ∧
  ∀ role sel, Scrape rt !! role = Some sel →
    ∃ spec samples n m sc, usesAnchor cfg (providerForRole (rt_Providers rt) role) = Some spec ∧ current spec samples n m ∧
      (calls st ≤ m < calls st')%nat ∧ (fresh = true → n = m) ∧ sel = scrape_selector sc ∧ only_scrape spec rt samples sc.
Proof.
  intros Hst Hr. pose proof (ResolveCtx_scraped st cluster instance fresh (reachable_honest st Hst)) as Hs. rewrite Hr in Hs.
  destruct Hs as (_ & _ & Hs). destruct (Resolve cfg meta cluster instance) as [rt0|]; [|done]. destruct Hs as (rt' & [= <-] & Hrt & Hs).
  exists rt0. split_and!; [done..|]. intros role sel Hsel.
  destruct (Hs role sel Hsel) as (p & spec & samples & n & m & sc & Hin & Hu & Hm & Hcur & Hf & -> & _ & Honly).
  exists spec, samples, n, m, sc. split_and!; try done; [|lia..|].
  - rewrite Hrt. cbn [rt_Providers with_scrape]. unfold roleAssignments in Hin. rewrite !elem_of_cons, elem_of_nil in Hin.
    by destruct Hin as [[= -> ->]|[[= -> ->]|[[= -> ->]|[]]]].
  - by rewrite Hrt.
Qed.
End scraping.

(** Two scrapes of the host, of which one names the port. *)
Definition anchor_sample (instance server : string) : Sample :=
  mkSample (list_to_map [("instance", instance); ("job", "pg"); ("server", server)]) 1.

Definition sample_ask (n : nat) (q : string) : query_error + list Sample :=
  inr [anchor_sample "e1:9187" "h.prod:5432"; anchor_sample "e2:9187" "h.prod:5433"; anchor_sample "e3:9187" "other:5432"].

Definition sample_meta : option (string → string → option DiscoveryMeta) := Some (λ _ _, Some (mkMeta "static" "" ∅ "" "" "5433")).

Definition sample_resolved : option ResolvedTarget * matcher_state :=
  @ResolveCtx sample_config sample_meta ascii_text plain (λ n, 0) sample_ask (λ _, true) "c2" "h.prod" false (mkState ∅ 0).

Lemma scrape_found_witness : ∃ rt st', sample_resolved = (Some rt, st') ∧
  Scrape rt !! RoleCore = Some ("instance=" +:+ dq +:+ "e2:9187" +:+ dq +:+ ",job=" +:+ dq +:+ "pg" +:+ dq) ∧
  ∃ rt0, Resolve sample_config sample_meta "c2" "h.prod" = Some rt0 ∧ rt = with_scrape (Scrape rt) rt0.
Proof.
  assert (Hrun : match sample_resolved with
    | (Some rt, _) => Scrape rt !! RoleCore = Some ("instance=" +:+ dq +:+ "e2:9187" +:+ dq +:+ ",job=" +:+ dq +:+ "pg" +:+ dq)
    | (None, _) => False end) by (vm_compute; reflexivity).
  destruct sample_resolved as [[rt|] st'] eqn:Hr; [|destruct Hrun]. exists rt, st'. split; [reflexivity|]. split; [exact Hrun|].
  destruct (@scrape_found ascii_text plain sample_config sample_meta (λ n, 0) sample_ask (λ _, true) (mkState ∅ 0) "c2" "h.prod" false rt st'
    (@reach_new ascii_text plain sample_config sample_meta (λ n, 0) sample_ask (λ _, true)) Hr)
    as (rt0 & H0 & Hrt & _).
  exists rt0. split; [exact H0|exact Hrt].
Defined.
